(* ===== verification/_CoqProject ===== *)
-Q . S2P
Prelude.v
Base64.v
RadixSort.v
Str.v
StrBuf.v
StrNum.v
Path.v
PathClean.v
Regex.v
RegexMatch.v
RegexCompile.v
Stream.v
BufferStream.v
BitBuffer.v
Hash.v
HashTable.v
HashMaps.v
RingBuffer.v
ObjectMap.v
ObjectMapThreads.v
Sizes.v
BucketArray.v
VirtualArray.v
Random.v
Blowfish.v
Digest.v
Md5.v
Sha.v
Uuid.v
Event.v
Json.v
JsonText.v
JsonEscape.v
NsyncMu.v
NsyncMuSpec.v
NsyncMuRefine.v
NsyncMuLive.v
Utf8.v
Utf8Proc.v
Utf8Decompose.v
Utf8Map.v
RpState.v
Rpmalloc.v
RpSize.v
RpWp.v
RpBlocks.v
RpLists.v
RpInv.v
RpLive.v
RpPage.v
RpFree.v
RpKeeps.v
RpDealloc.v
RpDefer.v
RpBirth.v
RpSpan.v
RpHuge.v
RpAlloc.v
RpHugeAlloc.v
RpThread.v
RpSystem.v
RpSafe.v
