(* ===== verification/Prelude.v ===== *)
(** * The C libraries of Laser-D: a verification library

    The runtime library of Laser-D ([src/library]) is a set of C libraries.  This
    development models the core of its foundation library
    ([src/library/foundation_lib/foundation], written [foundation/] below): its
    containers, its text handling, its streams and its coders, the mutex of
    [nsync] ([src/library/nsync], written [nsync/]) and the Unicode functions of
    [utf8proc] ([src/library/utf8proc], written [utf8proc/]), and proves what each
    of them promises.

    ** Files, from the first to the last

    - [Prelude]: machine integers ([wrap], [in_u]: a C unsigned integer of [w]
      bits is a [Z] and every operation that can leave the type is wrapped),
      their bits (hint databases [cint] and [cbits], tactics [zbits],
      [eval_pow], [case_if]), memory as a list of bytes ([write_at]), the bytes
      of integers ([le_uint], [le_bytes], the swaps of [foundation/bits.h]) and
      lemmas on lists that the components share.
    - [Base64]: [foundation/base64.c].
    - [RadixSort]: [foundation/radixsort.c]; both index widths, the histograms
      with the check for data that is still sorted, the passes on integers and
      on floating point numbers, and opaque data.
    - [Str], [StrBuf], [StrNum]: [foundation/string.c]; searching, splitting and
      matching; building strings in caller buffers and converting between UTF-8,
      UTF-16 and UTF-32; printing and parsing integers up to 512 bits.
    - [Path]: the parts of paths and joining them, [PathClean]: normalising them;
      [foundation/path.c].
    - [Regex]: the compiler and the machine of [foundation/regex.c];
      [RegexMatch]: items, what they match, and the machine on their code;
      [RegexCompile]: patterns as trees, their text and the compiler on it.
    - [Stream]: [foundation/stream.c].  The class [StreamImpl] is the virtual
      table [stream_vtable_t]; the classes [StreamLaws] and [StreamWriteLaws]
      state what an implementation promises to the functions that read and
      write lines, strings and integers through it; these functions are proved
      against the classes.
    - [BufferStream]: [foundation/bufferstream.c], streams in memory; the instance
      of the table and of its laws.
    - [BitBuffer]: [foundation/bitbuffer.c], integers of any number of bits in a
      block of memory or in a stream; a client of the classes of [Stream].
    - [Hash]: [foundation/hash.c].
    - [HashTable]: [foundation/hashtable.c], the lock-free tables; sequentially,
      and with any number of threads in the module [Concurrent].
    - [HashMaps]: [foundation/hashmap.c] and [foundation/uuidmap.c], one model
      over the class [MapKey] of key types.
    - [RingBuffer]: [foundation/ringbuffer.c], the buffer, and the stream on it
      with a reading and a writing thread, a step of a thread per load or store.
    - [ObjectMap]: [foundation/objectmap.c], reference counted objects behind
      handles; [ObjectMapThreads]: threads that acquire and release them.
    - [BucketArray]: [foundation/bucketarray.c]; [VirtualArray]:
      [foundation/virtualarray.c], growable arrays of elements of one size;
      [Sizes]: their [size_t], natural numbers that wrap around.
    - [Random]: the integers of [foundation/random.c]; the generator, the ranges
      and the buffers of the threads.
    - [Blowfish]: [foundation/blowfish.c], the block cipher and its modes.
    - [Digest]: blocks, padding and hexadecimal text of message digests;
      [Md5]: [foundation/md5.c]; [Sha]: [foundation/sha.c], SHA-256 and SHA-512 as
      one development over the class [Sha2].
    - [Uuid]: [foundation/uuid.c], a client of [Md5] and [Random].
    - [Event]: [foundation/event.c], the blocks and the streams, and in the module
      [Lock] the threads that post and process.
    - [Json]: the parsers of [foundation/json.c]; [JsonText]: the grammar of JSON
      texts and the tokens that describe them; [JsonEscape]: the escapes of
      strings.
    - [NsyncMu]: the reader-writer mutex of [nsync/internal/mu.c], a step of a
      thread per access to the shared word; [NsyncMuSpec]: the abstract lock and
      its invariant; [NsyncMuRefine]: the code refines it; [NsyncMuLive]: no
      wakeup is lost.
    - [Utf8]: reading and writing code points, and [Utf8Proc]: the other functions
      of [utf8proc/utf8proc.c], over the class [UnicodeData] of the tables;
      [Utf8Decompose]: what decomposition gives on well-formed tables
      ([tables_ok]); [Utf8Map]: newlines, composition and the encoding in place as
      functions of lists, and [utf8proc_map].
    - [RpState]: the structs and size classes of the allocator
      [rpmalloc/rpmalloc.c], the memory interface [rpmalloc_interface_t] as the
      class [MemoryInterface], and a monad over the state; [Rpmalloc]: its functions, from
      [page_allocate_block] to [rpmalloc]; [RpSize]: the size classes.  What the
      functions do is proved with the weakest preconditions of [RpWp], free lists
      included; the invariant has the blocks of the pages ([RpBlocks]), the lists
      of pages ([RpLists]), spans, huge blocks, heaps and threads ([RpInv]), and
      [RpLive] says what stays when a function runs.  [RpPage], [RpFree], [RpKeeps], [RpDealloc] and
      [RpDefer]: blocks and pages, and freeing; [RpBirth], [RpSpan], [RpHuge],
      [RpAlloc], [RpHugeAlloc]: new pages and spans, huge blocks, allocating;
      [RpThread]: heaps for threads; [RpSafe]: runs of a program, with [RpSystem], a
      system that keeps the promises of the class [MemoryLaws].

    ** How state and operations correspond

    A struct is a [Record] with the C fields; an enumeration is an [Inductive];
    a C function is a [Definition] of the same name that takes the state and
    returns the result and the new state.  A loop is a [Fixpoint], on the data
    where it consumes data and on fuel otherwise.  [None] stands for fuel that
    ran out, for a blocked thread or for undefined behaviour, as the comment at
    each definition says; the theorems prove that the fuel given in their
    statements is enough.  The bounds are: two calls for the recursive ring
    buffer functions; the capacity for the probing loops of the hash tables; one
    step per byte (or chunk) for the loops on streams and strings; two calls per
    byte and two more for the JSON parsers; the square of the length for cleaning
    a path; a step per byte for the compiler of patterns; 64 steps for the
    power of two of a bucket array; and for the machine the
    number of items times the length of the input and five; one call per event
    for reading a block; the longest chain of mappings of the Unicode tables (twice with
    [UTF8PROC_LUMP]), a step per code point, and the square of their number for
    their order; the number of
    steps of a thread in a hash table is bounded by twice the capacity and one;
    for [heap_get_page], 2^16 for every page there is, and two.
    Fields that no modelled operation depends on (paths, time stamps, the vtable
    pointer) are left out of the records.  The target is a little-endian machine
    with 64-bit sizes, as the build files have it; bytes are [Z] values below
    256 and addresses are offsets in a list of bytes.  The C library functions
    that the sources call ([snprintf], [strtoull], [memcpy] ...) are modelled as
    far as the sources use them.  Memory that C leaves uninitialised is read
    through the parameter [uninit] of the class [Uninit].  Allocation succeeds.
    The tables of [utf8proc/utf8proc_data.c], some 17000 lines that a generator
    makes from the Unicode data files, are a parameter, the class [UnicodeData];
    [tables_ok] says what the theorems need of them: indices lead to entries,
    mappings lead to assigned code points and not around.  A table of five
    properties meets it ([small_ok]).

    ** What the theorems show

    - Sorting: [radixsort_sort] gives a permutation that sorts every supported
      type, the state between calls stays well-formed.
    - Coders: Base64 decodes what it encodes within the stated bounds and skips
      foreign characters; bit buffers read back what was written through them,
      in memory and in streams; UTF-16 and UTF-32 text in either byte order
      converts to UTF-8 whose glyphs are those of the text without its byte order
      marks, and never beyond the capacity; integers printed are
      integers parsed; Blowfish decrypts what it encrypts in every mode; MD5,
      SHA-256 and SHA-512 of a message in pieces are the functions of RFC 1321 and
      FIPS 180-4 of the whole message.
    - Strings: substring search gives the first occurrence; splitting gives the
      fields; stripping, merging, appending and prepending do what their names
      say inside the capacity; pattern matching is matching against a prefix.
    - Regular expressions: the compiler turns the text of a pattern without
      branches into the code of its items, in an array that grows, unless a
      quantifier finds one free byte in it; the machine finds what items match.
    - Paths: the functions that take a path apart agree on its directory, name and
      extension; joining puts one separator between two paths; cleaning a path
      returns, stays inside its buffer, and leaves a clean path alone.
    - Streams: lines, strings and integers read what was written, in binary and in
      text mode and in both byte orders; a memory stream has the content and the
      position of its abstract counterpart.
    - JSON: both parsers return and read only the text and its terminator; every
      JSON text gives the tokens that describe it; the number of tokens does not
      depend on the array they are put in; escaped bytes are a JSON string that
      unescapes to them as far as they are ASCII.
    - Containers: hash tables and hash maps refine finite maps; ring buffers
      refine bounded queues; bucket arrays and virtual arrays refine lists as long
      as their sizes do not wrap around; an object map refines a map
      from live handles to objects and counts, and gives a handle again only
      after 1023 others.
    - Events: a round of posting and reading delivers every event once, in order
      and not before its time; the index of the write block is a lock.
    - Identifiers: every generated UUID has its version and variant; those of the
      time are unique; those of names are the MD5 of RFC 4122 in another order of
      bytes; text reads back.
    - Random numbers: the six branches of the generator are one recurrence around
      a ring; numbers of a range lie in it; threads do not share a buffer while
      there are as many as were allocated in advance.
    - Mutex: with any number of threads below 2^24, writers hold it alone, the
      sanity checks of unlocking never panic, and when a thread sleeps for a mutex
      that nobody holds, the threads in the code bring one of them to hold it.
    - Unicode: reading a code point succeeds exactly on the UTF-8 form of a code
      point that is no surrogate; decomposition gives the decomposed code points in
      canonical order, as many as fit; mapping a string is decomposition, ordering,
      composition and encoding of lists, although the code does it in place.
    - Allocator: every size up to 2 MiB has a smallest class of blocks that hold it;
      whatever threads start, allocate, free and write, blocks are aligned, apart
      and keep their contents, and the calls return; a call is one step, mappings
      are fresh and aligned and committing succeeds (the paths behind a failing
      commit are wrong, as the findings say).
    - Threads: an object is deallocated once, by its last reference; in a hash table keys never move, an operation on a key that is
      there finds it and every operation is wait-free; a ring buffer stream
      delivers every byte once and in order, although the bytes are copied while
      the other thread moves its position.  Interleavings are sequences of
      atomic steps of a sequentially consistent memory; the C code asks for
      acquire and release orders.
    - Deviations: theorems that exhibit behaviour the code does not mean to have
      (a string of 640 bytes that loses a chunk, an empty string that
      consumes too much, a concurrent insertion that reports a full table, a lost
      wakeup, an unclosed JSON array that is read beyond its end, an event that is
      stored outside its block).

    ** What is not modelled

    Of the foundation library: absolute paths,
    random numbers of floating point type; branches of regular expressions are
    modelled, but no theorem is about them, as they do not work; wide-character and floating
    point text; memory accounting; everything that is an interface to the
    operating system (files, pipes, processes, threads, time, logging).  Of
    [nsync]: waiters with conditions ([mu_wait.c]; the loop over the waiters of an
    unlock is the one for waiters without), condition variables, notes, counters.
    Of [utf8proc]: the version strings, and the data of the tables.  Of [rpmalloc]:
    initialisation and finalisation, the system calls of the default memory
    interface, and statistics; reallocation, aligned allocation, first class
    heaps and the end of threads are modelled, but the runs of [RpSafe] are without
    them, and steps of threads inside of calls are not interleaved.  The D compiler and the
    runtime in D are not part of this development. *)

From stdpp Require Export base tactics numbers list list_numbers option gmap.
From Stdlib Require Export ZArith Lia Bool.

#[global] Open Scope Z_scope.

(** ** Machine integers

    A C unsigned integer of [w] bits is a [Z] in [0, 2^w); every arithmetic
    operation of the source is followed by its wrap-around. *)

Definition wrap (w z : Z) : Z := z mod 2 ^ w.

Abbreviation u8 := (wrap 8).
Abbreviation u16 := (wrap 16).
Abbreviation u32 := (wrap 32).
Abbreviation u64 := (wrap 64).

(** [in_u w z]: [z] is a value of the unsigned type of width [w]. *)
Definition in_u (w z : Z) : Prop := 0 <= z < 2 ^ w.

#[export] Instance in_u_dec w z : Decision (in_u w z).
Proof. unfold in_u. apply _. Defined.

(** [(1U << n) - 1]: the low mask. *)
Definition low_mask (n : Z) : Z := Z.shiftl 1 n - 1.

(** Shift left and rotate at width [w]. *)
Definition shl (w x n : Z) : Z := wrap w (Z.shiftl x n).
Definition rotl (w x n : Z) : Z := Z.lor (shl w x n) (Z.shiftr x (w - n)).
Definition rotr (w x n : Z) : Z := Z.lor (Z.shiftr x n) (shl w x (w - n)).

(** Bytes: a byte is a [Z] below 256; a buffer is a list of bytes. *)
Abbreviation bytes := (list Z) (only parsing).
Definition byte_ok (b : Z) : Prop := 0 <= b < 256.
Abbreviation bytes_ok := (Forall byte_ok).

#[export] Instance byte_ok_dec b : Decision (byte_ok b).
Proof. unfold byte_ok. apply _. Defined.

Create HintDb cint.
Create Rewrite HintDb cint.
Create Rewrite HintDb cbits.

Lemma pow2_pos n : 0 <= n -> 0 < 2 ^ n.
Proof. intros. apply Z.pow_pos_nonneg; lia. Qed.

Lemma wrap_range w z : 0 <= w -> 0 <= wrap w z < 2 ^ w.
Proof. intros. apply Z.mod_pos_bound, pow2_pos. done. Qed.

Lemma wrap_small w z : 0 <= z < 2 ^ w -> wrap w z = z.
Proof. apply Z.mod_small. Qed.

Lemma wrap_in_u w z : 0 <= w -> in_u w (wrap w z).
Proof. apply wrap_range. Qed.

Lemma wrap_wrap w z : wrap w (wrap w z) = wrap w z.
Proof. unfold wrap. apply Zmod_mod. Qed.

Lemma wrap_add_l w a b : wrap w (wrap w a + b) = wrap w (a + b).
Proof. unfold wrap. apply Zplus_mod_idemp_l. Qed.

Lemma wrap_add_r w a b : wrap w (a + wrap w b) = wrap w (a + b).
Proof. unfold wrap. apply Zplus_mod_idemp_r. Qed.

Lemma wrap_mul_l w a b : wrap w (wrap w a * b) = wrap w (a * b).
Proof. unfold wrap. apply Zmult_mod_idemp_l. Qed.

Lemma wrap_mul_r w a b : wrap w (a * wrap w b) = wrap w (a * b).
Proof. unfold wrap. apply Zmult_mod_idemp_r. Qed.

Lemma wrap_testbit w z i :
  0 <= w -> Z.testbit (wrap w z) i = bool_decide (i < w) && Z.testbit z i.
Proof.
  intros. unfold wrap. case_bool_decide.
  - by rewrite Z.mod_pow2_bits_low.
  - by rewrite Z.mod_pow2_bits_high by lia.
Qed.

Lemma low_mask_ones n : low_mask n = Z.ones n.
Proof. unfold low_mask. by rewrite Z.ones_equiv, Z.shiftl_1_l, Z.sub_1_r. Qed.

Lemma land_low_mask z n : 0 <= n -> Z.land z (low_mask n) = z mod 2 ^ n.
Proof. intros. rewrite low_mask_ones. by apply Z.land_ones. Qed.

Lemma in_u_width w z : in_u w z -> 0 <= w.
Proof.
  intros Hz. destruct (decide (0 <= w)); [done|]. unfold in_u in Hz.
  rewrite Z.pow_neg_r in Hz by lia. lia.
Qed.

Lemma in_u_testbit w z i : in_u w z -> w <= i -> Z.testbit z i = false.
Proof.
  intros Hz Hi. pose proof (in_u_width w z Hz).
  rewrite <- (wrap_small w z Hz). rewrite wrap_testbit by done.
  rewrite bool_decide_eq_false_2 by lia. done.
Qed.

Lemma in_u_of_testbit w z :
  0 <= w -> 0 <= z -> (forall i, w <= i -> Z.testbit z i = false) -> in_u w z.
Proof.
  intros Hw Hz Hb. split; [done|].
  destruct (decide (z < 2 ^ w)); [done|]. exfalso.
  assert (0 < z) by (pose proof (pow2_pos w Hw); lia).
  assert (w <= Z.log2 z) by (apply Z.log2_le_pow2; lia).
  specialize (Hb _ H0). rewrite Z.bit_log2 in Hb by lia. done.
Qed.

Lemma in_u_lor w a b : in_u w a -> in_u w b -> in_u w (Z.lor a b).
Proof.
  intros Ha Hb. pose proof (in_u_width w a Ha).
  apply in_u_of_testbit; [done| |].
  - apply Z.lor_nonneg. split; [apply Ha|apply Hb].
  - intros i Hi. by rewrite Z.lor_spec, !(in_u_testbit w) by done.
Qed.

Lemma in_u_lxor w a b : in_u w a -> in_u w b -> in_u w (Z.lxor a b).
Proof.
  intros Ha Hb. pose proof (in_u_width w a Ha).
  apply in_u_of_testbit; [done| |].
  - apply Z.lxor_nonneg. unfold in_u in *. lia.
  - intros i Hi. by rewrite Z.lxor_spec, !(in_u_testbit w) by done.
Qed.

Lemma in_u_land w a b : in_u w a -> in_u w (Z.land a b).
Proof.
  intros Ha. pose proof (in_u_width w a Ha).
  apply in_u_of_testbit; [done| |].
  - apply Z.land_nonneg. left. apply Ha.
  - intros i Hi. by rewrite Z.land_spec, (in_u_testbit w a) by done.
Qed.

Lemma in_u_shiftr w a n : 0 <= n -> in_u w a -> in_u w (Z.shiftr a n).
Proof.
  intros Hn Ha. pose proof (in_u_width w a Ha).
  apply in_u_of_testbit; [done| |].
  - apply Z.shiftr_nonneg. apply Ha.
  - intros i Hi. rewrite Z.shiftr_spec by lia.
    apply (in_u_testbit w a); [done|lia].
Qed.

Lemma land_ones_in_u k m x : m = Z.ones k -> 0 <= k -> in_u k (Z.land x m).
Proof.
  intros -> Hk. rewrite Z.land_ones by done. by apply Z.mod_pos_bound, pow2_pos.
Qed.

#[export] Hint Resolve wrap_in_u in_u_lor in_u_lxor in_u_land in_u_shiftr : cint.
#[export] Hint Rewrite wrap_wrap wrap_add_l wrap_add_r wrap_mul_l wrap_mul_r : cint.

(** ** Bit-level reasoning

    Shifts at every index, negative ones included, so that rewriting needs no
    side condition on the index. *)

Lemma testbit_shiftr a n i :
  Z.testbit (Z.shiftr a n) i = bool_decide (0 <= i) && Z.testbit a (i + n).
Proof.
  case_bool_decide; [by apply Z.shiftr_spec|]. by apply Z.testbit_neg_r; lia.
Qed.

Lemma testbit_shiftl a n i :
  Z.testbit (Z.shiftl a n) i = bool_decide (0 <= i) && Z.testbit a (i - n).
Proof.
  case_bool_decide; [by apply Z.shiftl_spec|]. by apply Z.testbit_neg_r; lia.
Qed.

Lemma testbit_lnot a i :
  Z.testbit (Z.lnot a) i = bool_decide (0 <= i) && negb (Z.testbit a i).
Proof.
  case_bool_decide; [by apply Z.lnot_spec|]. by apply Z.testbit_neg_r; lia.
Qed.

Lemma testbit_ones k i :
  0 <= k -> Z.testbit (Z.ones k) i = bool_decide (0 <= i < k).
Proof.
  intros. rewrite Z.testbit_ones by done.
  case_bool_decide; lia.
Qed.

#[export] Hint Rewrite Z.lor_spec Z.land_spec Z.lxor_spec Z.ldiff_spec Z.bits_0
  testbit_shiftr testbit_shiftl testbit_lnot : cbits.
#[export] Hint Rewrite wrap_testbit testbit_ones using lia : cbits.

#[global] Arguments Z.testbit : simpl never.
#[global] Arguments Z.shiftl : simpl never.
#[global] Arguments Z.shiftr : simpl never.
#[global] Arguments Z.land : simpl never.
#[global] Arguments Z.lor : simpl never.
#[global] Arguments Z.lxor : simpl never.
#[global] Arguments Z.pow : simpl never.
#[global] Arguments Z.modulo : simpl never.
#[global] Arguments Z.div : simpl never.
#[global] Arguments wrap : simpl never.

(** [zbits i] reduces an equation between integers to the equation between
    their bits at an index [i >= 0]. *)
Ltac zbits i := apply Z.bits_inj'; intros i ?; autorewrite with cbits.

(** Decide the index comparisons that [lia] settles and split the others. *)
Ltac decide_bits :=
  repeat match goal with
  | |- context [bool_decide ?P] =>
      first [rewrite (bool_decide_eq_true_2 P) by lia
            |rewrite (bool_decide_eq_false_2 P) by lia]
  end.

Ltac simp_bool :=
  rewrite ?andb_false_r, ?andb_true_r, ?andb_false_l, ?andb_true_l,
    ?orb_false_r, ?orb_true_r, ?orb_false_l, ?orb_true_l,
    ?xorb_false_r, ?xorb_false_l.

Ltac split_bits :=
  decide_bits; repeat (case_bool_decide; decide_bits); try lia; simpl; simp_bool; try done.

(** Evaluate the bits of literals and the literal bit indices. *)
Ltac is_lit z :=
  match z with Z0 => idtac | Zpos ?p => is_pos p | Zneg ?p => is_pos p end
with is_pos p :=
  match p with xH => idtac | xO ?q => is_pos q | xI ?q => is_pos q end.

(** Evaluate the powers of literals, for [lia]. *)
Ltac eval_pow :=
  repeat match goal with
  | |- context [?b ^ ?e] =>
      let x := eval vm_compute in (b ^ e) in is_lit x; change (b ^ e) with x
  | H : context [?b ^ ?e] |- _ =>
      let x := eval vm_compute in (b ^ e) in is_lit x; change (b ^ e) with x in H
  end.

Ltac eval_bits :=
  repeat match goal with
  | |- context [Z.testbit ?a ?k] =>
      let k' := eval vm_compute in k in
      is_lit k';
      tryif (is_lit a)
      then (let b := eval vm_compute in (Z.testbit a k') in change (Z.testbit a k) with b)
      else (tryif (constr_eq k k') then fail else change (Z.testbit a k) with (Z.testbit a k'))
  end.

(** A byte-level bit goal has eight relevant indices; the others vanish. *)
Lemma byte_bit_high b i : byte_ok b -> 8 <= i -> Z.testbit b i = false.
Proof. intros. by apply (in_u_testbit 8). Qed.

Lemma below_8_cases i :
  0 <= i -> i = 0 \/ i = 1 \/ i = 2 \/ i = 3 \/ i = 4 \/ i = 5 \/ i = 6 \/ i = 7 \/ 8 <= i.
Proof. lia. Qed.

Ltac byte_cases i :=
  match goal with
  | H : 0 <= i |- _ =>
      destruct (below_8_cases i H) as [->|[->|[->|[->|[->|[->|[->|[->|?]]]]]]]];
      decide_bits; eval_bits; simp_bool; try done
  end.

(** ** Lists *)

Definition sumZ (l : list Z) : Z := foldr Z.add 0 l.

Lemma sumZ_app l k : sumZ (l ++ k) = sumZ l + sumZ k.
Proof. induction l as [|x l IH]; simpl; [done|]. rewrite IH. lia. Qed.

Lemma sumZ_nonneg l : Forall (fun x => 0 <= x) l -> 0 <= sumZ l.
Proof. induction 1; simpl; lia. Qed.

Lemma sumZ_take_le l n : Forall (fun x => 0 <= x) l -> 0 <= sumZ (take n l) <= sumZ l.
Proof.
  intros H. rewrite <- (take_drop n l) at 3. rewrite sumZ_app.
  split; [by apply sumZ_nonneg, Forall_take|].
  pose proof (sumZ_nonneg (drop n l) (Forall_drop _ _ _ H)). lia.
Qed.

Lemma lookup_total_drop {A} `{!Inhabited A} (l : list A) n i :
  drop n l !!! i = l !!! (n + i)%nat.
Proof. by rewrite !list_lookup_total_alt, lookup_drop. Qed.

Lemma lookup_total_take {A} `{!Inhabited A} (l : list A) n i :
  (i < n)%nat -> take n l !!! i = l !!! i.
Proof. intros. by rewrite !list_lookup_total_alt, lookup_take_lt. Qed.

(** The elements of a list selected by the value of a key. *)
Definition bucket {A} (key : A -> Z) (l : list A) (b : Z) : list A := filter (fun x => key x = b) l.

Lemma bucket_snoc {A} (key : A -> Z) l x b :
  bucket key (l ++ [x]) b = bucket key l b ++ (if decide (key x = b) then [x] else []).
Proof. unfold bucket. by rewrite filter_app. Qed.

Lemma bucket_length_app {A} (key : A -> Z) l k b :
  length (bucket key (l ++ k) b) = (length (bucket key l b) + length (bucket key k b))%nat.
Proof. unfold bucket. by rewrite filter_app, length_app. Qed.

Lemma bucket_all {A} (key : A -> Z) l b :
  length (bucket key l b) = length l -> Forall (fun x => key x = b) l.
Proof.
  unfold bucket. induction l as [|x l IH]; [constructor|].
  rewrite filter_cons. case_decide; simpl; intros Hl.
  - constructor; [done|]. apply IH. lia.
  - pose proof (length_filter (fun x => key x = b) l). lia.
Qed.

Lemma insert_mid {A} (l1 l2 : list A) x y :
  <[length l1 := x]> (l1 ++ y :: l2) = l1 ++ x :: l2.
Proof. induction l1 as [|z l1 IH]; simpl; [done|]. by rewrite IH. Qed.

(** Cutting a list into consecutive regions named by the elements of [order]. *)
Lemma split_regions {A} (order : list Z) (sz : Z -> nat) (l : list A) :
  NoDup order -> (sum_list_with sz order <= length l)%nat ->
  exists junk : Z -> list A,
    l = concat (junk <$> order) ++ drop (sum_list_with sz order) l /\
    forall b, b ∈ order -> length (junk b) = sz b.
Proof.
  revert l. induction order as [|c order IH]; intros l Hnd Hl; simpl in *.
  - exists (fun _ => []). split; [done|]. intros b Hb. by apply elem_of_nil in Hb.
  - apply NoDup_cons in Hnd as [Hc Hnd].
    destruct (IH (drop (sz c) l)) as (junk & Hj & Hs); [done|rewrite length_drop; lia|].
    exists (fun b => if decide (b = c) then take (sz c) l else junk b). split.
    + rewrite decide_True by done. rewrite <- (take_drop (sz c) l) at 1.
      rewrite <- app_assoc. f_equal. rewrite Hj at 1. rewrite drop_drop. f_equal. f_equal.
      apply list_fmap_ext. intros i b Hb. simpl. rewrite decide_False; [done|].
      intros ->. apply Hc. by apply list_elem_of_lookup_2 in Hb.
    + intros b Hb. case_decide as E; [subst; rewrite length_take; lia|].
      apply Hs. by apply elem_of_cons in Hb as [?|?].
Qed.

Lemma seqZ_cut a m b :
  a <= b < a + m -> seqZ a m = seqZ a (b - a) ++ b :: seqZ (b + 1) (a + m - b - 1).
Proof.
  intros Hb. replace m with ((b - a) + (1 + (a + m - b - 1))) at 1 by lia.
  rewrite seqZ_app, (seqZ_app (a + (b - a))) by lia. f_equal.
  replace (a + (b - a)) with b by lia. done.
Qed.

Lemma nodup_split_unique {A} (o1 o1' o2 o2' : list A) b :
  NoDup (o1 ++ b :: o2) -> o1 ++ b :: o2 = o1' ++ b :: o2' -> o1 = o1'.
Proof.
  revert o1'. induction o1 as [|x o1 IH]; intros [|y o1'] Hnd E; simpl in *; simplify_eq.
  - done.
  - apply NoDup_cons in Hnd as [Hnd _]. exfalso. apply Hnd.
    apply elem_of_app. right. by left.
  - apply NoDup_cons in Hnd as [Hnd _]. exfalso. apply Hnd.
    apply elem_of_app. right. by left.
  - f_equal. apply NoDup_cons in Hnd as [_ Hnd]. by apply IH.
Qed.

(** Summing the sizes of a key's buckets over all of its values. *)
Lemma buckets_total {A} (key : A -> Z) (order : list Z) (l : list A) :
  NoDup order -> (forall x, x ∈ l -> key x ∈ order) ->
  sum_list_with (fun b => length (bucket key l b)) order = length l.
Proof.
  intros Hnd. induction l as [|x l IH]; intros Hk.
  - clear. induction order as [|c order IH]; [done|]. simpl. exact IH.
  - specialize (IH (fun y Hy => Hk y (list_elem_of_further y x l Hy))).
    simpl. rewrite <- IH. destruct (list_elem_of_split order (key x)) as (o1 & o2 & ->);
      [apply Hk; left|].
    apply NoDup_app in Hnd as (_ & H1 & [H2 _]%NoDup_cons).
    rewrite !sum_list_with_app. simpl.
    assert (forall o, key x ∉ o -> sum_list_with (fun b => length (bucket key (x :: l) b)) o
      = sum_list_with (fun b => length (bucket key l b)) o) as Ho.
    { intros o. unfold bucket. induction o as [|c o IHo]; intros Hc; [done|].
      apply not_elem_of_cons in Hc as [Hne Hc]. simpl.
      rewrite filter_cons_False by congruence. by rewrite IHo. }
    rewrite !Ho; [|done|intros H; apply (H1 _ H); by left].
    unfold bucket at 2. rewrite filter_cons_True by done. simpl. unfold bucket. lia.
Qed.

Lemma sum_list_with_perm {A} (f : A -> nat) l k : l ≡ₚ k -> sum_list_with f l = sum_list_with f k.
Proof. induction 1; simpl; lia. Qed.

Lemma sum_list_with_ext {A} (f g : A -> nat) l :
  (forall x, x ∈ l -> f x = g x) -> sum_list_with f l = sum_list_with g l.
Proof.
  induction l as [|x l IH]; intros H; simpl; [done|].
  rewrite H by (by left). rewrite IH; [done|]. intros y Hy. apply H. by right.
Qed.

Lemma bucket_perm {A} (key : A -> Z) l k b : l ≡ₚ k -> bucket key l b ≡ₚ bucket key k b.
Proof. intros H. unfold bucket. by rewrite H. Qed.

Lemma bucket_fmap_length {A B} (f : A -> B) (key : B -> Z) l b :
  length (bucket key (f <$> l) b) = length (bucket (fun x => key (f x)) l b).
Proof.
  unfold bucket. induction l as [|x l IH]; [done|]. rewrite fmap_cons, !filter_cons.
  case_decide; simpl; rewrite IH; done.
Qed.

(** A list is the image of its index range. *)
Lemma list_as_indices {A} `{!Inhabited A} (l : list A) :
  l = (fun i => l !!! Z.to_nat i) <$> seqZ 0 (Z.of_nat (length l)).
Proof.
  apply list_eq. intros i. rewrite list_lookup_fmap.
  destruct (decide (i < length l)%nat) as [Hi|Hi].
  - rewrite lookup_seqZ_lt by lia. simpl. rewrite list_lookup_lookup_total_lt by done.
    do 2 f_equal. lia.
  - rewrite lookup_seqZ_ge, lookup_ge_None_2 by lia. done.
Qed.

(** ** Memory

    A block of memory is the list of its bytes; [write_at off bs mem] stores
    [bs] from offset [off]. *)
Definition write_at (off : nat) (bs mem : list Z) : list Z :=
  take off mem ++ bs ++ drop (off + length bs) mem.

Lemma length_write_at off bs mem :
  (off + length bs <= length mem)%nat -> length (write_at off bs mem) = length mem.
Proof. intros H. unfold write_at. rewrite !length_app, length_take, length_drop. lia. Qed.

Lemma write_at_nil off mem : write_at off [] mem = mem.
Proof. unfold write_at. simpl. rewrite Nat.add_0_r. apply take_drop. Qed.

Lemma take_write_at off bs mem :
  (off <= length mem)%nat -> take (off + length bs) (write_at off bs mem) = take off mem ++ bs.
Proof.
  intros H. unfold write_at. rewrite app_assoc. rewrite take_app_le.
  - apply take_ge. rewrite length_app, length_take. lia.
  - rewrite length_app, length_take. lia.
Qed.

Lemma take_write_at_le n off bs mem :
  (n <= off)%nat -> (off <= length mem)%nat -> take n (write_at off bs mem) = take n mem.
Proof.
  intros Hn H. unfold write_at. rewrite take_app_le by (rewrite length_take; lia).
  rewrite take_take. f_equal. lia.
Qed.

Lemma drop_write_at n off bs mem :
  (off + length bs <= n)%nat -> (off <= length mem)%nat -> drop n (write_at off bs mem) = drop n mem.
Proof.
  intros Hn H. unfold write_at. rewrite app_assoc.
  rewrite drop_app_ge by (rewrite length_app, length_take; lia).
  rewrite drop_drop. f_equal. rewrite length_app, length_take. lia.
Qed.

Lemma read_write_at off bs mem :
  (off <= length mem)%nat -> take (length bs) (drop off (write_at off bs mem)) = bs.
Proof.
  intros H. unfold write_at. rewrite drop_app_ge by (rewrite length_take; lia).
  rewrite length_take. replace (off - off `min` length mem)%nat with 0%nat by lia. rewrite drop_0.
  rewrite take_app_le by lia. by apply take_ge.
Qed.

Lemma write_at_app off a b mem :
  (off <= length mem)%nat -> write_at (off + length a) b (write_at off a mem) = write_at off (a ++ b) mem.
Proof.
  intros H. unfold write_at at 1. rewrite take_write_at, drop_write_at by lia.
  unfold write_at. rewrite length_app, Nat.add_assoc. by rewrite <- !app_assoc.
Qed.

(** The content of memory that was never written, by position. *)
Class Uninit := uninit : Z -> Z.
Definition fresh_memory `{!Uninit} (n : nat) : list Z := map uninit (seqZ 0 (Z.of_nat n)).

Lemma length_fresh_memory `{!Uninit} n : length (fresh_memory n) = n.
Proof. unfold fresh_memory. rewrite length_map, length_seqZ. lia. Qed.

(** The value of an integer in a signed type of [w] bits (two's complement). *)
Definition sint (w z : Z) : Z :=
  let u := wrap w z in if u <? 2 ^ (w - 1) then u else u - 2 ^ w.

Lemma sint_small w z : 0 < w -> - 2 ^ (w - 1) <= z < 2 ^ (w - 1) -> sint w z = z.
Proof.
  intros Hw Hz. assert (2 ^ w = 2 * 2 ^ (w - 1)) as E.
  { replace w with (1 + (w - 1)) at 1 by lia. by rewrite Z.pow_add_r by lia. }
  unfold sint, wrap. destruct (decide (0 <= z)).
  - rewrite Z.mod_small by lia. destruct (_ <? _) eqn:?; lia.
  - assert (z mod 2 ^ w = z + 2 ^ w) as ->; [symmetry; apply (Z.mod_unique_pos _ _ (-1)); lia|].
    destruct (_ <? _) eqn:?; lia.
Qed.

(** ** Bytes of an integer *)

(** The value of a little-endian byte sequence, and the [n] low bytes of a value. *)
Definition le_uint (e : list Z) : Z := foldr (fun b acc => b + 256 * acc) 0 e.
Fixpoint le_bytes (n : nat) (v : Z) : list Z :=
  match n with O => [] | S n => v mod 256 :: le_bytes n (v / 256) end.

Lemma le_uint_app a b : le_uint (a ++ b) = le_uint a + 2 ^ (8 * Z.of_nat (length a)) * le_uint b.
Proof.
  induction a as [|x a IH]; [simpl; rewrite Z.pow_0_r; lia|].
  unfold le_uint in *. simpl. rewrite IH.
  replace (8 * Z.of_nat (S (length a))) with (8 + 8 * Z.of_nat (length a)) by lia.
  rewrite Z.pow_add_r by lia. change (2 ^ 8) with 256. ring.
Qed.

Lemma le_uint_range e : bytes_ok e -> 0 <= le_uint e < 2 ^ (8 * Z.of_nat (length e)).
Proof.
  induction 1 as [|x e Hx He IH]; [simpl; rewrite Z.pow_0_r; lia|].
  unfold byte_ok in Hx. unfold le_uint in *. simpl.
  replace (8 * Z.of_nat (S (length e))) with (8 + 8 * Z.of_nat (length e)) by lia.
  rewrite Z.pow_add_r by lia. change (2 ^ 8) with 256. lia.
Qed.

(** A value below [2^k] and a multiple of [2^k] have no bit in common. *)
Lemma disjoint_add k a b : in_u k a -> a + 2 ^ k * b = Z.lxor a (Z.shiftl b k) /\ a + 2 ^ k * b = Z.lor a (Z.shiftl b k).
Proof.
  intros Ha. pose proof (in_u_width k a Ha) as Hk. rewrite (Z.mul_comm (2 ^ k)), <- Z.shiftl_mul_pow2 by done.
  assert (Z.land a (Z.shiftl b k) = 0) as Hd.
  { zbits i. destruct (decide (i < k)).
    - rewrite (Z.testbit_neg_r b (i - k)) by lia. by rewrite andb_false_r, andb_false_r.
    - by rewrite (in_u_testbit k a i) by (done || lia). }
  split; [by apply Z.add_nocarry_lxor|]. rewrite Z.add_nocarry_lxor by done. by apply Z.lxor_lor.
Qed.

Lemma length_le_bytes n v : length (le_bytes n v) = n.
Proof. revert v. induction n; simpl; auto. Qed.

Lemma le_bytes_ok n v : bytes_ok (le_bytes n v).
Proof.
  revert v. induction n; intros v; constructor; [|done]. unfold byte_ok. by apply Z.mod_pos_bound.
Qed.

Lemma le_uint_bytes n v : 0 <= v < 2 ^ (8 * Z.of_nat n) -> le_uint (le_bytes n v) = v.
Proof.
  revert v. induction n as [|n IH]; intros v Hv.
  - change (8 * Z.of_nat 0) with 0 in Hv. rewrite Z.pow_0_r in Hv. simpl. lia.
  - replace (8 * Z.of_nat (S n)) with (8 + 8 * Z.of_nat n) in Hv by lia.
    rewrite Z.pow_add_r in Hv by lia. change (2 ^ 8) with 256 in Hv.
    assert (le_uint (le_bytes n (v / 256)) = v / 256) as E.
    { apply IH. split; [apply Z.div_pos; lia|apply Z.div_lt_upper_bound; lia]. }
    cbn [le_bytes]. unfold le_uint in *. cbn [foldr]. rewrite E.
    pose proof (Z.div_mod v 256 ltac:(lia)). lia.
Qed.

Lemma le_bytes_uint e : bytes_ok e -> le_bytes (length e) (le_uint e) = e.
Proof.
  induction 1 as [|x e Hx He IH]; [done|]. unfold byte_ok in Hx. cbn [length le_bytes].
  unfold le_uint in *. cbn [foldr]. set (u := foldr _ 0 e) in *.
  rewrite (Z.mul_comm 256), Z.mod_add, Z.div_add by lia.
  rewrite Z.mod_small, Z.div_small, Z.add_0_l by lia. by rewrite IH.
Qed.

Lemma le_uint_le_bytes n v : le_uint (le_bytes n v) = wrap (8 * Z.of_nat n) v.
Proof.
  revert v. induction n as [|n IH]; intros v.
  - change (8 * Z.of_nat 0) with 0. unfold wrap. by rewrite Z.pow_0_r, Z.mod_1_r.
  - cbn [le_bytes]. unfold le_uint in *. cbn [foldr]. rewrite IH. unfold wrap.
    replace (8 * Z.of_nat (S n)) with (8 + 8 * Z.of_nat n) by lia.
    rewrite Z.pow_add_r by lia. change (2 ^ 8) with 256.
    rewrite Z.rem_mul_r; [done|lia|apply pow2_pos; lia].
Qed.

(** bits.h: the bytes of a value in the opposite order. *)
Definition byteorder_swap (n : nat) (v : Z) : Z := le_uint (reverse (le_bytes n v)).
Definition byteorder_swap16 := byteorder_swap 2.
Definition byteorder_swap32 := byteorder_swap 4.
Definition byteorder_swap64 := byteorder_swap 8.

Lemma byteorder_swap_range n v : 0 <= byteorder_swap n v < 2 ^ (8 * Z.of_nat n).
Proof.
  unfold byteorder_swap. replace n with (length (reverse (le_bytes n v))) at 3
    by (by rewrite length_reverse, length_le_bytes).
  apply le_uint_range. apply Forall_reverse, le_bytes_ok.
Qed.

Lemma byteorder_swap_bytes n v : le_bytes n (byteorder_swap n v) = reverse (le_bytes n v).
Proof.
  unfold byteorder_swap. replace n with (length (reverse (le_bytes n v))) at 1
    by (by rewrite length_reverse, length_le_bytes).
  apply le_bytes_uint. apply Forall_reverse, le_bytes_ok.
Qed.

Lemma byteorder_swap_involutive n v :
  0 <= v < 2 ^ (8 * Z.of_nat n) -> byteorder_swap n (byteorder_swap n v) = v.
Proof.
  intros Hv. unfold byteorder_swap at 1. rewrite byteorder_swap_bytes, reverse_involutive.
  by apply le_uint_bytes.
Qed.

(** A value written in either byte order and read back in the same. *)
Definition swap_if (b : bool) (n : nat) (v : Z) : Z := if b then byteorder_swap n v else v.

Lemma swap_if_bytes b n v :
  swap_if b n (le_uint (le_bytes n (swap_if b n v))) = wrap (8 * Z.of_nat n) v.
Proof.
  unfold swap_if. destruct b; [|apply le_uint_le_bytes].
  rewrite le_uint_bytes by apply byteorder_swap_range. unfold byteorder_swap at 1.
  by rewrite byteorder_swap_bytes, reverse_involutive, le_uint_le_bytes.
Qed.

Lemma sint_wrap w v : sint w (wrap w v) = sint w v.
Proof. unfold sint. by rewrite wrap_wrap. Qed.

(** Case analysis on the boolean conditionals of the goal. *)
Ltac case_if :=
  match goal with
  | |- context [if ?b then _ else _] =>
      lazymatch type of b with bool => idtac end;
      lazymatch b with context [if _ then _ else _] => fail | _ => idtac end;
      destruct b eqn:?
  end.

(** ** Blocks of one length and their concatenation *)
Section blocks.
Context (size : nat).
Abbreviation blocks l := (Forall (fun b : list Z => length b = size) l).

Lemma length_blocks l : blocks l -> length (concat l) = (size * length l)%nat.
Proof. induction 1 as [|b l Hb _ IH]; simpl; [lia|]. rewrite length_app, IH. lia. Qed.

Lemma drop_blocks l k : blocks l -> drop (size * k) (concat l) = concat (drop k l).
Proof.
  intros Hl. revert k. induction Hl as [|b l Hb Hl IH]; intros k; [cbn [concat]; by rewrite !drop_nil|].
  destruct k as [|k]; [by rewrite Nat.mul_0_r|]. cbn [drop concat].
  rewrite drop_app_ge by lia. rewrite <- IH. f_equal. lia.
Qed.

Lemma read_blocks l k b off n :
  blocks l -> l !! k = Some b -> (off + n <= size)%nat -> take n (drop (size * k + off) (concat l)) = take n (drop off b).
Proof.
  intros Hl Hk Hn. rewrite <- drop_drop, drop_blocks by done. rewrite (drop_S _ _ _ Hk). cbn [concat].
  assert (length b = size) as Hb by (by eapply Forall_lookup_1 in Hl).
  rewrite drop_app_le by lia. by rewrite take_app_le by (rewrite length_drop; lia).
Qed.

Lemma write_blocks l k b off x :
  blocks l -> l !! k = Some b -> (off + length x <= size)%nat ->
  concat (<[k := write_at off x b]> l) = write_at (size * k + off) x (concat l) /\ blocks (<[k := write_at off x b]> l).
Proof.
  intros Hl Hk Hx. assert (length b = size) as Hb by (by eapply Forall_lookup_1 in Hl).
  split; [|apply Forall_insert; [done|rewrite length_write_at; lia]].
  revert k Hk. induction Hl as [|c l Hc Hl IH]; intros k Hk; [done|]. unfold write_at in *. cbn [concat].
  destruct k as [|k]; cbn [concat] in *.
  - injection Hk as ->. cbn [insert list_insert concat]. rewrite Nat.mul_0_r, Nat.add_0_l, <- !app_assoc. 
    rewrite take_app_le by lia. by rewrite drop_app_le by lia.
  - cbn [insert list_insert concat]. fold (insert (M := list (list Z)) k). rewrite IH by done.
    rewrite take_app_ge by lia. rewrite drop_app_ge by lia. rewrite <- app_assoc. do 3 f_equal; [lia|]. f_equal. lia.
Qed.
End blocks.

Lemma take_blocks size l n : Forall (fun e : list Z => length e = size) l -> concat (take n l) = take (size * n) (concat l).
Proof.
  intros Hl. revert n. induction Hl as [|e l He Hl IH]; intros n; [cbn [concat]; by rewrite !take_nil|].
  destruct n as [|n]; [by rewrite Nat.mul_0_r, !take_0|]. cbn [take concat]. rewrite IH, take_app_ge by lia. do 2 f_equal. lia.
Qed.

(** Bytes cut into elements. *)
Definition chunk (size : nat) (bs : list Z) (i : nat) : list Z := take size (drop (size * i) bs).

Lemma concat_chunks size bs k n :
  (size * (k + n) <= length bs)%nat -> concat (map (chunk size bs) (seq k n)) = take (size * n) (drop (size * k) bs).
Proof.
  revert k. induction n as [|n IH]; intros k Hn; [by rewrite Nat.mul_0_r, take_0|]. cbn [seq map concat].
  rewrite IH by lia. unfold chunk. replace (size * S n)%nat with (size + size * n)%nat by lia.
  rewrite <- take_take_drop, drop_drop. do 3 f_equal. lia.
Qed.

Lemma length_chunk size bs i : (size * i + size <= length bs)%nat -> length (chunk size bs i) = size.
Proof. intros H. unfold chunk. rewrite length_take, length_drop. lia. Qed.

Lemma chunk_take size bs i n : (size * i + size <= n)%nat -> chunk size (take n bs) i = chunk size bs i.
Proof. intros H. unfold chunk. rewrite skipn_firstn_comm, take_take. f_equal. lia. Qed.

Lemma chunk_concat size l i e :
  Forall (fun e : list Z => length e = size) l -> l !! i = Some e -> chunk size (concat l) i = e.
Proof.
  intros Hl Hi. unfold chunk. pose proof (read_blocks size l i e 0 size Hl Hi ltac:(lia)) as E. rewrite Nat.add_0_r in E.
  rewrite E, drop_0. apply take_ge. eapply Forall_lookup_1 in Hl; [|exact Hi]. lia.
Qed.

(** ** Reading an array

    [p[i]] for an index that may be anywhere; [None] outside the array. *)
Definition rd (p : list Z) (i : Z) : option Z := if 0 <=? i then p !! Z.to_nat i else None.

Lemma rd_app a b i : 0 <= i -> rd (a ++ b) (Z.of_nat (length a) + i) = rd b i.
Proof.
  intros Hi. unfold rd. rewrite !(proj2 (Z.leb_le _ _)) by lia. rewrite lookup_app_r by lia. f_equal. lia.
Qed.

Lemma rd_head c d e r : rd (c :: r) 0 = Some c /\ rd (c :: d :: r) 1 = Some d /\ rd (c :: d :: e :: r) 2 = Some e.
Proof. done. Qed.

Lemma rd_mid a c r : rd (a ++ c :: r) (Z.of_nat (length a)) = Some c.
Proof. rewrite <- (Z.add_0_r (Z.of_nat (length a))). by rewrite rd_app. Qed.
