(* ===== verification/Base64.v ===== *)
(** * Base64 ([src/library/foundation_lib/foundation/base64.c])

    The encoder writes whole four-character groups and a terminating NUL, and
    truncates its input so that the capacity is never exceeded; the decoder
    skips the characters outside the alphabet and stops at its capacity.  A
    buffer and its size are a list of bytes, the cursor [carr]/[source] is the
    rest of that list, and what is written through [ptr]/[cdst] is the list of
    the bytes written from the start of the destination. *)
From S2P Require Import Prelude.

Module Base64.

(** ** The tables *)

(** Entry [v - 43] of the decode table: [0] for a character outside the
    alphabet, the six-bit value plus 62 for the others. *)
Definition base64_decode_table : list Z :=
  [124; 0; 0; 0; 125] ++ seqZ 114 10 ++ replicate 7 0 ++ seqZ 62 26 ++
  replicate 6 0 ++ seqZ 88 26.

Definition base64_encode_table : list Z :=
  seqZ 65 26 ++ seqZ 97 26 ++ seqZ 48 10 ++ [43; 47].

(** [base64_encode_table[bits]]; every index the encoder uses is below 64. *)
Definition enc (bits : Z) : Z := base64_encode_table !!! Z.to_nat bits.

(** ** Encoder *)

Fixpoint encode_loop (carr : list Z) : list Z :=
  match carr with
  | c0 :: c1 :: c2 :: carr' =>
      enc (Z.land (Z.shiftr c0 2) 0x3F) ::
      enc (Z.lor (u8 (Z.shiftl (Z.land c0 0x3) 4)) (Z.land (Z.shiftr c1 4) 0xF)) ::
      enc (Z.lor (u8 (Z.shiftl (Z.land c1 0xF) 2)) (Z.land (Z.shiftr c2 6) 0x3)) ::
      enc (Z.land c2 0x3F) ::
      encode_loop carr'
  | [c0; c1] =>
      [enc (Z.land (Z.shiftr c0 2) 0x3F);
       enc (Z.lor (u8 (Z.shiftl (Z.land c0 0x3) 4)) (Z.land (Z.shiftr c1 4) 0xF));
       enc (u8 (Z.shiftl (Z.land c1 0xF) 2));
       61]
  | [c0] =>
      [enc (Z.land (Z.shiftr c0 2) 0x3F);
       enc (u8 (Z.shiftl (Z.land c0 0x3) 4));
       61; 61]
  | [] => []
  end.

(** [base64_encode source size destination capacity], [source] being the [size]
    bytes: the bytes written, whose number is the returned value. *)
Definition base64_encode (source : list Z) (capacity : Z) : list Z :=
  if decide (0 < capacity) then
    let maxsize := ((capacity - 1) / 4) * 3 in
    let size := Z.of_nat (length source) in
    let size := if decide (maxsize < size) then maxsize else size in
    encode_loop (take (Z.to_nat size) source) ++ [0]
  else [].

(** ** Decoder *)

(** The table lookup with its range test, on a byte. *)
Definition decode_char (v : Z) : Z :=
  if (v <? 43) || (122 <? v) then 0 else base64_decode_table !!! Z.to_nat (v - 43).

(** [while (size && !v)]: consume up to and including one valid character. *)
Fixpoint next_valid (source : list Z) : option Z * list Z :=
  match source with
  | [] => (None, [])
  | c :: source' =>
      let v := decode_char c in
      if decide (v = 0) then next_valid source' else (Some (u8 (v - 62)), source')
  end.

(** [for (i = 0; size && (i < 4); i++)]: the values stored in [in], whose number
    is [blocksize]. *)
Fixpoint read_block (n : nat) (source : list Z) : list Z * list Z :=
  match n, source with
  | O, _ => ([], source)
  | _, [] => ([], [])
  | S n', _ =>
      let '(v, source') := next_valid source in
      let '(vs, rest) := read_block n' source' in
      (match v with Some x => x :: vs | None => vs end, rest)
  end.

(** [out[0..2]], [in] being padded with zeros. *)
Definition decode_out (block : list Z) : list Z :=
  let in_ i := default 0 (block !! (i : nat)) in
  [u8 (Z.lor (Z.shiftl (in_ 0%nat) 2) (Z.shiftr (in_ 1%nat) 4));
   u8 (Z.lor (Z.shiftl (in_ 1%nat) 4) (Z.shiftr (in_ 2%nat) 2));
   u8 (Z.lor (Z.land (Z.shiftl (in_ 2%nat) 6) 0xc0) (in_ 3%nat))].

(** The outer loop.  Every iteration consumes a character, so the length of the
    input plus one is enough fuel; [None] is running out of it. *)
Fixpoint decode_loop (fuel : nat) (source : list Z) (room : Z) : option (list Z) :=
  if decide (source = [] \/ room <= 0) then Some []
  else
    match fuel with
    | O => None
    | S fuel' =>
        let '(block, source') := read_block 4 source in
        let out :=
          if decide (1 < length block)%nat
          then take (Z.to_nat room) (take (length block - 1) (decode_out block))
          else [] in
        rest ← decode_loop fuel' source' (room - Z.of_nat (length out));
        Some (out ++ rest)
    end.

Definition base64_decode (source : list Z) (capacity : Z) : option (list Z) :=
  decode_loop (S (length source)) source capacity.

(** ** The alphabet *)

Definition valid_char (c : Z) : Prop := decode_char c <> 0.

#[export] Instance valid_char_dec c : Decision (valid_char c).
Proof. unfold valid_char. apply _. Defined.

Lemma enc_decode_all :
  Forall (fun v => u8 (decode_char (enc v) - 62) = v /\ decode_char (enc v) <> 0 /\ byte_ok (enc v))
    (seqZ 0 64).
Proof. apply (bool_decide_unpack _). vm_compute. exact I. Qed.

Lemma enc_decode v :
  0 <= v < 64 -> u8 (decode_char (enc v) - 62) = v /\ decode_char (enc v) <> 0.
Proof.
  intros Hv. pose proof enc_decode_all as H. rewrite Forall_seqZ in H.
  destruct (H v) as (?&?&?); [lia|done].
Qed.

Lemma next_valid_enc v rest :
  0 <= v < 64 -> next_valid (enc v :: rest) = (Some v, rest).
Proof.
  intros Hv. destruct (enc_decode v Hv) as [E N]. simpl.
  rewrite decide_False by done. by rewrite E.
Qed.

Lemma next_valid_none src : Forall (fun c => ~ valid_char c) src -> next_valid src = (None, []).
Proof.
  induction 1 as [|c src Hc _ IH]; simpl; [done|].
  rewrite decide_True; [done|]. unfold valid_char in Hc.
  destruct (decide (decode_char c = 0)); [done|contradiction].
Qed.

Lemma read_block_none n src :
  Forall (fun c => ~ valid_char c) src -> read_block (S n) src = ([], []).
Proof.
  intros H. destruct src as [|c src]; [done|]. cbn [read_block].
  rewrite next_valid_none by done. destruct n; done.
Qed.

Lemma read_block_enc n v rest :
  0 <= v < 64 ->
  read_block (S n) (enc v :: rest) = let '(vs, r) := read_block n rest in (v :: vs, r).
Proof. intros Hv. cbn [read_block]. rewrite next_valid_enc by done. done. Qed.

Lemma pad_invalid : ~ valid_char 61.
Proof. vm_compute. intros H. by apply H. Qed.

Lemma nul_invalid : ~ valid_char 0.
Proof. vm_compute. intros H. by apply H. Qed.

(** ** The six-bit groups *)

Lemma high6 a : byte_ok a -> 0 <= Z.land (Z.shiftr a 2) 0x3F < 64.
Proof.
  intros _. change 0x3F with (Z.ones 6). rewrite Z.land_ones by lia.
  apply (Z.mod_pos_bound _ 64). lia.
Qed.

Lemma low6 c : 0 <= Z.land c 0x3F < 64.
Proof.
  change 0x3F with (Z.ones 6). rewrite Z.land_ones by lia.
  apply (Z.mod_pos_bound _ 64). lia.
Qed.

Lemma mid6 m k n a : m = Z.ones k -> 0 <= k -> 0 <= n -> n + k <= 6 -> in_u 6 (u8 (Z.shiftl (Z.land a m) n)).
Proof.
  intros -> Hk Hn Hkn. apply in_u_of_testbit; [lia|apply wrap_range; lia|].
  intros i Hi. autorewrite with cbits. split_bits.
Qed.

Lemma mid6_lor m k n a m' k' n' b :
  m = Z.ones k -> 0 <= k -> 0 <= n -> n + k <= 6 -> m' = Z.ones k' -> 0 <= k' <= 6 ->
  0 <= Z.lor (u8 (Z.shiftl (Z.land a m) n)) (Z.land (Z.shiftr b n') m') < 64.
Proof.
  intros. apply (in_u_lor 6); [by apply (mid6 m k)|].
  subst. rewrite Z.land_ones by lia. unfold in_u.
  pose proof (Z.mod_pos_bound (Z.shiftr b n') (2 ^ k') (pow2_pos _ (proj1 H4))).
  pose proof (Z.pow_le_mono_r 2 k' 6). lia.
Qed.

Lemma join0 a z :
  byte_ok a -> in_u 4 z ->
  u8 (Z.lor (Z.shiftl (Z.land (Z.shiftr a 2) 0x3F) 2)
            (Z.shiftr (Z.lor (u8 (Z.shiftl (Z.land a 0x3) 4)) z) 4)) = a.
Proof.
  intros Ha Hz. zbits i.
  rewrite (in_u_testbit 4 z) by (done || lia).
  byte_cases i; simpl; rewrite ?orb_false_r, ?andb_true_r, ?andb_false_r; try done. 
  rewrite (byte_bit_high a) by done. split_bits.
Qed.

Lemma join1 a b w :
  byte_ok b -> in_u 2 w ->
  u8 (Z.lor (Z.shiftl (Z.lor (u8 (Z.shiftl (Z.land a 0x3) 4)) (Z.land (Z.shiftr b 4) 0xF)) 4)
            (Z.shiftr (Z.lor (u8 (Z.shiftl (Z.land b 0xF) 2)) w) 2)) = b.
Proof.
  intros Hb Hw. zbits i.
  rewrite (in_u_testbit 2 w) by (done || lia).
  byte_cases i.
  rewrite (byte_bit_high b) by done. split_bits.
Qed.

Lemma join2 b c :
  byte_ok c ->
  u8 (Z.lor (Z.land (Z.shiftl (Z.lor (u8 (Z.shiftl (Z.land b 0xF) 2)) (Z.land (Z.shiftr c 6) 0x3)) 6) 0xc0)
            (Z.land c 0x3F)) = c.
Proof.
  intros Hc. zbits i.
  byte_cases i.
  rewrite (byte_bit_high c) by done. split_bits.
Qed.

(** ** Length and capacity of the encoder *)

Lemma list3_ind {A} (P : list A -> Prop) :
  P [] -> (forall a, P [a]) -> (forall a b, P [a; b]) ->
  (forall a b c l, P l -> P (a :: b :: c :: l)) -> forall l, P l.
Proof.
  intros H0 H1 H2 H3. fix IH 1.
  intros [|a [|b [|c l]]]; [exact H0|apply H1|apply H2|apply H3, IH].
Qed.

Lemma length_encode_loop s :
  Z.of_nat (length (encode_loop s)) = 4 * ((Z.of_nat (length s) + 2) / 3).
Proof.
  induction s as [|a|a b|a b c l IH] using list3_ind; [done..|].
  cbn [encode_loop length].
  replace (Z.of_nat (S (S (S (length l)))) + 2) with (Z.of_nat (length l) + 2 + 1 * 3) by lia.
  rewrite Z.div_add by lia. lia.
Qed.

Lemma base64_encode_full source capacity :
  4 * ((Z.of_nat (length source) + 2) / 3) + 1 <= capacity ->
  base64_encode source capacity = encode_loop source ++ [0].
Proof.
  intros Hroom. unfold base64_encode. simpl.
  rewrite decide_True, decide_False, take_ge; [done|lia|..];
    Z.div_mod_to_equations; lia.
Qed.

(** Whatever the capacity, the encoder writes at most [capacity] bytes, and
    a positive capacity leaves the output terminated by a NUL; with room for
    all of the input it writes exactly the groups of all of the input. *)
Theorem base64_encode_bounds source capacity :
  0 <= capacity ->
  let out := base64_encode source capacity in
  Z.of_nat (length out) <= capacity /\
  (0 < capacity -> last out = Some 0) /\
  (4 * ((Z.of_nat (length source) + 2) / 3) + 1 <= capacity -> out = encode_loop source ++ [0]).
Proof.
  intros Hcap. simpl. split; [|split; [|apply base64_encode_full]];
    unfold base64_encode; simpl; case_decide as Hpos; simpl; try lia.
  - rewrite length_app, Nat2Z.inj_add, length_encode_loop, length_take. simpl.
    case_decide; Z.div_mod_to_equations; lia.
  - intros _. by rewrite last_snoc.
Qed.

Lemma base64_encode_bounds_witness :
  0 <= 6 /\ Z.of_nat (length (base64_encode [77; 97; 110; 77] 6)) <= 6.
Proof. split; [lia|]. apply (base64_encode_bounds [77; 97; 110; 77] 6). lia. Defined.

(** ** Round trip *)

Lemma read_block_group a b c d rest :
  0 <= a < 64 -> 0 <= b < 64 -> 0 <= c < 64 -> 0 <= d < 64 ->
  read_block 4 (enc a :: enc b :: enc c :: enc d :: rest) = ([a; b; c; d], rest).
Proof. intros. rewrite !read_block_enc by done. by destruct rest. Qed.

Lemma decode_loop_nil fuel room : decode_loop fuel [] room = Some [].
Proof. destruct fuel; cbn; by rewrite decide_True by (by left). Qed.

Lemma decode_loop_stop fuel tail room :
  Forall (fun c => ~ valid_char c) tail -> (0 < fuel)%nat ->
  decode_loop fuel tail room = Some [].
Proof.
  intros Ht Hf. destruct fuel as [|fuel]; [lia|]. cbn [decode_loop].
  case_decide; [done|]. rewrite read_block_none by done.
  rewrite decode_loop_nil, decide_False by (simpl; lia). done.
Qed.

Lemma decode_loop_block fuel source room block rest tl :
  source <> [] -> 0 < room -> read_block 4 source = (block, rest) ->
  (1 < length block)%nat -> (length block <= 4)%nat ->
  Z.of_nat (length block - 1) <= room ->
  decode_loop fuel rest (room - Z.of_nat (length block - 1)) = Some tl ->
  decode_loop (S fuel) source room = Some (take (length block - 1) (decode_out block) ++ tl).
Proof.
  intros Hs Hr Hb Hl Hl4 Hroom Ht. cbn [decode_loop].
  rewrite decide_False by (intros [?|?]; [done|lia]).
  rewrite Hb, decide_True by done.
  assert (length (take (length block - 1) (decode_out block)) = (length block - 1)%nat) as Hlen.
  { rewrite length_take. simpl. lia. }
  rewrite (take_ge (take _ _)) by (rewrite Hlen; lia).
  rewrite Hlen, Ht. done.
Qed.

#[local] Arguments decode_loop : simpl never.
#[local] Arguments read_block : simpl never.
#[local] Arguments enc : simpl never.

(** The three shapes of a block, decoded. *)
Definition sext0 a := Z.land (Z.shiftr a 2) 0x3F.
Definition sext1 a := u8 (Z.shiftl (Z.land a 0x3) 4).
Definition sext1' a b := Z.lor (sext1 a) (Z.land (Z.shiftr b 4) 0xF).
Definition sext2 b := u8 (Z.shiftl (Z.land b 0xF) 2).
Definition sext2' b c := Z.lor (sext2 b) (Z.land (Z.shiftr c 6) 0x3).
Definition sext3 c := Z.land c 0x3F.

Lemma decode_out1 a : byte_ok a -> take 1 (decode_out [sext0 a; sext1 a]) = [a].
Proof.
  intros Ha. cbn. f_equal. rewrite <- (join0 a 0) at 3 by (done || by vm_compute).
  by rewrite Z.lor_0_r.
Qed.

Lemma decode_out2 a b :
  byte_ok a -> byte_ok b -> take 2 (decode_out [sext0 a; sext1' a b; sext2 b]) = [a; b].
Proof.
  intros Ha Hb. cbn. f_equal; [|f_equal].
  - apply join0; [done|]. by apply land_ones_in_u.
  - rewrite <- (join1 a b 0) at 3 by (done || by vm_compute). by rewrite Z.lor_0_r.
Qed.

Lemma decode_out3 a b c :
  byte_ok a -> byte_ok b -> byte_ok c ->
  take 3 (decode_out [sext0 a; sext1' a b; sext2' b c; sext3 c]) = [a; b; c].
Proof.
  intros Ha Hb Hc. cbn. f_equal; [|f_equal; [|f_equal]].
  - apply join0; [done|]. by apply land_ones_in_u.
  - apply join1; [done|]. by apply land_ones_in_u.
  - by apply join2.
Qed.

Lemma sext_range a b c :
  in_u 6 (sext0 a) /\ in_u 6 (sext1 a) /\ in_u 6 (sext1' a b) /\
  in_u 6 (sext2 b) /\ in_u 6 (sext2' b c) /\ in_u 6 (sext3 c).
Proof.
  unfold sext0, sext1', sext1, sext2', sext2, sext3.
  repeat match goal with |- _ /\ _ => split end; first [by apply (land_ones_in_u 6)
    |by apply (mid6 _ 2)
    |by apply (mid6 _ 4)|by apply (mid6_lor _ 2 4 _ _ 4)|by apply (mid6_lor _ 4 2 _ _ 2)].
Qed.

Lemma decode_encode_loop s : forall tail fuel room,
  bytes_ok s -> Forall (fun c => ~ valid_char c) tail ->
  (length (encode_loop s ++ tail) < fuel)%nat ->
  Z.of_nat (length s) <= room ->
  decode_loop fuel (encode_loop s ++ tail) room = Some s.
Proof.
  induction s as [|a|a b|a b c l IH] using list3_ind;
    intros tail fuel room Hs Ht Hfuel Hroom;
    [apply decode_loop_stop; [done|lia]|..];
    (destruct fuel as [|fuel]; [lia|]); cbn [encode_loop app length] in Hfuel, Hroom |- *;
    decompose_Forall_hyps.
  - destruct (sext_range a 0 0) as (?&?&?&?&?&?).
    erewrite (decode_loop_block _ _ _ [sext0 a; sext1 a] []);
      [cbn [length Nat.sub]; rewrite decode_out1 by done; done|done|lia| |simpl; lia..|].
    + rewrite !read_block_enc by done. rewrite read_block_none; [done|].
      repeat constructor; auto using pad_invalid.
    + apply decode_loop_stop; [done|lia].
  - destruct (sext_range a b 0) as (?&?&?&?&?&?).
    erewrite (decode_loop_block _ _ _ [sext0 a; sext1' a b; sext2 b] []);
      [cbn [length Nat.sub]; rewrite decode_out2 by done; done|done|lia| |simpl; lia..|].
    + rewrite !read_block_enc by done. rewrite read_block_none; [done|].
      repeat constructor; auto using pad_invalid.
    + apply decode_loop_stop; [done|lia].
  - destruct (sext_range a b c) as (?&?&?&?&?&?).
    erewrite (decode_loop_block _ _ _ [sext0 a; sext1' a b; sext2' b c; sext3 c] _ l);
      [cbn [length Nat.sub]; rewrite decode_out3 by done; done|done|lia| |simpl; lia..|].
    + by apply read_block_group.
    + apply IH; [done|done|lia|simpl in *; lia].
Qed.

(** C23: decoding an encoding gives the input back, for every capacity of the
    two buffers that is large enough, with or without the encoder's NUL. *)
Theorem base64_roundtrip source capacity room :
  bytes_ok source ->
  4 * ((Z.of_nat (length source) + 2) / 3) + 1 <= capacity ->
  Z.of_nat (length source) <= room ->
  base64_decode (base64_encode source capacity) room = Some source /\
  base64_decode (encode_loop source) room = Some source.
Proof.
  intros Hs Hcap Hroom.
  rewrite base64_encode_full by done.
  unfold base64_decode. split.
  - apply decode_encode_loop; [done| |lia|done].
    repeat constructor. apply nul_invalid.
  - rewrite <- (app_nil_r (encode_loop source)) at 2.
    apply decode_encode_loop; [done|constructor|rewrite app_nil_r; lia|done].
Qed.

Lemma base64_roundtrip_witness :
  base64_decode (base64_encode [77; 97; 110; 255] 9) 4 = Some [77; 97; 110; 255] /\
  base64_decode (encode_loop [77; 97; 110; 255]) 4 = Some [77; 97; 110; 255].
Proof.
  apply (base64_roundtrip [77; 97; 110; 255] 9 4); [|vm_compute; discriminate..].
  apply (bool_decide_unpack _). vm_compute. exact I.
Defined.

(** ** Totality, bounds and skipped characters *)

Lemma next_valid_shorter src : (length (snd (next_valid src)) <= length src - 1)%nat.
Proof.
  induction src as [|c src IH]; simpl; [done|]. case_decide; simpl; lia.
Qed.

Lemma read_block_shorter n src :
  (length (snd (read_block n src)) <= length src - match n with O => 0 | S _ => 1 end)%nat.
Proof.
  revert src. induction n as [|n IH]; intros [|c src]; [simpl; lia..|].
  unfold read_block; fold read_block.
  pose proof (next_valid_shorter (c :: src)) as Hs.
  destruct (next_valid (c :: src)) as [v rest]. specialize (IH rest).
  destruct (read_block n rest) as [vs r]. destruct n; simpl in *; lia.
Qed.

Lemma next_valid_filter src :
  next_valid (filter valid_char src) =
  (fst (next_valid src), filter valid_char (snd (next_valid src))).
Proof.
  induction src as [|c src IH]; [done|]. rewrite filter_cons. cbn [next_valid].
  destruct (decide (valid_char c)) as [V|V]; destruct (decide (decode_char c = 0)) as [E|E];
    cbn [next_valid]; try done.
  by rewrite decide_False.
Qed.

Lemma read_block_nil n : read_block n [] = ([], []).
Proof. by destruct n. Qed.

Lemma read_block_S n src :
  read_block (S n) src =
  let '(v, source') := next_valid src in
  let '(vs, rest) := read_block n source' in
  (match v with Some x => x :: vs | None => vs end, rest).
Proof. destruct src; [cbn [next_valid]; rewrite !read_block_nil|]; done. Qed.

Lemma read_block_filter n src :
  read_block n (filter valid_char src) =
  (fst (read_block n src), filter valid_char (snd (read_block n src))).
Proof.
  revert src. induction n as [|n IH]; intros src; [by destruct src, (filter _ _)|].
  rewrite !read_block_S, next_valid_filter.
  destruct (next_valid src) as [v rest]. simpl. rewrite IH.
  by destruct (read_block n rest).
Qed.

Lemma decode_loop_S fuel source room :
  decode_loop (S fuel) source room =
  if decide (source = [] \/ room <= 0) then Some []
  else
    let '(block, source') := read_block 4 source in
    let out :=
      if decide (1 < length block)%nat
      then take (Z.to_nat room) (take (length block - 1) (decode_out block))
      else [] in
    rest ← decode_loop fuel source' (room - Z.of_nat (length out));
    Some (out ++ rest).
Proof. done. Qed.

Lemma filter_nil_invalid src :
  filter valid_char src = [] -> Forall (fun c => ~ valid_char c) src.
Proof.
  induction src as [|c src IH]; [constructor|]. rewrite filter_cons.
  case_decide; [done|]. constructor; auto.
Qed.

(** The characters outside the alphabet (line breaks, padding, NUL, any
    other byte) have no influence on the decoded bytes. *)
Theorem base64_decode_filter source capacity :
  base64_decode source capacity = base64_decode (filter valid_char source) capacity.
Proof.
  unfold base64_decode.
  assert (forall fuel fuel' src room, (length src < fuel)%nat ->
    (length (filter valid_char src) < fuel')%nat ->
    decode_loop fuel src room = decode_loop fuel' (filter valid_char src) room) as H;
    [|apply H; lia].
  induction fuel as [|fuel IH]; intros fuel' src room Hf Hf'; [lia|].
  destruct (decide (filter valid_char src = [])) as [E|E].
  { rewrite E, decode_loop_nil. apply decode_loop_stop; [by apply filter_nil_invalid|lia]. }
  destruct fuel' as [|fuel']; [lia|]. rewrite !decode_loop_S.
  destruct (decide (room <= 0)); [by rewrite !decide_True by (by right)|].
  rewrite (decide_False (P := src = [] \/ room <= 0)) by (intros [->|?]; done).
  rewrite (decide_False (P := filter valid_char src = [] \/ room <= 0)) by tauto.
  pose proof (read_block_shorter 4 src). pose proof (read_block_shorter 4 (filter valid_char src)) as H2.
  rewrite read_block_filter in H2 |- *. destruct (read_block 4 src) as [block rest]. simpl in *.
  assert (src <> []) by (intros ->; done). assert (length src <> 0)%nat by (by destruct src).
  assert (length (filter valid_char src) <> 0)%nat by (by destruct (filter valid_char src)).
  by rewrite (IH fuel') by lia.
Qed.

Lemma decode_out_bytes block : bytes_ok (decode_out block).
Proof. unfold decode_out. repeat constructor; apply (wrap_range 8); lia. Qed.

(** Decoding any input returns, and writes at most [capacity] bytes. *)
Theorem base64_decode_total source capacity :
  exists out, base64_decode source capacity = Some out /\
    Z.of_nat (length out) <= Z.max 0 capacity /\ bytes_ok out.
Proof.
  unfold base64_decode.
  assert (forall fuel src room, (length src < fuel)%nat ->
    exists out, decode_loop fuel src room = Some out /\
      Z.of_nat (length out) <= Z.max 0 room /\ bytes_ok out) as H; [|apply H; lia].
  induction fuel as [|fuel IH]; intros src room Hf; [lia|]. rewrite decode_loop_S.
  case_decide as Hstop; [exists []; split; [done|simpl; split; [lia|constructor]]|].
  assert (length src <> 0)%nat by (intros ?%nil_length_inv; tauto).
  pose proof (read_block_shorter 4 src).
  destruct (read_block 4 src) as [block rest]. simpl in *.
  set (out := if decide _ then _ else _).
  assert (bytes_ok out /\ Z.of_nat (length out) <= room) as [Hb Hl].
  { subst out. case_decide; [|split; [constructor|simpl; lia]]. split.
    - apply Forall_take, Forall_take, decode_out_bytes.
    - rewrite length_take. lia. }
  destruct (IH rest (room - Z.of_nat (length out))) as (tl & -> & ? & ?); [lia|].
  exists (out ++ tl). split; [done|]. rewrite length_app, Nat2Z.inj_add.
  split; [lia|by apply Forall_app].
Qed.

End Base64.
