(* ===== verification/RadixSort.v ===== *)
(** * Radix sort ([src/library/foundation_lib/foundation/radixsort.c])

    The sorter orders a table of indices, one byte position per pass from the
    least significant to the most significant, and keeps the table between two
    calls to profit from temporal coherence.  An input array is the list of its
    elements, an element the list of its bytes in memory; the target is little
    endian, so byte [k] of an element is histogram [k]'s digit.  The width [w]
    is the width of the index type, 16 or 32: every counter and offset of the
    source has that type and wraps at it. *)
From S2P Require Import Prelude.
From Stdlib Require Import Sorting.Sorted.

Module RadixSort.

(** ** Data *)

Inductive radixsort_data_t :=
  | RADIXSORT_INT32 | RADIXSORT_UINT32 | RADIXSORT_INT64 | RADIXSORT_UINT64
  | RADIXSORT_FLOAT32 | RADIXSORT_FLOAT64 | RADIXSORT_CUSTOM.

#[export] Instance radixsort_data_eq_dec : EqDecision radixsort_data_t.
Proof. solve_decision. Defined.

Inductive radixsort_indextype_t := RADIXSORT_INDEX16 | RADIXSORT_INDEX32.

(** The tables are indexed by the six built-in types. *)
Definition radixsort_data_size (t : radixsort_data_t) : option nat :=
  match t with
  | RADIXSORT_INT32 | RADIXSORT_UINT32 | RADIXSORT_FLOAT32 => Some 4%nat
  | RADIXSORT_INT64 | RADIXSORT_UINT64 | RADIXSORT_FLOAT64 => Some 8%nat
  | RADIXSORT_CUSTOM => None
  end.

Definition radixsort_data_shift (t : radixsort_data_t) : option Z :=
  match t with
  | RADIXSORT_INT32 | RADIXSORT_UINT32 | RADIXSORT_FLOAT32 => Some 2
  | RADIXSORT_INT64 | RADIXSORT_UINT64 | RADIXSORT_FLOAT64 => Some 3
  | RADIXSORT_CUSTOM => None
  end.

Definition radixsort_data_signed (t : radixsort_data_t) : option bool :=
  match t with
  | RADIXSORT_UINT32 | RADIXSORT_UINT64 => Some false
  | RADIXSORT_CUSTOM => None
  | _ => Some true
  end.

(** The histogram and offset tables of the struct are rebuilt by every call
    before they are read; they are local values here. *)
Record radixsort_t := mk_radixsort {
  rs_type : radixsort_data_t;
  rs_indextype : radixsort_indextype_t;
  rs_custom_data_size : nat;
  rs_size : nat;
  rs_lastused : nat;
  rs_indices0 : list Z;
  rs_indices1 : list Z;
}.

Definition set_indices (sort : radixsort_t) (ix : list Z * list Z) : radixsort_t :=
  mk_radixsort (rs_type sort) (rs_indextype sort) (rs_custom_data_size sort)
    (rs_size sort) (rs_lastused sort) (fst ix) (snd ix).

Definition set_lastused (sort : radixsort_t) (n : nat) : radixsort_t :=
  mk_radixsort (rs_type sort) (rs_indextype sort) (rs_custom_data_size sort)
    (rs_size sort) n (rs_indices0 sort) (rs_indices1 sort).

(** ** Values of elements *)

(** An element's bytes are read as a little-endian integer. *)
Definition le_int (e : list Z) : Z :=
  let u := le_uint e in
  let n := 8 * Z.of_nat (length e) in
  if decide (u < 2 ^ (n - 1)) then u else u - 2 ^ n.

(** An IEEE-754 number that is not a NaN compares as the sign-magnitude integer
    of its representation; a NaN is not less than anything. *)
Definition float_mag (e : list Z) : Z := le_uint e mod 2 ^ (8 * Z.of_nat (length e) - 1).
Definition float_neg (e : list Z) : bool :=
  bool_decide (2 ^ (8 * Z.of_nat (length e) - 1) <= le_uint e).
Definition float_key (e : list Z) : Z := if float_neg e then - float_mag e else float_mag e.
Definition float_inf (data_size : nat) : Z :=
  if decide (data_size = 4%nat) then 0x7F800000 else 0x7FF0000000000000.
Definition float_nan (e : list Z) : bool := bool_decide (float_inf (length e) < float_mag e).
Definition float_lt (a b : list Z) : bool :=
  negb (float_nan a) && negb (float_nan b) && bool_decide (float_key a < float_key b).

(** ** Histograms *)

Definition bump (w : Z) (h : list Z) (b : Z) : list Z :=
  <[Z.to_nat b := wrap w (h !!! Z.to_nat b + 1)]> h.

(** [++(histogram[k][*loop++])] for each byte of one element. *)
Definition bump_all (w : Z) (hists : list (list Z)) (e : list Z) : list (list Z) :=
  zip_with (bump w) hists e.

(** The coherence loop: follow the previous order while it is sorted, filling
    the histograms from the data pointer [loop]; returns the rest of the data
    and the histograms. *)
Fixpoint coherence_loop (w : Z) (lt : list Z -> list Z -> bool) (input : list (list Z))
    (count : Z) (indices : list Z) (prev_val : list Z) (loop : list (list Z))
    (hists : list (list Z)) {struct loop} : list (list Z) * list (list Z) :=
  match loop, indices with
  | e :: loop', curindex :: indices' =>
      let val := input !!! Z.to_nat curindex in
      if (count <=? curindex) || lt val prev_val then (loop, hists)
      else coherence_loop w lt input count indices' val loop' (bump_all w hists e)
  | _, _ => (loop, hists)
  end.

Definition coherent_int32 w input count indices hists :=
  coherence_loop w (fun a b => bool_decide (le_int a < le_int b)) input count indices
    (input !!! 0%nat) input hists.
Definition coherent_uint32 w input count indices hists :=
  coherence_loop w (fun a b => bool_decide (le_uint a < le_uint b)) input count indices
    (input !!! 0%nat) input hists.
Definition coherent_int64 w input count indices hists :=
  coherence_loop w (fun a b => bool_decide (le_int a < le_int b)) input count indices
    (input !!! 0%nat) input hists.
Definition coherent_uint64 w input count indices hists :=
  coherence_loop w (fun a b => bool_decide (le_uint a < le_uint b)) input count indices
    (input !!! 0%nat) input hists.
Definition coherent_float32 w input count indices hists :=
  coherence_loop w float_lt input count indices (input !!! 0%nat) input hists.
Definition coherent_float64 w input count indices hists :=
  coherence_loop w float_lt input count indices (input !!! 0%nat) input hists.

(** The switch on the data type; the custom type is not checked. *)
Definition coherent_switch (t : radixsort_data_t) w input count indices hists :=
  match t with
  | RADIXSORT_INT32 => coherent_int32 w input count indices hists
  | RADIXSORT_UINT32 => coherent_uint32 w input count indices hists
  | RADIXSORT_INT64 => coherent_int64 w input count indices hists
  | RADIXSORT_UINT64 => coherent_uint64 w input count indices hists
  | RADIXSORT_FLOAT32 => coherent_float32 w input count indices hists
  | RADIXSORT_FLOAT64 => coherent_float64 w input count indices hists
  | RADIXSORT_CUSTOM => (input, hists)
  end.

(** The rest of the data, without checks. *)
Definition finish_histograms (w : Z) (hists : list (list Z)) (loop : list (list Z)) :=
  foldl (bump_all w) hists loop.

(** The identity on the first [count] entries of a table. *)
Definition identity_indices (w : Z) (count : nat) (table : list Z) : list Z :=
  (wrap w <$> seqZ 0 (Z.of_nat count)) ++ drop count table.

Definition reset_indices (w : Z) (sort : radixsort_t) (count : nat) : list Z * list Z :=
  if decide (count <> rs_lastused sort)
  then (identity_indices w count (rs_indices0 sort), identity_indices w count (rs_indices1 sort))
  else (rs_indices0 sort, rs_indices1 sort).

Definition data_size (sort : radixsort_t) : nat :=
  default (rs_custom_data_size sort) (radixsort_data_size (rs_type sort)).

(** [inl]: already sorted, return true; [inr]: the index tables and the
    histograms, return false. *)
Definition radixsort_create_histograms (w : Z) (sort : radixsort_t) (input : list (list Z))
    (count : nat) : unit + (list Z * list Z) * list (list Z) :=
  let hists := replicate (data_size sort) (replicate 256 0) in
  let '(loop, hists) :=
    if decide ((count <= rs_lastused sort)%nat /\ rs_type sort <> RADIXSORT_CUSTOM)
    then coherent_switch (rs_type sort) w input (Z.of_nat count) (rs_indices0 sort) hists
    else (input, hists) in
  match loop with
  | [] => inl tt
  | _ => inr (reset_indices w sort count, finish_histograms w hists loop)
  end.

(** ** Passes *)

(** [*offset++ = start; for ...: next = prev + *current_count; ...] *)
Fixpoint scan_offsets (w : Z) (prev : Z) (counts : list Z) : list Z :=
  match counts with
  | [] => [prev]
  | c :: counts' => prev :: scan_offsets w (wrap w (prev + c)) counts'
  end.

(** Number of negatives: the last 128 values of the most significant histogram. *)
Definition negatives (w : Z) (hist : list Z) : Z :=
  foldl (fun acc c => wrap w (acc + c)) 0 (drop 128 hist).

Definition unsigned_offsets (w : Z) (hist : list Z) : list Z :=
  scan_offsets w 0 (take 255 hist).

Definition signed_offsets (w : Z) (neg : Z) (hist : list Z) : list Z :=
  scan_offsets w neg (take 127 hist) ++ scan_offsets w 0 (take 127 (drop 128 hist)).

(** Positive offsets as for signed integers; negative offsets are accumulated
    from entry 255 downwards and then moved to the end of their region. *)
Definition float_offsets (w : Z) (neg : Z) (hist : list Z) : list Z :=
  scan_offsets w neg (take 127 hist) ++
  zip_with (fun o c => wrap w (o + c))
    (reverse (scan_offsets w 0 (take 127 (reverse hist)))) (drop 128 hist).

(** One write of the distribution loop: [indices_next[offset[radix]++] = id],
    or [indices_next[--offset[radix]] = id] for a radix that is not [fwd]. *)
Definition distribute_step (w : Z) (fwd : Z -> bool) (key : Z -> Z)
    (st : list Z * list Z) (id : Z) : list Z * list Z :=
  let '(next, offset) := st in
  let radix := key id in
  let o := offset !!! Z.to_nat radix in
  if fwd radix
  then (<[Z.to_nat o := id]> next, <[Z.to_nat radix := wrap w (o + 1)]> offset)
  else let o := wrap w (o - 1) in
       (<[Z.to_nat o := id]> next, <[Z.to_nat radix := o]> offset).

Definition distribute w fwd key (indices next offset : list Z) : list Z :=
  fst (foldl (distribute_step w fwd key) (next, offset) indices).

(** [input_bytes[id << data_shift]] with [input_bytes] at byte [ipass]. *)
Definition digit (input : list (list Z)) (ipass : nat) (id : Z) : Z :=
  (input !!! Z.to_nat id) !!! ipass.

(** Distribute [indices[0]] into [indices[1]] and swap the tables. *)
Definition pass_swap w fwd input ipass (count : nat) (ix : list Z * list Z) offset :=
  (distribute w fwd (digit input ipass) (take count (fst ix)) (snd ix) offset, fst ix).

Definition int_pass (w : Z) (data_signed : bool) (dsize : nat) (input : list (list Z))
    (count : nat) (neg : Z) (hists : list (list Z)) (ix : list Z * list Z) (ipass : nat) :=
  let current_count := hists !!! ipass in
  if decide (current_count !!! Z.to_nat (digit input ipass 0) <> Z.of_nat count) then
    let offset :=
      if decide (ipass <> (dsize - 1)%nat) then unsigned_offsets w current_count
      else if data_signed then signed_offsets w neg current_count
      else unsigned_offsets w current_count in
    pass_swap w (fun _ => true) input ipass count ix offset
  else ix.

Definition radixsort_int (w : Z) (sort : radixsort_t) (input : list (list Z)) (count : nat)
    : radixsort_t :=
  let data_signed := default false (radixsort_data_signed (rs_type sort)) in
  if decide (count = 0%nat) then sort
  else
    match radixsort_create_histograms w sort input count with
    | inl _ => sort
    | inr (ix, hists) =>
        let dsize := data_size sort in
        let neg := if data_signed then negatives w (hists !!! (dsize - 1)%nat) else 0 in
        set_indices sort
          (foldl (int_pass w data_signed dsize input count neg hists) ix (seq 0 dsize))
    end.

(** [radix < 128] is a positive number. *)
Definition float_fwd (radix : Z) : bool := bool_decide (radix < 128).

Definition float_pass (w : Z) (dsize : nat) (input : list (list Z)) (count : nat) (neg : Z)
    (hists : list (list Z)) (ix : list Z * list Z) (ipass : nat) :=
  let current_count := hists !!! ipass in
  let unique_val := digit input ipass 0 in
  if decide (ipass <> (dsize - 1)%nat) then
    if decide (current_count !!! Z.to_nat unique_val <> Z.of_nat count) then
      pass_swap w (fun _ => true) input ipass count ix (unsigned_offsets w current_count)
    else ix
  else
    if decide (current_count !!! Z.to_nat unique_val <> Z.of_nat count) then
      pass_swap w float_fwd input ipass count ix (float_offsets w neg current_count)
    else if decide (128 <= unique_val) then
      (reverse (take count (fst ix)) ++ drop count (snd ix), fst ix)
    else ix.

Definition radixsort_float (w : Z) (sort : radixsort_t) (input : list (list Z)) (count : nat)
    : radixsort_t :=
  if decide (count = 0%nat) then sort
  else
    match radixsort_create_histograms w sort input count with
    | inl _ => sort
    | inr (ix, hists) =>
        let dsize := data_size sort in
        let neg := negatives w (hists !!! (dsize - 1)%nat) in
        set_indices sort (foldl (float_pass w dsize input count neg hists) ix (seq 0 dsize))
    end.

Definition radixsort_int_index16 := radixsort_int 16.
Definition radixsort_int_index32 := radixsort_int 32.
Definition radixsort_float_index16 := radixsort_float 16.
Definition radixsort_float_index32 := radixsort_float 32.

(** The sorter after the call; the returned pointer is its [rs_indices0]. *)
Definition radixsort_sort (sort : radixsort_t) (input : list (list Z)) : radixsort_t :=
  let count := Nat.min (length input) (rs_size sort) in
  let input := take count input in
  let sort' :=
    if decide (rs_type sort = RADIXSORT_FLOAT32 \/ rs_type sort = RADIXSORT_FLOAT64) then
      match rs_indextype sort with
      | RADIXSORT_INDEX16 => radixsort_float_index16 sort input count
      | RADIXSORT_INDEX32 => radixsort_float_index32 sort input count
      end
    else
      match rs_indextype sort with
      | RADIXSORT_INDEX16 => radixsort_int_index16 sort input count
      | RADIXSORT_INDEX32 => radixsort_int_index32 sort input count
      end in
  set_lastused sort' count.

(** ** Initialisation *)

(** The common part of the two initialisers; the tables are allocated with
    [count] entries and only the entries below the clamped count are set. *)
Definition init_tables (count : nat) : radixsort_indextype_t * list Z :=
  let n := if decide (0xFFFFFFFF <= Z.of_nat count) then 0xFFFFFFFE else Z.of_nat count in
  if decide (0xFFFF < n)
  then (RADIXSORT_INDEX32, wrap 32 <$> seqZ 0 n)
  else (RADIXSORT_INDEX16, wrap 16 <$> seqZ 0 n).

Definition radixsort_initialize_custom (dsize count : nat) : radixsort_t :=
  let '(it, table) := init_tables count in
  mk_radixsort RADIXSORT_CUSTOM it dsize count count table table.

Definition radixsort_initialize (t : radixsort_data_t) (count : nat) : radixsort_t :=
  let '(it, table) := init_tables count in
  mk_radixsort t it (default 0%nat (radixsort_data_size t)) count count table table.

Example sort_int32_example :
  rs_indices0 (radixsort_sort (radixsort_initialize RADIXSORT_INT32 4)
    [[3;0;0;0]; [255;255;255;255]; [0;1;0;0]; [0;0;0;128]]) = [3; 1; 0; 2].
Proof. vm_compute. reflexivity. Qed.

Example sort_float32_example :  (* 1.0, -2.0, 0.5, -1.0 *)
  rs_indices0 (radixsort_sort (radixsort_initialize RADIXSORT_FLOAT32 4)
    [[0;0;128;63]; [0;0;0;192]; [0;0;0;63]; [0;0;128;191]]) = [1; 3; 2; 0].
Proof. vm_compute. reflexivity. Qed.

(** ** Histograms count digits *)

Definition hist_of {A} (key : A -> Z) (l : list A) (h : list Z) : Prop :=
  length h = 256%nat /\
  forall b, 0 <= b < 256 -> h !!! Z.to_nat b = Z.of_nat (length (bucket key l b)).

Lemma length_bump w h b : length (bump w h b) = length h.
Proof. apply length_insert. Qed.

Lemma bump_hist {A} w (key : A -> Z) l x h :
  0 <= w -> 0 <= key x < 256 -> Z.of_nat (length l) + 1 < 2 ^ w ->
  hist_of key l h -> hist_of key (l ++ [x]) (bump w h (key x)).
Proof.
  intros Hw Hk Hn [Hl Hc]. split; [by rewrite length_bump|].
  intros b Hb. unfold bump. rewrite bucket_snoc, length_app.
  case_decide as E; simpl.
  - rewrite E, list_lookup_total_insert_eq by lia. rewrite Hc by lia.
    rewrite wrap_small; [lia|].
    pose proof (length_filter (fun y => key y = b) l). unfold bucket. lia.
  - rewrite list_lookup_total_insert_ne by lia. rewrite Hc by lia. lia.
Qed.

Lemma foldl_bump_hist {A} w (key : A -> Z) (l : list A) :
  0 <= w -> Forall (fun x => 0 <= key x < 256) l -> Z.of_nat (length l) < 2 ^ w ->
  hist_of key l (foldl (fun h x => bump w h (key x)) (replicate 256 0) l).
Proof.
  intros Hw. induction l as [|x l IH] using rev_ind; intros Hk Hn.
  - split; [done|]. intros b Hb. cbn [foldl].
    by rewrite lookup_total_replicate_2 by lia.
  - rewrite foldl_app. cbn [foldl]. apply Forall_app in Hk as [Hk Hx].
    rewrite length_app in Hn. simpl in Hn. inversion Hx; subst.
    apply bump_hist; [done|done|lia|]. apply IH; [done|lia].
Qed.

Lemma lookup_bump_all w hists e k :
  (k < length hists)%nat -> (k < length e)%nat ->
  bump_all w hists e !!! k = bump w (hists !!! k) (e !!! k).
Proof.
  intros Hh He. unfold bump_all. apply list_lookup_total_correct.
  rewrite lookup_zip_with.
  rewrite (list_lookup_lookup_total_lt hists) by done.
  rewrite (list_lookup_lookup_total_lt e) by done. done.
Qed.

Definition elems_ok (dsize : nat) (input : list (list Z)) : Prop :=
  Forall (fun e => length e = dsize /\ bytes_ok e) input.

Lemma foldl_bump_all w dsize input hists k :
  elems_ok dsize input -> length hists = dsize -> (k < dsize)%nat ->
  length (foldl (bump_all w) hists input) = dsize /\
  foldl (bump_all w) hists input !!! k = foldl (fun h e => bump w h (e !!! k)) (hists !!! k) input.
Proof.
  intros He. revert hists. induction He as [|e input [Hl _] _ IH]; intros hists Hh Hk; [done|].
  simpl. destruct (IH (bump_all w hists e)) as [? ->]; [|done|].
  - unfold bump_all. rewrite length_zip_with. lia.
  - split; [done|]. rewrite lookup_bump_all by lia. done.
Qed.

Lemma coherence_loop_hists w lt input count indices prev loop hists loop' hists' :
  coherence_loop w lt input count indices prev loop hists = (loop', hists') ->
  foldl (bump_all w) hists' loop' = foldl (bump_all w) hists loop.
Proof.
  revert indices prev hists. induction loop as [|e loop IH]; intros indices prev hists H; simpl in H.
  - by simplify_eq.
  - destruct indices as [|cur indices]; [by simplify_eq|].
    destruct (_ || _); [by simplify_eq|]. apply IH in H. done.
Qed.

Lemma coherent_switch_hists t w input count indices hists loop' hists' :
  coherent_switch t w input count indices hists = (loop', hists') ->
  foldl (bump_all w) hists' loop' = foldl (bump_all w) hists input.
Proof. destruct t; simpl; intros H; first [by eapply coherence_loop_hists|by simplify_eq]. Qed.

Lemma create_histograms_spec w sort input count ix hists k :
  0 <= w -> elems_ok (data_size sort) input -> Z.of_nat (length input) < 2 ^ w ->
  radixsort_create_histograms w sort input count = inr (ix, hists) ->
  (k < data_size sort)%nat ->
  ix = reset_indices w sort count /\ hist_of (fun e => e !!! k) input (hists !!! k).
Proof.
  intros Hw He Hn H Hk. unfold radixsort_create_histograms in H.
  set (h0 := replicate _ _) in H.
  destruct (if decide _ then _ else _) as [loop hs] eqn:E.
  assert (foldl (bump_all w) hs loop = foldl (bump_all w) h0 input) as Hf.
  { case_decide; [by eapply coherent_switch_hists|by simplify_eq]. }
  destruct loop; [done|]. simplify_eq. split; [done|].
  unfold finish_histograms. rewrite Hf.
  destruct (foldl_bump_all w (data_size sort) input h0 k) as [_ ->]; [done|by apply length_replicate|done|].
  unfold h0. rewrite lookup_total_replicate_2 by done.
  apply foldl_bump_hist; [done| |done].
  eapply Forall_impl; [exact He|]. intros e [Hl Hb]. cbn.
  destruct (lookup_lt_is_Some_2 e k) as [x Hx]; [lia|].
  rewrite (list_lookup_total_correct e k x Hx).
  by eapply Forall_lookup_1 in Hb.
Qed.

(** ** The distribution loop *)

(** The result of one pass: the buckets of the digits in [order], the ones of
    the digits that are not [fwd] reversed. *)
Definition spec_bucket (fwd : Z -> bool) (key : Z -> Z) (l : list Z) (b : Z) : list Z :=
  if fwd b then bucket key l b else reverse (bucket key l b).
Definition spec_pass fwd key (order : list Z) (l : list Z) : list Z :=
  concat (spec_bucket fwd key l <$> order).

Section distribute.
Context (w : Z) (fwd : Z -> bool) (key : Z -> Z) (order : list Z) (sz : Z -> nat) (base : Z -> Z).
Hypothesis order_nodup : NoDup order.
Hypothesis order_range : forall b, b ∈ order -> 0 <= b < 256.
Hypothesis base_sum : forall o1 b o2, order = o1 ++ b :: o2 -> base b = Z.of_nat (sum_list_with sz o1).
Hypothesis base_fits : forall b, b ∈ order -> base b + Z.of_nat (sz b) < 2 ^ w.

Definition region (junk : Z -> list Z) (l : list Z) (b : Z) : list Z :=
  if fwd b then bucket key l b ++ junk b else junk b ++ reverse (bucket key l b).

Definition dist_inv (tail l : list Z) (st : list Z * list Z) : Prop :=
  exists junk, fst st = concat (region junk l <$> order) ++ tail /\
    length (snd st) = 256%nat /\
    forall b, b ∈ order ->
      (length (bucket key l b) + length (junk b))%nat = sz b /\
      snd st !!! Z.to_nat b =
        base b + Z.of_nat (if fwd b then length (bucket key l b) else length (junk b)).

Lemma region_length junk l b :
  length (region junk l b) = (length (bucket key l b) + length (junk b))%nat.
Proof. unfold region. case_match; rewrite length_app, ?length_reverse; lia. Qed.

Lemma regions_length junk l o :
  (forall b, b ∈ o -> (length (bucket key l b) + length (junk b))%nat = sz b) ->
  length (concat (region junk l <$> o)) = sum_list_with sz o.
Proof.
  induction o as [|c o IH]; intros H; [done|]. rewrite fmap_cons. cbn [concat sum_list_with].
  rewrite length_app, region_length, H by (by left). rewrite IH; [done|].
  intros b Hb. apply H. by right.
Qed.

Lemma region_other junk j' l x b c :
  key x = b -> c <> b ->
  region (fun d => if decide (d = b) then j' else junk d) (l ++ [x]) c = region junk l c.
Proof.
  intros Hk Hc. unfold region. rewrite bucket_snoc.
  rewrite !decide_False by congruence. by rewrite app_nil_r.
Qed.

Lemma regions_other junk j' l x b (o : list Z) :
  key x = b -> b ∉ o ->
  region (fun d => if decide (d = b) then j' else junk d) (l ++ [x]) <$> o = region junk l <$> o.
Proof.
  intros Hk Hb. apply list_fmap_ext. intros i c Hc. apply region_other; [done|].
  intros ->. apply Hb. by apply list_elem_of_lookup_2 in Hc.
Qed.

Lemma concat_mid (f : Z -> list Z) o1 b o2 :
  concat (f <$> (o1 ++ b :: o2)) = concat (f <$> o1) ++ f b ++ concat (f <$> o2).
Proof. rewrite fmap_app, concat_app. done. Qed.

(** Writing [x] at its place turns the regions of [l] into those of [l ++ [x]]. *)
Lemma region_write junk l x o1 b o2 tail :
  key x = b -> order = o1 ++ b :: o2 ->
  (forall c, c ∈ order -> (length (bucket key l c) + length (junk c))%nat = sz c) ->
  (length (bucket key l b) < sz b)%nat ->
  exists j', length (junk b) = S (length j') /\
    <[Z.to_nat (base b + Z.of_nat (if fwd b then length (bucket key l b) else length j')) := x]>
      (concat (region junk l <$> order) ++ tail) =
    concat (region (fun d => if decide (d = b) then j' else junk d) (l ++ [x]) <$> order) ++ tail.
Proof.
  intros Hk Ho Hsz Hlt. pose proof order_nodup as Hnd. rewrite Ho in Hnd.
  apply NoDup_app in Hnd as (_ & Hb1 & [Hb2 _]%NoDup_cons).
  assert (b ∉ o1) as Hb1' by (intros H; apply (Hb1 b H); by left).
  assert ((length (bucket key l b) + length (junk b))%nat = sz b) as Hj
    by (apply Hsz; rewrite Ho; set_solver).
  assert (length (concat (region junk l <$> o1)) = sum_list_with sz o1) as Hlen.
  { apply regions_length. intros c Hc. apply Hsz. rewrite Ho. set_solver. }
  rewrite (base_sum o1 b o2 Ho), <- Hlen. rewrite Ho.
  assert (forall b', region (fun d => if decide (d = b) then b' else junk d) (l ++ [x]) b =
    if fwd b then (bucket key l b ++ [x]) ++ b' else b' ++ x :: reverse (bucket key l b)) as Hreg.
  { intros b'. unfold region. rewrite bucket_snoc, !decide_True by done.
    by rewrite reverse_snoc. }
  assert (region junk l b = if fwd b then bucket key l b ++ junk b
    else junk b ++ reverse (bucket key l b)) as Hreg0 by done.
  rewrite concat_mid, Hreg0. clear Hreg0. destruct (fwd b) eqn:Hf.
  - destruct (junk b) as [|y js]; [simpl in Hj; lia|]. exists js. split; [done|].
    rewrite concat_mid, !regions_other, Hreg by done.
    rewrite <- Nat2Z.inj_add, Nat2Z.id, <- length_app.
    rewrite <- !app_assoc. rewrite (app_assoc (concat _)). simpl.
    rewrite insert_mid. by rewrite <- !app_assoc.
  - destruct (junk b) as [|y js _] using rev_ind; [simpl in Hj; lia|].
    exists js. split; [rewrite length_app; simpl; lia|].
    rewrite concat_mid, !regions_other, Hreg by done.
    rewrite <- Nat2Z.inj_add, Nat2Z.id, <- length_app.
    rewrite <- !app_assoc. rewrite (app_assoc (concat _)). simpl.
    rewrite insert_mid. by rewrite <- !app_assoc.
Qed.

Lemma distribute_step_inv tail l x st :
  key x ∈ order -> (length (bucket key (l ++ [x]) (key x)) <= sz (key x))%nat ->
  dist_inv tail l st -> dist_inv tail (l ++ [x]) (distribute_step w fwd key st x).
Proof.
  intros Hx Hle (junk & Hn & Hl & Hb). destruct st as [next off]. simpl in *.
  set (b := key x) in *. pose proof Hx as (o1 & o2 & Ho)%list_elem_of_split.
  destruct (Hb b Hx) as [Hsz Hoff]. pose proof (order_range b Hx). pose proof (base_fits b Hx).
  assert (0 <= base b) by (rewrite (base_sum _ _ _ Ho); lia).
  rewrite bucket_snoc, decide_True, length_app in Hle by done. simpl in Hle.
  destruct (region_write junk l x o1 b o2 tail eq_refl Ho) as (j' & Hj' & Hw);
    [intros c Hc; apply Hb, Hc|lia|].
  exists (fun d => if decide (d = b) then j' else junk d).
  rewrite Hoff, <- Hw, <- Hn.
  assert (wrap w (base b + Z.of_nat (length (junk b)) - 1) = base b + Z.of_nat (length j')) as Hwr.
  { rewrite wrap_small; lia. }
  assert (wrap w (base b + Z.of_nat (length (bucket key l b)) + 1)
    = base b + Z.of_nat (length (bucket key l b ++ [x]))) as Hwr2.
  { rewrite wrap_small; rewrite ?length_app; simpl; lia. }
  destruct (fwd b) eqn:Hf; cbn [fst snd]; rewrite ?Hwr; (split; [done|]);
    (split; [by rewrite length_insert|]); intros c Hc; destruct (Hb c Hc) as [Hszc Hoffc];
    pose proof (order_range c Hc); rewrite bucket_snoc; fold b.
  - destruct (decide (c = b)) as [->|Hne].
    + rewrite decide_True, Hf, list_lookup_total_insert_eq by (done || lia).
      rewrite length_app. simpl. split; [lia|]. rewrite Hwr2, length_app. simpl. lia.
    + rewrite decide_False, app_nil_r, list_lookup_total_insert_ne by lia. done.
  - destruct (decide (c = b)) as [->|Hne].
    + rewrite decide_True, Hf, list_lookup_total_insert_eq by (done || lia).
      rewrite length_app. simpl. split; [lia|done].
    + rewrite decide_False, app_nil_r, list_lookup_total_insert_ne by lia. done.
Qed.

(** The distribution loop places every index of [l] in its bucket. *)
Lemma distribute_spec l next off :
  (forall x, x ∈ l -> key x ∈ order) ->
  (forall b, b ∈ order -> sz b = length (bucket key l b)) ->
  (sum_list_with sz order <= length next)%nat ->
  length off = 256%nat ->
  (forall b, b ∈ order -> off !!! Z.to_nat b = base b + (if fwd b then 0 else Z.of_nat (sz b))) ->
  distribute w fwd key l next off =
  spec_pass fwd key order l ++ drop (sum_list_with sz order) next.
Proof.
  intros Hk Hsz Hn Hl Hoff. unfold distribute.
  set (tail := drop _ next).
  assert (dist_inv tail [] (next, off)) as Hinit.
  { destruct (split_regions order sz next order_nodup Hn) as (junk & Hj & Hlen).
    exists junk. simpl. split; [|split; [done|]].
    - rewrite Hj at 1. f_equal. f_equal. apply list_fmap_ext. intros i b _.
      unfold region. simpl. case_match; [done|]. by rewrite app_nil_r.
    - intros b Hb. rewrite Hlen, Hoff by done. split; [done|]. case_match; lia. }
  assert (forall l1 l2, l = l1 ++ l2 ->
    dist_inv tail l1 (foldl (distribute_step w fwd key) (next, off) l1)) as Hall.
  { induction l1 as [|x l1 IH] using rev_ind; intros l2 El; [done|].
    rewrite foldl_app. simpl. apply distribute_step_inv.
    - apply Hk. rewrite El. set_solver.
    - rewrite Hsz by (apply Hk; rewrite El; set_solver).
      rewrite El, (bucket_length_app key (l1 ++ [x]) l2). lia.
    - apply (IH (x :: l2)). by rewrite El, <- app_assoc. }
  destruct (Hall l [] ltac:(by rewrite app_nil_r)) as (junk & -> & _ & Hb).
  f_equal. unfold spec_pass. f_equal. apply list_fmap_ext. intros i b Hb'.
  apply list_elem_of_lookup_2 in Hb'. destruct (Hb b Hb') as [Hlen _].
  rewrite Hsz in Hlen by done. unfold region, spec_bucket.
  destruct (junk b); [|simpl in Hlen; lia]. case_match; [by rewrite app_nil_r|done].
Qed.
End distribute.

(** ** Offsets are the prefix sums of a histogram *)

Lemma scan_offsets_length w p cs : length (scan_offsets w p cs) = S (length cs).
Proof. revert p. induction cs; simpl; auto. Qed.

Lemma scan_offsets_lookup w p cs i :
  0 <= p -> Forall (fun c => 0 <= c) cs -> p + sumZ cs < 2 ^ w -> (i <= length cs)%nat ->
  scan_offsets w p cs !!! i = p + sumZ (take i cs).
Proof.
  revert p i. induction cs as [|c cs IH]; intros p i Hp Hcs Hsum Hi.
  - destruct i; simpl in *; [lia|lia].
  - inversion Hcs; subst. simpl in Hsum. pose proof (sumZ_nonneg cs H2).
    destruct i as [|i]; simpl; [lia|]. change (scan_offsets w (wrap w (p + c)) cs !!! i = p + (c + sumZ (take i cs))).
    rewrite (wrap_small w (p + c)) by lia.
    rewrite IH; simpl in *; [lia..|done|lia|lia].
Qed.

Definition order_unsigned : list Z := seqZ 0 256.
Definition order_signed : list Z := seqZ 128 128 ++ seqZ 0 128.
Definition order_float : list Z := reverse (seqZ 128 128) ++ seqZ 0 128.

Lemma order_signed_perm : order_signed ≡ₚ order_unsigned.
Proof.
  unfold order_signed, order_unsigned. rewrite (Permutation_app_comm (seqZ 128 128)).
  change 256 with (128 + 128). by rewrite (seqZ_app 0 128 128) by lia.
Qed.

Lemma order_float_perm : order_float ≡ₚ order_unsigned.
Proof. unfold order_float. rewrite reverse_Permutation. apply order_signed_perm. Qed.

Section offsets.
Context (h : list Z).
Hypothesis h_len : length h = 256%nat.
Hypothesis h_nonneg : Forall (fun c => 0 <= c) h.

Definition hsz (b : Z) : nat := Z.to_nat (h !!! Z.to_nat b).

Lemma hist_at b : 0 <= b < 256 -> 0 <= h !!! Z.to_nat b.
Proof.
  intros Hb. destruct (lookup_lt_is_Some_2 h (Z.to_nat b)) as [x Hx]; [lia|].
  rewrite (list_lookup_total_correct _ _ _ Hx). by eapply Forall_lookup_1 in Hx.
Qed.

Lemma sum_seqZ (k : nat) : forall a : Z, 0 <= a -> a + Z.of_nat k <= 256 ->
  Z.of_nat (sum_list_with hsz (seqZ a (Z.of_nat k))) = sumZ (take k (drop (Z.to_nat a) h)).
Proof.
  induction k as [|k IH]; intros a Ha Hk; [by rewrite take_0|].
  rewrite seqZ_cons by lia. replace (Z.pred (Z.of_nat (S k))) with (Z.of_nat k) by lia.
  destruct (lookup_lt_is_Some_2 h (Z.to_nat a)) as [x Hx]; [lia|].
  rewrite (drop_S _ _ _ Hx). cbn [sum_list_with take sumZ foldr]. rewrite Nat2Z.inj_add.
  rewrite IH by lia. replace (Z.to_nat (Z.succ a)) with (S (Z.to_nat a)) by lia.
  f_equal. unfold hsz. rewrite (list_lookup_total_correct _ _ _ Hx).
  eapply Forall_lookup_1 in Hx; [|done]. simpl in Hx. lia.
Qed.

Lemma take_drop_bound n k : 0 <= sumZ (take n (drop k h)) <= sumZ h.
Proof.
  assert (sumZ h = sumZ (take k h) + sumZ (drop k h)) as E
    by (rewrite <- sumZ_app; by rewrite take_drop).
  pose proof (sumZ_take_le h k h_nonneg).
  pose proof (sumZ_take_le (drop k h) n (Forall_drop _ _ _ h_nonneg)). lia.
Qed.

Definition base_unsigned (b : Z) : Z := sumZ (take (Z.to_nat b) h).
Definition base_signed (b : Z) : Z :=
  if decide (b < 128) then sumZ (drop 128 h) + sumZ (take (Z.to_nat b) h)
  else sumZ (take (Z.to_nat (b - 128)) (drop 128 h)).
Definition base_float (b : Z) : Z :=
  if decide (b < 128) then sumZ (drop 128 h) + sumZ (take (Z.to_nat b) h)
  else sumZ (drop (Z.to_nat (b + 1)) h).

Lemma total_split : sumZ (take 128 h) + sumZ (drop 128 h) = sumZ h.
Proof. rewrite <- sumZ_app. by rewrite take_drop. Qed.

Lemma base_unsigned_sum o1 b o2 :
  order_unsigned = o1 ++ b :: o2 -> base_unsigned b = Z.of_nat (sum_list_with hsz o1).
Proof.
  intros E. assert (0 <= b < 256) as Hb.
  { apply (elem_of_seqZ 0 256). fold order_unsigned. rewrite E. apply elem_of_app. right. left. }
  pose proof E as E'. unfold order_unsigned in E'. rewrite (seqZ_cut 0 256 b) in E' by lia.
  apply nodup_split_unique in E' as <-; [|rewrite <- seqZ_cut by lia; apply NoDup_seqZ].
  replace (b - 0) with (Z.of_nat (Z.to_nat b)) by lia. rewrite sum_seqZ by lia. done.
Qed.

Lemma order_signed_cut b : 0 <= b < 256 ->
  order_signed = (if decide (b < 128) then seqZ 128 128 ++ seqZ 0 b else seqZ 128 (b - 128)) ++
    b :: (if decide (b < 128) then seqZ (b + 1) (128 - b - 1)
          else seqZ (b + 1) (256 - b - 1) ++ seqZ 0 128).
Proof.
  intros Hb. unfold order_signed. case_decide.
  - rewrite (seqZ_cut 0 128 b) at 1 by lia. rewrite <- app_assoc.
    by replace (b - 0) with b by lia.
  - rewrite (seqZ_cut 128 128 b) at 1 by lia. by rewrite <- app_assoc.
Qed.

Lemma order_float_cut b : 0 <= b < 256 ->
  order_float = (if decide (b < 128) then reverse (seqZ 128 128) ++ seqZ 0 b
                 else reverse (seqZ (b + 1) (256 - b - 1))) ++
    b :: (if decide (b < 128) then seqZ (b + 1) (128 - b - 1)
          else reverse (seqZ 128 (b - 128)) ++ seqZ 0 128).
Proof.
  intros Hb. unfold order_float. case_decide.
  - rewrite (seqZ_cut 0 128 b) at 1 by lia. rewrite <- app_assoc.
    by replace (b - 0) with b by lia.
  - rewrite (seqZ_cut 128 128 b) at 1 by lia. rewrite reverse_app, reverse_cons.
    by rewrite <- !app_assoc.
Qed.

Lemma order_signed_nodup : NoDup order_signed.
Proof. rewrite order_signed_perm. apply NoDup_seqZ. Qed.
Lemma order_float_nodup : NoDup order_float.
Proof. rewrite order_float_perm. apply NoDup_seqZ. Qed.

Lemma order_range o : o ≡ₚ order_unsigned -> forall b, b ∈ o -> 0 <= b < 256.
Proof. intros Ho b Hb. rewrite Ho in Hb. by apply (elem_of_seqZ 0 256) in Hb. Qed.

Lemma sum_high : Z.of_nat (sum_list_with hsz (seqZ 128 128)) = sumZ (drop 128 h).
Proof.
  change 128 with (Z.of_nat 128) at 2. rewrite sum_seqZ by lia.
  f_equal. apply take_ge. rewrite length_drop. lia.
Qed.

Lemma base_signed_sum o1 b o2 :
  order_signed = o1 ++ b :: o2 -> base_signed b = Z.of_nat (sum_list_with hsz o1).
Proof.
  intros E. assert (0 <= b < 256) as Hb.
  { apply (order_range _ order_signed_perm). rewrite E. apply elem_of_app. right. left. }
  pose proof E as E'. rewrite (order_signed_cut b Hb) in E'.
  apply nodup_split_unique in E' as <-; [|rewrite <- order_signed_cut by done; apply order_signed_nodup].
  unfold base_signed. case_decide.
  - rewrite sum_list_with_app, Nat2Z.inj_add, sum_high. f_equal.
    replace b with (Z.of_nat (Z.to_nat b)) at 2 by lia. rewrite sum_seqZ by lia. done.
  - replace (b - 128) with (Z.of_nat (Z.to_nat (b - 128))) at 2 by lia.
    rewrite sum_seqZ by lia. done.
Qed.

Lemma base_float_sum o1 b o2 :
  order_float = o1 ++ b :: o2 -> base_float b = Z.of_nat (sum_list_with hsz o1).
Proof.
  intros E. assert (0 <= b < 256) as Hb.
  { apply (order_range _ order_float_perm). rewrite E. apply elem_of_app. right. left. }
  pose proof E as E'. rewrite (order_float_cut b Hb) in E'.
  apply nodup_split_unique in E' as <-; [|rewrite <- order_float_cut by done; apply order_float_nodup].
  unfold base_float. case_decide.
  - rewrite sum_list_with_app, (sum_list_with_perm _ _ _ (reverse_Permutation _)).
    rewrite Nat2Z.inj_add, sum_high. f_equal.
    replace b with (Z.of_nat (Z.to_nat b)) at 2 by lia. rewrite sum_seqZ by lia. done.
  - rewrite (sum_list_with_perm _ _ _ (reverse_Permutation _)).
    replace (256 - b - 1) with (Z.of_nat (Z.to_nat (256 - b - 1))) by lia.
    rewrite sum_seqZ by lia. f_equal. symmetry. apply take_ge. rewrite length_drop. lia.
Qed.

(** The counters do not overflow the index type. *)
Context (w : Z).
Hypothesis h_fits : sumZ h < 2 ^ w.

Lemma negatives_sum : negatives w h = sumZ (drop 128 h).
Proof.
  unfold negatives. pose proof (take_drop_bound 128 128) as Hb.
  rewrite take_ge in Hb by (rewrite length_drop; lia).
  pose proof (Forall_drop (fun c => 0 <= c) 128 h h_nonneg) as Hn.
  assert (forall l a, Forall (fun c => 0 <= c) l -> 0 <= a -> a + sumZ l < 2 ^ w ->
    foldl (fun acc c => wrap w (acc + c)) a l = a + sumZ l) as H.
  { induction l as [|c l IH]; intros a Hl Ha Hs; simpl in *; [lia|].
    inversion Hl; subst. pose proof (sumZ_nonneg l H2).
    rewrite wrap_small by lia. rewrite IH by (done || lia). lia. }
  rewrite H by (done || lia). lia.
Qed.

Lemma unsigned_offsets_length : length (unsigned_offsets w h) = 256%nat.
Proof. unfold unsigned_offsets. rewrite scan_offsets_length, length_take. lia. Qed.

Lemma signed_offsets_length n : length (signed_offsets w n h) = 256%nat.
Proof.
  unfold signed_offsets.
  rewrite length_app, !scan_offsets_length, !length_take, length_drop. lia.
Qed.

Lemma float_offsets_length n : length (float_offsets w n h) = 256%nat.
Proof.
  unfold float_offsets.
  rewrite length_app, length_zip_with, length_reverse, !scan_offsets_length, !length_take,
    length_drop, length_reverse. lia.
Qed.

Lemma scan_at p n k i :
  0 <= p -> p + sumZ (take n (drop k h)) < 2 ^ w -> (i <= n)%nat -> (k + n <= 256)%nat ->
  scan_offsets w p (take n (drop k h)) !!! i = p + sumZ (take i (drop k h)).
Proof.
  intros Hp Hs Hi Hk. rewrite scan_offsets_lookup; [|done| |done|].
  - rewrite take_take. by replace (i `min` n)%nat with i by lia.
  - by apply Forall_take, Forall_drop.
  - rewrite length_take, length_drop. lia.
Qed.

Lemma unsigned_offsets_base b :
  0 <= b < 256 -> unsigned_offsets w h !!! Z.to_nat b = base_unsigned b.
Proof.
  intros Hb. pose proof (take_drop_bound 255 0).
  unfold unsigned_offsets. rewrite <- (drop_0 h) at 1.
  rewrite scan_at by lia. by rewrite drop_0.
Qed.

Lemma positive_offsets_base l b :
  0 <= b < 128 ->
  (scan_offsets w (negatives w h) (take 127 h) ++ l) !!! Z.to_nat b =
  sumZ (drop 128 h) + sumZ (take (Z.to_nat b) h).
Proof.
  intros Hb. pose proof (take_drop_bound 128 128) as H1. pose proof total_split as Ht.
  rewrite take_ge in H1 by (rewrite length_drop; lia).
  rewrite lookup_total_app_l by (rewrite scan_offsets_length, length_take; lia).
  rewrite negatives_sum. rewrite <- (drop_0 h) at 2. rewrite scan_at; rewrite ?drop_0; try lia.
  pose proof (sumZ_take_le (take 128 h) 127 (Forall_take _ _ _ h_nonneg)) as H2.
  rewrite take_take in H2. simpl in H2. lia.
Qed.

Lemma signed_offsets_base b :
  0 <= b < 256 -> signed_offsets w (negatives w h) h !!! Z.to_nat b = base_signed b.
Proof.
  intros Hb. unfold base_signed, signed_offsets.
  case_decide; [by apply positive_offsets_base; lia|].
  pose proof (take_drop_bound 127 128).
  rewrite lookup_total_app_r by (rewrite scan_offsets_length, length_take; lia).
  rewrite scan_offsets_length, length_take.
  replace (Z.to_nat b - S (127 `min` length h))%nat with (Z.to_nat (b - 128)) by lia.
  rewrite scan_at by lia. lia.
Qed.

Lemma lookup_total_reverse_lt (l : list Z) i :
  (i < length l)%nat -> reverse l !!! i = l !!! (length l - S i)%nat.
Proof. intros. by rewrite !list_lookup_total_alt, reverse_lookup by done. Qed.

Lemma sumZ_reverse l : sumZ (reverse l) = sumZ l.
Proof.
  induction l as [|x l IH]; [done|]. rewrite reverse_cons, sumZ_app, IH. simpl. lia.
Qed.

(** Accumulating from the top gives the sum of the larger digits. *)
Lemma negative_offsets_base b :
  128 <= b < 256 ->
  reverse (scan_offsets w 0 (take 127 (reverse h))) !!! Z.to_nat (b - 128) =
  sumZ (drop (Z.to_nat (b + 1)) h).
Proof.
  intros Hb. pose proof (take_drop_bound 256 0) as H0.
  assert (Forall (fun c => 0 <= c) (reverse h)) as Hr by (by apply Forall_reverse).
  pose proof (sumZ_take_le (reverse h) 127 Hr) as H1. rewrite sumZ_reverse in H1.
  rewrite lookup_total_reverse_lt; rewrite scan_offsets_length, length_take, length_reverse; [|lia].
  replace (S (127 `min` length h) - S (Z.to_nat (b - 128)))%nat with (255 - Z.to_nat b)%nat by lia.
  rewrite scan_offsets_lookup; [|done|by apply Forall_take|lia|rewrite length_take, length_reverse; lia].
  rewrite take_take. replace ((255 - Z.to_nat b) `min` 127)%nat with (255 - Z.to_nat b)%nat by lia.
  rewrite take_reverse, sumZ_reverse. simpl.
  by replace (length h - (255 - Z.to_nat b))%nat with (Z.to_nat (b + 1)) by lia.
Qed.

Lemma float_offsets_base b :
  0 <= b < 256 ->
  float_offsets w (negatives w h) h !!! Z.to_nat b =
  base_float b + (if float_fwd b then 0 else Z.of_nat (hsz b)).
Proof.
  intros Hb. unfold base_float, float_offsets, float_fwd.
  destruct (decide (b < 128)).
  { rewrite bool_decide_eq_true_2 by done. rewrite positive_offsets_base by lia. lia. }
  rewrite bool_decide_eq_false_2 by done.
  rewrite lookup_total_app_r by (rewrite scan_offsets_length, length_take; lia).
  rewrite scan_offsets_length, length_take.
  replace (Z.to_nat b - S (127 `min` length h))%nat with (Z.to_nat (b - 128)) by lia.
  destruct (lookup_lt_is_Some_2 h (Z.to_nat b)) as [c Hc]; [lia|].
  assert (hsz b = Z.to_nat c) as -> by (unfold hsz; by rewrite (list_lookup_total_correct _ _ _ Hc)).
  assert (0 <= c) as Hc0 by (by eapply Forall_lookup_1 in Hc).
  apply list_lookup_total_correct. rewrite lookup_zip_with, lookup_drop.
  replace (128 + Z.to_nat (b - 128))%nat with (Z.to_nat b) by lia.
  rewrite (list_lookup_lookup_total_lt (reverse _))
    by (rewrite length_reverse, scan_offsets_length, length_take, length_reverse; lia).
  rewrite negative_offsets_base by lia. rewrite Hc. simpl.
  rewrite wrap_small; [f_equal; lia|].
  pose proof (take_drop_bound 256 (Z.to_nat b)) as H1.
  rewrite take_ge, (drop_S _ _ _ Hc) in H1 by (rewrite length_drop; lia). simpl in H1.
  replace (Z.to_nat (b + 1)) with (S (Z.to_nat b)) by lia.
  pose proof (sumZ_nonneg _ (Forall_drop _ (S (Z.to_nat b)) _ h_nonneg)). lia.
Qed.
End offsets.

(** ** One pass *)

Lemma spec_pass_perm fwd key order l :
  NoDup order -> (forall x, x ∈ l -> key x ∈ order) -> spec_pass fwd key order l ≡ₚ l.
Proof.
  intros Hnd. induction l as [|x l IH]; intros Hk.
  - clear. unfold spec_pass. induction order as [|c order IH]; [done|].
    rewrite fmap_cons. cbn [concat]. rewrite IH. unfold spec_bucket. by case_match.
  - rewrite <- IH at 2 by (intros; apply Hk; by right). unfold spec_pass.
    destruct (list_elem_of_split order (key x)) as (o1 & o2 & ->); [apply Hk; left|].
    apply NoDup_app in Hnd as (_ & H1 & [H2 _]%NoDup_cons).
    assert (forall o : list Z, key x ∉ o -> spec_bucket fwd key (x :: l) <$> o = spec_bucket fwd key l <$> o) as Ho.
    { intros o Hx. apply list_fmap_ext. intros i c Hc. unfold spec_bucket, bucket.
      rewrite filter_cons_False; [done|]. intros <-. apply Hx. by apply list_elem_of_lookup_2 in Hc. }
    rewrite !concat_mid, !Ho; [|done|intros H; apply (H1 _ H); by left].
    rewrite Permutation_middle. apply Permutation_app_head. rewrite app_comm_cons.
    apply Permutation_app_tail. unfold spec_bucket, bucket. rewrite filter_cons_True by done.
    case_match; [done|]. by rewrite !reverse_Permutation.
Qed.

(** When all digits are equal a forward pass changes nothing. *)
Lemma spec_pass_const fwd key order l b :
  NoDup order -> b ∈ order -> Forall (fun x => key x = b) l ->
  spec_pass fwd key order l = if fwd b then l else reverse l.
Proof.
  intros Hnd (o1 & o2 & ->)%list_elem_of_split Hl.
  apply NoDup_app in Hnd as (_ & H1 & [H2 _]%NoDup_cons).
  assert (forall o : list Z, b ∉ o -> concat (spec_bucket fwd key l <$> o) = []) as Ho.
  { induction o as [|c o IH]; intros Hb; [done|]. apply not_elem_of_cons in Hb as [Hne Hb].
    rewrite fmap_cons. cbn [concat]. rewrite IH, app_nil_r by done.
    assert (bucket key l c = []) as E.
    { unfold bucket. clear -Hl Hne. induction Hl as [|x l Hx _ IH]; [done|].
      rewrite filter_cons_False by congruence. done. }
    unfold spec_bucket. rewrite E. by case_match. }
  unfold spec_pass. rewrite concat_mid, !Ho;
    [|done|intros H; apply (H1 _ H); by left].
  rewrite app_nil_r. simpl.
  assert (bucket key l b = l) as E.
  { unfold bucket. clear -Hl. induction Hl as [|x l Hx _ IH]; [done|].
    rewrite filter_cons_True by done. by rewrite IH. }
  unfold spec_bucket. by rewrite E.
Qed.

(** The indices of the input, in some order. *)
Definition index_perm (n : nat) (l : list Z) : Prop := l ≡ₚ seqZ 0 (Z.of_nat n).

Lemma index_perm_length n l : index_perm n l -> length l = n.
Proof. intros H. apply Permutation_length in H. rewrite length_seqZ in H. lia. Qed.

Lemma index_perm_range n l x : index_perm n l -> x ∈ l -> 0 <= x < Z.of_nat n.
Proof. intros H Hx. rewrite H in Hx. apply elem_of_seqZ in Hx. lia. Qed.

Lemma digit_range input dsize k x :
  elems_ok dsize input ->
  (k < dsize)%nat -> 0 <= x < Z.of_nat (length input) -> 0 <= digit input k x < 256.
Proof.
  intros elems Hk Hx. unfold digit.
  destruct (lookup_lt_is_Some_2 input (Z.to_nat x)) as [e He]; [lia|].
  rewrite (list_lookup_total_correct _ _ _ He).
  destruct (Forall_lookup_1 _ _ _ _ elems He) as [Hl Hb].
  destruct (lookup_lt_is_Some_2 e k) as [c Hc]; [lia|].
  rewrite (list_lookup_total_correct _ _ _ Hc). by eapply Forall_lookup_1 in Hb.
Qed.


Section pass.
Context (w : Z) (input : list (list Z)) (dsize : nat) (hists : list (list Z)).
Hypothesis w_nonneg : 0 <= w.
Hypothesis n_fits : Z.of_nat (length input) < 2 ^ w.
Hypothesis n_pos : (0 < length input)%nat.
Hypothesis elems : elems_ok dsize input.
Hypothesis hists_ok : forall k, (k < dsize)%nat -> hist_of (fun e => e !!! k) input (hists !!! k).

Lemma hist_bucket k l b :
  (k < dsize)%nat -> index_perm (length input) l -> 0 <= b < 256 ->
  (hists !!! k) !!! Z.to_nat b = Z.of_nat (length (bucket (digit input k) l b)).
Proof.
  intros Hk Hl Hb. destruct (hists_ok k Hk) as [_ ->]; [|done]. f_equal.
  rewrite (list_as_indices input) at 1. rewrite bucket_fmap_length.
  symmetry. apply Permutation_length. apply (bucket_perm (digit input k)). done.
Qed.

Lemma pass_keys k (l order : list Z) :
  (k < dsize)%nat -> index_perm (length input) l -> order ≡ₚ order_unsigned ->
  forall x, x ∈ l -> digit input k x ∈ order.
Proof.
  intros Hk Hl Ho x Hx. rewrite Ho. apply (elem_of_seqZ 0 256).
  pose proof (digit_range _ _ k x elems Hk (index_perm_range _ _ _ Hl Hx)). lia.
Qed.

Lemma hist_facts k :
  (k < dsize)%nat ->
  length (hists !!! k) = 256%nat /\ Forall (fun c => 0 <= c) (hists !!! k) /\
  sumZ (hists !!! k) = Z.of_nat (length input) /\
  (forall l b, index_perm (length input) l -> 0 <= b < 256 ->
     hsz (hists !!! k) b = length (bucket (digit input k) l b)).
Proof.
  intros Hk. destruct (hists_ok k Hk) as [Hlen Hc].
  assert (Forall (fun c => 0 <= c) (hists !!! k)) as Hnn.
  { apply Forall_lookup_2. intros i c Hi. pose proof (lookup_lt_Some _ _ _ Hi).
    apply list_lookup_total_correct in Hi. replace i with (Z.to_nat (Z.of_nat i)) in Hi by lia.
    rewrite Hc in Hi by lia. lia. }
  assert (forall l b, index_perm (length input) l -> 0 <= b < 256 ->
    hsz (hists !!! k) b = length (bucket (digit input k) l b)) as Hsz.
  { intros l b Hl Hb. unfold hsz. rewrite (hist_bucket k l) by done. lia. }
  split; [done|]. split; [done|]. split; [|done].
  pose proof (sum_seqZ (hists !!! k) Hlen Hnn 256 0) as Hs.
  rewrite drop_0, take_ge in Hs by lia. rewrite <- Hs by lia. f_equal.
  assert (index_perm (length input) (seqZ 0 (Z.of_nat (length input)))) as Hp
    by (unfold index_perm; reflexivity).
  rewrite (sum_list_with_ext _ (fun b => length (bucket (digit input k)
    (seqZ 0 (Z.of_nat (length input))) b))).
  - rewrite buckets_total; [by rewrite length_seqZ, Nat2Z.id|apply NoDup_seqZ|].
    by apply (pass_keys k _ order_unsigned).
  - intros b Hb. apply (elem_of_seqZ 0 256) in Hb. by apply Hsz.
Qed.

(** Distributing with any of the three offset tables performs the pass. *)
Lemma pass_swap_spec k (fwd : Z -> bool) (order : list Z) (base : Z -> Z) (off : list Z)
    (ix : list Z * list Z) (l : list Z) :
  (k < dsize)%nat -> order ≡ₚ order_unsigned ->
  (forall o1 b o2, order = o1 ++ b :: o2 ->
     base b = Z.of_nat (sum_list_with (hsz (hists !!! k)) o1)) ->
  length off = 256%nat ->
  (forall b, 0 <= b < 256 -> off !!! Z.to_nat b =
     base b + (if fwd b then 0 else Z.of_nat (hsz (hists !!! k) b))) ->
  index_perm (length input) l -> take (length input) (fst ix) = l ->
  (length input <= length (snd ix))%nat ->
  pass_swap w fwd input k (length input) ix off =
  (spec_pass fwd (digit input k) order l ++ drop (length input) (snd ix), fst ix).
Proof.
  intros Hk Ho Hbase Hoff Hoffb Hl Htake Hlen. unfold pass_swap. rewrite Htake. f_equal.
  destruct (hist_facts k Hk) as (Hh & Hnn & Hsum & Hsz).
  assert (NoDup order) as Hnd by (rewrite Ho; apply NoDup_seqZ).
  pose proof (order_range order Ho) as Hrange.
  assert (sum_list_with (hsz (hists !!! k)) order = length input) as Htotal.
  { rewrite <- (index_perm_length _ _ Hl).
    rewrite <- (buckets_total (digit input k) order l Hnd) by (by apply (pass_keys k)).
    apply sum_list_with_ext. intros b Hb. apply Hsz; [done|by apply Hrange]. }
  rewrite (distribute_spec w fwd (digit input k) order (hsz (hists !!! k)) base);
    [by rewrite Htotal|done|done|done| |by apply (pass_keys k)| |lia|done|].
  - intros b Hb. pose proof Hb as (o1 & o2 & E)%list_elem_of_split.
    rewrite (Hbase _ _ _ E). rewrite <- Nat2Z.inj_add.
    assert (sum_list_with (hsz (hists !!! k)) o1 + hsz (hists !!! k) b <= length input)%nat;
      [|lia]. rewrite <- Htotal, E, sum_list_with_app. simpl. lia.
  - intros b Hb. apply Hsz; [done|by apply Hrange].
  - intros b Hb. by apply Hoffb, Hrange.
Qed.

Lemma unique_digit k l :
  (k < dsize)%nat -> index_perm (length input) l ->
  (hists !!! k) !!! Z.to_nat (digit input k 0) = Z.of_nat (length input) ->
  Forall (fun x => digit input k x = digit input k 0) l.
Proof.
  intros Hk Hl H. apply bucket_all.
  rewrite (hist_bucket k l) in H; [|done|done|apply (digit_range _ dsize); [done|done|lia]].
  rewrite (index_perm_length _ _ Hl). lia.
Qed.

Definition int_order (data_signed : bool) (k : nat) : list Z :=
  if decide (k = (dsize - 1)%nat /\ data_signed = true) then order_signed else order_unsigned.

Lemma int_order_perm s k : int_order s k ≡ₚ order_unsigned.
Proof. unfold int_order. case_decide; [apply order_signed_perm|done]. Qed.

(** A pass over consistent tables: the first [n] indices are redistributed. *)
Definition pass_result (ix : list Z * list Z) (l : list Z) : Prop :=
  index_perm (length input) l /\ take (length input) (fst ix) = l /\
  (length input <= length (snd ix))%nat.

Lemma pass_result_next fwd k (order : list Z) ix l :
  pass_result ix l -> order ≡ₚ order_unsigned -> (k < dsize)%nat ->
  let l' := spec_pass fwd (digit input k) order l in
  pass_result (l' ++ drop (length input) (snd ix), fst ix) l'.
Proof.
  intros (Hl & Ht & Hn) Ho Hk l'. assert (l' ≡ₚ l) as Hp.
  { apply spec_pass_perm; [rewrite Ho; apply NoDup_seqZ|by apply (pass_keys k)]. }
  assert (index_perm (length input) l') as Hl' by (unfold index_perm; by rewrite Hp).
  split; [done|]. cbn [fst snd]. rewrite take_app_le by (rewrite (index_perm_length _ _ Hl'); lia).
  rewrite take_ge by (rewrite (index_perm_length _ _ Hl'); lia). split; [done|].
  apply index_perm_length in Hl. rewrite <- Ht, length_take in Hl. lia.
Qed.

Lemma int_pass_spec data_signed neg ix l k :
  (k < dsize)%nat -> pass_result ix l ->
  (data_signed = true -> neg = negatives w (hists !!! (dsize - 1)%nat)) ->
  pass_result (int_pass w data_signed dsize input (length input) neg hists ix k)
    (spec_pass (fun _ => true) (digit input k) (int_order data_signed k) l).
Proof.
  intros Hk Hr Hneg. pose proof Hr as (Hl & Ht & Hn).
  destruct (hist_facts k Hk) as (Hh & Hnn & Hsum & _).
  unfold int_pass. destruct (decide (_ <> _)) as [Hd|Hd].
  - erewrite pass_swap_spec; [by apply pass_result_next, Hk; [|apply int_order_perm]|done| | | | |done|done|done].
    + apply int_order_perm.
    + intros o1 b o2. unfold int_order.
      instantiate (1 := if decide (k = (dsize - 1)%nat /\ data_signed = true)
                        then base_signed (hists !!! k) else base_unsigned (hists !!! k)).
      case_decide; [by apply base_signed_sum|by apply base_unsigned_sum].
    + repeat case_decide; try case_match;
        rewrite ?unsigned_offsets_length, ?signed_offsets_length by done; done.
    + intros b Hb. destruct (decide (k = (dsize - 1)%nat)) as [->|Hne].
      * rewrite decide_False by auto. destruct data_signed.
        -- rewrite decide_True by done. rewrite Hneg by done.
           rewrite signed_offsets_base by (done || lia). lia.
        -- rewrite decide_False by naive_solver. rewrite unsigned_offsets_base by (done || lia). lia.
      * rewrite decide_True by done. rewrite decide_False by naive_solver.
        rewrite unsigned_offsets_base by (done || lia). lia.
  - apply dec_stable in Hd. rewrite (spec_pass_const _ _ _ _ (digit input k 0)); [done| | |].
    + rewrite int_order_perm. apply NoDup_seqZ.
    + rewrite int_order_perm. apply (elem_of_seqZ 0 256).
      pose proof (digit_range _ _ k 0 elems Hk). lia.
    + by apply unique_digit.
Qed.
(** The last pass of the floating point sorters also reverses the list when
    every number is negative and shares its most significant byte. *)
Definition float_order (k : nat) : list Z :=
  if decide (k = (dsize - 1)%nat) then order_float else order_unsigned.
Definition float_dir (k : nat) : Z -> bool :=
  if decide (k = (dsize - 1)%nat) then float_fwd else fun _ => true.

Lemma float_order_perm k : float_order k ≡ₚ order_unsigned.
Proof. unfold float_order. case_decide; [apply order_float_perm|done]. Qed.

Lemma float_pass_spec neg ix l k :
  (k < dsize)%nat -> pass_result ix l -> neg = negatives w (hists !!! (dsize - 1)%nat) ->
  pass_result (float_pass w dsize input (length input) neg hists ix k)
    (spec_pass (float_dir k) (digit input k) (float_order k) l).
Proof.
  intros Hk Hr ->. pose proof Hr as (Hl & Ht & Hn).
  destruct (hist_facts k Hk) as (Hh & Hnn & Hsum & _).
  pose proof (digit_range _ _ k 0 elems Hk ltac:(lia)) as Hu.
  assert (forall P : Prop, (hists !!! k) !!! Z.to_nat (digit input k 0) = Z.of_nat (length input) ->
    float_order k ≡ₚ order_unsigned -> pass_result (if float_dir k (digit input k 0) then ix
      else (reverse (take (length input) (fst ix)) ++ drop (length input) (snd ix), fst ix))
     (spec_pass (float_dir k) (digit input k) (float_order k) l)) as Hconst.
  { intros _ Hd Ho. rewrite (spec_pass_const _ _ _ _ (digit input k 0));
      [|rewrite Ho; apply NoDup_seqZ|rewrite Ho; by apply (elem_of_seqZ 0 256)|by apply unique_digit].
    destruct (float_dir k _); [done|]. rewrite Ht.
    assert (index_perm (length input) (reverse l)) as Hp
      by (unfold index_perm; by rewrite reverse_Permutation).
    pose proof (index_perm_length _ _ Hp) as Hlen.
    split; [done|]. cbn [fst snd]. rewrite take_app_le, take_ge by lia. split; [done|].
    apply index_perm_length in Hl. rewrite <- Ht, length_take in Hl. lia. }
  unfold float_pass, float_order, float_dir in *. destruct (decide (k = (dsize - 1)%nat)) as [->|Hne].
  - rewrite decide_False by auto. destruct (decide (_ <> _)) as [Hd|Hd].
    + erewrite pass_swap_spec; [by apply pass_result_next, Hk; [|apply order_float_perm]|done
        |apply order_float_perm|by apply base_float_sum|by apply float_offsets_length| |done..].
      intros b Hb. apply float_offsets_base; (done || lia).
    + apply dec_stable in Hd. specialize (Hconst True Hd order_float_perm).
      unfold float_fwd in Hconst. case_bool_decide; [by rewrite decide_False by lia|].
      by rewrite decide_True by lia.
  - rewrite decide_True by done. destruct (decide (_ <> _)) as [Hd|Hd].
    + erewrite pass_swap_spec; [by apply pass_result_next, Hk|done
        |done|by apply base_unsigned_sum|by apply unsigned_offsets_length| |done..].
      intros b Hb. rewrite unsigned_offsets_base by (done || lia). lia.
    + apply dec_stable in Hd. by apply (Hconst True Hd).
Qed.
End pass.

(** ** Sortedness of a pass *)

Lemma StronglySorted_app_2 {A} (R : A -> A -> Prop) l1 l2 :
  StronglySorted R l1 -> StronglySorted R l2 -> (forall x y, x ∈ l1 -> y ∈ l2 -> R x y) ->
  StronglySorted R (l1 ++ l2).
Proof.
  induction 1 as [|x l1 H1 IH Hx]; intros H2 H; simpl; [done|]. constructor.
  - apply IH; [done|]. intros y z Hy Hz. apply H; [by right|done].
  - apply Forall_app. split; [done|]. apply Forall_forall. intros y Hy. apply H; [by left|done].
Qed.

Lemma StronglySorted_bucket (R0 R : Z -> Z -> Prop) key l b :
  StronglySorted R0 l ->
  (forall x y, x ∈ l -> y ∈ l -> key x = b -> key y = b -> R0 x y -> R x y) ->
  StronglySorted R (bucket key l b).
Proof.
  unfold bucket. induction 1 as [|x l Hs IH Hx]; intros H; [constructor|].
  assert (StronglySorted R (filter (fun z => key z = b) l)) as Hf.
  { apply IH. intros u v Hu Hv. apply H; by right. }
  rewrite filter_cons. case_decide as E; [|done]. constructor; [done|].
  apply Forall_forall. intros y [Hy Hin]%list_elem_of_filter. apply H; [by left|by right|done..|].
  rewrite Forall_forall in Hx. by apply Hx.
Qed.

Lemma StronglySorted_reverse (R : Z -> Z -> Prop) l :
  StronglySorted (fun x y => R y x) l -> StronglySorted R (reverse l).
Proof.
  induction 1 as [|x l Hs IH Hx]; [constructor|]. rewrite reverse_cons.
  apply StronglySorted_app_2; [done|repeat constructor|].
  intros y z Hy ->%list_elem_of_singleton. rewrite Forall_forall in Hx. apply Hx.
  by apply elem_of_reverse.
Qed.

(** A stable pass refines a sorted list: the digit decides, equal digits keep
    (or, for a digit that is not [fwd], reverse) the previous order. *)
Lemma spec_pass_sorted (fwd : Z -> bool) (key : Z -> Z) (order l : list Z) (R0 R : Z -> Z -> Prop) :
  StronglySorted R0 l ->
  StronglySorted (fun b c => forall x y, x ∈ l -> y ∈ l -> key x = b -> key y = c -> R x y) order ->
  (forall x y, x ∈ l -> y ∈ l -> key x = key y -> R0 x y ->
    if fwd (key x) then R x y else R y x) ->
  StronglySorted R (spec_pass fwd key order l).
Proof.
  intros Hl Ho Hb. unfold spec_pass.
  assert (forall (b x : Z), x ∈ spec_bucket fwd key l b -> x ∈ l /\ key x = b) as Hin.
  { intros b x Hx. unfold spec_bucket in Hx. case_match; [|rewrite elem_of_reverse in Hx];
      apply list_elem_of_filter in Hx as [? ?]; done. }
  induction Ho as [|b o Ho IH Hx]; [constructor|]. rewrite fmap_cons. cbn [concat].
  apply StronglySorted_app_2; [|done|].
  - unfold spec_bucket. destruct (fwd b) eqn:Hf.
    + apply (StronglySorted_bucket R0); [done|]. intros x y ?? Hkx Hky Hxy.
      specialize (Hb x y). rewrite Hkx, Hky, Hf in Hb. by apply Hb.
    + apply StronglySorted_reverse, (StronglySorted_bucket R0); [done|]. intros x y ?? Hkx Hky Hxy.
      specialize (Hb x y). rewrite Hkx, Hky, Hf in Hb. by apply Hb.
  - intros x y [Hx1 Hx2]%Hin Hy. apply list_elem_of_In, in_concat in Hy as (s & Hs & Hy).
    apply list_elem_of_In in Hs, Hy.
    apply list_elem_of_fmap in Hs as (c & -> & Hc). apply Hin in Hy as [Hy1 Hy2].
    rewrite Forall_forall in Hx. by apply (Hx c Hc).
Qed.

Lemma StronglySorted_seqZ (R : Z -> Z -> Prop) a n :
  (forall x y, a <= x < y -> y < a + n -> R x y) -> StronglySorted R (seqZ a n).
Proof.
  intros H. destruct (decide (0 <= n)) as [Hn|]; [|rewrite seqZ_nil by lia; constructor].
  revert a H. pattern n. apply natlike_ind; [| |done]; clear n Hn.
  - intros a _. constructor.
  - intros n Hn IH a H. rewrite seqZ_cons by lia. rewrite Z.pred_succ. constructor.
    + apply IH. intros x y ? ?. apply H; lia.
    + apply Forall_forall. intros y [? ?]%elem_of_seqZ. apply H; lia.
Qed.

(** ** The value read so far *)

Definition low (k : nat) (e : list Z) : Z := le_uint (take k e).

Lemma low_S k e : (k < length e)%nat -> low (S k) e = low k e + 2 ^ (8 * Z.of_nat k) * e !!! k.
Proof.
  intros Hk. unfold low. destruct (lookup_lt_is_Some_2 e k Hk) as [x Hx].
  rewrite (take_S_r _ _ _ Hx), le_uint_app, length_take.
  rewrite (list_lookup_total_correct _ _ _ Hx). unfold le_uint at 2. simpl.
  replace (k `min` length e)%nat with k by lia. lia.
Qed.

Lemma low_range k e : (k <= length e)%nat -> bytes_ok e -> 0 <= low k e < 2 ^ (8 * Z.of_nat k).
Proof.
  intros Hk He. pose proof (le_uint_range (take k e) (Forall_take _ _ _ He)) as H.
  rewrite length_take in H. by replace (k `min` length e)%nat with k in H by lia.
Qed.

(** ** All passes *)

Definition elem (input : list (list Z)) (i : Z) : list Z := input !!! Z.to_nat i.

(** Indices in non-decreasing order of a key of their elements. *)
Definition sorted_by (key : list Z -> Z) (input : list (list Z)) (l : list Z) : Prop :=
  StronglySorted (fun i j => key (elem input i) <= key (elem input j)) l.

(** A key with the same values on the elements gives the same order. *)
Lemma sorted_by_ext key key' input (l : list Z) :
  (forall x, x ∈ l -> key (elem input x) = key' (elem input x)) ->
  sorted_by key input l -> sorted_by key' input l.
Proof.
  intros H Hs. induction Hs as [|x l Hs IH Hx]; constructor.
  - apply IH. intros y Hy. apply H. by right.
  - rewrite Forall_forall in *. intros y Hy.
    rewrite <- !H by (by left || by right). by apply Hx.
Qed.


Section passes.
Context (input : list (list Z)) (dsize : nat).
Hypothesis elems : elems_ok dsize input.

Lemma elem_ok i :
  0 <= i < Z.of_nat (length input) -> length (elem input i) = dsize /\ bytes_ok (elem input i).
Proof.
  intros Hi. unfold elem. destruct (lookup_lt_is_Some_2 input (Z.to_nat i)) as [e He]; [lia|].
  rewrite (list_lookup_total_correct _ _ _ He). by eapply Forall_lookup_1 in elems.
Qed.

Lemma digit_elem k i : digit input k i = elem input i !!! k.
Proof. done. Qed.

(** A forward pass in digit order sorts by one more byte. *)
Lemma spec_pass_low k l :
  (k < dsize)%nat -> index_perm (length input) l ->
  sorted_by (low k) input l ->
  sorted_by (low (S k)) input (spec_pass (fun _ => true) (digit input k) order_unsigned l).
Proof.
  intros Hk Hl Hs. pose proof (pow2_pos (8 * Z.of_nat k) ltac:(lia)) as Hp.
  assert (forall x, x ∈ l -> low (S k) (elem input x) =
    low k (elem input x) + 2 ^ (8 * Z.of_nat k) * digit input k x /\
    0 <= low k (elem input x) < 2 ^ (8 * Z.of_nat k)) as Hlow.
  { intros x Hx. destruct (elem_ok x (index_perm_range _ _ _ Hl Hx)) as [He Hb].
    split; [apply low_S; lia|apply low_range; [lia|done]]. }
  apply (spec_pass_sorted _ _ _ _ _ _ Hs).
  - apply StronglySorted_seqZ. intros b c Hbc _ x y [-> ?]%Hlow [-> ?]%Hlow Hx Hy.
    rewrite Hx, Hy. nia.
  - intros x y [-> ?]%Hlow [-> ?]%Hlow -> Hxy. lia.
Qed.

(** The top byte of the key: signed order for two's complement. *)
Lemma le_int_top e d :
  length e = S d -> bytes_ok e ->
  le_int e = low d e + 2 ^ (8 * Z.of_nat d) *
    (if decide (e !!! d < 128) then e !!! d else e !!! d - 256) /\
  float_mag e = low d e + 2 ^ (8 * Z.of_nat d) *
    (if decide (e !!! d < 128) then e !!! d else e !!! d - 128) /\
  float_neg e = negb (bool_decide (e !!! d < 128)) /\ le_uint e = low (S d) e.
Proof.
  intros Hl He. pose proof (low_S d e ltac:(lia)) as Hs.
  pose proof (low_range d e ltac:(lia) He) as Hr.
  assert (0 <= e !!! d < 256) as Hd.
  { destruct (lookup_lt_is_Some_2 e d ltac:(lia)) as [x Hx].
    rewrite (list_lookup_total_correct _ _ _ Hx). by eapply Forall_lookup_1 in He. }
  assert (le_uint e = low (S d) e) as Hu by (unfold low; rewrite take_ge by lia; done).
  unfold le_int, float_mag, float_neg. rewrite Hu, Hs, Hl.
  set (P := 2 ^ (8 * Z.of_nat d)) in *.
  assert (2 ^ (8 * Z.of_nat (S d) - 1) = 128 * P) as ->.
  { replace (8 * Z.of_nat (S d) - 1) with (7 + 8 * Z.of_nat d) by lia.
    rewrite Z.pow_add_r by lia. done. }
  assert (2 ^ (8 * Z.of_nat (S d)) = 256 * P) as ->.
  { replace (8 * Z.of_nat (S d)) with (8 + 8 * Z.of_nat d) by lia.
    rewrite Z.pow_add_r by lia. done. }
  repeat split.
  - repeat case_decide; nia.
  - case_decide.
    + apply Z.mod_small. nia.
    + symmetry. apply (Z.mod_unique_pos _ _ 1); nia.
  - repeat case_bool_decide; simpl; nia.
Qed.

Lemma spec_pass_signed d l :
  dsize = S d -> index_perm (length input) l -> sorted_by (low d) input l ->
  sorted_by le_int input (spec_pass (fun _ => true) (digit input d) order_signed l).
Proof.
  intros Hd Hl Hs.
  assert (forall x, x ∈ l -> le_int (elem input x) = low d (elem input x) + 2 ^ (8 * Z.of_nat d) *
      (if decide (digit input d x < 128) then digit input d x else digit input d x - 256) /\
    0 <= low d (elem input x) < 2 ^ (8 * Z.of_nat d)) as Hlow.
  { intros x Hx. destruct (elem_ok x (index_perm_range _ _ _ Hl Hx)) as [He Hb].
    split; [apply le_int_top; [lia|done]|apply low_range; [lia|done]]. }
  apply (spec_pass_sorted _ _ _ _ _ _ Hs).
  - assert (forall b c, (if decide (b < 128) then b else b - 256) < (if decide (c < 128) then c else c - 256) ->
      forall x y, x ∈ l -> y ∈ l -> digit input d x = b -> digit input d y = c ->
      le_int (elem input x) <= le_int (elem input y)) as H.
    { intros b c Hbc x y [-> ?]%Hlow [-> ?]%Hlow -> ->. nia. }
    apply StronglySorted_app_2; try (apply StronglySorted_seqZ; intros b c ? ?; apply H;
      repeat case_decide; lia).
    intros b c [? ?]%elem_of_seqZ [? ?]%elem_of_seqZ. apply H. repeat case_decide; lia.
  - intros x y [-> ?]%Hlow [-> ?]%Hlow -> Hxy. lia.
Qed.

Lemma spec_pass_float d l :
  dsize = S d -> index_perm (length input) l -> sorted_by (low d) input l ->
  sorted_by float_key input (spec_pass float_fwd (digit input d) order_float l).
Proof.
  intros Hd Hl Hs.
  assert (forall x, x ∈ l -> float_key (elem input x) =
      (if decide (digit input d x < 128)
       then low d (elem input x) + 2 ^ (8 * Z.of_nat d) * digit input d x
       else - (low d (elem input x) + 2 ^ (8 * Z.of_nat d) * (digit input d x - 128))) /\
    0 <= low d (elem input x) < 2 ^ (8 * Z.of_nat d) /\ 0 <= digit input d x < 256) as Hlow.
  { intros x Hx. pose proof (index_perm_range _ _ _ Hl Hx) as Hr.
    destruct (elem_ok x Hr) as [He Hb].
    split; [|split; [apply low_range; [lia|done]|]].
    - destruct (le_int_top (elem input x) d ltac:(lia) Hb) as (_ & Hm & Hn & _).
      unfold float_key. rewrite Hm, Hn. unfold digit, elem. by repeat case_decide.
    - apply (digit_range input dsize); [done|lia|done]. }
  apply (spec_pass_sorted _ _ _ _ _ _ Hs).
  - assert (forall b c, (if decide (b < 128) then b + 1 else 127 - b) < (if decide (c < 128) then c + 1 else 127 - c) ->
      forall x y, x ∈ l -> y ∈ l -> digit input d x = b -> digit input d y = c ->
      float_key (elem input x) <= float_key (elem input y)) as H.
    { intros b c Hbc x y [-> [Hx Hb]]%Hlow [-> [Hy Hc]]%Hlow Ex Ey. rewrite Ex in *. rewrite Ey in *.
      set (P := 2 ^ (8 * Z.of_nat d)) in *. clearbody P. repeat case_decide; nia. }
    apply StronglySorted_app_2; [apply StronglySorted_reverse|..];
      try (apply StronglySorted_seqZ; intros b c ? ?; apply H; repeat case_decide; lia).
    intros b c Hb [? ?]%elem_of_seqZ. apply elem_of_reverse, elem_of_seqZ in Hb.
    apply H. repeat case_decide; lia.
  - intros x y [-> ?]%Hlow [-> ?]%Hlow E Hxy. rewrite E in *. unfold float_fwd.
    case_bool_decide; case_decide; nia.
Qed.

(** The loop over the passes, for a step that performs [spec_pass]. *)
Lemma passes_low (step : list Z * list Z -> nat -> list Z * list Z) ix n :
  (n <= dsize)%nat ->
  (forall ix l k, (k < n)%nat -> pass_result input ix l ->
    pass_result input (step ix k) (spec_pass (fun _ => true) (digit input k) order_unsigned l)) ->
  (exists l, pass_result input ix l) ->
  exists l, pass_result input (foldl step ix (seq 0 n)) l /\ sorted_by (low n) input l.
Proof.
  intros Hn Hstep [l0 H0]. induction n as [|n IH].
  - exists l0. split; [done|]. unfold sorted_by.
    clear. induction l0; constructor; [done|]. apply Forall_forall. intros.
    unfold low. by rewrite !take_0.
  - destruct IH as (l & Hr & Hs); [lia|intros; apply Hstep; [lia|done]|].
    rewrite seq_S, foldl_app. simpl. eexists. split; [apply Hstep; [lia|exact Hr]|].
    apply spec_pass_low; [lia|apply Hr|done].
Qed.
End passes.

(** ** Temporal coherence *)

Section coherence.
Context (w : Z) (input : list (list Z)) (lt : list Z -> list Z -> bool).

(** A loop that reaches the end followed a chain of in-range indices, none
    smaller than the one before. *)
Lemma coherence_loop_chain count indices p loop hists hs :
  coherence_loop w lt input count indices (elem input p) loop hists = ([], hs) ->
  (length loop <= length indices)%nat ->
  Forall (fun i => i < count) (take (length loop) indices) /\
  Sorted (fun i j => lt (elem input j) (elem input i) = false) (take (length loop) indices) /\
  HdRel (fun i j => lt (elem input j) (elem input i) = false) p (take (length loop) indices).
Proof.
  revert indices p hists. induction loop as [|e loop IH]; intros [|cur indices] p hists H Hle;
    simpl in *; try lia; [by repeat constructor..|].
  destruct (count <=? cur) eqn:Hc; [done|]. destruct (lt _ (elem input p)) eqn:Hlt; [done|]. simpl in H.
  apply IH in H as (Hf & Hs & Hh); [|lia]. apply Z.leb_gt in Hc.
  split; [by constructor|]. split; [|by constructor].
  by constructor.
Qed.

Lemma coherent_sorted key count indices loop hists hs :
  (forall i j, 0 <= i < Z.of_nat (length input) -> 0 <= j < Z.of_nat (length input) ->
     lt (elem input j) (elem input i) = false -> key (elem input i) <= key (elem input j)) ->
  length loop = length input -> count = Z.of_nat (length input) ->
  (length input <= length indices)%nat ->
  NoDup (take (length input) indices) -> Forall (fun i => 0 <= i) (take (length input) indices) ->
  coherence_loop w lt input count indices (elem input 0) loop hists = ([], hs) ->
  index_perm (length input) (take (length input) indices) /\
  sorted_by key input (take (length input) indices).
Proof.
  intros Hkey Hl -> Hle Hnd Hpos H. apply coherence_loop_chain in H as (Hf & Hs & _); [|lia].
  rewrite Hl in *. set (l := take _ indices) in *.
  assert (length l = length input) as Hlen by (unfold l; rewrite length_take; lia).
  assert (forall x, x ∈ l -> 0 <= x < Z.of_nat (length input)) as Hr.
  { intros x Hx. rewrite Forall_forall in Hf, Hpos. split; [by apply Hpos|by apply Hf]. }
  split.
  - unfold index_perm. apply submseteq_length_Permutation.
    + apply NoDup_submseteq; [done|]. intros x Hx. apply elem_of_seqZ. specialize (Hr x Hx). lia.
    + rewrite length_seqZ. lia.
  - unfold sorted_by. clear -Hkey Hr Hs. apply Sorted_StronglySorted.
    { intros x y z. lia. }
    induction Hs as [|x l Hs IH Hh]; constructor.
    + apply IH. intros y Hy. apply Hr. by right.
    + destruct Hh as [|y l Hxy]; constructor. apply Hkey; [apply Hr; by left|apply Hr; right; by left|done].
Qed.
End coherence.

(** ** The sorter *)

Definition index_width (it : radixsort_indextype_t) : Z :=
  match it with RADIXSORT_INDEX16 => 16 | RADIXSORT_INDEX32 => 32 end.

(** The state between two calls: both tables have an entry per element and the
    first [lastused] entries of the current one are a permutation. *)
Definition wf (sort : radixsort_t) : Prop :=
  Z.of_nat (rs_size sort) < 2 ^ index_width (rs_indextype sort) /\
  length (rs_indices0 sort) = rs_size sort /\ length (rs_indices1 sort) = rs_size sort /\
  (rs_lastused sort <= rs_size sort)%nat /\
  index_perm (rs_lastused sort) (take (rs_lastused sort) (rs_indices0 sort)).

Lemma seqZ_wrap w n : 0 <= w -> n <= 2 ^ w -> wrap w <$> seqZ 0 n = seqZ 0 n.
Proof.
  intros Hw Hn. rewrite <- (list_fmap_id (seqZ 0 n)) at 2.
  apply list_fmap_ext. intros i x Hx. apply list_elem_of_lookup_2, elem_of_seqZ in Hx.
  rewrite wrap_small by lia. done.
Qed.

Lemma index_perm_take n m l :
  index_perm n (take n l) -> (m <= n)%nat ->
  NoDup (take m l) /\ Forall (fun i => 0 <= i) (take m l).
Proof.
  intros H Hm. replace m with (m `min` n)%nat by lia. rewrite <- take_take. split.
  - assert (NoDup (take n l)) as Hnd by (rewrite H; apply NoDup_seqZ).
    rewrite <- (take_drop m (take n l)) in Hnd. by apply NoDup_app in Hnd as [? _].
  - apply Forall_take, Forall_forall. intros x Hx. rewrite H in Hx. apply elem_of_seqZ in Hx. lia.
Qed.

Lemma reset_indices_result w sort (input : list (list Z)) :
  0 <= w -> Z.of_nat (rs_size sort) < 2 ^ w ->
  length (rs_indices0 sort) = rs_size sort -> length (rs_indices1 sort) = rs_size sort ->
  (length input <= rs_size sort)%nat ->
  index_perm (rs_lastused sort) (take (rs_lastused sort) (rs_indices0 sort)) ->
  exists l, pass_result input (reset_indices w sort (length input)) l.
Proof.
  intros Hw Hsz H0 H1 Hn Hp. unfold reset_indices. case_decide as E.
  - exists (seqZ 0 (Z.of_nat (length input))). unfold identity_indices, pass_result. cbn [fst snd].
    rewrite seqZ_wrap by lia. split; [unfold index_perm; reflexivity|].
    rewrite take_app_le, take_ge by (rewrite length_seqZ; lia).
    split; [done|]. rewrite length_app, length_seqZ, length_drop. lia.
  - eexists. split; [|split; [reflexivity|cbn [fst snd]; lia]]. cbn [fst snd].
    by rewrite E.
Qed.

Lemma reset_indices_length w sort count :
  (count <= length (rs_indices0 sort))%nat -> (count <= length (rs_indices1 sort))%nat ->
  length (fst (reset_indices w sort count)) = length (rs_indices0 sort) /\
  length (snd (reset_indices w sort count)) = length (rs_indices1 sort).
Proof.
  intros H0 H1. unfold reset_indices, identity_indices. case_decide; [|done].
  cbn [fst snd]. rewrite !length_app, !length_fmap, !length_seqZ, !length_drop. lia.
Qed.

Lemma length_distribute w fwd key l next off :
  length (distribute w fwd key l next off) = length next.
Proof.
  unfold distribute. revert next off. induction l as [|x l IH]; intros next off; [done|].
  simpl. case_match; rewrite IH; apply length_insert.
Qed.

Definition tables_ok (m : nat) (ix : list Z * list Z) : Prop :=
  length (fst ix) = m /\ length (snd ix) = m.

Lemma pass_swap_tables w fwd input k n ix off m :
  tables_ok m ix -> tables_ok m (pass_swap w fwd input k n ix off).
Proof. intros [H0 H1]. split; simpl; [by rewrite length_distribute|done]. Qed.

Lemma int_pass_tables w sg d input n neg hists ix k m :
  tables_ok m ix -> tables_ok m (int_pass w sg d input n neg hists ix k).
Proof. intros H. unfold int_pass. case_decide; [by apply pass_swap_tables|done]. Qed.

Lemma float_pass_tables w d input n neg hists ix k m :
  (n <= m)%nat -> tables_ok m ix -> tables_ok m (float_pass w d input n neg hists ix k).
Proof.
  intros Hn H. unfold float_pass. repeat case_decide; try done; try by apply pass_swap_tables.
  destruct H as [Hf Hs]. split; [|done]. cbn [fst snd].
  rewrite length_app, length_reverse, length_take, length_drop. lia.
Qed.

Lemma foldl_tables (step : list Z * list Z -> nat -> list Z * list Z) m l ix :
  (forall ix k, tables_ok m ix -> tables_ok m (step ix k)) ->
  tables_ok m ix -> tables_ok m (foldl step ix l).
Proof. intros Hs. revert ix. induction l as [|k l IH]; intros ix H; [done|]. by apply IH, Hs. Qed.

(** The order the sorter promises for each data type. *)
Definition value_key (t : radixsort_data_t) : list Z -> Z :=
  match t with
  | RADIXSORT_INT32 | RADIXSORT_INT64 => le_int
  | RADIXSORT_UINT32 | RADIXSORT_UINT64 | RADIXSORT_CUSTOM => le_uint
  | RADIXSORT_FLOAT32 | RADIXSORT_FLOAT64 => float_key
  end.

Definition is_float (t : radixsort_data_t) : Prop := t = RADIXSORT_FLOAT32 \/ t = RADIXSORT_FLOAT64.
#[export] Instance is_float_dec t : Decision (is_float t).
Proof. unfold is_float. apply _. Defined.

(** No element is a NaN, when the elements are floating point numbers. *)
Definition comparable (t : radixsort_data_t) (input : list (list Z)) : Prop :=
  is_float t -> Forall (fun e => float_nan e = false) input.

Section sort.
Context (w : Z) (sort : radixsort_t) (input : list (list Z)).
Hypothesis w_nonneg : 0 <= w.
Hypothesis elems : elems_ok (data_size sort) input.
Hypothesis size_fits : Z.of_nat (rs_size sort) < 2 ^ w.
Hypothesis len0 : length (rs_indices0 sort) = rs_size sort.
Hypothesis len1 : length (rs_indices1 sort) = rs_size sort.
Hypothesis lastused_perm : index_perm (rs_lastused sort) (take (rs_lastused sort) (rs_indices0 sort)).
Hypothesis count_le : (length input <= rs_size sort)%nat.
Hypothesis count_pos : (0 < length input)%nat.

(** What a call leaves in the tables. *)
Definition sort_result (sort' : radixsort_t) : Prop :=
  exists ix l, sort' = set_indices sort ix /\ tables_ok (rs_size sort) ix /\
    take (length input) (fst ix) = l /\ index_perm (length input) l /\
    (comparable (rs_type sort) input -> sorted_by (value_key (rs_type sort)) input l).

Lemma coherent_switch_sorted hists hs :
  (length input <= rs_lastused sort)%nat -> rs_type sort <> RADIXSORT_CUSTOM ->
  coherent_switch (rs_type sort) w input (Z.of_nat (length input)) (rs_indices0 sort) hists = ([], hs) ->
  index_perm (length input) (take (length input) (rs_indices0 sort)) /\
  (comparable (rs_type sort) input ->
   sorted_by (value_key (rs_type sort)) input (take (length input) (rs_indices0 sort))).
Proof.
  intros Hle Hc H. destruct (index_perm_take _ _ _ lastused_perm Hle) as [Hnd Hpos].
  assert (exists lt, coherence_loop w lt input (Z.of_nat (length input)) (rs_indices0 sort)
      (elem input 0) input hists = ([], hs) /\
    (comparable (rs_type sort) input -> forall i j, 0 <= i < Z.of_nat (length input) ->
      0 <= j < Z.of_nat (length input) -> lt (elem input j) (elem input i) = false ->
      value_key (rs_type sort) (elem input i) <= value_key (rs_type sort) (elem input j)))
    as (lt & Hloop & Hlt).
  { unfold comparable, is_float. destruct (rs_type sort); try done;
      (eexists; split; [exact H|]); intros Hcmp i j Hi Hj; cbn [value_key];
      try (intros ?%bool_decide_eq_false; lia).
    all: specialize (Hcmp ltac:(tauto)); rewrite Forall_lookup in Hcmp;
      assert (forall i, 0 <= i < Z.of_nat (length input) -> float_nan (elem input i) = false) as Hn
        by (intros k Hk; apply (Hcmp (Z.to_nat k)), list_lookup_lookup_total_lt; lia);
      unfold float_lt; rewrite !Hn by done; simpl; intros ?%bool_decide_eq_false; lia. }
  split.
  - eapply (coherent_sorted w input lt (fun _ => 0)); [intros; lia|reflexivity|reflexivity|lia|done|done|exact Hloop].
  - intros Hcmp. eapply (coherent_sorted w input lt); [by apply Hlt|reflexivity|reflexivity|lia|done|done|exact Hloop].
Qed.

Lemma create_histograms_sorted u :
  radixsort_create_histograms w sort input (length input) = inl u -> sort_result sort.
Proof.
  unfold radixsort_create_histograms. intros H.
  destruct (if decide _ then _ else _) as [loop hs] eqn:E. destruct loop; [|done].
  case_decide as Hd; [|injection E as Ei _; rewrite Ei in count_pos; simpl in count_pos; lia].
  destruct Hd as [Hle Hc].
  destruct (coherent_switch_sorted _ _ Hle Hc E) as [Hp Hs].
  exists (rs_indices0 sort, rs_indices1 sort). eexists.
  split; [by destruct sort|]. split; [done|]. split; [reflexivity|]. done.
Qed.

Lemma reset_tables : tables_ok (rs_size sort) (reset_indices w sort (length input)).
Proof.
  destruct (reset_indices_length w sort (length input)) as [E0 E1]; [lia|lia|].
  split; [by rewrite E0|by rewrite E1].
Qed.

Lemma create_histograms_indices ix hists :
  radixsort_create_histograms w sort input (length input) = inr (ix, hists) ->
  ix = reset_indices w sort (length input).
Proof.
  unfold radixsort_create_histograms. intros H.
  destruct (if decide _ then _ else _) as [[|] hs] eqn:E; by simplify_eq.
Qed.

Lemma create_histograms_counts ix hists k :
  radixsort_create_histograms w sort input (length input) = inr (ix, hists) ->
  (k < data_size sort)%nat -> hist_of (fun e => e !!! k) input (hists !!! k).
Proof.
  intros H Hk. eapply (create_histograms_spec w sort input); [done|done|lia|exact H|done].
Qed.

Lemma radixsort_int_result :
  ~ is_float (rs_type sort) -> sort_result (radixsort_int w sort input (length input)).
Proof.
  intros Hnf. unfold radixsort_int. rewrite decide_False by lia.
  destruct (radixsort_create_histograms _ _ _ _) as [u|[ix hists]] eqn:E;
    [by eapply create_histograms_sorted|].
  pose proof (fun k => create_histograms_counts ix hists k E) as Hh.
  rewrite (create_histograms_indices _ _ E).
  destruct (reset_indices_result w sort input) as [l0 Hr]; [done..|].
  set (sg := default false (radixsort_data_signed (rs_type sort))).
  set (neg := if sg then _ else 0).
  set (step := int_pass w sg (data_size sort) input (length input) neg hists).
  assert (forall ix l k, (k < data_size sort)%nat -> pass_result input ix l ->
    pass_result input (step ix k) (spec_pass (fun _ => true) (digit input k)
      (int_order (data_size sort) sg k) l)) as Hstep.
  { intros ix' l k Hk Hpr. apply int_pass_spec; [done|lia|done|done|done|done|done|].
    intros Hsg. unfold neg. by rewrite Hsg. }
  assert (exists l, pass_result input (foldl step (reset_indices w sort (length input))
    (seq 0 (data_size sort))) l /\ sorted_by (value_key (rs_type sort)) input l) as (l & Hl & Hs).
  { destruct sg eqn:Hsg.
    - assert (exists d, data_size sort = S d /\ value_key (rs_type sort) = le_int) as (d & Hd & ->).
      { unfold is_float in Hnf. unfold sg in Hsg. unfold data_size.
        destruct (rs_type sort); try done; try tauto; by eexists. }
      destruct (passes_low input (data_size sort) elems step (reset_indices w sort (length input)) d)
        as (l & Hl & Hs); [lia| |by exists l0|].
      { intros ix' l k Hk Hpr. specialize (Hstep ix' l k ltac:(lia) Hpr). unfold int_order in Hstep.
        by rewrite decide_False in Hstep by lia. }
      eexists. rewrite Hd, seq_S, foldl_app. simpl. split; [apply Hstep; [lia|exact Hl]|].
      unfold int_order. rewrite decide_True by (split; [lia|done]).
      eapply (spec_pass_signed input (data_size sort)); [done|done|apply Hl|done].
    - destruct (passes_low input (data_size sort) elems step (reset_indices w sort (length input))
        (data_size sort)) as (l & Hl & Hs); [lia| |by exists l0|].
      { intros ix' l k Hk Hpr. specialize (Hstep ix' l k Hk Hpr). unfold int_order in Hstep.
        by rewrite decide_False in Hstep by naive_solver. }
      exists l. split; [done|].
      assert (value_key (rs_type sort) = le_uint) as ->.
      { unfold is_float in Hnf. unfold sg in Hsg. destruct (rs_type sort); try done; tauto. }
      apply (sorted_by_ext (low (data_size sort))); [|done]. intros x Hx. unfold low.
      destruct (elem_ok input (data_size sort) elems x (index_perm_range _ _ _ (proj1 Hl) Hx)) as [El _].
      by rewrite take_ge by lia. }
  exists (foldl step (reset_indices w sort (length input)) (seq 0 (data_size sort))), l.
  split; [done|]. split; [apply foldl_tables; [intros; by apply int_pass_tables|apply reset_tables]|].
  split; [apply Hl|]. split; [apply Hl|done].
Qed.

Lemma radixsort_float_result :
  is_float (rs_type sort) -> sort_result (radixsort_float w sort input (length input)).
Proof.
  intros Hf. unfold radixsort_float. rewrite decide_False by lia.
  destruct (radixsort_create_histograms _ _ _ _) as [u|[ix hists]] eqn:E;
    [by eapply create_histograms_sorted|].
  pose proof (fun k => create_histograms_counts ix hists k E) as Hh.
  rewrite (create_histograms_indices _ _ E).
  destruct (reset_indices_result w sort input) as [l0 Hr]; [done..|].
  set (step := float_pass w (data_size sort) input (length input)
    (negatives w (hists !!! (data_size sort - 1)%nat)) hists).
  assert (forall ix l k, (k < data_size sort)%nat -> pass_result input ix l ->
    pass_result input (step ix k) (spec_pass (float_dir (data_size sort) k) (digit input k)
      (float_order (data_size sort) k) l)) as Hstep.
  { intros ix' l k Hk Hpr. apply float_pass_spec; [done|lia|done|done|done|done|done|done]. }
  assert (exists d, data_size sort = S d /\ value_key (rs_type sort) = float_key) as (d & Hd & Hkey).
  { unfold data_size. destruct Hf as [-> | ->]; by eexists. }
  destruct (passes_low input (data_size sort) elems step (reset_indices w sort (length input)) d)
    as (l & Hl & Hs); [lia| |by exists l0|].
  { intros ix' l k Hk Hpr. specialize (Hstep ix' l k ltac:(lia) Hpr).
    unfold float_order, float_dir in Hstep. by rewrite !decide_False in Hstep by lia. }
  eexists (foldl step (reset_indices w sort (length input)) (seq 0 (data_size sort))), _.
  split; [done|]. split.
  { apply foldl_tables; [|apply reset_tables]. intros. by apply float_pass_tables. }
  assert (d < data_size sort)%nat as Hlt by lia. specialize (Hstep _ _ d Hlt Hl).
  rewrite Hd, seq_S, foldl_app. simpl. split; [apply Hstep|]. split; [apply Hstep|].
  intros _. rewrite Hkey. unfold float_order, float_dir. rewrite !decide_True by lia.
  eapply (spec_pass_float input (data_size sort)); [done|done|apply Hl|done].
Qed.
End sort.

Lemma radixsort_sort_result sort input :
  wf sort -> elems_ok (data_size sort) input ->
  let n := Nat.min (length input) (rs_size sort) in
  wf (radixsort_sort sort input) /\
  index_perm n (take n (rs_indices0 (radixsort_sort sort input))) /\
  (comparable (rs_type sort) (take n input) ->
   sorted_by (value_key (rs_type sort)) (take n input) (take n (rs_indices0 (radixsort_sort sort input)))).
Proof.
  intros (Hsz & H0 & H1 & Hlu & Hp) He n.
  set (inp := take n input). assert (length inp = n) as Hn by (unfold inp; rewrite length_take; lia).
  assert (elems_ok (data_size sort) inp) as He' by (by apply Forall_take).
  set (w := index_width (rs_indextype sort)) in *.
  assert (0 <= w) as Hw by (unfold w; destruct (rs_indextype sort); simpl; lia).
  assert (radixsort_sort sort input = set_lastused (if decide (is_float (rs_type sort))
    then radixsort_float w sort inp n else radixsort_int w sort inp n) n) as ->.
  { unfold radixsort_sort, w, inp, n, is_float. by repeat case_decide; destruct (rs_indextype sort). }
  assert (sort_result sort inp (if decide (is_float (rs_type sort))
    then radixsort_float w sort inp n else radixsort_int w sort inp n)) as (ix & l & -> & Ht & Hl & Hpl & Hs).
  { destruct (decide (n = 0%nat)) as [Hz|Hz].
    - exists (rs_indices0 sort, rs_indices1 sort), []. split.
      { unfold radixsort_float, radixsort_int. rewrite Hz. destruct (decide (is_float _)); by destruct sort. }
      split; [done|]. rewrite Hn, Hz.
      split; [done|]. split; [unfold index_perm; reflexivity|]. intros _. constructor.
    - rewrite <- Hn in *. case_decide; [apply radixsort_float_result|apply radixsort_int_result]; (done || lia). }
  rewrite Hn in *. cbn [set_lastused set_indices rs_indices0]. rewrite Hl.
  split; [|done]. destruct Ht as [Ht0 Ht1]. unfold wf.
  cbn [set_lastused set_indices rs_indices0 rs_indices1 rs_size rs_lastused rs_indextype].
  repeat split; try done; [lia|]. by rewrite Hl.
Qed.


Lemma init_tables_wf t d count :
  Z.of_nat count < 0xFFFFFFFF ->
  let '(it, table) := init_tables count in wf (mk_radixsort t it d count count table table).
Proof.
  intros Hc. unfold init_tables. rewrite (decide_False (P := 0xFFFFFFFF <= Z.of_nat count)) by lia.
  case_decide; unfold wf; cbn [rs_size rs_indextype rs_indices0 rs_indices1 rs_lastused index_width];
    change (2 ^ 32) with 4294967296; change (2 ^ 16) with 65536;
    (rewrite seqZ_wrap; [|done|first [change (2 ^ 32) with 4294967296|change (2 ^ 16) with 65536]; lia]);
    rewrite length_seqZ, take_ge by (rewrite length_seqZ; lia);
    (repeat split; [lia..|unfold index_perm; reflexivity]).
Qed.



Lemma initialize_wf t count : Z.of_nat count < 0xFFFFFFFF -> wf (radixsort_initialize t count).
Proof.
  intros H. pose proof (init_tables_wf t (default 0%nat (radixsort_data_size t)) count H) as Hw.
  unfold radixsort_initialize. by destruct (init_tables count).
Qed.

Lemma initialize_custom_wf d count : Z.of_nat count < 0xFFFFFFFF -> wf (radixsort_initialize_custom d count).
Proof.
  intros H. pose proof (init_tables_wf RADIXSORT_CUSTOM d count H) as Hw.
  unfold radixsort_initialize_custom. by destruct (init_tables count).
Qed.

(** ** Properties *)


(** Every call, NaN inputs included, leaves the sorter well formed: both
    tables keep one entry per element, no index is lost or duplicated, and the
    returned prefix is a permutation, so the next call may start from it. *)
Theorem radixsort_sort_wf sort input :
  wf sort -> elems_ok (data_size sort) input ->
  wf (radixsort_sort sort input) /\
  take (Nat.min (length input) (rs_size sort)) (rs_indices0 (radixsort_sort sort input))
    ≡ₚ seqZ 0 (Z.of_nat (Nat.min (length input) (rs_size sort))).
Proof. intros Hwf He. by destruct (radixsort_sort_result sort input Hwf He) as (? & ? & _). Qed.

(** A sorter for elements of a custom size orders them as little-endian
    unsigned integers of that size. *)
Theorem radixsort_custom_sorted dsize count input :
  Z.of_nat count < 0xFFFFFFFF -> elems_ok dsize input -> (length input <= count)%nat ->
  let indices := take (length input)
    (rs_indices0 (radixsort_sort (radixsort_initialize_custom dsize count) input)) in
  indices ≡ₚ seqZ 0 (Z.of_nat (length input)) /\ sorted_by le_uint input indices.
Proof.
  intros Hc He Hn indices. pose proof (initialize_custom_wf dsize count Hc) as Hwf.
  assert (forall s, s = radixsort_initialize_custom dsize count ->
    rs_type s = RADIXSORT_CUSTOM /\ rs_size s = count /\ data_size s = dsize) as Hcfg.
  { intros s ->. unfold radixsort_initialize_custom. by destruct (init_tables count). }
  destruct (Hcfg _ eq_refl) as (Et & Es & Ed).
  destruct (radixsort_sort_result _ input Hwf) as (_ & Hp & Hs); [by rewrite Ed|].
  rewrite Es, Et in *. replace (length input `min` count)%nat with (length input) in * by lia.
  rewrite take_ge in Hs by done. split; [done|]. apply Hs. by intros [? | ?].
Qed.


Lemma radixsort_sort_wf_witness :
  wf (radixsort_sort (radixsort_initialize RADIXSORT_INT32 2) [[1;0;0;255]; [0;0;0;0]]) /\
  take 2 (rs_indices0 (radixsort_sort (radixsort_initialize RADIXSORT_INT32 2) [[1;0;0;255]; [0;0;0;0]]))
    ≡ₚ seqZ 0 2.
Proof.
  apply (radixsort_sort_wf (radixsort_initialize RADIXSORT_INT32 2) [[1;0;0;255]; [0;0;0;0]]).
  - apply initialize_wf. done.
  - unfold elems_ok. by repeat constructor.
Defined.

Lemma radixsort_custom_sorted_witness :
  take 2 (rs_indices0 (radixsort_sort (radixsort_initialize_custom 3 2) [[1;0;255]; [0;0;0]])) ≡ₚ seqZ 0 2 /\
  sorted_by le_uint [[1;0;255]; [0;0;0]]
    (take 2 (rs_indices0 (radixsort_sort (radixsort_initialize_custom 3 2) [[1;0;255]; [0;0;0]]))).
Proof.
  apply (radixsort_custom_sorted 3 2 [[1;0;255]; [0;0;0]]).
  - done.
  - unfold elems_ok. by repeat constructor.
  - done.
Defined.

End RadixSort.
