(* ===== verification/Str.v ===== *)
(** * Strings ([src/library/foundation_lib/foundation/string.c])

    A string is a pointer and a length: the list of its bytes.  A [size_t] is a
    [Z]; [STRING_NPOS] is the largest one, so that the offsets of the source
    wrap where the source lets them wrap.  Module [Str] holds searching,
    comparing and splitting, module [StrBuf] the functions that write into a
    caller's buffer, module [Num] the number conversions. *)
From S2P Require Import Prelude.

Module Str.

Definition NPOS : Z := 2 ^ 64 - 1.

Definition len (s : list Z) : Z := Z.of_nat (length s).

(** [str[i]] and [str + i] with [count] bytes. *)
Definition at_ (s : list Z) (i : Z) : Z := s !!! Z.to_nat i.
Definition sub (s : list Z) (i count : Z) : list Z := take (Z.to_nat count) (drop (Z.to_nat i) s).

(** ** Searching *)

(** [memchr]: offset of the first byte that satisfies a test. *)
Fixpoint scan (p : Z -> bool) (s : list Z) (offset : Z) : Z :=
  match s with
  | [] => NPOS
  | c :: s' => if p c then offset else scan p s' (offset + 1)
  end.

Definition string_find (str : list Z) (c offset : Z) : Z :=
  if len str <=? offset then NPOS
  else scan (fun d => d =? c) (drop (Z.to_nat offset) str) offset.

(** [memcmp(found, key, key_length) == 0] *)
Definition same_at (str key : list Z) (offset : Z) : bool :=
  bool_decide (sub str offset (len key) = key).

(** The do-while loop: jump to the next occurrence of the first byte of the
    key and compare there. *)
Fixpoint find_string_loop (fuel : nat) (str key : list Z) (last_offset offset : Z) : option Z :=
  match fuel with
  | O => None
  | S fuel =>
      let found := scan (fun d => d =? at_ key 0) (sub str offset (1 + last_offset - offset)) offset in
      if found =? NPOS then Some NPOS
      else if same_at str key found then Some found
      else
        let offset := found + 1 in
        if offset <=? last_offset then find_string_loop fuel str key last_offset offset
        else Some NPOS
  end.

Definition string_find_string (str key : list Z) (offset : Z) : option Z :=
  if len key =? 0 then Some offset
  else if (len str <? len key) || (len str - len key <? offset) then Some NPOS
  else find_string_loop (S (length str)) str key (len str - len key) offset.

(** The downward loops end when the offset wraps around to [STRING_NPOS]. *)
Fixpoint scan_down (p : Z -> bool) (n : nat) : Z :=
  if p (Z.of_nat n) then Z.of_nat n
  else match n with O => NPOS | S n' => scan_down p n' end.

Definition down_from (p : Z -> bool) (offset : Z) : Z :=
  if offset =? NPOS then NPOS else scan_down p (Z.to_nat offset).

(** [if(offset >= length) offset = length - 1;] *)
Definition clamp_last (length offset : Z) : Z :=
  if length <=? offset then wrap 64 (length - 1) else offset.

Definition string_rfind (str : list Z) (c offset : Z) : Z :=
  down_from (fun i => at_ str i =? c) (clamp_last (len str) offset).

Definition string_rfind_string (str key : list Z) (offset : Z) : Z :=
  if len str <? len key then NPOS
  else if len key =? 0 then (if len str <? offset then len str else offset)
  else
    let offset := if len str - len key <=? offset then len str - len key else offset in
    down_from (same_at str key) offset.

Definition is_token (tokens : list Z) (c : Z) : bool := negb (string_find tokens c 0 =? NPOS).

Definition string_find_first_of (str tokens : list Z) (offset : Z) : Z :=
  if len tokens =? 0 then NPOS
  else if len str <=? offset then NPOS
  else scan (is_token tokens) (drop (Z.to_nat offset) str) offset.

Definition string_find_last_of (str tokens : list Z) (offset : Z) : Z :=
  if len tokens =? 0 then NPOS
  else down_from (fun i => is_token tokens (at_ str i)) (clamp_last (len str) offset).

Definition string_find_first_not_of (str tokens : list Z) (offset : Z) : Z :=
  if len str <=? offset then NPOS
  else if len tokens =? 0 then offset
  else scan (fun c => negb (is_token tokens c)) (drop (Z.to_nat offset) str) offset.

Definition string_find_last_not_of (str tokens : list Z) (offset : Z) : Z :=
  let offset := clamp_last (len str) offset in
  if len tokens =? 0 then offset
  else down_from (fun i => negb (is_token tokens (at_ str i))) offset.

(** ** Comparing *)

Definition string_ends_with (str suffix : list Z) : bool :=
  if len str <? len suffix then false
  else if len suffix =? 0 then true
  else bool_decide (drop (Z.to_nat (len str - len suffix)) str = suffix).

Definition string_equal (rhs lhs : list Z) : bool :=
  if negb (len rhs =? 0) && (len lhs =? len rhs) then bool_decide (rhs = lhs)
  else (len rhs =? 0) && (len lhs =? 0).

Definition string_equal_substr (rhs : list Z) (rhs_offset : Z) (lhs : list Z) (lhs_offset : Z) : bool :=
  let rhs_remain := if rhs_offset <? len rhs then len rhs - rhs_offset else 0 in
  let lhs_remain := if lhs_offset <? len lhs then len lhs - lhs_offset else 0 in
  string_equal (sub rhs rhs_offset rhs_remain) (sub lhs lhs_offset lhs_remain).

(** [*] is 42 and [?] is 63. *)
Fixpoint string_match_pattern (element pattern : list Z) {struct pattern} : bool :=
  match pattern with
  | [] => true
  | p :: pattern' =>
      (fix on_element (element : list Z) : bool :=
         if (p =? 42) && (len pattern' =? 0) then true
         else if p =? 42 then
           if string_match_pattern element pattern' then true
           else match element with [] => false | _ :: element' => on_element element' end
         else
           match element with
           | [] => false
           | e :: element' =>
               if p =? 63 then string_match_pattern element' pattern'
               else if e =? p then string_match_pattern element' pattern'
               else false
           end) element
  end.

(** ** Parts of a string *)

Definition string_substr (str : list Z) (offset sub_length : Z) : list Z :=
  if offset <? len str then
    let end_ := wrap 64 (offset + sub_length) in
    if (end_ <? len str) && (sub_length <? len str) then sub str offset sub_length
    else sub str offset (len str - offset)
  else [].

Definition string_strip (str delimiters : list Z) : list Z :=
  if len str =? 0 then []
  else
    let start := string_find_first_not_of str delimiters 0 in
    let end_ := string_find_last_not_of str delimiters (len str - 1) in
    if start =? NPOS then [] else sub str start (wrap 64 (end_ - start + 1)).

(** The pair of the strings stored through [left] and [right]. *)
Definition string_split (str separators : list Z) (allowempty : bool) : list Z * list Z :=
  let start := if allowempty then 0 else string_find_first_not_of str separators 0 in
  if start =? NPOS then ([], [])
  else
    let delim := string_find_first_of str separators start in
    if delim =? NPOS then (sub str start (len str - start), [])
    else
      let left := sub str start (delim - start) in
      let delim := string_find_first_not_of str separators delim in
      if delim =? NPOS then (left, []) else (left, sub str delim (len str - delim)).

(** The while loop; [acc] holds the array entries stored so far. *)
Fixpoint explode_loop (fuel : nat) (str delimiters : list Z) (arrsize : Z) (allow_empty : bool)
    (token end_ : Z) (arr : list (list Z)) : option (list (list Z)) :=
  if (end_ <? len str) && (Z.of_nat (length arr) <? arrsize) then
    match fuel with
    | O => None
    | S fuel =>
        let token := if allow_empty then token else string_find_first_not_of str delimiters end_ in
        let end_ := string_find_first_of str delimiters token in
        let arr :=
          if token =? NPOS then arr
          else arr ++ [sub str token (if end_ =? NPOS then len str - token else end_ - token)] in
        let token := if allow_empty then wrap 64 (end_ + 1) else token in
        explode_loop fuel str delimiters arrsize allow_empty token end_ arr
    end
  else Some arr.

Definition string_explode (str delimiters : list Z) (arrsize : Z) (allow_empty : bool)
    : option (list (list Z)) :=
  if (len str =? 0) || (arrsize =? 0) then Some []
  else if len delimiters =? 0 then Some [str]
  else explode_loop (S (length str)) str delimiters arrsize allow_empty 0 0 [].

Fixpoint string_array_find_from (array : list (list Z)) (needle : list Z) (i : Z) : Z :=
  match array with
  | [] => -1
  | s :: array' => if string_equal s needle then i else string_array_find_from array' needle (i + 1)
  end.

Definition string_array_find (array : list (list Z)) (needle : list Z) : Z :=
  string_array_find_from array needle 0.

Example explode_example :
  string_explode [44;97;98;44;44;99;44] [44;59] 10 true = Some [[];[97;98];[];[99];[]] /\
  string_explode [44;97;98;44;44;99;44] [44;59] 10 false = Some [[97;98];[99]].
Proof. vm_compute. done. Qed.

(** ** Scanning *)

Lemma len_nonneg s : 0 <= len s.
Proof. unfold len. lia. Qed.

Lemma len_app (a b : list Z) : len (a ++ b) = len a + len b.
Proof. unfold len. rewrite length_app. lia. Qed.

Lemma len_nil s : len s <= 0 -> s = [].
Proof. destruct s; [done|]. unfold len. simpl. lia. Qed.

Lemma rd_app_len a b i : 0 <= i -> rd (a ++ b) (len a + i) = rd b i.
Proof. apply rd_app. Qed.

Lemma rd_mid_len a c r : rd (a ++ c :: r) (len a) = Some c.
Proof. apply rd_mid. Qed.

(** A string that fits in memory. *)
Definition fits (s : list Z) : Prop := len s < NPOS.

Lemma scan_spec p s offset :
  0 <= offset -> offset + len s < NPOS ->
  (scan p s offset = NPOS /\ Forall (fun c => p c = false) s) \/
  (exists i : nat, scan p s offset = offset + Z.of_nat i /\ (i < length s)%nat /\
     p (s !!! i) = true /\ Forall (fun c => p c = false) (take i s)).
Proof.
  unfold len. revert offset. induction s as [|c s IH]; intros offset Ho Hf; simpl.
  - left. done.
  - destruct (p c) eqn:Hc.
    + right. exists O. split; [lia|]. split; [lia|]. done.
    + simpl in Hf. destruct (IH (offset + 1)) as [[-> H]|(i & -> & Hi & Hp & H)]; [lia|lia| |].
      * left. split; [done|]. by constructor.
      * right. exists (S i). split; [lia|]. split; [lia|]. split; [done|]. by constructor.
Qed.

Lemma is_token_spec tokens c : fits tokens -> is_token tokens c = bool_decide (c ∈ tokens).
Proof.
  intros Hf. unfold is_token, string_find. case_bool_decide as Hin.
  - destruct (len tokens <=? 0) eqn:E.
    + apply Z.leb_le in E. destruct tokens; [by apply elem_of_nil in Hin|]. unfold len in E. simpl in E. lia.
    + rewrite drop_0. destruct (scan_spec (fun d => d =? c) tokens 0) as [[_ H]|(i & -> & Hi & _)];
        [lia|unfold fits in Hf; lia| |].
      * rewrite Forall_forall in H. specialize (H c Hin). simpl in H. lia.
      * unfold fits, len in Hf. lia.
  - destruct (len tokens <=? 0) eqn:E; [done|].
    rewrite drop_0. destruct (scan_spec (fun d => d =? c) tokens 0) as [[-> H]|(i & -> & Hi & Hp & _)];
      [lia|unfold fits in Hf; lia|done|].
    exfalso. apply Hin. apply Z.eqb_eq in Hp. rewrite <- Hp. by apply list_elem_of_lookup_total_2.
Qed.

(** ** The first occurrence of a key *)

Definition occurs (str key : list Z) (i : Z) : Prop :=
  0 <= i /\ i + len key <= len str /\ sub str i (len key) = key.

Lemma same_at_true str key i : same_at str key i = true <-> sub str i (len key) = key.
Proof. unfold same_at. apply bool_decide_eq_true. Qed.

Lemma len_sub str i n : 0 <= i -> 0 <= n -> i + n <= len str -> len (sub str i n) = n.
Proof. unfold len, sub. intros. rewrite length_take, length_drop. lia. Qed.

Lemma at_sub str i n j : 0 <= i -> 0 <= j < n -> at_ (sub str i n) j = at_ str (i + j).
Proof.
  intros Hi Hj. unfold at_, sub. rewrite lookup_total_take by lia.
  rewrite lookup_total_drop. f_equal. lia.
Qed.

(** An occurrence starts with the key's first byte. *)
Lemma occurs_head str key i : 0 < len key -> occurs str key i -> at_ str i = at_ key 0.
Proof.
  intros Hk (Hi & Hl & E). rewrite <- E. rewrite at_sub by lia. f_equal. lia.
Qed.

Lemma find_string_loop_spec fuel str key offset :
  fits str -> 0 < len key -> 0 <= offset <= len str - len key ->
  len str - len key - offset < Z.of_nat fuel ->
  exists r, find_string_loop fuel str key (len str - len key) offset = Some r /\
    ((r = NPOS /\ forall i, offset <= i -> ~ occurs str key i) \/
     (offset <= r /\ occurs str key r /\ forall i, offset <= i < r -> ~ occurs str key i)).
Proof.
  intros Hf Hk. set (last := len str - len key). revert offset.
  induction fuel as [|fuel IH]; intros offset Ho Hfuel; [lia|]. cbn [find_string_loop].
  set (l := sub str offset (1 + last - offset)).
  assert (len l = 1 + last - offset) as Hl by (apply len_sub; unfold last in *; lia).
  unfold fits, len in Hf, Hl. 
  destruct (scan_spec (fun d => d =? at_ key 0) l offset) as [[-> H]|(j & -> & Hj & Hp & H)];
    [lia|unfold len in *; unfold last in *; lia| |].
  - exists NPOS. split; [done|]. left. split; [done|]. intros i Hi Hocc.
    assert (i <= last) as Hil by (destruct Hocc as (_ & ? & _); unfold last; lia).
    apply occurs_head in Hocc; [|done]. rewrite Forall_forall in H.
    assert (at_ str i ∈ l) as Hin.
    { replace i with (offset + (i - offset)) by lia.
      rewrite <- (at_sub str offset (1 + last - offset)) by lia.
      apply list_elem_of_lookup_total_2. fold l. lia. }
    specialize (H _ Hin). simpl in H. by rewrite Hocc, Z.eqb_refl in H.
  - assert (offset + Z.of_nat j <= last) as Hjl by lia.
    replace (offset + Z.of_nat j =? NPOS) with false
      by (symmetry; apply Z.eqb_neq; unfold last, len in *; lia).
    assert (forall i, offset <= i < offset + Z.of_nat j -> ~ occurs str key i) as Hno.
    { intros i Hi Hocc. apply occurs_head in Hocc; [|done]. rewrite Forall_forall in H.
      assert (at_ str i ∈ take j l) as Hin.
      { replace (at_ str i) with (take j l !!! Z.to_nat (i - offset)).
        - apply list_elem_of_lookup_total_2. rewrite length_take. lia.
        - rewrite lookup_total_take by lia. change (at_ l (i - offset) = at_ str i).
          unfold l. rewrite at_sub by lia. f_equal. lia. }
      specialize (H _ Hin). simpl in H. rewrite Hocc, Z.eqb_refl in H. done. }
    destruct (same_at str key (offset + Z.of_nat j)) eqn:Hs.
    + eexists. split; [done|]. right. split; [lia|]. split; [|done].
      apply same_at_true in Hs. split; [lia|]. split; [unfold last in Hjl; lia|done].
    + assert (~ occurs str key (offset + Z.of_nat j)) as Hnj.
      { intros (_ & _ & E). apply same_at_true in E. congruence. }
      destruct (offset + Z.of_nat j + 1 <=? last) eqn:Hle.
      * apply Z.leb_le in Hle. destruct (IH (offset + Z.of_nat j + 1)) as (r & -> & Hr); [lia|lia|].
        exists r. split; [done|]. destruct Hr as [[-> Hr]|(Hge & Hocc & Hr)].
        -- left. split; [done|]. intros i Hi. destruct (decide (i < offset + Z.of_nat j)); [apply Hno; lia|].
           destruct (decide (i = offset + Z.of_nat j)) as [->|]; [exact Hnj|]. apply Hr. lia.
        -- right. split; [lia|]. split; [done|]. intros i Hi.
           destruct (decide (i < offset + Z.of_nat j)); [apply Hno; lia|].
           destruct (decide (i = offset + Z.of_nat j)) as [->|]; [exact Hnj|]. apply Hr. lia.
      * apply Z.leb_gt in Hle. eexists. split; [done|]. left. split; [done|]. intros i Hi.
        destruct (decide (i < offset + Z.of_nat j)); [apply Hno; lia|].
        destruct (decide (i = offset + Z.of_nat j)) as [->|]; [done|].
        intros (_ & ? & _). unfold last in *. lia.
Qed.

(** [string_find_string] terminates and returns the least offset from which
    the key occurs, or [STRING_NPOS] when it occurs nowhere at or after the
    given offset. *)
Theorem string_find_string_first str key offset :
  fits str -> 0 < len key -> 0 <= offset ->
  exists r, string_find_string str key offset = Some r /\
    ((r = NPOS /\ forall i, offset <= i -> ~ occurs str key i) \/
     (offset <= r /\ occurs str key r /\ forall i, offset <= i < r -> ~ occurs str key i)).
Proof.
  intros Hf Hk Ho. unfold string_find_string.
  replace (len key =? 0) with false by lia.
  destruct (_ || _) eqn:E.
  - exists NPOS. split; [done|]. left. split; [done|]. intros i Hi (_ & H & _). lia.
  - apply find_string_loop_spec; [done|done|lia|]. unfold len in *. lia.
Qed.

Lemma string_find_string_first_witness :
  exists r, string_find_string [97;98;97;99] [97;99] 0 = Some r /\
    ((r = NPOS /\ forall i, 0 <= i -> ~ occurs [97;98;97;99] [97;99] i) \/
     (0 <= r /\ occurs [97;98;97;99] [97;99] r /\ forall i, 0 <= i < r -> ~ occurs [97;98;97;99] [97;99] i)).
Proof. apply (string_find_string_first [97;98;97;99] [97;99] 0); [done|done|done]. Defined.

(** ** Patterns *)

(** The language of a pattern of [?] and [*] wildcards. *)
Inductive glob : list Z -> list Z -> Prop :=
  | glob_nil : glob [] []
  | glob_star_skip p s : glob p s -> glob (42 :: p) s
  | glob_star_take p c s : glob (42 :: p) s -> glob (42 :: p) (c :: s)
  | glob_any p c s : glob p s -> glob (63 :: p) (c :: s)
  | glob_char p c s : c <> 42 -> c <> 63 -> glob p s -> glob (c :: p) (c :: s).

Lemma glob_star_all s : glob [42] s.
Proof. induction s; [apply glob_star_skip, glob_nil|by apply glob_star_take]. Qed.

Lemma glob_star_app p s t : glob p t -> glob (42 :: p) (s ++ t).
Proof. induction s; intros; [by apply glob_star_skip|]. apply glob_star_take. auto. Qed.

Lemma match_single_star s : string_match_pattern s [42] = true.
Proof. by destruct s. Qed.

Lemma match_star_unfold s x p :
  string_match_pattern s (42 :: x :: p) =
  if string_match_pattern s (x :: p) then true
  else match s with [] => false | _ :: s' => string_match_pattern s' (42 :: x :: p) end.
Proof. by destruct s. Qed.

#[local] Arguments string_match_pattern : simpl never.

Lemma match_star p s :
  string_match_pattern s (42 :: p) = true <->
  p = [] \/ exists t u, s = t ++ u /\ string_match_pattern u p = true.
Proof.
  destruct p as [|x p]; [rewrite match_single_star; split; [by left|done]|].
  induction s as [|c s IH]; rewrite match_star_unfold.
  - split.
    + intros H. right. exists [], []. split; [done|]. by case_match.
    + intros [?|(t & u & E & H)]; [done|]. symmetry in E. apply app_eq_nil in E as [-> ->].
      by rewrite H.
  - split.
    + intros H. right. destruct (string_match_pattern (c :: s) (x :: p)) eqn:E.
      * by exists [], (c :: s).
      * apply IH in H as [?|(t & u & -> & H)]; [done|]. by exists (c :: t), u.
    + intros [?|(t & u & E & H)]; [done|]. destruct t as [|y t]; simpl in E.
      * subst u. by rewrite H.
      * injection E as <- ->. case_match; [done|].
        apply IH. right. eauto.
Qed.

Lemma match_other c p s :
  c <> 42 ->
  string_match_pattern s (c :: p) = true <->
  exists d u, s = d :: u /\ (c = 63 \/ c = d) /\ string_match_pattern u p = true.
Proof.
  intros Hc. destruct s as [|d s]; unfold string_match_pattern; fold string_match_pattern;
    replace (c =? 42) with false by lia; cbn [andb].
  - split; [done|]. by intros (? & ? & ? & _).
  - destruct (c =? 63) eqn:E1; [|destruct (d =? c) eqn:E2].
    + split; [intros H; exists d, s; split; [done|]; split; [left; lia|done]|].
      by intros (? & ? & [= <- <-] & _ & ?).
    + split; [intros H; exists d, s; split; [done|]; split; [right; lia|done]|].
      by intros (? & ? & [= <- <-] & _ & ?).
    + split; [done|]. intros (? & ? & [= <- <-] & ? & ?). lia.
Qed.

(** [string_match_pattern] accepts a string exactly when the pattern, with
    a [*] appended, matches it: an exhausted pattern matches any rest, so the
    function matches a prefix of the string. *)
Theorem string_match_pattern_glob element pattern :
  string_match_pattern element pattern = true <-> glob (pattern ++ [42]) element.
Proof.
  revert element. induction pattern as [|c p IH]; intros s.
  - split; [intros _; apply glob_star_all|done].
  - destruct (decide (c = 42)) as [->|Hc].
    + rewrite match_star. split.
      * intros [->|(t & u & -> & H)]; [apply glob_star_skip, glob_star_all|].
        simpl. apply glob_star_app. by apply IH.
      * intros H. right. remember ((42 :: p) ++ [42]) as q eqn:Eq. revert Eq.
        induction H as [| q s H _ | q d s H IHg | q d s H _ | q d s H1 H2 H _]; intros Eq; simpl in Eq;
          simplify_eq.
        -- exists [], s. split; [done|]. by apply IH.
        -- destruct (IHg eq_refl) as (t & u & -> & Hu). by exists (d :: t), u.
    + rewrite match_other by done. split.
      * intros (d & u & -> & Hd & H%IH). simpl. destruct (decide (c = 63)) as [->|]; [by apply glob_any|].
        destruct Hd as [?|<-]; [done|]. by apply glob_char.
      * simpl. intros H. inversion H; subst; try done.
        -- exists c0, s0. split; [done|]. split; [by left|]. by apply IH.
        -- exists c, s0. split; [done|]. split; [by right|]. by apply IH.
Qed.

(** ** Fields *)

(** The fields between the bytes that satisfy a test. *)
Fixpoint fields (p : Z -> bool) (s : list Z) : list (list Z) :=
  match s with
  | [] => [[]]
  | c :: s' =>
      if p c then [] :: fields p s'
      else match fields p s' with f :: fs => (c :: f) :: fs | [] => [[c]] end
  end.

Definition nonempty (fs : list (list Z)) : list (list Z) := filter (fun f => f <> []) fs.

Lemma fields_skip p a s :
  Forall (fun c => p c = false) a -> fields p (a ++ s) =
  match fields p s with f :: fs => (a ++ f) :: fs | [] => [a] end.
Proof.
  induction 1 as [|c a Hc _ IH]; simpl.
  - by destruct s; simpl; repeat case_match.
  - rewrite Hc, IH. by case_match.
Qed.

Lemma fields_none p s : Forall (fun c => p c = false) s -> fields p s = [s].
Proof. intros H. rewrite <- (app_nil_r s) at 1. rewrite fields_skip by done. simpl. by rewrite app_nil_r. Qed.

Lemma fields_cut p a c s :
  Forall (fun c => p c = false) a -> p c = true -> fields p (a ++ c :: s) = a :: fields p s.
Proof. intros Ha Hc. rewrite fields_skip by done. simpl. rewrite Hc. by rewrite app_nil_r. Qed.

Lemma nonempty_skip p a s :
  Forall (fun c => p c = true) a -> nonempty (fields p (a ++ s)) = nonempty (fields p s).
Proof.
  induction 1 as [|c a Hc _ IH]; [done|]. simpl. rewrite Hc. unfold nonempty in *.
  by rewrite filter_cons_False by naive_solver.
Qed.

Section explode.
Context (str delimiters : list Z).
Hypothesis str_fits : fits str.
Hypothesis delims_fit : fits delimiters.
Hypothesis delims_some : len delimiters <> 0.

Definition rest (i : Z) : list Z := drop (Z.to_nat i) str.
Definition delim (c : Z) : bool := is_token delimiters c.

Lemma drop_rest i n : 0 <= i -> 0 <= n -> drop (Z.to_nat n) (rest i) = rest (i + n).
Proof. intros. unfold rest. rewrite drop_drop. f_equal. lia. Qed.

Lemma sub_rest i n : sub str i n = take (Z.to_nat n) (rest i).
Proof. done. Qed.

Lemma rest_cons i : 0 <= i < len str -> rest i = at_ str i :: rest (i + 1).
Proof.
  intros Hi. destruct (lookup_lt_is_Some_2 str (Z.to_nat i)) as [x Hx]; [unfold len in *; lia|].
  unfold rest, at_. rewrite (list_lookup_total_correct _ _ _ Hx).
  replace (Z.to_nat (i + 1)) with (S (Z.to_nat i)) by lia. by apply drop_S.
Qed.

(** Delimiters at the front do not change the non-empty fields. *)
Lemma nonempty_drop i n :
  0 <= i -> i + Z.of_nat n < len str -> Forall (fun c => negb (delim c) = false) (sub str i (Z.of_nat n)) ->
  nonempty (fields delim (rest i)) = nonempty (fields delim (rest (i + Z.of_nat n))).
Proof.
  intros Hi Hn H. rewrite <- (take_drop n (rest i)).
  rewrite <- (Nat2Z.id n) at 2. rewrite drop_rest by lia. apply nonempty_skip.
  rewrite sub_rest, Nat2Z.id in H. eapply Forall_impl; [exact H|]. intros c Hc. by apply negb_false_iff.
Qed.

(** The rest of the string from an offset, cut at the first hit of a test. *)
Lemma scan_rest p i :
  0 <= i <= len str ->
  (scan p (rest i) i = NPOS /\ Forall (fun c => p c = false) (rest i)) \/
  (exists n : nat, scan p (rest i) i = i + Z.of_nat n /\ i + Z.of_nat n < len str /\
     rest i = sub str i (Z.of_nat n) ++ at_ str (i + Z.of_nat n) :: rest (i + Z.of_nat n + 1) /\
     Forall (fun c => p c = false) (sub str i (Z.of_nat n)) /\ p (at_ str (i + Z.of_nat n)) = true).
Proof.
  intros Hi. unfold fits, len in str_fits, Hi. assert (len (rest i) = len str - i) as Hl
    by (unfold len, rest; rewrite length_drop; lia). unfold len in Hl.
  destruct (scan_spec p (rest i) i) as [H|(n & -> & Hn & Hp & H)]; [lia|unfold len; lia|by left|].
  right. exists n. split; [done|]. split; [unfold len; lia|].
  assert (at_ str (i + Z.of_nat n) = rest i !!! n) as Ha.
  { unfold at_, rest. rewrite lookup_total_drop. f_equal. lia. }
  rewrite Ha, sub_rest, Nat2Z.id. split; [|done].
  rewrite <- (drop_rest (i + Z.of_nat n) 1), <- (drop_rest i (Z.of_nat n)), Nat2Z.id, drop_drop by lia.
  rewrite <- (take_drop n (rest i)) at 1. f_equal.
  destruct (lookup_lt_is_Some_2 (rest i) n Hn) as [x Hx].
  rewrite (drop_S _ _ _ Hx), (list_lookup_total_correct _ _ _ Hx). f_equal. f_equal. lia.
Qed.

Lemma find_first_of_rest i : 0 <= i <= len str ->
  string_find_first_of str delimiters i = scan delim (rest i) i.
Proof.
  intros Hi. unfold string_find_first_of. replace (len delimiters =? 0) with false by lia.
  destruct (len str <=? i) eqn:E; [|done]. unfold rest. rewrite drop_ge; [done|unfold len in *; lia].
Qed.

Lemma find_first_not_of_rest i : 0 <= i <= len str ->
  string_find_first_not_of str delimiters i = scan (fun c => negb (delim c)) (rest i) i.
Proof.
  intros Hi. unfold string_find_first_not_of. replace (len delimiters =? 0) with false by lia.
  destruct (len str <=? i) eqn:E; [|done]. unfold rest. rewrite drop_ge; [done|unfold len in *; lia].
Qed.

Lemma find_first_of_beyond : string_find_first_of str delimiters NPOS = NPOS.
Proof.
  unfold string_find_first_of. replace (len delimiters =? 0) with false by lia.
  replace (len str <=? NPOS) with true; [done|]. symmetry. apply Z.leb_le.
  unfold fits in str_fits. lia.
Qed.

Lemma NPOS_ne i : 0 <= i <= len str -> (i =? NPOS) = false.
Proof. unfold fits in str_fits. lia. Qed.

Lemma rest_nil i : len str <= i -> rest i = [].
Proof. intros H. unfold rest. apply drop_ge. unfold len in H. lia. Qed.

(** With empty fields: the token is where the last field ended. *)
Lemma explode_all_spec fuel token end_ arr n :
  (end_ = token - 1 \/ token = 0 /\ end_ = 0) -> 0 <= token <= len str -> end_ < len str ->
  0 < len str -> len str - token < Z.of_nat fuel -> (length arr <= n)%nat ->
  explode_loop fuel str delimiters (Z.of_nat n) true token end_ arr =
  Some (take n (arr ++ fields delim (rest token))).
Proof.
  revert token end_ arr. induction fuel as [|fuel IH]; intros token end_ arr He Ht Hlt Hpos Hfuel Hn; [lia|].
  cbn [explode_loop]. replace (end_ <? len str) with true by lia. cbn [andb].
  destruct (Z.of_nat (length arr) <? Z.of_nat n) eqn:Ha.
  2: { rewrite take_app_le, take_ge by lia. done. }
  rewrite find_first_of_rest, (NPOS_ne token) by lia.
  destruct (scan_rest delim token Ht) as [[-> H]|(k & -> & Hk & Hr & H & Hd)].
  - rewrite Z.eqb_refl. change (wrap 64 (NPOS + 1)) with 0.
    assert (forall t, explode_loop fuel str delimiters (Z.of_nat n) true t NPOS
      (arr ++ [sub str token (len str - token)]) = Some (arr ++ [sub str token (len str - token)])) as E.
    { intros t. unfold fits in str_fits.
      destruct fuel; cbn [explode_loop]; replace (NPOS <? len str) with false by lia; done. }
    rewrite E, (fields_none _ _ H). f_equal. rewrite take_ge by (rewrite length_app; simpl; lia).
    f_equal. f_equal. rewrite sub_rest. apply take_ge. unfold rest. rewrite length_drop. unfold len. lia.
  - rewrite NPOS_ne by lia. rewrite wrap_small by (unfold fits, NPOS in str_fits; lia).
    replace (token + Z.of_nat k - token) with (Z.of_nat k) by lia.
    rewrite IH; [|left; lia|lia|lia|lia|lia|rewrite length_app; simpl; lia].
    rewrite Hr, fields_cut by done. by rewrite <- app_assoc.
Qed.

(** Without empty fields: everything before [end_] has been consumed. *)
Lemma explode_nonempty_spec fuel token end_ arr n :
  0 <= end_ <= len str -> len str - end_ < Z.of_nat fuel -> (length arr <= n)%nat ->
  explode_loop fuel str delimiters (Z.of_nat n) false token end_ arr =
  Some (take n (arr ++ nonempty (fields delim (rest end_)))).
Proof.
  revert token end_ arr. induction fuel as [|fuel IH]; intros token end_ arr He Hfuel Hn; [lia|].
  cbn [explode_loop]. destruct (end_ <? len str) eqn:Hlt; cbn [andb].
  2: { rewrite rest_nil by lia. simpl. unfold nonempty. rewrite filter_cons_False by naive_solver.
       rewrite app_nil_r, take_ge by lia. done. }
  destruct (Z.of_nat (length arr) <? Z.of_nat n) eqn:Ha.
  2: { rewrite take_app_le, take_ge by lia. done. }
  rewrite find_first_not_of_rest by lia.
  assert (forall t a, (length a <= n)%nat -> explode_loop fuel str delimiters (Z.of_nat n) false t NPOS a = Some a) as Estop.
  { intros t a _. unfold fits in str_fits.
    destruct fuel; cbn [explode_loop]; replace (NPOS <? len str) with false by lia; done. }
  destruct (scan_rest (fun c => negb (delim c)) end_ He) as [[-> H]|(j & -> & Hj & Hr & H & Hd)].
  - rewrite Z.eqb_refl, find_first_of_beyond, Estop by done. f_equal.
    rewrite <- (app_nil_r (rest end_)). rewrite nonempty_skip.
    + simpl. unfold nonempty. rewrite filter_cons_False by naive_solver.
      rewrite app_nil_r, take_ge by lia. done.
    + eapply Forall_impl; [exact H|]. intros c Hc. by apply negb_false_iff.
  - set (token' := end_ + Z.of_nat j) in *. rewrite NPOS_ne, find_first_of_rest by lia.
    assert (nonempty (fields delim (rest end_)) = nonempty (fields delim (rest token'))) as ->.
    { apply nonempty_drop; [lia|done|done]. }
    destruct (scan_rest delim token') as [[-> H']|(k & -> & Hk & Hr' & H' & Hd')]; [lia| |].
    + rewrite Z.eqb_refl, Estop by (rewrite length_app; simpl; lia). f_equal.
      rewrite (fields_none _ _ H').
      assert (sub str token' (len str - token') = rest token') as ->.
      { rewrite sub_rest. apply take_ge. unfold rest. rewrite length_drop. unfold len. lia. }
      unfold nonempty. rewrite filter_cons_True, take_ge; [done|rewrite length_app; simpl; lia|].
      intros E. apply (f_equal length) in E. unfold rest in E. rewrite length_drop in E.
      unfold len in *. simpl in E. lia.
    + rewrite NPOS_ne by lia. replace (token' + Z.of_nat k - token') with (Z.of_nat k) by lia.
      assert (k <> 0%nat) as Hk0.
      { intros ->. rewrite Z.add_0_r in Hd'. fold token' in Hd. rewrite Hd' in Hd. done. }
      rewrite IH; [|lia|lia|rewrite length_app; simpl; lia].
      rewrite Hr', fields_cut by done. unfold nonempty at 2. rewrite filter_cons_True.
      * rewrite <- app_assoc. f_equal. f_equal. f_equal.
        assert (nonempty (fields delim (rest (token' + Z.of_nat k))) =
                nonempty (fields delim (rest (token' + Z.of_nat k + 1)))) as ->; [|done].
        rewrite (rest_cons (token' + Z.of_nat k)) by lia.
        apply (nonempty_skip delim [_]). by constructor.
      * intros E. apply (f_equal len) in E. rewrite len_sub in E by lia. unfold len in E. simpl in E. lia.
Qed.
End explode.

(** [string_explode] terminates and stores the fields between delimiter
    bytes, in order and cut at the size of the array: all of them, or with
    [allow_empty] false exactly the non-empty ones. *)
Theorem string_explode_fields str delimiters (n : nat) allow_empty :
  fits str -> fits delimiters -> 0 < len delimiters ->
  string_explode str delimiters (Z.of_nat n) allow_empty =
  Some (if decide (str = []) then []
        else take n (if allow_empty then fields (fun c => bool_decide (c ∈ delimiters)) str
                     else nonempty (fields (fun c => bool_decide (c ∈ delimiters)) str))).
Proof.
  intros Hs Hd Hlen. unfold string_explode. case_decide as E; [by subst|].
  assert (0 < len str) as Hpos by (destruct str; [done|unfold len; simpl; lia]).
  replace (len str =? 0) with false by lia. replace (len delimiters =? 0) with false by lia.
  destruct (Z.of_nat n =? 0) eqn:En; cbn [orb].
  { apply Z.eqb_eq in En. replace n with 0%nat by lia. done. }
  assert (forall p q, (forall c, p c = q c) -> fields p str = fields q str) as Hext.
  { intros p q H. clear -H. induction str as [|c s IH]; [done|]. simpl. by rewrite H, IH. }
  rewrite (Hext _ (delim delimiters)) by (intros c; symmetry; by apply is_token_spec).
  destruct allow_empty.
  - rewrite explode_all_spec by first [lia|done|unfold len in *; simpl; lia]. done.
  - rewrite explode_nonempty_spec by first [lia|done|unfold len in *; simpl; lia]. done.
Qed.

Lemma string_explode_fields_witness :
  string_explode [97;44;44;98] [44] (Z.of_nat 4) false =
  Some (if decide ([97;44;44;98] = []) then []
        else take 4 (nonempty (fields (fun c => bool_decide (c ∈ [44])) [97;44;44;98]))).
Proof. apply (string_explode_fields [97;44;44;98] [44] 4 false); done. Defined.

(** ** Stripping *)

Lemma scan_down_spec p n :
  (scan_down p n = NPOS /\ forall i, (i <= n)%nat -> p (Z.of_nat i) = false) \/
  (exists i, scan_down p n = Z.of_nat i /\ (i <= n)%nat /\ p (Z.of_nat i) = true /\
     forall j, (i < j <= n)%nat -> p (Z.of_nat j) = false).
Proof.
  induction n as [|n IH]; cbn [scan_down]; (destruct (p _) eqn:Hp; [right; eexists; split; [done|]; split; [lia|]; split; [done|]; intros; lia|]).
  - left. split; [done|]. intros i Hi. by replace i with 0%nat by lia.
  - destruct IH as [[-> H]|(i & -> & Hi & Hpi & H)].
    + left. split; [done|]. intros i Hi. destruct (decide (i = S n)) as [->|]; [done|]. apply H. lia.
    + right. exists i. split; [done|]. split; [lia|]. split; [done|]. intros j Hj.
      destruct (decide (j = S n)) as [->|]; [done|]. apply H. lia.
Qed.

(** The first and the last byte that are not delimiters. *)
Lemma strip_bounds str delimiters :
  fits str -> fits delimiters -> 0 < len str ->
  let start := string_find_first_not_of str delimiters 0 in
  let end_ := string_find_last_not_of str delimiters (len str - 1) in
  (start = NPOS /\ Forall (fun c => c ∈ delimiters) str) \/
  (0 <= start <= end_ /\ end_ < len str /\ at_ str start ∉ delimiters /\ at_ str end_ ∉ delimiters /\
   (forall i, 0 <= i < start -> at_ str i ∈ delimiters) /\
   (forall i, end_ < i < len str -> at_ str i ∈ delimiters)).
Proof.
  intros Hs Hd Hpos. unfold string_find_first_not_of, string_find_last_not_of, clamp_last.
  replace (len str <=? 0) with false by lia. replace (len str <=? len str - 1) with false by lia.
  destruct (len delimiters =? 0) eqn:E; cbn zeta.
  { right. assert (delimiters = []) as -> by (destruct delimiters; [done|unfold len in E; simpl in E; lia]).
    split; [lia|]. split; [lia|]. split; [apply not_elem_of_nil|]. split; [apply not_elem_of_nil|].
    split; intros; lia. }
  assert (forall c, negb (is_token delimiters c) = bool_decide (c ∉ delimiters)) as Htok.
  { intros c. rewrite is_token_spec by done. repeat case_bool_decide; done. }
  unfold down_from. replace (len str - 1 =? NPOS) with false by (unfold fits in Hs; lia).
  rewrite drop_0. unfold fits in Hs.
  destruct (scan_spec (fun c => negb (is_token delimiters c)) str 0) as [[-> H]|(i & -> & Hi & Hp & H)]; [lia|lia| |].
  { left. split; [done|]. eapply Forall_impl; [exact H|]. intros c Hc. simpl in Hc.
    rewrite Htok in Hc. apply bool_decide_eq_false in Hc. by apply dec_stable in Hc. }
  right. rewrite Htok in Hp. apply bool_decide_eq_true in Hp.
  destruct (scan_down_spec (fun i => negb (is_token delimiters (at_ str i))) (Z.to_nat (len str - 1)))
    as [[_ H']|(j & -> & Hj & Hpj & H')].
  { exfalso. specialize (H' i). unfold len in *. specialize (H' ltac:(lia)). rewrite Htok in H'.
    apply bool_decide_eq_false in H'. apply H'. unfold at_. by rewrite Nat2Z.id. }
  rewrite Htok in Hpj. apply bool_decide_eq_true in Hpj. unfold len in *.
  assert (i <= j)%nat.
  { destruct (decide (i <= j)%nat); [done|]. specialize (H' i ltac:(lia)). rewrite Htok in H'.
    apply bool_decide_eq_false in H'. exfalso. apply H'. unfold at_. by rewrite Nat2Z.id. }
  split; [lia|]. split; [lia|]. split; [unfold at_; by rewrite Z.add_0_l, Nat2Z.id|]. split; [done|]. split.
  - intros k Hk. rewrite Forall_forall in H. assert (at_ str k ∈ take i str) as Hin.
    { replace (at_ str k) with (take i str !!! Z.to_nat k) by (rewrite lookup_total_take by lia; done).
      apply list_elem_of_lookup_total_2. rewrite length_take. lia. }
    apply H in Hin. simpl in Hin. rewrite Htok in Hin. apply bool_decide_eq_false in Hin. by apply dec_stable.
  - intros k Hk. specialize (H' (Z.to_nat k) ltac:(lia)). rewrite Htok, Z2Nat.id in H' by lia.
    apply bool_decide_eq_false in H'. by apply dec_stable.
Qed.

Lemma Forall_at (P : Z -> Prop) (s : list Z) a b :
  0 <= a -> b <= len s -> (forall i, a <= i < b -> P (at_ s i)) -> Forall P (sub s a (b - a)).
Proof.
  intros Ha Hb H. apply Forall_lookup_2. intros i x Hx. unfold sub in Hx.
  pose proof (lookup_lt_Some _ _ _ Hx) as Hl. rewrite length_take, length_drop in Hl.
  rewrite lookup_take_lt, lookup_drop in Hx by lia. apply list_lookup_total_correct in Hx.
  specialize (H (a + Z.of_nat i)). unfold at_ in H.
  replace (Z.to_nat (a + Z.of_nat i)) with (Z.to_nat a + i)%nat in H by lia.
  rewrite Hx in H. apply H. lia.
Qed.

(** [string_strip] removes exactly the delimiter bytes at both ends: what it
    cuts off on either side are delimiters, and the string it returns neither
    starts nor ends with one. *)
Theorem string_strip_spec str delimiters :
  fits str -> fits delimiters ->
  let s := string_strip str delimiters in
  exists pre post, str = pre ++ s ++ post /\
    Forall (fun c => c ∈ delimiters) pre /\ Forall (fun c => c ∈ delimiters) post /\
    (s <> [] -> at_ s 0 ∉ delimiters /\ at_ s (len s - 1) ∉ delimiters).
Proof.
  intros Hs Hd s. subst s. unfold string_strip. destruct (len str =? 0) eqn:E.
  { assert (str = []) as -> by (destruct str; [done|unfold len in E; simpl in E; lia]).
    by exists [], []. }
  destruct (strip_bounds str delimiters Hs Hd) as [[-> H]|(Hb & He & H1 & H2 & H3 & H4)];
    [pose proof (len_nonneg str); lia| |].
  { rewrite Z.eqb_refl. exists str, []. by rewrite app_nil_r. }
  set (start := string_find_first_not_of _ _ _) in *. set (end_ := string_find_last_not_of _ _ _) in *.
  unfold fits in Hs. replace (start =? NPOS) with false by lia.
  rewrite wrap_small by (unfold NPOS in Hs; lia).
  exists (sub str 0 (start - 0)), (sub str (end_ + 1) (len str - (end_ + 1))).
  split; [|split; [apply Forall_at; (lia || done)|split; [apply Forall_at; [lia|lia|intros; apply H4; lia]|]]].
  - unfold sub. rewrite drop_0, (take_ge (drop (Z.to_nat (end_ + 1)) str))
      by (rewrite length_drop; unfold len; lia).
    replace (Z.to_nat (end_ + 1)) with (Z.to_nat start + Z.to_nat (end_ - start + 1))%nat by lia.
    rewrite <- drop_drop, take_drop, Z.sub_0_r. by rewrite take_drop.
  - intros _. rewrite len_sub by lia. rewrite !at_sub by lia. split; [by rewrite Z.add_0_r|].
    by replace (start + (end_ - start + 1 - 1)) with end_ by lia.
Qed.

Lemma string_strip_spec_witness :
  exists pre post, [32;97;32;98;32;32] = pre ++ string_strip [32;97;32;98;32;32] [32] ++ post /\
    Forall (fun c => c ∈ [32]) pre /\ Forall (fun c => c ∈ [32]) post /\
    (string_strip [32;97;32;98;32;32] [32] <> [] ->
      at_ (string_strip [32;97;32;98;32;32] [32]) 0 ∉ [32] /\
      at_ (string_strip [32;97;32;98;32;32] [32]) (len (string_strip [32;97;32;98;32;32] [32]) - 1) ∉ [32]).
Proof. apply (string_strip_spec [32;97;32;98;32;32] [32]); done. Defined.

End Str.
