(* ===== verification/StrBuf.v ===== *)
(** * Strings written into a caller's buffer ([foundation/string.c])

    A buffer of [capacity] bytes is the list of its [capacity] bytes.  A
    function that stores into it returns the buffer afterwards and the length
    of the string it returns. *)
From S2P Require Import Prelude Str.

Module StrBuf.
Import Str.

(** A buffer holds a string when the string and a terminating zero are at its
    beginning. *)
Definition holds (buf s : list Z) : Prop := exists tail, buf = s ++ 0 :: tail.

(** [buf[i] = 0] *)
Definition terminate (buf : list Z) (i : Z) : list Z := write_at (Z.to_nat i) [0] buf.

Definition string_copy (dst src : list Z) : list Z * Z :=
  if 0 <? len dst then
    let length := if len dst <=? len src then len dst - 1 else len src in
    let dst := write_at 0 (sub src 0 length) dst in
    (terminate dst length, length)
  else (dst, 0).

Definition string_append_fragment (str : list Z) (length : Z) (suffix : list Z) : list Z * Z :=
  let capacity := len str in
  if capacity =? 0 then (str, 0)
  else if len suffix =? 0 then (str, length)
  else
    let total_length := length + len suffix in
    if capacity <=? total_length then
      let length := if capacity <=? length then capacity - 1 else length in
      let suffix_length := capacity - (length + 1) in
      let str := write_at (Z.to_nat length) (sub suffix 0 suffix_length) str in
      (terminate str (capacity - 1), capacity - 1)
    else
      let str := write_at (Z.to_nat length) suffix str in
      (terminate str total_length, total_length).

Definition string_append := string_append_fragment.

Definition string_prepend_fragment (str : list Z) (length : Z) (prefix : list Z) : list Z * Z :=
  let capacity := len str in
  if capacity =? 0 then (str, 0)
  else if len prefix =? 0 then (str, length)
  else
    let '(total_length, length, prefix_offset, prefix_length) :=
      if capacity <=? length + len prefix then
        let length := if capacity <=? length then capacity - 1 else length in
        let prefix_mod := capacity - (length + 1) in
        (capacity - 1, length, len prefix - prefix_mod, prefix_mod)
      else (length + len prefix, length, 0, len prefix) in
    let str :=
      if negb (length =? 0) && negb (prefix_length =? 0)
      then write_at (Z.to_nat prefix_length) (sub str 0 length) str else str in
    let str := write_at 0 (sub prefix prefix_offset prefix_length) str in
    (terminate str total_length, total_length).

Definition string_prepend := string_prepend_fragment.

Definition string_concat (str prefix suffix : list Z) : list Z * Z :=
  let '(buf, length) := string_copy str prefix in string_append buf length suffix.

Definition string_concat_vlist (str : list Z) (list : list (list Z)) : Datatypes.list Z * Z :=
  foldl (fun '(buf, length) s =>
           if len s =? 0 then (buf, length) else string_append_fragment buf length s) (str, 0) list.

(** [if(source_length < limit) limit = source_length; memcpy] *)
Definition merge_piece (capacity : Z) (result : list Z * Z) (source : list Z) : list Z * Z :=
  let '(buf, length) := result in
  let limit := capacity - length in
  let limit := if len source <? limit then len source else limit in
  (write_at (Z.to_nat length) (sub source 0 limit) buf, length + limit).

Definition string_merge (dst : list Z) (array : list (list Z)) (delimiter : list Z) : list Z * Z :=
  match array with
  | [] => (if 0 <? len dst then terminate dst 0 else dst, 0)
  | first :: others =>
      if len dst =? 0 then (dst, 0)
      else
        let capacity := len dst - 1 in
        let init := removelast array in
        let result := foldl (fun r s => merge_piece capacity (merge_piece capacity r s) delimiter)
          (dst, 0) init in
        let '(buf, length) := merge_piece capacity result (List.last array []) in
        (terminate buf length, length)
  end.

(** ** UTF-8 *)

Definition get_bit_mask (bits : Z) : Z := Z.shiftl 1 bits - 1.

Definition get_utf8_bytes_count (lead : Z) : Z :=
  if Z.land lead 0xFE =? 0xFC then 6
  else if Z.land lead 0xFC =? 0xF8 then 5
  else if Z.land lead 0xF8 =? 0xF0 then 4
  else if Z.land lead 0xF0 =? 0xE0 then 3
  else if Z.land lead 0xE0 =? 0xC0 then 2
  else 1.

Definition get_bytes_count_as_utf8 (val : Z) : Z :=
  if 0x04000000 <=? val then 6
  else if 0x00200000 <=? val then 5
  else if 0x00010000 <=? val then 4
  else if 0x00000800 <=? val then 3
  else if 0x00000080 <=? val then 2
  else 1.

(** The bytes stored at [str]. *)
Definition encode_utf8 (val : Z) : list Z :=
  if val <? 0x80 then [val]
  else
    let num := get_bytes_count_as_utf8 val - 1 in
    u8 (Z.lor (Z.lor 0x80 (Z.shiftl (get_bit_mask num) (7 - num)))
              (Z.land (Z.shiftr val (6 * num)) (get_bit_mask (6 - num)))) ::
    map (fun j => u8 (Z.lor 0x80 (Z.land (Z.shiftr val (6 * (num - j))) 0x3F))) (seqZ 1 num).

(** The loop over the extension bytes: [num - j] of them are still wanted. *)
Fixpoint glyph_loop (missing : nat) (cur : list Z) (glyph j : Z) : Z * Z :=
  match missing, cur with
  | S missing, ext :: cur =>
      glyph_loop missing cur
        (Z.lor glyph (Z.shiftl (Z.land ext 0x3F) (6 * Z.of_nat missing))) (j + 1)
  | _, _ => (glyph, j)
  end.

(** The glyph and the value stored through [consumed]. *)
Definition string_glyph (str : list Z) (offset : Z) : Z * Z :=
  if len str <=? offset then (0, 0)
  else
    match drop (Z.to_nat offset) str with
    | [] => (0, 0)
    | ext :: cur =>
        if Z.land ext 0x80 =? 0 then (ext, 1)
        else
          let num := get_utf8_bytes_count ext - 1 in
          glyph_loop (Z.to_nat num) cur
            (Z.shiftl (Z.land ext (get_bit_mask (6 - num))) (6 * num)) 1
    end.

Fixpoint glyphs_loop (fuel : nat) (str : list Z) (num : Z) : option Z :=
  match str with
  | [] => Some num
  | lead :: _ =>
      match fuel with
      | O => None
      | S fuel => glyphs_loop fuel (drop (Z.to_nat (get_utf8_bytes_count lead)) str) (num + 1)
      end
  end.

Definition string_glyphs (str : list Z) : option Z := glyphs_loop (length str) str 0.

Definition string_glyph_length (str : list Z) : Z :=
  match str with
  | [] => -1
  | lead :: _ =>
      let byte_count := get_utf8_bytes_count lead in
      if len str <? byte_count then -1
      else if forallb (fun b => Z.land b 0xC0 =? 0x80) (sub str 1 (byte_count - 1)) then byte_count
      else -1
  end.

(** ** Conversion from UTF-16 and UTF-32 *)

(** [if((curlen + numbytes) < capacity) curlen += encode_utf8(dst + curlen, glyph);] *)
Definition put_glyph (capacity : Z) (dst : list Z) (curlen glyph : Z) : list Z * Z :=
  let numbytes := get_bytes_count_as_utf8 glyph in
  if curlen + numbytes <? capacity
  then (write_at (Z.to_nat curlen) (encode_utf8 glyph) dst, curlen + len (encode_utf8 glyph))
  else (dst, curlen).

Fixpoint utf32_loop (capacity : Z) (swap : bool) (src dst : list Z) (curlen : Z) : list Z * Z :=
  match src with
  | [] => (dst, curlen)
  | glyph :: src =>
      if curlen <? capacity then
        if (glyph =? 0x0000FEFF) || (glyph =? 0xFFFE0000)
        then utf32_loop capacity (negb (glyph =? 0x0000FEFF)) src dst curlen
        else
          let glyph := if swap then byteorder_swap32 glyph else glyph in
          let '(dst, curlen) := put_glyph capacity dst curlen glyph in
          utf32_loop capacity swap src dst curlen
      else (dst, curlen)
  end.

Definition string_convert_utf32 (dst src : list Z) : list Z * Z :=
  let '(dst, curlen) := utf32_loop (len dst) false src dst 0 in
  (terminate dst curlen, curlen).

Fixpoint utf16_loop (capacity : Z) (swap : bool) (src dst : list Z) (curlen : Z) : list Z * Z :=
  match src with
  | [] => (dst, curlen)
  | glyph :: src =>
      if curlen <? capacity then
        if (glyph =? 0xFFFE) || (glyph =? 0xFEFF)
        then utf16_loop capacity (negb (glyph =? 0xFEFF)) src dst curlen
        else
          let glyph := if swap then byteorder_swap16 glyph else glyph in
          if (0xD800 <=? glyph) && (glyph <=? 0xDFFF) then
            match src with
            | [] => (dst, curlen)
            | lval :: src =>
                let lval := if swap then byteorder_swap16 lval else lval in
                let glyph := Z.lor (Z.shiftl (Z.land glyph 0x3FF) 10) (Z.land lval 0x3FF) + 0x10000 in
                let '(dst, curlen) := put_glyph capacity dst curlen glyph in
                utf16_loop capacity swap src dst curlen
            end
          else
            let '(dst, curlen) := put_glyph capacity dst curlen glyph in
            utf16_loop capacity swap src dst curlen
      else (dst, curlen)
  end.

Definition string_convert_utf16 (dst src : list Z) : list Z * Z :=
  let '(dst, curlen) := utf16_loop (len dst) false src dst 0 in
  (terminate dst curlen, curlen).

Example utf8_example :
  fst (string_convert_utf16 (replicate 12 1) [0xFEFF; 0x41; 0xE9; 0xD83D; 0xDE00]) =
  [0x41; 0xC3; 0xA9; 0xF0; 0x9F; 0x98; 0x80; 0; 1; 1; 1; 1].
Proof. vm_compute. done. Qed.
(** ** Truncated results *)

Lemma holds_terminate buf s :
  take (length s) buf = s -> (length s < length buf)%nat -> holds (terminate buf (len s)) s.
Proof.
  intros Ht Hl. unfold terminate, len, write_at. rewrite Nat2Z.id, Ht. by eexists.
Qed.

Lemma length_terminate buf i :
  0 <= i < len buf -> length (terminate buf i) = length buf.
Proof. intros Hi. unfold terminate. apply length_write_at. unfold len in *. simpl. lia. Qed.

Lemma holds_take buf s : holds buf s -> take (length s) buf = s /\ (length s < length buf)%nat.
Proof.
  intros [tail ->]. rewrite take_app_le, take_ge by lia. split; [done|].
  rewrite length_app. simpl. lia.
Qed.

Lemma length_sub (s : list Z) i n :
  0 <= i -> 0 <= n -> i + n <= len s -> length (sub s i n) = Z.to_nat n.
Proof. intros Hi Hn H. pose proof (len_sub s i n Hi Hn H). unfold len in *. lia. Qed.

Lemma sub_0 (s : list Z) n : sub s 0 n = take (Z.to_nat n) s.
Proof. done. Qed.

(** Storing a piece behind a prefix that is already in place. *)
Lemma take_write_piece buf a b :
  take (length a) buf = a -> (length a + length b <= length buf)%nat ->
  take (length (a ++ b)) (write_at (length a) b buf) = a ++ b.
Proof. intros Ha Hl. rewrite length_app, take_write_at by lia. by rewrite Ha. Qed.

Lemma string_copy_result dst src :
  0 < len dst ->
  let r := take (Z.to_nat (len dst - 1)) src in
  let '(buf, n) := string_copy dst src in
  length buf = length dst /\ n = len r /\ holds buf r.
Proof.
  intros Hc r. unfold string_copy. replace (0 <? len dst) with true by lia.
  set (n := if len dst <=? len src then len dst - 1 else len src).
  pose proof (len_nonneg src) as Hsrc.
  assert (n = len r /\ sub src 0 n = r /\ 0 <= n < len dst) as (-> & -> & Hn).
  { unfold n, r. rewrite sub_0. unfold len in *. destruct (_ <=? _) eqn:E.
    - rewrite length_take. split; [lia|]. split; [done|lia].
    - rewrite !take_ge by lia. split; [done|]. split; [done|lia]. }
  assert (length (write_at 0 r dst) = length dst) as Hl by (apply length_write_at; unfold len in Hn; lia).
  split; [|split; [done|]].
  - rewrite length_terminate; [done|]. unfold len in *. lia.
  - apply holds_terminate; [|unfold len in *; lia].
    change (length r) with (0 + length r)%nat. by rewrite take_write_at by lia.
Qed.

Lemma string_append_result buf s suffix :
  holds buf s ->
  let r := take (Z.to_nat (len buf - 1)) (s ++ suffix) in
  let '(buf', n) := string_append buf (len s) suffix in
  length buf' = length buf /\ n = len r /\ holds buf' r.
Proof.
  intros Hb r. pose proof (holds_take _ _ Hb) as [Ht Hl].
  unfold string_append, string_append_fragment. pose proof (len_nonneg s) as Hs.
  assert (len s < len buf) as Hl' by (unfold len; lia).
  replace (len buf =? 0) with false by lia. destruct (len suffix =? 0) eqn:E0.
  { assert (suffix = []) as -> by (destruct suffix; [done|unfold len in E0; simpl in E0; lia]).
    assert (r = s) as -> by (unfold r; rewrite app_nil_r; apply take_ge; unfold len in *; lia). done. }
  assert (forall piece, length s + length piece < length buf -> r = s ++ piece ->
    length (terminate (write_at (Z.to_nat (len s)) piece buf) (len r)) = length buf /\
    holds (terminate (write_at (Z.to_nat (len s)) piece buf) (len r)) r)%nat as H.
  { intros piece Hp ->.
    assert (length (write_at (Z.to_nat (len s)) piece buf) = length buf) as Hlw
      by (apply length_write_at; unfold len; lia).
    split; [rewrite length_terminate; [done|unfold len in *; rewrite length_app; lia]|].
    apply holds_terminate; [|rewrite length_app; lia].
    unfold len. rewrite Nat2Z.id. apply take_write_piece; [done|lia]. }
  destruct (len buf <=? len s + len suffix) eqn:E.
  - replace (len buf <=? len s) with false by lia.
    assert (r = s ++ sub suffix 0 (len buf - (len s + 1))) as Hr.
    { unfold r. rewrite sub_0, take_app_ge by (unfold len in *; lia). do 2 f_equal. unfold len. lia. }
    assert (len r = len buf - 1) as Hlr.
    { unfold r, len in *. rewrite length_take, length_app. lia. }
    rewrite <- Hlr. split; [|split; [done|]]; apply H; try done;
      rewrite length_sub by (unfold len in *; lia); unfold len in *; lia.
  - assert (r = s ++ suffix) as Hr by (unfold r; apply take_ge; rewrite length_app; unfold len in *; lia).
    assert (len s + len suffix = len r) as -> by (rewrite Hr; unfold len; rewrite length_app; lia).
    split; [|split; [done|]]; apply H; try done; unfold len in *; lia.
Qed.

Lemma string_prepend_result buf s prefix :
  holds buf s ->
  let r := drop (length s + length prefix - Z.to_nat (len buf - 1)) prefix ++ s in
  let '(buf', n) := string_prepend buf (len s) prefix in
  length buf' = length buf /\ n = len r /\ holds buf' r.
Proof.
  intros Hb r. pose proof (holds_take _ _ Hb) as [Ht Hl].
  unfold string_prepend, string_prepend_fragment. pose proof (len_nonneg s) as Hs.
  assert (len s < len buf) as Hl' by (unfold len; lia).
  replace (len buf =? 0) with false by lia. destruct (len prefix =? 0) eqn:E0.
  { assert (prefix = []) as -> by (destruct prefix; [done|unfold len in E0; simpl in E0; lia]).
    unfold r. rewrite drop_nil. done. }
  set (q := (if len buf <=? len s + len prefix then _ else _)).
  assert (exists po pl, q = (len r, len s, po, pl) /\ 0 <= po /\ 0 <= pl /\ po + pl <= len prefix /\
    r = sub prefix po pl ++ s /\ pl + len s < len buf) as (po & pl & -> & Hpo & Hpl & Hpp & Hr & Hfit).
  { unfold q. replace (len buf <=? len s) with false by lia.
    destruct (len buf <=? len s + len prefix) eqn:E.
    - exists (len prefix - (len buf - (len s + 1))), (len buf - (len s + 1)).
      assert (r = sub prefix (len prefix - (len buf - (len s + 1))) (len buf - (len s + 1)) ++ s) as Hr.
      { unfold r, sub. f_equal. rewrite take_ge by (rewrite length_drop; unfold len in *; lia).
        f_equal. unfold len in *. lia. }
      assert (len r = len buf - 1) as ->
        by (rewrite Hr; unfold len; rewrite length_app, length_sub by (unfold len in *; lia); unfold len in *; lia).
      split; [done|]. split; [unfold len in *; lia|]. split; [lia|]. split; [lia|]. split; [done|lia].
    - exists 0, (len prefix).
      assert (r = sub prefix 0 (len prefix) ++ s) as Hr.
      { unfold r, sub. f_equal. rewrite take_ge by (rewrite length_drop; unfold len in *; lia).
        f_equal. unfold len in *. lia. }
      assert (len r = len s + len prefix) as ->
        by (rewrite Hr; unfold len; rewrite length_app, length_sub by (unfold len in *; lia); unfold len in *; lia).
      pose proof (len_nonneg prefix).
      split; [done|]. split; [lia|]. split; [lia|]. split; [lia|]. split; [done|lia]. }
  set (piece := sub prefix po pl) in *.
  assert (length piece = Z.to_nat pl) as Hpiece by (apply length_sub; lia).
  set (buf1 := if _ && _ then _ else _).
  assert (length buf1 = length buf /\ take (length s) (drop (Z.to_nat pl) buf1) = s) as [Hl1 Hs1].
  { unfold buf1. rewrite sub_0. unfold len. rewrite Nat2Z.id, Ht.
    destruct (negb (Z.of_nat (length s) =? 0)) eqn:E1; simpl; [destruct (negb (pl =? 0)) eqn:E2; simpl|].
    - split; [apply length_write_at; unfold len in *; lia|]. apply read_write_at. unfold len in *. lia.
    - split; [done|]. replace (Z.to_nat pl) with 0%nat by lia. by rewrite drop_0.
    - destruct s; [|simpl in E1; lia]. by rewrite take_0. }
  assert (take (length r) (write_at 0 piece buf1) = r) as Htr.
  { rewrite Hr at 1. rewrite length_app. unfold write_at. rewrite take_0. simpl.
    rewrite take_app_ge by lia. rewrite Nat.add_sub' || replace (length piece + length s - length piece)%nat with (length s) by lia.
    rewrite Hpiece, Hs1. done. }
  assert (length r < length buf)%nat as Hlr by (rewrite Hr, length_app; unfold len in *; lia).
  assert (length (write_at 0 piece buf1) = length buf) as Hlw
    by (rewrite length_write_at; unfold len in *; lia).
  split; [|split; [done|]].
  - rewrite length_terminate; [done|]. unfold len. lia.
  - apply holds_terminate; [done|lia].
Qed.

(** The elements with a delimiter between them. *)
Fixpoint join (array : list (list Z)) (delimiter : list Z) : list Z :=
  match array with
  | [] => []
  | [s] => s
  | s :: array' => s ++ delimiter ++ join array' delimiter
  end.

(** The state of the merge loop: the buffer starts with as much of [full] as fits. *)
Definition merged (capacity : nat) (size : nat) (full : list Z) (st : list Z * Z) : Prop :=
  length (fst st) = size /\ snd st = len (take capacity full) /\
  take (length (take capacity full)) (fst st) = take capacity full.

Lemma merge_piece_merged capacity size full st source :
  (capacity < size)%nat -> merged capacity size full st ->
  merged capacity size (full ++ source) (merge_piece (Z.of_nat capacity) st source).
Proof.
  intros Hc. destruct st as [buf n]. intros (Hl & Hn & Ht). cbn [fst snd] in *. unfold merge_piece.
  set (r := take capacity full) in *. set (limit := if len source <? _ then _ else _).
  assert (0 <= limit /\ take capacity (full ++ source) = r ++ sub source 0 limit /\
    (length r + length (sub source 0 limit) < size)%nat /\ n + limit = len (r ++ sub source 0 limit))
    as (Hlim & E & Hfit & Hlen).
  { assert (n <= Z.of_nat capacity) by (rewrite Hn; unfold len, r; rewrite length_take; lia).
    assert (0 <= limit) by (unfold limit; pose proof (len_nonneg source); destruct (_ <? _); lia).
    assert (limit <= len source) by (unfold limit; destruct (_ <? _) eqn:?; lia).
    assert (n + limit = len (r ++ sub source 0 limit)) as Hlen
      by (rewrite Hn; unfold len; rewrite length_app, length_sub by lia; lia).
    split; [done|]. split; [|split; [|done]].
    - unfold r. destruct (decide (length full <= capacity)%nat) as [Hle|Hgt].
      + rewrite take_app_ge, (take_ge full) by done. f_equal. rewrite sub_0.
        unfold limit. assert (n = len full) as -> by (rewrite Hn; unfold r; by rewrite take_ge).
        unfold len in *. destruct (_ <? _) eqn:Ei.
        * rewrite !take_ge by lia. done.
        * f_equal. lia.
      + rewrite take_app_le by lia. assert (limit = 0) as ->.
        { unfold limit. assert (n = Z.of_nat capacity) as -> by (rewrite Hn; unfold r, len; rewrite length_take; lia).
          destruct (_ <? _) eqn:Ei; pose proof (len_nonneg source); lia. }
        rewrite sub_0. simpl. by rewrite app_nil_r.
    - rewrite length_sub by lia. assert (limit <= Z.of_nat capacity - n)
        by (unfold limit; destruct (_ <? _) eqn:?; lia). unfold len in Hn. lia. }
  unfold merged. rewrite E. cbn [fst snd]. rewrite Hn at 1. unfold len at 1. rewrite Nat2Z.id.
  split; [rewrite length_write_at; lia|]. split; [done|].
  rewrite Hn. unfold len. rewrite Nat2Z.id. apply take_write_piece; [done|lia].
Qed.

Lemma merge_loop_merged capacity size delimiter init full st :
  (capacity < size)%nat -> merged capacity size full st ->
  merged capacity size (full ++ concat (map (fun s => s ++ delimiter) init))
    (foldl (fun r s => merge_piece (Z.of_nat capacity) (merge_piece (Z.of_nat capacity) r s) delimiter) st init).
Proof.
  intros Hc. revert full st. induction init as [|s init IH]; intros full st Hm; simpl.
  - by rewrite app_nil_r.
  - rewrite !app_assoc. apply IH. rewrite <- app_assoc. 
    rewrite app_assoc. by apply merge_piece_merged, merge_piece_merged.
Qed.

Lemma join_snoc init last delimiter :
  join (init ++ [last]) delimiter = concat (map (fun s => s ++ delimiter) init) ++ last.
Proof.
  induction init as [|s init IH]; [done|]. simpl. rewrite IH.
  destruct (init ++ [last]) eqn:E; [by apply app_nil in E as [_ ?]|]. by rewrite <- !app_assoc.
Qed.

(** [string_append] and [string_prepend] leave a terminated string inside
    the buffer, whatever the sizes: appending keeps the front of the joined
    string, prepending keeps all of the string and the end of the prefix. *)
Theorem string_append_prepend buf s t :
  holds buf s ->
  (let '(buf', n) := string_append buf (len s) t in
   let r := take (Z.to_nat (len buf - 1)) (s ++ t) in
   length buf' = length buf /\ n = len r /\ holds buf' r) /\
  (let '(buf', n) := string_prepend buf (len s) t in
   let r := drop (length s + length t - Z.to_nat (len buf - 1)) t ++ s in
   length buf' = length buf /\ n = len r /\ holds buf' r).
Proof. intros H. split; [by apply string_append_result|by apply string_prepend_result]. Qed.

Lemma string_append_prepend_witness :
  (let '(buf', n) := string_append [97;0;7;7] (len [97]) [98;99;100] in
   let r := take 3 ([97] ++ [98;99;100]) in
   length buf' = 4%nat /\ n = len r /\ holds buf' r) /\
  (let '(buf', n) := string_prepend [97;0;7;7] (len [97]) [98;99;100] in
   let r := drop 1 [98;99;100] ++ [97] in
   length buf' = 4%nat /\ n = len r /\ holds buf' r).
Proof. apply (string_append_prepend [97;0;7;7] [97] [98;99;100]). by exists [7;7]. Defined.

(** [string_merge] stores, terminated, the elements joined by the delimiter,
    cut at the capacity. *)
Theorem string_merge_join dst array delimiter :
  0 < len dst ->
  let r := take (Z.to_nat (len dst - 1)) (join array delimiter) in
  let '(buf, n) := string_merge dst array delimiter in
  length buf = length dst /\ n = len r /\ holds buf r.
Proof.
  intros Hc. unfold string_merge. destruct array as [|x array _] using rev_ind.
  { replace (0 <? len dst) with true by lia. cbn [join]. rewrite take_nil.
    split; [apply length_terminate; lia|]. split; [done|].
    apply (holds_terminate dst []); [by rewrite take_0|unfold len in *; simpl; lia]. }
  destruct (array ++ [x]) eqn:Ea; [by apply app_nil in Ea as [_ ?]|]. rewrite <- Ea. clear l l0 Ea.
  replace (len dst =? 0) with false by lia. rewrite removelast_last, last_last, join_snoc.
  replace (len dst - 1) with (Z.of_nat (Z.to_nat (len dst - 1))) by lia. rewrite Nat2Z.id.
  set (cap := Z.to_nat (len dst - 1)).
  assert (cap < length dst)%nat as Hcap by (unfold cap, len in *; lia).
  assert (merged cap (length dst) (concat (map (fun s => s ++ delimiter) array) ++ x)
    (merge_piece (Z.of_nat cap) (foldl (fun r s => merge_piece (Z.of_nat cap)
       (merge_piece (Z.of_nat cap) r s) delimiter) (dst, 0) array) x)) as Hm.
  { apply merge_piece_merged; [done|]. apply (merge_loop_merged cap _ _ _ []); [done|].
    split; [done|]. rewrite take_nil. by rewrite take_0. }
  destruct (merge_piece _ _ x) as [buf n]. destruct Hm as (Hl & Hn & Ht). cbn [fst snd] in *.
  rewrite Hn. assert (length (take cap (concat (map (fun s => s ++ delimiter) array) ++ x)) < length dst)%nat
    as Hlt by (rewrite length_take; lia).
  split; [rewrite length_terminate; [done|unfold len; lia]|]. split; [done|].
  apply holds_terminate; [done|lia].
Qed.

Lemma string_merge_join_witness :
  let r := take 4 (join [[97;98];[99];[100;101]] [44]) in
  let '(buf, n) := string_merge [1;1;1;1;1] [[97;98];[99];[100;101]] [44] in
  length buf = 5%nat /\ n = len r /\ holds buf r.
Proof. apply (string_merge_join [1;1;1;1;1] [[97;98];[99];[100;101]] [44]). done. Defined.

(** ** UTF-8 *)

Definition lead_byte (n x : Z) : Z :=
  u8 (Z.lor (Z.lor 0x80 (Z.shiftl (get_bit_mask n) (7 - n))) x).
Definition ext_byte (x : Z) : Z := u8 (Z.lor 0x80 x).

Lemma lead_byte_spec n x :
  1 <= n <= 5 -> 0 <= x < 2 ^ (6 - n) ->
  get_utf8_bytes_count (lead_byte n x) = n + 1 /\ Z.land (lead_byte n x) (get_bit_mask (6 - n)) = x /\
  Z.land (lead_byte n x) 0x80 <> 0 /\ byte_ok (lead_byte n x).
Proof.
  intros Hn Hx.
  assert (forallb (fun n => forallb (fun x =>
    (get_utf8_bytes_count (lead_byte n x) =? n + 1) && (Z.land (lead_byte n x) (get_bit_mask (6 - n)) =? x) &&
    negb (Z.land (lead_byte n x) 0x80 =? 0) && bool_decide (byte_ok (lead_byte n x)))
    (seqZ 0 (2 ^ (6 - n)))) (seqZ 1 5) = true) as H by (vm_compute; done).
  rewrite forallb_forall in H. specialize (H n). rewrite <- list_elem_of_In in H.
  specialize (H ltac:(apply elem_of_seqZ; lia)). rewrite forallb_forall in H. specialize (H x).
  rewrite <- list_elem_of_In in H. specialize (H ltac:(apply elem_of_seqZ; lia)).
  rewrite !andb_true_iff, negb_true_iff, bool_decide_eq_true in H. unfold byte_ok in *. lia.
Qed.

Lemma ext_byte_spec x :
  0 <= x < 64 -> Z.land (ext_byte x) 0x3F = x /\ Z.land (ext_byte x) 0xC0 = 0x80 /\ byte_ok (ext_byte x).
Proof.
  intros Hx.
  assert (forallb (fun x => (Z.land (ext_byte x) 0x3F =? x) && (Z.land (ext_byte x) 0xC0 =? 0x80) &&
    bool_decide (byte_ok (ext_byte x))) (seqZ 0 64) = true) as H by (vm_compute; done).
  rewrite forallb_forall in H. specialize (H x). rewrite <- list_elem_of_In in H.
  specialize (H ltac:(apply elem_of_seqZ; lia)).
  rewrite !andb_true_iff, bool_decide_eq_true in H. unfold byte_ok in *. lia.
Qed.

(** The [m] extension bytes of a value, most significant first. *)
Definition sextet (val : Z) (k : nat) : Z := Z.land (Z.shiftr val (6 * Z.of_nat k)) 0x3F.
Fixpoint exts (val : Z) (m : nat) : list Z :=
  match m with O => [] | S m => ext_byte (sextet val m) :: exts val m end.

Lemma sextet_range val k : 0 <= sextet val k < 64.
Proof. apply (land_ones_in_u 6); [done|lia]. Qed.

Lemma length_exts val m : length (exts val m) = m.
Proof. induction m; simpl; auto. Qed.

Lemma exts_seqZ val (m : nat) a :
  map (fun j => u8 (Z.lor 0x80 (Z.land (Z.shiftr val (6 * (a + Z.of_nat m - 1 - j))) 0x3F))) (seqZ a (Z.of_nat m)) =
  exts val m.
Proof.
  revert a. induction m as [|m IH]; intros a; [done|].
  rewrite seqZ_cons by lia. replace (Z.pred (Z.of_nat (S m))) with (Z.of_nat m) by lia. simpl.
  f_equal.
  - unfold ext_byte, sextet. do 4 f_equal. lia.
  - rewrite <- (IH (Z.succ a)). apply map_ext. intros j. do 5 f_equal. lia.
Qed.

Lemma join_sextet val k :
  Z.lor (Z.shiftl (sextet val k) (6 * Z.of_nat k)) (val mod 2 ^ (6 * Z.of_nat k)) =
  val mod 2 ^ (6 * Z.of_nat (S k)).
Proof.
  unfold sextet. change 0x3F with (Z.ones 6).
  change (val mod ?m) with (wrap (6 * Z.of_nat k) val) at 1.
  change (val mod ?m) with (wrap (6 * Z.of_nat (S k)) val).
  zbits i. replace (i - 6 * Z.of_nat k + 6 * Z.of_nat k) with i by lia.
  split_bits.
Qed.

Lemma glyph_loop_exts val m rest g j :
  glyph_loop m (exts val m ++ rest) g j = (Z.lor g (val mod 2 ^ (6 * Z.of_nat m)), j + Z.of_nat m).
Proof.
  revert g j. induction m as [|m IH]; intros g j.
  - simpl. change (2 ^ (6 * 0)) with 1. rewrite Z.mod_1_r, Z.lor_0_r. f_equal. lia.
  - cbn [exts app glyph_loop].
    destruct (ext_byte_spec (sextet val m) (sextet_range val m)) as (-> & _ & _).
    rewrite IH, <- Z.lor_assoc, join_sextet. f_equal. lia.
Qed.

Lemma byte_counts val : 0 <= val < 2 ^ 31 ->
  0x80 <= val -> exists m : nat, get_bytes_count_as_utf8 val = Z.of_nat m + 1 /\ 1 <= Z.of_nat m <= 5 /\
    val < 2 ^ (6 * Z.of_nat m + (6 - Z.of_nat m)).
Proof.
  intros H1 H2. unfold get_bytes_count_as_utf8. change (2 ^ 31) with 0x80000000 in H1.
  repeat match goal with |- context [if ?c then _ else _] => destruct c eqn:? end;
    [exists 5%nat|exists 4%nat|exists 3%nat|exists 2%nat|exists 1%nat|lia];
    (split; [done|]); (split; [lia|]); cbn; lia.
Qed.

Lemma encode_utf8_form val : 0 <= val < 2 ^ 31 -> 0x80 <= val ->
  exists m : nat, encode_utf8 val =
      lead_byte (Z.of_nat m) (Z.shiftr val (6 * Z.of_nat m)) :: exts val m /\
    get_bytes_count_as_utf8 val = Z.of_nat m + 1 /\ 1 <= Z.of_nat m <= 5 /\
    0 <= Z.shiftr val (6 * Z.of_nat m) < 2 ^ (6 - Z.of_nat m).
Proof.
  intros H1 H2. destruct (byte_counts val H1 H2) as (m & Hm & Hr & Hv). exists m.
  assert (0 <= Z.shiftr val (6 * Z.of_nat m) < 2 ^ (6 - Z.of_nat m)) as Hs.
  { rewrite Z.shiftr_div_pow2 by lia. split; [apply Z.div_pos; [lia|apply pow2_pos; lia]|].
    apply Z.div_lt_upper_bound; [apply pow2_pos; lia|]. by rewrite <- Z.pow_add_r by lia. }
  split; [|done]. unfold encode_utf8. replace (val <? 0x80) with false by lia. rewrite Hm.
  replace (Z.of_nat m + 1 - 1) with (Z.of_nat m) by lia. f_equal.
  - unfold lead_byte. do 2 f_equal. unfold get_bit_mask. rewrite (land_low_mask _ (6 - Z.of_nat m)) by lia.
    by apply Z.mod_small.
  - rewrite <- (exts_seqZ val m 1). apply map_ext. intros j. do 5 f_equal. lia.
Qed.

Lemma encode_utf8_length val :
  0 <= val < 2 ^ 31 -> len (encode_utf8 val) = get_bytes_count_as_utf8 val.
Proof.
  intros H. destruct (decide (val < 0x80)).
  - unfold encode_utf8, get_bytes_count_as_utf8.
    repeat match goal with |- context [if ?c then _ else _] => destruct c eqn:?; try lia end. done.
  - destruct (encode_utf8_form val H) as (m & -> & -> & _); [lia|].
    unfold len. simpl. rewrite length_exts. lia.
Qed.

Lemma string_glyph_encode val pre rest :
  0 <= val < 2 ^ 31 ->
  string_glyph (pre ++ encode_utf8 val ++ rest) (len pre) = (val, len (encode_utf8 val)).
Proof.
  intros H. unfold string_glyph.
  assert (0 < len (encode_utf8 val)) as Hpos.
  { rewrite encode_utf8_length by done. unfold get_bytes_count_as_utf8. repeat case_match; lia. }
  replace (len (pre ++ encode_utf8 val ++ rest) <=? len pre) with false.
  2: { symmetry. apply Z.leb_gt. unfold len in *. rewrite !length_app. lia. }
  unfold len at 1. rewrite Nat2Z.id, drop_app_length.
  destruct (decide (val < 0x80)) as [Hlt|Hge].
  - unfold encode_utf8. replace (val <? 0x80) with true by lia. simpl.
    replace (Z.land val 0x80 =? 0) with true; [done|]. symmetry. apply Z.eqb_eq.
    zbits i. destruct (decide (i < 7)).
    + change 0x80 with (Z.shiftl 1 7). rewrite testbit_shiftl, (Z.testbit_neg_r 1) by lia. simp_bool. done.
    + rewrite (in_u_testbit 7 val i); [done| |lia]. unfold in_u. change (2 ^ 7) with 128. lia.
  - destruct (encode_utf8_form val H) as (m & E & Hc & Hm & Hs); [lia|]. rewrite E. simpl.
    destruct (lead_byte_spec (Z.of_nat m) _ Hm Hs) as (Hn & Hx & Hne & _).
    replace (_ =? 0) with false by (symmetry; by apply Z.eqb_neq).
    rewrite Hn. replace (Z.of_nat m + 1 - 1) with (Z.of_nat m) by lia.
    rewrite Hx, Nat2Z.id, glyph_loop_exts. f_equal.
    + change (val mod ?p) with (wrap (6 * Z.of_nat m) val). zbits i.
      replace (i - 6 * Z.of_nat m + 6 * Z.of_nat m) with i by lia. split_bits.
    + unfold len. simpl. rewrite length_exts. lia.
Qed.

(** ** Conversion loops *)

Lemma len_encode_utf8 val : len (encode_utf8 val) = get_bytes_count_as_utf8 val.
Proof.
  unfold encode_utf8. destruct (val <? 0x80) eqn:E.
  - unfold get_bytes_count_as_utf8. repeat case_match; try lia. done.
  - unfold len. simpl. rewrite length_map, length_seqZ. unfold get_bytes_count_as_utf8. repeat case_match; lia.
Qed.

Lemma bytes_count_pos val : 1 <= get_bytes_count_as_utf8 val <= 6.
Proof. unfold get_bytes_count_as_utf8. repeat case_match; lia. Qed.

(** The first [curlen] bytes of the destination are [s]. *)
Definition placed (capacity : nat) (st : list Z * Z) (s : list Z) : Prop :=
  length (fst st) = capacity /\ snd st = len s /\ take (length s) (fst st) = s /\ len s < Z.of_nat capacity.

Lemma put_glyph_placed capacity dst curlen s glyph :
  placed capacity (dst, curlen) s ->
  exists s', placed capacity (put_glyph (Z.of_nat capacity) dst curlen glyph) s' /\
    (len s + get_bytes_count_as_utf8 glyph < Z.of_nat capacity -> s' = s ++ encode_utf8 glyph).
Proof.
  intros (Hl & Hc & Ht & Hlt). cbn [fst snd] in *. unfold put_glyph.
  pose proof (len_encode_utf8 glyph) as He. pose proof (bytes_count_pos glyph).
  destruct (_ <? _) eqn:E.
  - exists (s ++ encode_utf8 glyph). split; [|done]. unfold placed. cbn [fst snd].
    rewrite Hc in *. unfold len in *. rewrite Nat2Z.id, length_app.
    rewrite length_write_at by lia. split; [done|]. split; [lia|]. split; [|lia].
    rewrite <- length_app. apply take_write_piece; [done|lia].
  - exists s. split; [done|]. lia.
Qed.

Lemma utf32_loop_placed capacity src swap dst curlen s :
  placed capacity (dst, curlen) s ->
  exists s', placed capacity (utf32_loop (Z.of_nat capacity) swap src dst curlen) s'.
Proof.
  revert swap dst curlen s. induction src as [|g src IH]; intros swap dst curlen s H; simpl; [by exists s|].
  destruct (curlen <? _); [|by exists s]. destruct (_ || _); [by eapply IH|].
  destruct (put_glyph_placed capacity dst curlen s (if swap then byteorder_swap32 g else g) H) as (s' & H' & _).
  destruct (put_glyph _ _ _ _) as [dst' curlen']. by eapply IH.
Qed.

Lemma utf16_loop_placed capacity n src swap dst curlen s :
  (length src <= n)%nat -> placed capacity (dst, curlen) s ->
  exists s', placed capacity (utf16_loop (Z.of_nat capacity) swap src dst curlen) s'.
Proof.
  revert src swap dst curlen s. induction n as [|n IH]; intros src swap dst curlen s Hn H;
    (destruct src as [|g src]; simpl in *; [by exists s|]); [lia|].
  destruct (curlen <? _); [|by exists s]. destruct (_ || _); [eapply IH; [lia|done]|].
  destruct (_ && _).
  - destruct src as [|l src]; [by exists s|]. simpl in Hn.
    match goal with |- context [put_glyph _ _ _ ?g] =>
      destruct (put_glyph_placed capacity dst curlen s g H) as (s' & H' & _) end.
    destruct (put_glyph _ _ _ _) as [dst' curlen']. eapply IH; [lia|done].
  - match goal with |- context [put_glyph _ _ _ ?g] =>
      destruct (put_glyph_placed capacity dst curlen s g H) as (s' & H' & _) end.
    destruct (put_glyph _ _ _ _) as [dst' curlen']. eapply IH; [lia|done].
Qed.

Lemma placed_nil dst : 0 < len dst -> placed (length dst) (dst, 0) [].
Proof. intros H. split; [done|]. split; [done|]. split; [by rewrite take_0|]. done. Qed.

Lemma placed_terminate capacity st s :
  placed capacity st s ->
  length (terminate (fst st) (snd st)) = capacity /\ holds (terminate (fst st) (snd st)) s.
Proof.
  intros (Hl & -> & Ht & Hlt). pose proof (len_nonneg s). split.
  - rewrite length_terminate; [done|unfold len in *; lia].
  - apply holds_terminate; [done|unfold len in *; lia].
Qed.

(** Converting UTF-16 or UTF-32 text of any content, valid or not, stays
    inside a destination of positive capacity and terminates what it stored. *)
Theorem string_convert_bounds dst src :
  0 < len dst ->
  (exists s, let '(buf, n) := string_convert_utf16 dst src in
     length buf = length dst /\ n = len s /\ holds buf s) /\
  (exists s, let '(buf, n) := string_convert_utf32 dst src in
     length buf = length dst /\ n = len s /\ holds buf s).
Proof.
  intros H. pose proof (placed_nil dst H) as Hp.
  destruct (utf16_loop_placed _ (length src) src false _ _ _ ltac:(lia) Hp) as [s Hs].
  destruct (utf32_loop_placed _ src false _ _ _ Hp) as [t Ht].
  split; [exists s; unfold string_convert_utf16|exists t; unfold string_convert_utf32]; unfold len at 1.
  - destruct (utf16_loop _ _ _ _ _) as [buf n]. destruct (placed_terminate _ _ _ Hs) as [Hl Hh].
    by destruct Hs as (_ & Hn & _).
  - destruct (utf32_loop _ _ _ _ _) as [buf n]. destruct (placed_terminate _ _ _ Ht) as [Hl Hh].
    by destruct Ht as (_ & Hn & _).
Qed.

Lemma string_convert_bounds_witness :
  (exists s, let '(buf, n) := string_convert_utf16 [1;1;1;1] [0xFEFF; 0xD83D; 0xDE00; 65] in
     length buf = 4%nat /\ n = len s /\ holds buf s) /\
  (exists s, let '(buf, n) := string_convert_utf32 [1;1;1;1] [0xFEFF; 0xD83D; 0xDE00; 65] in
     length buf = 4%nat /\ n = len s /\ holds buf s).
Proof. apply (string_convert_bounds [1;1;1;1] [0xFEFF; 0xD83D; 0xDE00; 65]). done. Defined.

(** The glyphs read from a string by following [consumed]. *)
Fixpoint read_glyphs (fuel : nat) (str : list Z) (offset : Z) : option (list Z) :=
  if len str <=? offset then Some []
  else
    match fuel with
    | O => None
    | S fuel =>
        let '(glyph, consumed) := string_glyph str offset in
        gs ← read_glyphs fuel str (offset + consumed); Some (glyph :: gs)
    end.

Definition utf8 (glyphs : list Z) : list Z := concat (map encode_utf8 glyphs).

Lemma read_glyphs_utf8 fuel glyphs pre :
  Forall (fun g => 0 <= g < 2 ^ 31) glyphs -> (length glyphs <= fuel)%nat ->
  read_glyphs fuel (pre ++ utf8 glyphs) (len pre) = Some glyphs.
Proof.
  intros Hg. revert fuel pre. induction Hg as [|g glyphs H Hg IH]; intros fuel pre Hf.
  - unfold utf8. simpl. rewrite app_nil_r. destruct fuel; simpl; by rewrite Z.leb_refl.
  - destruct fuel as [|fuel]; simpl in Hf; [lia|]. unfold utf8. cbn [read_glyphs map concat].
    pose proof (len_encode_utf8 g). pose proof (bytes_count_pos g).
    replace (_ <=? len pre) with false.
    2: { symmetry. apply Z.leb_gt. unfold len in *. rewrite !length_app. lia. }
    rewrite string_glyph_encode by done. rewrite app_assoc.
    replace (len pre + len (encode_utf8 g)) with (len (pre ++ encode_utf8 g))
      by (unfold len; rewrite length_app; lia).
    unfold utf8 in IH. rewrite IH by lia. done.
Qed.

(** A code point that is no surrogate, and its UTF-16 code units. *)
Definition scalar (g : Z) : Prop := 0 <= g < 0x110000 /\ ~ (0xD800 <= g <= 0xDFFF).
Definition utf16_units (g : Z) : list Z :=
  if g <? 0x10000 then [g]
  else [0xD800 + Z.shiftr (g - 0x10000) 10; 0xDC00 + Z.land (g - 0x10000) 0x3FF].

(** A text in UTF-32 and in UTF-16, in the byte order of the machine or in the
    other one with a byte order mark in front. *)
Definition utf32_text (swap : bool) (glyphs : list Z) : list Z := (if swap then [0xFFFE0000] else []) ++ map (swap_if swap 4) glyphs.
Definition utf16_text (swap : bool) (glyphs : list Z) : list Z := (if swap then [0xFFFE] else []) ++ map (swap_if swap 2) (concat (map utf16_units glyphs)).

(** The text without the code points that are taken for byte order marks. *)
Definition visible (glyphs : list Z) : list Z := filter (fun g => g <> 0xFEFF) glyphs.

Lemma swap_if_twice (swap : bool) n v : 0 <= v < 2 ^ (8 * Z.of_nat n) -> (if swap then byteorder_swap n (swap_if swap n v) else swap_if swap n v) = v.
Proof. intros Hv. destruct swap; [by apply byteorder_swap_involutive|done]. Qed.

(** A stored value that is a byte order mark. *)
Lemma swap_if_mark (swap : bool) n v m : 0 <= v < 2 ^ (8 * Z.of_nat n) -> 0 <= m < 2 ^ (8 * Z.of_nat n) -> (swap_if swap n v =? m) = (v =? swap_if swap n m).
Proof.
  intros Hv Hm. unfold swap_if. destruct swap; [|done]. destruct (Z.eqb_spec (byteorder_swap n v) m) as [<-|Hne]; [by rewrite byteorder_swap_involutive, Z.eqb_refl|].
  symmetry. apply Z.eqb_neq. intros ->. by rewrite byteorder_swap_involutive in Hne.
Qed.

Lemma utf8_glyph_cons g glyphs : utf8 (g :: glyphs) = encode_utf8 g ++ utf8 glyphs.
Proof. done. Qed.

Lemma visible_cons g glyphs : visible (g :: glyphs) = if decide (g = 0xFEFF) then visible glyphs else g :: visible glyphs.
Proof. unfold visible. rewrite filter_cons. by do 2 case_decide. Qed.

(** One code point that is not dropped. *)
Lemma put_glyph_fits capacity dst curlen s g l :
  placed capacity (dst, curlen) s -> len s + len (utf8 (g :: l)) < Z.of_nat capacity ->
  curlen < Z.of_nat capacity /\ placed capacity (put_glyph (Z.of_nat capacity) dst curlen g) (s ++ encode_utf8 g) /\
  len (s ++ encode_utf8 g) + len (utf8 l) < Z.of_nat capacity.
Proof.
  intros Hp. rewrite utf8_glyph_cons, !len_app. pose proof (len_encode_utf8 g). pose proof (len_nonneg (utf8 l)). intros Hfit. destruct (put_glyph_placed capacity dst curlen s g Hp) as (s' & Hp' & E).
  rewrite E in Hp' by lia. destruct Hp as (_ & Hc & _ & Hlt). cbn [snd] in Hc. split; [lia|]. split; [done|lia].
Qed.

Lemma utf32_loop_glyphs capacity (swap : bool) glyphs dst curlen s :
  Forall scalar glyphs -> placed capacity (dst, curlen) s -> len s + len (utf8 (visible glyphs)) < Z.of_nat capacity ->
  placed capacity (utf32_loop (Z.of_nat capacity) swap (map (swap_if swap 4) glyphs) dst curlen) (s ++ utf8 (visible glyphs)).
Proof.
  intros Hg. revert dst curlen s. induction Hg as [|g glyphs H Hg IH]; intros dst curlen s Hp Hfit; [by rewrite app_nil_r|].
  cbn [map utf32_loop]. rewrite visible_cons in *. pose proof Hp as (_ & Hc & _ & Hlt). cbn [snd] in Hc. rewrite (proj2 (Z.ltb_lt curlen _)) by lia.
  destruct H as [Hr Hsur]. assert (0 <= g < 2 ^ (8 * Z.of_nat 4)) as Hg32 by (change (2 ^ (8 * Z.of_nat 4)) with 4294967296; lia).
  rewrite !swap_if_mark by done. unfold byteorder_swap32. rewrite swap_if_twice by done.
  assert (swap_if swap 4 0xFEFF = (if swap then 0xFFFE0000 else 0xFEFF) /\ swap_if swap 4 0xFFFE0000 = (if swap then 0xFEFF else 0xFFFE0000)) as [-> ->] by (by destruct swap).
  case_decide as Hb.
  - subst g. replace ((0xFEFF =? (if swap then 0xFFFE0000 else 0xFEFF)) || (0xFEFF =? (if swap then 0xFEFF else 0xFFFE0000))) with true by (by destruct swap).
    replace (negb (0xFEFF =? (if swap then 0xFFFE0000 else 0xFEFF))) with swap by (by destruct swap). by apply IH.
  - replace ((g =? (if swap then 0xFFFE0000 else 0xFEFF)) || (g =? (if swap then 0xFEFF else 0xFFFE0000))) with false by (destruct swap; lia).
    destruct (put_glyph_fits capacity dst curlen s g (visible glyphs) Hp Hfit) as (_ & Hp' & Hfit'). destruct (put_glyph _ _ _ _) as [dst' curlen'].
    rewrite utf8_glyph_cons, app_assoc. by apply IH.
Qed.

Lemma utf16_pair g :
  0x10000 <= g < 0x110000 ->
  let h := 0xD800 + Z.shiftr (g - 0x10000) 10 in
  let l := 0xDC00 + Z.land (g - 0x10000) 0x3FF in
  0xD800 <= h <= 0xDFFF /\ 0 <= l < 2 ^ 16 /\
  Z.lor (Z.shiftl (Z.land h 0x3FF) 10) (Z.land l 0x3FF) + 0x10000 = g.
Proof.
  intros Hg h l. set (v := g - 0x10000) in *.
  assert (Z.shiftr v 10 = v / 1024) as Eh by (by rewrite Z.shiftr_div_pow2).
  assert (forall x, Z.land x 0x3FF = x mod 1024) as Hland
    by (intros x; change 0x3FF with (Z.ones 10); by rewrite Z.land_ones).
  assert (0 <= v / 1024 < 1024) by (split; [apply Z.div_pos|apply Z.div_lt_upper_bound]; lia).
  assert (0 <= v mod 1024 < 1024) by (apply Z.mod_pos_bound; lia).
  unfold h, l. rewrite Eh, !Hland. split; [lia|]. split; [change (2 ^ 16) with 65536; lia|].
  replace ((0xD800 + v / 1024) mod 1024) with (v / 1024).
  2: { apply (Z.mod_unique_pos _ _ 54); lia. }
  replace ((0xDC00 + v mod 1024) mod 1024) with (v mod 1024).
  2: { apply (Z.mod_unique_pos _ _ 55); lia. }
  assert (Z.lor (Z.shiftl (v / 1024) 10) (v mod 1024) = v) as ->; [|unfold v; lia].
  rewrite <- Eh. change (v mod 1024) with (wrap 10 v). zbits i.
  replace (i - 10 + 10) with i by lia. split_bits.
Qed.

(** The units of one code point. *)
Lemma utf16_loop_glyphs capacity (swap : bool) glyphs dst curlen s :
  Forall (fun g => scalar g /\ g <> 0xFFFE) glyphs -> placed capacity (dst, curlen) s -> len s + len (utf8 (visible glyphs)) < Z.of_nat capacity ->
  placed capacity (utf16_loop (Z.of_nat capacity) swap (map (swap_if swap 2) (concat (map utf16_units glyphs))) dst curlen) (s ++ utf8 (visible glyphs)).
Proof.
  intros Hg. revert dst curlen s. induction Hg as [|g glyphs [[Hr Hsur] Hf] Hg IH]; intros dst curlen s Hp Hfit; [by rewrite app_nil_r|].
  rewrite visible_cons in *. pose proof Hp as (_ & Hc & _ & Hlt). cbn [snd] in Hc. assert (2 ^ (8 * Z.of_nat 2) = 65536) as E16 by done. cbn [map concat]. rewrite map_app.
  assert (swap_if swap 2 0xFEFF = (if swap then 0xFFFE else 0xFEFF) /\ swap_if swap 2 0xFFFE = (if swap then 0xFEFF else 0xFFFE)) as [E1 E2] by (by destruct swap).
  unfold utf16_units at 1. destruct (Z.ltb_spec g 0x10000) as [Hlo|Hhi].
  - cbn [map app utf16_loop]. rewrite (proj2 (Z.ltb_lt curlen _)) by lia. rewrite !swap_if_mark by lia. rewrite E1, E2. unfold byteorder_swap16. rewrite swap_if_twice by lia. case_decide as Hb.
    + subst g. replace ((0xFEFF =? (if swap then 0xFEFF else 0xFFFE)) || (0xFEFF =? (if swap then 0xFFFE else 0xFEFF))) with true by (by destruct swap).
      replace (negb (0xFEFF =? (if swap then 0xFFFE else 0xFEFF))) with swap by (by destruct swap). by apply IH.
    + replace ((g =? (if swap then 0xFEFF else 0xFFFE)) || (g =? (if swap then 0xFFFE else 0xFEFF))) with false by (destruct swap; lia).
      replace ((0xD800 <=? g) && (g <=? 0xDFFF)) with false by lia.
      destruct (put_glyph_fits capacity dst curlen s g (visible glyphs) Hp Hfit) as (_ & Hp' & Hfit'). destruct (put_glyph _ _ _ _) as [dst' curlen']. rewrite utf8_glyph_cons, app_assoc. by apply IH.
  - rewrite decide_False in * by lia. destruct (utf16_pair g ltac:(lia)) as (Hh & Hl & Hj). cbv zeta in Hj. cbn [map app utf16_loop]. rewrite (proj2 (Z.ltb_lt curlen _)) by lia.
    rewrite !swap_if_mark by lia. rewrite E1, E2. unfold byteorder_swap16. rewrite !swap_if_twice by lia.
    set (h := 0xD800 + Z.shiftr (g - 0x10000) 10) in *. replace ((h =? (if swap then 0xFEFF else 0xFFFE)) || (h =? (if swap then 0xFFFE else 0xFEFF))) with false by (destruct swap; lia).
    replace ((0xD800 <=? h) && (h <=? 0xDFFF)) with true by lia. rewrite Hj.
    destruct (put_glyph_fits capacity dst curlen s g (visible glyphs) Hp Hfit) as (_ & Hp' & Hfit'). destruct (put_glyph _ _ _ _) as [dst' curlen']. rewrite utf8_glyph_cons, app_assoc. by apply IH.
Qed.

Lemma length_utf8 glyphs : (length glyphs <= length (utf8 glyphs))%nat.
Proof.
  induction glyphs as [|g glyphs IH]; [done|]. rewrite utf8_glyph_cons, length_app. pose proof (len_encode_utf8 g) as E. pose proof (bytes_count_pos g). unfold len in E. simpl. lia.
Qed.

(** The number of code points of their UTF-8 form. *)
Lemma lead_count g : 0 <= g < 2 ^ 31 -> exists lead rest, encode_utf8 g = lead :: rest /\ get_utf8_bytes_count lead = len (encode_utf8 g).
Proof.
  intros H. destruct (decide (g < 0x80)) as [Hlt|Hge].
  - unfold encode_utf8. replace (g <? 0x80) with true by lia. exists g, []. split; [done|].
    pose proof (forallb_forall (fun g => get_utf8_bytes_count g =? 1) (seqZ 0 0x80)) as [F _]. specialize (F ltac:(by vm_compute) g ltac:(apply list_elem_of_In, elem_of_seqZ; lia)). unfold len. simpl. lia.
  - destruct (encode_utf8_form g H) as (m & E & Hc & Hm & Hs); [lia|]. rewrite encode_utf8_length, Hc by done. rewrite E. do 2 eexists. split; [done|]. by apply lead_byte_spec.
Qed.

Lemma glyphs_loop_utf8 fuel glyphs num : Forall (fun g => 0 <= g < 2 ^ 31) glyphs -> (length glyphs <= fuel)%nat -> glyphs_loop fuel (utf8 glyphs) num = Some (num + len glyphs).
Proof.
  intros Hg. revert fuel num. induction Hg as [|g glyphs H Hg IH]; intros fuel num Hf.
  - destruct fuel; cbn; f_equal; unfold len; simpl; lia.
  - rewrite utf8_glyph_cons. destruct (lead_count g H) as (lead & rest & E & Hc). destruct fuel as [|fuel]; cbn [length] in Hf; [lia|]. rewrite E. cbn [app glyphs_loop].
    change (lead :: rest ++ utf8 glyphs) with ((lead :: rest) ++ utf8 glyphs). rewrite <- E, Hc. unfold len at 1. rewrite Nat2Z.id, drop_app_length, IH by lia. f_equal. unfold len. simpl. lia.
Qed.

(** C13: text in UTF-32 and in UTF-16, surrogate pairs included, in the byte
    order of the machine or, behind a byte order mark, in the other one,
    converts to UTF-8 in a buffer with room for it and its terminator.  Read
    back glyph by glyph it is the code points of the text without U+FEFF, which
    the code takes for a byte order mark wherever it is; [string_glyphs] is
    their number.  The text may be any code points but the surrogates and
    U+FFFE, a mark too. *)
Theorem string_convert_roundtrip dst (swap : bool) glyphs :
  Forall (fun g => scalar g /\ g <> 0xFFFE) glyphs -> len (utf8 (visible glyphs)) < len dst ->
  let '(buf32, n32) := string_convert_utf32 dst (utf32_text swap glyphs) in
  let '(buf16, n16) := string_convert_utf16 dst (utf16_text swap glyphs) in
  n32 = n16 /\ sub buf32 0 n32 = sub buf16 0 n16 /\
  read_glyphs (length (visible glyphs)) (sub buf32 0 n32) 0 = Some (visible glyphs) /\
  string_glyphs (sub buf32 0 n32) = Some (len (visible glyphs)).
Proof.
  intros Hg Hfit. pose proof (len_nonneg (utf8 (visible glyphs))) as Hpos. pose proof (placed_nil dst ltac:(lia)) as Hp.
  assert (Forall scalar glyphs) as Hg' by (eapply Forall_impl; [exact Hg|by intros g []]).
  pose proof (utf32_loop_glyphs _ swap glyphs _ _ _ Hg' Hp Hfit) as H32. pose proof (utf16_loop_glyphs _ swap glyphs _ _ _ Hg Hp Hfit) as H16.
  assert (utf32_loop (len dst) false (utf32_text swap glyphs) dst 0 = utf32_loop (len dst) swap (map (swap_if swap 4) glyphs) dst 0) as E32.
  { unfold utf32_text. destruct swap; [|done]. cbn [app utf32_loop]. by rewrite (proj2 (Z.ltb_lt 0 _)) by lia. }
  assert (utf16_loop (len dst) false (utf16_text swap glyphs) dst 0 = utf16_loop (len dst) swap (map (swap_if swap 2) (concat (map utf16_units glyphs))) dst 0) as E16.
  { unfold utf16_text. destruct swap; [|done]. cbn [app utf16_loop]. by rewrite (proj2 (Z.ltb_lt 0 _)) by lia. }
  unfold string_convert_utf32, string_convert_utf16. rewrite E32, E16. unfold len at 1 2. clear E32 E16.
  destruct (utf32_loop _ _ _ _ _) as [b32 n32]. destruct (utf16_loop _ _ _ _ _) as [b16 n16].
  destruct (placed_terminate _ _ _ H32) as [_ [_ E32]%holds_take%and_comm]. destruct (placed_terminate _ _ _ H16) as [_ [_ E16]%holds_take%and_comm].
  destruct H32 as (_ & Hn32 & _). destruct H16 as (_ & Hn16 & _). cbn [fst snd app] in *. subst n32 n16. rewrite !sub_0. assert (Z.to_nat (len (utf8 (visible glyphs))) = length (utf8 (visible glyphs))) as -> by (unfold len; lia). rewrite E32, E16.
  assert (Forall (fun g => 0 <= g < 2 ^ 31) (visible glyphs)) as Hv.
  { apply Forall_forall. intros g [_ Hin]%list_elem_of_filter. rewrite Forall_forall in Hg'. destruct (Hg' g Hin) as [Hr _]. change (2 ^ 31) with 2147483648. lia. }
  split; [done|]. split; [done|]. split; [by apply (read_glyphs_utf8 _ (visible glyphs) [])|]. unfold string_glyphs. rewrite glyphs_loop_utf8; [done|done|apply length_utf8].
Qed.

(** ["A", a zero width no-break space, a euro sign and an emoji], in the other byte order. *)
Lemma string_convert_roundtrip_witness :
  utf16_text true [0x41; 0xFEFF; 0x20AC; 0x1F600] = [0xFFFE; 0x4100; 0xFFFE; 0xAC20; 0x3DD8; 0x00DE] /\
  let '(buf32, n32) := string_convert_utf32 (replicate 20 1) (utf32_text true [0x41; 0xFEFF; 0x20AC; 0x1F600]) in
  let '(buf16, n16) := string_convert_utf16 (replicate 20 1) (utf16_text true [0x41; 0xFEFF; 0x20AC; 0x1F600]) in
  n32 = n16 /\ sub buf32 0 n32 = sub buf16 0 n16 /\
  read_glyphs 3 (sub buf32 0 n32) 0 = Some [0x41; 0x20AC; 0x1F600] /\ string_glyphs (sub buf32 0 n32) = Some 3.
Proof.
  split; [done|]. apply (string_convert_roundtrip (replicate 20 1) true [0x41; 0xFEFF; 0x20AC; 0x1F600]); [|done].
  repeat constructor; unfold scalar; lia.
Defined.

End StrBuf.
