(* ===== verification/StrNum.v ===== *)
(** * Numbers as text ([foundation/string.c])

    The conversions go through [snprintf] and the [strtol] family of the C
    library, which are modelled here for the conversions the source asks for;
    [unsigned long] and [unsigned long long] have 64 bits. *)
From S2P Require Import Prelude Str StrBuf.

Module StrNum.
Import Str StrBuf.

(** ** The C library *)

Definition digit_char (d : Z) : Z := if d <? 10 then 48 + d else 87 + d.

Fixpoint digits (base : Z) (fuel : nat) (n : Z) : list Z :=
  match fuel with
  | O => []
  | S fuel => (if n / base =? 0 then [] else digits base fuel (n / base)) ++ [digit_char (n mod base)]
  end.

(** [%u], [%x] and [%d] of a 64-bit value, and [%016x]. *)
Definition print_u (base n : Z) : list Z := digits base 64 n.
Definition print_d (n : Z) : list Z := if n <? 0 then 45 :: print_u 10 (- n) else print_u 10 n.
Definition print_x16 (n : Z) : list Z :=
  let s := print_u 16 n in replicate (16 - length s) 48 ++ s.

(** [snprintf(buffer, capacity, ...)] of a text: the buffer and the length of
    the whole text. *)
Definition snprintf (buffer text : list Z) : list Z * Z := (fst (string_copy buffer text), len text).

Definition digit_val (c : Z) : option Z :=
  if (48 <=? c) && (c <=? 57) then Some (c - 48)
  else if (97 <=? c) && (c <=? 102) then Some (c - 87)
  else if (65 <=? c) && (c <=? 70) then Some (c - 55)
  else None.

Definition digit_in (base c : Z) : option Z :=
  match digit_val c with Some d => if d <? base then Some d else None | None => None end.

Fixpoint parse_digits (base : Z) (s : list Z) (acc : Z) : Z :=
  match s with
  | [] => acc
  | c :: s =>
      match digit_in base c with
      | Some d => parse_digits base s (acc * base + d)
      | None => acc
      end
  end.

Definition isspace (c : Z) : bool := (c =? 32) || ((9 <=? c) && (c <=? 13)).

Fixpoint skip_space (s : list Z) : list Z :=
  match s with
  | [] => []
  | c :: s' => if isspace c then skip_space s' else s
  end.

(** The optional [0x] of base 16. *)
Definition skip_prefix (base : Z) (s : list Z) : list Z :=
  match s with
  | 48 :: x :: c :: s' =>
      if (base =? 16) && ((x =? 120) || (x =? 88)) && bool_decide (is_Some (digit_in 16 c))
      then c :: s' else s
  | _ => s
  end.

(** The sign and the magnitude of the number at the start of a string. *)
Definition parse_number (base : Z) (s : list Z) : bool * Z :=
  match skip_space s with
  | 45 :: s => (true, parse_digits base (skip_prefix base s) 0)
  | 43 :: s => (false, parse_digits base (skip_prefix base s) 0)
  | s => (false, parse_digits base (skip_prefix base s) 0)
  end.

Definition strtoull (base : Z) (s : list Z) : Z :=
  let '(neg, v) := parse_number base s in
  if 2 ^ 64 <=? v then 2 ^ 64 - 1 else if neg then u64 (- v) else v.

Definition strtoll (base : Z) (s : list Z) : Z :=
  let '(neg, v) := parse_number base s in
  let v := if neg then - v else v in
  Z.max (- 2 ^ 63) (Z.min v (2 ^ 63 - 1)).

(** ** string.c *)

(** The part of [string_from_int] and [string_from_uint] behind the print. *)
Definition pad_number (buffer : list Z) (capacity len_ width fill : Z) : list Z * Z :=
  if capacity <=? len_ then (terminate buffer (capacity - 1), capacity - 1)
  else
    let width := if capacity <=? width then capacity - 1 else width in
    if len_ <? width then
      let diff := width - len_ in
      let buffer := write_at (Z.to_nat diff) (sub buffer 0 (len_ + 1)) buffer in
      (write_at 0 (replicate (Z.to_nat diff) fill) buffer, width)
    else (buffer, len_).

Definition string_from_int (buffer : list Z) (val width fill : Z) : list Z * Z :=
  if len buffer =? 0 then (buffer, 0)
  else
    let '(buf, len_) := snprintf buffer (print_d val) in
    pad_number buf (len buffer) len_ width fill.

Definition string_from_uint (buffer : list Z) (val : Z) (hex : bool) (width fill : Z) : list Z * Z :=
  if len buffer =? 0 then (buffer, 0)
  else
    let '(buf, len_) := snprintf buffer (print_u (if hex then 16 else 10) val) in
    pad_number buf (len buffer) len_ width fill.

(** The 128, 256 and 512 bit versions differ in the number of words. *)
Definition from_words (buffer : list Z) (words : list Z) : list Z * Z :=
  if len buffer =? 0 then (buffer, 0)
  else
    let '(buf, len_) := snprintf buffer (concat (map print_x16 words)) in
    if len buffer <=? len_ then (terminate buf (len buffer - 1), len buffer - 1) else (buf, len_).

Definition string_from_uint128 (buffer words : list Z) := from_words buffer words.
Definition string_from_uint256 (buffer words : list Z) := from_words buffer words.
Definition string_from_uint512 (buffer words : list Z) := from_words buffer words.

(** [char buf[n]; string_copy(buf, sizeof(buf), val, length)] *)
Definition local_copy (n : nat) (val : list Z) : list Z :=
  let '(buf, length) := string_copy (replicate n 0) val in sub buf 0 length.

Definition string_to_int (val : list Z) : Z :=
  if 0 <? len val then sint 32 (strtoll 10 (local_copy 16 val)) else 0.
Definition string_to_uint (val : list Z) (hex : bool) : Z :=
  if 0 <? len val then u32 (strtoull (if hex then 16 else 10) (local_copy 16 val)) else 0.
Definition string_to_int64 (val : list Z) : Z :=
  if 0 <? len val then strtoll 10 (local_copy 32 val) else 0.
Definition string_to_uint64 (val : list Z) (hex : bool) : Z :=
  if 0 <? len val then strtoull (if hex then 16 else 10) (local_copy 32 val) else 0.

Definition STRING_HEX : list Z :=
  [48;49;50;51;52;53;54;55;56;57;97;98;99;100;101;102;65;66;67;68;69;70].

(** The do-while loop: [iword] words are left, the word before them is set by
    [sscanf] from at most sixteen digits. *)
Fixpoint words_loop (iword : nat) (buf : list Z) (ofs : Z) (words : list Z) : list Z :=
  match iword with
  | O => words
  | S iword =>
      let '(buf, ofs) :=
        if ofs <=? 16 then (take (Z.to_nat ofs) buf, 0) else (buf, ofs - 16) in
      let text := sub buf ofs 16 in
      let words :=
        match text with
        | [] => words
        | _ => <[iword := parse_digits 16 text 0]> words
        end in
      if 0 <? ofs then words_loop iword buf ofs words else words
  end.

Definition to_words (nwords : nat) (val : list Z) : list Z :=
  let buf := local_copy (16 * nwords + 1) val in
  let ofs := string_find_first_not_of buf STRING_HEX 0 in
  let ofs := if ofs =? NPOS then len buf else ofs in
  words_loop nwords buf ofs (replicate nwords 0).

Definition string_to_uint128 := to_words 2.
Definition string_to_uint256 := to_words 4.
Definition string_to_uint512 := to_words 8.

Example number_examples :
  sub (fst (string_from_int (replicate 10 1) (-42) 6 48)) 0 6 = [48;48;48;45;52;50] /\
  string_to_int [32;45;52;50;120] = -42 /\ string_to_uint [102;70] true = 255 /\
  string_to_uint64 [48;120;49;48] true = 16 /\
  string_to_uint128 (replicate 16 49 ++ [50]) = [1; 0x1111111111111112] /\
  print_x16 255 = [48;48;48;48;48;48;48;48;48;48;48;48;48;48;102;102].
Proof. vm_compute. done. Qed.
(** ** Digits *)

Definition base_ok (base : Z) : Prop := base = 10 \/ base = 16.

Lemma digit_in_char base d :
  base_ok base -> 0 <= d < base -> digit_in base (digit_char d) = Some d.
Proof.
  intros Hb Hd. assert (forall d, d ∈ seqZ 0 base -> digit_in base (digit_char d) = Some d) as H;
    [|apply H, elem_of_seqZ; lia]. apply Forall_forall.
  destruct Hb as [-> | ->]; (apply (bool_decide_unpack _); vm_compute; done).
Qed.

Lemma digits_chars base fuel n :
  base_ok base -> 0 <= n -> Forall (fun c => exists d, 0 <= d < base /\ c = digit_char d) (digits base fuel n).
Proof.
  intros Hb. revert n. induction fuel as [|fuel IH]; intros n Hn; [constructor|]. simpl.
  assert (0 < base) by (destruct Hb; lia). apply Forall_app. split.
  - destruct (_ =? 0); [constructor|]. apply IH. apply Z.div_pos; lia.
  - constructor; [|constructor]. eexists. split; [|done]. apply Z.mod_pos_bound. lia.
Qed.

(** Parsing the digits of a number gives the number. *)
Lemma parse_digits_print base fuel n rest :
  base_ok base -> 0 <= n < base ^ Z.of_nat fuel ->
  parse_digits base (digits base fuel n ++ rest) 0 = parse_digits base rest n.
Proof.
  intros Hb. assert (0 < base) as Hpos by (destruct Hb; lia). revert n rest.
  induction fuel as [|fuel IH]; intros n rest Hn.
  - change (base ^ Z.of_nat 0) with (base ^ 0) in Hn. rewrite Z.pow_0_r in Hn. by replace n with 0 by lia.
  - cbn [digits]. pose proof (Z.mod_pos_bound n base Hpos).
    pose proof (Z.div_mod n base ltac:(lia)) as Hdm.
    assert (forall a, parse_digits base (digit_char (n mod base) :: rest) a =
      parse_digits base rest (a * base + n mod base)) as Hone.
    { intros a. simpl. by rewrite digit_in_char. }
    destruct (n / base =? 0) eqn:E; cbn [app].
    + rewrite Hone. f_equal. lia.
    + rewrite <- app_assoc. cbn [app]. rewrite IH.
      * rewrite Hone. f_equal. lia.
      * split; [apply Z.div_pos; lia|]. apply Z.div_lt_upper_bound; [lia|].
        replace (Z.of_nat (S fuel)) with (1 + Z.of_nat fuel) in Hn by lia.
        rewrite Z.pow_add_r, Z.pow_1_r in Hn by lia. lia.
Qed.

Lemma digits_length base fuel n (k : nat) :
  0 < base -> 0 <= n < base ^ Z.of_nat k -> (1 <= k)%nat -> (length (digits base fuel n) <= k)%nat.
Proof.
  intros Hb. revert n k. induction fuel as [|fuel IH]; intros n k Hn Hk; simpl; [lia|].
  rewrite length_app. simpl. destruct (n / base =? 0) eqn:E; [simpl; lia|].
  destruct k as [|[|k]]; [lia| |].
  - change (Z.of_nat 1) with 1 in Hn. rewrite Z.pow_1_r in Hn. rewrite Z.div_small in E by lia. done.
  - specialize (IH (n / base) (S k)). assert (length (digits base fuel (n / base)) <= S k)%nat; [|lia].
    apply IH; [|lia]. split; [apply Z.div_pos; lia|]. apply Z.div_lt_upper_bound; [lia|].
    replace (Z.of_nat (S (S k))) with (1 + Z.of_nat (S k)) in Hn by lia.
    rewrite Z.pow_add_r, Z.pow_1_r in Hn by lia. lia.
Qed.

Lemma digits_nonempty base fuel n : (0 < fuel)%nat -> digits base fuel n <> [].
Proof. destruct fuel; [lia|]. simpl. intros _ E. by apply app_nil in E as [_ ?]. Qed.

Lemma print_u_value base n rest :
  base_ok base -> 0 <= n < 2 ^ 64 ->
  parse_digits base (print_u base n ++ rest) 0 = parse_digits base rest n.
Proof.
  intros Hb Hn. apply parse_digits_print; [done|]. split; [lia|].
  eapply Z.lt_le_trans; [apply Hn|]. destruct Hb as [-> | ->]; by vm_compute.
Qed.

(** A digit string starts with a digit and has no [x] in it. *)
Lemma digit_char_cases base d : base_ok base -> 0 <= d < base ->
  let c := digit_char d in isspace c = false /\ c <> 45 /\ c <> 43 /\ c <> 120 /\ c <> 88 /\ c <> 0.
Proof.
  intros Hb Hd. assert (0 <= d < 16) by (destruct Hb; lia). unfold digit_char, isspace.
  cbn zeta. destruct (d <? 10) eqn:E; repeat split; lia.
Qed.

Lemma skip_prefix_digits base s :
  Forall (fun c => c <> 120 /\ c <> 88) s -> skip_prefix base s = s.
Proof.
  intros H. unfold skip_prefix. destruct s as [|a [|x [|c s]]]; try done; repeat case_match; try done.
  inversion H as [|? ? _ H']; subst. inversion H' as [|? ? [? ?] _]; subst.
  match goal with E : _ && _ = true |- _ => rewrite !andb_true_iff, orb_true_iff in E end. lia.
Qed.

Lemma parse_number_digits base s :
  base_ok base -> s <> [] -> Forall (fun c => exists d, 0 <= d < base /\ c = digit_char d) s ->
  parse_number base s = (false, parse_digits base s 0) /\
  parse_number base (45 :: s) = (true, parse_digits base s 0).
Proof.
  intros Hb Hne Hs. assert (skip_prefix base s = s) as Hsp.
  { apply skip_prefix_digits. eapply Forall_impl; [exact Hs|]. intros c (d & Hd & ->).
    by destruct (digit_char_cases base d Hb Hd) as (_ & _ & _ & ? & ? & _). }
  destruct s as [|c s]; [done|]. inversion Hs as [|? ? (d & Hd & Ec) _]; subst.
  destruct (digit_char_cases base d Hb Hd) as (Hsp' & H45 & H43 & _).
  unfold parse_number. cbn [skip_space]. rewrite Hsp'. change (isspace 45) with false. cbn iota.
  rewrite Hsp. split; [|done].
  destruct (digit_char d) as [|p|p]; [by rewrite Hsp| |by rewrite Hsp].
  repeat (destruct p as [p|p|]; try (by rewrite Hsp); try lia).
Qed.

(** ** Round trips *)

(** A text that fits is stored whole. *)
Lemma copy_whole buffer text :
  len text < len buffer ->
  let buf := fst (string_copy buffer text) in len buf = len buffer /\ sub buf 0 (len text) = text.
Proof.
  intros H buf. pose proof (len_nonneg text).
  pose proof (string_copy_result buffer text ltac:(lia)) as Hr. subst buf.
  destruct (string_copy buffer text) as [buf n]. destruct Hr as (Hl & _ & Hh). cbn [fst].
  rewrite take_ge in Hh by (unfold len in *; lia). apply holds_take in Hh as [Hh _].
  split; [unfold len; lia|]. rewrite sub_0. unfold len. by rewrite Nat2Z.id.
Qed.

Lemma local_copy_whole n text : (length text < n)%nat -> local_copy n text = text.
Proof.
  intros H. unfold local_copy.
  assert (len (replicate n 0) = Z.of_nat n) as Hn by (unfold len; by rewrite length_replicate).
  pose proof (copy_whole (replicate n 0) text ltac:(unfold len in *; lia)) as [_ Hc].
  pose proof (string_copy_result (replicate n 0) text ltac:(lia)) as Hr.
  destruct (string_copy _ text) as [buf m]. destruct Hr as (_ & -> & _). cbn [fst] in Hc.
  by rewrite take_ge by (unfold len in *; lia).
Qed.

Lemma pad_number_none buf capacity n fill : n < capacity -> 0 <= n -> pad_number buf capacity n 0 fill = (buf, n).
Proof.
  intros H Hn. unfold pad_number. replace (capacity <=? n) with false by lia.
  replace (capacity <=? 0) with false by lia. by replace (n <? 0) with false by lia.
Qed.

Lemma print_u_length base n :
  base_ok base -> 0 <= n < 2 ^ 64 -> (1 <= length (print_u base n) <= 20)%nat.
Proof.
  intros Hb Hn. split.
  - destruct (print_u base n) eqn:E; [by apply digits_nonempty in E; lia|simpl; lia].
  - apply digits_length; [destruct Hb; lia| |lia]. split; [lia|].
    eapply Z.lt_le_trans; [apply Hn|]. destruct Hb as [-> | ->]; by vm_compute.
Qed.

Lemma strto_print_u base n :
  base_ok base -> 0 <= n < 2 ^ 64 ->
  parse_number base (print_u base n) = (false, n) /\ parse_number base (45 :: print_u base n) = (true, n).
Proof.
  intros Hb Hn. pose proof (print_u_length base n Hb Hn).
  destruct (parse_number_digits base (print_u base n)) as [-> ->]; [done| |apply digits_chars; [done|lia]|].
  - intros E. rewrite E in H. simpl in H. lia.
  - rewrite <- (app_nil_r (print_u base n)). by rewrite print_u_value.
Qed.

Lemma strtoll_print_d n : - 2 ^ 63 <= n < 2 ^ 63 -> strtoll 10 (print_d n) = n.
Proof.
  intros Hn. assert (2 ^ 64 = 2 * 2 ^ 63) as E64 by done. unfold strtoll, print_d.
  destruct (n <? 0) eqn:E.
  - destruct (strto_print_u 10 (- n)) as [_ ->]; [by left|lia|]. lia.
  - destruct (strto_print_u 10 n) as [-> _]; [by left|lia|]. lia.
Qed.

(** Bounds of the printed decimal numbers, for the fixed buffers of clients. *)
Lemma print_d_facts v k :
  (1 <= k <= 19)%nat -> - 10 ^ Z.of_nat k < v < 10 ^ Z.of_nat k -> - 2 ^ 63 <= v < 2 ^ 63 ->
  (1 <= length (print_d v) <= k + 1)%nat /\ (0 <= v -> print_d v = print_u 10 v) /\
  Forall (fun c => c = 45 \/ exists d, 0 <= d < 10 /\ c = digit_char d) (print_d v).
Proof.
  intros Hk Hv Hr. assert (2 ^ 64 = 2 * 2 ^ 63) as E64 by done. unfold print_d.
  assert (forall n, 0 <= n -> Forall (fun c => c = 45 \/ exists d, 0 <= d < 10 /\ c = digit_char d) (print_u 10 n)) as Hd.
  { intros n Hn. eapply Forall_impl; [apply digits_chars; [by left|done]|]. intros c Hc. by right. }
  destruct (v <? 0) eqn:E.
  - split; [|split; [lia|constructor; [by left|apply Hd; lia]]].
    cbn [length]. assert (length (print_u 10 (- v)) <= k)%nat; [apply digits_length; lia|lia].
  - split; [|split; [done|apply Hd; lia]].
    pose proof (print_u_length 10 v (or_introl eq_refl) ltac:(lia)).
    assert (length (print_u 10 v) <= k)%nat; [apply digits_length; lia|lia].
Qed.

Lemma string_from_int_whole buffer v fill :
  22 <= len buffer -> - 2 ^ 63 <= v < 2 ^ 63 ->
  let '(buf, n) := string_from_int buffer v 0 fill in sub buf 0 n = print_d v.
Proof.
  intros Hb Hv. unfold string_from_int, snprintf. replace (len buffer =? 0) with false by lia.
  assert (1 <= length (print_d v) <= 20)%nat as Hl.
  { apply (print_d_facts v 19); [lia| |done]. change (10 ^ Z.of_nat 19) with 10000000000000000000.
    change (2 ^ 63) with 9223372036854775808 in Hv. lia. }
  destruct (copy_whole buffer (print_d v)) as [_ E]; [unfold len in *; lia|].
  by rewrite pad_number_none by (unfold len in *; lia).
Qed.

Lemma string_from_uint_whole buffer v (hex : bool) fill :
  22 <= len buffer -> 0 <= v < 2 ^ 64 ->
  let '(buf, n) := string_from_uint buffer v hex 0 fill in sub buf 0 n = print_u (if hex then 16 else 10) v.
Proof.
  intros Hb Hv. unfold string_from_uint, snprintf. replace (len buffer =? 0) with false by lia.
  set (base := if hex then 16 else 10). assert (base_ok base) as Hbase by (unfold base; destruct hex; [by right|by left]).
  pose proof (print_u_length base v Hbase Hv) as Hl.
  destruct (copy_whole buffer (print_u base v)) as [_ E]; [unfold len in *; lia|].
  by rewrite pad_number_none by (unfold len in *; lia).
Qed.

Lemma string_to_int64_print v : - 2 ^ 63 <= v < 2 ^ 63 -> string_to_int64 (print_d v) = v.
Proof.
  intros Hv. assert (1 <= length (print_d v) <= 20)%nat as Hl.
  { apply (print_d_facts v 19); [lia| |done]. change (10 ^ Z.of_nat 19) with 10000000000000000000.
    change (2 ^ 63) with 9223372036854775808 in Hv. lia. }
  unfold string_to_int64. replace (0 <? len (print_d v)) with true by (unfold len; lia).
  rewrite local_copy_whole by lia. by apply strtoll_print_d.
Qed.

Lemma strtoull_print_u base v : base_ok base -> 0 <= v < 2 ^ 64 -> strtoull base (print_u base v) = v.
Proof.
  intros Hb Hv. unfold strtoull. destruct (strto_print_u base v Hb Hv) as [-> _].
  by replace (2 ^ 64 <=? v) with false by lia.
Qed.

Lemma string_to_uint64_print v (hex : bool) :
  0 <= v < 2 ^ 64 -> string_to_uint64 (print_u (if hex then 16 else 10) v) hex = v.
Proof.
  intros Hv. set (base := if hex then 16 else 10).
  assert (base_ok base) as Hbase by (unfold base; destruct hex; [by right|by left]).
  pose proof (print_u_length base v Hbase Hv) as Hl. unfold string_to_uint64.
  replace (0 <? len (print_u base v)) with true by (unfold len; lia).
  rewrite local_copy_whole by lia. by apply strtoull_print_u.
Qed.

Lemma string_to_int_print v : - 2 ^ 31 <= v < 2 ^ 31 -> string_to_int (print_d v) = v.
Proof.
  intros Hv. assert (- 2 ^ 63 <= v < 2 ^ 63) as Hv2.
  { change (2 ^ 31) with 2147483648 in Hv. change (2 ^ 63) with 9223372036854775808. lia. }
  destruct (print_d_facts v 10) as (Hl & _); [lia| |done|].
  { change (10 ^ Z.of_nat 10) with 10000000000. change (2 ^ 31) with 2147483648 in Hv. lia. }
  unfold string_to_int. replace (0 <? len (print_d v)) with true by (unfold len; lia).
  rewrite local_copy_whole, strtoll_print_d by (done || lia). apply sint_small; [lia|done].
Qed.

Lemma string_to_uint_print v : 0 <= v < 2 ^ 32 -> string_to_uint (print_u 10 v) false = v.
Proof.
  intros Hv. assert (0 <= v < 2 ^ 64) as Hv2 by (change (2 ^ 64) with (2 ^ 32 * 2 ^ 32); lia).
  pose proof (print_u_length 10 v (or_introl eq_refl) Hv2) as Hl.
  assert (length (print_u 10 v) <= 10)%nat as Hl2.
  { apply digits_length; [lia| |lia]. change (10 ^ Z.of_nat 10) with 10000000000.
    change (2 ^ 32) with 4294967296 in Hv. lia. }
  unfold string_to_uint. replace (0 <? len (print_u 10 v)) with true by (unfold len; lia).
  rewrite local_copy_whole, strtoull_print_u by (first [exact (or_introl eq_refl)|lia]). by apply wrap_small.
Qed.

(** C27: printing a 64-bit integer, unsigned in decimal or hexadecimal or signed
    in decimal, into a buffer of at least 22 bytes and parsing the text returns
    the integer. *)
Theorem string_number_roundtrip buffer v hex fill :
  22 <= len buffer ->
  (0 <= v < 2 ^ 64 ->
   let '(buf, n) := string_from_uint buffer v hex 0 fill in string_to_uint64 (sub buf 0 n) hex = v) /\
  (- 2 ^ 63 <= v < 2 ^ 63 ->
   let '(buf, n) := string_from_int buffer v 0 fill in string_to_int64 (sub buf 0 n) = v).
Proof.
  intros Hb. split; intros Hv.
  - pose proof (string_from_uint_whole buffer v hex fill Hb Hv) as E.
    destruct (string_from_uint _ _ _ _ _) as [buf n]. rewrite E. by apply string_to_uint64_print.
  - pose proof (string_from_int_whole buffer v fill Hb Hv) as E.
    destruct (string_from_int _ _ _ _) as [buf n]. rewrite E. by apply string_to_int64_print.
Qed.

Lemma string_number_roundtrip_witness :
  (0 <= 255 < 2 ^ 64 ->
   let '(buf, n) := string_from_uint (replicate 32 0) 255 true 0 0 in string_to_uint64 (sub buf 0 n) true = 255) /\
  (- 2 ^ 63 <= 255 < 2 ^ 63 ->
   let '(buf, n) := string_from_int (replicate 32 0) 255 0 0 in string_to_int64 (sub buf 0 n) = 255).
Proof. apply (string_number_roundtrip (replicate 32 0) 255 true 0). vm_compute. done. Defined.

(** ** Words of 64 bits *)

Lemma scan_none p s offset : Forall (fun c => p c = false) s -> scan p s offset = NPOS.
Proof. intros H. revert offset. induction H as [|c s Hc _ IH]; intros offset; [done|]. simpl. by rewrite Hc. Qed.

Lemma hex_token c : (exists d, 0 <= d < 16 /\ c = digit_char d) -> is_token STRING_HEX c = true.
Proof.
  intros (d & Hd & ->). assert (forall d, d ∈ seqZ 0 16 -> is_token STRING_HEX (digit_char d) = true) as H.
  { apply Forall_forall. apply (bool_decide_unpack _). vm_compute. done. }
  apply H, elem_of_seqZ. lia.
Qed.

Lemma print_x16_spec n :
  0 <= n < 2 ^ 64 ->
  length (print_x16 n) = 16%nat /\ parse_digits 16 (print_x16 n) 0 = n /\
  Forall (fun c => is_token STRING_HEX c = true) (print_x16 n).
Proof.
  intros Hn. unfold print_x16. set (s := print_u 16 n).
  assert (length s <= 16)%nat as Hl by (apply digits_length; [lia|exact Hn|lia]).
  split; [|split].
  - rewrite length_app, length_replicate. lia.
  - assert (forall k, parse_digits 16 (replicate k 48 ++ s) 0 = parse_digits 16 s 0) as E
      by (induction k; [done|simpl; done]).
    rewrite E. unfold s. rewrite <- (app_nil_r (print_u 16 n)). rewrite print_u_value; [done|by right|done].
  - apply Forall_app. split.
    + apply Forall_replicate. apply hex_token. by exists 0.
    + eapply Forall_impl; [apply digits_chars; [by right|lia]|]. apply hex_token.
Qed.

Definition words_text (words : list Z) : list Z := concat (map print_x16 words).

Lemma words_text_spec words :
  Forall (fun v => 0 <= v < 2 ^ 64) words ->
  length (words_text words) = (16 * length words)%nat /\
  Forall (fun c => is_token STRING_HEX c = true) (words_text words) /\
  forall k, (k < length words)%nat ->
    take 16 (drop (16 * k) (words_text words)) = print_x16 (words !!! k).
Proof.
  unfold words_text. induction 1 as [|v words Hv _ (IHl & IHh & IHk)].
  - split; [done|]. split; [constructor|]. intros k Hk. simpl in Hk. lia.
  - destruct (print_x16_spec v Hv) as (Hl & _ & Hh). cbn [map concat length].
    split; [rewrite length_app; lia|]. split; [by apply Forall_app|].
    intros [|k] Hk.
    + rewrite drop_0, take_app_le, take_ge by lia. done.
    + rewrite drop_app_ge by lia. rewrite Hl.
      replace (16 * S k - 16)%nat with (16 * k)%nat by lia. apply IHk. lia.
Qed.

Lemma words_loop_spec words k ws :
  Forall (fun v => 0 <= v < 2 ^ 64) words -> (1 <= k <= length words)%nat -> length ws = length words ->
  words_loop k (words_text words) (Z.of_nat (16 * k)) ws = take k words ++ drop k ws.
Proof.
  intros Hw. destruct (words_text_spec words Hw) as (Hl & _ & Hk). revert ws.
  induction k as [|k IH]; intros ws Hr Hlen; [lia|]. cbn [words_loop].
  assert (forall b, sub b (Z.of_nat (16 * k)) 16 = print_x16 (words !!! k) ->
    match sub b (Z.of_nat (16 * k)) 16 with [] => ws | _ => <[k := parse_digits 16 (sub b (Z.of_nat (16 * k)) 16) 0]> ws end
    = <[k := words !!! k]> ws) as Hstep.
  { intros b E. rewrite E. assert (0 <= words !!! k < 2 ^ 64) as Hv.
    { destruct (lookup_lt_is_Some_2 words k) as [v Ev]; [lia|].
      rewrite (list_lookup_total_correct _ _ _ Ev). by eapply Forall_lookup_1 in Hw. }
    destruct (print_x16_spec _ Hv) as (Hlp & -> & _). by destruct (print_x16 _). }
  assert (take k words ++ drop k (<[k:=words !!! k]> ws) = take (S k) words ++ drop (S k) ws) as Hend.
  { destruct (lookup_lt_is_Some_2 words k) as [v Ev]; [lia|]. rewrite (take_S_r _ _ _ Ev).
    rewrite (list_lookup_total_correct _ _ _ Ev), <- app_assoc. f_equal.
    rewrite drop_insert_ge by lia. replace (k - k)%nat with 0%nat by lia.
    destruct (lookup_lt_is_Some_2 ws k) as [x Ex]; [lia|]. by rewrite (drop_S _ _ _ Ex). }
  destruct k as [|k].
  - change (Z.of_nat (16 * 1) <=? 16) with true. cbn iota beta. change (0 <? 0) with false. cbn iota.
    etransitivity; [|exact Hend]. apply (Hstep (take 16 (words_text words))).
    rewrite <- (Hk 0%nat) by lia. unfold sub. change (Z.to_nat (Z.of_nat (16 * 0))) with 0%nat.
    rewrite !drop_0. by rewrite take_take.
  - assert (Z.of_nat (16 * S (S k)) <=? 16 = false) as -> by (apply Z.leb_gt; lia).
    assert (Z.of_nat (16 * S (S k)) - 16 = Z.of_nat (16 * S k)) as -> by lia.
    rewrite Hstep by (unfold sub; rewrite Nat2Z.id; apply Hk; lia).
    assert (0 <? Z.of_nat (16 * S k) = true) as -> by (apply Z.ltb_lt; lia).
    rewrite IH by (rewrite ?length_insert; lia). exact Hend.
Qed.

(** A 128, 256 or 512 bit value printed as hexadecimal words parses back to
    the same words. *)
Theorem string_words_roundtrip buffer words n :
  length words = n -> (1 <= n)%nat -> Z.of_nat (16 * n) < len buffer ->
  Forall (fun v => 0 <= v < 2 ^ 64) words ->
  let '(buf, m) := from_words buffer words in to_words n (sub buf 0 m) = words.
Proof.
  intros Hn H1 Hb Hw. destruct (words_text_spec words Hw) as (Hl & Hh & _).
  unfold from_words, snprintf. replace (len buffer =? 0) with false by lia. fold (words_text words).
  assert (len (words_text words) = Z.of_nat (16 * n)) as Hlen by (unfold len; lia).
  destruct (copy_whole buffer (words_text words)) as [_ E]; [lia|].
  replace (len buffer <=? len (words_text words)) with false by lia. rewrite E. unfold to_words.
  rewrite local_copy_whole by lia.
  assert (string_find_first_not_of (words_text words) STRING_HEX 0 = NPOS) as ->.
  { unfold string_find_first_not_of. replace (len (words_text words) <=? 0) with false by lia.
    change (len STRING_HEX =? 0) with false. cbn iota. rewrite drop_0. apply scan_none.
    eapply Forall_impl; [exact Hh|]. intros c Hc. simpl. by rewrite Hc. }
  rewrite Z.eqb_refl, Hlen. rewrite words_loop_spec by (rewrite ?length_replicate; done || lia).
  rewrite drop_ge, take_ge by (rewrite ?length_replicate; lia). by rewrite app_nil_r.
Qed.

Lemma string_words_roundtrip_witness :
  let '(buf, m) := from_words (replicate 40 0) [1; 0xABCDEF] in to_words 2 (sub buf 0 m) = [1; 0xABCDEF].
Proof.
  apply (string_words_roundtrip (replicate 40 0) [1; 0xABCDEF] 2); [done|lia|done|].
  repeat constructor; lia.
Defined.

End StrNum.
