(* ===== verification/Path.v ===== *)
(** * Paths ([src/library/foundation_lib/foundation/path.c])

    The parts of a path, joining paths in a caller's buffer, and
    [path_clean], which normalises a path in place.  Bytes: ['.'] is 46, ['/']
    47, [':'] 58 and the backslash 92. *)
From S2P Require Import Prelude Str StrBuf.

Module Path.
Import Str StrBuf.

Definition separators : list Z := [47; 92].

(** ** Parts of a path *)

Definition path_protocol (uri : list Z) : option (list Z) :=
  end_ ← string_find_string uri [58; 47; 47] 0;
  if end_ =? NPOS then Some [] else Some (string_substr uri 0 end_).

Definition path_strip_protocol (uri : list Z) : option (list Z) :=
  sepofs ← string_find_string uri [58; 47; 47] 0;
  if negb (sepofs =? NPOS) then
    let has_drive_letter := (sepofs + 4 <? len uri) && (at_ uri (sepofs + 4) =? 58) in
    let sepofs := sepofs + (if has_drive_letter then 3 else 2) in
    Some (string_substr uri sepofs (len uri - sepofs))
  else Some uri.

(** The end of the name without the extension, for the two functions below. *)
Definition name_end (path : list Z) (start : Z) : Z :=
  let end_ := string_rfind path 46 NPOS in
  if (end_ =? 0) || (end_ =? u64 (start + 1)) || (negb (start =? NPOS) && (end_ <? start)) then NPOS else end_.

Definition path_base_file_name (path : list Z) : list Z :=
  if len path =? 0 then []
  else
    let start := string_find_last_of path separators NPOS in
    let end_ := name_end path start in
    if negb (start =? NPOS) then
      string_substr path (u64 (start + 1)) (if negb (end_ =? NPOS) then u64 (end_ - u64 (start + 1)) else NPOS)
    else string_substr path 0 end_.

Definition path_base_file_name_with_directory (path : list Z) : list Z :=
  if len path =? 0 then []
  else
    let start := string_find_last_of path separators NPOS in
    string_substr path 0 (name_end path start).

Definition path_file_extension (path : list Z) : list Z :=
  let start := string_find_last_of path separators NPOS in
  let end_ := string_rfind path 46 NPOS in
  if negb (end_ =? NPOS) && ((start =? NPOS) || (start <? end_))
  then string_substr path (end_ + 1) NPOS else [].

Definition path_file_name (path : list Z) : list Z :=
  let end_ := string_find_last_of path separators NPOS in
  if end_ =? NPOS then path else string_substr path (end_ + 1) NPOS.

(** A separator byte. *)
Definition is_sep (c : Z) : bool := (c =? 47) || (c =? 92).

Definition path_directory_name (path : list Z) : option (list Z) :=
  let end_ := string_find_last_of path separators NPOS in
  if end_ =? 0 then Some [47]
  else if end_ =? NPOS then
    if (2 <=? len path) && (at_ path 1 =? 58) then Some (sub path 0 2) else Some []
  else
    let result := string_substr path 0 end_ in
    (* with the separator behind the result *)
    protocol ← path_protocol (sub path 0 (len result + 1));
    let protocol_length := if negb (len protocol =? 0) then len protocol + 3 else 0 in
    if len result <=? protocol_length then Some (sub path 0 protocol_length)
    else if (protocol_length + 2 <=? len path) && (at_ path (protocol_length + 1) =? 58) then
      if (protocol_length + 3 <=? len path) && (len result <=? protocol_length + 3) && is_sep (at_ path (protocol_length + 2))
      then Some (sub path 0 (protocol_length + 3))
      else if len result <=? protocol_length + 2 then Some (sub path 0 (protocol_length + 2))
      else Some result
    else Some result.

(** A stripped string starts where the whole one does when nothing was stripped. *)
Definition path_subpath (path root : list Z) : option (list Z) :=
  if len root =? 0 then Some path
  else
    testpathstrip ← path_strip_protocol path;
    testrootstrip ← path_strip_protocol root;
    let '(testpath, testroot) :=
      if (len path =? len testpathstrip) || (len root =? len testrootstrip)
      then (testpathstrip, testrootstrip) else (path, root) in
    if len testpath <=? len testroot then Some []
    else if negb (string_equal (sub testpath 0 (len testroot)) testroot) then Some []
    else
      let last := at_ testroot (len testroot - 1) in
      if negb (len testroot =? 0) && negb (last =? 47) && negb (last =? 58) then
        if negb (at_ testpath (len testroot) =? 47) then Some []
        else Some (string_substr testpath (len testroot + 1) NPOS)
      else Some (string_substr testpath (len testroot) NPOS).

(** ** Joining *)

Definition path_append_fragment (dst : list Z) (length : Z) (path : list Z) : list Z * Z :=
  let lastsep := negb (length =? 0) && is_sep (at_ dst (length - 1)) in
  let beginsep := negb (len path =? 0) && is_sep (at_ path 0) in
  let '(dst, length) :=
    if negb lastsep && negb beginsep && negb (length =? 0) && (length + 1 <? len dst)
    then (write_at (Z.to_nat length) [47] dst, length + 1) else (dst, length) in
  let offset := if (lastsep && beginsep) || ((length =? 0) && beginsep) then 1 else 0 in
  string_append dst length (sub path offset (len path - offset)).

(** An empty [path] is read in front of its first byte: [None]. *)
Definition path_prepend_fragment (dst : list Z) (length : Z) (path : list Z) : option (list Z * Z) :=
  if len path =? 0 then None
  else
    let capacity := len dst in
    let beginsep := negb (length =? 0) && is_sep (at_ dst 0) in
    let lastsep := is_sep (at_ path (len path - 1)) in
    let pathlen := if lastsep && beginsep then len path - 1 else len path in
    let offset := if negb lastsep && negb beginsep && negb (length =? 0) then 1 else 0 in
    let dst :=
      if pathlen + offset <? capacity then
        let num := if capacity <=? pathlen + offset + length then capacity - (pathlen + offset) else length in
        let dst := write_at (Z.to_nat (pathlen + offset)) (sub dst 0 num) dst in
        if offset =? 1 then write_at (Z.to_nat pathlen) [47] dst else dst
      else dst in
    let num := if capacity <=? pathlen then capacity - 1 else pathlen in
    let dst := write_at 0 (sub path 0 num) dst in
    let num := pathlen + offset + length in
    let num := if capacity <=? num then capacity - 1 else num in
    Some (terminate dst num, num).

(** The fragments behind the first one; an empty fragment is skipped. *)
Definition path_append_vlist (base : list Z) (base_length : Z) (tail : list Z) (list : list (list Z)) : Datatypes.list Z * Z :=
  foldl (fun '(dst, length) p => if len p =? 0 then (dst, length) else path_append_fragment dst length p)
    (path_append_fragment base base_length tail) list.

Definition path_append := path_append_fragment.

Definition path_prepend_vlist (tail : list Z) (tail_length : Z) (base : list Z) (list : list (list Z)) : option (Datatypes.list Z * Z) :=
  foldl (fun (r : option (Datatypes.list Z * Z)) p =>
           '(dst, length) ← r; if len p =? 0 then Some (dst, length) else path_prepend_fragment dst length p)
    (path_prepend_fragment tail tail_length base) list.

Definition path_prepend := path_prepend_fragment.

Definition path_concat_vlist (dest first : list Z) (list : list (list Z)) : Datatypes.list Z * Z :=
  foldl (fun '(dst, length) p => if len p =? 0 then (dst, length) else path_append_fragment dst length p)
    (if negb (len first =? 0) then string_copy dest first else (dest, 0)) list.

Definition path_concat (dest first second : list Z) : list Z * Z := path_concat_vlist dest first [second].

(** ** Absolute paths *)

Fixpoint absolute_loop (path : list Z) (firstsep : Z) : bool :=
  match path with
  | [] => false
  | c :: path =>
      if c =? 58 then
        if firstsep =? 1 then true else match path with c :: _ => is_sep c | [] => false end
      else if is_sep c then false else absolute_loop path (firstsep + 1)
  end.

Definition path_is_absolute (path : list Z) : bool :=
  match path with
  | [] => false
  | c :: path => if is_sep c then true else absolute_loop path 1
  end.

(** ** The last byte of a kind *)

Lemma path_len_cons (c : Z) (r : list Z) : len (c :: r) = 1 + len r.
Proof. unfold len. cbn [length]. lia. Qed.

Lemma at_app a c b : at_ (a ++ c :: b) (len a) = c.
Proof. unfold at_, len. rewrite Nat2Z.id. apply list_lookup_total_correct. by apply list_lookup_middle. Qed.

Lemma clamp_end s : fits s -> clamp_last (len s) NPOS = if len s =? 0 then NPOS else len s - 1.
Proof.
  unfold fits, clamp_last. intros Hf. pose proof (len_nonneg s). replace (len s <=? NPOS) with true by lia.
  destruct (Z.eqb_spec (len s) 0) as [->|]; [done|]. apply wrap_small. unfold NPOS in *. lia.
Qed.

Section last.
Context (f : Z -> bool).
Abbreviation down s := (down_from (fun i => f (at_ s i)) (clamp_last (len s) NPOS)).

Lemma down_none s : fits s -> Forall (fun c => f c = false) s -> down s = NPOS.
Proof.
  intros Hf Hs. rewrite clamp_end by done. unfold down_from. destruct (Z.eqb_spec (len s) 0); [done|].
  pose proof (len_nonneg s). unfold fits in Hf. replace (len s - 1 =? NPOS) with false by lia.
  destruct (scan_down_spec (fun i => f (at_ s i)) (Z.to_nat (len s - 1))) as [[-> _]|(i & _ & Hi & Hp & _)]; [done|].
  rewrite Forall_forall in Hs. rewrite Hs in Hp; [done|]. unfold at_. rewrite Nat2Z.id.
  apply list_elem_of_lookup_total_2. unfold len in *. lia.
Qed.

Lemma down_last a c b : fits (a ++ c :: b) -> f c = true -> Forall (fun c => f c = false) b -> down (a ++ c :: b) = len a.
Proof.
  intros Hf Hc Hb. rewrite clamp_end by done. pose proof (len_nonneg a). pose proof (len_nonneg b).
  set (s := a ++ c :: b) in *. assert (len s = len a + 1 + len b) as Hl by (unfold s; rewrite len_app, path_len_cons; lia).
  unfold fits in Hf. replace (len s =? 0) with false by lia. unfold down_from. replace (len s - 1 =? NPOS) with false by lia.
  destruct (scan_down_spec (fun i => f (at_ s i)) (Z.to_nat (len s - 1))) as [[_ Hn]|(i & -> & Hi & Hp & Hn)].
  - specialize (Hn (length a) ltac:(unfold len in *; lia)). change (Z.of_nat (length a)) with (len a) in Hn.
    unfold s in Hn. rewrite at_app in Hn. congruence.
  - destruct (decide (i < length a)%nat).
    + specialize (Hn (length a) ltac:(unfold len in *; lia)). change (Z.of_nat (length a)) with (len a) in Hn.
      unfold s in Hn. rewrite at_app in Hn. congruence.
    + destruct (decide (i = length a)) as [->|]; [done|]. rewrite Forall_lookup in Hb.
      unfold at_, s in Hp. rewrite Nat2Z.id in Hp. destruct ((a ++ c :: b) !! i) as [x|] eqn:E.
      * rewrite (list_lookup_total_correct _ _ _ E) in Hp. rewrite lookup_app_r in E by lia.
        destruct (i - length a)%nat as [|k] eqn:Ek; [lia|]. cbn in E. specialize (Hb k x E). congruence.
      * apply lookup_ge_None in E. rewrite length_app in E. cbn in E. unfold len in *. lia.
Qed.
End last.

Lemma is_token_separators c : is_token separators c = is_sep c.
Proof.
  unfold is_token, separators, is_sep. change (string_find [47; 92] c 0) with (if 47 =? c then 0 else if 92 =? c then 0 + 1 else NPOS).
  rewrite (Z.eqb_sym 47), (Z.eqb_sym 92). destruct (c =? 47); [done|]. by destruct (c =? 92).
Qed.

(** The directory in front of a name: nothing, or something that ends with a separator. *)
Definition directory (d : list Z) : Prop := d = [] \/ exists e c, d = e ++ [c] /\ is_sep c = true.
Definition plain (s : list Z) : Prop := Forall (fun c => is_sep c = false) s.
Definition no_dot (s : list Z) : Prop := Forall (fun c => (c =? 46) = false) s.

Lemma find_last_separator d name :
  fits (d ++ name) -> directory d -> plain name ->
  let start := string_find_last_of (d ++ name) separators NPOS in
  u64 (start + 1) = len d /\ start = (if len d =? 0 then NPOS else len d - 1).
Proof.
  intros Hf Hd Hn start. unfold string_find_last_of in start. change (len separators =? 0) with false in start. cbv iota in start.
  destruct Hd as [->|(e & c & -> & Hc)].
  - assert (start = NPOS) as -> by (apply down_none; [done|]; eapply Forall_impl; [exact Hn|]; intros c Hc; by rewrite is_token_separators). done.
  - assert (start = len e) as ->.
    { unfold start. rewrite <- app_assoc in *. apply (down_last (is_token separators)); [done|by rewrite is_token_separators|].
      eapply Forall_impl; [exact Hn|]. intros x Hx. by rewrite is_token_separators. }
    rewrite len_app. change (len [c]) with 1. unfold fits in Hf. rewrite !len_app in Hf. change (len [c]) with 1 in Hf.
    pose proof (len_nonneg e). pose proof (len_nonneg name). rewrite wrap_small by (unfold NPOS in *; lia). split; [done|].
    replace (len e + 1 =? 0) with false by lia. lia.
Qed.

Lemma substr_rest s o : fits s -> 0 <= o <= len s -> string_substr s o NPOS = drop (Z.to_nat o) s.
Proof.
  intros Hf Ho. unfold string_substr, fits in *. destruct (Z.ltb_spec o (len s)).
  - replace (NPOS <? len s) with false by lia. rewrite andb_false_r. unfold sub. apply take_ge. rewrite length_drop. unfold len in *. lia.
  - symmetry. apply drop_ge. unfold len in *. lia.
Qed.

Lemma substr_part s o n : fits s -> 0 <= o -> 0 <= n -> o + n <= len s -> string_substr s o n = sub s o n.
Proof.
  intros Hf Ho Hn Hl. unfold string_substr, fits in *. rewrite wrap_small by (unfold NPOS in *; lia).
  destruct (Z.ltb_spec o (len s)).
  - case_if; [done|]. f_equal. lia.
  - unfold sub. replace (Z.to_nat n) with 0%nat by lia. by rewrite take_0.
Qed.

Lemma drop_len a b : drop (Z.to_nat (len a)) (a ++ b) = b.
Proof. unfold len. rewrite Nat2Z.id. apply drop_app_length. Qed.

Lemma sub_len a b c : sub (a ++ b ++ c) (len a) (len b) = b.
Proof. unfold sub. rewrite drop_len. unfold len. rewrite Nat2Z.id. apply take_app_length. Qed.

(** ** The parts of a path *)

Lemma last_dot s : no_dot s \/ exists a b, s = a ++ 46 :: b /\ no_dot b.
Proof.
  induction s as [|c s IH]; [left; constructor|]. destruct IH as [IH|(a & b & -> & Hb)].
  - destruct (Z.eqb_spec c 46) as [->|Hc]; [right; by exists [], s|]. left. constructor; [lia|done].
  - right. by exists (c :: a), b.
Qed.

Section name.
Context (d name : list Z) (Hf : fits (d ++ name)) (Hd : directory d) (Hn : plain name).
Abbreviation p := (d ++ name).
Abbreviation start := (string_find_last_of p separators NPOS).
Abbreviation dot := (string_rfind p 46 NPOS).

Lemma len_p : len d + len name < NPOS /\ 0 <= len d /\ 0 <= len name.
Proof. unfold fits in Hf. rewrite len_app in Hf. pose proof (len_nonneg d). pose proof (len_nonneg name). lia. Qed.

(** Without a dot in the name, the last dot is in front of the last separator. *)
Lemma dot_in_directory : no_dot name -> dot = NPOS \/ 0 <= dot < len d - 1.
Proof.
  intros Hnd. destruct (last_dot d) as [Hdd|(a & b & Eab & Hb)].
  - left. apply (down_none (fun c => c =? 46)); [done|]. by apply Forall_app.
  - right. assert (dot = len a) as ->.
    { unfold string_rfind. rewrite Eab, <- app_assoc in *. apply (down_last (fun c => c =? 46)); [done..|]. by apply Forall_app. }
    rewrite Eab, len_app, path_len_cons. pose proof (len_nonneg a). destruct b as [|x b]; [|rewrite path_len_cons; pose proof (len_nonneg b); lia].
    destruct Hd as [E|(e & c & E & Hc)]; [by rewrite Eab in E; destruct a|]. rewrite E in Eab. apply app_inj_tail in Eab as [_ ->]. done.
Qed.

Lemma dot_in_name base ext : name = base ++ 46 :: ext -> no_dot ext -> dot = len d + len base.
Proof.
  intros En Hext. unfold string_rfind. rewrite En, app_assoc in *. rewrite <- len_app. by apply (down_last (fun c => c =? 46)).
Qed.

Lemma path_file_name_name : path_file_name p = name.
Proof.
  destruct (find_last_separator d name Hf Hd Hn) as [_ Hs]. unfold path_file_name. rewrite Hs. pose proof len_p as (L1 & L2 & L3).
  destruct (Z.eqb_spec (len d) 0) as [E|E].
  - rewrite Z.eqb_refl. by rewrite (len_nil d) by lia.
  - replace (len d - 1 =? NPOS) with false by lia. rewrite substr_rest by (done || (rewrite len_app; lia)). 
    replace (len d - 1 + 1) with (len d) by lia. apply drop_len.
Qed.

Lemma path_file_extension_ext :
  (no_dot name -> path_file_extension p = []) /\
  (forall base ext, name = base ++ 46 :: ext -> no_dot ext -> path_file_extension p = ext).
Proof.
  destruct (find_last_separator d name Hf Hd Hn) as [_ Hs]. pose proof len_p as (L1 & L2 & L3). unfold path_file_extension. split.
  - intros Hnd. destruct (dot_in_directory Hnd) as [->|Hdot]; [done|]. rewrite Hs. replace (len d =? 0) with false by lia.
    replace (len d - 1 =? NPOS) with false by lia. replace (len d - 1 <? dot) with false by lia. by rewrite andb_false_r.
  - intros base ext En Hext. rewrite (dot_in_name base ext En Hext). rewrite Hs. rewrite En, len_app, path_len_cons in L1, L3.
    pose proof (len_nonneg base). pose proof (len_nonneg ext). replace (len d + len base =? NPOS) with false by lia. cbn [negb andb].
    replace (((if len d =? 0 then NPOS else len d - 1) =? NPOS) || _) with true by (destruct (Z.eqb_spec (len d) 0); lia).
    rewrite En, substr_rest, app_assoc, cons_middle, app_assoc.
    + replace (len d + len base + 1) with (len ((d ++ base) ++ [46])) by (rewrite !len_app; done). apply drop_len.
    + by rewrite <- En.
    + rewrite !len_app, path_len_cons. lia.
Qed.

(** Where the name without its extension ends. *)
Lemma name_end_spec :
  (no_dot name -> name_end p start = NPOS) /\
  (forall base ext, name = base ++ 46 :: ext -> no_dot ext -> name_end p start = if len base =? 0 then NPOS else len d + len base).
Proof.
  destruct (find_last_separator d name Hf Hd Hn) as [Hu Hs]. pose proof len_p as (L1 & L2 & L3). unfold name_end. rewrite Hu. split.
  - intros Hnd. destruct (dot_in_directory Hnd) as [->|Hdot]; [by case_if|]. rewrite Hs.
    replace (len d =? 0) with false by lia. replace (len d - 1 =? NPOS) with false by lia. replace (dot <? len d - 1) with true by lia.
    by rewrite orb_true_r.
  - intros base ext En Hext. rewrite (dot_in_name base ext En Hext), Hs. pose proof (len_nonneg base).
    destruct (Z.eqb_spec (len base) 0) as [->|Hb]; [by rewrite Z.add_0_r, Z.eqb_refl, orb_true_r|].
    replace (len d + len base =? 0) with false by lia. replace (len d + len base =? len d) with false by lia. cbn [orb].
    destruct (Z.eqb_spec (len d) 0); [by rewrite Z.eqb_refl|]. replace (len d + len base <? len d - 1) with false by lia. by rewrite andb_false_r.
Qed.

(** The two functions that cut the extension off, in terms of its end. *)
Lemma base_names :
  p <> [] ->
  (name_end p start = NPOS -> path_base_file_name p = name /\ path_base_file_name_with_directory p = p) /\
  (forall base ext, name = base ++ 46 :: ext -> name_end p start = len d + len base ->
    path_base_file_name p = base /\ path_base_file_name_with_directory p = d ++ base).
Proof.
  intros Hne. destruct (find_last_separator d name Hf Hd Hn) as [Hu Hs]. pose proof len_p as (L1 & L2 & L3).
  assert (len p =? 0 = false) as H0 by (apply Z.eqb_neq; intros E; apply Hne, len_nil; lia).
  unfold path_base_file_name, path_base_file_name_with_directory. rewrite H0, Hu. split.
  - intros ->. rewrite Z.eqb_refl. cbn [negb]. rewrite !substr_rest by (done || (rewrite len_app; lia)). rewrite drop_len, drop_0.
    split; [|done]. case_if; [done|]. rewrite Hs in Heqb. destruct (Z.eqb_spec (len d) 0); [by rewrite (len_nil d) by lia|]. lia.
  - intros base ext En ->. rewrite En, len_app, path_len_cons in L1, L3. pose proof (len_nonneg base). pose proof (len_nonneg ext).
    replace (len d + len base =? NPOS) with false by lia. cbn [negb]. replace (len d + len base - len d) with (len base) by lia.
    rewrite wrap_small by (unfold NPOS in *; lia). rewrite !substr_part by (done || (rewrite En, !len_app, path_len_cons; lia) || lia).
    rewrite En, sub_len. assert (sub (d ++ base ++ 46 :: ext) 0 (len d + len base) = d ++ base) as ->.
    { unfold sub. rewrite app_assoc, <- len_app. unfold len. rewrite Nat2Z.id. apply take_app_length. }
    split; [|done]. case_if; [done|]. rewrite <- En, Hs in Heqb. destruct (Z.eqb_spec (len d) 0); [by rewrite (len_nil d) by lia|]. lia.
Qed.
End name.

(** The parts of a path are those of its directory and its name: the file
    name is what follows the last separator, the extension what follows the
    last dot of the name, and the base name what is in front of that dot, unless
    the name starts with it. *)
Theorem path_name_parts d name :
  fits (d ++ name) -> directory d -> plain name -> d ++ name <> [] ->
  path_file_name (d ++ name) = name /\
  (no_dot name ->
    path_file_extension (d ++ name) = [] /\ path_base_file_name (d ++ name) = name /\
    path_base_file_name_with_directory (d ++ name) = d ++ name) /\
  (forall base ext, name = base ++ 46 :: ext -> no_dot ext ->
    path_file_extension (d ++ name) = ext /\
    path_base_file_name (d ++ name) = (if bool_decide (base = []) then name else base) /\
    path_base_file_name_with_directory (d ++ name) = d ++ (if bool_decide (base = []) then name else base)).
Proof.
  intros Hf Hd Hn Hne. destruct (path_file_extension_ext d name Hf Hd Hn) as [Hx1 Hx2]. destruct (name_end_spec d name Hf Hd Hn) as [He1 He2].
  destruct (base_names d name Hf Hd Hn Hne) as [Hb1 Hb2]. split; [by apply path_file_name_name|]. split.
  - intros Hnd. split; [by apply Hx1|]. apply Hb1, He1, Hnd.
  - intros base ext En Hext. split; [by apply (Hx2 base)|]. specialize (He2 base ext En Hext). case_bool_decide as Hbase.
    + subst base. by apply Hb1.
    + apply (Hb2 base ext En). rewrite He2. destruct (Z.eqb_spec (len base) 0) as [E|]; [|done]. exfalso. apply Hbase, len_nil. lia.
Qed.

(** ["a/b.c"] *)
Lemma path_name_parts_witness :
  path_file_name [97; 47; 98; 46; 99] = [98; 46; 99] /\ path_file_extension [97; 47; 98; 46; 99] = [99] /\
  path_base_file_name [97; 47; 98; 46; 99] = [98].
Proof.
  destruct (path_name_parts [97; 47] [98; 46; 99]) as (H1 & _ & H2); [done|right; by exists [97], 47|by repeat constructor|done|].
  destruct (H2 [98] [99] eq_refl) as (H3 & H4 & _); [by repeat constructor|]. split; [exact H1|]. split; [exact H3|exact H4].
Defined.

(** ** Joining *)

Definition begins_sep (s : list Z) : bool := match s with c :: _ => is_sep c | [] => false end.
Definition ends_sep (s : list Z) : bool := match last s with Some c => is_sep c | None => false end.

(** [a] and [b] with one separator between them; appending to nothing drops a
    leading separator. *)
Definition append_join (a b : list Z) : list Z :=
  if bool_decide (a = []) then (if begins_sep b then tail b else b)
  else if ends_sep a then a ++ (if begins_sep b then tail b else b)
  else if begins_sep b then a ++ b else a ++ 47 :: b.

(** Prepending keeps the separator of the second path. *)
Definition prepend_join (a b : list Z) : list Z :=
  if ends_sep a && begins_sep b then removelast a ++ b
  else if ends_sep a || begins_sep b || bool_decide (b = []) then a ++ b else a ++ 47 :: b.

Lemma at_last s t : negb (len s =? 0) && is_sep (at_ (s ++ t) (len s - 1)) = ends_sep s.
Proof.
  unfold ends_sep. destruct s as [|c s _] using rev_ind; [done|]. rewrite last_snoc, len_app. change (len [c]) with 1.
  pose proof (len_nonneg s). replace (len s + 1 =? 0) with false by lia. replace (len s + 1 - 1) with (len s) by lia.
  rewrite <- app_assoc. cbn [app]. by rewrite at_app.
Qed.

Lemma at_first s t : negb (len s =? 0) && is_sep (at_ (s ++ t) 0) = begins_sep s.
Proof. destruct s as [|c s]; [done|]. rewrite path_len_cons. pose proof (len_nonneg s). by replace (1 + len s =? 0) with false by lia. Qed.

Lemma sub_from s o : 0 <= o -> sub s o (len s - o) = drop (Z.to_nat o) s.
Proof. intros Ho. unfold sub. apply take_ge. rewrite length_drop. unfold len. lia. Qed.

Lemma take_prefix (a b : list Z) : take (length a) (a ++ b) = a.
Proof. apply take_app_length. Qed.

(** Appending a piece that fits; the string needs no terminating zero. *)
Lemma string_append_fits a t s :
  s <> [] -> len a + len s < len (a ++ t) ->
  exists buf', string_append (a ++ t) (len a) s = (buf', len (a ++ s)) /\ holds buf' (a ++ s) /\ len buf' = len (a ++ t).
Proof.
  intros Hs Hfit. unfold string_append, string_append_fragment. pose proof (len_nonneg a). pose proof (len_nonneg s).
  replace (len (a ++ t) =? 0) with false by lia. destruct (Z.eqb_spec (len s) 0) as [E|_]; [exfalso; apply Hs, len_nil; lia|].
  replace (len (a ++ t) <=? len a + len s) with false by lia. eexists. rewrite (len_app a s). split; [done|].
  unfold len in *. rewrite Nat2Z.id. rewrite length_app in Hfit.
  assert (length (write_at (length a) s (a ++ t)) = length (a ++ t)) as Hw by (apply length_write_at; rewrite length_app; lia). split.
  - rewrite <- Nat2Z.inj_add, <- length_app. apply holds_terminate; [apply take_write_piece; [apply take_prefix|]|]; rewrite ?Hw, length_app, ?length_app; lia.
  - rewrite length_terminate; unfold len; rewrite Hw, ?length_app; lia.
Qed.

(** Appending a piece, or nothing, to a string in a buffer. *)
Lemma string_append_piece a t s :
  holds (a ++ t) a -> len (a ++ s) < len (a ++ t) ->
  exists buf', string_append (a ++ t) (len a) s = (buf', len (a ++ s)) /\ holds buf' (a ++ s) /\ len buf' = len (a ++ t).
Proof.
  intros Hh Hs. destruct (decide (s = [])) as [->|Hne].
  - exists (a ++ t). unfold string_append, string_append_fragment. rewrite app_nil_r in *. pose proof (len_nonneg a).
    replace (_ =? 0) with false by lia. by split.
  - apply string_append_fits; [done|]. by rewrite len_app in Hs.
Qed.

Lemma path_append_to_empty t b :
  holds t [] -> b <> [] -> len (append_join [] b) < len t ->
  exists buf', path_append t 0 b = (buf', len (append_join [] b)) /\ holds buf' (append_join [] b) /\ len buf' = len t.
Proof.
  intros Hh Hb. unfold path_append, path_append_fragment, append_join. cbn [Z.eqb negb andb orb].
  rewrite bool_decide_eq_true_2 by done. pose proof (at_first b []) as Hsep. rewrite app_nil_r in Hsep. rewrite Hsep, andb_false_r. cbn [andb].
  intros Hfit. clear Hsep. destruct b as [|c b]; [done|]. cbn [begins_sep tail] in *. rewrite sub_from by (case_if; lia).
  destruct (is_sep c); by apply (string_append_piece [] t).
Qed.

Lemma path_append_joins a t b :
  holds (a ++ t) a -> b <> [] -> len (append_join a b) < len (a ++ t) ->
  exists buf', path_append (a ++ t) (len a) b = (buf', len (append_join a b)) /\ holds buf' (append_join a b) /\ len buf' = len (a ++ t).
Proof.
  intros Hh Hb Hfit. destruct (decide (a = [])) as [->|Ha]; [by apply path_append_to_empty|].
  unfold path_append, path_append_fragment. rewrite at_last. pose proof (at_first b []) as Hsep.
  rewrite app_nil_r in Hsep. rewrite Hsep. clear Hsep.
  unfold append_join in *. rewrite bool_decide_eq_false_2 in * by done.
  destruct (Z.eqb_spec (len a) 0) as [E|E]; [exfalso; apply Ha, len_nil; lia|]. cbn [negb andb orb]. rewrite ?orb_false_r, ?andb_true_r.
  destruct b as [|c b]; [done|]. cbn [begins_sep tail] in *.
  assert (len a =? 0 = false) as E0 by lia.
  destruct (ends_sep a); cbn [negb andb orb]; [rewrite E0; cbn [andb orb]; rewrite orb_false_r, sub_from by (case_if; lia); destruct (is_sep c); by apply string_append_piece|].
  destruct (is_sep c); cbn [negb andb orb]; [rewrite E0, sub_from by done; by apply string_append_piece|].
  replace (len a + 1 <? len (a ++ t)) with true by (symmetry; rewrite !len_app, !path_len_cons in *; pose proof (len_nonneg b); lia).
  rewrite andb_false_r, sub_from by done. cbn [Z.to_nat drop].
  destruct t as [|x t]; [rewrite app_nil_r in Hfit; rewrite len_app in Hfit; pose proof (len_nonneg (47 :: c :: b)); lia|].
  assert (write_at (Z.to_nat (len a)) [47] (a ++ x :: t) = (a ++ [47]) ++ t) as ->.
  { unfold write_at, len. rewrite Nat2Z.id, take_prefix. cbn [length]. rewrite Nat.add_1_r, drop_app_ge by lia.
    replace (S (length a) - length a)%nat with 1%nat by lia. by rewrite <- app_assoc. }
  replace (len a + 1) with (len (a ++ [47])) by (by rewrite len_app).
  replace (a ++ 47 :: c :: b) with ((a ++ [47]) ++ c :: b) in * by (by rewrite <- app_assoc).
  replace (len (a ++ x :: t)) with (len ((a ++ [47]) ++ t)) in * by (rewrite !len_app, !path_len_cons; change (len []) with 0; lia).
  apply string_append_fits; [done|]. by rewrite len_app in Hfit.
Qed.

(** Storing a piece right in front of a piece that is already there. *)
Lemma read_write_before k (x s m : list Z) :
  (k + length x <= length m)%nat -> take (length s) (drop (k + length x) m) = s ->
  take (length (x ++ s)) (drop k (write_at k x m)) = x ++ s.
Proof.
  intros Hk Hs. unfold write_at. rewrite drop_app_ge by (rewrite length_take; lia). rewrite length_take, Nat.min_l, Nat.sub_diag, drop_0 by lia.
  rewrite length_app. rewrite take_app_ge by lia.
  replace (length x + length s - length x)%nat with (length s) by lia. by rewrite Hs.
Qed.

Lemma stored_in_front (buf b pre sl : list Z) :
  (length pre + length sl + length b < length buf)%nat ->
  let b1 := write_at (length pre + length sl) b buf in
  let b2 := write_at (length pre) sl b1 in
  let b3 := write_at 0 pre b2 in
  take (length (pre ++ sl ++ b)) b3 = pre ++ sl ++ b /\ length b3 = length buf.
Proof.
  intros Hfit b1 b2 b3. assert (length b1 = length buf) as L1 by (apply length_write_at; lia).
  assert (length b2 = length buf) as L2 by (unfold b2; rewrite length_write_at; lia).
  split; [|unfold b3; rewrite length_write_at; lia].
  assert (take (length (sl ++ b)) (drop (length pre) b2) = sl ++ b) as H2.
  { apply read_write_before; [lia|]. apply read_write_at. lia. }
  apply (read_write_before 0 pre (sl ++ b) b2); [lia|exact H2].
Qed.

(** The pieces of a joined path: the front of the first one, and a separator. *)
Lemma prepend_join_parts a b :
  let pathlen := if ends_sep a && begins_sep b then len a - 1 else len a in
  let slash := negb (ends_sep a) && negb (begins_sep b) && negb (len b =? 0) in
  prepend_join a b = take (Z.to_nat pathlen) a ++ (if slash then [47] else []) ++ b.
Proof.
  intros pathlen slash. unfold prepend_join, pathlen, slash.
  assert (bool_decide (b = []) = (len b =? 0)) as -> by (destruct b; [done|]; rewrite path_len_cons; pose proof (len_nonneg b); case_bool_decide; [done|lia]).
  destruct (ends_sep a) eqn:Ee; destruct (begins_sep b) eqn:Eb; cbn [negb andb orb]; rewrite ?(take_ge a) by (unfold len; lia); try done.
  - f_equal. destruct a as [|c a _] using rev_ind; [done|]. rewrite removelast_last, len_app. change (len [c]) with 1.
    replace (Z.to_nat (len a + 1 - 1)) with (length a) by (unfold len; lia). by rewrite take_prefix.
  - by destruct (len b =? 0).
Qed.

Lemma path_prepend_joins a b buf :
  holds buf b -> a <> [] -> len (prepend_join a b) < len buf ->
  exists buf', path_prepend buf (len b) a = Some (buf', len (prepend_join a b)) /\ holds buf' (prepend_join a b) /\ len buf' = len buf.
Proof.
  intros Hh Ha Hfit. destruct (holds_take buf b Hh) as [Ht Hl]. unfold path_prepend, path_prepend_fragment.
  pose proof (at_last a []) as Hlast. rewrite app_nil_r in Hlast. assert (len a =? 0 = false) as Ha0 by (apply Z.eqb_neq; intros E; apply Ha, len_nil; lia).
  rewrite Ha0 in *. cbn [negb andb] in Hlast. rewrite Hlast.
  assert (negb (len b =? 0) && is_sep (at_ buf 0) = begins_sep b) as -> by (destruct Hh as [tl ->]; apply at_first).
  rewrite (prepend_join_parts a b) in *. set (pathlen := if _ && begins_sep b then len a - 1 else len a) in *. set (slash := negb _ && _ && _) in *.
  pose proof (len_nonneg a). assert (0 <= pathlen <= len a) as Hpl by (unfold pathlen; case_if; lia). clearbody pathlen.
  set (pre := take (Z.to_nat pathlen) a) in *. assert (len pre = pathlen) as Hp by (unfold pre, len in *; rewrite length_take; lia).
  set (sl := if slash then [47] else []) in *. assert ((if slash then 1 else 0) = len sl) as -> by (unfold sl; by destruct slash).
  rewrite !len_app, Hp in Hfit. pose proof (len_nonneg b). pose proof (len_nonneg sl).
  replace (pathlen + len sl <? len buf) with true by lia. replace (len buf <=? pathlen + len sl + len b) with false by lia.
  replace (len buf <=? pathlen) with false by lia.
  assert (sub buf 0 (len b) = b) as -> by (unfold sub, len; by rewrite drop_0, Nat2Z.id).
  destruct (stored_in_front buf b pre sl) as [Hs Hlen]; [unfold len in *; lia|].
  assert (sub a 0 pathlen = pre) as -> by (unfold sub; by rewrite drop_0).
  assert (Z.to_nat (pathlen + len sl) = (length pre + length sl)%nat /\ Z.to_nat pathlen = length pre) as [-> ->] by (unfold len in *; lia).
  assert (forall m, (if len sl =? 1 then write_at (length pre) [47] m else m) = write_at (length pre) sl m) as ->.
  { intros m. unfold sl. destruct slash; [done|]. cbn [Z.eqb]. symmetry. apply write_at_nil. }
  eexists. rewrite <- Hp, <- Z.add_assoc, <- !len_app. split; [done|].
  assert (length (pre ++ sl ++ b) < length buf)%nat as Hfit' by (rewrite !length_app; unfold len in *; lia). split.
  - apply holds_terminate; [done|]. by rewrite Hlen.
  - unfold len at 1. rewrite length_terminate; [by rewrite Hlen|]. unfold len in *. rewrite Hlen. lia.
Qed.

Lemma string_copy_fits dst s : len s < len dst -> exists buf', string_copy dst s = (buf', len s) /\ holds buf' s /\ len buf' = len dst.
Proof.
  intros Hf. pose proof (len_nonneg s). pose proof (string_copy_result dst s ltac:(lia)) as H0. cbv zeta in H0.
  rewrite take_ge in H0 by (unfold len in *; lia). destruct (string_copy dst s) as [buf n]. destruct H0 as (Hl & -> & Hh).
  exists buf. split; [done|]. split; [done|]. unfold len. by rewrite Hl.
Qed.

(** Where the result fits, [path_append] and [path_prepend] leave in the
    buffer, terminated, the two paths with one separator between them, and
    [path_concat] does so in a new buffer; appending to an empty path drops a
    leading separator. *)
Theorem path_join_spec a b buf dest :
  a <> [] -> b <> [] ->
  (forall a, holds buf a -> len (append_join a b) < len buf ->
    exists buf', path_append buf (len a) b = (buf', len (append_join a b)) /\ holds buf' (append_join a b) /\ len buf' = len buf) /\
  (forall b, holds buf b -> len (prepend_join a b) < len buf ->
    exists buf', path_prepend buf (len b) a = Some (buf', len (prepend_join a b)) /\ holds buf' (prepend_join a b) /\ len buf' = len buf) /\
  (len a < len dest -> len (append_join a b) < len dest ->
    exists buf', path_concat dest a b = (buf', len (append_join a b)) /\ holds buf' (append_join a b) /\ len buf' = len dest).
Proof.
  intros Ha Hb. split; [|split].
  - intros a' Hh Hfit. pose proof Hh as [tl ->]. by apply path_append_joins.
  - intros b' Hh Hfit. by apply path_prepend_joins.
  - intros Hda Hfit. unfold path_concat, path_concat_vlist. cbn [foldl].
    destruct (Z.eqb_spec (len a) 0) as [E|_]; [exfalso; apply Ha, len_nil; lia|]. cbn [negb].
    destruct (string_copy_fits dest a Hda) as (buf' & -> & Hh & Hl). destruct (Z.eqb_spec (len b) 0) as [E|_]; [exfalso; apply Hb, len_nil; lia|].
    rewrite <- Hl in Hfit |- *. pose proof Hh as [tl ->]. by apply path_append_joins.
Qed.

Lemma path_join_spec_witness :
  exists buf', path_concat [9; 9; 9; 9; 9; 9] [97] [98; 99] = (buf', 4) /\ holds buf' [97; 47; 98; 99] /\ len buf' = 6.
Proof.
  destruct (path_join_spec [97] [98; 99] [] [9; 9; 9; 9; 9; 9]) as (_ & _ & H); [done|done|]. apply H; done.
Defined.

(** Appending an empty path stores a separator over the terminating zero. *)
Example path_append_empty_unterminated : path_append [97; 0; 7; 7] 1 [] = ([97; 47; 7; 7], 2).
Proof. done. Qed.

(** A root, a drive, and a protocol with a separator are absolute. *)
Example path_absolute_examples :
  map path_is_absolute [[47]; [67; 58]; [97; 47; 98]; [118; 102; 115; 58; 47; 47; 97]; [118; 102; 115; 58]] = [true; true; false; true; false].
Proof. done. Qed.

Example path_directory_examples :
  map path_directory_name [[47; 97; 47; 98]; [47; 97]; [67; 58; 97]; [97]; [118; 58; 47; 47; 97]] =
  [Some [47; 97]; Some [47]; Some [67; 58]; Some []; Some [118; 58; 47; 47]].
Proof. by vm_compute. Qed.
End Path.
