(* ===== verification/PathClean.v ===== *)
(** * Cleaning paths ([path_clean] of [foundation/path.c])

    [path_clean] removes empty and ["."] segments and reduces [".."] in place.
    The state of its loop is a record; an access outside the buffer gives
    [None].  Bytes: ['.'] is 46, ['/'] 47, [':'] 58 and the backslash 92. *)
From S2P Require Import Prelude Str Path.

Module PathClean.
Import Str Path.

(** [path[i] = c] *)
Definition wr (path : list Z) (i c : Z) : option (list Z) :=
  if (0 <=? i) && (i <? len path) then Some (<[Z.to_nat i := c]> path) else None.

(** [memmove(path + to, path + from, n)] *)
Definition move (path : list Z) (to from n : Z) : option (list Z) :=
  if (0 <=? to) && (0 <=? from) && (0 <=? n) && (to + n <=? len path) && (from + n <=? len path)
  then Some (write_at (Z.to_nat to) (sub path from n) path) else None.

Record clean_state := mk_clean {
  path : list Z; length : Z; ofs : Z; protocol : Z; reduce_limit : Z; firstsep : bool }.

(** The loop that skips separators and ["./"]; it gives [ahead]. *)
Fixpoint skip_loop (fuel : nat) (path : list Z) (length ahead : Z) : option Z :=
  match fuel with
  | O => None
  | S fuel =>
      if ahead <? length then
        c ← rd path ahead;
        if c =? 46 then
          if ahead + 1 <? length then
            d ← rd path (ahead + 1);
            if is_sep d then skip_loop fuel path length (ahead + 2) else Some ahead
          else Some ahead
        else if is_sep c then skip_loop fuel path length (ahead + 1) else Some ahead
      else Some ahead
  end.

(** The loop that counts [".."]; it gives [ahead] and [num]. *)
Fixpoint count_loop (fuel : nat) (path : list Z) (length ahead num : Z) : option (Z * Z) :=
  match fuel with
  | O => None
  | S fuel =>
      if ahead + 1 <? length then
        c ← rd path ahead;
        d ← rd path (ahead + 1);
        if (c =? 46) && (d =? 46) then
          if ahead + 2 =? length then Some (length, num + 1)
          else
            e ← rd path (ahead + 2);
            if is_sep e then count_loop fuel path length (ahead + 3) (num + 1) else Some (ahead, num)
        else Some (ahead, num)
      else Some (ahead, num)
  end.

(** To the separator in front of a segment. *)
Fixpoint segment_loop (fuel : nat) (path : list Z) (reduce_limit back : Z) : option Z :=
  match fuel with
  | O => None
  | S fuel =>
      if reduce_limit <? back then
        c ← rd path back;
        if c =? 47 then Some back else segment_loop fuel path reduce_limit (back - 1)
      else Some back
  end.

(** Whether the segment in front of [back] stops the reduction, with the new
    [back]; the conditions read no more than they need. *)
Definition stops (path : list Z) (reduce_limit back : Z) : option (option Z) :=
  c ← rd path (back - 1);
  if negb (c =? 46) then Some None
  else
    starting ← (if back =? reduce_limit + 1 then Some true
                else if back =? reduce_limit + 2 then d ← rd path (back - 2); Some (d =? 46)
                else Some false);
    if (starting : bool) then
      if 2 <? reduce_limit then
        e ← rd path (reduce_limit - 1);
        Some (Some (if e =? 47 then reduce_limit else back))
      else Some (Some back)
    else
      d ← rd path (back - 2);
      parent ← (if d =? 46 then e ← rd path (back - 3); Some (e =? 47) else Some false);
      Some (if (parent : bool) || (d =? 47) then Some back else None).

(** Back over the segments to reduce; it gives [back] and [reduce]. *)
Fixpoint back_loop (fuel : nat) (path : list Z) (reduce_limit num back reduce : Z) : option (Z * Z) :=
  match fuel with
  | O => None
  | S fuel =>
      if (reduce_limit <? back) && (reduce <? num) then
        stop ← stops path reduce_limit back;
        match stop with
        | Some back => Some (back, reduce)
        | None =>
            back ← segment_loop (Z.to_nat back) path reduce_limit (back - 1);
            back_loop fuel path reduce_limit num back (reduce + 1)
        end
      else Some (back, reduce)
  end.

(** A colon: [Some (Some st)] goes on with the loop, [Some None] falls through
    to the code behind it. *)
Definition colon (st : clean_state) : option (option clean_state) :=
  let '(mk_clean path length ofs protocol reduce_limit firstsep) := st in
  if firstsep then
    if ofs =? 0 then
      path ← move path 0 1 (length - 1);
      path ← wr path (length - 1) 0;
      Some (Some (mk_clean path (length - 1) ofs protocol reduce_limit firstsep))
    else
      let protocol := ofs in
      let ofs := ofs + 1 in
      if ofs <? length then
        c ← rd path ofs;
        if is_sep c then
          path ← wr path ofs 47;
          first ← rd path 0;
          path ← (if (protocol =? 1) && (97 <=? first) && (first <=? 122) then wr path 0 (first - 32) else Some path);
          '(path, ofs) ← (if (1 <? protocol) && (ofs + 1 <? length) then
                            d ← rd path (ofs + 1);
                            if is_sep d then path ← wr path (ofs + 1) 47; Some (path, ofs + 1) else Some (path, ofs)
                          else Some (path, ofs));
          Some (Some (mk_clean path length ofs protocol (ofs + 1) false))
        else Some (Some (mk_clean path length ofs protocol ofs false))
      else Some (Some (mk_clean path length ofs protocol ofs false))
  else if negb (protocol =? 0) && (reduce_limit <? ofs) then
    b ← rd path (ofs - 2);
    drive ← (if b =? 58 then Some true
             else if b =? 47 then a ← rd path (ofs - 3); Some ((a =? 58) || (a =? 47))
             else Some false);
    if (drive : bool) then
      let ofs := ofs + 1 in
      if ofs <? length then
        c ← rd path ofs;
        if is_sep c then
          path ← wr path ofs 47;
          Some (Some (mk_clean path length ofs protocol (ofs + 1) firstsep))
        else Some (Some (mk_clean path length ofs protocol ofs firstsep))
      else Some (Some (mk_clean path length ofs protocol ofs firstsep))
    else Some None
  else Some None.

(** Skip what is empty behind a separator. *)
Definition skip_segments (st : clean_state) : option clean_state :=
  let '(mk_clean path length ofs protocol reduce_limit firstsep) := st in
  ahead ← skip_loop (S (Z.to_nat length)) path length ofs;
  if ofs <? ahead then
    path ← move path ofs ahead (length - ahead);
    let length := length - (ahead - ofs) in
    path ← wr path length 0;
    Some (mk_clean path length ofs protocol reduce_limit firstsep)
  else Some st.

(** Reduce the [".."] segments behind a separator. *)
Definition reduce_segments (st : clean_state) : option clean_state :=
  let '(mk_clean path length ofs protocol reduce_limit firstsep) := st in
  '(ahead, num) ← count_loop (S (Z.to_nat length)) path length ofs 0;
  if 0 <? num then
    let back := if reduce_limit <? ofs then ofs - 1 else ofs in
    '(back, reduce) ← back_loop (S (Z.to_nat num)) path reduce_limit num back 0;
    absolute ← (if back =? reduce_limit then
                  if back =? 0 then c ← rd path back; Some (c =? 47) else c ← rd path (back - 1); Some (c =? 47)
                else Some false);
    let reduce := if (absolute : bool) then num else reduce in
    if 0 <? reduce then
      c ← rd path back;
      let ofs := if c =? 47 then back + 1 else back in
      let ahead := if reduce <? num then ahead - 3 * (num - reduce) else ahead in
      clearsep ← (if length =? ahead then c ← rd path (length - 1); Some (negb (c =? 47)) else Some false);
      path ← move path ofs ahead (length - ahead);
      let length := length - (ahead - ofs) in
      path ← wr path length 0;
      '(path, length) ← (if (1 <? length) && (clearsep : bool) && (reduce_limit <? length) then
                           c ← rd path (length - 1);
                           if c =? 47 then path ← wr path (length - 1) 0; Some (path, length - 1) else Some (path, length)
                         else Some (path, length));
      let ofs := if reduce_limit + 1 <? ofs then ofs - 1 else if negb (reduce_limit =? 0) then reduce_limit - 1 else 0 in
      c ← rd path ofs;
      let ofs := if c =? 58 then ofs + 1 else ofs in
      Some (mk_clean path length ofs protocol reduce_limit firstsep)
    else Some st
  else Some st.

(** One iteration of the loop. *)
Definition clean_step (st : clean_state) : option clean_state :=
  c ← rd (path st) (ofs st);
  next ← (if c =? 58 then colon st else Some None);
  match next with
  | Some st => Some st
  | None =>
      let '(mk_clean path length ofs protocol reduce_limit firstsep) := st in
      if is_sep c then
        path ← (if c =? 92 then wr path ofs 47 else Some path);
        st ← skip_segments (mk_clean path length (ofs + 1) protocol reduce_limit false);
        reduce_segments st
      else Some (mk_clean path length (ofs + 1) protocol reduce_limit firstsep)
  end.

Fixpoint clean_loop (fuel : nat) (st : clean_state) : option clean_state :=
  if ofs st <? length st then
    match fuel with
    | O => None
    | S fuel => st ← clean_step st; clean_loop fuel st
    end
  else Some st.

(** What is cleaned behind the loop. *)
Definition clean_ends (st : clean_state) (inlength : Z) : option (list Z * Z) :=
  let '(mk_clean path length _ _ reduce_limit _) := st in
  let ofs := reduce_limit in
  starting ← (if ofs + 1 <? length then c ← rd path ofs; d ← rd path (ofs + 1); Some ((c =? 46) && (d =? 47)) else Some false);
  '(path, length) ← (if (starting : bool) then path ← move path ofs (ofs + 2) (length - (ofs + 2)); Some (path, length - 2)
                     else Some (path, length));
  ending ← (if 1 <? length then c ← rd path (length - 2); d ← rd path (length - 1); Some ((c =? 47) && (d =? 46)) else Some false);
  let length := if (ending : bool) then length - 1 else length in
  only ← (if length =? 1 then c ← rd path 0; Some (c =? 46) else Some false);
  let length := if (only : bool) then length - 1 else length in
  path ← (if length <? inlength then wr path length 0 else Some path);
  Some (path, length).

(** The buffer afterwards and the length of the path in it. *)
Definition path_clean (path : list Z) (length : Z) : option (list Z * Z) :=
  st ← clean_loop (Z.to_nat ((length + 1) * (length + 1))) (mk_clean path length 0 0 0 true);
  clean_ends st length.

(** The cleaned path, from a buffer that ends with a zero. *)
Definition cleaned (p : list Z) : option (list Z) :=
  option_map (fun '(path, n) => sub path 0 n) (path_clean (p ++ [0]) (len p)).

(** ** Access to the buffer *)

Lemma rd_at p i : 0 <= i < len p -> rd p i = Some (at_ p i).
Proof.
  intros Hi. unfold rd, at_, len in *. destruct (Z.leb_spec 0 i); [|lia].
  destruct (lookup_lt_is_Some_2 p (Z.to_nat i)) as [c E]; [lia|]. by rewrite (list_lookup_total_correct _ _ _ E).
Qed.

Lemma wr_at p i c :
  0 <= i < len p -> exists p', wr p i c = Some p' /\ len p' = len p /\ forall j, 0 <= j -> at_ p' j = if decide (j = i) then c else at_ p j.
Proof.
  intros Hi. unfold wr, at_, len in *. destruct (Z.leb_spec 0 i); [|lia]. destruct (Z.ltb_spec i (Z.of_nat (Datatypes.length p))); [|lia].
  eexists. split; [done|]. rewrite length_insert. split; [done|]. intros j Hj. case_decide as Hji.
  - subst j. by rewrite list_lookup_total_insert_eq by lia.
  - by rewrite list_lookup_total_insert_ne by lia.
Qed.

Lemma move_at p to from n :
  0 <= to -> 0 <= from -> 0 <= n -> to + n <= len p -> from + n <= len p ->
  exists p', move p to from n = Some p' /\ len p' = len p /\
    forall j, 0 <= j -> at_ p' j = if decide (to <= j < to + n) then at_ p (j - to + from) else at_ p j.
Proof.
  intros H1 H2 H3 H4 H5. unfold move. rewrite !(proj2 (Z.leb_le _ _)) by lia. cbn [andb]. eexists. split; [done|].
  assert (Datatypes.length (sub p from n) = Z.to_nat n) as Hs by (pose proof (len_sub p from n H2 H3 H5); unfold len in *; lia).
  split; [unfold len in *; rewrite length_write_at; lia|]. intros j Hj. unfold at_, write_at, len in *.
  rewrite list_lookup_total_alt. rewrite !list_lookup_total_alt. case_decide as Hin; f_equal.
  - rewrite lookup_app_r by (rewrite length_take; lia). rewrite length_take, lookup_app_l by lia.
    unfold sub. rewrite lookup_take_lt, lookup_drop by lia. f_equal. lia.
  - destruct (decide (j < to)).
    + rewrite lookup_app_l by (rewrite length_take; lia). by rewrite lookup_take_lt by lia.
    + rewrite lookup_app_r, length_take by (rewrite length_take; lia). rewrite lookup_app_r, lookup_drop by lia. f_equal. lia.
Qed.

(** Read the cell [i]. *)
Ltac read i := rewrite (rd_at _ i) by lia; cbn [mbind option_bind].

(** ** The loops of one iteration *)

Lemma skip_loop_spec fuel p length ahead :
  0 <= ahead <= length -> length <= len p -> length - ahead < Z.of_nat fuel ->
  exists ahead', skip_loop fuel p length ahead = Some ahead' /\ ahead <= ahead' <= length.
Proof.
  revert ahead. induction fuel as [|fuel IH]; intros ahead Ha Hl Hf; [lia|]. cbn [skip_loop].
  destruct (Z.ltb_spec ahead length); [|exists ahead; split; [done|lia]]. read ahead.
  assert (exists a, Some ahead = Some a /\ ahead <= a <= length) as Hstay by (exists ahead; split; [done|lia]).
  destruct (at_ p ahead =? 46).
  - destruct (Z.ltb_spec (ahead + 1) length); [|done]. read (ahead + 1). case_if; [|done].
    destruct (IH (ahead + 2)) as (a & -> & Ha'); [lia..|]. exists a. split; [done|lia].
  - case_if; [|done]. destruct (IH (ahead + 1)) as (a & -> & Ha'); [lia..|]. exists a. split; [done|lia].
Qed.

Lemma count_loop_spec fuel p length ahead num :
  0 <= ahead <= length -> length <= len p -> length - ahead < Z.of_nat fuel ->
  exists ahead' num', count_loop fuel p length ahead num = Some (ahead', num') /\ ahead <= ahead' <= length /\ num <= num' /\
    (num < num' -> ahead + 3 * (num' - num) - 1 <= ahead').
Proof.
  revert ahead num. induction fuel as [|fuel IH]; intros ahead num Ha Hl Hf; [lia|]. cbn [count_loop].
  assert (exists a n, Some (ahead, num) = Some (a, n) /\ ahead <= a <= length /\ num <= n /\ (num < n -> ahead + 3 * (n - num) - 1 <= a))
    as Hstay by (do 2 eexists; split; [done|lia]).
  destruct (Z.ltb_spec (ahead + 1) length); [|done]. read ahead. read (ahead + 1). case_if; [|done].
  destruct (Z.eqb_spec (ahead + 2) length); [do 2 eexists; split; [done|lia]|]. read (ahead + 2).
  case_if; [|done]. destruct (IH (ahead + 3) (num + 1)) as (a & n0 & -> & H1 & H2 & H3); [lia..|]. do 2 eexists. split; [done|lia].
Qed.

Lemma segment_loop_spec fuel p limit back :
  0 <= limit <= back -> back < len p -> back - limit < Z.of_nat fuel ->
  exists back', segment_loop fuel p limit back = Some back' /\ limit <= back' <= back.
Proof.
  revert back. induction fuel as [|fuel IH]; intros back Hb Hl Hf; [lia|]. cbn [segment_loop].
  assert (exists b, Some back = Some b /\ limit <= b <= back) as Hstay by (eexists; split; [done|lia]).
  destruct (Z.ltb_spec limit back); [|done]. read back. case_if; [done|].
  destruct (IH (back - 1)) as (b & -> & Hb'); [lia..|]. eexists. split; [done|lia].
Qed.

Lemma stops_spec p limit back :
  0 <= limit < back -> back <= len p ->
  exists r, stops p limit back = Some r /\ match r with Some b => limit <= b <= back | None => True end.
Proof.
  intros Hb Hl. unfold stops. read (back - 1). case_if; [by eexists|].
  destruct (Z.eqb_spec back (limit + 1)); cbn [mbind option_bind].
  { destruct (Z.ltb_spec 2 limit); [read (limit - 1)|]; eexists; (split; [done|]); cbn; [case_if|]; lia. }
  rewrite (rd_at p (back - 2)) by lia.
  destruct (Z.eqb_spec back (limit + 2)); cbn [mbind option_bind]; [destruct (at_ p (back - 2) =? 46) eqn:E|].
  - destruct (Z.ltb_spec 2 limit); [read (limit - 1)|]; eexists; (split; [done|]); cbn; [case_if|]; lia.
  - cbn [mbind option_bind]. eexists. split; [done|]. cbn. case_if; [lia|done].
  - case_if; [read (back - 3)|]; cbn [mbind option_bind]; eexists; (split; [done|]); cbn; (case_if; [lia|done]).
Qed.

Lemma back_loop_spec fuel p limit num back reduce :
  0 <= limit <= back -> back <= len p -> reduce <= num -> num - reduce < Z.of_nat fuel ->
  exists back' reduce', back_loop fuel p limit num back reduce = Some (back', reduce') /\ limit <= back' <= back /\ reduce <= reduce' <= num.
Proof.
  revert back reduce. induction fuel as [|fuel IH]; intros back reduce Hb Hl Hr Hf; [lia|]. cbn [back_loop].
  destruct (Z.ltb_spec limit back); cbn [andb]; [|do 2 eexists; split; [done|lia]].
  destruct (Z.ltb_spec reduce num); [|do 2 eexists; split; [done|lia]].
  destruct (stops_spec p limit back) as (r & -> & Hr'); [lia..|]. cbn [mbind option_bind]. destruct r as [b|]; [do 2 eexists; split; [done|lia]|].
  destruct (segment_loop_spec (Z.to_nat back) p limit (back - 1)) as (b & -> & Hb'); [lia..|]. cbn [mbind option_bind].
  destruct (IH b (reduce + 1)) as (b' & r' & -> & H1 & H2); [lia..|]. do 2 eexists. split; [done|lia].
Qed.

(** ** The invariant of the loop

    For a path of [inlength] bytes in the buffer [buf]: the bytes in front of
    [ofs] are no backslashes, what lies in front of [reduce_limit] ends with a
    colon or a separator, and nothing behind the path has changed. *)
Section cleaning.
Context (buf : list Z) (inlength : Z) (Hbuf : 0 <= inlength < len buf).

Definition in_buffer (p : list Z) (length ofs : Z) : Prop :=
  len p = len buf /\ 0 <= ofs <= length /\ length <= inlength /\
  (forall i, 0 <= i < ofs -> at_ p i <> 92) /\ (forall i, inlength < i -> at_ p i = at_ buf i).

Definition limit_ok (p : list Z) (length protocol limit : Z) : Prop :=
  0 <= limit <= length /\ (limit = 0 \/ at_ p (limit - 1) = 58 \/ at_ p (limit - 1) = 47) /\ (protocol <> 0 -> 2 <= limit).

Definition inv (st : clean_state) : Prop :=
  let '(mk_clean p length ofs protocol limit firstsep) := st in
  in_buffer p length ofs /\ limit_ok p length protocol limit /\ 0 <= protocol /\
  (limit <= ofs \/ (limit = ofs + 1 /\ at_ p ofs = 47)) /\ (firstsep = true -> limit = 0 /\ protocol = 0).

(** Behind a separator. *)
Definition behind (st : clean_state) : Prop :=
  let '(mk_clean p length ofs protocol limit firstsep) := st in
  in_buffer p length ofs /\ limit_ok p length protocol limit /\ 0 <= protocol /\ limit <= ofs /\ firstsep = false.

(** The path gets shorter, or [ofs] moves towards its end. *)
Definition closer (st st' : clean_state) : Prop := length st' < length st \/ (length st' = length st /\ ofs st < ofs st').

Lemma in_buffer_write p p' length length' ofs ofs' :
  in_buffer p length ofs -> len p' = len p -> 0 <= ofs' <= length' -> length' <= length ->
  (forall j, 0 <= j < ofs' -> at_ p' j = at_ p j \/ at_ p' j <> 92) -> (forall j, 0 <= j < ofs' -> ofs <= j -> at_ p' j <> 92) ->
  (forall j, inlength < j -> at_ p' j = at_ p j) -> in_buffer p' length' ofs'.
Proof.
  intros (B1 & B2 & B3 & B4 & B5) Hl Ho Hle Hsame Hnew Hout. split; [congruence|]. split; [lia|]. split; [lia|]. split.
  - intros i Hi. destruct (decide (i < ofs)) as [Hio|Hio]; [|apply Hnew; lia].
    destruct (Hsame i Hi) as [->|]; [|done]. apply B4. lia.
  - intros i Hi. rewrite Hout by done. by apply B5.
Qed.

Lemma limit_ok_write p p' length length' protocol limit :
  limit_ok p length protocol limit -> limit <= length' -> (forall j, 0 <= j -> j = limit - 1 -> at_ p' j = at_ p j) -> limit_ok p' length' protocol limit.
Proof.
  intros (L1 & L2 & L3) Hl Hs. split; [lia|]. split; [|done].
  destruct (decide (limit = 0)) as [|]; [by left|]. rewrite (Hs (limit - 1)) by lia. done.
Qed.

(** Decide the cells of the goal and of the hypotheses about written buffers. *)
Ltac cells := repeat match goal with
  | H : forall j, 0 <= j -> at_ ?p j = _ |- context [at_ ?p ?i] => rewrite (H i) by lia
  end; repeat case_decide; subst; try lia; auto.

Lemma skip_segments_spec st :
  behind st -> exists st', skip_segments st = Some st' /\ behind st' /\ length st' <= length st /\ ofs st' = ofs st.
Proof.
  destruct st as [p length ofs protocol limit firstsep]. intros (HB & HL & Hp & Hlo & Hf). unfold skip_segments.
  pose proof HB as (B1 & B2 & B3 & B4 & B5).
  destruct (skip_loop_spec (S (Z.to_nat length)) p length ofs) as (a & -> & Ha); [lia..|]. cbn [mbind option_bind].
  destruct (Z.ltb_spec ofs a); [|by eexists].
  destruct (move_at p ofs a (length - a)) as (p1 & -> & Hl1 & H1); [lia..|]. cbn [mbind option_bind].
  destruct (wr_at p1 (length - (a - ofs)) 0) as (p2 & -> & Hl2 & H2); [lia|]. cbn [mbind option_bind].
  eexists. split; [done|]. cbn. split; [|lia]. split; [|split; [|done]].
  - apply (in_buffer_write p p2 length _ ofs); try done; try lia; intros j Hj; try (intros; lia); [left|]; cells.
  - apply (limit_ok_write p _ length); [done|lia|]. intros j Hj ->. cells.
Qed.

(** The last part of the reduction: the path is cut between [o] and [a]. *)
Lemma cut_spec p length ofs protocol limit o a (clearsep : bool) :
  in_buffer p length ofs -> limit_ok p length protocol limit -> 0 <= protocol -> limit <= o -> o <= ofs + 1 -> o < a -> a <= length ->
  (forall i, 0 <= i < o -> at_ p i <> 92) ->
  exists st',
    (path ← move p o a (length - a);
     let length := length - (a - o) in
     path ← wr path length 0;
     '(path, length) ← (if (1 <? length) && clearsep && (limit <? length) then
                          c ← rd path (length - 1);
                          if c =? 47 then path ← wr path (length - 1) 0; Some (path, length - 1) else Some (path, length)
                        else Some (path, length));
     let ofs := if limit + 1 <? o then o - 1 else if negb (limit =? 0) then limit - 1 else 0 in
     c ← rd path ofs;
     let ofs := if c =? 58 then ofs + 1 else ofs in
     Some (mk_clean path length ofs protocol limit false)) = Some st' /\
    inv st' /\ PathClean.length st' < length.
Proof.
  intros HB HL Hp Hlo Hoo Hoa Hal Hno. pose proof HB as (B1 & B2 & B3 & B4 & B5). pose proof HL as (L1 & L2 & L3).
  destruct (move_at p o a (length - a)) as (p1 & -> & Hl1 & H1); [lia..|]. cbn [mbind option_bind].
  set (n := length - (a - o)). destruct (wr_at p1 n 0) as (p2 & -> & Hl2 & H2); [lia|]. cbn [mbind option_bind]. cbv zeta.
  assert (exists p3 m, (if (1 <? n) && clearsep && (limit <? n) then
                          c ← rd p2 (n - 1); if c =? 47 then path ← wr p2 (n - 1) 0; Some (path, n - 1) else Some (p2, n)
                        else Some (p2, n)) = Some (p3, m) /\ len p3 = len buf /\ o - 1 <= m <= n /\ limit <= m /\ at_ p3 m = 0 /\
                       (forall j, 0 <= j < m -> j < o -> at_ p3 j = at_ p j) /\ (forall j, inlength < j -> at_ p3 j = at_ p j))
    as (p3 & m & -> & Hl3 & Hm & Hlm & Hz & H3 & Hout).
  { assert (forall j, inlength < j -> at_ p2 j = at_ p j) as Hout2 by (intros j Hj; cells).
    assert (forall j, 0 <= j < n -> j < o -> at_ p2 j = at_ p j) as Hin2 by (intros j Hj Hjo; cells).
    destruct (Z.ltb_spec 1 n); cbn [andb]; [destruct clearsep; cbn [andb]; [destruct (Z.ltb_spec limit n); [read (n - 1); case_if|]|]|].
    1: destruct (wr_at p2 (n - 1) 0) as (p3 & -> & Hl3 & H3); [lia|]; cbn [mbind option_bind]; exists p3, (n - 1).
    2-5: exists p2, n.
    all: split; [done|]; split; [congruence|]; split; [lia|]; split; [lia|]; split; [cells|split].
    all: intros j Hj; try intros Hjo; cells. }
  cbn [mbind option_bind]. cbv zeta. set (o' := if limit + 1 <? o then o - 1 else _).
  assert (0 <= o' <= m /\ o' <= o /\ (limit <= o' \/ (limit = o' + 1 /\ at_ p3 o' = at_ p (limit - 1)))) as (Ho1 & Ho2 & Ho3).
  { subst o'. destruct (Z.ltb_spec (limit + 1) o); [lia|]. destruct (Z.eqb_spec limit 0); cbn [negb]; [lia|].
    split; [lia|]. split; [lia|]. right. split; [lia|]. apply H3; lia. }
  clearbody o'. read o'. eexists. split; [done|]. split; [|cbn; lia].
  assert (at_ p3 o' = 58 -> o' < m) as Hcolon by (intros E; destruct (decide (o' = m)) as [->|]; [congruence|lia]).
  assert (forall j, 0 <= j < o' -> at_ p3 j = at_ p j) as Hsame by (intros j Hj; apply H3; lia).
  split; [|split; [|split; [done|split; [|done]]]].
  - split; [done|]. case_if; (split; [lia|]; split; [lia|]; split; [|intros j Hj; rewrite Hout by done; by apply B5]).
    + intros i Hi. destruct (decide (i = o')) as [->|]; [lia|]. rewrite Hsame by lia. apply Hno. lia.
    + intros i Hi. rewrite Hsame by lia. apply Hno. lia.
  - apply (limit_ok_write p _ length); [done|lia|]. intros j Hj ->. apply H3; lia.
  - case_if; [lia|]. destruct Ho3 as [|[-> E]]; [lia|]. right. split; [done|]. rewrite E in *. destruct L2 as [|[|]]; lia.
Qed.

Lemma behind_inv st : behind st -> inv st.
Proof. destruct st. intros (H1 & H2 & H3 & H4 & ->). split; [done|]. split; [done|]. split; [done|]. split; [by left|done]. Qed.

Lemma reduce_segments_spec st :
  behind st -> exists st', reduce_segments st = Some st' /\ inv st' /\ (st' = st \/ length st' < length st).
Proof.
  intros Hst. pose proof (behind_inv st Hst) as Hinv. destruct st as [p length ofs protocol limit firstsep].
  destruct Hst as (HB & HL & Hp & Hlo & ->). pose proof HB as (B1 & B2 & B3 & B4 & B5). pose proof HL as (L1 & L2 & L3).
  unfold reduce_segments.
  destruct (count_loop_spec (S (Z.to_nat length)) p length ofs 0) as (a & num & -> & Ha & Hn & Han); [lia..|]. cbn [mbind option_bind].
  destruct (Z.ltb_spec 0 num); [|eexists; split; [done|]; auto].
  destruct (back_loop_spec (S (Z.to_nat num)) p limit num (if limit <? ofs then ofs - 1 else ofs) 0) as (back & reduce & -> & Hb & Hr);
    [destruct (Z.ltb_spec limit ofs); lia|destruct (Z.ltb_spec limit ofs); lia|lia|lia|]. cbn [mbind option_bind].
  assert (limit <= back <= ofs) as Hbo by (destruct (Z.ltb_spec limit ofs); lia). clear Hb.
  assert (exists b : bool, (if back =? limit then if back =? 0 then c ← rd p back; Some (c =? 47) else c ← rd p (back - 1); Some (c =? 47)
                     else Some false) = Some b) as [absolute ->].
  { case_if; [|by eexists]. destruct (Z.eqb_spec back 0); [read back|read (back - 1)]; by eexists. }
  cbn [mbind option_bind]. set (r := if absolute then num else reduce).
  assert (0 <= r <= num) as Hrn by (unfold r; destruct absolute; lia). clearbody r.
  destruct (Z.ltb_spec 0 r); [|eexists; split; [done|]; auto]. read back. cbv zeta.
  set (o := if at_ p back =? 47 then back + 1 else back). set (a' := if r <? num then a - 3 * (num - r) else a).
  assert (ofs + 2 <= a' <= a) as Ha' by (unfold a'; destruct (Z.ltb_spec r num); lia).
  assert (exists b : bool, (if length =? a' then c ← rd p (length - 1); Some (negb (c =? 47)) else Some false) = Some b) as [clearsep ->].
  { case_if; [read (length - 1)|]; by eexists. }
  cbn [mbind option_bind]. edestruct (cut_spec p length ofs protocol limit o a' clearsep HB HL Hp) as (st' & E & Hi & Hlt); last first.
  { exists st'. split; [exact E|]. split; [done|]. by right. }
  { intros i Hi. destruct (decide (i < ofs)); [apply B4; lia|]. unfold o in Hi. destruct (Z.eqb_spec (at_ p back) 47); [|lia].
    assert (i = back) as -> by lia. congruence. }
  { lia. }
  all: unfold o; case_if; lia.
Qed.

(** A state at [ofs] with the bytes in front of it checked. *)
Lemma clean_advance p length ofs ofs' : in_buffer p length ofs -> ofs <= ofs' <= length -> (forall i, ofs <= i < ofs' -> at_ p i <> 92) -> in_buffer p length ofs'.
Proof.
  intros (B1 & B2 & B3 & B4 & B5) Ho Hn. repeat split; try done; try lia. intros i Hi.
  destruct (decide (i < ofs)); [apply B4|apply Hn]; lia.
Qed.

Lemma in_buffer_put p p' length ofs c i :
  in_buffer p length ofs -> len p' = len p -> 0 <= i < length -> c <> 92 ->
  (forall j, 0 <= j -> at_ p' j = if decide (j = i) then c else at_ p j) -> in_buffer p' length ofs.
Proof.
  intros HB Hl Hi Hc H. pose proof HB as (B1 & B2 & B3 & B4 & B5). apply (in_buffer_write p p' length _ ofs); try done; try lia; intros j Hj; try (intros; lia).
  - rewrite H by lia. case_decide; [by right|by left].
  - rewrite H by lia. case_decide; [lia|done].
Qed.

(** The first colon, behind at least one byte. *)
Lemma first_colon_spec p length ofs :
  in_buffer p length ofs -> 0 < ofs < length -> at_ p ofs = 58 ->
  exists st', colon (mk_clean p length ofs 0 0 true) = Some (Some st') /\ inv st' /\ closer (mk_clean p length ofs 0 0 true) st'.
Proof.
  intros HB Ho Hc. pose proof HB as (B1 & B2 & B3 & B4 & B5).
  assert (in_buffer p length (ofs + 1)) as HB' by (apply (clean_advance p length ofs); [done|lia|]; intros i Hi; assert (i = ofs) as -> by lia; lia).
  unfold colon. destruct (Z.eqb_spec ofs 0); [lia|]. cbv zeta.
  assert (exists st', Some (Some (mk_clean p length (ofs + 1) ofs (ofs + 1) false)) = Some (Some st') /\ inv st' /\ closer (mk_clean p length ofs 0 0 true) st') as Hstay.
  { eexists. split; [done|]. split; [|unfold closer; cbn; lia]. split; [done|]. split; [|split; [lia|split; [by left; lia|done]]].
    split; [lia|]. split; [right; left; by rewrite Z.add_simpl_r|lia]. }
  destruct (Z.ltb_spec (ofs + 1) length); [|done]. read (ofs + 1). case_if; [|done].
  destruct (wr_at p (ofs + 1) 47) as (p1 & -> & Hl1 & H1); [lia|]. cbn [mbind option_bind]. read 0.
  pose proof (in_buffer_put p p1 length (ofs + 1) 47 (ofs + 1) HB' Hl1 ltac:(lia) ltac:(lia) H1) as HB1.
  assert (exists p2, (if (ofs =? 1) && (97 <=? at_ p1 0) && (at_ p1 0 <=? 122) then wr p1 0 (at_ p1 0 - 32) else Some p1) = Some p2 /\
    in_buffer p2 length (ofs + 1) /\ at_ p2 ofs = 58 /\ at_ p2 (ofs + 1) = 47 /\ len p2 = len p) as (p2 & -> & HB2 & Hc2 & Hs2 & Hl2).
  { assert (at_ p1 ofs = 58 /\ at_ p1 (ofs + 1) = 47) as [E1 E2] by (split; rewrite H1 by lia; case_decide; lia).
    case_if; [|by exists p1]. destruct (wr_at p1 0 (at_ p1 0 - 32)) as (p2 & -> & Hl2 & H2); [lia|]. exists p2. split; [done|].
    split; [apply (in_buffer_put p1 p2 length (ofs + 1) (at_ p1 0 - 32) 0); try done; lia|].
    split; [|split; [|congruence]]; rewrite H2 by lia; case_decide; lia. }
  cbn [mbind option_bind].
  assert (forall p3 o, in_buffer p3 length o -> o < length -> ofs + 1 <= o -> at_ p3 o = 47 ->
    exists st', Some (Some (mk_clean p3 length o ofs (o + 1) false)) = Some (Some st') /\ inv st' /\ closer (mk_clean p length ofs 0 0 true) st') as Hend.
  { intros p3 o HB3 Ho3 Hoo Hs3. eexists. split; [done|]. split; [|unfold closer; cbn; lia]. split; [done|].
    split; [split; [lia|split; [right; right; by rewrite Z.add_simpl_r|lia]]|split; [lia|split; [by right|done]]]. }
  assert (exists st', Some (Some (mk_clean p2 length (ofs + 1) ofs (ofs + 1 + 1) false)) = Some (Some st') /\ inv st' /\ closer (mk_clean p length ofs 0 0 true) st')
    as Hone by (apply Hend; done || lia).
  destruct (Z.ltb_spec 1 ofs); cbn [andb]; [|done]. destruct (Z.ltb_spec (ofs + 1 + 1) length); [|done]. read (ofs + 1 + 1). case_if; [|done].
  destruct (wr_at p2 (ofs + 1 + 1) 47) as (p3 & -> & Hl3 & H3); [lia|]. cbn [mbind option_bind].
  apply Hend; try lia; [|rewrite H3 by lia; case_decide; done].
  apply (clean_advance p3 length (ofs + 1)); [apply (in_buffer_put p2 p3 length (ofs + 1) 47 (ofs + 1 + 1)); done || lia|lia|].
  intros i Hi. assert (i = ofs + 1) as -> by lia. rewrite H3 by lia. case_decide; lia.
Qed.

(** A colon in front of the path. *)
Lemma leading_colon_spec p length :
  in_buffer p length 0 -> 0 < length ->
  exists st', colon (mk_clean p length 0 0 0 true) = Some (Some st') /\ inv st' /\ closer (mk_clean p length 0 0 0 true) st'.
Proof.
  intros HB Hl. pose proof HB as (B1 & B2 & B3 & B4 & B5). unfold colon. cbn [Z.eqb].
  destruct (move_at p 0 1 (length - 1)) as (p1 & -> & Hl1 & H1); [lia..|]. cbn [mbind option_bind].
  destruct (wr_at p1 (length - 1) 0) as (p2 & -> & Hl2 & H2); [lia|]. cbn [mbind option_bind]. eexists. split; [done|].
  split; [|unfold closer; cbn; lia]. split; [|split; [split; [lia|split; [by left|done]]|split; [done|split; [by left|done]]]].
  apply (in_buffer_write p p2 length _ 0); try done; try lia; intros j Hj; try (intros; lia). cells.
Qed.

(** A colon behind a drive letter behind the protocol. *)
Lemma drive_colon_spec p length ofs protocol limit :
  in_buffer p length ofs -> limit_ok p length protocol limit -> 0 <= protocol -> ofs < length -> limit <= ofs -> at_ p ofs = 58 ->
  let st := mk_clean p length ofs protocol limit false in
  exists r, colon st = Some r /\ match r with Some st' => inv st' /\ closer st st' | None => True end.
Proof.
  intros HB HL Hp Ho Hlo Hc st. pose proof HB as (B1 & B2 & B3 & B4 & B5). pose proof HL as (L1 & L2 & L3). unfold st, colon.
  case_if; [|by eexists]. rewrite andb_true_iff, negb_true_iff in *. destruct Heqb as [Hp0 Hlt%Z.ltb_lt]. apply Z.eqb_neq in Hp0.
  specialize (L3 Hp0). read (ofs - 2).
  assert (exists b : bool, (if at_ p (ofs - 2) =? 58 then Some true
             else if at_ p (ofs - 2) =? 47 then a ← rd p (ofs - 3); Some ((a =? 58) || (a =? 47)) else Some false) = Some b) as [drive ->].
  { repeat case_if; try (by eexists). read (ofs - 3). by eexists. }
  cbn [mbind option_bind]. destruct drive; [|by eexists]. cbv zeta.
  assert (in_buffer p length (ofs + 1)) as HB' by (apply (clean_advance p length ofs); [done|lia|]; intros i Hi; assert (i = ofs) as -> by lia; lia).
  assert (exists r, Some (Some (mk_clean p length (ofs + 1) protocol (ofs + 1) false)) = Some r /\
    match r with Some st' => inv st' /\ closer st st' | None => True end) as Hstay.
  { eexists. split; [done|]. split; [|unfold closer; cbn; lia]. split; [done|]. split; [|split; [lia|split; [by left; lia|done]]].
    split; [lia|]. split; [right; left; by rewrite Z.add_simpl_r|lia]. }
  destruct (Z.ltb_spec (ofs + 1) length); [|done]. read (ofs + 1). case_if; [|done].
  destruct (wr_at p (ofs + 1) 47) as (p1 & -> & Hl1 & H1); [lia|]. cbn [mbind option_bind]. eexists. split; [done|].
  split; [|unfold closer; cbn; lia]. assert (at_ p1 (ofs + 1) = 47) as E by (rewrite H1 by lia; case_decide; done).
  split; [apply (in_buffer_put p p1 length (ofs + 1) 47 (ofs + 1)); done || lia|].
  split; [split; [lia|split; [right; right; by rewrite Z.add_simpl_r|lia]]|split; [lia|split; [by right|done]]].
Qed.

Lemma colon_spec st :
  inv st -> ofs st < length st -> at_ (path st) (ofs st) = 58 ->
  exists r, colon st = Some r /\ match r with Some st' => inv st' /\ closer st st' | None => True end.
Proof.
  destruct st as [p length ofs protocol limit firstsep]. cbn [PathClean.path PathClean.ofs PathClean.length].
  intros (HB & HL & Hp & Hlo & Hf) Ho Hc.
  destruct firstsep.
  - destruct (Hf eq_refl) as [-> ->]. pose proof HB as (_ & B2 & _).
    destruct (decide (ofs = 0)) as [->|]; [destruct (leading_colon_spec p length HB Ho) as (st' & -> & H)|
      destruct (first_colon_spec p length ofs HB ltac:(lia) Hc) as (st' & -> & H)]; by eexists.
  - apply drive_colon_spec; try done. lia.
Qed.

(** One iteration keeps the invariant and comes closer to the end. *)
Lemma clean_step_spec st :
  inv st -> ofs st < length st -> exists st', clean_step st = Some st' /\ inv st' /\ closer st st'.
Proof.
  intros Hinv Ho. unfold clean_step. pose proof Hinv as Hi. destruct st as [p length ofs protocol limit firstsep]. cbn [path PathClean.ofs PathClean.length] in *.
  destruct Hi as (HB & HL & Hp & Hlo & Hf). pose proof HB as (B1 & B2 & B3 & B4 & B5). read ofs.
  assert (exists r, (if at_ p ofs =? 58 then colon (mk_clean p length ofs protocol limit firstsep) else Some None) = Some r /\
    match r with Some st' => inv st' /\ closer (mk_clean p length ofs protocol limit firstsep) st' | None => True end) as (r & -> & Hr).
  { destruct (Z.eqb_spec (at_ p ofs) 58); [by apply colon_spec|by eexists]. }
  cbn [mbind option_bind]. destruct r as [st'|]; [by eexists|]. clear Hr. unfold is_sep.
  destruct (Z.eqb_spec (at_ p ofs) 92) as [H92|H92]; [rewrite orb_true_r|rewrite orb_false_r].
  1: destruct (wr_at p ofs 47) as (p1 & -> & Hl1 & H1); [lia|]; cbn [mbind option_bind].
  2: destruct (Z.eqb_spec (at_ p ofs) 47) as [H47|H47]; cbn [mbind option_bind].
  1-2: match goal with |- context [skip_segments ?st] => assert (behind st) as Hb end.
  { split; [|split; [|split; [done|split; [destruct Hlo as [|[? ?]]; lia|done]]]].
    - apply (clean_advance p1 length ofs); [|lia|]; [apply (in_buffer_put p p1 length ofs 47 ofs); done || lia|]. intros i Hi. assert (i = ofs) as -> by lia. cells.
    - apply (limit_ok_write p _ length); [done|apply HL|]. intros j Hj ->. cells. }
  2: { split; [|split; [done|split; [done|split; [destruct Hlo as [|[? ?]]; lia|done]]]].
    apply (clean_advance p length ofs); [done|lia|]. intros i Hi. assert (i = ofs) as -> by lia. lia. }
  1-2: destruct (skip_segments_spec _ Hb) as (st1 & -> & Hb1 & Hl' & Ho'); cbn [mbind option_bind];
    destruct (reduce_segments_spec st1 Hb1) as (st2 & -> & Hi2 & Hc2); exists st2; (split; [done|]); (split; [done|]);
    cbn [PathClean.ofs PathClean.length] in *; unfold closer; cbn [PathClean.ofs PathClean.length]; destruct Hc2 as [->|]; lia.
  eexists. split; [done|]. split; [|unfold closer; cbn; lia].
  split; [apply (clean_advance p length ofs); [done|lia|]; intros i Hi; by assert (i = ofs) as -> by lia|].
  split; [done|]. split; [done|]. split; [left; destruct Hlo as [|[? ?]]; lia|done].
Qed.

Lemma clean_loop_spec fuel st :
  inv st -> length st * (inlength + 1) + (length st - ofs st) <= Z.of_nat fuel ->
  exists st', clean_loop fuel st = Some st' /\ inv st' /\ ofs st' = length st'.
Proof.
  revert st. induction fuel as [|fuel IH]; intros st Hi Hf; cbn [clean_loop];
    (assert (0 <= ofs st <= length st /\ length st <= inlength) as Hr by (destruct st; cbn; destruct Hi as ((_ & H1 & H2 & _) & _); lia));
    (destruct (Z.ltb_spec (ofs st) (length st)); [|exists st; split; [done|split; [done|lia]]]).
  - nia.
  - destruct (clean_step_spec st Hi) as (st' & -> & Hi' & Hc); [done|]. cbn [mbind option_bind]. apply IH; [done|].
    assert (0 <= ofs st' <= length st' /\ length st' <= inlength) as Hr' by (destruct st'; cbn; destruct Hi' as ((_ & H1 & H2 & _) & _); lia).
    destruct Hc as [|[-> ?]]; nia.
Qed.

(** A path without backslashes in the buffer. *)
Definition clean_in (p : list Z) (length : Z) : Prop := in_buffer p length length.

Lemma clean_in_shorter p length length' : clean_in p length -> 0 <= length' <= length -> clean_in p length'.
Proof. intros (B1 & B2 & B3 & B4 & B5) Hl. repeat split; try done; try lia. intros i Hi. apply B4. lia. Qed.

Lemma leading_dot_spec p length limit :
  clean_in p length -> 0 <= limit <= length ->
  exists p' length',
    (starting ← (if limit + 1 <? length then c ← rd p limit; d ← rd p (limit + 1); Some ((c =? 46) && (d =? 47)) else Some false);
     if (starting : bool) then path ← move p limit (limit + 2) (length - (limit + 2)); Some (path, length - 2) else Some (p, length)) = Some (p', length') /\
    clean_in p' length' /\ length' <= length.
Proof.
  intros HB Hl. pose proof HB as (B1 & B2 & B3 & B4 & B5).
  destruct (Z.ltb_spec (limit + 1) length); cbn [mbind option_bind]; [|by eexists _, _].
  read limit. read (limit + 1). case_if; [|by eexists _, _].
  destruct (move_at p limit (limit + 2) (length - (limit + 2))) as (p1 & -> & Hl1 & H1); [lia..|]. cbn [mbind option_bind].
  eexists _, _. split; [done|]. split; [|lia]. split; [congruence|]. split; [lia|]. split; [lia|]. split.
  - intros i Hi. cells; apply B4; lia.
  - intros i Hi. cells.
Qed.

(** The rest: the trailing dot, and the terminating zero. *)
Lemma trailing_dot_spec p length :
  clean_in p length ->
  exists p' length',
    (ending ← (if 1 <? length then c ← rd p (length - 2); d ← rd p (length - 1); Some ((c =? 47) && (d =? 46)) else Some false);
     let length := if (ending : bool) then length - 1 else length in
     only ← (if length =? 1 then c ← rd p 0; Some (c =? 46) else Some false);
     let length := if (only : bool) then length - 1 else length in
     path ← (if length <? inlength then wr p length 0 else Some p);
     Some (path, length)) = Some (p', length') /\
    clean_in p' length' /\ (length' < inlength -> at_ p' length' = 0).
Proof.
  intros HB. pose proof HB as (B1 & B2 & B3 & B4 & B5).
  assert (exists b : bool, (if 1 <? length then c ← rd p (length - 2); d ← rd p (length - 1); Some ((c =? 47) && (d =? 46)) else Some false) = Some b /\
    (b = true -> 1 < length)) as (ending & -> & He).
  { destruct (Z.ltb_spec 1 length); [|by exists false]. read (length - 2). read (length - 1). by eexists. }
  cbn [mbind option_bind]. cbv zeta. set (n := if ending then length - 1 else length).
  assert (0 <= n <= length) as Hn by (unfold n; destruct ending; [specialize (He eq_refl)|]; lia). clearbody n.
  assert (exists b : bool, (if n =? 1 then c ← rd p 0; Some (c =? 46) else Some false) = Some b /\ (b = true -> n = 1)) as (only & -> & Hb).
  { destruct (Z.eqb_spec n 1); [|by exists false]. read 0. by eexists. }
  cbn [mbind option_bind]. set (m := if only then n - 1 else n).
  assert (0 <= m <= length) as Hm by (unfold m; destruct only; [specialize (Hb eq_refl)|]; lia). clearbody m.
  assert (clean_in p m) as HB' by by apply (clean_in_shorter p length).
  destruct (Z.ltb_spec m inlength); cbn [mbind option_bind]; [|eexists _, _; split; [done|]; split; [done|lia]].
  destruct (wr_at p m 0) as (p' & -> & Hl' & H'); [lia|]. cbn [mbind option_bind]. eexists _, _. split; [done|].
  split; [|intros _; cells]. destruct HB' as (C1 & C2 & C3 & C4 & C5). split; [congruence|]. split; [done|]. split; [done|].
  split; intros i Hi; cells.
Qed.

Lemma option_bind_assoc {A B C} (f : A -> option B) (g : B -> option C) (x : option A) : (y ← (x ≫= f); g y) = (x ≫= fun a => f a ≫= g).
Proof. by destruct x. Qed.

Lemma clean_ends_spec st :
  inv st -> ofs st = length st ->
  exists p' length', clean_ends st inlength = Some (p', length') /\ clean_in p' length' /\ (length' < inlength -> at_ p' length' = 0).
Proof.
  destruct st as [p length ofs protocol limit firstsep]. cbn [PathClean.ofs PathClean.length]. intros (HB & (HL & _) & _) ->. unfold clean_ends.
  destruct (leading_dot_spec p length limit HB HL) as (p1 & l1 & E & HB1 & Hl1). cbv zeta in E |- *.
  match type of E with (?x ≫= ?f) = _ => destruct x as [b|]; [|done]; cbn [mbind option_bind] in E |- *; rewrite E end.
  cbn [mbind option_bind]. by apply trailing_dot_spec.
Qed.

(** C31: [path_clean] returns: for a path and a terminating zero in a buffer, it
    reads and writes only the path and the zero behind it, the result is not
    longer than the path, is terminated if it is shorter, and has no backslash;
    what is behind the path in the buffer stays. *)
Theorem path_clean_returns :
  exists buf' n, path_clean buf inlength = Some (buf', n) /\ len buf' = len buf /\ 0 <= n <= inlength /\
    (n < inlength -> at_ buf' n = 0) /\ (forall i, 0 <= i < n -> at_ buf' i <> 92) /\ (forall i, inlength < i -> at_ buf' i = at_ buf i).
Proof.
  unfold path_clean. destruct (clean_loop_spec (Z.to_nat ((inlength + 1) * (inlength + 1))) (mk_clean buf inlength 0 0 0 true)) as (st & -> & Hi & Ho).
  - split; [repeat split; done || lia|]. split; [split; [lia|split; [by left|done]]|]. split; [done|split; [by left|done]].
  - cbn [PathClean.length PathClean.ofs]. nia.
  - cbn [mbind option_bind]. destruct (clean_ends_spec st Hi Ho) as (p' & n & E & (B1 & B2 & B3 & B4 & B5) & Hz).
    exists p', n. split; [exact E|]. split; [done|]. split; [lia|]. by split.
Qed.
End cleaning.

(** ** Paths that are clean already *)

(** What may follow a separator: no separator, no ["."] and no [".."] segment. *)
Definition segment_ok (p : list Z) : bool :=
  match p with
  | 47 :: _ | [46] | 46 :: 47 :: _ | [46; 46] | 46 :: 46 :: 47 :: _ => false
  | _ => true
  end.

Fixpoint segments_ok (p : list Z) : bool :=
  match p with
  | [] => true
  | c :: p => negb (c =? 58) && negb (c =? 92) && (if c =? 47 then segment_ok p else true) && segments_ok p
  end.

(** No colon, no backslash, and no segment to remove. *)
Definition neat (p : list Z) : bool :=
  segments_ok p && match p with [46] | 46 :: 47 :: _ => false | _ => true end.

(** Comparisons of lengths. *)
Ltac lens := symmetry; rewrite ?len_app, ?path_len_cons; repeat match goal with |- context [len ?l] => lazymatch goal with H : 0 <= len l |- _ => fail | _ => pose proof (len_nonneg l) end end;
  (apply Z.ltb_lt || apply Z.ltb_ge || apply Z.eqb_neq); change (len []) with 0; lia.

(** The byte [i] of [b] in [a ++ b], where [b] shows it. *)
Ltac read_app i :=
  rewrite (rd_app_len _ _ i) by lia; cbn [app];
  (rewrite (proj1 (rd_head _ 0 0 _)) || rewrite (proj1 (proj2 (rd_head _ _ 0 _))) || rewrite (proj2 (proj2 (rd_head _ _ _ _))));
  cbn [mbind option_bind].

Lemma not_sep c r : segments_ok (c :: r) = true -> c <> 47 -> is_sep c = false.
Proof. cbn [segments_ok]. unfold is_sep. intros H Hc. destruct (Z.eqb_spec c 92); [by rewrite andb_false_r in H|]. lia. Qed.

Lemma segments_ok_tail c r : segments_ok (c :: r) = true -> segments_ok r = true.
Proof. cbn [segments_ok]. by intros [_ H]%andb_true_iff. Qed.

Lemma skip_nothing fuel a r t :
  segment_ok r = true -> segments_ok r = true -> skip_loop (S fuel) (a ++ r ++ t) (len (a ++ r)) (len a) = Some (len a).
Proof.
  intros Hs Hr. cbn [skip_loop]. rewrite len_app. destruct r as [|c r]; [rewrite Z.add_0_r, Z.ltb_irrefl; done|].
  replace (len a <? _) with true by lens. cbn [app].
  rewrite rd_mid_len. cbn [mbind option_bind]. destruct (Z.eqb_spec c 46) as [->|Hc].
  - destruct r as [|d r]; [replace (_ <? _) with false by lens; done|].
    replace (_ <? _) with true by lens. read_app 1.
    rewrite (not_sep d r); [done|by apply segments_ok_tail in Hr|]. intros ->. cbn in Hs. by destruct r.
  - rewrite (not_sep c r); [done..|]. intros ->. done.
Qed.

Lemma count_nothing fuel a r t :
  segment_ok r = true -> segments_ok r = true -> count_loop (S fuel) (a ++ r ++ t) (len (a ++ r)) (len a) 0 = Some (len a, 0).
Proof.
  intros Hs Hr. cbn [count_loop]. rewrite len_app.
  destruct r as [|c [|d r]]; [replace (_ <? _) with false by lens; done..|].
  replace (_ <? _) with true by lens. cbn [app].
  rewrite rd_mid_len. cbn [mbind option_bind]. read_app 1.
  destruct (Z.eqb_spec c 46) as [->|]; [|done]. destruct (Z.eqb_spec d 46) as [->|]; [|done]. cbn [andb].
  destruct r as [|e r]; [done|]. replace (_ =? _) with false by lens. cbn [app]. read_app 2.
  rewrite (not_sep e r); [done|by do 2 apply segments_ok_tail in Hr|]. intros ->. done.
Qed.

Lemma clean_step_neat a c r t firstsep :
  segments_ok (c :: r) = true ->
  exists firstsep', clean_step (mk_clean (a ++ (c :: r) ++ t) (len (a ++ c :: r)) (len a) 0 0 firstsep) =
    Some (mk_clean (a ++ (c :: r) ++ t) (len (a ++ c :: r)) (len a + 1) 0 0 firstsep').
Proof.
  intros Hok. unfold clean_step. cbn [path ofs app]. rewrite rd_mid_len. cbn [mbind option_bind].
  pose proof (segments_ok_tail c r Hok) as Hr. cbn [segments_ok] in Hok. rewrite !andb_true_iff, !negb_true_iff in Hok.
  destruct Hok as [[[-> H92] Hseg] _]. cbn [mbind option_bind]. unfold is_sep. rewrite H92, orb_false_r.
  destruct (Z.eqb_spec c 47) as [->|]; [|by eexists]. cbn [mbind option_bind].
  replace (len a + 1) with (len (a ++ [47])) by (rewrite len_app; done).
  replace (a ++ 47 :: r ++ t) with ((a ++ [47]) ++ r ++ t) by (by rewrite <- app_assoc).
  replace (a ++ 47 :: r) with ((a ++ [47]) ++ r) by (by rewrite <- app_assoc). set (b := a ++ [47]).
  unfold skip_segments. rewrite skip_nothing by done. cbn [mbind option_bind]. rewrite Z.ltb_irrefl. cbn [mbind option_bind].
  unfold reduce_segments. rewrite count_nothing by done. cbn [mbind option_bind]. by eexists.
Qed.

Lemma clean_loop_neat fuel a r t firstsep :
  segments_ok r = true -> (Datatypes.length r <= fuel)%nat ->
  exists firstsep', clean_loop fuel (mk_clean (a ++ r ++ t) (len (a ++ r)) (len a) 0 0 firstsep) =
    Some (mk_clean (a ++ r ++ t) (len (a ++ r)) (len (a ++ r)) 0 0 firstsep').
Proof.
  revert a r firstsep. induction fuel as [|fuel IH]; intros a [|c r] firstsep Hok Hf; cbn [Datatypes.length] in Hf; try lia; cbn [clean_loop PathClean.ofs PathClean.length].
  1-2: rewrite app_nil_r, Z.ltb_irrefl; by eexists.
  replace (_ <? _) with true by lens.
  destruct (clean_step_neat a c r t firstsep Hok) as (fs & ->). cbn [mbind option_bind].
  destruct (IH (a ++ [c]) r fs (segments_ok_tail c r Hok) ltac:(lia)) as (fs' & E). exists fs'.
  rewrite <- !app_assoc in E. replace (len (a ++ [c])) with (len a + 1) in E by (by rewrite len_app). exact E.
Qed.

Lemma segments_ok_suffix a b : segments_ok (a ++ b) = true -> segments_ok b = true.
Proof. induction a as [|c a IH]; [done|]. intros H%segments_ok_tail. by apply IH. Qed.

Lemma clean_ends_neat p t firstsep :
  neat p = true -> clean_ends (mk_clean (p ++ t) (len p) (len p) 0 0 firstsep) (len p) = Some (p ++ t, len p).
Proof.
  intros [Hok Hhead]%andb_true_iff. unfold clean_ends.
  assert ((if 0 + 1 <? len p then c ← rd (p ++ t) 0; d ← rd (p ++ t) (0 + 1); Some ((c =? 46) && (d =? 47)) else Some false) = Some false) as ->.
  { destruct p as [|c [|d p]]; [done..|]. replace (_ <? _) with true by lens.
    change (rd ((c :: d :: p) ++ t) 0) with (Some c). change (rd ((c :: d :: p) ++ t) (0 + 1)) with (Some d). cbn [mbind option_bind].
    destruct (Z.eqb_spec c 46) as [->|]; [|done]. by destruct (Z.eqb_spec d 47) as [->|]. }
  cbn [mbind option_bind].
  assert ((if 1 <? len p then c ← rd (p ++ t) (len p - 2); d ← rd (p ++ t) (len p - 1); Some ((c =? 47) && (d =? 46)) else Some false) = Some false) as ->.
  { destruct p as [|d q _] using rev_ind; [done|]. destruct q as [|c q _] using rev_ind; [done|].
    replace (len ((q ++ [c]) ++ [d])) with (len q + 2) by (rewrite !len_app; change (len [c]) with 1; change (len [d]) with 1; lia).
    replace (len q + 2 - 2) with (len q + 0) by lia. replace (len q + 2 - 1) with (len q + 1) by lia.
    rewrite <- !app_assoc. case_if; [|done]. cbn [app]. read_app 1. read_app 0.
    destruct (Z.eqb_spec c 47) as [->|]; [|done]. destruct (Z.eqb_spec d 46) as [->|]; [|done].
    rewrite <- app_assoc in Hok. apply segments_ok_suffix in Hok. done. }
  cbn [mbind option_bind].
  assert ((if len p =? 1 then c ← rd (p ++ t) 0; Some (c =? 46) else Some false) = Some false) as ->.
  { destruct (Z.eqb_spec (len p) 1) as [E|]; [|done]. destruct p as [|c [|]]; [done| |unfold len in E; cbn in E; lia].
    change (rd ([c] ++ t) 0) with (Some c). cbn [mbind option_bind]. by destruct (Z.eqb_spec c 46) as [->|]. }
  cbn [mbind option_bind]. by rewrite Z.ltb_irrefl.
Qed.

(** [path_clean] leaves a path alone that has no colon, no backslash, no
    empty segment, no ["."] and no [".."] segment. *)
Theorem path_clean_neat p : neat p = true -> path_clean (p ++ [0]) (len p) = Some (p ++ [0], len p).
Proof.
  intros Hn. pose proof Hn as [Hok _]%andb_true_iff. unfold path_clean.
  destruct (clean_loop_neat (Z.to_nat ((len p + 1) * (len p + 1))) [] p [0] true Hok) as (fs & E); [unfold len; nia|].
  cbn [app] in E. change (len []) with 0 in E. rewrite E. cbn [mbind option_bind]. by apply clean_ends_neat.
Qed.

(** ["/a/b.c"] *)
Lemma path_clean_neat_witness : path_clean ([47; 97; 47; 98; 46; 99] ++ [0]) 6 = Some ([47; 97; 47; 98; 46; 99] ++ [0], 6).
Proof. apply (path_clean_neat [47; 97; 47; 98; 46; 99]). reflexivity. Defined.

(** ["a\..\b"] with its zero in a buffer of eight bytes *)
Lemma path_clean_returns_witness :
  exists buf' n, path_clean [97; 92; 46; 46; 92; 98; 0; 7] 6 = Some (buf', n) /\ 0 <= n <= 6 /\ at_ buf' 7 = 7.
Proof.
  destruct (path_clean_returns [97; 92; 46; 46; 92; 98; 0; 7] 6 ltac:(done)) as (buf' & n & E & _ & Hn & _ & _ & Hout).
  exists buf', n. split; [exact E|]. split; [exact Hn|]. apply (Hout 7). lia.
Defined.

(** A path of the repository's test, ["C:\//http://.//test/../../../../foo//../bar//zed/../../..///path"]. *)
Example path_clean_drive :
  cleaned [67;58;92;47;47;104;116;116;112;58;47;47;46;47;47;116;101;115;116;47;46;46;47;46;46;47;46;46;47;46;46;47;102;111;111;47;47;46;46;47;98;97;114;47;47;122;101;100;47;46;46;47;46;46;47;46;46;47;47;47;112;97;116;104]
  = Some [67; 58; 47; 112; 97; 116; 104].
Proof. by vm_compute. Qed.

(** The relative path ["a/../.."] becomes the absolute path ["/"]. *)
Example path_clean_relative_to_root : cleaned [97; 47; 46; 46; 47; 46; 46] = Some [47].
Proof. by vm_compute. Qed.
End PathClean.
