(* ===== verification/Regex.v ===== *)
(** * Regular expressions ([src/library/foundation_lib/foundation/regex.c])

    The compiler from patterns to byte code and the machine that runs the code
    on an input.  [None] is an access outside an array, or fuel that ran out:
    the compiler gets a step per byte, the machine a bound that the theorems of
    [RegexMatch] give.  The code array is the list of its bytes in use. *)
From S2P Require Import Prelude Str.

Module Regex.
Import Str.

(** ** Codes *)

Definition REGEXERR_OK : Z := 0.
Definition REGEXERR_TOO_LONG : Z := 2 ^ 64 - 1.
Definition REGEXERR_MISMATCHED_CAPTURES : Z := 2 ^ 64 - 2.
Definition REGEXERR_MISMATCHED_BLOCKS : Z := 2 ^ 64 - 3.
Definition REGEXERR_INVALID_QUANTIFIER : Z := 2 ^ 64 - 4.
Definition REGEXERR_BRANCH_FAILURE : Z := 2 ^ 64 - 5.
Definition REGEXERR_INTERNAL_FAILURE : Z := 2 ^ 64 - 6.
Definition REGEXRES_INTERNAL_FAILURE : Z := 2 ^ 64 - 2.
Definition REGEXRES_NOMATCH : Z := 2 ^ 64 - 1.
Definition REGEXCODE_NULL : Z := 0.
Definition REGEXCODE_WHITESPACE : Z := 0x0100.
Definition REGEXCODE_NONWHITESPACE : Z := 0x0200.
Definition REGEXCODE_DIGIT : Z := 0x0300.
Definition REGEXCODE_NONDIGIT : Z := 0x0400.
Definition REGEXPARSE_NOBRANCH : Z := 2 ^ 64 - 1.

Definition REGEXOP_BEGIN_CAPTURE : Z := 0.
Definition REGEXOP_END_CAPTURE : Z := 1.
Definition REGEXOP_BEGINNING_OF_LINE : Z := 2.
Definition REGEXOP_END_OF_LINE : Z := 3.
Definition REGEXOP_EXACT_MATCH : Z := 4.
Definition REGEXOP_META_MATCH : Z := 5.
Definition REGEXOP_ANY : Z := 6.
Definition REGEXOP_ANY_OF : Z := 7.
Definition REGEXOP_ANY_BUT : Z := 8.
Definition REGEXOP_ZERO_OR_MORE : Z := 9.
Definition REGEXOP_ONE_OR_MORE : Z := 10.
Definition REGEXOP_ZERO_OR_MORE_SHORTEST : Z := 11.
Definition REGEXOP_ONE_OR_MORE_SHORTEST : Z := 12.
Definition REGEXOP_ZERO_OR_ONE : Z := 13.
Definition REGEXOP_BRANCH : Z := 14.
Definition REGEXOP_BRANCH_END : Z := 15.

(** ["^$()[].*+?|\"] *)
Definition REGEX_META_CHARACTERS : list Z := [94; 36; 40; 41; 91; 93; 46; 42; 43; 63; 124; 92].

(** Space, newline, return, tab, vertical tab, form feed. *)
Definition STRING_WHITESPACE : list Z := [32; 10; 13; 9; 11; 12].
Definition DIGITS : list Z := [48; 49; 50; 51; 52; 53; 54; 55; 56; 57].

(** ** Characters *)

Definition is_hex_digit (c : Z) : bool :=
  ((48 <=? c) && (c <=? 57)) || ((97 <=? c) && (c <=? 102)) || ((65 <=? c) && (c <=? 70)).

(** The second byte is only read when the first one is a digit. *)
Definition regex_is_hex (p : list Z) (i : Z) : option bool :=
  c ← rd p i;
  if is_hex_digit c then d ← rd p (i + 1); Some (is_hex_digit d) else Some false.

Definition regex_parse_hex_digit (c : Z) : Z :=
  if (48 <=? c) && (c <=? 57) then c - 48
  else if (97 <=? c) && (c <=? 102) then 10 + (c - 97)
  else if (65 <=? c) && (c <=? 70) then 10 + (c - 65)
  else 0.

Definition regex_parse_hex (c d : Z) : Z :=
  Z.lor (Z.land (Z.shiftl (regex_parse_hex_digit c) 4) 0xF0) (Z.land (regex_parse_hex_digit d) 0xF).

(** A byte above 127 is a negative [char], but only its low byte is used. *)
Definition regex_encode_escape (code : Z) : Z :=
  if code =? 110 then 10
  else if code =? 114 then 13
  else if code =? 116 then 9
  else if code =? 48 then REGEXCODE_NULL
  else if code =? 115 then REGEXCODE_WHITESPACE
  else if code =? 83 then REGEXCODE_NONWHITESPACE
  else if code =? 100 then REGEXCODE_DIGIT
  else if code =? 68 then REGEXCODE_NONDIGIT
  else code.

Definition regex_match_escape (c code : Z) : bool :=
  if code =? REGEXCODE_NULL then c =? 0
  else if code =? REGEXCODE_WHITESPACE then negb (string_find STRING_WHITESPACE c 0 =? NPOS)
  else if code =? REGEXCODE_NONWHITESPACE then string_find STRING_WHITESPACE c 0 =? NPOS
  else if code =? REGEXCODE_DIGIT then negb (string_find DIGITS c 0 =? NPOS)
  else if code =? REGEXCODE_NONDIGIT then string_find DIGITS c 0 =? NPOS
  else false.

(** ** The compiler *)

Record regex_t := mk_regex { capture_count : Z; code_allocated : Z; code : list Z }.

Definition with_code (t : regex_t) (c : list Z) : regex_t := mk_regex (capture_count t) (code_allocated t) c.

(** Make room for [ops] bytes, or fail. *)
Definition grow (t : regex_t) (allow_grow : bool) (ops : Z) : option regex_t :=
  if code_allocated t <? len (code t) + ops then
    if allow_grow then Some (mk_regex (capture_count t) (2 * code_allocated t + ops) (code t)) else None
  else Some t.

(** The values up to the first one that is too large. *)
Fixpoint emit_loop (t : regex_t) (vals : list Z) : regex_t * Z :=
  match vals with
  | [] => (t, REGEXERR_OK)
  | v :: vals => if 256 <? v then (t, REGEXERR_TOO_LONG) else emit_loop (with_code t (code t ++ [u8 v])) vals
  end.

Definition regex_emit (t : regex_t) (allow_grow : bool) (vals : list Z) : regex_t * Z :=
  match grow t allow_grow (len vals) with None => (t, REGEXERR_TOO_LONG) | Some t => emit_loop t vals end.

Definition regex_emit_buffer (t : regex_t) (allow_grow : bool) (buffer : list Z) : regex_t * Z :=
  match grow t allow_grow (len buffer) with
  | None => (t, REGEXERR_TOO_LONG)
  | Some t => (with_code t (code t ++ buffer), REGEXERR_OK)
  end.

(** Stores into the code, within its length. *)
Definition put (t : regex_t) (i v : Z) : option regex_t :=
  if (0 <=? i) && (i <? len (code t)) then Some (with_code t (<[Z.to_nat i := v]> (code t))) else None.

(** [memmove] inside the code by [by_] bytes towards its end; it may touch
    allocated bytes behind the code, and [None] is a write behind these. *)
Definition shift_up (t : regex_t) (from by_ size : Z) : option regex_t :=
  if from + by_ + size <=? code_allocated t then
    Some (with_code t (take (length (code t)) (take (Z.to_nat (from + by_)) (code t) ++ sub (code t) from size ++ drop (Z.to_nat (from + by_ + size)) (code t))))
  else None.

Definition regex_compile_quantifier (t : regex_t) (allow_grow : bool) (last_code_length quantifier : Z) : option (regex_t * Z) :=
  op ← rd (code t) last_code_length;
  size ← (if op =? REGEXOP_EXACT_MATCH then rd (code t) (last_code_length + 1) else Some 0);
  if 1 <? size then
    last_char ← rd (code t) (len (code t) - 1);
    before ← rd (code t) (len (code t) - 2);
    if before =? 0 then Some (t, REGEXERR_INTERNAL_FAILURE)
    else
      t ← put t (last_code_length + 1) (size - 1);
      let t := with_code t (removelast (code t)) in
      Some (regex_emit t allow_grow [quantifier; REGEXOP_EXACT_MATCH; 1; last_char])
  else
    let move_size := 1 + len (code t) - last_code_length in
    let '(t, ret) := regex_emit t allow_grow [0] in
    if negb (ret =? 0) then Some (t, ret)
    else
      t ← shift_up t last_code_length 1 move_size;
      t ← put t last_code_length quantifier;
      Some (t, REGEXERR_OK).

(** The bytes an escape adds to a group. *)
Definition escape_bytes (code : Z) : list Z :=
  if (code =? 0) || (0xFF <? code) then [0; Z.land (Z.shiftr code 8) 0xFF] else [Z.land code 0xFF].

(** The loop over the group; [buffer] holds at most 256 bytes. *)
Fixpoint group_loop (fuel : nat) (t : regex_t) (pattern : list Z) (offset length : Z) (allow_grow : bool) (op : Z) (buffer : list Z)
    : option (regex_t * Z) :=
  if length <=? offset then Some (t, REGEXERR_MISMATCHED_BLOCKS)
  else
    match fuel with
    | O => None
    | S fuel =>
        c ← rd pattern offset;
        if c =? 93 then
          let '(t, ret) := regex_emit t allow_grow [op; len buffer] in
          if negb (ret =? 0) then Some (t, ret)
          else
            let '(t, ret) := if negb (len buffer =? 0) then regex_emit_buffer t allow_grow buffer else (t, ret) in
            if negb (ret =? 0) then Some (t, ret) else Some (t, offset + 1)
        else if 256 <=? len buffer then Some (t, REGEXERR_TOO_LONG)
        else if c =? 92 then
          let offset := offset + 1 in
          hex ← (if offset + 1 <? length then regex_is_hex pattern offset else Some false);
          if (hex : bool) then
            c ← rd pattern offset;
            d ← rd pattern (offset + 1);
            group_loop fuel t pattern (offset + 2) length allow_grow op (buffer ++ [regex_parse_hex c d])
          else if offset <? length then
            c ← rd pattern offset;
            let bytes := escape_bytes (regex_encode_escape c) in
            if 256 <? len buffer + len bytes then Some (t, REGEXERR_TOO_LONG)
            else group_loop fuel t pattern (offset + 1) length allow_grow op (buffer ++ bytes)
          else group_loop fuel t pattern (offset + 1) length allow_grow op buffer
        else group_loop fuel t pattern (offset + 1) length allow_grow op (buffer ++ [c])
    end.

(** At the end of the pattern, the byte behind it is read. *)
Definition regex_parse_group (t : regex_t) (pattern : list Z) (offset length : Z) (allow_grow : bool) : option (regex_t * Z) :=
  c ← rd pattern offset;
  let '(offset, op) := if c =? 94 then (offset + 1, REGEXOP_ANY_BUT) else (offset, REGEXOP_ANY_OF) in
  group_loop (S (Z.to_nat length)) t pattern offset length allow_grow op [].

Definition is_meta (c : Z) : bool := negb (string_find REGEX_META_CHARACTERS c 0 =? NPOS).

(** The end of a run of characters that are not special. *)
Fixpoint exact_loop (fuel : nat) (pattern : list Z) (offset length : Z) : option Z :=
  match fuel with
  | O => None
  | S fuel =>
      if offset <? length then
        c ← rd pattern offset;
        if is_meta c then Some offset else exact_loop fuel pattern (offset + 1) length
      else Some offset
  end.

(** Whether the code at [last_code_length] can be repeated. *)
Definition quantifiable (t : regex_t) (last_code_length : Z) : option bool :=
  if len (code t) <=? last_code_length then Some false
  else op ← rd (code t) last_code_length; Some ((REGEXOP_EXACT_MATCH <=? op) && (op <=? REGEXOP_ANY_BUT)).

(** The loop of the parser; the parentheses inside a capture are parsed by a
    call of its own. *)
Fixpoint regex_parser_loop (fuel : nat) (t : regex_t) (pattern : list Z) (offset length : Z) (allow_grow : bool) (level : nat)
    (last_code_length branch_begin branch_op : Z) {struct fuel} : option (regex_t * Z) :=
  if length <=? offset then Some (t, offset)
  else
    match fuel with
    | O => None
    | S fuel =>
        let go t offset last_code_length branch_op :=
          regex_parser_loop fuel t pattern offset length allow_grow level last_code_length branch_begin branch_op in
        (* emit, and go on with the loop if that is possible *)
        let emit t vals (k : regex_t -> option (regex_t * Z)) :=
          let '(t, ret) := regex_emit t allow_grow vals in if negb (ret =? 0) then Some (t, ret) else k t in
        c ← rd pattern offset;
        let offset := offset + 1 in
        if c =? 94 then emit t [REGEXOP_BEGINNING_OF_LINE] (fun t => go t offset last_code_length branch_op)
        else if c =? 36 then emit t [REGEXOP_END_OF_LINE] (fun t => go t offset last_code_length branch_op)
        else if c =? 40 then
          let capture := capture_count t in
          let t := mk_regex (capture + 1) (code_allocated t) (code t) in
          let last_code_length := len (code t) in
          emit t [REGEXOP_BEGIN_CAPTURE; capture] (fun t =>
            '(t, offset) ← regex_parser_loop fuel t pattern offset length allow_grow (S level) (len (code t)) (len (code t)) REGEXPARSE_NOBRANCH;
            if length <? offset then Some (t, REGEXERR_MISMATCHED_CAPTURES)
            else
              c ← rd pattern (offset - 1);
              if negb (c =? 41) then Some (t, REGEXERR_MISMATCHED_CAPTURES)
              else emit t [REGEXOP_END_CAPTURE; capture] (fun t => go t offset last_code_length branch_op))
        else if c =? 41 then
          t ← (if negb (branch_op =? REGEXPARSE_NOBRANCH) then put t (branch_op + 1) (u8 (len (code t) - (branch_op + 2))) else Some t);
          if (level =? 0)%nat then Some (t, REGEXERR_MISMATCHED_CAPTURES) else Some (t, offset)
        else if c =? 91 then
          let last_code_length := len (code t) in
          '(t, offset) ← regex_parse_group t pattern offset length allow_grow;
          if length <? offset then Some (t, 0) else go t offset last_code_length branch_op
        else if c =? 46 then
          let last_code_length := len (code t) in
          emit t [REGEXOP_ANY] (fun t => go t offset last_code_length branch_op)
        else if (c =? 42) || (c =? 43) then
          let quantifier := if c =? 42 then REGEXOP_ZERO_OR_MORE else REGEXOP_ONE_OR_MORE in
          ok ← quantifiable t last_code_length;
          if negb ok then Some (t, REGEXERR_INVALID_QUANTIFIER)
          else
            shortest ← (if offset <? length then d ← rd pattern offset; Some (d =? 63) else Some false);
            let '(quantifier, offset) :=
              if (shortest : bool) then
                ((if quantifier =? REGEXOP_ZERO_OR_MORE then REGEXOP_ZERO_OR_MORE_SHORTEST else REGEXOP_ONE_OR_MORE_SHORTEST), offset + 1)
              else (quantifier, offset) in
            '(t, ret) ← regex_compile_quantifier t allow_grow last_code_length quantifier;
            if negb (ret =? 0) then Some (t, ret) else go t offset last_code_length branch_op
        else if c =? 63 then
          ok ← quantifiable t last_code_length;
          if negb ok then Some (t, REGEXERR_INVALID_QUANTIFIER)
          else
            '(t, ret) ← regex_compile_quantifier t allow_grow last_code_length REGEXOP_ZERO_OR_ONE;
            if negb (ret =? 0) then Some (t, ret) else go t offset last_code_length branch_op
        else if c =? 92 then
          let last_code_length := len (code t) in
          hex ← (if offset + 1 <? length then regex_is_hex pattern offset else Some false);
          if (hex : bool) then
            c ← rd pattern offset;
            d ← rd pattern (offset + 1);
            emit t [REGEXOP_META_MATCH; regex_parse_hex c d] (fun t => go t (offset + 2) last_code_length branch_op)
          else if offset <? length then
            c ← rd pattern offset;
            emit t (REGEXOP_META_MATCH :: escape_bytes (regex_encode_escape c)) (fun t => go t (offset + 1) last_code_length branch_op)
          else go t offset last_code_length branch_op
        else if c =? 124 then
          if len (code t) <=? branch_begin then Some (t, REGEXERR_BRANCH_FAILURE)
          else
            let size := len (code t) - branch_begin in
            emit t [0; 0; REGEXOP_BRANCH_END; 0] (fun t =>
              t ← shift_up t branch_begin 2 size;
              t ← put t branch_begin REGEXOP_BRANCH;
              t ← put t (branch_begin + 1) (Z.land (size + 2) 0xFF);
              go t offset last_code_length (len (code t) - 2))
        else
          let start := offset - 1 in
          offset ← exact_loop (S (Z.to_nat length)) pattern start length;
          let size := offset - start in
          let last_code_length := len (code t) in
          emit t [REGEXOP_EXACT_MATCH; size] (fun t =>
            let '(t, ret) := regex_emit_buffer t allow_grow (sub pattern start size) in
            if negb (ret =? 0) then Some (t, ret) else go t offset last_code_length branch_op)
    end.

Definition regex_parser (t : regex_t) (pattern : list Z) (offset length : Z) (allow_grow : bool) (level : nat) : option (regex_t * Z) :=
  regex_parser_loop (Z.to_nat length) t pattern offset length allow_grow level (len (code t)) (len (code t)) REGEXPARSE_NOBRANCH.

(** [Some None] is the null pointer of a pattern that was refused. *)
Definition regex_compile (pattern : list Z) : option (option regex_t) :=
  '(t, offset) ← regex_parser (mk_regex 0 (len pattern + 16) []) pattern 0 (len pattern) true 0;
  Some (if offset =? len pattern then Some t else None).

(** Into the array of a regex that the caller has allocated. *)
Definition regex_parse (regex : regex_t) (pattern : list Z) : option (regex_t * bool) :=
  '(t, offset) ← regex_parser regex pattern 0 (len pattern) false 0;
  Some (t, offset =? len pattern).

(** ** The machine *)

Record regex_context_t := mk_context { op : Z; inoffset : Z }.

Definition regex_context_nomatch (next_op : Z) : regex_context_t := mk_context next_op REGEXRES_NOMATCH.
Definition regex_context_internal_failure (next_op : Z) : regex_context_t := mk_context next_op REGEXRES_INTERNAL_FAILURE.

(** A capture is the offset of its string in the input and its length; no
    captures are the empty list. *)
Definition captures_t : Type := list (Z * Z).

Definition begin_capture (captures : captures_t) (capture inoffset : Z) : captures_t :=
  alter (fun '(_, n) => (inoffset, n)) (Z.to_nat capture) captures.

Definition end_capture (captures : captures_t) (capture inoffset : Z) : captures_t :=
  alter (fun '(start, _) => (start, u64 (inoffset - start))) (Z.to_nat capture) captures.

Section machine.
Context (regex : list Z) (input : list Z) (inlength : Z).

(** [input[i]]: also the byte behind the input is read. *)
Context (beyond : Z).
Definition input_at (i : Z) : Z := if i <? inlength then at_ input i else beyond.

(** The loop over the characters of a group: whether one of them matches. *)
Fixpoint any_loop (chars : list Z) (cin : Z) : option bool :=
  match chars with
  | [] => Some false
  | cmatch :: chars =>
      if cmatch =? 0 then
        match chars with
        | [] => None
        | code :: chars => if regex_match_escape cin (Z.shiftl code 8) then Some true else any_loop chars cin
        end
      else if cin =? cmatch then Some true else any_loop chars cin
  end.

(** The bytes of the group behind [op]; a class at its end takes its second
    byte from behind the group. *)
Definition group_at (op buffer_len : Z) : list Z := sub regex op buffer_len.

Fixpoint regex_execute_single (fuel : nat) (op inoffset : Z) (captures : captures_t) {struct fuel} : option (regex_context_t * captures_t) :=
  match fuel with
  | O => None
  | S fuel =>
      code ← rd regex op;
      let op := op + 1 in
      let next op inoffset captures : option (regex_context_t * captures_t) := Some (mk_context op inoffset, captures) in
      let nomatch op : option (regex_context_t * captures_t) := Some (regex_context_nomatch op, captures) in
      if code =? REGEXOP_BEGIN_CAPTURE then
        capture ← rd regex op;
        next (op + 1) inoffset (begin_capture captures capture inoffset)
      else if code =? REGEXOP_END_CAPTURE then
        capture ← rd regex op;
        next (op + 1) inoffset (end_capture captures capture inoffset)
      else if code =? REGEXOP_BEGINNING_OF_LINE then
        if negb (inoffset =? 0) then nomatch op else next op inoffset captures
      else if code =? REGEXOP_END_OF_LINE then
        if negb (inoffset =? inlength) then nomatch op else next op inoffset captures
      else if (code =? REGEXOP_ANY_OF) || (code =? REGEXOP_ANY_BUT) then
        buffer_len ← rd regex op;
        let op := op + 1 in
        if inlength <=? inoffset then nomatch (op + buffer_len)
        else
          found ← any_loop (group_at op buffer_len) (input_at inoffset);
          if Bool.eqb found (code =? REGEXOP_ANY_OF) then next (op + buffer_len) (inoffset + 1) captures else nomatch (op + buffer_len)
      else if code =? REGEXOP_ANY then
        if inoffset <? inlength then next op (inoffset + 1) captures else nomatch op
      else if code =? REGEXOP_EXACT_MATCH then
        matchlen ← rd regex op;
        let op := op + 1 in
        if (u64 (inlength - inoffset) <? matchlen) || negb (string_equal (sub input inoffset matchlen) (sub regex op matchlen))
        then nomatch (op + matchlen) else next (op + matchlen) (inoffset + matchlen) captures
      else if code =? REGEXOP_META_MATCH then
        cin ← rd regex op;
        let op := op + 1 in
        let cmatch := input_at inoffset in
        if cin =? 0 then
          code ← rd regex op;
          if regex_match_escape cmatch (Z.shiftl code 8) then next (op + 1) (inoffset + 1) captures else nomatch (op + 1)
        else if cin =? cmatch then next op (inoffset + 1) captures else nomatch op
      else if (code =? REGEXOP_ZERO_OR_MORE) || (code =? REGEXOP_ZERO_OR_MORE_SHORTEST) then
        regex_consume fuel (code =? REGEXOP_ZERO_OR_MORE) op inoffset (mk_context REGEXRES_NOMATCH inoffset) captures
      else if (code =? REGEXOP_ONE_OR_MORE) || (code =? REGEXOP_ONE_OR_MORE_SHORTEST) then
        '(context, captures) ← regex_execute_single fuel op inoffset captures;
        if inlength <? Regex.inoffset context then Some (context, captures)
        else regex_consume fuel (code =? REGEXOP_ONE_OR_MORE) op (Regex.inoffset context) (mk_context REGEXRES_NOMATCH (Regex.inoffset context)) captures
      else if code =? REGEXOP_ZERO_OR_ONE then
        '(context, captures) ← regex_execute_single fuel op inoffset captures;
        '(maybe, captures) ← (if Regex.inoffset context <=? inlength
                              then regex_execute fuel (Regex.op context) (Regex.inoffset context) captures else Some (context, captures));
        if Regex.inoffset maybe <=? inlength then Some (maybe, captures)
        else
          let next_op := Regex.op context in
          '(context, captures) ← regex_execute fuel next_op inoffset captures;
          if Regex.inoffset context <=? inlength then Some (context, captures) else Some (regex_context_nomatch next_op, captures)
      else if code =? REGEXOP_BRANCH then
        skip ← rd regex op;
        let op := op + 1 in
        '(context, captures) ← regex_execute fuel op inoffset captures;
        if Regex.inoffset context <=? inlength then Some (context, captures) else regex_execute fuel (op + skip) inoffset captures
      else if code =? REGEXOP_BRANCH_END then
        skip ← rd regex op;
        next (op + 1 + skip) inoffset captures
      else Some (regex_context_internal_failure op, captures)
  end

(** The loop of [regex_consume_longest], or of [regex_consume_shortest]. *)
with regex_consume (fuel : nat) (longest : bool) (op inoffset : Z) (best : regex_context_t) (captures : captures_t) {struct fuel}
    : option (regex_context_t * captures_t) :=
  match fuel with
  | O => None
  | S fuel =>
      '(context, _) ← regex_execute_single fuel op inoffset [];
      let finish (best : regex_context_t) captures : option (regex_context_t * captures_t) :=
        Some (if len regex <? Regex.op best then mk_context (Regex.op context) (Regex.inoffset best) else best, captures) in
      if inlength <? Regex.inoffset context then finish best captures
      else if len regex <=? Regex.op context then Some (context, captures)
      else
        '(next, _) ← regex_execute fuel (Regex.op context) (Regex.inoffset context) [];
        if Regex.inoffset next <=? inlength then
          captures ← (match captures with
                      | [] => Some []
                      | _ => '(_, captures) ← regex_execute fuel (Regex.op context) (Regex.inoffset context) captures; Some captures
                      end);
          if longest then regex_consume fuel longest op (Regex.inoffset context) next captures else finish next captures
        else regex_consume fuel longest op (Regex.inoffset context) best captures
  end

with regex_execute (fuel : nat) (op inoffset : Z) (captures : captures_t) {struct fuel} : option (regex_context_t * captures_t) :=
  if len regex <=? op then Some (mk_context op inoffset, captures)
  else
    match fuel with
    | O => None
    | S fuel =>
        '(context, captures) ← regex_execute_single fuel op inoffset captures;
        if inlength <? Regex.inoffset context then Some (context, captures)
        else regex_execute fuel (Regex.op context) (Regex.inoffset context) captures
    end.

(** The places where the match may begin; [n] are left. *)
Fixpoint match_loop (fuel n : nat) (iin : Z) (captures : captures_t) : option (bool * captures_t) :=
  match n with
  | O => Some (false, captures)
  | S n =>
      '(context, captures) ← regex_execute fuel 0 iin captures;
      if inoffset context <=? inlength then Some (true, captures)
      else if inoffset context =? REGEXRES_INTERNAL_FAILURE then Some (false, captures)
      else match_loop fuel n (iin + 1) captures
  end.

Definition regex_match (fuel : nat) (captures : captures_t) : option (bool * captures_t) :=
  if len regex =? 0 then Some (true, captures)
  else
    first ← rd regex 0;
    if first =? REGEXOP_BEGINNING_OF_LINE then
      '(context, captures) ← regex_execute fuel 0 0 captures;
      Some (inoffset context <=? inlength, captures)
    else match_loop fuel (Z.to_nat inlength) 0 captures.
End machine.

(** Compile and match, for examples. *)
Definition run (pattern input : list Z) : option bool :=
  match regex_compile pattern with
  | Some (Some t) => option_map fst (regex_match (code t) input (len input) 0 200 [])
  | _ => None
  end.
End Regex.
