(* ===== verification/RegexMatch.v ===== *)
(** * What the regular expression machine matches

    The code of a pattern without branches is a sequence of items; a relation
    says what they match, and the machine of [Regex] finds a match exactly when
    there is one, within a number of steps given by the sizes of the code and
    the input. *)
From S2P Require Import Prelude Str Regex.

Module RegexMatch.
Import Str Regex.

(** ** Items and their code *)

(** A member of a group: a character, or a class by its code. *)
Inductive element := EChar (c : Z) | EClass (k : Z).

(** What may be repeated. *)
Inductive atom :=
  | AExact (s : list Z)
  | AMeta (c : Z)
  | AClass (k : Z)
  | AAny
  | ASet (negated : bool) (l : list element).

Inductive quantifier := QStar | QPlus | QStarShortest | QPlusShortest | QOpt.

Inductive item :=
  | IBegin (capture : Z) | IEnd (capture : Z) | IBol | IEol
  | IOne (a : atom)
  | IRepeat (q : quantifier) (a : atom).

Definition encode_element (e : element) : list Z := match e with EChar c => [c] | EClass k => [0; k] end.
Definition encode_elements (l : list element) : list Z := concat (map encode_element l).

Definition encode_atom (a : atom) : list Z :=
  match a with
  | AExact s => REGEXOP_EXACT_MATCH :: len s :: s
  | AMeta c => [REGEXOP_META_MATCH; c]
  | AClass k => [REGEXOP_META_MATCH; 0; k]
  | AAny => [REGEXOP_ANY]
  | ASet negated l => (if negated then REGEXOP_ANY_BUT else REGEXOP_ANY_OF) :: len (encode_elements l) :: encode_elements l
  end.

Definition encode_quantifier (q : quantifier) : Z :=
  match q with
  | QStar => REGEXOP_ZERO_OR_MORE
  | QPlus => REGEXOP_ONE_OR_MORE
  | QStarShortest => REGEXOP_ZERO_OR_MORE_SHORTEST
  | QPlusShortest => REGEXOP_ONE_OR_MORE_SHORTEST
  | QOpt => REGEXOP_ZERO_OR_ONE
  end.

Definition encode_item (i : item) : list Z :=
  match i with
  | IBegin n => [REGEXOP_BEGIN_CAPTURE; n]
  | IEnd n => [REGEXOP_END_CAPTURE; n]
  | IBol => [REGEXOP_BEGINNING_OF_LINE]
  | IEol => [REGEXOP_END_OF_LINE]
  | IOne a => encode_atom a
  | IRepeat q a => encode_quantifier q :: encode_atom a
  end.

Definition encode (l : list item) : list Z := concat (map encode_item l).

(** Zero marks a class; an empty string would not move ahead. *)
Definition element_ok (e : element) : bool := match e with EChar c => negb (c =? 0) | EClass _ => true end.
Definition atom_ok (a : atom) : bool :=
  match a with
  | AExact s => negb (len s =? 0)
  | AMeta c => negb (c =? 0)
  | AClass _ | AAny => true
  | ASet _ l => forallb element_ok l
  end.
Definition item_ok (i : item) : bool := match i with IOne a | IRepeat _ a => atom_ok a | _ => true end.

Section matching.
Context (input : list Z) (beyond : Z) (Hfits : len input < 2 ^ 63).
Abbreviation inlength := (len input).

(** ** What items match *)

Definition class_match (c k : Z) : bool := regex_match_escape c (Z.shiftl k 8).
Definition element_match (c : Z) (e : element) : bool := match e with EChar d => c =? d | EClass k => class_match c k end.

(** One character. *)
Definition char_match (a : atom) (c : Z) : bool :=
  match a with
  | AExact _ => false
  | AMeta d => d =? c
  | AClass k => class_match c k
  | AAny => true
  | ASet negated l => xorb negated (existsb (element_match c) l)
  end.

(** The end of the atom that begins at [i]. *)
Definition step (a : atom) (i : Z) : option Z :=
  match a with
  | AExact s => if (i + len s <=? inlength) && bool_decide (sub input i (len s) = s) then Some (i + len s) else None
  | _ => if (i <? inlength) && char_match a (at_ input i) then Some (i + 1) else None
  end.

Abbreviation steps a := (rtc (fun i k => step a i = Some k)).

(** From [i] to [j]. *)
Fixpoint matches (l : list item) (i j : Z) : Prop :=
  match l with
  | [] => i = j
  | IBegin _ :: l | IEnd _ :: l => matches l i j
  | IBol :: l => i = 0 /\ matches l i j
  | IEol :: l => i = inlength /\ matches l i j
  | IOne a :: l => exists k, step a i = Some k /\ matches l k j
  | IRepeat q a :: l =>
      match q with
      | QStar | QStarShortest => exists k, steps a i k /\ matches l k j
      | QPlus | QPlusShortest => exists m k, step a i = Some m /\ steps a m k /\ matches l k j
      | QOpt => matches l i j \/ exists k, step a i = Some k /\ matches l k j
      end
  end.

Lemma step_bounds a i k : atom_ok a = true -> 0 <= i -> step a i = Some k -> i < k <= inlength.
Proof.
  intros Ha Hi. destruct a as [s|c|c| |n l]; cbn [step atom_ok] in *; case_if; intros [= <-]; rewrite andb_true_iff in Heqb; try lia.
  destruct Heqb as [H _]. pose proof (len_nonneg s). lia.
Qed.

(** An offset that says that there is no match. *)
Abbreviation failed j := (inlength < j /\ j <> REGEXRES_INTERNAL_FAILURE).

(** ** One atom *)
Section code.
Context (regex : list Z).
Abbreviation single := (regex_execute_single regex input inlength beyond).
Abbreviation execute := (regex_execute regex input inlength beyond).
Abbreviation consume := (regex_consume regex input inlength beyond).

Lemma any_loop_spec l c : forallb element_ok l = true -> any_loop (encode_elements l) c = Some (existsb (element_match c) l).
Proof.
  induction l as [|e l IH]; [done|]. cbn [forallb existsb]. intros [He Hl]%andb_true_iff. unfold encode_elements in *. cbn [map concat].
  destruct e as [d|k]; cbn [encode_element app any_loop element_match].
  - cbn [element_ok] in He. destruct (Z.eqb_spec d 0); [done|]. destruct (c =? d); [done|]. by apply IH.
  - cbn [Z.eqb]. unfold class_match. destruct (regex_match_escape c (Z.shiftl k 8)); [done|]. by apply IH.
Qed.

Lemma string_equal_spec a b : string_equal a b = bool_decide (a = b).
Proof.
  unfold string_equal. destruct (Z.eqb_spec (len a) 0) as [E|E]; cbn [negb andb].
  - assert (a = []) as -> by (apply len_nil; lia). by destruct b.
  - case_if; [done|]. symmetry. apply bool_decide_eq_false_2. intros ->. lia.
Qed.

Lemma sub_app_mid a b c : sub (a ++ b ++ c) (len a) (len b) = b.
Proof. unfold sub, len. rewrite !Nat2Z.id, drop_app_length. apply take_app_length. Qed.

Section at_place.
Context (pre post : list Z).

Lemma sub_behind a b s : sub (pre ++ a :: b :: s ++ post) (len pre + (1 + 1)) (len s) = s.
Proof.
  etransitivity; [|apply (sub_app_mid (pre ++ [a; b]) s post)]. rewrite <- app_assoc, len_app. reflexivity.
Qed.

Lemma len_cons' (c : Z) (l : list Z) : len (c :: l) = 1 + len l.
Proof. unfold len. cbn [length]. lia. Qed.

(** Fetch the bytes of an operation at [len pre], and choose its branch. *)
Ltac fetch :=
  rewrite ?rd_mid_len; cbn [mbind option_bind];
  rewrite <- ?Z.add_assoc; rewrite ?(rd_app_len pre) by lia;
  repeat match goal with |- context [rd (?a :: ?b :: ?c :: ?l) (1 + 1)] => change (rd (a :: b :: c :: l) (1 + 1)) with (Some c)
                       | |- context [rd (?a :: ?b :: ?l) 1] => change (rd (a :: b :: l) 1) with (Some b) end;
  cbn [mbind option_bind]; cbn -[Z.add regex_execute_single regex_execute regex_consume len rd sub Z.ltb u64 string_equal input_at any_loop regex_match_escape].

(** The machine on an atom: the operation behind it, and its end, or an end
    behind the input. *)
Lemma single_atom a i :
  regex = pre ++ encode_atom a ++ post -> atom_ok a = true -> 0 <= i <= inlength ->
  exists j, (forall fuel captures, single (S fuel) (len pre) i captures = Some (mk_context (len pre + len (encode_atom a)) j, captures)) /\
    match step a i with Some k => j = k | None => failed j end.
Proof.
  intros -> Ha Hi. pose proof (len_nonneg input).
  assert (failed REGEXRES_NOMATCH) as Hno by (unfold REGEXRES_NOMATCH, REGEXRES_INTERNAL_FAILURE; lia).
  assert (inlength + 1 < REGEXRES_INTERNAL_FAILURE) as Hfail by (unfold REGEXRES_INTERNAL_FAILURE; lia).
  destruct a as [s|c|k| |n l]; cbn [encode_atom step] in *.
  - exists (if (i + len s <=? inlength) && bool_decide (sub input i (len s) = s) then i + len s else REGEXRES_NOMATCH). split; [|by case_if].
    intros fuel captures. cbn [regex_execute_single app]. fetch.
    pose proof (len_nonneg s). rewrite string_equal_spec, wrap_small by (change (2 ^ 64) with (2 * 2 ^ 63); lia).
    rewrite sub_behind. 
    replace (inlength - i <? len s) with (negb (i + len s <=? inlength)) by (destruct (Z.leb_spec (i + len s) inlength); cbn [negb]; lia).
    replace (len pre + len (REGEXOP_EXACT_MATCH :: len s :: s)) with (len pre + (1 + 1) + len s) by (rewrite !len_cons'; lia).
    destruct (i + len s <=? inlength); cbn [negb orb andb]; [|done]. by case_bool_decide.
  - exists (if c =? input_at input inlength beyond i then i + 1 else REGEXRES_NOMATCH).
    split; [|unfold input_at; cbn [char_match]; destruct (Z.ltb_spec i inlength); cbn [andb]; case_if; lia].
    intros fuel captures. cbn [regex_execute_single app]. fetch. cbn [atom_ok] in Ha. destruct (c =? 0); [done|]. by case_if.
  - exists (if class_match (input_at input inlength beyond i) k then i + 1 else REGEXRES_NOMATCH).
    split; [|unfold input_at; cbn [char_match]; destruct (Z.ltb_spec i inlength); cbn [andb]; case_if; lia].
    intros fuel captures. cbn [regex_execute_single app]. fetch. unfold class_match.
    change (len [REGEXOP_META_MATCH; 0; k]) with (1 + (1 + 1)). by case_if.
  - exists (if i <? inlength then i + 1 else REGEXRES_NOMATCH). split; [|cbn [char_match]; rewrite andb_true_r; by case_if].
    intros fuel captures. cbn [regex_execute_single app]. fetch. by case_if.
  - exists (if (i <? inlength) && char_match (ASet n l) (at_ input i) then i + 1 else REGEXRES_NOMATCH). split; [|by case_if].
    intros fuel captures. cbn [regex_execute_single app]. cbn [atom_ok] in Ha.
    destruct n; fetch; unfold group_at; rewrite sub_behind, any_loop_spec by done; rewrite !len_cons', Z.leb_antisym; unfold input_at;
      replace (len pre + (1 + (1 + len (encode_elements l)))) with (len pre + (1 + 1) + len (encode_elements l)) by lia;
      (destruct (i <? inlength); cbn [negb andb mbind option_bind]; [|done]);
      change (7 =? REGEXOP_ANY_OF) with true; change (8 =? REGEXOP_ANY_OF) with false; cbn [char_match]; by destruct (existsb _ l).
Qed.
End at_place.

(** ** Sequences of items *)
(** The code from [pc] to its end is [c]. *)
Definition ends_with (pc : Z) (c : list Z) : Prop := exists pre, regex = pre ++ c /\ pc = len pre.

Lemma ends_with_tail pc a c : ends_with pc (a ++ c) -> ends_with (pc + len a) c.
Proof. intros (pre & E & ->). exists (pre ++ a). rewrite <- app_assoc, len_app. by split. Qed.

Lemma ends_with_end pc : ends_with pc [] -> pc = len regex.
Proof. intros (pre & -> & ->). by rewrite app_nil_r. Qed.

Lemma ends_with_before pc c d : ends_with pc (c :: d) -> 0 <= pc < len regex.
Proof. intros (pre & -> & ->). rewrite len_app, len_cons'. pose proof (len_nonneg pre). pose proof (len_nonneg d). lia. Qed.

Lemma ends_with_rd pc c d : ends_with pc (c :: d) -> rd regex pc = Some c.
Proof. intros (pre & -> & ->). apply rd_mid_len. Qed.

Lemma ends_with_next pc c d : ends_with pc (c :: d) -> ends_with (pc + 1) d.
Proof. intros H. by apply (ends_with_tail pc [c]). Qed.

Context (Hregex : fits regex).

(** The atom at [pc], with what follows. *)
Lemma atom_runs a pc c i :
  ends_with pc (encode_atom a ++ c) -> atom_ok a = true -> 0 <= i <= inlength ->
  exists j, (forall fuel captures, single (S fuel) pc i captures = Some (mk_context (pc + len (encode_atom a)) j, captures)) /\
    match step a i with Some k => j = k | None => failed j end.
Proof. intros (pre & E & ->). by apply (single_atom pre c). Qed.

(** What running the items from [i] gives. *)
Definition outcome (l : list item) (i : Z) (context : regex_context_t) : Prop :=
  (inoffset context <= inlength /\ op context = len regex /\ matches l i (inoffset context)) \/
  (failed (inoffset context) /\ forall j, ~ matches l i j).

(** The machine gives the same context for any captures. *)
Definition gives (run : captures_t -> option (regex_context_t * captures_t)) (context : regex_context_t) : Prop :=
  forall captures, exists captures', run captures = Some (context, captures').

Definition need (n : nat) : nat := n * (length input + 5) + 1.

(** The items from [pc] to the end of the code run as they should. *)
Definition runs (l : list item) (pc : Z) : Prop :=
  forall fuel i, (need (length l) <= fuel)%nat -> 0 <= i <= inlength -> exists context, gives (execute fuel pc i) context /\ outcome l i context.

Lemma encode_item_cons x : exists c d, encode_item x = c :: d.
Proof. destruct x as [| | | |[]|q a]; cbn; by eexists _, _. Qed.

Lemma encode_nil l : encode l = [] -> l = [].
Proof. destruct l as [|x l]; [done|]. unfold encode. cbn [map concat]. by destruct (encode_item_cons x) as (c & d & ->). Qed.

(** ** Repetition *)
Section repetition.
Context (a : atom) (l : list item) (pc : Z) (Ha : atom_ok a = true) (Hpc : ends_with pc (encode_atom a ++ encode l)).
Abbreviation behind := (pc + len (encode_atom a)).
Context (Hl : runs l behind).
Abbreviation some_steps := (tc (fun i k => step a i = Some k)).

Lemma behind_ends : ends_with behind (encode l).
Proof. by apply ends_with_tail. Qed.

Lemma behind_le : behind <= len regex /\ (len regex <= behind -> l = []).
Proof.
  pose proof behind_ends as H. destruct (encode l) as [|c d] eqn:E.
  - apply ends_with_end in H. split; [lia|]. intros _. by apply encode_nil.
  - pose proof (ends_with_before _ _ _ H). split; lia.
Qed.

(** The context without a match: the operation behind the atom. *)
Definition settled (best : regex_context_t) : regex_context_t :=
  if len regex <? op best then mk_context behind (inoffset best) else best.

Lemma consume_unfold fuel longest i k best captures :
  (forall captures, single fuel pc i captures = Some (mk_context behind k, captures)) ->
  consume (S fuel) longest pc i best captures =
    if inlength <? k then Some (settled best, captures)
    else if len regex <=? behind then Some (mk_context behind k, captures)
    else '(next, _) ← execute fuel behind k [];
         if inoffset next <=? inlength then
           captures ← (match captures with [] => Some [] | _ => '(_, captures) ← execute fuel behind k captures; Some captures end);
           if longest then consume fuel longest pc k next captures else Some (settled next, captures)
         else consume fuel longest pc k best captures.
Proof.
  intros Hk. change (consume (S fuel) longest pc i best captures) with
    ('(context, _) ← single fuel pc i [];
     let finish (best : regex_context_t) captures : option (regex_context_t * captures_t) :=
       Some (if len regex <? op best then mk_context (op context) (inoffset best) else best, captures) in
     if inlength <? inoffset context then finish best captures
     else if len regex <=? op context then Some (context, captures)
     else
       '(next, _) ← execute fuel (op context) (inoffset context) [];
       if inoffset next <=? inlength then
         captures ← (match captures with
                     | [] => Some []
                     | _ => '(_, captures) ← execute fuel (op context) (inoffset context) captures; Some captures
                     end);
         if longest then consume fuel longest pc (inoffset context) next captures else finish next captures
       else consume fuel longest pc (inoffset context) best captures).
  by rewrite Hk.
Qed.

(** A match behind at least one more atom, or none. *)
Definition repeated (i : Z) (best context : regex_context_t) : Prop :=
  (exists k j, some_steps i k /\ matches l k j /\ context = mk_context (len regex) j /\ j <= inlength) \/
  ((forall k j, some_steps i k -> ~ matches l k j) /\ context = settled best).

Lemma repeated_step i k best next context :
  step a i = Some k -> repeated k (if inoffset next <=? inlength then next else best) context -> outcome l k next -> repeated i best context.
Proof.
  intros Hs Hr Hnext. destruct Hr as [(k' & j & H1 & H2)|[Hno ->]]; [left; exists k', j; split; [by eapply tc_l|done]|].
  destruct Hnext as [(H1 & H2 & H3)|(H1 & H2)].
  - left. exists k, (inoffset next). split; [by apply tc_once|]. split; [done|]. split; [|done].
    replace (inoffset next <=? inlength) with true by lia. unfold settled. rewrite H2, Z.ltb_irrefl. destruct next as [o n]. cbn in *. by subst.
  - right. replace (inoffset next <=? inlength) with false by lia. split; [|done]. intros k' j Hk'. inversion Hk' as [x y E|x y z E Htc]; subst.
    + rewrite Hs in E. injection E as ->. apply H2.
    + rewrite Hs in E. injection E as ->. by apply Hno.
Qed.

Lemma consume_runs fuel longest i best :
  (need (length l) + Z.to_nat (inlength - i) + 2 <= fuel)%nat -> 0 <= i <= inlength ->
  exists context, gives (consume fuel longest pc i best) context /\ repeated i best context.
Proof.
  revert i best. induction fuel as [|fuel IH]; intros i best Hf Hi; [lia|].
  destruct (atom_runs a pc (encode l) i Hpc Ha Hi) as (k & Hk & Hstep). destruct fuel as [|fuel']; [lia|].
  assert (forall captures, single (S fuel') pc i captures = Some (mk_context behind k, captures)) as Hk' by (intros; apply Hk). clear Hk.
  set (fuel := S fuel') in *. clearbody fuel. unfold gives. setoid_rewrite (consume_unfold fuel longest i k best _ Hk').
  destruct (step a i) as [k'|] eqn:Es.
  2: { replace (inlength <? k) with true by lia. exists (settled best). split; [by eexists|]. right. split; [|done].
       intros k' j Hk''. inversion Hk'' as [x y E|x y z E _]; congruence. }
  subst k'. pose proof (step_bounds a i k Ha ltac:(lia) Es) as Hb. replace (inlength <? k) with false by lia.
  destruct (Z.leb_spec (len regex) behind) as [Hend|Hend].
  { exists (mk_context behind k). split; [by eexists|]. left. exists k, k. split; [by apply tc_once|]. destruct behind_le as [Hle Hnil].
    rewrite (Hnil Hend). split; [done|]. split; [f_equal; lia|lia]. }
  destruct (Hl fuel k) as (next & Hnext & Hout); [lia|lia|]. destruct (Hnext []) as (c0 & E0). rewrite E0. cbn [mbind option_bind].
  assert (exists context, gives (consume fuel longest pc k (if inoffset next <=? inlength then next else best)) context /\
    repeated k (if inoffset next <=? inlength then next else best) context) as (context & Hc & Hr) by (apply IH; lia).
  pose proof (repeated_step i k best next context Es Hr Hout) as Hi'.
  destruct (inoffset next <=? inlength) eqn:En; [|exists context; split; [exact Hc|exact Hi']].
  destruct longest.
  - exists context. split; [|exact Hi']. intros captures. destruct captures as [|c cs]; [apply Hc|].
    destruct (Hnext (c :: cs)) as (c1 & ->). cbn [mbind option_bind]. apply Hc.
  - exists (settled next). split.
    + intros captures. destruct captures as [|c cs]; [by eexists|]. destruct (Hnext (c :: cs)) as (c1 & ->). by eexists.
    + left. destruct Hout as [(H1 & H2 & H3)|(H1 & _)]; [|lia]. exists k, (inoffset next). split; [by apply tc_once|]. split; [done|].
      split; [|done]. unfold settled. rewrite H2, Z.ltb_irrefl. destruct next as [o n]. cbn in *. by subst.
Qed.
End repetition.

(** ** One item *)

(** After one item the machine has failed for good, or has matched to the end,
    or has what follows the item still to match. *)
Definition advanced (x : item) (l : list item) (pc i : Z) (context : regex_context_t) : Prop :=
  outcome (x :: l) i context \/
  (op context = pc + len (encode_item x) /\ i <= inoffset context <= inlength /\ forall j, matches (x :: l) i j <-> matches l (inoffset context) j).

Lemma execute_end fuel i captures : execute fuel (len regex) i captures = Some (mk_context (len regex) i, captures).
Proof. destruct fuel; cbn [regex_execute]; by rewrite Z.leb_refl. Qed.

Lemma execute_unfold fuel pc i captures :
  execute (S fuel) pc i captures =
    if len regex <=? pc then Some (mk_context pc i, captures)
    else '(context, captures) ← single fuel pc i captures;
         if inlength <? inoffset context then Some (context, captures) else execute fuel (op context) (inoffset context) captures.
Proof. reflexivity. Qed.

Lemma runs_cons x l pc :
  ends_with pc (encode (x :: l)) -> runs l (pc + len (encode_item x)) ->
  (forall fuel i, (need (length (x :: l)) <= S fuel)%nat -> 0 <= i <= inlength -> exists context, gives (single fuel pc i) context /\ advanced x l pc i context) ->
  runs (x :: l) pc.
Proof.
  intros Hpc Hl Hx fuel i Hf Hi. destruct fuel as [|fuel]; [unfold need in Hf; lia|].
  destruct (Hx fuel i Hf Hi) as (context & Hc & Ha).
  assert (pc < len regex) as Hlt by (unfold encode in Hpc; cbn [map concat] in Hpc; destruct (encode_item_cons x) as (c & d & Ec); rewrite Ec in Hpc; eapply ends_with_before, Hpc).
  assert (forall captures captures', single fuel pc i captures = Some (context, captures') -> execute (S fuel) pc i captures =
    if inlength <? inoffset context then Some (context, captures') else execute fuel (op context) (inoffset context) captures') as Hun.
  { intros captures captures' E. rewrite execute_unfold. destruct (Z.leb_spec (len regex) pc); [lia|]. by rewrite E. }
  destruct Ha as [[(H1 & H2 & H3)|(H1 & H2)]|(H1 & H2 & H3)].
  - exists context. split; [|by left]. intros captures. destruct (Hc captures) as (c' & E). exists c'. rewrite (Hun _ _ E).
    replace (inlength <? inoffset context) with false by lia. rewrite H2, execute_end, <- H2. by destruct context.
  - exists context. split; [|by right]. intros captures. destruct (Hc captures) as (c' & E). exists c'. rewrite (Hun _ _ E).
    by replace (inlength <? inoffset context) with true by lia.
  - destruct (Hl fuel (inoffset context)) as (next & Hn & Hout); [unfold need in *; cbn [length] in Hf; lia|lia|]. exists next. split.
    + intros captures. destruct (Hc captures) as (c' & E). destruct (Hn c') as (c'' & E'). exists c''. rewrite (Hun _ _ E), H1.
      by replace (inlength <? inoffset context) with false by lia.
    + destruct Hout as [(G1 & G2 & G3)|(G1 & G2)]; [left|right]; (split; [done|]); [split; [done|by apply H3]|]. intros j Hj. by apply (G2 j), H3.
Qed.

(** The operations that are not repeated. *)
Lemma plain_item_advances x l pc fuel i :
  ends_with pc (encode (x :: l)) -> item_ok x = true -> 0 <= i <= inlength -> (match x with IRepeat _ _ => False | _ => True end) ->
  exists context, gives (single (S fuel) pc i) context /\ advanced x l pc i context.
Proof.
  unfold encode. cbn [map concat]. fold (encode l). intros Hpc Hx Hi Hplain. assert (failed REGEXRES_NOMATCH) as Hno by (unfold REGEXRES_NOMATCH, REGEXRES_INTERNAL_FAILURE; lia). destruct x as [n|n| | |a|q a]; [| | | | |done]; cbn [encode_item] in *.
  - exists (mk_context (pc + 2) i). split; [|right; cbn; split; [done|split; [lia|done]]]. intros captures. eexists. cbn [regex_execute_single].
    rewrite (ends_with_rd pc _ _ Hpc). cbn [mbind option_bind]. rewrite (ends_with_rd (pc + 1) _ _ (ends_with_next _ _ _ Hpc)).
    cbn. by rewrite <- Z.add_assoc.
  - exists (mk_context (pc + 2) i). split; [|right; cbn; split; [done|split; [lia|done]]]. intros captures. eexists. cbn [regex_execute_single].
    rewrite (ends_with_rd pc _ _ Hpc). cbn [mbind option_bind]. rewrite (ends_with_rd (pc + 1) _ _ (ends_with_next _ _ _ Hpc)).
    cbn. by rewrite <- Z.add_assoc.
  - exists (if i =? 0 then mk_context (pc + 1) i else regex_context_nomatch (pc + 1)). split.
    + intros captures. exists captures. cbn [regex_execute_single]. rewrite (ends_with_rd pc _ _ Hpc). cbn. by destruct (i =? 0).
    + destruct (Z.eqb_spec i 0); [right; cbn; split; [done|split; [lia|]]; intros j; by split; [intros [_ ?]|]|left; right; split; [done|]]. by intros j [? _].
  - exists (if i =? inlength then mk_context (pc + 1) i else regex_context_nomatch (pc + 1)). split.
    + intros captures. exists captures. cbn [regex_execute_single]. rewrite (ends_with_rd pc _ _ Hpc). cbn -[len]. by destruct (i =? inlength).
    + destruct (Z.eqb_spec i inlength); [right; cbn -[len]; split; [done|split; [lia|]]; intros j; by split; [intros [_ ?]|]|left; right; split; [done|]]. by intros j [? _].
  - destruct (atom_runs a pc (encode l) i Hpc Hx Hi) as (k & Hk & Hs). eexists. split; [intros captures; eexists; apply Hk|].
    destruct (step a i) as [k'|] eqn:Es.
    + subst k'. pose proof (step_bounds a i k Hx ltac:(lia) Es). right. cbn. split; [done|]. split; [lia|]. intros j. split.
      * intros (k' & E & H'). rewrite Es in E. by injection E as ->.
      * intros H'. by exists k.
    + left. right. split; [done|]. intros j (k' & E & _). congruence.
Qed.

(** ** Repeated items *)

Lemma single_star fuel (longest : bool) pc i captures :
  rd regex pc = Some (encode_quantifier (if longest then QStar else QStarShortest)) ->
  single (S fuel) pc i captures = consume fuel longest (pc + 1) i (mk_context REGEXRES_NOMATCH i) captures.
Proof. intros E. simpl. rewrite E. by destruct longest. Qed.

Lemma single_plus fuel (longest : bool) pc i captures :
  rd regex pc = Some (encode_quantifier (if longest then QPlus else QPlusShortest)) ->
  single (S fuel) pc i captures =
    '(context, captures) ← single fuel (pc + 1) i captures;
    if inlength <? inoffset context then Some (context, captures)
    else consume fuel longest (pc + 1) (inoffset context) (mk_context REGEXRES_NOMATCH (inoffset context)) captures.
Proof. intros E. simpl. rewrite E. by destruct longest. Qed.

Lemma single_opt fuel pc i captures :
  rd regex pc = Some (encode_quantifier QOpt) ->
  single (S fuel) pc i captures =
    '(context, captures) ← single fuel (pc + 1) i captures;
    '(maybe, captures) ← (if inoffset context <=? inlength then execute fuel (op context) (inoffset context) captures else Some (context, captures));
    if inoffset maybe <=? inlength then Some (maybe, captures)
    else
      '(last, captures) ← execute fuel (op context) i captures;
      if inoffset last <=? inlength then Some (last, captures) else Some (regex_context_nomatch (op context), captures).
Proof. intros E. simpl. rewrite E. reflexivity. Qed.

Section repeated_item.
Context (a : atom) (l : list item) (pc : Z) (Ha : atom_ok a = true).
Abbreviation behind := (pc + 1 + len (encode_atom a)).
Context (Hatom : ends_with (pc + 1) (encode_atom a ++ encode l)) (Hl : runs l behind).

Lemma item_end q : pc + len (encode_item (IRepeat q a)) = behind.
Proof. cbn [encode_item]. rewrite len_cons'. lia. Qed.

Lemma settled_start i : settled a (pc + 1) (mk_context REGEXRES_NOMATCH i) = mk_context behind i.
Proof. unfold settled. unfold fits, NPOS, REGEXRES_NOMATCH in *. cbn [op]. by replace (len regex <? 2 ^ 64 - 1) with true by lia. Qed.

Lemma star_advances (longest : bool) fuel i :
  rd regex pc = Some (encode_quantifier (if longest then QStar else QStarShortest)) ->
  (need (S (length l)) <= S (S fuel))%nat -> 0 <= i <= inlength ->
  exists context, gives (single (S fuel) pc i) context /\ advanced (IRepeat (if longest then QStar else QStarShortest) a) l pc i context.
Proof.
  intros Hq Hf Hi. destruct (consume_runs a l (pc + 1) Ha Hatom Hl fuel longest i (mk_context REGEXRES_NOMATCH i)) as (context & Hc & Hr).
  { unfold need in *. unfold len in *. lia. } { done. }
  exists context. split; [intros captures; rewrite (single_star fuel longest) by done; apply Hc|].
  assert (forall j, matches (IRepeat (if longest then QStar else QStarShortest) a :: l) i j <-> exists k, steps a i k /\ matches l k j) as Hm by (intros j; by destruct longest).
  destruct Hr as [(k & j & H1 & H2 & -> & H4)|[Hno ->]].
  - left. left. split; [done|]. split; [done|]. apply Hm. exists k. split; [by apply tc_rtc|done].
  - right. rewrite settled_start, item_end. split; [done|]. cbn [inoffset]. split; [lia|]. intros j. rewrite Hm. split.
    + intros (k & Hk & Hj). apply rtc_tc in Hk as [->|Hk]; [done|]. by destruct (Hno k j Hk).
    + intros Hj. by exists i.
Qed.

Lemma plus_advances (longest : bool) fuel i :
  rd regex pc = Some (encode_quantifier (if longest then QPlus else QPlusShortest)) ->
  (need (S (length l)) <= S (S fuel))%nat -> 0 <= i <= inlength ->
  exists context, gives (single (S fuel) pc i) context /\ advanced (IRepeat (if longest then QPlus else QPlusShortest) a) l pc i context.
Proof.
  intros Hq Hf Hi. assert (exists fuel', fuel = S fuel') as (fuel' & ->) by (exists (pred fuel); unfold need in Hf; lia).
  destruct (atom_runs a (pc + 1) (encode l) i Hatom Ha Hi) as (k & Hk & Hs). unfold gives. setoid_rewrite (single_plus (S fuel') longest); [|done].
  setoid_rewrite Hk. cbn [mbind option_bind inoffset].
  assert (forall j, matches (IRepeat (if longest then QPlus else QPlusShortest) a :: l) i j <-> exists m k, step a i = Some m /\ steps a m k /\ matches l k j) as Hm by (intros j; by destruct longest).
  destruct (step a i) as [k'|] eqn:Es.
  2: { replace (inlength <? k) with true by lia. eexists. split; [by eexists|]. left. right. split; [done|]. intros j (m & k' & E & _)%Hm. congruence. }
  subst k'. pose proof (step_bounds a i k Ha ltac:(lia) Es). replace (inlength <? k) with false by lia.
  destruct (consume_runs a l (pc + 1) Ha Hatom Hl (S fuel') longest k (mk_context REGEXRES_NOMATCH k)) as (context & Hc & Hr).
  { unfold need in *. unfold len in *. lia. } { lia. }
  exists context. split; [exact Hc|]. destruct Hr as [(k' & j & H1 & H2 & -> & H4)|[Hno ->]].
  - left. left. split; [done|]. split; [done|]. apply Hm. exists k, k'. split; [done|]. split; [by apply tc_rtc|done].
  - right. rewrite settled_start, item_end. split; [done|]. cbn [inoffset]. split; [lia|]. intros j. rewrite Hm. split.
    + intros (m & k' & E & Hk' & Hj). assert (m = k) as -> by congruence. apply rtc_tc in Hk' as [->|Hk']; [done|]. by destruct (Hno k' j Hk').
    + intros Hj. exists k, k. by split.
Qed.

Lemma opt_advances fuel i :
  rd regex pc = Some (encode_quantifier QOpt) -> (need (S (length l)) <= S (S fuel))%nat -> 0 <= i <= inlength ->
  exists context, gives (single (S fuel) pc i) context /\ advanced (IRepeat QOpt a) l pc i context.
Proof.
  intros Hq Hf Hi. assert (exists fuel', fuel = S fuel') as (fuel' & ->) by (exists (pred fuel); unfold need in Hf; lia).
  destruct (atom_runs a (pc + 1) (encode l) i Hatom Ha Hi) as (k & Hk & Hs). unfold gives. setoid_rewrite (single_opt (S fuel')); [|done].
  setoid_rewrite Hk. cbn [mbind option_bind inoffset op].
  destruct (Hl (S fuel') i) as (last & Hlast & Hol); [unfold need in *; lia|done|].
  assert (forall (k : Z) (captures' : captures_t), ~ (exists k j, step a i = Some k /\ matches l k j) ->
    exists context, (forall captures : captures_t, exists captures', ('(last, captures) ← execute (S fuel') behind i captures;
      if inoffset last <=? inlength then Some (last, captures) else Some (regex_context_nomatch behind, captures)) = Some (context, captures')) /\
      advanced (IRepeat QOpt a) l pc i context) as Hzero.
  { intros _ _ Hno. exists (if inoffset last <=? inlength then last else regex_context_nomatch behind). split.
    - intros captures. destruct (Hlast captures) as (c & ->). cbn [mbind option_bind]. by case_if; eexists.
    - left. destruct Hol as [(G1 & G2 & G3)|(G1 & G2)].
      + replace (inoffset last <=? inlength) with true by lia. left. split; [done|]. split; [done|]. by left.
      + replace (inoffset last <=? inlength) with false by lia. right. split; [unfold regex_context_nomatch, REGEXRES_NOMATCH, REGEXRES_INTERNAL_FAILURE; cbn [inoffset]; lia|].
        intros j [Hj|(k' & E & Hj)]; [by apply (G2 j)|]. apply Hno. by exists k', j. }
  destruct (step a i) as [k'|] eqn:Es.
  2: { replace (k <=? inlength) with false by lia. cbn [mbind option_bind inoffset]. replace (k <=? inlength) with false by lia.
       apply (Hzero k []). intros (k' & j & E & _). congruence. }
  subst k'. pose proof (step_bounds a i k Ha ltac:(lia) Es). replace (k <=? inlength) with true by lia.
  destruct (Hl (S fuel') k) as (maybe & Hmaybe & Hom); [unfold need in *; lia|lia|].
  destruct Hom as [(G1 & G2 & G3)|(G1 & G2)].
  - exists maybe. split; [|left; left; split; [done|]; split; [done|]; right; by exists k]. intros captures. destruct (Hmaybe captures) as (c & ->).
    cbn [mbind option_bind]. replace (inoffset maybe <=? inlength) with true by lia. by eexists.
  - destruct (Hzero k []) as (context & Hc & Hadv); [intros (k' & j & E & Hj); assert (k' = k) as -> by congruence; by apply (G2 j)|]. exists context. split; [|done].
    intros captures. destruct (Hmaybe captures) as (c & ->). cbn [mbind option_bind]. replace (inoffset maybe <=? inlength) with false by lia. apply Hc.
Qed.
End repeated_item.

(** The code of items runs as the items match. *)
Lemma runs_encode l pc : forallb item_ok l = true -> ends_with pc (encode l) -> runs l pc.
Proof.
  revert pc. induction l as [|x l IH]; intros pc Hok Hpc.
  - intros fuel i _ Hi. apply ends_with_end in Hpc as ->. exists (mk_context (len regex) i).
    split; [intros captures; eexists; apply execute_end|]. left. cbn [inoffset op]. split; [lia|done].
  - cbn [forallb] in Hok. apply andb_true_iff in Hok as [Hx Hok]. pose proof Hpc as Hpc'. unfold encode in Hpc'. cbn [map concat] in Hpc'. fold (encode l) in Hpc'.
    assert (runs l (pc + len (encode_item x))) as Hl by (apply IH; [done|by apply ends_with_tail]).
    apply runs_cons; [done|done|]. intros fuel i Hf Hi. destruct fuel as [|fuel]; [unfold need in Hf; cbn [length] in Hf; lia|].
    destruct x as [n|n| | |a|q a]; try (by apply plain_item_advances). cbn [encode_item app item_ok] in *.
    pose proof (ends_with_rd _ _ _ Hpc') as Hq. apply ends_with_next in Hpc'. rewrite len_cons', Z.add_assoc in Hl.
    destruct q; [apply (star_advances a l pc Hx Hpc' Hl true)|apply (plus_advances a l pc Hx Hpc' Hl true)
      |apply (star_advances a l pc Hx Hpc' Hl false)|apply (plus_advances a l pc Hx Hpc' Hl false)|apply opt_advances]; done.
Qed.
End code.

(** Where a match of the items may begin: the first offset when they begin
    with the beginning of the line, else any offset of a character. *)
Definition start_ok (l : list item) (i : Z) : Prop := match l with IBol :: _ => i = 0 | _ => 0 <= i < inlength end.

Section whole.
Context (l : list item) (Hok : forallb item_ok l = true) (Hcode : fits (encode l)).
Abbreviation L := (length l).

Lemma encode_runs fuel i :
  (need L <= fuel)%nat -> 0 <= i <= inlength ->
  exists context, gives (regex_execute (encode l) input inlength beyond fuel 0 i) context /\ outcome (encode l) l i context.
Proof. intros Hf Hi. apply (runs_encode (encode l) Hcode l 0 Hok); [by exists []|done|done]. Qed.

(** An outcome tells apart whether there is a match. *)
Lemma outcome_dec regex i context :
  outcome regex l i context -> (inoffset context <=? inlength) = true /\ (exists j, matches l i j) \/
    (inoffset context <=? inlength) = false /\ (inoffset context =? REGEXRES_INTERNAL_FAILURE) = false /\ ~ exists j, matches l i j.
Proof.
  intros [(H1 & _ & H3)|(H1 & H2)]; [left|right].
  - split; [lia|by eexists].
  - split; [lia|]. split; [lia|]. intros (j & Hj). by apply (H2 j).
Qed.

Lemma match_loop_spec fuel n i captures :
  (need L <= fuel)%nat -> 0 <= i -> i + Z.of_nat n = inlength ->
  exists b captures', match_loop (encode l) input inlength beyond fuel n i captures = Some (b, captures') /\
    (b = true <-> exists i' j, i <= i' < inlength /\ matches l i' j).
Proof.
  intros Hf. revert i captures. induction n as [|n IH]; intros i captures Hi E; cbn [match_loop].
  - exists false, captures. split; [done|]. split; [done|]. intros (i' & j & ? & _). lia.
  - destruct (encode_runs fuel i Hf ltac:(lia)) as (context & Hc & Ho). destruct (Hc captures) as (c' & ->). cbn [mbind option_bind].
    destruct (outcome_dec _ _ _ Ho) as [[-> (j & Hj)]|(-> & -> & Hno)].
    + exists true, c'. split; [done|]. split; [intros _; exists i, j; split; [lia|done]|done].
    + destruct (IH (i + 1) c' ltac:(lia) ltac:(lia)) as (b & c'' & -> & Hb). exists b, c''. split; [done|]. rewrite Hb. split.
      * intros (i' & j & ? & ?). exists i', j. split; [lia|done].
      * intros (i' & j & ? & Hj). exists i', j. split; [|done]. destruct (Z.eq_dec i' i) as [->|]; [|lia]. destruct Hno. by exists j.
Qed.

Lemma first_byte x l' : rd (encode (x :: l')) 0 = Some 2 <-> x = IBol.
Proof.
  unfold encode. cbn [map concat]. destruct x as [| | | |[| | | |[]]|[] a]; cbn; split; (done || (intros [=])).
Qed.

Lemma encode_match fuel captures :
  (need L <= fuel)%nat ->
  exists b captures', regex_match (encode l) input inlength beyond fuel captures = Some (b, captures') /\
    (b = true <-> l = [] \/ exists i j, start_ok l i /\ matches l i j).
Proof.
  intros Hf. unfold regex_match. pose proof (len_nonneg input) as Hlen. 
  assert (l = [] \/ exists x l', l = x :: l') as [El|(x & l' & El)] by (destruct l; [by left|right; by eexists _, _]).
  { rewrite El. exists true, captures. split; [done|]. split; [by left|done]. }
  assert (len (encode l) <> 0) as Hne by (intros H0; assert (encode l = []) as H1 by (apply len_nil; lia); apply encode_nil in H1; congruence).
  replace (len (encode l) =? 0) with false by lia. pose proof (first_byte x l') as Hfirst. rewrite <- El in Hfirst.
  assert (exists c, rd (encode l) 0 = Some c) as (c & Ec) by (destruct (encode l); [done|by eexists]).
  rewrite Ec in *. cbn [mbind option_bind]. unfold REGEXOP_BEGINNING_OF_LINE. destruct (Z.eqb_spec c 2) as [->|Hc].
  - assert (x = IBol) as -> by by apply Hfirst. destruct (encode_runs fuel 0 Hf ltac:(lia)) as (context & Hc & Ho).
    destruct (Hc captures) as (c' & ->). cbn [mbind option_bind]. eexists _, c'. split; [done|].
    destruct (outcome_dec _ _ _ Ho) as [[-> (j & Hj)]|(-> & _ & Hno)].
    + split; [|done]. intros _. right. exists 0, j. split; [|done]. by rewrite El.
    + split; [done|]. intros [?|(i & j & Hs & Hj)]; [congruence|]. rewrite El in Hs. cbn in Hs. subst i. destruct Hno. by exists j.
  - destruct (match_loop_spec fuel (Z.to_nat inlength) 0 captures Hf ltac:(lia) ltac:(lia)) as (b & c' & -> & Hb). exists b, c'. split; [done|].
    assert (forall i, start_ok l i <-> 0 <= i < inlength) as Hs.
    { intros i. rewrite El. destruct x; try done. exfalso. apply Hc. assert (Some c = Some 2) as [=] by by apply Hfirst. done. }
    rewrite Hb. setoid_rewrite Hs. split; [intros ?; by right|]. intros [?|?]; [congruence|done].
Qed.
End whole.
End matching.

(** C21: the machine is right on patterns without branches.  On the code of
    any sequence of items (captures, anchors, runs of characters, escapes,
    classes, groups, and the five ways to repeat one of these), any input and
    any captures, with a step budget of [need] (linear in the number of items
    and in the input), [regex_match] returns, and it returns true exactly when
    the items match the input from a place where a match may begin: there are
    no false matches, and backtracking through longest, shortest and optional
    repetitions misses none. *)
Theorem regex_match_spec (input : list Z) (beyond : Z) (l : list item) (fuel : nat) (captures : captures_t) :
  len input < 2 ^ 63 -> forallb item_ok l = true -> fits (encode l) -> (need input (length l) <= fuel)%nat ->
  exists b captures', regex_match (encode l) input (len input) beyond fuel captures = Some (b, captures') /\
    (b = true <-> l = [] \/ exists i j, start_ok input l i /\ matches input l i j).
Proof. intros Hi Hok Hcode Hf. by apply encode_match. Qed.

(** ["a*?[^0-]b$"] on ["aa7b"]: found, by the relation. *)
Example regex_match_spec_witness :
  exists b captures', regex_match (encode [IRepeat QStarShortest (AExact [97]); IOne (ASet true [EChar 48; EChar 45]); IOne (AExact [98]); IEol])
    [97; 97; 55; 98] 4 0 100 [] = Some (b, captures') /\ (b = true <-> 
      [IRepeat QStarShortest (AExact [97]); IOne (ASet true [EChar 48; EChar 45]); IOne (AExact [98]); IEol] = [] \/ exists i j,
      start_ok [97; 97; 55; 98] [IRepeat QStarShortest (AExact [97]); IOne (ASet true [EChar 48; EChar 45]); IOne (AExact [98]); IEol] i /\
      matches [97; 97; 55; 98] [IRepeat QStarShortest (AExact [97]); IOne (ASet true [EChar 48; EChar 45]); IOne (AExact [98]); IEol] i j).
Proof. apply (regex_match_spec [97; 97; 55; 98] 0); [done|done|done|vm_compute; lia]. Defined.
End RegexMatch.
