(* ===== verification/RegexCompile.v ===== *)
(** * What the regular expression compiler makes of a pattern

    Patterns without branches as trees, with their text and the items of
    [RegexMatch] they stand for; the compiler of [Regex] turns the text of a
    tree into the code of its items, and the machine then finds what they
    match.  The array of the code grows while it is compiled.  When a quantifier
    finds it with exactly one free byte, moving the code up writes one byte
    behind the array; [room] follows the size of the array and says for which
    patterns that happens. *)
From S2P Require Import Prelude Str Regex RegexMatch.

Module RegexCompile.
Import Str Regex RegexMatch.

(** ** Patterns *)

(** A member of a group: a character, an escape, two hexadecimal digits. *)
Inductive member := MChar (c : Z) | MEscape (c : Z) | MHex (c d : Z).

Inductive base := BAny | BEscape (c : Z) | BHex (c d : Z) | BSet (negated : bool) (l : list member).

(** A run of characters ends with the first special one, and a quantifier
    repeats its last character only. *)
Inductive node :=
  | NBol | NEol
  | NText (s : list Z)
  | NTextRepeat (q : quantifier) (s : list Z) (c : Z)
  | NOne (b : base)
  | NRepeat (q : quantifier) (b : base)
  | NCapture (l : list node).

Definition print_member (m : member) : list Z :=
  match m with MChar c => [c] | MEscape c => [92; c] | MHex c d => [92; c; d] end.
Definition print_members (l : list member) : list Z := concat (map print_member l).

Definition print_base (b : base) : list Z :=
  match b with
  | BAny => [46]
  | BEscape c => [92; c]
  | BHex c d => [92; c; d]
  | BSet negated l => 91 :: (if negated then [94] else []) ++ print_members l ++ [93]
  end.

Definition print_quantifier (q : quantifier) : list Z :=
  match q with QStar => [42] | QPlus => [43] | QStarShortest => [42; 63] | QPlusShortest => [43; 63] | QOpt => [63] end.

Fixpoint print_node (n : node) : list Z :=
  match n with
  | NBol => [94]
  | NEol => [36]
  | NText s => s
  | NTextRepeat q s c => s ++ [c] ++ print_quantifier q
  | NOne b => print_base b
  | NRepeat q b => print_base b ++ print_quantifier q
  | NCapture l => 40 :: concat (map print_node l) ++ [41]
  end.
Definition print (l : list node) : list Z := concat (map print_node l).

(** ** What they stand for *)

(** An escape is a class (of one null byte, for ["\0"]) or a character. *)
Definition escape_atom (c : Z) : atom :=
  let k := regex_encode_escape c in if (k =? 0) || (255 <? k) then AClass (Z.shiftr k 8) else AMeta k.

Definition member_element (m : member) : element :=
  match m with
  | MChar c => EChar c
  | MEscape c => let k := regex_encode_escape c in if (k =? 0) || (255 <? k) then EClass (Z.shiftr k 8) else EChar k
  | MHex c d => EChar (regex_parse_hex c d)
  end.

Definition base_atom (b : base) : atom :=
  match b with
  | BAny => AAny
  | BEscape c => escape_atom c
  | BHex c d => AMeta (regex_parse_hex c d)
  | BSet negated l => ASet negated (map member_element l)
  end.

(** The number of captures. *)
Fixpoint count_node (n : node) : Z := match n with NCapture l => 1 + fold_right Z.add 0 (map count_node l) | _ => 0 end.
Definition count (l : list node) : Z := fold_right Z.add 0 (map count_node l).

(** Captures have their numbers in the order of the opening parentheses; [k]
    are before. *)
Fixpoint items_node (k : Z) (n : node) : list item :=
  match n with
  | NBol => [IBol]
  | NEol => [IEol]
  | NText s => [IOne (AExact s)]
  | NTextRepeat q s c => (match s with [] => [] | _ => [IOne (AExact s)] end) ++ [IRepeat q (AExact [c])]
  | NOne b => [IOne (base_atom b)]
  | NRepeat q b => [IRepeat q (base_atom b)]
  | NCapture l =>
      IBegin k ::
      (fix items k l := match l with [] => [] | n :: l => items_node k n ++ items (k + count_node n) l end) (k + 1) l ++
      [IEnd k]
  end.
Fixpoint items (k : Z) (l : list node) : list item := match l with [] => [] | n :: l => items_node k n ++ items (k + count_node n) l end.

(** ** Which patterns are well formed *)

Definition byte (c : Z) : bool := (0 <=? c) && (c <? 256).
Definition text_char (c : Z) : bool := byte c && negb (c =? 0) && negb (is_meta c).

(** An escape with a hexadecimal digit is not before another one: the two
    would be the code of a character. *)
Definition escape_ok (c : Z) (rest : list Z) : bool :=
  byte c && negb (is_hex_digit c && match rest with [] => false | d :: _ => is_hex_digit d end).
Definition hex_ok (c d : Z) : bool := is_hex_digit c && is_hex_digit d && negb (regex_parse_hex c d =? 0).

Definition member_ok (m : member) (rest : list Z) : bool :=
  match m with
  | MChar c => byte c && negb (c =? 0) && negb (c =? 93) && negb (c =? 92)
  | MEscape c => escape_ok c rest
  | MHex c d => hex_ok c d
  end.
Fixpoint members_ok (l : list member) : bool :=
  match l with [] => true | m :: l => member_ok m (print_members l ++ [93]) && members_ok l end.

Definition caret_first (l : list member) : bool := match l with MChar c :: _ => c =? 94 | _ => false end.

Definition base_ok (b : base) (rest : list Z) : bool :=
  match b with
  | BAny => true
  | BEscape c => escape_ok c rest
  | BHex c d => hex_ok c d
  | BSet negated l => members_ok l && (negated || negb (caret_first l)) && (len (encode_elements (map member_element l)) <? 256)
  end.

(** [rest] is the pattern behind the node. *)
Fixpoint node_ok (n : node) (rest : list Z) : bool :=
  match n with
  | NBol | NEol => true
  | NText s =>
      negb (len s =? 0) && forallb text_char s && (len s <? 256) && match rest with [] => true | c :: _ => is_meta c end
  | NTextRepeat q s c => forallb text_char (s ++ [c]) && (len s <? 255)
  | NOne b => base_ok b rest
  | NRepeat q b => base_ok b (print_quantifier q ++ rest)
  | NCapture l =>
      (fix nodes_ok l rest := match l with [] => true | n :: l => node_ok n (print l ++ rest) && nodes_ok l rest end) l (41 :: rest)
  end.
Fixpoint nodes_ok (l : list node) (rest : list Z) : bool :=
  match l with [] => true | n :: l => node_ok n (print l ++ rest) && nodes_ok l rest end.

Lemma items_capture k l : items_node k (NCapture l) = IBegin k :: items (k + 1) l ++ [IEnd k].
Proof. reflexivity. Qed.
Lemma ok_capture l rest : node_ok (NCapture l) rest = nodes_ok l (41 :: rest).
Proof. reflexivity. Qed.
Lemma print_capture l : print_node (NCapture l) = 40 :: print l ++ [41].
Proof. reflexivity. Qed.
Lemma count_capture l : count_node (NCapture l) = 1 + count l.
Proof. reflexivity. Qed.
Lemma print_cons n l : print (n :: l) = print_node n ++ print l.
Proof. reflexivity. Qed.

Section count_induction.
Local Open Scope Z.
Lemma count_node_nonneg : forall n, 0 <= count_node n.
Proof.
  fix IH 1. intros [| | | | | |l]; cbn [count_node]; try lia.
  enough (0 <= fold_right Z.add 0 (map count_node l)) by lia. induction l as [|n l IHl]; cbn [map fold_right]; [lia|]. pose proof (IH n). lia.
Qed.
Lemma count_nonneg l : 0 <= count l.
Proof. unfold count. induction l as [|n l IH]; cbn [map fold_right]; [lia|]. pose proof (count_node_nonneg n). lia. Qed.
End count_induction.

Lemma count_cons n l : count (n :: l) = count_node n + count l.
Proof. reflexivity. Qed.

(** ** Emitting *)

Lemma encode_app a b : encode (a ++ b) = encode a ++ encode b.
Proof. unfold encode. by rewrite map_app, concat_app. Qed.

(** ** The array of the code

    What happens to it: bytes are emitted, a quantifier emits one byte and moves
    the code up by one, or takes the last character off a run. *)
Inductive event := Emits (k : Z) | Moves | Drops.

(** The length of the code and of the array. *)
Definition emit_room (k : Z) (s : Z * Z) : Z * Z :=
  (s.1 + k, if s.2 <? s.1 + k then 2 * s.2 + k else s.2).

Definition room_step (e : event) (s : Z * Z) : option (Z * Z) :=
  match e with
  | Emits k => Some (emit_room k s)
  | Moves => let s' := emit_room 1 s in if s.1 + 2 <=? s'.2 then Some s' else None
  | Drops => Some (s.1 - 1, s.2)
  end.

Fixpoint room_run (es : list event) (s : Z * Z) : option (Z * Z) :=
  match es with [] => Some s | e :: es => s ← room_step e s; room_run es s end.

Definition events_base (b : base) : list event :=
  match b with
  | BSet _ l => let n := len (encode_elements (map member_element l)) in Emits 2 :: (if n =? 0 then [] else [Emits n])
  | _ => [Emits (len (encode_atom (base_atom b)))]
  end.

Fixpoint events_node (n : node) : list event :=
  match n with
  | NBol | NEol => [Emits 1]
  | NText s => [Emits 2; Emits (len s)]
  | NTextRepeat q [] c => [Emits 2; Emits 1; Moves]
  | NTextRepeat q s c => [Emits 2; Emits (len s + 1); Drops; Emits 4]
  | NOne b => events_base b
  | NRepeat q b => events_base b ++ [Moves]
  | NCapture l => Emits 2 :: concat (map events_node l) ++ [Emits 2]
  end.
Definition events (l : list node) : list event := concat (map events_node l).

(** The length of the array behind the pattern, which begins with 16 bytes more
    than the pattern has; [None] when a quantifier finds one free byte. *)
Definition room (l : list node) : option Z := snd <$> room_run (events l) (0, len (print l) + 16).

(** What the events add to the code. *)
Definition delta (es : list event) : Z :=
  fold_right (fun e n => (match e with Emits k => k | Moves => 1 | Drops => -1 end) + n) 0 es.

Lemma delta_app a b : delta (a ++ b) = delta a + delta b.
Proof. unfold delta. induction a as [|e a IH]; cbn [app fold_right]; [lia|]. rewrite IH. lia. Qed.

Lemma room_run_app a b s : room_run (a ++ b) s = (s' ← room_run a s; room_run b s').
Proof. revert s. induction a as [|e a IH]; intros s; [done|]. cbn [app room_run]. destruct (room_step e s); [apply IH|done]. Qed.

Lemma room_step_delta e s s' : room_step e s = Some s' -> s'.1 = s.1 + delta [e].
Proof.
  unfold delta. destruct e as [k| |]; cbn [room_step fold_right]; [|case_match; [|done]|]; intros [= <-]; cbn [emit_room fst]; lia.
Qed.

Lemma room_run_delta es s s' : room_run es s = Some s' -> s'.1 = s.1 + delta es.
Proof.
  revert s. induction es as [|e es IH]; intros s; cbn [room_run].
  - intros [= <-]. unfold delta. cbn. lia.
  - destruct (room_step e s) as [s1|] eqn:E; [|done]. intros H%IH. rewrite H, (room_step_delta _ _ _ E).
    change (e :: es) with ([e] ++ es). rewrite delta_app. lia.
Qed.

(** The compiler's state after some events, with its new code. *)
Definition advance (t : regex_t) (es : list event) (c : list Z) : option regex_t :=
  s ← room_run es (len (code t), code_allocated t); Some (mk_regex (capture_count t) s.2 c).

Lemma advance_app t e1 e2 c1 c2 :
  len c1 = len (code t) + delta e1 -> advance t (e1 ++ e2) c2 = (t' ← advance t e1 c1; advance t' e2 c2).
Proof.
  intros Hc. unfold advance. rewrite room_run_app. destruct (room_run e1 _) as [[n a]|] eqn:E; [|done]. cbn [mbind option_bind].
  apply room_run_delta in E. cbn [fst snd code code_allocated capture_count] in *. by rewrite Hc, <- E.
Qed.

(** Emitting makes the array larger where it has to. *)
Definition emitted (t : regex_t) (vals : list Z) : regex_t :=
  mk_regex (capture_count t) (emit_room (len vals) (len (code t), code_allocated t)).2 (code t ++ vals).

Lemma advance_emits t vals : advance t [Emits (len vals)] (code t ++ vals) = Some (emitted t vals).
Proof. reflexivity. Qed.

(** An operation, its size and its bytes. *)
Lemma advance_block t a b x :
  advance t [Emits 2; Emits (len x)] (code t ++ a :: b :: x) = Some (emitted (emitted t [a; b]) x).
Proof.
  change [Emits 2; Emits (len x)] with ([Emits (len [a; b])] ++ [Emits (len x)]).
  rewrite (advance_app _ _ _ (code t ++ [a; b])) by (rewrite len_app; unfold delta; cbn [fold_right]; lia).
  rewrite advance_emits. cbn [mbind option_bind]. change (code t ++ a :: b :: x) with (code t ++ [a; b] ++ x). rewrite app_assoc.
  apply (advance_emits (emitted t [a; b])).
Qed.

Lemma bind_bind {A B C} (m : option A) (f : A -> option B) (h : B -> option C) : (y ← (x ← m; f x); h y) = (x ← m; y ← f x; h y).
Proof. by destruct m. Qed.

(** What follows may use the code and the captures of the new state. *)
Lemma advance_bind {A} t es c (f h : regex_t -> option A) :
  (forall a, f (mk_regex (capture_count t) a c) = h (mk_regex (capture_count t) a c)) ->
  (t' ← advance t es c; f t') = (t' ← advance t es c; h t').
Proof. intros H. unfold advance. destruct (room_run es _) as [s|]; [apply H|done]. Qed.

Lemma grow_emits t k : grow t true k = Some (mk_regex (capture_count t) (emit_room k (len (code t), code_allocated t)).2 (code t)).
Proof. unfold grow, emit_room. cbn [fst snd]. case_match; [done|]. by destruct t. Qed.

Lemma emit_ok t vals : forallb byte vals = true -> regex_emit t true vals = (emitted t vals, REGEXERR_OK).
Proof.
  intros Hv. unfold regex_emit, emitted. rewrite grow_emits. generalize (emit_room (len vals) (len (code t), code_allocated t)).2 as a.
  destruct t as [n a0 c]. cbn [capture_count code]. clear a0. intros a. revert c. induction vals as [|v vals IH]; intros c; cbn [emit_loop].
  - by rewrite app_nil_r.
  - cbn [forallb] in Hv. apply andb_true_iff in Hv as [Hb Hv]. unfold byte in Hb. replace (256 <? v) with false by lia.
    unfold with_code. cbn [code capture_count code_allocated]. rewrite (IH Hv). rewrite <- app_assoc. unfold u8, wrap.
    by rewrite Z.mod_small by (change (2 ^ 8) with 256; lia).
Qed.

Lemma emit_buffer_ok t buffer : regex_emit_buffer t true buffer = (emitted t buffer, REGEXERR_OK).
Proof. unfold regex_emit_buffer. by rewrite grow_emits. Qed.

(** ** One step of the parser *)

Lemma not_meta c : is_meta c = false -> forallb (fun d => negb (c =? d)) REGEX_META_CHARACTERS = true.
Proof.
  change (is_meta c) with (is_token REGEX_META_CHARACTERS c). rewrite is_token_spec by (by vm_compute). intros H%bool_decide_eq_false.
  apply forallb_forall. intros d Hd. destruct (Z.eqb_spec c d) as [->|]; [|done]. destruct H. by apply list_elem_of_In.
Qed.

Section parser.
Context (pattern : list Z).
Abbreviation length := (len pattern).
Abbreviation loop := (fun fuel t offset level last branch bop => regex_parser_loop fuel t pattern offset length true level last branch bop).
Abbreviation at_ off rest := (ends_with pattern off rest).

Lemma at_length off rest : at_ off rest -> off + len rest = length /\ 0 <= off.
Proof. intros (pre & -> & ->). rewrite len_app. split; [lia|apply len_nonneg]. Qed.

(** The byte at [off], its branch, and what is emitted. *)
Ltac parse H :=
  cbn [regex_parser_loop]; 
  replace (length <=? _) with false by (apply at_length in H; rewrite ?len_cons' in H; pose proof (len_nonneg pattern); 
    match type of H with context [len ?r] => pose proof (len_nonneg r) end; lia);
  rewrite (ends_with_rd _ _ _ _ H); cbn [mbind option_bind Z.eqb Pos.eqb orb].

Lemma loop_bol fuel t off rest level last branch bop :
  at_ off (94 :: rest) -> loop (S fuel) t off level last branch bop = loop fuel (emitted t [REGEXOP_BEGINNING_OF_LINE]) (off + 1) level last branch bop.
Proof. intros H. parse H. by rewrite emit_ok. Qed.

Lemma loop_eol fuel t off rest level last branch bop :
  at_ off (36 :: rest) -> loop (S fuel) t off level last branch bop = loop fuel (emitted t [REGEXOP_END_OF_LINE]) (off + 1) level last branch bop.
Proof. intros H. parse H. by rewrite emit_ok. Qed.

Lemma loop_any fuel t off rest level last branch bop :
  at_ off (46 :: rest) -> loop (S fuel) t off level last branch bop = loop fuel (emitted t [REGEXOP_ANY]) (off + 1) level (len (code t)) branch bop.
Proof. intros H. parse H. by rewrite emit_ok. Qed.

(** A closing parenthesis ends the parser that was called for the opening one. *)
Lemma loop_close fuel t off rest level last branch :
  at_ off (41 :: rest) -> loop (S fuel) t off (S level) last branch REGEXPARSE_NOBRANCH = Some (t, off + 1).
Proof. intros H. by parse H. Qed.

(** Two digits behind a backslash. *)
Lemma hex_at off c rest :
  at_ off (c :: rest) -> 
  (if off + 1 <? length then regex_is_hex pattern off else Some false) = Some (is_hex_digit c && match rest with [] => false | d :: _ => is_hex_digit d end).
Proof.
  intros H. pose proof (at_length _ _ H) as [E _]. rewrite len_cons' in E. unfold regex_is_hex. rewrite (ends_with_rd _ _ _ _ H).
  pose proof (ends_with_next _ _ _ _ H) as Hn. destruct rest as [|d rest].
  - replace (off + 1 <? length) with false by (change (len []) with 0 in E; lia). by rewrite andb_false_r.
  - rewrite len_cons' in E. pose proof (len_nonneg rest). replace (off + 1 <? length) with true by lia. rewrite (ends_with_rd _ _ _ _ Hn).
    cbn [mbind option_bind]. by destruct (is_hex_digit c).
Qed.

(** What an escape adds to the code, and to a group. *)
Lemma escape_code c : byte c = true -> REGEXOP_META_MATCH :: escape_bytes (regex_encode_escape c) = encode_atom (escape_atom c) /\
  forallb byte (escape_bytes (regex_encode_escape c)) = true /\ atom_ok (escape_atom c) = true.
Proof.
  intros Hc. unfold byte in Hc. assert (0 <= c < 256) as H by lia. revert c H Hc.
  enough (forallb (fun c => bool_decide (REGEXOP_META_MATCH :: escape_bytes (regex_encode_escape c) = encode_atom (escape_atom c)) &&
    forallb byte (escape_bytes (regex_encode_escape c)) && atom_ok (escape_atom c)) (seqZ 0 256) = true) as H.
  - intros c Hc _. rewrite forallb_forall in H. specialize (H c). rewrite !andb_true_iff, bool_decide_eq_true in H.
    destruct H as [[? ?] ?]; [|done]. apply list_elem_of_In, elem_of_seqZ. lia.
  - by vm_compute.
Qed.

Lemma loop_escape fuel t off c rest level last branch bop :
  at_ off (92 :: c :: rest) -> escape_ok c rest = true ->
  loop (S fuel) t off level last branch bop = loop fuel (emitted t (encode_atom (escape_atom c))) (off + 2) level (len (code t)) branch bop.
Proof.
  intros H Hok. pose proof (ends_with_next _ _ _ _ H) as Hn. pose proof (at_length _ _ Hn) as [E _]. rewrite len_cons' in E. pose proof (len_nonneg rest).
  parse H. rewrite (hex_at _ _ _ Hn). cbn [mbind option_bind]. unfold escape_ok in Hok. apply andb_true_iff in Hok as [Hb Hh]. apply negb_true_iff in Hh.
  rewrite Hh. replace (off + 1 <? length) with true by lia. rewrite (ends_with_rd _ _ _ _ Hn). cbn [mbind option_bind].
  destruct (escape_code c Hb) as (Ecode & Hbytes & _). rewrite <- Ecode in *. rewrite emit_ok by (cbn [forallb]; by rewrite Hbytes).
  cbn [negb REGEXERR_OK]. by rewrite <- Z.add_assoc.
Qed.

Lemma hex_byte c d : byte (regex_parse_hex c d) = true.
Proof.
  unfold regex_parse_hex, byte. assert (in_u 8 (Z.lor (Z.land (Z.shiftl (regex_parse_hex_digit c) 4) 240) (Z.land (regex_parse_hex_digit d) 15))) as H.
  - apply in_u_lor.
    + rewrite Z.land_comm. change 240 with (Z.land 240 (Z.ones 8)). rewrite <- Z.land_assoc, (Z.land_comm (Z.ones 8)), Z.land_assoc.
      by apply (land_ones_in_u 8 (Z.ones 8)).
    + change 15 with (Z.land 15 (Z.ones 8)). rewrite Z.land_assoc. by apply (land_ones_in_u 8 (Z.ones 8)).
  - unfold in_u in H. change (2 ^ 8) with 256 in H. lia.
Qed.

Lemma loop_hex fuel t off c d rest level last branch bop :
  at_ off (92 :: c :: d :: rest) -> hex_ok c d = true ->
  loop (S fuel) t off level last branch bop = loop fuel (emitted t [REGEXOP_META_MATCH; regex_parse_hex c d]) (off + 3) level (len (code t)) branch bop.
Proof.
  intros H Hok. pose proof (ends_with_next _ _ _ _ H) as Hn. pose proof (ends_with_next _ _ _ _ Hn) as Hn2.
  parse H. rewrite (hex_at _ _ _ Hn). cbn [mbind option_bind]. unfold hex_ok in Hok. apply andb_true_iff in Hok as [Hb Hh].
  rewrite Hb, (ends_with_rd _ _ _ _ Hn), (ends_with_rd _ _ _ _ Hn2). cbn [mbind option_bind].
  rewrite emit_ok by (cbn [forallb]; by rewrite hex_byte). cbn [negb REGEXERR_OK]. by rewrite <- Z.add_assoc.
Qed.

(** ** Runs of characters *)

Lemma exact_loop_ok fuel off s rest :
  at_ off (s ++ rest) -> forallb text_char s = true -> (match rest with [] => true | c :: _ => is_meta c end) = true -> (List.length s < fuel)%nat ->
  exact_loop fuel pattern off length = Some (off + len s).
Proof.
  intros H Hs Hrest. revert off s H Hs. induction fuel as [|fuel IH]; intros off s H Hs Hf; [lia|]. cbn [exact_loop].
  pose proof (at_length _ _ H) as [E _]. rewrite len_app in E. destruct s as [|c s]; cbn [app] in H.
  - change (len []) with 0 in *. rewrite Z.add_0_r. destruct rest as [|c rest].
    + change (len []) with 0 in *. by replace (off <? length) with false by lia.
    + rewrite len_cons' in E. pose proof (len_nonneg rest). replace (off <? length) with true by lia. rewrite (ends_with_rd _ _ _ _ H). cbn [mbind option_bind]. by rewrite Hrest.
  - rewrite len_cons' in E. pose proof (len_nonneg rest). pose proof (len_nonneg s). replace (off <? length) with true by lia.
    rewrite (ends_with_rd _ _ _ _ H). cbn [mbind option_bind forallb] in *. apply andb_true_iff in Hs as [Hc Hs]. unfold text_char in Hc.
    rewrite !andb_true_iff, !negb_true_iff in Hc. destruct Hc as [_ ->]. rewrite (IH (off + 1) s); [|by eapply ends_with_next|done|cbn in Hf; lia].
    rewrite len_cons'. f_equal. lia.
Qed.

Lemma sub_at off s rest : at_ off (s ++ rest) -> sub pattern off (len s) = s.
Proof. intros (pre & -> & ->). apply sub_app_mid. Qed.

Lemma loop_text fuel t off s rest level last branch bop :
  at_ off (s ++ rest) -> s <> [] -> forallb text_char s = true -> len s < 256 -> (match rest with [] => true | c :: _ => is_meta c end) = true ->
  loop (S fuel) t off level last branch bop = loop fuel (emitted (emitted t [REGEXOP_EXACT_MATCH; len s]) s) (off + len s) level (len (code t)) branch bop.
Proof.
  intros H Hne Hs Hlen Hrest. pose proof (exact_loop_ok (S (Z.to_nat length)) off s rest H Hs Hrest) as Hloop. pose proof (sub_at _ _ _ H) as Hsub.
  pose proof (at_length _ _ H) as [E Hoff]. rewrite len_app in E. pose proof (len_nonneg rest). destruct s as [|c s]; [done|]. cbn [app] in H.
  assert (is_meta c = false) as Hm. { cbn [forallb] in Hs. unfold text_char in Hs. rewrite !andb_true_iff, !negb_true_iff in Hs. tauto. }
  apply not_meta in Hm. cbn [forallb REGEX_META_CHARACTERS] in Hm. rewrite !andb_true_iff, !negb_true_iff in Hm.
  destruct Hm as (E1 & E2 & E3 & E4 & E5 & E6 & E7 & E8 & E9 & E10 & E11 & E12 & _). rewrite len_cons' in E.
  cbn [regex_parser_loop]. pose proof (len_nonneg s). replace (length <=? off) with false by lia.
  rewrite (ends_with_rd _ _ _ _ H). cbn [mbind option_bind]. rewrite E1, E2, E3, E4, E5, E7, E8, E9, E10, E11, E12. cbn [orb].
  replace (off + 1 - 1) with off by lia. rewrite Hloop by (unfold len in *; cbn [List.length]; lia). cbn [mbind option_bind].
  replace (off + len (c :: s) - off) with (len (c :: s)) by lia. rewrite Hsub.
  pose proof (len_nonneg (c :: s)). rewrite emit_ok by (unfold byte, REGEXOP_EXACT_MATCH; cbn [forallb]; lia). cbn [negb REGEXERR_OK].
  by rewrite emit_buffer_ok.
Qed.

(** ** Groups *)

Definition emitted_set (t : regex_t) (gop : Z) (buffer : list Z) : regex_t :=
  let t := emitted t [gop; len buffer] in if len buffer =? 0 then t else emitted t buffer.

Lemma member_bytes m rest :
  member_ok m rest = true -> element_ok (member_element m) = true /\ (1 <= len (encode_element (member_element m))).
Proof.
  destruct m as [c|c|c d]; cbn [member_ok member_element].
  - rewrite !andb_true_iff, negb_true_iff. intros [[[_ H] _] _]. cbn [element_ok]. rewrite H. by vm_compute.
  - intros _. cbn zeta. case_if; [by vm_compute|]. cbn [element_ok]. split; [lia|by vm_compute].
  - unfold hex_ok. rewrite andb_true_iff. intros [_ H]. by split; [|vm_compute].
Qed.

Lemma escape_member c : byte c = true -> escape_bytes (regex_encode_escape c) = encode_element (member_element (MEscape c)).
Proof.
  intros Hc. destruct (escape_code c Hc) as (E & _ & _). cbn [member_element]. unfold escape_atom in E. case_if; cbn [encode_atom encode_element] in *; congruence.
Qed.

Lemma group_loop_ok fuel t off l rest gop buffer :
  at_ off (print_members l ++ 93 :: rest) -> members_ok l = true -> byte gop = true ->
  (List.length l < fuel)%nat -> len (buffer ++ encode_elements (map member_element l)) < 256 ->
  group_loop fuel t pattern off length true gop buffer =
    Some (emitted_set t gop (buffer ++ encode_elements (map member_element l)), off + len (print_members l) + 1).
Proof.
  intros H Hok Hop. revert off l buffer H Hok. induction fuel as [|fuel IH]; intros off l buffer H Hok Hf; [lia|]. cbn [group_loop].
  pose proof (at_length _ _ H) as [E _]. rewrite len_app, len_cons' in E. pose proof (len_nonneg rest). pose proof (len_nonneg (print_members l)).
  replace (length <=? off) with false by lia. destruct l as [|m l].
  - cbn [map]. change (encode_elements []) with (@nil Z). rewrite app_nil_r. intros Hlen.
    change (at_ off (93 :: rest)) in H. rewrite (ends_with_rd _ _ _ _ H). cbn [mbind option_bind Z.eqb Pos.eqb]. pose proof (len_nonneg buffer).
    rewrite emit_ok by (cbn [forallb]; rewrite Hop; unfold byte; lia). cbn [negb REGEXERR_OK Z.eqb].
    change (len (print_members [])) with 0. rewrite Z.add_0_r. unfold emitted_set.
    destruct (Z.eqb_spec (len buffer) 0) as [E0|E0]; cbn [negb]; [done|]. by rewrite emit_buffer_ok.
  - cbn [members_ok] in Hok. apply andb_true_iff in Hok as [Hm Hok]. pose proof (member_bytes _ _ Hm) as [_ Hpos].
    cbn [map]. change (encode_elements (?e :: ?r)) with (encode_element e ++ encode_elements r). rewrite app_assoc. intros Hlen.
    assert (256 <=? len buffer = false) as -> by (rewrite !len_app in Hlen; pose proof (len_nonneg (encode_elements (map member_element l))); lia).
    change (print_members (m :: l)) with (print_member m ++ print_members l) in *. rewrite <- app_assoc in H. rewrite (len_app (print_member m)).
    pose proof (ends_with_tail _ _ _ _ H) as Ht. cbn [List.length] in Hf.
    specialize (IH (off + len (print_member m)) l (buffer ++ encode_element (member_element m)) Ht Hok ltac:(lia) Hlen).
    rewrite Z.add_assoc, <- IH. clear IH. destruct m as [c|c|c d]; cbn [print_member app] in *.
    + cbn [member_ok] in Hm. rewrite !andb_true_iff, !negb_true_iff in Hm. destruct Hm as [[[_ _] E1] E2]. rewrite (ends_with_rd _ _ _ _ H). cbn [mbind option_bind].
      by rewrite E1, E2.
    + rewrite (ends_with_rd _ _ _ _ H). cbn [mbind option_bind Z.eqb Pos.eqb]. pose proof (ends_with_next _ _ _ _ H) as Hn. rewrite (hex_at _ _ _ Hn).
      cbn [member_ok] in Hm. unfold escape_ok in Hm. apply andb_true_iff in Hm as [Hb Hh]. apply negb_true_iff in Hh.
      replace (match print_members l ++ 93 :: rest with [] => false | d :: _ => is_hex_digit d end) with (match print_members l ++ [93] with [] => false | d :: _ => is_hex_digit d end) by (by destruct (print_members l)).
      rewrite Hh. cbn [mbind option_bind]. pose proof (at_length _ _ Hn) as [E' _]. rewrite len_cons', len_app, len_cons' in E'. pose proof (len_nonneg (print_members l)).
      replace (off + 1 <? length) with true by lia. rewrite (ends_with_rd _ _ _ _ Hn). cbn [mbind option_bind]. rewrite (escape_member c Hb).
      assert (256 <? len buffer + len (encode_element (member_element (MEscape c))) = false) as -> by (rewrite !len_app in Hlen; pose proof (len_nonneg (encode_elements (map member_element l))); lia).
      by rewrite <- Z.add_assoc.
    + rewrite (ends_with_rd _ _ _ _ H). cbn [mbind option_bind Z.eqb Pos.eqb]. pose proof (ends_with_next _ _ _ _ H) as Hn. rewrite (hex_at _ _ _ Hn).
      pose proof (ends_with_next _ _ _ _ Hn) as Hn2.
      cbn [member_ok] in Hm. unfold hex_ok in Hm. apply andb_true_iff in Hm as [Hb Hh]. rewrite Hb. cbn [mbind option_bind].
      rewrite (ends_with_rd _ _ _ _ Hn), (ends_with_rd _ _ _ _ Hn2). cbn [mbind option_bind]. by rewrite <- Z.add_assoc.
Qed.

Lemma print_members_length l : (List.length l <= List.length (print_members l))%nat.
Proof.
  induction l as [|m l IH]; [done|]. change (print_members (m :: l)) with (print_member m ++ print_members l). rewrite length_app.
  destruct m; cbn [List.length print_member]; lia.
Qed.

Lemma loop_set fuel t off (negated : bool) l rest level last branch bop :
  at_ off (print_base (BSet negated l) ++ rest) -> base_ok (BSet negated l) rest = true ->
  loop (S fuel) t off level last branch bop =
    loop fuel (emitted_set t (if negated then REGEXOP_ANY_BUT else REGEXOP_ANY_OF) (encode_elements (map member_element l))) (off + len (print_base (BSet negated l))) level (len (code t)) branch bop.
Proof.
  cbn [print_base]. rewrite <- app_comm_cons, <- app_assoc. rewrite <- app_assoc. cbn [app]. intros H Hok. pose proof (ends_with_next _ _ _ _ H) as Hn.
  cbn [base_ok] in Hok. rewrite !andb_true_iff in Hok. destruct Hok as [[Hm Hcaret] Hlen].
  pose proof (ends_with_tail _ _ _ _ Hn) as Hg. pose proof (at_length _ _ Hg) as [E Hpos]. rewrite len_app, len_cons' in E. pose proof (len_nonneg rest).
  pose proof (print_members_length l) as Hlen'. set (gop := if negated then REGEXOP_ANY_BUT else REGEXOP_ANY_OF) in *.
  assert (regex_parse_group t pattern (off + 1) length true = group_loop (S (Z.to_nat length)) t pattern (off + 1 + len (if negated then [94] else [])) length true gop []) as Hgroup.
  { unfold regex_parse_group. destruct negated; cbn [app] in *.
    - rewrite (ends_with_rd _ _ _ _ Hn). reflexivity.
    - change (len []) with 0. rewrite Z.add_0_r. destruct l as [|[c|c|c d] l]; rewrite (ends_with_rd _ _ _ _ Hn); cbn [mbind option_bind]; try reflexivity.
      cbn [caret_first orb] in Hcaret. apply negb_true_iff in Hcaret. by rewrite Hcaret. }
  assert (off <? length = true) as Hoff by (pose proof (len_nonneg (print_members l)); destruct negated; change (len [94]) with 1 in *; change (len []) with 0 in *; lia).
  cbn [regex_parser_loop]. replace (length <=? off) with false by lia. rewrite (ends_with_rd _ _ _ _ H). cbn [mbind option_bind Z.eqb Pos.eqb].
  rewrite Hgroup, (group_loop_ok _ _ _ l rest); [|done|done|by destruct negated|unfold len in *; lia|cbn [app]; lia].
  cbn [mbind option_bind app]. rewrite !len_cons', !len_app. change (len [93]) with 1.
  pose proof (len_nonneg (print_members l)).
  replace (length <? off + 1 + len (if negated then [94] else []) + len (print_members l) + 1) with false by lia.
  f_equal. lia.
Qed.

(** ** Quantifiers *)

(** The operation [w] at the end of the code moves up by one byte, if there is
    one behind the emitted one. *)
Lemma shift_bytes c w :
  take (List.length ((c ++ w) ++ [0])) (take (Z.to_nat (len c + 1)) ((c ++ w) ++ [0]) ++ sub ((c ++ w) ++ [0]) (len c) (1 + len w) ++
    drop (Z.to_nat (len c + 1 + (1 + len w))) ((c ++ w) ++ [0])) = c ++ hd 0 (w ++ [0]) :: w.
Proof.
  assert (sub ((c ++ w) ++ [0]) (len c) (1 + len w) = w ++ [0]) as ->.
  { rewrite <- app_assoc. transitivity (sub (c ++ (w ++ [0]) ++ []) (len c) (len (w ++ [0]))); [|apply sub_app_mid]. rewrite app_nil_r. f_equal. rewrite len_app. change (len [0]) with 1. lia. }
  assert (take (Z.to_nat (len c + 1)) ((c ++ w) ++ [0]) = c ++ [hd 0 (w ++ [0])]) as ->.
  { rewrite <- app_assoc. replace (Z.to_nat (len c + 1)) with (List.length c + 1)%nat by (unfold len; lia). rewrite take_app_add. by destruct w. }
  rewrite <- !app_assoc. rewrite !length_app. cbn [app List.length]. rewrite take_app_add, Nat.add_1_r. cbn [take]. by rewrite take_app_length.
Qed.

Lemma shift_in c w quantifier t :
  code t = c ++ w ->
  (t' ← shift_up (emitted t [0]) (len c) 1 (1 + len w); put t' (len c) quantifier) = advance t [Moves] (c ++ quantifier :: w).
Proof.
  intros Hc. unfold advance, emitted. cbn [room_run room_step]. rewrite Hc, len_app. pose proof (len_nonneg c). pose proof (len_nonneg w).
  cbn [fst]. set (s := emit_room 1 _). change (len [0]) with 1. fold s. unfold shift_up. cbn [code code_allocated capture_count].
  replace (len c + 1 + (1 + len w)) with (len c + len w + 2) by lia. case_match; [|done]. cbn [mbind option_bind].
  replace (len c + len w + 2) with (len c + 1 + (1 + len w)) by lia. rewrite shift_bytes.
  unfold put, with_code. cbn [code capture_count code_allocated]. rewrite len_app, len_cons'.
  replace ((0 <=? len c) && (len c <? len c + (1 + len w))) with true by lia. unfold len. rewrite Nat2Z.id. by rewrite insert_mid.
Qed.

Lemma encode_quantifier_byte q : byte (encode_quantifier q) = true.
Proof. by destruct q. Qed.

Lemma compile_quantifier_atom t c a q :
  code t = c ++ encode_atom a -> (match a with AExact s => len s = 1 | _ => True end) ->
  regex_compile_quantifier t true (len c) (encode_quantifier q) =
    (t' ← advance t [Moves] (c ++ encode_quantifier q :: encode_atom a); Some (t', REGEXERR_OK)).
Proof.
  intros Hc Ha. assert (forall x d, encode_atom a = x :: d -> rd (code t) (len c) = Some x) as Hop by (intros x d E; rewrite Hc, E; apply rd_mid_len).
  assert (forall x y d, encode_atom a = x :: y :: d -> rd (code t) (len c + 1) = Some y) as Hnext.
  { intros x y d E. rewrite Hc, E. rewrite (rd_app_len c) by lia. done. }
  unfold regex_compile_quantifier.
  assert (exists op size, rd (code t) (len c) = Some op /\ (if op =? REGEXOP_EXACT_MATCH then rd (code t) (len c + 1) else Some 0) = Some size /\ size <= 1) as (op & size & -> & Hsize & Hle).
  { destruct a as [s|x|k| |n l]; cbn [encode_atom] in *; (eexists _, _; split; [by eapply Hop|]; cbn; try done).
    - split; [by eapply Hnext|]. lia.
    - destruct n; done. }
  cbn [mbind option_bind]. rewrite Hsize. cbn [mbind option_bind]. replace (1 <? size) with false by lia.
  rewrite emit_ok by done. cbn [negb REGEXERR_OK Z.eqb].
  rewrite <- (shift_in c (encode_atom a) (encode_quantifier q) t Hc).
  replace (1 + len (code t) - len c) with (1 + len (encode_atom a)) by (rewrite Hc, len_app; lia).
  destruct (shift_up _ _ _ _) as [t'|]; [|done]. cbn [mbind option_bind]. by destruct (put t' (len c) _).
Qed.

(** The last character of a longer run is split off. *)
Lemma compile_quantifier_text t c s d q :
  code t = c ++ encode_atom (AExact (s ++ [d])) -> s <> [] -> forallb text_char (s ++ [d]) = true -> len s < 255 ->
  regex_compile_quantifier t true (len c) (encode_quantifier q) =
    (t' ← advance t [Drops; Emits 4] (c ++ encode_atom (AExact s) ++ encode_quantifier q :: encode_atom (AExact [d])); Some (t', REGEXERR_OK)).
Proof.
  intros Hc Hne Hs Hlen. unfold regex_compile_quantifier. destruct (exists_last Hne) as (s' & b & ->).
  rewrite Hc. cbn [encode_atom]. rewrite rd_mid_len. cbn [mbind option_bind]. change (REGEXOP_EXACT_MATCH =? REGEXOP_EXACT_MATCH) with true. cbn [orb].
  rewrite (rd_app_len c) by lia. change (rd (REGEXOP_EXACT_MATCH :: ?n :: _) 1) with (Some n). cbn [mbind option_bind].
  assert (len ((s' ++ [b]) ++ [d]) = len s' + 2) as Hl by (rewrite !len_app; change (len [b]) with 1; change (len [d]) with 1; lia). rewrite Hl. pose proof (len_nonneg s').
  replace (1 <? len s' + 2) with true by lia.
  assert (c ++ REGEXOP_EXACT_MATCH :: len s' + 2 :: (s' ++ [b]) ++ [d] = (c ++ REGEXOP_EXACT_MATCH :: len s' + 2 :: s') ++ [b; d]) as Hcode by (rewrite <- !app_assoc; cbn; by rewrite <- ?app_assoc).
  rewrite Hcode. rewrite !len_app. change (len [b; d]) with 2. rewrite <- len_app. set (pre := c ++ REGEXOP_EXACT_MATCH :: len s' + 2 :: s').
  replace (len pre + 2 - 1) with (len pre + 1) by lia. replace (len pre + 2 - 2) with (len pre + 0) by lia. rewrite !(rd_app_len pre) by lia.
  change (rd [b; d] 1) with (Some d). change (rd [b; d] 0) with (Some b). cbn [mbind option_bind].
  assert (b =? 0 = false /\ byte d = true) as [-> Hd].
  { rewrite !forallb_app in Hs. cbn [forallb] in Hs. unfold text_char in Hs. rewrite !andb_true_iff, !negb_true_iff in Hs. tauto. }
  unfold put. rewrite Hc. cbn [encode_atom]. rewrite Hl, len_app, !len_cons', Hl. pose proof (len_nonneg c).
  replace ((0 <=? len c + 1) && (len c + 1 <? len c + (1 + (1 + (len s' + 2))))) with true by lia. cbn [mbind option_bind].
  replace (<[Z.to_nat (len c + 1):=len s' + 2 - 1]> (c ++ REGEXOP_EXACT_MATCH :: len s' + 2 :: (s' ++ [b]) ++ [d])) with
    (c ++ REGEXOP_EXACT_MATCH :: len s' + 1 :: (s' ++ [b]) ++ [d]).
  2: { replace (Z.to_nat (len c + 1)) with (List.length c + 1)%nat by (unfold len; lia). rewrite insert_app_r. cbn. do 3 f_equal. lia. }
  unfold with_code. cbn [code capture_count code_allocated].
  replace (c ++ REGEXOP_EXACT_MATCH :: len s' + 1 :: (s' ++ [b]) ++ [d]) with ((c ++ REGEXOP_EXACT_MATCH :: len s' + 1 :: s' ++ [b]) ++ [d]) by (rewrite <- !app_assoc; cbn; by rewrite <- ?app_assoc).
  rewrite removelast_last, emit_ok by (cbn [forallb]; by rewrite Hd, encode_quantifier_byte).
  unfold advance, emitted. cbn [room_run room_step mbind option_bind fst snd code capture_count code_allocated]. rewrite Hc. cbn [encode_atom].
  change (len [_; _; _; _]) with 4. do 3 f_equal.
  - do 3 f_equal. rewrite !len_app, !len_cons', ?len_app. change (len [b]) with 1. change (len [d]) with 1. change (len []) with 0. lia.
  - change (len []) with 0. change (1 + 0) with 1. rewrite <- !app_assoc. cbn [app]. by rewrite <- !app_assoc.
Qed.

Definition no_question (rest : list Z) : bool := match rest with [] => true | c :: _ => negb (c =? 63) end.

(** The byte behind a quantifier. *)
Lemma question_at off rest :
  at_ off rest -> (if off <? length then d ← rd pattern off; Some (d =? 63) else Some false) = Some (negb (no_question rest)).
Proof.
  intros H. pose proof (at_length _ _ H) as [E _]. destruct rest as [|d rest].
  - change (len []) with 0 in E. by replace (off <? length) with false by lia.
  - rewrite len_cons' in E. pose proof (len_nonneg rest). replace (off <? length) with true by lia. rewrite (ends_with_rd _ _ _ _ H).
    cbn [mbind option_bind no_question]. by rewrite negb_involutive.
Qed.

Lemma loop_quantifier fuel t o off rest level last branch bop q :
  at_ off (print_quantifier q ++ rest) -> no_question rest = true -> quantifiable t last = Some true ->
  regex_compile_quantifier t true last (encode_quantifier q) = (t' ← o; Some (t', REGEXERR_OK)) ->
  loop (S fuel) t off level last branch bop = (t' ← o; loop fuel t' (off + len (print_quantifier q)) level last branch bop).
Proof.
  intros H Hq Hcan Hcompile. pose proof (at_length _ _ H) as [E Hoff]. rewrite len_app in E. pose proof (len_nonneg rest).
  assert (1 <= len (print_quantifier q)) by (by destruct q).
  destruct q; cbn [print_quantifier app] in *; cbn [regex_parser_loop]; replace (length <=? off) with false by lia;
    rewrite (ends_with_rd _ _ _ _ H); cbn [mbind option_bind Z.eqb Pos.eqb orb]; rewrite Hcan; cbn [mbind option_bind negb];
    [..|cbn in Hcompile |- *; rewrite Hcompile; by destruct o];
    rewrite (question_at _ _ (ends_with_next _ _ _ _ H)), ?Hq; cbn in Hcompile |- *; rewrite Hcompile; destruct o; cbn; by rewrite <- ?Z.add_assoc.
Qed.

(** ** Whole patterns *)

Lemma text_no_question s x : s <> [] -> forallb text_char s = true -> no_question (s ++ x) = true.
Proof.
  destruct s as [|c s]; [done|]. intros _. cbn [forallb app no_question]. unfold text_char. rewrite !andb_true_iff, !negb_true_iff.
  intros [[_ H] _]. apply not_meta in H. cbn [forallb REGEX_META_CHARACTERS] in H. rewrite !andb_true_iff, !negb_true_iff in H. tauto.
Qed.

Lemma nodes_no_question l rest : nodes_ok l rest = true -> no_question rest = true -> no_question (print l ++ rest) = true.
Proof.
  destruct l as [|n l]; [done|]. cbn [nodes_ok]. rewrite andb_true_iff. intros [Hn _] _. rewrite print_cons, <- app_assoc.
  destruct n as [| |s|q s c|b|q b|k]; cbn [print_node node_ok] in *; try done.
  - rewrite !andb_true_iff, negb_true_iff in Hn. destruct Hn as [[[Hs Ht] _] _]. apply text_no_question; [by intros ->|done].
  - rewrite andb_true_iff in Hn. rewrite (app_assoc s), <- (app_assoc (s ++ [c])). apply text_no_question; [by destruct s|tauto].
  - by destruct b.
  - by destruct b.
Qed.

Lemma advance_set t (negated : bool) l :
  advance t (events_base (BSet negated l)) (code t ++ encode_atom (base_atom (BSet negated l))) =
    Some (emitted_set t (if negated then REGEXOP_ANY_BUT else REGEXOP_ANY_OF) (encode_elements (map member_element l))).
Proof.
  cbn [events_base base_atom encode_atom]. set (buffer := encode_elements _). unfold emitted_set.
  destruct (Z.eqb_spec (len buffer) 0) as [E|E].
  - assert (buffer = []) as -> by (apply len_nil; lia). reflexivity.
  - apply advance_block.
Qed.

Lemma loop_base fuel t off b rest level last branch bop :
  at_ off (print_base b ++ rest) -> base_ok b rest = true ->
  loop (S fuel) t off level last branch bop =
    (t' ← advance t (events_base b) (code t ++ encode_atom (base_atom b)); loop fuel t' (off + len (print_base b)) level (len (code t)) branch bop).
Proof.
  intros H Hok. destruct b as [|c|c d|negated l].
  - by apply (loop_any fuel t off rest).
  - cbn [print_base base_ok base_atom] in *. by apply (loop_escape fuel t off c rest).
  - cbn [print_base base_ok base_atom] in *. by apply (loop_hex fuel t off c d rest).
  - rewrite (loop_set fuel t off negated l rest) by done. by rewrite advance_set.
Qed.

Lemma delta_base b : delta (events_base b) = len (encode_atom (base_atom b)).
Proof.
  destruct b as [|c|c d|negated l]; [done| |done|].
  - unfold delta. cbn [events_base fold_right]. lia.
  - cbn [events_base base_atom encode_atom]. rewrite !len_cons'. case_match; unfold delta; cbn [fold_right]; lia.
Qed.

Lemma base_atom_ok b rest : base_ok b rest = true -> atom_ok (base_atom b) = true.
Proof.
  destruct b as [|c|c d|negated l]; cbn [base_ok base_atom].
  - done.
  - unfold escape_ok. rewrite andb_true_iff. intros [Hb _]. apply (escape_code c Hb).
  - unfold hex_ok. rewrite andb_true_iff. by intros [_ H].
  - rewrite !andb_true_iff. intros [[H _] _]. cbn [atom_ok]. clear -H. induction l as [|m l IH]; [done|]. cbn [members_ok map forallb] in *.
    apply andb_true_iff in H as [Hm Hl]. destruct (member_bytes _ _ Hm) as [-> _]. by apply IH.
Qed.

Lemma quantifiable_atom t c a : code t = c ++ encode_atom a -> quantifiable t (len c) = Some true.
Proof.
  intros Hc. assert (exists x d, encode_atom a = x :: d /\ (REGEXOP_EXACT_MATCH <=? x) && (x <=? REGEXOP_ANY_BUT) = true) as (x & d & E & Hx).
  { destruct a as [| | | |[]]; by eexists _, _. }
  unfold quantifiable. rewrite Hc, E, len_app, len_cons', rd_mid_len. cbn [mbind option_bind]. pose proof (len_nonneg d).
  replace (len c + (1 + len d) <=? len c) with false by lia. by rewrite Hx.
Qed.

(** A node that is not a capture, with some of the fuel. *)
Definition parses (fuel : nat) (t : regex_t) (off : Z) (level : nat) (last branch bop : Z) (n : node) : Prop :=
  exists fuel' last', (fuel' < fuel)%nat /\ (Z.to_nat (length - (off + len (print_node n))) <= fuel')%nat /\
    loop fuel t off level last branch bop =
      (t' ← advance t (events_node n) (code t ++ encode (items_node (capture_count t) n)); loop fuel' t' (off + len (print_node n)) level last' branch bop).

Lemma encode_one x : encode [x] = encode_item x.
Proof. unfold encode. cbn [map concat]. apply app_nil_r. Qed.

Lemma print_base_pos b : 1 <= len (print_base b).
Proof. destruct b as [| | |n l]; [done..|]. cbn [print_base]. rewrite len_cons'. match goal with |- context [len ?x] => pose proof (len_nonneg x) end. lia. Qed.

Lemma print_quantifier_pos q : 1 <= len (print_quantifier q).
Proof. by destruct q. Qed.

Ltac positive := match goal with |- context [print_base ?b] => pose proof (print_base_pos b) | _ => idtac end;
  match goal with |- context [print_quantifier ?q] => pose proof (print_quantifier_pos q) | _ => idtac end.

Section plain.
Context (fuel : nat) (t : regex_t) (off : Z) (rest : list Z) (level : nat) (last branch bop : Z).
Context (Hq : no_question rest = true) (Hf : (Z.to_nat (length - off) <= fuel)%nat).
Abbreviation at_node n := (at_ off (print_node n ++ rest)).
Abbreviation parses_node n := (parses fuel t off level last branch bop n).

Lemma parse_repeat b q : at_node (NRepeat q b) -> node_ok (NRepeat q b) rest = true -> parses_node (NRepeat q b).
Proof using Hq Hf.
  unfold parses. cbn [print_node node_ok items_node events_node]. rewrite encode_one, <- app_assoc. cbn [encode_item]. rewrite len_app. intros H Hok. positive.
  pose proof (ends_with_tail _ _ _ _ H) as Hn. pose proof (at_length _ _ H) as [E Hoff]. rewrite !len_app in E. pose proof (len_nonneg rest).
  destruct fuel as [|[|f]]; [lia..|]. exists f, (len (code t)). split; [lia|]. split; [lia|].
  rewrite (loop_base (S f) t off b (print_quantifier q ++ rest)) by done.
  rewrite (advance_app _ _ _ (code t ++ encode_atom (base_atom b))) by (rewrite len_app, delta_base; lia). rewrite bind_bind.
  apply advance_bind. intros a. rewrite Z.add_assoc. cbn beta. apply (loop_quantifier _ _ _ _ rest); [done|done|by apply (quantifiable_atom _ _ (base_atom b))|].
  apply compile_quantifier_atom; [done|]. destruct b; cbn [base_atom]; [done| |done..]; unfold escape_atom; by case_if.
Qed.

Lemma parse_text_repeat q s c : at_node (NTextRepeat q s c) -> node_ok (NTextRepeat q s c) rest = true -> parses_node (NTextRepeat q s c).
Proof using Hq Hf.
  unfold parses. cbn [print_node node_ok items_node]. rewrite encode_app, encode_one. rewrite (app_assoc s), <- (app_assoc (s ++ [c])). intros H Hok.
  rewrite andb_true_iff in Hok. destruct Hok as [Ht Hlen]. rewrite !len_app. pose proof (len_nonneg s). pose proof (len_nonneg rest). positive. change (len [c]) with 1.
  pose proof (ends_with_tail _ _ _ _ H) as Hn. pose proof (at_length _ _ H) as [E Hoff]. rewrite !len_app in E. change (len [c]) with 1 in E.
  destruct fuel as [|[|f]]; [lia..|]. exists f, (len (code t)). split; [lia|]. split; [lia|].
  rewrite (loop_text (S f) t off (s ++ [c]) (print_quantifier q ++ rest)); [|done|by destruct s|done|rewrite len_app; change (len [c]) with 1; lia|by destruct q].
  replace (off + (len s + 1 + len (print_quantifier q))) with (off + len (s ++ [c]) + len (print_quantifier q)) by (rewrite len_app; change (len [c]) with 1; lia).
  transitivity (t' ← advance t [Emits 2; Emits (len (s ++ [c]))] (code t ++ encode_atom (AExact (s ++ [c])));
    loop (S f) t' (off + len (s ++ [c])) level (len (code t)) branch bop).
  { cbn [encode_atom]. by rewrite advance_block. }
  destruct s as [|d s].
  - change (events_node (NTextRepeat q [] c)) with ([Emits 2; Emits (len [c])] ++ [Moves]).
    rewrite (advance_app _ _ _ (code t ++ encode_atom (AExact [c]))) by (rewrite len_app; reflexivity). rewrite bind_bind.
    apply advance_bind. intros a. cbn beta. apply (loop_quantifier _ _ _ _ rest); [done|done|by apply (quantifiable_atom _ _ (AExact [c]))|].
    by apply (compile_quantifier_atom _ _ (AExact [c])).
  - rewrite encode_one. assert (len ((d :: s) ++ [c]) = len (d :: s) + 1) as El by (by rewrite len_app).
    change (events_node (NTextRepeat q (d :: s) c)) with ([Emits 2; Emits (len (d :: s) + 1)] ++ [Drops; Emits 4]). rewrite <- El.
    rewrite (advance_app _ _ _ (code t ++ encode_atom (AExact ((d :: s) ++ [c])))).
    2: { cbn [encode_atom]. rewrite len_app, !(len_cons' REGEXOP_EXACT_MATCH), !(len_cons' (len _)), El. unfold delta. cbn [fold_right]. lia. }
    rewrite bind_bind. apply advance_bind. intros a. cbn beta.
    apply (loop_quantifier _ _ _ _ rest); [done|done|by apply (quantifiable_atom _ _ (AExact ((d :: s) ++ [c])))|].
    cbn [encode_item]. apply compile_quantifier_text; [done|done|done|lia].
Qed.

Lemma parse_plain n : at_node n -> node_ok n rest = true -> (match n with NCapture _ => False | _ => True end) -> parses_node n.
Proof using Hq Hf.
  intros H Hok Hplain. destruct n as [| |s|q s c|b|q b|l]; [| | |by apply parse_text_repeat| |by apply parse_repeat|done];
    unfold parses; cbn [print_node node_ok items_node events_node] in *; rewrite encode_one in *; pose proof (at_length _ _ H) as [E Hoff]; rewrite len_app in E; pose proof (len_nonneg rest).
  - change (len [94]) with 1 in *. destruct fuel as [|f]; [lia|]. exists f, last. split; [lia|]. split; [lia|]. by apply (loop_bol f t off rest).
  - change (len [36]) with 1 in *. destruct fuel as [|f]; [lia|]. exists f, last. split; [lia|]. split; [lia|]. by apply (loop_eol f t off rest).
  - rewrite !andb_true_iff, negb_true_iff in Hok. destruct Hok as [[[Hne Ht] Hlen] Hrest]. pose proof (len_nonneg s). destruct fuel as [|f]; [lia|].
    exists f, (len (code t)). split; [lia|]. split; [lia|]. rewrite (loop_text f t off s rest); try done; [|by intros ->|lia].
    cbn [encode_item encode_atom]. by rewrite advance_block.
  - pose proof (print_base_pos b). destruct fuel as [|f]; [lia|]. exists f, (len (code t)). split; [lia|]. split; [lia|]. by apply (loop_base f t off b rest).
Qed.
End plain.

(** What the parser gives for nodes: at the top it ends with the pattern, in a
    capture behind the closing parenthesis. *)
Definition parsed (t : regex_t) (l : list node) : option regex_t :=
  s ← room_run (events l) (len (code t), code_allocated t);
  Some (mk_regex (capture_count t + count l) s.2 (code t ++ encode (items (capture_count t) l))).

Definition closes (level : nat) (rest : list Z) : Prop :=
  match level with O => rest = [] | S _ => exists rest', rest = 41 :: rest' end.

Lemma closes_no_question level rest : closes level rest -> no_question rest = true.
Proof. destruct level; [by intros ->|by intros (? & ->)]. Qed.

Lemma delta_cons e es : delta (e :: es) = delta [e] + delta es.
Proof. change (e :: es) with ([e] ++ es). apply delta_app. Qed.

Lemma delta_node : forall n k, delta (events_node n) = len (encode (items_node k n)).
Proof.
  fix IH 1. intros n k. destruct n as [| |s|q s c|b|q b|l]; [..|rewrite items_capture]; cbn [items_node]; rewrite ?encode_one.
  - done.
  - done.
  - unfold delta. cbn [events_node fold_right encode_item encode_atom]. rewrite !len_cons'. lia.
  - rewrite encode_app, len_app, encode_one. change (len (encode_item (IRepeat q (AExact [c])))) with 4. destruct s as [|d s]; [done|].
    rewrite encode_one. cbn [encode_item encode_atom events_node]. rewrite (len_cons' REGEXOP_EXACT_MATCH), (len_cons' (len _)). unfold delta. cbn [fold_right]. lia.
  - apply delta_base.
  - cbn [events_node encode_item]. rewrite delta_app, delta_base, len_cons'. unfold delta. cbn [fold_right]. lia.
  - cbn [events_node]. rewrite delta_cons, delta_app. change (encode (IBegin k :: ?x)) with ([REGEXOP_BEGIN_CAPTURE; k] ++ encode x). rewrite encode_app, encode_one, !len_app.
    cbn [encode_item]. change (len [_; _]) with 2. change (delta [Emits 2]) with 2.
    enough (delta (concat (map events_node l)) = len (encode (items (k + 1) l))) by lia.
    generalize (k + 1) as k'. induction l as [|n l IHl]; intros k'; [done|]. cbn [map concat items]. rewrite delta_app, encode_app, len_app, (IH n k'). by rewrite (IHl (k' + count_node n)).
Qed.

Lemma delta_nodes l k : delta (events l) = len (encode (items k l)).
Proof.
  revert k. induction l as [|n l IH]; intros k; [done|]. change (events (n :: l)) with (events_node n ++ events l).
  cbn [items]. by rewrite delta_app, encode_app, len_app, (delta_node n k), (IH (k + count_node n)).
Qed.

Lemma parsed_cons t n l :
  (match n with NCapture _ => False | _ => True end) ->
  parsed t (n :: l) = (t' ← advance t (events_node n) (code t ++ encode (items_node (capture_count t) n)); parsed t' l).
Proof.
  intros Hn. unfold parsed, advance. change (events (n :: l)) with (events_node n ++ events l). rewrite room_run_app.
  destruct (room_run (events_node n) _) as [[m a]|] eqn:E; [|done]. cbn [mbind option_bind fst snd code capture_count code_allocated].
  apply room_run_delta in E. cbn [fst] in E. rewrite (delta_node n (capture_count t)) in E. rewrite len_app, <- E, count_cons. cbn [items].
  rewrite encode_app, app_assoc. replace (count_node n) with 0 by (by destruct n). by rewrite Z.add_0_r.
Qed.

(** The states behind an opening parenthesis and a closing one. *)
Definition opened (t : regex_t) : regex_t :=
  emitted (mk_regex (capture_count t + 1) (code_allocated t) (code t)) [REGEXOP_BEGIN_CAPTURE; capture_count t].
Definition closed (t t' : regex_t) : regex_t := emitted t' [REGEXOP_END_CAPTURE; capture_count t].

Lemma emitted_room t vals :
  (len (code (emitted t vals)), code_allocated (emitted t vals)) = emit_room (len vals) (len (code t), code_allocated t).
Proof. unfold emitted, emit_room. cbn [code code_allocated fst snd]. by rewrite len_app. Qed.

Lemma parsed_capture t k l : parsed t (NCapture k :: l) = (t' ← parsed (opened t) k; parsed (closed t t') l).
Proof.
  unfold parsed. change (events (NCapture k :: l)) with (Emits 2 :: (events k ++ [Emits 2]) ++ events l). cbn [room_run room_step mbind option_bind].
  rewrite <- app_assoc, room_run_app. pose proof (emitted_room (mk_regex (capture_count t + 1) (code_allocated t) (code t)) [REGEXOP_BEGIN_CAPTURE; capture_count t]) as Eo.
  fold (opened t) in Eo. rewrite Eo. change (len [_; _]) with 2. cbn [code code_allocated].
  assert (len (code (opened t)) = len (code t) + 2) as Elen by (unfold opened, emitted; cbn [code]; by rewrite len_app).
  change (capture_count (opened t)) with (capture_count t + 1).
  destruct (room_run (events k) _) as [[m a]|] eqn:E; [|done]. cbn [mbind option_bind]. apply room_run_delta in E. cbn [emit_room fst] in E.
  set (t2 := mk_regex _ _ _). pose proof (emitted_room t2 [REGEXOP_END_CAPTURE; capture_count t]) as Ec. fold (closed t t2) in Ec. rewrite Ec. change (len [_; _]) with 2.
  assert (len (code t2) = m) as -> by (unfold t2; cbn [code]; rewrite len_app, Elen, E, (delta_nodes k (capture_count t + 1)); lia).
  change (code_allocated t2) with a. cbn [app room_run room_step mbind option_bind].
  destruct (room_run (events l) _) as [[m' a']|]; [|done]. cbn [mbind option_bind snd].
  unfold t2, closed, opened, emitted. cbn [code capture_count]. do 2 f_equal; [rewrite count_cons, count_capture; lia|].
  cbn [items]. rewrite items_capture, count_capture, encode_app. change (encode (IBegin ?k :: ?x)) with ([REGEXOP_BEGIN_CAPTURE; k] ++ encode x). rewrite encode_app, encode_one. cbn [encode_item].
  rewrite !Z.add_assoc. by rewrite <- !app_assoc.
Qed.

(** An opening parenthesis, when the parser called for it gives what it should. *)
Lemma loop_open fuel t off k rest level last branch :
  at_ off (40 :: print k ++ 41 :: rest) -> byte (capture_count t) = true ->
  loop fuel (opened t) (off + 1) (S level) (len (code (opened t))) (len (code (opened t))) REGEXPARSE_NOBRANCH =
    (t' ← parsed (opened t) k; Some (t', off + 1 + len (print k) + 1)) ->
  loop (S fuel) t off level last branch REGEXPARSE_NOBRANCH =
    (t' ← parsed (opened t) k; loop fuel (closed t t') (off + 1 + len (print k) + 1) level (len (code t)) branch REGEXPARSE_NOBRANCH).
Proof.
  intros H Hc Hinner. pose proof (at_length _ _ H) as [E Hoff]. rewrite len_cons', len_app, len_cons' in E. pose proof (len_nonneg rest).
  pose proof (len_nonneg (print k)). cbn [regex_parser_loop]. replace (length <=? off) with false by lia. rewrite (ends_with_rd _ _ _ _ H). cbn [mbind option_bind Z.eqb Pos.eqb].
  rewrite emit_ok by (cbn [forallb]; by rewrite Hc). cbn [negb REGEXERR_OK Z.eqb].
  change (emitted (mk_regex ?a ?b ?c) ?d) with (opened t). rewrite Hinner. destruct (parsed (opened t) k) as [t'|]; [|done]. cbn [mbind option_bind].
  replace (length <? off + 1 + len (print k) + 1) with false by lia.
  replace (off + 1 + len (print k) + 1 - 1) with (off + 1 + len (print k)) by lia.
  rewrite (ends_with_rd _ _ _ _ (ends_with_tail _ _ _ _ (ends_with_next _ _ _ _ H))). cbn [mbind option_bind Z.eqb Pos.eqb negb].
  by rewrite emit_ok by (cbn [forallb]; by rewrite Hc).
Qed.

Abbreviation behind level := (match level with O => 0 | S _ => 1 end).

Lemma parse_nil fuel t off rest level last branch :
  at_ off rest -> closes level rest -> (Z.to_nat (length - off) <= fuel)%nat ->
  loop fuel t off level last branch REGEXPARSE_NOBRANCH = (t' ← parsed t []; Some (t', off + len (print []) + behind level)).
Proof.
  intros H Hclose Hf. pose proof (at_length _ _ H) as [E Hoff]. change (len (print [])) with 0. unfold parsed. change (count []) with 0.
  change (encode (items (capture_count t) [])) with (@nil Z). cbn [room_run events map concat mbind option_bind snd]. rewrite app_nil_r, !Z.add_0_r.
  replace (mk_regex (capture_count t) (code_allocated t) (code t)) with t by (by destruct t).
  destruct level as [|level]; cbn [closes] in Hclose.
  - subst rest. change (len []) with 0 in E. destruct fuel; cbn [regex_parser_loop]; replace (length <=? off) with true by lia; by rewrite !Z.add_0_r.
  - destruct Hclose as (rest' & ->). rewrite len_cons' in E. pose proof (len_nonneg rest').
    destruct fuel as [|fuel]; [lia|]. by apply (loop_close fuel t off rest').
Qed.

Lemma parse_nodes fuel l t off rest level last branch :
  at_ off (print l ++ rest) -> closes level rest -> nodes_ok l rest = true ->
  0 <= capture_count t -> capture_count t + count l <= 256 -> (Z.to_nat (length - off) <= fuel)%nat ->
  loop fuel t off level last branch REGEXPARSE_NOBRANCH = (t' ← parsed t l; Some (t', off + len (print l) + behind level)).
Proof.
  revert l t off rest level last branch. induction (lt_wf fuel) as [fuel _ IH]. intros l t off rest level last branch H Hclose Hok Hc0 Hc Hf.
  destruct l as [|n l]; [by eapply parse_nil|]. pose proof (at_length _ _ H) as [E Hoff]. rewrite len_app in E.
  cbn [nodes_ok] in *. rewrite print_cons in *. rewrite len_app in *. rewrite <- app_assoc in H. apply andb_true_iff in Hok as [Hn Hok]. rewrite count_cons in Hc.
  pose proof (nodes_no_question l rest Hok (closes_no_question _ _ Hclose)) as Hq. pose proof (ends_with_tail _ _ _ _ H) as Hl. pose proof (count_nonneg l).
  assert ((match n with NCapture _ => False | _ => True end) \/ exists k, n = NCapture k) as [Hplain|(k & ->)] by (destruct n; eauto).
  - replace (count_node n) with 0 in * by (by destruct n).
    destruct (parse_plain fuel t off (print l ++ rest) level last branch REGEXPARSE_NOBRANCH Hq Hf n) as (fuel' & last' & Hlt & Hf' & ->); [done..|].
    rewrite parsed_cons, bind_bind by done. apply advance_bind. intros a. cbn beta.
    rewrite (IH fuel' Hlt l _ _ rest level); [|done..|cbn [capture_count]; lia|done]. by rewrite !Z.add_assoc.
  - rewrite count_capture, ok_capture, print_capture in *. rewrite <- ?app_comm_cons, <- ?app_assoc in H. cbn [app] in H.
    rewrite len_cons', len_app in E. change (len [41]) with 1 in E. pose proof (len_nonneg (print k)). pose proof (len_nonneg rest). pose proof (len_nonneg (print l)).
    pose proof (count_nonneg k). destruct fuel as [|fuel]; [lia|]. rewrite parsed_capture, bind_bind.
    assert (off + len (40 :: print k ++ [41]) = off + 1 + len (print k) + 1) as Eoff by (rewrite len_cons', len_app; change (len [41]) with 1; lia).
    rewrite Eoff in Hl. rewrite (loop_open fuel t off k (print l ++ rest)); [|done|unfold byte; lia|].
    + destruct (parsed (opened t) k) as [t'|] eqn:Et; [|done]. cbn [mbind option_bind]. rewrite (IH fuel ltac:(lia) l _ _ rest level); [|done..| | |lia].
      * by rewrite Z.add_assoc, Eoff.
      * unfold parsed in Et. destruct (room_run (events k) _); [|done]. injection Et as <-. cbn [closed emitted opened capture_count]. lia.
      * unfold parsed in Et. destruct (room_run (events k) _); [|done]. injection Et as <-. cbn [closed emitted opened capture_count]. lia.
    + apply (IH fuel ltac:(lia) k (opened t) (off + 1) (41 :: print l ++ rest) (S level)); [by eapply ends_with_next|by eexists|done|..];
        cbn [opened emitted capture_count]; lia.
Qed.
End parser.

(** ** Whole patterns compile *)

Definition pattern_ok (l : list node) : bool := nodes_ok l [] && (count l <=? 256).

Lemma pattern_parses l t :
  pattern_ok l = true -> capture_count t = 0 -> code t = [] ->
  regex_parser t (print l) 0 (len (print l)) true 0 =
    (s ← room_run (events l) (0, code_allocated t); Some (mk_regex (count l) s.2 (encode (items 0 l)), len (print l))).
Proof.
  unfold pattern_ok. rewrite andb_true_iff. intros [Hok Hc] Hcount Hcode. unfold regex_parser.
  rewrite (parse_nodes (print l) _ l t 0 [] 0%nat); rewrite ?Hcount, ?Hcode; [|by exists []; rewrite app_nil_r|done|done|lia|lia|lia].
  unfold parsed. rewrite Hcount, Hcode. change (len []) with 0. destruct (room_run _ _) as [s|]; [|done]. cbn [mbind option_bind app]. do 3 f_equal; lia.
Qed.

Lemma node_items_ok : forall n k rest, node_ok n rest = true -> forallb item_ok (items_node k n) = true.
Proof.
  fix IH 1. intros n k rest. destruct n as [| |s|q s c|b|q b|l]; cbn [node_ok items_node].
  - done.
  - done.
  - rewrite !andb_true_iff. intros [[[H _] _] _]. cbn. by rewrite H.
  - intros _. destruct s as [|d s]; [done|]. cbn. destruct (Z.eqb_spec (len (d :: s)) 0) as [E|]; [|done]. unfold len in E. cbn in E. lia.
  - intros H%base_atom_ok. cbn. by rewrite H.
  - intros H%base_atom_ok. cbn. by rewrite H.
  - intros H. cbn [forallb item_ok andb]. rewrite forallb_app. cbn. rewrite andb_true_r. generalize (k + 1). revert H. generalize (41 :: rest).
    clear k rest. induction l as [|n l IHl]; intros rest H k; [done|]. apply andb_true_iff in H as [Hn Hl]. rewrite forallb_app. apply andb_true_iff. split; [by eapply IH|]. by eapply IHl.
Qed.

Lemma items_ok l k rest : nodes_ok l rest = true -> forallb item_ok (items k l) = true.
Proof.
  revert k. induction l as [|n l IH]; intros k H; [done|]. cbn [nodes_ok items] in *. apply andb_true_iff in H as [Hn Hl].
  rewrite forallb_app, (node_items_ok n k _ Hn). by apply IH.
Qed.

(** ** The size of the array *)

(** The bytes that are emitted, three at most for each one of the pattern. *)
Definition weight (es : list event) : Z := fold_right (fun e n => (match e with Emits k => k | Moves => 1 | Drops => 0 end) + n) 0 es.

Lemma weight_app a b : weight (a ++ b) = weight a + weight b.
Proof. unfold weight. induction a as [|e a IH]; cbn [app fold_right]; [lia|]. rewrite IH. lia. Qed.

Lemma weight_cons e es : weight (e :: es) = weight [e] + weight es.
Proof. change (e :: es) with ([e] ++ es). apply weight_app. Qed.

Definition emits_ok (e : event) : Prop := match e with Emits k => 0 <= k | _ => True end.

Lemma room_step_bound e s s' u :
  emits_ok e -> room_step e s = Some s' -> s.1 <= u -> 0 <= u -> s'.1 <= u + weight [e] /\ s.2 <= s'.2 <= Z.max s.2 (3 * (u + weight [e])) \/ s.2 < 0.
Proof.
  unfold weight. destruct s as [n a]. destruct e as [k| |]; cbn [room_step fold_right emits_ok]; intros Hk; [|case_match; [|done]|]; intros [= <-];
    cbn [emit_room fst snd]; intros Hn Hu; repeat case_match; lia.
Qed.

Lemma room_run_bound es s s' u :
  Forall emits_ok es -> room_run es s = Some s' -> s.1 <= u -> 0 <= u -> 0 <= s.2 -> s'.1 <= u + weight es /\ s.2 <= s'.2 <= Z.max s.2 (3 * (u + weight es)).
Proof.
  intros Hes. revert s u. induction Hes as [|e es He Hes IH]; intros s u; cbn [room_run].
  - intros [= <-] Hn Hu Ha. unfold weight. cbn [fold_right]. lia.
  - destruct (room_step e s) as [s1|] eqn:E; [|done]. cbn [mbind option_bind]. intros Hrun Hn Hu Ha.
    destruct (room_step_bound e s s1 u He E Hn Hu) as [[H1 H2]|]; [|lia]. rewrite weight_cons.
    assert (0 <= weight [e]) by (unfold weight; destruct e; cbn [fold_right emits_ok] in *; lia).
    assert (0 <= weight es) by (clear -Hes; induction Hes as [|x y Hx Hy IHy]; [done|]; rewrite weight_cons; unfold weight at 1; destruct x; cbn [fold_right emits_ok] in *; lia).
    destruct (IH s1 (u + weight [e]) Hrun) as [I1 I2]; [lia..|]. split; lia.
Qed.

(** The code stays in the array: what is emitted has room there. *)
Lemma room_step_within e s s' : emits_ok e -> room_step e s = Some s' -> s.1 <= s.2 /\ 0 <= s.2 -> s'.1 <= s'.2 /\ 0 <= s'.2.
Proof.
  destruct s as [n a]. destruct e as [k| |]; cbn [room_step emits_ok]; intros Hk; [|case_match; [|done]|]; intros [= <-];
    cbn [emit_room fst snd]; repeat case_match; lia.
Qed.

Lemma room_run_within es s s' : Forall emits_ok es -> room_run es s = Some s' -> s.1 <= s.2 /\ 0 <= s.2 -> s'.1 <= s'.2 /\ 0 <= s'.2.
Proof.
  intros Hes. revert s. induction Hes as [|e es He Hes IH]; intros s; cbn [room_run]; [by intros [= <-]|].
  destruct (room_step e s) as [s1|] eqn:E; [|done]. cbn [mbind option_bind]. intros Hrun Hs. apply (IH s1 Hrun). by apply (room_step_within e s).
Qed.

(** The events of a list, one after the other. *)
Ltac emits := apply Forall_cons; split; [cbn [emits_ok]; first [done | apply len_nonneg | lia]|].

Lemma events_base_ok b : Forall emits_ok (events_base b).
Proof.
  destruct b as [|c|c d|n l]; cbn [events_base]; repeat emits; [done..|]. case_match; by repeat emits.
Qed.

Lemma events_node_ok : forall n, Forall emits_ok (events_node n).
Proof.
  fix IH 1. intros n. destruct n as [| |s|q s c|b|q b|l]; cbn [events_node].
  - by repeat emits.
  - by repeat emits.
  - by repeat emits.
  - pose proof (len_nonneg s). destruct s; by repeat emits.
  - apply events_base_ok.
  - apply Forall_app. split; [apply events_base_ok|by repeat emits].
  - emits. apply Forall_app. split; [|by repeat emits].
    induction l as [|n l IHl]; cbn [map concat]; [constructor|]. apply Forall_app. split; [apply IH|apply IHl].
Qed.

Lemma events_ok l : Forall emits_ok (events l).
Proof. unfold events. induction l as [|n l IH]; cbn [map concat]; [constructor|]. apply Forall_app. split; [apply events_node_ok|apply IH]. Qed.

Lemma members_weight l : len (encode_elements (map member_element l)) <= len (print_members l).
Proof.
  induction l as [|m l IH]; [done|]. change (print_members (m :: l)) with (print_member m ++ print_members l).
  cbn [map]. change (encode_elements (?e :: ?r)) with (encode_element e ++ encode_elements r). rewrite !len_app.
  assert (len (encode_element (member_element m)) <= len (print_member m)); [|lia].
  destruct m as [c|c|c d]; cbn [member_element print_member]; [done| |by vm_compute]. case_if; by vm_compute.
Qed.

Lemma weight_base b : weight (events_base b) <= 3 * len (print_base b) - 1.
Proof.
  destruct b as [|c|c d|n l]; cbn [events_base print_base base_atom].
  - done.
  - change (len [92; c]) with 2. unfold weight, escape_atom. cbn [fold_right]. case_if; [change (len (encode_atom _)) with 3|change (len (encode_atom _)) with 2]; lia.
  - done.
  - pose proof (members_weight l). rewrite len_cons', !len_app. change (len [93]) with 1. rewrite weight_cons. change (weight [Emits 2]) with 2.
    match goal with |- context [len (if n then ?a else ?b)] => pose proof (len_nonneg (if n then a else b)) end. pose proof (len_nonneg (print_members l)).
    destruct (_ =? 0); unfold weight; cbn [fold_right]; lia.
Qed.

Lemma weight_node : forall n rest, node_ok n rest = true -> weight (events_node n) <= 3 * len (print_node n).
Proof.
  fix IH 1. intros n rest. destruct n as [| |s|q s c|b|q b|l]; cbn [node_ok events_node print_node].
  - done.
  - done.
  - rewrite !andb_true_iff, negb_true_iff. intros [[[H _] _] _]. pose proof (len_nonneg s). unfold weight. cbn [fold_right]. lia.
  - intros _. rewrite !len_app. change (len [c]) with 1. pose proof (print_quantifier_pos q). pose proof (len_nonneg s).
    destruct s as [|d s]; [change (len []) with 0|rewrite len_cons' in *; pose proof (len_nonneg s)]; unfold weight; cbn [fold_right]; lia.
  - intros _. pose proof (weight_base b). lia.
  - intros _. rewrite weight_app, len_app. pose proof (weight_base b). pose proof (print_quantifier_pos q). change (weight [Moves]) with 1. lia.
  - intros H. rewrite weight_cons, weight_app, len_cons', len_app. change (weight [Emits 2]) with 2. change (len [41]) with 1.
    enough (weight (concat (map events_node l)) <= 3 * len (concat (map print_node l))) by lia. revert H. generalize (41 :: rest). clear rest.
    induction l as [|n l IHl]; intros rest H; [done|]. apply andb_true_iff in H as [Hn Hl]. cbn [map concat]. rewrite weight_app, len_app.
    pose proof (IH _ _ Hn). pose proof (IHl _ Hl). lia.
Qed.

Lemma weight_nodes l rest : nodes_ok l rest = true -> weight (events l) <= 3 * len (print l).
Proof.
  induction l as [|n l IH]; [done|]. cbn [nodes_ok]. rewrite andb_true_iff. intros [Hn%weight_node Hl%IH].
  change (events (n :: l)) with (events_node n ++ events l). rewrite print_cons, weight_app, len_app. lia.
Qed.

(** The array never has more than nine bytes for one of the pattern, so its
    size does not overflow. *)
Lemma room_bound l allocated :
  pattern_ok l = true -> room l = Some allocated ->
  len (encode (items 0 l)) <= 3 * len (print l) /\ len (encode (items 0 l)) <= allocated <= 9 * len (print l) + 16.
Proof.
  unfold pattern_ok, room. rewrite andb_true_iff. intros [Hok _] (s' & Hrun & ->)%fmap_Some. pose proof (weight_nodes l [] Hok). pose proof (len_nonneg (print l)).
  destruct (room_run_bound _ _ _ 0 (events_ok l) Hrun) as [H1 H2]; [cbn [fst snd]; lia..|]. cbn [snd] in H2.
  pose proof (room_run_within _ _ _ (events_ok l) Hrun ltac:(cbn [fst snd]; lia)) as Hwithin.
  assert (delta (events l) = len (encode (items 0 l))) as <-.
  { apply delta_nodes. }
  apply room_run_delta in Hrun. cbn [fst] in Hrun. lia.
Qed.

(** Whatever is behind a part of the events, the code is inside the array. *)
Lemma room_within l e1 e2 allocated :
  room l = Some allocated -> events l = e1 ++ e2 -> exists s, room_run e1 (0, len (print l) + 16) = Some s /\ s.1 <= s.2 <= allocated.
Proof.
  unfold room. intros (s' & Hrun & ->)%fmap_Some E. pose proof (len_nonneg (print l)). pose proof (events_ok l) as Hok.
  rewrite E in Hrun, Hok. apply Forall_app in Hok as [Hok1 Hok2]. rewrite room_run_app in Hrun.
  destruct (room_run e1 _) as [s|] eqn:E1; [|done]. exists s. split; [done|]. cbn [mbind option_bind] in Hrun.
  pose proof (room_run_within _ _ _ Hok1 E1 ltac:(cbn [fst snd]; lia)) as Hs.
  destruct (room_run_bound _ _ _ (Z.max 0 s.1) Hok2 Hrun) as [_ Hb]; lia.
Qed.

(** C20: the compiler and the machine are right on the text of any pattern
    without branches, of less than [2 ^ 60] bytes, with 256 captures at most and
    runs of characters and groups of less than 256 bytes: captures at any depth,
    anchors, runs of characters (a quantifier repeats the last one only), escapes
    and hexadecimal codes, groups and negated groups, and the five quantifiers.
    Unless a quantifier finds the array of
    the code, which grows on the way, with exactly one free byte, and then the
    code writes one byte behind it, [regex_compile] gives exactly the code of
    the items and the number of the captures, in an array of the size that the
    events of the pattern lead to, which holds the code ([room_within] says so
    for every moment on the way) and does not overflow; and
    [regex_match] with it returns, with true exactly when the items match from
    a place where a match may begin. *)
Theorem regex_compile_match (l : list node) :
  pattern_ok l = true -> len (print l) < 2 ^ 60 ->
  match room l with
  | None => regex_compile (print l) = None
  | Some allocated =>
      len (encode (items 0 l)) <= allocated <= 9 * len (print l) + 16 /\
      exists regex, regex_compile (print l) = Some (Some regex) /\
        capture_count regex = count l /\ code_allocated regex = allocated /\ code regex = encode (items 0 l) /\
        forall input beyond fuel captures, len input < 2 ^ 63 -> (need input (length (items 0 l)) <= fuel)%nat ->
          exists b captures', regex_match (code regex) input (len input) beyond fuel captures = Some (b, captures') /\
            (b = true <-> items 0 l = [] \/ exists i j, start_ok input (items 0 l) i /\ matches input (items 0 l) i j)
  end.
Proof.
  intros Hok Hlen. pose proof (room_bound l) as Hbound. unfold regex_compile. rewrite pattern_parses by done. cbn [code_allocated].
  unfold room in *. destruct (room_run _ _) as [[n a]|]; [|done]. cbn [fmap option_fmap option_map mbind option_bind snd] in *. rewrite Z.eqb_refl.
  destruct (Hbound a Hok eq_refl) as [Hcode Ha]. split; [done|]. eexists. split; [done|]. split; [done|]. split; [done|]. split; [done|].
  intros input beyond fuel captures Hin Hfuel. cbn [code]. apply encode_match; [done| |unfold fits, NPOS; lia|done].
  unfold pattern_ok in Hok. apply andb_true_iff in Hok as [Hok _]. by eapply items_ok.
Qed.

(** ["^(\s*\S+)=([^;]*?)\3b$"] *)
Definition sample : list node :=
  [NBol; NCapture [NRepeat QStar (BEscape 115); NRepeat QPlus (BEscape 83)]; NText [61];
   NCapture [NRepeat QStarShortest (BSet true [MChar 59])]; NOne (BHex 51 98); NEol].

(** Compiled in the array it begins with; eight captures, ["(a)(b)...(h)"], make it grow. *)
Definition captures_sample : list node := map (fun c => NCapture [NText [c]]) [97; 98; 99; 100; 101; 102; 103; 104].

Lemma regex_compile_match_witness :
  (room sample = Some 38 /\ exists regex, regex_compile (print sample) = Some (Some regex) /\ code regex = encode (items 0 sample)) /\
  (room captures_sample = Some 82 /\ exists regex, regex_compile (print captures_sample) = Some (Some regex) /\
    code_allocated regex = 82 /\ code regex = encode (items 0 captures_sample) /\
    forall input, len input < 2 ^ 63 -> exists b captures',
      regex_match (code regex) input (len input) 0 (need input (length (items 0 captures_sample))) [] = Some (b, captures')).
Proof.
  pose proof (regex_compile_match sample ltac:(by vm_compute) ltac:(by vm_compute)) as H1.
  pose proof (regex_compile_match captures_sample ltac:(by vm_compute) ltac:(by vm_compute)) as H2.
  assert (room sample = Some 38) as E1 by (by vm_compute). assert (room captures_sample = Some 82) as E2 by (by vm_compute).
  rewrite E1 in H1. rewrite E2 in H2. split; (split; [done|]).
  - destruct H1 as (_ & regex & H & _ & _ & Hc & _). exists regex; exact (conj H Hc).
  - destruct H2 as (_ & regex & H & _ & Ha & Hc & Hmatch). exists regex. split; [exact H|]. split; [exact Ha|]. split; [exact Hc|].
    intros input Hin. destruct (Hmatch input 0 _ [] Hin (le_n _)) as (b & captures' & E & _). exists b, captures'. exact E.
Defined.

(** ["a$a$a$a$a$a$a$a*"]: the quantifier finds one free byte. *)
Definition overrun_sample : list node := concat (replicate 7 [NText [97]; NEol]) ++ [NTextRepeat QStar [] 97].

Example regex_compile_overruns : pattern_ok overrun_sample = true /\ room overrun_sample = None /\ regex_compile (print overrun_sample) = None.
Proof. by vm_compute. Qed.
End RegexCompile.
