(* ===== verification/Stream.v ===== *)
(** * Streams ([src/library/foundation_lib/foundation/stream.c])

    A stream is a header followed by the data of its implementation; the
    functions of stream.c call the implementation through a table of function
    pointers, any of which but [read] and [write] may be null.  The class
    [StreamImpl] is that table; [StreamLaws] states what the functions that
    read rely on, and is proved for the memory buffer streams in
    [BufferStream].  The target is little endian. *)
From S2P Require Import Prelude Str StrBuf StrNum.

Module Stream.
Import Str StrBuf StrNum.

(** ** Data *)

Definition STREAM_IN : Z := 1.
Definition STREAM_OUT : Z := 2.
Definition STREAM_TRUNCATE : Z := 4.
Definition STREAM_ATEND : Z := 16.
Definition STREAM_BINARY : Z := 32.

Inductive stream_seek_mode_t := STREAM_SEEK_BEGIN | STREAM_SEEK_CURRENT | STREAM_SEEK_END.
Inductive byteorder_t := BYTEORDER_LITTLEENDIAN | BYTEORDER_BIGENDIAN.

#[export] Instance byteorder_eq_dec : EqDecision byteorder_t.
Proof. solve_decision. Defined.

Definition system_byteorder : byteorder_t := BYTEORDER_LITTLEENDIAN.

(** The fields declared by [FOUNDATION_DECLARE_STREAM] that the functions use. *)
Record stream_t := mk_stream {
  sequential : bool;
  reliable : bool;
  inorder : bool;
  swap : bool;
  byteorder : byteorder_t;
  mode : Z;
}.

Definition set_mode (m : Z) (h : stream_t) : stream_t :=
  mk_stream (sequential h) (reliable h) (inorder h) (swap h) (byteorder h) m.

Definition flag (m f : Z) : bool := negb (Z.land m f =? 0).

Definition stream_initialize (order : byteorder_t) : stream_t :=
  mk_stream false true true (negb (bool_decide (order = system_byteorder))) order STREAM_BINARY.

(** The table of function pointers. *)
Class StreamImpl (S : Type) := {
  header : S -> stream_t;
  set_header : stream_t -> S -> S;
  vt_read : S -> Z -> list Z * S;
  vt_write : S -> list Z -> Z * S;
  vt_eos : option (S -> bool);
  vt_flush : option (S -> S);
  vt_truncate : option (S -> Z -> S);
  vt_size : option (S -> Z);
  vt_seek : option (S -> Z -> stream_seek_mode_t -> S);
  vt_tell : option (S -> Z);
  vt_available_read : option (S -> Z);
}.

Section operations.
Context {S : Type} `{!StreamImpl S} `{!Uninit}.

(** ** Flags and positions *)

Definition stream_set_byteorder (stream : S) (order : byteorder_t) : S :=
  let h := header stream in
  set_header (mk_stream (sequential h) (reliable h) (inorder h)
    (negb (bool_decide (order = system_byteorder))) order (mode h)) stream.

Definition stream_set_binary (stream : S) (binary : bool) : S :=
  let m := mode (header stream) in
  set_header (set_mode (if binary then Z.lor m STREAM_BINARY else Z.ldiff m STREAM_BINARY)
                (header stream)) stream.

Definition stream_is_binary (stream : S) : bool := flag (mode (header stream)) STREAM_BINARY.
Definition stream_is_sequential (stream : S) : bool := sequential (header stream).
Definition stream_is_swapped (stream : S) : bool := swap (header stream).
Definition stream_is_reliable (stream : S) : bool := reliable (header stream).
Definition stream_is_inorder (stream : S) : bool := inorder (header stream).
Definition stream_byteorder (stream : S) : byteorder_t := byteorder (header stream).

Definition stream_eos (stream : S) : bool :=
  match vt_eos with Some eos => eos stream | None => false end.

Definition stream_seek (stream : S) (offset : Z) (direction : stream_seek_mode_t) : S :=
  match vt_seek with Some seek => seek stream offset direction | None => stream end.

Definition stream_tell (stream : S) : Z :=
  match vt_tell with Some tell => tell stream | None => 0 end.

Definition stream_size (stream : S) : Z :=
  match vt_size with Some size => size stream | None => 0 end.

Definition stream_truncate (stream : S) (size : Z) : S :=
  match vt_truncate with Some truncate => truncate stream size | None => stream end.

Definition stream_flush (stream : S) : S :=
  match vt_flush with Some flush => flush stream | None => stream end.

(** The result is cast to [unsigned int]. *)
Definition stream_available_read (stream : S) : Z :=
  match vt_available_read with
  | Some available_read => u32 (available_read stream)
  | None => u32 (stream_size stream - stream_tell stream)
  end.

Definition stream_read (stream : S) (size : Z) : list Z * S :=
  if flag (mode (header stream)) STREAM_IN then vt_read stream size else ([], stream).

Definition stream_write (stream : S) (buffer : list Z) : Z * S :=
  if flag (mode (header stream)) STREAM_OUT then vt_write stream buffer else (0, stream).

(** ** Lines *)

(** The loop [for(i = 0; i < read; ++i) if(...) break;] *)
Fixpoint index_of (p : Z -> bool) (buffer : list Z) : Z :=
  match buffer with
  | [] => 0
  | c :: buffer => if p c then 0 else 1 + index_of p buffer
  end.

Definition seek_back (stream : S) (consumed read : Z) : S :=
  if consumed <? read then stream_seek stream (consumed - read) STREAM_SEEK_CURRENT else stream.

(** [dest] holds the [total] bytes read so far. *)
Fixpoint read_line_buffer_loop (fuel : nat) (stream : S) (count hardlimit delimiter : Z) (dest : list Z)
    : option (list Z * S) :=
  if stream_eos stream then Some (dest, stream)
  else
    let limit := count - len dest in
    let limit := if hardlimit <? limit then hardlimit else limit in
    if limit =? 0 then Some (dest, stream)
    else
      match fuel with
      | O => None
      | Datatypes.S fuel =>
          let '(buffer, stream) := vt_read stream limit in
          if len buffer =? 0 then Some (dest, stream)
          else
            let i := index_of (fun c => c =? delimiter) buffer in
            let dest := dest ++ sub buffer 0 i in
            if i <? len buffer then Some (dest, seek_back stream (i + 1) (len buffer))
            else read_line_buffer_loop fuel stream count hardlimit delimiter dest
      end.

Definition stream_read_line_buffer (fuel : nat) (stream : S) (count delimiter : Z) : option (list Z * S) :=
  if negb (flag (mode (header stream)) STREAM_IN) || (count <? 2) then Some ([], stream)
  else
    let hardlimit := if stream_is_sequential stream then 1 else 128 in
    read_line_buffer_loop fuel stream (count - 1) hardlimit delimiter [].

(** The allocated version; growing the output buffer keeps its content. *)
Fixpoint read_line_loop (fuel : nat) (stream : S) (want_read delimiter : Z) (outbuffer : list Z)
    : option (list Z * S) :=
  if stream_eos stream then Some (outbuffer, stream)
  else
    match fuel with
    | O => None
    | Datatypes.S fuel =>
        let '(buffer, stream) := vt_read stream want_read in
        if len buffer =? 0 then Some (outbuffer, stream)
        else
          let i := index_of (fun c => c =? delimiter) buffer in
          let outbuffer := outbuffer ++ sub buffer 0 i in
          if i <? len buffer then Some (outbuffer, seek_back stream (i + 1) (len buffer))
          else read_line_loop fuel stream want_read delimiter outbuffer
    end.

Definition stream_read_line (fuel : nat) (stream : S) (delimiter : Z) : option (list Z * S) :=
  if flag (mode (header stream)) STREAM_IN
  then read_line_loop fuel stream (if stream_is_sequential stream then 1 else 128) delimiter []
  else Some ([], stream).

Definition STRING_WHITESPACE : list Z := [32; 10; 13; 9; 11; 12].

Fixpoint skip_whitespace_loop (fuel : nat) (stream : S) (total : Z) : option (Z * S) :=
  match fuel with
  | O => None
  | Datatypes.S fuel =>
      let '(buffer, stream) := vt_read stream 1 in
      let total := total + len buffer in
      match buffer with
      | [] => Some (total, stream)
      | token :: _ =>
          if negb (string_find STRING_WHITESPACE token 0 =? NPOS)
          then skip_whitespace_loop fuel stream total
          else Some (total - 1, stream_seek stream (-1) STREAM_SEEK_CURRENT)
      end
  end.

Definition stream_skip_whitespace (fuel : nat) (stream : S) : option (Z * S) :=
  if negb (flag (mode (header stream)) STREAM_IN) || flag (mode (header stream)) STREAM_BINARY
     || stream_is_sequential stream
  then Some (0, stream)
  else skip_whitespace_loop fuel stream 0.

(** ** Strings *)

Definition is_blank (c : Z) : bool := (c =? 32) || (c =? 10) || (c =? 13) || (c =? 9).

(** The end of a string: a zero, or a blank in text mode. *)
Definition ends_string (binary : bool) (c : Z) : bool := (c =? 0) || (negb binary && is_blank c).

(** "Consume whitespace" of a stream that is not sequential. *)
Fixpoint consume_blanks (fuel : nat) (stream : S) : option S :=
  if stream_eos stream then Some stream
  else
    match fuel with
    | O => None
    | Datatypes.S fuel =>
        let '(buffer, stream) := vt_read stream 16 in
        if len buffer =? 0 then Some stream
        else
          let i := index_of (fun c => negb (is_blank c)) buffer in
          if i <? len buffer
          then Some (stream_seek stream (i - len buffer) STREAM_SEEK_CURRENT)
          else consume_blanks fuel stream
    end.

(** The sequential version keeps the first byte that is not blank. *)
Fixpoint consume_blanks_seq (fuel : nat) (stream : S) : option (list Z * S) :=
  if stream_eos stream then Some ([], stream)
  else
    match fuel with
    | O => None
    | Datatypes.S fuel =>
        let '(buffer, stream) := vt_read stream 1 in
        match buffer with
        | [] => Some ([], stream)
        | c :: _ => if is_blank c then consume_blanks_seq fuel stream else Some ([c], stream)
        end
    end.

Fixpoint read_string_seq (fuel : nat) (stream : S) (binary : bool) (size : option Z) (out : list Z)
    : option (list Z * S) :=
  if stream_eos stream || match size with Some size => size <=? len out | None => false end
  then Some (out, stream)
  else
    match fuel with
    | O => None
    | Datatypes.S fuel =>
        let '(buffer, stream) := vt_read stream 1 in
        match buffer with
        | [] => Some (out, stream)
        | c :: _ =>
            if ends_string binary c then Some (out, stream)
            else read_string_seq fuel stream binary size (out ++ [c])
        end
    end.

(** The loop of [stream_read_string] on a stream that is not sequential.  The
    output starts in the local buffer of 128 bytes and moves to an allocated
    one of [outsize] bytes; the branch that grows the allocated buffer stores
    nothing at [outbuffer + cursize]. *)
Fixpoint read_string_loop (fuel : nat) (stream : S) (binary : bool) (local : bool) (outsize : Z)
    (out : list Z) : option (list Z * S) :=
  if stream_eos stream then Some (out, stream)
  else
    match fuel with
    | O => None
    | Datatypes.S fuel =>
        let '(buffer, stream) := vt_read stream (if local then 128 - len out else 128) in
        if len buffer =? 0 then Some (out, stream)
        else
          let i := index_of (ends_string binary) buffer in
          let '(local, outsize, out) :=
            if i =? 0 then (local, outsize, out)
            else if outsize <=? len out + i then
              if local then (false, outsize + 512, out ++ sub buffer 0 i)
              else (false, outsize + 512, out ++ map uninit (seqZ (len out) i))
            else (local, outsize, out ++ sub buffer 0 i) in
          if i <? 128 then Some (out, seek_back stream (i + 1) (len buffer))
          else read_string_loop fuel stream binary local outsize out
    end.

Definition stream_read_string (fuel : nat) (stream : S) : option (list Z * S) :=
  let binary := stream_is_binary stream in
  if negb (flag (mode (header stream)) STREAM_IN) then Some ([], stream)
  else if stream_is_sequential stream then
    '(out, stream) ← (if binary then Some ([], stream) else consume_blanks_seq fuel stream);
    if 0 <? len out then read_string_seq fuel stream binary None out else Some (out, stream)
  else
    stream ← (if binary then Some stream else consume_blanks fuel stream);
    read_string_loop fuel stream binary true 128 [].

Fixpoint read_string_buffer_loop (fuel : nat) (stream : S) (binary : bool) (size : Z) (out : list Z)
    : option (list Z * S) :=
  if stream_eos stream || (size <=? len out) then Some (out, stream)
  else
    match fuel with
    | O => None
    | Datatypes.S fuel =>
        let '(buffer, stream) := vt_read stream 128 in
        if len buffer =? 0 then Some (out, stream)
        else
          let i := index_of (ends_string binary) buffer in
          if i =? 0 then Some (out, stream)
          else
            let i := if size <? len out + i then size - len out else i in
            let out := out ++ sub buffer 0 i in
            if i <? 128 then Some (out, seek_back stream (i + 1) (len buffer))
            else read_string_buffer_loop fuel stream binary size out
    end.

Definition stream_read_string_buffer (fuel : nat) (stream : S) (size : Z) : option (list Z * S) :=
  let binary := stream_is_binary stream in
  if negb (flag (mode (header stream)) STREAM_IN) || (size =? 0) then Some ([], stream)
  else
    let size := size - 1 in
    if stream_is_sequential stream then
      '(out, stream) ← (if binary then Some ([], stream) else consume_blanks_seq fuel stream);
      if 0 <? len out then read_string_seq fuel stream binary (Some size) out else Some (out, stream)
    else
      stream ← (if binary then Some stream else consume_blanks fuel stream);
      read_string_buffer_loop fuel stream binary size [].

Definition stream_write_string (stream : S) (str : list Z) : S :=
  let stream := if 0 <? len str then snd (stream_write stream str) else stream in
  if stream_is_binary stream then snd (stream_write stream [0]) else stream.

Definition stream_write_separator (stream : S) : S :=
  if stream_is_binary stream then stream else snd (stream_write stream [32]).

Definition stream_write_endl (stream : S) : S :=
  stream_flush (if stream_is_binary stream then stream else snd (stream_write stream [10])).
(** ** Numbers

    In a binary stream a number is its bytes in the byte order of the stream,
    in a text stream its digits.  The value starts as 0 and the bytes that are
    read overwrite its low end. *)

Definition read_bytes (n : nat) (stream : S) : Z * S :=
  let '(buffer, stream) := stream_read stream (Z.of_nat n) in
  (swap_if (stream_is_swapped stream) n (le_uint buffer), stream).

Definition write_bytes (n : nat) (stream : S) (data : Z) : S :=
  snd (stream_write stream (le_bytes n (swap_if (stream_is_swapped stream) n data))).

(** A number of the local buffer of [size] bytes. *)
Definition read_text (fuel : nat) (stream : S) (size : Z) (parse : list Z -> Z) : option (Z * S) :=
  '(str, stream) ← stream_read_string_buffer fuel stream size; Some (parse str, stream).

Definition stream_read_bool (fuel : nat) (stream : S) : option (bool * S) :=
  if stream_is_binary stream then
    let '(buffer, stream) := stream_read stream 1 in Some (negb (le_uint buffer =? 0), stream)
  else
    '(str, stream) ← stream_read_string_buffer fuel stream 6;
    Some (negb ((len str =? 0) || string_equal str [102;97;108;115;101] || string_equal str [48]), stream).

Definition stream_read_int8 (fuel : nat) (stream : S) : option (Z * S) :=
  if stream_is_binary stream then
    let '(buffer, stream) := stream_read stream 1 in Some (sint 8 (le_uint buffer), stream)
  else read_text fuel stream 6 (fun s => sint 8 (string_to_int s)).

Definition stream_read_uint8 (fuel : nat) (stream : S) : option (Z * S) :=
  if stream_is_binary stream then
    let '(buffer, stream) := stream_read stream 1 in Some (le_uint buffer, stream)
  else read_text fuel stream 6 (fun s => u8 (string_to_uint s false)).

Definition stream_read_int16 (fuel : nat) (stream : S) : option (Z * S) :=
  if stream_is_binary stream then let '(v, stream) := read_bytes 2 stream in Some (sint 16 v, stream)
  else read_text fuel stream 8 (fun s => sint 16 (string_to_int s)).

Definition stream_read_uint16 (fuel : nat) (stream : S) : option (Z * S) :=
  if stream_is_binary stream then Some (read_bytes 2 stream)
  else read_text fuel stream 8 (fun s => u16 (string_to_uint s false)).

Definition stream_read_int32 (fuel : nat) (stream : S) : option (Z * S) :=
  if stream_is_binary stream then let '(v, stream) := read_bytes 4 stream in Some (sint 32 v, stream)
  else read_text fuel stream 12 string_to_int.

Definition stream_read_uint32 (fuel : nat) (stream : S) : option (Z * S) :=
  if stream_is_binary stream then Some (read_bytes 4 stream)
  else read_text fuel stream 12 (fun s => string_to_uint s false).

Definition stream_read_int64 (fuel : nat) (stream : S) : option (Z * S) :=
  if stream_is_binary stream then let '(v, stream) := read_bytes 8 stream in Some (sint 64 v, stream)
  else read_text fuel stream 22 string_to_int64.

Definition stream_read_uint64 (fuel : nat) (stream : S) : option (Z * S) :=
  if stream_is_binary stream then Some (read_bytes 8 stream)
  else read_text fuel stream 22 (fun s => string_to_uint64 s false).

Fixpoint read_words (fuel : nat) (n : nat) (stream : S) : option (list Z * S) :=
  match n with
  | O => Some ([], stream)
  | Datatypes.S n =>
      '(w, stream) ← stream_read_uint64 fuel stream;
      '(ws, stream) ← read_words fuel n stream; Some (w :: ws, stream)
  end.

Definition stream_read_uint128 (fuel : nat) (stream : S) : option (list Z * S) :=
  if stream_is_binary stream then read_words fuel 2 stream
  else '(str, stream) ← stream_read_string_buffer fuel stream 34; Some (string_to_uint128 str, stream).
Definition stream_read_uint256 (fuel : nat) (stream : S) : option (list Z * S) :=
  if stream_is_binary stream then read_words fuel 4 stream
  else '(str, stream) ← stream_read_string_buffer fuel stream 66; Some (string_to_uint256 str, stream).
Definition stream_read_uint512 (fuel : nat) (stream : S) : option (list Z * S) :=
  if stream_is_binary stream then read_words fuel 8 stream
  else '(str, stream) ← stream_read_string_buffer fuel stream 129; Some (string_to_uint512 str, stream).

Definition stream_write_bool (stream : S) (data : bool) : S :=
  if stream_is_binary stream then snd (stream_write stream [if data then 1 else 0])
  else snd (stream_write stream (if data then [116;114;117;101] else [102;97;108;115;101])).

(** [string_from_int_static] and its kin print into a thread buffer of 132
    bytes or more. *)
Definition static_text (r : list Z * Z) : list Z := sub (fst r) 0 (snd r).
Definition string_from_int_static (v : Z) : list Z :=
  static_text (string_from_int (replicate 132 0) v 0 0).
Definition string_from_uint_static (v : Z) : list Z :=
  static_text (string_from_uint (replicate 132 0) v false 0 0).

Definition stream_write_int8 (stream : S) (data : Z) : S :=
  if stream_is_binary stream then snd (stream_write stream (le_bytes 1 data))
  else stream_write_string stream (string_from_int_static data).
Definition stream_write_uint8 (stream : S) (data : Z) : S :=
  if stream_is_binary stream then snd (stream_write stream (le_bytes 1 data))
  else stream_write_string stream (string_from_uint_static data).
Definition stream_write_int16 (stream : S) (data : Z) : S :=
  if stream_is_binary stream then write_bytes 2 stream data
  else stream_write_string stream (string_from_int_static data).
Definition stream_write_uint16 (stream : S) (data : Z) : S :=
  if stream_is_binary stream then write_bytes 2 stream data
  else stream_write_string stream (string_from_uint_static data).
Definition stream_write_int32 (stream : S) (data : Z) : S :=
  if stream_is_binary stream then write_bytes 4 stream data
  else stream_write_string stream (string_from_int_static data).
Definition stream_write_uint32 (stream : S) (data : Z) : S :=
  if stream_is_binary stream then write_bytes 4 stream data
  else stream_write_string stream (string_from_uint_static data).
Definition stream_write_int64 (stream : S) (data : Z) : S :=
  if stream_is_binary stream then write_bytes 8 stream data
  else stream_write_string stream (string_from_int_static data).
Definition stream_write_uint64 (stream : S) (data : Z) : S :=
  if stream_is_binary stream then write_bytes 8 stream data
  else stream_write_string stream (string_from_uint_static data).

Definition write_words (stream : S) (words : list Z) : S := foldl stream_write_uint64 stream words.

Definition stream_write_uint128 (stream : S) (data : list Z) : S :=
  if stream_is_binary stream then write_words stream data
  else stream_write_string stream (static_text (string_from_uint128 (replicate 132 0) data)).
Definition stream_write_uint256 (stream : S) (data : list Z) : S :=
  if stream_is_binary stream then write_words stream data
  else stream_write_string stream (static_text (string_from_uint256 (replicate 132 0) data)).
Definition stream_write_uint512 (stream : S) (data : list Z) : S :=
  if stream_is_binary stream then write_words stream data
  else stream_write_string stream (static_text (string_from_uint512 (replicate 132 0) data)).

(** ** Digests

    The digester is a callback with its own state; it fails by returning null. *)

(** The line loop over the first [size] bytes of the buffer: [lastc] is where
    the current line starts, [ic] the byte looked at.  Returns the state, the
    start of the unfinished line and whether the last byte of a full buffer was
    a carriage return. *)
Fixpoint digest_lines {D : Type} (digester : D -> list Z -> option D) (fuel : nat)
    (buf : list Z) (size limit : Z) (ic lastc : Z) (ignore_lf : bool) (data : D) : option (D * Z * bool) :=
  match fuel with
  | O => Some (data, lastc, ignore_lf)
  | Datatypes.S fuel =>
      if (ic <? size) && (ic <? limit) then
        let was_cr := at_ buf ic =? 13 in
        let was_lf := at_ buf ic =? 10 in
        if was_cr || was_lf then
          let ignore_lf := if was_cr && (ic =? limit - 1) then true else ignore_lf in
          let buf := <[Z.to_nat ic := 10]> buf in
          data ← digester data (sub buf lastc (ic - lastc + 1));
          let ic := if was_cr && (at_ buf (ic + 1) =? 10) then ic + 1 else ic in
          digest_lines digester fuel buf size limit (ic + 1) (ic + 1) ignore_lf data
        else digest_lines digester fuel buf size limit (ic + 1) lastc ignore_lf data
      else Some (data, lastc, ignore_lf)
  end.

(** One buffer of a text stream; [buf] holds [size] bytes that were read, then
    what the buffer held before. *)
Definition digest_text {D : Type} (digester : D -> list Z -> option D) (buf : list Z) (size limit : Z)
    (ignore_lf : bool) (data : D) : option (D * bool) :=
  let lastc := if ignore_lf && (at_ buf 0 =? 10) then 1 else 0 in
  '(data, lastc, ignore_lf) ← digest_lines digester (length buf) buf size limit lastc lastc false data;
  data ← (if lastc <? size then digester data (sub buf lastc (size - lastc)) else Some data);
  Some (data, ignore_lf).

(** The result of the loop: [None] when the fuel runs out, the digest state
    when the whole stream was digested, or the failure of the digester. *)
Fixpoint digest_loop {D : Type} (digester : D -> list Z -> option D) (fuel : nat) (stream : S)
    (limit : Z) (buf : list Z) (ignore_lf : bool) (data : D) : option (option D * S) :=
  if stream_eos stream then Some (Some data, stream)
  else
    match fuel with
    | O => None
    | Datatypes.S fuel =>
        let '(bytes, stream) := vt_read stream limit in
        let buf := write_at 0 bytes buf in
        let size := len bytes in
        if size =? 0 then digest_loop digester fuel stream limit buf ignore_lf data
        else if flag (mode (header stream)) STREAM_BINARY then
          match digester data bytes with
          | Some data => digest_loop digester fuel stream limit buf ignore_lf data
          | None => Some (None, stream)
          end
        else
          match digest_text digester buf size limit ignore_lf data with
          | Some (data, ignore_lf) => digest_loop digester fuel stream limit buf ignore_lf data
          | None => Some (None, stream)
          end
    end.

(** Bytes of [buf] that were never read are unknown, the last one is 0. *)
Definition stream_digest {D : Type} (fuel : nat) (stream : S) (digester : D -> list Z -> option D) (data : D)
    : option (option D * S) :=
  if stream_is_sequential stream || negb (flag (mode (header stream)) STREAM_IN) then Some (None, stream)
  else
    let cur := stream_tell stream in
    let stream := stream_seek stream 0 STREAM_SEEK_BEGIN in
    let buf := map uninit (seqZ 0 1024) ++ [0] in
    '(result, stream) ← digest_loop digester fuel stream 1024 buf false data;
    match result with
    | Some data => Some (Some data, stream_seek stream cur STREAM_SEEK_BEGIN)
    | None => Some (None, stream)
    end.

End operations.

(** [stream_copy] reads from one stream and writes to another. *)
Fixpoint stream_copy {S T : Type} `{!StreamImpl S} `{!StreamImpl T} (fuel : nat) (source : S) (destination : T)
    : option (bool * S * T) :=
  if stream_eos source then Some (true, source, destination)
  else
    match fuel with
    | O => None
    | Datatypes.S fuel =>
        let '(buffer, source) := stream_read source 4096 in
        if len buffer =? 0 then stream_copy fuel source destination
        else
          let '(written, destination) := stream_write destination buffer in
          if written =? len buffer then stream_copy fuel source destination
          else Some (false, source, destination)
    end.

(** ** Laws of a seekable stream of known content *)

(** [vt_read] reads the content from the position, [eos] compares the position
    with the end, and seeking inside the content moves the position. *)
Class StreamLaws (S : Type) `{!StreamImpl S} := {
  inv : S -> Prop;
  content : S -> list Z;
  pos : S -> nat;
  pos_content s : inv s -> (pos s <= length (content s))%nat;
  read_law s n bytes s' :
    inv s -> 0 <= n -> vt_read s n = (bytes, s') ->
    bytes = take (Z.to_nat n) (drop (pos s) (content s)) /\ inv s' /\ content s' = content s /\
    pos s' = (pos s + length bytes)%nat /\ header s' = header s;
  eos_law s : inv s -> stream_eos s = bool_decide (length (content s) <= pos s)%nat;
  seek_current_law s o :
    inv s -> 0 <= Z.of_nat (pos s) + o <= len (content s) ->
    let s' := stream_seek s o STREAM_SEEK_CURRENT in
    inv s' /\ content s' = content s /\ Z.of_nat (pos s') = Z.of_nat (pos s) + o /\ header s' = header s;
  seek_begin_law s o :
    inv s -> 0 <= o <= len (content s) ->
    let s' := stream_seek s o STREAM_SEEK_BEGIN in
    inv s' /\ content s' = content s /\ Z.of_nat (pos s') = o /\ header s' = header s;
  tell_law s : inv s -> stream_tell s = Z.of_nat (pos s);
  positioned_law s : inv s -> sequential (header s) = false;
}.
(** ** Reading from a stream that obeys the laws *)

Lemma index_of_spec p l :
  0 <= index_of p l <= len l /\ Forall (fun c => p c = false) (take (Z.to_nat (index_of p l)) l) /\
  (index_of p l < len l -> p (at_ l (index_of p l)) = true).
Proof.
  unfold len, at_. induction l as [|c l (IH1 & IH2 & IH3)]; simpl; [split; [lia|]; split; [constructor|lia]|].
  destruct (p c) eqn:E; [split; [lia|]; split; [constructor|done]|].
  replace (Z.to_nat (1 + index_of p l)) with (S (Z.to_nat (index_of p l))) by lia.
  split; [lia|]. split; [by constructor|]. intros H. apply IH3. lia.
Qed.

Lemma index_of_none p l : Forall (fun c => p c = false) l -> index_of p l = len l.
Proof. unfold len. induction 1 as [|c l Hc _ IH]; [done|]. simpl. rewrite Hc, IH. lia. Qed.

Lemma index_of_app p a c l :
  Forall (fun c => p c = false) a -> p c = true -> index_of p (a ++ c :: l) = len a.
Proof.
  intros Ha Hc. unfold len. induction Ha as [|d a Hd _ IH]; simpl; [by rewrite Hc|].
  rewrite Hd, IH. lia.
Qed.

Section laws.
Context {S : Type} `{HI : !StreamImpl S} `{HL : !StreamLaws S} `{HU : !Uninit}.

(** What is left to read. *)
Definition rem (s : S) : list Z := drop (pos s) (content s).

(** [s'] is [s] after [n] bytes. *)
Definition advanced (s s' : S) (n : nat) : Prop :=
  inv s' /\ content s' = content s /\ pos s' = (pos s + n)%nat /\ header s' = header s.

Lemma advanced_trans s1 s2 s3 a b : advanced s1 s2 a -> advanced s2 s3 b -> advanced s1 s3 (a + b).
Proof. unfold advanced. intros (?&?&?&?) (?&?&?&?). repeat split; try congruence; try done. lia. Qed.

Lemma advanced_rem s s' n : advanced s s' n -> rem s' = drop n (rem s).
Proof. intros (_ & Hc & Hp & _). unfold rem. by rewrite Hc, Hp, drop_drop. Qed.

Lemma advanced_refl s : inv s -> advanced s s 0.
Proof. intros H. repeat split; try done; lia. Qed.

Lemma read_advanced s n bytes s' :
  inv s -> 0 <= n -> vt_read s n = (bytes, s') ->
  bytes = take (Z.to_nat n) (rem s) /\ advanced s s' (length bytes).
Proof.
  intros Hi Hn E. destruct (read_law s n bytes s' Hi Hn E) as (Hb & Hi' & Hc & Hp & Hh).
  split; [done|]. by repeat split.
Qed.

Lemma eos_rem s : inv s -> stream_eos s = bool_decide (rem s = []).
Proof.
  intros H. rewrite (eos_law s H). unfold rem. apply bool_decide_ext. split; intros E.
  - apply drop_ge. done.
  - apply (f_equal length) in E. rewrite length_drop in E. simpl in E. lia.
Qed.

(** Going back behind a read. *)
Lemma seek_advanced s s' n k :
  inv s -> advanced s s' n -> (k <= n)%nat -> (n <= length (rem s))%nat ->
  advanced s (stream_seek s' (Z.of_nat k - Z.of_nat n) STREAM_SEEK_CURRENT) k.
Proof.
  intros Hi (Hi' & Hc & Hp & Hh) Hk Hn. unfold rem in Hn. rewrite length_drop in Hn.
  pose proof (pos_content s Hi).
  destruct (seek_current_law s' (Z.of_nat k - Z.of_nat n) Hi') as (? & ? & ? & ?);
    [rewrite Hc, Hp; unfold len; lia|].
  repeat split; try congruence; try done. lia.
Qed.

Lemma seek_back_advanced s s' n k :
  inv s -> advanced s s' n -> (k <= n)%nat -> (n <= length (rem s))%nat ->
  advanced s (seek_back s' (Z.of_nat k) (Z.of_nat n)) k.
Proof.
  intros Hi Ha Hk Hn. unfold seek_back. case_if; [by apply seek_advanced|].
  by replace k with n by lia.
Qed.

(** ** Lines *)

(** The line at the start of a text and the bytes it takes, at most [m] of them. *)
Fixpoint line_ref (m : nat) (delimiter : Z) (l : list Z) : list Z * nat :=
  match m, l with
  | Datatypes.S m, c :: l =>
      if c =? delimiter then ([], 1%nat)
      else let '(a, n) := line_ref m delimiter l in (c :: a, Datatypes.S n)
  | _, _ => ([], 0%nat)
  end.

Lemma line_ref_skip m d a l :
  Forall (fun c => (c =? d) = false) a -> (length a <= m)%nat ->
  line_ref m d (a ++ l) =
  (a ++ fst (line_ref (m - length a) d l), (length a + snd (line_ref (m - length a) d l))%nat).
Proof.
  intros Ha. revert m. induction Ha as [|c a Hc _ IH]; intros m Hm; simpl.
  - rewrite Nat.sub_0_r. by destruct (line_ref m d l).
  - destruct m as [|m]; simpl in Hm; [lia|]. simpl. rewrite Hc, IH by lia. done.
Qed.

Lemma line_ref_cut m d a l :
  Forall (fun c => (c =? d) = false) a -> (length a < m)%nat ->
  line_ref m d (a ++ d :: l) = (a, (length a + 1)%nat).
Proof.
  intros Ha Hm. rewrite line_ref_skip by (done || lia).
  destruct (m - length a)%nat eqn:E; [lia|]. simpl. rewrite Z.eqb_refl. simpl. by rewrite app_nil_r.
Qed.

(** One chunk: either it holds the delimiter at [i], or the line goes on. *)
Lemma line_ref_chunk m d (k : nat) l :
  (k <= m)%nat ->
  let chunk := take k l in let i := index_of (fun c => c =? d) chunk in
  line_ref m d l =
  if i <? len chunk then (sub chunk 0 i, Z.to_nat (i + 1))
  else (chunk ++ fst (line_ref (m - length chunk) d (drop k l)),
        (length chunk + snd (line_ref (m - length chunk) d (drop k l)))%nat).
Proof.
  intros Hk chunk i. pose proof (index_of_spec (fun c => c =? d) chunk) as (Hi & Hf & Ht). fold i in Hi, Hf, Ht.
  assert (length chunk <= k)%nat by (unfold chunk; rewrite length_take; lia).
  destruct (i <? len chunk) eqn:E.
  - specialize (Ht ltac:(lia)). apply Z.eqb_eq in Ht. unfold at_ in Ht.
    assert (l = sub chunk 0 i ++ d :: drop (Z.to_nat i + 1) l) as El.
    { rewrite sub_0. unfold chunk. rewrite take_take. unfold len in *.
      replace (Z.to_nat i `min` k)%nat with (Z.to_nat i) by lia.
      rewrite <- (take_drop (Z.to_nat i) l) at 1. f_equal.
      apply Z.ltb_lt in E. unfold chunk in E. rewrite length_take in E.
      destruct (lookup_lt_is_Some_2 l (Z.to_nat i)) as [x Hx]; [lia|].
      rewrite (drop_S _ _ _ Hx). replace (Z.to_nat i + 1)%nat with (Datatypes.S (Z.to_nat i)) by lia. f_equal.
      rewrite <- Ht. unfold chunk. rewrite lookup_total_take by lia.
      by rewrite (list_lookup_total_correct _ _ _ Hx). }
    rewrite El at 1. unfold len in E. rewrite line_ref_cut.
    + f_equal. rewrite length_sub by (unfold len; lia). lia.
    + done.
    + rewrite length_sub by (unfold len; lia). lia.
  - assert (Z.to_nat i = length chunk) as Eil by (unfold len in *; lia).
    rewrite Eil, take_ge in Hf by lia.
    rewrite <- (take_drop k l) at 1. apply (line_ref_skip m d chunk); [done|lia].
Qed.

Lemma read_line_buffer_loop_spec fuel s count hard d dest :
  inv s -> 1 <= hard -> len dest <= count -> (length (rem s) < fuel)%nat ->
  let '(line, n) := line_ref (Z.to_nat (count - len dest)) d (rem s) in
  exists s', read_line_buffer_loop fuel s count hard d dest = Some (dest ++ line, s') /\ advanced s s' n.
Proof.
  revert s dest. induction fuel as [|fuel IH]; intros s dest Hi Hh Hd Hf; [lia|].
  cbn [read_line_buffer_loop]. rewrite eos_rem by done. case_bool_decide as E0.
  { rewrite E0. destruct (Z.to_nat _); simpl; exists s; rewrite app_nil_r; split; try done; by apply advanced_refl. }
  set (limit := if hard <? count - len dest then hard else count - len dest).
  assert (limit <= count - len dest /\ (1 <= limit \/ limit = 0 /\ count - len dest = 0)) as Hlim0
    by (unfold limit; case_if; lia).
  destruct (limit =? 0) eqn:El.
  { assert (count - len dest = 0) as -> by lia. simpl.
    exists s. rewrite app_nil_r. split; [done|]. by apply advanced_refl. }
  assert (1 <= limit <= count - len dest) as Hlim by lia.
  destruct (vt_read s limit) as [chunk s1] eqn:Er.
  destruct (read_advanced s limit chunk s1 Hi ltac:(lia) Er) as [Hc Ha].
  assert (length chunk <= length (rem s))%nat by (rewrite Hc, length_take; lia).
  assert (1 <= len chunk).
  { unfold len. rewrite Hc, length_take. destruct (rem s); [done|simpl; lia]. }
  replace (len chunk =? 0) with false by lia.
  pose proof (line_ref_chunk (Z.to_nat (count - len dest)) d (Z.to_nat limit) (rem s) ltac:(lia)) as Href.
  cbn zeta in Href. rewrite <- Hc in Href. rewrite Href. clear Href.
  pose proof (index_of_spec (fun c => c =? d) chunk) as (Hix & _). set (i := index_of _ chunk) in *.
  destruct (i <? len chunk) eqn:Ei.
  - eexists. split; [done|]. replace (i + 1) with (Z.of_nat (Z.to_nat (i + 1))) at 1 by lia.
    unfold len in *. apply seek_back_advanced; [done|done|lia|done].
  - assert (sub chunk 0 i = chunk) as -> by (rewrite sub_0; apply take_ge; unfold len in *; lia).
    specialize (IH s1 (dest ++ chunk)). rewrite (advanced_rem _ _ _ Ha) in IH.
    assert (drop (length chunk) (rem s) = drop (Z.to_nat limit) (rem s)) as Edr.
    { rewrite Hc, length_take. destruct (decide (Z.to_nat limit <= length (rem s))%nat).
      - f_equal. lia.
      - rewrite !drop_ge by lia. done. }
    assert (len (dest ++ chunk) = len dest + len chunk) as Ela by (unfold len; rewrite length_app; lia).
    rewrite Edr, Ela in IH.
    replace (Z.to_nat (count - (len dest + len chunk))) with (Z.to_nat (count - len dest) - length chunk)%nat in IH
      by (unfold len; lia).
    destruct (line_ref _ _ _) as [line n]. cbn [fst snd].
    destruct IH as (s2 & E2 & Ha2); [by destruct Ha|done| |rewrite <- Edr, length_drop; unfold len in *; lia|].
    { unfold len in *. assert (length chunk <= Z.to_nat limit)%nat by (rewrite Hc, length_take; lia). lia. }
    exists s2. rewrite E2, app_assoc. split; [done|]. by eapply advanced_trans.
Qed.

(** Reading a line into a buffer of [count] bytes from a stream returns the
    bytes up to the delimiter, at most [count - 1] of them, and leaves the
    stream directly behind the delimiter or behind the last byte taken, however
    far it read ahead. *)
Theorem stream_read_line_buffer_spec fuel s count d :
  inv s -> flag (mode (header s)) STREAM_IN = true -> 2 <= count -> (length (rem s) < fuel)%nat ->
  let '(line, n) := line_ref (Z.to_nat (count - 1)) d (rem s) in
  exists s', stream_read_line_buffer fuel s count d = Some (line, s') /\ advanced s s' n.
Proof.
  intros Hi Hm Hc Hf. unfold stream_read_line_buffer. rewrite Hm.
  replace (count <? 2) with false by lia. cbn [negb orb].
  pose proof (read_line_buffer_loop_spec fuel s (count - 1)
    (if stream_is_sequential s then 1 else 128) d [] Hi) as H.
  change (len []) with 0 in H. rewrite Z.sub_0_r in H. cbn [app] in H.
  apply H; [case_if; lia|lia|done].
Qed.
End laws.

(** Writing with enough room replaces the content at the position. *)
Class StreamWriteLaws (S : Type) `{HI : !StreamImpl S} `{HL : !StreamLaws S} := {
  room : S -> nat -> Prop;
  room_le s m n : room s n -> (m <= n)%nat -> room s m;
  write_law s bytes n :
    inv s -> room s (length bytes + n) ->
    let '(w, s') := vt_write s bytes in
    w = len bytes /\ inv s' /\ content s' = write_at (pos s) bytes (content s) /\
    pos s' = (pos s + length bytes)%nat /\ header s' = header s /\ room s' n;
}.

(** ** Strings and numbers *)

Section round_trip.
Context {S : Type} `{HI : !StreamImpl S} `{HL : !StreamLaws S} `{HW : !StreamWriteLaws S} `{HU : !Uninit}.

(** [s'] is [s] after writing [bytes], with room for [n] more. *)
Definition written (s s' : S) (bytes : list Z) (n : nat) : Prop :=
  inv s' /\ content s' = write_at (pos s) bytes (content s) /\
  pos s' = (pos s + length bytes)%nat /\ header s' = header s /\ room s' n.

Lemma written_nil s n : inv s -> room s n -> written s s [] n.
Proof.
  intros Hi Hr. unfold written. rewrite write_at_nil. simpl. by rewrite Nat.add_0_r.
Qed.

Lemma write_written s bytes n :
  inv s -> flag (mode (header s)) STREAM_OUT = true -> room s (length bytes + n) ->
  written s (snd (stream_write s bytes)) bytes n.
Proof.
  intros Hi Hm Hr. unfold stream_write. rewrite Hm. pose proof (write_law s bytes n Hi Hr) as H.
  destruct (vt_write s bytes) as [w s']. by destruct H as (_ & ?).
Qed.

Lemma written_app s1 s2 s3 a b m n :
  inv s1 -> written s1 s2 a m -> written s2 s3 b n -> written s1 s3 (a ++ b) n.
Proof.
  intros Hi (H1 & C1 & P1 & D1 & R1) (H2 & C2 & P2 & D2 & R2). unfold written.
  rewrite C2, P2, C1, P1, D2, D1, length_app. split; [done|].
  split; [apply write_at_app; by apply pos_content|]. split; [lia|done].
Qed.

(** Going back to where the writing started. *)
Lemma seek_written s s' bytes n :
  inv s -> written s s' bytes n ->
  let r := stream_seek s' (Z.of_nat (pos s)) STREAM_SEEK_BEGIN in
  inv r /\ header r = header s /\ rem r = bytes ++ drop (length bytes) (rem s).
Proof.
  intros Hi (H1 & C1 & P1 & D1 & _). pose proof (pos_content s Hi).
  assert (Z.of_nat (pos s) <= len (content s')) as Hle.
  { rewrite C1. unfold write_at, len. rewrite !length_app, length_take. lia. }
  destruct (seek_begin_law s' (Z.of_nat (pos s)) H1 (conj (Nat2Z.is_nonneg _) Hle)) as (H2 & C2 & P2 & D2).
  split; [done|]. split; [congruence|]. unfold rem. rewrite C2, C1.
  replace (pos (stream_seek s' (Z.of_nat (pos s)) STREAM_SEEK_BEGIN)) with (pos s) by lia.
  unfold write_at. rewrite drop_app_ge by (rewrite length_take; lia).
  rewrite length_take. replace (pos s - pos s `min` length (content s))%nat with 0%nat by lia.
  by rewrite drop_0, drop_drop.
Qed.

Lemma read_exact s a tail (n : nat) :
  inv s -> rem s = a ++ tail -> n = length a ->
  exists s', vt_read s (Z.of_nat n) = (a, s') /\ advanced s s' n.
Proof.
  intros Hi E ->. destruct (vt_read s (Z.of_nat (length a))) as [bytes s'] eqn:Er.
  destruct (read_advanced s (Z.of_nat (length a)) bytes s' Hi ltac:(lia) Er) as [Hb Ha].
  rewrite E, Nat2Z.id, take_app_le, take_ge in Hb by lia. subst bytes. by exists s'.
Qed.

(** One chunk of at most [k] bytes in which the token ends. *)
Lemma read_token p s tok c tail (k : nat) chunk s1 :
  inv s -> rem s = tok ++ c :: tail -> Forall (fun d => p d = false) tok -> p c = true ->
  (length tok < k)%nat -> vt_read s (Z.of_nat k) = (chunk, s1) ->
  index_of p chunk = len tok /\ sub chunk 0 (len tok) = tok /\ len tok < len chunk /\
  advanced s s1 (length chunk) /\ (length chunk <= length (rem s))%nat.
Proof.
  intros Hi E Hp Hc Hk Er. destruct (read_advanced s (Z.of_nat k) chunk s1 Hi ltac:(lia) Er) as [Hb Ha].
  rewrite Nat2Z.id in Hb. assert (chunk = tok ++ c :: take (k - length tok - 1) tail) as Ech.
  { rewrite Hb, E, take_app_ge by lia. f_equal.
    destruct (k - length tok)%nat eqn:En; [lia|]. simpl. by rewrite Nat.sub_0_r. }
  split; [rewrite Ech; by apply index_of_app|]. split; [|split; [|split; [done|]]].
  - rewrite sub_0, Ech. unfold len. rewrite Nat2Z.id, take_app_le, take_ge by lia. done.
  - unfold len. rewrite Ech, length_app. simpl. lia.
  - rewrite Hb, length_take. lia.
Qed.

(** A chunk of [k] bytes in which it does not end. *)
Lemma read_whole p s a tail (k : nat) chunk s1 :
  inv s -> rem s = a ++ tail -> length a = k -> Forall (fun d => p d = false) a ->
  vt_read s (Z.of_nat k) = (chunk, s1) ->
  chunk = a /\ index_of p chunk = Z.of_nat k /\ advanced s s1 k.
Proof.
  intros Hi E Hk Hp Er. destruct (read_exact s a tail k Hi E (eq_sym Hk)) as (s' & E' & Ha).
  rewrite E' in Er. simplify_eq. split; [done|]. split; [by apply index_of_none|done].
Qed.

Lemma rem_not_eos s : inv s -> rem s <> [] -> stream_eos s = false.
Proof. intros Hi H. rewrite eos_rem by done. by apply bool_decide_eq_false. Qed.

(** The buffer of [read_string_loop] after [k] full chunks. *)
Definition out_local (k : nat) : bool := bool_decide (k = 0%nat).
Definition out_size (k : nat) : Z := if decide (k = 0%nat) then 128 else 640.

(** What a chunk with [i] bytes of the string does to the buffer. *)
Definition store_chunk (local : bool) (outsize : Z) (out piece : list Z) : bool * Z * list Z :=
  let i := len piece in
  if i =? 0 then (local, outsize, out)
  else if outsize <=? len out + i then
    if local then (false, outsize + 512, out ++ piece)
    else (false, outsize + 512, out ++ map uninit (seqZ (len out) i))
  else (local, outsize, out ++ piece).

Lemma store_chunk_last k out piece :
  length out = (128 * k)%nat -> (length piece < 128)%nat -> (length out + length piece < 640)%nat ->
  store_chunk (out_local k) (out_size k) out piece = (out_local k, out_size k, out ++ piece).
Proof.
  intros Hk Hp Hl. unfold store_chunk. destruct (len piece =? 0) eqn:E.
  - destruct piece; [by rewrite app_nil_r|unfold len in E; simpl in E; lia].
  - assert (out_size k <=? len out + len piece = false) as ->; [|done].
    apply Z.leb_gt. unfold out_size, len. case_decide; lia.
Qed.

Lemma store_chunk_full k out piece :
  length out = (128 * k)%nat -> length piece = 128%nat -> (k < 4)%nat ->
  store_chunk (out_local k) (out_size k) out piece =
  (out_local (Datatypes.S k), out_size (Datatypes.S k), out ++ piece).
Proof.
  intros Hk Hp Hl. unfold store_chunk, out_local, out_size, len. rewrite Hp, Hk.
  rewrite (bool_decide_eq_false_2 (Datatypes.S k = 0%nat)), (decide_False (P := Datatypes.S k = 0%nat)) by lia.
  change (Z.of_nat 128 =? 0) with false. cbn iota. destruct (decide (k = 0%nat)) as [->|Hne].
  - by rewrite bool_decide_eq_true_2.
  - rewrite bool_decide_eq_false_2 by done.
    assert (640 <=? Z.of_nat (128 * k) + Z.of_nat 128 = false) as ->; [|done]. apply Z.leb_gt. lia.
Qed.

Lemma store_chunk_lost out piece :
  length out = 512%nat -> length piece = 128%nat ->
  store_chunk (out_local 4) (out_size 4) out piece = (false, 1152, out ++ map uninit (seqZ 512 128)).
Proof. intros Ho Hp. unfold store_chunk, len. rewrite Ho, Hp. done. Qed.

(** A full chunk without the end of the string. *)
Lemma read_string_step fuel s binary local outsize out str tail :
  inv s -> rem s = str ++ tail -> length str = 128%nat ->
  Forall (fun d => ends_string binary d = false) str -> (local = true -> out = []) ->
  exists s', advanced s s' 128 /\
    read_string_loop (Datatypes.S fuel) s binary local outsize out =
    let '(local, outsize, out) := store_chunk local outsize out str in
    read_string_loop fuel s' binary local outsize out.
Proof.
  intros Hi E Hl Hp Hloc. cbn [read_string_loop]. rewrite rem_not_eos; [|done|rewrite E; by destruct str].
  assert ((if local then 128 - len out else 128) = Z.of_nat 128) as ->.
  { destruct local; [|done]. by rewrite Hloc. }
  destruct (vt_read s (Z.of_nat 128)) as [chunk s1] eqn:Er.
  destruct (read_whole (ends_string binary) s str tail 128 chunk s1) as (-> & -> & Ha); try done.
  exists s1. split; [done|]. unfold store_chunk.
  assert (len str = 128) as -> by (unfold len; lia).
  assert (sub str 0 (Z.of_nat 128) = str) as -> by (rewrite sub_0, Nat2Z.id; apply take_ge; lia).
  change (Z.of_nat 128) with 128. change (128 <? 128) with false. change (128 =? 0) with false. cbn iota.
  destruct (outsize <=? len out + 128); [by destruct local|done].
Qed.

Lemma read_string_last fuel s binary (k : nat) out str c tail :
  inv s -> rem s = str ++ c :: tail -> Forall (fun d => ends_string binary d = false) str ->
  ends_string binary c = true -> length out = (128 * k)%nat -> (length out + length str < 640)%nat ->
  (length str < 128)%nat ->
  exists s', read_string_loop (Datatypes.S fuel) s binary (out_local k) (out_size k) out =
    Some (out ++ str, s') /\ advanced s s' (length str + 1).
Proof.
  intros Hi E Hp Hc Hout Hlen Hlt. cbn [read_string_loop]. rewrite rem_not_eos; [|done|rewrite E; by destruct str].
  assert ((if out_local k then 128 - len out else 128) = Z.of_nat 128) as ->.
  { unfold out_local. case_bool_decide; [|done]. unfold len. lia. }
  destruct (vt_read s (Z.of_nat 128)) as [chunk s1] eqn:Er.
  destruct (read_token (ends_string binary) s str c tail 128 chunk s1) as (-> & Hsub & Hl & Ha & Hle); try done.
  assert (0 <= len str) by apply len_nonneg.
  replace (len chunk =? 0) with false by lia. rewrite Hsub.
  pose proof (store_chunk_last k out str Hout Hlt Hlen) as Hst. unfold store_chunk in Hst. rewrite Hst.
  replace (len str <? 128) with true by (unfold len; lia).
  eexists. split; [done|]. replace (len str + 1) with (Z.of_nat (length str + 1)) by (unfold len; lia).
  apply seek_back_advanced; [done|done|unfold len in *; lia|done].
Qed.

Lemma read_string_loop_spec fuel s binary (k : nat) out str c tail :
  inv s -> rem s = str ++ c :: tail -> Forall (fun d => ends_string binary d = false) str ->
  ends_string binary c = true -> length out = (128 * k)%nat -> (length out + length str < 640)%nat ->
  (length str < 128 * fuel)%nat ->
  exists s', read_string_loop fuel s binary (out_local k) (out_size k) out =
    Some (out ++ str, s') /\ advanced s s' (length str + 1).
Proof.
  revert s k out str. induction fuel as [|fuel IH]; intros s k out str Hi E Hp Hc Hout Hlen Hf; [lia|].
  destruct (decide (length str < 128)%nat) as [Hlt|Hge]; [by eapply read_string_last|].
  assert (length (take 128 str) = 128%nat) as Hl by (rewrite length_take; lia).
  destruct (read_string_step fuel s binary (out_local k) (out_size k) out (take 128 str)
    (drop 128 str ++ c :: tail)) as (s1 & Ha & ->).
  - done.
  - by rewrite app_assoc, take_drop.
  - done.
  - by apply Forall_take.
  - unfold out_local. intros Hk%bool_decide_eq_true. destruct out; [done|simpl in Hout; lia].
  - rewrite store_chunk_full by (done || lia).
    destruct (IH s1 (Datatypes.S k) (out ++ take 128 str) (drop 128 str)) as (s2 & -> & Ha2).
    + by destruct Ha.
    + rewrite (advanced_rem _ _ _ Ha), E. by rewrite drop_app_le by lia.
    + by apply Forall_drop.
    + done.
    + rewrite length_app, Hl. lia.
    + rewrite length_app, Hl, length_drop. lia.
    + rewrite length_drop. lia.
    + exists s2. rewrite <- app_assoc, take_drop. split; [done|].
      replace (length str + 1)%nat with (128 + (length (drop 128 str) + 1))%nat by (rewrite length_drop; lia).
      by eapply advanced_trans.
Qed.

Lemma written_string s str n :
  inv s -> stream_is_binary s = true -> flag (mode (header s)) STREAM_OUT = true ->
  room s (length str + (1 + n)) -> written s (stream_write_string s str) (str ++ [0]) n.
Proof.
  intros Hi Hb Ho Hr. unfold stream_write_string.
  assert (written s (if 0 <? len str then snd (stream_write s str) else s) str (1 + n)) as H1.
  { destruct (0 <? len str) eqn:E; [by apply write_written|].
    apply Z.ltb_ge, len_nil in E as ->. by apply written_nil. }
  set (s1 := if 0 <? len str then _ else _) in *. pose proof H1 as (Hi1 & _ & _ & Hh & Hr1).
  unfold stream_is_binary in *. rewrite Hh, Hb. eapply written_app; [done|done|].
  apply write_written; [done|by rewrite Hh|done].
Qed.

Lemma no_end str : Forall (fun c => c <> 0) str -> Forall (fun d => ends_string true d = false) str.
Proof. intros H. eapply Forall_impl; [exact H|]. intros c Hc.
  apply orb_false_iff. split; [by apply Z.eqb_neq|done].
Qed.

(** A string of fewer than 640 bytes written to a binary stream is read
    back by [stream_read_string], and reading stops directly behind its zero. *)
Theorem stream_string_roundtrip s str n fuel :
  inv s -> stream_is_binary s = true ->
  flag (mode (header s)) STREAM_OUT = true -> flag (mode (header s)) STREAM_IN = true ->
  Forall (fun c => c <> 0) str -> (length str < 640)%nat -> room s (length str + (1 + n)) -> (5 <= fuel)%nat ->
  let r := stream_seek (stream_write_string s str) (Z.of_nat (pos s)) STREAM_SEEK_BEGIN in
  exists s', stream_read_string fuel r = Some (str, s') /\ advanced r s' (length str + 1).
Proof.
  intros Hi Hb Ho Hin Hz Hl Hr Hf r.
  destruct (seek_written s _ _ n Hi (written_string s str n Hi Hb Ho Hr)) as (Hir & Hh & Hrem).
  fold r in Hir, Hh, Hrem. unfold stream_read_string, stream_is_binary, stream_is_sequential.
  rewrite Hh, Hin, (positioned_law s Hi). unfold stream_is_binary in Hb. rewrite Hb. simpl.
  rewrite <- app_assoc in Hrem.
  apply (read_string_loop_spec fuel r true 0 [] str 0 _ Hir Hrem); [by apply no_end|done|done|simpl; lia|lia].
Qed.

(** One round of the loop on the chunk [k] of a long string. *)
Lemma read_piece s str tail (k : nat) fuel out :
  Forall (fun d => ends_string true d = false) str -> inv s ->
  rem s = drop (128 * k) str ++ 0 :: tail -> (128 * k + 128 <= length str)%nat -> length out = (128 * k)%nat ->
  exists s', inv s' /\ rem s' = drop (128 * Datatypes.S k) str ++ 0 :: tail /\
    read_string_loop (Datatypes.S fuel) s true (out_local k) (out_size k) out =
    let '(l, sz, out) := store_chunk (out_local k) (out_size k) out (take 128 (drop (128 * k) str)) in
    read_string_loop fuel s' true l sz out.
Proof.
  intros Hz Hi E Hk Hout.
  destruct (read_string_step fuel s true (out_local k) (out_size k) out (take 128 (drop (128 * k) str))
    (drop (128 * Datatypes.S k) str ++ 0 :: tail)) as (s1 & Ha & ->); [done| | | | |].
  - rewrite E. rewrite app_assoc. f_equal.
    replace (128 * Datatypes.S k)%nat with (128 * k + 128)%nat by lia. by rewrite <- drop_drop, take_drop.
  - rewrite length_take, length_drop. lia.
  - by apply Forall_take, Forall_drop.
  - unfold out_local. intros ->%bool_decide_eq_true. destruct out; [done|simpl in Hout; lia].
  - exists s1. split; [by destruct Ha|]. split; [|done]. rewrite (advanced_rem _ _ _ Ha), E.
    rewrite drop_app_le, drop_drop by (rewrite length_drop; lia). do 2 f_equal. lia.
Qed.

(** The chunks that are stored. *)
Lemma read_full_piece s str tail (k : nat) fuel :
  Forall (fun d => ends_string true d = false) str -> inv s ->
  rem s = drop (128 * k) str ++ 0 :: tail -> (128 * k + 128 <= length str)%nat -> (k < 4)%nat ->
  exists s', inv s' /\ rem s' = drop (128 * Datatypes.S k) str ++ 0 :: tail /\
    read_string_loop (Datatypes.S fuel) s true (out_local k) (out_size k) (take (128 * k) str) =
    read_string_loop fuel s' true (out_local (Datatypes.S k)) (out_size (Datatypes.S k)) (take (128 * Datatypes.S k) str).
Proof.
  intros Hz Hi E Hk Hk4.
  destruct (read_piece s str tail k fuel (take (128 * k) str) Hz Hi E Hk) as (s1 & Hi1 & E1 & ->); [rewrite length_take; lia|].
  exists s1. split; [done|]. split; [done|].
  rewrite store_chunk_full by (rewrite ?length_take, ?length_drop; lia).
  do 2 f_equal. replace (128 * Datatypes.S k)%nat with (128 * k + 128)%nat by lia. by rewrite take_take_drop.
Qed.

(** A string of 640 bytes does not survive: the chunk that makes
    [stream_read_string] grow its allocated buffer is never copied, so bytes 512
    to 639 of the result are whatever the new memory held. *)
Theorem stream_read_string_loses_chunk s str tail fuel :
  inv s -> stream_is_binary s = true -> flag (mode (header s)) STREAM_IN = true ->
  rem s = str ++ 0 :: tail -> Forall (fun c => c <> 0) str -> length str = 640%nat ->
  exists s', stream_read_string (6 + fuel) s = Some (take 512 str ++ map uninit (seqZ 512 128), s').
Proof.
  intros Hi Hb Hin Hrem Hz Hl. apply no_end in Hz.
  unfold stream_read_string. rewrite Hb, Hin. unfold stream_is_sequential. rewrite (positioned_law s Hi). cbn [negb mbind option_bind].
  destruct (read_full_piece s str tail 0 (5 + fuel)%nat Hz Hi Hrem ltac:(lia) ltac:(lia)) as (s1 & H1 & E1 & R1).
  destruct (read_full_piece s1 str tail 1 (4 + fuel)%nat Hz H1 E1 ltac:(lia) ltac:(lia)) as (s2 & H2 & E2 & R2).
  destruct (read_full_piece s2 str tail 2 (3 + fuel)%nat Hz H2 E2 ltac:(lia) ltac:(lia)) as (s3 & H3 & E3 & R3).
  destruct (read_full_piece s3 str tail 3 (2 + fuel)%nat Hz H3 E3 ltac:(lia) ltac:(lia)) as (s4 & H4 & E4 & R4).
  destruct (read_piece s4 str tail 4 (1 + fuel)%nat (take 512 str) Hz H4 E4 ltac:(lia)) as (s5 & H5 & E5 & R5);
    [rewrite length_take; lia|].
  pose proof (eq_trans R1 (eq_trans R2 (eq_trans R3 (eq_trans R4 R5)))) as R. clear R1 R2 R3 R4 R5.
  eassert (read_string_loop (6 + fuel) s true true 128 [] = _) as -> by exact R. clear R.
  rewrite store_chunk_lost by (rewrite ?length_take, ?length_drop; lia).
  rewrite drop_ge in E5 by lia. simpl in E5.
  change (1 + fuel)%nat with (Datatypes.S fuel). cbn [read_string_loop].
  rewrite rem_not_eos by (done || by rewrite E5). destruct (vt_read s5 128) as [chunk s6] eqn:Er.
  destruct (read_token (ends_string true) s5 [] 0 tail 128 chunk s6) as (-> & _ & Hlc & _);
    [done|done|done|done|simpl; lia|exact Er|].
  change (len []) with 0 in *. replace (len chunk =? 0) with false by lia. simpl. by eexists.
Qed.

(** ** Numbers *)

Lemma consume_blanks_none fuel s c t :
  inv s -> rem s = c :: t -> is_blank c = false ->
  exists s', consume_blanks (Datatypes.S fuel) s = Some s' /\ advanced s s' 0.
Proof.
  intros Hi E Hc. cbn [consume_blanks]. rewrite rem_not_eos by (done || by rewrite E).
  destruct (vt_read s 16) as [chunk s1] eqn:Er.
  destruct (read_token (fun c => negb (is_blank c)) s [] c t 16 chunk s1) as (-> & _ & Hl & Ha & Hle);
    [done|done|done|by rewrite Hc|simpl; lia|exact Er|].
  change (len []) with 0 in *. replace (len chunk =? 0) with false by lia.
  replace (0 <? len chunk) with true by lia. eexists. split; [done|].
  apply (seek_advanced s s1 (length chunk) 0); [done|done|lia|done].
Qed.

Lemma read_string_buffer_token fuel s binary size tok c tail :
  inv s -> rem s = tok ++ c :: tail -> Forall (fun d => ends_string binary d = false) tok ->
  ends_string binary c = true -> tok <> [] -> len tok <= size -> (length tok < 128)%nat ->
  exists s', read_string_buffer_loop (Datatypes.S fuel) s binary size [] = Some (tok, s') /\
    advanced s s' (length tok + 1).
Proof.
  intros Hi E Hp Hc Hne Hs Hl. cbn [read_string_buffer_loop].
  assert (0 < len tok) as Hpos by (destruct (decide (0 < len tok)); [done|]; destruct Hne; apply len_nil; lia).
  rewrite rem_not_eos by (done || (rewrite E; by destruct tok)).
  change (len []) with 0. replace (size <=? 0) with false by lia. cbn [orb].
  destruct (vt_read s 128) as [chunk s1] eqn:Er.
  destruct (read_token (ends_string binary) s tok c tail 128 chunk s1) as (-> & Hsub & Hlc & Ha & Hle); try done.
  replace (len chunk =? 0) with false by lia. replace (len tok =? 0) with false by lia.
  replace (size <? 0 + len tok) with false by lia. rewrite Hsub.
  replace (len tok <? 128) with true by (unfold len; lia). eexists. split; [done|].
  replace (len tok + 1) with (Z.of_nat (length tok + 1)) by (unfold len; lia).
  apply seek_back_advanced; [done|done|unfold len in *; lia|done].
Qed.

(** A token of text, written with a separator, is read back whole. *)
Lemma read_text_token fuel s size tok tail (parse : list Z -> Z) :
  inv s -> stream_is_binary s = false -> flag (mode (header s)) STREAM_IN = true ->
  rem s = tok ++ 32 :: tail -> Forall (fun d => ends_string false d = false) tok ->
  tok <> [] -> len tok < size -> (length tok < 128)%nat ->
  exists s', read_text (Datatypes.S fuel) s size parse = Some (parse tok, s') /\ advanced s s' (length tok + 1).
Proof.
  intros Hi Hb Hin E Hp Hne Hs Hl. unfold read_text, stream_read_string_buffer, stream_is_sequential.
  rewrite Hb, Hin, (positioned_law s Hi). pose proof (len_nonneg tok).
  replace (size =? 0) with false by lia. cbn [negb orb].
  destruct tok as [|c0 tok0] eqn:Et; [done|]. rewrite <- Et in *.
  destruct (consume_blanks_none fuel s c0 (tok0 ++ 32 :: tail)) as (s1 & -> & Ha1);
    [done|by rewrite E, Et|rewrite Et in Hp; inversion Hp; subst; unfold ends_string in *;
      by apply orb_false_iff in H2 as [_ ?]|].
  cbn [mbind option_bind].
  destruct (read_string_buffer_token fuel s1 false (size - 1) tok 32 tail) as (s2 & -> & Ha2);
    [by destruct Ha1|by rewrite (advanced_rem _ _ _ Ha1), drop_0|done|done|done|lia|done|].
  cbn [mbind option_bind]. exists s2. split; [done|]. by apply (advanced_trans _ _ _ 0 _ Ha1).
Qed.

(** In a binary stream [stream_read_string_buffer] of an empty string
    returns it, but consumes up to 128 bytes instead of the terminating zero. *)
Theorem stream_read_string_buffer_empty fuel s size tail :
  inv s -> stream_is_binary s = true -> flag (mode (header s)) STREAM_IN = true ->
  rem s = 0 :: tail -> 2 <= size ->
  exists s', stream_read_string_buffer (Datatypes.S fuel) s size = Some ([], s') /\
    advanced s s' (Nat.min 128 (1 + length tail)).
Proof.
  intros Hi Hb Hin E Hs. unfold stream_read_string_buffer, stream_is_sequential.
  rewrite Hb, Hin, (positioned_law s Hi). replace (size =? 0) with false by lia. cbn [negb orb mbind option_bind].
  cbn [read_string_buffer_loop]. rewrite rem_not_eos by (done || by rewrite E).
  change (len []) with 0. replace (size - 1 <=? 0) with false by lia. cbn [orb].
  destruct (vt_read s 128) as [chunk s1] eqn:Er.
  destruct (read_token (ends_string true) s [] 0 tail 128 chunk s1) as (-> & _ & Hl & Ha & _);
    [done|done|done|done|simpl; lia|exact Er|].
  destruct (read_advanced s 128 chunk s1 Hi ltac:(lia) Er) as [Hc _].
  change (len []) with 0 in *. replace (len chunk =? 0) with false by lia. change (0 =? 0) with true. cbn iota.
  exists s1. split; [done|]. rewrite Hc, E, length_take in Ha. exact Ha.
Qed.

Inductive int_type := TU8 | TU16 | TU32 | TU64 | TI8 | TI16 | TI32 | TI64.

Definition type_bytes (t : int_type) : nat :=
  match t with TU8 | TI8 => 1 | TU16 | TI16 => 2 | TU32 | TI32 => 4 | TU64 | TI64 => 8 end%nat.
Definition type_signed (t : int_type) : bool :=
  match t with TU8 | TU16 | TU32 | TU64 => false | _ => true end.
Definition in_range (t : int_type) (v : Z) : Prop :=
  let w := 8 * Z.of_nat (type_bytes t) in
  if type_signed t then - 2 ^ (w - 1) <= v < 2 ^ (w - 1) else 0 <= v < 2 ^ w.

Definition write_int (t : int_type) : S -> Z -> S :=
  match t with
  | TU8 => stream_write_uint8 | TU16 => stream_write_uint16
  | TU32 => stream_write_uint32 | TU64 => stream_write_uint64
  | TI8 => stream_write_int8 | TI16 => stream_write_int16
  | TI32 => stream_write_int32 | TI64 => stream_write_int64
  end.
Definition read_int (t : int_type) : nat -> S -> option (Z * S) :=
  match t with
  | TU8 => stream_read_uint8 | TU16 => stream_read_uint16
  | TU32 => stream_read_uint32 | TU64 => stream_read_uint64
  | TI8 => stream_read_int8 | TI16 => stream_read_int16
  | TI32 => stream_read_int32 | TI64 => stream_read_int64
  end.

(** The bytes that a number takes in a stream, without separator. *)
Definition int_bytes (t : int_type) (binary swapped : bool) (v : Z) : list Z :=
  if binary then le_bytes (type_bytes t) (swap_if (swapped && negb (bool_decide (type_bytes t = 1%nat))) (type_bytes t) v)
  else if type_signed t then print_d v else print_u 10 v.

Lemma string_from_int_static_text v : - 2 ^ 63 <= v < 2 ^ 63 -> string_from_int_static v = print_d v.
Proof.
  intros Hv. pose proof (string_from_int_whole (replicate 132 0) v 0 ltac:(done) Hv) as E.
  unfold string_from_int_static, static_text. by destruct (string_from_int _ _ _ _).
Qed.

Lemma string_from_uint_static_text v : 0 <= v < 2 ^ 64 -> string_from_uint_static v = print_u 10 v.
Proof.
  intros Hv. pose proof (string_from_uint_whole (replicate 132 0) v false 0 ltac:(done) Hv) as E.
  unfold string_from_uint_static, static_text. by destruct (string_from_uint _ _ _ _ _).
Qed.

Definition int_text (t : int_type) (v : Z) : list Z := if type_signed t then print_d v else print_u 10 v.
Definition text_size (t : int_type) : nat :=
  match t with TU8 | TI8 => 6 | TU16 | TI16 => 8 | TU32 | TI32 => 12 | TU64 | TI64 => 22 end%nat.

Lemma print_u_print_d v : 0 <= v -> print_u 10 v = print_d v.
Proof. intros Hv. unfold print_d. by replace (v <? 0) with false by lia. Qed.

Lemma token_no_end s :
  Forall (fun c => c = 45 \/ exists d, 0 <= d < 10 /\ c = digit_char d) s ->
  Forall (fun d => ends_string false d = false) s.
Proof.
  intros H. eapply Forall_impl; [exact H|]. intros c [->|(d & Hd & ->)]; [done|].
  unfold digit_char, ends_string, is_blank. replace (d <? 10) with true by lia. cbn [negb andb]. lia.
Qed.

Lemma int_text_facts t v :
  in_range t v ->
  (1 <= length (int_text t v) < text_size t)%nat /\ Forall (fun d => ends_string false d = false) (int_text t v).
Proof.
  intros Hr.
  assert ((exists k : nat, (1 <= k <= 19)%nat /\ - 10 ^ Z.of_nat k < v < 10 ^ Z.of_nat k /\
      (k + 1 < text_size t)%nat /\ - 2 ^ 63 <= v < 2 ^ 63) \/ t = TU64 /\ 0 <= v < 2 ^ 64)
    as [(k & Hk & Hv & Hs & H64)|[-> Hv]].
  { unfold in_range in Hr. destruct t; cbn [type_signed type_bytes text_size] in *; eval_pow; [| | |by right|..];
      left; [exists 3%nat|exists 5%nat|exists 10%nat|exists 3%nat|exists 5%nat|exists 10%nat|exists 19%nat];
      eval_pow; repeat split; lia. }
  - destruct (print_d_facts v k Hk Hv H64) as (Hl & He & Hc). apply token_no_end in Hc.
    unfold int_text. destruct (type_signed t) eqn:Et; [split; [lia|done]|].
    assert (0 <= v) by (destruct t; try done; unfold in_range in Hr; cbn in Hr; lia).
    rewrite print_u_print_d by done. split; [lia|done].
  - cbn [int_text type_signed text_size]. pose proof (print_u_length 10 v (or_introl eq_refl) Hv) as Hl.
    unfold int_text. cbn [type_signed]. split; [lia|]. apply token_no_end.
    eapply Forall_impl; [apply digits_chars; [by left|lia]|]. intros c Hc. by right.
Qed.

(** Writing a number stores its bytes or its text. *)
Lemma write_int_spec t s v :
  in_range t v ->
  write_int t s v =
  if stream_is_binary s then snd (stream_write s (int_bytes t true (stream_is_swapped s) v))
  else stream_write_string s (int_text t v).
Proof.
  intros Hr. assert (type_signed t = false -> 0 <= v < 2 ^ 64) as Hu.
  { intros Hs. unfold in_range in Hr. destruct t; try done; cbn [type_signed type_bytes] in Hr; eval_pow; lia. }
  assert (type_signed t = true -> - 2 ^ 63 <= v < 2 ^ 63) as Hi.
  { intros Hs. unfold in_range in Hr. destruct t; try done; cbn [type_signed type_bytes] in Hr; eval_pow; lia. }
  destruct t; cbn [write_int type_signed] in *; unfold stream_write_uint8, stream_write_uint16, stream_write_uint32,
    stream_write_uint64, stream_write_int8, stream_write_int16, stream_write_int32, stream_write_int64, write_bytes,
    int_bytes, int_text; cbn [type_signed type_bytes];
    rewrite ?string_from_uint_static_text, ?string_from_int_static_text by auto;
    destruct (stream_is_binary s); try done; by destruct (stream_is_swapped s).
Qed.

Lemma read_int_binary t s fuel v tail :
  inv s -> stream_is_binary s = true -> flag (mode (header s)) STREAM_IN = true -> in_range t v ->
  rem s = int_bytes t true (stream_is_swapped s) v ++ tail ->
  exists s', read_int t fuel s = Some (v, s') /\ advanced s s' (type_bytes t).
Proof.
  intros Hi Hb Hin Hr E. set (bs := int_bytes t true (stream_is_swapped s) v) in *.
  assert (length bs = type_bytes t) as Hl by apply length_le_bytes.
  destruct (read_exact s bs tail (type_bytes t) Hi E (eq_sym Hl)) as (s' & Er & Ha). exists s'. split; [|done].
  assert (stream_read s (Z.of_nat (type_bytes t)) = (bs, s')) as Er' by (unfold stream_read; by rewrite Hin).
  assert (stream_is_swapped s' = stream_is_swapped s) as Hsw
    by (unfold stream_is_swapped; by destruct Ha as (_ & _ & _ & ->)).
  assert (swap_if (stream_is_swapped s && negb (bool_decide (type_bytes t = 1%nat))) (type_bytes t) (le_uint bs) =
    wrap (8 * Z.of_nat (type_bytes t)) v) as Hv by apply swap_if_bytes.
  assert (type_signed t = false -> wrap (8 * Z.of_nat (type_bytes t)) v = v) as Hu.
  { intros Hs. apply wrap_small. unfold in_range in Hr. by rewrite Hs in Hr. }
  assert (type_signed t = true -> sint (8 * Z.of_nat (type_bytes t)) (wrap (8 * Z.of_nat (type_bytes t)) v) = v) as Hsg.
  { intros Hs. rewrite sint_wrap. apply sint_small; [by destruct t|]. unfold in_range in Hr. by rewrite Hs in Hr. }
  destruct t; cbn [read_int type_signed type_bytes] in *;
    unfold stream_read_uint8, stream_read_uint16, stream_read_uint32, stream_read_uint64,
      stream_read_int8, stream_read_int16, stream_read_int32, stream_read_int64, read_bytes; rewrite Hb;
    change 1 with (Z.of_nat 1); rewrite Er', ?Hsw;
    rewrite ?bool_decide_eq_false_2, ?bool_decide_eq_true_2, ?andb_false_r, ?andb_true_r in Hv by lia;
    cbn [negb] in Hv; rewrite ?andb_false_r, ?andb_true_r in Hv; cbn [swap_if] in Hv; rewrite Hv, ?Hu by done; try done;
    do 2 f_equal; by apply Hsg.
Qed.

Lemma read_int_text t s fuel v tail :
  inv s -> stream_is_binary s = false -> flag (mode (header s)) STREAM_IN = true -> in_range t v ->
  rem s = int_text t v ++ 32 :: tail ->
  exists s', read_int t (Datatypes.S fuel) s = Some (v, s') /\ advanced s s' (length (int_text t v) + 1).
Proof.
  intros Hi Hb Hin Hr E. destruct (int_text_facts t v Hr) as [Hl Hp].
  assert (forall parse, exists s', read_text (Datatypes.S fuel) s (Z.of_nat (text_size t)) parse = Some (parse (int_text t v), s') /\
    advanced s s' (length (int_text t v) + 1)) as H.
  { intros parse. apply (read_text_token fuel s _ (int_text t v) tail); try done.
    - intros E0. rewrite E0 in Hl. simpl in Hl. lia.
    - unfold len. lia.
    - unfold text_size in Hl; destruct t; lia. }
  destruct t; cbn [read_int]; unfold stream_read_uint8, stream_read_uint16, stream_read_uint32, stream_read_uint64,
      stream_read_int8, stream_read_int16, stream_read_int32, stream_read_int64; rewrite Hb;
    [destruct (H (fun s => u8 (string_to_uint s false))) as (s' & Er & Ha)
    |destruct (H (fun s => u16 (string_to_uint s false))) as (s' & Er & Ha)
    |destruct (H (fun s => string_to_uint s false)) as (s' & Er & Ha)
    |destruct (H (fun s => string_to_uint64 s false)) as (s' & Er & Ha)
    |destruct (H (fun s => sint 8 (string_to_int s))) as (s' & Er & Ha)
    |destruct (H (fun s => sint 16 (string_to_int s))) as (s' & Er & Ha)
    |destruct (H string_to_int) as (s' & Er & Ha)
    |destruct (H string_to_int64) as (s' & Er & Ha)];
    exists s'; (split; [|done]); unfold in_range in Hr; cbn [type_signed type_bytes] in Hr;
    cbn [text_size] in Er; change (Z.of_nat 6) with 6 in *; change (Z.of_nat 8) with 8 in *;
    change (Z.of_nat 12) with 12 in *; change (Z.of_nat 22) with 22 in *;
    rewrite Er; do 2 f_equal; unfold int_text; cbn [type_signed].
  - rewrite string_to_uint_print by (eval_pow; lia). by apply wrap_small.
  - rewrite string_to_uint_print by (eval_pow; lia). by apply wrap_small.
  - by apply string_to_uint_print.
  - by apply (string_to_uint64_print v false).
  - rewrite string_to_int_print by (eval_pow; lia). by apply sint_small.
  - rewrite string_to_int_print by (eval_pow; lia). by apply sint_small.
  - by apply string_to_int_print.
  - by apply string_to_int64_print.
Qed.

(** What a number takes in the stream, its separator included. *)
Definition stored_int (t : int_type) (s : S) (v : Z) : list Z :=
  if stream_is_binary s then int_bytes t true (stream_is_swapped s) v else int_text t v ++ [32].

Lemma write_int_written t s v :
  inv s -> flag (mode (header s)) STREAM_OUT = true -> in_range t v -> room s 32 ->
  written s (stream_write_separator (write_int t s v)) (stored_int t s v) 0.
Proof.
  intros Hi Ho Hr Hroom. destruct (int_text_facts t v Hr) as [Hl _].
  rewrite write_int_spec by done. unfold stored_int, stream_write_separator. destruct (stream_is_binary s) eqn:Hb.
  - assert (written s (snd (stream_write s (int_bytes t true (stream_is_swapped s) v)))
      (int_bytes t true (stream_is_swapped s) v) 0) as Hw.
    { apply write_written; [done|done|]. eapply room_le; [exact Hroom|].
      unfold int_bytes. rewrite length_le_bytes. destruct t; cbn; lia. }
    pose proof Hw as (_ & _ & _ & Hh & _). unfold stream_is_binary in *. by rewrite Hh, Hb.
  - unfold stream_write_string. replace (0 <? len (int_text t v)) with true by (unfold len; lia).
    assert (written s (snd (stream_write s (int_text t v))) (int_text t v) 1) as Hw.
    { apply write_written; [done|done|]. eapply room_le; [exact Hroom|]. unfold text_size in Hl; destruct t; lia. }
    pose proof Hw as (Hi1 & _ & _ & Hh & Hr1).
    assert (stream_is_binary (snd (stream_write s (int_text t v))) = false) as Hb1
      by (unfold stream_is_binary in *; by rewrite Hh).
    rewrite !Hb1. eapply written_app; [done|exact Hw|]. apply write_written; [done|by rewrite Hh|done].
Qed.

(** An integer of any width and sign, written with a separator to a binary
    or a text stream in either byte order, is read back as itself, and reading
    stops where writing did. *)
Theorem stream_integer_roundtrip t s v fuel :
  inv s -> flag (mode (header s)) STREAM_OUT = true -> flag (mode (header s)) STREAM_IN = true ->
  in_range t v -> room s 32 -> (1 <= fuel)%nat ->
  let s1 := stream_write_separator (write_int t s v) in
  let r := stream_seek s1 (Z.of_nat (pos s)) STREAM_SEEK_BEGIN in
  exists s', read_int t fuel r = Some (v, s') /\ inv s' /\ pos s' = pos s1 /\ header s' = header s.
Proof.
  intros Hi Ho Hin Hr Hroom Hf s1 r. destruct fuel as [|fuel]; [lia|].
  pose proof (write_int_written t s v Hi Ho Hr Hroom) as Hw. fold s1 in Hw. set (bs := stored_int t s v) in *.
  destruct (seek_written s s1 bs 0 Hi Hw) as (Hir & Hhr & Hrem). fold r in Hir, Hhr, Hrem.
  assert (pos r = pos s) as Hpr.
  { assert (Z.of_nat (pos s) <= len (content s1)) as Hle.
    { destruct Hw as (_ & -> & _). pose proof (pos_content s Hi). unfold write_at, len.
      rewrite !length_app, length_take. lia. }
    destruct Hw as (Hi1 & _). destruct (seek_begin_law s1 (Z.of_nat (pos s)) Hi1 (conj (Nat2Z.is_nonneg _) Hle)) as (_ & _ & Hp & _).
    unfold r. lia. }
  assert (stream_is_binary r = stream_is_binary s /\ stream_is_swapped r = stream_is_swapped s) as [Hbr Hsr]
    by (unfold stream_is_binary, stream_is_swapped; by rewrite Hhr).
  assert (exists s', read_int t (Datatypes.S fuel) r = Some (v, s') /\ advanced r s' (length bs)) as (s' & Er & Ha).
  { unfold bs, stored_int in *. destruct (stream_is_binary s) eqn:Hb.
    - assert (length (int_bytes t true (stream_is_swapped s) v) = type_bytes t) as -> by apply length_le_bytes.
      apply (read_int_binary t r _ v (drop (length (int_bytes t true (stream_is_swapped s) v)) (rem s))); try done.
      + by rewrite Hhr.
      + by rewrite Hsr.
    - rewrite length_app. apply (read_int_text t r fuel v (drop (length (int_text t v ++ [32])) (rem s))); try done.
      + by rewrite Hhr.
      + rewrite Hrem. by rewrite <- app_assoc. }
  exists s'. split; [done|]. destruct Ha as (? & _ & Hp & Hh). destruct Hw as (_ & _ & Hp1 & _).
  split; [done|]. split; [lia|congruence].
Qed.
End round_trip.

End Stream.
