(* ===== verification/BufferStream.v ===== *)
(** * Memory buffer streams ([src/library/foundation_lib/foundation/bufferstream.c])

    The implementation of a stream by a block of [capacity] bytes of which the
    first [size] are the content.  The block is the list of its bytes.  The
    modification time is not modelled. *)
From S2P Require Import Prelude Str StrBuf StrNum Stream.

Module BufferStream.
Import Str StrBuf Stream.

Record stream_buffer_t := mk_stream_buffer {
  sb_header : stream_t;
  sb_buffer : list Z;
  sb_current : Z;
  sb_size : Z;
  sb_capacity : Z;
  sb_own : bool;
  sb_grow : bool;
}.

Section operations.
Context `{!Uninit}.

(** [memory_reallocate(p, size, 0, oldsize, 0)]: the first [oldsize] bytes are
    preserved, the others unknown. *)
Definition memory_reallocate (p : list Z) (size oldsize : Z) : list Z :=
  let kept := take (Z.to_nat (Z.min size oldsize)) p in
  kept ++ map uninit (seqZ (len kept) (size - len kept)).

Definition buffer_stream_initialize (buffer : option (list Z)) (mode size : Z) (adopt grow : bool) : stream_buffer_t :=
  let grow := if negb adopt && grow then false else grow in
  let '(buf, size, capacity) :=
    match buffer with Some b => (b, size, len b) | None => ([], 0, 0) end in
  let size := if capacity <? size then capacity else size in
  let h := set_mode (Z.land mode (Z.lor (Z.lor STREAM_OUT STREAM_IN) STREAM_BINARY))
    (stream_initialize system_byteorder) in
  let size' := if flag mode STREAM_OUT && flag mode STREAM_TRUNCATE then 0 else size in
  let current := if flag mode STREAM_ATEND then size' else 0 in
  mk_stream_buffer h buf current size' capacity adopt (adopt && grow).

Definition buffer_stream_finalize (s : stream_buffer_t) : stream_buffer_t :=
  mk_stream_buffer (sb_header s) [] (sb_current s) (sb_size s) (sb_capacity s) (sb_own s) (sb_grow s).

Definition set_current (s : stream_buffer_t) (current : Z) : stream_buffer_t :=
  mk_stream_buffer (sb_header s) (sb_buffer s) current (sb_size s) (sb_capacity s) (sb_own s) (sb_grow s).

Definition buffer_stream_read (s : stream_buffer_t) (size : Z) : list Z * stream_buffer_t :=
  let available := sb_size s - sb_current s in
  let size := if available <? size then available else size in
  if 0 <? size then (sub (sb_buffer s) (sb_current s) size, set_current s (sb_current s + size))
  else ([], s).

Definition buffer_stream_write (s : stream_buffer_t) (source : list Z) : Z * stream_buffer_t :=
  let want := len source in
  let '(available, size, capacity, buffer) :=
    let available := sb_size s - sb_current s in
    if available <? want then
      if sb_current s + want <=? sb_capacity s then
        (want, sb_current s + want, sb_capacity s, sb_buffer s)
      else if sb_grow s then
        let size := sb_current s + want in
        let capacity := if size <? 1024 then 1024 else size + 1024 in
        (want, size, capacity, memory_reallocate (sb_buffer s) capacity (sb_capacity s))
      else (sb_capacity s - sb_current s, sb_capacity s, sb_capacity s, sb_buffer s)
    else (available, sb_size s, sb_capacity s, sb_buffer s) in
  let n := if want <? available then want else available in
  if 0 <? n then
    (n, mk_stream_buffer (sb_header s) (write_at (Z.to_nat (sb_current s)) (sub source 0 n) buffer)
          (sb_current s + n) size capacity (sb_own s) (sb_grow s))
  else (0, mk_stream_buffer (sb_header s) buffer (sb_current s) size capacity (sb_own s) (sb_grow s)).

Definition buffer_stream_eos (s : stream_buffer_t) : bool := sb_size s <=? sb_current s.

Definition buffer_stream_flush (s : stream_buffer_t) : stream_buffer_t := s.

Definition buffer_stream_truncate (s : stream_buffer_t) (size : Z) : stream_buffer_t :=
  let '(newsize, capacity, buffer) :=
    if size <=? sb_capacity s then (size, sb_capacity s, sb_buffer s)
    else if sb_grow s then (size, size, memory_reallocate (sb_buffer s) size (sb_current s))
    else (sb_capacity s, sb_capacity s, sb_buffer s) in
  let current := if newsize <? sb_current s then newsize else sb_current s in
  mk_stream_buffer (sb_header s) buffer current newsize capacity (sb_own s) (sb_grow s).

Definition buffer_stream_size (s : stream_buffer_t) : Z := sb_size s.

(** The arithmetic of [size_t] wraps. *)
Definition buffer_stream_seek (s : stream_buffer_t) (offset : Z) (direction : stream_seek_mode_t) : stream_buffer_t :=
  let abs_offset := Z.abs offset in
  let new_current :=
    match direction with
    | STREAM_SEEK_CURRENT =>
        if offset <? 0 then (if sb_current s <? abs_offset then 0 else sb_current s - abs_offset)
        else u64 (sb_current s + abs_offset)
    | STREAM_SEEK_BEGIN => if 0 <? offset then abs_offset else 0
    | STREAM_SEEK_END => if offset <? 0 then u64 (sb_size s - abs_offset) else sb_size s
    end in
  set_current s (if sb_size s <? new_current then sb_size s else new_current).

Definition buffer_stream_tell (s : stream_buffer_t) : Z := sb_current s.
Definition buffer_stream_available_read (s : stream_buffer_t) : Z := u64 (sb_size s - sb_current s).

(** [internal_buffer_stream_initialize] fills the table. *)
#[export] Instance buffer_stream_vtable : StreamImpl stream_buffer_t := {
  header := sb_header;
  set_header h s := mk_stream_buffer h (sb_buffer s) (sb_current s) (sb_size s) (sb_capacity s) (sb_own s) (sb_grow s);
  vt_read := buffer_stream_read;
  vt_write := buffer_stream_write;
  vt_eos := Some buffer_stream_eos;
  vt_flush := Some buffer_stream_flush;
  vt_truncate := Some buffer_stream_truncate;
  vt_size := Some buffer_stream_size;
  vt_seek := Some buffer_stream_seek;
  vt_tell := Some buffer_stream_tell;
  vt_available_read := Some buffer_stream_available_read;
}.

(** ** Invariant *)

Definition wf (s : stream_buffer_t) : Prop :=
  sb_capacity s = len (sb_buffer s) /\ 0 <= sb_current s <= sb_size s /\ sb_size s <= sb_capacity s /\
  sb_capacity s < 2 ^ 63.

Definition contents (s : stream_buffer_t) : list Z := sub (sb_buffer s) 0 (sb_size s).
Lemma len_reallocate p size oldsize :
  0 <= oldsize <= len p -> 0 <= size -> len (memory_reallocate p size oldsize) = size.
Proof.
  intros Ho Hs. unfold memory_reallocate, len in *.
  rewrite length_app, length_map, length_seqZ, length_take. lia.
Qed.

Lemma take_reallocate p size oldsize n :
  0 <= oldsize <= len p -> (Z.of_nat n <= Z.min size oldsize) ->
  take n (memory_reallocate p size oldsize) = take n p.
Proof.
  intros Ho Hn. unfold memory_reallocate, len in *.
  rewrite take_app_le by (rewrite length_take; lia). rewrite take_take. f_equal. lia.
Qed.

Lemma len_contents s : wf s -> len (contents s) = sb_size s.
Proof. intros (Hc & H1 & H2 & H3). unfold contents. apply len_sub; lia. Qed.

(** Reading returns the content from the position and moves behind it. *)
Lemma read_spec s n :
  wf s -> 0 <= n ->
  let '(bytes, s') := buffer_stream_read s n in
  bytes = take (Z.to_nat n) (drop (Z.to_nat (sb_current s)) (contents s)) /\
  s' = set_current s (sb_current s + len bytes) /\ wf s'.
Proof.
  intros Hwf Hn. pose proof Hwf as (Hc & H1 & H2 & H3). unfold buffer_stream_read.
  set (m := if _ <? n then _ else n).
  assert (take (Z.to_nat n) (drop (Z.to_nat (sb_current s)) (contents s)) =
          sub (sb_buffer s) (sb_current s) m) as E.
  { unfold contents, sub. rewrite drop_0, skipn_firstn_comm, take_take. f_equal.
    unfold m. destruct (_ <? n) eqn:?; lia. }
  assert (0 <= m <= sb_size s - sb_current s) as Hm by (unfold m; destruct (_ <? n) eqn:?; lia).
  rewrite E. destruct (0 <? m) eqn:E0.
  - rewrite len_sub by lia. split; [done|]. split; [done|]. unfold wf. simpl. lia.
  - assert (m = 0) as -> by lia. unfold sub. simpl. split; [done|].
    assert (s = set_current s (sb_current s + len [])) as <-; [|done].
    unfold set_current. change (len []) with 0. rewrite Z.add_0_r. by destruct s.
Qed.

(** The bytes accepted by a write. *)
Definition accepted (s : stream_buffer_t) (want : Z) : Z :=
  if sb_grow s then want else Z.min want (sb_capacity s - sb_current s).

Lemma write_spec s source :
  wf s -> sb_current s + len source + 1024 < 2 ^ 63 ->
  let n := accepted s (len source) in
  let '(m, s') := buffer_stream_write s source in
  m = n /\ wf s' /\ sb_header s' = sb_header s /\ sb_grow s' = sb_grow s /\
  sb_current s' = sb_current s + n /\
  contents s' = take (Z.to_nat (sb_current s)) (contents s) ++ take (Z.to_nat n) source ++
                drop (Z.to_nat (sb_current s + n)) (contents s).
Proof.
  intros Hwf Hroom n. pose proof Hwf as (Hc & H1 & H2 & H3). pose proof (len_nonneg source) as Hsrc.
  unfold buffer_stream_write. set (q := if _ <? len source then _ else _).
  assert (exists available size capacity buffer, q = (available, size, capacity, buffer) /\
    (if len source <? available then len source else available) = n /\ 0 <= n <= len source /\
    capacity = len buffer /\ capacity < 2 ^ 63 /\ size <= capacity /\
    size = Z.max (sb_size s) (sb_current s + n) /\
    take (Z.to_nat (sb_size s)) buffer = take (Z.to_nat (sb_size s)) (sb_buffer s))
    as (av & size & capacity & buffer & Eq & Hn & Hn0 & Hcap & Hcap2 & Hsz & Hsz2 & Hkeep).
  { unfold q, n, accepted. destruct (_ <? len source) eqn:E1; [destruct (_ <=? sb_capacity s) eqn:E2; [|destruct (sb_grow s) eqn:E3]|].
    - do 4 eexists. split; [done|]. split; [|split; [|split; [done|]]];
        destruct (sb_grow s); destruct (len source <? len source) eqn:?; try lia; split; try lia; split; try lia; split; try done; lia.
    - set (sz := sb_current s + len source). set (cap := if sz <? 1024 then 1024 else sz + 1024).
      assert (sz <= cap < 2 ^ 63) by (unfold cap, sz in *; destruct (_ <? 1024) eqn:?; lia).
      do 4 eexists. split; [done|]. rewrite len_reallocate by lia.
      split; [by destruct (len source <? len source)|]. split; [lia|]. split; [done|]. split; [lia|]. split; [lia|]. split; [lia|].
      apply take_reallocate; lia.
    - do 4 eexists. split; [done|]. split; [case_if; lia|]. repeat (split; [first [done|lia]|]). done.
    - do 4 eexists. split; [done|]. split; [repeat case_if; lia|].
      repeat (split; [first [done|destruct (sb_grow s); lia]|]). done. }
  rewrite Eq, Hn. clear q Eq Hn.
  set (buffer' := write_at (Z.to_nat (sb_current s)) (sub source 0 n) buffer).
  assert (length (sub source 0 n) = Z.to_nat n) as Hlsub by (apply length_sub; lia).
  assert (len buffer' = capacity) as Hlb.
  { unfold buffer', len in *. rewrite length_write_at; lia. }
  assert (sub buffer' 0 size = take (Z.to_nat (sb_current s)) (contents s) ++ take (Z.to_nat n) source ++
      drop (Z.to_nat (sb_current s + n)) (contents s)) as Hcont.
  { unfold buffer', write_at, contents. rewrite Hlsub, !sub_0, <- Hkeep, take_take.
    replace (Z.to_nat (sb_current s) `min` Z.to_nat (sb_size s))%nat with (Z.to_nat (sb_current s)) by lia.
    rewrite take_app_ge by (rewrite length_take; unfold len in *; lia). f_equal.
    rewrite length_take. replace (Z.to_nat (sb_current s) `min` length buffer)%nat with (Z.to_nat (sb_current s))
      by (unfold len in *; lia).
    rewrite take_app_ge by (rewrite length_take; unfold len in *; lia). f_equal.
    rewrite length_take, skipn_firstn_comm.
    replace (Z.to_nat (sb_current s) + Z.to_nat n)%nat with (Z.to_nat (sb_current s + n)) by lia.
    f_equal. unfold len in *. lia. }
  destruct (0 <? n) eqn:E.
  - split; [done|]. split; [unfold wf; cbn; lia|]. split; [done|]. split; [done|]. split; [done|].
    unfold contents at 1. cbn. exact Hcont.
  - assert (n = 0) as En by lia. split; [done|]. split; [unfold wf; cbn; lia|].
    split; [done|]. split; [done|]. split; [cbn; lia|].
    unfold contents at 1. cbn. rewrite <- Hcont. unfold buffer'.
    rewrite En. unfold sub at 3. simpl. by rewrite write_at_nil.
Qed.

Lemma seek_spec s offset direction :
  wf s -> - 2 ^ 62 < offset < 2 ^ 62 ->
  let s' := buffer_stream_seek s offset direction in
  wf s' /\ s' = set_current s (sb_current s') /\
  sb_current s' =
    match direction with
    | STREAM_SEEK_BEGIN => Z.max 0 (Z.min offset (sb_size s))
    | STREAM_SEEK_CURRENT => Z.max 0 (Z.min (sb_current s + offset) (sb_size s))
    | STREAM_SEEK_END => if - offset <=? sb_size s then Z.min (sb_size s + offset) (sb_size s) else sb_size s
    end.
Proof.
  intros Hwf Ho s'. pose proof Hwf as (Hc & H1 & H2 & H3).
  change (2 ^ 62) with 4611686018427387904 in *. change (2 ^ 63) with 9223372036854775808 in *.
  assert (sb_current s' = match direction with
    | STREAM_SEEK_BEGIN => Z.max 0 (Z.min offset (sb_size s))
    | STREAM_SEEK_CURRENT => Z.max 0 (Z.min (sb_current s + offset) (sb_size s))
    | STREAM_SEEK_END => if - offset <=? sb_size s then Z.min (sb_size s + offset) (sb_size s) else sb_size s
    end) as E.
  { unfold s', buffer_stream_seek. cbn. destruct direction.
    - repeat case_if; lia.
    - destruct (offset <? 0) eqn:E1;
        [|rewrite wrap_small by (change (2 ^ 64) with 18446744073709551616; lia)]; repeat case_if; lia.
    - destruct (offset <? 0) eqn:E1; [|repeat case_if; lia].
      destruct (- offset <=? sb_size s) eqn:E3.
      + rewrite wrap_small by (change (2 ^ 64) with 18446744073709551616; lia). repeat case_if; lia.
      + assert (u64 (sb_size s - Z.abs offset) = sb_size s - Z.abs offset + 18446744073709551616) as ->.
        { unfold wrap. change (2 ^ 64) with 18446744073709551616. symmetry.
          apply (Z.mod_unique_pos _ _ (-1)); lia. }
        repeat case_if; lia. }
  split; [|split; [done|exact E]]. unfold wf. cbn. change (2 ^ 63) with 9223372036854775808.
  assert (0 <= sb_current s' <= sb_size s); [|unfold s', buffer_stream_seek in *; cbn in *; lia].
  rewrite E. destruct direction; [lia|lia|case_if; lia].
Qed.

(** Growing by truncation keeps the bytes before the position only. *)
Lemma truncate_spec s size :
  wf s -> 0 <= size < 2 ^ 63 ->
  let s' := buffer_stream_truncate s size in
  let kept := if size <=? sb_capacity s then Z.min size (sb_size s)
              else if sb_grow s then sb_current s else sb_size s in
  wf s' /\ sb_size s' = (if (size <=? sb_capacity s) || sb_grow s then size else sb_capacity s) /\
  sb_current s' = Z.min (sb_current s) (sb_size s') /\
  take (Z.to_nat kept) (contents s') = take (Z.to_nat kept) (contents s).
Proof.
  intros Hwf Hs s' kept. pose proof Hwf as (Hc & H1 & H2 & H3).
  unfold s', kept, buffer_stream_truncate, wf, contents. clear s' kept.
  destruct (size <=? sb_capacity s) eqn:E1; [|destruct (sb_grow s) eqn:E2]; cbn [orb sb_size sb_current sb_capacity sb_buffer];
    rewrite ?len_reallocate, ?sub_0 by lia;
    case_if; (split; [lia|]); (split; [done|]); (split; [lia|]);
    rewrite !take_take; rewrite ?take_reallocate by lia; f_equal; lia.
Qed.

(** A memory buffer stream obeys the laws of a seekable stream. *)
Lemma buffer_read_law s n bytes s' :
  wf s /\ sequential (sb_header s) = false -> 0 <= n -> buffer_stream_read s n = (bytes, s') ->
  bytes = take (Z.to_nat n) (drop (Z.to_nat (sb_current s)) (contents s)) /\
  (wf s' /\ sequential (sb_header s') = false) /\ contents s' = contents s /\
  Z.to_nat (sb_current s') = (Z.to_nat (sb_current s) + length bytes)%nat /\ sb_header s' = sb_header s.
Proof.
  intros [Hwf Hq] Hn E. pose proof (read_spec s n Hwf Hn) as Hr. rewrite E in Hr.
  destruct Hr as (Hb & -> & Hwf2). split; [done|]. split; [done|]. split; [done|].
  destruct Hwf as (_ & ? & _). split; [cbn; unfold len; lia|done].
Qed.

Lemma buffer_seek_law s o d :
  wf s /\ sequential (sb_header s) = false ->
  0 <= (match d with STREAM_SEEK_BEGIN => o | STREAM_SEEK_CURRENT => sb_current s + o
        | STREAM_SEEK_END => sb_size s + o end) <= sb_size s ->
  let s' := buffer_stream_seek s o d in
  (wf s' /\ sequential (sb_header s') = false) /\ contents s' = contents s /\
  sb_current s' = (match d with STREAM_SEEK_BEGIN => o | STREAM_SEEK_CURRENT => sb_current s + o
                   | STREAM_SEEK_END => sb_size s + o end) /\ sb_header s' = sb_header s.
Proof.
  intros [Hwf Hq] Ho s'. pose proof Hwf as (Hc & H1 & H2 & H3).
  assert (sb_current s' = match d with STREAM_SEEK_BEGIN => o | STREAM_SEEK_CURRENT => sb_current s + o
                   | STREAM_SEEK_END => sb_size s + o end) as E.
  { unfold s', buffer_stream_seek. change (2 ^ 63) with 9223372036854775808 in H3.
    assert (forall z, 0 <= z <= sb_size s -> u64 z = z) as Hw
      by (intros; apply wrap_small; change (2 ^ 64) with 18446744073709551616; lia).
    cbn. destruct d; repeat case_if; rewrite ?Hw in * by lia; lia. }
  assert (0 <= sb_current s' <= sb_size s) by lia.
  unfold s', buffer_stream_seek in *. cbn in *. unfold wf, contents. cbn. done.
Qed.

#[export] Program Instance buffer_stream_laws : StreamLaws stream_buffer_t := {
  inv s := wf s /\ sequential (sb_header s) = false;
  content := contents;
  pos s := Z.to_nat (sb_current s);
}.
Next Obligation.
  intros s [Hwf _]. pose proof (len_contents s Hwf). unfold len in *. destruct Hwf as (_ & ? & _). lia.
Qed.
Next Obligation. intros s n bytes s' Hs Hn E. by apply buffer_read_law. Qed.
Next Obligation.
  intros s [Hwf _]. pose proof (len_contents s Hwf) as Hlen. destruct Hwf as (_ & ? & _).
  unfold stream_eos. cbn. unfold buffer_stream_eos, len in *. case_bool_decide; lia.
Qed.
Next Obligation.
  intros s o [Hwf Hq] Ho. pose proof (len_contents s Hwf) as Hlen. pose proof Hwf as (_ & ? & _).
  destruct (buffer_seek_law s o STREAM_SEEK_CURRENT) as (? & ? & E & ?); [done|lia|].
  unfold stream_seek. cbn in *. split; [done|]. split; [done|]. split; [rewrite E; lia|done].
Qed.
Next Obligation.
  intros s o [Hwf Hq] Ho. pose proof (len_contents s Hwf) as Hlen. pose proof Hwf as (_ & ? & _).
  destruct (buffer_seek_law s o STREAM_SEEK_BEGIN) as (? & ? & E & ?); [done|lia|].
  unfold stream_seek. cbn in *. split; [done|]. split; [done|]. split; [rewrite E; lia|done].
Qed.
Next Obligation. intros s [(_ & ? & _) _]. unfold stream_tell. cbn. unfold buffer_stream_tell. lia. Qed.
Next Obligation. by intros s [_ ?]. Qed.

(** A growing stream has room for every write that keeps sizes in 63 bits. *)
Lemma buffer_write_law s bytes n :
  (wf s /\ sequential (sb_header s) = false) ->
  sb_grow s = true /\ sb_current s + Z.of_nat (length bytes + n) + 1024 < 2 ^ 63 ->
  let '(w, s') := buffer_stream_write s bytes in
  w = len bytes /\ (wf s' /\ sequential (sb_header s') = false) /\
  contents s' = write_at (Z.to_nat (sb_current s)) bytes (contents s) /\
  Z.to_nat (sb_current s') = (Z.to_nat (sb_current s) + length bytes)%nat /\ sb_header s' = sb_header s /\
  (sb_grow s' = true /\ sb_current s' + Z.of_nat n + 1024 < 2 ^ 63).
Proof.
  intros [Hwf Hq] [Hg Hr]. pose proof (write_spec s bytes Hwf ltac:(unfold len; lia)) as Hw.
  unfold accepted in Hw. rewrite Hg in Hw. destruct (buffer_stream_write s bytes) as [w s'].
  destruct Hw as (-> & Hwf' & Hh & Hg' & Hc & Hcont). pose proof Hwf as (_ & Hcur & _). rewrite Hh, Hg', Hc, Hcont.
  unfold len in *. split; [done|]. split; [done|]. split.
  - rewrite Nat2Z.id, (take_ge bytes) by lia. unfold write_at. do 3 f_equal. lia.
  - split; [lia|]. split; [done|]. split; [done|lia].
Qed.

#[export] Program Instance buffer_stream_write_laws : StreamWriteLaws stream_buffer_t := {
  room s n := sb_grow s = true /\ sb_current s + Z.of_nat n + 1024 < 2 ^ 63;
}.
Next Obligation. intros s m n [Hg Hr] Hm. split; [done|lia]. Qed.
Next Obligation. intros s bytes n Hi Hr. by apply buffer_write_law. Qed.

Lemma buffer_stream_initialize_wf buffer m size adopt grow :
  0 <= size -> match buffer with Some b => len b < 2 ^ 63 | None => True end ->
  let s := buffer_stream_initialize buffer m size adopt grow in
  wf s /\ sequential (sb_header s) = false.
Proof.
  intros Hs Hb. split; [|by destruct buffer]. unfold buffer_stream_initialize, wf. destruct buffer as [b|]; cbn.
  - pose proof (len_nonneg b). repeat case_if; cbn; lia.
  - change (len []) with 0. replace (if 0 <? 0 then 0 else 0) with 0 by done.
    repeat case_if; cbn; change (len []) with 0; (split; [done|]); eval_pow; lia.
Qed.

(** Writing to a memory buffer stream replaces the content from the position
    by the bytes it accepts: all of them when the stream may grow or the
    capacity suffices, otherwise as many as the capacity leaves; the position
    moves behind them and the stream stays well formed. *)
Theorem buffer_stream_write_content s source :
  wf s -> sb_current s + len source + 1024 < 2 ^ 63 ->
  let n := accepted s (len source) in
  let '(m, s') := buffer_stream_write s source in
  m = n /\ wf s' /\ sb_current s' = sb_current s + n /\
  contents s' = take (Z.to_nat (sb_current s)) (contents s) ++ take (Z.to_nat n) source ++
                drop (Z.to_nat (sb_current s + n)) (contents s).
Proof.
  intros Hwf Hr n. pose proof (write_spec s source Hwf Hr) as Hw.
  destruct (buffer_stream_write s source) as [m s']. by destruct Hw as (? & ? & _ & _ & ? & ?).
Qed.

(** Seeking keeps the position inside the content.  Positions outside are
    clamped to the nearest end, except that an offset before the beginning given
    relative to the end wraps around and goes to the end. *)
Theorem buffer_stream_seek_position s offset direction :
  wf s -> - 2 ^ 62 < offset < 2 ^ 62 ->
  let s' := buffer_stream_seek s offset direction in
  wf s' /\ contents s' = contents s /\
  sb_current s' =
    match direction with
    | STREAM_SEEK_BEGIN => Z.max 0 (Z.min offset (sb_size s))
    | STREAM_SEEK_CURRENT => Z.max 0 (Z.min (sb_current s + offset) (sb_size s))
    | STREAM_SEEK_END => if - offset <=? sb_size s then Z.min (sb_size s + offset) (sb_size s) else sb_size s
    end.
Proof.
  intros Hwf Ho s'. destruct (seek_spec s offset direction Hwf Ho) as (H1 & H2 & H3).
  split; [done|]. split; [|done]. fold s' in H2. by rewrite H2.
Qed.

(** Truncating sets the size, up to the capacity when the stream may not
    grow, and keeps the content below the new size as long as the capacity
    suffices; a truncation that grows the block preserves the bytes in front of
    the position only. *)
Theorem buffer_stream_truncate_content s size :
  wf s -> 0 <= size < 2 ^ 63 ->
  let s' := buffer_stream_truncate s size in
  let kept := if size <=? sb_capacity s then Z.min size (sb_size s)
              else if sb_grow s then sb_current s else sb_size s in
  wf s' /\ sb_size s' = (if (size <=? sb_capacity s) || sb_grow s then size else sb_capacity s) /\
  sb_current s' = Z.min (sb_current s) (sb_size s') /\
  take (Z.to_nat kept) (contents s') = take (Z.to_nat kept) (contents s).
Proof. intros Hwf Hs. exact (truncate_spec s size Hwf Hs). Qed.
End operations.

(** ** Witnesses *)

#[local] Instance zero_memory : Uninit := fun _ => 0.

Definition sample (m : Z) : stream_buffer_t := buffer_stream_initialize (Some [97;98;10;99]) m 4 true true.

Lemma buffer_stream_write_content_witness :
  let '(m, s') := buffer_stream_write (sample 35) [1;2;3;4;5] in
  m = 5 /\ wf s' /\ sb_current s' = 5 /\ contents s' = [1;2;3;4;5].
Proof.
  apply (buffer_stream_write_content (sample 35) [1;2;3;4;5]); [|done].
  apply buffer_stream_initialize_wf; done.
Defined.

Lemma buffer_stream_seek_position_witness :
  let s' := buffer_stream_seek (sample 35) (-9) STREAM_SEEK_END in
  wf s' /\ contents s' = contents (sample 35) /\ sb_current s' = 4.
Proof.
  apply (buffer_stream_seek_position (sample 35) (-9) STREAM_SEEK_END); [|done].
  apply buffer_stream_initialize_wf; done.
Defined.

Lemma buffer_stream_truncate_content_witness :
  let s' := buffer_stream_truncate (sample 35) 6 in
  wf s' /\ sb_size s' = 6 /\ sb_current s' = 0 /\ take 0 (contents s') = take 0 (contents (sample 35)).
Proof.
  apply (buffer_stream_truncate_content (sample 35) 6); [|done].
  apply buffer_stream_initialize_wf; done.
Defined.

Lemma stream_read_line_buffer_spec_witness :
  let '(line, n) := line_ref 9 10 (rem (sample 35)) in
  exists s', stream_read_line_buffer 5 (sample 35) 10 10 = Some (line, s') /\ advanced (sample 35) s' n.
Proof.
  apply (stream_read_line_buffer_spec 5 (sample 35) 10 10); [|done|done|vm_compute; lia].
  apply (buffer_stream_initialize_wf (Some [97;98;10;99]) 35 4 true true); done.
Defined.

Lemma stream_string_roundtrip_witness :
  exists s', stream_read_string 5
      (stream_seek (stream_write_string (sample 35) [104;105]) (Z.of_nat (pos (sample 35))) STREAM_SEEK_BEGIN) =
    Some ([104;105], s') /\
    advanced (stream_seek (stream_write_string (sample 35) [104;105]) (Z.of_nat (pos (sample 35))) STREAM_SEEK_BEGIN) s' 3.
Proof.
  apply (stream_string_roundtrip (sample 35) [104;105] 0 5).
  - apply (buffer_stream_initialize_wf (Some [97;98;10;99]) 35 4 true true); done.
  - done.
  - done.
  - done.
  - by repeat constructor.
  - vm_compute. lia.
  - by split.
  - lia.
Defined.

Definition long_sample : stream_buffer_t :=
  buffer_stream_initialize (Some (replicate 640 97 ++ [0])) 35 641 true true.

Lemma stream_read_string_loses_chunk_witness :
  exists s', stream_read_string 6 long_sample = Some (replicate 512 97 ++ map uninit (seqZ 512 128), s').
Proof.
  apply (stream_read_string_loses_chunk long_sample (replicate 640 97) [] 0).
  - apply (buffer_stream_initialize_wf (Some (replicate 640 97 ++ [0])) 35 641 true true); done.
  - done.
  - done.
  - vm_compute. done.
  - apply Forall_replicate. done.
  - done.
Defined.

Lemma stream_read_string_buffer_empty_witness :
  exists s', stream_read_string_buffer 1 (buffer_stream_initialize (Some [0;1;2]) 35 3 true true) 10 = Some ([], s') /\
    advanced (buffer_stream_initialize (Some [0;1;2]) 35 3 true true) s' 3.
Proof.
  apply (stream_read_string_buffer_empty 0 _ 10 [1;2]).
  - apply (buffer_stream_initialize_wf (Some [0;1;2]) 35 3 true true); done.
  - done.
  - done.
  - done.
  - done.
Defined.

Lemma stream_integer_roundtrip_witness :
  exists s', read_int TI32 1 (stream_seek (stream_write_separator (write_int TI32 (sample 3) (-77)))
      (Z.of_nat (pos (sample 3))) STREAM_SEEK_BEGIN) = Some (-77, s') /\
    inv s' /\ pos s' = pos (stream_write_separator (write_int TI32 (sample 3) (-77))) /\
    header s' = header (sample 3).
Proof.
  apply (stream_integer_roundtrip TI32 (sample 3) (-77) 1).
  - apply (buffer_stream_initialize_wf (Some [97;98;10;99]) 3 4 true true); done.
  - done.
  - done.
  - done.
  - by split.
  - lia.
Defined.
End BufferStream.
