(* ===== verification/BitBuffer.v ===== *)
(** * Bit buffers ([src/library/foundation_lib/foundation/bitbuffer.c])

    A bit buffer reads and writes integers of any number of bits through 32-bit
    words, which it moves from and to a block of memory or a stream.  The record
    [device_t] holds the fields that say where the words go. *)
From S2P Require Import Prelude Str StrBuf StrNum Stream BufferStream.

Module BitBuffer.
Import Str Stream.

Section operations.
Context {S : Type} `{HI : !StreamImpl S} `{HU : !Uninit} (fuel : nat).

(** [bb_memory] is the block that [buffer] points into, at [bb_buffer]. *)
Record device_t := mk_device {
  bb_memory : list Z;
  bb_buffer : Z;
  bb_end : Z;
  bb_stream : option S;
  bb_swap : bool;
}.

Record bitbuffer_t := mk_bitbuffer {
  device : device_t;
  pending_read : Z;
  pending_write : Z;
  offset_read : Z;
  offset_write : Z;
  count_read : Z;
  count_write : Z;
}.

(** The word that [bitbuffer_get] fetches: from the memory, the stream, or 0. *)
Definition device_get (d : device_t) : option (Z * device_t) :=
  if bb_buffer d <? bb_end d then
    Some (swap_if (bb_swap d) 4 (le_uint (sub (bb_memory d) (bb_buffer d) 4)),
          mk_device (bb_memory d) (bb_buffer d + 4) (bb_end d) (bb_stream d) (bb_swap d))
  else
    match bb_stream d with
    | Some stream =>
        '(w, stream) ← stream_read_uint32 fuel stream;
        Some (w, mk_device (bb_memory d) (bb_buffer d) (bb_end d) (Some stream) (bb_swap d))
    | None => Some (0, d)
    end.

Definition device_put (d : device_t) (w : Z) : device_t :=
  if bb_buffer d <? bb_end d then
    mk_device (write_at (Z.to_nat (bb_buffer d)) (le_bytes 4 (swap_if (bb_swap d) 4 w)) (bb_memory d))
      (bb_buffer d + 4) (bb_end d) (bb_stream d) (bb_swap d)
  else
    match bb_stream d with
    | Some stream =>
        mk_device (bb_memory d) (bb_buffer d) (bb_end d) (Some (stream_write_uint32 stream w)) (bb_swap d)
    | None => d
    end.

Definition bitbuffer_get (b : bitbuffer_t) : option bitbuffer_t :=
  '(w, d) ← device_get (device b);
  Some (mk_bitbuffer d w (pending_write b) 0 (offset_write b) (count_read b) (count_write b)).

Definition bitbuffer_put (b : bitbuffer_t) : bitbuffer_t :=
  mk_bitbuffer (device_put (device b) (pending_write b)) (pending_read b) 0 (offset_read b) 0
    (count_read b) (count_write b).

(** All fields zero but the device and [offset_read]. *)
Definition initialized (d : device_t) : bitbuffer_t := mk_bitbuffer d 0 0 32 0 0 0.

Definition bitbuffer_initialize_buffer (buffer : list Z) (swap : bool) : bitbuffer_t :=
  initialized (mk_device buffer 0 (len buffer) None swap).

Definition bitbuffer_initialize_stream (stream : S) : bitbuffer_t :=
  initialized (mk_device [] 0 0 (Some (stream_set_binary stream true)) false).

(** Move the read position by [n] bits. *)
Definition skip_read (b : bitbuffer_t) (offset n : Z) : bitbuffer_t :=
  mk_bitbuffer (device b) (pending_read b) (pending_write b) offset (offset_write b)
    (u64 (count_read b + n)) (count_write b).

Definition bitbuffer_read32 (b : bitbuffer_t) (bits : Z) : option (Z * bitbuffer_t) :=
  if bits =? 0 then Some (0, b)
  else
    let bits := if 32 <? bits then 32 else bits in
    b ← (if 32 <=? offset_read b then bitbuffer_get b else Some b);
    let curbits := 32 - offset_read b in
    let curbits := if bits <? curbits then bits else curbits in
    let ret := if curbits =? 32 then pending_read b
               else Z.land (Z.shiftr (pending_read b) (offset_read b)) (low_mask curbits) in
    let b := skip_read b (offset_read b + curbits) curbits in
    if curbits =? bits then Some (ret, b)
    else
      b ← bitbuffer_get b;
      let ret := Z.lor ret (shl 32 (Z.land (pending_read b) (low_mask (bits - curbits))) curbits) in
      Some (ret, skip_read b (bits - curbits) (bits - curbits)).

Definition bitbuffer_read64 (b : bitbuffer_t) (bits : Z) : option (Z * bitbuffer_t) :=
  if bits <=? 32 then bitbuffer_read32 b bits
  else
    let bits := if 64 <? bits then 64 else bits in
    '(val0, b) ← bitbuffer_read32 b 32;
    '(val1, b) ← bitbuffer_read32 b (bits - 32);
    Some (Z.lor val0 (shl 64 val1 32), b).

(** The two words of a [uint128_t]. *)
Definition bitbuffer_read128 (b : bitbuffer_t) (bits : Z) : option (Z * Z * bitbuffer_t) :=
  if bits <=? 64 then '(w, b) ← bitbuffer_read64 b bits; Some (w, 0, b)
  else
    let bits := if 128 <? bits then 128 else bits in
    '(word0, b) ← bitbuffer_read64 b 64;
    '(word1, b) ← bitbuffer_read64 b (bits - 64);
    Some (word0, word1, b).

(** The bit pattern of a floating point number is cast. *)
Definition bitbuffer_read_float32 (b : bitbuffer_t) := bitbuffer_read32 b 32.
Definition bitbuffer_read_float64 (b : bitbuffer_t) := bitbuffer_read64 b 64.

Definition set_pending (b : bitbuffer_t) (pending offset count : Z) : bitbuffer_t :=
  mk_bitbuffer (device b) (pending_read b) pending (offset_read b) offset (count_read b) count.

Definition bitbuffer_write32 (b : bitbuffer_t) (value bits : Z) : bitbuffer_t :=
  if bits =? 0 then b
  else
    let bits := if 32 <? bits then 32 else bits in
    let curbits := 32 - offset_write b in
    let curbits := if bits <? curbits then bits else curbits in
    let part := if curbits =? 32 then value else Z.land value (low_mask curbits) in
    let b := set_pending b (Z.lor (pending_write b) (shl 32 part (offset_write b)))
               (offset_write b + curbits) (u64 (count_write b + bits)) in
    let b := if offset_write b =? 32 then bitbuffer_put b else b in
    if curbits =? bits then b
    else set_pending b (Z.land (Z.shiftr value curbits) (low_mask (bits - curbits)))
           (bits - curbits) (count_write b).

Definition bitbuffer_write64 (b : bitbuffer_t) (value bits : Z) : bitbuffer_t :=
  if bits <=? 32 then bitbuffer_write32 b (u32 value) bits
  else
    let bits := if 64 <? bits then 64 else bits in
    let b := bitbuffer_write32 b (u32 value) 32 in
    bitbuffer_write32 b (u32 (Z.shiftr value 32)) (bits - 32).

Definition bitbuffer_write128 (b : bitbuffer_t) (word0 word1 bits : Z) : bitbuffer_t :=
  if bits <=? 64 then bitbuffer_write64 b word0 bits
  else
    let bits := if 128 <? bits then 128 else bits in
    bitbuffer_write64 (bitbuffer_write64 b word0 64) word1 (bits - 64).

Definition bitbuffer_write_float32 (b : bitbuffer_t) (value : Z) := bitbuffer_write32 b value 32.
Definition bitbuffer_write_float64 (b : bitbuffer_t) (value : Z) := bitbuffer_write64 b value 64.

Definition bitbuffer_align_read (b : bitbuffer_t) (force : bool) : option bitbuffer_t :=
  if Z.land (offset_read b) 31 =? 0 then
    if negb force then Some b
    else
      b ← (if offset_read b =? 0 then Some b else bitbuffer_get b);
      Some (skip_read b 32 (32 - offset_read b))
  else Some (skip_read b 32 (32 - offset_read b)).

Definition bitbuffer_align_write (b : bitbuffer_t) (force : bool) : bitbuffer_t :=
  if (offset_write b =? 0) && negb force then b
  else bitbuffer_put (set_pending b (pending_write b) (offset_write b) (u64 (count_write b + (32 - offset_write b)))).

Definition bitbuffer_discard_read (b : bitbuffer_t) : bitbuffer_t :=
  if offset_read b =? 32 then b
  else mk_bitbuffer (device b) (pending_read b) (pending_write b) 0 (offset_write b) (count_read b) (count_write b).

Definition bitbuffer_discard_write (b : bitbuffer_t) : bitbuffer_t :=
  set_pending b 0 0 (count_write b).

(** ** Bit sequences *)

(** The [n] low bits of a value, least significant first. *)
Definition bits (n : nat) (v : Z) : list bool := map (fun i => Z.testbit v (Z.of_nat i)) (seq 0 n).

Lemma length_bits n v : length (bits n v) = n.
Proof. unfold bits. by rewrite length_map, length_seq. Qed.

Lemma lookup_bits n v i : (i < n)%nat -> bits n v !! i = Some (Z.testbit v (Z.of_nat i)).
Proof. intros H. unfold bits. rewrite list_lookup_fmap, lookup_seq_lt by done. done. Qed.

Lemma bits_eq n (l : list bool) v :
  length l = n -> (forall i, (i < n)%nat -> l !! i = Some (Z.testbit v (Z.of_nat i))) -> l = bits n v.
Proof.
  intros Hl H. apply list_eq. intros i. destruct (decide (i < n)%nat).
  - rewrite H, lookup_bits by done. done.
  - rewrite !lookup_ge_None_2; rewrite ?length_bits; [done|lia|lia].
Qed.

Lemma bits_app a b v : bits (a + b) v = bits a v ++ bits b (Z.shiftr v (Z.of_nat a)).
Proof.
  symmetry. apply bits_eq; [by rewrite length_app, !length_bits|]. intros i Hi.
  destruct (decide (i < a)%nat).
  - rewrite lookup_app_l, lookup_bits by (rewrite ?length_bits; lia). done.
  - rewrite lookup_app_r, length_bits, lookup_bits by (rewrite ?length_bits; lia). f_equal.
    rewrite Z.shiftr_spec by lia. f_equal. lia.
Qed.

Lemma bits_ext n v v' : (forall i, 0 <= i < Z.of_nat n -> Z.testbit v i = Z.testbit v' i) -> bits n v = bits n v'.
Proof.
  intros H. apply bits_eq; [apply length_bits|]. intros i Hi. rewrite lookup_bits, H by lia. done.
Qed.

Lemma bits_inj n v v' : in_u (Z.of_nat n) v -> in_u (Z.of_nat n) v' -> bits n v = bits n v' -> v = v'.
Proof.
  intros Hv Hv' E. apply Z.bits_inj'. intros i Hi. destruct (decide (i < Z.of_nat n)).
  - assert (bits n v !! Z.to_nat i = bits n v' !! Z.to_nat i) as El by (by rewrite E).
    rewrite !lookup_bits, Z2Nat.id in El by lia. by injection El.
  - rewrite !(in_u_testbit (Z.of_nat n)) by (done || lia). done.
Qed.

Lemma bits_drop a n v : (a <= n)%nat -> drop a (bits n v) = bits (n - a) (Z.shiftr v (Z.of_nat a)).
Proof.
  intros H. replace n with (a + (n - a))%nat at 1 by lia. rewrite bits_app.
  rewrite drop_app_ge by (rewrite length_bits; lia). by rewrite length_bits, Nat.sub_diag, drop_0.
Qed.

Lemma bits_take a n v : (a <= n)%nat -> take a (bits n v) = bits a v.
Proof.
  intros H. replace n with (a + (n - a))%nat by lia. rewrite bits_app.
  rewrite take_app_le by (rewrite length_bits; lia). apply take_ge. rewrite length_bits. lia.
Qed.

(** Joining a value of [a] bits with the next [b] bits. *)
Lemma bits_join a b x y :
  in_u (Z.of_nat a) x -> bits (a + b) (Z.lor x (Z.shiftl y (Z.of_nat a))) = bits a x ++ bits b y.
Proof.
  intros Hx. rewrite bits_app. f_equal; apply bits_ext; intros i Hi.
  - rewrite Z.lor_spec, testbit_shiftl, (Z.testbit_neg_r y) by lia. by rewrite andb_false_r, orb_false_r.
  - rewrite Z.shiftr_spec, Z.lor_spec, testbit_shiftl, (in_u_testbit (Z.of_nat a) x) by (done || lia).
    rewrite bool_decide_eq_true_2 by lia. simpl. f_equal. lia.
Qed.

Lemma bits_mask n k v : (n <= k)%nat -> bits n (Z.land v (low_mask (Z.of_nat k))) = bits n v.
Proof.
  intros H. apply bits_ext. intros i Hi. rewrite low_mask_ones, Z.land_spec, testbit_ones by lia.
  rewrite bool_decide_eq_true_2 by lia. by rewrite andb_true_r.
Qed.

Lemma bits_wrap n w v : (Z.of_nat n <= w) -> bits n (wrap w v) = bits n v.
Proof.
  intros H. apply bits_ext. intros i Hi. rewrite wrap_testbit by lia. by rewrite bool_decide_eq_true_2 by lia.
Qed.

Lemma land_mask_in_u k v : in_u (Z.of_nat k) (Z.land v (low_mask (Z.of_nat k))).
Proof. apply land_ones_in_u; [apply low_mask_ones|lia]. Qed.

(** ** Reading *)

Inductive dev_words : device_t -> list Z -> Prop :=
| words_nil d : dev_words d []
| words_cons d w d' ws : device_get d = Some (w, d') -> in_u 32 w -> dev_words d' ws -> dev_words d (w :: ws).

(** [unread b bs]: the next bits that [b] yields are [bs]. *)
Definition unread (b : bitbuffer_t) (bs : list bool) : Prop :=
  exists ws, dev_words (device b) ws /\ bs = drop (Z.to_nat (offset_read b)) (bits 32 (pending_read b)) ++ concat (bits 32 <$> ws) /\
    in_u 32 (pending_read b) /\ 0 <= offset_read b <= 32.

(** A read of [n] bits out of [bs] returns them and leaves the rest. *)
Definition reads (r : option (Z * bitbuffer_t)) (b : bitbuffer_t) (n : nat) (bs : list bool) : Prop :=
  exists v b', r = Some (v, b') /\ in_u (Z.of_nat n) v /\ bits n v = take n bs /\ unread b' (drop n bs) /\
    count_read b' = u64 (count_read b + Z.of_nat n) /\
    offset_write b' = offset_write b /\ pending_write b' = pending_write b.

Lemma unread_refill b bs :
  unread b bs -> bs <> [] ->
  exists b', (if 32 <=? offset_read b then bitbuffer_get b else Some b) = Some b' /\ unread b' bs /\ offset_read b' < 32 /\
    count_read b' = count_read b /\ offset_write b' = offset_write b /\ pending_write b' = pending_write b.
Proof.
  intros (ws & Hd & Hbs & Hp & Ho) Hne. case_if; [|exists b; repeat split; try done; [by exists ws|lia]].
  assert (offset_read b = 32) as E by lia. rewrite E, drop_ge in Hbs by (rewrite length_bits; done). simpl in Hbs.
  inversion Hd as [|? w d' ws' Hg Hw Hd']; subst; [done|]. unfold bitbuffer_get. rewrite Hg. simpl.
  eexists. split; [done|]. simpl. repeat split; try lia. by exists ws'.
Qed.

Lemma unread_part b bs (k : nat) :
  unread b bs -> offset_read b + Z.of_nat k <= 32 ->
  take k bs = bits k (Z.shiftr (pending_read b) (offset_read b)) /\
  unread (skip_read b (offset_read b + Z.of_nat k) (Z.of_nat k)) (drop k bs).
Proof.
  intros (ws & Hd & -> & Hp & Ho) Hk. rewrite bits_drop by lia. rewrite Z2Nat.id by lia. split.
  - rewrite take_app_le by (rewrite length_bits; lia). apply bits_take. lia.
  - exists ws. simpl. split; [done|]. split; [|split; [done|lia]].
    rewrite drop_app_le by (rewrite length_bits; lia). f_equal. rewrite !bits_drop by lia.
    rewrite Z.shiftr_shiftr by lia. f_equal; [lia|]. f_equal. lia.
Qed.

Lemma mask_all x : in_u 32 x -> Z.land x (low_mask 32) = x.
Proof. intros H. rewrite land_low_mask by done. by apply Z.mod_small. Qed.

(** The bits of [curbits] that a step takes from the pending word. *)
Lemma part_value b (k : nat) :
  in_u 32 (pending_read b) -> 0 <= offset_read b -> offset_read b + Z.of_nat k <= 32 ->
  (if Z.of_nat k =? 32 then pending_read b
   else Z.land (Z.shiftr (pending_read b) (offset_read b)) (low_mask (Z.of_nat k))) =
  Z.land (Z.shiftr (pending_read b) (offset_read b)) (low_mask (Z.of_nat k)).
Proof.
  intros Hp Ho Hk. case_if; [|done]. replace (Z.of_nat k) with 32 by lia.
  replace (offset_read b) with 0 by lia. rewrite Z.shiftr_0_r. by rewrite mask_all.
Qed.

Lemma join_in_u (a n : nat) x y :
  in_u (Z.of_nat a) x -> in_u (Z.of_nat n) y -> in_u (Z.of_nat (a + n)) (Z.lor x (Z.shiftl y (Z.of_nat a))).
Proof.
  intros Hx Hy. apply in_u_of_testbit; [lia| |].
  - apply Z.lor_nonneg. split; [apply Hx|]. apply Z.shiftl_nonneg. apply Hy.
  - intros i Hi. rewrite Z.lor_spec, testbit_shiftl, (in_u_testbit (Z.of_nat a) x), (in_u_testbit (Z.of_nat n) y) by (done || lia).
    by rewrite andb_false_r.
Qed.

Lemma shl_join (w : Z) (a n : nat) y :
  in_u (Z.of_nat n) y -> Z.of_nat (a + n) <= w -> shl w y (Z.of_nat a) = Z.shiftl y (Z.of_nat a).
Proof.
  intros Hy Hw. unfold shl. apply wrap_small. rewrite Z.shiftl_mul_pow2 by lia. destruct Hy as [Hy0 Hy].
  split; [apply Z.mul_nonneg_nonneg; lia|]. apply Z.lt_le_trans with (2 ^ Z.of_nat n * 2 ^ Z.of_nat a).
  - apply Z.mul_lt_mono_pos_r; [apply pow2_pos; lia|done].
  - rewrite <- Z.pow_add_r by lia. apply Z.pow_le_mono_r; lia.
Qed.

Lemma read32_ok b bs (n : nat) :
  unread b bs -> (n <= 32)%nat -> (n <= length bs)%nat -> in_u 64 (count_read b) ->
  reads (bitbuffer_read32 b (Z.of_nat n)) b n bs.
Proof.
  intros Hu Hn Hl Hc. unfold bitbuffer_read32. case_if.
  { assert (n = 0)%nat as -> by lia. exists 0, b. rewrite Z.add_0_r, (wrap_small 64) by done. done. }
  replace (32 <? Z.of_nat n) with false by lia.
  destruct (unread_refill b bs Hu) as (b1 & -> & Hu1 & Ho & Hc1 & Hw1 & Hw2); [by intros ->; simpl in Hl; lia|].
  pose proof Hu1 as (_ & _ & _ & Hp & Ho1). cbn [mbind option_bind].
  assert (exists k : nat, (if Z.of_nat n <? 32 - offset_read b1 then Z.of_nat n else 32 - offset_read b1) = Z.of_nat k
    /\ (k <= n)%nat /\ offset_read b1 + Z.of_nat k <= 32 /\ (k = n \/ offset_read b1 + Z.of_nat k = 32)) as (k & -> & Hk & Hk32 & Hkn).
  { case_if; [exists n; lia|]. exists (Z.to_nat (32 - offset_read b1)). lia. }
  rewrite part_value by (done || lia). set (x := Z.land _ (low_mask (Z.of_nat k))).
  destruct (unread_part b1 bs k Hu1 Hk32) as [Ht Hu2]. set (b2 := skip_read b1 _ _) in *.
  assert (in_u (Z.of_nat k) x) as Hx by apply land_mask_in_u.
  assert (bits k x = take k bs) as Hxb by (unfold x; by rewrite bits_mask).
  case_if.
  { assert (k = n) as -> by lia. exists x, b2. subst b2. simpl. rewrite Hc1, Hw1, Hw2. repeat split; try done; apply Hx. }
  set (n2 := (n - k)%nat). assert (Z.of_nat n - Z.of_nat k = Z.of_nat n2) as -> by lia.
  destruct (unread_refill b2 (drop k bs) Hu2) as (b3 & E & Hu3 & Ho3 & Hc3 & Hw3 & Hw4).
  { intros E. apply (f_equal length) in E. rewrite length_drop in E. simpl in E. lia. }
  replace (32 <=? offset_read b2) with true in E by (subst b2; simpl; lia). rewrite E. cbn [mbind option_bind].
  assert (offset_read b3 = 0) as Ho0.
  { unfold bitbuffer_get in E. destruct (device_get (device b2)) as [[w d]|]; [|done]. simpl in E. by injection E as <-. }
  destruct (unread_part b3 (drop k bs) n2 Hu3) as [Ht3 Hu4]; [lia|].
  rewrite Ho0, Z.shiftr_0_r in *. rewrite Z.add_0_l in Hu4.
  pose proof (land_mask_in_u n2 (pending_read b3)) as Hy. set (y := Z.land (pending_read b3) _) in *.
  rewrite (shl_join 32 k n2) by (done || lia).
  assert (n = k + n2)%nat as En by lia. clearbody n2. subst n. do 2 eexists. split; [done|].
  split; [by apply join_in_u|]. rewrite bits_join, Hxb, <- take_take_drop, Ht3, <- drop_drop by done.
  split; [f_equal; unfold y; by rewrite bits_mask|]. split; [done|]. simpl. subst b2. simpl in *.
  rewrite Hc3, Hc1, Hw3, Hw1, Hw4, Hw2. repeat split. autorewrite with cint. f_equal. lia.
Qed.

Lemma reads_count r b n bs v b' : reads r b n bs -> r = Some (v, b') -> in_u 64 (count_read b').
Proof. intros (? & ? & -> & _ & _ & _ & Hc & _) [= -> ->]. rewrite Hc. by apply wrap_in_u. Qed.

(** Two reads in a row join their bits. *)
Lemma reads_join r1 r2 w b v1 b1 v2 b2 (n1 n2 : nat) bs :
  reads r1 b n1 bs -> r1 = Some (v1, b1) ->
  reads r2 b1 n2 (drop n1 bs) -> r2 = Some (v2, b2) -> Z.of_nat (n1 + n2) <= w ->
  reads (Some (Z.lor v1 (shl w v2 (Z.of_nat n1)), b2)) b (n1 + n2) bs.
Proof.
  intros (? & ? & E1 & H1 & B1 & U1 & C1 & W1 & P1) -> (? & ? & E2 & H2 & B2 & U2 & C2 & W2 & P2) -> Hw.
  injection E1 as <- <-. injection E2 as <- <-. do 2 eexists. split; [done|].
  rewrite (shl_join w n1 n2) by done. split; [by apply join_in_u|].
  rewrite bits_join, B1, B2, take_take_drop by done. split; [done|]. rewrite <- drop_drop. split; [done|].
  rewrite C2, C1, W2, W1, P2, P1. repeat split. autorewrite with cint. f_equal. lia.
Qed.

Lemma read64_ok b bs (n : nat) :
  unread b bs -> (n <= 64)%nat -> (n <= length bs)%nat -> in_u 64 (count_read b) ->
  reads (bitbuffer_read64 b (Z.of_nat n)) b n bs.
Proof.
  intros Hu Hn Hl Hc. unfold bitbuffer_read64. case_if; [apply read32_ok; lia || done|].
  replace (64 <? Z.of_nat n) with false by lia.
  pose proof (read32_ok b bs 32 Hu ltac:(lia) ltac:(lia) Hc) as R1.
  pose proof R1 as (v0 & b0 & E0 & _ & _ & U0 & _). change (Z.of_nat 32) with 32 in E0, R1.
  pose proof (reads_count _ _ _ _ _ _ R1 E0) as Hc0.
  assert (exists k, n = 32 + k)%nat as [k ->] by (exists (n - 32)%nat; lia).
  pose proof (read32_ok b0 (drop 32 bs) k U0 ltac:(lia) ltac:(rewrite length_drop; lia) Hc0) as R2.
  pose proof R2 as (v1 & b1 & E1 & _). rewrite E0. cbn [mbind option_bind].
  replace (Z.of_nat (32 + k) - 32) with (Z.of_nat k) by lia. rewrite E1. cbn [mbind option_bind].
  exact (reads_join _ _ 64 b v0 b0 v1 b1 32 k bs R1 E0 R2 E1 ltac:(lia)).
Qed.

(** The value of the two words of a [uint128_t]. *)
Definition join128 (r : option (Z * Z * bitbuffer_t)) : option (Z * bitbuffer_t) :=
  '(w0, w1, b) ← r; Some (Z.lor w0 (Z.shiftl w1 64), b).

Lemma read128_ok b bs (n : nat) :
  unread b bs -> (n <= 128)%nat -> (n <= length bs)%nat -> in_u 64 (count_read b) ->
  reads (join128 (bitbuffer_read128 b (Z.of_nat n))) b n bs.
Proof.
  intros Hu Hn Hl Hc. unfold bitbuffer_read128. case_if.
  { pose proof (read64_ok b bs n Hu ltac:(lia) Hl Hc) as R. pose proof R as (v & b' & E & _). rewrite E in *.
    unfold join128. cbn [mbind option_bind]. by rewrite Z.shiftl_0_l, Z.lor_0_r. }
  replace (128 <? Z.of_nat n) with false by lia.
  pose proof (read64_ok b bs 64 Hu ltac:(lia) ltac:(lia) Hc) as R1.
  pose proof R1 as (v0 & b0 & E0 & _ & _ & U0 & _). change (Z.of_nat 64) with 64 in E0, R1.
  pose proof (reads_count _ _ _ _ _ _ R1 E0) as Hc0.
  assert (exists k, n = 64 + k)%nat as [k ->] by (exists (n - 64)%nat; lia).
  pose proof (read64_ok b0 (drop 64 bs) k U0 ltac:(lia) ltac:(rewrite length_drop; lia) Hc0) as R2.
  pose proof R2 as (v1 & b1 & E1 & Hv1 & _). rewrite E0. cbn [mbind option_bind].
  replace (Z.of_nat (64 + k) - 64) with (Z.of_nat k) by lia. rewrite E1. unfold join128. cbn [mbind option_bind].
  pose proof (reads_join _ _ 128 b v0 b0 v1 b1 64 k bs R1 E0 R2 E1 ltac:(lia)) as R.
  rewrite (shl_join 128 64 k) in R by (done || lia). exact R.
Qed.

(** Reading [n] bits of a bit buffer whose next bits are [bs] gives the value
    of the first [n] of them, lowest bit first, and leaves the others; the count
    of bits read advances by [n] and the write side is not touched.  A count of
    more than 128 bits reads 128. *)
Theorem bitbuffer_read_next_bits b bs (n : Z) :
  unread b bs -> 0 <= n -> Z.min n 128 <= Z.of_nat (length bs) -> in_u 64 (count_read b) ->
  reads (join128 (bitbuffer_read128 b n)) b (Z.to_nat (Z.min n 128)) bs.
Proof.
  intros Hu Hn Hl Hc.
  assert (bitbuffer_read128 b n = bitbuffer_read128 b (Z.of_nat (Z.to_nat (Z.min n 128)))) as ->.
  { rewrite Z2Nat.id by lia. unfold bitbuffer_read128. destruct (Z.min_spec n 128) as [[_ ->]|[? ->]]; [done|].
    replace (n <=? 64) with false by lia. cbn [Z.leb Z.compare]. case_if; [done|]. by assert (n = 128) as -> by lia. }
  apply read128_ok; [done|lia..|done].
Qed.

(** ** Writing *)

(** [written d b bs]: since its device was [d], [b] was given the bits [bs]. *)
Definition written (d : device_t) (b : bitbuffer_t) (bs : list bool) : Prop :=
  exists ws, device b = foldl device_put d ws /\ Forall (in_u 32) ws /\
    bs = concat (bits 32 <$> ws) ++ bits (Z.to_nat (offset_write b)) (pending_write b) /\
    in_u (offset_write b) (pending_write b) /\ 0 <= offset_write b < 32.

Lemma written_put d b bs (k : nat) v cnt :
  written d b bs -> in_u (Z.of_nat k) v -> 0 < Z.of_nat k -> offset_write b + Z.of_nat k <= 32 ->
  let b1 := set_pending b (Z.lor (pending_write b) (shl 32 v (offset_write b))) (offset_write b + Z.of_nat k) cnt in
  written d (if offset_write b1 =? 32 then bitbuffer_put b1 else b1) (bs ++ bits k v).
Proof.
  intros (ws & Hd & Hws & -> & Hp & Ho) Hv Hk Hk32 b1.
  set (a := Z.to_nat (offset_write b)) in *. assert (offset_write b = Z.of_nat a) as Ea by (subst a; lia).
  assert (offset_write b1 = Z.of_nat (a + k)) as E1 by (subst b1; simpl; lia).
  rewrite Ea in Hp.
  assert (bits (a + k) (pending_write b1) = bits a (pending_write b) ++ bits k v) as E2
    by (subst b1; simpl; rewrite Ea, (shl_join 32 a k) by (done || lia); by apply bits_join).
  assert (in_u (Z.of_nat (a + k)) (pending_write b1)) as E3
    by (subst b1; simpl; rewrite Ea, (shl_join 32 a k) by (done || lia); by apply join_in_u).
  rewrite <- app_assoc, <- E2. case_if.
  - exists (ws ++ [pending_write b1]). assert (Z.of_nat (a + k) = 32) as E by lia. rewrite E in E3.
    assert (a + k = 32)%nat as -> by lia. unfold bitbuffer_put. simpl. split; [rewrite foldl_app; simpl; by rewrite <- Hd|].
    split; [apply Forall_app; split; [done|constructor; [exact E3|constructor]]|]. split; [|split; [|lia]].
    + rewrite fmap_app, concat_app. simpl. by rewrite !app_nil_r.
    + unfold in_u. change (2 ^ 0) with 1. lia.
  - exists ws. rewrite E1, Nat2Z.id. repeat split; try done; [apply E3..|lia|lia].
Qed.

Lemma write32_ok d b bs v (n : nat) :
  written d b bs -> in_u 32 v -> (n <= 32)%nat -> written d (bitbuffer_write32 b v (Z.of_nat n)) (bs ++ bits n v).
Proof.
  intros Hw Hv Hn. unfold bitbuffer_write32. case_if.
  { assert (n = 0)%nat as -> by lia. by rewrite app_nil_r. }
  replace (32 <? Z.of_nat n) with false by lia. pose proof Hw as (_ & _ & _ & _ & _ & Ho).
  assert (exists k : nat, (if Z.of_nat n <? 32 - offset_write b then Z.of_nat n else 32 - offset_write b) = Z.of_nat k
    /\ (0 < k <= n)%nat /\ offset_write b + Z.of_nat k <= 32 /\ (k = n \/ offset_write b + Z.of_nat k = 32)) as (k & -> & Hk & Hk32 & Hkn).
  { case_if; [exists n; lia|]. exists (Z.to_nat (32 - offset_write b)). lia. }
  assert ((if Z.of_nat k =? 32 then v else Z.land v (low_mask (Z.of_nat k))) = Z.land v (low_mask (Z.of_nat k))) as ->.
  { case_if; [|done]. replace (Z.of_nat k) with 32 by lia. by rewrite mask_all. }
  pose proof (written_put d b bs k _ (u64 (count_write b + Z.of_nat n)) Hw (land_mask_in_u k v) ltac:(lia) Hk32) as Hw1.
  rewrite bits_mask in Hw1 by done. cbv zeta in Hw1. set (b1 := set_pending b _ _ _) in *.
  set (b2 := if offset_write b1 =? 32 then _ else _) in *. case_if.
  { by assert (k = n) as <- by lia. }
  set (m := (n - k)%nat). assert (Z.of_nat n - Z.of_nat k = Z.of_nat m) as -> by lia.
  assert (n = k + m)%nat as En by lia. rewrite En, bits_app, app_assoc. clearbody m.
  destruct Hw1 as (ws & Hd & Hws & E & Hp & _). exists ws. simpl. rewrite Nat2Z.id.
  assert (b2 = bitbuffer_put b1) as Eb by (subst b2; replace (offset_write b1 =? 32) with true by (subst b1; simpl; lia); done).
  rewrite Eb in *. simpl in E. rewrite app_nil_r in E. split; [done|]. split; [done|].
  split; [by rewrite E, bits_mask|]. split; [apply land_mask_in_u|lia].
Qed.

Lemma write64_ok d b bs v (n : nat) :
  written d b bs -> (n <= 64)%nat -> written d (bitbuffer_write64 b v (Z.of_nat n)) (bs ++ bits n v).
Proof.
  intros Hw Hn. unfold bitbuffer_write64. case_if.
  - rewrite <- (bits_wrap n 32 v) by lia. apply write32_ok; [done|by apply wrap_in_u|lia].
  - replace (64 <? Z.of_nat n) with false by lia. assert (exists k, n = 32 + k)%nat as [k ->] by (exists (n - 32)%nat; lia).
    rewrite bits_app, app_assoc, <- (bits_wrap 32 32 v), <- (bits_wrap k 32 (Z.shiftr _ _)) by lia.
    replace (Z.of_nat (32 + k) - 32) with (Z.of_nat k) by lia.
    apply write32_ok; [|by apply wrap_in_u|lia]. apply (write32_ok d b bs (u32 v) 32); [done|by apply wrap_in_u|lia].
Qed.

(** Writing the two words of a 128-bit value. *)
Lemma write128_ok d b bs v (n : nat) :
  written d b bs -> (n <= 128)%nat ->
  written d (bitbuffer_write128 b (u64 v) (Z.shiftr v 64) (Z.of_nat n)) (bs ++ bits n v).
Proof.
  intros Hw Hn. unfold bitbuffer_write128. case_if.
  - rewrite <- (bits_wrap n 64 v) by lia. apply write64_ok; [done|lia].
  - replace (128 <? Z.of_nat n) with false by lia. assert (exists k, n = 64 + k)%nat as [k ->] by (exists (n - 64)%nat; lia).
    rewrite bits_app, app_assoc, <- (bits_wrap 64 64 v) by lia.
    replace (Z.of_nat (64 + k) - 64) with (Z.of_nat k) by lia.
    apply write64_ok; [|lia]. apply (write64_ok d b bs (u64 v) 64); [done|lia].
Qed.

(** Flushing pads the bits to whole words. *)
Lemma align_write_ok d b bs :
  written d b bs ->
  exists ws pad, device (bitbuffer_align_write b false) = foldl device_put d ws /\ Forall (in_u 32) ws /\
    concat (bits 32 <$> ws) = bs ++ pad /\ (length pad < 32)%nat.
Proof.
  intros (ws & Hd & Hws & -> & Hp & Ho). unfold bitbuffer_align_write. rewrite andb_true_r. case_if.
  - exists ws, []. replace (offset_write b) with 0 by lia. simpl. rewrite !app_nil_r. repeat split; [done|done|lia].
  - exists (ws ++ [pending_write b]). set (a := Z.to_nat (offset_write b)).
    exists (bits (32 - a) (Z.shiftr (pending_write b) (Z.of_nat a))). simpl. split; [by rewrite foldl_app, <- Hd|].
    split; [|split; [|rewrite length_bits; lia]].
    + apply Forall_app. split; [done|]. constructor; [|done]. split; [apply Hp|].
      eapply Z.lt_le_trans; [apply Hp|]. apply Z.pow_le_mono_r; lia.
    + rewrite fmap_app, concat_app, <- app_assoc. f_equal. cbn [fmap list_fmap concat]. rewrite app_nil_r.
      replace (bits 32 (pending_write b)) with (bits (a + (32 - a)) (pending_write b)) by (f_equal; lia). apply bits_app.
Qed.

(** ** Round trip

    A program of values and bit counts, and the same counts read back. *)

Definition write_all (b : bitbuffer_t) (items : list (Z * nat)) : bitbuffer_t :=
  foldl (fun b item => bitbuffer_write128 b (u64 item.1) (Z.shiftr item.1 64) (Z.of_nat item.2)) b items.

Fixpoint read_all (b : bitbuffer_t) (counts : list nat) : option (list Z) :=
  match counts with
  | [] => Some []
  | n :: counts =>
      '(v, b) ← join128 (bitbuffer_read128 b (Z.of_nat n));
      vs ← read_all b counts; Some (v :: vs)
  end.

Definition item_bits (items : list (Z * nat)) : list bool := concat ((fun item => bits item.2 item.1) <$> items).

Lemma write_all_ok d b bs items :
  written d b bs -> Forall (fun item => item.2 <= 128)%nat items -> written d (write_all b items) (bs ++ item_bits items).
Proof.
  intros Hw Hi. revert b bs Hw. induction Hi as [|[v n] items Hn _ IH]; intros b bs Hw; [by rewrite app_nil_r|].
  unfold item_bits. simpl. rewrite app_assoc. apply IH. by apply write128_ok.
Qed.

Lemma read_all_ok b items pad :
  unread b (item_bits items ++ pad) -> in_u 64 (count_read b) ->
  Forall (fun item => item.2 <= 128 /\ in_u (Z.of_nat item.2) item.1)%nat items ->
  read_all b (snd <$> items) = Some (fst <$> items).
Proof.
  intros Hu Hc Hi. revert b Hu Hc. induction Hi as [|[v n] items [Hn Hv] _ IH]; intros b Hu Hc; [done|].
  rewrite !fmap_cons. cbn [read_all fst snd] in *. unfold item_bits in Hu. simpl in Hu. rewrite <- app_assoc in Hu.
  destruct (read128_ok b _ n Hu Hn) as (v' & b' & -> & Hv' & Hb & Hu' & Hc' & _);
    [rewrite length_app, length_bits; lia|done|]. cbn [mbind option_bind].
  rewrite take_app_le in Hb by (rewrite length_bits; lia). rewrite take_ge in Hb by (rewrite length_bits; lia).
  rewrite (bits_inj n v' v) by done. rewrite drop_app_ge in Hu' by (rewrite length_bits; lia).
  rewrite length_bits, Nat.sub_diag in Hu'. rewrite (IH b'); [done|exact Hu'|]. rewrite Hc'. by apply wrap_in_u.
Qed.

Lemma initialized_unread d ws : dev_words d ws -> unread (initialized d) (concat (bits 32 <$> ws)).
Proof. intros H. exists ws. repeat split; try done. Qed.

Lemma initialized_written d : written d (initialized d) [].
Proof. exists []. repeat split; try done. Qed.

Lemma length_concat_bits ws : length (concat (bits 32 <$> ws)) = (32 * length ws)%nat.
Proof. induction ws as [|w ws IH]; [done|]. rewrite fmap_cons, concat_cons, length_app, length_bits, IH. cbn [length]. lia. Qed.

(** If the words that [d0] was given are the words that [d1] yields, the values
    written through [d0] are read through [d1]. *)
Lemma device_roundtrip d0 d1 items :
  Forall (fun item => item.2 <= 128 /\ in_u (Z.of_nat item.2) item.1)%nat items ->
  (forall ws, device (bitbuffer_align_write (write_all (initialized d0) items) false) = foldl device_put d0 ws ->
     Forall (in_u 32) ws -> (32 * length ws < length (item_bits items) + 32)%nat -> dev_words d1 ws) ->
  read_all (initialized d1) (snd <$> items) = Some (fst <$> items).
Proof.
  intros Hi Hd.
  pose proof (write_all_ok d0 (initialized d0) [] items (initialized_written d0)) as Hw.
  destruct (align_write_ok d0 _ _ (Hw (Forall_impl _ _ _ Hi (fun item H => proj1 H)))) as (ws & pad & E & Hws & Eb & Hp).
  simpl in Eb. apply (read_all_ok _ _ pad); [|done|done]. rewrite <- Eb. apply initialized_unread, Hd; [done|done|].
  apply (f_equal length) in Eb. rewrite length_app in Eb.
  rewrite length_concat_bits in Eb. lia.
Qed.

(** *** Memory *)

Definition word_bytes (swap : bool) (w : Z) : list Z := le_bytes 4 (swap_if swap 4 w).

Lemma memory_put mem p e st swap ws :
  (p + 4 * length ws <= length mem)%nat -> Z.of_nat (p + 4 * length ws) <= e ->
  foldl device_put (mk_device mem (Z.of_nat p) e st swap) ws =
  mk_device (write_at p (concat (word_bytes swap <$> ws)) mem) (Z.of_nat (p + 4 * length ws)) e st swap.
Proof.
  revert mem p. induction ws as [|w ws IH]; intros mem p Hm He; cbn [length] in *.
  { simpl. rewrite write_at_nil, Nat.add_0_r. done. }
  cbn [foldl]. unfold device_put at 2. cbn [bb_memory bb_buffer bb_end bb_stream bb_swap].
  replace (Z.of_nat p <? e) with true by lia. rewrite Nat2Z.id. fold (word_bytes swap w).
  assert (length (word_bytes swap w) = 4%nat) as Hl by apply length_le_bytes.
  replace (Z.of_nat p + 4) with (Z.of_nat (p + 4)) by lia. rewrite IH; [|rewrite length_write_at; lia|lia].
  f_equal; [|lia]. rewrite fmap_cons, concat_cons. rewrite <- Hl at 1. apply write_at_app. lia.
Qed.

Lemma memory_words mem p e st swap ws tail :
  Forall (in_u 32) ws -> drop p mem = concat (word_bytes swap <$> ws) ++ tail -> Z.of_nat (p + 4 * length ws) <= e ->
  dev_words (mk_device mem (Z.of_nat p) e st swap) ws.
Proof.
  intros Hws. revert p. induction Hws as [|w ws Hw _ IH]; intros p E He; [constructor|].
  cbn [length] in *. rewrite fmap_cons, concat_cons, <- app_assoc in E.
  assert (length (word_bytes swap w) = 4%nat) as Hl by apply length_le_bytes.
  eapply (words_cons _ w); [|done|apply (IH (p + 4)%nat)]; [| |lia].
  - unfold device_get. cbn [bb_memory bb_buffer bb_end bb_stream bb_swap]. replace (Z.of_nat p <? e) with true by lia.
    unfold sub. rewrite Nat2Z.id, E, take_app_le, take_ge by lia. unfold word_bytes.
    rewrite swap_if_bytes, wrap_small by done. by replace (Z.of_nat (p + 4)) with (Z.of_nat p + 4) by lia.
  - rewrite <- drop_drop, E, drop_app_ge, Hl by lia. done.
Qed.

(** C22: values of up to 128 bits each, written to a block of memory through a bit
    buffer and flushed, are read back from that block by a bit buffer with the
    same byte order. *)
Theorem bitbuffer_memory_roundtrip mem swap items :
  Forall (fun item => item.2 <= 128 /\ in_u (Z.of_nat item.2) item.1)%nat items ->
  (length (item_bits items) + 32 <= 8 * length mem)%nat ->
  let w := bitbuffer_align_write (write_all (bitbuffer_initialize_buffer mem swap) items) false in
  read_all (bitbuffer_initialize_buffer (bb_memory (device w)) swap) (snd <$> items) = Some (fst <$> items).
Proof.
  intros Hi Hl w. apply (device_roundtrip (mk_device mem 0 (len mem) None swap)); [done|]. intros ws E Hws Hn.
  subst w. unfold bitbuffer_initialize_buffer. rewrite E. unfold len. change 0 with (Z.of_nat 0).
  rewrite memory_put by lia. cbn [bb_memory].
  assert (length (concat (word_bytes swap <$> ws)) = 4 * length ws)%nat as Hc.
  { clear. induction ws as [|w ws IH]; [done|]. rewrite fmap_cons, concat_cons, length_app, IH.
    unfold word_bytes. rewrite length_le_bytes. cbn [length]. lia. }
  apply (memory_words _ _ _ _ _ _ (drop (4 * length ws) mem)); [done| |rewrite length_write_at; lia].
  unfold write_at. cbn [Nat.add take app drop]. by rewrite Hc.
Qed.
End operations.

(** *** Streams *)

Section stream_device.
Context {S : Type} `{HI : !StreamImpl S} `{HL : !StreamLaws S} `{HW : !StreamWriteLaws S} `{HU : !Uninit} (fuel : nat).

Definition stream_words (s : S) (ws : list Z) : list Z := concat (int_bytes TU32 true (stream_is_swapped s) <$> ws).

Lemma length_stream_words s ws : length (stream_words s ws) = (4 * length ws)%nat.
Proof.
  unfold stream_words. induction ws as [|w ws IH]; [done|].
  rewrite fmap_cons, concat_cons, length_app, IH. unfold int_bytes. rewrite length_le_bytes. cbn [length type_bytes]. lia.
Qed.

Lemma stream_put s swap ws n :
  inv s -> stream_is_binary s = true -> flag (mode (header s)) STREAM_OUT = true ->
  Forall (in_u 32) ws -> room s (4 * length ws + n) ->
  exists s', foldl device_put (mk_device [] 0 0 (Some s) swap) ws = mk_device [] 0 0 (Some s') swap /\
    Stream.written s s' (stream_words s ws) n.
Proof.
  intros Hi Hb Ho Hws. revert s Hi Hb Ho. induction Hws as [|w ws Hw _ IH]; intros s Hi Hb Ho Hr.
  { exists s. split; [done|]. by apply written_nil. }
  cbn [foldl length] in *. unfold device_put at 2. cbn [bb_memory bb_buffer bb_end bb_stream bb_swap Z.ltb Z.compare].
  change (stream_write_uint32 s w) with (write_int TU32 s w). rewrite write_int_spec, Hb by done.
  set (a := int_bytes TU32 true (stream_is_swapped s) w). assert (length a = 4%nat) as Hl by apply length_le_bytes.
  assert (Stream.written s (snd (stream_write s a)) a (4 * length ws + n)) as Hw1.
  { apply write_written; [done|done|]. eapply room_le; [exact Hr|]. lia. }
  pose proof Hw1 as (Hi1 & _ & _ & Hh & Hr1).
  destruct (IH (snd (stream_write s a))) as (s' & E & Hw2); [done|unfold stream_is_binary in *; by rewrite Hh|by rewrite Hh|done|].
  exists s'. split; [exact E|].
  assert (stream_words s (w :: ws) = a ++ stream_words (snd (stream_write s a)) ws) as ->
    by (unfold stream_words, stream_is_swapped; by rewrite Hh).
  by eapply written_app.
Qed.

Lemma stream_dev_words s swap ws tail :
  inv s -> stream_is_binary s = true -> flag (mode (header s)) STREAM_IN = true ->
  Forall (in_u 32) ws -> rem s = stream_words s ws ++ tail -> dev_words fuel (mk_device [] 0 0 (Some s) swap) ws.
Proof.
  intros Hi Hb Ho Hws. revert s Hi Hb Ho. induction Hws as [|w ws Hw _ IH]; intros s Hi Hb Ho E; [constructor|].
  unfold stream_words in E. rewrite fmap_cons, concat_cons, <- app_assoc in E.
  destruct (read_int_binary TU32 s fuel w _ Hi Hb Ho Hw E) as (s' & Er & Ha).
  eapply (words_cons fuel _ w); [|done|apply (IH s')].
  - unfold device_get. cbn [bb_memory bb_buffer bb_end bb_stream bb_swap Z.ltb Z.compare]. cbn [read_int] in Er.
    rewrite Er. done.
  - apply Ha.
  - unfold stream_is_binary in *. by destruct Ha as (_ & _ & _ & ->).
  - by destruct Ha as (_ & _ & _ & ->).
  - rewrite (advanced_rem _ _ _ Ha), E, drop_app_ge by (unfold int_bytes; rewrite length_le_bytes; done).
    unfold int_bytes at 1. rewrite length_le_bytes, Nat.sub_diag, drop_0. unfold stream_words, stream_is_swapped.
    by destruct Ha as (_ & _ & _ & ->).
Qed.

(** Values of up to 128 bits each, written to a binary stream through a bit
    buffer and flushed, are read back by a bit buffer on that stream from the
    position where the writing started. *)
Theorem bitbuffer_stream_roundtrip s items :
  inv s -> stream_is_binary s = true ->
  flag (mode (header s)) STREAM_OUT = true -> flag (mode (header s)) STREAM_IN = true ->
  Forall (fun item => item.2 <= 128 /\ in_u (Z.of_nat item.2) item.1)%nat items ->
  room s (length (item_bits items) + 32) ->
  let w := bitbuffer_align_write (write_all (initialized (mk_device [] 0 0 (Some s) false)) items) false in
  exists s1, device w = mk_device [] 0 0 (Some s1) false /\
    let r := stream_seek s1 (Z.of_nat (pos s)) STREAM_SEEK_BEGIN in
    read_all fuel (initialized (mk_device [] 0 0 (Some r) false)) (snd <$> items) = Some (fst <$> items).
Proof.
  intros Hi Hb Ho Hin Hit Hr w.
  destruct (align_write_ok (mk_device [] 0 0 (Some s) false) (write_all (initialized (mk_device [] 0 0 (Some s) false)) items)
    (item_bits items)) as (ws0 & pad & E0 & Hws0 & Eb & Hp).
  { apply (write_all_ok _ _ []); [apply initialized_written|]. eapply Forall_impl; [exact Hit|]. by intros ? []. }
  apply (f_equal length) in Eb. rewrite length_app, length_concat_bits in Eb.
  destruct (stream_put s false ws0 0 Hi Hb Ho Hws0) as (s1 & E1 & Hw1); [eapply room_le; [exact Hr|lia]|].
  exists s1. split; [subst w; by rewrite E0|]. cbv zeta.
  apply (device_roundtrip fuel (mk_device [] 0 0 (Some s) false)); [done|]. intros ws E Hws Hn.
  destruct (stream_put s false ws 0 Hi Hb Ho Hws) as (s2 & E2 & Hw2); [eapply room_le; [exact Hr|lia]|].
  assert (s2 = s1) as -> by (rewrite E0, E1 in E; rewrite E2 in E; by injection E).
  destruct (seek_written s s1 _ 0 Hi Hw2) as (Hir & Hhr & Hrem).
  apply (stream_dev_words _ _ _ (drop (length (stream_words s ws)) (rem s))); try done.
  - unfold stream_is_binary in *. by rewrite Hhr.
  - by rewrite Hhr.
  - rewrite Hrem. unfold stream_words, stream_is_swapped. by rewrite Hhr.
Qed.
End stream_device.

(** ** Witnesses *)

#[local] Existing Instances BufferStream.zero_memory BufferStream.buffer_stream_vtable BufferStream.buffer_stream_laws BufferStream.buffer_stream_write_laws.
#[local] Abbreviation buffer_t := BufferStream.stream_buffer_t (only parsing).

Definition sample_items : list (Z * nat) := [(5, 3%nat); (0, 0%nat); (4000000000, 32%nat); (2 ^ 100 + 7, 101%nat); (1, 1%nat)].

Lemma sample_items_ok : Forall (fun item => item.2 <= 128 /\ in_u (Z.of_nat item.2) item.1)%nat sample_items.
Proof. unfold sample_items. repeat constructor; simpl; try lia; by compute. Qed.

Lemma bitbuffer_read_next_bits_witness :
  reads (S := buffer_t) 1 (join128 (bitbuffer_read128 1 (bitbuffer_initialize_buffer [1;2;3;4;5;6;7;8] false) 40))
    (bitbuffer_initialize_buffer [1;2;3;4;5;6;7;8] false) 40 (bits 64 578437695752307201).
Proof.
  apply (bitbuffer_read_next_bits (S := buffer_t) 1 (bitbuffer_initialize_buffer [1;2;3;4;5;6;7;8] false)
    (bits 64 578437695752307201) 40); [|done|done|done].
  exists [67305985; 134678021]. split; [|split; [reflexivity|done]].
  eapply words_cons; [reflexivity|done|]. eapply words_cons; [reflexivity|done|constructor].
Defined.

Lemma bitbuffer_memory_roundtrip_witness :
  read_all (S := buffer_t) 1
    (bitbuffer_initialize_buffer (bb_memory (device (bitbuffer_align_write
       (write_all (bitbuffer_initialize_buffer (replicate 24 0) true) sample_items) false))) true) (snd <$> sample_items) =
  Some (fst <$> sample_items).
Proof.
  apply (bitbuffer_memory_roundtrip (S := buffer_t) 1 (replicate 24 0) true sample_items);
    [apply sample_items_ok|vm_compute; lia].
Defined.

Lemma bitbuffer_stream_roundtrip_witness :
  exists s1, device (bitbuffer_align_write
      (write_all (initialized (mk_device [] 0 0 (Some (BufferStream.sample 35)) false)) sample_items) false) =
      mk_device [] 0 0 (Some s1) false /\
    read_all (S := buffer_t) 1 (initialized (mk_device [] 0 0
      (Some (stream_seek s1 (Z.of_nat (pos (BufferStream.sample 35))) STREAM_SEEK_BEGIN)) false)) (snd <$> sample_items) =
    Some (fst <$> sample_items).
Proof.
  apply (bitbuffer_stream_roundtrip 1 (BufferStream.sample 35) sample_items).
  - apply (BufferStream.buffer_stream_initialize_wf (Some [97;98;10;99]) 35 4 true true); done.
  - done.
  - done.
  - done.
  - apply sample_items_ok.
  - by split.
Defined.
End BitBuffer.
