(* ===== verification/Hash.v ===== *)
(** * String hash ([src/library/foundation_lib/foundation/hash.c])

    The 64-bit half of MurmurHash3 with its block mixing [bmix64], the
    fall-through switch on the last bytes and the finaliser [fmix64]; and the
    two steps, a shifted exclusive or and a multiplication, that the hash tables
    share. *)
From S2P Require Import Prelude.
From Stdlib Require Ascii String.

Module Hash.

(** [key ^= key >> n] and [key *= c]. *)
Definition xorshift (x n : Z) : Z := Z.lxor x (Z.shiftr x n).
Definition mul (w x c : Z) : Z := wrap w (x * c).

Definition HASH_SEED : Z := 0xbaadf00d.

(** [h1], [h2] and the multipliers [c1], [c2]. *)
Record state := mk_state { h1 : Z; h2 : Z; c1 : Z; c2 : Z }.

Definition bmix64 (s : state) (k1 k2 : Z) : state :=
  let k1 := mul 64 k1 (c1 s) in
  let k1 := rotl 64 k1 23 in
  let k1 := mul 64 k1 (c2 s) in
  let h1 := Z.lxor (h1 s) k1 in
  let h1 := u64 (h1 + h2 s) in
  let h2 := rotl 64 (h2 s) 41 in
  let k2 := mul 64 k2 (c2 s) in
  let k2 := rotl 64 k2 23 in
  let k2 := mul 64 k2 (c1 s) in
  let h2 := Z.lxor h2 k2 in
  let h2 := u64 (h2 + h1) in
  let h1 := u64 (h1 * 3 + 0x52dce729) in
  let h2 := u64 (h2 * 3 + 0x38495ab5) in
  let c1 := u64 (c1 s * 5 + 0x7b7d159c) in
  let c2 := u64 (c2 s * 5 + 0x6bce6396) in
  mk_state h1 h2 c1 c2.

Definition fmix64 (k : Z) : Z :=
  let k := xorshift k 33 in
  let k := mul 64 k 0xff51afd7ed558ccd in
  let k := xorshift k 33 in
  let k := mul 64 k 0xc4ceb9fe1a85ec53 in
  xorshift k 33.

(** The little-endian words of the key. *)
Definition getblock (key : list Z) (i : nat) : Z := le_uint (take 8 (drop (i * 8) key)).

Definition initial_state : state :=
  mk_state (Z.lxor 0x9368e53c2f6af274 HASH_SEED) (Z.lxor 0x586dcd208f7cd3fd HASH_SEED)
    0x87c37b91114253d5 0x4cf5ad432745937f.

Definition body (key : list Z) (nblocks : nat) : state :=
  foldl (fun s i => bmix64 s (getblock key (i * 2)) (getblock key (i * 2 + 1))) initial_state (seq 0 nblocks).

(** The switch falls through from the last byte down to the first, byte [i] of a
    word going to bits [8 * i]. *)
Fixpoint gather (i : Z) (tail : list Z) : Z :=
  match tail with
  | [] => 0
  | b :: tail => Z.lxor (gather (i + 1) tail) (shl 64 b (8 * i))
  end.

Definition finish (s : state) (len : Z) : Z :=
  let h2 := Z.lxor (h2 s) (u32 len) in
  let h1 := u64 (h1 s + h2) in
  let h2 := u64 (h2 + h1) in
  let h1 := fmix64 h1 in
  let h2 := fmix64 h2 in
  u64 (h1 + h2).

Definition hash (key : list Z) : Z :=
  let nblocks := (length key / 16)%nat in
  let s := body key nblocks in
  let tail := drop (nblocks * 16) key in
  let s := if (length key mod 16 =? 0)%nat then s
           else bmix64 s (gather 0 (take 8 tail)) (gather 0 (drop 8 tail)) in
  finish s (Z.of_nat (length key)).

(** ** The steps lose nothing *)

Lemma xorshift_in_u w x n : 0 <= n -> in_u w x -> in_u w (xorshift x n).
Proof. intros. unfold xorshift. auto with cint. Qed.

Lemma xorshift_inj w x y n : 0 < n -> in_u w x -> in_u w y -> xorshift x n = xorshift y n -> x = y.
Proof.
  unfold xorshift. intros Hn Hx Hy E. apply Z.lxor_eq.
  assert (Z.lxor x y = Z.shiftr (Z.lxor x y) n) as Ed.
  { zbits i. assert (Z.testbit (Z.lxor x (Z.shiftr x n)) i = Z.testbit (Z.lxor y (Z.shiftr y n)) i) as Ei by (by rewrite E).
    autorewrite with cbits in Ei. rewrite bool_decide_eq_true_2 in * by lia.
    destruct (Z.testbit x i), (Z.testbit y i), (Z.testbit x (i + n)), (Z.testbit y (i + n)); done. }
  assert (0 <= Z.lxor x y) as H0 by (apply Z.lxor_nonneg; unfold in_u in *; lia).
  rewrite Z.shiftr_div_pow2 in Ed by lia.
  assert (1 < 2 ^ n) by (apply Z.pow_gt_1; lia).
  destruct (decide (Z.lxor x y = 0)); [done|]. pose proof (Z.div_lt (Z.lxor x y) (2 ^ n)). lia.
Qed.

(** A factor with an inverse. *)
Lemma mul_inj w x y c d :
  in_u w x -> in_u w y -> wrap w (c * d) = 1 -> mul w x c = mul w y c -> x = y.
Proof.
  unfold mul. intros Hx Hy Hcd E. assert (forall z, in_u w z -> wrap w (wrap w (z * c) * d) = z) as Hinv.
  { intros z Hz. rewrite wrap_mul_l, <- Z.mul_assoc, <- wrap_mul_r, Hcd, Z.mul_1_r. by apply wrap_small. }
  by rewrite <- (Hinv x), <- (Hinv y), E.
Qed.

Lemma mul_in_u w x c : 0 <= w -> in_u w (mul w x c).
Proof. apply wrap_in_u. Qed.
#[export] Hint Resolve xorshift_in_u mul_in_u : cint.

Lemma fmix64_in_u k : in_u 64 k -> in_u 64 (fmix64 k).
Proof. intros. unfold fmix64. apply xorshift_in_u; [done|]. by apply mul_in_u. Qed.

(** The finaliser maps 64-bit values to 64-bit values without collision. *)
Theorem fmix64_injective x y : in_u 64 x -> in_u 64 y -> in_u 64 (fmix64 x) /\ (fmix64 x = fmix64 y -> x = y).
Proof.
  intros Hx Hy. split; [by apply fmix64_in_u|]. unfold fmix64. intros E.
  apply xorshift_inj with (w := 64) in E; [|done|by apply mul_in_u..].
  apply mul_inj with (d := 0x9cb4b2f8129337db) in E; [|auto 6 with cint lia..|done].
  apply xorshift_inj with (w := 64) in E; [|done|by apply mul_in_u..].
  apply mul_inj with (d := 0x4f74430c22a54005) in E; [|auto 6 with cint lia..|done].
  by apply xorshift_inj with (w := 64) in E.
Qed.

(** ** The switch on the tail is a zero-padded block *)

Lemma gather_le_uint (i : nat) l :
  bytes_ok l -> (i + length l <= 8)%nat -> gather (Z.of_nat i) l = shl 64 (le_uint l) (8 * Z.of_nat i).
Proof.
  revert i. induction l as [|b l IH]; intros i Hl Hn; [unfold shl; by rewrite Z.shiftl_0_l|].
  apply Forall_cons in Hl as [Hb Hl]. simpl in Hn. cbn [gather]. replace (Z.of_nat i + 1) with (Z.of_nat (i + 1)) by lia.
  rewrite IH by (done || lia). unfold le_uint. cbn [foldr]. fold (le_uint l).
  replace 256 with (2 ^ 8) by done. rewrite (proj1 (disjoint_add 8 b (le_uint l) Hb)).
  unfold shl. zbits j. rewrite (bool_decide_eq_true_2 (0 <= j)) by done. destruct (decide (j < 64)).
  - rewrite bool_decide_eq_true_2 by done. cbn [andb]. rewrite xorb_comm. f_equal.
    replace (j - 8 * Z.of_nat i - 8) with (j - 8 * Z.of_nat (i + 1)) by lia. case_bool_decide; [done|].
    by rewrite Z.testbit_neg_r by lia.
  - by rewrite bool_decide_eq_false_2 by lia.
Qed.

Lemma gather_word l : bytes_ok l -> (length l <= 8)%nat -> gather 0 l = le_uint l.
Proof.
  intros Hl Hn. change 0 with (Z.of_nat 0) at 1. rewrite (gather_le_uint 0 l) by (done || lia). unfold shl. rewrite Z.mul_0_r, Z.shiftl_0_r.
  apply wrap_small. pose proof (le_uint_range l Hl) as [H0 H1]. split; [done|]. eapply Z.lt_le_trans; [exact H1|].
  apply Z.pow_le_mono_r; lia.
Qed.

(** The hash of a key is the finaliser of its length and of the mixing of its
    16-byte blocks, the last one padded with zeros ([getblock] past the end of
    the key gives the value of the bytes that are there). *)
Theorem hash_padded_blocks key :
  bytes_ok key ->
  hash key = finish (body key ((length key + 15) / 16)) (Z.of_nat (length key)) /\ in_u 64 (hash key).
Proof.
  intros Hk. split; [|by apply wrap_in_u]. unfold hash. f_equal. set (n := (length key / 16)%nat).
  pose proof (Nat.div_mod (length key) 16 ltac:(lia)) as Hdm. fold n in Hdm.
  pose proof (Nat.mod_upper_bound (length key) 16 ltac:(lia)) as Hm.
  destruct (Nat.eqb_spec (length key mod 16) 0) as [E|E].
  - f_equal. apply (Nat.div_unique _ _ _ 15); lia.
  - replace ((length key + 15) / 16)%nat with (n + 1)%nat
      by (apply (Nat.div_unique _ _ _ (length key mod 16 - 1)); lia).
    unfold body. rewrite seq_app, foldl_app. cbn [seq foldl Nat.add]. unfold getblock.
    replace (drop ((n * 2 + 1) * 8) key) with (drop 8 (drop (n * 2 * 8) key)) by (rewrite drop_drop; f_equal; lia).
    replace (n * 2 * 8)%nat with (n * 16)%nat by lia.
    assert (length (drop (n * 16) key) < 16)%nat as Hl by (rewrite length_drop; lia).
    f_equal.
    + apply gather_word; [by apply Forall_take, Forall_drop|rewrite length_take; lia].
    + rewrite (take_ge (drop 8 _)) by (rewrite length_drop; lia).
      apply gather_word; [by apply Forall_drop, Forall_drop|rewrite length_drop; lia].
Qed.

Lemma fmix64_injective_witness : in_u 64 (fmix64 3) /\ (fmix64 3 = fmix64 4 -> 3 = 4).
Proof. apply (fmix64_injective 3 4); by compute. Defined.

Lemma hash_padded_blocks_witness :
  hash [1; 2; 3] = finish (body [1; 2; 3] 1) 3 /\ in_u 64 (hash [1; 2; 3]).
Proof. apply (hash_padded_blocks [1; 2; 3]). by repeat (constructor; [by compute|]). Defined.
End Hash.

(** ** The published hashes *)

Module HashStrings.
Import String Hash.
Open Scope string_scope.

Definition key_of (s : string) : list Z := map (fun c => Z.of_N (Ascii.N_of_ascii c)) (list_ascii_of_string s).

(** The strings of [src/library/foundation_lib/foundation/hashstrings.h] with the
    hash that the header gives for each. *)
Definition static_hashes : list (string * Z) := [
  ("foundation", 0x13f0d2e482a6eaad); ("default", 0xe1c3a22ea1763f7b); ("true", 0x89a73a33420257f5);
  ("false", 0xc095fcfff8bca4ab); ("locale", 0xfb3833132a868037); ("application", 0x1d0a3207798c58ba);
  ("user", 0x921c12dbd6f624f6); ("daemon", 0x27b6055e22f461b7); ("memory", 0x1ef05c31f30b3115);
  ("temporary_memory", 0x99a81dcbf3f5c346); ("memory_tracker", 0x344315811a5c41de);
  ("local", 0xd17754fcf40a2974); ("remote", 0x4d4ee1b3734e2c5c); ("none", 0xa90768116f8af366);
  ("test", 0x74326336c500c367); ("stream", 0x5798159f6f1f8b05); ("string", 0xa1cc1854ea614cb4);
  ("benchmark", 0xf06a63ae2ff7eace); ("tool", 0x4a8e770cf21d0529); ("config", 0x336f91cbb8948a62);
  ("environment", 0xaeb8326060894683); ("executable_name", 0xe04d18727d6aa0df);
  ("executable_directory", 0xb957eadb0ae3f969); ("executable_path", 0xcdae3cb1dc4a5d81);
  ("initial_working_directory", 0x8f4d99e8f8ae0e18); ("current_working_directory", 0x6b80ceb3924e8af3);
  ("application_directory", 0xbc4f42e916943280); ("temporary_directory", 0xb75730bc0dd1d067);
  ("system", 0xb72020e83e0eb654); ("debug", 0x71626bc355dbf213); ("fs", 0x4692a53ac19eddee);
  ("source", 0x2154da52f04042d3); ("event", 0x9af1e926101c32db); ("version", 0x8cc092bba4f17f67)
].

(** The function computes the hash constants that the library publishes. *)
Theorem hash_static_strings : Forall (fun e => hash (key_of e.1) = e.2) static_hashes.
Proof. unfold static_hashes. repeat constructor. Qed.
End HashStrings.
