(* ===== verification/HashTable.v ===== *)
(** * Hash tables ([src/library/foundation_lib/foundation/hashtable.c])

    Tables of 32-bit and 64-bit keys with linear probing, which any number of
    threads use without a lock: a slot goes from key 0 to its key by an atomic
    compare-and-swap and keeps that key.  The two widths differ in the hash
    function only. *)
From S2P Require Import Prelude Hash.

Module HashTable.
Import Hash.

Definition hashtable32_hash (key : Z) : Z :=
  let key := xorshift key 16 in
  let key := mul 32 key 0x85ebca6b in
  let key := xorshift key 13 in
  let key := mul 32 key 0xc2b2ae35 in
  xorshift key 16.

Definition hashtable64_hash (key : Z) : Z :=
  let key := xorshift key 33 in
  let key := mul 64 key 0xff51afd7ed558ccd in
  let key := xorshift key 33 in
  let key := mul 64 key 0xc4ceb9fe1a85ec53 in
  xorshift key 33.

(** Both hash functions map keys to values of the key's width without
    collision, so that keys collide only by the table's modulus. *)
Theorem hashtable_hash_injective :
  (forall x y, in_u 32 x -> in_u 32 y ->
     in_u 32 (hashtable32_hash x) /\ (hashtable32_hash x = hashtable32_hash y -> x = y)) /\
  (forall x y, in_u 64 x -> in_u 64 y ->
     in_u 64 (hashtable64_hash x) /\ (hashtable64_hash x = hashtable64_hash y -> x = y)).
Proof.
  split; intros x y Hx Hy.
  - split; [apply xorshift_in_u; [done|]; by apply mul_in_u|]. unfold hashtable32_hash. intros E.
    apply xorshift_inj with (w := 32) in E; [|done|by apply mul_in_u..].
    apply mul_inj with (d := 0x7ed1b41d) in E; [|auto 6 with cint lia..|done].
    apply xorshift_inj with (w := 32) in E; [|done|by apply mul_in_u..].
    apply mul_inj with (d := 0xa5cb9243) in E; [|auto 6 with cint lia..|done].
    by apply xorshift_inj with (w := 32) in E.
  - split; [apply xorshift_in_u; [done|]; by apply mul_in_u|]. unfold hashtable64_hash. intros E.
    apply xorshift_inj with (w := 64) in E; [|done|by apply mul_in_u..].
    apply mul_inj with (d := 0x9cb4b2f8129337db) in E; [|auto 6 with cint lia..|done].
    apply xorshift_inj with (w := 64) in E; [|done|by apply mul_in_u..].
    apply mul_inj with (d := 0x4f74430c22a54005) in E; [|auto 6 with cint lia..|done].
    by apply xorshift_inj with (w := 64) in E.
Qed.

Record entry := mk_entry { key : Z; value : Z }.
#[export] Instance entry_inhabited : Inhabited entry := populate (mk_entry 0 0).
#[export] Instance entry_eq_dec : EqDecision entry.
Proof. solve_decision. Defined.

Record hashtable_t := mk_table { capacity : nat; entries : list entry }.

Definition hashtable_initialize (bucket_count : nat) : hashtable_t :=
  mk_table bucket_count (replicate bucket_count (mk_entry 0 0)).

(** ** One thread *)

Section table.
Context (hash : Z -> Z).

(** [hash(key) % table->capacity]; a table without slots is undefined behaviour. *)
Definition first_slot (t : hashtable_t) (k : Z) : nat := Z.to_nat (hash k mod Z.of_nat (capacity t)).

Definition store (t : hashtable_t) (i : nat) (e : entry) : hashtable_t :=
  mk_table (capacity t) (<[i := e]> (entries t)).

(** The loops give [None] when their fuel runs out; the capacity is enough. *)
Fixpoint set_loop (fuel : nat) (t : hashtable_t) (k v : Z) (ie eend : nat) : option (bool * hashtable_t) :=
  match fuel with
  | O => None
  | S fuel =>
      let current_key := key (entries t !!! ie) in
      if (current_key =? k) || (current_key =? 0) then Some (true, store t ie (mk_entry k v))
      else
        let ie := ((ie + 1) mod capacity t)%nat in
        if (ie =? eend)%nat then Some (false, t) else set_loop fuel t k v ie eend
  end.

Definition hashtable_set (t : hashtable_t) (k v : Z) : option (bool * hashtable_t) :=
  set_loop (capacity t) t k v (first_slot t k) (first_slot t k).

Fixpoint erase_loop (fuel : nat) (t : hashtable_t) (k : Z) (ie eend : nat) : option hashtable_t :=
  match fuel with
  | O => None
  | S fuel =>
      let current_key := key (entries t !!! ie) in
      if current_key =? k then Some (store t ie (mk_entry k 0))
      else
        let ie := ((ie + 1) mod capacity t)%nat in
        if negb (current_key =? 0) && negb (ie =? eend)%nat then erase_loop fuel t k ie eend else Some t
  end.

Definition hashtable_erase (t : hashtable_t) (k : Z) : option hashtable_t :=
  erase_loop (capacity t) t k (first_slot t k) (first_slot t k).

Fixpoint get_loop (fuel : nat) (t : hashtable_t) (k : Z) (ie eend : nat) : option Z :=
  match fuel with
  | O => None
  | S fuel =>
      let current_key := key (entries t !!! ie) in
      if current_key =? k then Some (value (entries t !!! ie))
      else
        let ie := ((ie + 1) mod capacity t)%nat in
        if negb (current_key =? 0) && negb (ie =? eend)%nat then get_loop fuel t k ie eend else Some 0
  end.

Definition hashtable_get (t : hashtable_t) (k : Z) : option Z :=
  get_loop (capacity t) t k (first_slot t k) (first_slot t k).
End table.

Definition hashtable_raw (t : hashtable_t) (slot : nat) : Z :=
  if key (entries t !!! slot) =? 0 then 0 else value (entries t !!! slot).

Definition hashtable_size (t : hashtable_t) : nat :=
  foldl (fun count e => if negb (key e =? 0) && negb (value e =? 0) then (count + 1)%nat else count) 0%nat (entries t).

Definition hashtable_clear (t : hashtable_t) : hashtable_t :=
  mk_table (capacity t) (replicate (capacity t) (mk_entry 0 0)).

(** The functions of the two widths. *)
Definition hashtable32_initialize := hashtable_initialize.
Definition hashtable32_set := hashtable_set hashtable32_hash.
Definition hashtable32_erase := hashtable_erase hashtable32_hash.
Definition hashtable32_get := hashtable_get hashtable32_hash.
Definition hashtable32_raw := hashtable_raw.
Definition hashtable32_size := hashtable_size.
Definition hashtable32_clear := hashtable_clear.
Definition hashtable64_initialize := hashtable_initialize.
Definition hashtable64_set := hashtable_set hashtable64_hash.
Definition hashtable64_erase := hashtable_erase hashtable64_hash.
Definition hashtable64_get := hashtable_get hashtable64_hash.
Definition hashtable64_raw := hashtable_raw.
Definition hashtable64_size := hashtable_size.
Definition hashtable64_clear := hashtable_clear.

(** ** Probing *)

Section laws.
Context (hash : Z -> Z).

(** The slot that the loops visit at step [j]. *)
Definition probe (t : hashtable_t) (k : Z) (j : nat) : nat := ((first_slot hash t k + j) mod capacity t)%nat.

(** The first step from [j] on, out of [n], at a slot that is free or holds [k]. *)
Fixpoint search (t : hashtable_t) (k : Z) (n j : nat) : option nat :=
  match n with
  | O => None
  | S n =>
      let c := key (entries t !!! probe t k j) in
      if (c =? k) || (c =? 0) then Some j else search t k n (S j)
  end.

Definition used (t : hashtable_t) (i : nat) : Prop := key (entries t !!! i) <> 0.

(** Every key is in one slot, and the slots before it on its probe path are used. *)
Record wf (t : hashtable_t) : Prop := {
  wf_capacity : (0 < capacity t)%nat;
  wf_length : length (entries t) = capacity t;
  wf_unique i i' : (i < capacity t)%nat -> (i' < capacity t)%nat -> used t i ->
    key (entries t !!! i) = key (entries t !!! i') -> i = i';
  wf_path i j j' : (i < capacity t)%nat -> used t i -> (j < capacity t)%nat ->
    probe t (key (entries t !!! i)) j = i -> (j' < j)%nat -> used t (probe t (key (entries t !!! i)) j');
}.

Lemma first_slot_lt t k : (0 < capacity t)%nat -> (first_slot hash t k < capacity t)%nat.
Proof. intros H. unfold first_slot. pose proof (Z.mod_pos_bound (hash k) (Z.of_nat (capacity t))). lia. Qed.

Lemma probe_lt t k j : (0 < capacity t)%nat -> (probe t k j < capacity t)%nat.
Proof. intros. apply Nat.mod_upper_bound. lia. Qed.

Lemma probe_0 t k : (0 < capacity t)%nat -> probe t k 0 = first_slot hash t k.
Proof. intros. unfold probe. rewrite Nat.add_0_r. apply Nat.mod_small. by apply first_slot_lt. Qed.

Lemma probe_S t k j : (0 < capacity t)%nat -> ((probe t k j + 1) mod capacity t)%nat = probe t k (S j).
Proof. intros. unfold probe. rewrite Nat.Div0.add_mod_idemp_l. f_equal. lia. Qed.

(** A slot less than twice the capacity is reduced by one subtraction at most. *)
Lemma probe_cases t k j : (j <= capacity t)%nat -> (0 < capacity t)%nat ->
  (first_slot hash t k + j < capacity t /\ probe t k j = first_slot hash t k + j)%nat \/
  (capacity t <= first_slot hash t k + j /\ probe t k j = first_slot hash t k + j - capacity t)%nat.
Proof.
  intros Hj Hc. pose proof (first_slot_lt t k Hc). unfold probe.
  destruct (decide (first_slot hash t k + j < capacity t)%nat); [left|right]; split; try lia.
  - by apply Nat.mod_small.
  - symmetry. apply (Nat.mod_unique _ _ 1); lia.
Qed.

Lemma probe_inj t k j j' :
  (j < capacity t)%nat -> (j' < capacity t)%nat -> probe t k j = probe t k j' -> j = j'.
Proof.
  intros Hj Hj' E. pose proof (first_slot_lt t k ltac:(lia)).
  destruct (probe_cases t k j), (probe_cases t k j'); lia.
Qed.

Lemma probe_surj t k i : (i < capacity t)%nat -> exists j, (j < capacity t)%nat /\ probe t k j = i.
Proof.
  intros Hi. pose proof (first_slot_lt t k ltac:(lia)) as Hf.
  destruct (decide (first_slot hash t k <= i)%nat).
  - exists (i - first_slot hash t k)%nat. split; [lia|]. destruct (probe_cases t k (i - first_slot hash t k)); lia.
  - exists (i + capacity t - first_slot hash t k)%nat. split; [lia|].
    destruct (probe_cases t k (i + capacity t - first_slot hash t k)); lia.
Qed.

Lemma probe_wraps t k j :
  (j < capacity t)%nat -> (probe t k (S j) =? probe t k 0)%nat = (S j =? capacity t)%nat.
Proof.
  intros Hj. destruct (Nat.eqb_spec (S j) (capacity t)) as [E|E].
  - apply Nat.eqb_eq. rewrite (probe_0 t k) by lia. destruct (probe_cases t k (S j)); lia.
  - apply Nat.eqb_neq. intros Ep. apply probe_inj in Ep; lia.
Qed.

(** The loops search. *)
Lemma set_loop_search t k v n j :
  (0 < n)%nat -> (j + n)%nat = capacity t ->
  set_loop n t k v (probe t k j) (probe t k 0) =
  Some (match search t k n j with
        | Some j => (true, store t (probe t k j) (mk_entry k v))
        | None => (false, t)
        end).
Proof.
  revert j. induction n as [|n IH]; intros j Hn Hj; [lia|]. cbn [set_loop search]. case_if; [done|].
  rewrite probe_S, probe_wraps by lia. destruct (Nat.eqb_spec (S j) (capacity t)).
  - by assert (n = 0)%nat as -> by lia.
  - apply IH; lia.
Qed.

Lemma get_loop_search t k n j :
  k <> 0 -> (0 < n)%nat -> (j + n)%nat = capacity t ->
  get_loop n t k (probe t k j) (probe t k 0) =
  Some (match search t k n j with
        | Some j => let e := entries t !!! probe t k j in if key e =? k then value e else 0
        | None => 0
        end).
Proof.
  intros Hk. revert j. induction n as [|n IH]; intros j Hn Hj; [lia|]. cbn [get_loop search].
  destruct (Z.eqb_spec (key (entries t !!! probe t k j)) k) as [E|E]; cbn [orb].
  { apply Z.eqb_eq in E. by rewrite E. }
  destruct (Z.eqb_spec (key (entries t !!! probe t k j)) 0) as [E0|E0]; cbn [negb andb].
  { apply Z.eqb_neq in E. by rewrite E. }
  rewrite probe_S, probe_wraps by lia. destruct (Nat.eqb_spec (S j) (capacity t)); cbn [negb].
  - by assert (n = 0)%nat as -> by lia.
  - apply IH; lia.
Qed.

Lemma erase_loop_search t k n j :
  k <> 0 -> (0 < n)%nat -> (j + n)%nat = capacity t ->
  erase_loop n t k (probe t k j) (probe t k 0) =
  Some (match search t k n j with
        | Some j => if key (entries t !!! probe t k j) =? k then store t (probe t k j) (mk_entry k 0) else t
        | None => t
        end).
Proof.
  intros Hk. revert j. induction n as [|n IH]; intros j Hn Hj; [lia|]. cbn [erase_loop search].
  destruct (Z.eqb_spec (key (entries t !!! probe t k j)) k) as [E|E]; cbn [orb].
  { apply Z.eqb_eq in E. by rewrite E. }
  destruct (Z.eqb_spec (key (entries t !!! probe t k j)) 0) as [E0|E0]; cbn [negb andb].
  { apply Z.eqb_neq in E. by rewrite E. }
  rewrite probe_S, probe_wraps by lia. destruct (Nat.eqb_spec (S j) (capacity t)); cbn [negb].
  - by assert (n = 0)%nat as -> by lia.
  - apply IH; lia.
Qed.

Lemma search_spec t k n j :
  match search t k n j with
  | Some m => (j <= m < j + n)%nat /\ (key (entries t !!! probe t k m) = k \/ key (entries t !!! probe t k m) = 0) /\
      forall m', (j <= m' < m)%nat -> used t (probe t k m') /\ key (entries t !!! probe t k m') <> k
  | None => forall m', (j <= m' < j + n)%nat -> used t (probe t k m') /\ key (entries t !!! probe t k m') <> k
  end.
Proof.
  revert j. induction n as [|n IH]; intros j; cbn [search]; [intros; lia|]. unfold used in *. case_if.
  - split; [lia|]. split; [lia|]. intros; lia.
  - specialize (IH (S j)). destruct (search t k n (S j)) as [m|].
    + destruct IH as (H1 & H2 & H3). split; [lia|]. split; [done|]. intros m' Hm'.
      destruct (decide (m' = j)) as [->|]; [lia|]. apply H3. lia.
    + intros m' Hm'. destruct (decide (m' = j)) as [->|]; [lia|]. apply IH. lia.
Qed.

(** Searching a key that is in the table finds its slot, searching another one
    finds a free slot if there is one. *)
Lemma search_present t k i :
  wf t -> k <> 0 -> (i < capacity t)%nat -> key (entries t !!! i) = k ->
  exists j, search t k (capacity t) 0 = Some j /\ probe t k j = i.
Proof.
  intros Hwf Hk Hi E. destruct (probe_surj t k i Hi) as (j & Hj & Ep).
  pose proof (search_spec t k (capacity t) 0) as Hs. destruct (search t k (capacity t) 0) as [m|] eqn:Em.
  - destruct Hs as (Hm & Hkm & Hbefore). exists m. split; [done|].
    destruct (decide (j < m)%nat) as [Hjm|Hjm]; [destruct (Hbefore j); [lia|]; congruence|].
    destruct (decide (j = m)) as [->|]; [done|]. exfalso.
    assert (used t (probe t k m)) as Hu.
    { pose proof (wf_path _ Hwf i j m) as Hp. rewrite E in Hp. unfold used in *. apply Hp; try done; [congruence|lia]. }
    destruct Hkm as [Hkm|]; [|done].
    assert (probe t k m = i) as Em2.
    { apply (wf_unique _ Hwf); [apply probe_lt; lia|done|done|congruence]. }
    rewrite <- Ep in Em2. apply probe_inj in Em2; lia.
  - exfalso. destruct (Hs j); [lia|]. congruence.
Qed.

Lemma search_absent t k :
  wf t -> (forall i, (i < capacity t)%nat -> key (entries t !!! i) <> k) ->
  match search t k (capacity t) 0 with
  | Some j => (j < capacity t)%nat /\ key (entries t !!! probe t k j) = 0 /\ forall m, (m < j)%nat -> used t (probe t k m)
  | None => forall i, (i < capacity t)%nat -> used t i
  end.
Proof.
  intros Hwf Hn. pose proof (search_spec t k (capacity t) 0) as Hs. pose proof (wf_capacity _ Hwf).
  destruct (search t k (capacity t) 0) as [j|].
  - destruct Hs as (Hj & Hk & Hb). split; [lia|]. split; [|intros; apply Hb; lia].
    destruct Hk as [Hk|]; [|done]. exfalso. eapply Hn; [|exact Hk]. by apply probe_lt.
  - intros i Hi. destruct (probe_surj t k i Hi) as (j & Hj & <-). apply Hs. lia.
Qed.

(** ** The table as a finite map *)

Definition pairs (l : list entry) : list (Z * Z) := (fun e => (key e, value e)) <$> filter (fun e => key e <> 0) l.
Definition content (t : hashtable_t) : gmap Z Z := list_to_map (pairs (entries t)).

Lemma elem_of_pairs l k v :
  (k, v) ∈ pairs l <-> k <> 0 /\ exists i, l !! i = Some (mk_entry k v).
Proof.
  unfold pairs. rewrite list_elem_of_fmap. split.
  - intros ([k' v'] & [= -> ->] & Hf). apply list_elem_of_filter in Hf as [Hk Hl]. split; [done|].
    by apply list_elem_of_lookup.
  - intros (Hk & Hl). exists (mk_entry k v). split; [done|]. apply list_elem_of_filter. split; [done|].
    by apply list_elem_of_lookup.
Qed.

Lemma entry_at t i e : length (entries t) = capacity t -> (entries t !! i = Some e <-> (i < capacity t)%nat /\ entries t !!! i = e).
Proof.
  intros Hl. rewrite <- Hl. split.
  - intros Hi. split; [by eapply lookup_lt_Some|by apply list_lookup_total_correct].
  - intros [Hi <-]. by apply list_lookup_lookup_total_lt.
Qed.

Lemma content_lookup t k v :
  wf t -> content t !! k = Some v <-> k <> 0 /\ exists i, (i < capacity t)%nat /\ entries t !!! i = mk_entry k v.
Proof.
  intros Hwf. pose proof (wf_length _ Hwf) as Hl. split.
  - intros E. apply elem_of_list_to_map_2, elem_of_pairs in E as (Hk & i & Hi). split; [done|]. exists i.
    by apply entry_at in Hi.
  - intros (Hk & i & Hi & E). apply elem_of_list_to_map_1'.
    + intros v' Hv'. apply elem_of_pairs in Hv' as (_ & i' & Hi'). apply entry_at in Hi' as [Hi' E']; [|done].
      assert (i = i') as <-.
      { apply (wf_unique _ Hwf); try done; [unfold used; by rewrite E|by rewrite E, E']. }
      rewrite E in E'. by injection E'.
    + apply elem_of_pairs. split; [done|]. exists i. by apply entry_at.
Qed.

Lemma content_none t k :
  wf t -> k <> 0 -> content t !! k = None -> forall i, (i < capacity t)%nat -> key (entries t !!! i) <> k.
Proof.
  intros Hwf Hk Hn i Hi E. assert (content t !! k = Some (value (entries t !!! i))) as Hs; [|congruence].
  apply content_lookup; [done|]. split; [done|]. exists i. split; [done|]. destruct (entries t !!! i). simpl in *. by subst.
Qed.

(** Storing in the slot where the search stopped. *)
Lemma store_total t i e j :
  length (entries t) = capacity t -> (i < capacity t)%nat ->
  entries (store t i e) !!! j = if decide (i = j) then e else entries t !!! j.
Proof.
  intros Hl Hi. simpl. destruct (decide (i = j)) as [->|Hn].
  - apply list_lookup_total_insert_eq. lia.
  - by apply list_lookup_total_insert_ne.
Qed.

Lemma store_wf t k v j :
  wf t -> k <> 0 -> (j < capacity t)%nat ->
  key (entries t !!! probe t k j) = k \/
    key (entries t !!! probe t k j) = 0 /\ (forall m, (m < j)%nat -> used t (probe t k m)) /\
    (forall i, (i < capacity t)%nat -> key (entries t !!! i) <> k) ->
  let t' := store t (probe t k j) (mk_entry k v) in
  wf t' /\ content t' = <[k := v]> (content t).
Proof.
  intros Hwf Hk Hj Hs t'. pose proof (wf_length _ Hwf) as Hl. pose proof (wf_capacity _ Hwf) as Hc.
  pose proof (probe_lt t k j Hc) as Hp. set (p := probe t k j) in *.
  assert (forall i, entries t' !!! i = if decide (p = i) then mk_entry k v else entries t !!! i) as Ht
    by (intros; by apply store_total).
  assert (forall i, used t i -> used t' i) as Hu
    by (intros i Hi; unfold used in *; rewrite Ht; by case_decide).
  assert (forall i, (i < capacity t)%nat -> key (entries t !!! i) = k -> i = p) as Hkp.
  { intros i Hi E. destruct Hs as [Hs|(_ & _ & Hs)]; [|by destruct (Hs i)].
    apply (wf_unique _ Hwf); unfold used; try done; congruence. }
  assert (wf t') as Hwf'.
  { constructor.
    - done.
    - simpl. by rewrite length_insert.
    - intros i i' Hi Hi'. unfold used. rewrite !Ht. simpl in Hi, Hi'. repeat case_decide; subst; simpl; try done.
      + intros _ E. symmetry. by apply Hkp.
      + intros _ E. by apply Hkp.
      + by apply (wf_unique _ Hwf).
    - intros i m m' Hi. unfold used at 1. rewrite !Ht. simpl in Hi.
      case_decide as Ed; simpl; intros Hui Hm Ep Hm'.
      + change (probe t' k) with (probe t k) in *. apply Hu. destruct Hs as [Hs|(_ & Hs & _)].
        * pose proof (wf_path _ Hwf p m m') as Hpath. unfold used in *. rewrite Hs in Hpath. apply Hpath; try done. congruence.
        * apply Hs. rewrite <- Ed in Ep. apply probe_inj in Ep; [lia|done|done].
      + apply Hu. by apply (wf_path _ Hwf i m m'). }
  split; [done|]. apply map_eq. intros k'. apply option_eq. intros v'. rewrite content_lookup by done.
  destruct (decide (k = k')) as [<-|Hne].
  - rewrite lookup_insert_eq. split.
    + intros (_ & i & Hi & E). rewrite Ht in E. case_decide as Ed; [congruence|].
      exfalso. apply Ed. symmetry. apply Hkp; [done|]. by rewrite E.
    + intros [= ->]. split; [done|]. exists p. split; [done|]. rewrite Ht. by rewrite decide_True.
  - rewrite lookup_insert_ne, content_lookup by done. split; intros (? & i & Hi & E); (split; [done|]); exists i; (split; [done|]).
    + rewrite Ht in E. case_decide; [congruence|done].
    + rewrite Ht. case_decide; [|done]. subst i. exfalso. destruct Hs as [Hs|[Hs _]]; rewrite E in Hs; simpl in Hs; congruence.
Qed.

Lemma hashtable_set_wf t k v b t' : wf t -> k <> 0 -> hashtable_set hash t k v = Some (b, t') -> wf t'.
Proof.
  intros Hwf Hk. pose proof (wf_capacity _ Hwf) as Hc. unfold hashtable_set.
  rewrite <- (probe_0 t k), set_loop_search by lia. pose proof (search_spec t k (capacity t) 0) as Hs.
  destruct (search t k (capacity t) 0) as [j|] eqn:Ej; [|by intros [= <- <-]]. intros [= <- <-].
  destruct Hs as (Hj & Hkj & Hb). apply store_wf; [done|done|lia|]. destruct Hkj as [|E0]; [by left|].
  right. split; [done|]. split; [intros; apply Hb; lia|]. intros i Hi E.
  destruct (search_present t k i Hwf Hk Hi E) as (j' & Ej' & Ep). congruence.
Qed.

Lemma pairs_nodup l :
  (forall i i' e e', l !! i = Some e -> l !! i' = Some e' -> key e <> 0 -> key e = key e' -> i = i') ->
  NoDup (pairs l).*1.
Proof.
  unfold pairs. induction l as [|e l IH]; intros H; [constructor|]. rewrite filter_cons.
  assert (NoDup (pairs l).*1) as Hl.
  { apply IH. intros i i' e1 e2 H1 H2 H3 H4. by injection (H (S i) (S i') e1 e2 H1 H2 H3 H4). }
  case_decide as Hk; [|exact Hl]. rewrite !fmap_cons. constructor; [|exact Hl].
  rewrite !list_elem_of_fmap. intros ([k v] & Ek & Hin). simpl in Ek.
  apply (elem_of_pairs l k v) in Hin as (_ & i & Hi). by specialize (H 0%nat (S i) e _ eq_refl Hi Hk Ek).
Qed.

Lemma content_list t : wf t -> map_to_list (content t) ≡ₚ pairs (entries t).
Proof.
  intros Hwf. apply map_to_list_to_map, pairs_nodup. intros i i' e e' Hi Hi' Hk E.
  apply entry_at in Hi as [Hi <-]; [|by apply wf_length]. apply entry_at in Hi' as [Hi' <-]; [|by apply wf_length].
  by apply (wf_unique _ Hwf).
Qed.

Lemma pairs_full l : length (pairs l) = length l <-> forall i e, l !! i = Some e -> key e <> 0.
Proof.
  unfold pairs. rewrite length_fmap. induction l as [|e l IH]; [split; [intros _ i e; by rewrite lookup_nil|done]|].
  rewrite filter_cons. pose proof (length_filter (fun e => key e <> 0) l) as Hle. case_decide as Hk; cbn [length].
  - split.
    + intros Hl [|i] e' Hi; [by injection Hi as <-|]. eapply (proj1 IH); [lia|exact Hi].
    + intros H. f_equal. apply IH. intros i e' Hi. by apply (H (S i)).
  - split; [lia|]. intros H. by specialize (H 0%nat e eq_refl).
Qed.

Lemma content_full t : wf t -> size (content t) = capacity t <-> forall i, (i < capacity t)%nat -> used t i.
Proof.
  intros Hwf. pose proof (wf_length _ Hwf) as Hl. rewrite <- Hl, <- length_map_to_list, (content_list t Hwf), pairs_full.
  rewrite Hl. split.
  - intros H i Hi. apply (H i). by apply entry_at.
  - intros H i e Hi. apply entry_at in Hi as [Hi <-]; [|done]. by apply H.
Qed.

Lemma size_loop l n :
  foldl (fun count e => if negb (key e =? 0) && negb (value e =? 0) then (count + 1)%nat else count) n l =
  (n + length (filter (fun kv : Z * Z => kv.2 <> 0%Z) (pairs l)))%nat.
Proof.
  unfold pairs. revert n. induction l as [|e l IH]; intros n; [simpl; lia|]. cbn [foldl]. rewrite IH, filter_cons.
  case_decide as Hk.
  - rewrite fmap_cons, filter_cons. cbn [snd]. case_decide as Hv.
    + apply Z.eqb_neq in Hk as ->, Hv as ->. cbn [negb andb length]. lia.
    + replace (value e) with 0 by lia. rewrite Z.eqb_refl, andb_false_r. done.
  - replace (key e) with 0 by lia. done.
Qed.

Lemma empty_wf n : (0 < n)%nat -> wf (hashtable_initialize n) /\ content (hashtable_initialize n) = ∅.
Proof.
  intros Hn. assert (forall i, key (entries (hashtable_initialize n) !!! i) = 0) as H0.
  { intros i. simpl. destruct (decide (i < n)%nat).
    - by rewrite lookup_total_replicate_2.
    - rewrite list_lookup_total_alt. by rewrite lookup_ge_None_2 by (rewrite length_replicate; lia). }
  split.
  - constructor; [done|apply length_replicate|intros i i' _ _ Hu; by destruct Hu|intros i j j' _ Hu; by destruct Hu].
  - unfold content, hashtable_initialize, pairs. simpl. clear. by induction n.
Qed.

(** What the search for a key finds, in terms of the map. *)
Lemma search_content t k :
  wf t -> k <> 0 ->
  match content t !! k with
  | Some v => exists j, search t k (capacity t) 0 = Some j /\ (j < capacity t)%nat /\ entries t !!! probe t k j = mk_entry k v
  | None => forall i, (i < capacity t)%nat -> key (entries t !!! i) <> k
  end.
Proof.
  intros Hwf Hk. destruct (content t !! k) as [v|] eqn:E; [|by apply content_none].
  apply content_lookup in E as (_ & i & Hi & E); [|done].
  destruct (search_present t k i Hwf Hk Hi) as (j & Ej & Ep); [by rewrite E|]. exists j. rewrite Ep. repeat split; try done.
  pose proof (search_spec t k (capacity t) 0) as Hs. rewrite Ej in Hs. lia.
Qed.

Lemma table_get_ok t k : wf t -> k <> 0 -> hashtable_get hash t k = Some (default 0 (content t !! k)).
Proof.
  intros Hwf Hk. pose proof (wf_capacity _ Hwf). unfold hashtable_get.
  rewrite <- (probe_0 t k), get_loop_search by (done || lia). f_equal.
  pose proof (search_content t k Hwf Hk) as Hc. destruct (content t !! k) as [v|].
  - destruct Hc as (j & -> & _ & ->). cbn. by rewrite Z.eqb_refl.
  - pose proof (search_absent t k Hwf Hc) as Ha. destruct (search t k (capacity t) 0) as [j|]; [|done].
    cbn. destruct Ha as (_ & -> & _). case_if; [lia|done].
Qed.

Lemma table_set_ok t k v :
  wf t -> k <> 0 ->
  if decide (content t !! k = None /\ size (content t) = capacity t) then hashtable_set hash t k v = Some (false, t)
  else exists t', hashtable_set hash t k v = Some (true, t') /\ wf t' /\ content t' = <[k := v]> (content t).
Proof.
  intros Hwf Hk. pose proof (wf_capacity _ Hwf) as Hcap. unfold hashtable_set. rewrite <- (probe_0 t k), set_loop_search by lia.
  pose proof (search_content t k Hwf Hk) as Hc. destruct (content t !! k) as [v'|] eqn:E.
  - rewrite decide_False by (by intros [? _]). destruct Hc as (j & -> & Hj & Ej).
    eexists. split; [done|]. apply store_wf; try done. left. by rewrite Ej.
  - pose proof (search_absent t k Hwf Hc) as Ha. pose proof (content_full t Hwf) as Hfull.
    destruct (search t k (capacity t) 0) as [j|].
    + destruct Ha as (Hj & Ej & Hb). rewrite decide_False.
      * eexists. split; [done|]. apply store_wf; try done. by right.
      * intros [_ Hsz]. rewrite Hfull in Hsz. by destruct (Hsz (probe t k j) (probe_lt t k j Hcap)).
    + rewrite decide_True; [done|]. by rewrite Hfull.
Qed.

Lemma table_erase_ok t k :
  wf t -> k <> 0 ->
  exists t', hashtable_erase hash t k = Some t' /\ wf t' /\ content t' = alter (fun _ => 0) k (content t).
Proof.
  intros Hwf Hk. pose proof (wf_capacity _ Hwf). unfold hashtable_erase.
  rewrite <- (probe_0 t k), erase_loop_search by (done || lia).
  pose proof (search_content t k Hwf Hk) as Hc. destruct (content t !! k) as [v'|] eqn:E.
  - destruct Hc as (j & -> & Hj & Ej). rewrite Ej. cbn [key]. rewrite Z.eqb_refl. eexists. split; [done|].
    destruct (store_wf t k 0 j Hwf Hk Hj) as [Hw ->]; [left; by rewrite Ej|]. split; [done|].
    apply map_eq. intros k'. destruct (decide (k = k')) as [<-|].
    + by rewrite lookup_insert_eq, lookup_alter_eq, E.
    + by rewrite lookup_insert_ne, lookup_alter_ne.
  - exists t. split.
    + pose proof (search_absent t k Hwf Hc) as Ha. destruct (search t k (capacity t) 0) as [j|]; [|done].
      destruct Ha as (_ & -> & _). by case_if; [lia|].
    + split; [done|]. apply map_eq. intros k'. destruct (decide (k = k')) as [<-|].
      * by rewrite lookup_alter_eq, E.
      * by rewrite lookup_alter_ne.
Qed.

(** C4: a hash table is a finite map from nonzero keys to values.  [get] gives the
    value of a key or 0, [set] updates the map unless the key is new and every
    slot is taken, [erase] sets the value of a key to 0 and so never frees a
    slot, [size] counts the nonzero values, [clear] empties the map; the loops
    end within as many steps as there are slots. *)
Theorem hashtable_refines_map t :
  wf t ->
  (forall k, k <> 0 -> hashtable_get hash t k = Some (default 0 (content t !! k))) /\
  (forall k v, k <> 0 ->
     if decide (content t !! k = None /\ size (content t) = capacity t) then hashtable_set hash t k v = Some (false, t)
     else exists t', hashtable_set hash t k v = Some (true, t') /\ wf t' /\ content t' = <[k := v]> (content t)) /\
  (forall k, k <> 0 ->
     exists t', hashtable_erase hash t k = Some t' /\ wf t' /\ content t' = alter (fun _ => 0) k (content t)) /\
  hashtable_size t = length (filter (fun kv : Z * Z => kv.2 <> 0%Z) (map_to_list (content t))) /\
  wf (hashtable_clear t) /\ content (hashtable_clear t) = ∅.
Proof.
  intros Hwf. split; [|split; [|split; [|split]]].
  - intros. by apply table_get_ok.
  - intros. by apply table_set_ok.
  - intros. by apply table_erase_ok.
  - unfold hashtable_size. rewrite size_loop. cbn [Nat.add]. apply Permutation_length. by rewrite (content_list t Hwf).
  - apply empty_wf, (wf_capacity _ Hwf).
Qed.
End laws.

(** ** Any number of threads

    The atomic actions of [set], [erase] and [get] on the shared slots: load a
    key, compare and swap a key, write a value, read a value.  Threads interleave
    in any order, in a sequentially consistent memory. *)

Module Concurrent.

Inductive op := OpSet (k v : Z) | OpErase (k : Z) | OpGet (k : Z).
Definition op_key (o : op) : Z := match o with OpSet k _ => k | OpErase k => k | OpGet k => k end.
Definition op_value (o : op) : Z := match o with OpSet _ v => v | _ => 0 end.

(** The next action of a thread, at slot [ie]; [Done r] when it has returned. *)
Inductive pc := Load (ie : nat) | Cas (ie : nat) | Write (ie : nat) | Read (ie : nat) | Done (r : Z).

Record thread := mk_thread { t_op : op; t_pc : pc }.

Section steps.
Context (hash : Z -> Z).

Definition thread_step (t : hashtable_t) (th : thread) : option (hashtable_t * thread) :=
  let k := op_key (t_op th) in
  let goto pc := mk_thread (t_op th) pc in
  let advance ie :=
    let ie := ((ie + 1) mod capacity t)%nat in
    if (ie =? first_slot hash t k)%nat then goto (Done 0) else goto (Load ie) in
  match t_pc th with
  | Load ie =>
      let current_key := key (entries t !!! ie) in
      match t_op th with
      | OpSet _ _ =>
          if current_key =? k then Some (t, goto (Write ie))
          else if current_key =? 0 then Some (t, goto (Cas ie))
          else Some (t, advance ie)
      | OpErase _ =>
          if current_key =? k then Some (t, goto (Write ie))
          else if current_key =? 0 then Some (t, goto (Done 0))
          else Some (t, advance ie)
      | OpGet _ =>
          if current_key =? k then Some (t, goto (Read ie))
          else if current_key =? 0 then Some (t, goto (Done 0))
          else Some (t, advance ie)
      end
  | Cas ie =>
      let e := entries t !!! ie in
      if key e =? 0 then Some (store t ie (mk_entry k (value e)), goto (Write ie)) else Some (t, advance ie)
  | Write ie => Some (store t ie (mk_entry (key (entries t !!! ie)) (op_value (t_op th))), goto (Done 1))
  | Read ie => Some (t, goto (Done (value (entries t !!! ie))))
  | Done _ => None
  end.

Definition state : Type := hashtable_t * list thread.

(** Thread [i] moves; [None] when there is no such thread or it has returned. *)
Definition step (i : nat) (s : state) : option state :=
  th ← s.2 !! i;
  '(t, th) ← thread_step s.1 th;
  Some (t, <[i := th]> s.2).

Fixpoint run (schedule : list nat) (s : state) : option state :=
  match schedule with
  | [] => Some s
  | i :: schedule => s ← step i s; run schedule s
  end.

Definition start (t : hashtable_t) (o : op) : thread := mk_thread o (Load (first_slot hash t (op_key o))).

(** ** Invariants *)

Record shape (t : hashtable_t) : Prop := {
  shape_capacity : (0 < capacity t)%nat;
  shape_length : length (entries t) = capacity t;
  shape_path i j j' : (i < capacity t)%nat -> used t i -> (j < capacity t)%nat ->
    probe hash t (key (entries t !!! i)) j = i -> (j' < j)%nat -> used t (probe hash t (key (entries t !!! i)) j');
}.

Definition at_step (t : hashtable_t) (k : Z) (ie : nat) : Prop :=
  exists j, (j < capacity t)%nat /\ ie = probe hash t k j /\ forall j', (j' < j)%nat -> used t (probe hash t k j').

Definition thread_ok (t : hashtable_t) (th : thread) : Prop :=
  op_key (t_op th) <> 0 /\
  match t_pc th with
  | Load ie | Cas ie => at_step t (op_key (t_op th)) ie
  | Write ie | Read ie => (ie < capacity t)%nat /\ key (entries t !!! ie) = op_key (t_op th)
  | Done _ => True
  end.

(** Keys stay where they are. *)
Definition grows (t t' : hashtable_t) : Prop :=
  capacity t' = capacity t /\ forall i, used t i -> key (entries t' !!! i) = key (entries t !!! i).

Lemma grows_refl t : grows t t.
Proof. by split. Qed.

Lemma grows_trans t1 t2 t3 : grows t1 t2 -> grows t2 t3 -> grows t1 t3.
Proof.
  intros [C1 H1] [C2 H2]. split; [congruence|]. intros i Hi. rewrite H2, H1; [done|done|].
  unfold used. by rewrite H1.
Qed.

Lemma grows_used t t' i : grows t t' -> used t i -> used t' i.
Proof. intros [_ H] Hu. unfold used. by rewrite H. Qed.

Lemma grows_probe t t' k j : grows t t' -> probe hash t' k j = probe hash t k j.
Proof. intros [E _]. unfold probe, first_slot. by rewrite E. Qed.

Lemma grows_at_step t t' k ie : grows t t' -> at_step t k ie -> at_step t' k ie.
Proof.
  intros Hg (j & Hj & -> & Hu). exists j. rewrite (proj1 Hg), (grows_probe t t') by done. split; [done|]. split; [done|].
  intros j' Hj'. rewrite (grows_probe t t') by done. eapply grows_used; [done|]. by apply Hu.
Qed.

Lemma grows_thread_ok t t' th : grows t t' -> thread_ok t th -> thread_ok t' th.
Proof.
  intros Hg [Hk Hth]. split; [done|]. destruct (t_pc th); try done; try by eapply grows_at_step.
  all: destruct Hth as [Hi E]; rewrite (proj1 Hg); split; [done|]; rewrite (proj2 Hg); [done|]; unfold used; by rewrite E.
Qed.

(** Storing an entry under the key that the slot has, or under the searched key
    in a free slot. *)
Lemma store_shape t k ie e :
  shape t -> k <> 0 -> key e = k ->
  ((ie < capacity t)%nat /\ key (entries t !!! ie) = k) \/ (at_step t k ie /\ key (entries t !!! ie) = 0) ->
  shape (store t ie e) /\ grows t (store t ie e) /\ key (entries (store t ie e) !!! ie) = k.
Proof.
  intros Hs Hk He Hie. pose proof (shape_length _ Hs) as Hl. pose proof (shape_capacity _ Hs) as Hc.
  assert (ie < capacity t)%nat as Hlt by (destruct Hie as [[? _]|[(j & Hj & -> & _) _]]; [done|by apply probe_lt]).
  assert (forall i, entries (store t ie e) !!! i = if decide (ie = i) then e else entries t !!! i) as Ht
    by (intros; by apply store_total).
  assert (grows t (store t ie e)) as Hg.
  { split; [done|]. intros i Hi. rewrite Ht. case_decide as Ed; [|done]. subst i.
    destruct Hie as [[_ E]|[_ E]]; [congruence|done]. }
  split; [|split; [done|rewrite Ht; by rewrite decide_True]]. constructor; [done|by simpl; rewrite length_insert|].
  intros i j j' Hi Hu Hj Ep Hj'. rewrite !(grows_probe t) in * by done. rewrite Ht in *. unfold used in Hu. rewrite Ht in Hu.
  apply (grows_used t); [done|]. case_decide as Ed.
  - subst i. rewrite He in *. destruct Hie as [[_ E]|[(m & Hm & Em & Hb) E]].
    + pose proof (shape_path _ Hs ie j j') as Hp. rewrite E in Hp. apply Hp; try done. unfold used. congruence.
    + apply Hb. assert (probe hash t k j = probe hash t k m) as Ep' by congruence.
      apply probe_inj in Ep'; [lia|done|done].
  - by apply (shape_path _ Hs i j j').
Qed.

(** Moving on from a slot that is in use. *)
Lemma advance_ok t o ie :
  shape t -> op_key o <> 0 -> at_step t (op_key o) ie -> used t ie ->
  let ie' := ((ie + 1) mod capacity t)%nat in
  thread_ok t (if (ie' =? first_slot hash t (op_key o))%nat then mk_thread o (Done 0) else mk_thread o (Load ie')).
Proof.
  intros Hs Hk (j & Hj & -> & Hb) Hu. pose proof (shape_capacity _ Hs). cbv zeta.
  rewrite probe_S, <- (probe_0 hash t (op_key o)) at 1 by done.
  rewrite probe_wraps by done. destruct (Nat.eqb_spec (S j) (capacity t)) as [E|E]; [by split|].
  split; [done|]. cbn [t_pc t_op]. rewrite probe_S by done. exists (S j). split; [lia|]. split; [done|]. intros j' Hj'.
  destruct (decide (j' = j)) as [->|]; [done|]. apply Hb. lia.
Qed.

Lemma thread_step_ok t th t' th' :
  shape t -> thread_ok t th -> thread_step t th = Some (t', th') ->
  shape t' /\ grows t t' /\ thread_ok t' th' /\ t_op th' = t_op th.
Proof.
  destruct th as [o p]. intros Hs [Hk Hth]. cbn [t_op t_pc] in *. pose proof (grows_refl t) as Hg.
  assert (forall ie : nat, at_step t (op_key o) ie -> (ie < capacity t)%nat) as Hlt
    by (intros ie (j & _ & -> & _); apply probe_lt; by apply shape_capacity).
  destruct p as [ie|ie|ie|ie|r]; unfold thread_step; cbn [t_op t_pc].
  - assert (used t ie -> thread_ok t (if ((ie + 1) mod capacity t =? first_slot hash t (op_key o))%nat
        then mk_thread o (Done 0) else mk_thread o (Load ((ie + 1) mod capacity t)))) as Ha by (by apply advance_ok).
    pose proof (Hlt ie Hth). unfold used in Ha.
    destruct o as [k v|k|k]; cbn [op_key] in *; (case_if; [|case_if]); intros [= <- <-];
      (split; [exact Hs|]; split; [exact Hg|]; split; [|try case_if; done]); first [apply Ha; lia|split; try done].
    all: cbn [t_pc t_op op_key]; lia.
  - case_if.
    + destruct (store_shape t (op_key o) ie (mk_entry (op_key o) (value (entries t !!! ie))) Hs Hk eq_refl) as (? & ? & ?).
      { right. split; [done|lia]. }
      intros [= <- <-]. do 2 (split; [done|]). split; [|done]. split; [done|]. split; [by apply Hlt|done].
    + intros [= <- <-]. assert (used t ie) as Hu by (unfold used; lia). split; [done|]. split; [done|].
      split; [by apply advance_ok|]. by case_if.
  - destruct Hth as [Hie E]. intros [= <- <-].
    destruct (store_shape t (op_key o) ie (mk_entry (key (entries t !!! ie)) (op_value o)) Hs Hk E) as (? & ? & ?);
      [by left|]. do 2 (split; [done|]). by split.
  - intros [= <- <-]. do 2 (split; [done|]). by split.
  - done.
Qed.

Definition inv (s : state) : Prop := shape s.1 /\ Forall (thread_ok s.1) s.2.

Lemma step_ok i s s' : inv s -> step i s = Some s' ->
  inv s' /\ grows s.1 s'.1 /\ t_op <$> s'.2 = t_op <$> s.2.
Proof.
  destruct s as [t ths]. intros [Hs Hths] E. unfold step in E. cbn [fst snd] in *.
  destruct (ths !! i) as [th|] eqn:Ei; [|done]. cbn in E.
  destruct (thread_step t th) as [[t' th']|] eqn:Et; [|done]. injection E as <-.
  assert (thread_ok t th) as Hth by (by eapply Forall_lookup_1).
  destruct (thread_step_ok t th t' th' Hs Hth Et) as (Hs' & Hg & Hth' & Eo). split; [split; [done|]|split; [done|]].
  - apply Forall_insert; [|done]. eapply Forall_impl; [exact Hths|]. intros. by eapply grows_thread_ok.
  - cbn [snd]. rewrite list_fmap_insert, Eo. apply list_insert_id. by rewrite list_lookup_fmap, Ei.
Qed.

Lemma run_ok schedule s s' : inv s -> run schedule s = Some s' ->
  inv s' /\ grows s.1 s'.1 /\ t_op <$> s'.2 = t_op <$> s.2.
Proof.
  revert s. induction schedule as [|i schedule IH]; intros s Hi E; cbn [run] in E.
  { injection E as <-. split; [done|]. split; [apply grows_refl|done]. }
  destruct (step i s) as [s1|] eqn:E1; [|done]. destruct (step_ok i s s1 Hi E1) as (Hi1 & Hg1 & Eo1).
  destruct (IH s1 Hi1 E) as (Hi2 & Hg2 & Eo2). split; [done|]. split; [by eapply grows_trans|congruence].
Qed.

(** Where the other threads leave a thread alone. *)
Lemma step_other i i' s s' th :
  step i s = Some s' -> s.2 !! i' = Some th -> i <> i' -> s'.2 !! i' = Some th.
Proof.
  destruct s as [t ths]. unfold step. cbn [fst snd]. intros E Hi Hn. destruct (ths !! i) as [th1|]; [|done]. cbn in E.
  destruct (thread_step t th1) as [[t' th']|]; [|done]. injection E as <-. cbn [snd]. by rewrite list_lookup_insert_ne.
Qed.

Lemma step_self i s s' :
  step i s = Some s' -> exists th th', s.2 !! i = Some th /\ thread_step s.1 th = Some (s'.1, th') /\ s'.2 !! i = Some th'.
Proof.
  destruct s as [t ths]. unfold step. cbn [fst snd]. intros E. destruct (ths !! i) as [th1|] eqn:Ei; [|done]. cbn in E.
  destruct (thread_step t th1) as [[t' th']|] eqn:Et; [|done]. injection E as <-. cbn [fst snd]. exists th1, th'.
  rewrite list_lookup_insert_eq by (by eapply lookup_lt_Some). done.
Qed.

Lemma start_inv t os :
  wf hash t -> Forall (fun o => op_key o <> 0) os -> inv (t, start t <$> os).
Proof.
  intros Hwf Hos. split; [constructor; apply Hwf|]. apply Forall_fmap. eapply Forall_impl; [exact Hos|].
  intros o Ho. split; [done|]. exists 0%nat. simpl. pose proof (wf_capacity _ _ Hwf). rewrite probe_0 by done.
  repeat split; [done|]. intros; lia.
Qed.

(** However the threads interleave, a key stays in the slot that it got, the
    slots before it on its probe path are in use, and no thread changes the
    operation it performs. *)
Theorem hashtable_concurrent_keys_stay t os schedule s' :
  wf hash t -> Forall (fun o => op_key o <> 0) os ->
  run schedule (t, start t <$> os) = Some s' ->
  shape s'.1 /\ grows t s'.1 /\ t_op <$> s'.2 = os.
Proof.
  intros Hwf Hos E. destruct (run_ok schedule _ s' (start_inv t os Hwf Hos) E) as ([Hs _] & Hg & Eo).
  split; [done|]. split; [done|]. rewrite Eo. cbn [snd]. rewrite <- list_fmap_compose. apply list_fmap_id.
Qed.

(** A thread that looks for a key which is at step [m] of its probe path. *)
Definition on_track (t : hashtable_t) (k : Z) (m : nat) (p : pc) : Prop :=
  match p with
  | Load ie => exists j, (j <= m)%nat /\ ie = probe hash t k j
  | Cas _ => False
  | _ => True
  end.

Lemma on_track_step t th t' th' m :
  shape t -> thread_ok t th -> (m < capacity t)%nat -> key (entries t !!! probe hash t (op_key (t_op th)) m) = op_key (t_op th) ->
  on_track t (op_key (t_op th)) m (t_pc th) -> thread_step t th = Some (t', th') ->
  on_track t' (op_key (t_op th)) m (t_pc th') /\
  (forall r, t_pc th' = Done r -> exists ie, t_pc th = Write ie \/ t_pc th = Read ie).
Proof.
  destruct th as [o p]. intros Hs Hth Hm Hkm. pose proof (shape_capacity _ Hs) as Hc. unfold thread_step. cbn [t_op t_pc] in *.
  destruct p as [ie|ie|ie|ie|r]; cbn [on_track]; [|done|intros _ [= <- <-]; split; [done|]; intros; by exists ie; auto..|done].
  intros (j & Hj & ->) E.
  assert (key (entries t !!! probe hash t (op_key o) j) <> 0) as Hu.
  { destruct Hth as [Hk _]. cbn [t_op] in Hk. destruct (decide (j = m)) as [->|]; [by rewrite Hkm|].
    pose proof (shape_path _ Hs (probe hash t (op_key o) m) m j) as Hp. unfold used in Hp. rewrite Hkm in Hp.
    apply Hp; try done; [by apply probe_lt|lia]. }
  apply Z.eqb_neq in Hu. rewrite Hu in E. rewrite probe_S, <- (probe_0 hash t (op_key o)), probe_wraps in E by lia.
  destruct (Z.eqb_spec (key (entries t !!! probe hash t (op_key o) j)) (op_key o)) as [Ek|Ek].
  { destruct o; injection E as <- <-; split; done. }
  assert (j <> m) by (intros ->; done). destruct (Nat.eqb_spec (S j) (capacity t)) as [|_]; [lia|].
  assert (t' = t /\ th' = mk_thread o (Load (probe hash t (op_key o) (S j)))) as [-> ->]
    by (destruct o; by injection E as <- <-).
  split; [|done]. exists (S j). split; [lia|done].
Qed.

Lemma on_track_grows t t' k m p : grows t t' -> on_track t k m p -> on_track t' k m p.
Proof.
  intros Hg. destruct p; try done. intros (j & Hj & ->). exists j. by rewrite (grows_probe t t').
Qed.

Lemma on_track_run schedule s s' i o p sl m :
  inv s -> s.2 !! i = Some (mk_thread o p) -> (m < capacity s.1)%nat -> sl = probe hash s.1 (op_key o) m ->
  key (entries s.1 !!! sl) = op_key o -> on_track s.1 (op_key o) m p -> run schedule s = Some s' ->
  exists p', s'.2 !! i = Some (mk_thread o p') /\ on_track s'.1 (op_key o) m p'.
Proof.
  revert s p. induction schedule as [|i1 schedule IH]; intros s p Hi Hth Hm Esl Hk Ht E; cbn [run] in E.
  { injection E as <-. by exists p. }
  destruct (step i1 s) as [s1|] eqn:E1; [|done]. destruct (step_ok i1 s s1 Hi E1) as (Hi1 & Hg1 & Eo1).
  assert (thread_ok s.1 (mk_thread o p)) as Hok by (eapply Forall_lookup_1; [apply Hi|done]).
  assert (key (entries s1.1 !!! sl) = op_key o) as Hk1.
  { rewrite (proj2 Hg1); [done|]. unfold used. rewrite Hk. apply Hok. }
  assert (exists p1, s1.2 !! i = Some (mk_thread o p1) /\ on_track s1.1 (op_key o) m p1) as (p1 & Hp1 & Ht1).
  { destruct (decide (i1 = i)) as [->|Hn].
    - destruct (step_self i s s1 E1) as (th & th1 & Hth' & Est & Hp1). rewrite Hth in Hth'. injection Hth' as <-.
      destruct (on_track_step s.1 (mk_thread o p) s1.1 th1 m) as [Ht1 _]; try done; [apply Hi|by subst sl|].
      destruct (thread_step_ok s.1 (mk_thread o p) s1.1 th1) as (_ & _ & _ & Eo); [apply Hi|done|done|].
      exists (t_pc th1). split; [|done]. rewrite Hp1. destruct th1. simpl in *. by subst.
    - exists p. split; [by eapply step_other|by eapply on_track_grows]. }
  apply (IH s1 p1); try done; [by rewrite (proj1 Hg1)|by rewrite (grows_probe s.1)].
Qed.

(** C14: an operation on a key that is in the table when it starts finds it: however
    the other threads move, it returns only from a slot with that key. *)
Theorem hashtable_concurrent_finds t os schedule s' i o sl :
  wf hash t -> Forall (fun o => op_key o <> 0) os -> os !! i = Some o ->
  (sl < capacity t)%nat -> key (entries t !!! sl) = op_key o ->
  run schedule (t, start t <$> os) = Some s' ->
  exists p, s'.2 !! i = Some (mk_thread o p) /\
    forall t2 o2 r, thread_step s'.1 (mk_thread o p) = Some (t2, mk_thread o2 (Done r)) ->
    exists ie, (p = Write ie \/ p = Read ie) /\ (ie < capacity t)%nat /\ key (entries s'.1 !!! ie) = op_key o.
Proof.
  intros Hwf Hos Hi Hsl Hk E. pose proof (start_inv t os Hwf Hos) as Hinv.
  destruct (probe_surj hash t (op_key o) sl Hsl) as (m & Hm & Ep).
  destruct (on_track_run schedule _ s' i o (Load (first_slot hash t (op_key o))) sl m Hinv) as (p & Hp & Ht); try done.
  { cbn [snd]. by rewrite list_lookup_fmap, Hi. }
  { exists 0%nat. split; [lia|]. rewrite probe_0; [done|apply Hwf]. }
  exists p. split; [done|]. intros t2 o2 r Est.
  destruct (run_ok schedule _ s' Hinv E) as ([Hs' Hths'] & Hg & _). cbn [fst] in Hg.
  assert (thread_ok s'.1 (mk_thread o p)) as Hok by (by eapply Forall_lookup_1).
  destruct (on_track_step s'.1 (mk_thread o p) t2 (mk_thread o2 (Done r)) m) as [_ Hret]; try done.
  { by rewrite (proj1 Hg). }
  { cbn [t_op]. rewrite (grows_probe t), Ep, (proj2 Hg) by first [done|unfold used; rewrite Hk; apply Hok]. done. }
  destruct (Hret r eq_refl) as (ie & Hie). exists ie. split; [done|]. cbn [t_pc] in Hie. rewrite <- (proj1 Hg).
  destruct Hok as [_ Hok]. cbn [t_pc t_op] in Hok. by destruct Hie as [-> | ->].
Qed.

(** An upper bound on the moves that a thread has left. *)
Definition moves_left (t : hashtable_t) (th : thread) (n : nat) : Prop :=
  match t_pc th with
  | Load ie => exists j, (j < capacity t)%nat /\ ie = probe hash t (op_key (t_op th)) j /\ n = (2 * (capacity t - j) + 1)%nat
  | Cas ie => exists j, (j < capacity t)%nat /\ ie = probe hash t (op_key (t_op th)) j /\ n = (2 * (capacity t - j))%nat
  | Write _ | Read _ => n = 1%nat
  | Done _ => n = 0%nat
  end.

Lemma moves_left_grows t t' th n : grows t t' -> moves_left t th n -> moves_left t' th n.
Proof.
  intros Hg. unfold moves_left. destruct (t_pc th); try done; intros (j & Hj & -> & ->); exists j;
    rewrite (proj1 Hg), (grows_probe t t') by done; done.
Qed.

Lemma moves_left_step t th t' th' n :
  (0 < capacity t)%nat -> moves_left t th n -> thread_step t th = Some (t', th') ->
  exists n', moves_left t' th' n' /\ (n' < n)%nat.
Proof.
  destruct th as [o p]. unfold thread_step. cbn [t_op t_pc]. intros Hc.
  assert (forall j, (j < capacity t)%nat -> exists n', moves_left t
      (if ((probe hash t (op_key o) j + 1) mod capacity t =? first_slot hash t (op_key o))%nat
       then mk_thread o (Done 0) else mk_thread o (Load ((probe hash t (op_key o) j + 1) mod capacity t))) n' /\
      (n' < 2 * (capacity t - j))%nat) as Ha.
  { intros j Hj. rewrite probe_S, <- (probe_0 hash t (op_key o)) by done. rewrite probe_wraps by done.
    destruct (Nat.eqb_spec (S j) (capacity t)); [exists 0%nat; split; [done|lia]|].
    exists (2 * (capacity t - S j) + 1)%nat. split; [|lia]. exists (S j). split; [lia|done]. }
  destruct p as [ie|ie|ie|ie|r]; cbn [moves_left t_pc t_op].
  - intros (j & Hj & -> & ->). destruct (Ha j Hj) as (n' & Hn' & Hlt).
    destruct o as [k v|k|k]; cbn [op_key] in *; (case_if; [|case_if]); intros [= <- <-];
      first [solve [exists 1%nat; split; [done|lia]]|solve [exists 0%nat; split; [done|lia]]|
        solve [exists n'; split; [done|lia]]|idtac].
    exists (2 * (capacity t - j))%nat. split; [|lia]. by exists j.
  - intros (j & Hj & -> & ->). destruct (Ha j Hj) as (n' & Hn' & Hlt). case_if; intros [= <- <-].
    + exists 1%nat. split; [done|lia].
    + exists n'. split; [done|lia].
  - intros -> [= <- <-]. exists 0%nat. split; [done|lia].
  - intros -> [= <- <-]. exists 0%nat. split; [done|lia].
  - done.
Qed.

Lemma moves_left_run schedule s s' i th n :
  inv s -> s.2 !! i = Some th -> moves_left s.1 th n -> run schedule s = Some s' ->
  (length (filter (eq i) schedule) <= n)%nat.
Proof.
  revert s th n. induction schedule as [|i1 schedule IH]; intros s th n Hi Hth Hm E; cbn [run] in E; [simpl; lia|].
  destruct (step i1 s) as [s1|] eqn:E1; [|done]. destruct (step_ok i1 s s1 Hi E1) as (Hi1 & Hg1 & _).
  rewrite filter_cons. case_decide as Hii.
  - subst i1. destruct (step_self i s s1 E1) as (th0 & th1 & Hth' & Est & Hp1). rewrite Hth in Hth'. injection Hth' as <-.
    destruct (moves_left_step s.1 th s1.1 th1 n) as (n' & Hm1 & Hlt); [apply Hi|done|done|].
    specialize (IH s1 th1 n' Hi1 Hp1 Hm1 E). cbn [length]. lia.
  - apply (IH s1 th n); try done; [eapply step_other; [exact E1|exact Hth|by intros ->]|by eapply moves_left_grows].
Qed.

(** C15: every operation is wait-free: it makes at most two moves per slot and one
    more, whatever the other threads do, and can move until it has returned. *)
Theorem hashtable_concurrent_wait_free t os schedule s' i :
  wf hash t -> Forall (fun o => op_key o <> 0) os -> (i < length os)%nat ->
  run schedule (t, start t <$> os) = Some s' ->
  (length (filter (eq i) schedule) <= 2 * capacity t + 1)%nat /\
  ((exists th r, s'.2 !! i = Some th /\ t_pc th = Done r) \/ is_Some (step i s')).
Proof.
  intros Hwf Hos Hi E. pose proof (start_inv t os Hwf Hos) as Hinv. apply lookup_lt_is_Some in Hi as [o Ho]. split.
  - apply (moves_left_run schedule (t, start t <$> os) s' i (start t o)); [done| |..|done].
    + cbn [snd]. by rewrite list_lookup_fmap, Ho.
    + exists 0%nat. pose proof (wf_capacity _ _ Hwf). cbn [start t_op t_pc fst]. rewrite probe_0, Nat.sub_0_r by done. done.
  - destruct (run_ok schedule _ s' Hinv E) as (_ & _ & Eo). cbn [snd] in Eo.
    assert (is_Some (s'.2 !! i)) as [th Hth].
    { apply lookup_lt_is_Some. apply (f_equal length) in Eo. rewrite !length_fmap in Eo. rewrite Eo. by eapply lookup_lt_Some. }
    destruct (t_pc th) eqn:Ep; [right..|left; by exists th, r]; unfold step; rewrite Hth; cbn; unfold thread_step; rewrite Ep;
      destruct (t_op th); repeat case_match; simplify_eq; cbn; by eexists.
Qed.

(** Two threads that set the same new key in a table with one slot: the one
    whose compare-and-swap fails looks at the next slot instead of the one that
    now holds its key, and reports a full table, although the key is there and
    a set after the other one would have succeeded. *)
Theorem hashtable_concurrent_set_lost k v1 v2 :
  k <> 0 ->
  let t := hashtable_initialize 1 in
  run [0; 1; 1; 1; 0]%nat (t, [start t (OpSet k v1); start t (OpSet k v2)]) =
    Some (mk_table 1 [mk_entry k v2], [mk_thread (OpSet k v1) (Done 0); mk_thread (OpSet k v2) (Done 1)]) /\
  hashtable_set hash t k v2 = Some (true, mk_table 1 [mk_entry k v2]) /\
  hashtable_set hash (mk_table 1 [mk_entry k v2]) k v1 = Some (true, mk_table 1 [mk_entry k v1]).
Proof.
  intros Hk t. assert (forall es, first_slot hash (mk_table 1 es) k = 0%nat) as Hf
    by (intros; unfold first_slot; cbn [capacity]; by rewrite Z.mod_1_r).
  assert ((0 =? k) = false /\ (k =? 0) = false) as [Hk1 Hk2] by (split; by apply Z.eqb_neq).
  unfold hashtable_set, run, step, start, t, hashtable_initialize. cbn [op_key capacity replicate]. rewrite !Hf.
  split; [|split]; [do 10 (cbn -[first_slot Z.eqb]; unfold store; rewrite ?Hf, ?Hk1, ?Hk2, ?Z.eqb_refl); cbn; done|..];
    cbn -[Z.eqb]; by rewrite ?Hk1, ?Z.eqb_refl.
Qed.
End steps.
End Concurrent.

(** ** Witnesses *)

Definition sample_table : hashtable_t := hashtable_initialize 4.

Lemma hashtable_hash_sample_wf : wf hashtable32_hash sample_table.
Proof. apply empty_wf. lia. Qed.

Lemma hashtable_refines_map_witness :
  (forall k, k <> 0 -> hashtable32_get sample_table k = Some (default 0 (content sample_table !! k))) /\
  (forall k v, k <> 0 ->
     if decide (content sample_table !! k = None /\ size (content sample_table) = 4%nat)
     then hashtable32_set sample_table k v = Some (false, sample_table)
     else exists t', hashtable32_set sample_table k v = Some (true, t') /\ wf hashtable32_hash t' /\
       content t' = <[k := v]> (content sample_table)) /\
  (forall k, k <> 0 -> exists t', hashtable32_erase sample_table k = Some t' /\ wf hashtable32_hash t' /\
     content t' = alter (fun _ => 0) k (content sample_table)) /\
  hashtable32_size sample_table = length (filter (fun kv : Z * Z => kv.2 <> 0%Z) (map_to_list (content sample_table))) /\
  wf hashtable32_hash (hashtable32_clear sample_table) /\ content (hashtable32_clear sample_table) = ∅.
Proof. apply (hashtable_refines_map hashtable32_hash sample_table hashtable_hash_sample_wf). Defined.

Module ConcurrentWitnesses.
Import Concurrent.

Definition sample_ops : list op := [OpSet 7 70; OpSet 9 90; OpGet 7; OpErase 9].
Definition sample_schedule : list nat := [0; 0; 1; 2; 0; 1; 2; 1; 3; 3]%nat.
Definition sample_start : state := (sample_table, start hashtable64_hash sample_table <$> sample_ops).
Definition sample_end : state := default sample_start (run hashtable64_hash sample_schedule sample_start).

Lemma sample_wf : wf hashtable64_hash sample_table.
Proof. apply empty_wf. lia. Qed.

Lemma sample_ops_ok : Forall (fun o => op_key o <> 0) sample_ops.
Proof. unfold sample_ops. repeat constructor; done. Qed.

Lemma hashtable_concurrent_keys_stay_witness :
  shape hashtable64_hash sample_end.1 /\ grows sample_table sample_end.1 /\ t_op <$> sample_end.2 = sample_ops.
Proof.
  apply (hashtable_concurrent_keys_stay hashtable64_hash sample_table sample_ops sample_schedule sample_end sample_wf sample_ops_ok).
  vm_compute. reflexivity.
Defined.

Lemma hashtable_concurrent_wait_free_witness :
  (length (filter (eq 2%nat) sample_schedule) <= 9)%nat /\
  ((exists th r, sample_end.2 !! 2%nat = Some th /\ t_pc th = Done r) \/ is_Some (step hashtable64_hash 2 sample_end)).
Proof.
  apply (hashtable_concurrent_wait_free hashtable64_hash sample_table sample_ops sample_schedule sample_end 2 sample_wf sample_ops_ok);
    [simpl; lia|]. vm_compute. reflexivity.
Defined.

Definition filled_table : hashtable_t :=
  match hashtable64_set sample_table 7 70 with Some (_, t) => t | None => sample_table end.

Lemma filled_wf : wf hashtable64_hash filled_table.
Proof.
  unfold filled_table, hashtable64_set.
  destruct (hashtable_set hashtable64_hash sample_table 7 70) as [[b t]|] eqn:E; [|apply sample_wf].
  by eapply hashtable_set_wf; [apply sample_wf| |exact E].
Qed.

Definition found_end : state :=
  default sample_start (run hashtable64_hash [0; 1; 0]%nat
    (filled_table, start hashtable64_hash filled_table <$> [OpGet 7; OpErase 7])).

Definition slot_of_7 : nat := first_slot hashtable64_hash sample_table 7.

Lemma hashtable_concurrent_finds_witness :
  exists p, found_end.2 !! 1%nat = Some (mk_thread (OpErase 7) p) /\
    forall t2 o2 r, thread_step hashtable64_hash found_end.1 (mk_thread (OpErase 7) p) = Some (t2, mk_thread o2 (Done r)) ->
    exists ie, (p = Write ie \/ p = Read ie) /\ (ie < 4)%nat /\ key (entries found_end.1 !!! ie) = 7.
Proof.
  apply (hashtable_concurrent_finds hashtable64_hash filled_table [OpGet 7; OpErase 7] [0; 1; 0]%nat found_end
    1 (OpErase 7) slot_of_7 filled_wf).
  - by repeat constructor.
  - done.
  - apply Nat.ltb_lt. vm_compute. reflexivity.
  - vm_compute. reflexivity.
  - vm_compute. reflexivity.
Defined.

Lemma hashtable_concurrent_set_lost_witness :
  run hashtable64_hash [0; 1; 1; 1; 0]%nat (hashtable_initialize 1,
      [start hashtable64_hash (hashtable_initialize 1) (OpSet 5 6); start hashtable64_hash (hashtable_initialize 1) (OpSet 5 7)]) =
    Some (mk_table 1 [mk_entry 5 7], [mk_thread (OpSet 5 6) (Done 0); mk_thread (OpSet 5 7) (Done 1)]) /\
  hashtable64_set (hashtable_initialize 1) 5 7 = Some (true, mk_table 1 [mk_entry 5 7]) /\
  hashtable64_set (mk_table 1 [mk_entry 5 7]) 5 6 = Some (true, mk_table 1 [mk_entry 5 6]).
Proof. apply (hashtable_concurrent_set_lost hashtable64_hash 5 6 7). lia. Defined.
End ConcurrentWitnesses.
End HashTable.
