(* ===== verification/HashMaps.v ===== *)
(** * Hash maps ([src/library/foundation_lib/foundation/hashmap.c] and [uuidmap.c])

    A fixed number of buckets, each a growable array of nodes.  The two files
    differ in the type of the keys, in how a key selects a bucket and in how keys
    are compared: the class [MapKey] states these; its instances are the two key
    types. *)
From S2P Require Import Prelude Hash.

Module HashMaps.

(** [GET_BUCKET] before the modulus, and the comparison of keys. *)
Class MapKey (K : Type) `{Countable K} := {
  bucket_word : K -> Z;
  key_equal : K -> K -> bool;
  key_equal_spec k1 k2 : key_equal k1 k2 = bool_decide (k1 = k2);
}.

#[export] Program Instance hash_key : MapKey Z := {
  bucket_word k := k;
  key_equal k1 k2 := k1 =? k2;
}.
Next Obligation. intros. by case_bool_decide; [apply Z.eqb_eq|apply Z.eqb_neq]. Qed.

(** [uuid_t]: the two words of a [uint128_t]. *)
Definition uuid_t : Type := Z * Z.
Definition uuid_equal (u0 u1 : uuid_t) : bool := (u0.1 =? u1.1) && (u0.2 =? u1.2).

#[export] Program Instance uuid_key : MapKey uuid_t := {
  bucket_word k := Z.lxor k.1 k.2;
  key_equal := uuid_equal;
}.
Next Obligation.
  intros [a b] [c d]. unfold uuid_equal. simpl. case_bool_decide as E.
  - injection E as -> ->. by rewrite !Z.eqb_refl.
  - destruct (Z.eqb_spec a c), (Z.eqb_spec b d); try done. by subst.
Qed.

Section operations.
Context `{MK : MapKey K}.

(** A null bucket is an empty array. *)
Record hashmap_t := mk_map {
  bucket_count : nat;
  node_count : Z;
  buckets : list (list (K * Z));
}.

Definition HASHMAP_MINBUCKETS : nat := 13.

Definition hashmap_initialize (count : nat) : hashmap_t := mk_map count 0 (replicate count []).

Definition hashmap_allocate (count : nat) : hashmap_t :=
  hashmap_initialize (if (count <? HASHMAP_MINBUCKETS)%nat then HASHMAP_MINBUCKETS else count).

Definition get_bucket (map : hashmap_t) (key : K) : nat :=
  Z.to_nat (bucket_word key mod Z.of_nat (bucket_count map)).

(** The loop over the nodes: the first one from [inode] on with the key. *)
Fixpoint find_node (bucket : list (K * Z)) (key : K) (inode : nat) : option (nat * Z) :=
  match bucket with
  | [] => None
  | (k, v) :: bucket => if key_equal k key then Some (inode, v) else find_node bucket key (S inode)
  end.

Definition set_bucket (map : hashmap_t) (ibucket : nat) (bucket : list (K * Z)) (count : Z) : hashmap_t :=
  mk_map (bucket_count map) count (<[ibucket := bucket]> (buckets map)).

(** [array_erase]: the last element replaces the erased one. *)
Definition array_erase {A} (l : list A) (pos : nat) : list A :=
  match last l with
  | Some x => take (length l - 1) (<[pos := x]> l)
  | None => l
  end.

(** The previous value, or 0, and the map. *)
Definition hashmap_insert (map : hashmap_t) (key : K) (value : Z) : Z * hashmap_t :=
  let ibucket := get_bucket map key in
  let bucket := buckets map !!! ibucket in
  match find_node bucket key 0 with
  | Some (inode, prev) => (prev, set_bucket map ibucket (<[inode := (key, value)]> bucket) (node_count map))
  | None => (0, set_bucket map ibucket (bucket ++ [(key, value)]) (u64 (node_count map + 1)))
  end.

Definition hashmap_erase (map : hashmap_t) (key : K) : Z * hashmap_t :=
  let ibucket := get_bucket map key in
  let bucket := buckets map !!! ibucket in
  match find_node bucket key 0 with
  | Some (inode, prev) => (prev, set_bucket map ibucket (array_erase bucket inode) (u64 (node_count map - 1)))
  | None => (0, map)
  end.

Definition hashmap_lookup (map : hashmap_t) (key : K) : Z :=
  match find_node (buckets map !!! get_bucket map key) key 0 with Some (_, value) => value | None => 0 end.

Definition hashmap_has_key (map : hashmap_t) (key : K) : bool :=
  match find_node (buckets map !!! get_bucket map key) key 0 with Some _ => true | None => false end.

Definition hashmap_size (map : hashmap_t) : Z := node_count map.

Definition hashmap_clear (map : hashmap_t) : hashmap_t :=
  mk_map (bucket_count map) 0 ((fun _ => []) <$> buckets map).

(** [fn(value, context)] returns the context as it leaves it. *)
Definition hashmap_foreach {C} (map : hashmap_t) (fn : Z -> C -> C) (context : C) : C :=
  foldl (fun context bucket => foldl (fun context node => fn node.2 context) context bucket) context (buckets map).
End operations.
#[global] Arguments hashmap_t K : clear implicits.

Definition uuidmap_initialize := hashmap_initialize (K := uuid_t).
Definition uuidmap_allocate := hashmap_allocate (K := uuid_t).
Definition uuidmap_insert := hashmap_insert (K := uuid_t).
Definition uuidmap_erase := hashmap_erase (K := uuid_t).
Definition uuidmap_lookup := hashmap_lookup (K := uuid_t).
Definition uuidmap_has_key := hashmap_has_key (K := uuid_t).
Definition uuidmap_size := hashmap_size (K := uuid_t).
Definition uuidmap_clear := hashmap_clear (K := uuid_t).
Definition uuidmap_foreach {C} := hashmap_foreach (K := uuid_t) (C := C).

(** ** The map as a finite map *)

Section refinement.
Context `{MK : MapKey K}.
Implicit Types (m : hashmap_t K) (l : list (K * Z)).

Definition nodes m : list (K * Z) := concat (buckets m).
Definition content m : gmap K Z := list_to_map (nodes m).

Record wf m : Prop := {
  wf_count : (0 < bucket_count m)%nat;
  wf_length : length (buckets m) = bucket_count m;
  wf_nodup : NoDup (nodes m).*1;
  wf_bucket b l k v : buckets m !! b = Some l -> (k, v) ∈ l -> get_bucket m k = b;
  wf_nodes : node_count m = u64 (Z.of_nat (length (nodes m)));
}.

Lemma find_node_spec l k n :
  match find_node l k n with
  | Some (i, v) => exists l1 l2, l = l1 ++ (k, v) :: l2 /\ i = (n + length l1)%nat
  | None => forall v, (k, v) ∉ l
  end.
Proof.
  revert n. induction l as [|[k' v'] l IH]; intros n; cbn [find_node]; [by intros v ?%elem_of_nil|].
  rewrite key_equal_spec. case_bool_decide as E.
  - subst k'. exists [], l. split; [done|simpl; lia].
  - specialize (IH (S n)). destruct (find_node l k (S n)) as [[i v]|].
    + destruct IH as (l1 & l2 & -> & ->). exists ((k', v') :: l1), l2. split; [done|simpl; lia].
    + intros v [[= -> ->]|Hin]%elem_of_cons; [done|]. by eapply IH.
Qed.

Lemma array_erase_perm {A} (l1 l2 : list A) x : array_erase (l1 ++ x :: l2) (length l1) ≡ₚ l1 ++ l2.
Proof.
  unfold array_erase.
  destruct l2 as [|y l2 _] using rev_ind.
  - rewrite last_snoc. rewrite insert_app_r_alt, Nat.sub_diag by lia. cbn [insert list_insert].
    rewrite take_app_le, take_ge, app_nil_r by (rewrite length_app; simpl; lia). done.
  - rewrite app_comm_cons, app_assoc, last_snoc.
    rewrite <- app_assoc, insert_app_r_alt, Nat.sub_diag by lia. simpl.
    rewrite !length_app. cbn [length]. rewrite length_app. cbn [length].
    rewrite take_app_ge by lia. replace (length l1 + S (length l2 + 1) - 1 - length l1)%nat with (S (length l2)) by lia.
    cbn [take]. rewrite take_app_le, take_ge by lia. by rewrite (Permutation_app_comm l2 [y]).
Qed.

Lemma bucket_lookup m k : wf m -> buckets m !! get_bucket m k = Some (buckets m !!! get_bucket m k).
Proof.
  intros Hwf. apply list_lookup_lookup_total_lt. rewrite (wf_length _ Hwf). pose proof (wf_count _ Hwf). unfold get_bucket.
  pose proof (Z.mod_pos_bound (bucket_word k) (Z.of_nat (bucket_count m))). lia.
Qed.

(** The bucket of a key and the nodes around it. *)
Lemma bucket_split m k :
  wf m ->
  exists b1 b2, buckets m = b1 ++ buckets m !!! get_bucket m k :: b2 /\ length b1 = get_bucket m k /\
    forall l, concat (<[get_bucket m k := l]> (buckets m)) ≡ₚ l ++ concat (b1 ++ b2).
Proof.
  intros Hwf. pose proof (bucket_lookup m k Hwf) as El. pose proof (lookup_lt_Some _ _ _ El) as Hb.
  exists (take (get_bucket m k) (buckets m)), (drop (S (get_bucket m k)) (buckets m)).
  split; [by rewrite take_drop_middle|].
  split; [rewrite length_take; lia|]. intros l. rewrite insert_take_drop by done. rewrite !concat_app. simpl.
  rewrite !app_assoc. by rewrite (Permutation_app_comm _ l).
Qed.

Lemma nodes_split m k :
  wf m -> exists rest, nodes m ≡ₚ (buckets m !!! get_bucket m k) ++ rest /\
    (forall l c, nodes (set_bucket m (get_bucket m k) l c) ≡ₚ l ++ rest) /\ (forall v, (k, v) ∉ rest).
Proof.
  intros Hwf. destruct (bucket_split m k Hwf) as (b1 & b2 & E & Hl & Hp). exists (concat (b1 ++ b2)). split; [|split].
  - unfold nodes. rewrite <- Hp, list_insert_id; [done|]. by apply bucket_lookup.
  - intros l c. apply Hp.
  - intros v Hin. apply list_elem_of_In, in_concat in Hin as (l & Hl1 & Hl2). apply list_elem_of_In in Hl1, Hl2.
    apply elem_of_app in Hl1 as [Hl1|Hl1]; apply list_elem_of_lookup in Hl1 as [i Hi].
    + assert (get_bucket m k = i) as Hg; [|apply lookup_lt_Some in Hi; lia].
      eapply (wf_bucket _ Hwf); [|exact Hl2]. rewrite E. by apply lookup_app_l_Some.
    + assert (get_bucket m k = (length b1 + S i)%nat) as Hg; [|lia].
      eapply (wf_bucket _ Hwf); [|exact Hl2]. rewrite E, lookup_app_r by lia.
      by replace (length b1 + S i - length b1)%nat with (S i) by lia.
Qed.

Lemma content_perm m l : wf m -> nodes m ≡ₚ l -> content m = list_to_map l.
Proof. intros Hwf E. unfold content. apply list_to_map_proper; [apply Hwf|done]. Qed.

(** What the loop over the bucket of a key finds, and the rest of the nodes. *)
Lemma find_content m k :
  wf m ->
  match find_node (buckets m !!! get_bucket m k) k 0 with
  | Some (i, v) => content m !! k = Some v /\ exists l1 l2, buckets m !!! get_bucket m k = l1 ++ (k, v) :: l2 /\ i = length l1
  | None => content m !! k = None
  end.
Proof.
  intros Hwf. destruct (nodes_split m k Hwf) as (rest & Hn & _ & Hrest).
  pose proof (find_node_spec (buckets m !!! get_bucket m k) k 0) as Hf. rewrite (content_perm m _ Hwf Hn).
  destruct (find_node _ k 0) as [[i v]|].
  - destruct Hf as (l1 & l2 & E & ->). split; [|by exists l1, l2]. apply elem_of_list_to_map_1.
    + rewrite <- Hn. apply Hwf.
    + rewrite E. apply elem_of_app. left. apply elem_of_app. right. by left.
  - apply not_elem_of_list_to_map_1. rewrite list_elem_of_fmap. intros ([k' v] & -> & Hin). simpl in *.
    apply elem_of_app in Hin as [Hin|Hin]; [by eapply Hf|by eapply Hrest].
Qed.

(** Replacing the bucket of [k] by the nodes [l] keeps the other nodes. *)
Lemma set_bucket_wf m k l c :
  wf m -> NoDup (nodes (set_bucket m (get_bucket m k) l c)).*1 ->
  (forall k' v, (k', v) ∈ l -> get_bucket m k' = get_bucket m k) ->
  c = u64 (Z.of_nat (length (nodes (set_bucket m (get_bucket m k) l c)))) ->
  wf (set_bucket m (get_bucket m k) l c).
Proof.
  intros Hwf Hnd Hl Hc. constructor; try done.
  - apply Hwf.
  - simpl. rewrite length_insert. apply Hwf.
  - intros b l' k' v Hb Hin. simpl in Hb. apply list_lookup_insert_Some in Hb as [(<- & <- & _)|[_ Hb]].
    + by eapply Hl.
    + by eapply (wf_bucket _ Hwf).
Qed.

Lemma in_bucket m k k' v : wf m -> (k', v) ∈ buckets m !!! get_bucket m k -> get_bucket m k' = get_bucket m k.
Proof.
  intros Hwf Hin. eapply (wf_bucket _ Hwf); [|exact Hin]. by apply bucket_lookup.
Qed.

Lemma insert_ok m k v :
  wf m -> let '(prev, m') := hashmap_insert m k v in
  prev = default 0 (content m !! k) /\ wf m' /\ content m' = <[k := v]> (content m).
Proof.
  intros Hwf. unfold hashmap_insert. pose proof (find_content m k Hwf) as Hf.
  destruct (nodes_split m k Hwf) as (rest & Hn & Hset & Hrest). set (bucket := buckets m !!! get_bucket m k) in *.
  destruct (find_node bucket k 0) as [[i prev]|].
  - destruct Hf as (-> & l1 & l2 & E & ->). split; [done|].
    assert (<[length l1 := (k, v)]> bucket = l1 ++ (k, v) :: l2) as -> by (rewrite E; apply insert_mid).
    set (m' := set_bucket _ _ _ _).
    assert (nodes m ≡ₚ (k, prev) :: l1 ++ l2 ++ rest) as Hn1 by (rewrite Hn, E, <- app_assoc; simpl; symmetry; apply Permutation_middle).
    assert (nodes m' ≡ₚ (k, v) :: l1 ++ l2 ++ rest) as Hn2
      by (unfold m'; rewrite Hset, <- app_assoc; simpl; symmetry; apply Permutation_middle).
    assert (wf m') as Hwf'.
    { apply set_bucket_wf; [done| | |].
      - fold m'. rewrite Hn2. pose proof (wf_nodup _ Hwf) as Hnd. by rewrite Hn1 in Hnd.
      - intros k' v' Hin. apply elem_of_app in Hin as [Hin|[[= -> ->]|Hin]%elem_of_cons]; [|done|];
          apply (in_bucket m k k' v' Hwf); fold bucket; rewrite E; set_solver.
      - fold m'. rewrite Hn2. rewrite (wf_nodes _ Hwf), Hn1. done. }
    split; [done|]. rewrite (content_perm m' _ Hwf' Hn2), (content_perm m _ Hwf Hn1). simpl. by rewrite insert_insert_eq.
  - rewrite Hf. split; [done|]. set (m' := set_bucket _ _ _ _).
    assert (nodes m' ≡ₚ (k, v) :: nodes m) as Hn2
      by (unfold m'; rewrite Hset, Hn, <- app_assoc; simpl; symmetry; apply Permutation_middle).
    assert (wf m') as Hwf'.
    { apply set_bucket_wf; [done| | |].
      - fold m'. rewrite Hn2. simpl. constructor; [|apply Hwf]. rewrite list_elem_of_fmap.
        intros ([k' v'] & E & Hin). simpl in E. subst k'.
        assert (content m !! k = Some v') as Hc; [|congruence]. apply elem_of_list_to_map_1; [apply Hwf|done].
      - intros k' v' Hin. apply elem_of_app in Hin as [Hin|[= -> ->]%list_elem_of_singleton]; [|done]. by eapply in_bucket.
      - fold m'. rewrite Hn2. cbn [length]. rewrite (wf_nodes _ Hwf). autorewrite with cint. f_equal. lia. }
    split; [done|]. by rewrite (content_perm m' _ Hwf' Hn2).
Qed.

Lemma erase_ok m k :
  wf m -> let '(prev, m') := hashmap_erase m k in
  prev = default 0 (content m !! k) /\ wf m' /\ content m' = delete k (content m).
Proof.
  intros Hwf. unfold hashmap_erase. pose proof (find_content m k Hwf) as Hf.
  destruct (nodes_split m k Hwf) as (rest & Hn & Hset & Hrest). set (bucket := buckets m !!! get_bucket m k) in *.
  destruct (find_node bucket k 0) as [[i prev]|].
  - destruct Hf as (Hc & l1 & l2 & E & ->). rewrite Hc. split; [done|].
    pose proof (array_erase_perm l1 l2 (k, prev)) as He. rewrite <- E in He. set (l' := array_erase bucket _) in *.
    set (m' := set_bucket _ _ _ _).
    assert (nodes m ≡ₚ (k, prev) :: l1 ++ l2 ++ rest) as Hn1 by (rewrite Hn, E, <- app_assoc; simpl; symmetry; apply Permutation_middle).
    assert (nodes m' ≡ₚ l1 ++ l2 ++ rest) as Hn2 by (unfold m'; by rewrite Hset, He, <- app_assoc).
    pose proof (wf_nodup _ Hwf) as Hnd. rewrite Hn1 in Hnd. simpl in Hnd. apply NoDup_cons in Hnd as [Hk Hnd].
    assert (wf m') as Hwf'.
    { apply set_bucket_wf; [done| | |].
      - fold m'. by rewrite Hn2.
      - intros k' v' Hin. rewrite He in Hin. apply (in_bucket m k k' v' Hwf). fold bucket. rewrite E. set_solver.
      - fold m'. rewrite Hn2. rewrite (wf_nodes _ Hwf), Hn1. cbn [length]. unfold Z.sub. autorewrite with cint. f_equal. lia. }
    split; [done|]. rewrite (content_perm m' _ Hwf' Hn2), (content_perm m _ Hwf Hn1). simpl.
    rewrite delete_insert_id; [done|]. by apply not_elem_of_list_to_map_1.
  - rewrite Hf. split; [done|]. split; [done|]. by rewrite delete_id.
Qed.

Lemma empty_nodes n : nodes (mk_map n 0 (replicate n [])) = [].
Proof. unfold nodes. simpl. by induction n. Qed.

Lemma empty_ok n : (0 < n)%nat -> wf (hashmap_initialize n) /\ content (hashmap_initialize n) = ∅.
Proof.
  intros Hn. split; [|unfold content, hashmap_initialize; by rewrite empty_nodes]. constructor.
  - done.
  - apply length_replicate.
  - unfold hashmap_initialize. rewrite empty_nodes. constructor.
  - intros b l k v Hb Hin. simpl in Hb. apply lookup_replicate in Hb as [-> _]. by apply elem_of_nil in Hin.
  - unfold hashmap_initialize. by rewrite empty_nodes.
Qed.

Lemma clear_initialize m : wf m -> hashmap_clear m = hashmap_initialize (bucket_count m).
Proof.
  intros Hwf. unfold hashmap_clear, hashmap_initialize. f_equal. rewrite <- (wf_length _ Hwf).
  generalize (buckets m). intros bs. induction bs as [|b bs IH]; [done|]. by rewrite fmap_cons, IH.
Qed.

Lemma foreach_nodes {C} m (fn : Z -> C -> C) c : hashmap_foreach m fn c = foldl (fun c node => fn node.2 c) c (nodes m).
Proof.
  unfold hashmap_foreach, nodes. generalize (buckets m). intros bs. revert c.
  induction bs as [|b bs IH]; intros c; [done|]. rewrite concat_cons, foldl_app. apply IH.
Qed.

(** C18: a hash map is a finite map from keys to values, for both kinds of keys:
    lookup gives the value or 0, insertion and erasure give the previous value
    or 0 and update the map, the size is the number of keys modulo 2^64,
    clearing empties the map, and [foreach] visits every value exactly once. *)
Theorem hashmap_refines_map m :
  wf m ->
  (forall k, hashmap_lookup m k = default 0 (content m !! k) /\
     hashmap_has_key m k = bool_decide (is_Some (content m !! k))) /\
  (forall k v, let '(prev, m') := hashmap_insert m k v in
     prev = default 0 (content m !! k) /\ wf m' /\ content m' = <[k := v]> (content m)) /\
  (forall k, let '(prev, m') := hashmap_erase m k in
     prev = default 0 (content m !! k) /\ wf m' /\ content m' = delete k (content m)) /\
  hashmap_size m = u64 (Z.of_nat (size (content m))) /\
  (wf (hashmap_clear m) /\ content (hashmap_clear m) = ∅) /\
  (forall C (fn : Z -> C -> C) c, exists vs,
     hashmap_foreach m fn c = foldl (fun c v => fn v c) c vs /\ vs ≡ₚ (map_to_list (content m)).*2).
Proof.
  intros Hwf.
  assert (map_to_list (content m) ≡ₚ nodes m) as Hn by (apply map_to_list_to_map, Hwf).
  split; [|split; [|split; [|split; [|split]]]].
  - intros k. pose proof (find_content m k Hwf) as Hf. unfold hashmap_lookup, hashmap_has_key.
    destruct (find_node _ k 0) as [[i v]|].
    + destruct Hf as [-> _]. split; [done|]. by rewrite bool_decide_eq_true_2.
    + rewrite Hf. split; [done|]. rewrite bool_decide_eq_false_2; [done|]. by intros [? ?].
  - intros. by apply insert_ok.
  - intros. by apply erase_ok.
  - unfold hashmap_size. rewrite (wf_nodes _ Hwf), <- length_map_to_list, Hn. done.
  - rewrite clear_initialize by done. apply empty_ok, Hwf.
  - intros C fn c. exists (nodes m).*2. split; [|by rewrite Hn]. rewrite foreach_nodes.
    generalize (nodes m). intros l. revert c. induction l as [|[k v] l IH]; intros c; [done|]. apply IH.
Qed.
End refinement.

(** ** Witness *)

Definition sample_map : hashmap_t uuid_t := uuidmap_allocate 4.

Lemma hashmap_refines_map_witness :
  (forall k, uuidmap_lookup sample_map k = default 0 (content sample_map !! k) /\
     uuidmap_has_key sample_map k = bool_decide (is_Some (content sample_map !! k))) /\
  (forall k v, let '(prev, m') := uuidmap_insert sample_map k v in
     prev = default 0 (content sample_map !! k) /\ wf m' /\ content m' = <[k := v]> (content sample_map)) /\
  (forall k, let '(prev, m') := uuidmap_erase sample_map k in
     prev = default 0 (content sample_map !! k) /\ wf m' /\ content m' = delete k (content sample_map)) /\
  uuidmap_size sample_map = u64 (Z.of_nat (size (content sample_map))) /\
  (wf (uuidmap_clear sample_map) /\ content (uuidmap_clear sample_map) = ∅) /\
  (forall C (fn : Z -> C -> C) c, exists vs,
     uuidmap_foreach sample_map fn c = foldl (fun c v => fn v c) c vs /\ vs ≡ₚ (map_to_list (content sample_map)).*2).
Proof. apply (hashmap_refines_map sample_map). apply empty_ok. vm_compute. lia. Defined.
End HashMaps.
