(* ===== verification/RingBuffer.v ===== *)
(** * Ring buffers ([src/library/foundation_lib/foundation/ringbuffer.c])

    A circular buffer with one read and one write position, its contract as a
    bounded queue, and the stream on top of it, in which one reading and one
    writing thread wait for each other with two flags and two semaphores. *)
From S2P Require Import Prelude.

Module RingBuffer.

Record ringbuffer_t := mk_ring {
  total_read : Z;
  total_write : Z;
  offset_read : nat;
  offset_write : nat;
  buffer_size : nat;
  buffer : list Z;
}.

(** The storage follows the struct and is not initialised. *)
Definition ringbuffer_initialize (storage : list Z) : ringbuffer_t :=
  mk_ring 0 0 0 0 (length storage) storage.

Definition ringbuffer_size (rb : ringbuffer_t) : nat := buffer_size rb.

Definition ringbuffer_reset (rb : ringbuffer_t) : ringbuffer_t :=
  mk_ring 0 0 0 0 (buffer_size rb) (buffer rb).

(** The bytes that are read; the recursive call continues at the start of the
    storage.  [None] when the fuel runs out: two calls are enough. *)
Fixpoint ringbuffer_read (fuel : nat) (rb : ringbuffer_t) (size : nat) : option (list Z * ringbuffer_t) :=
  match fuel with
  | O => None
  | S fuel =>
      let max_read := if (offset_write rb <? offset_read rb)%nat then (buffer_size rb - offset_read rb)%nat
                      else (offset_write rb - offset_read rb)%nat in
      let do_read := if (max_read <? size)%nat then max_read else size in
      if (do_read =? 0)%nat then Some ([], rb)
      else
        let dest := take do_read (drop (offset_read rb) (buffer rb)) in
        let offset := (offset_read rb + do_read)%nat in
        let offset := if (offset =? buffer_size rb)%nat then 0%nat else offset in
        let rb := mk_ring (u64 (total_read rb + Z.of_nat do_read)) (total_write rb) offset (offset_write rb)
                    (buffer_size rb) (buffer rb) in
        if (do_read <? size)%nat && (offset =? 0)%nat && (0 <? offset_write rb)%nat then
          '(more, rb) ← ringbuffer_read fuel rb (size - do_read);
          Some (dest ++ more, rb)
        else Some (dest, rb)
  end.

(** The number of bytes that are written. *)
Fixpoint ringbuffer_write (fuel : nat) (rb : ringbuffer_t) (source : list Z) : option (nat * ringbuffer_t) :=
  match fuel with
  | O => None
  | S fuel =>
      let max_write :=
        if (offset_read rb <=? offset_write rb)%nat then
          let max_write := (buffer_size rb - offset_write rb)%nat in
          if negb (max_write =? 0)%nat && (offset_read rb =? 0)%nat then (max_write - 1)%nat else max_write
        else (offset_read rb - (offset_write rb + 1))%nat in
      let size := length source in
      let do_write := if (max_write <? size)%nat then max_write else size in
      if (do_write =? 0)%nat then Some (0%nat, rb)
      else
        let storage := write_at (offset_write rb) (take do_write source) (buffer rb) in
        let offset := (offset_write rb + do_write)%nat in
        let offset := if (offset =? buffer_size rb)%nat then 0%nat else offset in
        let rb := mk_ring (total_read rb) (u64 (total_write rb + Z.of_nat do_write)) (offset_read rb) offset
                    (buffer_size rb) storage in
        if (do_write <? size)%nat && (offset =? 0)%nat && (0 <? offset_read rb)%nat then
          '(more, rb) ← ringbuffer_write fuel rb (drop do_write source);
          Some ((do_write + more)%nat, rb)
        else Some (do_write, rb)
  end.

Definition ringbuffer_total_read (rb : ringbuffer_t) : Z := total_read rb.
Definition ringbuffer_total_written (rb : ringbuffer_t) : Z := total_write rb.

(** ** The buffer as a queue *)

(** What was written and not read, oldest first. *)
Definition queue (rb : ringbuffer_t) : list Z :=
  if (offset_write rb <? offset_read rb)%nat
  then drop (offset_read rb) (buffer rb) ++ take (offset_write rb) (buffer rb)
  else take (offset_write rb - offset_read rb) (drop (offset_read rb) (buffer rb)).

(** One byte of the storage is never used, so that a full buffer is not taken
    for an empty one. *)
Definition room (rb : ringbuffer_t) : nat := buffer_size rb - 1 - length (queue rb).

Definition wf (rb : ringbuffer_t) : Prop :=
  length (buffer rb) = buffer_size rb /\
  (offset_read rb < buffer_size rb \/ offset_read rb = 0 /\ buffer_size rb = 0)%nat /\
  (offset_write rb < buffer_size rb \/ offset_write rb = 0 /\ buffer_size rb = 0)%nat /\
  in_u 64 (total_read rb) /\ in_u 64 (total_write rb).

Lemma queue_length rb : wf rb ->
  length (queue rb) = if (offset_write rb <? offset_read rb)%nat then (buffer_size rb - offset_read rb + offset_write rb)%nat
                      else (offset_write rb - offset_read rb)%nat.
Proof.
  intros (Hl & Hr & Hw & _). unfold queue. case_if; rewrite ?length_app, ?length_take, ?length_drop; apply Nat.ltb_lt in Heqb || apply Nat.ltb_ge in Heqb; lia.
Qed.

Lemma take_drop_min (q : list Z) n : take n q = take (n `min` length q) q /\ drop n q = drop (n `min` length q) q.
Proof.
  destruct (decide (n <= length q)%nat); [by rewrite Nat.min_l|]. rewrite Nat.min_r by lia.
  by rewrite !take_ge, !drop_ge by lia.
Qed.

(** [rb'] is [rb] after reading the bytes [dest]. *)
Definition was_read (rb rb' : ringbuffer_t) (dest : list Z) : Prop :=
  wf rb' /\ queue rb = dest ++ queue rb' /\ buffer_size rb' = buffer_size rb /\
  total_read rb' = u64 (total_read rb + Z.of_nat (length dest)) /\ total_write rb' = total_write rb.

Lemma was_read_nil rb : wf rb -> was_read rb rb [].
Proof.
  intros Hwf. pose proof Hwf as (_ & _ & _ & Hr & _). do 3 (split; [done|]). split; [|done].
  symmetry. rewrite Z.add_0_r. by apply wrap_small.
Qed.

Lemma was_read_app rb1 rb2 rb3 a b : was_read rb1 rb2 a -> was_read rb2 rb3 b -> was_read rb1 rb3 (a ++ b).
Proof.
  intros (H1 & Q1 & S1 & R1 & W1) (H2 & Q2 & S2 & R2 & W2). split; [done|].
  split; [by rewrite Q1, Q2, app_assoc|]. split; [congruence|]. split; [|congruence].
  rewrite R2, R1, length_app. autorewrite with cint. f_equal. lia.
Qed.

(** Advancing the read position by [k] bytes that lie before the write position
    or before the end of the storage. *)
Lemma read_part rb k :
  wf rb -> (0 < k)%nat ->
  (if (offset_write rb <? offset_read rb)%nat then offset_read rb + k <= buffer_size rb
   else offset_read rb + k <= offset_write rb)%nat ->
  let offset := if (offset_read rb + k =? buffer_size rb)%nat then 0%nat else (offset_read rb + k)%nat in
  was_read rb (mk_ring (u64 (total_read rb + Z.of_nat k)) (total_write rb) offset (offset_write rb) (buffer_size rb) (buffer rb))
    (take k (drop (offset_read rb) (buffer rb))).
Proof.
  intros (Hl & Hr & Hw & Htr & Htw) Hk Hle offset.
  assert (length (take k (drop (offset_read rb) (buffer rb))) = k) as Hlen.
  { rewrite length_take, length_drop. destruct (Nat.ltb_spec (offset_write rb) (offset_read rb)); lia. }
  assert (wf (mk_ring (u64 (total_read rb + Z.of_nat k)) (total_write rb) offset (offset_write rb) (buffer_size rb) (buffer rb))) as Hwf.
  { unfold wf. cbn [buffer buffer_size offset_read offset_write total_read total_write]. split; [done|].
    split; [|split; [done|split; [by apply wrap_in_u|done]]].
    left. subst offset. destruct (Nat.eqb_spec (offset_read rb + k) (buffer_size rb)); [lia|].
    destruct (Nat.ltb_spec (offset_write rb) (offset_read rb)); lia. }
  split; [exact Hwf|]. cbn [total_read total_write buffer_size]. rewrite Hlen. split; [|done].
  unfold queue. cbn [offset_read offset_write buffer]. subst offset.
  destruct (Nat.ltb_spec (offset_write rb) (offset_read rb)) as [Hlt|Hge].
  - destruct (Nat.eqb_spec (offset_read rb + k) (buffer_size rb)) as [E|E].
    + cbn [Nat.ltb Nat.leb]. rewrite Nat.sub_0_r, drop_0, (take_ge (drop _ _)) by (rewrite length_drop; lia). done.
    + replace (offset_write rb <? offset_read rb + k)%nat with true by (symmetry; apply Nat.ltb_lt; lia).
      rewrite app_assoc. f_equal. rewrite <- drop_drop. by rewrite take_drop.
  - destruct (Nat.eqb_spec (offset_read rb + k) (buffer_size rb)) as [E|E]; [lia|].
    replace (offset_write rb <? offset_read rb + k)%nat with false by (symmetry; apply Nat.ltb_ge; lia).
    rewrite <- drop_drop, take_take_drop. f_equal. lia.
Qed.

Lemma read_ok rb n :
  wf rb -> exists rb', ringbuffer_read 2 rb n = Some (take n (queue rb), rb') /\ was_read rb rb' (take n (queue rb)).
Proof.
  intros Hwf.
  assert (forall fuel rb n, wf rb -> (offset_read rb <= offset_write rb)%nat ->
    exists rb', ringbuffer_read (S fuel) rb n = Some (take n (queue rb), rb') /\ was_read rb rb' (take n (queue rb))) as Hlinear.
  { clear. intros fuel rb n Hwf Hle. cbn [ringbuffer_read]. rewrite (proj1 (take_drop_min _ n)), queue_length by done.
    replace (offset_write rb <? offset_read rb)%nat with false by (symmetry; apply Nat.ltb_ge; lia).
    set (m := (offset_write rb - offset_read rb)%nat).
    assert ((if (m <? n)%nat then m else n) = (n `min` m)%nat) as -> by (destruct (Nat.ltb_spec m n); lia).
    set (k := (n `min` m)%nat). destruct (Nat.eqb_spec k 0) as [E|E].
    { exists rb. rewrite E. split; [done|]. by apply was_read_nil. }
    pose proof Hwf as (Hl & Hr & Hw & _).
    pose proof (read_part rb k Hwf ltac:(lia)) as Hp.
    replace (offset_write rb <? offset_read rb)%nat with false in Hp by (symmetry; apply Nat.ltb_ge; lia).
    specialize (Hp ltac:(lia)). cbv zeta in Hp.
    replace (offset_read rb + k =? buffer_size rb)%nat with false in * by (symmetry; apply Nat.eqb_neq; lia).
    replace (offset_read rb + k =? 0)%nat with false by (symmetry; apply Nat.eqb_neq; lia). rewrite andb_false_r. simpl.
    assert (take k (queue rb) = take k (drop (offset_read rb) (buffer rb))) as ->.
    { unfold queue. replace (offset_write rb <? offset_read rb)%nat with false by (symmetry; apply Nat.ltb_ge; lia).
      rewrite take_take. f_equal. lia. }
    eexists. split; [done|exact Hp]. }
  destruct (Nat.ltb_spec (offset_write rb) (offset_read rb)) as [Hlt|Hge]; [|by apply Hlinear].
  pose proof Hwf as (Hl & Hr & Hw & _). remember 1%nat as fuel eqn:Ef. cbn [ringbuffer_read].
  pose proof (read_part rb) as Hp. assert ((offset_write rb <? offset_read rb)%nat = true) as Eb by (by apply Nat.ltb_lt).
  rewrite Eb in *. set (m := (buffer_size rb - offset_read rb)%nat).
  assert ((if (m <? n)%nat then m else n) = (n `min` m)%nat) as -> by (destruct (Nat.ltb_spec m n); lia).
  set (k := (n `min` m)%nat). destruct (Nat.eqb_spec k 0) as [E|E].
  { exists rb. assert (n = 0)%nat as -> by lia. split; [done|]. by apply was_read_nil. }
  specialize (Hp k Hwf ltac:(lia) ltac:(lia)). cbv zeta in Hp.
  assert (take k (queue rb) = take k (drop (offset_read rb) (buffer rb))) as Hq
    by (unfold queue; rewrite Eb, take_app_le; [done|rewrite length_drop; lia]).
  destruct (Nat.eqb_spec (offset_read rb + k) (buffer_size rb)) as [Ee|Ee].
  - set (rb1 := mk_ring _ _ 0 _ _ _) in *. change (offset_write rb1) with (offset_write rb). destruct (Nat.ltb_spec k n) as [Hkn|Hkn].
    + destruct (Nat.ltb_spec 0 (offset_write rb)) as [H0|H0]; cbn [andb Nat.eqb].
      * subst fuel. destruct (Hlinear 0%nat rb1 (n - k)%nat) as (rb' & -> & Hrd); [apply Hp|simpl; lia|]. cbn [mbind option_bind].
        assert (take n (queue rb) = take k (drop (offset_read rb) (buffer rb)) ++ take (n - k) (queue rb1)) as ->.
        { destruct Hp as (_ & Hqq & _). rewrite Hqq, take_app_ge by (rewrite length_take, length_drop; lia).
          rewrite length_take, length_drop. do 2 f_equal. lia. }
        exists rb'. split; [done|]. by eapply was_read_app.
      * assert (take n (queue rb) = take k (queue rb)) as ->.
        { destruct (take_drop_min (queue rb) n) as [-> _]. rewrite queue_length, Eb by done. f_equal. lia. }
        rewrite Hq. eexists. split; [done|exact Hp].
    + cbn [andb]. assert (n = k) as En by lia. clearbody k. subst n. rewrite Hq. eexists. split; [done|exact Hp].
  - replace (offset_read rb + k =? 0)%nat with false by (symmetry; apply Nat.eqb_neq; lia). rewrite andb_false_r. cbn [andb].
    assert (n = k) as En by lia. clearbody k. subst n. rewrite Hq. eexists. split; [done|exact Hp].
Qed.

(** [rb'] is [rb] after writing the bytes [source]. *)
Definition was_written (rb rb' : ringbuffer_t) (source : list Z) : Prop :=
  wf rb' /\ queue rb' = queue rb ++ source /\ buffer_size rb' = buffer_size rb /\
  total_write rb' = u64 (total_write rb + Z.of_nat (length source)) /\ total_read rb' = total_read rb.

Lemma was_written_nil rb : wf rb -> was_written rb rb [].
Proof.
  intros Hwf. pose proof Hwf as (_ & _ & _ & _ & Hw). split; [done|]. split; [by rewrite app_nil_r|]. split; [done|].
  split; [|done]. symmetry. rewrite Z.add_0_r. by apply wrap_small.
Qed.

Lemma was_written_app rb1 rb2 rb3 a b : was_written rb1 rb2 a -> was_written rb2 rb3 b -> was_written rb1 rb3 (a ++ b).
Proof.
  intros (H1 & Q1 & S1 & R1 & W1) (H2 & Q2 & S2 & R2 & W2). split; [done|].
  split; [by rewrite Q2, Q1, app_assoc|]. split; [congruence|]. split; [|congruence].
  rewrite R2, R1, length_app. autorewrite with cint. f_equal. lia.
Qed.

(** Storing bytes at the write position, before the read position or the end of
    the storage. *)
Lemma write_part rb bs :
  wf rb -> bs <> [] ->
  (if (offset_read rb <=? offset_write rb)%nat
   then offset_write rb + length bs <= buffer_size rb /\ (offset_read rb = 0 -> offset_write rb + length bs < buffer_size rb)
   else offset_write rb + length bs < offset_read rb)%nat ->
  let offset := if (offset_write rb + length bs =? buffer_size rb)%nat then 0%nat else (offset_write rb + length bs)%nat in
  was_written rb (mk_ring (total_read rb) (u64 (total_write rb + Z.of_nat (length bs))) (offset_read rb) offset
    (buffer_size rb) (write_at (offset_write rb) bs (buffer rb))) bs.
Proof.
  intros Hwf Hbs Hle offset. pose proof Hwf as (Hl & Hr & Hw & Htr & Htw).
  assert (0 < length bs)%nat as Hk by (destruct bs; [done|simpl; lia]).
  set (storage := write_at (offset_write rb) bs (buffer rb)).
  assert (offset_write rb + length bs <= length (buffer rb))%nat as Hfit
    by (destruct (Nat.leb_spec (offset_read rb) (offset_write rb)); lia).
  assert (length storage = buffer_size rb) as Hls by (unfold storage; rewrite length_write_at; lia).
  split; [|split; [|done]].
  - unfold wf. cbn [buffer buffer_size offset_read offset_write total_read total_write]. split; [done|].
    split; [done|]. split; [|split; [done|by apply wrap_in_u]].
    left. subst offset. destruct (Nat.eqb_spec (offset_write rb + length bs) (buffer_size rb)); lia.
  - unfold queue. cbn [offset_read offset_write buffer]. subst offset.
    destruct (Nat.leb_spec (offset_read rb) (offset_write rb)) as [Hge|Hlt].
    + replace (offset_write rb <? offset_read rb)%nat with false by (symmetry; apply Nat.ltb_ge; lia).
      assert (drop (offset_read rb) storage = take (offset_write rb - offset_read rb) (drop (offset_read rb) (buffer rb)) ++
        bs ++ drop (offset_write rb + length bs) (buffer rb)) as Ed.
      { unfold storage, write_at. rewrite drop_app_le by (rewrite length_take; lia). f_equal.
        rewrite take_drop_commute. do 2 f_equal. lia. }
      destruct (Nat.eqb_spec (offset_write rb + length bs) (buffer_size rb)) as [E|E].
      * replace (0 <? offset_read rb)%nat with true by (symmetry; apply Nat.ltb_lt; lia).
        rewrite take_0, app_nil_r, Ed. f_equal. rewrite (drop_ge (buffer rb)) by lia. by rewrite app_nil_r.
      * replace (offset_write rb + length bs <? offset_read rb)%nat with false by (symmetry; apply Nat.ltb_ge; lia).
        rewrite Ed, app_assoc, take_app_le by (rewrite length_app, length_take, length_drop; lia).
        apply take_ge. rewrite length_app, length_take, length_drop. lia.
    + assert ((offset_write rb <? offset_read rb)%nat = true) as -> by (apply Nat.ltb_lt; lia).
      destruct (Nat.eqb_spec (offset_write rb + length bs) (buffer_size rb)); [lia|].
      replace (offset_write rb + length bs <? offset_read rb)%nat with true by (symmetry; apply Nat.ltb_lt; lia).
      unfold storage. rewrite drop_write_at, take_write_at by lia. by rewrite app_assoc.
Qed.

Lemma write_ok rb source :
  wf rb ->
  let n := (length source `min` room rb)%nat in
  exists rb', ringbuffer_write 2 rb source = Some (n, rb') /\ was_written rb rb' (take n source).
Proof.
  intros Hwf.
  assert (forall fuel rb source, wf rb -> (offset_write rb < offset_read rb)%nat ->
    let n := (length source `min` room rb)%nat in
    exists rb', ringbuffer_write (S fuel) rb source = Some (n, rb') /\ was_written rb rb' (take n source)) as Hbefore.
  { clear. intros fuel rb source Hwf Hlt n. pose proof Hwf as (Hl & Hr & Hw & _). cbn [ringbuffer_write].
    pose proof (queue_length rb Hwf) as Hq. assert ((offset_write rb <? offset_read rb)%nat = true) as Eb by (by apply Nat.ltb_lt).
    rewrite Eb in Hq. assert ((offset_read rb <=? offset_write rb)%nat = false) as Eb' by (apply Nat.leb_gt; lia). rewrite Eb'.
    set (m := (offset_read rb - (offset_write rb + 1))%nat). assert (room rb = m) as Hroom by (unfold room; lia).
    assert ((if (m <? length source)%nat then m else length source) = n) as -> by (destruct (Nat.ltb_spec m (length source)); lia).
    destruct (Nat.eqb_spec n 0) as [E|E]; [rewrite E; exists rb; split; [done|by apply was_written_nil]|].
    assert (length (take n source) = n) as Hlen by (rewrite length_take; lia).
    pose proof (write_part rb (take n source) Hwf) as Hp. rewrite Eb', Hlen in Hp. cbv zeta in Hp.
    replace (offset_write rb + n =? buffer_size rb)%nat with false in * by (symmetry; apply Nat.eqb_neq; lia).
    replace (offset_write rb + n =? 0)%nat with false by (symmetry; apply Nat.eqb_neq; lia). rewrite andb_false_r. cbn [andb].
    eexists. split; [done|]. apply Hp; [|lia]. intros E0. by rewrite E0 in Hlen. }
  destruct (Nat.leb_spec (offset_read rb) (offset_write rb)) as [Hge|Hlt]; [|by apply Hbefore].
  intros n. pose proof Hwf as (Hl & Hr & Hw & _). remember 1%nat as fuel eqn:Ef. cbn [ringbuffer_write].
  pose proof (queue_length rb Hwf) as Hq.
  replace (offset_write rb <? offset_read rb)%nat with false in Hq by (symmetry; apply Nat.ltb_ge; lia).
  assert ((offset_read rb <=? offset_write rb)%nat = true) as Eb by (by apply Nat.leb_le). rewrite Eb.
  set (m := if negb _ && _ then _ else _).
  assert (m = if (offset_read rb =? 0)%nat then (buffer_size rb - offset_write rb - 1)%nat
              else (buffer_size rb - offset_write rb)%nat) as Em.
  { subst m. destruct (Nat.eqb_spec (buffer_size rb - offset_write rb) 0), (Nat.eqb_spec (offset_read rb) 0); cbn; lia. }
  clearbody m. set (k := if (m <? length source)%nat then m else length source).
  assert (k = length source `min` m)%nat as Ek by (subst k; destruct (Nat.ltb_spec m (length source)); lia). clearbody k.
  assert (room rb = if (offset_read rb =? 0)%nat then m else (m + offset_read rb - 1)%nat) as Hroom
    by (unfold room; destruct (Nat.eqb_spec (offset_read rb) 0); lia).
  destruct (Nat.eqb_spec k 0) as [E|E].
  { assert (n = 0)%nat as -> by (destruct (Nat.eqb_spec (offset_read rb) 0); lia).
    exists rb. split; [done|by apply was_written_nil]. }
  assert (length (take k source) = k) as Hlen by (rewrite length_take; lia).
  pose proof (write_part rb (take k source) Hwf) as Hp. rewrite Eb, Hlen in Hp. cbv zeta in Hp.
  assert (take k source <> []) as Hne by (intros E0; by rewrite E0 in Hlen).
  specialize (Hp Hne ltac:(destruct (Nat.eqb_spec (offset_read rb) 0); lia)).
  destruct (Nat.eqb_spec (offset_write rb + k) (buffer_size rb)) as [Ee|Ee].
  - set (rb1 := mk_ring _ _ _ 0 _ _) in *. change (offset_read rb1) with (offset_read rb). cbn [Nat.eqb].
    assert (0 < offset_read rb)%nat as Hpos by (destruct (Nat.eqb_spec (offset_read rb) 0); lia).
    replace (offset_read rb =? 0)%nat with false in * by (symmetry; apply Nat.eqb_neq; lia).
    replace (0 <? offset_read rb)%nat with true by (symmetry; apply Nat.ltb_lt; lia). rewrite !andb_true_r.
    destruct (Nat.ltb_spec k (length source)) as [Hkn|Hkn].
    + subst fuel. destruct (Hbefore 0%nat rb1 (drop k source)) as (rb' & -> & Hwr); [apply Hp|simpl; lia|].
      cbn [mbind option_bind]. rewrite length_drop in *. pose proof (queue_length rb1 (proj1 Hp)) as Hq1.
      cbn [offset_write offset_read buffer_size rb1] in Hq1.
      replace (0 <? offset_read rb)%nat with true in Hq1 by (symmetry; apply Nat.ltb_lt; lia).
      assert (room rb1 = offset_read rb - 1)%nat as Hroom1 by (unfold room; cbn [buffer_size rb1]; lia).
      assert (n = k + (length source - k) `min` room rb1)%nat as -> by lia.
      exists rb'. split; [done|]. rewrite <- take_take_drop. by eapply was_written_app.
    + assert (n = k) as -> by lia. eexists. split; [done|exact Hp].
  - replace (offset_write rb + k =? 0)%nat with false by (symmetry; apply Nat.eqb_neq; lia). rewrite andb_false_r. cbn [andb].
    assert (n = k) as -> by (destruct (Nat.eqb_spec (offset_read rb) 0); lia). eexists. split; [done|exact Hp].
Qed.

Lemma ring_initialize_wf storage : wf (ringbuffer_initialize storage) /\ queue (ringbuffer_initialize storage) = [].
Proof.
  split; [|done]. unfold wf, ringbuffer_initialize, in_u. cbn [buffer buffer_size offset_read offset_write total_read total_write].
  repeat split; try done; lia.
Qed.

Lemma reset_wf rb : wf rb -> wf (ringbuffer_reset rb) /\ queue (ringbuffer_reset rb) = [].
Proof.
  intros (Hl & _). split; [|done]. unfold wf, ringbuffer_reset, in_u.
  cbn [buffer buffer_size offset_read offset_write total_read total_write]. repeat split; try done; lia.
Qed.

(** C5: a ring buffer is a queue of at most [size - 1] bytes.  A read ends within
    two calls and removes the oldest bytes, as many as asked for and there are;
    a write ends within two calls and appends the first bytes of the source, as
    many as there is room for; the totals count them modulo 2^64, and a reset
    empties the queue. *)
Theorem ringbuffer_bounded_queue rb :
  wf rb ->
  (length (queue rb) <= buffer_size rb - 1)%nat /\
  (forall n, exists rb', ringbuffer_read 2 rb n = Some (take n (queue rb), rb') /\ wf rb' /\
     queue rb' = drop n (queue rb) /\ buffer_size rb' = buffer_size rb /\
     total_read rb' = u64 (total_read rb + Z.of_nat (n `min` length (queue rb))) /\ total_write rb' = total_write rb) /\
  (forall source, exists rb', ringbuffer_write 2 rb source = Some ((length source `min` room rb)%nat, rb') /\ wf rb' /\
     queue rb' = queue rb ++ take (room rb) source /\ buffer_size rb' = buffer_size rb /\
     total_write rb' = u64 (total_write rb + Z.of_nat (length source `min` room rb)) /\ total_read rb' = total_read rb) /\
  wf (ringbuffer_reset rb) /\ queue (ringbuffer_reset rb) = [].
Proof.
  intros Hwf. split; [|split; [|split]].
  - rewrite queue_length by done. destruct Hwf as (_ & Hr & Hw & _).
    destruct (Nat.ltb_spec (offset_write rb) (offset_read rb)); lia.
  - intros n. destruct (read_ok rb n Hwf) as (rb' & E & Hwf' & Hq & Hs & Ht & Ht'). exists rb'. split; [done|].
    rewrite length_take in Ht. do 2 (split; [try done|]); [|done].
    apply (app_inv_head (take n (queue rb))). by rewrite <- Hq, take_drop.
  - intros source. destruct (write_ok rb source Hwf) as (rb' & E & Hwf' & Hq & Hs & Ht & Ht'). exists rb'. split; [done|].
    rewrite length_take, Nat.min_l in Ht by lia. do 2 (split; [try done|]); [|done].
    rewrite Hq. f_equal. destruct (take_drop_min source (room rb)) as [-> _]. f_equal. lia.
  - by apply reset_wf.
Qed.

#[global] Arguments ringbuffer_read : simpl never.
#[global] Arguments ringbuffer_write : simpl never.

(** ** The stream

    One thread reads [size] bytes, another one writes its source.  They share
    the ring, two flags and two semaphores, and nothing is locked; each step is
    one load or one store of what they share, in one order for both threads
    ([memcpy] copies byte by byte).  A total has one writer, which adds to it in
    one step. *)

(** Where the reader is, with the local variables of [ringbuffer_read]. *)
Inductive read_pc :=
  | ReadLoad
  | ReadBounds (offset_read : nat)
  | ReadCopy (offset_read offset_write do_read i : nat)
  | ReadStore (offset_read offset_write do_read : nat)
  | ReadCount (offset_read offset_write do_read : nat)
  | ReadPend | ReadCheck | ReadWait | ReadClear | ReadFinal | ReadDone.

(** The writer, with those of [ringbuffer_write]. *)
Inductive write_pc :=
  | WriteLoad
  | WriteBounds (offset_read : nat)
  | WriteReload (offset_read offset_write : nat)
  | WriteCopy (offset_read offset_write do_write i : nat)
  | WriteAssert (offset_read offset_write do_write : nat)
  | WriteStore (offset_read offset_write do_write : nat)
  | WriteCount (offset_read offset_write do_write : nat)
  | WritePend | WriteCheck | WriteWait | WriteClear | WriteFinal | WriteDone.

Record stream := mk_stream {
  ring : ringbuffer_t;
  total_size : Z;
  pending_read : bool;
  pending_write : bool;
  signal_read : nat;
  signal_write : nat;
}.

(** The destination holds [r_got] and behind it [r_copied], the bytes that are
    copied while the read position is still before them; [r_left] and [w_left]
    are what is left to do when the positions are where they are. *)
Record reader := mk_reader { r_pc : read_pc; r_left : nat; r_got : list Z; r_copied : list Z }.
Record writer := mk_writer { w_pc : write_pc; w_left : list Z }.

Definition set_ring (s : stream) (rb : ringbuffer_t) : stream :=
  mk_stream rb (total_size s) (pending_read s) (pending_write s) (signal_read s) (signal_write s).

(** The stores to the ring. *)
Definition with_offset_read (rb : ringbuffer_t) (off : nat) : ringbuffer_t :=
  mk_ring (total_read rb) (total_write rb) off (offset_write rb) (buffer_size rb) (buffer rb).
Definition with_offset_write (rb : ringbuffer_t) (off : nat) : ringbuffer_t :=
  mk_ring (total_read rb) (total_write rb) (offset_read rb) off (buffer_size rb) (buffer rb).
Definition with_total_read (rb : ringbuffer_t) (n : Z) : ringbuffer_t :=
  mk_ring n (total_write rb) (offset_read rb) (offset_write rb) (buffer_size rb) (buffer rb).
Definition with_total_write (rb : ringbuffer_t) (n : Z) : ringbuffer_t :=
  mk_ring (total_read rb) n (offset_read rb) (offset_write rb) (buffer_size rb) (buffer rb).
Definition with_byte (rb : ringbuffer_t) (i : nat) (b : Z) : ringbuffer_t :=
  mk_ring (total_read rb) (total_write rb) (offset_read rb) (offset_write rb) (buffer_size rb) (<[i := b]> (buffer rb)).

(** After [ringbuffer_read] has returned: the loop goes on or ends. *)
Definition read_return (left : nat) : read_pc := if (0 <? left)%nat then ReadPend else ReadFinal.
Definition write_return (left : list Z) : write_pc := if (0 <? length left)%nat then WritePend else WriteFinal.

(** An access of [ringbuffer_read]; [None] is one outside the storage. *)
Definition ringbuffer_read_step (rb : ringbuffer_t) (r : reader) : option (ringbuffer_t * reader) :=
  let left := r_left r in
  let goto pc := mk_reader pc left (r_got r) (r_copied r) in
  match r_pc r with
  | ReadLoad => Some (rb, goto (ReadBounds (offset_read rb)))
  | ReadBounds offset_read =>
      let offset_write := offset_write rb in
      let max_read := if (offset_write <? offset_read)%nat then (buffer_size rb - offset_read)%nat else (offset_write - offset_read)%nat in
      let do_read := if (max_read <? left)%nat then max_read else left in
      Some (rb, goto (if (do_read =? 0)%nat then read_return left else ReadCopy offset_read offset_write do_read 0))
  | ReadCopy offset_read offset_write do_read i =>
      b ← buffer rb !! (offset_read + i)%nat;
      Some (rb, mk_reader (if (S i =? do_read)%nat then ReadStore offset_read offset_write do_read else ReadCopy offset_read offset_write do_read (S i))
                  left (r_got r) (r_copied r ++ [b]))
  | ReadStore offset_read offset_write do_read =>
      let offset := (offset_read + do_read)%nat in
      let offset := if (offset =? buffer_size rb)%nat then 0%nat else offset in
      Some (with_offset_read rb offset,
            mk_reader (ReadCount offset offset_write do_read) (left - do_read) (r_got r ++ r_copied r) [])
  | ReadCount offset_read offset_write do_read =>
      Some (with_total_read rb (u64 (total_read rb + Z.of_nat do_read)),
            goto (if (0 <? left)%nat && (offset_read =? 0)%nat && (0 <? offset_write)%nat then ReadLoad else read_return left))
  | _ => None
  end.

(** [ringbuffer_stream_read]; [None] when the thread blocks or has returned. *)
Definition stream_read_step (s : stream) (r : reader) : option (stream * reader) :=
  let rb := ring s in
  let goto pc := mk_reader pc (r_left r) (r_got r) (r_copied r) in
  match r_pc r with
  | ReadPend => Some (mk_stream rb (total_size s) true (pending_write s) (signal_read s) (signal_write s), goto ReadCheck)
  | ReadCheck =>
      Some (mk_stream rb (total_size s) (pending_read s) (pending_write s)
              (if pending_write s then S (signal_read s) else signal_read s) (signal_write s), goto ReadWait)
  | ReadWait =>
      match signal_write s with
      | O => None
      | S n => Some (mk_stream rb (total_size s) (pending_read s) (pending_write s) (signal_read s) n, goto ReadClear)
      end
  | ReadClear => Some (mk_stream rb (total_size s) false (pending_write s) (signal_read s) (signal_write s), goto ReadLoad)
  | ReadFinal =>
      Some (mk_stream rb (total_size s) (pending_read s) (pending_write s)
              (if pending_write s then S (signal_read s) else signal_read s) (signal_write s), goto ReadDone)
  | ReadDone => None
  | _ => '(rb, r) ← ringbuffer_read_step rb r; Some (set_ring s rb, r)
  end.

(** How much fits, at most [max_write] bytes. *)
Definition write_begin (offset_read offset_write max_write : nat) (left : list Z) : write_pc :=
  let do_write := if (max_write <? length left)%nat then max_write else length left in
  if (do_write =? 0)%nat then write_return left else WriteCopy offset_read offset_write do_write 0.

(** An access of [ringbuffer_write], which loads the read position twice, and
    once more in an assertion; [None] is an access outside the storage or the
    failure of the assertion. *)
Definition ringbuffer_write_step (rb : ringbuffer_t) (w : writer) : option (ringbuffer_t * writer) :=
  let left := w_left w in
  let goto pc := mk_writer pc left in
  match w_pc w with
  | WriteLoad => Some (rb, goto (WriteBounds (offset_read rb)))
  | WriteBounds offset_read =>
      let offset_write := offset_write rb in
      Some (rb, goto (if (offset_read <=? offset_write)%nat then
                        if (buffer_size rb - offset_write =? 0)%nat then write_begin offset_read offset_write 0 left
                        else WriteReload offset_read offset_write
                      else write_begin offset_read offset_write (offset_read - (offset_write + 1)) left))
  | WriteReload old_offset_read offset_write =>
      let max_write := (buffer_size rb - offset_write)%nat in
      let max_write := if (offset_read rb =? 0)%nat then (max_write - 1)%nat else max_write in
      Some (rb, goto (write_begin old_offset_read offset_write max_write left))
  | WriteCopy offset_read offset_write do_write i =>
      b ← left !! i;
      if (offset_write + i <? length (buffer rb))%nat then
        Some (with_byte rb (offset_write + i) b,
              goto (if (S i =? do_write)%nat then
                      if (offset_write + do_write =? buffer_size rb)%nat then WriteAssert offset_read offset_write do_write
                      else WriteStore offset_read offset_write do_write
                    else WriteCopy offset_read offset_write do_write (S i)))
      else None
  | WriteAssert old_offset_read offset_write do_write =>
      if (offset_read rb =? 0)%nat then None else Some (rb, goto (WriteStore old_offset_read offset_write do_write))
  | WriteStore offset_read offset_write do_write =>
      let offset := (offset_write + do_write)%nat in
      let offset := if (offset =? buffer_size rb)%nat then 0%nat else offset in
      Some (with_offset_write rb offset, mk_writer (WriteCount offset_read offset do_write) (drop do_write left))
  | WriteCount offset_read offset_write do_write =>
      Some (with_total_write rb (u64 (total_write rb + Z.of_nat do_write)),
            goto (if (0 <? length left)%nat && (offset_write =? 0)%nat && (0 <? offset_read)%nat then WriteLoad else write_return left))
  | _ => None
  end.

(** [ringbuffer_stream_write]; [None] when the thread blocks or has returned. *)
Definition stream_write_step (s : stream) (w : writer) : option (stream * writer) :=
  let rb := ring s in
  let goto pc := mk_writer pc (w_left w) in
  match w_pc w with
  | WritePend => Some (mk_stream rb (total_size s) (pending_read s) true (signal_read s) (signal_write s), goto WriteCheck)
  | WriteCheck =>
      Some (mk_stream rb (total_size s) (pending_read s) (pending_write s) (signal_read s)
              (if pending_read s then S (signal_write s) else signal_write s), goto WriteWait)
  | WriteWait =>
      match signal_read s with
      | O => None
      | S n => Some (mk_stream rb (total_size s) (pending_read s) (pending_write s) n (signal_write s), goto WriteClear)
      end
  | WriteClear => Some (mk_stream rb (total_size s) (pending_read s) false (signal_read s) (signal_write s), goto WriteLoad)
  | WriteFinal =>
      Some (mk_stream rb (total_size s) (pending_read s) (pending_write s) (signal_read s)
              (if pending_read s then S (signal_write s) else signal_write s), goto WriteDone)
  | WriteDone => None
  | _ => '(rb, w) ← ringbuffer_write_step rb w; Some (set_ring s rb, w)
  end.

Definition ringbuffer_stream_eos (s : stream) : bool :=
  if total_size s =? 0 then false else total_size s <=? total_read (ring s).
Definition ringbuffer_stream_truncate (s : stream) (size : Z) : stream :=
  mk_stream (ring s) size (pending_read s) (pending_write s) (signal_read s) (signal_write s).
Definition ringbuffer_stream_size (s : stream) : Z := total_size s.
Definition ringbuffer_stream_tell (s : stream) : Z := total_read (ring s).
Definition ringbuffer_stream_available_read (s : stream) : Z := u64 (total_write (ring s) - total_read (ring s)).
Definition ringbuffer_stream_initialize (storage : list Z) (size : Z) : stream :=
  mk_stream (ringbuffer_initialize storage) size false false 0 0.

Record system := mk_system { shared : stream; the_reader : reader; the_writer : writer }.

Inductive thread_id := Reader | Writer.

Definition step (id : thread_id) (y : system) : option system :=
  match id with
  | Reader => '(s, r) ← stream_read_step (shared y) (the_reader y); Some (mk_system s r (the_writer y))
  | Writer => '(s, w) ← stream_write_step (shared y) (the_writer y); Some (mk_system s (the_reader y) w)
  end.

Fixpoint run (schedule : list thread_id) (y : system) : option system :=
  match schedule with
  | [] => Some y
  | id :: schedule => y ← step id y; run schedule y
  end.

(** A call to read [size] bytes and one to write [source]. *)
Definition start (s : stream) (size : nat) (source : list Z) : system :=
  mk_system s (mk_reader ReadLoad size [] []) (mk_writer WriteLoad source).

(** What was read, what is in the ring and what is still to be written. *)
Definition in_transit (y : system) : list Z := r_got (the_reader y) ++ queue (ring (shared y)) ++ w_left (the_writer y).

(** ** Positions

    The reader may copy bytes up to the write position or the end of the
    storage, the writer up to the byte before the read position. *)
Definition readable (rb : ringbuffer_t) (d : nat) : Prop :=
  (if (offset_write rb <? offset_read rb)%nat then offset_read rb + d <= buffer_size rb else offset_read rb + d <= offset_write rb)%nat.

Definition writable (rb : ringbuffer_t) (d : nat) : Prop :=
  (if (offset_read rb <=? offset_write rb)%nat
   then offset_write rb + d <= buffer_size rb /\ (offset_read rb = 0 -> offset_write rb + d < buffer_size rb)
   else offset_write rb + d < offset_read rb)%nat.

(** A read position that the writer has seen, and the reader may have left. *)
Definition past (rb : ringbuffer_t) (old : nat) : Prop :=
  (if (old <=? offset_write rb)%nat then old <= offset_read rb <= offset_write rb
   else old < buffer_size rb /\ (old <= offset_read rb \/ offset_read rb <= offset_write rb))%nat.

Ltac positions :=
  unfold readable, writable, past in *; cbn [offset_read offset_write buffer_size buffer with_offset_read with_offset_write with_byte] in *;
  repeat match goal with
    | |- context [(?a <? ?b)%nat] => destruct (Nat.ltb_spec a b)
    | |- context [(?a <=? ?b)%nat] => destruct (Nat.leb_spec a b)
    | |- context [(?a =? ?b)%nat] => destruct (Nat.eqb_spec a b)
    | H : context [(?a <? ?b)%nat] |- _ => destruct (Nat.ltb_spec a b)
    | H : context [(?a <=? ?b)%nat] |- _ => destruct (Nat.leb_spec a b)
    | H : context [(?a =? ?b)%nat] |- _ => destruct (Nat.eqb_spec a b)
    end; try lia.

Section positions.
Context (rb : ringbuffer_t) (Hwf : wf rb).

Lemma readable_queue d : readable rb d -> take d (drop (offset_read rb) (buffer rb)) = take d (queue rb) /\ (d <= length (queue rb))%nat.
Proof.
  intros Hd. pose proof Hwf as (Hl & Hr & Hw & _). rewrite queue_length by done. unfold queue. split.
  - positions; [rewrite take_app_le; [done|rewrite length_drop; lia]|]. rewrite take_take. f_equal. lia.
  - positions.
Qed.

Lemma readable_byte d i : readable rb d -> (i < d)%nat -> exists b, buffer rb !! (offset_read rb + i)%nat = Some b /\ take i (queue rb) ++ [b] = take (S i) (queue rb).
Proof.
  intros Hd Hi. destruct (readable_queue d Hd) as [Hq Hlen]. destruct (lookup_lt_is_Some_2 (queue rb) i) as [b Hb]; [lia|].
  exists b. split; [|by rewrite (take_S_r _ _ b)]. rewrite <- lookup_drop, <- (lookup_take_lt _ d i) by done. by rewrite Hq, lookup_take_lt.
Qed.

(** The reader moves its position. *)
Lemma offset_read_ok d :
  readable rb d -> (0 < d)%nat ->
  let rb' := with_offset_read rb (if (offset_read rb + d =? buffer_size rb)%nat then 0%nat else (offset_read rb + d)%nat) in
  wf rb' /\ queue rb = take d (queue rb) ++ queue rb' /\ (forall k, writable rb k -> writable rb' k) /\ (forall old, past rb old -> past rb' old).
Proof.
  intros Hd Hpos rb'. destruct (readable_queue d Hd) as [Hq _]. destruct (read_part rb d Hwf Hpos Hd) as (Hwf' & Hq' & _).
  pose proof Hwf as (Hl & Hr & Hw & Htr & Htw). destruct Hwf' as (_ & Hr' & _). split; [by split; [|split]|].
  split; [rewrite <- Hq; exact Hq'|]. clear Hq Hq' Hr' Htr Htw. subst rb'. split; intros k Hk; positions.
Qed.

(** The writer moves its position behind the bytes that it has stored. *)
Lemma offset_write_ok bs :
  writable rb (length bs) -> bs <> [] -> take (length bs) (drop (offset_write rb) (buffer rb)) = bs ->
  let rb' := with_offset_write rb (if (offset_write rb + length bs =? buffer_size rb)%nat then 0%nat else (offset_write rb + length bs)%nat) in
  wf rb' /\ queue rb' = queue rb ++ bs /\ (forall k, readable rb k -> readable rb' k).
Proof.
  intros Hd Hne Hbs rb'. destruct (write_part rb bs Hwf Hne Hd) as (Hwf' & Hq' & _).
  assert (write_at (offset_write rb) bs (buffer rb) = buffer rb) as Eb.
  { unfold write_at. rewrite <- Hbs at 1. rewrite <- drop_drop. by rewrite !take_drop. }
  rewrite Eb in *. pose proof Hwf as (Hl & Hr & Hw & Htr & Htw). destruct Hwf' as (_ & _ & Hw' & _). split; [by split; [|split; [|split]]|].
  split; [exact Hq'|]. assert (0 < length bs)%nat by (destruct bs; [done|simpl; lia]). clear Hq' Hw' Hbs Eb Hne Htr Htw. subst rb'. intros k Hk. positions.
Qed.

(** The byte that the writer stores is not in the queue. *)
Lemma with_byte_ok d i b :
  writable rb d -> (i < d)%nat ->
  (offset_write rb + i < length (buffer rb))%nat /\ wf (with_byte rb (offset_write rb + i) b) /\ queue (with_byte rb (offset_write rb + i) b) = queue rb.
Proof.
  intros Hd Hi. pose proof Hwf as (Hl & Hr & Hw & Htr & Htw).
  assert (offset_write rb + i < length (buffer rb))%nat as Hlt by positions. split; [done|]. split.
  - split; [cbn [with_byte buffer buffer_size]; by rewrite length_insert|]. by split; [|split].
  - unfold queue. cbn [with_byte offset_read offset_write buffer]. positions.
    + rewrite drop_insert_lt, take_insert_ge by lia. done.
    + rewrite drop_insert_ge by lia. apply take_insert_ge. lia.
Qed.

(** Bytes before it stay. *)
Lemma with_byte_before d i b l :
  writable rb d -> (i < d)%nat -> take i (drop (offset_write rb) (buffer rb)) = take i l -> l !! i = Some b ->
  take (S i) (drop (offset_write rb) (buffer (with_byte rb (offset_write rb + i) b))) = take (S i) l.
Proof.
  intros Hd Hi Ht Hb. pose proof Hwf as (Hl & Hr & Hw & _). destruct (with_byte_ok d i b Hd Hi) as [Hlt _]. cbn [with_byte buffer].
  rewrite drop_insert_ge, Nat.add_comm, Nat.add_sub by lia. rewrite (take_S_r l _ b) by done.
  rewrite (take_S_r _ _ b) by (apply list_lookup_insert_eq; rewrite length_drop; lia). by rewrite take_insert_ge, Ht.
Qed.
End positions.

Lemma with_total_read_wf rb n : wf rb -> wf (with_total_read rb (u64 n)).
Proof. intros (Hl & Hr & Hw & Htr & Htw). split; [done|]. split; [done|]. split; [done|]. split; [by apply wrap_in_u|done]. Qed.
Lemma with_total_write_wf rb n : wf rb -> wf (with_total_write rb (u64 n)).
Proof. intros (Hl & Hr & Hw & Htr & Htw). split; [done|]. split; [done|]. split; [done|]. split; [done|by apply wrap_in_u]. Qed.

(** ** The threads *)

(** What the local variables of a thread say of the ring. *)
Definition reader_ok (rb : ringbuffer_t) (r : reader) : Prop :=
  match r_pc r with
  | ReadBounds old => old = offset_read rb /\ r_copied r = []
  | ReadCopy old _ d i => old = offset_read rb /\ (i < d <= r_left r)%nat /\ readable rb d /\ r_copied r = take i (queue rb)
  | ReadStore old _ d => old = offset_read rb /\ (0 < d <= r_left r)%nat /\ readable rb d /\ r_copied r = take d (queue rb)
  | ReadFinal | ReadDone => r_left r = 0%nat /\ r_copied r = []
  | _ => r_copied r = []
  end.

Definition stored (rb : ringbuffer_t) (w : writer) (old_write d i : nat) : Prop :=
  old_write = offset_write rb /\ (0 < d <= length (w_left w))%nat /\ writable rb d /\
  take i (drop (offset_write rb) (buffer rb)) = take i (w_left w).

Definition writer_ok (rb : ringbuffer_t) (w : writer) : Prop :=
  match w_pc w with
  | WriteBounds old => past rb old
  | WriteReload old old_write => old_write = offset_write rb /\ (old <= offset_write rb)%nat /\ past rb old
  | WriteCopy _ old_write d i => (i < d)%nat /\ stored rb w old_write d i
  | WriteAssert _ old_write d => (offset_write rb + d = buffer_size rb)%nat /\ stored rb w old_write d d
  | WriteStore _ old_write d => stored rb w old_write d d
  | WriteFinal | WriteDone => w_left w = []
  | _ => True
  end.

(** What a step of the reader gives: the bytes that leave the queue are read,
    and the writer's variables stay true. *)
Definition read_kept (s : stream) (r : reader) (s' : stream) (r' : reader) : Prop :=
  wf (ring s') /\ reader_ok (ring s') r' /\ r_got r' ++ queue (ring s') = r_got r ++ queue (ring s) /\
  (length (r_got r') + r_left r' = length (r_got r) + r_left r)%nat /\
  (forall w, writer_ok (ring s) w -> writer_ok (ring s') w).

Lemma read_return_ok rb left got : reader_ok rb (mk_reader (read_return left) left got []).
Proof. unfold read_return. destruct (Nat.ltb_spec 0 left); [done|]. split; [cbn; lia|done]. Qed.

(** Only the ring matters. *)
Lemma read_kept_ring s r r' : read_kept s r s r' -> read_kept s r (set_ring s (ring s)) r'.
Proof. done. Qed.

Section read_steps.
Context (s : stream) (left : nat) (got copied : list Z) (Hwf : wf (ring s)).

Lemma read_bounds_ok old :
  reader_ok (ring s) (mk_reader (ReadBounds old) left got copied) ->
  exists s' r', stream_read_step s (mk_reader (ReadBounds old) left got copied) = Some (s', r') /\ read_kept s (mk_reader (ReadBounds old) left got copied) s' r'.
Proof.
  intros [-> Hc]. cbn [r_copied] in Hc. subst copied. eexists _, _. split; [reflexivity|]. apply read_kept_ring. cbn [r_left r_got r_copied r_pc].
  set (m := if (offset_write _ <? _)%nat then _ else _). set (d := if (m <? left)%nat then m else left).
  assert (d = left `min` m)%nat as Ed by (subst d; destruct (Nat.ltb_spec m left); lia). clearbody d.
  split; [done|]. split; [|done]. destruct (Nat.eqb_spec d 0) as [E|E]; [apply read_return_ok|].
  split; [done|]. cbn [r_left r_copied]. split; [lia|]. split; [|done]. subst m. pose proof Hwf as (_ & Hr & Hw & _). positions.
Qed.

Lemma read_copy_ok old oldw d i :
  reader_ok (ring s) (mk_reader (ReadCopy old oldw d i) left got copied) ->
  exists s' r', stream_read_step s (mk_reader (ReadCopy old oldw d i) left got copied) = Some (s', r') /\
    read_kept s (mk_reader (ReadCopy old oldw d i) left got copied) s' r'.
Proof.
  intros (-> & Hi & Hd & Hc). cbn [r_left r_copied] in Hi, Hc. subst copied.
  destruct (readable_byte (ring s) Hwf d i Hd ltac:(lia)) as (b & Hb & Ht). unfold stream_read_step, ringbuffer_read_step. cbn [r_left r_got r_copied r_pc]. rewrite Hb.
  cbn [mbind option_bind]. eexists _, _. split; [done|]. apply read_kept_ring. rewrite Ht. split; [done|]. split; [|done]. cbn [r_pc].
  destruct (Nat.eqb_spec (S i) d) as [<-|]; (split; [done|]; cbn [r_left r_copied]; split; [lia|done]).
Qed.

Lemma read_store_ok old oldw d :
  reader_ok (ring s) (mk_reader (ReadStore old oldw d) left got copied) ->
  exists s' r', stream_read_step s (mk_reader (ReadStore old oldw d) left got copied) = Some (s', r') /\
    read_kept s (mk_reader (ReadStore old oldw d) left got copied) s' r'.
Proof.
  intros (-> & Hd & Hr & Hc). cbn [r_left r_copied] in Hd, Hc. destruct (offset_read_ok (ring s) Hwf d Hr ltac:(lia)) as (Hwf' & Hq & Hw & Hp).
  destruct (readable_queue (ring s) Hwf d Hr) as [_ Hlen]. eexists _, _. split; [reflexivity|]. cbn [set_ring ring r_pc r_left r_got r_copied].
  set (rb' := with_offset_read _ _) in *. split; [done|]. split; [done|]. cbn [r_got r_left ring set_ring]. split; [by rewrite Hq, Hc, <- app_assoc|].
  split; [rewrite length_app, Hc, length_take; lia|]. intros w. unfold writer_ok, stored. 
  destruct (w_pc w); try done; cbn [rb' with_offset_read offset_write buffer buffer_size]; fold rb'; naive_solver.
Qed.

Lemma read_step_ok pc s' r' :
  let r := mk_reader pc left got copied in
  reader_ok (ring s) r -> stream_read_step s r = Some (s', r') -> read_kept s r s' r'.
Proof.
  intros r Hok E. subst r. destruct pc as [|old|old oldw d i|old oldw d|old oldw d| | | | | |].
  - injection E as <- <-. by split.
  - destruct (read_bounds_ok old Hok) as (s1 & r1 & E1 & H). rewrite E1 in E. by injection E as <- <-.
  - destruct (read_copy_ok old oldw d i Hok) as (s1 & r1 & E1 & H). rewrite E1 in E. by injection E as <- <-.
  - destruct (read_store_ok old oldw d Hok) as (s1 & r1 & E1 & H). rewrite E1 in E. by injection E as <- <-.
  - injection E as <- <-. cbn in Hok. subst copied. split; [by apply with_total_read_wf|]. split; [|done].
    cbn [r_left r_got r_copied]. case_match; [done|apply read_return_ok].
  - injection E as <- <-. by split.
  - injection E as <- <-. by split.
  - unfold stream_read_step in E. cbn [r_pc] in E. destruct (signal_write s); [done|]. injection E as <- <-. by split.
  - injection E as <- <-. by split.
  - injection E as <- <-. by split.
  - done.
Qed.

(** Only a reader that waits, or has returned, has no step. *)
Lemma read_step_none pc :
  let r := mk_reader pc left got copied in
  reader_ok (ring s) r -> stream_read_step s r = None -> pc = ReadDone \/ pc = ReadWait /\ signal_write s = 0%nat.
Proof.
  intros r Hok E. subst r. destruct pc as [|old|old oldw d i|old oldw d|old oldw d| | | | | |]; try done; [| |by left].
  - destruct (read_copy_ok old oldw d i Hok) as (s1 & r1 & E1 & _). by rewrite E1 in E.
  - right. split; [done|]. unfold stream_read_step in E. cbn [r_pc] in E. by destruct (signal_write s).
Qed.
End read_steps.

(** What a step of the writer gives: the bytes that it has written are behind
    the queue, and the reader's variables stay true. *)
Definition write_kept (s : stream) (w : writer) (s' : stream) (w' : writer) : Prop :=
  wf (ring s') /\ writer_ok (ring s') w' /\ queue (ring s') ++ w_left w' = queue (ring s) ++ w_left w /\
  (forall r, reader_ok (ring s) r -> reader_ok (ring s') r).

Lemma write_return_ok rb left : writer_ok rb (mk_writer (write_return left) left).
Proof. unfold write_return. destruct (Nat.ltb_spec 0 (length left)); [done|]. apply nil_length_inv. cbn [w_left]. lia. Qed.

Lemma write_begin_ok rb old m left :
  (forall d, (0 < d <= m)%nat -> writable rb d) -> writer_ok rb (mk_writer (write_begin old (offset_write rb) m left) left).
Proof.
  intros Hm. unfold write_begin. set (d := if (m <? length left)%nat then m else length left).
  assert (d = length left `min` m)%nat as Ed by (subst d; destruct (Nat.ltb_spec m (length left)); lia). clearbody d.
  destruct (Nat.eqb_spec d 0) as [E|E]; [apply write_return_ok|]. split; [lia|]. split; [done|]. cbn [w_left]. split; [lia|]. split; [apply Hm; lia|done].
Qed.

(** The reader's bytes are still at the front of the queue. *)
Lemma reader_ok_kept rb rb' bs :
  wf rb -> offset_read rb' = offset_read rb -> queue rb' = queue rb ++ bs -> (forall k, readable rb k -> readable rb' k) ->
  forall r, reader_ok rb r -> reader_ok rb' r.
Proof.
  intros Hwf Hoff Hq Hrd r. assert (forall d i, readable rb d -> (i <= d)%nat -> take i (queue rb') = take i (queue rb)) as Ht.
  { intros d i Hd Hi. destruct (readable_queue rb Hwf d Hd) as [_ Hlen]. rewrite Hq. apply take_app_le. lia. }
  unfold reader_ok. destruct (r_pc r); try done; rewrite Hoff.
  - done.
  - intros (-> & Hi & Hd & ->). rewrite (Ht _ _ Hd) by lia. by repeat split; [lia..|apply Hrd].
  - intros (-> & Hi & Hd & ->). rewrite (Ht _ _ Hd) by lia. by repeat split; [lia..|apply Hrd].
Qed.

Lemma write_kept_ring s w w' : write_kept s w s w' -> write_kept s w (set_ring s (ring s)) w'.
Proof. done. Qed.

Section write_steps.
Context (s : stream) (left : list Z) (Hwf : wf (ring s)).

Lemma write_bounds_ok old :
  writer_ok (ring s) (mk_writer (WriteBounds old) left) ->
  exists s' w', stream_write_step s (mk_writer (WriteBounds old) left) = Some (s', w') /\ write_kept s (mk_writer (WriteBounds old) left) s' w'.
Proof.
  intros Hp. cbn in Hp. eexists _, _. split; [reflexivity|]. apply write_kept_ring. split; [done|]. split; [|done]. cbn [w_left w_pc].
  pose proof Hwf as (_ & Hr & Hw & _). destruct (Nat.leb_spec old (offset_write (ring s))) as [Hle|Hgt].
  - destruct (Nat.eqb_spec (buffer_size (ring s) - offset_write (ring s)) 0); [|done].
    apply write_begin_ok. intros d Hd. positions.
  - apply write_begin_ok. intros d Hd. positions.
Qed.

Lemma write_reload_ok old oldw :
  writer_ok (ring s) (mk_writer (WriteReload old oldw) left) ->
  exists s' w', stream_write_step s (mk_writer (WriteReload old oldw) left) = Some (s', w') /\ write_kept s (mk_writer (WriteReload old oldw) left) s' w'.
Proof.
  intros (-> & Hle & Hp). eexists _, _. split; [reflexivity|]. apply write_kept_ring. split; [done|]. split; [|done]. cbn [w_left].
  pose proof Hwf as (_ & Hr & Hw & _). apply write_begin_ok. intros d Hd. positions.
Qed.

Lemma write_copy_ok old oldw d i :
  writer_ok (ring s) (mk_writer (WriteCopy old oldw d i) left) ->
  exists s' w', stream_write_step s (mk_writer (WriteCopy old oldw d i) left) = Some (s', w') /\
    write_kept s (mk_writer (WriteCopy old oldw d i) left) s' w'.
Proof.
  intros (Hi & -> & Hd & Hw & Ht). cbn [w_left] in Hd, Ht. destruct (lookup_lt_is_Some_2 left i) as [b Hb]; [lia|].
  destruct (with_byte_ok (ring s) Hwf d i b Hw Hi) as (Hlt & Hwf' & Hq). unfold stream_write_step, ringbuffer_write_step. cbn [w_left w_pc]. rewrite Hb. cbn [mbind option_bind].
  apply Nat.ltb_lt in Hlt. rewrite Hlt. eexists _, _. split; [done|]. pose proof (with_byte_before (ring s) Hwf d i b left Hw Hi Ht Hb) as Ht'.
  set (rb' := with_byte _ _ _) in *. split; [done|]. split; [|split; [cbn [ring set_ring w_left]; by rewrite Hq|]].
  - cbn [ring set_ring]. assert (forall j, (j = S i)%nat -> stored rb' (mk_writer WriteLoad left) (offset_write (ring s)) d j) as Hst
      by (intros j ->; split; [done|]; split; [done|]; split; [exact Hw|exact Ht']).
    destruct (Nat.eqb_spec (S i) d) as [E|E]; [destruct (Nat.eqb_spec (offset_write (ring s) + d) (buffer_size (ring s)))|].
    + split; [done|]. by apply Hst.
    + by apply Hst.
    + split; [lia|]. by apply Hst.
  - apply (reader_ok_kept (ring s) rb' []); [done|done|by rewrite Hq, app_nil_r|done].
Qed.

Lemma write_assert_ok old oldw d :
  writer_ok (ring s) (mk_writer (WriteAssert old oldw d) left) ->
  exists s' w', stream_write_step s (mk_writer (WriteAssert old oldw d) left) = Some (s', w') /\ write_kept s (mk_writer (WriteAssert old oldw d) left) s' w'.
Proof.
  intros (Hend & -> & Hd & Hw & Ht). unfold stream_write_step, ringbuffer_write_step. cbn [w_left w_pc]. pose proof Hwf as (_ & Hr & Hw' & _).
  destruct (Nat.eqb_spec (offset_read (ring s)) 0); [exfalso; positions|]. eexists _, _. split; [done|]. apply write_kept_ring. split; [done|]. by split.
Qed.

Lemma write_store_ok old oldw d :
  writer_ok (ring s) (mk_writer (WriteStore old oldw d) left) ->
  exists s' w', stream_write_step s (mk_writer (WriteStore old oldw d) left) = Some (s', w') /\
    write_kept s (mk_writer (WriteStore old oldw d) left) s' w'.
Proof.
  intros (-> & Hd & Hw & Ht). cbn [w_left] in Hd, Ht. assert (length (take d left) = d) as Hlen by (rewrite length_take; lia).
  pose proof (offset_write_ok (ring s) Hwf (take d left)) as Hstore. rewrite Hlen in Hstore.
  destruct Hstore as (Hwf' & Hq & Hr); [done|intros E; rewrite E in Hlen; cbn in Hlen; lia|done|]. eexists _, _. split; [reflexivity|]. split; [done|]. split; [done|]. cbn [ring set_ring w_left w_pc].
  split; [by rewrite Hq, <- app_assoc, take_drop|]. by apply (reader_ok_kept _ _ (take d left)).
Qed.

Lemma write_step_ok pc s' w' :
  let w := mk_writer pc left in
  writer_ok (ring s) w -> stream_write_step s w = Some (s', w') -> write_kept s w s' w'.
Proof.
  intros w Hok E. subst w. destruct pc as [|old|old oldw|old oldw d i|old oldw d|old oldw d|old oldw d| | | | | |].
  - injection E as <- <-. split; [done|]. split; [|done]. pose proof Hwf as (_ & Hr & Hw & _). cbn. positions.
  - destruct (write_bounds_ok old Hok) as (s1 & w1 & E1 & H). rewrite E1 in E. by injection E as <- <-.
  - destruct (write_reload_ok old oldw Hok) as (s1 & w1 & E1 & H). rewrite E1 in E. by injection E as <- <-.
  - destruct (write_copy_ok old oldw d i Hok) as (s1 & w1 & E1 & H). rewrite E1 in E. by injection E as <- <-.
  - destruct (write_assert_ok old oldw d Hok) as (s1 & w1 & E1 & H). rewrite E1 in E. by injection E as <- <-.
  - destruct (write_store_ok old oldw d Hok) as (s1 & w1 & E1 & H). rewrite E1 in E. by injection E as <- <-.
  - injection E as <- <-. split; [by apply with_total_write_wf|]. split; [|done]. cbn [w_left]. case_match; [done|apply write_return_ok].
  - injection E as <- <-. by split.
  - injection E as <- <-. by split.
  - unfold stream_write_step in E. cbn [w_pc] in E. destruct (signal_read s); [done|]. injection E as <- <-. by split.
  - injection E as <- <-. by split.
  - injection E as <- <-. by split.
  - done.
Qed.

Lemma write_step_none pc :
  let w := mk_writer pc left in
  writer_ok (ring s) w -> stream_write_step s w = None -> pc = WriteDone \/ pc = WriteWait /\ signal_read s = 0%nat.
Proof.
  intros w Hok E. subst w. destruct pc as [|old|old oldw|old oldw d i|old oldw d|old oldw d|old oldw d| | | | | |]; try done; [| | |by left].
  - destruct (write_copy_ok old oldw d i Hok) as (s1 & w1 & E1 & _). by rewrite E1 in E.
  - destruct (write_assert_ok old oldw d Hok) as (s1 & w1 & E1 & _). by rewrite E1 in E.
  - right. split; [done|]. unfold stream_write_step in E. cbn [w_pc] in E. by destruct (signal_read s).
Qed.
End write_steps.

(** ** The system *)

Definition inv (n : nat) (data : list Z) (y : system) : Prop :=
  wf (ring (shared y)) /\ in_transit y = data /\ (length (r_got (the_reader y)) + r_left (the_reader y) = n)%nat /\
  reader_ok (ring (shared y)) (the_reader y) /\ writer_ok (ring (shared y)) (the_writer y).

Lemma step_inv n data id y y' : inv n data y -> step id y = Some y' -> inv n data y'.
Proof.
  destruct y as [s r w]. intros (Hwf & Ht & Hn & Hr & Hw) E. unfold in_transit in Ht. cbn [shared the_reader the_writer] in *.
  destruct id; unfold step in E; cbn [shared the_reader the_writer] in E.
  - destruct (stream_read_step s r) as [[s' r']|] eqn:Es; [|done]. injection E as <-. destruct r as [pc left got copied].
    destruct (read_step_ok s left got copied Hwf pc s' r' Hr Es) as (H1 & H2 & H3 & H4 & H5). unfold inv, in_transit. cbn [shared the_reader the_writer] in *.
    split; [done|]. split; [by rewrite app_assoc, H3, <- app_assoc|]. split; [by rewrite H4|]. split; [done|by apply H5].
  - destruct (stream_write_step s w) as [[s' w']|] eqn:Es; [|done]. injection E as <-. destruct w as [pc left].
    destruct (write_step_ok s left Hwf pc s' w' Hw Es) as (H1 & H2 & H3 & H4). unfold inv, in_transit. cbn [shared the_reader the_writer] in *.
    split; [done|]. split; [by rewrite H3|]. split; [done|]. split; [by apply H4|done].
Qed.

Lemma run_inv n data schedule y y' : inv n data y -> run schedule y = Some y' -> inv n data y'.
Proof.
  revert y. induction schedule as [|id schedule IH]; intros y Hi E; cbn [run] in E; [by injection E as <-|].
  destruct (step id y) as [y1|] eqn:E1; [|done]. eapply IH; [|exact E]. by eapply step_inv.
Qed.

Lemma stream_start_inv s n source : wf (ring s) -> inv n (queue (ring s) ++ source) (start s n source).
Proof. intros Hwf. by split. Qed.

(** C19: one thread reads from the stream and another one writes to it, without
    a lock; however their single loads and stores interleave, in one order for
    both (memory is sequentially consistent), no byte is lost, doubled or
    moved: what was read, what is in the ring and what is still to be written
    are the initial content followed by the source, also while either thread
    is copying.  A reader that has returned has stored exactly the bytes it
    asked for; neither thread leaves the storage, the assertion in
    [ringbuffer_write] holds, and a thread that has no step has returned or
    waits at its semaphore. *)
Theorem ringbuffer_stream_fifo s n source schedule y :
  wf (ring s) -> run schedule (start s n source) = Some y ->
  wf (ring (shared y)) /\ in_transit y = queue (ring s) ++ source /\
  (r_pc (the_reader y) = ReadDone ->
     r_got (the_reader y) ++ r_copied (the_reader y) = take n (queue (ring s) ++ source) /\ length (r_got (the_reader y)) = n) /\
  (w_pc (the_writer y) = WriteDone -> r_got (the_reader y) ++ queue (ring (shared y)) = queue (ring s) ++ source) /\
  (step Reader y = None -> r_pc (the_reader y) = ReadDone \/ r_pc (the_reader y) = ReadWait /\ signal_write (shared y) = 0%nat) /\
  (step Writer y = None -> w_pc (the_writer y) = WriteDone \/ w_pc (the_writer y) = WriteWait /\ signal_read (shared y) = 0%nat).
Proof.
  intros Hwf E. destruct (run_inv n _ _ _ _ (stream_start_inv s n source Hwf) E) as (Hwf' & Ht & Hn & Hr & Hw).
  destruct y as [s' [pc left got copied] [wpc wleft]]. unfold in_transit in *. cbn [shared the_reader the_writer r_pc r_left r_got r_copied w_pc w_left] in *.
  split; [done|]. split; [done|]. split; [|split; [|split]].
  - intros ->. destruct Hr as [Hl Hc]. cbn [r_left r_copied] in Hl, Hc. subst copied. rewrite app_nil_r, <- Ht. assert (length got = n) as <- by lia.
    split; [|done]. by rewrite take_app_length.
  - intros ->. cbn in Hw. subst wleft. by rewrite <- Ht, app_nil_r.
  - intros Hs. apply (read_step_none s' left got copied Hwf' pc Hr). unfold step in Hs. cbn [shared the_reader] in Hs.
    by destruct (stream_read_step s' _) as [[??]|].
  - intros Hs. apply (write_step_none s' wleft Hwf' wpc Hw). unfold step in Hs. cbn [shared the_writer] in Hs.
    by destruct (stream_write_step s' _) as [[??]|].
Qed.

(** ** Witnesses *)

Definition sample_ring : ringbuffer_t := mk_ring 3 5 3 1 4 [11; 12; 13; 14].

Lemma sample_ring_wf : wf sample_ring.
Proof. unfold wf, sample_ring, in_u. simpl. repeat split; lia. Qed.

Lemma ringbuffer_bounded_queue_witness :
  (length (queue sample_ring) <= 3)%nat /\
  (forall n, exists rb', ringbuffer_read 2 sample_ring n = Some (take n (queue sample_ring), rb') /\ wf rb' /\
     queue rb' = drop n (queue sample_ring) /\ buffer_size rb' = 4%nat /\
     total_read rb' = u64 (3 + Z.of_nat (n `min` length (queue sample_ring))) /\ total_write rb' = 5) /\
  (forall source, exists rb', ringbuffer_write 2 sample_ring source = Some ((length source `min` room sample_ring)%nat, rb') /\ wf rb' /\
     queue rb' = queue sample_ring ++ take (room sample_ring) source /\ buffer_size rb' = 4%nat /\
     total_write rb' = u64 (5 + Z.of_nat (length source `min` room sample_ring)) /\ total_read rb' = 3) /\
  wf (ringbuffer_reset sample_ring) /\ queue (ringbuffer_reset sample_ring) = [].
Proof. apply (ringbuffer_bounded_queue sample_ring sample_ring_wf). Defined.

Definition sample_stream : stream := mk_stream sample_ring 0 false false 0 0.

(** Both threads are inside their calls at once: the writer loads the read
    position before the reader moves it, and stores a byte while the reader
    copies one. *)
Definition sample_run : list thread_id :=
  [Reader; Writer; Reader; Writer; Reader; Writer; Reader; Reader; Writer; Writer;
   Reader; Reader; Reader; Writer; Reader; Reader; Writer; Reader].

Definition sample_end : system := default (start sample_stream 3 [21; 22]) (run sample_run (start sample_stream 3 [21; 22])).

Lemma ringbuffer_stream_fifo_witness :
  in_transit sample_end = [14; 11; 21; 22] /\ r_got (the_reader sample_end) = [14; 11; 21] /\ wf (ring (shared sample_end)).
Proof.
  destruct (ringbuffer_stream_fifo sample_stream 3 [21; 22] sample_run sample_end) as (H1 & H2 & _); [apply sample_ring_wf|by vm_compute|].
  split; [exact H2|]. split; [by vm_compute|exact H1].
Defined.

Definition empty_stream : stream := ringbuffer_stream_initialize [0; 0; 0; 0] 0.

(** A wakeup is lost when the writer finishes between the reader's failed
    attempt and the moment the reader says that it waits: the reader sleeps
    although the ring holds every byte it asked for, and only another call of
    the writer can wake it. *)
Definition lost_run : list thread_id := replicate 2 Reader ++ replicate 8 Writer ++ replicate 2 Reader.

Example ringbuffer_stream_lost_wakeup :
  match run lost_run (start empty_stream 2 [7; 8]) with
  | Some y => r_pc (the_reader y) = ReadWait /\ w_pc (the_writer y) = WriteDone /\ queue (ring (shared y)) = [7; 8] /\
      r_left (the_reader y) = 2%nat /\ step Reader y = None /\ step Writer y = None
  | None => False
  end.
Proof. by vm_compute. Qed.

(** Without the other thread the steps of a call do what the call does. *)
Example stream_read_alone :
  match run (replicate 10 Reader) (start sample_stream 2 []), ringbuffer_read 2 (ring sample_stream) 2 with
  | Some y, Some (bytes, rb) => r_pc (the_reader y) = ReadFinal /\ r_got (the_reader y) = bytes /\ ring (shared y) = rb
  | _, _ => False
  end.
Proof. by vm_compute. Qed.

Example stream_write_alone :
  match run (replicate 5 Writer) (start sample_stream 0 [21]), ringbuffer_write 2 (ring sample_stream) [21] with
  | Some y, Some (n, rb) => w_pc (the_writer y) = WriteFinal /\ n = 1%nat /\ ring (shared y) = rb
  | _, _ => False
  end.
Proof. by vm_compute. Qed.
End RingBuffer.
