(* ===== verification/ObjectMap.v ===== *)
(** * Object maps ([src/library/foundation_lib/foundation/objectmap.c])

    Reference counted objects behind 32-bit handles: a handle is the index of a
    slot and a tag that tells the slot's successive uses apart.  Free slots form
    a list that is linked through their pointer fields and continues behind the
    last slot ever used ([autolink]). *)
From S2P Require Import Prelude.

Module ObjectMap.

Definition OBJECTMAP_TAGBITS : Z := 10.
Definition OBJECTMAP_TAGMASK : Z := low_mask OBJECTMAP_TAGBITS.
Definition OBJECTMAP_INDEXBITS : Z := 32 - OBJECTMAP_TAGBITS.
Definition OBJECTMAP_INDEXMASK : Z := low_mask OBJECTMAP_INDEXBITS.

(** A pointer and, in one word, the tag and the number of references; a free slot
    has the word 0. *)
Record objectmap_entry_t := mk_entry { ptr : Z; ref : Z }.

#[export] Instance entry_eq_dec : EqDecision objectmap_entry_t.
Proof. solve_decision. Defined.

#[export] Instance entry_inhabited : Inhabited objectmap_entry_t := populate (mk_entry 0 0).

Record objectmap_t := mk_objectmap {
  free : Z; tag : Z; size : Z; autolink : Z; slots : list objectmap_entry_t }.

Definition slot (m : objectmap_t) (idx : Z) : objectmap_entry_t := slots m !!! Z.to_nat idx.

Definition put (m : objectmap_t) (idx : Z) (e : objectmap_entry_t) : objectmap_t :=
  mk_objectmap (free m) (tag m) (size m) (autolink m) (<[Z.to_nat idx := e]> (slots m)).

(** The fields of a handle and of a slot's word. *)
Definition id_index (id : Z) : Z := Z.land id OBJECTMAP_INDEXMASK.
Definition id_tag (id : Z) : Z := Z.shiftr id OBJECTMAP_INDEXBITS.

(** [log2_bits count] is [(uint32_t)math_round(math_log2((real)count) + 0.5)]. *)
Definition objectmap_initialize (log2_bits : Z -> Z) (count : Z) : objectmap_t :=
  let bits := log2_bits count in
  let count := if OBJECTMAP_INDEXBITS <? bits then low_mask OBJECTMAP_INDEXBITS - 1 else count in
  mk_objectmap 0 0 (u32 count) 0 (replicate (Z.to_nat count) (mk_entry 0 0)).

Definition objectmap_allocate (log2_bits : Z -> Z) (count : Z) : objectmap_t :=
  let count := if count <? 3 then 3 else count in
  objectmap_initialize log2_bits count.

(** Whether the check for leaks of the debug builds logs an error. *)
Definition objectmap_finalize (m : objectmap_t) : bool :=
  existsb (fun e => negb (ref e =? 0)) (take (Z.to_nat (size m `min` autolink m)) (slots m)).

Definition objectmap_size (m : objectmap_t) : Z := size m.

Definition objectmap_raw_lookup (m : objectmap_t) (idx : Z) : Z :=
  if negb (ref (slot m idx) =? 0) then ptr (slot m idx) else 0.

Definition objectmap_raw_id (m : objectmap_t) (idx : Z) : Z :=
  let r := ref (slot m idx) in
  if negb (r =? 0) then Z.lor (Z.land r (u32 (Z.lnot OBJECTMAP_INDEXMASK))) (u32 idx) else 0.

(** The tag 0 is skipped; two rounds of the loop are enough. *)
Fixpoint next_tag_loop (fuel : nat) (t : Z) : option (Z * Z) :=
  match fuel with
  | O => None
  | S fuel =>
      let t := u32 (t + 1) in
      let tg := Z.land t OBJECTMAP_TAGMASK in
      if tg =? 0 then next_tag_loop fuel t else Some (tg, t)
  end.

Definition objectmap_next_tag (m : objectmap_t) : option (Z * objectmap_t) :=
  '(tg, t) ← next_tag_loop 2 (tag m);
  Some (tg, mk_objectmap (free m) t (size m) (autolink m) (slots m)).

(** The handle, 0 when every slot is taken. *)
Definition objectmap_reserve (m : objectmap_t) : option (Z * objectmap_t) :=
  let idx := free m in
  if size m <=? idx then Some (0, m)
  else
    let '(next, autolink) :=
      if autolink m <=? idx then (u32 (autolink m + 1), u32 (autolink m + 1))
      else (Z.land (u32 (ptr (slot m idx))) OBJECTMAP_INDEXMASK, autolink m) in
    let m := mk_objectmap next (tag m) (size m) autolink (slots m) in
    '(tg, m) ← objectmap_next_tag m;
    let tagshifted := shl 32 tg OBJECTMAP_INDEXBITS in
    Some (Z.lor tagshifted idx, put m idx (mk_entry 0 tagshifted)).

Definition objectmap_free (m : objectmap_t) (id : Z) : bool * objectmap_t :=
  let idx := id_index id in
  if size m <=? idx then (false, m)
  else if negb (id_tag id =? id_tag (ref (slot m idx))) then (false, m)
  else
    let next := free m in
    let m := mk_objectmap idx (tag m) (size m) (autolink m) (slots m) in
    (true, put m idx (mk_entry next 0)).

Definition objectmap_set (m : objectmap_t) (id object : Z) : bool * objectmap_t :=
  let idx := id_index id in
  let tg := Z.land id (u32 (Z.lnot OBJECTMAP_INDEXMASK)) in
  if size m <=? idx then (false, m)
  else
    let reftag := ref (slot m idx) in
    if (ptr (slot m idx) =? 0) && (tg =? reftag)
    then (true, put m idx (mk_entry object (Z.lor reftag 1)))
    else (false, m).

Definition objectmap_lookup (m : objectmap_t) (id : Z) : Z :=
  let idx := id_index id in
  if size m <=? idx then 0
  else
    let r := ref (slot m idx) in
    if (id_tag id =? id_tag r) && negb (id_index r =? 0) then ptr (slot m idx) else 0.

(** Without other threads the compare-and-swap succeeds at its first attempt. *)
Definition objectmap_acquire (m : objectmap_t) (id : Z) : Z * objectmap_t :=
  let idx := id_index id in
  if size m <=? idx then (0, m)
  else
    let r := ref (slot m idx) in
    if (id_tag id =? id_tag r) && negb (id_index r =? 0) then
      let newref := Z.lor (shl 32 (id_tag r) OBJECTMAP_INDEXBITS) (u32 (id_index r + 1)) in
      let m := put m idx (mk_entry (ptr (slot m idx)) newref) in
      (ptr (slot m idx), m)
    else (0, m).

(** The result, the pointer for which [deallocate] is called, the map. *)
Definition objectmap_release (m : objectmap_t) (id : Z) : bool * option Z * objectmap_t :=
  let idx := id_index id in
  if size m <=? idx then (false, None, m)
  else
    let r := ref (slot m idx) in
    if (id_tag id =? id_tag r) && negb (id_index r =? 0) then
      let newref := Z.lor (shl 32 (id_tag r) OBJECTMAP_INDEXBITS) (u32 (id_index r - 1)) in
      let m := put m idx (mk_entry (ptr (slot m idx)) newref) in
      if id_index r =? 1
      then (true, Some (ptr (slot m idx)), (objectmap_free m id).2)
      else (true, None, m)
    else (false, None, m).

(** ** What the map stands for

    The object and the number of references behind a handle. *)
Definition view (e : objectmap_entry_t) (id : Z) : option (Z * Z) :=
  if (id_tag id =? id_tag (ref e)) && negb (id_tag id =? 0) then Some (ptr e, id_index (ref e)) else None.

Definition live (m : objectmap_t) (id : Z) : option (Z * Z) :=
  if id_index id <? size m then view (slot m (id_index id)) id else None.

(** The handles that [objectmap_reserve] gives. *)
Definition handle (id : Z) : Prop := in_u 32 id /\ id_tag id <> 0.

Definition sample_bits (count : Z) : Z := Z.log2 count + 1.

Example objectmap_session :
  let m0 := objectmap_allocate sample_bits 1 in
  match objectmap_reserve m0 with
  | Some (id, m1) =>
      let m2 := (objectmap_set m1 id 4096).2 in
      let m3 := (objectmap_acquire m2 id).2 in
      (id, live m3 id, (objectmap_release m3 id).1) = (0x400000, Some (4096, 2), (true, None))
  | None => False
  end.
Proof. vm_compute. reflexivity. Qed.

(** ** Arithmetic of handles and words *)

Lemma index_mod id : id_index id = id mod 2 ^ 22.
Proof. unfold id_index, OBJECTMAP_INDEXMASK. by apply land_low_mask. Qed.

Lemma tag_div id : id_tag id = id / 2 ^ 22.
Proof. unfold id_tag. by apply Z.shiftr_div_pow2. Qed.

Lemma word_join t c :
  0 <= t < 2 ^ 10 -> 0 <= c < 2 ^ 22 -> Z.lor (shl 32 t OBJECTMAP_INDEXBITS) c = t * 2 ^ 22 + c.
Proof.
  intros Ht Hc. assert (shl 32 t OBJECTMAP_INDEXBITS = Z.shiftl t 22) as ->.
  { unfold shl. change OBJECTMAP_INDEXBITS with 22. apply wrap_small. rewrite Z.shiftl_mul_pow2 by done. eval_pow. lia. }
  rewrite Z.lor_comm. destruct (disjoint_add 22 c t Hc) as [_ <-]. lia.
Qed.

Lemma tag_mask id : in_u 32 id -> Z.land id (u32 (Z.lnot OBJECTMAP_INDEXMASK)) = id_tag id * 2 ^ 22.
Proof.
  intros Hid. unfold id_tag, OBJECTMAP_INDEXMASK. rewrite low_mask_ones. change OBJECTMAP_INDEXBITS with 22.
  rewrite <- Z.shiftl_mul_pow2 by done. zbits i.
  destruct (decide (32 <= i)); [rewrite (in_u_testbit 32 id i) by done|]; split_bits.
  all: try (rewrite (in_u_testbit 32 id) by (done || lia); done).
  f_equal. lia.
Qed.

(** Everything about words in terms of quotient and remainder. *)
Ltac words :=
  rewrite ?index_mod, ?tag_div in *; unfold in_u, handle in *; eval_pow; Z.to_euclidean_division_equations; lia.

Lemma word_split w : w = id_tag w * 2 ^ 22 + id_index w.
Proof. words. Qed.

Lemma word_fields t c : 0 <= c < 2 ^ 22 -> id_tag (t * 2 ^ 22 + c) = t /\ id_index (t * 2 ^ 22 + c) = c.
Proof.
  intros Hc. rewrite tag_div, index_mod, Z.add_comm. split.
  - rewrite Z.div_add by done. rewrite Z.div_small by done. lia.
  - rewrite Z.mod_add by done. by apply Z.mod_small.
Qed.

Lemma index_range id : 0 <= id_index id < 2 ^ 22.
Proof. rewrite index_mod. by apply Z.mod_pos_bound. Qed.

Lemma tag_range id : in_u 32 id -> 0 <= id_tag id < 2 ^ 10.
Proof. intros. words. Qed.

(** The next tag: one more, without 0. *)
Lemma next_tag_spec t :
  exists tg t', next_tag_loop 2 t = Some (tg, t') /\ 0 < tg < 2 ^ 10 /\
    tg = t' mod 2 ^ 10 /\ in_u 32 t' /\ (t mod 2 ^ 10 < 1023 -> tg = t mod 2 ^ 10 + 1) /\
    (t mod 2 ^ 10 = 1023 -> tg = 1).
Proof.
  assert (forall x, u32 x mod 2 ^ 10 = x mod 2 ^ 10) as Hw.
  { intros x. unfold wrap. change (2 ^ 32) with (2 ^ 10 * 2 ^ 22). eval_pow. Z.to_euclidean_division_equations; lia. }
  assert (forall x, Z.land x OBJECTMAP_TAGMASK = x mod 2 ^ 10) as Hm by (intros; by apply land_low_mask).
  cbn [next_tag_loop]. rewrite !Hm, !Hw.
  destruct (Z.eqb_spec ((t + 1) mod 2 ^ 10) 0) as [E|E].
  - rewrite <- (Hw (u32 (t + 1) + 1)) in *. rewrite wrap_add_l, !Hw.
    assert ((t + 1 + 1) mod 2 ^ 10 = 1) as E1 by (eval_pow; Z.to_euclidean_division_equations; lia).
    rewrite E1. cbn [Z.eqb]. exists 1, (u32 (t + 1 + 1)). rewrite Hw, E1.
    split; [done|]. split; [done|]. split; [done|]. split; [by apply wrap_in_u|]. split; [|done].
    intros. eval_pow. Z.to_euclidean_division_equations; lia.
  - exists ((t + 1) mod 2 ^ 10), (u32 (t + 1)). rewrite Hw.
    split; [done|]. split; [eval_pow; Z.to_euclidean_division_equations; lia|]. split; [done|].
    split; [by apply wrap_in_u|]. split; intros; eval_pow; Z.to_euclidean_division_equations; lia.
Qed.

(** ** Well-formed maps

    [chain es last cur l]: from [cur] the links of the slots lead through [l] to
    [last]. *)
Fixpoint chain (es : list objectmap_entry_t) (last cur : Z) (l : list nat) : Prop :=
  match l with
  | [] => cur = last
  | i :: l => cur = Z.of_nat i /\ chain es last (ptr (es !!! i)) l
  end.

Definition word_ok (w : Z) : Prop := in_u 32 w /\ (w = 0 \/ id_tag w <> 0).

Record wf_list (m : objectmap_t) (l : list nat) : Prop := {
  wf_size : 0 <= size m < 2 ^ 22;
  wf_slots : Z.of_nat (length (slots m)) = size m;
  wf_autolink : 0 <= autolink m <= size m;
  wf_tag : in_u 32 (tag m);
  wf_chain : chain (slots m) (autolink m) (free m) l;
  wf_nodup : NoDup l;
  wf_free : forall i, i ∈ l <-> Z.of_nat i < autolink m /\ ref (slots m !!! i) = 0;
  wf_fresh : forall i, autolink m <= Z.of_nat i < size m -> slots m !!! i = mk_entry 0 0;
  wf_words : forall i, word_ok (ref (slots m !!! i)) }.

Definition wf (m : objectmap_t) : Prop := exists l, wf_list m l.

Lemma chain_put es last cur l i e : i ∉ l -> chain es last cur l -> chain (<[i := e]> es) last cur l.
Proof.
  revert cur. induction l as [|j l IH]; intros cur Hi Hc; [done|].
  apply not_elem_of_cons in Hi as [Hne Hi]. destruct Hc as [-> Hc]. split; [done|].
  rewrite list_lookup_total_insert_ne by done. by apply IH.
Qed.

Lemma slot_put m idx e j :
  0 <= idx < Z.of_nat (length (slots m)) -> 0 <= j ->
  slot (put m idx e) j = if decide (j = idx) then e else slot m j.
Proof.
  intros Hi Hj. unfold slot, put. cbn [slots]. case_decide as E.
  - subst. by rewrite list_lookup_total_insert_eq by lia.
  - by rewrite list_lookup_total_insert_ne by lia.
Qed.

Lemma wf_words_put (es : list objectmap_entry_t) (i : nat) e :
  (forall j : nat, word_ok (ref (es !!! j))) -> word_ok (ref e) -> forall j : nat, word_ok (ref (<[i := e]> es !!! j)).
Proof.
  intros Hw He j. destruct (decide (j = i)) as [->|].
  - destruct (decide (i < length es)%nat); [by rewrite list_lookup_total_insert_eq|].
    rewrite list_insert_ge by lia. apply Hw.
  - rewrite list_lookup_total_insert_ne by done. apply Hw.
Qed.

(** A used slot is below [autolink] and not in the free list. *)
Lemma used_slot m l idx :
  wf_list m l -> 0 <= idx < size m -> ref (slot m idx) <> 0 -> idx < autolink m /\ Z.to_nat idx ∉ l.
Proof.
  intros Hwf Hidx Hr. assert (idx < autolink m) as Ha.
  { destruct (decide (idx < autolink m)); [done|]. exfalso. apply Hr. unfold slot.
    rewrite (wf_fresh _ _ Hwf) by lia. done. }
  split; [done|]. intros Hl. apply (wf_free _ _ Hwf) in Hl as [_ Hl]. done.
Qed.

(** Changing a used slot that stays in use. *)
Lemma put_used m l idx e :
  wf_list m l -> 0 <= idx < size m -> ref (slot m idx) <> 0 -> ref e <> 0 -> word_ok (ref e) -> wf_list (put m idx e) l.
Proof.
  intros Hwf Hidx Hr He Hw. destruct (used_slot m l idx Hwf Hidx Hr) as [Ha Hl].
  pose proof (wf_slots _ _ Hwf) as Hlen. destruct Hwf. unfold put. split; cbn [size slots autolink tag free]; try done.
  - by rewrite length_insert.
  - by apply chain_put.
  - intros i. rewrite wf_free0. destruct (decide (i = Z.to_nat idx)) as [->|].
    + rewrite list_lookup_total_insert_eq by lia. unfold slot in Hr. tauto.
    + by rewrite list_lookup_total_insert_ne.
  - intros i Hi. rewrite list_lookup_total_insert_ne by lia. by apply wf_fresh0.
  - by apply wf_words_put.
Qed.

Lemma live_put m idx e id :
  Z.of_nat (length (slots m)) = size m -> 0 <= idx < size m ->
  live (put m idx e) id = if decide (id_index id = idx) then view e id else live m id.
Proof.
  intros Hlen Hidx. pose proof (index_range id) as Hr.
  unfold live. rewrite slot_put by lia. cbn [size put]. case_decide; [|done].
  destruct (Z.ltb_spec (id_index id) (size m)); [done|lia].
Qed.

(** The live handles, and what being live says about the slot. *)
Lemma live_slot m l id p c :
  wf_list m l -> live m id = Some (p, c) ->
  0 <= id_index id < size m /\ id_tag id <> 0 /\ ptr (slot m (id_index id)) = p /\ 0 <= c < 2 ^ 22 /\
  ref (slot m (id_index id)) = id_tag id * 2 ^ 22 + c.
Proof.
  intros Hwf Hl. unfold live in Hl. pose proof (index_range id).
  destruct (Z.ltb_spec (id_index id) (size m)); [|done]. unfold view in Hl.
  destruct (Z.eqb_spec (id_tag id) (id_tag (ref (slot m (id_index id))))) as [E|]; [|done].
  destruct (Z.eqb_spec (id_tag id) 0); [done|]. simpl in Hl. injection Hl as <- <-.
  pose proof (index_range (ref (slot m (id_index id)))) as Hc.
  repeat split; try done; try lia. rewrite E. apply word_split.
Qed.

Lemma live_none m id :
  id_tag id <> 0 -> live m id = None -> size m <= id_index id \/ id_tag id <> id_tag (ref (slot m (id_index id))).
Proof.
  intros Ht. unfold live, view. destruct (Z.ltb_spec (id_index id) (size m)); [|by left].
  destruct (Z.eqb_spec (id_tag id) (id_tag (ref (slot m (id_index id))))); [|by right].
  destruct (Z.eqb_spec (id_tag id) 0); [done|]. done.
Qed.

(** Handles with the same index and tag are the same. *)
Lemma handle_ext a b : id_index a = id_index b -> id_tag a = id_tag b -> a = b.
Proof. intros Hi Ht. rewrite (word_split a), (word_split b). by rewrite Hi, Ht. Qed.

(** Slots that agree in the word's tag behave alike for every other handle. *)
Lemma view_other e id id' :
  id_tag (ref e) = id_tag id' -> id_index id = id_index id' -> id <> id' -> view e id = None.
Proof.
  intros He Hi Hne. unfold view. destruct (Z.eqb_spec (id_tag id) (id_tag (ref e))) as [E|]; [|done].
  exfalso. apply Hne. apply handle_ext; [done|]. by rewrite E.
Qed.

Lemma view_free e id : ref e = 0 -> view e id = None.
Proof.
  intros He. unfold view. rewrite He. change (id_tag 0) with 0. by destruct (id_tag id =? 0).
Qed.

(** ** The operations *)

(** Taking the first free slot keeps the rest of the list. *)
Lemma take_slot m l :
  wf_list m l -> free m < size m ->
  exists next al l',
    (if autolink m <=? free m then (u32 (autolink m + 1), u32 (autolink m + 1))
     else (Z.land (u32 (ptr (slot m (free m)))) OBJECTMAP_INDEXMASK, autolink m)) = (next, al) /\
    0 <= free m /\ ref (slot m (free m)) = 0 /\
    (forall t e, in_u 32 t -> ref e <> 0 -> word_ok (ref e) ->
       wf_list (put (mk_objectmap next t (size m) al (slots m)) (free m) e) l').
Proof.
  intros Hwf Hlt. pose proof (wf_slots _ _ Hwf) as Hlen. destruct Hwf, l as [|i l].
  - simpl in wf_chain0. exists (free m + 1), (free m + 1), []. rewrite <- wf_chain0 in *.
    destruct (Z.leb_spec (free m) (free m)); [|lia]. rewrite wrap_small by (eval_pow; lia).
    split; [done|]. split; [lia|]. split; [unfold slot; rewrite wf_fresh0 by lia; done|].
    intros t e Ht He Hw. unfold put. split; cbn [size slots autolink tag free]; try done; try lia.
    + by rewrite length_insert.
    + intros i. split; [intros Hi; by apply elem_of_nil in Hi|]. intros [Hi1 Hi2].
      destruct (decide (i = Z.to_nat (free m))) as [->|]; [by rewrite list_lookup_total_insert_eq in Hi2 by lia|].
      rewrite list_lookup_total_insert_ne in Hi2 by done. rewrite wf_free0. split; [lia|done].
    + intros i Hi. rewrite list_lookup_total_insert_ne by lia. apply wf_fresh0. lia.
    + by apply wf_words_put.
  - destruct wf_chain0 as [Hi Hc]. apply NoDup_cons in wf_nodup0 as [Hni Hnd].
    assert (i ∈ i :: l) as Hin by left. apply wf_free0 in Hin as [Hia Hir].
    assert (slot m (free m) = slots m !!! i) as Es by (unfold slot; by rewrite Hi, Nat2Z.id).
    assert (0 <= ptr (slots m !!! i) < 2 ^ 22) as Hp.
    { destruct l as [|j l]; [simpl in Hc; lia|]. destruct Hc as [-> _].
      assert (j ∈ i :: j :: l) as Hj by (by right; left). apply wf_free0 in Hj as [Hj _]. lia. }
    exists (ptr (slots m !!! i)), (autolink m), l.
    destruct (Z.leb_spec (autolink m) (free m)); [lia|].
    rewrite Es, wrap_small by (eval_pow; lia). unfold OBJECTMAP_INDEXMASK. rewrite land_low_mask, Z.mod_small by done.
    split; [done|]. split; [lia|]. split; [done|].
    intros t e Ht He Hw. unfold put. split; cbn [size slots autolink tag free]; try done.
    + by rewrite length_insert.
    + rewrite Hi, Nat2Z.id. by apply chain_put.
    + intros j. destruct (decide (j = Z.to_nat (free m))) as [->|Hne].
      * rewrite list_lookup_total_insert_eq by lia. rewrite Hi, Nat2Z.id. tauto.
      * rewrite list_lookup_total_insert_ne by done. rewrite <- wf_free0, elem_of_cons.
        split; [by right|]. intros [->|?]; [lia|done].
    + intros j Hj. rewrite list_lookup_total_insert_ne by lia. by apply wf_fresh0.
    + by apply wf_words_put.
Qed.

Definition update (f : Z -> option (Z * Z)) (id : Z) (v : option (Z * Z)) : Z -> option (Z * Z) :=
  fun i => if decide (i = id) then v else f i.

Definition full (m : objectmap_t) : Prop := forall idx, 0 <= idx < size m -> ref (slot m idx) <> 0.

Lemma word_ok_join t c : 0 < t < 2 ^ 10 -> 0 <= c < 2 ^ 22 -> word_ok (t * 2 ^ 22 + c) /\ t * 2 ^ 22 + c <> 0.
Proof.
  intros Ht Hc. destruct (word_fields t c Hc) as [E1 E2]. split; [|eval_pow; lia].
  split; [unfold in_u; eval_pow; lia|right; lia].
Qed.

(** A slot that is rewritten with its handle's tag. *)
Lemma live_put_handle m idx e id :
  Z.of_nat (length (slots m)) = size m -> 0 <= idx < size m -> id_index id = idx -> id_tag id <> 0 ->
  id_tag (ref e) = id_tag id -> (forall i, id_index i = idx -> i <> id -> live m i = None) ->
  forall i, live (put m idx e) i = update (live m) id (Some (ptr e, id_index (ref e))) i.
Proof.
  intros Hlen Hidx Hi Ht He Ho i. rewrite live_put by done. unfold update.
  destruct (decide (id_index i = idx)) as [E|E].
  - destruct (decide (i = id)) as [->|Hne].
    + unfold view. rewrite He, Z.eqb_refl. destruct (Z.eqb_spec (id_tag id) 0); done.
    + rewrite (view_other e i id) by (done || congruence). symmetry. by apply Ho.
  - rewrite decide_False by congruence. done.
Qed.

Lemma reserve_ok m l :
  wf_list m l ->
  exists id m', objectmap_reserve m = Some (id, m') /\ wf m' /\ size m' = size m /\
    (size m <= free m /\ id = 0 /\ m' = m /\ full m \/
     free m < size m /\ handle id /\ id_index id = free m /\ ref (slot m (free m)) = 0 /\
     next_tag_loop 2 (tag m) = Some (id_tag id, tag m') /\
     forall i, live m' i = update (live m) id (Some (0, 0)) i).
Proof.
  intros Hwf. unfold objectmap_reserve. destruct (Z.leb_spec (size m) (free m)) as [Hfull|Hlt].
  - exists 0, m. split; [done|]. split; [by exists l|]. split; [done|]. left.
    split; [done|]. split; [done|]. split; [done|]. intros idx Hidx Hr. destruct Hwf, l as [|i l].
    + simpl in wf_chain0. assert (Z.to_nat idx ∈ []) as Hi by (apply wf_free0; split; [lia|done]).
      by apply elem_of_nil in Hi.
    + destruct wf_chain0 as [Hi _]. assert (i ∈ i :: l) as Hin by left. apply wf_free0 in Hin. lia.
  - destruct (take_slot m l Hwf Hlt) as (next & al & l' & -> & H0 & Hr & Hput).
    destruct (next_tag_spec (tag m)) as (tg & t' & E & Htg & _ & Ht' & _).
    unfold objectmap_next_tag. cbn [tag free size autolink slots]. rewrite E. simpl.
    pose proof (wf_size _ _ Hwf) as Hsz. pose proof (wf_slots _ _ Hwf) as Hlen.
    assert (shl 32 tg OBJECTMAP_INDEXBITS = tg * 2 ^ 22 + 0) as Es.
    { rewrite <- (word_join tg 0) by lia. by rewrite Z.lor_0_r. }
    rewrite word_join, Es by lia. destruct (word_fields tg (free m) ltac:(lia)) as [E1 E2].
    destruct (word_ok_join tg 0 Htg ltac:(lia)) as [Hw1 Hw2]. destruct (word_fields tg 0 ltac:(lia)) as [E3 E4].
    eexists _, _. split; [done|]. split; [exists l'; by apply Hput|]. split; [done|]. right. split; [done|].
    split; [split; [unfold in_u; eval_pow; lia|lia]|]. split; [done|]. split; [done|]. split; [by rewrite E1|].
    intros i. rewrite (live_put_handle _ _ _ (tg * 2 ^ 22 + free m)); try done.
    + cbn [ptr ref]. by rewrite E4.
    + rewrite E1. lia.
    + cbn [ref]. by rewrite E1, E3.
    + intros j Hj _. unfold live. cbn [size]. change (slot _ (id_index j)) with (slot m (id_index j)).
      rewrite Hj, view_free by done. by destruct (_ <? _).
Qed.

(** Of two handles with the same index at most one is live. *)
Lemma live_index m l id v i :
  wf_list m l -> live m id = Some v -> id_index i = id_index id -> i <> id -> live m i = None.
Proof.
  intros Hwf Hl Hi Hne. destruct v as [p c]. destruct (live_slot m l id p c Hwf Hl) as (Hidx & Ht & Hp & Hc & Hr).
  unfold live. rewrite Hi. destruct (Z.ltb_spec (id_index id) (size m)); [|done].
  apply (view_other _ i id); [|done..]. rewrite Hr. by apply word_fields.
Qed.

Lemma update_none m id : live m id = None -> forall i, live m i = update (live m) id None i.
Proof. intros H i. unfold update. case_decide; congruence. Qed.

(** Giving a live handle's slot back. *)
Lemma give_slot m l id v :
  wf_list m l -> live m id = Some v ->
  wf_list (put (mk_objectmap (id_index id) (tag m) (size m) (autolink m) (slots m)) (id_index id) (mk_entry (free m) 0))
    (Z.to_nat (id_index id) :: l).
Proof.
  intros Hwf Hl. destruct v as [p c]. destruct (live_slot m l id p c Hwf Hl) as (Hidx & Ht & Hp & Hc & Hr).
  pose proof (wf_slots _ _ Hwf) as Hlen. pose proof Hwf as Hwf'.
  assert (ref (slot m (id_index id)) <> 0) as Hne by (rewrite Hr; eval_pow; lia).
  destruct (used_slot m l _ Hwf Hidx Hne) as [Ha Hnl].
  destruct Hwf. unfold put. split; cbn [size slots autolink tag free]; try done.
  - by rewrite length_insert.
  - split; [lia|]. rewrite list_lookup_total_insert_eq by lia. cbn [ptr]. by apply chain_put.
  - by apply NoDup_cons.
  - intros i. rewrite elem_of_cons, wf_free0. destruct (decide (i = Z.to_nat (id_index id))) as [->|Hi].
    + rewrite list_lookup_total_insert_eq by lia. split; [intros _; split; [lia|done]|by left].
    + rewrite list_lookup_total_insert_ne by done. split; [intros [?|?]; done|by right].
  - intros i Hi. rewrite list_lookup_total_insert_ne by lia. by apply wf_fresh0.
  - apply wf_words_put; [done|]. by split; [|left].
Qed.

Lemma free_ok m l id :
  wf_list m l -> handle id ->
  exists m', objectmap_free m id = (bool_decide (is_Some (live m id)), m') /\ wf m' /\ size m' = size m /\
    tag m' = tag m /\ forall i, live m' i = update (live m) id None i.
Proof.
  intros Hwf [Hid Ht]. unfold objectmap_free. destruct (live m id) as [[p c]|] eqn:Hl.
  - destruct (live_slot m l id p c Hwf Hl) as (Hidx & _ & Hp & Hc & Hr).
    destruct (Z.leb_spec (size m) (id_index id)); [lia|].
    destruct (word_fields (id_tag id) c Hc) as [E _]. rewrite Hr, E, Z.eqb_refl. cbn [negb].
    rewrite bool_decide_true by done. eexists. split; [done|].
    pose proof (give_slot m l id _ Hwf Hl) as Hg. split; [by eexists|]. do 2 (split; [done|]).
    intros i. rewrite live_put by (try apply (wf_slots _ _ Hwf); cbn [size]; lia). unfold update.
    case_decide as Ei; [|rewrite decide_False by congruence; done]. rewrite view_free by done.
    case_decide as Ed; [done|]. symmetry. by eapply live_index.
  - rewrite bool_decide_false by (intros [? ?]; done).
    destruct (live_none m id Ht Hl) as [H|H].
    + destruct (Z.leb_spec (size m) (id_index id)); [|lia]. exists m. split; [done|].
      split; [by exists l|]. do 2 (split; [done|]). by apply update_none.
    + destruct (Z.leb_spec (size m) (id_index id)); exists m.
      * split; [done|]. split; [by exists l|]. do 2 (split; [done|]). by apply update_none.
      * destruct (Z.eqb_spec (id_tag id) (id_tag (ref (slot m (id_index id))))); [done|].
        split; [done|]. split; [by exists l|]. do 2 (split; [done|]). by apply update_none.
Qed.

(** Rewriting a live slot with another count of references. *)
Lemma count_ok m l id p c p' c' :
  wf_list m l -> handle id -> live m id = Some (p, c) -> 0 <= c' < 2 ^ 22 ->
  let m' := put m (id_index id) (mk_entry p' (id_tag id * 2 ^ 22 + c')) in
  wf_list m' l /\ forall i, live m' i = update (live m) id (Some (p', c')) i.
Proof.
  intros Hwf [Hid Ht] Hl Hc'. destruct (live_slot m l id p c Hwf Hl) as (Hidx & _ & Hp & Hc & Hr). cbv zeta.
  pose proof (tag_range id Hid) as Hrange. destruct (word_fields (id_tag id) c' Hc') as [E1 E2].
  destruct (word_ok_join (id_tag id) c' ltac:(lia) Hc') as [Hw Hne]. split.
  - apply put_used; try done. rewrite Hr. eval_pow. lia.
  - intros i. rewrite (live_put_handle m _ _ id); try done.
    + cbn [ptr ref]. by rewrite E2.
    + apply (wf_slots _ _ Hwf).
    + intros j Hj Hne'. by eapply live_index.
Qed.

Lemma set_ok m l id object :
  wf_list m l -> handle id ->
  exists m', objectmap_set m id object = (bool_decide (live m id = Some (0, 0)), m') /\ wf m' /\ size m' = size m /\
    tag m' = tag m /\
    forall i, live m' i = if bool_decide (live m id = Some (0, 0)) then update (live m) id (Some (object, 1)) i else live m i.
Proof.
  intros Hwf Hh. pose proof Hh as [Hid Ht]. unfold objectmap_set. rewrite tag_mask by done.
  case_bool_decide as Hl.
  - destruct (live_slot m l id 0 0 Hwf Hl) as (Hidx & _ & Hp & _ & Hr).
    destruct (Z.leb_spec (size m) (id_index id)); [lia|]. rewrite Hp, Hr, Z.eqb_refl. cbn [Z.eqb andb].
    destruct (Z.eqb_spec (id_tag id * 2 ^ 22) (id_tag id * 2 ^ 22 + 0)); [|lia].
    assert (Z.lor (id_tag id * 2 ^ 22 + 0) 1 = id_tag id * 2 ^ 22 + 1) as ->.
    { destruct (disjoint_add 22 1 (id_tag id)) as [_ E]; [done|]. rewrite Z.lor_comm. rewrite Z.shiftl_mul_pow2 in E by done.
      rewrite Z.add_0_r, <- E. lia. }
    destruct (count_ok m l id 0 0 object 1 Hwf Hh Hl ltac:(done)) as [Hm Hv].
    eexists. split; [done|]. split; [by exists l|]. by do 2 (split; [done|]).
  - exists m. assert (wf m) as Hm by by exists l.
    destruct (Z.leb_spec (size m) (id_index id)) as [|Hlt]; [done|].
    destruct (Z.eqb_spec (ptr (slot m (id_index id))) 0) as [Hp|]; [|done].
    destruct (Z.eqb_spec (id_tag id * 2 ^ 22) (ref (slot m (id_index id)))) as [Hr|]; [|done].
    exfalso. apply Hl. destruct (word_fields (id_tag id) 0 ltac:(done)) as [E1 E2]. rewrite Z.add_0_r in E1, E2.
    unfold live, view. rewrite <- Hr, E1, E2, Hp, Z.eqb_refl.
    destruct (Z.ltb_spec (id_index id) (size m)); [|lia]. destruct (Z.eqb_spec (id_tag id) 0); done.
Qed.

(** What [objectmap_lookup], [objectmap_acquire] and [objectmap_release] test. *)
Lemma test_referenced m l id :
  wf_list m l -> handle id ->
  match live m id with
  | Some (p, c) =>
      id_index id < size m /\ ptr (slot m (id_index id)) = p /\ 0 <= c < 2 ^ 22 /\
      id_tag (ref (slot m (id_index id))) = id_tag id /\ id_index (ref (slot m (id_index id))) = c
  | None => size m <= id_index id \/ id_tag id <> id_tag (ref (slot m (id_index id)))
  end.
Proof.
  intros Hwf [Hid Ht]. destruct (live m id) as [[p c]|] eqn:Hl; [|by apply live_none].
  destruct (live_slot m l id p c Hwf Hl) as (Hidx & _ & Hp & Hc & Hr). rewrite Hr.
  destruct (word_fields (id_tag id) c Hc) as [E1 E2]. split; [lia|]. by rewrite E1, E2.
Qed.

Definition referenced (v : option (Z * Z)) : option (Z * Z) :=
  '(p, c) ← v; if c =? 0 then None else Some (p, c).

Lemma lookup_ok m l id :
  wf_list m l -> handle id -> objectmap_lookup m id = match referenced (live m id) with Some (p, _) => p | None => 0 end.
Proof.
  intros Hwf Hh. pose proof (test_referenced m l id Hwf Hh) as H. unfold objectmap_lookup.
  destruct (live m id) as [[p c]|]; unfold referenced; cbn [mbind option_bind].
  - destruct H as (Hlt & Hp & Hc & E1 & E2). destruct (Z.leb_spec (size m) (id_index id)); [lia|].
    rewrite E1, E2, Hp, Z.eqb_refl. by destruct (c =? 0).
  - destruct (Z.leb_spec (size m) (id_index id)); [done|]. destruct H as [|H]; [lia|].
    by destruct (Z.eqb_spec (id_tag id) (id_tag (ref (slot m (id_index id))))).
Qed.

Lemma acquire_ok m l id :
  wf_list m l -> handle id -> (forall p c, live m id = Some (p, c) -> c < OBJECTMAP_INDEXMASK) ->
  match referenced (live m id) with
  | Some (p, c) => exists m', objectmap_acquire m id = (p, m') /\ wf m' /\ size m' = size m /\ tag m' = tag m /\
      forall i, live m' i = update (live m) id (Some (p, c + 1)) i
  | None => objectmap_acquire m id = (0, m)
  end.
Proof.
  intros Hwf Hh Hmax. pose proof (test_referenced m l id Hwf Hh) as H. unfold objectmap_acquire.
  destruct (live m id) as [[p c]|] eqn:Hl; unfold referenced; cbn [mbind option_bind].
  - destruct H as (Hlt & Hp & Hc & E1 & E2). destruct (Z.leb_spec (size m) (id_index id)); [lia|].
    rewrite E1, E2, Hp, Z.eqb_refl. destruct (Z.eqb_spec c 0); [done|]. cbn [negb andb].
    specialize (Hmax p c eq_refl). change OBJECTMAP_INDEXMASK with (2 ^ 22 - 1) in Hmax.
    rewrite (wrap_small 32) by (eval_pow; lia). pose proof (tag_range id (proj1 Hh)).
    rewrite word_join by lia.
    destruct (count_ok m l id p c p (c + 1) Hwf Hh Hl ltac:(lia)) as [Hm Hv].
    pose proof (index_range id). pose proof (wf_slots _ _ Hwf). rewrite slot_put, decide_True by (done || lia).
    eexists. split; [done|]. split; [by exists l|]. by do 2 (split; [done|]).
  - destruct (Z.leb_spec (size m) (id_index id)); [done|]. destruct H as [|H]; [lia|].
    by destruct (Z.eqb_spec (id_tag id) (id_tag (ref (slot m (id_index id))))).
Qed.

Lemma release_ok m l id :
  wf_list m l -> handle id ->
  match referenced (live m id) with
  | Some (p, c) => exists m',
      objectmap_release m id = (true, if c =? 1 then Some p else None, m') /\ wf m' /\ size m' = size m /\ tag m' = tag m /\
      forall i, live m' i = update (live m) id (if c =? 1 then None else Some (p, c - 1)) i
  | None => objectmap_release m id = (false, None, m)
  end.
Proof.
  intros Hwf Hh. pose proof (test_referenced m l id Hwf Hh) as H. unfold objectmap_release.
  destruct (live m id) as [[p c]|] eqn:Hl; unfold referenced; cbn [mbind option_bind].
  - destruct H as (Hlt & Hp & Hc & E1 & E2). destruct (Z.leb_spec (size m) (id_index id)); [lia|].
    rewrite E1, E2, Hp, Z.eqb_refl. destruct (Z.eqb_spec c 0); [done|]. cbn [negb andb].
    rewrite (wrap_small 32) by (eval_pow; lia). pose proof (tag_range id (proj1 Hh)).
    rewrite word_join by lia.
    destruct (count_ok m l id p c p (c - 1) Hwf Hh Hl ltac:(lia)) as [Hm Hv].
    pose proof (index_range id). pose proof (wf_slots _ _ Hwf). rewrite slot_put, decide_True by (done || lia).
    set (m1 := put m _ _) in *. destruct (Z.eqb_spec c 1) as [->|].
    + destruct (free_ok m1 l id Hm Hh) as (m2 & -> & Hm2 & Hs2 & Ht2 & Hv2). cbn [snd].
      exists m2. split; [done|]. split; [done|]. split; [done|]. split; [done|].
      intros i. rewrite Hv2. unfold update. case_decide as E; [done|]. rewrite Hv. unfold update. by rewrite decide_False.
    + eexists. split; [done|]. split; [by exists l|]. by do 2 (split; [done|]).
  - destruct (Z.leb_spec (size m) (id_index id)); [done|]. destruct H as [|H]; [lia|].
    by destruct (Z.eqb_spec (id_tag id) (id_tag (ref (slot m (id_index id))))).
Qed.

(** Every index belongs to a live handle. *)
Definition all_taken (m : objectmap_t) : Prop :=
  forall idx, 0 <= idx < size m -> exists id v, handle id /\ id_index id = idx /\ live m id = Some v.

(** A slot that is in use belongs to a live handle. *)
Lemma used_live m l idx :
  wf_list m l -> 0 <= idx < size m -> ref (slot m idx) <> 0 -> exists id v, handle id /\ id_index id = idx /\ live m id = Some v.
Proof.
  intros Hwf Hidx Hr. pose proof (wf_words _ _ Hwf (Z.to_nat idx)) as [Hw Hz]. fold (slot m idx) in *.
  destruct Hz as [|Ht]; [done|]. pose proof (tag_range _ Hw) as Hrange. pose proof (wf_size _ _ Hwf).
  destruct (word_fields (id_tag (ref (slot m idx))) idx ltac:(lia)) as [E1 E2].
  exists (id_tag (ref (slot m idx)) * 2 ^ 22 + idx), (ptr (slot m idx), id_index (ref (slot m idx))).
  split; [split; [unfold in_u; eval_pow; lia|by rewrite E1]|]. split; [done|].
  unfold live, view. rewrite E2, E1, Z.eqb_refl.
  destruct (Z.ltb_spec idx (size m)); [|lia]. by destruct (Z.eqb_spec (id_tag (ref (slot m idx))) 0).
Qed.

Lemma live_used m l id v : wf_list m l -> in_u 32 id -> live m id = Some v -> ref (slot m (id_index id)) <> 0.
Proof.
  intros Hwf Hid Hl. destruct v as [p c]. destruct (live_slot m l id p c Hwf Hl) as (_ & Ht & _ & Hc & ->).
  pose proof (tag_range id Hid). eval_pow. lia.
Qed.

Lemma full_all_taken m l : wf_list m l -> full m <-> all_taken m.
Proof.
  intros Hwf. split; intros H idx Hidx; [by apply (used_live m l); [..|by apply H]|].
  destruct (H idx Hidx) as (id & v & [Hid _] & <- & Hl). by eapply live_used.
Qed.

Lemma finalize_ok m l :
  wf_list m l -> objectmap_finalize m = true <-> exists id v, handle id /\ live m id = Some v.
Proof.
  intros Hwf. pose proof (wf_slots _ _ Hwf) as Hlen. pose proof (wf_autolink _ _ Hwf) as Ha.
  unfold objectmap_finalize. rewrite existsb_exists. split.
  - intros (e & He & Hr). apply negb_true_iff, Z.eqb_neq in Hr. apply list_elem_of_In, list_elem_of_lookup in He as [i Hi].
    apply lookup_take_Some in Hi as [Hi Hlt]. apply list_lookup_total_correct in Hi as <-.
    destruct (used_live m l (Z.of_nat i) Hwf) as (id & v & ? & _ & ?); [lia|unfold slot; by rewrite Nat2Z.id|]. by exists id, v.
  - intros (id & v & [Hid _] & Hl). pose proof (live_used m l id v Hwf Hid Hl) as Hr. destruct v as [p c].
    destruct (live_slot m l id p c Hwf Hl) as (Hidx & _). destruct (used_slot m l _ Hwf Hidx Hr) as [Hb _].
    exists (slot m (id_index id)). split; [|by apply negb_true_iff, Z.eqb_neq].
    apply list_elem_of_In, list_elem_of_lookup. exists (Z.to_nat (id_index id)).
    rewrite lookup_take_lt by lia. apply list_lookup_lookup_total_lt. lia.
Qed.

(** C17: on a well-formed map the operations are those of a finite map from
    live handles to objects with reference counts: a handle is reserved unless
    every slot is taken, with no object and no reference; setting gives it an
    object and a reference, once; lookup and acquiring find exactly the
    referenced handles, and acquiring counts a reference as long as there are
    fewer than the largest count, 2^22 - 1 (one more carries into the tag); the
    last release calls the deallocation with the object
    and ends the handle's life; a handle that is not live is rejected and
    changes nothing.  Every operation keeps the map well-formed, and the check
    at its end finds a leak exactly when a handle is live. *)
Theorem objectmap_refines_handles m :
  wf m ->
  (exists id m', objectmap_reserve m = Some (id, m') /\ wf m' /\ size m' = size m /\
     ((all_taken m /\ id = 0 /\ m' = m) \/
      (~ all_taken m /\ handle id /\ id_index id < size m /\ live m id = None /\
       forall i, live m' i = update (live m) id (Some (0, 0)) i))) /\
  (forall id, handle id ->
     (exists m', objectmap_free m id = (bool_decide (is_Some (live m id)), m') /\ wf m' /\
        forall i, live m' i = update (live m) id None i) /\
     (forall object, exists m', objectmap_set m id object = (bool_decide (live m id = Some (0, 0)), m') /\ wf m' /\
        forall i, live m' i = if bool_decide (live m id = Some (0, 0)) then update (live m) id (Some (object, 1)) i else live m i) /\
     match referenced (live m id) with
     | None => objectmap_lookup m id = 0 /\ objectmap_acquire m id = (0, m) /\ objectmap_release m id = (false, None, m)
     | Some (p, c) =>
         objectmap_lookup m id = p /\
         (c < OBJECTMAP_INDEXMASK -> exists m', objectmap_acquire m id = (p, m') /\ wf m' /\
            forall i, live m' i = update (live m) id (Some (p, c + 1)) i) /\
         (exists m', objectmap_release m id = (true, if c =? 1 then Some p else None, m') /\ wf m' /\
            forall i, live m' i = update (live m) id (if c =? 1 then None else Some (p, c - 1)) i)
     end) /\
  (objectmap_finalize m = true <-> exists id v, handle id /\ live m id = Some v).
Proof.
  intros [l Hwf]. split; [|split; [|by apply (finalize_ok m l)]].
  - destruct (reserve_ok m l Hwf) as (id & m' & E & Hm' & Hs & H). exists id, m'. do 3 (split; [done|]).
    destruct H as [(_ & -> & -> & Hf)|(Hlt & Hh & Hi & Hr & _ & Hv)]; [left; by rewrite <- full_all_taken|right].
    rewrite <- full_all_taken by done. pose proof (index_range id).
    split; [intros Hf; apply (Hf (free m)); [lia|done]|]. split; [done|]. split; [lia|]. split; [|done].
    unfold live. rewrite Hi, view_free by done. by destruct (_ <? _).
  - intros id Hh. destruct (free_ok m l id Hwf Hh) as (m1 & E1 & Hm1 & _ & _ & Hv1).
    split; [by exists m1|]. split.
    { intros object. destruct (set_ok m l id object Hwf Hh) as (m2 & ? & ? & _ & _ & ?). by exists m2. }
    pose proof (lookup_ok m l id Hwf Hh) as H1. pose proof (acquire_ok m l id Hwf Hh) as H2.
    pose proof (release_ok m l id Hwf Hh) as H3. destruct (live m id) as [[p c]|] eqn:Hl.
    + unfold referenced in *. cbn [mbind option_bind] in *. destruct (c =? 0) eqn:E.
      * apply Z.eqb_eq in E as ->. split; [done|]. split; [|done]. apply H2. by intros ? ? [= <- <-].
      * split; [done|]. split.
        -- intros Hc. destruct H2 as (m2 & ? & ? & _ & _ & ?); [by intros ? ? [= <- <-]|]. by exists m2.
        -- destruct H3 as (m3 & ? & ? & _ & _ & ?). by exists m3.
    + split; [done|]. split; [by apply H2|done].
Qed.

(** ** Sequences of operations *)

Inductive op := Reserve | Free (id : Z) | Set_object (id object : Z) | Acquire (id : Z) | Release (id : Z).

(** The handle that a call reserves, if any, and the map. *)
Definition exec (m : objectmap_t) (o : op) : option (list Z * objectmap_t) :=
  match o with
  | Reserve => '(id, m) ← objectmap_reserve m; Some (if id =? 0 then [] else [id], m)
  | Free id => Some ([], (objectmap_free m id).2)
  | Set_object id object => Some ([], (objectmap_set m id object).2)
  | Acquire id => Some ([], (objectmap_acquire m id).2)
  | Release id => Some ([], (objectmap_release m id).2)
  end.

Fixpoint exec_all (m : objectmap_t) (l : list op) : option (list Z * objectmap_t) :=
  match l with
  | [] => Some ([], m)
  | o :: l => '(ids, m) ← exec m o; '(ids', m) ← exec_all m l; Some (ids ++ ids', m)
  end.

(** The handles are of the kind that is reserved, and no count overflows. *)
Definition op_ok (m : objectmap_t) (o : op) : Prop :=
  match o with
  | Reserve => True
  | Free id | Set_object id _ | Release id => handle id
  | Acquire id => handle id /\ forall p c, live m id = Some (p, c) -> c < OBJECTMAP_INDEXMASK
  end.

Fixpoint ops_ok (m : objectmap_t) (l : list op) : Prop :=
  match l with
  | [] => True
  | o :: l => op_ok m o /\ forall ids m', exec m o = Some (ids, m') -> ops_ok m' l
  end.

(** Where the tag counter stands, and the tags given from there. *)
Definition tags_from (t : Z) (ids : list Z) : Prop :=
  forall i id, ids !! i = Some id -> id_tag id = (t + Z.of_nat i) mod 1023 + 1.

Lemma next_tag_cycle t tg t' :
  next_tag_loop 2 t = Some (tg, t') -> tg = (t mod 2 ^ 10) mod 1023 + 1 /\ t' mod 2 ^ 10 = tg.
Proof.
  destruct (next_tag_spec t) as (tg1 & t1 & -> & Htg & E & _ & H1 & H2). intros [= <- <-]. split; [|done].
  assert (0 <= t mod 2 ^ 10 < 2 ^ 10) by (by apply Z.mod_pos_bound).
  destruct (decide (t mod 2 ^ 10 < 1023)).
  - rewrite (Z.mod_small (t mod 2 ^ 10)) by lia. by apply H1.
  - replace (t mod 2 ^ 10) with 1023 in * by (eval_pow; lia). by apply H2.
Qed.

Lemma exec_ok m o :
  wf m -> op_ok m o ->
  exists ids m', exec m o = Some (ids, m') /\ wf m' /\
    (ids = [] /\ tag m' = tag m \/ exists id, ids = [id] /\ next_tag_loop 2 (tag m) = Some (id_tag id, tag m')).
Proof.
  intros [l Hwf] Ho. destruct o as [|id|id object|id|id]; cbn [exec op_ok] in *.
  - destruct (reserve_ok m l Hwf) as (id & m' & -> & Hm' & _ & H). cbn [mbind option_bind].
    exists (if id =? 0 then [] else [id]), m'. split; [done|]. split; [done|].
    destruct H as [(_ & -> & -> & _)|(_ & [_ Ht] & _ & _ & E & _)]; [by left|right].
    exists id. split; [|done]. by destruct (Z.eqb_spec id 0) as [->|].
  - destruct (free_ok m l id Hwf Ho) as (m' & -> & ? & _ & ? & _). exists [], m'. auto.
  - destruct (set_ok m l id object Hwf Ho) as (m' & -> & ? & _ & ? & _). exists [], m'. auto.
  - destruct Ho as [Ho Hc]. pose proof (acquire_ok m l id Hwf Ho Hc) as H. destruct (referenced _) as [[p c]|].
    + destruct H as (m' & -> & ? & _ & ? & _). exists [], m'. auto.
    + rewrite H. exists [], m. split; [done|]. split; [by exists l|auto].
  - pose proof (release_ok m l id Hwf Ho) as H. destruct (referenced _) as [[p c]|].
    + destruct H as (m' & -> & ? & _ & ? & _). exists [], m'. auto.
    + rewrite H. exists [], m. split; [done|]. split; [by exists l|auto].
Qed.

Lemma exec_all_ok m l :
  wf m -> ops_ok m l -> exists ids m', exec_all m l = Some (ids, m') /\ wf m' /\ tags_from (tag m mod 2 ^ 10) ids.
Proof.
  revert m. induction l as [|o l IH]; intros m Hwf Hok.
  - exists [], m. split; [done|]. split; [done|]. intros i id Hi. by rewrite lookup_nil in Hi.
  - destruct Hok as [Ho Hl]. destruct (exec_ok m o Hwf Ho) as (ids & m1 & E & Hm1 & H).
    destruct (IH m1 Hm1 (Hl _ _ E)) as (ids' & m2 & E2 & Hm2 & Ht).
    exists (ids ++ ids'), m2. cbn [exec_all]. rewrite E. cbn [mbind option_bind]. rewrite E2.
    split; [done|]. split; [done|]. destruct H as [[-> Et]|(id & -> & Et)].
    + by rewrite <- Et.
    + apply next_tag_cycle in Et as [Eid Em]. rewrite Em, Eid in Ht. intros [|i] x Hx.
      * injection Hx as <-. by rewrite Z.add_0_r.
      * rewrite (Ht i x Hx). f_equal. set (t := tag m mod 2 ^ 10).
        rewrite <- (Zplus_mod_idemp_l t). replace (t mod 1023 + Z.of_nat (S i)) with (t mod 1023 + 1 + Z.of_nat i) by lia. done.
Qed.

(** Any sequence of calls is carried out, keeps the map well-formed and
    gives no handle a second time before 1023 handles were reserved, whatever
    was freed in between: a stale handle is recognised that long. *)
Theorem objectmap_handle_reuse m l :
  wf m -> ops_ok m l ->
  exists ids m', exec_all m l = Some (ids, m') /\ wf m' /\
    forall i j x y, ids !! i = Some x -> ids !! j = Some y -> (i < j < i + 1023)%nat -> x <> y.
Proof.
  intros Hwf Hok. destruct (exec_all_ok m l Hwf Hok) as (ids & m' & E & Hm' & Ht). exists ids, m'.
  split; [done|]. split; [done|]. intros i j x y Hx Hy Hij ->.
  pose proof (Ht i y Hx) as H1. pose proof (Ht j y Hy) as H2. rewrite H1 in H2. clear - H2 Hij.
  Z.to_euclidean_division_equations. lia.
Qed.

(** A map whose first free slot is 0, linked to itself. *)
Record head_loop (m : objectmap_t) : Prop := {
  head_size : 0 < size m < 2 ^ 22;
  head_slots : Z.of_nat (length (slots m)) = size m;
  head_free : free m = 0;
  head_autolink : 0 < autolink m;
  head_ptr : ptr (slot m 0) = 0 }.

Lemma wf_first_head m t w :
  0 < size m < 2 ^ 22 -> Z.of_nat (length (slots m)) = size m -> 0 < autolink m ->
  head_loop (put (mk_objectmap 0 t (size m) (autolink m) (slots m)) 0 (mk_entry 0 w)).
Proof.
  intros Hs Hl Ha. split; try done.
  - by cbn [slots put size]; rewrite length_insert.
  - rewrite slot_put by (cbn [slots]; lia). by rewrite decide_True.
Qed.

Lemma reserve_head m :
  head_loop m ->
  exists tg t', next_tag_loop 2 (tag m) = Some (tg, t') /\ 0 < tg < 2 ^ 10 /\
    objectmap_reserve m =
      Some (tg * 2 ^ 22, put (mk_objectmap 0 t' (size m) (autolink m) (slots m)) 0 (mk_entry 0 (tg * 2 ^ 22))).
Proof.
  intros [Hs Hl Hf Ha Hp]. destruct (next_tag_spec (tag m)) as (tg & t' & E & Htg & _).
  exists tg, t'. split; [done|]. split; [done|]. unfold objectmap_reserve. rewrite Hf, Hp.
  destruct (Z.leb_spec (size m) 0); [lia|]. destruct (Z.leb_spec (autolink m) 0); [lia|].
  change (Z.land (u32 0) OBJECTMAP_INDEXMASK) with 0.
  unfold objectmap_next_tag. cbn [tag free size autolink slots]. rewrite E. cbn [mbind option_bind free size autolink slots].
  rewrite Z.lor_0_r. pose proof (word_join tg 0 ltac:(lia) ltac:(done)) as Ej. rewrite Z.lor_0_r, Z.add_0_r in Ej.
  by rewrite Ej.
Qed.

(** C28: the handle 0, which stands for none, frees the first slot of the free
    list once more when that slot has index 0; then two calls reserve the same
    slot, and the first handle dies although nobody freed it. *)
Theorem objectmap_free_null_handle m :
  wf m -> free m = 0 -> 0 < autolink m ->
  exists m1 id1 m2 id2 m3,
    objectmap_free m 0 = (true, m1) /\
    objectmap_reserve m1 = Some (id1, m2) /\ live m2 id1 = Some (0, 0) /\
    objectmap_reserve m2 = Some (id2, m3) /\ id_index id1 = 0 /\ id_index id2 = 0 /\ live m3 id1 = None.
Proof.
  intros [l Hwf] Hf Ha. pose proof (wf_slots _ _ Hwf) as Hlen. pose proof (wf_size _ _ Hwf) as Hsz.
  pose proof (wf_autolink _ _ Hwf) as Hal.
  assert (ref (slot m 0) = 0) as Hr.
  { pose proof (wf_chain _ _ Hwf) as Hc. destruct l as [|i l]; [simpl in Hc; lia|]. destruct Hc as [Hi _].
    assert (i ∈ i :: l) as Hin by left. apply (wf_free _ _ Hwf) in Hin as [_ Hin].
    by replace i with (Z.to_nat 0) in Hin by lia. }
  set (m1 := put (mk_objectmap 0 (tag m) (size m) (autolink m) (slots m)) 0 (mk_entry 0 0)).
  assert (objectmap_free m 0 = (true, m1)) as E0.
  { unfold objectmap_free. change (id_index 0) with 0. rewrite Hr, Hf. destruct (Z.leb_spec (size m) 0); [lia|]. done. }
  destruct (reserve_head m1) as (tg1 & t1 & Et1 & Htg1 & E1); [by apply wf_first_head; lia|].
  set (m2 := put _ 0 _) in E1.
  destruct (reserve_head m2) as (tg2 & t2 & Et2 & Htg2 & E2);
    [apply (wf_first_head (mk_objectmap 0 t1 (size m) (autolink m) (slots m1)));
       unfold m1; cbn [slots put size autolink]; rewrite ?length_insert; lia|].
  destruct (word_fields tg1 0 ltac:(done)) as [F1 F2]. destruct (word_fields tg2 0 ltac:(done)) as [G1 G2].
  rewrite Z.add_0_r in *. exists m1, (tg1 * 2 ^ 22), m2, (tg2 * 2 ^ 22). eexists.
  split; [done|]. split; [done|].
  assert (forall M e i, Z.of_nat (length (slots M)) = size M -> 0 < size M -> id_index i = 0 -> live (put M 0 e) i = view e i) as Hv.
  { intros M e i HM H0 Hi. rewrite live_put by (done || lia). by rewrite decide_True. }
  split.
  { unfold m2. rewrite Hv; unfold m1; cbn [slots put size]; rewrite ?length_insert; try done; [|lia].
    unfold view. cbn [ref ptr]. rewrite F1, F2, Z.eqb_refl. destruct (Z.eqb_spec tg1 0); [lia|done]. }
  split; [done|]. split; [done|]. split; [done|].
  rewrite Hv; unfold m2, m1; cbn [slots put size]; rewrite ?length_insert; try done; [|lia].
  unfold view. cbn [ref ptr]. rewrite F1, G1. destruct (Z.eqb_spec tg1 tg2) as [->|]; [|done].
  exfalso. apply next_tag_cycle in Et1 as [_ Et1], Et2 as [Et2 _]. unfold m2 in Et2. cbn [tag put] in Et2.
  rewrite Et1 in Et2. clear - Et2 Htg2. Z.to_euclidean_division_equations. lia.
Qed.

(** The logarithm counts bits where that matters. *)
Definition counts_bits (log2_bits : Z -> Z) : Prop :=
  forall count, log2_bits count <= OBJECTMAP_INDEXBITS -> count <= OBJECTMAP_INDEXMASK.

(** A new map is well-formed, has no live handle and at least three slots,
    however many slots are asked for. *)
Lemma allocate_ok log2_bits count :
  counts_bits log2_bits -> 0 <= count ->
  let m := objectmap_allocate log2_bits count in
  wf m /\ 3 <= objectmap_size m /\ (forall id, live m id = None).
Proof.
  intros Hb Hc m. set (n := if OBJECTMAP_INDEXBITS <? log2_bits (if count <? 3 then 3 else count)
    then low_mask OBJECTMAP_INDEXBITS - 1 else if count <? 3 then 3 else count).
  assert (3 <= n < 2 ^ 22) as Hn.
  { subst n. destruct (Z.ltb_spec OBJECTMAP_INDEXBITS (log2_bits (if count <? 3 then 3 else count))) as [|Hle]; [by split; vm_compute|].
    apply Hb in Hle. change OBJECTMAP_INDEXMASK with (2 ^ 22 - 1) in Hle.
    destruct (Z.ltb_spec count 3); lia. }
  assert (m = mk_objectmap 0 0 n 0 (replicate (Z.to_nat n) (mk_entry 0 0))) as E.
  { unfold m, objectmap_allocate, objectmap_initialize. cbv zeta. fold n. by rewrite (wrap_small 32) by (eval_pow; lia). }
  assert (forall i, (replicate (Z.to_nat n) (mk_entry 0 0) : list objectmap_entry_t) !!! i = mk_entry 0 0) as Hrep.
  { intros i. rewrite list_lookup_total_alt. destruct (_ !! i) eqn:Ei; [|done].
    apply lookup_replicate in Ei as [-> _]. done. }
  rewrite E. split; [exists []; split; cbn [size slots autolink tag free]|split; [unfold objectmap_size; cbn [size]; lia|]].
  all: rewrite ?length_replicate; try done; try lia.
  - by apply NoDup_nil.
  - intros i. split; [intros Hi; by apply elem_of_nil in Hi|]. lia.
  - intros i. rewrite Hrep. by split; [|left].
  - intros id. unfold live, slot. cbn [size slots]. rewrite Hrep, view_free by done. by destruct (id_index id <? n).
Qed.


(** ** Witnesses *)

Lemma sample_counts_bits : counts_bits sample_bits.
Proof.
  intros count H. unfold sample_bits in H. change OBJECTMAP_INDEXBITS with 22 in H. change OBJECTMAP_INDEXMASK with (2 ^ 22 - 1).
  destruct (decide (0 < count)); [|eval_pow; lia]. assert (count < 2 ^ 22) by (apply Z.log2_lt_pow2; lia). lia.
Qed.

Definition sample_new : objectmap_t := objectmap_allocate sample_bits 1.
Definition sample_ops : list op := [Reserve; Set_object 0x400000 4096; Acquire 0x400000].
Definition sample_map : objectmap_t := from_option snd sample_new (exec_all sample_new sample_ops).

Lemma sample_handle : handle 0x400000.
Proof. split; [by compute|by vm_compute]. Qed.

Lemma sample_new_wf : wf sample_new.
Proof. by apply (allocate_ok sample_bits 1 sample_counts_bits). Qed.

Lemma sample_session_ok : ops_ok sample_new sample_ops.
Proof.
  split; [done|]. intros ids m1 E1. vm_compute in E1. injection E1 as <- <-.
  split; [apply sample_handle|]. intros ids m2 E2. vm_compute in E2. injection E2 as <- <-.
  split; [|done]. split; [apply sample_handle|]. intros p c E3. vm_compute in E3. by injection E3 as <- <-.
Qed.

Lemma sample_map_wf : wf sample_map.
Proof.
  destruct (exec_all_ok _ _ sample_new_wf sample_session_ok) as (ids & m' & E & Hm & _). unfold sample_map. by rewrite E.
Qed.

Lemma objectmap_refines_handles_witness :
  live sample_map 0x400000 = Some (4096, 2) /\
  exists m', objectmap_release sample_map 0x400000 = (true, None, m') /\ live m' 0x400000 = Some (4096, 1).
Proof.
  split; [by vm_compute|].
  destruct (objectmap_refines_handles sample_map sample_map_wf) as (_ & H & _).
  destruct (H 0x400000 sample_handle) as (_ & _ & Hr).
  replace (referenced (live sample_map 0x400000)) with (Some (4096, 2)) in Hr by (by vm_compute).
  destruct Hr as (_ & _ & m' & E & _ & Hv). exists m'. split; [exact E|]. by rewrite Hv.
Defined.

Lemma objectmap_handle_reuse_witness :
  exists ids m', exec_all sample_new sample_ops = Some (ids, m') /\ ids = [0x400000].
Proof.
  destruct (objectmap_handle_reuse sample_new sample_ops sample_new_wf sample_session_ok) as (ids & m' & E & _).
  exists ids, m'. split; [exact E|]. vm_compute in E. by injection E as <- _.
Defined.

(** The map after its only handle was freed. *)
Definition sample_freed : objectmap_t := (objectmap_free sample_map 0x400000).2.

Lemma sample_freed_wf : wf sample_freed.
Proof.
  destruct sample_map_wf as [l Hwf]. destruct (free_ok sample_map l 0x400000 Hwf sample_handle) as (m' & E & Hm & _).
  unfold sample_freed. by rewrite E.
Qed.

Lemma objectmap_free_null_handle_witness :
  exists m1 id1 m2 id2 m3,
    objectmap_free sample_freed 0 = (true, m1) /\
    objectmap_reserve m1 = Some (id1, m2) /\ live m2 id1 = Some (0, 0) /\
    objectmap_reserve m2 = Some (id2, m3) /\ id_index id1 = 0 /\ id_index id2 = 0 /\ live m3 id1 = None.
Proof. apply (objectmap_free_null_handle sample_freed); [exact sample_freed_wf|by vm_compute|by vm_compute]. Defined.

End ObjectMap.
