(* ===== verification/ObjectMapThreads.v ===== *)
(** * Threads that share an object ([src/library/foundation_lib/foundation/objectmap.c])

    Any number of threads acquire and release references through one handle.  A
    step of a thread is one access to the shared memory: the load of the slot's
    word, the compare-and-swap, the load of the pointer, the call of the
    deallocation; the body of [objectmap_free] runs under the map's semaphore
    and is one step.  A thread follows the header: it releases only what it
    has acquired. *)
From S2P Require Import Prelude ObjectMap.

Module ObjectMapThreads.
Import ObjectMap.

Inductive request := DoAcquire | DoRelease.

(** The next access of a thread; [Loaded r]: the word [r] passed the test of the loop. *)
Inductive pc := Start | Loaded (r : Z) | Acquired | Deallocating | Freeing.

(** The requests to come, the references held, the results of [objectmap_acquire]. *)
Record thread := mk_thread { todo : list request; at_pc : pc; held : nat; got : list Z }.

(** The map, and the objects for which the deallocation was called. *)
Record shared := mk_shared { map : objectmap_t; calls : list Z }.

Section steps.
Context (id : Z).

Definition word (sh : shared) : Z := ref (slot (map sh) (id_index id)).
Definition object (sh : shared) : Z := ptr (slot (map sh) (id_index id)).

(** The condition of the loops. *)
Definition test (r : Z) : bool := (id_tag id =? id_tag r) && negb (id_index r =? 0).

Definition swap (sh : shared) (count : Z -> Z) (r : Z) : shared :=
  let newref := Z.lor (shl 32 (id_tag r) OBJECTMAP_INDEXBITS) (u32 (count (id_index r))) in
  mk_shared (put (map sh) (id_index id) (mk_entry (object sh) newref)) (calls sh).

Definition thread_step (sh : shared) (th : thread) : option (shared * thread) :=
  match at_pc th, todo th with
  | Start, [] => None
  | Start, DoAcquire :: rest =>
      if size (map sh) <=? id_index id then Some (sh, mk_thread rest Start (held th) (got th ++ [0]))
      else if test (word sh) then Some (sh, mk_thread (todo th) (Loaded (word sh)) (held th) (got th))
      else Some (sh, mk_thread rest Start (held th) (got th ++ [0]))
  | Start, DoRelease :: rest =>
      if (held th =? 0)%nat then Some (sh, mk_thread rest Start (held th) (got th))
      else if size (map sh) <=? id_index id then Some (sh, mk_thread rest Start (held th) (got th))
      else if test (word sh) then Some (sh, mk_thread (todo th) (Loaded (word sh)) (held th) (got th))
      else Some (sh, mk_thread rest Start (held th) (got th))
  | Loaded r, q :: rest =>
      if word sh =? r then
        match q with
        | DoAcquire => Some (swap sh (fun c => c + 1) r, mk_thread rest Acquired (S (held th)) (got th))
        | DoRelease =>
            Some (swap sh (fun c => c - 1) r,
                  mk_thread rest (if id_index r =? 1 then Deallocating else Start) (Nat.pred (held th)) (got th))
        end
      else Some (sh, mk_thread (todo th) Start (held th) (got th))
  | Loaded r, [] => None
  | Acquired, _ => Some (sh, mk_thread (todo th) Start (held th) (got th ++ [object sh]))
  | Deallocating, _ => Some (mk_shared (map sh) (calls sh ++ [object sh]), mk_thread (todo th) Freeing (held th) (got th))
  | Freeing, _ => Some (mk_shared (objectmap_free (map sh) id).2 (calls sh), mk_thread (todo th) Start (held th) (got th))
  end.

Definition state : Type := shared * list thread.

Definition step (i : nat) (s : state) : option state :=
  th ← s.2 !! i;
  '(sh, th) ← thread_step s.1 th;
  Some (sh, <[i := th]> s.2).

Fixpoint run (schedule : list nat) (s : state) : option state :=
  match schedule with
  | [] => Some s
  | i :: schedule => s ← step i s; run schedule s
  end.

(** ** The invariant

    The sums over the threads: references held; threads about to call the
    deallocation, or to free the slot; references held at most, now or after
    some of the requests to come. *)
Definition deallocating (th : thread) : nat := match at_pc th with Deallocating => 1 | _ => 0 end.
Definition freeing (th : thread) : nat := match at_pc th with Freeing => 1 | _ => 0 end.

Fixpoint peak_from (h : nat) (requests : list request) : nat :=
  match requests with
  | [] => h
  | DoAcquire :: requests => h `max` peak_from (S h) requests
  | DoRelease :: requests => h `max` peak_from (pred h) requests
  end.
Definition peak (th : thread) : nat := peak_from (held th) (todo th).

Lemma peak_from_mono h h' l : (h <= h' -> peak_from h l <= peak_from h' l)%nat.
Proof. revert h h'. induction l as [|[] l IH]; intros h h' Hh; cbn [peak_from]; [done| |]; [specialize (IH (S h) (S h') ltac:(lia))|specialize (IH (pred h) (pred h') ltac:(lia))]; lia. Qed.

Lemma peak_from_held h l : (h <= peak_from h l)%nat.
Proof. destruct l as [|[] l]; cbn [peak_from]; lia. Qed.

Context (p : Z).

(** The life of the object: shared, about to be deallocated, about to be freed, gone. *)
Definition phase (sh : shared) (h d f : nat) : Prop :=
  (0 < h /\ d = 0 /\ f = 0)%nat /\ word sh = id_tag id * 2 ^ 22 + Z.of_nat h /\ object sh = p /\ calls sh = [] \/
  (h = 0 /\ d = 1 /\ f = 0)%nat /\ word sh = id_tag id * 2 ^ 22 /\ object sh = p /\ calls sh = [] \/
  (h = 0 /\ d = 0 /\ f = 1)%nat /\ word sh = id_tag id * 2 ^ 22 /\ calls sh = [p] \/
  (h = 0 /\ d = 0 /\ f = 0)%nat /\ word sh = 0 /\ calls sh = [p].

Definition in_map (sh : shared) : Prop :=
  id_index id < size (map sh) /\ Z.of_nat (length (slots (map sh))) = size (map sh).

Definition thread_ok (th : thread) : Prop :=
  Forall (fun x => x = 0 \/ x = p) (got th) /\
  match at_pc th with
  | Loaded r => test r = true /\ (head (todo th) = Some DoRelease -> 0 < held th)%nat
  | Acquired => (0 < held th)%nat
  | _ => True
  end.

Context (Hid : handle id).

Lemma test_spec r : test r = true <-> id_tag r = id_tag id /\ id_index r <> 0.
Proof.
  unfold test. destruct (Z.eqb_spec (id_tag id) (id_tag r)), (Z.eqb_spec (id_index r) 0); simpl;
    (split; [intros; try done; split; congruence|intros [? ?]; try done; congruence]).
Qed.

Lemma slot_in sh e : in_map sh -> slot (put (map sh) (id_index id) e) (id_index id) = e.
Proof. intros [Hlt Hlen]. pose proof (index_range id). rewrite slot_put by lia. by rewrite decide_True. Qed.

Lemma swap_ok sh count r :
  in_map sh -> test r = true -> 0 <= count (id_index r) < 2 ^ 22 ->
  in_map (swap sh count r) /\ word (swap sh count r) = id_tag id * 2 ^ 22 + count (id_index r) /\
  object (swap sh count r) = object sh /\ calls (swap sh count r) = calls sh.
Proof.
  intros Hin [Ht _]%test_spec Hc. pose proof (tag_range id (proj1 Hid)). split; [split; [apply Hin|]|split; [|split; [|done]]].
  - cbn [map swap slots put size]. rewrite length_insert. apply Hin.
  - unfold word. cbn [map swap]. rewrite slot_in by done. cbn [ref].
    rewrite Ht, (wrap_small 32) by (eval_pow; lia). by apply word_join.
  - unfold object at 1. cbn [map swap]. by rewrite slot_in.
Qed.

(** A thread that holds a reference, or reads a word that passes the test, finds the object shared. *)
Lemma phase_shared sh h d f :
  phase sh h d f -> (0 < h)%nat \/ test (word sh) = true ->
  (0 < h /\ d = 0 /\ f = 0)%nat /\ word sh = id_tag id * 2 ^ 22 + Z.of_nat h /\ object sh = p /\ calls sh = [].
Proof.
  intros [H|[(? & Hw & _)|[(? & Hw & _)|(? & Hw & _)]]] Hor; [done|..]; exfalso.
  all: destruct Hor as [?|Ht%test_spec]; [lia|]; rewrite Hw in Ht; destruct Ht as [Ht Hi].
  - apply Hi. rewrite <- (Z.add_0_r (_ * _)). by apply word_fields.
  - apply Hi. rewrite <- (Z.add_0_r (_ * _)). by apply word_fields.
  - done.
Qed.

Lemma test_shared sh h d f :
  phase sh h d f -> (0 < h)%nat -> Z.of_nat h < 2 ^ 22 ->
  test (word sh) = true /\ id_index (word sh) = Z.of_nat h.
Proof.
  intros Hp Hh Hb. destruct (phase_shared _ _ _ _ Hp (or_introl Hh)) as (_ & Hw & _).
  destruct (word_fields (id_tag id) (Z.of_nat h) ltac:(lia)) as [E1 E2]. rewrite <- Hw in *.
  split; [apply test_spec; split; [done|lia]|done].
Qed.

(** Freeing the slot at the end of the object's life. *)
Lemma free_word sh :
  in_map sh -> word sh = id_tag id * 2 ^ 22 ->
  let sh' := mk_shared (objectmap_free (map sh) id).2 (calls sh) in in_map sh' /\ word sh' = 0.
Proof.
  intros Hin Hw. pose proof (index_range id). unfold word in *. unfold objectmap_free.
  destruct (Z.leb_spec (size (map sh)) (id_index id)); [destruct Hin; lia|]. rewrite Hw.
  pose proof (word_fields (id_tag id) 0 ltac:(done)) as [E _]. rewrite Z.add_0_r in E. rewrite E, Z.eqb_refl. cbn [negb snd map].
  destruct Hin as [Hlt Hlen]. split.
  - split; [done|]. cbn [map slots put size]. by rewrite length_insert.
  - rewrite slot_put by (cbn [slots]; lia). by rewrite decide_True.
Qed.

(** The sums over the other threads are parameters. *)
Definition inv_of (sh : shared) (th : thread) (h d f b : nat) : Prop :=
  in_map sh /\ thread_ok th /\ phase sh (held th + h) (deallocating th + d) (freeing th + f) /\
  (h <= b)%nat /\ Z.of_nat (peak th + b) < 2 ^ 22.

Lemma load_ok sh td r h0 g h d f b :
  inv_of sh (mk_thread td Start h0 g) h d f b -> test r = true ->
  (head td = Some DoRelease -> 0 < h0)%nat -> inv_of sh (mk_thread td (Loaded r) h0 g) h d f b.
Proof. intros (Hin & [Hg _] & H) Ht Hr. split; [done|]. split; [|exact H]. split; [exact Hg|]. by split. Qed.

(** A request that is not served: an acquisition, or a release without a reference. *)
Lemma skip_ok sh q rest h0 g h d f b :
  q = DoAcquire \/ h0 = 0%nat -> inv_of sh (mk_thread (q :: rest) Start h0 g) h d f b -> inv_of sh (mk_thread rest Start h0 g) h d f b.
Proof.
  intros Hq (Hin & [Hg _] & Hp & Hh & Hb). split; [done|]. split; [by split|]. split; [exact Hp|]. split; [done|].
  unfold peak in *. cbn [held todo] in *. pose proof (peak_from_mono h0 (S h0) rest ltac:(lia)). destruct Hq as [->| ->]; [|destruct q]; cbn [peak_from pred] in *; lia.
Qed.

Lemma result_ok sh td h0 g x h d f b :
  inv_of sh (mk_thread td Start h0 g) h d f b -> x = 0 \/ x = p -> inv_of sh (mk_thread td Start h0 (g ++ [x])) h d f b.
Proof.
  intros (Hin & [Hg _] & H) Hx. split; [done|]. split; [|exact H]. split; [|done].
  apply Forall_app. split; [exact Hg|]. by apply Forall_singleton.
Qed.

Lemma acquire_step_ok sh rest r h0 g h d f b :
  inv_of sh (mk_thread (DoAcquire :: rest) (Loaded r) h0 g) h d f b -> word sh = r ->
  inv_of (swap sh (fun c => c + 1) r) (mk_thread rest Acquired (S h0) g) h d f b.
Proof.
  intros (Hin & [Hg [Ht _]] & Hp & Hh & Hb) <-. unfold peak in *. cbn [held todo peak_from at_pc deallocating freeing got] in *. pose proof (peak_from_held (S h0) rest).
  destruct (phase_shared _ _ _ _ Hp (or_intror Ht)) as (Hs & Hw & Ho & Hc).
  destruct (test_shared _ _ _ _ Hp ltac:(lia) ltac:(lia)) as [_ Hi].
  destruct (swap_ok sh (fun c => c + 1) (word sh) Hin Ht ltac:(cbv beta; lia)) as (Hin' & Hw' & Ho' & Hc').
  cbv beta in Hw'.
  split; [done|]. split; [split; [done|simpl; lia]|]. split; [|unfold peak; cbn [held todo]; split; [done|lia]].
  left. cbn [held deallocating freeing at_pc]. split; [lia|]. rewrite Hw', Hi, Ho', Hc'. split; [lia|done].
Qed.

Lemma release_step_ok sh rest r h0 g h d f b :
  inv_of sh (mk_thread (DoRelease :: rest) (Loaded r) h0 g) h d f b -> word sh = r ->
  inv_of (swap sh (fun c => c - 1) r)
    (mk_thread rest (if id_index r =? 1 then Deallocating else Start) (Nat.pred h0) g) h d f b.
Proof.
  intros (Hin & [Hg [Ht Hr]] & Hp & Hh & Hb) <-. unfold peak in *. cbn [held todo peak_from at_pc deallocating freeing got head] in *.
  specialize (Hr eq_refl). destruct (phase_shared _ _ _ _ Hp (or_intror Ht)) as (Hs & Hw & Ho & Hc).
  destruct (test_shared _ _ _ _ Hp ltac:(lia) ltac:(lia)) as [_ Hi].
  destruct (swap_ok sh (fun c => c - 1) (word sh) Hin Ht ltac:(cbv beta; lia)) as (Hin' & Hw' & Ho' & Hc').
  cbv beta in Hw'.
  rewrite Hi in *. split; [done|]. split; [split; [done|by destruct (_ =? 1)]|].
  split; [|unfold peak; cbn [held todo]; split; [done|lia]].
  destruct (Z.eqb_spec (Z.of_nat (h0 + h)) 1) as [E|E].
  - right; left. cbn [held deallocating freeing at_pc]. split; [lia|]. rewrite Hw', Ho', Hc'. split; [lia|done].
  - left. cbn [held deallocating freeing at_pc]. split; [lia|]. rewrite Hw', Ho', Hc'. split; [lia|done].
Qed.

Lemma sharing_step_ok sh th sh' th' h d f b :
  inv_of sh th h d f b -> thread_step sh th = Some (sh', th') -> inv_of sh' th' h d f b.
Proof.
  intros Hinv. destruct th as [td q h0 g]. unfold thread_step. cbn [at_pc todo held got].
  pose proof Hinv as (Hin & [Hg Hl] & Hp & Hh & Hb). cbn [at_pc todo held got deallocating freeing] in *.
  destruct q as [|r| | |]; cbn [deallocating freeing at_pc held] in Hp.
  - destruct td as [|[] rest]; [done| |].
    + pose proof (result_ok sh rest h0 g 0 h d f b (skip_ok _ _ _ _ _ _ _ _ _ (or_introl eq_refl) Hinv) (or_introl eq_refl)) as Hfail.
      destruct (size (map sh) <=? id_index id); [by intros [= <- <-]|]. destruct (test (word sh)) eqn:Ht; intros [= <- <-]; [|done].
      by apply load_ok.
    + destruct (Nat.eqb_spec h0 0) as [H0|Hne]; [intros [= <- <-]; by eapply skip_ok; [right|]|].
      destruct (Z.leb_spec (size (map sh)) (id_index id)); [destruct Hin; lia|].
      destruct (test_shared _ _ _ _ Hp) as [Ht _]; [lia|unfold peak in Hb; cbn [held todo peak_from] in Hb; lia|].
      rewrite Ht. intros [= <- <-]. apply load_ok; [done..|lia].
  - destruct td as [|q rest]; [done|]. destruct (Z.eqb_spec (word sh) r) as [E|]; [destruct q|]; intros [= <- <-].
    + by apply acquire_step_ok.
    + by apply release_step_ok.
    + destruct Hinv as (_ & _ & H). split; [done|]. split; [by split|exact H].
  - intros [= <- <-]. destruct (phase_shared _ _ _ _ Hp) as (_ & _ & Ho & _); [lia|]. apply result_ok; [|by right].
    destruct Hinv as (_ & _ & H). split; [done|]. split; [by split|exact H].
  - intros [= <- <-]. split; [done|]. split; [by split|]. split; [|by split].
    destruct Hp as [(? & _)|[(Hs & Hw & Ho & Hc)|[(? & _)|(? & _)]]]; [lia| |lia..].
    right; right; left. cbn [held deallocating freeing at_pc calls]. split; [lia|]. split; [done|]. by rewrite Hc, Ho.
  - intros [= <- <-]. destruct Hp as [(? & _)|[(? & _)|[(Hs & Hw & Hc)|(? & _)]]]; [lia..| |lia].
    destruct (free_word sh Hin Hw) as [Hin' Hw']. split; [done|]. split; [by split|]. split; [|by split].
    right; right; right. cbn [held deallocating freeing at_pc calls]. split; [lia|]. by split.
Qed.

(** ** Runs *)

Definition total (f : thread -> nat) (ths : list thread) : nat := sum_list_with f ths.

Definition inv (s : state) : Prop :=
  in_map s.1 /\ Forall thread_ok s.2 /\ phase s.1 (total held s.2) (total deallocating s.2) (total freeing s.2) /\
  Z.of_nat (total peak s.2) < 2 ^ 22.

Lemma total_at f ths i th : ths !! i = Some th -> total f ths = (f th + total f (delete i ths))%nat.
Proof.
  intros Hi. unfold total. rewrite (delete_Permutation ths i th Hi) at 1. done.
Qed.

Lemma total_insert f ths i th th' : ths !! i = Some th -> total f (<[i := th']> ths) = (f th' + total f (delete i ths))%nat.
Proof.
  intros Hi. rewrite (total_at f _ i th') by (rewrite list_lookup_insert_eq; [done|by eapply lookup_lt_Some]).
  f_equal. f_equal. apply list_eq. intros j.
  destruct (decide (j < i)%nat).
  - by rewrite !list_lookup_delete_lt, list_lookup_insert_ne by lia.
  - by rewrite !list_lookup_delete_ge, list_lookup_insert_ne by lia.
Qed.

Lemma held_peak ths : (total held ths <= total peak ths)%nat.
Proof. unfold total. induction ths as [|th ths IH]; simpl; [lia|]. unfold peak at 1. pose proof (peak_from_held (held th) (todo th)). lia. Qed.

Lemma sharing_step_inv i s s' : inv s -> step i s = Some s' -> inv s'.
Proof.
  intros (Hin & Hth & Hp & Hb). unfold step. destruct (s.2 !! i) as [th|] eqn:Hi; [|done]. cbn [mbind option_bind].
  destruct (thread_step s.1 th) as [[sh' th']|] eqn:Hs; [|done]. intros [= <-].
  pose proof (held_peak (delete i s.2)) as Hle.
  rewrite !(total_at _ _ _ _ Hi) in *.
  destruct (sharing_step_ok s.1 th sh' th' _ _ _ (total peak (delete i s.2))
    (conj Hin (conj (Forall_lookup_1 _ _ _ _ Hth Hi) (conj Hp (conj Hle Hb)))) Hs) as (Hin' & Hok' & Hp' & _ & Hb').
  unfold inv. cbn [fst snd]. rewrite !(total_insert _ _ _ _ _ Hi). split; [done|]. split; [by apply Forall_insert|]. by split.
Qed.

Lemma sharing_run_inv schedule s s' : inv s -> run schedule s = Some s' -> inv s'.
Proof.
  revert s. induction schedule as [|i schedule IH]; intros s Hinv; cbn [run]; [by intros [= <-]|].
  destruct (step i s) as [s1|] eqn:E; [|done]. cbn [mbind option_bind]. by apply IH, (sharing_step_inv i s).
Qed.

Lemma total_zero f ths : Forall (fun th => f th = 0%nat) ths -> total f ths = 0%nat.
Proof. unfold total. induction 1 as [|th ths H _ IH]; [done|]. simpl. by rewrite H, IH. Qed.

Lemma sharing_start_inv m ths c :
  wf m -> live m id = Some (p, Z.of_nat c) -> (0 < c)%nat -> total held ths = c ->
  Forall (fun th => at_pc th = Start /\ got th = []) ths -> Z.of_nat (total peak ths) < 2 ^ 22 ->
  inv (mk_shared m [], ths).
Proof.
  intros [l Hwf] Hl Hc Ht Hth Hb. destruct (live_slot m l id p _ Hwf Hl) as (Hidx & _ & Hp & _ & Hr).
  split; [split; [cbn [fst map]; lia|by apply (wf_slots _ _ Hwf)]|]. split; [|split; [|done]].
  - eapply Forall_impl; [exact Hth|]. intros th [E1 E2]. unfold thread_ok. rewrite E1, E2. by split.
  - cbn [fst snd]. rewrite (total_zero deallocating), (total_zero freeing), Ht.
    + left. unfold word, object. cbn [map calls]. split; [lia|]. by rewrite Hr, Hp.
    + eapply Forall_impl; [exact Hth|]. intros th [E _]. unfold freeing. by rewrite E.
    + eapply Forall_impl; [exact Hth|]. intros th [E _]. unfold deallocating. by rewrite E.
Qed.

Lemma live_word sh n :
  in_map sh -> (n < 2 ^ 22)%Z -> 0 <= n -> word sh = id_tag id * 2 ^ 22 + n -> live (map sh) id = Some (object sh, n).
Proof.
  intros [Hlt _] Hn H0 Hw. unfold live, view. unfold word in Hw. rewrite Hw.
  destruct (word_fields (id_tag id) n ltac:(lia)) as [-> ->]. rewrite Z.eqb_refl.
  destruct (Z.ltb_spec (id_index id) (size (map sh))); [|lia]. destruct (Z.eqb_spec (id_tag id) 0); [by destruct Hid|done].
Qed.
End steps.

(** C16: threads that acquire and release through the same handle, any number of
    times and in any interleaving, starting from a map in which they hold all of
    its references between them.  The numbers of references that the threads hold
    at most, each for itself, add up to less than 2^22, as the count of a slot
    has 22 bits.  Then the deallocation is called at most once, and never while a
    thread holds a reference; until then the slot counts exactly the references
    held; every acquired pointer is the object; when all references are released
    the deallocation has been called and the handle is dead. *)
Theorem objectmap_concurrent_references id p c m ths schedule s :
  wf m -> handle id -> live m id = Some (p, Z.of_nat c) -> (0 < c)%nat -> total held ths = c ->
  Forall (fun th => at_pc th = Start /\ got th = []) ths -> Z.of_nat (total peak ths) < 2 ^ 22 ->
  run id schedule (mk_shared m [], ths) = Some s ->
  (calls s.1 = [] \/ calls s.1 = [p]) /\
  ((0 < total held s.2)%nat -> calls s.1 = [] /\ live (map s.1) id = Some (p, Z.of_nat (total held s.2))) /\
  Forall (fun th => Forall (fun x => x = 0 \/ x = p) (got th)) s.2 /\
  (Forall (fun th => at_pc th = Start) s.2 -> total held s.2 = 0%nat -> calls s.1 = [p] /\ live (map s.1) id = None).
Proof.
  intros Hwf Hid Hl Hc Ht Hth Hb Hrun.
  pose proof (sharing_run_inv id p Hid schedule _ _ (sharing_start_inv id p m ths c Hwf Hl Hc Ht Hth Hb) Hrun) as (Hin & Hok & Hp & Hb').
  pose proof (held_peak s.2) as Hle.
  split; [|split; [|split]].
  - destruct Hp as [(_ & _ & _ & ->)|[(_ & _ & _ & ->)|[(_ & _ & ->)|(_ & _ & ->)]]]; auto.
  - intros H. destruct (phase_shared id p _ _ _ _ Hp (or_introl H)) as (_ & Hw & Ho & ->). split; [done|].
    rewrite <- Ho. apply live_word; done || lia.
  - eapply Forall_impl; [exact Hok|]. by intros th [? _].
  - intros Hs H0. rewrite (total_zero deallocating), (total_zero freeing) in Hp.
    + destruct Hp as [(? & _)|[(? & _)|[(? & _)|(_ & Hw & Hcalls)]]]; [lia..|]. split; [done|].
      unfold live. rewrite view_free by done. by destruct (_ <? _).
    + eapply Forall_impl; [exact Hs|]. intros th E. unfold freeing. by rewrite E.
    + eapply Forall_impl; [exact Hs|]. intros th E. unfold deallocating. by rewrite E.
Qed.

Definition sample_threads : list thread :=
  [mk_thread [DoRelease] Start 1 []; mk_thread [DoAcquire; DoRelease; DoRelease] Start 1 []].
Definition sample_schedule : list nat := [0; 1; 0; 1; 1; 1; 1; 1; 1; 1; 1; 1; 1]%nat.
Definition sample_end : state :=
  default (mk_shared sample_map [], sample_threads) (run 0x400000 sample_schedule (mk_shared sample_map [], sample_threads)).

Lemma objectmap_concurrent_references_witness : calls sample_end.1 = [4096] /\ live (map sample_end.1) 0x400000 = None.
Proof.
  apply (objectmap_concurrent_references 0x400000 4096 2 sample_map sample_threads sample_schedule sample_end sample_map_wf sample_handle).
  - by vm_compute.
  - lia.
  - done.
  - by repeat constructor.
  - by vm_compute.
  - by vm_compute.
  - vm_compute. by repeat constructor.
  - by vm_compute.
Defined.

End ObjectMapThreads.
