(* ===== verification/Sizes.v ===== *)
(** * Sizes

    The arrays measure their memory in [size_t], here natural numbers below
    [2 ^ 64]: a sum, a product or a shift that can leave the type is followed by
    its wrap-around.  [uint_of] is the cast to the 32 bits of an [uint]. *)
From S2P Require Import Prelude.

Definition usize (n : nat) : nat := Z.to_nat (u64 (Z.of_nat n)).

(** [n - 1], which wraps around below zero. *)
Definition usize_pred (n : nat) : nat := Z.to_nat (u64 (Z.of_nat n - 1)).

Definition uint_of (n : nat) : nat := Z.to_nat (u32 (Z.of_nat n)).

Lemma usize_small n : Z.of_nat n < 2 ^ 64 -> usize n = n.
Proof. intros H. unfold usize. rewrite wrap_small by lia. lia. Qed.

Lemma usize_below m n : Z.of_nat n < 2 ^ 64 -> (m <= n)%nat -> usize m = m.
Proof. intros H Hm. apply usize_small. lia. Qed.

Lemma usize_bound n : Z.of_nat (usize n) < 2 ^ 64.
Proof. unfold usize. pose proof (wrap_range 64 (Z.of_nat n)). lia. Qed.

Lemma usize_pred_S n : Z.of_nat n < 2 ^ 64 -> usize_pred (S n) = n.
Proof. intros H. unfold usize_pred. rewrite wrap_small by lia. lia. Qed.

Lemma uint_of_small n : Z.of_nat n < 2 ^ 32 -> uint_of n = n.
Proof. intros H. unfold uint_of. rewrite wrap_small by lia. lia. Qed.

Lemma uint_of_bound n : Z.of_nat (uint_of n) < 2 ^ 32.
Proof. unfold uint_of. pose proof (wrap_range 32 (Z.of_nat n)). lia. Qed.
