(* ===== verification/BucketArray.v ===== *)
(** * Bucket arrays ([src/library/foundation_lib/foundation/bucketarray.c])

    An array of elements of one size in buckets of a power of two of elements,
    so that it grows without moving an element.  A bucket is the list of its
    bytes; [None] is an access outside the buckets, or a loop without an end.
    Sizes are [size_t] with its wrap-around; the shift of an array stays
    between 4 and 63 ([bucketarray_initialize_holds]), so [1 << shift], the
    mask and the table of at most [2 ^ 60] bucket pointers do not wrap.  The
    theorems say for which sizes the other sums and products do not either, and
    [bucketarray_reserve_wraps] and [bucketarray_initialize_never_ends] what
    the code does beyond. *)
From S2P Require Import Prelude Sizes.

Module BucketArray.

Record bucketarray_t := mk_bucketarray {
  bucket : list (list Z); element_size : nat; bucket_mask : nat; bucket_shift : nat; bucket_count : nat; count : nat }.

Section operations.
Context `{HU : !Uninit}.

(** The loop that looks for the power of two; it shifts the power to zero when
    no power of two of the type is large enough, and then never ends. *)
Fixpoint shift_loop (fuel bucket_shift bucket_element_count_power_of_two bucket_element_count : nat) : option nat :=
  match fuel with
  | O => None
  | S fuel =>
      if (bucket_element_count_power_of_two <? bucket_element_count)%nat
      then shift_loop fuel (S bucket_shift) (usize (Nat.shiftl bucket_element_count_power_of_two 1)) bucket_element_count
      else Some bucket_shift
  end.

Definition bucketarray_initialize (element_size bucket_element_count : nat) : option bucketarray_t :=
  shift ← shift_loop 64 4 (Nat.shiftl 1 4) bucket_element_count;
  Some (mk_bucketarray [] element_size (Nat.shiftl 1 shift - 1) shift 0 0).

Definition bucket_size (a : bucketarray_t) : nat := usize (Nat.shiftl (element_size a) (bucket_shift a)).

(** The loop over the buckets of the source. *)
Fixpoint copy_buckets (source : list (list Z)) (size element_size bucket_element_count elements_to_copy : nat) : list (list Z) :=
  match source with
  | [] => []
  | b :: source =>
      let this_copy := if (bucket_element_count <? elements_to_copy)%nat then bucket_element_count else elements_to_copy in
      write_at 0 (take (usize (element_size * this_copy)) b) (fresh_memory size) ::
      copy_buckets source size element_size bucket_element_count (elements_to_copy - this_copy)
  end.

Definition bucketarray_initialize_copy (source : bucketarray_t) : bucketarray_t :=
  mk_bucketarray
    (copy_buckets (bucket source) (bucket_size source) (element_size source) (Nat.shiftl 1 (bucket_shift source)) (count source))
    (element_size source) (bucket_mask source) (bucket_shift source) (bucket_count source) (count source).

Definition bucketarray_reserve (a : bucketarray_t) (n : nat) : bucketarray_t :=
  if (n <=? usize (Nat.shiftl (bucket_count a) (bucket_shift a)))%nat then a
  else
    let new_count := Nat.shiftr (usize (n + bucket_mask a)) (bucket_shift a) in
    mk_bucketarray (take new_count (bucket a) ++ replicate (new_count - bucket_count a) (fresh_memory (bucket_size a)))
      (element_size a) (bucket_mask a) (bucket_shift a) new_count (count a).

Definition with_count (a : bucketarray_t) (n : nat) : bucketarray_t :=
  mk_bucketarray (bucket a) (element_size a) (bucket_mask a) (bucket_shift a) (bucket_count a) n.

Definition bucketarray_resize (a : bucketarray_t) (n : nat) : bucketarray_t := with_count (bucketarray_reserve a n) n.

(** [memcpy] into and out of a bucket. *)
Definition write_bucket (a : bucketarray_t) (i off : nat) (bs : list Z) : option bucketarray_t :=
  b ← bucket a !! i;
  if (off + length bs <=? length b)%nat then
    Some (mk_bucketarray (<[i := write_at off bs b]> (bucket a)) (element_size a) (bucket_mask a) (bucket_shift a) (bucket_count a) (count a))
  else None.

Definition read_bucket (a : bucketarray_t) (i off n : nat) : option (list Z) :=
  b ← bucket a !! i;
  if (off + n <=? length b)%nat then Some (take n (drop off b)) else None.

(** The loop of [bucketarray_append]; [dst] and [src] point to the elements
    [dst_index] and [src_index] of their buckets. *)
Fixpoint append_loop (fuel : nat) (a append : bucketarray_t) (dst_bucket_idx dst_index src_bucket_idx src_index copy_count : nat) : option bucketarray_t :=
  match copy_count, fuel with
  | O, _ => Some a
  | _, O => None
  | _, S fuel =>
      let dst_bucket_size := Nat.shiftl 1 (bucket_shift a) in
      let src_bucket_size := Nat.shiftl 1 (bucket_shift append) in
      let this_copy := (dst_bucket_size - dst_index)%nat in
      let limit_copy := (src_bucket_size - src_index)%nat in
      let this_copy := if (limit_copy <? this_copy)%nat then limit_copy else this_copy in
      let this_copy := if (copy_count <? this_copy)%nat then copy_count else this_copy in
      let this_byte_count := usize (element_size a * this_copy) in
      bs ← read_bucket append src_bucket_idx (usize (element_size a * src_index)) this_byte_count;
      a ← write_bucket a dst_bucket_idx (usize (element_size a * dst_index)) bs;
      let copy_count := (copy_count - this_copy)%nat in
      let dst_index := (dst_index + this_copy)%nat in
      let '(dst_bucket_idx, dst_index) := if (dst_index =? dst_bucket_size)%nat then (S dst_bucket_idx, 0%nat) else (dst_bucket_idx, dst_index) in
      let src_index := (src_index + this_copy)%nat in
      let '(src_bucket_idx, src_index) := if (src_index =? src_bucket_size)%nat then (S src_bucket_idx, 0%nat) else (src_bucket_idx, src_index) in
      append_loop fuel a append dst_bucket_idx dst_index src_bucket_idx src_index copy_count
  end.

Definition bucketarray_append (a append : bucketarray_t) : option bucketarray_t :=
  if (count append =? 0)%nat then Some a
  else if negb (element_size a =? element_size append)%nat then Some a
  else
    let pre_count := count a in
    let copy_count := count append in
    let a := bucketarray_resize a (usize (count a + count append)) in
    append_loop copy_count a append (Nat.shiftr pre_count (bucket_shift a)) (Nat.land pre_count (bucket_mask a)) 0 0 copy_count.

(** The loop of [bucketarray_resize_fill]: the whole buckets. *)
Fixpoint fill_loop (n : nat) (a : bucketarray_t) (bucket_index index : nat) (fill : Z) : option bucketarray_t :=
  match n with
  | O => Some a
  | S n =>
      a ← write_bucket a bucket_index index (replicate (usize ((Nat.shiftl 1 (bucket_shift a) - index) * element_size a)) fill);
      fill_loop n a (S bucket_index) 0 fill
  end.

Definition bucketarray_resize_fill (a : bucketarray_t) (n : nat) (fill : Z) : option bucketarray_t :=
  let a := bucketarray_reserve a n in
  a ← (if (count a <? n)%nat then
         let start_bucket_idx := Nat.shiftr (count a) (bucket_shift a) in
         let end_bucket_idx := Nat.shiftr n (bucket_shift a) in
         let index := Nat.land (count a) (bucket_mask a) in
         a ← fill_loop (end_bucket_idx - start_bucket_idx) a start_bucket_idx index fill;
         let index := if (start_bucket_idx <? end_bucket_idx)%nat then 0%nat else index in
         let last_bucket_count := Nat.land n (bucket_mask a) in
         if (index <? last_bucket_count)%nat
         then write_bucket a end_bucket_idx index (replicate (usize ((last_bucket_count - index) * element_size a)) fill)
         else Some a
       else Some a);
  Some (with_count a n).

Definition bucketarray_clear (a : bucketarray_t) : bucketarray_t := with_count a 0.

Definition bucketarray_clear_and_free (a : bucketarray_t) : bucketarray_t :=
  mk_bucketarray [] (element_size a) (bucket_mask a) (bucket_shift a) 0 0.

Definition bucketarray_push (a : bucketarray_t) (element : list Z) : option bucketarray_t :=
  let bucket_idx := Nat.shiftr (count a) (bucket_shift a) in
  let a := if (bucket_count a <=? bucket_idx)%nat then bucketarray_reserve a (usize (count a + bucket_mask a)) else a in
  let index := Nat.land (count a) (bucket_mask a) in
  a ← write_bucket a bucket_idx (usize (element_size a * index)) (take (element_size a) element);
  Some (with_count a (usize (S (count a)))).

Definition bucketarray_erase (a : bucketarray_t) (element : nat) : option bucketarray_t :=
  let last_element := usize_pred (count a) in
  a ← (if (element <? last_element)%nat then
         bs ← read_bucket a (Nat.shiftr last_element (bucket_shift a))
                (usize (element_size a * Nat.land last_element (bucket_mask a))) (element_size a);
         write_bucket a (Nat.shiftr element (bucket_shift a)) (usize (element_size a * Nat.land element (bucket_mask a))) bs
       else Some a);
  Some (with_count a last_element).

(** The element behind the pointer. *)
Definition bucketarray_get (a : bucketarray_t) (index : nat) : option (list Z) :=
  read_bucket a (Nat.shiftr index (bucket_shift a)) (usize (element_size a * Nat.land index (bucket_mask a))) (element_size a).

(** What is stored at the destination. *)
Definition bucketarray_copy (a : bucketarray_t) : option (list Z) :=
  let full := Nat.shiftr (count a) (bucket_shift a) in
  whole ← mapM (fun i => read_bucket a i 0 (bucket_size a)) (seq 0 full);
  let element_count := Nat.land (count a) (bucket_mask a) in
  if negb (element_count =? 0)%nat then
    rest ← read_bucket a full 0 (usize (element_size a * element_count));
    Some (concat whole ++ rest)
  else Some (concat whole).
End operations.

(** ** The elements *)

(** The buckets lie in the address space. *)
Definition addressable (a : bucketarray_t) : Prop :=
  Z.of_nat (bucket_count a * 2 ^ bucket_shift a) < 2 ^ 64 /\
  Z.of_nat (element_size a * (bucket_count a * 2 ^ bucket_shift a)) < 2 ^ 64.

Definition wf (a : bucketarray_t) : Prop :=
  (bucket_mask a = (Nat.shiftl 1 (bucket_shift a) - 1)%nat /\ (4 <= bucket_shift a < 64)%nat /\ addressable a) /\
  bucket_count a = length (bucket a) /\ Forall (fun b => length b = (element_size a * 2 ^ bucket_shift a)%nat) (bucket a) /\ (count a <= bucket_count a * 2 ^ bucket_shift a)%nat.

(** The array holds the elements of the list. *)
Definition holds (a : bucketarray_t) (l : list (list Z)) : Prop :=
  wf a /\ count a = length l /\ Forall (fun e => length e = element_size a) l /\
  take (element_size a * count a) (concat (bucket a)) = concat l.

Lemma mask_mod i s : Nat.land i (Nat.shiftl 1 s - 1) = (i mod 2 ^ s)%nat.
Proof. rewrite <- Nat.land_ones, Nat.ones_equiv, Nat.shiftl_1_l. f_equal. lia. Qed.

Lemma shift_split i s : i = (Nat.shiftr i s * 2 ^ s + i mod 2 ^ s)%nat.
Proof. rewrite Nat.shiftr_div_pow2, Nat.mul_comm. apply Nat.div_mod_eq. Qed.

Abbreviation bucket_bytes a := (element_size a * 2 ^ bucket_shift a)%nat.

Lemma bucket_size_pow a : Z.of_nat (bucket_bytes a) < 2 ^ 64 -> bucket_size a = bucket_bytes a.
Proof. intros H. unfold bucket_size. rewrite Nat.shiftl_mul_pow2. by apply usize_small. Qed.

(** The place of an element in its bucket. *)
Lemma element_place a i :
  (bucket_bytes a * Nat.shiftr i (bucket_shift a) + element_size a * (i mod 2 ^ bucket_shift a) = element_size a * i)%nat.
Proof.
  pose proof (shift_split i (bucket_shift a)) as E.
  set (q := Nat.shiftr i (bucket_shift a)) in *. set (r := (i mod 2 ^ bucket_shift a)%nat) in *. nia.
Qed.

Lemma element_bucket a i :
  wf a -> (i < bucket_count a * 2 ^ bucket_shift a)%nat -> exists b, bucket a !! Nat.shiftr i (bucket_shift a) = Some b /\ length b = bucket_bytes a.
Proof.
  intros (_ & Hc & Hb & _) Hi. destruct (lookup_lt_is_Some_2 (bucket a) (Nat.shiftr i (bucket_shift a))) as [b E].
  { rewrite <- Hc, Nat.shiftr_div_pow2. apply Nat.Div0.div_lt_upper_bound. lia. }
  exists b. split; [done|]. by eapply Forall_lookup_1 in Hb.
Qed.

(** The operations change the bytes and keep the shape. *)
Definition same_shape (a a' : bucketarray_t) : Prop :=
  element_size a' = element_size a /\ bucket_mask a' = bucket_mask a /\ bucket_shift a' = bucket_shift a /\
  bucket_count a' = bucket_count a /\ count a' = count a.

Abbreviation flat a := (concat (bucket a)).
Definition capacity (a : bucketarray_t) : nat := (bucket_count a * 2 ^ bucket_shift a)%nat.

Lemma length_flat a : wf a -> length (flat a) = (element_size a * capacity a)%nat.
Proof.
  intros (_ & Hc & Hb & _). rewrite (length_blocks (bucket_bytes a)) by done. rewrite <- Hc. unfold capacity. lia.
Qed.

(** Some elements that lie in one bucket. *)
Section run.
Context (a : bucketarray_t) (Hwf : wf a) (i m : nat).
Context (Hi : (i < capacity a)%nat) (Hm : (i mod 2 ^ bucket_shift a + m <= 2 ^ bucket_shift a)%nat).

Lemma wf_bytes : Z.of_nat (bucket_bytes a) < 2 ^ 64.
Proof using Hwf Hi.
  clear Hm.
  destruct Hwf as ((_ & _ & _ & H) & _). unfold capacity in Hi.
  assert (bucket_bytes a <= element_size a * (bucket_count a * 2 ^ bucket_shift a))%nat; [|lia].
  apply Nat.mul_le_mono_l. destruct (bucket_count a); lia.
Qed.

Lemma run_place :
  exists b, bucket a !! Nat.shiftr i (bucket_shift a) = Some b /\ length b = bucket_bytes a /\
    (element_size a * (i mod 2 ^ bucket_shift a) + element_size a * m <= bucket_bytes a)%nat.
Proof.
  destruct (element_bucket a i Hwf Hi) as (b & E & Hb). exists b. split; [done|]. split; [done|]. nia.
Qed.

Lemma run_usize :
  usize (element_size a * (i mod 2 ^ bucket_shift a)) = (element_size a * (i mod 2 ^ bucket_shift a))%nat /\
    usize (element_size a * m) = (element_size a * m)%nat.
Proof. split; apply (usize_below _ _ wf_bytes); nia. Qed.

Lemma read_run :
  read_bucket a (Nat.shiftr i (bucket_shift a)) (usize (element_size a * (i mod 2 ^ bucket_shift a))) (element_size a * m) =
  Some (take (element_size a * m) (drop (element_size a * i) (flat a))).
Proof.
  destruct run_place as (b & E & Hb & Hf). unfold read_bucket. rewrite E, (proj1 run_usize). cbn [mbind option_bind].
  replace (_ <=? length b)%nat with true by (symmetry; apply Nat.leb_le; lia). f_equal.
  rewrite <- (element_place a i). symmetry. apply read_blocks; [apply Hwf|done|lia].
Qed.

Lemma write_run x :
  length x = (element_size a * m)%nat ->
  exists a', write_bucket a (Nat.shiftr i (bucket_shift a)) (usize (element_size a * (i mod 2 ^ bucket_shift a))) x = Some a' /\
    same_shape a a' /\ wf a' /\ flat a' = write_at (element_size a * i) x (flat a).
Proof.
  intros Hx. destruct run_place as (b & E & Hb & Hf). unfold write_bucket. rewrite E, (proj1 run_usize). cbn [mbind option_bind].
  replace (_ <=? length b)%nat with true by (symmetry; apply Nat.leb_le; lia). eexists. split; [done|].
  destruct Hwf as (H1 & H2 & H3 & H4).
  destruct (write_blocks (bucket_bytes a) (bucket a) _ b (element_size a * (i mod 2 ^ bucket_shift a)) x H3 E) as [Hw Hb']; [lia|].
  rewrite (element_place a i) in Hw. split; [done|]. split; [|exact Hw].
  split; [done|]. cbn [bucket bucket_count]. by rewrite length_insert.
Qed.

(** Bytes stored at the index of the element, where it is its offset. *)
Lemma fill_run x :
  (element_size a * (i mod 2 ^ bucket_shift a) = i mod 2 ^ bucket_shift a)%nat ->
  exists a', write_bucket a (Nat.shiftr i (bucket_shift a)) (i mod 2 ^ bucket_shift a) (replicate (usize (m * element_size a)) x) = Some a' /\
    same_shape a a' /\ wf a' /\ flat a' = write_at (element_size a * i) (replicate (m * element_size a) x) (flat a).
Proof.
  intros Hal. destruct run_usize as [Hu Hum]. rewrite Nat.mul_comm in Hum. rewrite Hum.
  destruct (write_run (replicate (m * element_size a) x)) as (a' & E & H); [rewrite length_replicate; lia|].
  rewrite Hu, Hal in E. by exists a'.
Qed.
End run.

(** ** Growing *)

Section growing.
Context `{HU : !Uninit}.

Lemma holds_fits a l : holds a l -> (length l <= capacity a)%nat.
Proof. intros ((_ & _ & _ & Hn) & <- & _). exact Hn. Qed.

(** Elements of the array, and two buckets more, have addresses. *)
Definition fits (a : bucketarray_t) (n : nat) : Prop :=
  Z.of_nat (Nat.max 1 (element_size a) * (n + 2 * 2 ^ bucket_shift a)) < 2 ^ 64.

Lemma fits_spec a n :
  fits a n -> Z.of_nat (n + 2 * 2 ^ bucket_shift a) < 2 ^ 64 /\ Z.of_nat (element_size a * (n + 2 * 2 ^ bucket_shift a)) < 2 ^ 64.
Proof. unfold fits. intros H. nia. Qed.

Lemma fits_le a m n : fits a n -> (m <= n)%nat -> fits a m.
Proof. unfold fits. intros H Hm. nia. Qed.

(** The number of buckets for [n] elements. *)
Lemma round_up n s :
  let k := Nat.shiftr (n + (2 ^ s - 1)) s in (n <= k * 2 ^ s <= n + (2 ^ s - 1))%nat.
Proof.
  intros k. unfold k. rewrite Nat.shiftr_div_pow2. pose proof (Nat.pow_nonzero 2 s ltac:(lia)). set (p := (2 ^ s)%nat) in *.
  pose proof (Nat.div_mod_eq (n + (p - 1)) p). pose proof (Nat.mod_upper_bound (n + (p - 1)) p ltac:(lia)). nia.
Qed.

Lemma wf_capacity a : wf a -> usize (Nat.shiftl (bucket_count a) (bucket_shift a)) = capacity a.
Proof. intros ((_ & _ & H & _) & _). rewrite Nat.shiftl_mul_pow2. by apply usize_small. Qed.

(** The elements to be, up to one bucket behind those that are to fit. *)
Lemma bucketarray_reserve_holds a l n m :
  holds a l -> fits a m -> (n <= m + 2 ^ bucket_shift a)%nat -> let a' := bucketarray_reserve a n in
  holds a' l /\ (n <= capacity a')%nat /\ element_size a' = element_size a /\ bucket_mask a' = bucket_mask a /\
    bucket_shift a' = bucket_shift a /\ count a' = count a.
Proof.
  intros Hh Hfits Hle a'. pose proof Hh as ((Hm & Hc & Hb & Hn) & Hl & He & Ht). subst a'. unfold bucketarray_reserve.
  rewrite wf_capacity by apply Hh. destruct (Nat.leb_spec n (capacity a)) as [?|Hbig]; [done|]. unfold capacity in Hbig.
  apply fits_spec in Hfits as [F1 F2]. rewrite (proj1 Hm), Nat.shiftl_1_l.
  pose proof (round_up n (bucket_shift a)) as Hr. cbn zeta in Hr. rewrite (usize_below _ _ F1) by lia.
  set (new_count := Nat.shiftr _ _) in *. assert (bucket_count a < new_count)%nat as Hnew by nia.
  rewrite take_ge by lia. unfold holds, wf, addressable, capacity. cbn [bucket element_size bucket_mask bucket_shift bucket_count count].
  split; [|split; [lia|done]].
  split; [split; [split; [by rewrite Nat.shiftl_1_l|split; [apply Hm|split; nia]]|split; [|split]]|split; [done|split; [done|]]].
  - rewrite length_app, length_replicate. lia.
  - apply Forall_app. split; [done|]. apply Forall_replicate. rewrite length_fresh_memory. apply bucket_size_pow. nia.
  - nia.
  - rewrite concat_app, take_app_le; [done|]. rewrite length_flat by apply Hh. unfold capacity. nia.
Qed.

(** Reserving behind a full array adds a bucket, if a bucket has more than one element. *)
Lemma bucketarray_push_reserves a l :
  holds a l -> fits a (length l) -> (bucket_count a <= Nat.shiftr (count a) (bucket_shift a))%nat ->
  let a' := bucketarray_reserve a (usize (count a + bucket_mask a)) in
  holds a' l /\ (count a < capacity a')%nat /\ element_size a' = element_size a /\ bucket_mask a' = bucket_mask a /\
  bucket_shift a' = bucket_shift a /\ count a' = count a.
Proof.
  intros Hh Hf Hfull a'. subst a'. pose proof Hh as (((Hm & Hs) & _) & Hl & _). apply fits_spec in Hf as Hf'.
  assert (2 ^ 1 <= 2 ^ bucket_shift a)%nat by (apply Nat.pow_le_mono_r; lia). change (2 ^ 1)%nat with 2%nat in *.
  assert (bucket_mask a = 2 ^ bucket_shift a - 1)%nat as Hmask by (rewrite Hm, Nat.shiftl_1_l; done).
  rewrite (usize_below _ _ (proj1 Hf')) by lia.
  destruct (bucketarray_reserve_holds a l (count a + bucket_mask a) _ Hh Hf) as (H1 & H2 & H3); [lia|]. split; [done|]. split; [lia|done].
Qed.

Lemma holds_with_count a l n : holds a l -> (n <= length l)%nat -> holds (with_count a n) (take n l).
Proof.
  intros ((Hm & Hc & Hb & Hn) & Hl & He & Ht) Hle. unfold holds, wf. cbn [with_count bucket element_size bucket_mask bucket_shift bucket_count count].
  split; [split; [done|split; [done|split; [done|lia]]]|]. split; [rewrite length_take; lia|]. split; [by apply Forall_take|].
  replace (element_size a * n)%nat with (min (element_size a * n) (element_size a * count a)) by nia.
  rewrite <- take_take, Ht. rewrite <- (take_drop n l) at 1. rewrite concat_app.
  rewrite take_app_le; [apply take_ge|]; rewrite (length_blocks (element_size a)) by (by apply Forall_take); rewrite length_take; nia.
Qed.

Lemma bucketarray_resize_shrink a l n : holds a l -> (n <= length l)%nat -> holds (bucketarray_resize a n) (take n l).
Proof.
  intros Hh Hn. unfold bucketarray_resize, bucketarray_reserve. rewrite wf_capacity by apply Hh.
  pose proof (holds_fits a l Hh). rewrite (proj2 (Nat.leb_le _ _)) by lia. by apply holds_with_count.
Qed.

(** Elements that were in the memory before become visible. *)
Lemma bucketarray_resize_grow a l n :
  holds a l -> fits a n -> (length l <= n)%nat -> exists tail, length tail = (n - length l)%nat /\ holds (bucketarray_resize a n) (l ++ tail).
Proof.
  intros Hh Hf Hn. destruct (bucketarray_reserve_holds a l n n Hh Hf ltac:(lia)) as (Hh' & Hfit & _). unfold bucketarray_resize.
  set (a' := bucketarray_reserve a n) in *. pose proof Hh' as (Hwf & Hl & He & Ht).
  pose proof (length_flat a' Hwf) as Hlen.
  exists (map (chunk (element_size a') (flat a')) (seq (length l) (n - length l))).
  split; [by rewrite length_map, length_seq|].
  unfold holds, wf. cbn [with_count bucket element_size bucket_mask bucket_shift bucket_count count].
  destruct Hwf as (Hm & Hc & Hb & Hcount).
  split; [split; [done|split; [done|split; [done|exact Hfit]]]|].
  split; [rewrite length_app, length_map, length_seq; lia|]. split.
  - apply Forall_app. split; [done|]. apply Forall_map, Forall_forall. intros i Hi%elem_of_seq. apply length_chunk. nia.
  - rewrite concat_app, concat_chunks by nia. rewrite <- Ht, Hl, take_take_drop. f_equal. nia.
Qed.

(** ** Elements *)

Lemma holds_chunk a l i e : holds a l -> l !! i = Some e -> chunk (element_size a) (flat a) i = e.
Proof.
  intros (_ & Hl & He & Ht) Hi. apply lookup_lt_Some in Hi as Hlt.
  rewrite <- (chunk_take _ _ _ (element_size a * count a)) by nia. rewrite Ht. by apply chunk_concat.
Qed.

Lemma place_mod a i : wf a -> Nat.land i (bucket_mask a) = (i mod 2 ^ bucket_shift a)%nat.
Proof. intros ((-> & _) & _). apply mask_mod. Qed.

Lemma one_element i s : (i mod 2 ^ s + 1 <= 2 ^ s)%nat.
Proof. pose proof (Nat.mod_upper_bound i (2 ^ s) ltac:(apply Nat.pow_nonzero; lia)). lia. Qed.

Lemma bucketarray_get_holds a l i e : holds a l -> l !! i = Some e -> bucketarray_get a i = Some e.
Proof.
  intros Hh Hi. pose proof Hh as (Hwf & Hl & _). apply lookup_lt_Some in Hi as Hlt. pose proof (holds_fits a l Hh).
  pose proof (read_run a Hwf i 1 ltac:(lia) (one_element _ _)) as E. rewrite Nat.mul_1_r in E.
  unfold bucketarray_get. rewrite place_mod by done. rewrite E. f_equal. by eapply holds_chunk.
Qed.

(** Storing an element at the end, or in place of another. *)
Lemma write_element_holds a l i e :
  holds a l -> (i < capacity a)%nat -> (i <= length l)%nat -> length e = element_size a ->
  exists a', write_bucket a (Nat.shiftr i (bucket_shift a)) (usize (element_size a * Nat.land i (bucket_mask a))) e = Some a' /\
    same_shape a a' /\
    (i < length l -> holds a' (<[i := e]> l))%nat /\ (i = length l -> holds (with_count a' (S (count a'))) (l ++ [e])).
Proof.
  intros Hh Hi Hle Hlen. pose proof Hh as (Hwf & Hl & He & Ht).
  destruct (write_run a Hwf i 1 Hi (one_element _ _) e ltac:(lia)) as (a' & E & Hs & Hwf' & Hf).
  exists a'. rewrite place_mod by done. split; [done|]. split; [done|].
  pose proof Hs as (S1 & S2 & S3 & S4 & S5). pose proof (length_flat a Hwf) as Hlf. split; intros Hcase.
  - split; [done|]. rewrite S1, S5. split; [by rewrite length_insert|].
    split; [by apply Forall_insert|]. rewrite Hf. destruct (lookup_lt_is_Some_2 l i Hcase) as [e0 E0].
    assert (<[i := e]> l = <[i := write_at 0 e e0]> l) as ->.
    { f_equal. unfold write_at. rewrite take_0, drop_ge; [by rewrite app_nil_r|]. eapply Forall_lookup_1 in He; [|exact E0]. simpl. lia. }
    destruct (write_blocks (element_size a) l i e0 0 e He E0 ltac:(lia)) as [-> _]. rewrite Nat.add_0_r, <- Ht.
    unfold write_at. rewrite take_take, Nat.min_l by nia.
    rewrite !take_app_ge by (rewrite length_take; nia). do 2 f_equal. rewrite length_take, Nat.min_l by nia.
    rewrite skipn_firstn_comm. f_equal. nia.
  - subst i. split.
    + split; [apply Hwf'|]. split; [apply Hwf'|]. split; [apply Hwf'|]. cbn [with_count count bucket_count bucket_shift]. rewrite S3, S4, S5. unfold capacity in Hi. lia.
    + cbn [with_count count element_size bucket]. rewrite S1, S5, length_app. split; [simpl; lia|].
      split; [apply Forall_app; split; [done|by apply Forall_singleton]|]. rewrite Hf, concat_app. cbn [concat]. rewrite app_nil_r, <- Ht.
      replace (element_size a * S (count a))%nat with (element_size a * length l + length e)%nat by nia.
      rewrite take_write_at by nia. f_equal. f_equal. nia.
Qed.

Lemma bucketarray_push_holds a l e :
  holds a l -> fits a (length l) -> length e = element_size a ->
  exists a', bucketarray_push a e = Some a' /\ holds a' (l ++ [e]) /\ element_size a' = element_size a.
Proof.
  intros Hh Hf He. unfold bucketarray_push. pose proof Hh as (Hwf & Hl & _).
  set (a1 := if (_ <=? _)%nat then _ else _).
  assert (holds a1 l /\ (count a < capacity a1)%nat /\ element_size a1 = element_size a /\ bucket_mask a1 = bucket_mask a /\
          bucket_shift a1 = bucket_shift a /\ count a1 = count a) as (Hh1 & Hfit & E1 & E2 & E3 & E4).
  { subst a1. destruct (Nat.leb_spec (bucket_count a) (Nat.shiftr (count a) (bucket_shift a))) as [H1|H1].
    - by apply (bucketarray_push_reserves a l).
    - split; [done|]. split; [|done]. unfold capacity. pose proof (shift_split (count a) (bucket_shift a)).
      pose proof (one_element (count a) (bucket_shift a)). nia. }
  rewrite take_ge by lia. rewrite <- E1 in He |- *. rewrite <- E4 in Hl, Hfit |- *. rewrite <- E3.
  destruct (write_element_holds a1 l (count a1) e Hh1 ltac:(lia) ltac:(lia) He) as (a' & -> & (S1 & _ & _ & _ & S5) & _ & Hend).
  cbn [mbind option_bind]. eexists. split; [done|]. split; [|exact S1]. 
  rewrite usize_small; [apply Hend; lia|]. apply fits_spec in Hf as [Hf _]. rewrite S5. pose proof (Nat.pow_nonzero 2 (bucket_shift a)). lia.
Qed.

(** The last element takes the place of the erased one. *)
Definition swap_remove (l : list (list Z)) (i : nat) : list (list Z) :=
  take (length l - 1) (<[i := default [] (last l)]> l).

Lemma bucketarray_erase_holds a l i :
  holds a l -> (i < length l)%nat -> exists a', bucketarray_erase a i = Some a' /\ holds a' (swap_remove l i).
Proof.
  intros Hh Hi. pose proof Hh as (Hwf & Hl & _). pose proof (holds_fits a l Hh). unfold bucketarray_erase, swap_remove.
  assert (exists n, count a = S n) as [n En] by (exists (count a - 1)%nat; lia). replace (length l - 1)%nat with n by lia.
  assert (Z.of_nat n < 2 ^ 64) as Hn by (destruct Hwf as ((_ & _ & Ha & _) & _); unfold capacity in *; lia).
  rewrite En, usize_pred_S by done.
  destruct (lookup_lt_is_Some_2 l n) as [e E]; [lia|].
  assert (last l = Some e) as -> by (rewrite last_lookup; rewrite <- E; f_equal; lia). cbn [default].
  destruct (Nat.ltb_spec i n).
  - pose proof (bucketarray_get_holds a l n e Hh E) as Hg. unfold bucketarray_get in Hg. rewrite Hg. cbn [mbind option_bind].
    assert (length e = element_size a) as He by (destruct Hh as (_ & _ & He & _); by eapply Forall_lookup_1 in He).
    destruct (write_element_holds a l i e Hh ltac:(lia) ltac:(lia) He) as (a' & -> & _ & Hin & _). cbn [mbind option_bind].
    eexists. split; [done|]. apply holds_with_count; [by apply Hin|]. rewrite length_insert. lia.
  - replace i with n by lia. cbn [mbind option_bind]. eexists. split; [done|].
    rewrite list_insert_id by done. apply holds_with_count; [done|lia].
Qed.

(** ** Appending *)

(** The index behind a run that ends in the bucket. *)
Lemma advance i m s :
  (i mod 2 ^ s + m <= 2 ^ s)%nat ->
  (if (i mod 2 ^ s + m =? Nat.shiftl 1 s)%nat then (S (Nat.shiftr i s), 0%nat) else (Nat.shiftr i s, (i mod 2 ^ s + m)%nat)) =
  (Nat.shiftr (i + m) s, ((i + m) mod 2 ^ s)%nat).
Proof.
  intros Hm. rewrite Nat.shiftl_1_l, !Nat.shiftr_div_pow2. pose proof (Nat.pow_nonzero 2 s ltac:(lia)) as Hp.
  set (p := (2 ^ s)%nat) in *. pose proof (Nat.div_mod_eq i p) as E. set (q := (i / p)%nat) in *. set (r := (i mod p)%nat) in *.
  destruct (Nat.eqb_spec (r + m) p).
  - f_equal; [apply (Nat.div_unique _ _ _ 0)|apply (Nat.mod_unique _ _ (S q))]; nia.
  - f_equal; [apply (Nat.div_unique _ _ _ (r + m))|apply (Nat.mod_unique _ _ q)]; nia.
Qed.

Lemma append_loop_spec fuel a b l k c :
  wf a -> holds b k -> element_size b = element_size a -> (length l + length k <= capacity a)%nat ->
  (c <= length k)%nat -> (length k - c <= fuel)%nat ->
  take (element_size a * (length l + c)) (flat a) = concat l ++ take (element_size a * c) (concat k) ->
  exists a', append_loop fuel a b (Nat.shiftr (length l + c) (bucket_shift a)) ((length l + c) mod 2 ^ bucket_shift a)
      (Nat.shiftr c (bucket_shift b)) (c mod 2 ^ bucket_shift b) (length k - c) = Some a' /\
    same_shape a a' /\ wf a' /\ take (element_size a * (length l + length k)) (flat a') = concat l ++ concat k.
Proof.
  intros Hwf Hb He Hfit Hc Hf Ht. pose proof Hb as (Hwfb & Hlb & Hkb & Htb). pose proof (holds_fits b k Hb) as Hfb.
  revert a c Hwf He Hfit Hc Hf Ht. induction fuel as [|fuel IH]; intros a c Hwf He Hfit Hc Hf Ht.
  { assert (c = length k) as -> by lia. rewrite Nat.sub_diag. exists a. split; [done|]. split; [done|]. split; [done|].
    rewrite Ht, take_ge; [done|]. rewrite (length_blocks (element_size b)) by done. rewrite He. lia. }
  destruct (length k - c)%nat as [|n] eqn:En.
  { assert (c = length k) as -> by lia. exists a. split; [done|]. split; [done|]. split; [done|].
    rewrite Ht, take_ge; [done|]. rewrite (length_blocks (element_size b)) by done. rewrite He. lia. }
  assert (0 < length k - c)%nat as Hpos by lia. cbn [append_loop]. rewrite <- En. rewrite <- En in Hf. clear En n. rewrite !Nat.shiftl_1_l.
  pose proof (one_element (length l + c) (bucket_shift a)) as H1. pose proof (one_element c (bucket_shift b)) as H2.
  set (di := ((length l + c) mod 2 ^ bucket_shift a)%nat) in *. set (si := (c mod 2 ^ bucket_shift b)%nat) in *.
  set (m := if (length k - c <? _)%nat then _ else _).
  assert (0 < m <= length k - c /\ di + m <= 2 ^ bucket_shift a /\ si + m <= 2 ^ bucket_shift b)%nat as (Hm & Hd & Hs).
  { clear -Hpos H1 H2 m. clearbody di si. subst m. repeat case_if; rewrite ?Nat.ltb_lt, ?Nat.ltb_ge in *; lia. }
  pose proof (read_run b Hwfb c m ltac:(lia) Hs) as Hr. destruct (run_usize b Hwfb c m ltac:(lia) Hs) as [_ Hu]. rewrite He in *. rewrite Hu. fold si in Hr. rewrite Hr. cbn [mbind option_bind].
  set (x := take (element_size a * m) _) in *.
  assert (x = take (element_size a * m) (drop (element_size a * c) (concat k))) as Hx.
  { unfold x. rewrite <- Htb, skipn_firstn_comm, take_take. f_equal. nia. }
  assert (length x = element_size a * m)%nat as Hlx.
  { rewrite Hx, length_take, length_drop, (length_blocks (element_size a)) by done. nia. }
  destruct (write_run a Hwf (length l + c) m ltac:(lia) Hd x Hlx) as (a' & E & Hsh & Hwf' & Hflat). fold di in E.
  rewrite E. cbn [mbind option_bind]. pose proof Hsh as (S1 & S2 & S3 & S4 & S5).
  pose proof (advance (length l + c) m (bucket_shift a) Hd) as A1. pose proof (advance c m (bucket_shift b) Hs) as A2.
  rewrite Nat.shiftl_1_l in A1, A2. fold di in A1. fold si in A2. rewrite A1, A2.
  replace (length k - c - m)%nat with (length k - (c + m))%nat by lia. rewrite <- Nat.add_assoc.
  destruct (IH a' (c + m)%nat) as (a'' & E' & Hsh' & Hwf'' & Hend); try lia; try done.
  - unfold capacity in *. by rewrite S3, S4.
  - rewrite S1, Hflat. replace (element_size a * (length l + (c + m)))%nat with (element_size a * (length l + c) + length x)%nat by nia.
    pose proof (length_flat a Hwf). rewrite take_write_at by nia. rewrite Ht, <- app_assoc. f_equal. rewrite Hx, take_take_drop. f_equal. lia.
  - rewrite S3 in E'. exists a''. split; [exact E'|]. split; [|split; [done|by rewrite S1 in Hend]].
    destruct Hsh' as (T1 & T2 & T3 & T4 & T5). repeat split; congruence.
Qed.

Lemma bucketarray_append_holds a l b k :
  holds a l -> holds b k -> fits a (length l + length k) -> element_size b = element_size a ->
  exists a', bucketarray_append a b = Some a' /\ holds a' (l ++ k).
Proof.
  intros Hh Hb Hf He. pose proof Hb as (Hwfb & Hlb & Hkb & Htb). pose proof Hh as (Hwf & Hl & Hla & Hta). unfold bucketarray_append.
  destruct (Nat.eqb_spec (count b) 0) as [E|E].
  { assert (k = []) as -> by (apply length_zero_iff_nil; lia). rewrite app_nil_r. by exists a. }
  rewrite He, Nat.eqb_refl. cbn [negb].
  apply fits_spec in Hf as Hf'. rewrite (usize_below _ _ (proj1 Hf')) by lia.
  destruct (bucketarray_reserve_holds a l (count a + count b) _ Hh Hf ltac:(lia)) as (Hr & Hfit & R1 & R2 & R3 & R4).
  unfold bucketarray_resize. set (a1 := bucketarray_reserve a (count a + count b)) in *.
  assert (wf (with_count a1 (count a + count b))) as Hwf1 by (destruct Hr as ((W1 & W2 & W3 & _) & _); repeat split; try apply W1; done).
  pose proof (append_loop_spec (count b) (with_count a1 (count a + count b)) b l k 0 Hwf1 Hb) as Hloop.
  cbn [with_count element_size bucket_shift bucket] in Hloop. rewrite !Nat.add_0_r, Nat.sub_0_r in Hloop.
  destruct Hr as (Hwfr & Hlr & Her & Htr).
  destruct Hloop as (a' & E' & (S1 & S2 & S3 & S4 & S5) & Hwf' & Hend); try lia.
  - unfold capacity in *. cbn [with_count bucket_count bucket_shift]. lia.
  - rewrite Nat.mul_0_r, take_0, app_nil_r. rewrite Hlr in Htr. exact Htr.
  - exists a'. rewrite <- Hl in E'. cbn [with_count element_size bucket_mask bucket_shift bucket_count count] in *.
    rewrite Nat.shiftr_0_l, Nat.Div0.mod_0_l, <- Hlb in E'.
    rewrite place_mod by done. split; [exact E'|].
    split; [done|]. rewrite S5, S1. split; [rewrite length_app; lia|]. split.
    + apply Forall_app. split; [done|]. eapply Forall_impl; [exact Hkb|]. intros e. cbn beta. by rewrite He, R1.
    + rewrite concat_app, <- Hend. f_equal. lia.
Qed.

(** ** Copies *)

Lemma wf_bucket_size a : wf a -> (0 < capacity a)%nat -> bucket_size a = bucket_bytes a.
Proof. intros Hwf Hc. apply bucket_size_pow. by apply (wf_bytes a Hwf 0). Qed.

Lemma bucketarray_copy_holds a l : holds a l -> bucketarray_copy a = Some (concat l).
Proof.
  intros Hh. pose proof Hh as (Hwf & Hl & _ & <-). pose proof (holds_fits a l Hh) as Hfit. rewrite <- Hl in Hfit.
  unfold bucketarray_copy. rewrite place_mod by done. pose proof (wf_bucket_size a Hwf) as Hsize. set (full := Nat.shiftr (count a) (bucket_shift a)).
  pose proof (shift_split (count a) (bucket_shift a)) as Hsplit. fold full in Hsplit. set (rest := (count a mod 2 ^ bucket_shift a)%nat) in *.
  pose proof (Nat.pow_nonzero 2 (bucket_shift a) ltac:(lia)) as Hp. destruct Hwf as (Hm & Hc & Hb & Hn).
  assert (full <= length (bucket a))%nat as Hfull by (rewrite <- Hc; unfold capacity in Hfit; nia).
  assert (mapM (fun i => read_bucket a i 0 (bucket_size a)) (seq 0 full) = Some (take full (bucket a))) as ->.
  { apply mapM_Some_2. apply Forall2_same_length_lookup_2; [rewrite length_take, length_seq; lia|].
    intros i j b [-> Hi]%lookup_seq Hbi. cbn [Nat.add]. rewrite lookup_take_lt in Hbi by done. unfold read_bucket. rewrite Hbi. cbn [mbind option_bind].
    assert (length b = bucket_bytes a) as Hlb by (by eapply Forall_lookup_1 in Hb).
    rewrite Hsize, Hlb, Nat.add_0_l by (unfold capacity; nia).
    rewrite Nat.leb_refl. by rewrite drop_0, take_ge by lia. }
  cbn [mbind option_bind]. rewrite (take_blocks (bucket_bytes a)) by done.
  assert (bucket_bytes a * full = element_size a * (full * 2 ^ bucket_shift a))%nat as -> by lia.
  destruct (Nat.eqb_spec rest 0) as [E|E]; cbn [negb]; [do 2 f_equal; rewrite Hsplit; f_equal; lia|].
  pose proof (read_run a (conj Hm (conj Hc (conj Hb Hn))) (full * 2 ^ bucket_shift a) rest) as Hr.
  pose proof (run_usize a (conj Hm (conj Hc (conj Hb Hn))) (full * 2 ^ bucket_shift a) rest) as Hu.
  rewrite Nat.shiftr_div_pow2, Nat.div_mul, Nat.Div0.mod_mul, Nat.mul_0_r in Hr by done. rewrite Nat.Div0.mod_mul in Hu.
  change (usize 0) with 0%nat in Hr.
  rewrite (proj2 (Hu ltac:(lia) ltac:(unfold rest; pose proof (Nat.mod_upper_bound (count a) (2 ^ bucket_shift a) ltac:(done)); lia))).
  rewrite Hr; [|lia|unfold rest; pose proof (Nat.mod_upper_bound (count a) (2 ^ bucket_shift a) ltac:(done)); lia].
  cbn [mbind option_bind]. f_equal. rewrite take_take_drop. f_equal. rewrite Hsplit. lia.
Qed.

Lemma copy_buckets_spec src size es bec n :
  Forall (fun b : list Z => length b = size) src -> (size = es * bec)%nat -> Z.of_nat size < 2 ^ 64 -> (n <= length src * bec)%nat ->
  let r := copy_buckets src size es bec n in
  Forall (fun b => length b = size) r /\ length r = length src /\ take (es * n) (concat r) = take (es * n) (concat src).
Proof.
  intros Hb Hs Hsize. revert n. induction Hb as [|b src Hb Hbs IH]; intros n Hn; cbn [copy_buckets]; [done|].
  set (m := if (bec <? n)%nat then bec else n). assert (m = min bec n) as Em.
  { subst m. destruct (Nat.ltb_spec bec n); lia. }
  rewrite (usize_below _ _ Hsize) by nia.
  cbn [length] in Hn. destruct (IH (n - m)%nat ltac:(nia)) as (I1 & I2 & I3).
  assert (length (take (es * m) b) = es * m)%nat as Hm by (rewrite length_take; nia).
  pose proof (length_fresh_memory size) as Hfresh.
  assert (length (write_at 0 (take (es * m) b) (fresh_memory size)) = size) as Hw by (rewrite length_write_at; nia).
  split; [by constructor|]. split; [cbn [length]; by rewrite I2|]. cbn [concat].
  destruct (decide (n <= bec)%nat).
  - assert (m = n) as -> by lia. rewrite !take_app_le by nia.
    pose proof (take_write_at 0 (take (es * n) b) (fresh_memory size) ltac:(lia)) as E. cbn [Nat.add] in E. rewrite Hm in E. by rewrite E.
  - assert (m = bec) as -> by lia. rewrite !take_app_ge by nia. f_equal.
    + unfold write_at. rewrite take_0, (take_ge b) by nia. rewrite drop_ge by nia. by rewrite app_nil_r.
    + replace (es * n - length b)%nat with (es * (n - bec))%nat by nia. rewrite <- I3. f_equal. nia.
Qed.

Lemma bucketarray_initialize_copy_holds a l : holds a l -> holds (bucketarray_initialize_copy a) l.
Proof.
  intros Hh. pose proof Hh as (((Hm & Hs) & Hc & Hb & Hn) & Hl & He & Ht).
  destruct (decide (bucket a = [])) as [Hnil|Hnil].
  { assert (bucketarray_initialize_copy a = a) as ->; [|done]. unfold bucketarray_initialize_copy. rewrite Hnil. cbn [copy_buckets].
    rewrite <- Hnil. by destruct a. }
  assert (0 < capacity a)%nat as Hcap.
  { unfold capacity. rewrite Hc. pose proof (Nat.pow_nonzero 2 (bucket_shift a)). destruct (bucket a); [done|]. simpl. lia. }
  pose proof (wf_bucket_size a (proj1 Hh) Hcap) as Hsize. pose proof (wf_bytes a (proj1 Hh) 0 Hcap) as Hbytes. rewrite <- Hsize in Hb, Hbytes.
  destruct (copy_buckets_spec (bucket a) (bucket_size a) (element_size a) (Nat.shiftl 1 (bucket_shift a)) (count a)) as (C1 & C2 & C3);
    [done|by rewrite Nat.shiftl_1_l|done|rewrite Nat.shiftl_1_l, <- Hc; done|].
  unfold holds, wf. cbn [bucketarray_initialize_copy bucket element_size bucket_mask bucket_shift bucket_count count].
  split; [split; [done|]; split; [by rewrite C2|]; split; [|done]|]. 2: split; [done|]; split; [done|]; by rewrite C3.
  eapply Forall_impl; [exact C1|]. intros b Hlen. cbn beta in *. congruence.
Qed.

(** ** New arrays *)

Lemma shift_loop_spec fuel s n :
  (4 <= s < 64)%nat -> (64 <= s + fuel)%nat -> Z.of_nat n <= 2 ^ 63 ->
  exists s', shift_loop fuel s (2 ^ s) n = Some s' /\ (4 <= s' < 64)%nat /\ (n <= 2 ^ s')%nat.
Proof.
  revert s. induction fuel as [|fuel IH]; intros s Hs Hfuel Hn; [lia|]. cbn [shift_loop].
  destruct (Nat.ltb_spec (2 ^ s) n) as [Hlt|Hge]; [|exists s; split; [done|lia]].
  assert (s < 63)%nat as H63.
  { destruct (decide (s = 63%nat)) as [->|]; [|lia]. exfalso. apply Nat2Z.inj_lt in Hlt. rewrite Nat2Z.inj_pow in Hlt. lia. }
  rewrite Nat.shiftl_mul_pow2, Nat.mul_comm, <- Nat.pow_add_r, usize_small.
  - apply (IH (S s)); lia.
  - rewrite Nat2Z.inj_pow. apply Z.pow_lt_mono_r; lia.
Qed.

Lemma bucketarray_initialize_holds es n :
  Z.of_nat n <= 2 ^ 63 -> exists a, bucketarray_initialize es n = Some a /\ holds a [] /\ element_size a = es /\ (n <= 2 ^ bucket_shift a)%nat.
Proof.
  intros Hn. destruct (shift_loop_spec 64 4 n ltac:(lia) ltac:(lia) Hn) as (s & E & Hs & Hns).
  unfold bucketarray_initialize. change (Nat.shiftl 1 4) with (2 ^ 4)%nat. rewrite E. cbn [mbind option_bind].
  eexists. split; [done|]. split; [|by split]. unfold holds, wf, addressable. cbn [bucket element_size bucket_mask bucket_shift bucket_count count].
  rewrite Nat.mul_0_l, !Nat.mul_0_r, take_0. repeat split; try done; lia.
Qed.

(** The code beyond: the loop of a too large bucket never ends, however long it
    runs, and too many elements to reserve for leave no bucket. *)
Lemma shift_loop_zero fuel s n : (0 < n)%nat -> shift_loop fuel s 0 n = None.
Proof.
  intros Hn. revert s. induction fuel as [|fuel IH]; intros s; cbn [shift_loop]; [done|].
  rewrite (proj2 (Nat.ltb_lt _ _) Hn). apply IH.
Qed.

Lemma bucketarray_initialize_never_ends fuel s n :
  (s < 64)%nat -> 2 ^ 63 < Z.of_nat n -> shift_loop fuel s (2 ^ s) n = None.
Proof.
  intros Hs Hn. revert s Hs. induction fuel as [|fuel IH]; intros s Hs; cbn [shift_loop]; [done|].
  assert (2 ^ s < n)%nat as Hlt.
  { apply Nat2Z.inj_lt. rewrite Nat2Z.inj_pow. pose proof (Z.pow_le_mono_r 2 (Z.of_nat s) 63). lia. }
  rewrite (proj2 (Nat.ltb_lt _ _) Hlt), Nat.shiftl_mul_pow2, Nat.mul_comm, <- Nat.pow_add_r.
  destruct (decide (s = 63%nat)) as [->|].
  - assert (usize (2 ^ (1 + 63)) = 0)%nat as ->.
    { unfold usize. rewrite Nat2Z.inj_pow. reflexivity. }
    apply shift_loop_zero. lia.
  - rewrite usize_small; [apply (IH (S s)); lia|]. rewrite Nat2Z.inj_pow. apply Z.pow_lt_mono_r; lia.
Qed.

Lemma bucketarray_reserve_wraps a l n :
  holds a l -> Z.of_nat n = 2 ^ 64 - 1 -> (capacity a < n)%nat -> bucket_count (bucketarray_reserve a n) = 0%nat.
Proof.
  intros Hh Hn Hc. pose proof Hh as (((Hm & Hs & _) & _) & _). unfold bucketarray_reserve. rewrite wf_capacity by apply Hh.
  destruct (Nat.leb_spec n (capacity a)); [lia|]. cbn [bucket_count]. rewrite Hm, Nat.shiftl_1_l, Nat.shiftr_div_pow2.
  apply Nat.div_small. pose proof (Nat.pow_nonzero 2 (bucket_shift a) ltac:(lia)).
  assert (Z.of_nat (2 ^ bucket_shift a) < 2 ^ 64) as Hp by (rewrite Nat2Z.inj_pow; apply Z.pow_lt_mono_r; lia).
  unfold usize, wrap. replace (Z.of_nat (n + (2 ^ bucket_shift a - 1))) with (Z.of_nat (2 ^ bucket_shift a) - 2 + 1 * 2 ^ 64) by lia.
  destruct (decide (2 ^ bucket_shift a = 1)%nat) as [E|E].
  - pose proof (Nat.pow_le_mono_r 2 1 (bucket_shift a) ltac:(lia) ltac:(lia)) as Hb. change (2 ^ 1)%nat with 2%nat in Hb. lia.
  - rewrite Z_mod_plus_full, Z.mod_small by lia. lia.
Qed.

(** ** Filling

    The code adds an index of elements to a byte address; where the two agree
    it does what it means to. *)
Lemma fill_loop_spec n a e fill p :
  wf a -> (element_size a * (e mod 2 ^ bucket_shift a) = e mod 2 ^ bucket_shift a)%nat ->
  let e' := if (n =? 0)%nat then e else ((Nat.shiftr e (bucket_shift a) + n) * 2 ^ bucket_shift a)%nat in
  (e' <= capacity a)%nat -> take (element_size a * e) (flat a) = p ->
  exists a', fill_loop n a (Nat.shiftr e (bucket_shift a)) (e mod 2 ^ bucket_shift a) fill = Some a' /\
    same_shape a a' /\ wf a' /\ (e <= e')%nat /\ take (element_size a * e') (flat a') = p ++ replicate (element_size a * (e' - e)) fill.
Proof.
  revert a e p. induction n as [|n IH]; intros a e p Hwf Hi e' Hfit Hp; subst e'.
  - exists a. cbn [Nat.eqb] in *. rewrite Nat.sub_diag, Nat.mul_0_r, app_nil_r. by repeat split; try apply Hwf.
  - cbn [Nat.eqb fill_loop] in *. rewrite Nat.shiftl_1_l. pose proof (shift_split e (bucket_shift a)) as Hsplit.
    pose proof (one_element e (bucket_shift a)) as H1. set (q := Nat.shiftr e (bucket_shift a)) in *. set (r := (e mod 2 ^ bucket_shift a)%nat) in *.
    set (m := (2 ^ bucket_shift a - r)%nat).
    destruct (fill_run a Hwf e m ltac:(nia) ltac:(fold r; lia) fill Hi) as (a' & E & Hsh & Hwf' & Hf).
    fold q r in E. rewrite E. cbn [mbind option_bind]. pose proof Hsh as (S1 & S2 & S3 & S4 & S5).
    pose proof (IH a' (S q * 2 ^ bucket_shift a)%nat (p ++ replicate (element_size a * m) fill) Hwf') as Hn. rewrite S1, S3 in Hn.
    rewrite Nat.shiftr_div_pow2, Nat.div_mul, Nat.Div0.mod_mul in Hn by (apply Nat.pow_nonzero; lia).
    assert (capacity a' = capacity a) as Ecap by (unfold capacity; by rewrite S3, S4). rewrite Ecap in Hn.
    assert (p = take (element_size a * e) (flat a)) as Hp' by done. pose proof (length_flat a Hwf) as Hlen.
    destruct Hn as (a'' & E2 & (T1 & T2 & T3 & T4 & T5) & Hwf'' & Hle & Hend).
    + lia.
    + destruct (n =? 0)%nat; nia.
    + rewrite Hf. replace (element_size a * (S q * 2 ^ bucket_shift a))%nat
        with (element_size a * e + length (replicate (m * element_size a) fill))%nat by (rewrite length_replicate; unfold m; nia).
      rewrite take_write_at by nia. rewrite Hp'. do 2 f_equal. lia.
    + exists a''. split; [exact E2|]. split; [repeat split; congruence|]. split; [done|].
      assert ((if (n =? 0)%nat then S q * 2 ^ bucket_shift a else (S q + n) * 2 ^ bucket_shift a) = (q + S n) * 2 ^ bucket_shift a)%nat as Ee
        by (destruct (Nat.eqb_spec n 0); nia).
      rewrite Ee in Hend, Hle. split; [nia|]. rewrite Hend, <- app_assoc, <- replicate_add. do 2 f_equal. unfold m. nia.
Qed.

Lemma concat_replicate k n (fill : Z) : concat (replicate k (replicate n fill)) = replicate (n * k) fill.
Proof.
  induction k as [|k IH]; [by rewrite Nat.mul_0_r|]. cbn [replicate concat]. rewrite IH, <- replicate_add. f_equal. lia.
Qed.

(** The elements behind the old ones are filled. *)
Lemma filled_holds a l n fill :
  holds a l -> (count a <= n)%nat -> (n <= capacity a)%nat -> forall a', same_shape a a' -> wf a' ->
  take (element_size a * n) (flat a') = concat l ++ replicate (element_size a * (n - count a)) fill ->
  holds (with_count a' n) (l ++ replicate (n - count a) (replicate (element_size a) fill)).
Proof.
  intros (Hwf & Hl & He & Ht) Hn Hfit a' (S1 & S2 & S3 & S4 & S5) ((Hm & Hs) & Hc & Hb & _) Hf. unfold holds, wf.
  cbn [with_count bucket element_size bucket_mask bucket_shift bucket_count count].
  split; [split; [done|]; split; [done|]; split; [done|]; rewrite S3, S4; exact Hfit|].
  split; [rewrite length_app, length_replicate; lia|]. rewrite S1. split.
  - apply Forall_app. split; [done|]. apply Forall_replicate. apply length_replicate.
  - by rewrite Hf, concat_app, concat_replicate.
Qed.

Lemma bucketarray_resize_fill_holds a l n fill :
  holds a l -> fits a n -> (length l <= n)%nat ->
  (element_size a * (length l mod 2 ^ bucket_shift a) = length l mod 2 ^ bucket_shift a)%nat ->
  exists a', bucketarray_resize_fill a n fill = Some a' /\ holds a' (l ++ replicate (n - length l) (replicate (element_size a) fill)).
Proof.
  intros Hh Hfits Hn Hal. destruct (bucketarray_reserve_holds a l n n Hh Hfits ltac:(lia)) as (Hr & Hfit & R1 & R2 & R3 & R4).
  unfold bucketarray_resize_fill. set (a1 := bucketarray_reserve a n) in *. rewrite <- R1, <- R3 in Hal. rewrite <- R1. clearbody a1. clear Hh Hfits R1 R2 R3 R4 a.
  pose proof Hr as (Hwf & Hl & He & Ht). rewrite <- Hl in *.
  pose proof (filled_holds a1 l n fill Hr Hn Hfit) as Hend.
  destruct (Nat.ltb_spec (count a1) n) as [Hlt|Hge].
  2: { cbn [mbind option_bind]. eexists. split; [done|]. apply Hend; [done|done|]. replace n with (count a1) by lia. by rewrite Nat.sub_diag, Nat.mul_0_r, app_nil_r. }
  rewrite !place_mod by done. set (s := bucket_shift a1) in *. set (c := count a1) in *.
  pose proof (shift_split n s) as Hsn. pose proof (shift_split c s) as Hsc. pose proof (one_element n s) as H1. pose proof (one_element c s) as H2.
  assert (Nat.shiftr c s <= Nat.shiftr n s)%nat as Hq by (rewrite !Nat.shiftr_div_pow2; apply Nat.Div0.div_le_mono; lia).
  set (k := (Nat.shiftr n s - Nat.shiftr c s)%nat).
  destruct (fill_loop_spec k a1 c fill (concat l) Hwf Hal) as (a2 & E2 & Hsh & Hwf2 & Hle & Hf).
  { fold s. destruct (Nat.eqb_spec k 0); [lia|]. unfold k. nia. }
  { exact Ht. }
  fold s in Hle, Hf, E2. rewrite E2. cbn [mbind option_bind]. set (e' := if (k =? 0)%nat then c else _) in *.
  set (idx := if (_ <? _)%nat then 0%nat else _).
  assert (idx = e' mod 2 ^ s /\ Nat.shiftr e' s = Nat.shiftr n s /\ element_size a1 * idx = idx)%nat as (Eidx & Esh & Emul).
  { subst idx e'. destruct (Nat.eqb_spec k 0) as [Hk|Hk]; destruct (Nat.ltb_spec (Nat.shiftr c s) (Nat.shiftr n s)); try lia.
    rewrite Nat.Div0.mod_mul, (Nat.shiftr_div_pow2 (_ * _)), Nat.div_mul by (apply Nat.pow_nonzero; lia). unfold k. lia. }
  assert (e' <= n)%nat as Hen by (subst e'; destruct (Nat.eqb_spec k 0); [lia|]; replace (Nat.shiftr c s + k)%nat with (Nat.shiftr n s) by (unfold k; lia); lia).
  pose proof (shift_split e' s) as Hse. rewrite Esh, <- Eidx in Hse. pose proof Hsh as (S1 & S2 & S3 & S4 & S5).
  pose proof (length_flat a2 Hwf2) as Hlen. rewrite (place_mod a2 n Hwf2), S3, S1. fold s.
  destruct (Nat.ltb_spec idx (n mod 2 ^ s)) as [Hlast|Hlast].
  - assert (capacity a2 = capacity a1) as Ecap by (unfold capacity; by rewrite S3, S4).
    destruct (fill_run a2 Hwf2 e' (n mod 2 ^ s - idx)) with (x := fill) as (a3 & E & Hsh3 & Hwf3 & Hf3);
      [lia|rewrite S3; fold s; lia|by rewrite S1, S3; fold s; rewrite <- Eidx|].
    rewrite S3, S1 in E. fold s in E. rewrite Esh, <- Eidx in E. rewrite E. cbn [mbind option_bind]. eexists. split; [done|].
    pose proof Hsh3 as (T1 & T2 & T3 & T4 & T5). apply Hend; [repeat split; congruence|done|]. rewrite Hf3, S1.
    replace (element_size a1 * n)%nat with (element_size a1 * e' + length (replicate ((n mod 2 ^ s - idx) * element_size a1) fill))%nat
      by (rewrite length_replicate; nia).
    rewrite take_write_at by nia. rewrite Hf, <- app_assoc, <- replicate_add. do 2 f_equal. nia.
  - cbn [mbind option_bind]. eexists. split; [done|]. assert (e' = n) as Een by lia. apply Hend; [done|done|]. rewrite Een in Hf. exact Hf.
Qed.

(** ** The array as a list *)

(** C29: a bucket array is the list of its elements, with sizes of 64 bits
    that wrap around: as long as the bytes of the elements there are to be, and
    of two buckets more, have addresses ([fits]), pushing appends, resizing
    keeps the front and shows what was in the memory behind it, appending an
    array of the same element size concatenates and reserving keeps the
    elements; at any size erasing moves the last element to the erased place,
    an index gives the element at it, copying keeps the elements and clearing
    empties the array; an array for buckets of at most [2 ^ 63] elements is
    initialised; and no operation leaves its buckets. *)
Theorem bucketarray_refines_list a l :
  holds a l ->
  (forall es n, Z.of_nat n <= 2 ^ 63 -> exists a', bucketarray_initialize es n = Some a' /\ holds a' []) /\
  (forall e, fits a (length l) -> length e = element_size a -> exists a', bucketarray_push a e = Some a' /\ holds a' (l ++ [e])) /\
  (forall i, (i < length l)%nat -> exists a', bucketarray_erase a i = Some a' /\ holds a' (swap_remove l i)) /\
  (forall i, (i < length l)%nat -> bucketarray_get a i = Some (l !!! i)) /\
  (forall n, (n <= length l)%nat -> holds (bucketarray_resize a n) (take n l)) /\
  (forall n, fits a n -> (length l <= n)%nat ->
    exists tail, length tail = (n - length l)%nat /\ holds (bucketarray_resize a n) (l ++ tail)) /\
  (forall n, fits a n -> holds (bucketarray_reserve a n) l) /\
  (forall b k, holds b k -> fits a (length l + length k) -> element_size b = element_size a ->
    exists a', bucketarray_append a b = Some a' /\ holds a' (l ++ k)) /\
  bucketarray_copy a = Some (concat l) /\ holds (bucketarray_initialize_copy a) l /\
  holds (bucketarray_clear a) [] /\ holds (bucketarray_clear_and_free a) [].
Proof.
  intros Hh. split; [intros es n Hn; destruct (bucketarray_initialize_holds es n Hn) as (a' & H1 & H2 & _); by exists a'|].
  split; [intros e Hf He; destruct (bucketarray_push_holds a l e Hh Hf He) as (a' & H1 & H2 & _); by exists a'|].
  split; [intros i Hi; by apply bucketarray_erase_holds|].
  split; [intros i Hi; apply (bucketarray_get_holds a l i _ Hh); by apply list_lookup_lookup_total_lt|].
  split; [intros n Hn; by apply bucketarray_resize_shrink|].
  split; [intros n Hf Hn; by apply bucketarray_resize_grow|].
  split; [intros n Hf; by apply (bucketarray_reserve_holds a l n n Hh Hf ltac:(lia))|].
  split; [intros b k Hb Hf He; by apply bucketarray_append_holds|].
  split; [by apply bucketarray_copy_holds|]. split; [by apply bucketarray_initialize_copy_holds|].
  split; [by apply (holds_with_count a l 0); [|lia]|].
  destruct Hh as ((Hm & _) & _). unfold holds, wf, addressable. cbn [bucketarray_clear_and_free bucket element_size bucket_mask bucket_shift bucket_count count].
  rewrite Nat.mul_0_l, !Nat.mul_0_r, take_0. repeat split; try apply Hm; try constructor; lia.
Qed.
End growing.

#[local] Instance ones : Uninit := fun _ => 1.

Definition sample : bucketarray_t := default (mk_bucketarray [] 0 0 0 0 0) (bucketarray_initialize 2 10).

Lemma sample_holds : holds sample [].
Proof. destruct (bucketarray_initialize_holds 2 10 ltac:(lia)) as (a & E & H & _). unfold sample. by rewrite E. Qed.

Lemma sample_fits n : (n <= 1000)%nat -> fits sample n.
Proof. intros Hn. unfold fits. change (element_size sample) with 2%nat. change (2 ^ bucket_shift sample)%nat with 16%nat. lia. Qed.

Lemma bucketarray_refines_list_witness :
  (exists a', bucketarray_push sample [5; 6] = Some a' /\ holds a' [[5; 6]]) /\
  (exists tail, length tail = 20%nat /\ holds (bucketarray_resize sample 20) tail) /\
  holds (bucketarray_reserve sample 100) [] /\ bucketarray_copy sample = Some [].
Proof.
  destruct (bucketarray_refines_list sample [] sample_holds) as (_ & Hpush & _ & _ & _ & Hgrow & Hres & _ & Hcopy & _).
  split; [apply (Hpush [5; 6]); [apply sample_fits; simpl; lia|done]|].
  split; [apply (Hgrow 20%nat); [apply sample_fits; lia|simpl; lia]|].
  split; [apply Hres, sample_fits; lia|exact Hcopy].
Defined.

(** Seventeen elements of two bytes, pushed, erased, read. *)
Definition push_all (es : list (list Z)) : option bucketarray_t :=
  foldl (fun (a : option bucketarray_t) e => a ← a; bucketarray_push a e) (Some sample) es.

Definition seventeen : option bucketarray_t := push_all (map (fun i => [i; i]) (seqZ 0 17)).

Example bucketarray_sample :
  option_map bucket_count seventeen = Some 2%nat /\
  match seventeen with
  | Some a => match bucketarray_erase a 3 with Some a => count a = 16%nat /\ bucketarray_get a 3 = Some [16; 16] | None => False end
  | None => False
  end.
Proof. by vm_compute. Qed.

(** Filling behind one element of two bytes overwrites its second byte. *)
Example bucketarray_resize_fill_overwrites :
  match push_all [[5; 6]] with
  | Some a => match bucketarray_resize_fill a 3 0 with Some a => bucketarray_get a 0 = Some [5; 0] | None => False end
  | None => False
  end.
Proof. by vm_compute. Qed.
End BucketArray.
