(* ===== verification/VirtualArray.v ===== *)
(** * Virtual arrays ([src/library/foundation_lib/foundation/virtualarray.c])

    An array in one block of memory, small ones from the allocator and large
    ones from pages of the operating system.  The storage is the list of its
    bytes; [None] is an access outside it.  Sizes are [size_t] with its
    wrap-around, the size of an element an [uint]; the theorems say for which
    sizes the products do not wrap ([fits]), and [virtualarray_storage_wraps]
    what the code does beyond. *)
From S2P Require Import Prelude Sizes.

Module VirtualArray.

Record virtualarray_t := mk_virtualarray {
  count : nat; capacity : nat; allocated : bool; element_size : nat; storage : option (list Z) }.

(** The array holds the elements of the list. *)
Definition holds (a : virtualarray_t) (l : list (list Z)) : Prop :=
  ((count a <= capacity a)%nat /\ Z.of_nat (element_size a) < 2 ^ 32) /\
  count a = length l /\ Forall (fun e => length e = element_size a) l /\
  match storage a with
  | Some s => ((element_size a * capacity a <= length s)%nat /\ Z.of_nat (length s) < 2 ^ 64) /\ take (element_size a * count a) s = concat l
  | None => l = []
  end.

(** An array with a storage behind a list; without one, the empty list. *)
Lemma holds_storage_length a l s : holds a l -> storage a = Some s -> (element_size a * count a <= length s)%nat.
Proof. intros (H1 & _ & _ & H4) Hs. rewrite Hs in H4. nia. Qed.

Section operations.
Context `{HU : !Uninit} (page_size : nat).

Definition virtualarray_initialize (element_size capacity : nat) : virtualarray_t :=
  mk_virtualarray 0 capacity false (uint_of element_size) None.

(** Both arguments are an [uint]. *)
Definition virtualarray_allocate (element_size capacity : nat) : virtualarray_t :=
  mk_virtualarray 0 (uint_of capacity) false (uint_of element_size) None.

Definition virtualarray_clear (a : virtualarray_t) : virtualarray_t :=
  mk_virtualarray 0 (capacity a) (allocated a) (element_size a) (storage a).

Definition virtualarray_reset (a : virtualarray_t) (size : nat) : virtualarray_t :=
  mk_virtualarray 0 (usize (capacity a * element_size a) / size) (allocated a) (uint_of size) (storage a).

(** [16 * 4096], in pieces that stay small in unary. *)
Definition virtual_threshold : nat := Z.to_nat 65536.

(** The buffer, the new capacity, the flag. *)
Definition virtualarray_allocate_storage (element_size capacity : nat) : list Z * nat * bool :=
  let size_needed := usize (capacity * element_size) in
  if (size_needed <? virtual_threshold)%nat then (fresh_memory size_needed, capacity, true)
  else
    let size_needed := usize (size_needed * 2) in
    let num_pages := (size_needed / page_size)%nat in
    let num_pages := if negb (Nat.land size_needed (page_size - 1) =? 0)%nat then S num_pages else num_pages in
    let size_needed := usize (num_pages * page_size) in
    (fresh_memory size_needed, (size_needed / element_size)%nat, false).

Definition virtualarray_clear_and_free (a : virtualarray_t) : virtualarray_t :=
  mk_virtualarray 0 (capacity a) false (element_size a) None.

Definition virtualarray_resize (a : virtualarray_t) (n : nat) : option virtualarray_t :=
  if (n <? capacity a)%nat then
    match storage a with
    | Some s => Some (mk_virtualarray n (capacity a) (allocated a) (element_size a) (Some s))
    | None =>
        let '(s, capacity, flags) := virtualarray_allocate_storage (element_size a) (capacity a) in
        Some (mk_virtualarray n capacity flags (element_size a) (Some s))
    end
  else
    let new_capacity := if (n <? usize (capacity a * 2))%nat then usize (capacity a * 2) else usize (n * 2) in
    let '(s, capacity, flags) := virtualarray_allocate_storage (element_size a) new_capacity in
    let old := default [] (storage a) in
    let copied := usize (element_size a * count a) in
    if (copied <=? length s)%nat && (copied <=? length old)%nat then
      Some (mk_virtualarray n capacity flags (element_size a) (Some (write_at 0 (take copied old) s)))
    else None.

(** [memcpy] and [memset] into the storage. *)
Definition write_storage (a : virtualarray_t) (off : nat) (bs : list Z) : option virtualarray_t :=
  s ← storage a;
  if (off + length bs <=? length s)%nat
  then Some (mk_virtualarray (count a) (capacity a) (allocated a) (element_size a) (Some (write_at off bs s))) else None.

Definition virtualarray_resize_fill (a : virtualarray_t) (n : nat) (pattern : Z) : option virtualarray_t :=
  let old_count := count a in
  a ← virtualarray_resize a n;
  if (old_count <? n)%nat
  then write_storage a (usize (old_count * element_size a)) (replicate (usize ((n - old_count) * element_size a)) pattern) else Some a.

Definition virtualarray_resize_zero (a : virtualarray_t) (n : nat) : option virtualarray_t := virtualarray_resize_fill a n 0.

Definition virtualarray_push_raw (a : virtualarray_t) (element : list Z) : option virtualarray_t :=
  a ← (if bool_decide (storage a = None) || (count a =? capacity a)%nat then virtualarray_resize a (count a) else Some a);
  a ← write_storage a (usize (count a * element_size a)) (take (element_size a) element);
  Some (mk_virtualarray (usize (S (count a))) (capacity a) (allocated a) (element_size a) (storage a)).

Definition virtualarray_initialize_copy (source : virtualarray_t) : option virtualarray_t :=
  a ← virtualarray_resize (virtualarray_initialize (element_size source) (capacity source)) (count source);
  write_storage a 0 (take (usize (element_size a * count a)) (default [] (storage source))).

(** The size of a page is a power of two. *)
Context (page_shift : nat) (Hpage : page_size = (2 ^ page_shift)%nat).

Lemma pages_cover size :
  let pages := (size / page_size)%nat in
  (size <= (if negb (Nat.land size (page_size - 1) =? 0)%nat then S pages else pages) * page_size <= size + page_size)%nat.
Proof.
  cbn zeta. replace (page_size - 1)%nat with (Nat.ones page_shift) by (rewrite Nat.ones_equiv, Hpage; lia).
  rewrite Nat.land_ones, <- Hpage. assert (page_size <> 0)%nat as H0 by (rewrite Hpage; by apply Nat.pow_nonzero).
  pose proof (Nat.div_mod_eq size page_size). pose proof (Nat.mod_upper_bound size page_size H0).
  destruct (Nat.eqb_spec (size mod page_size) 0); cbn [negb]; nia.
Qed.

Lemma allocate_storage_spec es n :
  (0 < es)%nat -> Z.of_nat (n * es * 2 + page_size) < 2 ^ 64 ->
  exists s c flags, virtualarray_allocate_storage es n = (s, c, flags) /\ (n <= c)%nat /\
    (es * c <= length s)%nat /\ Z.of_nat (length s) < 2 ^ 64.
Proof.
  intros Hes Hn. unfold virtualarray_allocate_storage. rewrite (usize_below _ _ Hn) by lia.
  destruct (Nat.ltb_spec (n * es) virtual_threshold).
  - do 3 eexists. split; [done|]. rewrite length_fresh_memory. lia.
  - rewrite (usize_below (n * es * 2) _ Hn) by lia. pose proof (pages_cover (n * es * 2)) as Hp. cbn zeta in Hp.
    rewrite (usize_below _ _ Hn) by lia. do 3 eexists. split; [done|].
    rewrite length_fresh_memory. split; [apply Nat.div_le_lower_bound; lia|split; [apply Nat.Div0.mul_div_le|lia]].
Qed.

(** A storage for the elements, doubled and rounded up, has addresses. *)
Definition fits (a : virtualarray_t) (n : nat) : Prop :=
  Z.of_nat (4 * element_size a * Nat.max n (capacity a) + page_size) < 2 ^ 64.

(** What a resize keeps: the front of the elements, in a storage with place. *)
Definition resized (a a' : virtualarray_t) (n : nat) (l : list (list Z)) : Prop :=
  element_size a' = element_size a /\ count a' = n /\ (n <= capacity a')%nat /\
  exists s, storage a' = Some s /\ ((element_size a * capacity a' <= length s)%nat /\ Z.of_nat (length s) < 2 ^ 64) /\
    take (element_size a * length l) s = concat l.

(** The new capacity of a resize. *)
Lemma new_capacity_spec a n :
  (0 < element_size a)%nat -> fits a n -> (capacity a <= n)%nat ->
  let nc := if (n <? usize (capacity a * 2))%nat then usize (capacity a * 2) else usize (n * 2) in
  (n <= nc /\ capacity a <= nc /\ (0 < capacity a -> 0 < nc) /\ (0 < n -> n < nc))%nat /\
  Z.of_nat (nc * element_size a * 2 + page_size) < 2 ^ 64.
Proof.
  unfold fits. intros Hes Hf Hn. rewrite !(usize_below _ _ Hf) by nia. cbn zeta.
  destruct (Nat.ltb_spec n (capacity a * 2)); split; nia.
Qed.

Lemma virtualarray_resize_keeps a l n :
  (0 < element_size a)%nat -> holds a l -> fits a n ->
  exists a', virtualarray_resize a n = Some a' /\ resized a a' n l /\ ((0 < capacity a)%nat -> (0 < capacity a')%nat) /\
    ((0 < count a)%nat -> count a = capacity a -> n = count a -> (n < capacity a')%nat).
Proof.
  intros Hes Hh Hf. pose proof Hh as ((H1 & Hes32) & H2 & H3 & H4). pose proof (length_blocks _ _ H3) as Hlen.
  unfold virtualarray_resize. destruct (Nat.ltb_spec n (capacity a)) as [Hn|Hn].
  - destruct (storage a) as [s|] eqn:Es; [|subst l].
    + eexists. split; [done|]. destruct H4 as [H4 H5]. split; [|cbn [capacity]; split; lia].
      repeat split; cbn [capacity]; [lia|]. exists s. split; [done|]. split; [exact H4|by rewrite <- H2].
    + destruct (allocate_storage_spec (element_size a) (capacity a) Hes) as (s & c & fl & -> & Hc & Hs); [unfold fits in Hf; nia|].
      eexists. split; [done|]. split; [|cbn [capacity]; split; lia]. repeat split; cbn [capacity]; [lia|].
      exists s. repeat split; [lia..|]. cbn [length concat]. by rewrite Nat.mul_0_r, take_0.
  - destruct (new_capacity_spec a n Hes Hf Hn) as [Hnc Hbytes]. set (nc := if (n <? _)%nat then _ else _) in *.
    destruct (allocate_storage_spec (element_size a) nc Hes Hbytes) as (s & c & fl & -> & Hc & Hs).
    assert (usize (element_size a * count a) = element_size a * count a)%nat as -> by (unfold fits in Hf; apply (usize_below _ _ Hf); nia).
    assert (exists old, default [] (storage a) = old /\ (element_size a * count a <= length old)%nat /\
      take (element_size a * count a) old = concat l) as (old & -> & Ho & Ht).
    { destruct (storage a) as [o|] eqn:Es; eexists; (split; [done|]).
      - split; [by apply (holds_storage_length a l)|apply H4].
      - subst l. rewrite H2. by rewrite Nat.mul_0_r. }
    rewrite !(proj2 (Nat.leb_le _ _)) by nia. cbn [andb]. eexists. split; [done|]. split; [|cbn [capacity]; split; lia].
    repeat split; cbn [capacity]; [lia|]. eexists. split; [done|].
    rewrite length_write_at by (rewrite length_take; nia). split; [done|].
    rewrite Ht. unfold write_at. rewrite take_0, app_nil_l, take_app_le by lia. apply take_ge. lia.
Qed.

(** Forgetting elements, or seeing what was in the memory. *)
Lemma resized_shrink a a' n l : holds a l -> resized a a' n l -> (n <= length l)%nat -> holds a' (take n l).
Proof.
  intros ((_ & He) & _ & H3 & _) (E1 & E2 & E3 & s & Es & H5 & H6) Hn. unfold holds. rewrite Es, E1, E2.
  split; [done|]. split; [rewrite length_take; lia|]. split; [by apply Forall_take|]. split; [done|].
  rewrite (take_blocks (element_size a)), <- H6, take_take by done. f_equal. nia.
Qed.

Lemma resized_grow a a' n l :
  holds a l -> resized a a' n l -> (length l <= n)%nat -> exists tail, length tail = (n - length l)%nat /\ holds a' (l ++ tail).
Proof.
  intros ((_ & He) & _ & H3 & _) (E1 & E2 & E3 & s & Es & H5 & H6) Hn.
  exists (map (chunk (element_size a) s) (seq (length l) (n - length l))). rewrite length_map, length_seq. split; [done|].
  unfold holds. rewrite Es, E1, E2. split; [done|]. split; [rewrite length_app, length_map, length_seq; lia|]. split.
  - apply Forall_app. split; [done|]. apply Forall_map, Forall_forall. intros i Hi%elem_of_seq. apply length_chunk. nia.
  - split; [done|]. rewrite concat_app, concat_chunks by nia. rewrite <- H6, take_take_drop. f_equal. nia.
Qed.

(** Storing elements behind those of the array. *)
Lemma store_holds a a' n l k :
  holds a l -> resized a a' n l -> Forall (fun e => length e = element_size a) k -> (length l + length k <= capacity a')%nat ->
  exists a'', write_storage a' (usize (length l * element_size a)) (concat k) = Some a'' /\
    element_size a'' = element_size a /\ capacity a'' = capacity a' /\ count a'' = count a' /\
    (forall m, m = (length l + length k)%nat -> holds (mk_virtualarray m (capacity a'') (allocated a'') (element_size a'') (storage a'')) (l ++ k)).
Proof.
  intros ((_ & He) & _ & H3 & _) (E1 & E2 & E3 & s & Es & H5 & H6) Hk Hfit. unfold write_storage. rewrite Es. cbn [mbind option_bind].
  rewrite (usize_below _ _ (proj2 H5)) by nia.
  pose proof (length_blocks _ _ Hk) as Hlk. rewrite Hlk, (proj2 (Nat.leb_le _ _)) by nia. eexists. split; [done|].
  cbn [element_size capacity count storage allocated]. split; [done|]. split; [done|]. split; [done|]. intros m ->. unfold holds. cbn [element_size capacity count storage].
  rewrite E1. split; [done|]. split; [by rewrite length_app|]. split; [by apply Forall_app|].
  split; [rewrite length_write_at by nia; exact H5|]. rewrite concat_app, <- H6.
  replace (element_size a * (length l + length k))%nat with (length l * element_size a + length (concat k))%nat by lia.
  rewrite take_write_at by nia. do 2 f_equal. lia.
Qed.

Context (a : virtualarray_t) (l : list (list Z)) (Hes : (0 < element_size a)%nat) (Hh : holds a l).

Lemma virtualarray_push_holds e :
  (0 < capacity a)%nat -> fits a (length l) -> length e = element_size a ->
  exists a', virtualarray_push_raw a e = Some a' /\ holds a' (l ++ [e]) /\ (0 < capacity a')%nat /\ element_size a' = element_size a.
Proof.
  intros Hcap Hf He. unfold virtualarray_push_raw. pose proof Hh as ((H1 & Hes32) & H2 & H3 & H4).
  assert (exists a', (if bool_decide (storage a = None) || (count a =? capacity a)%nat then virtualarray_resize a (count a) else Some a) = Some a'
    /\ resized a a' (count a) l /\ (length l + 1 <= capacity a')%nat) as (a' & -> & Hr & Hfit).
  { destruct (virtualarray_resize_keeps a l (count a) Hes Hh ltac:(by rewrite H2)) as (a' & E & Hr & Hp & Hg). 
    destruct (bool_decide_reflect (storage a = None)) as [Hn|Hn]; cbn [orb].
    - exists a'. split; [done|]. split; [done|]. rewrite Hn in H4. subst l. specialize (Hp Hcap). simpl. lia.
    - destruct (Nat.eqb_spec (count a) (capacity a)) as [Heq|Hne].
      + exists a'. split; [done|]. split; [done|]. specialize (Hg ltac:(lia) Heq eq_refl). lia.
      + exists a. split; [done|]. split; [|lia]. destruct (storage a) as [s|] eqn:Es; [|done].
        repeat split; [lia|]. exists s. split; [done|]. split; [apply H4|rewrite <- H2; apply H4]. }
  cbn [mbind option_bind]. pose proof Hr as (R1 & R2 & R3 & s' & _ & R4 & _). rewrite R1, R2, H2, take_ge by lia.
  destruct (store_holds a a' (count a) l [e] Hh) as (a'' & E & F1 & F2 & F3 & Hall); [done|by repeat constructor|done|].
  cbn [concat] in E. rewrite app_nil_r in E. rewrite E. cbn [mbind option_bind]. eexists. split; [done|].
  cbn [capacity element_size]. split; [|lia]. apply Hall. rewrite F3, R2, H2. cbn [length]. rewrite (usize_below _ _ (proj2 R4)) by nia. lia.
Qed.

Lemma virtualarray_resize_fill_holds n p :
  fits a n ->
  exists a', virtualarray_resize_fill a n p = Some a' /\
    holds a' (take n l ++ replicate (n - length l) (replicate (element_size a) p)).
Proof.
  intros Hf. destruct (virtualarray_resize_keeps a l n Hes Hh Hf) as (a' & E & Hr & _). unfold virtualarray_resize_fill. rewrite E. cbn [mbind option_bind].
  pose proof Hh as (_ & -> & _). destruct (Nat.ltb_spec (length l) n) as [Hn|Hn].
  - pose proof Hr as (R1 & R2 & R3 & s' & _ & R4 & _). rewrite R1, (take_ge l) by lia.
    rewrite (usize_below ((n - length l) * element_size a) _ (proj2 R4)) by nia.
    set (k := replicate (n - length l) (replicate (element_size a) p)).
    assert (replicate ((n - length l) * element_size a) p = concat k) as ->
      by (unfold k; generalize (n - length l)%nat as m; induction m as [|m IH]; [done|]; cbn [Nat.mul replicate concat]; by rewrite replicate_add, IH).
    assert (length k = n - length l)%nat as Hk by (unfold k; by rewrite length_replicate).
    destruct (store_holds a a' n l k Hh) as (a'' & E' & F1 & F2 & F3 & Hall); [done|apply Forall_replicate, length_replicate|lia|].
    exists a''. split; [done|]. specialize (Hall n ltac:(lia)). destruct a''. cbn [count] in F3. subst. exact Hall.
  - exists a'. split; [done|]. replace (n - length l)%nat with 0%nat by lia. rewrite app_nil_r. by apply (resized_shrink a).
Qed.

Lemma virtualarray_initialize_copy_holds : fits a (length l) -> exists a', virtualarray_initialize_copy a = Some a' /\ holds a' l.
Proof.
  intros Hf. pose proof Hh as ((H1 & Hes32) & H2 & H3 & H4).
  unfold virtualarray_initialize_copy. set (b := virtualarray_initialize (element_size a) (capacity a)).
  assert (element_size b = element_size a) as Eb by (by apply uint_of_small).
  assert (holds b []) as Hb by (unfold holds; rewrite Eb; repeat split; simpl; [lia|done|constructor]).
  destruct (virtualarray_resize_keeps b [] (count a)) as (b' & E & Hr & _); [by rewrite Eb|done|unfold fits in *; rewrite Eb, H2; exact Hf|].
  rewrite E. cbn [mbind option_bind]. pose proof Hr as (R1 & R2 & R3 & s' & _ & R4 & _).
  rewrite Eb in R1. rewrite R1, R2. rewrite (usize_below (element_size a * count a) _ (proj2 R4)) by (rewrite Eb in R4; nia).
  assert (take (element_size a * count a) (default [] (storage a)) = concat l) as ->
    by (destruct (storage a); [apply H4|subst l; apply take_nil]).
  destruct (store_holds b b' (count a) [] l Hb) as (b'' & E' & F1 & F2 & F3 & Hall); [done|by rewrite Eb|simpl; lia|].
  exists b''. split; [done|]. specialize (Hall (count a) ltac:(simpl; lia)). rewrite <- R2, <- F3 in Hall. by destruct b''.
Qed.

Lemma virtualarray_reset_holds size : (0 < size)%nat -> Z.of_nat size < 2 ^ 32 -> holds (virtualarray_reset a size) [].
Proof.
  intros Hs Hs32. destruct Hh as ((H1 & Hes32) & H2 & H3 & H4). unfold holds. cbn [virtualarray_reset count capacity element_size storage].
  rewrite uint_of_small by done. split; [split; [lia|done]|]. split; [done|]. split; [constructor|].
  destruct (storage a) as [s|]; [|done]. destruct H4 as ((H4 & H5) & _). rewrite Nat.mul_0_r, take_0. split; [|done]. split; [|done].
  rewrite (usize_below _ _ H5) by lia. transitivity (capacity a * element_size a)%nat; [apply Nat.Div0.mul_div_le|lia].
Qed.

Lemma virtualarray_clear_holds : holds (virtualarray_clear a) [].
Proof.
  pose proof Hh as ((H1 & H1') & H2 & H3 & H4). unfold holds. cbn [virtualarray_clear count capacity element_size storage].
  split; [split; [lia|done]|]. split; [done|]. split; [constructor|]. destruct (storage a); [|done].
  rewrite Nat.mul_0_r, take_0. split; [apply H4|done].
Qed.

Lemma virtualarray_initialize_holds es n : holds (virtualarray_initialize es n) [].
Proof using.
  unfold holds. cbn [virtualarray_initialize count capacity element_size storage].
  split; [split; [apply Nat.le_0_l|apply uint_of_bound]|]. by repeat constructor.
Qed.

Lemma virtualarray_clear_and_free_holds : holds (virtualarray_clear_and_free a) [].
Proof.
  pose proof Hh as ((H1 & H1') & _). unfold holds. cbn [virtualarray_clear_and_free count capacity element_size storage].
  split; [split; [lia|done]|]. by repeat constructor.
Qed.

(** C30: a virtual array of elements of at least one byte, on pages of a power of
    two of bytes, is the list of its elements, with sizes that wrap around at 64 bits, the one of an element at
    32: as long as a storage four times the elements there are to be, or the
    capacity, and a page has addresses ([fits]), pushing to an array of
    capacity above zero appends and keeps the capacity above zero, resizing
    keeps the front and shows what was in the memory behind it, or the fill
    pattern, and copying keeps the elements; at any size clearing and freeing
    empty the array, and so does resetting to another element size that is an
    [uint]; and no operation leaves its storage. *)
Theorem virtualarray_refines_list :
  (forall e, (0 < capacity a)%nat -> fits a (length l) -> length e = element_size a ->
    exists a', virtualarray_push_raw a e = Some a' /\ holds a' (l ++ [e]) /\ (0 < capacity a')%nat /\ element_size a' = element_size a) /\
  (forall n, fits a n -> (n <= length l)%nat -> exists a', virtualarray_resize a n = Some a' /\ holds a' (take n l)) /\
  (forall n, fits a n -> (length l <= n)%nat ->
    exists a' tail, virtualarray_resize a n = Some a' /\ length tail = (n - length l)%nat /\ holds a' (l ++ tail)) /\
  (forall n p, fits a n -> exists a', virtualarray_resize_fill a n p = Some a' /\
    holds a' (take n l ++ replicate (n - length l) (replicate (element_size a) p))) /\
  (fits a (length l) -> exists a', virtualarray_initialize_copy a = Some a' /\ holds a' l) /\
  (forall size, (0 < size)%nat -> Z.of_nat size < 2 ^ 32 ->
    holds (virtualarray_reset a size) [] /\ element_size (virtualarray_reset a size) = size) /\
  holds (virtualarray_clear a) [] /\ holds (virtualarray_clear_and_free a) [] /\
  (forall es n, Z.of_nat es < 2 ^ 32 -> holds (virtualarray_initialize es n) [] /\ element_size (virtualarray_initialize es n) = es).
Proof.
  split; [apply virtualarray_push_holds|]. split; [|split].
  1-2: intros n Hf Hn; destruct (virtualarray_resize_keeps a l n Hes Hh Hf) as (a' & E & Hr & _); exists a'.
  { split; [done|]. by apply (resized_shrink a). }
  { destruct (resized_grow a a' n l Hh Hr Hn) as (tail & H). by exists tail. }
  split; [apply virtualarray_resize_fill_holds|]. split; [apply virtualarray_initialize_copy_holds|].
  split; [intros size H0 H32; split; [by apply virtualarray_reset_holds|by apply uint_of_small]|]. split; [|split].
  - by apply virtualarray_clear_holds.
  - by apply virtualarray_clear_and_free_holds.
  - intros es n H32. split; [apply virtualarray_initialize_holds|by apply uint_of_small].
Qed.
End operations.

(** The code beyond: the storage of [2 ^ 60] elements of 16 bytes has no byte. *)
Lemma virtualarray_storage_wraps `{HU : !Uninit} page_size n :
  Z.of_nat n = 2 ^ 60 -> virtualarray_allocate_storage page_size 16 n = ([], n, true).
Proof.
  intros Hn. unfold virtualarray_allocate_storage.
  assert (usize (n * 16) = 0%nat) as -> by (unfold usize; rewrite Nat2Z.inj_mul, Hn; reflexivity). reflexivity.
Qed.

#[local] Instance ones : Uninit := fun _ => 1.

Definition sample : virtualarray_t := virtualarray_initialize 2 1.

Lemma virtualarray_refines_list_witness :
  exists a', virtualarray_push_raw (2 ^ 12) sample [5; 6] = Some a' /\ holds a' [[5; 6]] /\ (0 < capacity a')%nat /\ element_size a' = 2%nat.
Proof.
  assert (holds sample []) as Hs by (apply virtualarray_initialize_holds).
  pose proof (virtualarray_refines_list (2 ^ 12) 12 eq_refl sample [] ltac:(vm_compute; lia) Hs) as [H _].
  apply (H [5; 6]); [vm_compute; lia|by vm_compute|done].
Defined.

(** Three elements of two bytes in an array of capacity one. *)
Definition push_all (es : list (list Z)) (a : virtualarray_t) : option virtualarray_t :=
  foldl (fun (a : option virtualarray_t) e => a ← a; virtualarray_push_raw 4096 a e) (Some a) es.

Example virtualarray_sample :
  match push_all [[1; 2]; [3; 4]; [5; 6]] sample with
  | Some a => count a = 3%nat /\ capacity a = 4%nat /\ option_map (take 6) (storage a) = Some [1; 2; 3; 4; 5; 6]
  | None => False
  end.
Proof. by vm_compute. Qed.

(** An array of capacity zero never gets a place for an element. *)
Example virtualarray_capacity_zero : push_all [[1; 2]] (virtualarray_initialize 2 0) = None.
Proof. by vm_compute. Qed.
End VirtualArray.
