(* ===== verification/Random.v ===== *)
(** * Random numbers ([src/library/foundation_lib/foundation/random.c])

    The generator with 1391 words of state and an index in the last cell, the
    integers in a range, and the buffers of state that the threads share.  The
    functions on floating point numbers are not modelled. *)
From S2P Require Import Prelude.

Module Random.

(** What a shift of a 32-bit number by 32 and more gives, which C leaves open. *)
Class UndefinedShift := undefined_shift : Z -> Z.

Definition RANDOM_STATE_SIZE : Z := 1391.
Definition RANDOM_MASK_UPPER : Z := Z.shiftr 0xFFFFFFFF (32 - 15).
Definition RANDOM_MASK_LOWER : Z := u32 (Z.lnot RANDOM_MASK_UPPER).
Definition RANDOM_BITMASK : Z := 0x48000000.
Definition RANDOM_LOW_LIMIT : Z := 23.
Definition RANDOM_MID_LIMIT : Z := 229.
Definition RANDOM_HIGH_LIMIT : Z := 481.

Definition RANDOM_XOR_AND_LEFTSHIFT (bits val : Z) : Z := Z.lxor val (u32 (Z.shiftl val bits)).
Definition RANDOM_XOR_AND_RIGHTSHIFT (bits val : Z) : Z := Z.lxor val (Z.shiftr val bits).
Definition RANDOM_TRANSFORM (bits key mask test val : Z) : Z :=
  let rotated := Z.land (Z.lxor (u32 (Z.shiftl val bits)) (Z.shiftr val (32 - bits))) mask in
  if negb (Z.land val test =? 0) then Z.lxor rotated key else rotated.

(** The assignment of [state[i]]; [None] outside the buffer. *)
Definition wr (state : list Z) (i v : Z) : option (list Z) :=
  if (0 <=? i) && (i <? Z.of_nat (length state)) then Some (<[Z.to_nat i := v]> state) else None.

Section generator.
Context `{HU : !UndefinedShift}.

(** [26U << n] *)
Definition shift26 (n : Z) : Z := u32 (if n <? 32 then Z.shiftl 26 n else undefined_shift n).

(** A branch of [random_from_state]; the branches differ in the cells they use. *)
Definition next_cells (state : list Z) (cur prev prev2 low high mid result : Z) : option (Z * list Z) :=
  p ← rd state prev;
  p2 ← rd state prev2;
  let bits0 := Z.lor (Z.land p RANDOM_MASK_LOWER) (Z.land p2 RANDOM_MASK_UPPER) in
  c ← rd state cur;
  l ← rd state low;
  let bits1 := Z.lxor (RANDOM_XOR_AND_LEFTSHIFT 24 c) (RANDOM_XOR_AND_RIGHTSHIFT 30 l) in
  h ← rd state high;
  m ← rd state mid;
  let bits2 := Z.lxor (RANDOM_XOR_AND_LEFTSHIFT 10 h) (shift26 m) in
  state ← wr state cur (Z.lxor bits1 bits2);
  c ← rd state cur;
  state ← wr state prev (Z.lxor (Z.lxor (Z.lxor bits0 (RANDOM_XOR_AND_RIGHTSHIFT 20 bits1))
                                        (RANDOM_TRANSFORM 9 0xb729fcec 0xfbffffff 0x00020000 bits2)) c);
  state ← wr state RANDOM_STATE_SIZE prev;
  r ← rd state prev;
  q ← rd state result;
  Some (Z.lxor r (Z.land q RANDOM_BITMASK), state).

Definition random_from_state (state : list Z) : option (Z * list Z) :=
  state_index ← rd state RANDOM_STATE_SIZE;
  if state_index =? 0 then
    let now := RANDOM_STATE_SIZE - 1 in
    next_cells state 0 now (RANDOM_STATE_SIZE - 2) RANDOM_LOW_LIMIT RANDOM_HIGH_LIMIT RANDOM_MID_LIMIT
      (now + RANDOM_HIGH_LIMIT - RANDOM_STATE_SIZE + 1)
  else if state_index =? 1 then
    next_cells state 1 0 (RANDOM_STATE_SIZE - 1) (1 + RANDOM_LOW_LIMIT) (1 + RANDOM_HIGH_LIMIT) (1 + RANDOM_MID_LIMIT)
      (0 + RANDOM_HIGH_LIMIT + 1)
  else
    let now := u32 (state_index - 1) in
    let prev2 := u32 (state_index - 2) in
    let at_ k := u32 (state_index + k) in
    let around k := u32 (state_index + k - RANDOM_STATE_SIZE) in
    if RANDOM_STATE_SIZE <=? at_ RANDOM_LOW_LIMIT then
      next_cells state state_index now prev2 (around RANDOM_LOW_LIMIT) (around RANDOM_HIGH_LIMIT) (around RANDOM_MID_LIMIT)
        (u32 (now + RANDOM_HIGH_LIMIT - RANDOM_STATE_SIZE + 1))
    else if RANDOM_STATE_SIZE <=? at_ RANDOM_MID_LIMIT then
      next_cells state state_index now prev2 (at_ RANDOM_LOW_LIMIT) (around RANDOM_HIGH_LIMIT) (around RANDOM_MID_LIMIT)
        (u32 (now + RANDOM_HIGH_LIMIT - RANDOM_STATE_SIZE + 1))
    else if RANDOM_STATE_SIZE <=? at_ RANDOM_HIGH_LIMIT then
      next_cells state state_index now prev2 (at_ RANDOM_LOW_LIMIT) (around RANDOM_HIGH_LIMIT) (at_ RANDOM_MID_LIMIT)
        (u32 (now + RANDOM_HIGH_LIMIT - RANDOM_STATE_SIZE + 1))
    else
      next_cells state state_index now prev2 (at_ RANDOM_LOW_LIMIT) (at_ RANDOM_HIGH_LIMIT) (at_ RANDOM_MID_LIMIT)
        (u32 (now + RANDOM_HIGH_LIMIT + 1)).

(** The thread has its buffer. *)
Definition random32 := random_from_state.

(** [None] is also the division by zero. *)
Definition random32_range (low high : Z) (state : list Z) : option (Z * list Z) :=
  let '(low, high) := if high <? low then (high, low) else (low, high) in
  if high <=? u32 (low + 1) then Some (low, state)
  else
    '(r, state) ← random32 state;
    if high - low =? 0 then None else Some (u32 (low + r mod (high - low)), state).

Definition random64 (state : list Z) : option (Z * list Z) :=
  '(low, state) ← random_from_state state;
  '(high, state) ← random_from_state state;
  Some (Z.lor (u64 (Z.shiftl high 32)) low, state).

Definition random64_range (low high : Z) (state : list Z) : option (Z * list Z) :=
  let '(low, high) := if high <? low then (high, low) else (low, high) in
  if high <=? u64 (low + 1) then Some (low, state)
  else
    '(r, state) ← random64 state;
    if high - low =? 0 then None else Some (u64 (low + r mod (high - low)), state).

(** The difference of the limits is an [int], which must not overflow. *)
Definition scaled (low high factor : Z) : option Z :=
  let '(low, high) := if high <? low then (high, low) else (low, high) in
  if high - low <? 2 ^ 31
  then Some (low + sint 32 (Z.shiftr (u64 (factor * (high - low))) 32)) else None.

(** The order of the four calls does not matter to the sum. *)
Definition random32_gaussian_range (low high : Z) (state : list Z) : option (Z * list Z) :=
  '(a, state) ← random32 state;
  '(b, state) ← random32 state;
  '(c, state) ← random32 state;
  '(d, state) ← random32 state;
  let cubic := Z.shiftr (u64 (a + b + (c + d) + 2)) 2 in
  v ← scaled low high cubic;
  Some (v, state).

Definition random32_triangle_range (low high : Z) (state : list Z) : option (Z * list Z) :=
  '(t0, state) ← random32 state;
  '(t1, state) ← random32 state;
  let tri := u32 (Z.shiftr t0 1 + Z.shiftr t1 1 + Z.land (Z.land t0 t1) 1) in
  v ← scaled low high tri;
  Some (v, state).

(** ** The generator *)

(** The cells are words and the index is one of theirs. *)
Definition wf (state : list Z) : Prop :=
  length state = Z.to_nat 1392 /\ Forall (in_u 32) state /\
  exists i, rd state RANDOM_STATE_SIZE = Some i /\ i < RANDOM_STATE_SIZE.

Lemma rd_wf state k : length state = Z.to_nat 1392 -> Forall (in_u 32) state -> 0 <= k < 1392 -> exists v, rd state k = Some v /\ in_u 32 v.
Proof.
  intros Hl Hf Hk. unfold rd. destruct (Z.leb_spec 0 k); [|lia].
  destruct (lookup_lt_is_Some_2 state (Z.to_nat k)) as [v E]; [lia|]. exists v. split; [done|]. by eapply Forall_lookup_1 in Hf.
Qed.

Lemma wr_wf state k v :
  length state = Z.to_nat 1392 -> Forall (in_u 32) state -> 0 <= k < 1392 -> in_u 32 v ->
  exists state', wr state k v = Some state' /\ length state' = Z.to_nat 1392 /\ Forall (in_u 32) state' /\
    forall j, 0 <= j -> rd state' j = if decide (j = k) then Some v else rd state j.
Proof.
  intros Hl Hf Hk Hv. unfold wr. destruct (Z.leb_spec 0 k); [|lia]. destruct (Z.ltb_spec k (Z.of_nat (length state))); [|lia].
  eexists. split; [done|]. rewrite length_insert. split; [done|]. split; [by apply Forall_insert|].
  intros j Hj. unfold rd. destruct (Z.leb_spec 0 j); [|lia]. destruct (decide (j = k)) as [->|Hne].
  - by rewrite list_lookup_insert_eq by lia.
  - by rewrite list_lookup_insert_ne by lia.
Qed.

(** A cell, with its index around the end. *)
Definition cell (state : list Z) (k : Z) : Z := default 0 (rd state (k mod RANDOM_STATE_SIZE)).

(** The six branches are one recurrence around the end of the cells. *)
Lemma random_from_state_around state i :
  wf state -> rd state RANDOM_STATE_SIZE = Some i ->
  0 <= i < RANDOM_STATE_SIZE /\
  random_from_state state =
    next_cells state i ((i - 1) mod RANDOM_STATE_SIZE) ((i - 2) mod RANDOM_STATE_SIZE) ((i + RANDOM_LOW_LIMIT) mod RANDOM_STATE_SIZE)
      ((i + RANDOM_HIGH_LIMIT) mod RANDOM_STATE_SIZE) ((i + RANDOM_MID_LIMIT) mod RANDOM_STATE_SIZE)
      ((i + RANDOM_HIGH_LIMIT) mod RANDOM_STATE_SIZE).
Proof.
  intros (Hl & Hf & j & E & Hj) Ei. rewrite Ei in E. injection E as <-.
  destruct (rd_wf state RANDOM_STATE_SIZE Hl Hf ltac:(done)) as (v & Ev & Hv). rewrite Ei in Ev. injection Ev as <-.
  unfold in_u in Hv. split; [lia|]. unfold random_from_state. rewrite Ei. cbn [mbind option_bind].
  unfold RANDOM_STATE_SIZE, RANDOM_LOW_LIMIT, RANDOM_MID_LIMIT, RANDOM_HIGH_LIMIT in *. unfold wrap. change (2 ^ 32) with 4294967296 in *.
  destruct (Z.eqb_spec i 0) as [->|H0]; [done|]. destruct (Z.eqb_spec i 1) as [->|H1]; [done|]. cbv zeta.
  repeat case_if; f_equal; Z.div_mod_to_equations; lia.
Qed.

Lemma in_u_left bits v : 0 <= bits -> in_u 32 v -> in_u 32 (RANDOM_XOR_AND_LEFTSHIFT bits v).
Proof. unfold RANDOM_XOR_AND_LEFTSHIFT. auto with cint lia. Qed.

Lemma in_u_right bits v : 0 <= bits -> in_u 32 v -> in_u 32 (RANDOM_XOR_AND_RIGHTSHIFT bits v).
Proof. unfold RANDOM_XOR_AND_RIGHTSHIFT. auto with cint lia. Qed.

Lemma in_u_transform v : in_u 32 v -> in_u 32 (RANDOM_TRANSFORM 9 0xb729fcec 0xfbffffff 0x00020000 v).
Proof.
  intros Hv. unfold RANDOM_TRANSFORM. assert (in_u 32 (u32 (Z.shiftl v 9))) by by apply wrap_in_u.
  assert (in_u 32 (Z.shiftr v (32 - 9))) by by apply in_u_shiftr. assert (in_u 32 0xb729fcec) by done.
  case_if; auto with cint.
Qed.

(** What a step does when its cells are in the buffer and differ. *)
Lemma next_cells_spec state cur prev prev2 low high mid result :
  length state = Z.to_nat 1392 -> Forall (in_u 32) state -> cur <> prev -> result <> prev -> result <> cur ->
  Forall (fun k => 0 <= k < RANDOM_STATE_SIZE) [cur; prev; prev2; low; high; mid; result] ->
  let at_ k := default 0 (rd state k) in
  let bits0 := Z.lor (Z.land (at_ prev) RANDOM_MASK_LOWER) (Z.land (at_ prev2) RANDOM_MASK_UPPER) in
  let bits1 := Z.lxor (RANDOM_XOR_AND_LEFTSHIFT 24 (at_ cur)) (RANDOM_XOR_AND_RIGHTSHIFT 30 (at_ low)) in
  let bits2 := Z.lxor (RANDOM_XOR_AND_LEFTSHIFT 10 (at_ high)) (shift26 (at_ mid)) in
  let new1 := Z.lxor bits1 bits2 in
  let new0 := Z.lxor (Z.lxor (Z.lxor bits0 (RANDOM_XOR_AND_RIGHTSHIFT 20 bits1))
                             (RANDOM_TRANSFORM 9 0xb729fcec 0xfbffffff 0x00020000 bits2)) new1 in
  let r := Z.lxor new0 (Z.land (at_ result) RANDOM_BITMASK) in
  exists state', next_cells state cur prev prev2 low high mid result = Some (r, state') /\ wf state' /\ in_u 32 r /\
    rd state' RANDOM_STATE_SIZE = Some prev /\
    (forall k, 0 <= k < RANDOM_STATE_SIZE ->
      rd state' k = if decide (k = prev) then Some new0 else if decide (k = cur) then Some new1 else rd state k).
Proof.
  intros Hl Hf Hcp Hrp Hrc Hk at_ bits0 bits1 bits2 new1 new0 r. unfold RANDOM_STATE_SIZE in *. rewrite !Forall_cons in Hk.
  destruct Hk as (K1 & K2 & K3 & K4 & K5 & K6 & K7 & _).
  destruct (rd_wf state prev Hl Hf ltac:(lia)) as (p & Ep & Hp). destruct (rd_wf state prev2 Hl Hf ltac:(lia)) as (p2 & Ep2 & Hp2).
  destruct (rd_wf state cur Hl Hf ltac:(lia)) as (c & Ec & Hc). destruct (rd_wf state low Hl Hf ltac:(lia)) as (l & El & Hlo).
  destruct (rd_wf state high Hl Hf ltac:(lia)) as (h & Eh & Hh). destruct (rd_wf state mid Hl Hf ltac:(lia)) as (m & Em & Hm).
  destruct (rd_wf state result Hl Hf ltac:(lia)) as (q & Eq & Hq).
  unfold next_cells. unfold r, new0, new1, bits2, bits1, bits0, at_. clear r new0 new1 bits2 bits1 bits0 at_.
  rewrite Ep, Ep2, Ec, El, Eh, Em, Eq. cbn [default from_option Datatypes.id mbind option_bind]. cbv zeta.
  set (bits0 := Z.lor _ _). set (bits1 := Z.lxor (RANDOM_XOR_AND_LEFTSHIFT 24 c) _). set (bits2 := Z.lxor _ (shift26 m)).
  assert (in_u 32 bits0) by (unfold bits0; auto with cint).
  assert (in_u 32 bits1) by (apply in_u_lxor; [by apply in_u_left|by apply in_u_right]).
  assert (in_u 32 bits2) by (apply in_u_lxor; [by apply in_u_left|by apply wrap_in_u]).
  set (new1 := Z.lxor bits1 bits2). assert (in_u 32 new1) by (unfold new1; auto with cint).
  destruct (wr_wf state cur new1 Hl Hf ltac:(lia) ltac:(done)) as (s1 & E1 & L1 & F1 & R1).
  rewrite E1. cbn [mbind option_bind]. rewrite (R1 cur), decide_True by (done || lia). cbn [mbind option_bind].
  set (new0 := Z.lxor _ new1). 
  assert (in_u 32 new0) by (unfold new0; auto using in_u_lxor, in_u_right, in_u_transform with lia).
  destruct (wr_wf s1 prev new0 L1 F1 ltac:(lia) ltac:(done)) as (s2 & E2 & L2 & F2 & R2).
  rewrite E2. cbn [mbind option_bind]. 
  destruct (wr_wf s2 RANDOM_STATE_SIZE prev L2 F2 ltac:(done) ltac:(unfold in_u; lia)) as (s3 & E3 & L3 & F3 & R3).
  rewrite E3. unfold RANDOM_STATE_SIZE in *. cbn [mbind option_bind].
  assert (forall k, 0 <= k < 1391 -> rd s3 k = if decide (k = prev) then Some new0 else if decide (k = cur) then Some new1 else rd state k) as R.
  { intros k Hk. rewrite R3, decide_False, R2 by lia. case_decide; [done|]. by rewrite R1 by lia. }
  rewrite (R prev), decide_True by (done || lia). cbn [mbind option_bind]. rewrite (R result), !decide_False, Eq by (done || lia).
  cbn [mbind option_bind]. eexists. split; [done|]. assert (rd s3 1391 = Some prev) by (by rewrite R3, decide_True by (done || lia)).
  split; [|split; [auto with cint|by split]]. split; [done|]. split; [done|]. exists prev. split; [done|]. unfold RANDOM_STATE_SIZE. lia.
Qed.

(** The cells of a step lie in the ring, and those that it changes differ. *)
Lemma ring_places i :
  0 <= i < 1391 -> i <> (i - 1) mod 1391 /\ (i + 481) mod 1391 <> (i - 1) mod 1391 /\ (i + 481) mod 1391 <> i /\
  Forall (fun k => 0 <= k < RANDOM_STATE_SIZE)
    [i; (i - 1) mod 1391; (i - 2) mod 1391; (i + 23) mod 1391; (i + 481) mod 1391; (i + 229) mod 1391; (i + 481) mod 1391].
Proof.
  intros Hi. unfold RANDOM_STATE_SIZE. repeat split; [Z.div_mod_to_equations; lia..|].
  constructor; [done|]. repeat (constructor; [by apply Z.mod_pos_bound|]). constructor.
Qed.

(** C32: all six branches of the generator are one recurrence on a ring of 1391
    words: with the indices taken around the end of the ring, the step replaces
    the cell at the index and the one before it as written here, moves the
    index back by one and leaves the other cells; it reads and writes nothing
    outside the buffer, and its result is a 32-bit number. *)
Theorem random_from_state_recurrence state i :
  wf state -> rd state RANDOM_STATE_SIZE = Some i ->
  let bits0 := Z.lor (Z.land (cell state (i - 1)) RANDOM_MASK_LOWER) (Z.land (cell state (i - 2)) RANDOM_MASK_UPPER) in
  let bits1 := Z.lxor (RANDOM_XOR_AND_LEFTSHIFT 24 (cell state i)) (RANDOM_XOR_AND_RIGHTSHIFT 30 (cell state (i + 23))) in
  let bits2 := Z.lxor (RANDOM_XOR_AND_LEFTSHIFT 10 (cell state (i + 481))) (shift26 (cell state (i + 229))) in
  let new1 := Z.lxor bits1 bits2 in
  let new0 := Z.lxor (Z.lxor (Z.lxor bits0 (RANDOM_XOR_AND_RIGHTSHIFT 20 bits1))
                             (RANDOM_TRANSFORM 9 0xb729fcec 0xfbffffff 0x00020000 bits2)) new1 in
  let r := Z.lxor new0 (Z.land (cell state (i + 481)) RANDOM_BITMASK) in
  exists state', random_from_state state = Some (r, state') /\ wf state' /\ in_u 32 r /\
    rd state' RANDOM_STATE_SIZE = Some ((i - 1) mod 1391) /\
    forall k, cell state' k =
      if decide (k mod 1391 = (i - 1) mod 1391) then new0 else if decide (k mod 1391 = i) then new1 else cell state k.
Proof.
  intros Hwf Hi. destruct (random_from_state_around state i Hwf Hi) as [Hr ->]. destruct Hwf as (Hl & Hf & _).
  unfold cell, RANDOM_LOW_LIMIT, RANDOM_MID_LIMIT, RANDOM_HIGH_LIMIT in *. unfold RANDOM_STATE_SIZE in Hr. rewrite (Z.mod_small i) by done.
  destruct (ring_places i Hr) as (D1 & D2 & D3 & Hp).
  destruct (next_cells_spec state _ _ _ _ _ _ _ Hl Hf D1 D2 D3 Hp) as (state' & E & Hwf' & Hu & Hidx & Hcells).
  exists state'. do 4 (split; [done|]). intros k. rewrite Hcells by (by apply Z.mod_pos_bound). repeat case_decide; done.
Qed.

(** ** Numbers in a range *)

Lemma random32_wf state : wf state -> exists r state', random32 state = Some (r, state') /\ in_u 32 r /\ wf state'.
Proof.
  intros Hwf. pose proof Hwf as (Hl & Hf & i & E & _). destruct (random_from_state_around state i Hwf E) as [Hr Eq].
  unfold RANDOM_LOW_LIMIT, RANDOM_MID_LIMIT, RANDOM_HIGH_LIMIT, RANDOM_STATE_SIZE in *.
  destruct (ring_places i Hr) as (D1 & D2 & D3 & Hp).
  destruct (next_cells_spec state _ _ _ _ _ _ _ Hl Hf D1 D2 D3 Hp) as (state' & En & Hwf' & Hu & _).
  unfold random32. rewrite Eq, En. do 2 eexists. by split.
Qed.

(** A number of a range that excludes its upper limit, and the next state. *)
Definition gives (o : option (Z * list Z)) (low high : Z) : Prop :=
  exists r state', o = Some (r, state') /\ wf state' /\
    Z.min low high <= r /\ (low <> high -> r < Z.max low high) /\ (low = high -> r = low).

Lemma random64_wf state : wf state -> exists r state', random64 state = Some (r, state') /\ in_u 64 r /\ wf state'.
Proof.
  intros Hwf. unfold random64. destruct (random32_wf state Hwf) as (l & s1 & E1 & Hl & H1). unfold random32 in E1.
  rewrite E1. cbn [mbind option_bind]. destruct (random32_wf s1 H1) as (h & s2 & E2 & Hh & H2). unfold random32 in E2.
  rewrite E2. cbn [mbind option_bind]. do 2 eexists. split; [done|]. split; [|done].
  apply in_u_lor; [by apply wrap_in_u|]. unfold in_u in *. lia.
Qed.

Lemma gives_comm o low high : gives o low high -> gives o high low.
Proof. intros (r & s & H1 & H2 & H3). exists r, s. split; [done|]. split; [done|]. lia. Qed.

(** The common part of the two unsigned ranges. *)
Section range.
Context (w : Z) (random : list Z -> option (Z * list Z)) (state : list Z) (Hw : 0 <= w) (Hwf : wf state).
Context (Hrandom : exists r state', random state = Some (r, state') /\ in_u w r /\ wf state').

Lemma ordered_range_gives low high :
  in_u w low -> in_u w high -> low <= high -> ~ (low = 2 ^ w - 1 /\ high = 2 ^ w - 1) ->
  gives (if high <=? wrap w (low + 1) then Some (low, state)
         else '(r, state) ← random state; if high - low =? 0 then None else Some (wrap w (low + r mod (high - low)), state)) low high.
Proof.
  intros Hl Hh Hle Hne. destruct Hrandom as (r & s & E & Hr & Hs). unfold in_u, gives in *. rewrite E.
  rewrite (wrap_small w (low + 1)) by lia. destruct (Z.leb_spec high (low + 1)).
  - do 2 eexists. split; [done|]. split; [done|]. lia.
  - cbn [mbind option_bind]. pose proof (Z.mod_pos_bound r (high - low) ltac:(lia)). rewrite wrap_small by lia.
    destruct (Z.eqb_spec (high - low) 0); [lia|]. do 2 eexists. split; [done|]. split; [done|]. lia.
Qed.

Lemma range_gives low high :
  in_u w low -> in_u w high -> ~ (low = 2 ^ w - 1 /\ high = 2 ^ w - 1) ->
  gives (let '(low, high) := if high <? low then (high, low) else (low, high) in
         if high <=? wrap w (low + 1) then Some (low, state)
         else '(r, state) ← random state; if high - low =? 0 then None else Some (wrap w (low + r mod (high - low)), state)) low high.
Proof.
  intros Hl Hh Hne. destruct (Z.ltb_spec high low); cbv iota beta.
  - apply gives_comm, ordered_range_gives; try done; [lia|tauto].
  - by apply ordered_range_gives.
Qed.
End range.

Lemma scaled_gives low high factor :
  0 <= factor < 2 ^ 32 -> - 2 ^ 31 <= low < 2 ^ 31 -> - 2 ^ 31 <= high < 2 ^ 31 -> Z.abs (high - low) < 2 ^ 31 ->
  exists r, scaled low high factor = Some r /\ Z.min low high <= r /\ (low <> high -> r < Z.max low high) /\ (low = high -> r = low).
Proof.
  intros Hf Hl Hh Hd. unfold scaled.
  assert (forall d, 0 <= d < 2 ^ 31 -> 0 <= sint 32 (Z.shiftr (u64 (factor * d)) 32) /\ (d <> 0 -> sint 32 (Z.shiftr (u64 (factor * d)) 32) < d) /\ 
    (d = 0 -> sint 32 (Z.shiftr (u64 (factor * d)) 32) = 0)) as Hs.
  { intros d Hd'. rewrite wrap_small by nia. rewrite Z.shiftr_div_pow2 by done.
    assert (0 <= factor * d / 2 ^ 32 <= d) as Hq by (split; [apply Z.div_pos; nia|apply Z.div_le_upper_bound; nia]).
    assert (d <> 0 -> factor * d / 2 ^ 32 < d) by (intros; apply Z.div_lt_upper_bound; nia).
    unfold sint. rewrite wrap_small by lia. destruct (Z.ltb_spec (factor * d / 2 ^ 32) (2 ^ (32 - 1))); lia. }
  destruct (Z.ltb_spec high low); cbv iota beta.
  - destruct (Z.ltb_spec (low - high) (2 ^ 31)); [|lia]. eexists. split; [done|]. pose proof (Hs (low - high) ltac:(lia)). lia.
  - destruct (Z.ltb_spec (high - low) (2 ^ 31)); [|lia]. eexists. split; [done|]. pose proof (Hs (high - low) ltac:(lia)). lia.
Qed.

(** A number of a range is never below its lower limit and below its upper
    limit, in either order of the limits, and equal to them where they are
    equal: for the 32-bit and the 64-bit range unless both limits are the
    largest number, for the gaussian and the triangle range unless the limits
    are further apart than an [int] can tell. *)
Theorem random_ranges_half_open state :
  wf state ->
  (forall low high, in_u 32 low -> in_u 32 high -> ~ (low = 2 ^ 32 - 1 /\ high = 2 ^ 32 - 1) -> gives (random32_range low high state) low high) /\
  (forall low high, in_u 64 low -> in_u 64 high -> ~ (low = 2 ^ 64 - 1 /\ high = 2 ^ 64 - 1) -> gives (random64_range low high state) low high) /\
  (forall low high, - 2 ^ 31 <= low < 2 ^ 31 -> - 2 ^ 31 <= high < 2 ^ 31 -> Z.abs (high - low) < 2 ^ 31 ->
    gives (random32_gaussian_range low high state) low high /\ gives (random32_triangle_range low high state) low high).
Proof.
  intros Hwf. split; [|split].
  - intros low high Hl Hh Hne. apply (range_gives 32 random32); try done. by apply random32_wf.
  - intros low high Hl Hh Hne. apply (range_gives 64 random64); try done. by apply random64_wf.
  - intros low high Hl Hh Hd. unfold random32_gaussian_range, random32_triangle_range, gives.
    destruct (random32_wf state Hwf) as (a & s1 & -> & Ha & H1). destruct (random32_wf s1 H1) as (b & s2 & E2 & Hb & H2).
    destruct (random32_wf s2 H2) as (c & s3 & E3 & Hc & H3). destruct (random32_wf s3 H3) as (d & s4 & E4 & Hd' & H4).
    cbn [mbind option_bind]. rewrite E2. cbn [mbind option_bind]. rewrite E3. cbn [mbind option_bind]. rewrite E4. cbn [mbind option_bind].
    unfold in_u in *. split; (edestruct (scaled_gives low high) as (r & -> & Hr); [| | | |cbn [mbind option_bind]; do 2 eexists; split; [done|]; by split]); try done.
    + rewrite wrap_small, Z.shiftr_div_pow2 by lia. Z.div_mod_to_equations; lia.
    + by apply wrap_range.
Qed.
End generator.

(** ** The buffers of the threads *)
Section pool.
Context `{HU : !UndefinedShift}.

(** What seeding takes from the outside: the address of the buffer, the system
    time and the time at each cell. *)
Record clock := mk_clock { address : Z; time_system : Z; time_current : nat -> Z }.

Record pool := mk_pool {
  random_state : list (list Z); random_available_state : list nat; thread_state : gmap nat nat }.

Definition random_seed_buffer (e : clock) : list Z :=
  map (fun i => Z.land (Z.lxor (address e + 4 * Z.of_nat i)
                               (time_system e + time_current e i + Z.of_nat i * RANDOM_HIGH_LIMIT * RANDOM_LOW_LIMIT)) 0xFFFFFFFF)
    (seq 0 (Z.to_nat RANDOM_STATE_SIZE)).

(** The number of the buffer is its place in [random_state]. *)
Definition random_allocate_buffer (e : clock) (p : pool) : nat * pool :=
  (length (random_state p), mk_pool (random_state p ++ [random_seed_buffer e ++ [0]]) (random_available_state p) (thread_state p)).

Definition array_push_available (b : nat) (p : pool) : pool :=
  mk_pool (random_state p) (random_available_state p ++ [b]) (thread_state p).

Fixpoint prealloc_loop (prealloc : list clock) (p : pool) : pool :=
  match prealloc with
  | [] => p
  | e :: prealloc => let '(b, p) := random_allocate_buffer e p in prealloc_loop prealloc (array_push_available b p)
  end.

Definition internal_random_initialize (prealloc : list clock) : pool := prealloc_loop prealloc (mk_pool [] [] ∅).

Definition random_thread_initialize (e : clock) (thread : nat) (p : pool) : nat * pool :=
  let '(b, p) :=
    match last (random_available_state p) with
    | None => let '(b, p) := random_allocate_buffer e p in (b, array_push_available b p)
    | Some b => (b, mk_pool (random_state p) (take (length (random_available_state p) - 1) (random_available_state p)) (thread_state p))
    end in
  (b, mk_pool (random_state p) (random_available_state p) (<[thread := b]> (thread_state p))).

Definition random_thread_finalize (thread : nat) (p : pool) : pool :=
  match thread_state p !! thread with
  | None => p
  | Some b => let p := array_push_available b p in mk_pool (random_state p) (random_available_state p) (delete thread (thread_state p))
  end.

(** [random32] of a thread, with the buffer that the thread has or gets. *)
Definition random32_in_thread (e : clock) (thread : nat) (p : pool) : option (Z * pool) :=
  let '(b, p) := match thread_state p !! thread with Some b => (b, p) | None => random_thread_initialize e thread p end in
  state ← random_state p !! b;
  '(r, state) ← random_from_state state;
  Some (r, mk_pool (<[b := state]> (random_state p)) (random_available_state p) (thread_state p)).

(** Threads use and leave the generator, at most [n] at a time. *)
Inductive reachable (prealloc : list clock) : pool -> Prop :=
  | reach_start : reachable prealloc (internal_random_initialize prealloc)
  | reach_use e thread p r p' :
      reachable prealloc p -> (thread_state p !! thread = None -> (size (thread_state p) < length prealloc)%nat) ->
      random32_in_thread e thread p = Some (r, p') -> reachable prealloc p'
  | reach_finalize thread p : reachable prealloc p -> reachable prealloc (random_thread_finalize thread p).

(** Every buffer is either available or with one thread. *)
Definition held (p : pool) : list nat := (map_to_list (thread_state p)).*2.

Definition pool_inv (n : nat) (p : pool) : Prop :=
  random_available_state p ++ held p ≡ₚ seq 0 n /\ length (random_state p) = n /\ Forall wf (random_state p).

Lemma seeded_wf e : wf (random_seed_buffer e ++ [0]).
Proof.
  assert (length (random_seed_buffer e) = Z.to_nat 1391) as Hl by (unfold random_seed_buffer; by rewrite length_map, length_seq).
  split; [rewrite length_app, Hl; cbn [length]; lia|]. split.
  - apply Forall_app. split; [|by repeat constructor]. apply Forall_map, Forall_forall. intros i _. unfold compose.
    apply land_ones_in_u; done.
  - exists 0. split; [|done]. unfold rd, RANDOM_STATE_SIZE. cbn [Z.leb Z.compare]. rewrite <- Hl. by apply list_lookup_middle.
Qed.

Lemma prealloc_loop_inv prealloc k p :
  random_available_state p = seq 0 k -> thread_state p = ∅ -> length (random_state p) = k -> Forall wf (random_state p) ->
  pool_inv (k + length prealloc) (prealloc_loop prealloc p).
Proof.
  revert k p. induction prealloc as [|e prealloc IH]; intros k p Ha Ht Hl Hf; cbn [prealloc_loop length].
  - rewrite Nat.add_0_r. split; [|done]. unfold held. by rewrite Ha, Ht, map_to_list_empty, app_nil_r.
  - rewrite <- Nat.add_succ_comm. apply IH; cbn; [rewrite Ha, Hl; symmetry; apply (seq_S k 0)|done|rewrite length_app; simpl; lia|].
    apply Forall_app. split; [done|]. constructor; [apply seeded_wf|constructor].
Qed.

Lemma held_size n p : pool_inv n p -> (length (random_available_state p) + size (thread_state p) = n)%nat.
Proof.
  intros (Hp & _). apply Permutation_length in Hp. rewrite length_app, length_seq in Hp. unfold held in Hp.
  by rewrite length_fmap, length_map_to_list in Hp.
Qed.

Lemma thread_initialize_inv n e t p b p' :
  pool_inv n p -> thread_state p !! t = None -> (size (thread_state p) < n)%nat -> random_thread_initialize e t p = (b, p') ->
  pool_inv n p' /\ thread_state p' = <[t := b]> (thread_state p) /\ random_state p' = random_state p.
Proof.
  intros Hinv Ht Hs. pose proof (held_size n p Hinv) as Hsz. destruct Hinv as (Hp & Hl & Hf). unfold random_thread_initialize.
  destruct (random_available_state p) as [|b0 avail _] eqn:Ea using rev_ind; [simpl in Hsz; lia|].
  rewrite last_snoc. intros [= <- <-]. cbn. split; [|done]. split; [|done]. unfold held in *. cbn.
  rewrite map_to_list_insert by done. rewrite length_app. cbn [length]. rewrite Nat.add_sub, take_app_length. cbn.
  rewrite <- Hp, <- app_assoc. done.
Qed.

Lemma buffer_in_pool n p t b : pool_inv n p -> thread_state p !! t = Some b -> exists s, random_state p !! b = Some s /\ wf s.
Proof.
  intros (Hp & Hl & Hf) Hb. assert (b ∈ seq 0 n) as Hin%elem_of_seq.
  { rewrite <- Hp. apply elem_of_app. right. unfold held. apply list_elem_of_fmap. exists (t, b). split; [done|]. by apply elem_of_map_to_list. }
  destruct (lookup_lt_is_Some_2 (random_state p) b) as [s E]; [lia|]. exists s. split; [done|]. by eapply Forall_lookup_1 in Hf.
Qed.

Lemma random32_in_thread_inv n e t p :
  pool_inv n p -> (thread_state p !! t = None -> (size (thread_state p) < n)%nat) ->
  exists r p' b s, random32_in_thread e t p = Some (r, p') /\ pool_inv n p' /\ in_u 32 r /\
    thread_state p' = <[t := b]> (thread_state p) /\ random_state p' = <[b := s]> (random_state p) /\ thread_state p' !! t = Some b.
Proof.
  intros Hinv Hs. unfold random32_in_thread.
  assert (exists b p1, match thread_state p !! t with Some b => (b, p) | None => random_thread_initialize e t p end = (b, p1) /\
    pool_inv n p1 /\ thread_state p1 = <[t := b]> (thread_state p) /\ random_state p1 = random_state p) as (b & p1 & -> & Hinv1 & Ht & Hst).
  { destruct (thread_state p !! t) as [b|] eqn:Et.
    - exists b, p. do 2 (split; [done|]). by rewrite insert_id.
    - destruct (random_thread_initialize e t p) as [b p1] eqn:E. exists b, p1. split; [done|]. apply (thread_initialize_inv n e t p); auto. }
  assert (thread_state p1 !! t = Some b) as Hb by (by rewrite Ht, lookup_insert_eq).
  destruct (buffer_in_pool n p1 t b Hinv1 Hb) as (s & -> & Hwf). cbn [mbind option_bind].
  destruct (random32_wf s Hwf) as (r & s' & E & Hr & Hwf'). unfold random32 in E. rewrite E. cbn [mbind option_bind].
  exists r. eexists. exists b, s'. split; [done|]. cbn. rewrite Ht, Hst. split; [|split; [done|split; [done|split; [done|by rewrite lookup_insert_eq]]]].
  destruct Hinv1 as (H1 & H2 & H3). rewrite Ht, Hst in *. split; [unfold held in *; cbn; by rewrite <- Ht|]. cbn. split; [by rewrite length_insert|].
  by apply Forall_insert.
Qed.

Lemma thread_finalize_inv n t p : pool_inv n p -> pool_inv n (random_thread_finalize t p).
Proof.
  intros (Hp & Hl & Hf). unfold random_thread_finalize. destruct (thread_state p !! t) as [b|] eqn:E; [|done].
  split; [|done]. unfold held in *. cbn. rewrite <- Hp, <- app_assoc. apply Permutation_app_head. cbn.
  pose proof (map_to_list_delete (thread_state p) t b E) as Hd. by rewrite <- Hd.
Qed.

Lemma reachable_inv prealloc p : reachable prealloc p -> pool_inv (length prealloc) p.
Proof.
  induction 1 as [|e t p r p' _ IH Hs E|t p _ IH].
  - by apply (prealloc_loop_inv prealloc 0).
  - destruct (random32_in_thread_inv _ e t p IH Hs) as (r' & p2 & b & s & E' & Hinv & _). rewrite E in E'. by injection E' as <- <-.
  - by apply thread_finalize_inv.
Qed.

Lemma pool_inv_exclusive n p t1 t2 b :
  pool_inv n p -> thread_state p !! t1 = Some b -> thread_state p !! t2 = Some b -> t1 = t2.
Proof.
  intros (Hp & _) H1 H2. destruct (decide (t1 = t2)) as [|Hne]; [done|]. exfalso.
  pose proof (NoDup_seq 0 n) as Hn. rewrite <- Hp in Hn. apply NoDup_app in Hn as (_ & _ & Hn). unfold held in Hn.
  rewrite <- (map_to_list_delete _ _ _ H1) in Hn. cbn in Hn. apply NoDup_cons in Hn as [Hn _]. apply Hn.
  apply list_elem_of_fmap. exists (t2, b). split; [done|]. apply elem_of_map_to_list. by rewrite lookup_delete_ne.
Qed.

(** C33: while at most as many threads use the generator at a time as buffers
    were allocated in advance, no two threads have the same buffer, every call
    gives a 32-bit number, and a call changes neither the buffer of another
    thread nor which buffer it has. *)
Theorem random_threads_exclusive prealloc p :
  reachable prealloc p ->
  (forall t1 t2 b, thread_state p !! t1 = Some b -> thread_state p !! t2 = Some b -> t1 = t2) /\
  (forall e t, (thread_state p !! t = None -> (size (thread_state p) < length prealloc)%nat) ->
    exists r p', random32_in_thread e t p = Some (r, p') /\ in_u 32 r /\
      forall t' b, t' <> t -> thread_state p !! t' = Some b ->
        thread_state p' !! t' = Some b /\ random_state p' !! b = random_state p !! b).
Proof.
  intros Hr%reachable_inv. split; [intros t1 t2 b; intros H1 H2; exact (pool_inv_exclusive _ p t1 t2 b Hr H1 H2)|]. intros e t Hs.
  destruct (random32_in_thread_inv _ e t p Hr Hs) as (r & p' & b & s & E & Hinv & Hu & Ht & Hst & Hb).
  exists r, p'. split; [done|]. split; [done|]. intros t' b' Hne Hb'.
  assert (thread_state p' !! t' = Some b') as Hb'' by (by rewrite Ht, lookup_insert_ne).
  split; [done|]. rewrite Hst. apply list_lookup_insert_ne. intros ->. apply Hne. by apply (pool_inv_exclusive _ p' t' t b' Hinv).
Qed.
End pool.

#[local] Instance masked : UndefinedShift := fun n => Z.shiftl 26 (n mod 32).

Definition sample : list Z := random_seed_buffer (mk_clock 4096 77 (fun i => Z.of_nat i)) ++ [0].

Lemma random_sample_wf : wf sample.
Proof. apply seeded_wf. Qed.

Lemma sample_index : rd sample RANDOM_STATE_SIZE = Some 0.
Proof. vm_compute. reflexivity. Qed.

Lemma random_from_state_recurrence_witness :
  exists r state', random_from_state sample = Some (r, state') /\ in_u 32 r /\ rd state' RANDOM_STATE_SIZE = Some ((0 - 1) mod 1391).
Proof.
  pose proof (random_from_state_recurrence sample 0 random_sample_wf sample_index) as H. cbv zeta in H.
  destruct H as (state' & E & _ & H & Hi & _). eexists. exists state'. split; [exact E|]. split; [exact H|]. exact Hi.
Defined.

Lemma random_ranges_half_open_witness : gives (random32_range 9 5 sample) 9 5.
Proof.
  destruct (random_ranges_half_open sample random_sample_wf) as [H _]. apply H; [vm_compute; intuition congruence..|intros [H0 _]; discriminate H0].
Defined.

Definition two_clocks : list clock := [mk_clock 4096 1 Z.of_nat; mk_clock 16384 5 Z.of_nat].

Lemma random_threads_exclusive_witness :
  reachable two_clocks (internal_random_initialize two_clocks) /\
  exists r p', random32_in_thread (mk_clock 0 0 Z.of_nat) 7 (internal_random_initialize two_clocks) = Some (r, p') /\ in_u 32 r.
Proof.
  split; [apply reach_start|].
  destruct (random_threads_exclusive two_clocks _ (reach_start two_clocks)) as [_ H].
  destruct (H (mk_clock 0 0 Z.of_nat) 7%nat) as (r & p' & E & Hu & _); [intros _; vm_compute; lia|]. by exists r, p'.
Defined.

(** Without a buffer allocated in advance, the first thread takes a new one and
    leaves it among the available ones, where the second thread takes it. *)
Example random_threads_share :
  let e := mk_clock 4096 1 Z.of_nat in
  match random32_in_thread e 1 (internal_random_initialize []) with
  | Some (_, p) => match random32_in_thread e 2 p with
                   | Some (_, p) => thread_state p !! 1%nat = Some 0%nat /\ thread_state p !! 2%nat = Some 0%nat
                   | None => False
                   end
  | None => False
  end.
Proof. by vm_compute. Qed.

(** Both limits the largest number: [low + 1] is 0, and the difference is a divisor. *)
Example random32_range_divides_by_zero : random32_range 0xFFFFFFFF 0xFFFFFFFF sample = None.
Proof. by vm_compute. Qed.
End Random.
