(* ===== verification/Digest.v ===== *)
(** * Message digests

    What MD5 and SHA-2 share: a compression function that is applied to one
    block of a message after the other, the bytes that do not fill a block yet,
    and the padding that completes the last block. *)
From S2P Require Import Prelude Str StrBuf StrNum.

Module Digest.
Import Str StrBuf StrNum.

(** ** Blocks *)
Section blocks.
Context {A : Type} (compress : A -> list Z -> A) (size : nat) (Hsize : (0 < size)%nat).

Fixpoint absorb_blocks (n : nat) (s : A) (m : list Z) : A :=
  match n with O => s | S n => absorb_blocks n (compress s (take size m)) (drop size m) end.

(** The state behind the full blocks of a message, and the bytes behind them. *)
Definition absorb (s : A) (m : list Z) : A := absorb_blocks (length m / size) s m.
Definition leftover (m : list Z) : list Z := drop (size * (length m / size)) m.

Lemma absorb_short s m : (length m < size)%nat -> absorb s m = s /\ leftover m = m.
Proof.
  intros H. unfold absorb, leftover. rewrite Nat.div_small by done. by rewrite Nat.mul_0_r.
Qed.

Lemma absorb_block s b m :
  length b = size -> absorb s (b ++ m) = absorb (compress s b) m /\ leftover (b ++ m) = leftover m.
Proof.
  intros Hb. unfold absorb, leftover.
  assert (length (b ++ m) / size = 1 + length m / size)%nat as ->.
  { rewrite length_app, Hb. rewrite <- (Nat.mul_1_l size) at 1. rewrite Nat.div_add_l by lia. lia. }
  cbn [absorb_blocks Nat.add]. rewrite <- Hb at 2 3. rewrite take_app_length, drop_app_length. split; [done|].
  rewrite drop_app_ge by lia. f_equal. lia.
Qed.

(** Every message is short or starts with a block. *)
Lemma blocks_ind (P : list Z -> Prop) :
  (forall m, (length m < size)%nat -> P m) ->
  (forall b m, length b = size -> P m -> P (b ++ m)) -> forall m, P m.
Proof.
  intros Hshort Hblock m. remember (length m) as n eqn:En. assert (length m <= n)%nat as Hn by lia. clear En.
  revert m Hn. induction n as [|n IH]; intros m Hn; [apply Hshort; lia|].
  destruct (decide (length m < size)%nat) as [H|H]; [by apply Hshort|].
  rewrite <- (take_drop size m). apply Hblock; [rewrite length_take; lia|]. apply IH. rewrite length_drop. lia.
Qed.

Lemma absorb_app s m1 m2 :
  absorb s (m1 ++ m2) = absorb (absorb s m1) (leftover m1 ++ m2) /\ leftover (m1 ++ m2) = leftover (leftover m1 ++ m2).
Proof.
  revert s. pattern m1. apply blocks_ind; clear m1.
  - intros m Hm s. by destruct (absorb_short s m Hm) as [-> ->].
  - intros b m Hb IH s. rewrite <- app_assoc. destruct (absorb_block s b (m ++ m2) Hb) as [-> ->].
    destruct (absorb_block s b m Hb) as [-> ->]. apply IH.
Qed.

Lemma length_leftover m : length (leftover m) = (length m mod size)%nat.
Proof. unfold leftover. rewrite length_drop. pose proof (Nat.div_mod_eq (length m) size). lia. Qed.

Lemma length_leftover_lt m : (length (leftover m) < size)%nat.
Proof. rewrite length_leftover. apply Nat.mod_upper_bound. lia. Qed.

Lemma leftover_aligned m : (length m mod size = 0)%nat -> leftover m = [].
Proof. intros H. apply length_zero_iff_nil. by rewrite length_leftover. Qed.

Lemma leftover_end (m data : list Z) :
  m `suffix_of` data ->
  sub data (len data - len (leftover m)) (len data - (len data - len (leftover m))) = leftover m.
Proof.
  intros [pre ->]. unfold leftover. set (n := (size * (length m / size))%nat).
  assert (len (pre ++ m) - len (drop n m) = Z.of_nat (length (pre ++ take n m))) as ->.
  { unfold len. rewrite !length_app, length_take, length_drop. lia. }
  assert (drop (length (pre ++ take n m)) (pre ++ m) = drop n m) as E.
  { rewrite <- (take_drop n m) at 2. by rewrite app_assoc, drop_app_length. }
  unfold sub. rewrite Nat2Z.id, E. apply take_ge.
  unfold len. rewrite !length_app, length_take, length_drop. lia.
Qed.

(** *** Padding

    A one bit, zeros up to [field] bytes before the end of a block, and the
    length of the message, which fills these bytes. *)
Definition zeros (field n : nat) : nat := (2 * size - 1 - field - n mod size) mod size.
Definition padding (field n : nat) : list Z := 128 :: replicate (zeros field n) 0.

Definition hash (field : nat) (encode : Z -> list Z) (init : A) (m : list Z) : A :=
  absorb init (m ++ padding field (length m) ++ encode (8 * len m)).

Lemma padding_aligned field (m : list Z) e :
  (field < size)%nat -> length e = field ->
  (length (m ++ padding field (length m) ++ e) mod size = 0)%nat.
Proof.
  intros Hf He. unfold padding, zeros. rewrite !length_app. cbn [length]. rewrite length_replicate, He.
  pose proof (Nat.mod_upper_bound (length m) size ltac:(lia)). pose proof (Nat.div_mod_eq (length m) size).
  set (r := (length m mod size)%nat) in *. set (q := (length m / size)%nat) in *.
  assert (forall a b, (a < size)%nat -> ((a + b * size) mod size = a)%nat) as Hmod
    by (intros a b Ha; rewrite Nat.Div0.mod_add; by apply Nat.mod_small).
  destruct (decide (size <= 2 * size - 1 - field - r)%nat).
  - replace (2 * size - 1 - field - r)%nat with ((size - 1 - field - r) + 1 * size)%nat by lia.
    rewrite Hmod by lia.
    replace (length m + (S (size - 1 - field - r) + field))%nat with (0 + (q + 1) * size)%nat by lia. apply Hmod. lia.
  - rewrite (Nat.mod_small (2 * size - 1 - field - r)) by lia.
    replace (length m + (S (2 * size - 1 - field - r) + field))%nat with (0 + (q + 2) * size)%nat by lia. apply Hmod. lia.
Qed.

End blocks.

(** Two compression functions that agree on blocks of bytes, from states that
    satisfy an invariant of the first. *)
Section agree.
Context {A : Type} (compress compress' : A -> list Z -> A) (size : nat) (Hsize : (0 < size)%nat) (P : A -> Prop).
Context (Hagree : forall s b, P s -> length b = size -> bytes_ok b -> compress s b = compress' s b /\ P (compress s b)).

Lemma absorb_agree s m :
  P s -> bytes_ok m -> absorb compress size s m = absorb compress' size s m /\ P (absorb compress size s m).
Proof.
  revert s. pattern m. apply (blocks_ind size Hsize); clear m.
  - intros m Hm s Hs _. by rewrite (proj1 (absorb_short compress size s m Hm)), (proj1 (absorb_short compress' size s m Hm)).
  - intros b m Hb IH s Hs [Hbb Hm]%Forall_app.
    rewrite (proj1 (absorb_block compress size Hsize s b m Hb)), (proj1 (absorb_block compress' size Hsize s b m Hb)).
    destruct (Hagree s b Hs Hb Hbb) as [<- HP]. by apply IH.
Qed.

Lemma hash_agree field encode init m :
  P init -> (forall v, bytes_ok (encode v)) -> bytes_ok m ->
  hash compress size field encode init m = hash compress' size field encode init m /\
  P (hash compress size field encode init m).
Proof.
  intros Hi He Hm. apply absorb_agree; [done|]. apply Forall_app; split; [done|]. apply Forall_app; split; [|done].
  constructor; [done|]. by apply Forall_replicate.
Qed.
End agree.

(** ** Bytes and hexadecimal text *)

Lemma le_bytes_app a b v : le_bytes (a + b) v = le_bytes a v ++ le_bytes b (v / 2 ^ (8 * Z.of_nat a)).
Proof.
  revert v. induction a as [|a IH]; intros v; cbn [Nat.add le_bytes app].
  - change (8 * Z.of_nat 0) with 0. by rewrite Z.pow_0_r, Z.div_1_r.
  - rewrite IH. do 3 f_equal. rewrite Z.div_div by (try apply pow2_pos; lia).
    replace (8 * Z.of_nat (S a)) with (8 + 8 * Z.of_nat a) by lia. by rewrite Z.pow_add_r by lia.
Qed.

Lemma le_bytes_wrap n v : le_bytes n (wrap (8 * Z.of_nat n) v) = le_bytes n v.
Proof.
  revert v. induction n as [|n IH]; intros v; [done|]. cbn [le_bytes]. rewrite <- (IH (v / 256)).
  replace (8 * Z.of_nat (S n)) with (8 + 8 * Z.of_nat n) by lia. unfold wrap. rewrite Z.pow_add_r by lia. change (2 ^ 8) with 256.
  pose proof (pow2_pos (8 * Z.of_nat n) ltac:(lia)) as Hp. rewrite Z.rem_mul_r by lia.
  rewrite (Z.mul_comm 256), Z.mod_add, Z.div_add, (Z.div_small (v mod 256)), Z.add_0_l by (try apply Z.mod_pos_bound; lia).
  by rewrite Z.mod_mod by lia.
Qed.

Lemma sub_next s i n : 0 <= i < len s -> 0 <= n -> sub s i (1 + n) = at_ s i :: sub s (i + 1) n.
Proof.
  intros Hi Hn. unfold len in Hi. unfold sub, at_. replace (Z.to_nat (1 + n)) with (S (Z.to_nat n)) by lia.
  replace (Z.to_nat (i + 1)) with (S (Z.to_nat i)) by lia.
  destruct (lookup_lt_is_Some_2 s (Z.to_nat i)) as [v Ev]; [lia|].
  by rewrite (drop_S _ _ _ Ev), (list_lookup_total_correct _ _ _ Ev).
Qed.

(** Two digits a byte. *)
Definition hex_byte (b : Z) : list Z := [digit_char (b / 16); digit_char (b mod 16)].
Definition hex_text (bs : list Z) : list Z := concat (map hex_byte bs).

Fixpoint hex_digits (k : nat) (v : Z) : list Z :=
  match k with O => [] | S k => hex_digits k (v / 16) ++ [digit_char (v mod 16)] end.

Lemma hex_digits_0 k : hex_digits k 0 = replicate k 48.
Proof.
  induction k as [|k IH]; [done|]. cbn [hex_digits]. change (0 / 16) with 0. rewrite IH.
  change [digit_char (0 mod 16)] with (replicate 1 48). rewrite <- replicate_add. f_equal. lia.
Qed.

Lemma print_digits k fuel v :
  (k <= fuel)%nat -> (0 < k)%nat -> 0 <= v < 16 ^ Z.of_nat k ->
  replicate (k - length (digits 16 fuel v)) 48 ++ digits 16 fuel v = hex_digits k v.
Proof.
  revert fuel v. induction k as [|k IH]; intros fuel v Hf Hk Hv; [lia|]. destruct fuel as [|fuel]; [lia|].
  cbn [digits hex_digits]. rewrite Nat2Z.inj_succ, Z.pow_succ_r in Hv by lia.
  destruct (Z.eqb_spec (v / 16) 0) as [E|E].
  - rewrite E, hex_digits_0. cbn [app length]. by rewrite Nat.sub_succ, Nat.sub_0_r.
  - assert (0 <= v / 16 < 16 ^ Z.of_nat k) by (split; [apply Z.div_pos|apply Z.div_lt_upper_bound]; lia).
    assert (0 < k)%nat by (destruct k; [change (16 ^ Z.of_nat 0) with 1 in *; lia|lia]).
    rewrite <- (IH fuel) by (done || lia). rewrite app_assoc. do 2 f_equal. rewrite length_app. cbn [length]. f_equal. lia.
Qed.

Lemma hex_digits_bytes k v : hex_digits (2 * k) v = hex_text (reverse (le_bytes k v)).
Proof.
  revert v. induction k as [|k IH]; intros v; [done|]. replace (2 * S k)%nat with (S (S (2 * k))) by lia.
  cbn [hex_digits le_bytes]. rewrite reverse_cons. unfold hex_text. rewrite map_app, concat_app. fold (hex_text (reverse (le_bytes k (v / 256)))).
  rewrite <- IH, Z.div_div by lia. rewrite <- app_assoc. f_equal. cbn [map concat app]. unfold hex_byte.
  assert (v mod 256 / 16 = v / 16 mod 16) as -> by (Z.div_mod_to_equations; lia).
  assert ((v mod 256) mod 16 = v mod 16) as -> by (Z.div_mod_to_equations; lia). done.
Qed.

Lemma print_x16_bytes v : 0 <= v < 2 ^ 64 -> print_x16 v = hex_text (reverse (le_bytes 8 v)).
Proof. intros Hv. rewrite <- hex_digits_bytes. apply (print_digits 16 64); [lia|lia|exact Hv]. Qed.

(** A word whose bytes are given in big-endian order. *)
Lemma print_x16_swap bs : bytes_ok bs -> length bs = 8%nat -> print_x16 (byteorder_swap64 (le_uint bs)) = hex_text bs.
Proof.
  intros Hb Hl. rewrite print_x16_bytes by apply (byteorder_swap_range 8). unfold byteorder_swap64.
  rewrite byteorder_swap_bytes, reverse_involutive. f_equal. rewrite <- Hl. by apply le_bytes_uint.
Qed.

Lemma from_words_text buffer words :
  Forall (fun v => 0 <= v < 2 ^ 64) words -> Z.of_nat (16 * length words) < len buffer ->
  let '(buf, n) := from_words buffer words in
  len buf = len buffer /\ n = Z.of_nat (16 * length words) /\ sub buf 0 n = words_text words.
Proof.
  intros Hw Hb. destruct (words_text_spec words Hw) as (Hl & _ & _). unfold from_words, snprintf.
  replace (len buffer =? 0) with false by lia. fold (words_text words).
  assert (len (words_text words) = Z.of_nat (16 * length words)) as Hlen by (unfold len; lia).
  destruct (copy_whole buffer (words_text words)) as [E1 E2]; [lia|].
  replace (len buffer <=? len (words_text words)) with false by lia. by rewrite E1, E2, Hlen.
Qed.
End Digest.
