(* ===== verification/Md5.v ===== *)
(** * MD5 ([src/library/foundation_lib/foundation/md5.c])

    The digest of a message that comes in pieces, and the reference: the loop of
    RFC 1321 over the padded message. *)
From S2P Require Import Prelude Str StrBuf StrNum Digest.

Module Md5.
Import Str StrBuf StrNum Digest.

(** ** The transformation of one block *)

Definition MD5_F1 (x y z : Z) : Z := Z.lxor z (Z.land x (Z.lxor y z)).
Definition MD5_F2 (x y z : Z) : Z := Z.lxor y (Z.land z (Z.lxor x y)).
Definition MD5_F3 (x y z : Z) : Z := Z.lxor (Z.lxor x y) z.
Definition MD5_F4 (x y z : Z) : Z := Z.lxor y (Z.lor x (u32 (Z.lnot z))).

(** The new value of the variable [a]. *)
Definition MD5_STEP (f : Z -> Z -> Z -> Z) (a b c d t s : Z) : Z :=
  let a := u32 (a + (f b c d + t)) in
  let a := rotl 32 a s in
  u32 (a + b).

(** [uint32_t state[4]] *)
Definition words : Type := Z * Z * Z * Z.

Definition word_bytes (v : Z) : list Z :=
  [Z.land v 0xff; Z.land (Z.shiftr v 8) 0xff; Z.land (Z.shiftr v 16) 0xff; Z.land (Z.shiftr v 24) 0xff].
Definition md5_encode (src : list Z) : list Z := concat (map word_bytes src).

(** [x[i]] of the decoded block. *)
Definition md5_decode (src : list Z) (i : Z) : Z :=
  let j := 4 * i in
  Z.lor (Z.lor (Z.lor (at_ src j) (shl 32 (at_ src (j + 1)) 8)) (shl 32 (at_ src (j + 2)) 16)) (shl 32 (at_ src (j + 3)) 24).

Definition round1 (x : Z -> Z) '((a, b, c, d) : words) : words :=
  let a := MD5_STEP MD5_F1 a b c d (u32 (x 0 + 0xd76aa478)) 7 in
  let d := MD5_STEP MD5_F1 d a b c (u32 (x 1 + 0xe8c7b756)) 12 in
  let c := MD5_STEP MD5_F1 c d a b (u32 (x 2 + 0x242070db)) 17 in
  let b := MD5_STEP MD5_F1 b c d a (u32 (x 3 + 0xc1bdceee)) 22 in
  let a := MD5_STEP MD5_F1 a b c d (u32 (x 4 + 0xf57c0faf)) 7 in
  let d := MD5_STEP MD5_F1 d a b c (u32 (x 5 + 0x4787c62a)) 12 in
  let c := MD5_STEP MD5_F1 c d a b (u32 (x 6 + 0xa8304613)) 17 in
  let b := MD5_STEP MD5_F1 b c d a (u32 (x 7 + 0xfd469501)) 22 in
  let a := MD5_STEP MD5_F1 a b c d (u32 (x 8 + 0x698098d8)) 7 in
  let d := MD5_STEP MD5_F1 d a b c (u32 (x 9 + 0x8b44f7af)) 12 in
  let c := MD5_STEP MD5_F1 c d a b (u32 (x 10 + 0xffff5bb1)) 17 in
  let b := MD5_STEP MD5_F1 b c d a (u32 (x 11 + 0x895cd7be)) 22 in
  let a := MD5_STEP MD5_F1 a b c d (u32 (x 12 + 0x6b901122)) 7 in
  let d := MD5_STEP MD5_F1 d a b c (u32 (x 13 + 0xfd987193)) 12 in
  let c := MD5_STEP MD5_F1 c d a b (u32 (x 14 + 0xa679438e)) 17 in
  let b := MD5_STEP MD5_F1 b c d a (u32 (x 15 + 0x49b40821)) 22 in
  (a, b, c, d).

Definition round2 (x : Z -> Z) '((a, b, c, d) : words) : words :=
  let a := MD5_STEP MD5_F2 a b c d (u32 (x 1 + 0xf61e2562)) 5 in
  let d := MD5_STEP MD5_F2 d a b c (u32 (x 6 + 0xc040b340)) 9 in
  let c := MD5_STEP MD5_F2 c d a b (u32 (x 11 + 0x265e5a51)) 14 in
  let b := MD5_STEP MD5_F2 b c d a (u32 (x 0 + 0xe9b6c7aa)) 20 in
  let a := MD5_STEP MD5_F2 a b c d (u32 (x 5 + 0xd62f105d)) 5 in
  let d := MD5_STEP MD5_F2 d a b c (u32 (x 10 + 0x02441453)) 9 in
  let c := MD5_STEP MD5_F2 c d a b (u32 (x 15 + 0xd8a1e681)) 14 in
  let b := MD5_STEP MD5_F2 b c d a (u32 (x 4 + 0xe7d3fbc8)) 20 in
  let a := MD5_STEP MD5_F2 a b c d (u32 (x 9 + 0x21e1cde6)) 5 in
  let d := MD5_STEP MD5_F2 d a b c (u32 (x 14 + 0xc33707d6)) 9 in
  let c := MD5_STEP MD5_F2 c d a b (u32 (x 3 + 0xf4d50d87)) 14 in
  let b := MD5_STEP MD5_F2 b c d a (u32 (x 8 + 0x455a14ed)) 20 in
  let a := MD5_STEP MD5_F2 a b c d (u32 (x 13 + 0xa9e3e905)) 5 in
  let d := MD5_STEP MD5_F2 d a b c (u32 (x 2 + 0xfcefa3f8)) 9 in
  let c := MD5_STEP MD5_F2 c d a b (u32 (x 7 + 0x676f02d9)) 14 in
  let b := MD5_STEP MD5_F2 b c d a (u32 (x 12 + 0x8d2a4c8a)) 20 in
  (a, b, c, d).

Definition round3 (x : Z -> Z) '((a, b, c, d) : words) : words :=
  let a := MD5_STEP MD5_F3 a b c d (u32 (x 5 + 0xfffa3942)) 4 in
  let d := MD5_STEP MD5_F3 d a b c (u32 (x 8 + 0x8771f681)) 11 in
  let c := MD5_STEP MD5_F3 c d a b (u32 (x 11 + 0x6d9d6122)) 16 in
  let b := MD5_STEP MD5_F3 b c d a (u32 (x 14 + 0xfde5380c)) 23 in
  let a := MD5_STEP MD5_F3 a b c d (u32 (x 1 + 0xa4beea44)) 4 in
  let d := MD5_STEP MD5_F3 d a b c (u32 (x 4 + 0x4bdecfa9)) 11 in
  let c := MD5_STEP MD5_F3 c d a b (u32 (x 7 + 0xf6bb4b60)) 16 in
  let b := MD5_STEP MD5_F3 b c d a (u32 (x 10 + 0xbebfbc70)) 23 in
  let a := MD5_STEP MD5_F3 a b c d (u32 (x 13 + 0x289b7ec6)) 4 in
  let d := MD5_STEP MD5_F3 d a b c (u32 (x 0 + 0xeaa127fa)) 11 in
  let c := MD5_STEP MD5_F3 c d a b (u32 (x 3 + 0xd4ef3085)) 16 in
  let b := MD5_STEP MD5_F3 b c d a (u32 (x 6 + 0x04881d05)) 23 in
  let a := MD5_STEP MD5_F3 a b c d (u32 (x 9 + 0xd9d4d039)) 4 in
  let d := MD5_STEP MD5_F3 d a b c (u32 (x 12 + 0xe6db99e5)) 11 in
  let c := MD5_STEP MD5_F3 c d a b (u32 (x 15 + 0x1fa27cf8)) 16 in
  let b := MD5_STEP MD5_F3 b c d a (u32 (x 2 + 0xc4ac5665)) 23 in
  (a, b, c, d).

Definition round4 (x : Z -> Z) '((a, b, c, d) : words) : words :=
  let a := MD5_STEP MD5_F4 a b c d (u32 (x 0 + 0xf4292244)) 6 in
  let d := MD5_STEP MD5_F4 d a b c (u32 (x 7 + 0x432aff97)) 10 in
  let c := MD5_STEP MD5_F4 c d a b (u32 (x 14 + 0xab9423a7)) 15 in
  let b := MD5_STEP MD5_F4 b c d a (u32 (x 5 + 0xfc93a039)) 21 in
  let a := MD5_STEP MD5_F4 a b c d (u32 (x 12 + 0x655b59c3)) 6 in
  let d := MD5_STEP MD5_F4 d a b c (u32 (x 3 + 0x8f0ccc92)) 10 in
  let c := MD5_STEP MD5_F4 c d a b (u32 (x 10 + 0xffeff47d)) 15 in
  let b := MD5_STEP MD5_F4 b c d a (u32 (x 1 + 0x85845dd1)) 21 in
  let a := MD5_STEP MD5_F4 a b c d (u32 (x 8 + 0x6fa87e4f)) 6 in
  let d := MD5_STEP MD5_F4 d a b c (u32 (x 15 + 0xfe2ce6e0)) 10 in
  let c := MD5_STEP MD5_F4 c d a b (u32 (x 6 + 0xa3014314)) 15 in
  let b := MD5_STEP MD5_F4 b c d a (u32 (x 13 + 0x4e0811a1)) 21 in
  let a := MD5_STEP MD5_F4 a b c d (u32 (x 4 + 0xf7537e82)) 6 in
  let d := MD5_STEP MD5_F4 d a b c (u32 (x 11 + 0xbd3af235)) 10 in
  let c := MD5_STEP MD5_F4 c d a b (u32 (x 2 + 0x2ad7d2bb)) 15 in
  let b := MD5_STEP MD5_F4 b c d a (u32 (x 9 + 0xeb86d391)) 21 in
  (a, b, c, d).

Definition md5_transform (state : words) (buffer : list Z) : words :=
  let x := md5_decode buffer in
  let '(a, b, c, d) := round4 x (round3 x (round2 x (round1 x state))) in
  let '(s0, s1, s2, s3) := state in
  (u32 (s0 + a), u32 (s1 + b), u32 (s2 + c), u32 (s3 + d)).

(** ** The digest *)

Record md5_t := mk_md5 { init : bool; state : words; count : Z * Z; buffer : list Z; digest : list Z }.

Definition md5_initialize (d : md5_t) : md5_t :=
  mk_md5 false (0x67452301, 0xefcdab89, 0x98badcfe, 0x10325476) (0, 0) (replicate 64 0) (digest d).

(** The loop over the full blocks of the input behind the first. *)
Fixpoint transform_loop (fuel : nat) (st : words) (data : list Z) (index_in : Z) : words * Z :=
  match fuel with
  | O => (st, index_in)
  | S fuel =>
      if index_in + 64 <=? len data then transform_loop fuel (md5_transform st (sub data index_in 64)) data (index_in + 64)
      else (st, index_in)
  end.

Definition md5_digest (d : md5_t) (data : list Z) : md5_t :=
  let d := if init d then md5_initialize d else d in
  let size := len data in
  let index_buf := Z.land (Z.shiftr (fst (count d)) 3) 0x3F in
  let prev_count := fst (count d) in
  let add_count := u32 (shl 64 size 3) in
  let count0 := u32 (prev_count + add_count) in
  let count1 := u32 (snd (count d) + u32 (Z.shiftr size 29)) in
  let count1 := if count0 <? prev_count then u32 (count1 + 1) else count1 in
  let space_buf := 64 - index_buf in
  if space_buf <=? size then
    let buf := write_at (Z.to_nat index_buf) (sub data 0 space_buf) (buffer d) in
    let '(st, index_in) := transform_loop (length data) (md5_transform (state d) buf) data space_buf in
    mk_md5 (init d) st (count0, count1) (write_at 0 (sub data index_in (size - index_in)) buf) (digest d)
  else
    mk_md5 (init d) (state d) (count0, count1) (write_at (Z.to_nat index_buf) (sub data 0 size) (buffer d)) (digest d).

Definition state_words (st : words) : list Z := let '(a, b, c, d) := st in [a; b; c; d].

Definition md5_digest_finalize (d : md5_t) : md5_t :=
  let bits := md5_encode [fst (count d); snd (count d)] in
  let idx := Z.land (Z.shiftr (fst (count d)) 3) 0x3f in
  let size_pad := if idx <? 56 then 56 - idx else 120 - idx in
  let d := md5_digest d (take (Z.to_nat size_pad) (128 :: replicate 63 0)) in
  let d := md5_digest d bits in
  mk_md5 true (state d) (count d) (replicate 64 0) (md5_encode (state_words (state d))).

(** The two words of a [uint128_t]. *)
Definition md5_get_digest_raw (d : md5_t) : list Z :=
  [byteorder_swap64 (le_uint (take 8 (digest d))); byteorder_swap64 (le_uint (take 8 (drop 8 (digest d))))].

Definition md5_get_digest (d : md5_t) (buf : list Z) : list Z * Z := string_from_uint128 buf (md5_get_digest_raw d).

(** ** The reference, RFC 1321 section 3.4 *)

Definition F (x y z : Z) : Z := Z.lor (Z.land x y) (Z.land (Z.lnot x) z).
Definition G (x y z : Z) : Z := Z.lor (Z.land x z) (Z.land y (Z.lnot z)).
Definition H (x y z : Z) : Z := Z.lxor x (Z.lxor y z).
Definition I (x y z : Z) : Z := Z.lxor y (Z.lor x (u32 (Z.lnot z))).

(** The table of the integer parts of [2^32 * |sin(i + 1)|]. *)
Definition T : list Z := [
  0xd76aa478; 0xe8c7b756; 0x242070db; 0xc1bdceee; 0xf57c0faf; 0x4787c62a; 0xa8304613; 0xfd469501;
  0x698098d8; 0x8b44f7af; 0xffff5bb1; 0x895cd7be; 0x6b901122; 0xfd987193; 0xa679438e; 0x49b40821;
  0xf61e2562; 0xc040b340; 0x265e5a51; 0xe9b6c7aa; 0xd62f105d; 0x02441453; 0xd8a1e681; 0xe7d3fbc8;
  0x21e1cde6; 0xc33707d6; 0xf4d50d87; 0x455a14ed; 0xa9e3e905; 0xfcefa3f8; 0x676f02d9; 0x8d2a4c8a;
  0xfffa3942; 0x8771f681; 0x6d9d6122; 0xfde5380c; 0xa4beea44; 0x4bdecfa9; 0xf6bb4b60; 0xbebfbc70;
  0x289b7ec6; 0xeaa127fa; 0xd4ef3085; 0x04881d05; 0xd9d4d039; 0xe6db99e5; 0x1fa27cf8; 0xc4ac5665;
  0xf4292244; 0x432aff97; 0xab9423a7; 0xfc93a039; 0x655b59c3; 0x8f0ccc92; 0xffeff47d; 0x85845dd1;
  0x6fa87e4f; 0xfe2ce6e0; 0xa3014314; 0x4e0811a1; 0xf7537e82; 0xbd3af235; 0x2ad7d2bb; 0xeb86d391].

(** The function, the index of the message word and the rotation of step [i]. *)
Definition rfc_function (i : Z) : Z -> Z -> Z -> Z :=
  if i <? 16 then F else if i <? 32 then G else if i <? 48 then H else I.
Definition rfc_index (i : Z) : Z :=
  if i <? 16 then i else if i <? 32 then (5 * i + 1) mod 16 else if i <? 48 then (3 * i + 5) mod 16 else (7 * i) mod 16.
Definition rfc_shift (i : Z) : Z :=
  at_ (if i <? 16 then [7; 12; 17; 22] else if i <? 32 then [5; 9; 14; 20] else if i <? 48 then [4; 11; 16; 23] else [6; 10; 15; 21])
    (i mod 4).

(** A step: the registers move one place. *)
Definition rfc_step (x : Z -> Z) '((a, b, c, d) : words) (i : Z) : words :=
  (d, u32 (b + rotl 32 (u32 (a + rfc_function i b c d + x (rfc_index i) + at_ T i)) (rfc_shift i)), b, c).

Definition rfc_word (block : list Z) (i : Z) : Z := le_uint (sub block (4 * i) 4).

Definition rfc_compress (st : words) (block : list Z) : words :=
  let '(a, b, c, d) := st in
  let '(a', b', c', d') := foldl (rfc_step (rfc_word block)) st (seqZ 0 64) in
  (u32 (a + a'), u32 (b + b'), u32 (c + c'), u32 (d + d')).

Definition md5_bytes (st : words) : list Z := concat (map (le_bytes 4) (state_words st)).

(** The digest of a message. *)
Definition rfc_md5 (m : list Z) : list Z :=
  md5_bytes (hash rfc_compress 64 8 (le_bytes 8) (0x67452301, 0xefcdab89, 0x98badcfe, 0x10325476) m).

(** ** The transformation is the reference *)

Lemma F1_F x y z : MD5_F1 x y z = F x y z.
Proof. unfold MD5_F1, F. zbits i. decide_bits. by destruct (Z.testbit x i), (Z.testbit y i), (Z.testbit z i). Qed.

Lemma F2_G x y z : MD5_F2 x y z = G x y z.
Proof. unfold MD5_F2, G. zbits i. decide_bits. by destruct (Z.testbit x i), (Z.testbit y i), (Z.testbit z i). Qed.

Lemma F3_H x y z : MD5_F3 x y z = H x y z.
Proof. apply Z.lxor_assoc. Qed.

(** The function of each round as the code writes it. *)
Definition code_function (i : Z) : Z -> Z -> Z -> Z :=
  if i <? 16 then MD5_F1 else if i <? 32 then MD5_F2 else if i <? 48 then MD5_F3 else MD5_F4.

Lemma rfc_step_code x a b c d i :
  rfc_step x (a, b, c, d) i =
  (d, MD5_STEP (code_function i) a b c d (u32 (x (rfc_index i) + at_ T i)) (rfc_shift i), b, c).
Proof.
  assert (code_function i b c d = rfc_function i b c d) as E.
  { unfold code_function, rfc_function. repeat case_if; auto using F1_F, F2_G, F3_H. }
  unfold rfc_step, MD5_STEP. rewrite E, (Z.add_comm b), Z.add_assoc, wrap_add_r. cbv zeta. by rewrite Z.add_assoc.
Qed.

Lemma foldl_step {A B} (f : A -> B -> A) a b l : foldl f a (b :: l) = foldl f (f a b) l.
Proof. done. Qed.

(** One step of both loops; the new value is generalised, so that it is not copied. *)
Ltac md5_step F :=
  rewrite foldl_step, rfc_step_code;
  lazymatch goal with
  | |- _ = foldl _ (_, MD5_STEP ?f ?a ?b ?c ?d (u32 (?x ?k + ?t)) ?s, _, _) _ =>
      let k' := eval vm_compute in k in let t' := eval vm_compute in t in let s' := eval vm_compute in s in
      change (MD5_STEP f a b c d (u32 (x k + t)) s) with (MD5_STEP F a b c d (u32 (x k' + t')) s');
      lazymatch goal with
      | |- (let v := ?e in @?B v) = ?r => change (B e = r); generalize e; intro; cbv beta
      end
  end.
Ltac md5_round F st :=
  destruct st as [[[? ?] ?] ?];
  match goal with |- context [seqZ ?i ?n] => let l := eval vm_compute in (seqZ i n) in change (seqZ i n) with l end;
  cbv beta iota;
  do 16 md5_step F; reflexivity.

Lemma round1_rfc x st : round1 x st = foldl (rfc_step x) st (seqZ 0 16).
Proof. cbv delta [round1]. md5_round MD5_F1 st. Qed.

Lemma round2_rfc x st : round2 x st = foldl (rfc_step x) st (seqZ 16 16).
Proof. cbv delta [round2]. md5_round MD5_F2 st. Qed.

Lemma round3_rfc x st : round3 x st = foldl (rfc_step x) st (seqZ 32 16).
Proof. cbv delta [round3]. md5_round MD5_F3 st. Qed.

Lemma round4_rfc x st : round4 x st = foldl (rfc_step x) st (seqZ 48 16).
Proof. cbv delta [round4]. md5_round MD5_F4 st. Qed.

Lemma foldl_step_ext x y st l :
  (forall i, i ∈ l -> x (rfc_index i) = y (rfc_index i)) -> foldl (rfc_step x) st l = foldl (rfc_step y) st l.
Proof.
  revert st. induction l as [|i l IH]; intros st E; [done|]. rewrite !foldl_step.
  destruct st as [[[a b] c] d]. unfold rfc_step at 2 4. rewrite E by (by left). apply IH. intros j Hj. apply E. by right.
Qed.

Lemma rfc_index_range i : 0 <= i -> 0 <= rfc_index i < 16.
Proof. intros. unfold rfc_index. repeat case_if; lia || (apply Z.mod_pos_bound; lia). Qed.

(** Four bytes put together with shifts. *)
Lemma decode_word b0 b1 b2 b3 :
  bytes_ok [b0; b1; b2; b3] ->
  Z.lor (Z.lor (Z.lor b0 (shl 32 b1 8)) (shl 32 b2 16)) (shl 32 b3 24) = le_uint [b0; b1; b2; b3].
Proof.
  rewrite !Forall_cons. intros (H0 & H1 & H2 & H3 & _). unfold byte_ok in *.
  assert (forall b n, 0 <= b < 256 -> 0 <= n <= 24 -> shl 32 b n = Z.shiftl b n) as Hs.
  { intros b n Hb Hn. unfold shl. apply wrap_small. rewrite Z.shiftl_mul_pow2 by lia.
    pose proof (Z.pow_le_mono_r 2 n 24 ltac:(lia) ltac:(lia)). pose proof (pow2_pos n ltac:(lia)). 
    change (2 ^ 24) with 16777216 in *. change (2 ^ 32) with 4294967296. nia. }
  rewrite !Hs by lia.
  assert (in_u 8 b0 /\ in_u 16 (b0 + 2 ^ 8 * b1) /\ in_u 24 (b0 + 2 ^ 8 * b1 + 2 ^ 16 * b2)) as (U1 & U2 & U3)
    by (unfold in_u; eval_pow; lia).
  rewrite <- (proj2 (disjoint_add 8 _ b1 U1)), <- (proj2 (disjoint_add 16 _ b2 U2)), <- (proj2 (disjoint_add 24 _ b3 U3)).
  unfold le_uint. cbn [foldr]. eval_pow. lia.
Qed.

Lemma md5_decode_word block i :
  bytes_ok block -> len block = 64 -> 0 <= i < 16 -> md5_decode block i = rfc_word block i.
Proof.
  intros Hb Hl Hi. unfold rfc_word.
  assert (sub block (4 * i) 4 = [at_ block (4 * i); at_ block (4 * i + 1); at_ block (4 * i + 2); at_ block (4 * i + 3)]) as E.
  { change 4 with (1 + (1 + (1 + (1 + 0)))) at 2. rewrite !sub_next by lia. by rewrite <- !Z.add_assoc. }
  rewrite E. unfold md5_decode. apply decode_word. rewrite <- E. by apply Forall_take, Forall_drop.
Qed.

Lemma md5_transform_rfc st block :
  length block = 64%nat -> bytes_ok block -> md5_transform st block = rfc_compress st block.
Proof.
  intros Hl Hb. unfold md5_transform, rfc_compress.
  rewrite round1_rfc, round2_rfc, round3_rfc, round4_rfc.
  rewrite <- !foldl_app. change (seqZ 0 16 ++ seqZ 16 16 ++ seqZ 32 16 ++ seqZ 48 16) with (seqZ 0 64).
  rewrite (foldl_step_ext (md5_decode block) (rfc_word block)); [by destruct st as [[[? ?] ?] ?]|].
  intros i Hi%elem_of_seqZ. apply md5_decode_word; [done|unfold len; lia|]. apply rfc_index_range. lia.
Qed.

(** ** The digest of the pieces *)

(** [wrap] by a power of two that is smaller forgets the larger one. *)
Lemma wrap_le v a b : 0 <= a <= b -> wrap a (wrap b v) = wrap a v.
Proof.
  intros H. unfold wrap. replace b with (a + (b - a)) by lia. rewrite Z.pow_add_r by lia.
  pose proof (pow2_pos a ltac:(lia)). pose proof (pow2_pos (b - a) ltac:(lia)).
  rewrite Z.rem_mul_r by lia. rewrite (Z.mul_comm (2 ^ a)), Z.mod_add by lia. by rewrite Z.mod_mod by lia.
Qed.

(** The two words of the number of bits. *)
Definition bit_count (n : Z) : Z * Z := (u32 (8 * n), u32 (8 * n / 2 ^ 32)).

Lemma bit_count_index n : 0 <= n -> Z.land (Z.shiftr (fst (bit_count n)) 3) 0x3F = n mod 64.
Proof.
  intros Hn. unfold bit_count, wrap. cbn [fst]. rewrite Z.shiftr_div_pow2 by lia. change 0x3F with (Z.ones 6).
  rewrite Z.land_ones by lia. eval_pow. Z.div_mod_to_equations; lia.
Qed.

Lemma bit_count_add n k :
  0 <= n -> 0 <= k ->
  let prev_count := fst (bit_count n) in
  let add_count := u32 (shl 64 k 3) in
  let count0 := u32 (prev_count + add_count) in
  let count1 := u32 (snd (bit_count n) + u32 (Z.shiftr k 29)) in
  (count0, if count0 <? prev_count then u32 (count1 + 1) else count1) = bit_count (n + k).
Proof.
  intros Hn Hk. cbv zeta. unfold bit_count. cbn [fst snd].
  assert (u32 (shl 64 k 3) = u32 (8 * k)) as ->.
  { unfold shl. rewrite wrap_le by lia. rewrite Z.shiftl_mul_pow2 by lia. f_equal. change (2 ^ 3) with 8. lia. }
  assert (Z.shiftr k 29 = 8 * k / 2 ^ 32) as ->.
  { rewrite Z.shiftr_div_pow2 by lia. eval_pow. Z.div_mod_to_equations; lia. }
  rewrite wrap_add_l, wrap_add_r, (wrap_add_l 32 (8 * n / 2 ^ 32)), wrap_add_r, wrap_add_l. 
  replace (8 * n + 8 * k) with (8 * (n + k)) by lia. f_equal.
  set (a := 8 * n). set (b := 8 * k). replace (8 * (n + k)) with (a + b) by lia.
  unfold wrap. eval_pow. destruct (Z.ltb_spec ((a + b) mod 4294967296) (a mod 4294967296)); f_equal; Z.div_mod_to_equations; lia.
Qed.

(** The digest has taken the message [m]. *)
Record digesting (d : md5_t) (m : list Z) : Prop := mk_digesting {
  is_ready : init d = false;
  has_state : state d = absorb md5_transform 64 (0x67452301, 0xefcdab89, 0x98badcfe, 0x10325476) m;
  has_count : count d = bit_count (len m);
  has_buffer : length (buffer d) = 64%nat /\ take (length (leftover 64 m)) (buffer d) = leftover 64 m }.

Lemma md5_digesting_initialize d : digesting (md5_initialize d) [].
Proof. by constructor. Qed.

Lemma transform_loop_absorb fuel st data i :
  0 <= i <= len data -> len data - i <= Z.of_nat fuel ->
  transform_loop fuel st data i =
  (absorb md5_transform 64 st (drop (Z.to_nat i) data), len data - len (leftover 64 (drop (Z.to_nat i) data))).
Proof.
  revert st i. induction fuel as [|fuel IH]; intros st i Hi Hf; cbn [transform_loop].
  - rewrite drop_ge by (unfold len in *; lia). f_equal. change (len (leftover 64 [])) with 0. lia.
  - set (rest := drop (Z.to_nat i) data). assert (len rest = len data - i) as Hr by (unfold rest, len in *; rewrite length_drop; lia).
    destruct (Z.leb_spec (i + 64) (len data)).
    + rewrite IH by lia. replace (Z.to_nat (i + 64)) with (Z.to_nat i + 64)%nat by lia. rewrite <- drop_drop. fold rest.
      assert (sub data i 64 = take 64 rest) as -> by done.
      pose proof (absorb_block md5_transform 64 ltac:(lia) st (take 64 rest) (drop 64 rest)) as Hb.
      rewrite take_drop in Hb. destruct Hb as [-> ->]; [rewrite length_take; unfold len in *; lia|done].
    + destruct (absorb_short md5_transform 64 st rest) as [-> ->]; [unfold len in *; lia|]. f_equal. lia.
Qed.

Lemma len_leftover (m : list Z) : len (leftover 64 m) = len m mod 64.
Proof. unfold len. rewrite length_leftover by lia. by rewrite Nat2Z.inj_mod. Qed.

Lemma md5_digest_digesting d m data : digesting d m -> digesting (md5_digest d data) (m ++ data).
Proof.
  intros [Hi Hs Hc [Hl Hb]]. pose proof (len_nonneg m). pose proof (len_nonneg data).
  unfold md5_digest. rewrite Hi, Hc, bit_count_index by done. rewrite <- len_leftover.
  set (r := leftover 64 m) in *. pose proof (length_leftover_lt 64 ltac:(lia) m) as Hr. fold r in Hr.
  pose proof (bit_count_add (len m) (len data) ltac:(done) ltac:(done)) as Hn. cbv zeta in Hn. rewrite <- len_app in Hn.
  pose proof (absorb_app md5_transform 64 ltac:(lia) (0x67452301, 0xefcdab89, 0x98badcfe, 0x10325476) m data) as [Ea El].
  rewrite <- Hs in Ea. fold r in Ea, El. set (space := 64 - len r). destruct (Z.leb_spec space (len data)) as [Hle|Hgt].
  - rewrite sub_0. set (first := take (Z.to_nat space) data).
    assert (length first = Z.to_nat space) as Hf by (unfold first; rewrite length_take; unfold len in *; lia).
    set (rest := drop (Z.to_nat space) data). assert (first ++ rest = data) as Hd by apply take_drop.
    assert (write_at (Z.to_nat (len r)) first (buffer d) = r ++ first) as ->.
    { unfold write_at. unfold len at 1 2. rewrite Nat2Z.id, Hb, drop_ge by (unfold space, len in *; lia). by rewrite app_nil_r. }
    assert (length (r ++ first) = 64%nat) as Hrf by (rewrite length_app; unfold space, len in *; lia).
    assert (r ++ data = (r ++ first) ++ rest) as Erd by (by rewrite <- app_assoc, Hd). rewrite Erd in Ea, El.
    destruct (absorb_block md5_transform 64 ltac:(lia) (state d) (r ++ first) rest Hrf) as [Eb1 Eb2]. rewrite Eb1 in Ea. rewrite Eb2 in El.
    rewrite transform_loop_absorb by (unfold space, len in *; lia). fold rest. rewrite <- El.
    assert (sub data (len data - len (leftover 64 (m ++ data))) (len data - (len data - len (leftover 64 (m ++ data)))) = leftover 64 (m ++ data)) as ->.
    { rewrite El. apply leftover_end; [lia|]. unfold rest. apply suffix_drop. }
    constructor; cbn [init state count buffer].
    + done.
    + by rewrite Ea.
    + exact Hn.
    + pose proof (length_leftover_lt 64 ltac:(lia) (m ++ data)). split; [rewrite length_write_at; lia|].
      apply (take_write_at 0); lia.
  - destruct (absorb_short md5_transform 64 (state d) (r ++ data)) as [E1 E2].
    { rewrite length_app. unfold space, len in *. lia. }
    constructor; cbn [init state count buffer].
    + done.
    + by rewrite Ea.
    + exact Hn.
    + rewrite El, E2. rewrite sub_0, take_ge by (unfold len; lia).
      split; [rewrite length_write_at; unfold space, len in *; lia|]. unfold len. rewrite Nat2Z.id, length_app.
      rewrite take_write_at by lia. by rewrite Hb.
Qed.

Lemma word_bytes_le v : word_bytes v = le_bytes 4 v.
Proof.
  unfold word_bytes. change 0xff with (Z.ones 8). rewrite !Z.land_ones, !Z.shiftr_div_pow2 by lia. cbn [le_bytes].
  rewrite !Z.div_div by lia. done.
Qed.

Lemma encode_count n : md5_encode [fst (bit_count n); snd (bit_count n)] = le_bytes 8 (8 * n).
Proof.
  unfold md5_encode, bit_count. cbn [map concat fst snd]. rewrite !word_bytes_le, app_nil_r.
  assert (forall v, le_bytes 4 (u32 v) = le_bytes 4 v) as Hw by exact (le_bytes_wrap 4).
  rewrite !Hw. exact (eq_sym (le_bytes_app 4 4 (8 * n))).
Qed.

Lemma md5_padding n :
  let idx := Z.of_nat n mod 64 in
  take (Z.to_nat (if idx <? 56 then 56 - idx else 120 - idx)) (128 :: replicate 63 0) = padding 64 8 n.
Proof.
  cbv zeta. unfold padding, zeros. set (k := (if _ <? 56 then _ else _)).
  assert (Z.to_nat k = S ((2 * 64 - 1 - 8 - n mod 64) mod 64)) as ->.
  { unfold k. change 64 with (Z.of_nat 64). rewrite <- (Nat2Z.inj_mod n 64). pose proof (Nat.mod_upper_bound n 64 ltac:(lia)).
    destruct (Z.ltb_spec (Z.of_nat (n mod 64)) 56).
    - replace (2 * 64 - 1 - 8 - n mod 64)%nat with (55 - n mod 64 + 1 * 64)%nat by lia.
      rewrite Nat.Div0.mod_add, (Nat.mod_small (55 - n mod 64)) by lia. lia.
    - rewrite (Nat.mod_small (2 * 64 - 1 - 8 - n mod 64)) by lia. lia. }
  cbn [take]. f_equal. rewrite take_replicate. f_equal. pose proof (Nat.mod_upper_bound (2 * 64 - 1 - 8 - n mod 64) 64 ltac:(lia)). lia.
Qed.

Definition md5_hash (m : list Z) : words :=
  hash md5_transform 64 8 (le_bytes 8) (0x67452301, 0xefcdab89, 0x98badcfe, 0x10325476) m.

Lemma md5_encode_state st : md5_encode (state_words st) = md5_bytes st.
Proof.
  destruct st as [[[a b] c] d]. unfold md5_encode, md5_bytes, state_words. cbn [map]. by rewrite !word_bytes_le.
Qed.

Lemma md5_digest_finalize_digest d m :
  digesting d m -> digest (md5_digest_finalize d) = md5_bytes (md5_hash m) /\ init (md5_digest_finalize d) = true.
Proof.
  intros Hd. unfold md5_digest_finalize. rewrite (has_count _ _ Hd), encode_count, bit_count_index by apply len_nonneg.
  pose proof (md5_padding (length m)) as Hp. cbv zeta in Hp. fold (len m) in Hp. rewrite Hp. cbn [digest init]. split; [|done]. rewrite md5_encode_state. f_equal.
  pose proof (md5_digest_digesting _ _ (le_bytes 8 (8 * len m)) (md5_digest_digesting _ _ (padding 64 8 (length m)) Hd)) as Hf.
  rewrite <- app_assoc in Hf. apply (has_state _ _ Hf).
Qed.

Lemma md5_hash_rfc m : bytes_ok m -> md5_bytes (md5_hash m) = rfc_md5 m.
Proof.
  intros Hm. unfold rfc_md5, md5_hash. f_equal.
  apply (hash_agree _ _ 64 ltac:(lia) (fun _ => True)); [|done|intros; apply le_bytes_ok|done].
  intros st b _ Hl Hb. split; [by apply md5_transform_rfc|done].
Qed.

Lemma md5_digesting_parts d m parts : digesting d m -> digesting (foldl md5_digest d parts) (m ++ concat parts).
Proof.
  revert d m. induction parts as [|p parts IH]; intros d m Hd; [by rewrite app_nil_r|].
  cbn [foldl concat]. rewrite app_assoc. by apply IH, md5_digest_digesting.
Qed.

Lemma md5_digest_restart d data : init d = true -> md5_digest d data = md5_digest (md5_initialize d) data.
Proof. intros H. unfold md5_digest. by rewrite H. Qed.

Lemma md5_get_digest_text d buf (bs : list Z) :
  digest d = bs -> bytes_ok bs -> length bs = 16%nat -> 32 < len buf ->
  let '(buf', n) := md5_get_digest d buf in n = 32 /\ sub buf' 0 n = hex_text bs.
Proof.
  intros Hd Hb Hl Hf. unfold md5_get_digest, string_from_uint128, md5_get_digest_raw. rewrite Hd.
  set (ws := [byteorder_swap64 _; _]).
  assert (Forall (fun v => 0 <= v < 2 ^ 64) ws) as Hw by (repeat constructor; apply (byteorder_swap_range 8)).
  pose proof (from_words_text buf ws Hw Hf) as H. destruct (from_words buf ws) as [buf' n].
  destruct H as (_ & -> & E). split; [done|]. rewrite E. unfold words_text, ws. cbn [map concat]. rewrite app_nil_r.
  rewrite !print_x16_swap by (rewrite ?length_take, ?length_drop; first [by apply Forall_take|by apply Forall_take, Forall_drop|lia]).
  unfold hex_text. rewrite <- concat_app, <- map_app. rewrite (take_ge (drop 8 bs)) by (rewrite length_drop; lia). by rewrite take_drop.
Qed.

Lemma length_md5_bytes st : length (md5_bytes st) = 16%nat.
Proof. by destruct st as [[[a b] c] d]. Qed.

Lemma md5_bytes_ok st : bytes_ok (md5_bytes st).
Proof. destruct st as [[[a b] c] d]. unfold md5_bytes. cbn [state_words map concat]. rewrite !Forall_app. by repeat split; try apply le_bytes_ok. Qed.

(** C34: the digest of a message does not depend on how it is cut into pieces: it
    is the digest of RFC 1321 of the whole message, and its text the hexadecimal
    digits of its bytes; a digest that was finished starts over. *)
Theorem md5_digest_spec d parts buf :
  init d = true -> parts <> [] -> Forall bytes_ok parts -> 32 < len buf ->
  let d' := md5_digest_finalize (foldl md5_digest d parts) in
  digest d' = rfc_md5 (concat parts) /\ init d' = true /\
  let '(buf', n) := md5_get_digest d' buf in n = 32 /\ sub buf' 0 n = hex_text (rfc_md5 (concat parts)).
Proof.
  intros Hi Hp Hb Hl d'. assert (digest d' = rfc_md5 (concat parts) /\ init d' = true) as [E1 E2].
  { rewrite <- md5_hash_rfc by (by apply Forall_concat). apply md5_digest_finalize_digest.
    destruct parts as [|p parts]; [done|]. cbn [foldl]. rewrite md5_digest_restart by done.
    apply (md5_digesting_parts _ p). apply (md5_digest_digesting _ []), md5_digesting_initialize. }
  split; [done|]. split; [done|].
  apply md5_get_digest_text; [done|apply md5_bytes_ok|apply length_md5_bytes|done].
Qed.

Definition fresh : md5_t := mk_md5 true (0, 0, 0, 0) (0, 0) (replicate 64 0) (replicate 16 0).

Lemma md5_digest_spec_witness :
  let d' := md5_digest_finalize (foldl md5_digest fresh [[97]; [98; 99]]) in
  digest d' = rfc_md5 (concat [[97]; [98; 99]]) /\ init d' = true /\
  let '(buf', n) := md5_get_digest d' (replicate 33 0) in n = 32 /\ sub buf' 0 n = hex_text (rfc_md5 (concat [[97]; [98; 99]])).
Proof.
  apply (md5_digest_spec fresh [[97]; [98; 99]] (replicate 33 0)); [done|done| |done].
  repeat constructor; unfold byte_ok; lia.
Defined.

(** The vectors of RFC 1321 for [""], ["abc"] and a message of 62 bytes. *)
Example md5_vectors :
  rfc_md5 [] = reverse (le_bytes 16 0xd41d8cd98f00b204e9800998ecf8427e) /\
  rfc_md5 [97; 98; 99] = reverse (le_bytes 16 0x900150983cd24fb0d6963f7d28e17f72) /\
  rfc_md5 (seqZ 65 26 ++ seqZ 97 26 ++ seqZ 48 10) = reverse (le_bytes 16 0xd174ab98d277d9f5a5611c2c9f419d9f).
Proof. by vm_compute. Qed.
End Md5.
