(* ===== verification/Sha.v ===== *)
(** * SHA-2 ([src/library/foundation_lib/foundation/sha.c])

    The file holds the same code twice, on words of 32 bits for SHA-256 and of
    64 bits for SHA-512.  Here it is one development over a class of the
    constants and the functions in which the two differ. *)
From S2P Require Import Prelude Str StrBuf StrNum Digest.

Module Sha.
Import Str StrBuf StrNum Digest.

(** The word in bits and bytes, the block, the number of rounds; a message
    longer than [limit] bytes in its last block needs another one, and
    [zero_to] bytes before the length are zero. *)
Class Sha2 := {
  width : Z; word : nat; block : nat; rounds : nat; limit : nat; zero_to : nat;
  K : list Z; initial : list Z;
  sigma0 : Z -> Z; sigma1 : Z -> Z; gamma0 : Z -> Z; gamma1 : Z -> Z }.

Definition rotate (w x n : Z) : Z :=
  Z.lor (Z.shiftr x (Z.land n (w - 1))) (shl w x (w - Z.land n (w - 1))).
Definition choise (x y z : Z) : Z := Z.lxor z (Z.land x (Z.lxor y z)).
Definition majority (x y z : Z) : Z := Z.lor (Z.land (Z.lor x y) z) (Z.land x y).
Definition xor3 (x y z : Z) : Z := Z.lxor (Z.lxor x y) z.

(** The words of a row of a table, the first one in the highest bits. *)
Fixpoint unpack (w : Z) (n : nat) (row : Z) : list Z :=
  match n with O => [] | S n => unpack w n (row / 2 ^ w) ++ [row mod 2 ^ w] end.

(** ** SHA-256 *)

Definition K256 : list Z := concat (map (unpack 32 8) [
  0x428a2f98_71374491_b5c0fbcf_e9b5dba5_3956c25b_59f111f1_923f82a4_ab1c5ed5;
  0xd807aa98_12835b01_243185be_550c7dc3_72be5d74_80deb1fe_9bdc06a7_c19bf174;
  0xe49b69c1_efbe4786_0fc19dc6_240ca1cc_2de92c6f_4a7484aa_5cb0a9dc_76f988da;
  0x983e5152_a831c66d_b00327c8_bf597fc7_c6e00bf3_d5a79147_06ca6351_14292967;
  0x27b70a85_2e1b2138_4d2c6dfc_53380d13_650a7354_766a0abb_81c2c92e_92722c85;
  0xa2bfe8a1_a81a664b_c24b8b70_c76c51a3_d192e819_d6990624_f40e3585_106aa070;
  0x19a4c116_1e376c08_2748774c_34b0bcb5_391c0cb3_4ed8aa4a_5b9cca4f_682e6ff3;
  0x748f82ee_78a5636f_84c87814_8cc70208_90befffa_a4506ceb_bef9a3f7_c67178f2]).

Definition sigma0_32 (x : Z) : Z := xor3 (rotate 32 x 2) (rotate 32 x 13) (rotate 32 x 22).
Definition sigma1_32 (x : Z) : Z := xor3 (rotate 32 x 6) (rotate 32 x 11) (rotate 32 x 25).
Definition gamma0_32 (x : Z) : Z := xor3 (rotate 32 x 7) (rotate 32 x 18) (Z.shiftr x 3).
Definition gamma1_32 (x : Z) : Z := xor3 (rotate 32 x 17) (rotate 32 x 19) (Z.shiftr x 10).

Definition initial256 : list Z := [
  0x6A09E667; 0xBB67AE85; 0x3C6EF372; 0xA54FF53A; 0x510E527F; 0x9B05688C; 0x1F83D9AB; 0x5BE0CD19].

Definition sha256 : Sha2 := {|
  width := 32; word := 4; block := 64; rounds := 64; limit := 56; zero_to := 56; K := K256; initial := initial256;
  sigma0 := sigma0_32; sigma1 := sigma1_32; gamma0 := gamma0_32; gamma1 := gamma1_32 |}.

(** ** SHA-512 *)

Definition K512 : list Z := concat (map (unpack 64 5) [
  0x428a2f98d728ae22_7137449123ef65cd_b5c0fbcfec4d3b2f_e9b5dba58189dbbc_3956c25bf348b538;
  0x59f111f1b605d019_923f82a4af194f9b_ab1c5ed5da6d8118_d807aa98a3030242_12835b0145706fbe;
  0x243185be4ee4b28c_550c7dc3d5ffb4e2_72be5d74f27b896f_80deb1fe3b1696b1_9bdc06a725c71235;
  0xc19bf174cf692694_e49b69c19ef14ad2_efbe4786384f25e3_0fc19dc68b8cd5b5_240ca1cc77ac9c65;
  0x2de92c6f592b0275_4a7484aa6ea6e483_5cb0a9dcbd41fbd4_76f988da831153b5_983e5152ee66dfab;
  0xa831c66d2db43210_b00327c898fb213f_bf597fc7beef0ee4_c6e00bf33da88fc2_d5a79147930aa725;
  0x06ca6351e003826f_142929670a0e6e70_27b70a8546d22ffc_2e1b21385c26c926_4d2c6dfc5ac42aed;
  0x53380d139d95b3df_650a73548baf63de_766a0abb3c77b2a8_81c2c92e47edaee6_92722c851482353b;
  0xa2bfe8a14cf10364_a81a664bbc423001_c24b8b70d0f89791_c76c51a30654be30_d192e819d6ef5218;
  0xd69906245565a910_f40e35855771202a_106aa07032bbd1b8_19a4c116b8d2d0c8_1e376c085141ab53;
  0x2748774cdf8eeb99_34b0bcb5e19b48a8_391c0cb3c5c95a63_4ed8aa4ae3418acb_5b9cca4f7763e373;
  0x682e6ff3d6b2b8a3_748f82ee5defb2fc_78a5636f43172f60_84c87814a1f0ab72_8cc702081a6439ec;
  0x90befffa23631e28_a4506cebde82bde9_bef9a3f7b2c67915_c67178f2e372532b_ca273eceea26619c;
  0xd186b8c721c0c207_eada7dd6cde0eb1e_f57d4f7fee6ed178_06f067aa72176fba_0a637dc5a2c898a6;
  0x113f9804bef90dae_1b710b35131c471b_28db77f523047d84_32caab7b40c72493_3c9ebe0a15c9bebc;
  0x431d67c49c100d4c_4cc5d4becb3e42b6_597f299cfc657e2a_5fcb6fab3ad6faec_6c44198c4a475817]).

Definition sigma0_64 (x : Z) : Z := xor3 (rotate 64 x 28) (rotate 64 x 34) (rotate 64 x 39).
Definition sigma1_64 (x : Z) : Z := xor3 (rotate 64 x 14) (rotate 64 x 18) (rotate 64 x 41).
Definition gamma0_64 (x : Z) : Z := xor3 (rotate 64 x 1) (rotate 64 x 8) (Z.shiftr x 7).
Definition gamma1_64 (x : Z) : Z := xor3 (rotate 64 x 19) (rotate 64 x 61) (Z.shiftr x 6).

Definition initial512 : list Z := [
  0x6a09e667f3bcc908; 0xbb67ae8584caa73b; 0x3c6ef372fe94f82b; 0xa54ff53a5f1d36f1; 0x510e527fade682d1;
  0x9b05688c2b3e6c1f; 0x1f83d9abfb41bd6b; 0x5be0cd19137e2179].

Definition sha512 : Sha2 := {|
  width := 64; word := 8; block := 128; rounds := 80; limit := 112; zero_to := 120; K := K512; initial := initial512;
  sigma0 := sigma0_64; sigma1 := sigma1_64; gamma0 := gamma0_64; gamma1 := gamma1_64 |}.

Section sha.
Context `{Sha2}.

(** ** The transformation of one block *)

(** A big-endian word of the block. *)
Definition sha_load (buffer : list Z) : Z := byteorder_swap word (le_uint (take word buffer)).

(** The new values of [*d] and [*h]. *)
Definition compress (wbox : list Z) (a b c d e f g h : Z) (i : nat) : Z * Z :=
  let t0 := wrap width (h + sigma1 e + choise e f g + K !!! i + wbox !!! i) in
  let t1 := wrap width (sigma0 a + majority a b c) in
  (wrap width (d + t0), wrap width (t0 + t1)).

(** The eight calls of the loop body: the places of [a] to [h] in [sbox]. *)
Definition calls : list (nat * nat * nat * nat * nat * nat * nat * nat) := [
   (0, 1, 2, 3, 4, 5, 6, 7);
   (7, 0, 1, 2, 3, 4, 5, 6);
   (6, 7, 0, 1, 2, 3, 4, 5);
   (5, 6, 7, 0, 1, 2, 3, 4);
   (4, 5, 6, 7, 0, 1, 2, 3);
   (3, 4, 5, 6, 7, 0, 1, 2);
   (2, 3, 4, 5, 6, 7, 0, 1);
   (1, 2, 3, 4, 5, 6, 7, 0)]%nat.

Definition compress_call (wbox sbox : list Z) '((a, b, c, d, e, f, g, h) : nat * nat * nat * nat * nat * nat * nat * nat) (i : nat) : list Z :=
  let '(vd, vh) := compress wbox (sbox !!! a) (sbox !!! b) (sbox !!! c) (sbox !!! d) (sbox !!! e) (sbox !!! f) (sbox !!! g) (sbox !!! h) i in
  <[h := vh]> (<[d := vd]> sbox).

Fixpoint compress_calls (wbox sbox : list Z) (rows : list (nat * nat * nat * nat * nat * nat * nat * nat)) (i : nat) : list Z :=
  match rows with
  | [] => sbox
  | row :: rows => compress_calls wbox (compress_call wbox sbox row i) rows (S i)
  end.

(** The loop: [n] more times eight calls. *)
Fixpoint compress_loop (n : nat) (wbox sbox : list Z) (i : nat) : list Z :=
  match n with
  | O => sbox
  | S n => compress_loop n wbox (compress_calls wbox sbox calls i) (i + 8)
  end.

Definition load_words (buffer : list Z) : list Z := map (fun i => sha_load (drop (word * i) buffer)) (seq 0 16).

(** [wbox[i]] of the second loop; the array grows by one word. *)
Definition extend (wbox : list Z) (i : nat) : list Z :=
  wbox ++ [wrap width (gamma1 (wbox !!! (i - 2)%nat) + wbox !!! (i - 7)%nat + gamma0 (wbox !!! (i - 15)%nat) + wbox !!! (i - 16)%nat)].

Definition sha_compress (state : list Z) (buffer : list Z) : list Z :=
  let wbox := foldl extend (load_words buffer) (seq 16 (rounds - 16)) in
  let sbox := compress_loop (rounds / 8) wbox state 0 in
  zip_with (fun s b => wrap width (s + b)) state sbox.

(** ** The digest *)

Record sha_t := mk_sha { init : bool; current : Z; bit_length : Z; state : list Z; buffer : list Z }.

Definition sha_initialize (d : sha_t) : sha_t := mk_sha false 0 0 initial (buffer d).

Definition block_size : Z := Z.of_nat block.

(** The block in the buffer is full. *)
Definition flush (d : sha_t) : sha_t :=
  mk_sha (init d) 0 (u64 (bit_length d + block_size * 8)) (sha_compress (state d) (buffer d)) (buffer d).

(** The second loop, on the rest of the input. *)
Fixpoint blocks_loop (fuel : nat) (d : sha_t) (data : list Z) : sha_t * list Z :=
  match fuel with
  | O => (d, data)
  | S fuel =>
      if block_size <=? len data then
        blocks_loop fuel
          (mk_sha (init d) (current d) (u64 (bit_length d + block_size * 8)) (sha_compress (state d) (take block data)) (buffer d))
          (drop block data)
      else (d, data)
  end.

Definition sha_digest (d : sha_t) (data : list Z) : sha_t :=
  let d := if init d then sha_initialize d else d in
  let '(d, data) :=
    if negb (current d =? 0) then
      let remain := block_size - current d in
      let this_block := Z.min (len data) remain in
      let buf := write_at (Z.to_nat (current d)) (sub data 0 this_block) (buffer d) in
      let d := mk_sha (init d) (current d + this_block) (bit_length d) (state d) buf in
      (if current d =? block_size then flush d else d, drop (Z.to_nat this_block) data)
    else (d, data) in
  let '(d, data) := blocks_loop (length data) d data in
  if negb (len data =? 0) then mk_sha (init d) (current d + len data) (bit_length d) (state d) (write_at 0 data (buffer d))
  else d.

Definition sha_digest_finalize (d : sha_t) : sha_t :=
  let bits := u64 (bit_length d + current d * 8) in
  let buf := write_at (Z.to_nat (current d)) [128] (buffer d) in
  let current := Z.to_nat (current d + 1) in
  let '(st, buf, current) :=
    if (limit <? current)%nat then
      let buf := write_at current (replicate (block - current) 0) buf in
      (sha_compress (state d) buf, buf, O)
    else (state d, buf, current) in
  let buf := if (current <? zero_to)%nat then write_at current (replicate (zero_to - current) 0) buf else buf in
  let buf := write_at zero_to (le_bytes 8 (byteorder_swap64 bits)) buf in
  mk_sha true (Z.of_nat current) bits (sha_compress st buf) buf.
End sha.

Definition sha256_compress := sha_compress (H := sha256).
Definition sha512_compress := sha_compress (H := sha512).
Definition sha256_initialize := sha_initialize (H := sha256).
Definition sha512_initialize := sha_initialize (H := sha512).
Definition sha256_digest := sha_digest (H := sha256).
Definition sha512_digest := sha_digest (H := sha512).
Definition sha256_digest_finalize := sha_digest_finalize (H := sha256).
Definition sha512_digest_finalize := sha_digest_finalize (H := sha512).

(** The words of the result. *)
Definition sha256_get_digest_raw (d : sha_t) : list Z :=
  map (fun i => Z.lor (shl 64 (state d !!! (2 * i)%nat) 32) (state d !!! (2 * i + 1)%nat)) (seq 0 4).
Definition sha512_get_digest_raw (d : sha_t) : list Z := state d.

Definition sha256_get_digest (d : sha_t) (str : list Z) : list Z * Z := string_from_uint256 str (sha256_get_digest_raw d).
Definition sha512_get_digest (d : sha_t) (str : list Z) : list Z * Z := string_from_uint512 str (sha512_get_digest_raw d).

(** ** The reference, FIPS 180-4 *)
Section fips.
Context `{Sha2}.

Definition Ch (x y z : Z) : Z := Z.lxor (Z.land x y) (Z.land (Z.lnot x) z).
Definition Maj (x y z : Z) : Z := Z.lxor (Z.lxor (Z.land x y) (Z.land x z)) (Z.land y z).

Definition be_bytes (n : nat) (v : Z) : list Z := reverse (le_bytes n v).
Definition be_uint (bs : list Z) : Z := le_uint (reverse bs).

(** The message schedule, section 6.2.2; [fuel] is at least [t]. *)
Fixpoint W (fuel : nat) (b : list Z) (t : nat) : Z :=
  if (t <? 16)%nat then be_uint (take word (drop (word * t) b))
  else
    match fuel with
    | O => 0
    | S fuel => wrap width (gamma1 (W fuel b (t - 2)) + W fuel b (t - 7) + gamma0 (W fuel b (t - 15)) + W fuel b (t - 16))
    end.

(** The variables [a] to [h]. *)
Definition regs : Type := Z * Z * Z * Z * Z * Z * Z * Z.
Definition regs_list (r : regs) : list Z := let '(a, b, c, d, e, f, g, h) := r in [a; b; c; d; e; f; g; h].

Definition fips_round (w : nat -> Z) (r : regs) (t : nat) : regs :=
  let '(a, b, c, d, e, f, g, h) := r in
  let T1 := wrap width (h + sigma1 e + Ch e f g + K !!! t + w t) in
  let T2 := wrap width (sigma0 a + Maj a b c) in
  (wrap width (T1 + T2), a, b, c, wrap width (d + T1), e, f, g).

Definition fips_compress (st : list Z) (b : list Z) : list Z :=
  match st with
  | [a0; b0; c0; d0; e0; f0; g0; h0] =>
      zip_with (fun s v => wrap width (s + v)) st
        (regs_list (foldl (fips_round (fun t => W t b t)) (a0, b0, c0, d0, e0, f0, g0, h0) (seq 0 rounds)))
  | _ => st
  end.

(** The digest of a message shorter than [2^64] bits. *)
Definition fips_hash (m : list Z) : list Z :=
  concat (map (be_bytes word) (hash fips_compress block (block - limit) (be_bytes (block - limit)) initial m)).

(** What holds of the constants. *)
Class Sha2Laws := {
  width_word : width = 8 * Z.of_nat word; word_pos : (0 < word)%nat; block_words : block = (16 * word)%nat;
  rounds_eights : rounds = (8 * (rounds / 8))%nat; rounds_min : (16 <= rounds)%nat;
  field_min : (limit + 8 <= block)%nat; limit_pos : (0 < limit)%nat; zero_to_field : (zero_to + 8 = block)%nat; length_initial : length initial = 8%nat }.
Context `{!Sha2Laws}.

Lemma choise_Ch x y z : choise x y z = Ch x y z.
Proof. unfold choise, Ch. zbits i. decide_bits. by destruct (Z.testbit x i), (Z.testbit y i), (Z.testbit z i). Qed.

Lemma majority_Maj x y z : majority x y z = Maj x y z.
Proof. unfold majority, Maj. zbits i. by destruct (Z.testbit x i), (Z.testbit y i), (Z.testbit z i). Qed.

(** *** The calls on the array are rounds on the variables

    Before call [j] the array holds the variables, rotated by [j] places. *)
Definition rotated (j : nat) (r : regs) : list Z := drop j (regs_list r) ++ take j (regs_list r).

Lemma call_round wbox r i (j : nat) row :
  calls !! j = Some row -> compress_call wbox (rotated j r) row i = rotated (S j) (fips_round (fun t => wbox !!! t) r i).
Proof.
  intros Hj. destruct r as [[[[[[[a b] c] d] e] f] g] h].
  unfold fips_round. rewrite <- choise_Ch, <- majority_Maj.
  do 8 (destruct j as [|j]; [injection Hj as <-; reflexivity|]). done.
Qed.

Lemma calls_rounds wbox r i (j : nat) :
  (j <= 8)%nat ->
  compress_calls wbox (rotated j r) (drop j calls) (i + j) =
  rotated 8 (foldl (fips_round (fun t => wbox !!! t)) r (seq (i + j) (8 - j))).
Proof.
  remember (8 - j)%nat as n eqn:En. revert r j En. induction n as [|n IH]; intros r j En Hj.
  - replace j with 8%nat by lia. done.
  - destruct (lookup_lt_is_Some_2 calls j) as [row Hrow]; [simpl; lia|].
    rewrite (drop_S _ _ _ Hrow). cbn [compress_calls seq foldl]. rewrite (call_round _ _ _ _ _ Hrow).
    rewrite <- Nat.add_succ_r. apply IH; lia.
Qed.

Lemma loop_rounds wbox r i n :
  compress_loop n wbox (regs_list r) i = regs_list (foldl (fips_round (fun t => wbox !!! t)) r (seq i (8 * n))).
Proof.
  assert (forall r, rotated 8 r = regs_list r /\ rotated 0 r = regs_list r) as Hrot
    by (intros q; by destruct q as [[[[[[[? ?] ?] ?] ?] ?] ?] ?]).
  revert r i. induction n as [|n IH]; intros r i; [done|]. cbn [compress_loop].
  pose proof (calls_rounds wbox r i 0 ltac:(lia)) as Hc. rewrite Nat.add_0_r, Nat.sub_0_r, drop_0 in Hc.
  rewrite (proj2 (Hrot r)), (proj1 (Hrot _)) in Hc. rewrite Hc, IH, <- foldl_app, <- seq_app. do 3 f_equal. lia.
Qed.

(** *** The schedule *)

Lemma sha_load_be b : (word <= length b)%nat -> bytes_ok b -> sha_load b = be_uint (take word b).
Proof.
  intros Hl Hb. unfold sha_load, be_uint, byteorder_swap. do 2 f_equal.
  rewrite <- (le_bytes_uint (take word b)) at 2 by (by apply Forall_take). f_equal. rewrite length_take. lia.
Qed.

Lemma extend_schedule b n :
  length b = block -> bytes_ok b ->
  length (foldl extend (load_words b) (seq 16 n)) = (16 + n)%nat /\
  forall t fuel, (t < 16 + n)%nat -> (t <= fuel)%nat -> foldl extend (load_words b) (seq 16 n) !!! t = W fuel b t.
Proof.
  intros Hl Hb. induction n as [|n [IHl IH]].
  - split; [done|]. intros t fuel Ht _. cbn [seq foldl]. unfold load_words.
    assert (map (fun i => sha_load (drop (word * i) b)) (seq 0 16) !! t = Some (sha_load (drop (word * t) b))) as E
      by (rewrite list_lookup_fmap, lookup_seq_lt by lia; done).
    rewrite (list_lookup_total_correct _ _ _ E), sha_load_be; [|rewrite length_drop, Hl, block_words; nia|by apply Forall_drop].
    destruct fuel; cbn [W]; by replace (t <? 16)%nat with true by (symmetry; apply Nat.ltb_lt; lia).
  - rewrite seq_S, foldl_app. cbn [foldl]. set (wbox := foldl extend (load_words b) (seq 16 n)) in *. unfold extend.
    split; [rewrite length_app; simpl; lia|]. intros t fuel Ht Hf. destruct (decide (t < 16 + n)%nat).
    + rewrite lookup_total_app_l by lia. by apply IH.
    + replace t with (16 + n)%nat in * by lia. rewrite lookup_total_app_r by lia. rewrite IHl, Nat.sub_diag. cbn [lookup_total list_lookup_total].
      destruct fuel as [|fuel]; [lia|]. cbn [W]. replace (16 + n <? 16)%nat with false by (symmetry; apply Nat.ltb_ge; lia).
      by rewrite !(IH _ fuel) by lia.
Qed.

Lemma length_regs r : length (regs_list r) = 8%nat.
Proof. by destruct r as [[[[[[[? ?] ?] ?] ?] ?] ?] ?]. Qed.

Lemma foldl_round_ext w w' r l :
  (forall t, t ∈ l -> w t = w' t) -> foldl (fips_round w) r l = foldl (fips_round w') r l.
Proof.
  revert r. induction l as [|t l IH]; intros r E; [done|]. cbn [foldl].
  assert (fips_round w r t = fips_round w' r t) as ->
    by (destruct r as [[[[[[[a b] c] d] e] f] g] h]; unfold fips_round; rewrite E by left; done).
  apply IH. intros u Hu. apply E. by right.
Qed.

Lemma sha_compress_fips st b :
  length st = 8%nat -> length b = block -> bytes_ok b ->
  sha_compress st b = fips_compress st b /\ length (sha_compress st b) = 8%nat.
Proof.
  intros Hst Hl Hb. destruct st as [|a0 [|b0 [|c0 [|d0 [|e0 [|f0 [|g0 [|h0 [|]]]]]]]]]; try done.
  destruct (extend_schedule b (rounds - 16) Hl Hb) as [Hlen Hw]. pose proof rounds_min.
  unfold sha_compress, fips_compress.
  set (wbox := foldl extend (load_words b) (seq 16 (rounds - 16))) in *.
  pose proof (loop_rounds wbox (a0, b0, c0, d0, e0, f0, g0, h0) 0 (rounds / 8)) as Hr. rewrite <- rounds_eights in Hr.
  cbn [regs_list] in Hr. rewrite Hr.
  rewrite (foldl_round_ext (fun t => wbox !!! t) (fun t => W t b t)).
  - split; [done|]. by rewrite length_zip_with, !length_regs.
  - intros t Ht%elem_of_seq. apply Hw; lia.
Qed.

(** ** The digest of the pieces *)

(** The first bytes of the buffer. *)
Definition starts (buf p : list Z) : Prop := length buf = block /\ take (length p) buf = p.

Lemma starts_write buf p x :
  starts buf p -> (length (p ++ x) <= block)%nat -> starts (write_at (length p) x buf) (p ++ x).
Proof.
  intros [Hl Hb] Hf. unfold starts. rewrite length_app in *.
  split; [rewrite length_write_at; lia|]. rewrite take_write_at by lia. by rewrite Hb.
Qed.

Lemma starts_full buf p : starts buf p -> length p = block -> buf = p.
Proof. intros [Hl Hb] Hp. by rewrite <- Hb, take_ge by lia. Qed.

Record digesting (d : sha_t) (m : list Z) : Prop := mk_digesting {
  is_ready : init d = false;
  has_current : current d = len (leftover block m);
  has_length : bit_length d = u64 (8 * (len m - len (leftover block m)));
  has_state : state d = absorb sha_compress block initial m;
  has_buffer : starts (buffer d) (leftover block m) }.

Lemma block_pos : (0 < block)%nat.
Proof. rewrite block_words. pose proof word_pos. lia. Qed.

Lemma sha_digesting_initialize d : length (buffer d) = block -> digesting (sha_initialize d) [].
Proof.
  intros Hl. destruct (absorb_short sha_compress block initial [] block_pos) as [Ea El].
  constructor; cbn [sha_initialize init current bit_length state buffer]; rewrite ?Ea, ?El; done.
Qed.

(** A block that starts with the bytes in the buffer. *)
Lemma absorb_full s m first :
  length (leftover block m ++ first) = block ->
  absorb sha_compress block s (m ++ first) = sha_compress (absorb sha_compress block s m) (leftover block m ++ first) /\
  leftover block (m ++ first) = [].
Proof.
  intros Hl. destruct (absorb_app sha_compress block block_pos s m first) as [-> ->].
  pose proof (absorb_block sha_compress block block_pos (absorb sha_compress block s m) (leftover block m ++ first) [] Hl) as [E1 E2].
  rewrite app_nil_r in E1, E2. rewrite E1, E2. by apply (absorb_short sha_compress block _ [] block_pos).
Qed.

Lemma flush_digesting d m first c :
  digesting d m -> length (leftover block m ++ first) = block ->
  digesting (flush (mk_sha (init d) c (bit_length d) (state d) (write_at (Z.to_nat (current d)) first (buffer d)))) (m ++ first).
Proof.
  intros [Hi Hc Hn Hs [Hl Hb]] Hf. destruct (absorb_full initial m first Hf) as [Ea El].
  pose proof (starts_write _ _ first (conj Hl Hb) ltac:(lia)) as B.
  assert (Z.to_nat (current d) = length (leftover block m)) as Ec by (rewrite Hc; unfold len; lia).
  rewrite <- Ec in B. pose proof (starts_full _ _ B Hf) as B2. constructor; cbn [flush init current bit_length state buffer]; rewrite ?El.
  - done.
  - done.
  - rewrite Hn, wrap_add_l. f_equal. rewrite !len_app. unfold block_size. rewrite length_app in Hf. unfold len. simpl. lia.
  - by rewrite Ea, <- Hs, B2.
  - split; [apply B|done].
Qed.

Lemma store_digesting d m first :
  digesting d m -> (length (leftover block m ++ first) < block)%nat ->
  digesting (mk_sha (init d) (current d + len first) (bit_length d) (state d) (write_at (Z.to_nat (current d)) first (buffer d))) (m ++ first).
Proof.
  intros [Hi Hc Hn Hs [Hl Hb]] Hf. pose proof (starts_write _ _ first (conj Hl Hb) ltac:(lia)) as B.
  assert (Z.to_nat (current d) = length (leftover block m)) as Ec by (rewrite Hc; unfold len; lia). rewrite <- Ec in B.
  destruct (absorb_app sha_compress block block_pos initial m first) as [Ea El].
  destruct (absorb_short sha_compress block (absorb sha_compress block initial m) _ Hf) as [Ea' El'].
  constructor; cbn [init current bit_length state buffer]; rewrite ?El, ?El'.
  - done.
  - by rewrite Hc, len_app.
  - rewrite Hn, !len_app. f_equal. lia.
  - by rewrite Ea, Ea', Hs.
  - done.
Qed.

Lemma blocks_loop_digesting fuel d m data :
  digesting d m -> leftover block m = [] -> (length data <= fuel)%nat ->
  exists pre, digesting (fst (blocks_loop fuel d data)) (m ++ pre) /\ leftover block (m ++ pre) = [] /\
    data = pre ++ snd (blocks_loop fuel d data) /\ (length (snd (blocks_loop fuel d data)) < block)%nat.
Proof.
  revert d m data. pose proof block_pos. induction fuel as [|fuel IH]; intros d m data Hd Hm Hf; cbn [blocks_loop].
  - exists []. rewrite app_nil_r. destruct data; [done|simpl in Hf; lia].
  - destruct (Z.leb_spec block_size (len data)) as [Hle|Hgt]; unfold block_size, len in *.
    + assert (length (leftover block m ++ take block data) = block) as Hb by (rewrite Hm; simpl; rewrite length_take; lia).
      destruct (absorb_full initial m _ Hb) as [Ea El]. destruct Hd as [Hi Hc Hn Hs HB].
      assert (digesting (mk_sha (init d) (current d) (u64 (bit_length d + Z.of_nat block * 8)) (sha_compress (state d) (take block data)) (buffer d)) (m ++ take block data)) as Hd'.
      { constructor; cbn [init current bit_length state buffer]; rewrite ?El; rewrite ?Hm in *.
        - done.
        - done.
        - rewrite Hn, wrap_add_l. f_equal. rewrite len_app. cbn [app] in Hb. unfold len. simpl. lia.
        - by rewrite Ea, <- Hs.
        - done. }
      destruct (IH _ _ (drop block data) Hd' El) as (pre & D1 & D2 & D3 & D4); [rewrite length_drop; lia|].
      exists (take block data ++ pre). rewrite app_assoc. split; [exact D1|]. split; [done|]. split; [|exact D4].
      rewrite <- app_assoc, <- D3. by rewrite take_drop.
    + exists []. rewrite app_nil_r. simpl. split; [done|]. split; [done|]. split; [done|lia].
Qed.

Lemma rest_digesting d m data :
  digesting d m -> leftover block m = [] ->
  digesting
    (let '(d, data) := blocks_loop (length data) d data in
     if negb (len data =? 0) then mk_sha (init d) (current d + len data) (bit_length d) (state d) (write_at 0 data (buffer d))
     else d) (m ++ data).
Proof.
  intros Hd Hm. destruct (blocks_loop_digesting (length data) d m data Hd Hm ltac:(lia)) as (pre & D1 & D2 & D3 & D4).
  destruct (blocks_loop _ _ _) as [d' rest]. cbn [fst snd] in *. subst data. rewrite app_assoc.
  destruct (Z.eqb_spec (len rest) 0) as [E|E]; cbn [negb].
  - assert (rest = []) as -> by (apply len_nil; lia). by rewrite app_nil_r.
  - pose proof (store_digesting d' (m ++ pre) rest D1) as Hs. rewrite D2 in Hs. specialize (Hs D4).
    pose proof (has_current _ _ D1) as Hc. rewrite D2 in Hc. rewrite Hc in Hs |- *. exact Hs.
Qed.

Lemma sha_digest_digesting d m data : digesting d m -> digesting (sha_digest d data) (m ++ data).
Proof.
  intros Hd. pose proof (len_nonneg data). pose proof (length_leftover_lt block block_pos m) as Hr.
  pose proof Hd as [Hi Hc Hn Hs [Hl Hb]]. unfold sha_digest. rewrite Hi.
  destruct (Z.eqb_spec (current d) 0) as [E|E]; cbn [negb].
  - apply rest_digesting; [done|]. apply len_nil. lia.
  - set (k := Z.min (len data) (block_size - current d)). cbn [current].
    assert (k = Z.min (len data) (Z.of_nat block - len (leftover block m))) as Ek by (unfold k, block_size; by rewrite Hc).
    clearbody k. set (first := sub data 0 k).
    assert (len first = k) as Hf by (apply len_sub; unfold len in *; lia).
    assert (first ++ drop (Z.to_nat k) data = data) as Hd2 by (unfold first; rewrite sub_0; apply take_drop).
    rewrite <- Hd2 at 3. rewrite app_assoc.
    destruct (Z.eqb_spec (current d + k) block_size) as [Eb|Eb]; unfold block_size in Eb.
    + assert (length (leftover block m ++ first) = block) as Hfull by (rewrite length_app; unfold len in *; lia).
      apply rest_digesting; [by apply flush_digesting|]. apply (absorb_full initial m first Hfull).
    + assert (k = len data) as Hk by (unfold len in *; lia).
      rewrite drop_ge by (unfold len in Hk; lia). cbn [length blocks_loop]. change (len [] =? 0) with true. cbn [negb].
      rewrite app_nil_r, <- Hf. apply store_digesting; [done|]. rewrite length_app. unfold len in *. lia.
Qed.

(** *** The last blocks *)

Lemma be_bytes_short k v : 0 <= v < 2 ^ 64 -> be_bytes (k + 8) v = replicate k 0 ++ be_bytes 8 v.
Proof.
  intros Hv. unfold be_bytes. rewrite Nat.add_comm, le_bytes_app. change (2 ^ (8 * Z.of_nat 8)) with (2 ^ 64).
  rewrite Z.div_small by done. rewrite reverse_app. f_equal.
  assert (forall k, le_bytes k 0 = replicate k 0) as -> by (induction k0 as [|k0 IH]; [done|]; cbn [le_bytes]; change (0 / 256) with 0; by rewrite IH).
  apply reverse_replicate.
Qed.

(** The zero bytes of the padding. *)
Lemma zeros_last n :
  (n < block)%nat ->
  zeros block (block - limit) n = (if (limit <? n + 1)%nat then block - (n + 1) + limit else limit - (n + 1))%nat.
Proof.
  intros Hn. pose proof field_min. unfold zeros. rewrite (Nat.mod_small n) by done.
  destruct (Nat.ltb_spec limit (n + 1)); [rewrite Nat.mod_small; lia|].
  replace (2 * block - 1 - (block - limit) - n)%nat with (limit - (n + 1) + 1 * block)%nat by lia.
  rewrite Nat.Div0.mod_add. apply Nat.mod_small. lia.
Qed.

(** What the buffer becomes when the length fits behind the message, ... *)
Lemma last_block buf r tail :
  starts buf (r ++ [128]) -> (length r + 1 <= limit)%nat -> length tail = 8%nat ->
  let n := (length r + 1)%nat in
  write_at zero_to tail (if (n <? zero_to)%nat then write_at n (replicate (zero_to - n) 0) buf else buf) =
  r ++ (128 :: replicate (limit - n) 0) ++ replicate (zero_to - limit) 0 ++ tail.
Proof.
  intros Hb Hr Ht n. pose proof field_min. pose proof zero_to_field.
  assert (length (r ++ [128]) = n) as En by (rewrite length_app; simpl; lia).
  set (p := (r ++ [128]) ++ replicate (zero_to - n) 0).
  assert (length p = zero_to) as Ep by (unfold p; rewrite length_app, length_replicate; lia).
  assert (starts (if (n <? zero_to)%nat then write_at n (replicate (zero_to - n) 0) buf else buf) p) as Hp.
  { unfold p. destruct (Nat.ltb_spec n zero_to).
    - rewrite <- En at 1. apply starts_write; [done|]. fold p. lia.
    - replace (zero_to - n)%nat with 0%nat by lia. by rewrite app_nil_r. }
  apply (starts_write _ p tail) in Hp; [|rewrite length_app; lia]. rewrite Ep in Hp.
  rewrite (starts_full _ _ Hp) by (rewrite length_app; lia). unfold p.
  replace (zero_to - n)%nat with (limit - n + (zero_to - limit))%nat by lia. rewrite replicate_add. by rewrite <- !app_assoc.
Qed.

(** ... and when it needs another block. *)
Lemma last_two_blocks buf r tail :
  starts buf (r ++ [128]) -> (limit < length r + 1)%nat -> length tail = 8%nat ->
  let n := (length r + 1)%nat in
  let b1 := write_at n (replicate (block - n) 0) buf in
  let b2 := write_at zero_to tail (write_at 0 (replicate zero_to 0) b1) in
  length b1 = block /\ length b2 = block /\
  b1 ++ b2 = r ++ (128 :: replicate (block - n + limit) 0) ++ replicate (zero_to - limit) 0 ++ tail.
Proof.
  intros Hb Hr Ht n b1 b2. pose proof field_min. pose proof zero_to_field.
  assert (length (r ++ [128]) = n) as En by (rewrite length_app; simpl; lia).
  assert (n <= block)%nat as Hn by (destruct Hb as [Hl Ht']; apply (f_equal length) in Ht'; rewrite length_take in Ht'; lia).
  assert (starts b1 ((r ++ [128]) ++ replicate (block - n) 0)) as B1
    by (unfold b1; rewrite <- En at 1; apply starts_write; [done|]; rewrite length_app, length_replicate; lia).
  apply starts_full in B1 as E1; [|rewrite length_app, length_replicate; lia].
  assert (starts b2 (([] ++ replicate zero_to 0) ++ tail)) as B2.
  { unfold b2. assert (length ([] ++ replicate zero_to 0) = zero_to) as Ez by apply length_replicate. rewrite <- Ez at 1.
    apply starts_write; [|rewrite !length_app, length_replicate; simpl; lia].
    apply (starts_write b1 []); [|rewrite length_app, length_replicate; simpl; lia]. split; [apply B1|done]. }
  apply starts_full in B2 as E2; [|rewrite !length_app, length_replicate; simpl; lia].
  split; [apply B1|]. split; [apply B2|]. rewrite E1, E2, app_nil_l, replicate_add.
  assert (replicate zero_to 0 = replicate limit 0 ++ replicate (zero_to - limit) 0) as -> by (rewrite <- replicate_add; f_equal; lia).
  rewrite <- !app_assoc. cbn [app]. by rewrite <- !app_assoc.
Qed.

Lemma finalize_state d m :
  digesting d m -> 8 * len m < 2 ^ 64 ->
  state (sha_digest_finalize d) = hash sha_compress block (block - limit) (be_bytes (block - limit)) initial m /\
  init (sha_digest_finalize d) = true.
Proof.
  intros [Hi Hc Hn Hs Hb] Hm. pose proof (len_nonneg m). pose proof field_min. pose proof zero_to_field. pose proof block_pos.
  pose proof (length_leftover_lt block block_pos m) as Hr. pose proof (length_leftover block block_pos m) as Hr2.
  unfold sha_digest_finalize, hash.
  destruct (absorb_app sha_compress block block_pos initial m
    (padding block (block - limit) (length m) ++ be_bytes (block - limit) (8 * len m))) as [-> _].
  rewrite <- Hs. unfold padding. assert (zeros block (block - limit) (length m) = zeros block (block - limit) (length (leftover block m))) as ->
    by (unfold zeros; by rewrite Hr2, Nat.Div0.mod_mod).
  rewrite zeros_last by done. set (r := leftover block m) in *.
  assert (u64 (bit_length d + current d * 8) = 8 * len m) as ->.
  { rewrite Hn, Hc, wrap_add_l. replace (8 * (len m - len r) + len r * 8) with (8 * len m) by lia. apply wrap_small. lia. }
  assert (Z.to_nat (current d) = length r) as -> by (rewrite Hc; unfold len; lia).
  assert (Z.to_nat (current d + 1) = length r + 1)%nat as -> by (rewrite Hc; unfold len; lia).
  assert (le_bytes 8 (byteorder_swap64 (8 * len m)) = be_bytes 8 (8 * len m)) as -> by apply (byteorder_swap_bytes 8).
  assert (length (be_bytes 8 (8 * len m)) = 8%nat) as H8 by (unfold be_bytes; by rewrite length_reverse, length_le_bytes).
  replace (block - limit)%nat with (zero_to - limit + 8)%nat by lia. rewrite be_bytes_short by lia.
  set (tail := be_bytes 8 (8 * len m)) in *.
  pose proof (starts_write _ _ [128] Hb ltac:(rewrite length_app; simpl; lia)) as B1. fold r in B1.
  set (buf1 := write_at (length r) [128] (buffer d)) in *.
  destruct (Nat.ltb_spec limit (length r + 1)) as [Hlt|Hge].
  - destruct (last_two_blocks buf1 r tail B1 Hlt H8) as (L1 & L2 & <-). cbv zeta in *.
    replace (0 <? zero_to)%nat with true by (symmetry; apply Nat.ltb_lt; pose proof limit_pos; lia). rewrite Nat.sub_0_r.
    set (b1 := write_at _ _ buf1) in *. set (b2 := write_at zero_to tail _) in *. cbn [state init]. split; [|done].
    rewrite <- (app_nil_r (b1 ++ b2)), <- app_assoc.
    rewrite (proj1 (absorb_block sha_compress block block_pos _ b1 _ L1)), (proj1 (absorb_block sha_compress block block_pos _ b2 _ L2)).
    by rewrite (proj1 (absorb_short sha_compress block _ [] block_pos)).
  - rewrite (last_block buf1 r tail B1 Hge H8). cbn [state init]. split; [|done].
    set (b := r ++ _). rewrite <- (app_nil_r b) at 2.
    rewrite (proj1 (absorb_block sha_compress block block_pos _ b [] ltac:(unfold b; rewrite !length_app; cbn [length]; rewrite !length_replicate; lia))).
    by rewrite (proj1 (absorb_short sha_compress block _ [] block_pos)).
Qed.

Lemma sha_digesting_parts d m parts : digesting d m -> digesting (foldl sha_digest d parts) (m ++ concat parts).
Proof.
  revert d m. induction parts as [|p parts IH]; intros d m Hd; [by rewrite app_nil_r|].
  cbn [foldl concat]. rewrite app_assoc. by apply IH, sha_digest_digesting.
Qed.

(** Eight words. *)
Definition state_ok (st : list Z) : Prop := length st = 8%nat /\ Forall (in_u width) st.

Lemma sha_compress_ok st b :
  state_ok st -> length b = block -> bytes_ok b -> sha_compress st b = fips_compress st b /\ state_ok (sha_compress st b).
Proof.
  intros [Hl _] Hb Hbb. destruct (sha_compress_fips st b Hl Hb Hbb) as [E Hlen]. split; [done|]. split; [done|].
  unfold sha_compress. apply (Forall_zip_with_fst _ (fun _ => True)); [by apply Forall_true|].
  apply Forall_true. intros v x _. apply wrap_in_u. rewrite width_word. lia.
Qed.

Lemma sha_hash_fips m :
  Forall (in_u width) initial -> bytes_ok m ->
  let st := hash sha_compress block (block - limit) (be_bytes (block - limit)) initial m in
  concat (map (be_bytes word) st) = fips_hash m /\ state_ok st.
Proof.
  intros Hi Hm. unfold fips_hash.
  destruct (hash_agree sha_compress fips_compress block block_pos state_ok sha_compress_ok (block - limit) (be_bytes (block - limit)) initial m)
    as [E Hok]; [by split; [apply length_initial|]|intros v; apply Forall_reverse, le_bytes_ok|done|].
  split; [by rewrite E|done].
Qed.

(** The state behind the last piece. *)
Lemma sha_digest_parts d parts :
  init d = true -> length (buffer d) = block -> parts <> [] -> Forall bytes_ok parts -> 8 * len (concat parts) < 2 ^ 64 ->
  Forall (in_u width) initial ->
  let d' := sha_digest_finalize (foldl sha_digest d parts) in
  init d' = true /\ concat (map (be_bytes word) (state d')) = fips_hash (concat parts) /\ state_ok (state d').
Proof.
  intros Hi Hl Hp Hb Hn Hw d'.
  assert (digesting (foldl sha_digest d parts) (concat parts)) as Hd.
  { destruct parts as [|p parts]; [done|]. cbn [foldl]. apply (sha_digesting_parts _ p).
    assert (sha_digest d p = sha_digest (sha_initialize d) p) as -> by (unfold sha_digest; by rewrite Hi).
    by apply (sha_digest_digesting _ []), sha_digesting_initialize. }
  destruct (finalize_state _ _ Hd Hn) as [Hs Hi']. split; [done|]. subst d'. rewrite Hs.
  apply sha_hash_fips; [done|]. by apply Forall_concat.
Qed.
End fips.

#[export] Instance sha256_laws : Sha2Laws (H := sha256).
Proof. constructor; try done; simpl; lia. Qed.

#[export] Instance sha512_laws : Sha2Laws (H := sha512).
Proof. constructor; try done; simpl; lia. Qed.

(** ** The text of a digest *)

Lemma print_x16_be v : 0 <= v < 2 ^ 64 -> print_x16 v = hex_text (be_bytes 8 v).
Proof. apply print_x16_bytes. Qed.

Lemma print_x16_pair a b :
  in_u 32 a -> in_u 32 b -> 0 <= Z.lor (shl 64 a 32) b < 2 ^ 64 /\
  print_x16 (Z.lor (shl 64 a 32) b) = hex_text (be_bytes 4 a ++ be_bytes 4 b).
Proof.
  intros Ha Hb. unfold in_u in *.
  assert (Z.lor (shl 64 a 32) b = b + 2 ^ 32 * a) as E.
  { rewrite (proj2 (disjoint_add 32 b a Hb)), Z.lor_comm. f_equal. unfold shl. apply wrap_small.
    rewrite Z.shiftl_mul_pow2 by lia. eval_pow. lia. }
  assert (0 <= b + 2 ^ 32 * a < 2 ^ 64) as Hr by (eval_pow; lia). rewrite E. split; [done|].
  rewrite print_x16_bytes by done. f_equal. change 8%nat with (4 + 4)%nat. rewrite le_bytes_app, reverse_app.
  change (2 ^ (8 * Z.of_nat 4)) with (2 ^ 32). unfold be_bytes. 
  rewrite (Z.mul_comm (2 ^ 32)), Z.div_add, Z.div_small, Z.add_0_l by (done || lia). f_equal. f_equal.
  rewrite <- (le_bytes_wrap 4 (b + a * 2 ^ 32)), <- (le_bytes_wrap 4 b). change (8 * Z.of_nat 4) with 32.
  f_equal. unfold wrap. by rewrite Z.mod_add.
Qed.

Lemma sha256_text d str :
  state_ok (H := sha256) (state d) -> 64 < len str ->
  let '(buf, n) := sha256_get_digest d str in n = 64 /\ sub buf 0 n = hex_text (concat (map (be_bytes 4) (state d))).
Proof.
  intros [Hl Hw] Hs. destruct (state d) as [|a [|b [|c [|e [|f [|g [|h [|k [|]]]]]]]]] eqn:E; try done.
  repeat (apply Forall_cons in Hw as [? Hw]). unfold sha256_get_digest, string_from_uint256, sha256_get_digest_raw. rewrite E.
  cbn [map seq]. 
  pose proof (print_x16_pair a b ltac:(done) ltac:(done)) as [R1 T1]. pose proof (print_x16_pair c e ltac:(done) ltac:(done)) as [R2 T2].
  pose proof (print_x16_pair f g ltac:(done) ltac:(done)) as [R3 T3]. pose proof (print_x16_pair h k ltac:(done) ltac:(done)) as [R4 T4].
  set (ws := [Z.lor (shl 64 a 32) b; Z.lor (shl 64 c 32) e; Z.lor (shl 64 f 32) g; Z.lor (shl 64 h 32) k]).
  pose proof (from_words_text str ws ltac:(by repeat constructor; try apply R1; try apply R2; try apply R3; try apply R4) Hs) as Hf.
  change (let '(buf, n) := from_words str ws in n = 64 /\ sub buf 0 n = hex_text (concat (map (be_bytes 4) [a; b; c; e; f; g; h; k]))).
  destruct (from_words str ws) as [buf n]. destruct Hf as (_ & -> & ->). split; [done|].
  unfold words_text, ws. cbn [map concat]. rewrite T1, T2, T3, T4. unfold hex_text. rewrite !map_app, !concat_app, <- !app_assoc. done.
Qed.

Lemma sha512_text d str :
  state_ok (H := sha512) (state d) -> 128 < len str ->
  let '(buf, n) := sha512_get_digest d str in n = 128 /\ sub buf 0 n = hex_text (concat (map (be_bytes 8) (state d))).
Proof.
  intros [Hl Hw] Hs. unfold sha512_get_digest, string_from_uint512, sha512_get_digest_raw.
  pose proof (from_words_text str (state d) Hw ltac:(rewrite Hl; exact Hs)) as Hf.
  destruct (from_words str (state d)) as [buf n]. destruct Hf as (_ & -> & ->). rewrite Hl. split; [done|]. clear Hl.
  unfold words_text. induction Hw as [|v l Hv _ IH]; [done|]. cbn [map concat]. unfold hex_text in *. rewrite map_app, concat_app.
  f_equal; [by apply print_x16_be|exact IH].
Qed.

(** C35: the SHA-256 and SHA-512 digests of a message do not depend on how it is
    cut into pieces: they are the digests of FIPS 180-4 of the whole message, and
    their texts are the hexadecimal digits of its bytes. *)
Theorem sha_digest_spec d256 d512 parts str :
  init d256 = true -> length (buffer d256) = 64%nat -> init d512 = true -> length (buffer d512) = 128%nat ->
  parts <> [] -> Forall bytes_ok parts -> 8 * len (concat parts) < 2 ^ 64 -> 128 < len str ->
  (let '(text, n) := sha256_get_digest (sha256_digest_finalize (foldl sha256_digest d256 parts)) str in
   n = 64 /\ sub text 0 n = hex_text (fips_hash (H := sha256) (concat parts))) /\
  (let '(text, n) := sha512_get_digest (sha512_digest_finalize (foldl sha512_digest d512 parts)) str in
   n = 128 /\ sub text 0 n = hex_text (fips_hash (H := sha512) (concat parts))).
Proof.
  intros H1 L1 H2 L2 Hp Hb Hn Hs. split.
  - destruct (sha_digest_parts (H := sha256) d256 parts H1 L1 Hp Hb Hn) as (_ & <- & Hok).
    { cbn [initial sha256]. unfold initial256. repeat constructor; lia. }
    apply sha256_text; [done|lia].
  - destruct (sha_digest_parts (H := sha512) d512 parts H2 L2 Hp Hb Hn) as (_ & <- & Hok).
    { cbn [initial sha512]. unfold initial512. repeat constructor; lia. }
    apply sha512_text; [done|lia].
Qed.

Definition fresh (n : nat) : sha_t := mk_sha true 0 0 [] (replicate n 0).

Lemma sha_digest_spec_witness :
  (let '(text, n) := sha256_get_digest (sha256_digest_finalize (foldl sha256_digest (fresh 64) [[97]; [98; 99]])) (replicate 130 0) in
   n = 64 /\ sub text 0 n = hex_text (fips_hash (H := sha256) (concat [[97]; [98; 99]]))) /\
  (let '(text, n) := sha512_get_digest (sha512_digest_finalize (foldl sha512_digest (fresh 128) [[97]; [98; 99]])) (replicate 130 0) in
   n = 128 /\ sub text 0 n = hex_text (fips_hash (H := sha512) (concat [[97]; [98; 99]]))).
Proof.
  apply (sha_digest_spec (fresh 64) (fresh 128) [[97]; [98; 99]] (replicate 130 0)); try done.
  repeat constructor; unfold byte_ok; lia.
Defined.

(** The vectors of FIPS 180-4 for ["abc"]. *)
Example sha_vectors :
  concat (map (be_bytes 4) (state (sha256_digest_finalize (sha256_digest (fresh 64) [97; 98; 99])))) =
    be_bytes 32 0xba7816bf8f01cfea414140de5dae2223b00361a396177a9cb410ff61f20015ad /\
  concat (map (be_bytes 8) (state (sha512_digest_finalize (sha512_digest (fresh 128) [97; 98; 99])))) =
    be_bytes 64 0xddaf35a193617abacc417349ae20413112e6fa4e89a97ea20a9eeee64b55d39a2192992a274fc1a836ba3c23a3feebbd454d4423643ce80e2a9ac94fa54ca49f.
Proof. by vm_compute. Qed.
End Sha.
