(* ===== verification/Uuid.v ===== *)
(** * Unique identifiers ([src/library/foundation_lib/foundation/uuid.c])

    Identifiers of random numbers, of the time and of a name in a name space,
    and their text.  The unions of the code are conversions through the 16 bytes
    of an identifier in the memory of a little-endian machine. *)
From S2P Require Import Prelude Str StrBuf StrNum Digest Md5 Random.

Module Uuid.
Import Str StrBuf StrNum Digest.

(** ** Representations *)

(** The two words of a [uint128_t]. *)
Record uuid_t := mk_uuid { word0 : Z; word1 : Z }.

Record uuid_raw_t := mk_raw { data1 : Z; data2 : Z; data3 : Z; data4 : list Z }.

Record uuid_time_t := mk_time {
  time_low : Z; time_mid : Z; time_hi_and_version : Z; clock_seq_hi_and_reserved : Z; clock_seq_low : Z; node : list Z }.

Definition uuid_memory (u : uuid_t) : list Z := le_bytes 8 (word0 u) ++ le_bytes 8 (word1 u).
Definition memory_uuid (m : list Z) : uuid_t := mk_uuid (le_uint (take 8 m)) (le_uint (take 8 (drop 8 m))).
Definition raw_memory (r : uuid_raw_t) : list Z := le_bytes 4 (data1 r) ++ le_bytes 2 (data2 r) ++ le_bytes 2 (data3 r) ++ data4 r.
Definition memory_raw (m : list Z) : uuid_raw_t :=
  mk_raw (le_uint (take 4 m)) (le_uint (take 2 (drop 4 m))) (le_uint (take 2 (drop 6 m))) (take 8 (drop 8 m)).
Definition time_memory (t : uuid_time_t) : list Z :=
  le_bytes 4 (time_low t) ++ le_bytes 2 (time_mid t) ++ le_bytes 2 (time_hi_and_version t) ++ [clock_seq_hi_and_reserved t; clock_seq_low t] ++ node t.

Definition uuid_null : uuid_t := mk_uuid 0 0.
Definition uuid_equal (u0 u1 : uuid_t) : bool := (word0 u0 =? word0 u1) && (word1 u0 =? word1 u1).
Definition uuid_is_null (u : uuid_t) : bool := (word0 u =? 0) && (word1 u =? 0).

Definition UUID_DNS : uuid_t := mk_uuid 0x11d19dad6ba7b810 0xc830d44fc000b480.

(** ** Generating *)

(** [l[0] = f(l[0])] *)
Definition on_first (f : Z -> Z) (l : list Z) : list Z := alter f 0%nat l.

(** The variant in the first byte of [data4]. *)
Definition variant (b : Z) : Z := Z.lor (Z.land b 0x3F) 0x80.

Section generate.
Context {HU : Random.UndefinedShift}.

(** The state of the generator of random numbers is threaded through. *)
Definition uuid_generate_random (state : list Z) : option (uuid_t * list Z) :=
  '(r0, state) ← Random.random64 state;
  '(r1, state) ← Random.random64 state;
  let raw := memory_raw (uuid_memory (mk_uuid r0 r1)) in
  let raw := mk_raw (data1 raw) (data2 raw) (Z.lor (Z.land (data3 raw) 0x0FFF) 0x4000) (on_first variant (data4 raw)) in
  Some (memory_uuid (raw_memory raw), state).

(** The counter is signed; the last host identifier is kept. *)
Record uuid_state := mk_uuid_state { uuid_last_counter : Z; uuid_last_hostid : Z }.

Fixpoint random_node (n : nat) (state : list Z) : option (list Z * list Z) :=
  match n with
  | O => Some ([], state)
  | S n => '(r, state) ← Random.random32 state; '(l, state) ← random_node n state; Some (Z.land r 0xFF :: l, state)
  end.

Definition current_tick (current_time current_counter : Z) : Z := current_time * 10000 + current_counter + 0x01B21DD213814000.

Definition uuid_generate_time (current_time system_hostid : Z) (s : uuid_state) (state : list Z) : option (uuid_t * uuid_state * list Z) :=
  let counter := sint 32 (uuid_last_counter s + 1) in
  let tick := current_tick current_time (Z.rem counter 10000) in
  '(clock_seq, state) ← Random.random32 state;
  let host_id := if uuid_last_hostid s =? 0 then system_hostid else uuid_last_hostid s in
  '(node, state) ← (if negb (host_id =? 0) then Some (reverse (map (fun i => Z.land (Z.shiftr host_id (8 * i)) 0xFF) (seqZ 0 6)), state)
                    else '(node, state) ← random_node 6 state; Some (on_first (fun b => Z.lor b 0x01) node, state));
  let t := mk_time (Z.land tick 0xFFFFFFFF) (Z.land (Z.shiftr tick 32) 0xFFFF)
             (Z.lor (Z.land (Z.land (Z.shiftr tick 48) 0xFFFF) 0x0FFF) (Z.shiftl 1 12))
             (variant (Z.shiftr (Z.land clock_seq 0x3F00) 8)) (Z.land clock_seq 0xFF) node in
  Some (memory_uuid (time_memory t), mk_uuid_state counter host_id, state).

End generate.

Definition uuid_generate_name (ns : uuid_t) (name : list Z) (md5 : Md5.md5_t) : uuid_t :=
  let r := memory_raw (uuid_memory ns) in
  let namespace_id := mk_raw (byteorder_swap32 (data1 r)) (byteorder_swap16 (data2 r)) (byteorder_swap16 (data3 r)) (data4 r) in
  let md5 := Md5.md5_initialize md5 in
  let md5 := Md5.md5_digest md5 (raw_memory namespace_id) in
  let md5 := Md5.md5_digest md5 name in
  let md5 := Md5.md5_digest_finalize md5 in
  let digest := Md5.md5_get_digest_raw md5 in
  let r := memory_raw (concat (map (le_bytes 8) digest)) in
  let r := mk_raw (byteorder_swap32 (data1 r)) (byteorder_swap16 (data2 r)) (byteorder_swap16 (data3 r)) (data4 r) in
  let r := mk_raw (data1 r) (data2 r) (Z.lor (Z.land (data3 r) 0x0FFF) (Z.shiftl 3 12)) (on_first variant (data4 r)) in
  memory_uuid (raw_memory r).

(** ** Text *)

(** ["%08x-%04x-%04x-%02x%02x-%02x%02x%02x%02x%02x%02x"] *)
Inductive directive := Hex (width : nat) | Dash.
Definition UUID_FORMAT : list directive :=
  [Hex 8; Dash; Hex 4; Dash; Hex 4; Dash; Hex 2; Hex 2; Dash; Hex 2; Hex 2; Hex 2; Hex 2; Hex 2; Hex 2].

(** [printf] for values of at most as many digits as the width. *)
Fixpoint print (format : list directive) (vals : list Z) : list Z :=
  match format with
  | [] => []
  | Dash :: format => 45 :: print format vals
  | Hex width :: format => match vals with v :: vals => hex_digits width v ++ print format vals | [] => [] end
  end.

(** [sscanf] of the C library: [%x] with a width skips white space and takes a
    sign, the prefix [0x] and digits, at most as many characters as the width,
    which give the value of an [unsigned int]. *)
Fixpoint scan_digits (width : nat) (s : list Z) (acc : option Z) : option Z * list Z :=
  match width, s with
  | S width, c :: s' =>
      match digit_in 16 c with Some d => scan_digits width s' (Some (default 0 acc * 16 + d)) | None => (acc, s) end
  | _, _ => (acc, s)
  end.

Definition scan_x (width : nat) (s : list Z) : option (Z * list Z) :=
  let s := skip_space s in
  let '(negative, width, s) :=
    match s with 45 :: s' => (true, pred width, s') | 43 :: s' => (false, pred width, s') | _ => (false, width, s) end in
  let '(width, s) :=
    match s with
    | 48 :: x :: s' => if (1 <? width)%nat && ((x =? 120) || (x =? 88)) then ((width - 2)%nat, s') else (width, s)
    | _ => (width, s)
    end in
  match scan_digits width s None with
  | (Some v, s) => Some (u32 (if (negative : bool) then - v else v), s)
  | (None, _) => None
  end.

(** The values, when all conversions succeed. *)
Fixpoint scan (format : list directive) (s : list Z) : option (list Z) :=
  match format with
  | [] => Some []
  | Dash :: format => match s with 45 :: s => scan format s | _ => None end
  | Hex width :: format => '(v, s) ← scan_x width s; vals ← scan format s; Some (v :: vals)
  end.

Definition string_from_uuid (buffer : list Z) (val : uuid_t) : list Z * Z :=
  if len buffer =? 0 then (buffer, 0)
  else
    let r := memory_raw (uuid_memory val) in
    let '(buffer, n) := snprintf buffer (print UUID_FORMAT (data1 r :: data2 r :: data3 r :: data4 r)) in
    if len buffer <? n then (<[Z.to_nat (len buffer - 1) := 0]> buffer, len buffer - 1) else (buffer, n).

(** [str] is the string up to its terminating zero, whatever [length] says. *)
Definition string_to_uuid (str : list Z) (length : Z) : uuid_t :=
  if length =? 0 then uuid_null
  else
    match scan UUID_FORMAT str with
    | Some (d1 :: d2 :: d3 :: data) => memory_uuid (raw_memory (mk_raw d1 (u16 d2) (u16 d3) (map u8 data)))
    | _ => uuid_null
    end.

(** ** Memory *)

Definition uuid_ok (u : uuid_t) : Prop := in_u 64 (word0 u) /\ in_u 64 (word1 u).

Definition memory_ok (m : list Z) : Prop := bytes_ok m /\ length m = 16%nat.

Lemma uuid_memory_ok u : memory_ok (uuid_memory u).
Proof. unfold uuid_memory. split; [|by rewrite length_app, !length_le_bytes]. apply Forall_app. split; apply le_bytes_ok. Qed.

Lemma memory_uuid_memory u : uuid_ok u -> memory_uuid (uuid_memory u) = u.
Proof.
  intros [H0 H1]. unfold memory_uuid, uuid_memory. rewrite take_app_length', drop_app_length' by (by rewrite length_le_bytes).
  rewrite (take_ge (le_bytes 8 (word1 u))) by (by rewrite length_le_bytes). rewrite !le_uint_bytes by done. by destruct u.
Qed.

Lemma le_bytes_le_uint n e : bytes_ok e -> length e = n -> le_bytes n (le_uint e) = e.
Proof. intros He <-. by apply le_bytes_uint. Qed.

Lemma uuid_memory_uuid m : memory_ok m -> uuid_memory (memory_uuid m) = m.
Proof.
  intros [Hb Hl]. unfold memory_uuid, uuid_memory. cbn [word0 word1]. assert (length (drop 8 m) = 8%nat) as Hd by (rewrite length_drop; lia).
  rewrite (take_ge (drop 8 m)) by lia.
  rewrite !le_bytes_le_uint by (rewrite ?length_take; first [by apply Forall_take|by apply Forall_drop|lia]). apply take_drop.
Qed.

Lemma raw_memory_raw m : memory_ok m -> raw_memory (memory_raw m) = m.
Proof.
  intros [Hb Hl]. unfold memory_raw, raw_memory. cbn [data1 data2 data3 data4].
  rewrite !le_bytes_le_uint by (rewrite ?length_take, ?length_drop; first [by apply Forall_take, Forall_drop|by apply Forall_take|lia]).
  rewrite (take_ge (drop 8 m)) by (rewrite length_drop; lia).
  rewrite <- (take_drop 4 m) at 5. rewrite <- (take_drop 2 (drop 4 m)) at 2. rewrite <- (take_drop 2 (drop 2 (drop 4 m))). by rewrite !drop_drop.
Qed.

(** A raw value whose fields are in the range of their types. *)
Definition raw_ok (r : uuid_raw_t) : Prop :=
  in_u 32 (data1 r) /\ in_u 16 (data2 r) /\ in_u 16 (data3 r) /\ bytes_ok (data4 r) /\ length (data4 r) = 8%nat.

Lemma raw_memory_ok r : raw_ok r -> memory_ok (raw_memory r).
Proof.
  intros (_ & _ & _ & Hb & Hl). unfold memory_ok, raw_memory. rewrite !length_app, !length_le_bytes, Hl, !Forall_app.
  split; [|done]. by repeat split; try apply le_bytes_ok.
Qed.

Lemma memory_raw_memory r : raw_ok r -> memory_raw (raw_memory r) = r.
Proof.
  intros (H1 & H2 & H3 & _ & Hl). unfold memory_raw, raw_memory.
  assert (forall a b c d : list Z, length a = 4%nat -> length b = 2%nat -> length c = 2%nat -> length d = 8%nat ->
    take 4 (a ++ b ++ c ++ d) = a /\ take 2 (drop 4 (a ++ b ++ c ++ d)) = b /\ take 2 (drop 6 (a ++ b ++ c ++ d)) = c /\ take 8 (drop 8 (a ++ b ++ c ++ d)) = d) as Hcut.
  { intros a b c d Ha Hb Hc Hd. rewrite take_app_length', drop_app_length', take_app_length' by done. split; [done|]. split; [done|].
    rewrite (app_assoc a b), drop_app_length' by (rewrite length_app; lia). rewrite take_app_length' by done. split; [done|].
    rewrite (app_assoc (a ++ b)), drop_app_length' by (rewrite !length_app; lia). by rewrite take_ge by lia. }
  destruct (Hcut (le_bytes 4 (data1 r)) (le_bytes 2 (data2 r)) (le_bytes 2 (data3 r)) (data4 r)) as (-> & -> & -> & ->); [apply length_le_bytes..|done|].
  rewrite !le_uint_bytes by done. by destruct r.
Qed.

Lemma memory_raw_ok m : memory_ok m -> raw_ok (memory_raw m).
Proof.
  intros [Hb Hl]. unfold raw_ok, memory_raw, in_u. cbn [data1 data2 data3 data4].
  assert (forall i n, (i + n <= 16)%nat -> bytes_ok (take n (drop i m)) /\ length (take n (drop i m)) = n) as Hs.
  { intros i n Hi. split; [by apply Forall_take, Forall_drop|]. rewrite length_take, length_drop. lia. }
  assert (forall i n, (i + n <= 16)%nat -> 0 <= le_uint (take n (drop i m)) < 2 ^ (8 * Z.of_nat n)) as Hr.
  { intros i n Hi. destruct (Hs i n Hi) as [H1 H2]. rewrite <- H2 at 3. by apply le_uint_range. }
  split; [apply (Hr 0%nat 4%nat); lia|]. split; [apply (Hr 4%nat 2%nat); lia|]. split; [apply (Hr 6%nat 2%nat); lia|]. apply Hs. lia.
Qed.

(** ** Text *)

(** The bytes in the order of the text, which is the order of the network. *)
Definition network_bytes (u : uuid_t) : list Z :=
  let m := uuid_memory u in reverse (take 4 m) ++ reverse (take 2 (drop 4 m)) ++ reverse (take 2 (drop 6 m)) ++ drop 8 m.

(** 8-4-4-4-12 digits. *)
Definition dashed (bs : list Z) : list Z :=
  hex_text (take 4 bs) ++ 45 :: hex_text (take 2 (drop 4 bs)) ++ 45 :: hex_text (take 2 (drop 6 bs)) ++ 45 ::
  hex_text (take 2 (drop 8 bs)) ++ 45 :: hex_text (drop 10 bs).

Lemma base_16 : base_ok 16.
Proof. by right. Qed.

Lemma scan_digits_hex k m v rest acc :
  0 <= v < 16 ^ Z.of_nat k -> (0 < k)%nat ->
  scan_digits (k + m) (hex_digits k v ++ rest) acc = scan_digits m rest (Some (default 0 acc * 16 ^ Z.of_nat k + v)).
Proof.
  revert m v rest acc. induction k as [|k IH]; intros m v rest acc Hv Hk; [lia|]. cbn [hex_digits]. rewrite <- app_assoc. cbn [app].
  rewrite Nat2Z.inj_succ, Z.pow_succ_r in * by lia. pose proof (Z.mod_pos_bound v 16 ltac:(lia)) as Hm. pose proof (Z.div_mod v 16 ltac:(lia)).
  assert (forall w rest a, scan_digits (S w) (digit_char (v mod 16) :: rest) a = scan_digits w rest (Some (default 0 a * 16 + v mod 16))) as Hone.
  { intros w r a. cbn [scan_digits]. by rewrite (digit_in_char 16) by (done || apply base_16). }
  destruct k as [|k].
  - cbn [hex_digits app Nat.add]. rewrite Hone. change (16 ^ Z.of_nat 0) with 1 in *. do 3 f_equal. assert (v / 16 = 0) by (apply Z.div_small; lia). lia.
  - replace (S (S k) + m)%nat with (S k + S m)%nat by lia. rewrite IH; [|split; [apply Z.div_pos; lia|apply Z.div_lt_upper_bound; lia]|lia].
    rewrite Hone. cbn [default from_option]. do 2 f_equal. unfold default, id. lia.
Qed.

Lemma hex_digits_head k v : 0 <= v -> (0 < k)%nat -> exists d l, 0 <= d < 16 /\ hex_digits k v = digit_char d :: l /\ Forall (fun c => c <> 120 /\ c <> 88) l.
Proof.
  revert v. induction k as [|k IH]; intros v Hv Hk; [lia|]. cbn [hex_digits].
  assert (forall d, 0 <= d < 16 -> digit_char d <> 120 /\ digit_char d <> 88) as Hx.
  { intros d Hd. pose proof (digit_char_cases 16 d base_16 Hd) as H. cbn zeta in H. tauto. }
  pose proof (Z.mod_pos_bound v 16 ltac:(lia)) as Hm. destruct k as [|k]; [by exists (v mod 16), []|].
  destruct (IH (v / 16)) as (d & l & Hd & -> & Hl); [apply Z.div_pos; lia|lia|]. exists d, (l ++ [digit_char (v mod 16)]).
  split; [done|]. split; [done|]. apply Forall_app. split; [done|]. constructor; [by apply Hx|done].
Qed.

Lemma scan_x_hex k v rest :
  0 <= v < 16 ^ Z.of_nat k -> (0 < k <= 8)%nat -> (match rest with c :: _ => c <> 120 /\ c <> 88 | [] => True end) ->
  scan_x k (hex_digits k v ++ rest) = Some (v, rest).
Proof.
  intros Hv Hk Hrest. pose proof (scan_digits_hex k 0 v rest None Hv ltac:(lia)) as Hscan. rewrite Nat.add_0_r in Hscan.
  assert (v < 2 ^ 32) by (assert (16 ^ Z.of_nat k <= 16 ^ 8) by (apply Z.pow_le_mono_r; lia); change (2 ^ 32) with (16 ^ 8); lia).
  destruct (hex_digits_head k v) as (d & l & Hd & Ed & Hl); [lia|lia|]. rewrite Ed in *. cbn [app] in *.
  pose proof (digit_char_cases 16 d base_16 Hd) as (Hs & H45 & H43 & _). unfold scan_x. cbn [skip_space]. rewrite Hs.
  assert (match l ++ rest with c :: _ => c <> 120 /\ c <> 88 | [] => True end) as Hl' by (destruct l; [done|]; by inversion Hl).
  assert (forall z : Z, z <> 45 -> z <> 43 -> forall (A : Type) (p q r : A), match z with 45 => p | 43 => q | _ => r end = r) as Hsign.
  { intros z Hz1 Hz2 A p q r. repeat match goal with |- context [match ?z with _ => _ end] => is_var z; destruct z; try done end. }
  rewrite (Hsign _ H45 H43). cbn beta iota zeta.
  assert (forall (z : Z) (A : Type) (p q : A), p = q -> match z with 48 => p | _ => q end = q) as Hzero.
  { intros z A p q ->. repeat match goal with |- context [match ?z with _ => _ end] => is_var z; destruct z; try done end. }
  rewrite Hzero; [|destruct (l ++ rest) as [|y l']; [done|]; replace ((y =? 120) || (y =? 88)) with false by lia; by rewrite andb_false_r].
  rewrite Hscan. transitivity (Some (u32 v, rest)); [reflexivity|]. do 2 f_equal. apply wrap_small. lia.
Qed.

(** Values that fit a format. *)
Fixpoint fitting (format : list directive) (vals : list Z) : Prop :=
  match format, vals with
  | [], [] => True
  | Dash :: format, vals => fitting format vals
  | Hex width :: format, v :: vals => (0 < width <= 8)%nat /\ 0 <= v < 16 ^ Z.of_nat width /\ fitting format vals
  | _, _ => False
  end.

Lemma print_head format vals : fitting format vals -> match print format vals with c :: _ => c <> 120 /\ c <> 88 | [] => True end.
Proof.
  destruct format as [|[w|] format]; [done| |done]. destruct vals as [|v vals]; [done|]. intros (Hw & Hv & _). cbn [print].
  destruct (hex_digits_head w v) as (d & l & Hd & -> & _); [lia|lia|]. cbn [app]. pose proof (digit_char_cases 16 d base_16 Hd) as H. cbn zeta in H. tauto.
Qed.

(** What is printed with a format is scanned with it. *)
Lemma scan_print format vals : fitting format vals -> scan format (print format vals) = Some vals.
Proof.
  revert vals. induction format as [|[w|] format IH]; intros vals; [by destruct vals| |apply IH].
  destruct vals as [|v vals]; [done|]. intros (Hw & Hv & Hf). cbn [print scan]. rewrite scan_x_hex by (done || by apply print_head).
  cbn [mbind option_bind]. by rewrite IH.
Qed.

(** Sixteen bytes one by one. *)
Ltac each_byte m Hl := do 16 (destruct m as [|? m]; [discriminate Hl|]); destruct m; [|discriminate Hl]; clear Hl.

Lemma hex_digits_le n e : bytes_ok e -> length e = n -> hex_digits (2 * n) (le_uint e) = hex_text (reverse e).
Proof. intros Hb <-. by rewrite hex_digits_bytes, le_bytes_uint. Qed.

Lemma hex_digits_byte b : byte_ok b -> hex_digits 2 b = hex_text [b].
Proof. intros Hb. rewrite (hex_digits_bytes 1). cbn [le_bytes]. by rewrite Z.mod_small. Qed.

Definition fields (r : uuid_raw_t) : list Z := data1 r :: data2 r :: data3 r :: data4 r.

Lemma print_fields m : memory_ok m ->
  print UUID_FORMAT (fields (memory_raw m)) = dashed (reverse (take 4 m) ++ reverse (take 2 (drop 4 m)) ++ reverse (take 2 (drop 6 m)) ++ drop 8 m).
Proof.
  intros [Hb Hl]. assert (forall i n, (i + n <= 16)%nat -> hex_digits (2 * n) (le_uint (take n (drop i m))) = hex_text (reverse (take n (drop i m)))) as Hx.
  { intros i n Hi. apply hex_digits_le; [by apply Forall_take, Forall_drop|]. rewrite length_take, length_drop. lia. }
  unfold fields, memory_raw. cbn [data1 data2 data3 data4]. cbn [UUID_FORMAT print].
  assert (hex_digits 8 (le_uint (take 4 m)) = hex_text (reverse (take 4 m))) as -> by exact (Hx 0%nat 4%nat ltac:(lia)).
  assert (hex_digits 4 (le_uint (take 2 (drop 4 m))) = hex_text (reverse (take 2 (drop 4 m)))) as -> by exact (Hx 4%nat 2%nat ltac:(lia)).
  assert (hex_digits 4 (le_uint (take 2 (drop 6 m))) = hex_text (reverse (take 2 (drop 6 m)))) as -> by exact (Hx 6%nat 2%nat ltac:(lia)). clear Hx.
  each_byte m Hl. rewrite !Forall_cons in Hb. destruct_and!. cbn [take drop]. rewrite !hex_digits_byte by done. reflexivity.
Qed.

Lemma fields_fit r : raw_ok r -> fitting UUID_FORMAT (fields r).
Proof.
  intros (H1 & H2 & H3 & Hb & Hl). unfold fields, in_u in *. destruct (data4 r) as [|b0 [|b1 [|b2 [|b3 [|b4 [|b5 [|b6 [|b7 [|]]]]]]]]]; try discriminate Hl.
  rewrite !Forall_cons in Hb. unfold byte_ok in Hb. change 256 with (16 ^ 2) in Hb. cbn [UUID_FORMAT fitting]. destruct_and!. change (2 ^ 32) with (16 ^ 8) in *. change (2 ^ 16) with (16 ^ 4) in *.
  repeat split; lia.
Qed.

Lemma dashed_length bs : length bs = 16%nat -> len (dashed bs) = 36.
Proof. intros Hl. each_byte bs Hl. reflexivity. Qed.

(** An identifier as text and back: in a buffer of more than 36 characters
    [string_from_uuid] stores the digits of its bytes in network order in groups
    of 8, 4, 4, 4 and 12, and [string_to_uuid] of this text is the identifier. *)
Theorem uuid_text_roundtrip (u : uuid_t) (buffer : list Z) (length : Z) :
  uuid_ok u -> 36 < len buffer -> length <> 0 ->
  let '(buffer', n) := string_from_uuid buffer u in
  len buffer' = len buffer /\ n = 36 /\ sub buffer' 0 n = dashed (network_bytes u) /\ string_to_uuid (sub buffer' 0 n) length = u.
Proof.
  intros Hu Hlen Hl. pose proof (uuid_memory_ok u) as Hm. pose proof (print_fields _ Hm) as Htext. pose proof (memory_raw_ok _ Hm) as Hr.
  pose proof (scan_print _ _ (fields_fit _ Hr)) as Hscan. unfold string_from_uuid. replace (len buffer =? 0) with false by lia.
  fold (fields (memory_raw (uuid_memory u))). rewrite Htext in *. fold (network_bytes u) in *.
  assert (len (dashed (network_bytes u)) = 36) as H36. { apply dashed_length. unfold network_bytes. destruct Hm as [_ H16]. rewrite !length_app, !length_reverse, !length_take, !length_drop. lia. }
  unfold snprintf. destruct (copy_whole buffer (dashed (network_bytes u)) ltac:(lia)) as [E1 E2]. rewrite H36 in *.
  replace (len buffer <? 36) with false by lia. rewrite E1. replace (len buffer <? 36) with false by lia. split; [done|]. split; [done|]. split; [done|].
  rewrite E2. unfold string_to_uuid. replace (length =? 0) with false by lia. rewrite Hscan. unfold fields.
  transitivity (memory_uuid (raw_memory (memory_raw (uuid_memory u)))); [|by rewrite raw_memory_raw, memory_uuid_memory].
  do 2 f_equal. destruct Hr as (H1 & H2 & H3 & H4 & _). destruct (memory_raw (uuid_memory u)) as [d1 d2 d3 d4]. cbn [data1 data2 data3 data4] in *. f_equal.
  - by apply wrap_small.
  - by apply wrap_small.
  - clear -H4. induction H4 as [|b l Hb _ IH]; [done|]. cbn [map]. rewrite IH. f_equal. by apply wrap_small.
Qed.

Definition sample_uuid : uuid_t := mk_uuid 0x11d19dad0ba7b810 0xc830d44fc000b480.

(** "0ba7b810-9dad-11d1-80b4-00c04fd430c8" *)
Example uuid_text_roundtrip_witness :
  uuid_ok sample_uuid /\
  let '(buffer', n) := string_from_uuid (replicate 40 0) sample_uuid in
  len buffer' = 40 /\ n = 36 /\ sub buffer' 0 n = dashed (network_bytes sample_uuid) /\ string_to_uuid (sub buffer' 0 n) 36 = sample_uuid.
Proof. split; [done|]. apply (uuid_text_roundtrip sample_uuid (replicate 40 0) 36); done. Defined.

(** ** Versions *)

Definition version (u : uuid_t) : Z := Z.shiftr (data3 (memory_raw (uuid_memory u))) 12.
Definition variant_bits (u : uuid_t) : Z := Z.shiftr (data4 (memory_raw (uuid_memory u)) !!! 0%nat) 6.

(** An identifier of RFC 4122 of the version [v]. *)
Definition well_formed (v : Z) (u : uuid_t) : Prop := uuid_ok u /\ version u = v /\ variant_bits u = 2.

Lemma memory_uuid_ok m : memory_ok m -> uuid_ok (memory_uuid m).
Proof.
  intros [Hb Hl]. unfold uuid_ok, memory_uuid, in_u. cbn [word0 word1]. split.
  - assert (length (take 8 m) = 8%nat) as E by (rewrite length_take; lia). pose proof (le_uint_range (take 8 m) ltac:(by apply Forall_take)) as H. by rewrite E in H.
  - assert (length (take 8 (drop 8 m)) = 8%nat) as E by (rewrite length_take, length_drop; lia).
    pose proof (le_uint_range (take 8 (drop 8 m)) ltac:(by apply Forall_take, Forall_drop)) as H. by rewrite E in H.
Qed.

Lemma variant_range b : byte_ok b -> byte_ok (variant b) /\ Z.shiftr (variant b) 6 = 2.
Proof.
  intros Hb. enough (forallb (fun b => (0 <=? variant b) && (variant b <? 256) && (Z.shiftr (variant b) 6 =? 2)) (seqZ 0 256) = true) as H; [|by vm_compute].
  rewrite forallb_forall in H. specialize (H b). rewrite !andb_true_iff in H. destruct H as [[? ?] ?]; [|unfold byte_ok; lia].
  apply list_elem_of_In, elem_of_seqZ. unfold byte_ok in Hb. lia.
Qed.

(** Twelve bits with the version in front. *)
Lemma version_bits d v : 0 <= v < 16 -> in_u 16 (Z.lor (Z.land d 0x0FFF) (Z.shiftl v 12)) /\ Z.shiftr (Z.lor (Z.land d 0x0FFF) (Z.shiftl v 12)) 12 = v.
Proof.
  intros Hv. assert (in_u 12 (Z.land d 0x0FFF)) as Hd by (by apply (land_ones_in_u 12)).
  destruct (disjoint_add 12 (Z.land d 0x0FFF) v Hd) as [_ <-]. unfold in_u in *. change (2 ^ 12) with 4096 in *. change (2 ^ 16) with 65536. split; [lia|].
  rewrite Z.shiftr_div_pow2 by lia. change (2 ^ 12) with 4096. Z.div_mod_to_equations. lia.
Qed.

(** Stamping the version and the variant makes a well-formed identifier. *)
Lemma stamped_well_formed d1 d2 d d4 v :
  raw_ok (mk_raw d1 d2 0 d4) -> 0 <= v < 16 ->
  well_formed v (memory_uuid (raw_memory (mk_raw d1 d2 (Z.lor (Z.land d 0x0FFF) (Z.shiftl v 12)) (on_first variant d4)))).
Proof.
  intros (H1 & H2 & _ & H4 & Hl) Hv. cbn [data1 data2 data3 data4] in *. destruct (version_bits d v Hv) as [Hd Hversion].
  destruct d4 as [|b d4]; [done|]. change (on_first variant (b :: d4)) with (variant b :: d4). apply Forall_cons in H4 as [Hb H4]. destruct (variant_range b Hb) as [Hvb Hvariant].
  assert (raw_ok (mk_raw d1 d2 (Z.lor (Z.land d 0x0FFF) (Z.shiftl v 12)) (variant b :: d4))) as Hr.
  { do 3 (split; [done|]). split; [by constructor|done]. }
  pose proof (raw_memory_ok _ Hr) as Hm. split; [by apply memory_uuid_ok|]. unfold version, variant_bits. rewrite uuid_memory_uuid, memory_raw_memory by done.
  by cbn [data3 data4].
Qed.

Section generated.
Context {HU : Random.UndefinedShift}.

Lemma random_well_formed state : Random.wf state ->
  exists u state', uuid_generate_random state = Some (u, state') /\ Random.wf state' /\ well_formed 4 u.
Proof.
  intros Hs. destruct (Random.random64_wf state Hs) as (r0 & s0 & E0 & Hr0 & Hs0). destruct (Random.random64_wf s0 Hs0) as (r1 & s1 & E1 & Hr1 & Hs1).
  unfold uuid_generate_random. rewrite E0. cbn [mbind option_bind]. rewrite E1. cbn [mbind option_bind]. eexists _, s1. split; [done|]. split; [done|].
  pose proof (memory_raw_ok _ (uuid_memory_ok (mk_uuid r0 r1))) as (H1 & H2 & H3 & H4 & Hl).
  apply (stamped_well_formed _ _ _ _ 4); [|lia]. split; [exact H1|]. split; [exact H2|]. split; [by split; vm_compute|]. by split.
Qed.

(** ** Times *)

(** The time stamp, of 60 bits. *)
Definition timestamp (u : uuid_t) : Z :=
  let r := memory_raw (uuid_memory u) in data1 r + 2 ^ 32 * data2 r + 2 ^ 48 * (data3 r mod 2 ^ 12).

Lemma random_node_bytes n state : Random.wf state ->
  exists l state', random_node n state = Some (l, state') /\ Random.wf state' /\ bytes_ok l /\ length l = n.
Proof.
  revert state. induction n as [|n IH]; intros state Hs; [by exists [], state|]. cbn [random_node].
  destruct (Random.random32_wf state Hs) as (r & s1 & -> & Hr & Hs1). cbn [mbind option_bind].
  destruct (IH s1 Hs1) as (l & s2 & -> & Hs2 & Hb & <-). cbn [mbind option_bind]. eexists _, s2. split; [done|]. split; [done|]. split; [|done].
  constructor; [|done]. by apply (land_ones_in_u 8 0xFF).
Qed.

Lemma stamp_parts tick :
  Z.land tick 0xFFFFFFFF + 2 ^ 32 * Z.land (Z.shiftr tick 32) 0xFFFF +
    2 ^ 48 * (Z.lor (Z.land (Z.land (Z.shiftr tick 48) 0xFFFF) 0x0FFF) (Z.shiftl 1 12) mod 2 ^ 12) = tick mod 2 ^ 60.
Proof.
  assert (in_u 12 (Z.land (Z.land (Z.shiftr tick 48) 0xFFFF) 0x0FFF)) as Hd by (by apply (land_ones_in_u 12)).
  destruct (disjoint_add 12 _ 1 Hd) as [_ <-]. rewrite Z.mul_1_r, <- (Z.mul_1_l (2 ^ 12)) at 1. rewrite Z.mod_add by done. rewrite (Z.mod_small _ (2 ^ 12)) by exact Hd. clear Hd.
  change 0xFFFFFFFF with (Z.ones 32). change 0xFFFF with (Z.ones 16). change 0xFFF with (Z.ones 12). rewrite !Z.land_ones, !Z.shiftr_div_pow2 by lia.
  change (2 ^ 32) with 4294967296. change (2 ^ 16) with 65536. change (2 ^ 48) with 281474976710656. change (2 ^ 12) with 4096. change (2 ^ 60) with 1152921504606846976.
  Z.div_mod_to_equations. lia.
Qed.

Lemma generate_time_spec current_time hostid s state : Random.wf state ->
  exists u host state', uuid_generate_time current_time hostid s state = Some (u, mk_uuid_state (sint 32 (uuid_last_counter s + 1)) host, state') /\
    Random.wf state' /\ well_formed 1 u /\ timestamp u = current_tick current_time (Z.rem (sint 32 (uuid_last_counter s + 1)) 10000) mod 2 ^ 60.
Proof.
  intros Hs. unfold uuid_generate_time. set (tick := current_tick _ _). destruct (Random.random32_wf state Hs) as (seq & s1 & -> & Hseq & Hs1). cbn [mbind option_bind].
  set (host := if _ =? 0 then _ else _).
  assert (exists node s2, (if negb (host =? 0) then Some (reverse (map (fun i => Z.land (Z.shiftr host (8 * i)) 0xFF) (seqZ 0 6)), s1)
    else '(node, state) ← random_node 6 s1; Some (on_first (fun b => Z.lor b 0x01) node, state)) = Some (node, s2) /\
    Random.wf s2 /\ bytes_ok node /\ length node = 6%nat) as (node & s2 & -> & Hs2 & Hnode & Hl).
  { destruct (host =? 0); cbn [negb].
    - destruct (random_node_bytes 6 s1 Hs1) as (l & s2 & -> & Hs2 & Hb & Hl). cbn [mbind option_bind]. eexists _, s2. split; [done|]. split; [done|].
      destruct l as [|b l]; [done|]. split; [|done]. apply Forall_cons in Hb as [Hb Hb']. constructor; [|done]. by apply (in_u_lor 8).
    - eexists _, s1. split; [done|]. split; [done|]. split; [|done]. apply Forall_reverse, Forall_map, Forall_forall. intros i _.
      by apply (land_ones_in_u 8 0xFF). }
  cbn [mbind option_bind]. eexists _, host, s2. split; [done|]. split; [done|].
  set (d1 := Z.land tick 0xFFFFFFFF). set (d2 := Z.land (Z.shiftr tick 32) 0xFFFF). set (lo := Z.land seq 0xFF). set (hi := Z.shiftr (Z.land seq 0x3F00) 8).
  assert (raw_ok (mk_raw d1 d2 0 (hi :: lo :: node))) as Hr.
  { split; [by apply (land_ones_in_u 32 0xFFFFFFFF)|]. split; [by apply (land_ones_in_u 16 0xFFFF)|]. split; [by split; vm_compute|]. cbn [data4]. split; [|cbn; lia].
    constructor; [|constructor; [by apply (land_ones_in_u 8 0xFF)|done]]. unfold hi, byte_ok. rewrite Z.shiftr_land. change (Z.shiftr 0x3F00 8) with 0x3F.
    pose proof (land_ones_in_u 6 0x3F (Z.shiftr seq 8) eq_refl ltac:(lia)) as H6. unfold in_u in H6. change (2 ^ 6) with 64 in H6. lia. }
  change (time_memory _) with (raw_memory (mk_raw d1 d2 (Z.lor (Z.land (Z.land (Z.shiftr tick 48) 0xFFFF) 0x0FFF) (Z.shiftl 1 12)) (on_first variant (hi :: lo :: node)))).
  split; [by apply stamped_well_formed|]. unfold timestamp.
  destruct (version_bits (Z.land (Z.shiftr tick 48) 0xFFFF) 1 ltac:(lia)) as [Hd _]. destruct Hr as (H1 & H2 & _ & H4 & Hl').
  rewrite uuid_memory_uuid, memory_raw_memory; [apply stamp_parts| |apply raw_memory_ok].
  1: do 3 (split; [done|]). 2: do 3 (split; [done|]).
  1, 2: cbn [data4] in *; apply Forall_cons in H4 as [Hb H4]; (split; [|exact Hl']); constructor; [by apply variant_range|done].
Qed.

(** A process that generates one identifier after the other. *)
Fixpoint generate_times (times : list Z) (hostid : Z) (s : uuid_state) (state : list Z) : option (list uuid_t) :=
  match times with
  | [] => Some []
  | t :: times =>
      '(u, s, state) ← uuid_generate_time t hostid s state;
      us ← generate_times times hostid s state;
      Some (u :: us)
  end.

(** The ticks of the identifiers. *)
Definition ticks (counter : Z) (times : list Z) : list Z := imap (fun i t => current_tick t ((counter + 1 + Z.of_nat i) mod 10000)) times.

Lemma generate_times_spec times hostid s state :
  Random.wf state -> 0 <= uuid_last_counter s -> uuid_last_counter s + Z.of_nat (length times) < 2 ^ 31 ->
  exists us, generate_times times hostid s state = Some us /\ Forall (well_formed 1) us /\
    map timestamp us = map (fun t => t mod 2 ^ 60) (ticks (uuid_last_counter s) times).
Proof.
  revert s state. induction times as [|t times IH]; intros s state Hs Hc Hn; [by exists []|]. cbn [generate_times length] in *.
  destruct (generate_time_spec t hostid s state Hs) as (u & host & s1 & -> & Hs1 & Hu & Hstamp). cbn [mbind option_bind].
  rewrite sint_small in * by (cbn; lia). destruct (IH (mk_uuid_state (uuid_last_counter s + 1) host) s1 Hs1) as (us & -> & Hus & Hmap); [cbn; lia|cbn; lia|].
  cbn [mbind option_bind uuid_last_counter] in *. exists (u :: us). split; [done|]. split; [by constructor|]. cbn [map]. rewrite Hmap, Hstamp. unfold ticks. cbn [imap map].
  rewrite Z.rem_mod_nonneg by lia. f_equal; [by rewrite Z.add_0_r|]. f_equal. apply imap_ext. intros i x _. unfold compose. do 2 f_equal. lia.
Qed.

Lemma ticks_nodup counter times :
  (forall i j t t', (i <= j)%nat -> times !! i = Some t -> times !! j = Some t' -> t <= t') ->
  (forall i t t', times !! i = Some t -> times !! (i + Z.to_nat 10000)%nat = Some t' -> t < t') -> NoDup (ticks counter times).
Proof.
  intros Hsorted Hrate. apply NoDup_alt. intros i j x Hi Hj. unfold ticks in Hi, Hj. rewrite list_lookup_imap in Hi, Hj.
  apply fmap_Some in Hi as (t & Ht & ->). apply fmap_Some in Hj as (t' & Ht' & E). unfold current_tick in E.
  assert (forall a b u v (k l : nat), (k < l)%nat -> times !! k = Some u -> times !! l = Some v -> u * 10000 + (counter + 1 + Z.of_nat k) mod 10000 + a = v * 10000 + (counter + 1 + Z.of_nat l) mod 10000 + b -> a = b -> False) as Hlt.
  { intros a b u v k l Hkl Hu Hv Eq ->. assert (u = v /\ (counter + 1 + Z.of_nat k) mod 10000 = (counter + 1 + Z.of_nat l) mod 10000) as [-> Em] by (Z.div_mod_to_equations; lia).
    assert (k + Z.to_nat 10000 <= l)%nat as Hkl' by (Z.div_mod_to_equations; lia).
    destruct (lookup_lt_is_Some_2 times (k + Z.to_nat 10000)) as [w Hw]; [apply lookup_lt_Some in Hv; lia|].
    pose proof (Hrate _ _ _ Hu Hw). pose proof (Hsorted _ _ _ _ Hkl' Hw Hv). lia. }
  destruct (Nat.lt_trichotomy i j) as [H|[H|H]]; [|done|]; exfalso.
  - by apply (Hlt 0x01B21DD213814000 0x01B21DD213814000 t t' i j).
  - by apply (Hlt 0x01B21DD213814000 0x01B21DD213814000 t' t j i).
Qed.
End generated.

(** C38: identifiers of the time are unique and well formed.  A process whose
    clock does not run backwards and that generates at most 10000 of them in a
    millisecond gets one for each call, all of version 1 and of the variant of
    RFC 4122, and no two of them equal, as long as the counter does not overflow
    and the time stamp fits its 60 bits. *)
Theorem uuid_times_unique {HU : Random.UndefinedShift} (times : list Z) (hostid : Z) (s : uuid_state) (state : list Z) :
  Random.wf state -> 0 <= uuid_last_counter s -> uuid_last_counter s + Z.of_nat (length times) < 2 ^ 31 ->
  (forall i j t t', (i <= j)%nat -> times !! i = Some t -> times !! j = Some t' -> t <= t') ->
  (forall i t t', times !! i = Some t -> times !! (i + Z.to_nat 10000)%nat = Some t' -> t < t') ->
  Forall (fun t => 0 <= t < 10 ^ 14) times ->
  exists us, generate_times times hostid s state = Some us /\ length us = length times /\ Forall (well_formed 1) us /\ NoDup us.
Proof.
  intros Hs Hc Hn Hsorted Hrate Hrange. destruct (generate_times_spec times hostid s state Hs Hc Hn) as (us & -> & Hwf & Hmap).
  exists us. split; [done|]. apply (f_equal length) in Hmap as Hlen. rewrite !length_map in Hlen. unfold ticks in Hlen. rewrite length_imap in Hlen. split; [done|]. split; [done|].
  apply (NoDup_fmap_1 timestamp). change (timestamp <$> us) with (map timestamp us). rewrite Hmap.
  replace (map (fun t => t mod 2 ^ 60) (ticks (uuid_last_counter s) times)) with (ticks (uuid_last_counter s) times); [by apply ticks_nodup|].
  symmetry. etransitivity; [|apply map_id]. apply map_ext_in. intros x Hx%list_elem_of_In. apply list_elem_of_lookup in Hx as (i & Hi). unfold ticks in Hi.
  rewrite list_lookup_imap in Hi. apply fmap_Some in Hi as (t & Ht & ->). apply Forall_lookup_1 with (1 := Hrange) in Ht. cbn beta in Ht. unfold current_tick.
  apply Z.mod_small. change (10 ^ 14) with 100000000000000 in Ht. change (2 ^ 60) with 1152921504606846976. Z.div_mod_to_equations. lia.
Qed.

(** A clock that stands still, three calls. *)
Example uuid_times_unique_witness :
  exists us, generate_times (HU := fun _ => 0) [5; 5; 9] 77 (mk_uuid_state 9998 0) Random.sample = Some us /\ length us = 3%nat /\ Forall (well_formed 1) us /\ NoDup us.
Proof.
  apply (uuid_times_unique (HU := fun _ => 0) [5; 5; 9] 77 (mk_uuid_state 9998 0) Random.sample).
  - apply Random.random_sample_wf.
  - done.
  - done.
  - intros [|[|[|i]]] [|[|[|j]]] t t' Hij Hi Hj; try done; cbn in Hi, Hj; try lia; simplify_eq; lia.
  - intros i t t' _ Hj. apply lookup_lt_Some in Hj. cbn [length] in Hj. lia.
  - repeat constructor; by vm_compute.
Defined.

(** ** Names *)

(** The version and the variant in the network bytes. *)
Definition stamp (v : Z) (bs : list Z) : list Z := alter variant 8%nat (alter (fun b => Z.lor (Z.land b 0x0F) (Z.shiftl v 4)) 6%nat bs).

Definition swap_fields (r : uuid_raw_t) : uuid_raw_t :=
  mk_raw (byteorder_swap32 (data1 r)) (byteorder_swap16 (data2 r)) (byteorder_swap16 (data3 r)) (data4 r).

Lemma byteorder_swap_le n e : bytes_ok e -> length e = n -> le_bytes n (byteorder_swap n (le_uint e)) = reverse e.
Proof. intros Hb Hl. by rewrite byteorder_swap_bytes, le_bytes_le_uint. Qed.

(** Swapping the fields gives the network order. *)
Lemma swap_fields_memory m : memory_ok m ->
  raw_memory (swap_fields (memory_raw m)) = reverse (take 4 m) ++ reverse (take 2 (drop 4 m)) ++ reverse (take 2 (drop 6 m)) ++ drop 8 m.
Proof.
  intros [Hb Hl]. unfold swap_fields, raw_memory, memory_raw. cbn [data1 data2 data3 data4].
  unfold byteorder_swap32, byteorder_swap16.
  rewrite !byteorder_swap_le by (rewrite ?length_take, ?length_drop; first [by apply Forall_take, Forall_drop|by apply Forall_take|lia]).
  by rewrite (take_ge (drop 8 m)) by (rewrite length_drop; lia).
Qed.

(** The digest as the generator reads it: its two halves in reverse. *)
Definition digest_order (d : list Z) : list Z := reverse (take 8 d) ++ reverse (take 8 (drop 8 d)).

Lemma digest_memory md5 : memory_ok (Md5.digest md5) ->
  concat (map (le_bytes 8) (Md5.md5_get_digest_raw md5)) = digest_order (Md5.digest md5).
Proof.
  intros [Hb Hl]. unfold Md5.md5_get_digest_raw, digest_order. cbn [map concat]. rewrite app_nil_r. unfold byteorder_swap64.
  by rewrite !byteorder_swap_le by (rewrite ?length_take, ?length_drop; first [by apply Forall_take, Forall_drop|by apply Forall_take|lia]).
Qed.

(** Bytes one by one. *)
Ltac bytes := repeat (apply Forall_cons; split; [first [done|by apply variant_range]|]); try apply Forall_nil_2.

Lemma version_word b6 b7 v : byte_ok b6 -> byte_ok b7 -> 0 <= v < 16 ->
  le_bytes 2 (Z.lor (Z.land (b7 + 256 * b6) 0x0FFF) (Z.shiftl v 12)) = [b7; Z.lor (Z.land b6 0x0F) (Z.shiftl v 4)].
Proof.
  intros H6 H7 Hv. assert (in_u 12 (Z.land (b7 + 256 * b6) 0x0FFF)) as Hd by (by apply (land_ones_in_u 12)).
  assert (in_u 4 (Z.land b6 0x0F)) as Hd' by (by apply (land_ones_in_u 4)).
  destruct (disjoint_add 12 _ v Hd) as [_ <-]. destruct (disjoint_add 4 _ v Hd') as [_ <-]. clear Hd Hd'.
  change 0xFFF with (Z.ones 12). change 0xF with (Z.ones 4). rewrite !Z.land_ones by lia. change (2 ^ 12) with 4096. change (2 ^ 4) with 16. unfold byte_ok in *.
  cbn [le_bytes]. f_equal; [|f_equal]; Z.div_mod_to_equations; lia.
Qed.

(** Stamping the fields stamps the network bytes. *)
Lemma stamped_network bs v :
  memory_ok bs -> 0 <= v < 16 ->
  let r := swap_fields (memory_raw bs) in
  network_bytes (memory_uuid (raw_memory (mk_raw (data1 r) (data2 r) (Z.lor (Z.land (data3 r) 0x0FFF) (Z.shiftl v 12)) (on_first variant (data4 r))))) = stamp v bs.
Proof.
  intros [Hb Hl]. each_byte bs Hl. rewrite !Forall_cons in Hb. destruct_and!. intros Hv. unfold swap_fields, memory_raw. cbn [data1 data2 data3 data4 take drop].
  assert (byteorder_swap16 (le_uint [z5; z6]) = z6 + 256 * z5) as ->.
  { unfold byteorder_swap16, byteorder_swap. rewrite (le_bytes_le_uint 2) by (first [done|bytes]). cbn. lia. }
  destruct (version_bits (z6 + 256 * z5) v Hv) as [Hv16 _].
  match goal with |- network_bytes (memory_uuid ?m) = _ => assert (m = [z2; z1; z0; z; z4; z3; z6; Z.lor (Z.land z5 15) (Z.shiftl v 4); variant z7; z8; z9; z10; z11; z12; z13; z14]) as -> end.
  { unfold raw_memory. cbn [data1 data2 data3 data4]. unfold byteorder_swap32, byteorder_swap16.
    rewrite !byteorder_swap_le by (first [done|bytes]). by rewrite version_word. }
  unfold network_bytes. rewrite uuid_memory_uuid; [reflexivity|]. split; [|done]. enough (byte_ok (Z.lor (Z.land z5 15) (Z.shiftl v 4))) by bytes.
  apply (in_u_lor 8).
  - pose proof (land_ones_in_u 4 15 z5 eq_refl ltac:(lia)) as Hlow. unfold in_u in *. change (2 ^ 4) with 16 in Hlow. change (2 ^ 8) with 256. lia.
  - unfold in_u. rewrite Z.shiftl_mul_pow2 by lia. change (2 ^ 4) with 16. change (2 ^ 8) with 256. lia.
Qed.

Lemma digest_order_ok d : memory_ok d -> memory_ok (digest_order d).
Proof.
  intros [Hb Hl]. unfold digest_order. split; [|rewrite length_app, !length_reverse, !length_take, length_drop; lia].
  apply Forall_app. split; apply Forall_reverse; [by apply Forall_take|by apply Forall_take, Forall_drop].
Qed.

Lemma network_bytes_bytes u : bytes_ok (network_bytes u).
Proof.
  destruct (uuid_memory_ok u) as [Hb _]. unfold network_bytes. rewrite !Forall_app, !Forall_reverse.
  repeat split; first [by apply Forall_take, Forall_drop|by apply Forall_take|by apply Forall_drop].
Qed.

Lemma generate_name_network ns name md5 :
  bytes_ok name ->
  let u := uuid_generate_name ns name md5 in
  network_bytes u = stamp 3 (digest_order (Md5.rfc_md5 (network_bytes ns ++ name))) /\ well_formed 3 u.
Proof.
  intros Hname. pose proof (uuid_memory_ok ns) as Hm. unfold uuid_generate_name. fold (swap_fields (memory_raw (uuid_memory ns))).
  rewrite swap_fields_memory by done. fold (network_bytes ns). set (d := Md5.md5_digest_finalize _).
  assert (Md5.digest d = Md5.rfc_md5 (network_bytes ns ++ name)) as Ed.
  { unfold d. rewrite <- Md5.md5_hash_rfc by (apply Forall_app; split; [apply network_bytes_bytes|done]).
    apply Md5.md5_digest_finalize_digest. apply Md5.md5_digest_digesting.
    change (network_bytes ns) with ([] ++ network_bytes ns) at 2. apply Md5.md5_digest_digesting, Md5.md5_digesting_initialize. }
  assert (memory_ok (Md5.digest d)) as Hd.
  { rewrite Ed, <- Md5.md5_hash_rfc by (apply Forall_app; split; [apply network_bytes_bytes|done]). split; [apply Md5.md5_bytes_ok|apply Md5.length_md5_bytes]. }
  rewrite digest_memory by done. rewrite Ed in *. clearbody d. pose proof (digest_order_ok _ Hd) as Ho.
  set (bs := digest_order _) in *. fold (swap_fields (memory_raw bs)). cbn zeta. split; [by apply (stamped_network bs 3)|].
  pose proof (swap_fields_memory bs Ho) as Hs. pose proof (memory_raw_ok bs Ho) as (H1 & H2 & H3 & H4 & Hl).
  apply stamped_well_formed; [|lia]. cbn [swap_fields data1 data2 data3 data4]. split; [apply (byteorder_swap_range 4)|]. split; [apply (byteorder_swap_range 2)|].
  split; [by split; vm_compute|]. by split.
Qed.

(** Identifiers of names.  The digest is the MD5 of RFC 1321 of the name
    space in network order followed by the name, as RFC 4122 asks for, and its
    bytes with the version 3 and the variant are the network bytes of the
    identifier; but each half of the digest is in reverse, so that the
    identifiers are not those that other programs give to the same names. *)
Theorem uuid_generate_name_spec (ns : uuid_t) (name : list Z) (md5 : Md5.md5_t) :
  bytes_ok name ->
  let u := uuid_generate_name ns name md5 in
  network_bytes u = stamp 3 (digest_order (Md5.rfc_md5 (network_bytes ns ++ name))) /\ well_formed 3 u.
Proof. exact (generate_name_network ns name md5). Qed.

Example uuid_generate_name_spec_witness :
  let u := uuid_generate_name UUID_DNS [119; 119; 119] Md5.fresh in
  network_bytes u = stamp 3 (digest_order (Md5.rfc_md5 (network_bytes UUID_DNS ++ [119; 119; 119]))) /\ well_formed 3 u.
Proof. apply uuid_generate_name_spec. by repeat constructor. Defined.

(** C39: whatever an identifier is generated from, it is well formed: two words in
    the range of their type with the variant of RFC 4122, and version 4 from
    random numbers, 1 from the time and 3 from a name.  The generators return. *)
Theorem uuid_generated_well_formed {HU : Random.UndefinedShift} (state : list Z) (s : uuid_state) (current_time hostid : Z)
    (ns : uuid_t) (name : list Z) (md5 : Md5.md5_t) :
  Random.wf state -> bytes_ok name ->
  (exists u state', uuid_generate_random state = Some (u, state') /\ Random.wf state' /\ well_formed 4 u) /\
  (exists u s' state', uuid_generate_time current_time hostid s state = Some (u, s', state') /\ Random.wf state' /\ well_formed 1 u) /\
  well_formed 3 (uuid_generate_name ns name md5).
Proof.
  intros Hs Hname. split; [by apply random_well_formed|]. split; [|by apply generate_name_network].
  destruct (generate_time_spec current_time hostid s state Hs) as (u & host & state' & -> & Hs' & Hu & _). by eexists u, _, state'.
Qed.

Example uuid_generated_well_formed_witness :
  (exists u state', uuid_generate_random (HU := fun _ => 0) Random.sample = Some (u, state') /\ Random.wf state' /\ well_formed 4 u) /\
  (exists u s' state', uuid_generate_time (HU := fun _ => 0) 1700000000000 0 (mk_uuid_state 0 0) Random.sample = Some (u, s', state') /\ Random.wf state' /\ well_formed 1 u) /\
  well_formed 3 (uuid_generate_name UUID_DNS [119; 119; 119] Md5.fresh).
Proof.
  apply (uuid_generated_well_formed (HU := fun _ => 0) Random.sample (mk_uuid_state 0 0) 1700000000000 0 UUID_DNS [119; 119; 119] Md5.fresh).
  - apply Random.random_sample_wf.
  - by repeat constructor.
Defined.

(** The order of RFC 4122 gives another identifier. *)
Lemma uuid_generate_name_differs :
  network_bytes (uuid_generate_name UUID_DNS [119; 119; 119] Md5.fresh) <> stamp 3 (Md5.rfc_md5 (network_bytes UUID_DNS ++ [119; 119; 119])).
Proof. vm_compute. discriminate. Qed.

Lemma uuid_equal_spec u0 u1 : uuid_equal u0 u1 = true <-> u0 = u1.
Proof. destruct u0 as [a b], u1 as [c d]. unfold uuid_equal. cbn. split; [intros H; f_equal; lia|intros [= -> ->]; lia]. Qed.
End Uuid.
