(* ===== verification/Event.v ===== *)
(** * Event streams ([src/library/foundation_lib/foundation/event.c])

    Double-buffered streams of events: events are posted to one block while the
    other one is read.  [None] is a thread that waits for the block, or an access
    outside the memory of a block.  Assertions are not part of the model. *)
From S2P Require Import Prelude Str.

Module Event.
Import Str.

(** ** Data *)

Definition EVENTFLAG_DELAY : Z := 1.
Definition EVENT_BLOCK_POSTING : Z := -1.
Definition EVENT_BLOCK_SWAPPING : Z := -2.

(** [offsetof(event_t, payload)]: the fields take 12 bytes. *)
Definition sizeof_event : Z := 16.

Record event_block_t := mk_block { used : Z; capacity : Z; events : list Z; fired : bool }.

(** The beacon is the number of times it was fired. *)
Record event_stream_t := mk_stream { write : Z; read : Z; block0 : event_block_t; block1 : event_block_t; beacon : option Z }.

Definition block (s : event_stream_t) (i : Z) : event_block_t := if i =? 0 then block0 s else block1 s.

Definition set_block (s : event_stream_t) (i : Z) (b : event_block_t) : event_stream_t :=
  if i =? 0 then mk_stream (write s) (read s) b (block1 s) (beacon s) else mk_stream (write s) (read s) (block0 s) b (beacon s).

(** Loads and stores of the memory of a block. *)
Definition load (mem : list Z) (off : Z) (n : nat) : option Z :=
  if (0 <=? off) && (off + Z.of_nat n <=? len mem) then Some (le_uint (sub mem off (Z.of_nat n))) else None.

Definition store (mem : list Z) (off : Z) (bs : list Z) : option (list Z) :=
  if (0 <=? off) && (off + len bs <=? len mem) then Some (write_at (Z.to_nat off) bs mem) else None.

Section event.
Context `{HU : !Uninit}.

(** [foundation_config()] *)
Context (event_block_chunk event_block_limit : Z).

(** ** Posting *)

(** The size of an event in units of 8 bytes, and with a time behind it. *)
Definition event_sizes (timestamp : Z) (parts : list (list Z)) : Z * Z :=
  let basesize := sizeof_event + len (concat parts) in
  let basesize := if negb (basesize mod 8 =? 0) then basesize + (8 - basesize mod 8) else basesize in
  let basesize := Z.land basesize 0xFFF8 in
  (basesize, if timestamp =? 0 then basesize else basesize + 8).

(** [memory_reallocate] *)
Definition reallocate (mem : list Z) (size : Z) : list Z :=
  take (Z.to_nat size) mem ++ fresh_memory (Z.to_nat size - length mem).

(** Make room for an event; [None] is a block over its limit. *)
Definition grow_block (b : event_block_t) (basesize allocsize : Z) : option event_block_t :=
  if capacity b <=? used b + allocsize + 2 then
    let prev_capacity := capacity b + 16 in
    capacity ←
      (if prev_capacity <? event_block_chunk then Some event_block_chunk
       else if event_block_limit <=? prev_capacity then None
       else
         let capacity := capacity b + event_block_chunk in
         Some (if event_block_limit <? capacity then event_block_limit else capacity));
    let capacity := if negb (capacity mod 16 =? 0) then capacity + (16 - basesize mod 16) else capacity in
    let capacity := capacity - 16 in
    Some (mk_block (used b) capacity (reallocate (events b) (capacity + 16)) (fired b))
  else Some b.

(** The fields of an event in memory. *)
Definition header (id flags serial size object : Z) : list Z :=
  le_bytes 2 id ++ le_bytes 2 flags ++ le_bytes 2 serial ++ le_bytes 2 size ++ le_bytes 4 object.

(** The parts are the payload and the fragments of the argument list.  The
    serial number of the next event is a counter of the process. *)
Definition event_post_delay_with_flags (serial : Z) (s : event_stream_t) (id object timestamp flags : Z) (parts : list (list Z))
    : option (Z * event_stream_t) :=
  if id =? 0 then Some (serial, s)
  else
    let '(basesize, allocsize) := event_sizes timestamp parts in
    let last_write := write s in
    if last_write <? 0 then None
    else
      match grow_block (block s last_write) basesize allocsize with
      | None => Some (serial, s)
      | Some b =>
          let event := used b in
          let flags := if timestamp =? 0 then flags else Z.lor flags EVENTFLAG_DELAY in
          mem ← store (events b) event (header (u16 id) flags (Z.land serial 0xFFFF) (u16 allocsize) object);
          mem ← store mem (event + sizeof_event) (concat parts);
          mem ← (if timestamp =? 0 then Some mem else store mem (event + basesize) (le_bytes 8 timestamp));
          let used := used b + allocsize in
          mem ← store mem used (le_bytes 2 0);
          let fires := negb (fired b) && (if beacon s then true else false) in
          let s := set_block s last_write (mk_block used (capacity b) mem (fired b || fires)) in
          Some (u32 (serial + 1), if fires then mk_stream (write s) (read s) (block0 s) (block1 s) (Z.succ <$> beacon s) else s)
      end.

Definition event_post (serial : Z) (s : event_stream_t) (id object delivery : Z) (payload : list Z) : option (Z * event_stream_t) :=
  event_post_delay_with_flags serial s id object delivery 0 [payload].

Definition event_post_vlist (serial : Z) (s : event_stream_t) (id object delivery : Z) (parts : list (list Z)) : option (Z * event_stream_t) :=
  event_post_delay_with_flags serial s id object delivery 0 parts.

(** ** Reading *)

Definition event_payload_size (mem : list Z) (event : Z) : option Z :=
  size ← load mem (event + 6) 2;
  flags ← load mem (event + 2) 2;
  Some (size - sizeof_event - (if negb (Z.land flags EVENTFLAG_DELAY =? 0) then 8 else 0)).

(** The loop over the events that are not due, which are posted again. *)
Fixpoint event_next (fuel : nat) (time_current serial : Z) (s : event_stream_t) (i : Z) (event : option Z) {struct fuel}
    : option (option Z * Z * event_stream_t) :=
  match fuel with
  | O => None
  | S fuel =>
      let b := block s i in
      event ← (match event with
               | Some event => size ← load (events b) (event + 6) 2; Some (Some (event + size))
               | None => Some (if used b =? 0 then None else Some 0)
               end);
      match event with
      | None => Some (None, serial, s)
      | Some event =>
          id ← load (events b) event 2;
          if id =? 0 then Some (None, serial, s)
          else
            flags ← load (events b) (event + 2) 2;
            if Z.land flags EVENTFLAG_DELAY =? 0 then Some (Some event, serial, s)
            else
              size ← load (events b) (event + 6) 2;
              time ← load (events b) (event + (size - 8)) 8;
              let eventtime := sint 64 time in
              if eventtime <=? time_current then Some (Some event, serial, s)
              else
                object ← load (events b) (event + 8) 4;
                '(serial, s) ← event_post_delay_with_flags serial s id object eventtime flags [sub (events b) (event + sizeof_event) (size - (sizeof_event + 8))];
                event_next fuel time_current serial s i (Some event)
      end
  end.

(** ** Streams *)

Definition event_stream_initialize (size : Z) : event_stream_t :=
  let size := if size <? 256 then 256 else size in
  let b := mk_block 0 size (replicate (Z.to_nat size) 0) false in
  mk_stream 0 1 b b None.

Definition event_stream_process (s : event_stream_t) : option (Z * event_stream_t) :=
  let last_write := write s in
  if last_write <? 0 then None
  else
    let b := block s (read s) in
    let s := set_block s (read s) (mk_block 0 (capacity b) (events b) false) in
    let new_write := read s in
    Some (last_write, mk_stream new_write last_write (block0 s) (block1 s) (beacon s)).

(** [None]: the index of the block is negative while another thread posts. *)
Definition event_stream_set_beacon (s : event_stream_t) (fires : option Z) : option event_stream_t :=
  let current := write s in
  if current <? 0 then None
  else
    Some (mk_stream (write s) (read s) (block0 s) (block1 s)
            (match fires with Some n => Some (if 0 <? used (block s current) then n + 1 else n) | None => None end)).

(** ** The events in a block *)

Record event_t := mk_event {
  e_id : Z; e_flags : Z; e_serial : Z; e_object : Z;
  e_gap : list Z; e_payload : list Z; e_time : option Z }.

Definition time_bytes (t : option Z) : list Z := match t with Some t => le_bytes 8 t | None => [] end.
Definition size_of (e : event_t) : Z := sizeof_event + len (e_payload e) + len (time_bytes (e_time e)).

Definition encode (e : event_t) : list Z :=
  header (e_id e) (e_flags e) (e_serial e) (size_of e) (e_object e) ++ e_gap e ++ e_payload e ++ time_bytes (e_time e).
Definition encodes (es : list event_t) : list Z := concat (map encode es).

Definition tick_ok (t : Z) : Prop := - 2 ^ 63 <= t < 2 ^ 63.

Record event_ok (e : event_t) : Prop := mk_event_ok {
  ok_id : 0 < e_id e < 2 ^ 16;
  ok_flags : in_u 16 (e_flags e);
  ok_delay : Z.land (e_flags e) EVENTFLAG_DELAY = 0 <-> e_time e = None;
  ok_serial : in_u 16 (e_serial e);
  ok_object : in_u 32 (e_object e);
  ok_gap : len (e_gap e) = 4;
  ok_size : size_of e < 2 ^ 16;
  ok_aligned : len (e_payload e) mod 8 = 0;
  ok_time : forall t, e_time e = Some t -> t <> 0 /\ tick_ok t }.

(** The events from the start of the block, and a null identifier behind them. *)
Record holds (b : event_block_t) (es : list event_t) : Prop := mk_holds {
  hold_ok : Forall event_ok es;
  hold_used : used b = len (encodes es);
  hold_capacity : capacity b <= len (events b);
  hold_events : exists rest, events b = encodes es ++ rest /\ (es = [] \/ exists rest', rest = 0 :: 0 :: rest') }.

Lemma len_header id flags serial size object : len (header id flags serial size object) = 12.
Proof. reflexivity. Qed.

Lemma len_encode e : event_ok e -> len (encode e) = size_of e.
Proof. intros He. unfold encode, size_of. rewrite !len_app, len_header, (ok_gap _ He). change sizeof_event with 16. lia. Qed.

Lemma encodes_app es es' : encodes (es ++ es') = encodes es ++ encodes es'.
Proof. unfold encodes. by rewrite map_app, concat_app. Qed.

Lemma encodes_cons e es : encodes (e :: es) = encode e ++ encodes es.
Proof. reflexivity. Qed.

Lemma encodes_one e : encodes [e] = encode e.
Proof. unfold encodes. cbn [map concat]. apply app_nil_r. Qed.

(** ** Loads and stores between other bytes *)

Lemma load_mid pre bs post off n :
  off = len pre -> length bs = n -> load (pre ++ bs ++ post) off n = Some (le_uint bs).
Proof.
  intros -> <-. unfold load. rewrite !len_app. pose proof (len_nonneg pre). pose proof (len_nonneg post). fold (len bs).
  replace ((0 <=? len pre) && (len pre + len bs <=? len pre + (len bs + len post))) with true by lia.
  unfold sub. rewrite (Nat2Z.id (length pre) : Z.to_nat (len pre) = length pre), drop_app_length. unfold len. by rewrite Nat2Z.id, take_app_length.
Qed.

Lemma store_mid pre old post off bs :
  off = len pre -> len old = len bs -> store (pre ++ old ++ post) off bs = Some (pre ++ bs ++ post).
Proof.
  intros -> El. unfold store. rewrite !len_app, El. pose proof (len_nonneg pre). pose proof (len_nonneg post).
  replace ((0 <=? len pre) && (len pre + len bs <=? len pre + (len bs + len post))) with true by lia.
  unfold write_at. rewrite (Nat2Z.id (length pre) : Z.to_nat (len pre) = length pre), take_app_length.
  rewrite <- drop_drop, drop_app_length. assert (length bs = length old) as -> by (unfold len in El; lia). by rewrite drop_app_length.
Qed.

Lemma sub_mid pre bs post off n : off = len pre -> n = len bs -> sub (pre ++ bs ++ post) off n = bs.
Proof. intros -> ->. unfold sub, len. rewrite !Nat2Z.id, drop_app_length. apply take_app_length. Qed.

(** The parts of the memory behind [pre]. *)
Lemma split_at (l : list Z) (n : Z) : 0 <= n <= len l -> exists a b, l = a ++ b /\ len a = n.
Proof.
  intros Hn. exists (take (Z.to_nat n) l), (drop (Z.to_nat n) l). rewrite take_drop. split; [done|]. unfold len in *. rewrite length_take. lia.
Qed.

(** ** Posting *)

Definition round8 (n : Z) : Z := (n + 7) / 8 * 8.

Lemma event_sizes_spec timestamp parts :
  len (concat parts) <= 0xFFF8 - sizeof_event ->
  event_sizes timestamp parts = (sizeof_event + round8 (len (concat parts)), sizeof_event + round8 (len (concat parts)) + (if timestamp =? 0 then 0 else 8)).
Proof.
  intros Hn. unfold event_sizes. change sizeof_event with 16 in *. set (n := len (concat parts)) in *. assert (0 <= n) by apply len_nonneg.
  replace (if negb ((16 + n) mod 8 =? 0) then 16 + n + (8 - (16 + n) mod 8) else 16 + n) with (16 + round8 n)
    by (unfold round8; case_if; Z.div_mod_to_equations; lia).
  assert (Z.land (16 + round8 n) 0xFFF8 = 16 + round8 n) as ->.
  { assert (exists k, 16 + round8 n = Z.shiftl k 3 /\ 0 <= k < 2 ^ 13) as (k & -> & Hk).
    { exists (2 + (n + 7) / 8). rewrite Z.shiftl_mul_pow2 by lia. change (2 ^ 3) with 8. change (2 ^ 13) with 8192. unfold round8. split; [lia|]. Z.div_mod_to_equations. lia. }
    change 0xFFF8 with (Z.shiftl (Z.ones 13) 3). rewrite <- Z.shiftl_land, Z.land_ones by lia. by rewrite Z.mod_small. }
  f_equal. case_if; lia.
Qed.

(** What a post leaves in the block. *)
Record posted (serial id object timestamp flags : Z) (parts : list (list Z)) (e : event_t) : Prop := mk_posted {
  post_id : e_id e = id;
  post_object : e_object e = object;
  post_serial : e_serial e = serial mod 2 ^ 16;
  post_flags : e_flags e = (if timestamp =? 0 then flags else Z.lor flags EVENTFLAG_DELAY);
  post_time : e_time e = (if timestamp =? 0 then None else Some timestamp);
  post_payload : exists padding, e_payload e = concat parts ++ padding /\ len (e_payload e) = round8 (len (concat parts)) }.

(** What may be posted: all sizes and times fit their fields. *)
Record post_ok (id object timestamp flags : Z) (parts : list (list Z)) : Prop := mk_post_ok {
  may_id : 0 < id < 2 ^ 16;
  may_object : in_u 32 object;
  may_flags : in_u 16 flags /\ (timestamp = 0 -> Z.land flags EVENTFLAG_DELAY = 0);
  may_time : tick_ok timestamp;
  may_size : len (concat parts) <= 0xFFE0 }.

Definition sizes (timestamp : Z) (parts : list (list Z)) : Z :=
  sizeof_event + round8 (len (concat parts)) + (if timestamp =? 0 then 0 else 8).

Definition post_flags_of (timestamp flags : Z) : Z := if timestamp =? 0 then flags else Z.lor flags EVENTFLAG_DELAY.

Lemma round8_bounds n : 0 <= n -> n <= round8 n <= n + 7 /\ round8 n mod 8 = 0.
Proof. intros Hn. unfold round8. Z.div_mod_to_equations. lia. Qed.

(** The four stores of a post behind [pre]. *)
Lemma post_stores pre area serial id object timestamp flags parts :
  post_ok id object timestamp flags parts -> sizes timestamp parts + 2 <= len area ->
  exists e rest,
    (mem ← store (pre ++ area) (len pre) (header (u16 id) (post_flags_of timestamp flags) (Z.land serial 0xFFFF) (u16 (sizes timestamp parts)) object);
     mem ← store mem (len pre + sizeof_event) (concat parts);
     mem ← (if timestamp =? 0 then Some mem else store mem (len pre + (sizeof_event + round8 (len (concat parts)))) (le_bytes 8 timestamp));
     store mem (len pre + sizes timestamp parts) (le_bytes 2 0)) = Some (pre ++ encode e ++ 0 :: 0 :: rest) /\
    posted serial id object timestamp flags parts e /\ event_ok e /\ size_of e = sizes timestamp parts.
Proof.
  intros [Hid Hobj [Hflags Hdelay] Htime Hsize] Hroom. pose proof (len_nonneg (concat parts)) as Hn. pose proof (round8_bounds _ Hn) as [Hr Hr8].
  set (data := concat parts) in *. set (r := round8 (len data)) in *. set (ts := if timestamp =? 0 then 0 else 8).
  assert (sizes timestamp parts = 16 + r + ts) as Hsizes by reflexivity. rewrite Hsizes in *. assert (0 <= ts <= 8) by (unfold ts; case_if; lia).
  destruct (split_at area 12) as (h & a1 & -> & Hh); [lia|]. rewrite len_app in Hroom.
  destruct (split_at a1 4) as (g & a2 & -> & Hg); [lia|]. rewrite len_app in Hroom.
  destruct (split_at a2 (len data)) as (d & a3 & -> & Hd); [lia|]. rewrite len_app in Hroom.
  destruct (split_at a3 (r - len data)) as (p & a4 & -> & Hp); [lia|]. rewrite len_app in Hroom.
  destruct (split_at a4 ts) as (t & a5 & -> & Ht); [lia|]. rewrite len_app in Hroom.
  destruct (split_at a5 2) as (z & rest & -> & Hz); [lia|].
  set (hd := header _ _ _ _ _). set (tb := if timestamp =? 0 then t else le_bytes 8 timestamp).
  set (e := mk_event id (post_flags_of timestamp flags) (serial mod 2 ^ 16) object g (data ++ p) (if timestamp =? 0 then None else Some timestamp)).
  assert (len (le_bytes 8 timestamp) = 8) as H8 by (unfold len; by rewrite length_le_bytes).
  assert (time_bytes (e_time e) = tb /\ len tb = ts) as [Etb Htb].
  { unfold e, tb, ts in *. cbn [e_time]. destruct (timestamp =? 0); [|done]. split; [symmetry; apply len_nil; lia|done]. }
  assert (size_of e = 16 + r + ts) as Esize by (unfold size_of; rewrite Etb, Htb; unfold e; cbn [e_payload]; rewrite len_app; change sizeof_event with 16; lia).
  assert (hd = header (e_id e) (e_flags e) (e_serial e) (size_of e) (e_object e)) as Ehd.
  { unfold hd, header. rewrite Esize. unfold e. cbn [e_id e_flags e_serial e_object]. change 0xFFFF with (Z.ones 16). rewrite Z.land_ones by lia.
    by rewrite !wrap_small by (change (2 ^ 16) with 65536 in *; lia). }
  exists e, rest. split; [|split; [|split; [|done]]].
  - rewrite (store_mid pre h _ _ hd) by (done || by rewrite Hh). cbn [mbind option_bind].
    rewrite (app_assoc hd g), (app_assoc pre). rewrite (store_mid (pre ++ hd ++ g) d _ _ data); [|rewrite !len_app, Hg; change (len hd) with 12; change sizeof_event with 16; lia|done].
    cbn [mbind option_bind].
    assert ((if timestamp =? 0 then Some ((pre ++ hd ++ g) ++ data ++ p ++ t ++ z ++ rest) else
      store ((pre ++ hd ++ g) ++ data ++ p ++ t ++ z ++ rest) (len pre + (sizeof_event + r)) (le_bytes 8 timestamp)) = Some ((pre ++ hd ++ g ++ data ++ p) ++ tb ++ z ++ rest)) as ->.
    { replace ((pre ++ hd ++ g) ++ data ++ p ++ t ++ z ++ rest) with ((pre ++ hd ++ g ++ data ++ p) ++ t ++ z ++ rest) by (by rewrite <- !app_assoc).
      unfold tb, ts in *. destruct (timestamp =? 0); [done|].
      apply store_mid; [rewrite !len_app, Hg, Hp; change (len hd) with 12; change sizeof_event with 16; lia|by rewrite Ht]. }
    cbn [mbind option_bind]. rewrite (app_assoc _ tb). rewrite store_mid; [|rewrite !len_app, Hg, Hp, Htb; change (len hd) with 12; lia|by rewrite Hz].
    change (le_bytes 2 0) with [0; 0]. unfold encode. rewrite <- Ehd, Etb. unfold e. cbn [e_gap e_payload]. by rewrite <- !app_assoc.
  - split; [done..|]. exists p. split; [done|]. unfold e. cbn [e_payload]. rewrite len_app. change (len data + len p = r). lia.
  - split; unfold e; cbn [e_id e_flags e_serial e_object e_gap e_payload e_time].
    + done.
    + unfold post_flags_of. case_if; [done|]. apply in_u_lor; [done|by split; vm_compute].
    + unfold post_flags_of. destruct (Z.eqb_spec timestamp 0) as [Et|Et]; [tauto|]. split; [|done]. intros H0. exfalso.
      apply (f_equal (fun x => Z.testbit x 0)) in H0. rewrite Z.land_spec, Z.lor_spec, orb_true_r in H0. done.
    + apply Z.mod_pos_bound. by vm_compute.
    + done.
    + done.
    + change (size_of e < 2 ^ 16). rewrite Esize. unfold ts. change (2 ^ 16) with 65536. case_if; lia.
    + rewrite len_app. by replace (len data + len p) with r by lia.
    + intros t0. case_if; [done|]. intros [= <-]. split; [lia|done].
Qed.

(** Stores keep the size of the memory. *)
Lemma len_store mem off bs mem' : store mem off bs = Some mem' -> len mem' = len mem.
Proof.
  unfold store. case_if; [|done]. intros [= <-]. rewrite andb_true_iff in Heqb. destruct Heqb as [H1 H2]. unfold len in *. f_equal. apply length_write_at. lia.
Qed.

Lemma len_stores mem o1 b1 o2 b2 (c : bool) o3 b3 o4 b4 mem' :
  (mem ← store mem o1 b1; mem ← store mem o2 b2; mem ← (if c then Some mem else store mem o3 b3); store mem o4 b4) = Some mem' -> len mem' = len mem.
Proof.
  destruct (store mem o1 b1) as [m1|] eqn:E1; [|done]. cbn [mbind option_bind]. destruct (store m1 o2 b2) as [m2|] eqn:E2; [|done]. cbn [mbind option_bind].
  destruct (if c then Some m2 else store m2 o3 b3) as [m3|] eqn:E3; [|done]. cbn [mbind option_bind]. intros E4.
  rewrite (len_store _ _ _ _ E4). transitivity (len m2); [destruct c; [by injection E3 as ->|by apply len_store in E3]|].
  by rewrite (len_store _ _ _ _ E2), (len_store _ _ _ _ E1).
Qed.

Lemma len_reallocate_block mem size : 0 <= size -> len (reallocate mem size) = size.
Proof. intros Hs. unfold reallocate, len. rewrite length_app, length_take, length_fresh_memory. lia. Qed.

(** Growing keeps the events. *)
Lemma grow_block_spec b es basesize allocsize b' :
  holds b es -> grow_block b basesize allocsize = Some b' -> 0 <= allocsize -> used b + allocsize + 2 <= len (events b') ->
  used b' = used b /\ fired b' = fired b /\ capacity b' <= len (events b') /\ exists area, events b' = encodes es ++ area /\ allocsize + 2 <= len area.
Proof.
  intros Hb Hgrow Ha Hroom. pose proof (hold_used _ _ Hb) as Hu. destruct (hold_events _ _ Hb) as (rest & E & _). pose proof (len_nonneg (encodes es)).
  enough (used b' = used b /\ fired b' = fired b /\ capacity b' <= len (events b') /\ exists area, events b' = encodes es ++ area) as (H1 & H2 & H3 & area & E').
  { do 3 (split; [done|]). exists area. split; [done|]. rewrite E', len_app in Hroom. lia. }
  unfold grow_block in Hgrow. cbv zeta in Hgrow. destruct (capacity b <=? used b + allocsize + 2).
  - destruct (if capacity b + 16 <? event_block_chunk then Some event_block_chunk else _) as [c|]; [|done]. cbn [mbind option_bind] in Hgrow. injection Hgrow as <-. cbn [used capacity events fired] in *.
    set (size := _ - 16 + 16) in *. assert (0 <= size).
    { destruct (Z.le_gt_cases 0 size); [done|]. unfold reallocate, len in Hroom. rewrite length_app, length_take, length_fresh_memory in Hroom. lia. }
    rewrite len_reallocate_block in * by done. split; [done|]. split; [done|]. split; [unfold size; lia|].
    exists (take (Z.to_nat size - length (encodes es)) rest ++ fresh_memory (Z.to_nat size - length (events b))). unfold reallocate. rewrite E at 1.
    rewrite app_assoc. f_equal. rewrite take_app, take_ge; [done|]. unfold len in *. lia.
  - injection Hgrow as <-. split; [done|]. split; [done|]. split; [apply (hold_capacity _ _ Hb)|by exists rest].
Qed.

Lemma set_block_same s i b : block (set_block s i b) i = b.
Proof. unfold block, set_block. by destruct (i =? 0). Qed.

Lemma set_block_other s i j b : (i =? 0) <> (j =? 0) -> block (set_block s i b) j = block s j.
Proof. unfold block, set_block. by destruct (i =? 0), (j =? 0). Qed.

(** What a post to a stream does: the stream after it, and the event. *)
Record appended (s s' : event_stream_t) (es : list event_t) (capacity' : Z) (e : event_t) : Prop := mk_appended {
  app_holds : holds (block s' (write s)) (es ++ [e]);
  app_capacity : capacity (block s' (write s)) = capacity';
  app_write : write s' = write s;
  app_read : read s' = read s;
  app_other : forall i, (write s =? 0) <> (i =? 0) -> block s' i = block s i;
  app_beacon : beacon s' = (if fired (block s (write s)) then beacon s else Z.succ <$> beacon s);
  app_fired : is_Some (beacon s) -> fired (block s' (write s)) = true }.

Lemma event_post_spec serial s id object timestamp flags parts es :
  0 <= write s -> holds (block s (write s)) es -> post_ok id object timestamp flags parts ->
  match grow_block (block s (write s)) (sizeof_event + round8 (len (concat parts))) (sizes timestamp parts) with
  | None => event_post_delay_with_flags serial s id object timestamp flags parts = Some (serial, s)
  | Some b =>
      used (block s (write s)) + sizes timestamp parts + 2 <= len (events b) ->
      exists e s', event_post_delay_with_flags serial s id object timestamp flags parts = Some (u32 (serial + 1), s') /\
        posted serial id object timestamp flags parts e /\ size_of e = sizes timestamp parts /\ appended s s' es (capacity b) e
  end.
Proof.
  intros Hw Hb Hok. unfold event_post_delay_with_flags. replace (id =? 0) with false by (pose proof (may_id _ _ _ _ _ Hok); lia).
  rewrite event_sizes_spec by (pose proof (may_size _ _ _ _ _ Hok); change sizeof_event with 16; lia). fold (sizes timestamp parts).
  replace (write s <? 0) with false by lia. destruct (grow_block _ _ _) as [b|] eqn:Eg; [|done]. intros Hroom.
  assert (0 <= sizes timestamp parts) as Hs0.
  { unfold sizes. destruct (round8_bounds (len (concat parts))) as [? _]; [apply len_nonneg|]. pose proof (len_nonneg (concat parts)). change sizeof_event with 16. case_if; lia. }
  destruct (grow_block_spec _ _ _ _ _ Hb Eg Hs0 Hroom) as (Eu & Ef & Hc & area & Ea & Hroom'). pose proof (hold_used _ _ Hb) as Hu.
  destruct (post_stores (encodes es) area serial id object timestamp flags parts Hok Hroom') as (e & rest & Estores & Hposted & He & Hsize).
  fold (post_flags_of timestamp flags). rewrite Eu, Ea, Hu.
  set (s' := set_block s (write s) (mk_block (len (encodes es) + sizes timestamp parts) (capacity b) (encodes es ++ encode e ++ 0 :: 0 :: rest) (fired b || negb (fired b) && (if beacon s then true else false)))).
  exists e, (if negb (fired b) && (if beacon s then true else false) then mk_stream (write s') (read s') (block0 s') (block1 s') (Z.succ <$> beacon s') else s').
  split; [|split; [done|split; [done|]]].
  - destruct (store _ _ (header _ _ _ _ _)) as [m1|]; [|done]. cbn [mbind option_bind] in *. destruct (store m1 _ _) as [m2|]; [|done]. cbn [mbind option_bind] in *.
    destruct (if timestamp =? 0 then _ else _) as [m3|]; [|done]. cbn [mbind option_bind] in *. rewrite Estores. reflexivity.
  - assert (forall c, block (if (c : bool) then mk_stream (write s') (read s') (block0 s') (block1 s') (Z.succ <$> beacon s') else s') (write s) = block s' (write s)) as Hcur by (by intros []).
    assert (write s' = write s /\ read s' = read s /\ beacon s' = beacon s) as (Ew & Er & Eb) by (unfold s', set_block; by destruct (write s =? 0)).
    pose proof (len_nonneg rest). split.
    + rewrite Hcur. unfold s'. rewrite set_block_same. split; cbn [used capacity events fired].
      * apply Forall_app. split; [apply (hold_ok _ _ Hb)|by constructor].
      * rewrite encodes_app, encodes_one, len_app, (len_encode e He). lia.
      * assert (len (events b) = len (encodes es ++ encode e ++ 0 :: 0 :: rest)) as <-; [|done]. rewrite Ea. symmetry. eapply len_stores, Estores.
      * exists (0 :: 0 :: rest). rewrite encodes_app, encodes_one, <- app_assoc. split; [done|]. right. by exists rest.
    + rewrite Hcur. unfold s'. by rewrite set_block_same.
    + destruct (negb (fired b) && _); cbn [write]; by rewrite Ew.
    + destruct (negb (fired b) && _); cbn [read]; by rewrite Er.
    + intros i Hi. assert (block s' i = block s i) as <- by (by apply set_block_other). by destruct (negb (fired b) && _).
    + rewrite <- Ef. destruct (fired b); cbn [negb andb]; [done|]. destruct (beacon s) as [n|] eqn:En; cbn [beacon]; by rewrite Eb.
    + intros [n Hn]. rewrite Hcur. unfold s'. rewrite set_block_same. cbn [fired]. rewrite Hn. by destruct (fired b).
Qed.

(** ** Reading *)

Section fields.
Context (pre post : list Z) (e : event_t) (He : event_ok e).
Abbreviation mem := (pre ++ encode e ++ post).

Lemma load_field a b c n v :
  encode e = a ++ b ++ c -> length b = n -> le_uint b = v -> load mem (len pre + len a) n = Some v.
Proof. intros E Hl Hv. rewrite E. rewrite <- !app_assoc, (app_assoc pre). rewrite (load_mid _ b _ _ n) by (done || by rewrite len_app). by rewrite Hv. Qed.

Lemma le_uint_small n v : 0 <= v < 2 ^ (8 * Z.of_nat n) -> le_uint (le_bytes n v) = v.
Proof. apply le_uint_bytes. Qed.

Lemma size_range : 16 <= size_of e < 2 ^ 16.
Proof.
  split; [|apply (ok_size _ He)]. unfold size_of. change sizeof_event with 16. pose proof (len_nonneg (e_payload e)). pose proof (len_nonneg (time_bytes (e_time e))). lia.
Qed.

Lemma load_id : load mem (len pre) 2 = Some (e_id e).
Proof.
  rewrite <- (Z.add_0_r (len pre)). apply (load_field [] (le_bytes 2 (e_id e)) (drop 2 (encode e))); [done|apply length_le_bytes|].
  apply le_uint_bytes. pose proof (ok_id _ He). cbn. lia.
Qed.

Lemma load_flags : load mem (len pre + 2) 2 = Some (e_flags e).
Proof. apply (load_field (le_bytes 2 (e_id e)) (le_bytes 2 (e_flags e)) (drop 4 (encode e))); [done|apply length_le_bytes|]. apply le_uint_bytes, (ok_flags _ He). Qed.

Lemma load_size : load mem (len pre + 6) 2 = Some (size_of e).
Proof.
  apply (load_field (le_bytes 2 (e_id e) ++ le_bytes 2 (e_flags e) ++ le_bytes 2 (e_serial e)) (le_bytes 2 (size_of e)) (drop 8 (encode e))); [done|apply length_le_bytes|].
  apply le_uint_bytes. pose proof size_range. cbn in *. lia.
Qed.

Lemma load_object : load mem (len pre + 8) 4 = Some (e_object e).
Proof.
  apply (load_field (le_bytes 2 (e_id e) ++ le_bytes 2 (e_flags e) ++ le_bytes 2 (e_serial e) ++ le_bytes 2 (size_of e)) (le_bytes 4 (e_object e)) (drop 12 (encode e))); [done|apply length_le_bytes|].
  apply le_uint_bytes, (ok_object _ He).
Qed.

Lemma sint_le_bytes t : tick_ok t -> sint 64 (le_uint (le_bytes 8 t)) = t.
Proof. intros Ht. rewrite le_uint_le_bytes, sint_wrap by lia. by apply sint_small. Qed.

Lemma load_time t : e_time e = Some t -> exists v, load mem (len pre + (size_of e - 8)) 8 = Some v /\ sint 64 v = t.
Proof.
  intros Et. exists (le_uint (le_bytes 8 t)). split; [|apply sint_le_bytes, (ok_time _ He t Et)].
  replace (size_of e - 8) with (len (header (e_id e) (e_flags e) (e_serial e) (size_of e) (e_object e) ++ e_gap e ++ e_payload e)).
  - apply (load_field _ (le_bytes 8 t) []); [|apply length_le_bytes|done]. unfold encode. rewrite Et. cbn [time_bytes]. by rewrite app_nil_r, <- !app_assoc.
  - unfold size_of. rewrite Et, !len_app, len_header, (ok_gap _ He). change (len (time_bytes (Some t))) with 8. change sizeof_event with 16. lia.
Qed.

Lemma sub_payload t : e_time e = Some t -> sub mem (len pre + sizeof_event) (size_of e - (sizeof_event + 8)) = e_payload e.
Proof.
  intros Et. unfold encode. set (h := header _ _ _ _ _). replace (pre ++ (h ++ e_gap e ++ e_payload e ++ time_bytes (e_time e)) ++ post) with
    ((pre ++ h ++ e_gap e) ++ e_payload e ++ (time_bytes (e_time e) ++ post)) by (by rewrite <- !app_assoc).
  apply sub_mid; [rewrite !len_app, (ok_gap _ He); change (len h) with 12; change sizeof_event with 16; lia|].
  unfold size_of. rewrite Et. change (len (time_bytes (Some t))) with 8. lia.
Qed.

Lemma repost_ok t : e_time e = Some t -> post_ok (e_id e) (e_object e) t (e_flags e) [e_payload e] /\ sizes t [e_payload e] = size_of e /\
  Z.lor (e_flags e) EVENTFLAG_DELAY = e_flags e.
Proof.
  intros Et. destruct (ok_time _ He t Et) as [Ht0 Ht]. pose proof size_range as Hs. pose proof (ok_aligned _ He) as H8.
  assert (size_of e = 16 + len (e_payload e) + 8) as Es by (unfold size_of; rewrite Et; done). pose proof (len_nonneg (e_payload e)).
  assert (concat [e_payload e] = e_payload e) as Ec by (cbn [concat]; apply app_nil_r). change (2 ^ 16) with 65536 in Hs. split; [|split].
  - split; [apply (ok_id _ He)|apply (ok_object _ He)|split; [apply (ok_flags _ He)|done]|done|]. rewrite Ec. Z.div_mod_to_equations. lia.
  - unfold sizes. rewrite Ec, Es. change sizeof_event with 16. replace (t =? 0) with false by lia. unfold round8. Z.div_mod_to_equations. lia.
  - assert (Z.land (e_flags e) 1 = 1) as H1.
    { assert (Z.land (e_flags e) 1 <> 0) as Hd by (intros Hd; apply (ok_delay _ He) in Hd; congruence).
      change 1 with (Z.ones 1) in Hd |- *. rewrite Z.land_ones in * by lia. change (2 ^ 1) with 2 in *. pose proof (Z.mod_pos_bound (e_flags e) 2 ltac:(lia)). change (Z.ones 1) with 1. lia. }
    change EVENTFLAG_DELAY with 1. rewrite <- H1. apply Z.bits_inj'. intros j _. rewrite Z.lor_spec, Z.land_spec. by destruct (Z.testbit (e_flags e) j).
Qed.
End fields.

(** The pointer to the last event that was read, of the first [k]. *)
Definition cursor (es : list event_t) (k : nat) : option Z := match k with O => None | S j => Some (len (encodes (take j es))) end.

Definition not_due (now : Z) (e : event_t) : bool := match e_time e with Some t => now <? t | None => false end.

(** An event that was posted again. *)
Definition same_event (e e' : event_t) : Prop :=
  e_id e' = e_id e /\ e_object e' = e_object e /\ e_flags e' = e_flags e /\ e_payload e' = e_payload e /\ e_time e' = e_time e.

Lemma encodes_size e es : Forall event_ok (e :: es) -> len (encodes (e :: es)) = size_of e + len (encodes es) /\ 16 <= size_of e.
Proof. intros [He Hes]%Forall_cons. rewrite encodes_cons, len_app, len_encode by done. split; [done|]. apply (size_range e He). Qed.

(** The event behind the first [k] in the memory. *)
Lemma memory_at b es k e rest :
  holds b es -> drop k es = e :: rest -> exists post, events b = encodes (take k es) ++ encode e ++ post.
Proof.
  intros Hb Hd. destruct (hold_events _ _ Hb) as (r & -> & _). exists (encodes rest ++ r). rewrite <- (take_drop k es) at 1. rewrite Hd, encodes_app, encodes_cons.
  by rewrite <- !app_assoc.
Qed.

Lemma take_next {A} (es : list A) k e rest : drop k es = e :: rest -> take (S k) es = take k es ++ [e] /\ drop (S k) es = rest.
Proof.
  intros Hd. assert (es !! k = Some e) as Hk by (rewrite <- (Nat.add_0_r k), <- lookup_drop, Hd; done). split; [by apply take_S_r|].
  rewrite <- Nat.add_1_r, <- drop_drop, Hd. done.
Qed.

(** Where the loop looks next. *)
Lemma next_pointer b es k :
  holds b es -> (k <= length es)%nat ->
  (match cursor es k with
   | Some event => size ← load (events b) (event + 6) 2; Some (Some (event + size))
   | None => Some (if used b =? 0 then None else Some 0)
   end) = Some (match es with [] => None | _ => Some (len (encodes (take k es))) end).
Proof.
  intros Hb Hk. destruct k as [|j]; cbn [cursor].
  - rewrite (hold_used _ _ Hb). destruct es as [|e es]; [done|]. pose proof (encodes_size _ _ (hold_ok _ _ Hb)) as [-> ?]. pose proof (len_nonneg (encodes es)).
    by replace (size_of e + len (encodes es) =? 0) with false by lia.
  - destruct (drop j es) as [|e rest] eqn:Hd; [apply (f_equal length) in Hd; rewrite length_drop in Hd; cbn in Hd; lia|].
    destruct (memory_at _ _ _ _ _ Hb Hd) as (post & ->). destruct (take_next _ _ _ _ Hd) as [Ht _].
    assert (event_ok e) as He. { pose proof (hold_ok _ _ Hb) as Hok. rewrite <- (take_drop j es), Hd in Hok. by apply Forall_app in Hok as [_ [? _]%Forall_cons]. }
    rewrite load_size by done. cbn [mbind option_bind]. destruct es; [by destruct j|]. rewrite Ht, encodes_app, encodes_one, len_app, len_encode by done. done.
Qed.

(** The null identifier behind the last event. *)
Lemma end_id b es : holds b es -> es <> [] -> load (events b) (len (encodes es)) 2 = Some 0.
Proof.
  intros Hb Hne. destruct (hold_events _ _ Hb) as (rest & -> & [->|(rest' & ->)]); [done|]. change (0 :: 0 :: rest') with ([0; 0] ++ rest').
  by rewrite (load_mid _ [0; 0]).
Qed.

Definition same_reader (s s' : event_stream_t) (i : Z) : Prop :=
  block s' i = block s i /\ write s' = write s /\ read s' = read s /\ capacity (block s' (write s)) = capacity (block s (write s)).

(** The stream after the events that are not due were posted again. *)
Definition reposted (s s' : event_stream_t) (i : Z) (pending skipped : list event_t) : Prop :=
  same_reader s s' i /\ exists again, holds (block s' (write s)) (pending ++ again) /\ Forall2 same_event skipped again.

Lemma same_event_size e e' : same_event e e' -> size_of e' = size_of e.
Proof. intros (_ & _ & _ & E1 & E2). unfold size_of. by rewrite E1, E2. Qed.

Lemma same_events_size es es' : Forall2 same_event es es' -> Forall event_ok es -> Forall event_ok es' -> len (encodes es') = len (encodes es).
Proof.
  induction 1 as [|e e' es es' He _ IH]; [done|]. intros Hok Hok'. destruct (encodes_size _ _ Hok) as [-> _], (encodes_size _ _ Hok') as [-> _].
  apply Forall_cons in Hok as [_ Hok]. apply Forall_cons in Hok' as [_ Hok']. by rewrite (same_event_size _ _ He), IH.
Qed.

Lemma grow_block_room b basesize allocsize : used b + allocsize + 2 < capacity b -> grow_block b basesize allocsize = Some b.
Proof. intros H. unfold grow_block. by replace (capacity b <=? used b + allocsize + 2) with false by lia. Qed.

(** Posting one event again. *)
Lemma repost_one s i pending serial e t :
  0 <= write s -> (write s =? 0) <> (i =? 0) -> holds (block s (write s)) pending -> event_ok e -> e_time e = Some t ->
  used (block s (write s)) + size_of e + 2 < capacity (block s (write s)) ->
  exists s', event_post_delay_with_flags serial s (e_id e) (e_object e) t (e_flags e) [e_payload e] = Some (u32 (serial + 1), s') /\ reposted s s' i pending [e].
Proof.
  intros Hw Hi Hb He Et Hroom. destruct (repost_ok e He t Et) as (Hok & Hsize & Hflags).
  pose proof (event_post_spec serial s _ _ _ _ _ _ Hw Hb Hok) as Hpost. rewrite Hsize, grow_block_room in Hpost by done.
  destruct Hpost as (e' & s' & Epost & Hposted & Hs & Happ); [pose proof (hold_capacity _ _ Hb); lia|]. exists s'. split; [done|].
  destruct Happ as [H1 H2 H3 H4 H5 _ _]. split; [split; [by apply H5|done]|]. exists [e']. split; [done|]. constructor; [|done].
  destruct Hposted as [P1 P2 _ P4 P5 (padding & P6 & P7)]. destruct (ok_time _ He t Et) as [Ht0 _]. replace (t =? 0) with false in * by lia.
  split; [done|]. split; [done|]. split; [by rewrite P4|]. split; [|by rewrite P5].
  cbn [concat] in P6, P7. rewrite app_nil_r in *. rewrite P6 in P7 |- *. rewrite len_app in P7. assert (padding = []) as ->; [|by rewrite app_nil_r].
  apply len_nil. pose proof (ok_aligned _ He). pose proof (len_nonneg (e_payload e)). unfold round8 in P7. Z.div_mod_to_equations. lia.
Qed.

Lemma reposted_trans s s1 s2 i pending a b again :
  same_reader s s1 i -> Forall2 same_event a again -> reposted s1 s2 i (pending ++ again) b -> reposted s s2 i pending (a ++ b).
Proof.
  intros (H1 & H2 & H3 & H4) Ha ((G1 & G2 & G3 & G4) & again' & Hb & Hab). rewrite H2 in *. split; [split; [congruence|split; [congruence|split; congruence]]|].
  exists (again ++ again'). rewrite app_assoc. split; [done|]. by apply Forall2_app.
Qed.

(** The first event that is due is returned, and the ones before it are posted
    again. *)
Lemma event_next_spec es i now : forall rest k fuel serial s pending,
  holds (block s i) es -> drop k es = rest -> (k <= length es)%nat -> (es = [] -> k = O) ->
  0 <= write s -> (write s =? 0) <> (i =? 0) -> holds (block s (write s)) pending ->
  used (block s (write s)) + len (encodes rest) + 2 < capacity (block s (write s)) -> (length rest < fuel)%nat ->
  exists skipped serial' s', Forall (fun e => not_due now e = true) skipped /\ reposted s s' i pending skipped /\
    ((rest = skipped /\ event_next fuel now serial s i (cursor es k) = Some (None, serial', s')) \/
     (exists e rest', rest = skipped ++ e :: rest' /\ not_due now e = false /\
        event_next fuel now serial s i (cursor es k) = Some (cursor es (S (k + length skipped)), serial', s'))).
Proof.
  intros rest. induction rest as [|e rest IH]; intros k fuel serial s pending Hb Hd Hk Hnil Hw Hi Hp Hroom Hf; (destruct fuel as [|fuel]; [cbn in Hf; lia|]); cbn [event_next];
    rewrite (next_pointer _ _ _ Hb Hk); cbn [mbind option_bind].
  - exists [], serial, s. split; [done|]. split; [split; [done|]; exists []; by rewrite app_nil_r|]. left. split; [done|].
    destruct es as [|e0 es0] eqn:Ees; [done|]. rewrite <- Ees in *. assert (length es <= k)%nat as Hge by (apply (f_equal length) in Hd; rewrite length_drop in Hd; cbn in Hd; lia).
    rewrite take_ge by done. rewrite (end_id _ _ Hb) by congruence. done.
  - destruct (memory_at _ _ _ _ _ Hb Hd) as (post & Emem). destruct (take_next _ _ _ _ Hd) as [Ht Hd'].
    assert (Forall event_ok (e :: rest)) as Hoks. { pose proof (hold_ok _ _ Hb) as Hok. rewrite <- (take_drop k es), Hd in Hok. by apply Forall_app in Hok as [_ ?]. }
    destruct (encodes_size _ _ Hoks) as [Hsize Hpos]. apply Forall_cons in Hoks as [He Hoks]. pose proof (len_nonneg (encodes rest)).
    assert (es <> []) as Hne by (intros ->; by rewrite drop_nil in Hd). assert (S k <= length es)%nat as Hk' by (apply (f_equal length) in Hd; rewrite length_drop in Hd; cbn in Hd; lia).
    replace (match es with [] => None | _ => Some (len (encodes (take k es))) end) with (cursor es (S k)) by (by destruct es). cbn [cursor].
    rewrite Emem. rewrite load_id by done. cbn [mbind option_bind]. replace (e_id e =? 0) with false by (pose proof (ok_id _ He); lia).
    rewrite load_flags by done. cbn [mbind option_bind]. destruct (e_time e) as [t|] eqn:Et.
    + destruct (Z.eqb_spec (Z.land (e_flags e) EVENTFLAG_DELAY) 0) as [E0|_]; [apply (ok_delay _ He) in E0; congruence|].
      rewrite load_size by done. cbn [mbind option_bind]. destruct (load_time (encodes (take k es)) post e He t Et) as (v & -> & Hv). cbn [mbind option_bind]. rewrite Hv.
      destruct (Z.leb_spec t now) as [Hdue|Hdue].
      * exists [], serial, s. split; [done|]. split; [split; [done|]; exists []; by rewrite app_nil_r|]. right. exists e, rest. split; [done|].
        split; [unfold not_due; rewrite Et; lia|]. by rewrite Nat.add_0_r.
      * rewrite load_object by done. cbn [mbind option_bind]. rewrite (sub_payload _ _ e He t Et).
        destruct (repost_one s i pending serial e t Hw Hi Hp He Et ltac:(lia)) as (s1 & -> & (Hr & again & Hb1 & Hagain)). cbn [mbind option_bind].
        pose proof Hr as (R1 & R2 & R3 & R4). change (Some (len (encodes (take k es)))) with (cursor es (S k)).
        pose proof (hold_used _ _ Hb1) as Hu1. pose proof (hold_ok _ _ Hb1) as Hok1. apply Forall_app in Hok1 as [_ Hok1]. rewrite encodes_app, len_app in Hu1.
        pose proof (same_events_size _ _ Hagain ltac:(by constructor) Hok1) as Ha. rewrite encodes_one, len_encode in Ha by done. pose proof (hold_used _ _ Hp) as Hu.
        destruct (IH (S k) fuel (u32 (serial + 1)) s1 (pending ++ again)) as (skipped & serial' & s' & Hskip & Hrep & Hres); rewrite ?R1, ?R2, ?R4; try done; [lia|cbn [length] in Hf; lia|].
        exists (e :: skipped), serial', s'. split; [constructor; [unfold not_due; rewrite Et; lia|done]|]. split; [by apply (reposted_trans s s1 s' i pending [e] skipped again)|].
        destruct Hres as [[-> Hres]|(e' & rest' & -> & Hnd & Hres)]; [by left|right]. exists e', rest'. split; [done|]. split; [done|]. cbn [length]. by rewrite <- plus_n_Sm.
    + replace (Z.land (e_flags e) EVENTFLAG_DELAY =? 0) with true by (symmetry; apply Z.eqb_eq, (ok_delay _ He), Et).
      exists [], serial, s. split; [done|]. split; [split; [done|]; exists []; by rewrite app_nil_r|]. right. exists e, rest. split; [done|].
      split; [unfold not_due; by rewrite Et|]. by rewrite Nat.add_0_r.
Qed.

(** ** A round of posting and processing *)

Record post := mk_post { p_id : Z; p_object : Z; p_delivery : Z; p_parts : list (list Z) }.

Fixpoint post_all (serial : Z) (s : event_stream_t) (posts : list post) : option (Z * event_stream_t) :=
  match posts with
  | [] => Some (serial, s)
  | p :: posts => '(serial, s) ← event_post_vlist serial s (p_id p) (p_object p) (p_delivery p) (p_parts p); post_all serial s posts
  end.

(** The loop of a reader: the pointers it gets from [event_next]. *)
Fixpoint drain (n fuel : nat) (now serial : Z) (s : event_stream_t) (i : Z) (event : option Z) : option (list Z * Z * event_stream_t) :=
  match n with
  | O => None
  | S n =>
      '(event, serial, s) ← event_next fuel now serial s i event;
      match event with
      | None => Some ([], serial, s)
      | Some p => '(ps, serial, s) ← drain n fuel now serial s i (Some p); Some (p :: ps, serial, s)
      end
  end.

Definition may_post (p : post) : Prop := post_ok (p_id p) (p_object p) (p_delivery p) 0 (p_parts p).
Definition post_size (p : post) : Z := sizes (p_delivery p) (p_parts p).
Definition posted_as (p : post) (e : event_t) : Prop := exists serial, posted serial (p_id p) (p_object p) (p_delivery p) 0 (p_parts p) e.

(** A pointer to an event. *)
Definition points_to (b : event_block_t) (ptr : Z) (e : event_t) : Prop := exists pre rest, events b = pre ++ encode e ++ rest /\ ptr = len pre.

Lemma post_size_pos p : 16 <= post_size p.
Proof.
  unfold post_size, sizes. destruct (round8_bounds (len (concat (p_parts p)))) as [H _]; [apply len_nonneg|]. pose proof (len_nonneg (concat (p_parts p))).
  change sizeof_event with 16. case_if; lia.
Qed.

Lemma sum_sizes_nonneg posts : 0 <= sumZ (map post_size posts).
Proof. apply sumZ_nonneg, Forall_map, Forall_forall. intros p _. pose proof (post_size_pos p). unfold compose. lia. Qed.

Lemma post_all_spec posts : forall serial s ps,
  0 <= write s -> holds (block s (write s)) ps -> Forall may_post posts ->
  used (block s (write s)) + sumZ (map post_size posts) + 2 < capacity (block s (write s)) ->
  exists serial' s' es, post_all serial s posts = Some (serial', s') /\ Forall2 posted_as posts es /\ holds (block s' (write s)) (ps ++ es) /\
    write s' = write s /\ read s' = read s /\ capacity (block s' (write s)) = capacity (block s (write s)) /\
    len (encodes es) = sumZ (map post_size posts) /\ (forall i, (write s =? 0) <> (i =? 0) -> block s' i = block s i).
Proof.
  induction posts as [|p posts IH]; intros serial s ps Hw Hb Hok Hroom.
  - exists serial, s, []. rewrite app_nil_r. done.
  - apply Forall_cons in Hok as [Hp Hok]. cbn [map] in Hroom. change (sumZ (?a :: ?l)) with (a + sumZ l) in *. pose proof (sum_sizes_nonneg posts).
    pose proof (event_post_spec serial s _ _ _ _ _ ps Hw Hb Hp) as Hpost. fold (post_size p) in Hpost.
    rewrite grow_block_room in Hpost by lia. destruct Hpost as (e & s1 & E1 & Hposted & Hsize & Happ); [pose proof (hold_capacity _ _ Hb); lia|].
    pose proof (hold_used _ _ (app_holds _ _ _ _ _ Happ)) as Hu1. pose proof (hold_used _ _ Hb) as Hu. rewrite encodes_app, encodes_one, len_app in Hu1.
    assert (event_ok e) as He. { pose proof (hold_ok _ _ (app_holds _ _ _ _ _ Happ)) as Ho. by apply Forall_app in Ho as [_ [? _]%Forall_cons]. }
    rewrite len_encode in Hu1 by done. pose proof Happ as [A1 A2 A3 A4 A5 _ _].
    destruct (IH (u32 (serial + 1)) s1 (ps ++ [e])) as (serial' & s' & es & E2 & Hes & Hb' & W & R & C & L & O); rewrite ?A3 in *; try done; [lia|].
    exists serial', s', (e :: es). cbn [post_all]. unfold event_post_vlist. rewrite E1. cbn [mbind option_bind]. split; [done|].
    split; [constructor; [by exists serial|done]|]. rewrite <- app_assoc in Hb'. split; [done|]. split; [done|]. split; [congruence|]. split; [congruence|].
    split; [rewrite encodes_cons, len_app, len_encode by done; change (sumZ (map post_size (p :: posts))) with (post_size p + sumZ (map post_size posts)); lia|]. intros i Hi. rewrite O by done. by apply A5.
Qed.

Lemma drain_spec es i now : forall n k fuel serial s pending,
  holds (block s i) es -> (k <= length es)%nat -> 0 <= write s -> (write s =? 0) <> (i =? 0) -> holds (block s (write s)) pending ->
  used (block s (write s)) + len (encodes (drop k es)) + 2 < capacity (block s (write s)) -> (length es < fuel)%nat -> (length (drop k es) < n)%nat ->
  exists ptrs serial' s', drain n fuel now serial s i (cursor es k) = Some (ptrs, serial', s') /\
    Forall2 (points_to (block s i)) ptrs (filter (fun e => not_due now e = false) (drop k es)) /\
    reposted s s' i pending (filter (fun e => not_due now e = true) (drop k es)).
Proof.
  intros n. induction n as [|n IH]; intros k fuel serial s pending Hb Hk Hw Hi Hp Hroom Hf Hn; [lia|]. cbn [drain].
  destruct (event_next_spec es i now (drop k es) k fuel serial s pending Hb eq_refl Hk) as (skipped & serial1 & s1 & Hskip & Hrep & Hres); try done.
  { intros ->. cbn in Hk. lia. } { rewrite length_drop. lia. }
  assert (filter (fun e => not_due now e = false) skipped = [] /\ filter (fun e => not_due now e = true) skipped = skipped) as [Hf1 Hf2].
  { clear -Hskip. induction Hskip as [|e l He _ [IH1 IH2]]; [done|]. rewrite !filter_cons, He. cbn. split; [done|]. by f_equal. }
  destruct Hres as [[E ->]|(e & rest & E & Hdue & ->)]; cbn [mbind option_bind].
  - exists [], serial1, s1. split; [done|]. rewrite E, Hf1, Hf2. by split.
  - cbn [cursor mbind option_bind]. set (j := (k + length skipped)%nat).
    assert (drop j es = e :: rest) as Hj by (unfold j; rewrite <- drop_drop, E, drop_app_length; done).
    destruct (take_next _ _ _ _ Hj) as [Ht Hd]. assert (S j <= length es)%nat as Hj' by (apply (f_equal length) in Hj; rewrite length_drop in Hj; cbn in Hj; lia).
    pose proof Hrep as ((R1 & R2 & R3 & R4) & again & Hb1 & Hagain). pose proof (hold_used _ _ Hb1) as Hu1. rewrite encodes_app, len_app in Hu1.
    pose proof (hold_ok _ _ Hb) as Hok. rewrite <- (take_drop k es), E in Hok. apply Forall_app in Hok as [_ Hok]. apply Forall_app in Hok as [Hoks Hok].
    pose proof (hold_ok _ _ Hb1) as Hok1. apply Forall_app in Hok1 as [_ Hok1]. pose proof (same_events_size _ _ Hagain Hoks Hok1) as Ha.
    pose proof (hold_used _ _ Hp) as Hu. destruct (encodes_size _ _ Hok) as [Hsize Hpos].
    rewrite E, encodes_app, len_app, Hsize in Hroom.
    destruct (IH (S j) fuel serial1 s1 (pending ++ again)) as (ptrs & serial' & s' & E' & Hptrs & Hrep'); rewrite ?R1, ?R2, ?R4, ?Hd in *; try done; [lia| |].
    { apply (f_equal length) in E. rewrite length_app in E. cbn [length] in E. lia. }
    cbn [cursor] in E'. rewrite E'. cbn [mbind option_bind]. exists (len (encodes (take j es)) :: ptrs), serial', s'. split; [done|].
    rewrite E, !filter_app, Hf1, Hf2, !filter_cons, Hdue. cbn [app]. rewrite decide_True by done. rewrite decide_False by done. split.
    + constructor; [|done]. destruct (memory_at _ _ _ _ _ Hb Hj) as (post' & Em). by exists (encodes (take j es)), post'.
    + by apply (reposted_trans s s1 s' i pending skipped _ again).
Qed.

(** A stream whose blocks hold events. *)
Definition stream_ok (s : event_stream_t) (pending reading : list event_t) : Prop :=
  (write s = 0 /\ read s = 1 \/ write s = 1 /\ read s = 0) /\ holds (block s (write s)) pending /\ holds (block s (read s)) reading.

Lemma initialized_ok size : stream_ok (event_stream_initialize size) [] [].
Proof.
  unfold event_stream_initialize. set (n := if size <? 256 then 256 else size). assert (0 <= n) by (unfold n; case_if; lia).
  split; [by left|]. assert (holds (mk_block 0 n (replicate (Z.to_nat n) 0) false) []) as Hb; [|done].
  split; [done|done|cbn [capacity events]; unfold len; rewrite length_replicate; lia|]. eexists. split; [done|by left].
Qed.

(** Processing makes the pending events readable. *)
Lemma process_spec s pending reading : stream_ok s pending reading ->
  exists s', event_stream_process s = Some (write s, s') /\ write s' = read s /\ read s' = write s /\
    holds (block s' (write s)) pending /\ holds (block s' (read s)) [] /\ used (block s' (read s)) = 0 /\
    capacity (block s' (read s)) = capacity (block s (read s)) /\ block s' (write s) = block s (write s).
Proof.
  intros (Hi & Hp & Hr). unfold event_stream_process. replace (write s <? 0) with false by lia. eexists. split; [done|].
  split; [by destruct Hi as [[_ E]|[_ E]]; rewrite E|]. split; [done|].
  assert (holds (mk_block 0 (capacity (block s (read s))) (events (block s (read s))) false) []) as Hb.
  { split; [done|done|apply (hold_capacity _ _ Hr)|]. eexists. split; [done|by left]. }
  destruct Hi as [[E1 E2]|[E1 E2]]; rewrite E1, E2 in *; done.
Qed.
End event.

(** C36: events are delivered once, in order, and not before their time.  Events
    with an identifier of 16 bits and a payload of at most 0xFFE0 bytes are
    posted to a stream with room for them, the stream is processed and its block
    read to the end at the time [now].  Every call returns; the pointers
    that the reader gets are those of the pending events, older ones first, that
    are not delayed beyond [now], with the identifiers, objects and payloads that
    were posted; the others are posted again, in order, and are pending after it;
    the events stay readable in the block. *)
Theorem event_stream_delivers `{HU : !Uninit} (event_block_chunk event_block_limit now serial : Z) (s : event_stream_t) (pending reading : list event_t)
    (posts : list post) (fuel : nat) :
  stream_ok s pending reading -> Forall may_post posts ->
  used (block s (write s)) + sumZ (map post_size posts) + 2 < capacity (block s (write s)) ->
  used (block s (write s)) + sumZ (map post_size posts) + 2 < capacity (block s (read s)) ->
  (length pending + length posts < fuel)%nat ->
  exists es serial1 s1 s2 ptrs serial3 s3 again,
    post_all event_block_chunk event_block_limit serial s posts = Some (serial1, s1) /\ Forall2 posted_as posts es /\
    event_stream_process s1 = Some (write s, s2) /\
    drain event_block_chunk event_block_limit fuel fuel now serial1 s2 (write s) None = Some (ptrs, serial3, s3) /\
    Forall2 (points_to (block s3 (write s))) ptrs (filter (fun e => not_due now e = false) (pending ++ es)) /\
    stream_ok s3 again (pending ++ es) /\ Forall2 same_event (filter (fun e => not_due now e = true) (pending ++ es)) again.
Proof.
  intros Hs Hposts Hroom Hroom' Hf. pose proof Hs as (Hi & Hp & Hr). assert ((write s =? 0) <> (read s =? 0)) as Hne by (destruct Hi as [[-> ->]|[-> ->]]; done).
  destruct (post_all_spec event_block_chunk event_block_limit posts serial s pending ltac:(lia) Hp Hposts Hroom) as (serial1 & s1 & es & E1 & Hes & H1 & W1 & R1 & C1 & L1 & O1).
  assert (stream_ok s1 (pending ++ es) reading) as Hs1 by (unfold stream_ok; rewrite W1, R1, (O1 _ Hne); by split_and!).
  destruct (process_spec _ _ _ Hs1) as (s2 & E2 & W2 & R2 & H2 & H2' & U2 & C2 & B2). rewrite W1, R1 in *. rewrite O1 in C2 by done.
  pose proof (hold_used _ _ Hp) as Hu. pose proof (Forall2_length _ _ _ Hes) as Hlen.
  destruct (drain_spec event_block_chunk event_block_limit (pending ++ es) (write s) now fuel 0 fuel serial1 s2 []) as (ptrs & serial3 & s3 & E3 & Hptrs & Hrep);
    rewrite ?W2, ?drop_0, ?length_app in *; try done; try lia; [rewrite U2, C2, encodes_app, len_app, L1; lia|].
  destruct Hrep as ((G1 & G2 & G3 & G4) & again & Hagain & Hsame). rewrite W2 in *. cbn [app cursor] in *. 
  exists es, serial1, s1, s2, ptrs, serial3, s3, again. split; [done|]. split; [done|]. split; [done|]. split; [done|]. rewrite G1. split; [done|]. split; [|done].
  unfold stream_ok. rewrite G2, G3, R2, G1. split; [lia|]. by split.
Qed.

(** Three posts: at once, in the past and in the future. *)
Definition sample_posts : list post := [mk_post 7 1 0 [[1; 2; 3]; [4]]; mk_post 8 2 50 [[]]; mk_post 9 3 500 [[5; 6]]].

Lemma sample_may_post : Forall may_post sample_posts.
Proof. repeat (apply Forall_cons; split); [..|apply Forall_nil_2]; (split; [by split; vm_compute|by split; vm_compute|split; [by split; vm_compute|done]|by split; vm_compute|by vm_compute]). Qed.

Example event_stream_delivers_witness :
  exists es serial1 s1 s2 ptrs serial3 s3 again,
    post_all (HU := fun _ => 0) 8192 524288 0 (event_stream_initialize 0) sample_posts = Some (serial1, s1) /\ Forall2 posted_as sample_posts es /\
    event_stream_process s1 = Some (0, s2) /\
    drain (HU := fun _ => 0) 8192 524288 9 9 100 serial1 s2 0 None = Some (ptrs, serial3, s3) /\
    Forall2 (points_to (block s3 0)) ptrs (filter (fun e => not_due 100 e = false) ([] ++ es)) /\
    stream_ok s3 again ([] ++ es) /\ Forall2 same_event (filter (fun e => not_due 100 e = true) ([] ++ es)) again.
Proof.
  apply (event_stream_delivers (HU := fun _ => 0) 8192 524288 100 0 (event_stream_initialize 0) [] [] sample_posts 9).
  - apply initialized_ok.
  - apply sample_may_post.
  - by vm_compute.
  - by vm_compute.
  - cbn. lia.
Defined.

(** The pointers in that run. *)
Example sample_pointers :
  match post_all (HU := fun _ => 0) 8192 524288 0 (event_stream_initialize 0) sample_posts with
  | Some (serial, s) =>
      match event_stream_process s with
      | Some (i, s) => option_map (fun '(ptrs, serial, _) => (ptrs, serial)) (drain (HU := fun _ => 0) 8192 524288 9 9 100 serial s i None)
      | None => None
      end
  | None => None
  end = Some ([0; 24], 4).
Proof. by vm_compute. Qed.

(** An event that is posted to a block over its limit is dropped. *)
Lemma event_post_over_limit `{HU : !Uninit} event_block_chunk event_block_limit serial s es id object timestamp flags parts :
  0 <= write s -> holds (block s (write s)) es -> post_ok id object timestamp flags parts ->
  event_block_limit <= capacity (block s (write s)) + 16 -> event_block_chunk <= capacity (block s (write s)) + 16 ->
  capacity (block s (write s)) <= used (block s (write s)) + sizes timestamp parts + 2 ->
  event_post_delay_with_flags event_block_chunk event_block_limit serial s id object timestamp flags parts = Some (serial, s).
Proof.
  intros Hw Hb Hok Hlimit Hchunk Hfull. pose proof (event_post_spec event_block_chunk event_block_limit serial s id object timestamp flags parts es Hw Hb Hok) as Hpost.
  unfold grow_block in Hpost. replace (_ <=? _) with true in Hpost by lia. replace (_ <? event_block_chunk) with false in Hpost by lia.
  by replace (event_block_limit <=? _) with true in Hpost by lia.
Qed.

(** One chunk more is not always enough: a block of 8100 bytes grows to 8192
    bytes, and an event of 300 bytes behind 8000 is stored outside. *)
Example event_post_overflows :
  event_post_delay_with_flags (HU := fun _ => 0) 8192 524288 0 (mk_stream 0 1 (mk_block 8000 8100 (replicate 8100 0) false) (mk_block 0 8100 [] false) None)
    1 0 0 0 [replicate 300 0] = None.
Proof. by vm_compute. Qed.

(** The largest payload that the assertion allows, with a delivery time: the
    size wraps around to 0, and [event_next] stays at the event. *)
Example event_size_wraps : u16 (snd (event_sizes 1 [replicate (Z.to_nat 0xFFE8) 0])) = 0.
Proof. by vm_compute. Qed.

(** ** The lock

    Threads lock the stream by the index of its write block.  Any number of
    threads post; thread 0 processes. *)
Module Lock.

(** A thread between the exchange that locks and the store that unlocks; the
    processing thread has swapped the blocks or not. *)
Inductive pc := Outside | Posting (last_write : Z) | Swapping (last_write : Z) | Swapped (new_write : Z).

Record state := mk_state { write_index : Z; read_index : Z; pcs : nat -> pc }.

Definition at_pc (s : state) (t : nat) (p : pc) (w r : Z) : state := mk_state w r (fun t' => if decide (t' = t) then p else pcs s t').

Inductive lock_step : state -> state -> Prop :=
  | step_post s t : pcs s t = Outside -> 0 <= write_index s -> lock_step s (at_pc s t (Posting (write_index s)) EVENT_BLOCK_POSTING (read_index s))
  | step_unlock s t last_write : pcs s t = Posting last_write -> lock_step s (at_pc s t Outside last_write (read_index s))
  | step_process s : pcs s 0%nat = Outside -> 0 <= write_index s -> lock_step s (at_pc s 0 (Swapping (write_index s)) EVENT_BLOCK_SWAPPING (read_index s))
  | step_swap s last_write : pcs s 0%nat = Swapping last_write -> lock_step s (at_pc s 0 (Swapped (read_index s)) (write_index s) last_write)
  | step_swapped s new_write : pcs s 0%nat = Swapped new_write -> lock_step s (at_pc s 0 Outside new_write (read_index s)).

Definition start : state := mk_state 0 1 (fun _ => Outside).

(** Who holds the lock, and what the indices are then. *)
Definition indices (w r : Z) : Prop := w = 0 /\ r = 1 \/ w = 1 /\ r = 0.

Definition inv (s : state) : Prop :=
  (exists t, pcs s t <> Outside /\ (forall t', pcs s t' <> Outside -> t' = t) /\ write_index s < 0 /\
     match pcs s t with
     | Posting w => indices w (read_index s)
     | Swapping w => indices w (read_index s)
     | Swapped w => indices w (read_index s)
     | Outside => True
     end) \/
  ((forall t, pcs s t = Outside) /\ indices (write_index s) (read_index s)).

Lemma inv_free s : inv s -> 0 <= write_index s -> (forall t, pcs s t = Outside) /\ indices (write_index s) (read_index s).
Proof. intros [(t & _ & _ & ? & _)|H]; [lia|done]. Qed.

Lemma inv_held s t : inv s -> pcs s t <> Outside -> (forall t', pcs s t' <> Outside -> t' = t) /\ write_index s < 0 /\
  match pcs s t with Outside => True | Posting w | Swapping w | Swapped w => indices w (read_index s) end.
Proof. intros [(t0 & _ & Hu & Hw & Hm)|[H _]] Ht; [|by rewrite H in Ht]. pose proof (Hu t Ht) as ->. split; [done|]. split; [done|]. by destruct (pcs s t0). Qed.

Lemma at_pc_same s t p w r : pcs (at_pc s t p w r) t = p.
Proof. cbn. by rewrite decide_True. Qed.

Lemma at_pc_other s t t' p w r : t' <> t -> pcs (at_pc s t p w r) t' = pcs s t'.
Proof. intros. cbn. by rewrite decide_False. Qed.

(** The only thread inside. *)
Lemma inv_inside s t p w r :
  (forall t', pcs s t' <> Outside -> t' = t) -> p <> Outside -> w < 0 ->
  match p with Outside => True | Posting w | Swapping w | Swapped w => indices w r end -> inv (at_pc s t p w r).
Proof.
  intros Hu Hp Hw Hm. left. exists t. rewrite at_pc_same. split; [done|]. split.
  - intros t' Ht'. destruct (decide (t' = t)) as [->|Hne]; [done|]. rewrite at_pc_other in Ht' by done. by apply Hu.
  - split; [done|]. by destruct p.
Qed.

(** The thread that leaves. *)
Lemma inv_outside s t w r : (forall t', pcs s t' <> Outside -> t' = t) -> indices w r -> inv (at_pc s t Outside w r).
Proof.
  intros Hu Hi. right. split; [|done]. intros t'. destruct (decide (t' = t)) as [->|Hne]; [by rewrite at_pc_same|]. rewrite at_pc_other by done.
  destruct (pcs s t') eqn:E; [done|..]; (destruct Hne; apply Hu; congruence).
Qed.

Lemma event_step_inv s s' : inv s -> lock_step s s' -> inv s'.
Proof.
  intros Hinv Hstep. destruct Hstep as [s t Ht Hw|s t w Ht|s Ht Hw|s w Ht|s w Ht].
  - destruct (inv_free s Hinv Hw) as [Hall Hi]. apply inv_inside; [intros t' Ht'; by rewrite Hall in Ht'|done|done|done].
  - destruct (inv_held s t Hinv ltac:(congruence)) as (Hu & _ & Hm). rewrite Ht in Hm. by apply inv_outside.
  - destruct (inv_free s Hinv Hw) as [Hall Hi]. apply inv_inside; [intros t' Ht'; by rewrite Hall in Ht'|done|done|done].
  - destruct (inv_held s 0%nat Hinv ltac:(congruence)) as (Hu & Hw & Hm). rewrite Ht in Hm. apply inv_inside; [done|done|done|]. unfold indices in *. lia.
  - destruct (inv_held s 0%nat Hinv ltac:(congruence)) as (Hu & _ & Hm). rewrite Ht in Hm. by apply inv_outside.
Qed.

Lemma lock_reachable_inv s : rtc lock_step start s -> inv s.
Proof.
  intros H. remember start as s0 eqn:E. assert (inv s0) as H0 by (right; subst; split; [done|by left]). clear E.
  induction H as [|s0 s1 s2 Hstep _ IH]; [done|]. by apply IH, (event_step_inv s0).
Qed.

(** C37: the index of the write block is a lock.  In every interleaving of any
    number of posting threads with the processing thread, at most one thread is
    between its exchange and its store, a thread that posts has a block that is
    not the one being read, and when no thread is inside, the index is that of
    the other block, so that a waiting thread can go on. *)
Theorem event_blocks_exclusive (s : state) :
  rtc lock_step start s ->
  (forall t t', pcs s t <> Outside -> pcs s t' <> Outside -> t = t') /\
  (forall t w, pcs s t = Posting w -> indices w (read_index s)) /\
  ((forall t, pcs s t = Outside) -> indices (write_index s) (read_index s)).
Proof.
  intros H%lock_reachable_inv. split; [|split].
  - intros t t' Ht Ht'. destruct (inv_held s t' H Ht') as (Hu & _). by apply Hu.
  - intros t w Ht. destruct (inv_held s t H ltac:(congruence)) as (_ & _ & Hm). by rewrite Ht in Hm.
  - intros Hall. destruct H as [(t & Ht & _)|[_ Hi]]; [by rewrite Hall in Ht|done].
Qed.

Example event_blocks_exclusive_witness :
  let s := at_pc start 3 (Posting 0) EVENT_BLOCK_POSTING 1 in
  (forall t t', pcs s t <> Outside -> pcs s t' <> Outside -> t = t') /\
  (forall t w, pcs s t = Posting w -> indices w (read_index s)) /\
  ((forall t, pcs s t = Outside) -> indices (write_index s) (read_index s)).
Proof. apply event_blocks_exclusive. apply rtc_once. by apply (step_post start 3). Defined.
End Lock.
End Event.
