(* ===== verification/Json.v ===== *)
(** * JSON ([src/library/foundation_lib/foundation/json.c])

    A parser that fills a caller's array with one token per value and only
    counts the tokens that do not fit, for JSON and for a simplified syntax; the
    escapes of strings.  The buffer is the memory behind the pointer: it may be
    longer than the length given to the parser. *)
From S2P Require Import Prelude Str StrBuf StrNum.

Module Json.
Import Str.

Inductive json_type_t := JSON_UNDEFINED | JSON_OBJECT | JSON_ARRAY | JSON_STRING | JSON_PRIMITIVE.

#[export] Instance json_type_eq_dec : EqDecision json_type_t.
Proof. solve_decision. Defined.

Record json_token_t := mk_token {
  type : json_type_t; id : Z; id_length : Z; value : Z; value_length : Z; child : Z; sibling : Z }.

#[export] Instance json_token_inhabited : Inhabited json_token_t := populate (mk_token JSON_UNDEFINED 0 0 0 0 0 0).

(** A result, a read outside the memory, or no fuel left. *)
Inductive outcome (A : Type) := Done (a : A) | Beyond | No_fuel.
Arguments Done {A} a.
Arguments Beyond {A}.
Arguments No_fuel {A}.

#[export] Instance outcome_bind : MBind outcome := fun A B f o =>
  match o with Done a => f a | Beyond => Beyond | No_fuel => No_fuel end.

(** The token array, its capacity being its length, and the variable [current]. *)
Record state := mk_state { tokens : list json_token_t; current : Z }.

(** ** Tokens *)

Definition capacity (st : state) : Z := Z.of_nat (length (tokens st)).

(** [if ((token = get_token(tokens, capacity, index))) f(token)] *)
Definition with_token (f : json_token_t -> json_token_t) (index : Z) (st : state) : state :=
  if index <? capacity st then mk_state (alter f (Z.to_nat index) (tokens st)) (current st) else st.

Definition get_token (st : state) (index : Z) : option json_token_t :=
  if index <? capacity st then tokens st !! Z.to_nat index else None.

Definition is_valid_token (st : state) (index : Z) : bool :=
  match get_token st index with Some t => negb (bool_decide (type t = JSON_UNDEFINED)) | None => true end.

Definition set_token_primitive (ty : json_type_t) (val length : Z) (index : Z) : state -> state :=
  with_token (fun t => mk_token ty (id t) (id_length t) (u32 val) (u32 length) 0 0) index.

Definition set_token_complex (ty : json_type_t) (pos : Z) (index : Z) : state -> state :=
  with_token (fun t => mk_token ty (id t) (id_length t) (u32 pos) 0 (u32 (index + 1)) 0) index.

Definition set_token_id (pos length : Z) (index : Z) : state -> state :=
  with_token (fun t => mk_token (type t) (u32 pos) (u32 length) (value t) (value_length t) (child t) (sibling t)) index.

Definition set_sibling (s : Z) (index : Z) : state -> state :=
  with_token (fun t => mk_token (type t) (id t) (id_length t) (value t) (value_length t) (child t) s) index.

Definition set_child (c : Z) (index : Z) : state -> state :=
  with_token (fun t => mk_token (type t) (id t) (id_length t) (value t) (value_length t) c (sibling t)) index.

Definition set_value_length (f : json_token_t -> Z) (index : Z) : state -> state :=
  with_token (fun t => mk_token (type t) (id t) (id_length t) (value t) (f t) (child t) (sibling t)) index.

Definition next_token (st : state) : state := mk_state (tokens st) (u32 (current st + 1)).

(** The end of an object: its text length, and no child when it has no member. *)
Definition finish_object (index pos : Z) (st : state) : state :=
  let st := if pos =? NPOS then st else set_value_length (fun t => u32 (pos - value t)) index st in
  with_token (fun t => mk_token (type t) (id t) (id_length t) (value t) (value_length t)
    (if child t =? current st then 0 else child t) (sibling t)) index st.

(** ** Characters *)

Definition is_whitespace (c : Z) : bool := (c =? 32) || (c =? 9) || (c =? 10) || (c =? 13).
Definition is_token_delimiter (c : Z) : bool := is_whitespace c || (c =? 93) || (c =? 125) || (c =? 44).

Definition is_hex (c : Z) : bool :=
  ((48 <=? c) && (c <=? 57)) || ((65 <=? c) && (c <=? 70)) || ((97 <=? c) && (c <=? 102)).

(** [34 47 92] are the quote and the slashes, [98 102 114 110 116] the letters [bfrnt]. *)
Definition is_escape (c : Z) : bool :=
  bool_decide (c ∈ [34; 47; 92; 98; 102; 114; 110; 116]).

Section parser.
Context (buffer : list Z) (length : Z) (simple : bool).

Definition read (pos : Z) : outcome Z :=
  match buffer !! Z.to_nat pos with Some c => Done c | None => Beyond end.

Fixpoint skip_loop (fuel : nat) (pos : Z) : Z :=
  match fuel with
  | O => pos
  | S fuel =>
      if pos <? length then if negb (is_whitespace (at_ buffer pos)) then pos else skip_loop fuel (pos + 1) else pos
  end.

Definition skip_whitespace (pos : Z) : Z := skip_loop (Z.to_nat (length - pos)) pos.

(** The four digits of an escape: the position of the last one, or [NPOS]. *)
Fixpoint skip_hex (n : nat) (pos : Z) : outcome Z :=
  match n with
  | O => Done pos
  | S n =>
      if pos <? length then
        c ← read (pos + 1);
        if is_hex c then skip_hex n (pos + 1) else Done NPOS
      else Done pos
  end.

(** [simple_string] is the parameter [simple] of the function. *)
Fixpoint string_loop (fuel : nat) (start pos : Z) (key simple_string : bool) : outcome Z :=
  match fuel with
  | O => No_fuel
  | S fuel =>
      if pos <? length then
        c ← read pos;
        if simple_string && (is_token_delimiter c || (key && ((c =? 61) || (c =? 58)))) then Done (pos - start)
        else if c =? 34 then Done (pos - start)
        else
          let pos := pos + 1 in
          if (c =? 92) && (pos <? length) then
            c ← read pos;
            if is_escape c then string_loop fuel start (pos + 1) key simple_string
            else if c =? 117 then
              pos ← skip_hex 4 pos;
              if pos =? NPOS then Done NPOS else string_loop fuel start (pos + 1) key simple_string
            else Done NPOS
          else string_loop fuel start pos key simple_string
      else Done (if simple_string then pos - start else NPOS)
  end.

Definition parse_string (pos : Z) (key simple_string : bool) : outcome Z :=
  string_loop (S (Z.to_nat (length - pos))) pos pos key simple_string.

Fixpoint number_loop (fuel : nat) (start pos : Z) (has_dot has_digit has_exp : bool) : Z :=
  match fuel with
  | O => NPOS
  | S fuel =>
      if pos <? length then
        let c := at_ buffer pos in
        if is_token_delimiter c then (if has_digit then pos - start else NPOS)
        else if c =? 45 then
          if start =? pos then number_loop fuel start (pos + 1) has_dot has_digit has_exp else NPOS
        else if c =? 46 then
          if has_dot || has_exp then NPOS else number_loop fuel start (pos + 1) true has_digit has_exp
        else if (c =? 101) || (c =? 69) then
          if negb has_digit || has_exp then NPOS
          else
            let pos :=
              if (pos + 1 <? length) && ((at_ buffer (pos + 1) =? 43) || (at_ buffer (pos + 1) =? 45)) then pos + 1 else pos in
            number_loop fuel start (pos + 1) has_dot has_digit true
        else if (c <? 48) || (57 <? c) then NPOS
        else number_loop fuel start (pos + 1) has_dot true has_exp
      else if has_digit then pos - start else NPOS
  end.

Definition parse_number (pos : Z) : Z :=
  number_loop (S (Z.to_nat (length - pos))) pos pos false false false.

(** [string_equal(buffer + pos, n, text, n)] for a literal's rest, and what follows it. *)
Definition literal (pos : Z) (rest : list Z) : bool :=
  (len rest + 1 <=? length - pos) && bool_decide (sub buffer pos (len rest) = rest)
  && is_token_delimiter (at_ buffer (pos + len rest)).

Definition literal_length (c pos : Z) : option Z :=
  if (c =? 116) && literal pos [114; 117; 101] then Some 4
  else if (c =? 102) && literal pos [97; 108; 115; 101] then Some 5
  else if (c =? 110) && literal pos [117; 108; 108] then Some 4
  else None.

Definition starts_number (c : Z) : bool := (c =? 45) || ((48 <=? c) && (c <=? 57)) || (c =? 46).

(** A quoted or simple string as a value; [pos] is behind its first character. *)
Definition string_value (c pos : Z) (st : state) : outcome (Z * state) :=
  if negb (c =? 34) && negb simple then Done (NPOS, st)
  else
    let simple_string := negb (c =? 34) in
    let pos := if simple_string then pos - 1 else pos in
    string ← parse_string pos false simple_string;
    if string =? NPOS then Done (NPOS, st)
    else
      let st := next_token (set_token_primitive JSON_STRING pos string (current st) st) in
      let quoted := negb simple_string || ((pos + string <? length) && (at_ buffer (pos + string) =? 34)) in
      Done (pos + (if quoted then string + 1 else string), st).

Definition number_value (pos : Z) (st : state) : outcome (Z * state) :=
  let number := parse_number (pos - 1) in
  string ← (if (number =? NPOS) && simple then parse_string (pos - 1) false true else Done number);
  let type := if (number =? NPOS) && simple then JSON_STRING else JSON_PRIMITIVE in
  if string =? NPOS then Done (NPOS, st)
  else Done (pos + string - 1, next_token (set_token_primitive type (pos - 1) string (current st) st)).

(** The loop bodies return or go around again; [fuel] counts calls and rounds. *)
Fixpoint parse_value (fuel : nat) (pos : Z) (st : state) {struct fuel} : outcome (Z * state) :=
  match fuel with
  | O => No_fuel
  | S fuel =>
      let pos := skip_whitespace pos in
      if pos <? length then
        c ← read pos;
        let pos := pos + 1 in
        if c =? 123 then
          let subtoken := current st in
          let st := next_token (set_token_complex JSON_OBJECT (pos - 1) subtoken st) in
          '(pos, st) ← object_loop fuel (skip_whitespace pos) 0 st;
          Done (pos, finish_object subtoken pos st)
        else if c =? 91 then
          let owner := current st in
          let st := next_token (set_token_complex JSON_ARRAY 0 owner st) in
          let pos := skip_whitespace pos in
          c ← read pos;
          if c =? 93 then Done (skip_whitespace (pos + 1), set_child 0 owner st)
          else array_loop fuel pos owner 0 st
        else if starts_number c then number_value pos st
        else
          match literal_length c pos with
          | Some n => Done (pos + n - 1, next_token (set_token_primitive JSON_PRIMITIVE (pos - 1) n (current st) st))
          | None => string_value c pos st
          end
      else Done (NPOS, st)
  end

(** The loop of [parse_object]. *)
with object_loop (fuel : nat) (pos last : Z) (st : state) {struct fuel} : outcome (Z * state) :=
  match fuel with
  | O => No_fuel
  | S fuel =>
      if pos <? length then
        c ← read pos;
        let pos := pos + 1 in
        if c =? 125 then
          if negb (last =? 0) && negb (is_valid_token st last) then Done (NPOS, st) else Done (pos, st)
        else if c =? 44 then
          if (last =? 0) || negb (is_valid_token st last) then Done (NPOS, st)
          else object_loop fuel (skip_whitespace pos) 0 (set_sibling (current st) last st)
        else if negb (last =? 0) then Done (NPOS, st)
        else if negb (c =? 34) && negb simple then Done (NPOS, st)
        else
          let simple_string := negb (c =? 34) in
          let pos := if simple_string then pos - 1 else pos in
          string ← parse_string pos true simple_string;
          if string =? NPOS then Done (NPOS, st)
          else
            let last := current st in
            let st := set_token_id pos string last st in
            let quoted := negb simple || ((pos + string <? length) && (at_ buffer (pos + string) =? 34)) in
            let pos := skip_whitespace (pos + (if quoted then string + 1 else string)) in
            c ← read pos;
            if negb (c =? 58) && (negb simple || negb (c =? 61)) then Done (NPOS, st)
            else
              '(pos, st) ← parse_value fuel (pos + 1) st;
              let pos := skip_whitespace pos in
              if simple_string && (pos <? length) && negb (at_ buffer pos =? 44) && negb (at_ buffer pos =? 125)
              then object_loop fuel pos 0 (set_sibling (current st) last st)
              else object_loop fuel pos last st
      else Done (if simple then pos else NPOS, st)
  end

(** The loop of [parse_array]. *)
with array_loop (fuel : nat) (pos owner last : Z) (st : state) {struct fuel} : outcome (Z * state) :=
  match fuel with
  | O => No_fuel
  | S fuel =>
      if pos <? length then
        let now := current st in
        '(pos, st) ← parse_value fuel pos (set_token_id 0 0 now st);
        if pos =? NPOS then Done (NPOS, st)
        else
          let st := set_value_length (fun t => u32 (value_length t + 1)) owner st in
          let st := if negb (last =? 0) then set_sibling now last st else st in
          let pos := skip_whitespace pos in
          c ← read pos;
          if c =? 44 then array_loop fuel (pos + 1) owner now st
          else if c =? 93 then Done (pos + 1, st)
          else if negb simple || (c =? 125) then Done (NPOS, st)
          else array_loop fuel pos owner now st
      else Done (NPOS, st)
  end.

(** Enough for every input; see [parse_total]. *)
Definition parse_fuel : nat := 2 * Z.to_nat length + 2.
End parser.

Definition json_parse (buffer : list Z) (size : Z) (tokens : list json_token_t) : outcome (Z * list json_token_t) :=
  let st := mk_state tokens 0 in
  let st := set_token_primitive JSON_UNDEFINED 0 0 0 (set_token_id 0 0 0 st) in
  '(pos, st) ← parse_value buffer size false (parse_fuel size) 0 st;
  Done (if pos =? NPOS then 0 else current st, Json.tokens st).

Definition sjson_parse (buffer : list Z) (size : Z) (tokens : list json_token_t) : outcome (Z * list json_token_t) :=
  let st := mk_state tokens 0 in
  let pos := skip_whitespace buffer size 0 in
  if (pos <? size) && negb (at_ buffer pos =? 123) then
    let st := next_token (set_token_complex JSON_OBJECT pos 0 (set_token_id 0 0 0 st)) in
    '(end_, st) ← object_loop buffer size true (parse_fuel size) (skip_whitespace buffer size pos) 0 st;
    let st := if end_ =? NPOS then mk_state (Json.tokens st) 0 else st in
    let st := set_value_length (fun t => u32 (size - value t)) 0 st in
    Done (current st, Json.tokens st)
  else
    '(pos, st) ← parse_value buffer size true (parse_fuel size) pos st;
    Done (if pos =? NPOS then 0 else current st, Json.tokens st).

(** ** The parser returns

    A zero byte behind the text, as in a C string, stops every read. *)
Section total.
Context (buffer : list Z) (length : Z) (simple : bool).

Definition terminated : Prop := 0 <= length < NPOS /\ buffer !! Z.to_nat length = Some 0.

Context (Hterm : terminated).

Lemma json_read_ok pos : 0 <= pos <= length -> read buffer pos = Done (at_ buffer pos).
Proof.
  intros Hp. destruct Hterm as [_ He]. apply lookup_lt_Some in He. unfold read, at_.
  by rewrite list_lookup_lookup_total_lt by lia.
Qed.

Lemma at_end : at_ buffer length = 0.
Proof. destruct Hterm as [_ He]. unfold at_. by apply list_lookup_total_correct. Qed.

Lemma skip_whitespace_spec pos :
  0 <= pos ->
  let q := skip_whitespace buffer length pos in
  pos <= q /\ (pos <= length -> q <= length) /\ (length <= pos -> q = pos) /\
  (q < length -> is_whitespace (at_ buffer q) = false).
Proof.
  intros Hp. unfold skip_whitespace.
  assert (forall fuel pos, 0 <= pos -> length - pos <= Z.of_nat fuel ->
    let q := skip_loop buffer length fuel pos in
    pos <= q /\ (pos <= length -> q <= length) /\ (length <= pos -> q = pos) /\
    (q < length -> is_whitespace (at_ buffer q) = false)) as H; [|apply H; lia].
  clear pos Hp. induction fuel as [|fuel IH]; intros pos Hp Hf; cbn [skip_loop]; [lia|].
  destruct (Z.ltb_spec pos length); [|lia].
  destruct (is_whitespace (at_ buffer pos)) eqn:E; cbn [negb]; [|by repeat split; try lia].
  destruct (IH (pos + 1)) as (H1 & H2 & H3 & H4); [lia..|]. repeat split; try lia. done.
Qed.

(** What a result promises. *)
Definition returns {A} (o : outcome A) (P : A -> Prop) : Prop := match o with Done a => P a | _ => False end.

Lemma returns_bind {A B} (o : outcome A) (f : A -> outcome B) P Q :
  returns o P -> (forall a, P a -> returns (f a) Q) -> returns (o ≫= f) Q.
Proof. destruct o; simpl; auto; done. Qed.

Lemma returns_mono {A} (o : outcome A) (P Q : A -> Prop) : returns o P -> (forall a, P a -> Q a) -> returns o Q.
Proof. destruct o; simpl; auto; done. Qed.

Lemma skip_hex_ok n pos :
  0 <= pos < length -> returns (skip_hex buffer length n pos) (fun q => q = NPOS \/ pos <= q < length).
Proof.
  revert pos. induction n as [|n IH]; intros pos Hp; cbn [skip_hex]; [simpl; lia|].
  destruct (Z.ltb_spec pos length); [|lia]. rewrite json_read_ok by lia. cbn [mbind outcome_bind].
  destruct (is_hex (at_ buffer (pos + 1))) eqn:E; [|by left].
  destruct (decide (pos + 1 = length)) as [El|]; [by rewrite El, at_end in E|].
  eapply returns_mono; [apply IH; lia|]. simpl. lia.
Qed.

(** The end of a string: its closing quote, or for a simple string a delimiter. *)
Definition string_end (start : Z) (key simple_string : bool) (r : Z) : Prop :=
  r = NPOS \/ 0 <= r /\ start + r <= length /\
    (simple_string = false -> start + r < length /\ at_ buffer (start + r) = 34) /\
    (start + r < length -> at_ buffer (start + r) = 34 \/
       simple_string = true /\ (is_token_delimiter (at_ buffer (start + r)) = true \/
         key = true /\ (at_ buffer (start + r) = 61 \/ at_ buffer (start + r) = 58))).

Lemma string_loop_ok fuel start pos key simple_string :
  0 <= start <= pos -> pos <= length -> length - pos < Z.of_nat fuel ->
  returns (string_loop buffer length fuel start pos key simple_string) (string_end start key simple_string).
Proof.
  revert pos. induction fuel as [|fuel IH]; intros pos Hp Hl Hf; [lia|]. cbn [string_loop].
  destruct (Z.ltb_spec pos length).
  2: { destruct simple_string; [right|by left]. replace pos with length by lia.
       replace (start + (length - start)) with length by lia.
       split; [lia|]. split; [lia|]. split; [done|lia]. }
  rewrite (json_read_ok pos) by lia. cbn [mbind outcome_bind]. set (c := at_ buffer pos).
  assert (forall P : Prop, (start + (pos - start) <= length -> at_ buffer (start + (pos - start)) = c -> P) -> P) as Hstop.
  { intros P HP. apply HP; [lia|]. unfold c. f_equal. lia. }
  destruct (simple_string && (is_token_delimiter c || (key && ((c =? 61) || (c =? 58))))) eqn:Es.
  { apply Hstop. intros H1 H2. hnf. right. apply andb_true_iff in Es as [-> Es]. rewrite H2.
    split; [lia|]. split; [lia|]. split; [done|].
    intros _. right. split; [done|]. apply orb_true_iff in Es as [?|Es]; [by left|right].
    apply andb_true_iff in Es as [-> Es]. split; [done|]. lia. }
  destruct (Z.eqb_spec c 34) as [Eq|_].
  { apply Hstop. intros H1 H2. hnf. right. rewrite H2.
    split; [lia|]. split; [lia|]. split; [intros _; split; [lia|done]|]. intros _. by left. }
  destruct ((c =? 92) && (pos + 1 <? length)) eqn:Ec; [|apply IH; lia].
  rewrite (json_read_ok (pos + 1)) by lia. cbn [mbind outcome_bind]. case_if; [apply IH; lia|]. case_if; [|by left].
  eapply returns_bind; [apply skip_hex_ok; lia|]. intros q [->|Hq]; [by left|].
  destruct (Z.eqb_spec q NPOS); [by left|]. apply IH; lia.
Qed.

Lemma parse_string_ok pos key simple_string :
  0 <= pos <= length -> returns (parse_string buffer length pos key simple_string) (string_end pos key simple_string).
Proof. intros Hp. apply string_loop_ok; lia. Qed.

Lemma number_loop_ok fuel start pos has_dot has_digit has_exp :
  0 <= start <= pos -> pos <= length -> (has_digit = true -> start < pos) ->
  let r := number_loop buffer length fuel start pos has_dot has_digit has_exp in
  r = NPOS \/ 0 < r /\ start + r <= length.
Proof.
  revert pos has_dot has_digit has_exp.
  induction fuel as [|fuel IH]; intros pos has_dot has_digit has_exp Hp Hl Hd; cbn [number_loop]; [by left|].
  assert ((if has_digit then pos - start else NPOS) = NPOS \/
          0 < (if has_digit then pos - start else NPOS) /\ start + (if has_digit then pos - start else NPOS) <= length) as Hstop.
  { destruct has_digit; [right; specialize (Hd eq_refl); lia|by left]. }
  destruct (Z.ltb_spec pos length); [|done]. destruct (is_token_delimiter _); [done|].
  repeat (case_if; try (left; done)); apply IH; try lia.
Qed.

Lemma parse_number_ok pos :
  0 <= pos <= length -> parse_number buffer length pos = NPOS \/
  0 < parse_number buffer length pos /\ pos + parse_number buffer length pos <= length.
Proof. intros Hp. apply number_loop_ok; [lia|lia|done]. Qed.

(** A value ends behind its start, or it is an empty simple string at a delimiter. *)
Definition value_end (pos r : Z) : Prop :=
  pos < r <= length \/
  r = pos /\ pos < length /\ simple = true /\ (at_ buffer pos = 44 \/ at_ buffer pos = 93 \/ at_ buffer pos = 125).

Definition ends (P : Z -> Prop) (x : Z * state) : Prop := x.1 = NPOS \/ P x.1.

Lemma string_value_ok c pos st :
  0 <= pos < length -> c = at_ buffer pos -> is_whitespace c = false ->
  returns (string_value buffer length simple c (pos + 1) st) (ends (value_end pos)).
Proof.
  intros Hp Hc Hw. unfold string_value. destruct (Z.eqb_spec c 34) as [E|E]; cbn [negb andb].
  - eapply returns_bind; [apply parse_string_ok; lia|]. intros r [->|(H0 & Hl & Hq & _)]; [by left|].
    destruct (Z.eqb_spec r NPOS); [by left|]. right. left. cbn [fst negb orb]. specialize (Hq eq_refl). lia.
  - destruct simple eqn:Es; cbn [negb]; [|by left]. replace (pos + 1 - 1) with pos by lia.
    eapply returns_bind; [apply parse_string_ok; lia|]. intros r [->|(H0 & Hl & _ & Hq)]; [by left|].
    destruct (Z.eqb_spec r NPOS); [by left|]. right. cbn [fst negb orb].
    destruct (decide (r = 0)) as [->|].
    + rewrite Z.add_0_r in *. destruct Hq as [Hq|[_ [Hq|[? _]]]]; [lia|congruence| |done].
      rewrite <- Hc in *. destruct (Z.ltb_spec pos length); [|lia]. cbn [andb].
      destruct (Z.eqb_spec c 34); [done|]. right. unfold is_token_delimiter in Hq. rewrite Hw in Hq. cbn [orb] in Hq.
      split; [lia|]. split; [lia|]. split; [done|]. lia.
    + left. destruct (_ && _) eqn:Eq; [|lia]. lia.
Qed.

Lemma number_value_ok c pos st :
  0 <= pos < length -> c = at_ buffer pos -> starts_number c = true ->
  returns (number_value buffer length simple (pos + 1) st) (ends (value_end pos)).
Proof.
  intros Hp Hc Hn. unfold number_value. replace (pos + 1 - 1) with pos by lia.
  destruct (parse_number_ok pos ltac:(lia)) as [E|[H1 H2]].
  - rewrite E. change (NPOS =? NPOS) with true. cbn [andb]. destruct simple eqn:Es.
    + eapply returns_bind; [apply parse_string_ok; lia|]. intros r [->|(H0 & Hl & _ & Hq)]; [by left|].
      destruct (Z.eqb_spec r NPOS); [by left|]. right. left. cbn [fst].
      destruct (decide (r = 0)) as [->|]; [|lia]. exfalso. rewrite Z.add_0_r, <- Hc in Hq.
      unfold starts_number in Hn. unfold is_token_delimiter, is_whitespace in Hq.
      destruct Hq as [Hq|[_ [Hq|[? _]]]]; [lia|lia|lia|done].
    + cbn [mbind outcome_bind]. by left.
  - destruct (Z.eqb_spec (parse_number buffer length pos) NPOS) as [|Hne]; [unfold NPOS in *; destruct Hterm; unfold NPOS in *; lia|].
    cbn [andb mbind outcome_bind]. destruct (Z.eqb_spec (parse_number buffer length pos) NPOS); [done|]. right. left. cbn [fst]. lia.
Qed.

Lemma literal_ok c pos n :
  0 <= pos < length -> literal_length buffer length c (pos + 1) = Some n -> 0 < n /\ pos + n < length.
Proof.
  intros Hp. unfold literal_length, literal. change (len [114; 117; 101]) with 3. change (len [97; 108; 115; 101]) with 4.
  change (len [117; 108; 108]) with 3. intros H.
  repeat match type of H with (if ?b then _ else _) = _ => destruct b eqn:?; [injection H as <-; lia|] end. done.
Qed.

Lemma skip_stays pos : 0 <= pos < length -> is_whitespace (at_ buffer pos) = false -> skip_whitespace buffer length pos = pos.
Proof.
  intros Hp Hw. unfold skip_whitespace. destruct (Z.to_nat (length - pos)) eqn:E; [done|]. cbn [skip_loop].
  destruct (Z.ltb_spec pos length); [|done]. by rewrite Hw.
Qed.

Definition room (pos : Z) : Z := Z.max 0 (length - pos).

Definition value_returns (fuel : nat) : Prop := forall pos st,
  0 <= pos <= length -> 2 * room pos + 1 <= Z.of_nat fuel ->
  returns (parse_value buffer length simple fuel pos st) (ends (value_end (skip_whitespace buffer length pos))).

Definition object_returns (fuel : nat) : Prop := forall pos last st,
  0 <= pos -> pos <= length \/ pos = NPOS -> 2 * room pos + 1 <= Z.of_nat fuel ->
  returns (object_loop buffer length simple fuel pos last st) (ends (fun r => pos <= r <= length)).

Definition array_returns (fuel : nat) : Prop := forall pos owner last st,
  0 <= pos <= length -> 2 * room pos + 2 <= Z.of_nat fuel ->
  returns (array_loop buffer length simple fuel pos owner last st) (ends (fun r => pos < r <= length)).

Lemma value_returns_S fuel : object_returns fuel -> array_returns fuel -> value_returns (S fuel).
Proof.
  intros Hobj Harr pos st Hp Hf. cbn [parse_value].
  destruct (skip_whitespace_spec pos ltac:(lia)) as (H1 & H2 & _ & Hw). set (p := skip_whitespace buffer length pos) in *.
  destruct (Z.ltb_spec p length); [|by left]. rewrite (json_read_ok p) by lia. cbn [mbind outcome_bind].
  specialize (Hw ltac:(lia)). destruct (skip_whitespace_spec (p + 1) ltac:(lia)) as (H3 & H4 & _ & _).
  set (q := skip_whitespace buffer length (p + 1)) in *. unfold room in *.
  destruct (Z.eqb_spec (at_ buffer p) 123).
  { eapply returns_bind; [apply Hobj; unfold room; lia|]. intros [r st'] [Hr|Hr]; [by left|]. right. left. cbn [fst] in *. lia. }
  destruct (Z.eqb_spec (at_ buffer p) 91).
  { rewrite (json_read_ok q) by lia. cbn [mbind outcome_bind]. destruct (Z.eqb_spec (at_ buffer q) 93) as [E|].
    - assert (q <> length) by (intros Eq; rewrite Eq, at_end in E; done).
      destruct (skip_whitespace_spec (q + 1) ltac:(lia)) as (H5 & H6 & _ & _). right. left. cbn [fst]. lia.
    - eapply returns_mono; [apply Harr; unfold room; lia|]. intros [r st'] [Hr|Hr]; [by left|]. right. left. cbn [fst] in *. lia. }
  destruct (starts_number (at_ buffer p)) eqn:En; [by eapply number_value_ok; [lia|..]|].
  destruct (literal_length buffer length (at_ buffer p) (p + 1)) as [k|] eqn:El; [|by apply string_value_ok; [lia|..]].
  apply literal_ok in El; [|lia]. right. left. cbn [fst]. lia.
Qed.

Lemma object_returns_S fuel : value_returns fuel -> object_returns fuel -> object_returns (S fuel).
Proof.
  intros Hval Hobj pos last st Hp Hl Hf. cbn [object_loop]. unfold room in *.
  destruct (Z.ltb_spec pos length); [|destruct simple; [destruct Hl; [right|left]; simpl; lia|by left]].
  rewrite (json_read_ok pos) by lia. cbn [mbind outcome_bind]. set (c := at_ buffer pos).
  destruct (c =? 125); [case_if; [by left|right; cbn [fst]; lia]|].
  destruct (skip_whitespace_spec (pos + 1) ltac:(lia)) as (H1 & H2 & _).
  destruct (c =? 44).
  { case_if; [by left|]. eapply returns_mono; [apply Hobj; unfold room; lia|].
    intros [r st'] [Hr|Hr]; [by left|right; cbn [fst] in *; lia]. }
  destruct (negb (last =? 0)); [by left|]. destruct (negb (c =? 34) && negb simple) eqn:Eq; [by left|].
  set (start := if negb (c =? 34) then pos + 1 - 1 else pos + 1).
  assert (pos <= start <= pos + 1) as Hs by (subst start; destruct (negb (c =? 34)); lia).
  eapply returns_bind; [apply parse_string_ok; lia|]. intros r [->|(H0 & Hr & Hq & _)]; [by left|].
  destruct (Z.eqb_spec r NPOS); [by left|].
  set (behind := start + (if _ || _ then r + 1 else r)).
  assert (start <= behind <= length) as Hb.
  { subst behind. destruct (negb simple || _) eqn:Ec; [|lia]. apply orb_true_iff in Ec as [Ec|Ec]; [|lia].
    rewrite Ec, andb_true_r in Eq. specialize (Hq Eq). lia. }
  destruct (skip_whitespace_spec behind ltac:(lia)) as (H3 & H4 & _). set (p := skip_whitespace buffer length behind) in *.
  rewrite (json_read_ok p) by lia. cbn [mbind outcome_bind].
  destruct (negb (at_ buffer p =? 58) && (negb simple || negb (at_ buffer p =? 61))) eqn:Ep; [by left|].
  assert (p <> length) as Hpl by (intros E; rewrite E, at_end in Ep; simpl in Ep; by rewrite orb_true_r in Ep).
  eapply returns_bind; [apply Hval; unfold room; lia|]. intros [r' st'] Hr'.
  destruct (skip_whitespace_spec (p + 1) ltac:(lia)) as (H5 & H6 & _).
  assert (r' = NPOS \/ p < r' <= length) as Hr2 by (destruct Hr' as [?|[?|(? & ? & _)]]; [by left|right; cbn [fst] in *; lia..]).
  assert (0 <= r') as Hr0 by (destruct Hr2 as [->|]; [done|lia]).
  destruct (skip_whitespace_spec r' Hr0) as (H7 & H8 & H9 & _). destruct Hterm as [[_ Hlen] _].
  assert (skip_whitespace buffer length r' = NPOS \/ p < skip_whitespace buffer length r' <= length) as Hr3.
  { destruct Hr2 as [->|]; [left; apply H9; lia|right; lia]. }
  set (e := skip_whitespace buffer length r') in *.
  assert (forall last st, returns (object_loop buffer length simple fuel e last st) (ends (fun r => pos <= r <= length))) as Hnext.
  { intros last' st''. eapply returns_mono; [apply Hobj; unfold room; lia|].
    intros [r2 st2] [?|?]; [by left|right; cbn [fst] in *; lia]. }
  case_if; apply Hnext.
Qed.

Lemma array_returns_S fuel : value_returns fuel -> array_returns fuel -> array_returns (S fuel).
Proof.
  intros Hval Harr pos owner last st Hp Hf. cbn [array_loop]. unfold room in *.
  destruct (Z.ltb_spec pos length); [|by left].
  eapply returns_bind; [apply Hval; unfold room; lia|]. intros [r st'] Hr. destruct Hterm as [[_ Hlen] _].
  destruct (Z.eqb_spec r NPOS); [by left|]. destruct Hr as [|Hr]; [done|]. cbn [fst] in Hr.
  destruct (skip_whitespace_spec pos ltac:(lia)) as (H1 & H2 & _ & Hw).
  assert (pos <= r <= length) as Hr' by (destruct Hr as [?|[? _]]; lia).
  destruct (skip_whitespace_spec r ltac:(lia)) as (H3 & H4 & _). set (p := skip_whitespace buffer length r) in *.
  rewrite (json_read_ok p) by lia. cbn [mbind outcome_bind].
  assert (at_ buffer p <> 0 -> p < length) as Hend.
  { intros H5. destruct (decide (p = length)) as [E|]; [by rewrite E, at_end in H5|lia]. }
  destruct (Z.eqb_spec (at_ buffer p) 44) as [E|].
  { eapply returns_mono; [apply Harr; unfold room; lia|]. intros [r2 st2] [?|?]; [by left|right; cbn [fst] in *; lia]. }
  destruct (Z.eqb_spec (at_ buffer p) 93) as [E|]; [right; cbn [fst]; lia|].
  destruct (negb simple || (at_ buffer p =? 125)) eqn:E; [by left|]. apply orb_false_iff in E as [_ E].
  assert (pos < p) as Hlt.
  { destruct Hr as [?|(-> & Hlt & _ & Hc)]; [lia|].
    assert (p = skip_whitespace buffer length pos) as Ep by (apply skip_stays; [lia|by apply Hw]). rewrite Ep in *. lia. }
  eapply returns_mono; [apply Harr; unfold room; lia|]. intros [r2 st2] [?|?]; [by left|right; cbn [fst] in *; lia].
Qed.

Lemma parse_total fuel : value_returns fuel /\ object_returns fuel /\ array_returns fuel.
Proof.
  induction fuel as [|fuel (IHv & IHo & IHa)].
  - split; [|split]; intros ?; intros; unfold room in *; lia.
  - split; [by apply value_returns_S|]. split; [by apply object_returns_S|by apply array_returns_S].
Qed.
End total.

(** ** The token array does not steer the parser *)
Section alike.
Context (buffer : list Z) (length : Z) (simple : bool).

Definition keeps (st st' : state) : Prop := forall i, is_valid_token st i = true -> is_valid_token st' i = true.

Lemma keeps_refl st : keeps st st.
Proof. by intros i. Qed.

Lemma keeps_trans st1 st2 st3 : keeps st1 st2 -> keeps st2 st3 -> keeps st1 st3.
Proof. intros H1 H2 i Hi. by apply H2, H1. Qed.

Lemma valid_with_token f i j st :
  is_valid_token (with_token f i st) j =
    if (j <? capacity st) then
      match tokens st !! Z.to_nat j with
      | Some t => negb (bool_decide (type (if decide (Z.to_nat j = Z.to_nat i /\ i < capacity st) then f t else t) = JSON_UNDEFINED))
      | None => true
      end
    else true.
Proof.
  unfold is_valid_token, get_token, with_token. destruct (Z.ltb_spec i (capacity st)).
  - unfold capacity. cbn [tokens]. rewrite length_alter. destruct (j <? _); [|done].
    destruct (decide (Z.to_nat j = Z.to_nat i)) as [E|E].
    + rewrite E, list_lookup_alter_eq. destruct (tokens st !! Z.to_nat i); [|done]. simpl.
      by rewrite decide_True by (split; [done|unfold capacity in *; lia]).
    + rewrite list_lookup_alter_ne by done. destruct (tokens st !! Z.to_nat j); [|done].
      by rewrite decide_False by tauto.
  - destruct (j <? capacity st); [|done]. destruct (tokens st !! Z.to_nat j); [|done].
    rewrite decide_False by lia. done.
Qed.

Lemma keeps_with f i st : (forall t, type t <> JSON_UNDEFINED -> type (f t) <> JSON_UNDEFINED) -> keeps st (with_token f i st).
Proof.
  intros Hf j. rewrite valid_with_token. unfold is_valid_token, get_token. destruct (j <? capacity st); [|done].
  destruct (tokens st !! Z.to_nat j) as [t|]; [|done]. rewrite !negb_true_iff, !bool_decide_eq_false. case_decide; [apply Hf|done].
Qed.

Lemma valid_set f i st : (forall t, type (f t) <> JSON_UNDEFINED) -> is_valid_token (with_token f i st) i = true.
Proof.
  intros Hf. rewrite valid_with_token. destruct (Z.ltb_spec i (capacity st)); [|done].
  destruct (tokens st !! Z.to_nat i); [|done]. rewrite decide_True by done. by apply negb_true_iff, bool_decide_eq_false.
Qed.

Lemma current_with f i st : current (with_token f i st) = current st.
Proof. unfold with_token. by destruct (_ <? _). Qed.

Lemma capacity_with f i st : capacity (with_token f i st) = capacity st.
Proof. unfold with_token, capacity. destruct (_ <? _); [|done]. cbn [tokens]. by rewrite length_alter. Qed.

(** Two runs with tokens of their own: the same result and the same count. *)
Definition same_run (P : state -> state -> Z -> state -> state -> Prop) (st1 st2 : state) (o1 o2 : outcome (Z * state)) : Prop :=
  match o1, o2 with
  | Done (r1, s1), Done (r2, s2) =>
      r1 = r2 /\ current s1 = current s2 /\ keeps st1 s1 /\ keeps st2 s2 /\ P st1 st2 r1 s1 s2
  | Beyond, Beyond | No_fuel, No_fuel => True
  | _, _ => False
  end.

Definition any (st1 st2 : state) (r : Z) (s1 s2 : state) : Prop := True.
Definition value_set (st1 st2 : state) (r : Z) (s1 s2 : state) : Prop :=
  r <> NPOS -> is_valid_token s1 (current st1) = true /\ is_valid_token s2 (current st2) = true.

Lemma same_run_done P st1 st2 r s1 s2 :
  current s1 = current s2 -> keeps st1 s1 -> keeps st2 s2 -> P st1 st2 r s1 s2 -> same_run P st1 st2 (Done (r, s1)) (Done (r, s2)).
Proof. by repeat split. Qed.

Lemma same_run_trans P st1 st2 s1 s2 o1 o2 :
  keeps st1 s1 -> keeps st2 s2 -> same_run any s1 s2 o1 o2 ->
  (forall r t1 t2, keeps s1 t1 -> keeps s2 t2 -> P st1 st2 r t1 t2) -> same_run P st1 st2 o1 o2.
Proof.
  intros H1 H2 H HP. destruct o1 as [[r1 t1]| |], o2 as [[r2 t2]| |]; try done.
  destruct H as (-> & Hc & K1 & K2 & _). repeat split; [done|by eapply keeps_trans..|by apply HP].
Qed.

Lemma same_run_bind P R Q st1 st2 a1 a2 o1 o2 f1 f2 :
  keeps st1 a1 -> keeps st2 a2 -> same_run P a1 a2 o1 o2 ->
  (forall r s1 s2, current s1 = current s2 -> keeps a1 s1 -> keeps a2 s2 -> P a1 a2 r s1 s2 ->
     same_run R a1 a2 (f1 (r, s1)) (f2 (r, s2))) ->
  (forall r t1 t2, keeps a1 t1 -> keeps a2 t2 -> R a1 a2 r t1 t2 -> Q st1 st2 r t1 t2) ->
  same_run Q st1 st2 (o1 ≫= f1) (o2 ≫= f2).
Proof.
  intros B1 B2 H Hf HQ. destruct o1 as [[r1 s1]| |], o2 as [[r2 s2]| |]; try done.
  destruct H as (-> & Hc & K1 & K2 & HP). specialize (Hf r2 s1 s2 Hc K1 K2 HP). cbn [mbind outcome_bind].
  destruct (f1 (r2, s1)) as [[q1 t1]| |], (f2 (r2, s2)) as [[q2 t2]| |]; try done.
  destruct Hf as (-> & Hc' & T1 & T2 & HQ'). apply same_run_done; [done|by eapply keeps_trans..|by apply HQ].
Qed.

(** A control decision that both runs share. *)
Lemma same_run_read {A} P st1 st2 (o : outcome A) f1 f2 :
  (forall a, same_run P st1 st2 (f1 a) (f2 a)) -> same_run P st1 st2 (o ≫= f1) (o ≫= f2).
Proof. intros H. destruct o; simpl; [apply H|done|done]. Qed.

Context (Hlen : length <= NPOS).

Lemma skip_NPOS : skip_whitespace buffer length NPOS = NPOS.
Proof. unfold skip_whitespace. by replace (Z.to_nat (length - NPOS)) with 0%nat by lia. Qed.

Definition set_type (f : json_token_t -> json_token_t) : Prop := forall t, type (f t) <> JSON_UNDEFINED.

(** Setting the next token. *)
Lemma place_token f i st :
  set_type f -> keeps st (next_token (with_token f i st)) /\ is_valid_token (next_token (with_token f i st)) i = true.
Proof.
  intros Hf. split; [|by apply valid_set]. by apply (keeps_with f i st).
Qed.

Lemma current_next f i st : current (next_token (with_token f i st)) = u32 (current st + 1).
Proof. unfold next_token. cbn [current]. by rewrite current_with. Qed.

Lemma open_token ty pos st :
  ty <> JSON_UNDEFINED ->
  let s := next_token (set_token_complex ty pos (current st) st) in
  keeps st s /\ is_valid_token s (current st) = true /\ current s = u32 (current st + 1).
Proof.
  intros Hty. split; [|split; [|apply current_next]]; apply place_token; intros t; exact Hty.
Qed.

Lemma same_value f1 f2 r st1 st2 :
  current st1 = current st2 -> set_type f1 -> set_type f2 ->
  same_run value_set st1 st2 (Done (r, next_token (with_token f1 (current st1) st1)))
    (Done (r, next_token (with_token f2 (current st2) st2))).
Proof.
  intros Hc H1 H2. destruct (place_token f1 (current st1) st1 H1) as [K1 V1]. destruct (place_token f2 (current st2) st2 H2) as [K2 V2].
  apply same_run_done; [by rewrite !current_next, Hc|done..|]. by intros _.
Qed.

Lemma same_fail P st1 st2 : current st1 = current st2 -> P st1 st2 NPOS st1 st2 -> same_run P st1 st2 (Done (NPOS, st1)) (Done (NPOS, st2)).
Proof. intros Hc HP. by apply same_run_done; [|apply keeps_refl..|]. Qed.

Lemma no_value st1 st2 : value_set st1 st2 NPOS st1 st2.
Proof. by intros H. Qed.

Lemma string_value_alike c pos st1 st2 :
  current st1 = current st2 ->
  same_run value_set st1 st2 (string_value buffer length simple c pos st1) (string_value buffer length simple c pos st2).
Proof.
  intros Hc. unfold string_value. case_if; [by apply same_fail, no_value|]. apply same_run_read. intros string.
  destruct (string =? NPOS); [by apply same_fail, no_value|]. by apply same_value.
Qed.

Lemma number_value_alike pos st1 st2 :
  current st1 = current st2 ->
  same_run value_set st1 st2 (number_value buffer length simple pos st1) (number_value buffer length simple pos st2).
Proof.
  intros Hc. unfold number_value. apply same_run_read. intros string.
  destruct (string =? NPOS); [by apply same_fail, no_value|].
  apply same_value; [done|by intros t; cbn [type]; case_if..].
Qed.

Definition value_alike (fuel : nat) : Prop := forall pos st1 st2,
  current st1 = current st2 ->
  same_run value_set st1 st2 (parse_value buffer length simple fuel pos st1) (parse_value buffer length simple fuel pos st2).

Definition object_alike (fuel : nat) : Prop := forall pos last st1 st2,
  current st1 = current st2 ->
  (pos < length -> last <> 0 -> is_valid_token st1 last = true /\ is_valid_token st2 last = true) ->
  same_run any st1 st2 (object_loop buffer length simple fuel pos last st1) (object_loop buffer length simple fuel pos last st2).

Definition array_alike (fuel : nat) : Prop := forall pos owner last st1 st2,
  current st1 = current st2 ->
  same_run any st1 st2 (array_loop buffer length simple fuel pos owner last st1) (array_loop buffer length simple fuel pos owner last st2).

Lemma finish_keeps i r st : keeps st (finish_object i r st) /\ current (finish_object i r st) = current st.
Proof.
  unfold finish_object. destruct (r =? NPOS).
  - split; [by apply keeps_with|apply current_with].
  - split; [|by unfold set_value_length; rewrite !current_with].
    eapply keeps_trans; [|by apply keeps_with]. by apply keeps_with.
Qed.

Lemma value_alike_S fuel : object_alike fuel -> array_alike fuel -> value_alike (S fuel).
Proof.
  intros Hobj Harr pos st1 st2 Hc. cbn [parse_value].
  destruct (_ <? length); [|by apply same_fail, no_value]. apply same_run_read. intros c.
  destruct (c =? 123).
  { destruct (open_token JSON_OBJECT (skip_whitespace buffer length pos + 1 - 1) st1) as (K1 & V1 & C1); [done|].
    destruct (open_token JSON_OBJECT (skip_whitespace buffer length pos + 1 - 1) st2) as (K2 & V2 & C2); [done|].
    apply (same_run_bind any any value_set _ _ _ _ _ _ _ _ K1 K2); [apply Hobj; [by rewrite C1, C2, Hc|done]| |].
    - intros r s1 s2 Hs K1' K2' _. destruct (finish_keeps (current st1) r s1) as [F1 E1], (finish_keeps (current st2) r s2) as [F2 E2].
      apply same_run_done; [by rewrite E1, E2|by eapply keeps_trans..|done].
    - intros r t1 t2 K1' K2' _ _. split; [by apply K1'|by apply K2']. }
  destruct (c =? 91).
  { destruct (open_token JSON_ARRAY 0 st1) as (K1 & V1 & C1); [done|].
    destruct (open_token JSON_ARRAY 0 st2) as (K2 & V2 & C2); [done|]. rewrite <- Hc in *.
    apply same_run_read. intros d. destruct (d =? 93).
    - assert (forall i st, keeps st (set_child 0 i st)) as Kc by (intros i st; by apply keeps_with).
      apply same_run_done; [unfold set_child; by rewrite !current_with, C1, C2|by eapply keeps_trans..|].
      intros _. rewrite <- Hc. split; by apply Kc.
    - eapply same_run_trans; [exact K1|exact K2|apply Harr; by rewrite C1, C2|].
      intros r t1 t2 K1' K2' _. rewrite <- Hc. split; [by apply K1'|by apply K2']. }
  destruct (starts_number c); [by apply number_value_alike|].
  destruct (literal_length buffer length c _) as [k|]; [by apply same_value|by apply string_value_alike].
Qed.

Lemma keeps_id p n i st : keeps st (set_token_id p n i st) /\ current (set_token_id p n i st) = current st.
Proof. split; [by apply keeps_with|apply current_with]. Qed.

Lemma keeps_sibling c i st : keeps st (set_sibling c i st) /\ current (set_sibling c i st) = current st.
Proof. split; [by apply keeps_with|apply current_with]. Qed.

Lemma keeps_length f i st : keeps st (set_value_length f i st) /\ current (set_value_length f i st) = current st.
Proof. split; [by apply keeps_with|apply current_with]. Qed.

Lemma object_alike_S fuel : value_alike fuel -> object_alike fuel -> object_alike (S fuel).
Proof.
  intros Hval Hobj pos last st1 st2 Hc Hlast. cbn [object_loop].
  destruct (Z.ltb_spec pos length) as [Hp|Hp]; [|by apply same_run_done; [|apply keeps_refl..|]].
  apply same_run_read. intros c. specialize (Hlast Hp).
  assert ((last =? 0) = false -> is_valid_token st1 last = true /\ is_valid_token st2 last = true) as Hv
    by (intros H; apply Hlast; lia).
  destruct (c =? 125).
  { destruct (last =? 0) eqn:E; cbn [negb andb]; [by apply same_run_done; [|apply keeps_refl..|]|].
    destruct (Hv eq_refl) as [-> ->]. by apply same_run_done; [|apply keeps_refl..|]. }
  destruct (c =? 44).
  { destruct (last =? 0) eqn:E; cbn [orb]; [by apply same_fail|]. destruct (Hv eq_refl) as [-> ->]. cbn [negb].
    destruct (keeps_sibling (current st1) last st1) as [K1 C1]. destruct (keeps_sibling (current st2) last st2) as [K2 C2].
    eapply same_run_trans; [exact K1|exact K2|apply Hobj; [by rewrite C1, C2|done]|done]. }
  destruct (negb (last =? 0)); [by apply same_fail|]. destruct (_ && _); [by apply same_fail|].
  apply same_run_read. intros string. destruct (string =? NPOS); [by apply same_fail|].
  apply same_run_read. intros d.
  set (start := if negb (c =? 34) then pos + 1 - 1 else pos + 1).
  destruct (keeps_id start string (current st1) st1) as [K1 C1]. destruct (keeps_id start string (current st2) st2) as [K2 C2].
  destruct (negb (d =? 58) && _); [by apply same_run_done; [rewrite C1, C2|..]|].
  apply (same_run_bind value_set any any _ _ _ _ _ _ _ _ K1 K2); [apply Hval; by rewrite C1, C2| |done].
  intros r s1 s2 Hs K1' K2' Hset. unfold value_set in Hset. rewrite C1, C2 in Hset. case_if.
  - destruct (keeps_sibling (current s1) (current st1) s1) as [S1 E1]. destruct (keeps_sibling (current s2) (current st2) s2) as [S2 E2].
    eapply same_run_trans; [by eapply keeps_trans|by eapply keeps_trans|apply Hobj; [by rewrite E1, E2|done]|done].
  - eapply same_run_trans; [exact K1'|exact K2'|rewrite <- Hc; apply Hobj; [done|]|done].
    intros Hlt _. rewrite <- Hc in Hset. apply Hset. intros ->. rewrite skip_NPOS in Hlt. lia.
Qed.

Lemma array_alike_S fuel : value_alike fuel -> array_alike fuel -> array_alike (S fuel).
Proof.
  intros Hval Harr pos owner last st1 st2 Hc. cbn [array_loop]. destruct (_ <? length); [|by apply same_fail].
  destruct (keeps_id 0 0 (current st1) st1) as [K1 C1]. destruct (keeps_id 0 0 (current st2) st2) as [K2 C2].
  apply (same_run_bind value_set any any _ _ _ _ _ _ _ _ K1 K2); [apply Hval; by rewrite C1, C2| |done].
  intros r s1 s2 Hs K1' K2' _. destruct (r =? NPOS); [by apply same_run_done|]. apply same_run_read. intros d.
  set (up := fun t => u32 (value_length t + 1)).
  assert (forall now (s : state), let s' := (if negb (last =? 0) then set_sibling now last (set_value_length up owner s)
    else set_value_length up owner s) in keeps s s' /\ current s' = current s) as Hstep.
  { intros now s. cbv zeta. destruct (keeps_length up owner s) as [Kl Cl].
    destruct (keeps_sibling now last (set_value_length up owner s)) as [Ks Cs].
    case_if; [split; [by eapply keeps_trans|congruence]|done]. }
  destruct (Hstep (current st1) s1) as [T1 D1], (Hstep (current st2) s2) as [T2 D2]. rewrite <- Hc in *.
  cbv zeta in *. clear Hstep. revert T1 D1 T2 D2.
  generalize (if negb (last =? 0) then set_sibling (current st1) last (set_value_length up owner s1) else set_value_length up owner s1),
    (if negb (last =? 0) then set_sibling (current st1) last (set_value_length up owner s2) else set_value_length up owner s2).
  intros t1 t2 T1 D1 T2 D2.
  assert (forall p, same_run any (set_token_id 0 0 (current st1) st1) (set_token_id 0 0 (current st1) st2)
    (array_loop buffer length simple fuel p owner (current st1) t1) (array_loop buffer length simple fuel p owner (current st1) t2)) as Hnext.
  { intros p. eapply same_run_trans; [by eapply keeps_trans|by eapply keeps_trans|apply Harr; by rewrite D1, D2|done]. }
  assert (forall p, same_run any (set_token_id 0 0 (current st1) st1) (set_token_id 0 0 (current st1) st2)
    (Done (p, t1)) (Done (p, t2))) as Hstop.
  { intros p. apply same_run_done; [by rewrite D1, D2|by eapply keeps_trans..|done]. }
  destruct (d =? 44); [apply Hnext|]. destruct (d =? 93); [apply Hstop|]. destruct (_ || _); [apply Hstop|apply Hnext].
Qed.

Lemma parse_alike fuel : value_alike fuel /\ object_alike fuel /\ array_alike fuel.
Proof.
  induction fuel as [|fuel (IHv & IHo & IHa)]; [done|].
  split; [by apply value_alike_S|]. split; [by apply object_alike_S|by apply array_alike_S].
Qed.
End alike.

(** C26: on a text with a zero byte behind it both parsers return, whatever the
    text and the token array are: no read leaves the memory and the recursion
    ends. *)
Theorem json_parse_returns buffer size ts :
  terminated buffer size ->
  (exists n ts', json_parse buffer size ts = Done (n, ts')) /\ (exists n ts', sjson_parse buffer size ts = Done (n, ts')).
Proof.
  intros Hterm. assert (0 <= size) as Hs by apply Hterm. split.
  - unfold json_parse. destruct (parse_total buffer size false Hterm (parse_fuel size)) as [Hv _].
    specialize (Hv 0 (set_token_primitive JSON_UNDEFINED 0 0 0 (set_token_id 0 0 0 (mk_state ts 0)))).
    destruct (parse_value _ _ _ _ _ _) as [[r st]| |]; [by eexists _, _|..];
      exfalso; apply Hv; unfold room, parse_fuel; lia.
  - unfold sjson_parse. destruct (skip_whitespace_spec buffer size 0 ltac:(lia)) as (H1 & H2 & _).
    destruct (parse_total buffer size true Hterm (parse_fuel size)) as (Hv & Ho & _).
    set (p := skip_whitespace buffer size 0) in *. destruct (_ && _).
    + destruct (skip_whitespace_spec buffer size p ltac:(lia)) as (H3 & H4 & _).
      specialize (Ho (skip_whitespace buffer size p) 0
        (next_token (set_token_complex JSON_OBJECT p 0 (set_token_id 0 0 0 (mk_state ts 0))))).
      destruct (object_loop _ _ _ _ _ _ _) as [[r st]| |]; [by eexists _, _|..];
        exfalso; apply Ho; unfold room, parse_fuel; lia.
    + specialize (Hv p (mk_state ts 0)). destruct (parse_value _ _ _ _ _ _) as [[r st]| |]; [by eexists _, _|..];
        exfalso; apply Hv; unfold room, parse_fuel; lia.
Qed.

Lemma json_parse_returns_witness :
  (exists n ts, json_parse [123; 34; 97; 34; 58; 91; 49; 44; 50; 93; 125; 0] 11 [] = Done (n, ts)) /\
  (exists n ts, sjson_parse [123; 34; 97; 34; 58; 91; 49; 44; 50; 93; 125; 0] 11 [] = Done (n, ts)).
Proof. apply (json_parse_returns [123; 34; 97; 34; 58; 91; 49; 44; 50; 93; 125; 0] 11 []). by split. Defined.

(** The same count of tokens, or the same failure. *)
Definition same_count (o1 o2 : outcome (Z * list json_token_t)) : Prop :=
  match o1, o2 with
  | Done (n1, _), Done (n2, _) => n1 = n2
  | Beyond, Beyond | No_fuel, No_fuel => True
  | _, _ => False
  end.

(** The number of tokens that a parser reports depends neither on the
    capacity of the token array nor on what the array held: parsing without an
    array tells how large it has to be. *)
Theorem json_parse_any_capacity buffer size ts1 ts2 :
  size <= NPOS ->
  same_count (json_parse buffer size ts1) (json_parse buffer size ts2) /\
  same_count (sjson_parse buffer size ts1) (sjson_parse buffer size ts2).
Proof.
  intros Hs. split.
  - unfold json_parse. destruct (parse_alike buffer size false Hs (parse_fuel size)) as [Hv _].
    assert (forall ts, current (set_token_primitive JSON_UNDEFINED 0 0 0 (set_token_id 0 0 0 (mk_state ts 0))) = 0) as C
      by (intros ts; unfold set_token_primitive, set_token_id; by rewrite !current_with).
    specialize (Hv 0 _ _ (eq_trans (C ts1) (eq_sym (C ts2)))).
    destruct (parse_value _ _ _ _ _ _) as [[r1 s1]| |], (parse_value _ _ _ _ _ _) as [[r2 s2]| |]; try done.
    destruct Hv as (-> & Hc & _). simpl. by rewrite Hc.
  - unfold sjson_parse. destruct (parse_alike buffer size true Hs (parse_fuel size)) as (Hv & Ho & _).
    set (p := skip_whitespace buffer size 0). destruct (_ && _).
    + assert (forall ts, current (next_token (set_token_complex JSON_OBJECT p 0 (set_token_id 0 0 0 (mk_state ts 0)))) = 1) as C
        by (intros ts; unfold set_token_complex, set_token_id, next_token; cbn [current]; by rewrite !current_with).
      specialize (Ho (skip_whitespace buffer size p) 0 _ _ (eq_trans (C ts1) (eq_sym (C ts2)))).
      specialize (Ho (fun _ H => False_ind _ (H eq_refl))).
      destruct (object_loop _ _ _ _ _ _ _) as [[r1 s1]| |], (object_loop _ _ _ _ _ _ _) as [[r2 s2]| |]; try done.
      destruct Ho as (-> & Hc & _). simpl. unfold set_value_length. rewrite !current_with. by destruct (r2 =? NPOS).
    + specialize (Hv p (mk_state ts1 0) (mk_state ts2 0) eq_refl).
      destruct (parse_value _ _ _ _ _ _) as [[r1 s1]| |], (parse_value _ _ _ _ _ _) as [[r2 s2]| |]; try done.
      destruct Hv as (-> & Hc & _). simpl. by rewrite Hc.
Qed.

Lemma json_parse_any_capacity_witness :
  same_count (json_parse [91; 49; 44; 50; 93] 5 []) (json_parse [91; 49; 44; 50; 93] 5 (replicate 8 inhabitant)) /\
  same_count (sjson_parse [91; 49; 44; 50; 93] 5 []) (sjson_parse [91; 49; 44; 50; 93] 5 (replicate 8 inhabitant)).
Proof. apply (json_parse_any_capacity [91; 49; 44; 50; 93] 5 [] (replicate 8 inhabitant)). by vm_compute. Defined.
End Json.
