(* ===== verification/JsonText.v ===== *)
(** * JSON texts and their tokens

    The grammar of JSON as a relation between values and texts, what it means
    that tokens describe a value, and that the parser of [Json] gives every text
    of the grammar the tokens that describe its value. *)
From S2P Require Import Prelude Str Json.

Module JsonText.
Import Str Json.

(** Strings and primitives are their characters in the text, escapes included;
    an object also has its whole text. *)
Inductive json :=
  | JString (s : list Z)
  | JPrimitive (s : list Z)
  | JArray (l : list json)
  | JObject (raw : list Z) (l : list (list Z * json)).

(** ** The grammar *)

Definition blank (w : list Z) : Prop := Forall (fun c => is_whitespace c = true) w.

Inductive string_text : list Z -> Prop :=
  | string_nil : string_text []
  | string_char c s : c <> 34 -> c <> 92 -> string_text s -> string_text (c :: s)
  | string_escape c s : is_escape c = true -> string_text s -> string_text (92 :: c :: s)
  | string_hex a b c d s : Forall (fun h => is_hex h = true) [a; b; c; d] -> string_text s ->
      string_text (92 :: 117 :: a :: b :: c :: d :: s).

Definition is_digit (c : Z) : bool := (48 <=? c) && (c <=? 57).
Definition digits (s : list Z) : Prop := s <> [] /\ Forall (fun c => is_digit c = true) s.

Inductive number_text : list Z -> Prop :=
  | number (minus int frac exp : list Z) :
      minus = [] \/ minus = [45] -> digits int ->
      frac = [] \/ (exists d, frac = 46 :: d /\ digits d) ->
      exp = [] \/ (exists e sign d, exp = e :: sign ++ d /\ (e = 101 \/ e = 69) /\ (sign = [] \/ sign = [43] \/ sign = [45]) /\ digits d) ->
      number_text (minus ++ int ++ frac ++ exp).

(** [true], [false] and [null]. *)
Definition literals : list (list Z) := [[116; 114; 117; 101]; [102; 97; 108; 115; 101]; [110; 117; 108; 108]].

(** [elements] and [members] end with the closing bracket. *)
Inductive text : json -> list Z -> Prop :=
  | text_string s : string_text s -> text (JString s) (34 :: s ++ [34])
  | text_number s : number_text s -> text (JPrimitive s) s
  | text_literal s : s ∈ literals -> text (JPrimitive s) s
  | text_empty w : blank w -> text (JArray []) (91 :: w ++ [93])
  | text_array w v l e : blank w -> elements (v :: l) e -> text (JArray (v :: l)) (91 :: w ++ e)
  | text_object w l b : blank w -> members l b -> text (JObject (123 :: w ++ b) l) (123 :: w ++ b)
with elements : list json -> list Z -> Prop :=
  | elements_last v s w : text v s -> blank w -> elements [v] (s ++ w ++ [93])
  | elements_cons v v' l s w1 w2 e : text v s -> blank w1 -> blank w2 -> elements (v' :: l) e ->
      elements (v :: v' :: l) (s ++ w1 ++ [44] ++ w2 ++ e)
with members : list (list Z * json) -> list Z -> Prop :=
  | members_nil : members [] [125]
  | members_last k v w1 w2 s w3 : string_text k -> blank w1 -> blank w2 -> text v s -> blank w3 ->
      members [(k, v)] (34 :: k ++ [34] ++ w1 ++ [58] ++ w2 ++ s ++ w3 ++ [125])
  | members_cons k v m l w1 w2 s w3 w4 b : string_text k -> blank w1 -> blank w2 -> text v s -> blank w3 ->
      blank w4 -> members (m :: l) b ->
      members ((k, v) :: m :: l) (34 :: k ++ [34] ++ w1 ++ [58] ++ w2 ++ s ++ w3 ++ [44] ++ w4 ++ b).

Scheme text_mut := Induction for text Sort Prop
  with elements_mut := Induction for elements Sort Prop
  with members_mut := Induction for members Sort Prop.
Combined Scheme text_mutind from text_mut, elements_mut, members_mut.

(** ** Tokens that describe a value *)

Fixpoint tokens_of (v : json) : Z :=
  match v with
  | JString _ | JPrimitive _ => 1
  | JArray l => 1 + sumZ (tokens_of <$> l)
  | JObject _ l => 1 + sumZ ((fun m => tokens_of m.2) <$> l)
  end.

Section describes.
Context (buffer : list Z) (ts : list json_token_t).

Definition token (i : Z) : json_token_t := ts !!! Z.to_nat i.

(** The value of the token, and its key; the sibling is the next value of the container. *)
Definition token_text (i : Z) : list Z := sub buffer (value (token i)) (value_length (token i)).
Definition token_key (i : Z) : list Z := sub buffer (id (token i)) (id_length (token i)).
Definition sibling_is {A} (i next : Z) (rest : list A) : Prop :=
  sibling (token i) = match rest with [] => 0 | _ => next end.
Definition child_is {A} (i : Z) (l : list A) : Prop := child (token i) = match l with [] => 0 | _ => i + 1 end.

Fixpoint describes (v : json) (i : Z) {struct v} : Prop :=
  match v with
  | JString s => type (token i) = JSON_STRING /\ token_text i = s /\ child (token i) = 0
  | JPrimitive s => type (token i) = JSON_PRIMITIVE /\ token_text i = s /\ child (token i) = 0
  | JArray l =>
      type (token i) = JSON_ARRAY /\ value_length (token i) = Z.of_nat (length l) /\ child_is i l /\
      (fix items (l : list json) (i : Z) {struct l} : Prop :=
         match l with
         | [] => True
         | v :: l => describes v i /\ id_length (token i) = 0 /\ sibling_is i (i + tokens_of v) l /\ items l (i + tokens_of v)
         end) l (i + 1)
  | JObject raw l =>
      type (token i) = JSON_OBJECT /\ token_text i = raw /\ child_is i l /\
      (fix items (l : list (list Z * json)) (i : Z) {struct l} : Prop :=
         match l with
         | [] => True
         | (k, v) :: l => describes v i /\ token_key i = k /\ sibling_is i (i + tokens_of v) l /\ items l (i + tokens_of v)
         end) l (i + 1)
  end.

(** The items of an array and of an object, as in [describes]. *)
Fixpoint array_items (l : list json) (i : Z) : Prop :=
  match l with
  | [] => True
  | v :: l => describes v i /\ id_length (token i) = 0 /\ sibling_is i (i + tokens_of v) l /\ array_items l (i + tokens_of v)
  end.

Fixpoint object_items (l : list (list Z * json)) (i : Z) : Prop :=
  match l with
  | [] => True
  | (k, v) :: l => describes v i /\ token_key i = k /\ sibling_is i (i + tokens_of v) l /\ object_items l (i + tokens_of v)
  end.

Lemma describes_array l i :
  describes (JArray l) i <->
  type (token i) = JSON_ARRAY /\ value_length (token i) = Z.of_nat (length l) /\ child_is i l /\ array_items l (i + 1).
Proof. done. Qed.

Lemma describes_object raw l i :
  describes (JObject raw l) i <->
  type (token i) = JSON_OBJECT /\ token_text i = raw /\ child_is i l /\ object_items l (i + 1).
Proof. done. Qed.
End describes.

(** ** Reading text

    [reads pos t rest]: from [pos] the buffer holds [t] and then [rest]. *)
Section reading.
Context (buffer : list Z) (size : Z) (Hsize : size < 2 ^ 32).

Definition reads (pos : Z) (t rest : list Z) : Prop := 0 <= pos /\ drop (Z.to_nat pos) buffer = t ++ rest.

Lemma reads_app pos a b rest : reads pos (a ++ b) rest -> reads pos a (b ++ rest) /\ reads (pos + len a) b rest.
Proof.
  intros [Hp Hd]. split; [split; [done|by rewrite Hd, app_assoc]|]. split; [unfold len; lia|].
  unfold len. rewrite Z2Nat.inj_add, Nat2Z.id, <- drop_drop, Hd, <- app_assoc by lia. apply drop_app_length.
Qed.

Lemma reads_cons pos c t rest : reads pos (c :: t) rest -> at_ buffer pos = c /\ read buffer pos = Done c /\ reads (pos + 1) t rest.
Proof.
  intros [Hp Hd]. assert (buffer !! Z.to_nat pos = Some c) as Hc.
  { rewrite <- (Nat.add_0_r (Z.to_nat pos)), <- lookup_drop, Hd. done. }
  split; [by apply list_lookup_total_correct|]. split; [unfold read; by rewrite Hc|]. split; [lia|].
  rewrite Z2Nat.inj_add, <- drop_drop, Hd by lia. done.
Qed.

Lemma reads_sub pos t rest : reads pos t rest -> sub buffer pos (len t) = t.
Proof. intros [Hp Hd]. unfold sub, len. rewrite Hd, Nat2Z.id. apply take_app_length. Qed.

Lemma len_cons c a : len (c :: a) = 1 + len a.
Proof. unfold len. simpl. lia. Qed.

(** [skip_whitespace] over blank text. *)
Lemma skip_blank pos w c rest :
  blank w -> reads pos w (c :: rest) -> pos + len w < size -> is_whitespace c = false ->
  skip_whitespace buffer size pos = pos + len w.
Proof.
  intros Hw Hr Hs Hc. unfold skip_whitespace. assert (len w < Z.of_nat (Z.to_nat (size - pos))) as Hf by (pose proof (len_nonneg w); lia).
  revert Hf. generalize (Z.to_nat (size - pos)). intros fuel. revert pos fuel Hr Hs. induction w as [|x w IH]; intros pos fuel Hr Hs Hf.
  - destruct fuel as [|fuel]; [by unfold len in Hf|]. cbn [skip_loop].
    assert (reads pos (c :: []) rest) as Hr' by exact Hr. apply reads_cons in Hr' as (-> & _ & _). rewrite Hc.
    destruct (Z.ltb_spec pos size); unfold len; simpl; lia.
  - apply Forall_cons in Hw as [Hx Hw]. apply reads_cons in Hr as (Ha & _ & Hr). rewrite len_cons in *.
    destruct fuel as [|fuel]; [pose proof (len_nonneg w); lia|]. cbn [skip_loop]. rewrite Ha, Hx. pose proof (len_nonneg w).
    destruct (Z.ltb_spec pos size); [|lia]. cbn [negb]. rewrite (IH Hw) by (done || lia). lia.
Qed.

Lemma skip_none pos c t rest :
  reads pos (c :: t) rest -> pos < size -> is_whitespace c = false -> skip_whitespace buffer size pos = pos.
Proof.
  intros Hr Hs Hc. rewrite (skip_blank pos [] c (t ++ rest)); [unfold len; simpl; lia|constructor|exact Hr|unfold len; simpl; lia|done].
Qed.

(** A string up to its closing quote. *)
Lemma string_loop_text fuel start pos s key rest :
  string_text s -> reads pos s (34 :: rest) -> pos + len s < size -> size - pos < Z.of_nat fuel ->
  string_loop buffer size fuel start pos key false = Done (pos + len s - start).
Proof.
  intros Hs. revert fuel pos. induction Hs as [|c s H1 H2 Hs IH|c s He Hs IH|a b c d s Hh Hs IH]; intros fuel pos Hr Hl Hf;
    (destruct fuel as [|fuel]; [pose proof (len_nonneg [] : 0 <= len []); repeat rewrite len_cons in Hl; try pose proof (len_nonneg s); lia|]);
    cbn [string_loop]; repeat rewrite len_cons in *; try pose proof (len_nonneg s).
  - assert (reads pos (34 :: []) rest) as Hr' by exact Hr. apply reads_cons in Hr' as (_ & -> & _).
    change (len []) with 0 in *. destruct (Z.ltb_spec pos size); [|lia]. cbn [mbind outcome_bind andb]. simpl. f_equal. lia.
  - apply reads_cons in Hr as (_ & -> & Hr). destruct (Z.ltb_spec pos size); [|lia]. cbn [mbind outcome_bind andb].
    destruct (Z.eqb_spec c 34); [done|]. destruct (Z.eqb_spec c 92); [done|]. cbn [andb]. rewrite IH by (done || lia). f_equal. lia.
  - apply reads_cons in Hr as (_ & -> & Hr). apply reads_cons in Hr as (_ & E & Hr).
    destruct (Z.ltb_spec pos size); [|lia]. cbn [mbind outcome_bind andb]. change (92 =? 34) with false. cbn [andb Z.eqb Pos.eqb].
    destruct (Z.ltb_spec (pos + 1) size); [|lia]. rewrite E. cbn [mbind outcome_bind]. rewrite He.
    rewrite IH by (done || lia). f_equal. lia.
  - apply reads_cons in Hr as (_ & -> & Hr). apply reads_cons in Hr as (_ & E & Hr).
    apply reads_cons in Hr as (_ & Ea & Hr). apply reads_cons in Hr as (_ & Eb & Hr). apply reads_cons in Hr as (_ & Ec & Hr).
    apply reads_cons in Hr as (_ & Ed & Hr). destruct (Z.ltb_spec pos size); [|lia]. cbn [mbind outcome_bind andb].
    change (92 =? 34) with false. cbn [andb Z.eqb Pos.eqb]. destruct (Z.ltb_spec (pos + 1) size); [|lia].
    rewrite E. cbn [mbind outcome_bind]. change (is_escape 117) with false. change (117 =? 117) with true.
    apply Forall_cons in Hh as [Ha Hh]. apply Forall_cons in Hh as [Hb Hh]. apply Forall_cons in Hh as [Hc Hh]. apply Forall_cons in Hh as [Hd _].
    cbn [skip_hex]. rewrite Ea, Eb, Ec, Ed. cbn [mbind outcome_bind]. rewrite Ha, Hb, Hc, Hd.
    repeat match goal with |- context [?x <? size] => destruct (Z.ltb_spec x size); [|lia] end. cbn [mbind outcome_bind].
    destruct (Z.eqb_spec (pos + 1 + 1 + 1 + 1 + 1) NPOS) as [En|_]; [unfold NPOS in En; lia|].
    rewrite IH by (done || lia). f_equal. lia.
Qed.

Lemma parse_string_text pos s key rest :
  string_text s -> reads pos s (34 :: rest) -> pos + len s < size -> parse_string buffer size pos key false = Done (len s).
Proof.
  intros Hs Hr Hl. pose proof (len_nonneg s). destruct Hr as [Hp Hr]. unfold parse_string.
  rewrite (string_loop_text _ _ _ s _ rest); [f_equal; lia|done|done|done|lia].
Qed.

(** A primitive ends at a delimiter or at the end of the text. *)
Definition stops (pos : Z) : Prop := pos = size \/ pos < size /\ is_token_delimiter (at_ buffer pos) = true.

Lemma number_digits ds fuel start pos dot dig ex rest :
  Forall (fun c => is_digit c = true) ds -> reads pos ds rest -> pos + len ds <= size -> len ds <= Z.of_nat fuel ->
  number_loop buffer size fuel start pos dot dig ex =
    number_loop buffer size (fuel - length ds) start (pos + len ds) dot (match ds with [] => dig | _ => true end) ex.
Proof.
  intros Hd. revert fuel pos dig. induction Hd as [|c ds Hc _ IH]; intros fuel pos dig Hr Hl Hf.
  - unfold len. cbn [length]. by rewrite Nat.sub_0_r, Z.add_0_r.
  - rewrite len_cons in *. pose proof (len_nonneg ds). destruct fuel as [|fuel]; [lia|].
    apply reads_cons in Hr as (Ha & _ & Hr). cbn [number_loop length Nat.sub]. rewrite Ha.
    destruct (Z.ltb_spec pos size); [|lia]. unfold is_digit in Hc. unfold is_token_delimiter, is_whitespace.
    repeat match goal with |- context [c =? ?x] => destruct (Z.eqb_spec c x); [lia|] end. cbn [orb].
    destruct (Z.ltb_spec c 48); [lia|]. destruct (Z.ltb_spec 57 c); [lia|]. cbn [orb].
    rewrite IH by (done || lia). replace (pos + 1 + len ds) with (pos + (1 + len ds)) by lia. by destruct ds.
Qed.

Lemma number_stops fuel start pos dot ex :
  stops pos -> (0 < fuel)%nat -> number_loop buffer size fuel start pos dot true ex = pos - start.
Proof.
  intros Hs Hf. destruct fuel as [|fuel]; [lia|]. cbn [number_loop]. destruct Hs as [->|[Hlt Hd]].
  - destruct (Z.ltb_spec size size); [lia|done].
  - destruct (Z.ltb_spec pos size); [|lia]. by rewrite Hd.
Qed.

Lemma number_exp fuel start pos exp rest dot :
  exp = [] \/ (exists e sign d, exp = e :: sign ++ d /\ (e = 101 \/ e = 69) /\ (sign = [] \/ sign = [43] \/ sign = [45]) /\ digits d) ->
  reads pos exp rest -> pos + len exp <= size -> stops (pos + len exp) -> len exp < Z.of_nat fuel ->
  number_loop buffer size fuel start pos dot true false = pos + len exp - start.
Proof.
  intros Hexp Hr Hl Hs Hf. destruct Hexp as [->|(e & sign & d & -> & He & Hsign & [Hne Hd])].
  - change (len []) with 0 in *. rewrite Z.add_0_r in *. apply number_stops; [done|lia].
  - rewrite len_cons, len_app in *. pose proof (len_nonneg d). pose proof (len_nonneg sign). apply reads_cons in Hr as (Ha & _ & Hr).
    apply reads_app in Hr as [Hr1 Hr2]. destruct fuel as [|fuel]; [lia|]. cbn [number_loop]. rewrite Ha.
    assert (is_token_delimiter e = false /\ (e =? 45) = false /\ (e =? 46) = false /\ ((e =? 101) || (e =? 69)) = true) as (-> & -> & -> & ->)
      by (destruct He as [-> | ->]; done).
    destruct (Z.ltb_spec pos size); [|lia]. cbn [negb orb].
    set (pos' := if (pos + 1 <? size) && _ then pos + 1 else pos).
    assert (pos' + 1 = pos + 1 + len sign) as ->.
    { subst pos'. destruct d as [|c d]; [done|]. apply Forall_cons in Hd as [Hc _]. unfold is_digit in Hc. rewrite len_cons in *. pose proof (len_nonneg d).
      destruct (Z.ltb_spec (pos + 1) size); [|lia]. destruct Hsign as [->|[-> | ->]]; cbn [andb].
      - change (len []) with 0 in *. rewrite Z.add_0_r in Hr2. apply reads_cons in Hr2 as (-> & _).
        destruct (Z.eqb_spec c 43); [lia|]. destruct (Z.eqb_spec c 45); [lia|]. cbn [orb]. lia.
      - apply reads_cons in Hr1 as (-> & _). change (len [43]) with 1. done.
      - apply reads_cons in Hr1 as (-> & _). change (len [45]) with 1. done. }
    rewrite (number_digits d _ _ _ _ _ _ rest) by (done || lia). destruct d as [|c d]; [done|].
    rewrite number_stops; [lia| |].
    + replace (pos + 1 + len sign + len (c :: d)) with (pos + (1 + (len sign + len (c :: d)))) by lia. done.
    + unfold len in *. lia.
Qed.

Lemma number_frac fuel start pos frac exp rest :
  frac = [] \/ (exists d, frac = 46 :: d /\ digits d) ->
  exp = [] \/ (exists e sign d, exp = e :: sign ++ d /\ (e = 101 \/ e = 69) /\ (sign = [] \/ sign = [43] \/ sign = [45]) /\ digits d) ->
  reads pos (frac ++ exp) rest -> pos + len (frac ++ exp) <= size -> stops (pos + len (frac ++ exp)) ->
  len (frac ++ exp) < Z.of_nat fuel ->
  number_loop buffer size fuel start pos false true false = pos + len (frac ++ exp) - start.
Proof.
  intros Hfrac Hexp Hr Hl Hs Hf. destruct Hfrac as [->|(d & -> & [Hne Hd])]; [by apply (number_exp _ _ _ _ rest)|].
  pose proof (len_nonneg d). pose proof (len_nonneg exp). cbn [app] in *. rewrite len_cons, len_app in *.
  apply reads_cons in Hr as (Ha & _ & Hr). apply reads_app in Hr as [Hr1 Hr2]. destruct fuel as [|fuel]; [lia|].
  cbn [number_loop]. rewrite Ha. destruct (Z.ltb_spec pos size); [|lia]. cbn.
  rewrite (number_digits d _ _ _ _ _ _ (exp ++ rest)) by (done || lia). destruct d as [|c d]; [done|].
  rewrite (number_exp _ _ _ exp rest); [lia|done|done|lia| |unfold len in *; lia].
  replace (pos + 1 + len (c :: d) + len exp) with (pos + (1 + (len (c :: d) + len exp))) by lia. done.
Qed.

Lemma parse_number_text pos s rest :
  number_text s -> reads pos s rest -> pos + len s <= size -> stops (pos + len s) -> parse_number buffer size pos = len s.
Proof.
  intros Hn Hr Hl Hs. destruct Hn as [minus int frac exp Hm [Hne Hd] Hfrac Hexp]. unfold parse_number.
  apply reads_app in Hr as [Hr1 Hr2]. apply reads_app in Hr2 as [Hr2 Hr3]. rewrite !len_app in *.
  pose proof (len_nonneg int). pose proof (len_nonneg frac). pose proof (len_nonneg exp). pose proof (len_nonneg minus).
  assert (0 <= pos) as Hp by apply Hr1.
  assert (exists fuel, (length int + length frac + length exp < fuel)%nat /\
    number_loop buffer size (S (Z.to_nat (size - pos))) pos pos false false false =
    number_loop buffer size fuel pos (pos + len minus) false false false) as (fuel & Hf & ->).
  { destruct Hm as [-> | ->].
    - eexists. change (len []) with 0 in *. rewrite Z.add_0_r. split; [|done]. unfold len in *. lia.
    - exists (Z.to_nat (size - pos)). change (len [45]) with 1 in *. split; [unfold len in *; lia|]. cbn [number_loop].
      apply reads_cons in Hr1 as (-> & _). destruct (Z.ltb_spec pos size); [|lia]. cbn. by rewrite Z.eqb_refl. }
  rewrite (number_digits int _ _ _ _ _ _ ((frac ++ exp) ++ rest)) by (done || unfold len in *; lia).
  destruct int as [|c int]; [done|].
  rewrite (number_frac _ _ _ frac exp rest); rewrite ?len_app; try done; try (unfold len in *; lia).
  replace (pos + len minus + len (c :: int) + (len frac + len exp)) with (pos + (len minus + (len (c :: int) + (len frac + len exp)))) by lia.
  done.
Qed.

(** A literal and the delimiter behind it. *)
Lemma literal_text pos r rest :
  reads pos r rest -> pos + len r < size -> is_token_delimiter (at_ buffer (pos + len r)) = true -> literal buffer size pos r = true.
Proof.
  intros Hr Hl Hd. unfold literal. rewrite (reads_sub _ _ _ Hr), Hd, bool_decide_true by done.
  destruct (Z.leb_spec (len r + 1) (size - pos)); [done|lia].
Qed.

Lemma literal_length_text pos s rest :
  s ∈ literals -> reads pos s rest -> pos + len s < size -> is_token_delimiter (at_ buffer (pos + len s)) = true ->
  exists c, at_ buffer pos = c /\ read buffer pos = Done c /\ is_whitespace c = false /\ (c =? 123) = false /\ (c =? 91) = false /\
    starts_number c = false /\ literal_length buffer size c (pos + 1) = Some (len s).
Proof.
  intros Hs Hr Hl Hd. unfold literals in Hs. rewrite !elem_of_cons, elem_of_nil in Hs.
  assert (forall c r, s = c :: r -> literal buffer size (pos + 1) r = true) as Hlit.
  { intros c r ->. rewrite len_cons in *. apply reads_cons in Hr as (_ & _ & Hr).
    eapply literal_text; [exact Hr|lia|]. by replace (pos + 1 + len r) with (pos + (1 + len r)) by lia. }
  destruct Hs as [->|[->|[->|[]]]]; pose proof (reads_cons _ _ _ _ Hr) as (Ha & Hread & _); eexists; do 6 (split; [done|]);
    unfold literal_length; cbn [Z.eqb Pos.eqb andb]; by rewrite (Hlit _ _ eq_refl).
Qed.
End reading.

(** ** States *)

Definition tok (st : state) (i : Z) : json_token_t := token (tokens st) i.

Lemma tok_with f i j st :
  0 <= i < capacity st -> 0 <= j -> tok (with_token f i st) j = if decide (j = i) then f (tok st j) else tok st j.
Proof.
  intros Hi Hj. unfold tok, token, with_token. destruct (Z.ltb_spec i (capacity st)); [|lia]. cbn [tokens]. unfold capacity in *.
  rewrite !list_lookup_total_alt. case_decide as E.
  - subst. rewrite list_lookup_alter_eq. destruct (lookup_lt_is_Some_2 (tokens st) (Z.to_nat i) ltac:(lia)) as [t ->]. done.
  - by rewrite list_lookup_alter_ne by lia.
Qed.

(** What parsing from [st] to [st'] has done: [n] tokens more, those before the first kept. *)
Record grown (st st' : state) (n : Z) (changed : Z -> Prop) : Prop := {
  grown_current : current st' = current st + n;
  grown_capacity : capacity st' = capacity st;
  grown_kept : forall j, 0 <= j < current st -> ~ changed j -> tok st' j = tok st j }.

(** Tokens [i + 1, ..., i + n - 1] are the same and token [i] is up to its place in the container. *)
Definition same_value (ts ts' : list json_token_t) (i n : Z) : Prop :=
  (forall j, i < j < i + n -> token ts j = token ts' j) /\
  type (token ts i) = type (token ts' i) /\ value (token ts i) = value (token ts' i) /\
  value_length (token ts i) = value_length (token ts' i) /\ child (token ts i) = child (token ts' i).

Lemma tokens_of_pos : forall v, 1 <= tokens_of v.
Proof.
  fix IH 1. intros [s|s|l|raw l]; cbn [tokens_of]; [lia|lia| |].
  - enough (0 <= sumZ (tokens_of <$> l)) by lia. induction l as [|v l IHl]; [done|]. cbn. specialize (IH v). unfold sumZ in *. lia.
  - enough (0 <= sumZ ((fun m => tokens_of m.2) <$> l)) by lia. induction l as [|v l IHl]; [done|]. cbn. specialize (IH v.2). unfold sumZ in *. lia.
Qed.

Lemma describes_valid buffer st v i : describes buffer (tokens st) v i -> 0 <= i < capacity st -> is_valid_token st i = true.
Proof.
  intros Hd Hi. unfold is_valid_token, get_token. destruct (Z.ltb_spec i (capacity st)); [|lia]. unfold capacity in *.
  destruct (lookup_lt_is_Some_2 (tokens st) (Z.to_nat i) ltac:(lia)) as [t Ht]. rewrite Ht.
  apply negb_true_iff, bool_decide_eq_false. intros Hu.
  assert (token (tokens st) i = t) as E by (by apply list_lookup_total_correct).
  destruct v; cbn [describes] in Hd; rewrite E, Hu in Hd; by destruct Hd.
Qed.

(** A token is set, and counted. *)
Lemma set_next f i st :
  i = current st -> 0 <= i < capacity st -> capacity st < 2 ^ 32 ->
  grown st (next_token (with_token f i st)) 1 (fun _ => False) /\ tok (next_token (with_token f i st)) i = f (tok st i).
Proof.
  intros -> Hi Hc. split; [split|].
  - rewrite current_next. apply wrap_small. lia.
  - apply (capacity_with f).
  - intros j Hj _. change (tok (next_token ?s) j) with (tok s j). rewrite tok_with by lia. by rewrite decide_False by lia.
  - change (tok (next_token ?s) ?j) with (tok s j). rewrite tok_with by lia. by rewrite decide_True.
Qed.

Lemma set_old f i st :
  0 <= i < capacity st -> grown st (with_token f i st) 0 (eq i) /\ tok (with_token f i st) i = f (tok st i).
Proof.
  intros Hi. split; [split|].
  - rewrite current_with. lia.
  - apply capacity_with.
  - intros j Hj Hne. rewrite tok_with by lia. by rewrite decide_False by congruence.
  - rewrite tok_with by lia. by rewrite decide_True.
Qed.

Lemma grown_trans st1 st2 st3 n m c1 c2 (c3 : Z -> Prop) :
  grown st1 st2 n c1 -> grown st2 st3 m c2 -> 0 <= n ->
  (forall j, 0 <= j < current st1 -> ~ c3 j -> ~ c1 j /\ ~ c2 j) -> grown st1 st3 (n + m) c3.
Proof.
  intros [A1 A2 A3] [B1 B2 B3] Hn Hc. split; [lia|congruence|]. intros j Hj Hne. destruct (Hc j Hj Hne).
  rewrite B3, A3 by (done || lia). done.
Qed.

(** ** Every text is parsed *)
Section parsing.
Context (buffer : list Z) (size : Z) (Hsize : size < 2 ^ 32).

Abbreviation skip := (skip_whitespace buffer size).

Definition closed (v : json) : Prop := match v with JPrimitive _ => False | _ => True end.

(** A delimiter follows inside the text. *)
Definition delimited (pos : Z) : Prop := pos < size /\ is_token_delimiter (at_ buffer pos) = true.

Record value_done (pos : Z) (t : list Z) (v : json) (st : state) (r : Z) (st' : state) : Prop := {
  done_range : 0 <= r <= size;
  done_skip : skip r = skip (pos + len t);
  done_grown : grown st st' (tokens_of v) (fun _ => False);
  done_sibling : sibling (tok st' (current st)) = 0;
  done_id : id (tok st' (current st)) = id (tok st (current st));
  done_id_length : id_length (tok st' (current st)) = id_length (tok st (current st));
  done_describes : forall ts, same_value (tokens st') ts (current st) (tokens_of v) -> describes buffer ts v (current st) }.

Definition text_parsed (v : json) (t : list Z) : Prop := forall fuel pos st rest,
  reads buffer pos t rest -> pos + len t <= size -> closed v \/ delimited (pos + len t) -> 2 * len t <= Z.of_nat fuel ->
  0 <= current st -> current st + tokens_of v <= capacity st -> capacity st < 2 ^ 32 ->
  exists r st', parse_value buffer size false fuel pos st = Done (r, st') /\ value_done pos t v st r st'.

Definition grow (k : Z) (t : json_token_t) : json_token_t :=
  mk_token (type t) (id t) (id_length t) (value t) (value_length t + k) (child t) (sibling t).
Definition link (next : Z) (t : json_token_t) : json_token_t :=
  mk_token (type t) (id t) (id_length t) (value t) (value_length t) (child t) next.

Definition same_tokens (ts ts' : list json_token_t) (i n : Z) : Prop := forall j, i <= j < i + n -> token ts j = token ts' j.

Definition elements_parsed (l : list json) (e : list Z) : Prop := forall fuel pos owner last st w rest,
  blank w -> reads buffer pos (w ++ e) rest -> pos + len (w ++ e) <= size -> 2 * len e <= Z.of_nat fuel ->
  0 <= owner < current st -> last = 0 \/ owner < last < current st ->
  current st + sumZ (tokens_of <$> l) <= capacity st -> capacity st < 2 ^ 32 ->
  0 <= value_length (tok st owner) -> value_length (tok st owner) + Z.of_nat (length l) < 2 ^ 32 ->
  exists st', array_loop buffer size false fuel pos owner last st = Done (pos + len (w ++ e), st') /\
    grown st st' (sumZ (tokens_of <$> l)) (fun j => j = owner \/ j = last /\ last <> 0) /\
    tok st' owner = grow (Z.of_nat (length l)) (tok st owner) /\
    (last <> 0 -> tok st' last = link (current st) (tok st last)) /\
    forall ts, same_tokens (tokens st') ts (current st) (sumZ (tokens_of <$> l)) -> array_items buffer ts l (current st).

Definition members_parsed (l : list (list Z * json)) (b : list Z) : Prop := forall fuel pos st rest,
  reads buffer pos b rest -> pos + len b <= size -> 2 * len b <= Z.of_nat fuel ->
  0 < current st -> current st + sumZ ((fun m => tokens_of m.2) <$> l) <= capacity st -> capacity st < 2 ^ 32 ->
  exists st', object_loop buffer size false fuel pos 0 st = Done (pos + len b, st') /\
    grown st st' (sumZ ((fun m => tokens_of m.2) <$> l)) (fun _ => False) /\
    forall ts, same_tokens (tokens st') ts (current st) (sumZ ((fun m => tokens_of m.2) <$> l)) -> object_items buffer ts l (current st).

Lemma skip_skip pos : 0 <= pos -> skip (skip pos) = skip pos.
Proof.
  intros Hp. destruct (skip_whitespace_spec buffer size pos Hp) as (H1 & _ & _ & H4).
  destruct (decide (skip pos < size)) as [Hlt|Hge]; [apply skip_stays; [lia|by apply H4]|].
  by apply (skip_whitespace_spec buffer size (skip pos)); lia.
Qed.

Lemma parse_value_skip fuel pos st : 0 <= pos -> parse_value buffer size false fuel pos st = parse_value buffer size false fuel (skip pos) st.
Proof. intros Hp. destruct fuel as [|fuel]; [done|]. cbn [parse_value]. by rewrite skip_skip. Qed.

(** The token of a string or a primitive. *)
Lemma leaf_done pos t s p v ty st r :
  tokens_of v = 1 -> (forall ts i, describes buffer ts v i <-> type (token ts i) = ty /\ token_text buffer ts i = s /\ child (token ts i) = 0) ->
  0 <= p -> p + len s <= size -> (exists rest, reads buffer p s rest) -> 0 <= r <= size -> skip r = skip (pos + len t) ->
  0 <= current st < capacity st -> capacity st < 2 ^ 32 ->
  value_done pos t v st r (next_token (set_token_primitive ty p (len s) (current st) st)).
Proof.
  intros Hn Hdesc Hp Hps [rest Hr] Hrange Hskip Hi Hc. pose proof (len_nonneg s).
  unfold set_token_primitive. set (f := fun t0 : json_token_t => _).
  destruct (set_next f (current st) st eq_refl Hi Hc) as [Hg Ht].
  split; try done; rewrite ?Ht; try done; [by rewrite Hn|].
  intros ts (_ & Ety & Eval & Elen & Ech). apply Hdesc. unfold token_text. unfold tok in Ht. rewrite Ht in Ety, Eval, Elen, Ech.
  cbn [type value value_length child f] in *.
  rewrite <- Ety, <- Eval, <- Elen, <- Ech, !wrap_small by lia. split; [done|]. split; [by eapply reads_sub|done].
Qed.

Lemma not_NPOS x : 0 <= x <= size -> (x =? NPOS) = false.
Proof. intros Hx. apply Z.eqb_neq. unfold NPOS. lia. Qed.

Lemma string_parsed s : string_text s -> text_parsed (JString s) (34 :: s ++ [34]).
Proof.
  intros Hs fuel pos st rest Hr Hl _ Hf Hi Hc Hcap. pose proof Hr as [Hp _]. pose proof (len_nonneg s).
  rewrite len_cons, len_app in *. change (len [34]) with 1 in *. cbn [tokens_of] in *.
  pose proof (skip_none _ size _ _ _ _ Hr ltac:(lia) ltac:(done) : skip pos = pos) as Esk.
  apply reads_cons in Hr as (_ & Hread & Hr). apply reads_app in Hr as [Hr _].
  destruct fuel as [|fuel]; [lia|]. cbn [parse_value]. rewrite Esk. destruct (Z.ltb_spec pos size); [|lia].
  rewrite Hread. cbn [mbind outcome_bind]. change (34 =? 123) with false. change (34 =? 91) with false.
  change (starts_number 34) with false. change (literal_length buffer size 34 (pos + 1)) with (@None Z). cbn [andb].
  unfold string_value. change (34 =? 34) with true. cbn [negb andb orb].
  rewrite (parse_string_text buffer size Hsize _ s _ rest Hs Hr) by lia. cbn [mbind outcome_bind]. rewrite not_NPOS by lia.
  eexists _, _. split; [done|]. apply (leaf_done pos _ s); try done; try lia; [by exists ([34] ++ rest)|].
  rewrite len_cons, len_app. change (len [34]) with 1. f_equal. lia.
Qed.

Lemma number_first s : number_text s -> exists c r, s = c :: r /\ starts_number c = true.
Proof.
  intros [minus int frac exp Hm [Hne Hd] _ _]. destruct Hm as [-> | ->].
  - destruct int as [|c int]; [done|]. apply Forall_cons in Hd as [Hc _]. exists c, (int ++ frac ++ exp). split; [done|].
    unfold is_digit in Hc. unfold starts_number. by rewrite Hc, orb_true_r.
  - by eexists _, _.
Qed.

Lemma number_parsed s : number_text s -> text_parsed (JPrimitive s) s.
Proof.
  intros Hs fuel pos st rest Hr Hl Hfollow Hf Hi Hc Hcap. pose proof Hr as [Hp _]. cbn [tokens_of] in *.
  destruct Hfollow as [[]|[Hlt Hd]]. pose proof (parse_number_text buffer size pos s rest Hs Hr Hl (or_intror (conj Hlt Hd))) as En.
  destruct (number_first s Hs) as (c & r & -> & Hst). rewrite len_cons in *. pose proof (len_nonneg r).
  assert (is_whitespace c = false /\ (c =? 123) = false /\ (c =? 91) = false) as (Hw & H1 & H2)
    by (unfold starts_number in Hst; unfold is_whitespace; lia).
  pose proof (skip_none _ size _ _ _ _ Hr ltac:(lia) Hw : skip pos = pos) as Esk. pose proof (reads_cons _ _ _ _ _ Hr) as (_ & Hread & _).
  destruct fuel as [|fuel]; [lia|]. cbn [parse_value]. rewrite Esk. destruct (Z.ltb_spec pos size); [|lia].
  rewrite Hread. cbn [mbind outcome_bind]. rewrite H1, H2, Hst. unfold number_value. replace (pos + 1 - 1) with pos by lia.
  rewrite En, not_NPOS by lia. cbn [andb mbind outcome_bind]. rewrite not_NPOS by lia.
  eexists _, _. split; [done|]. rewrite <- len_cons with (c := c). apply (leaf_done pos _ (c :: r)); rewrite ?len_cons; try done; try lia; [by exists rest|].
  f_equal. lia.
Qed.

Lemma literal_parsed s : s ∈ literals -> text_parsed (JPrimitive s) s.
Proof.
  intros Hs fuel pos st rest Hr Hl Hfollow Hf Hi Hc Hcap. pose proof Hr as [Hp _]. cbn [tokens_of] in *.
  destruct Hfollow as [[]|[Hlt Hd]]. pose proof (len_nonneg s).
  destruct (literal_length_text buffer size pos s rest Hs Hr Hlt Hd) as (c & Ha & Hread & Hw & H1 & H2 & H3 & H4).
  assert (2 <= len s) by (unfold literals in Hs; rewrite !elem_of_cons, elem_of_nil in Hs; by destruct Hs as [->|[->|[->|[]]]]).
  assert (skip pos = pos) as Esk by (apply skip_stays; [lia|by rewrite Ha]).
  destruct fuel as [|fuel]; [lia|]. cbn [parse_value]. rewrite Esk. destruct (Z.ltb_spec pos size); [|lia].
  rewrite Hread. cbn [mbind outcome_bind]. rewrite H1, H2, H3, H4. replace (pos + 1 - 1) with pos by lia.
  eexists _, _. split; [done|]. apply (leaf_done pos _ s); try done; try lia; [by exists rest|]. f_equal. lia.
Qed.

Lemma empty_parsed w : blank w -> text_parsed (JArray []) (91 :: w ++ [93]).
Proof.
  intros Hw fuel pos st rest Hr Hl _ Hf Hi Hc Hcap. pose proof Hr as [Hp _]. pose proof (len_nonneg w).
  rewrite len_cons, len_app in *. change (len [93]) with 1 in *. change (tokens_of (JArray [])) with 1 in *.
  pose proof (skip_none _ size _ _ _ _ Hr ltac:(lia) ltac:(done) : skip pos = pos) as Esk.
  apply reads_cons in Hr as (_ & Hread & Hr). apply reads_app in Hr as [Hr1 Hr2].
  pose proof (skip_blank _ size _ w 93 rest Hw Hr1 ltac:(lia) ltac:(done) : skip (pos + 1) = pos + 1 + len w) as Esk2.
  assert (reads buffer (pos + 1 + len w) [93] rest) as Hr3 by done. apply reads_cons in Hr3 as (_ & Hread2 & _).
  destruct fuel as [|fuel]; [lia|]. cbn [parse_value]. rewrite Esk. destruct (Z.ltb_spec pos size); [|lia].
  rewrite Hread. cbn [mbind outcome_bind]. change (91 =? 123) with false. change (91 =? 91) with true. cbn [andb].
  rewrite Esk2, Hread2. cbn [mbind outcome_bind]. change (93 =? 93) with true.
  set (f := fun t : json_token_t => mk_token JSON_ARRAY (id t) (id_length t) (u32 0) 0 (u32 (current st + 1)) 0).
  destruct (set_next f (current st) st eq_refl ltac:(lia) Hcap) as [G1 T1].
  set (st1 := next_token (with_token f (current st) st)) in *.
  set (g := fun t => mk_token (type t) (id t) (id_length t) (value t) (value_length t) 0 (sibling t)).
  destruct (set_old g (current st) st1) as [G2 T2]; [rewrite (grown_capacity _ _ _ _ G1); lia|].
  destruct (skip_whitespace_spec buffer size (pos + 1 + len w + 1) ltac:(lia)) as (S1 & S2 & _ & _).
  eexists _, _. split; [done|]. change (set_child 0 (current st) _) with (with_token g (current st) st1).
  rewrite T1 in T2. split; rewrite ?T2; try done; try lia.
  - rewrite skip_skip by lia. rewrite len_cons, len_app. change (len [93]) with 1. f_equal. lia.
  - replace (tokens_of (JArray [])) with (1 + 0) by done. eapply grown_trans; [exact G1|exact G2|lia|].
    intros j Hj _. split; [tauto|lia].
  - intros ts (_ & Ety & Eval & Elen & Ech). unfold tok in T2. rewrite T2 in *. cbn [type value_length child f g] in *.
    apply describes_array. unfold child_is. by rewrite <- Ety, <- Elen, <- Ech.
Qed.

(** ** Arrays *)

Lemma text_first v s : text v s -> exists c r, s = c :: r /\ is_whitespace c = false /\ c <> 93.
Proof.
  intros Ht. destruct Ht as [s Hs|s Hs|s Hs| | |]; try by eexists _, _.
  - destruct (number_first s Hs) as (c & r & -> & Hc). exists c, r. split; [done|]. unfold starts_number in Hc. unfold is_whitespace. lia.
  - unfold literals in Hs. rewrite !elem_of_cons, elem_of_nil in Hs. destruct Hs as [->|[->|[->|[]]]]; by eexists _, _.
Qed.

Lemma delimited_blank pos w c rest :
  blank w -> reads buffer pos (w ++ [c]) rest -> pos + len w < size -> is_token_delimiter c = true -> delimited pos.
Proof.
  intros Hw Hr Hl Hc. pose proof (len_nonneg w). destruct w as [|x w].
  - change (len []) with 0 in Hl. cbn [app] in Hr. apply reads_cons in Hr as (Ha & _). split; [lia|by rewrite Ha].
  - cbn [app] in Hr. apply reads_cons in Hr as (Ha & _). split; [lia|]. rewrite Ha. apply Forall_cons in Hw as [Hx _].
    unfold is_token_delimiter. by rewrite Hx.
Qed.

(** A value between blanks, and the character behind it. *)
Lemma value_parsed fuel pos v s st w1 w2 c rest :
  text_parsed v s -> text v s -> blank w1 -> blank w2 -> is_whitespace c = false -> is_token_delimiter c = true ->
  reads buffer pos (w1 ++ s ++ w2 ++ [c]) rest -> pos + len (w1 ++ s ++ w2 ++ [c]) <= size -> 2 * len s <= Z.of_nat fuel ->
  0 <= current st -> current st + tokens_of v <= capacity st -> capacity st < 2 ^ 32 ->
  exists r st', parse_value buffer size false fuel pos st = Done (r, st') /\ value_done (pos + len w1) s v st r st' /\
    skip r = pos + len (w1 ++ s ++ w2) /\ read buffer (skip r) = Done c.
Proof.
  intros Hv Ht Hw1 Hw2 Hc Hd Hr Hl Hf Hi Hn Hcap. pose proof Hr as [Hp _]. rewrite !len_app in *. change (len [c]) with 1 in *.
  pose proof (len_nonneg w1). pose proof (len_nonneg w2). pose proof (len_nonneg s).
  apply reads_app in Hr as [Hr1 Hr2]. apply reads_app in Hr2 as [Hr2 Hr3].
  destruct (text_first v s Ht) as (x & t & -> & Hx & _).
  assert (skip pos = pos + len w1) as Esk by (eapply skip_blank; [exact Hw1|exact Hr1|lia|done]).
  rewrite parse_value_skip, Esk by done.
  destruct (Hv fuel (pos + len w1) st ((w2 ++ [c]) ++ rest)) as (r & st' & E & Hdone); [done|lia| |done..|].
  { right. eapply delimited_blank; [exact Hw2|exact Hr3|lia|done]. }
  exists r, st'. split; [done|]. split; [done|]. rewrite (done_skip _ _ _ _ _ _ Hdone).
  pose proof Hr3 as Hr4. apply reads_app in Hr3 as [Hr3 Hr5].
  rewrite (skip_blank _ size _ w2 c rest Hw2 Hr3) by (done || lia). split; [lia|]. by apply reads_cons in Hr5 as (_ & ? & _).
Qed.

Lemma array_loop_S fuel pos owner last st :
  array_loop buffer size false (S fuel) pos owner last st =
    if pos <? size then
      '(pos, st1) ← parse_value buffer size false fuel pos (set_token_id 0 0 (current st) st);
      if pos =? NPOS then Done (NPOS, st1)
      else
        let st2 := set_value_length (fun t => u32 (value_length t + 1)) owner st1 in
        let st3 := if negb (last =? 0) then set_sibling (current st) last st2 else st2 in
        c ← read buffer (skip pos);
        if c =? 44 then array_loop buffer size false fuel (skip pos + 1) owner (current st) st3
        else if c =? 93 then Done (skip pos + 1, st3)
        else if negb false || (c =? 125) then Done (NPOS, st3)
        else array_loop buffer size false fuel (skip pos) owner (current st) st3
    else Done (NPOS, st).
Proof. done. Qed.

Lemma element_step fuel pos owner last st v s w1 w2 c rest :
  text_parsed v s -> text v s -> blank w1 -> blank w2 -> c = 44 \/ c = 93 ->
  reads buffer pos (w1 ++ s ++ w2 ++ [c]) rest -> pos + len (w1 ++ s ++ w2 ++ [c]) <= size -> 2 * len s <= Z.of_nat fuel ->
  0 <= owner < current st -> last = 0 \/ owner < last < current st ->
  current st + tokens_of v <= capacity st -> capacity st < 2 ^ 32 ->
  0 <= value_length (tok st owner) -> value_length (tok st owner) + 1 < 2 ^ 32 ->
  let i := current st in
  exists st', array_loop buffer size false (S fuel) pos owner last st =
      (if c =? 44 then array_loop buffer size false fuel (pos + len (w1 ++ s ++ w2 ++ [c])) owner i st'
       else Done (pos + len (w1 ++ s ++ w2 ++ [c]), st')) /\
    grown st st' (tokens_of v) (fun j => j = owner \/ j = last /\ last <> 0) /\
    tok st' owner = grow 1 (tok st owner) /\ (last <> 0 -> tok st' last = link i (tok st last)) /\
    sibling (tok st' i) = 0 /\ id_length (tok st' i) = 0 /\
    forall ts, same_value (tokens st') ts i (tokens_of v) -> describes buffer ts v i.
Proof.
  intros Hv Ht Hw1 Hw2 Hc Hr Hl Hf Ho Hlast Hn Hcap Hvl Hvl2. cbv zeta. pose proof (tokens_of_pos v) as Hpos.
  assert (is_whitespace c = false /\ is_token_delimiter c = true) as [Hcw Hcd] by (by destruct Hc as [-> | ->]).
  set (f0 := fun t => mk_token (type t) (u32 0) (u32 0) (value t) (value_length t) (child t) (sibling t)).
  destruct (set_old f0 (current st) st) as [G0 T0]; [lia|]. set (st0 := with_token f0 (current st) st) in *.
  pose proof (grown_current _ _ _ _ G0) as C0. pose proof (grown_capacity _ _ _ _ G0) as K0.
  destruct (value_parsed fuel pos v s st0 w1 w2 c rest Hv Ht Hw1 Hw2 Hcw Hcd Hr Hl Hf) as (r & st1 & E & Hdone & Esk & Eread); [lia..|].
  destruct Hdone as [Hrange _ G1 S1 I1 L1 D1]. assert (current st0 = current st) as Ec by lia. rewrite Ec in S1, I1, L1, D1.
  pose proof (grown_capacity _ _ _ _ G1) as K1.
  set (f2 := fun t => mk_token (type t) (id t) (id_length t) (value t) (u32 (value_length t + 1)) (child t) (sibling t)).
  destruct (set_old f2 owner st1) as [G2 T2]; [lia|]. set (st2 := with_token f2 owner st1) in *.
  pose proof (grown_capacity _ _ _ _ G2) as K2.
  set (st3 := if negb (last =? 0) then set_sibling (current st) last st2 else st2).
  assert (grown st2 st3 0 (fun j => j = last /\ last <> 0) /\ (last <> 0 -> tok st3 last = link (current st) (tok st2 last))) as [G3 T3].
  { subst st3. destruct (Z.eqb_spec last 0) as [|Hne]; cbn [negb].
    - split; [|done]. split; [lia|done|done].
    - destruct (set_old (link (current st)) last st2) as [G T]; [lia|]. split; [|by intros _].
      destruct G as [A1 A2 A3]. split; [done|done|]. intros j Hj Hjl. apply A3; [done|]. by intros <-; apply Hjl. }
  exists st3. destruct G0 as [_ _ P0], G1 as [C1 _ P1], G2 as [C2 _ P2], G3 as [C3 K3 P3].
  assert (tok st1 owner = tok st owner) as Town by (rewrite P1, P0 by (done || lia); done).
  split; [|split; [split; [lia|congruence|]|]].
  - rewrite array_loop_S. destruct (Z.ltb_spec pos size); [|rewrite !len_app in Hl; change (len [c]) with 1 in Hl;
      pose proof (len_nonneg w1); pose proof (len_nonneg w2); pose proof (len_nonneg s); lia].
    change (set_token_id 0 0 (current st) st) with st0. rewrite E. cbn [mbind outcome_bind]. rewrite not_NPOS by done.
    cbv zeta. rewrite Eread. cbn [mbind outcome_bind]. rewrite Esk. change (set_value_length _ owner st1) with st2.
    fold st3.
    assert (pos + len (w1 ++ s ++ w2 ++ [c]) = pos + len (w1 ++ s ++ w2) + 1) as ->
      by (rewrite !len_app; change (len [c]) with 1; lia).
    by destruct Hc as [-> | ->].
  - intros j Hj Hne. assert (owner <> j /\ ~ (j = last /\ last <> 0)) as [Hne1 Hne2] by (split; [by intros ->; tauto|tauto]).
    rewrite P3, P2, P1, P0; first [done|lia].
  - split; [|split; [|split; [|split]]].
    + rewrite P3, T2, Town; [|lia|lia]. unfold f2, grow. by rewrite wrap_small by lia.
    + intros Hne. rewrite T3 by done. rewrite P2, P1, P0; [done|lia..].
    + rewrite P3, P2; [done|lia..].
    + rewrite P3, P2, L1, T0; [done|lia..].
    + intros ts (Hs1 & Hs2). apply D1. assert (forall j, current st <= j < current st + tokens_of v -> tok st3 j = tok st1 j) as Hk.
      { intros j Hj. rewrite P3, P2; [done|lia..]. }
      split; [intros j Hj; rewrite <- Hs1 by done; symmetry; apply Hk; lia|].
      pose proof (Hk (current st) ltac:(lia)) as Ei. unfold tok in Ei. by rewrite <- Ei.
Qed.

Lemma sibling_nil {A} ts i next : sibling (token ts i) = 0 -> @sibling_is ts A i next [].
Proof. done. Qed.

Lemma elements_last_parsed v s w : text_parsed v s -> text v s -> blank w -> elements_parsed [v] (s ++ w ++ [93]).
Proof.
  intros Hv Ht Hw fuel pos owner last st w1 rest Hw1 Hr Hl Hf Ho Hlast Hn Hcap Hvl Hvl2. cbn [length] in Hvl2. change (Z.of_nat 1) with 1 in *.
  replace (sumZ (tokens_of <$> [v])) with (tokens_of v) in * by (cbn; lia).
  pose proof (len_nonneg s). pose proof (len_nonneg w). pose proof (tokens_of_pos v). rewrite !len_app in Hf. change (len [93]) with 1 in Hf.
  destruct fuel as [|fuel]; [lia|].
  destruct (element_step fuel pos owner last st v s w1 w 93 rest) as (st' & E & G & T1 & T2 & S & I & D); try done; [by right|lia|].
  exists st'. split; [exact E|]. split; [exact G|]. split; [exact T1|]. split; [exact T2|]. intros ts Hts.
  assert (forall j, current st <= j < current st + tokens_of v -> token ts j = tok st' j) as Hk by (intros j Hj; symmetry; by apply Hts).
  cbn [array_items]. rewrite Hk, I by lia. split; [|split; [done|split; [|done]]].
  - apply D. split; [intros j Hj; symmetry; apply Hk; lia|]. by rewrite Hk by lia.
  - apply sibling_nil. rewrite Hk by lia. exact S.
Qed.

Lemma elements_cons_parsed v v' l s w1 w2 e :
  text_parsed v s -> text v s -> blank w1 -> blank w2 -> elements_parsed (v' :: l) e ->
  elements_parsed (v :: v' :: l) (s ++ w1 ++ [44] ++ w2 ++ e).
Proof.
  intros Hv Ht Hw1 Hw2 He fuel pos owner last st w rest Hw Hr Hl Hf Ho Hlast Hn Hcap Hvl Hvl2.
  change (sumZ (tokens_of <$> v :: v' :: l)) with (tokens_of v + sumZ (tokens_of <$> v' :: l)) in *.
  set (n := sumZ (tokens_of <$> v' :: l)) in *. assert (0 <= n) as Hn0.
  { subst n. apply sumZ_nonneg. apply Forall_fmap, Forall_forall. intros x _. pose proof (tokens_of_pos x). simpl. lia. }
  change (length (v :: v' :: l)) with (S (length (v' :: l))) in *.
  pose proof (len_nonneg s). pose proof (len_nonneg w). pose proof (len_nonneg w1). pose proof (len_nonneg w2). pose proof (len_nonneg e). pose proof (tokens_of_pos v).
  assert (forall (x : list Z), w ++ s ++ w1 ++ [44] ++ x = (w ++ s ++ w1 ++ [44]) ++ x) as Hassoc by (intros x; by rewrite <- !app_assoc).
  rewrite !len_app in Hf. change (len [44]) with 1 in Hf. rewrite Hassoc in *. rewrite len_app in Hl.
  pose proof (len_app w2 e) as Ewe. apply reads_app in Hr as [Hr1 Hr2].
  destruct fuel as [|fuel]; [lia|].
  destruct (element_step fuel pos owner last st v s w w1 44 ((w2 ++ e) ++ rest)) as (st1 & E1 & [C1 K1 P1] & T1 & T2 & Sb & I & D);
    try done; try lia.
  destruct (He fuel (pos + len (w ++ s ++ w1 ++ [44])) owner (current st) st1 w2 rest) as (st2 & E2 & [C2 K2 P2] & U1 & U2 & Hitems);
    try done; try lia; rewrite ?T1; cbn [grow value_length]; try lia.
  change (44 =? 44) with true in E1. cbv iota in E1. specialize (U2 ltac:(lia)).
  exists st2. split; [rewrite E1, E2; do 2 f_equal; rewrite !len_app; lia|]. split; [split; [lia|congruence|]|split; [|split]].
  - intros j Hj Hne. assert (j <> owner /\ ~ (j = last /\ last <> 0)) as [Hne1 Hne2] by tauto.
    rewrite P2, P1; first [done|lia].
  - rewrite U1, T1. unfold grow. cbn [type id id_length value value_length child sibling]. f_equal. lia.
  - intros Hne. rewrite P2, T2; first [done|lia].
  - intros ts Hts. rewrite C1 in *.
    assert (forall j, current st <= j < current st + (tokens_of v + n) -> token ts j = tok st2 j) as Hk by (intros j Hj; symmetry; by apply Hts).
    assert (forall j, current st < j < current st + tokens_of v -> tok st2 j = tok st1 j) as Hk1.
    { intros j Hj. apply P2; [lia|]. intros [Eo|[El _]]; lia. }
    cbn [array_items]. rewrite (Hk (current st)) by lia. rewrite U2. cbn [link id_length]. split; [|split; [done|split]].
    + apply D. unfold same_value. rewrite (Hk (current st)), U2 by lia. cbn [link type value value_length child].
      split; [|done]. intros j Hj. rewrite Hk, Hk1 by lia. done.
    + unfold sibling_is. rewrite (Hk (current st)), U2 by lia. cbn [link sibling]. done.
    + apply Hitems. intros j Hj. apply Hts. lia.
Qed.

Lemma array_parsed w v l e : blank w -> elements_parsed (v :: l) e -> elements (v :: l) e -> text_parsed (JArray (v :: l)) (91 :: w ++ e).
Proof.
  intros Hw He Hel fuel pos st rest Hr Hl _ Hf Hi Hc Hcap. pose proof Hr as [Hp _]. pose proof (len_nonneg w). pose proof (len_nonneg e).
  rewrite len_cons, len_app in *. change (tokens_of (JArray (v :: l))) with (1 + sumZ (tokens_of <$> v :: l)) in *.
  set (n := sumZ (tokens_of <$> v :: l)) in *. assert (Z.of_nat (length (v :: l)) <= n) as Hlen.
  { subst n. generalize (v :: l). clear. induction l as [|x l IH]; [done|]. cbn. pose proof (tokens_of_pos x). unfold sumZ in *. cbn in *. lia. }
  assert (exists c r, e = c :: r /\ is_whitespace c = false /\ c <> 93) as (c & r & -> & Hcw & Hc93).
  { inversion Hel as [? s w' Ht|? ? ? s w1 w2 e' Ht]; subst; destruct (text_first _ _ Ht) as (c & r & -> & ? & ?); by eexists _, _. }
  rewrite len_cons in *. pose proof (len_nonneg r).
  pose proof (skip_none _ size _ _ _ _ Hr ltac:(lia) ltac:(done) : skip pos = pos) as Esk.
  apply reads_cons in Hr as (_ & Hread & Hr). apply reads_app in Hr as [Hr1 Hr2].
  pose proof (skip_blank _ size _ w c (r ++ rest) Hw Hr1 ltac:(lia) Hcw : skip (pos + 1) = pos + 1 + len w) as Esk2.
  pose proof (reads_cons _ _ _ _ _ Hr2) as (_ & Hread2 & _).
  destruct fuel as [|fuel]; [lia|]. cbn [parse_value]. rewrite Esk. destruct (Z.ltb_spec pos size); [|lia].
  rewrite Hread. cbn [mbind outcome_bind]. change (91 =? 123) with false. change (91 =? 91) with true. cbn [andb].
  rewrite Esk2, Hread2. cbn [mbind outcome_bind]. destruct (Z.eqb_spec c 93); [done|].
  set (f := fun t : json_token_t => mk_token JSON_ARRAY (id t) (id_length t) (u32 0) 0 (u32 (current st + 1)) 0).
  destruct (set_next f (current st) st eq_refl ltac:(lia) Hcap) as [[C1 K1 P1] T1].
  set (st1 := next_token (with_token f (current st) st)) in *.
  change (next_token (set_token_complex JSON_ARRAY 0 (current st) st)) with st1.
  destruct (He fuel (pos + 1 + len w) (current st) 0 st1 [] rest) as (st2 & E2 & [C2 K2 P2] & U1 & _ & Hitems);
    rewrite ?T1; cbn [app f value_length]; rewrite ?len_cons; try done; try lia; [by apply Forall_nil|].
  cbn [app] in E2. rewrite len_cons in E2. eexists _, _. split; [exact E2|]. rewrite T1 in U1. split; rewrite ?U1; try done; try lia.
  - rewrite !len_cons, len_app, len_cons. f_equal. lia.
  - change (tokens_of (JArray (v :: l))) with (1 + n). fold n in C2.
    split; [lia|congruence|]. intros j Hj _. rewrite P2, P1; first [done|lia].
  - intros ts (Hs & Ety & Eval & Elen & Ech). unfold tok in U1. rewrite U1 in *. cbn [type value_length child f grow] in *.
    apply describes_array. unfold child_is. rewrite <- Ety, <- Elen, <- Ech, wrap_small by lia. do 3 (split; [done|]).
    rewrite C1 in Hitems. apply Hitems. intros j Hj. apply Hs. change (tokens_of (JArray (v :: l))) with (1 + n). fold n in Hj. lia.
Qed.

(** ** Objects *)

Lemma object_loop_S fuel pos last st :
  object_loop buffer size false (S fuel) pos last st =
    if pos <? size then
      c ← read buffer pos;
      if c =? 125 then
        if negb (last =? 0) && negb (is_valid_token st last) then Done (NPOS, st) else Done (pos + 1, st)
      else if c =? 44 then
        if (last =? 0) || negb (is_valid_token st last) then Done (NPOS, st)
        else object_loop buffer size false fuel (skip (pos + 1)) 0 (set_sibling (current st) last st)
      else if negb (last =? 0) then Done (NPOS, st)
      else if negb (c =? 34) && negb false then Done (NPOS, st)
      else
        let simple_string := negb (c =? 34) in
        let start := if simple_string then pos + 1 - 1 else pos + 1 in
        string ← parse_string buffer size start true simple_string;
        if string =? NPOS then Done (NPOS, st)
        else
          let st1 := set_token_id start string (current st) st in
          let quoted := negb false || ((start + string <? size) && (at_ buffer (start + string) =? 34)) in
          let pos := skip (start + (if quoted then string + 1 else string)) in
          c ← read buffer pos;
          if negb (c =? 58) && (negb false || negb (c =? 61)) then Done (NPOS, st1)
          else
            '(pos, st2) ← parse_value buffer size false fuel (pos + 1) st1;
            let pos := skip pos in
            if simple_string && (pos <? size) && negb (at_ buffer pos =? 44) && negb (at_ buffer pos =? 125)
            then object_loop buffer size false fuel pos 0 (set_sibling (current st2) (current st) st2)
            else object_loop buffer size false fuel pos (current st) st2
    else Done (NPOS, st).
Proof. done. Qed.

Definition member_text (k w1 w2 s w3 : list Z) (c : Z) : list Z := 34 :: k ++ [34] ++ w1 ++ [58] ++ w2 ++ s ++ w3 ++ [c].

Lemma len_member k w1 w2 s w3 c :
  len (member_text k w1 w2 s w3 c) = 4 + len k + len w1 + len w2 + len s + len w3.
Proof. unfold member_text. rewrite len_cons, !len_app. change (len [34]) with 1. change (len [58]) with 1. change (len [c]) with 1. lia. Qed.

Lemma member_step fuel pos st k v s w1 w2 w3 c rest :
  text_parsed v s -> text v s -> string_text k -> blank w1 -> blank w2 -> blank w3 -> c = 44 \/ c = 125 ->
  reads buffer pos (member_text k w1 w2 s w3 c) rest -> pos + len (member_text k w1 w2 s w3 c) <= size -> 2 * len s <= Z.of_nat fuel ->
  0 <= current st -> current st + tokens_of v <= capacity st -> capacity st < 2 ^ 32 ->
  let i := current st in
  let behind := pos + len (member_text k w1 w2 s w3 c) - 1 in
  exists st', object_loop buffer size false (S fuel) pos 0 st = object_loop buffer size false fuel behind i st' /\
    read buffer behind = Done c /\ grown st st' (tokens_of v) (fun _ => False) /\ sibling (tok st' i) = 0 /\
    (forall ts, token ts i = tok st' i \/ (exists n, token ts i = link n (tok st' i)) -> token_key buffer ts i = k) /\
    (forall ts, same_value (tokens st') ts i (tokens_of v) -> describes buffer ts v i).
Proof.
  intros Hv Ht Hk Hw1 Hw2 Hw3 Hc Hr Hl Hf Hi Hn Hcap. cbv zeta. pose proof (tokens_of_pos v) as Hpos.
  assert (is_whitespace c = false /\ is_token_delimiter c = true) as [Hcw Hcd] by (by destruct Hc as [-> | ->]).
  pose proof Hr as [Hp _]. rewrite len_member in *. pose proof (len_nonneg k). pose proof (len_nonneg s).
  pose proof (len_nonneg w1). pose proof (len_nonneg w2). pose proof (len_nonneg w3).
  apply reads_cons in Hr as (_ & Hread & Hr). apply reads_app in Hr as [Hr1 Hr]. pose proof Hr as Hrq. apply reads_app in Hr as [_ Hr].
  apply reads_app in Hr as [Hr2 Hr]. pose proof Hr as Hrc. apply reads_app in Hr as [_ Hr]. change (len [34]) with 1 in *. change (len [58]) with 1 in *.
  pose proof (parse_string_text buffer size Hsize (pos + 1) k true _ Hk Hr1 ltac:(lia)) as Estr.
  apply reads_cons in Hrc as (_ & Hreadc & _).
  pose proof (skip_blank _ size _ w1 58 _ Hw1 Hr2 ltac:(lia) ltac:(done) : skip (pos + 1 + len k + 1) = _) as Esk.
  set (f0 := fun t => mk_token (type t) (u32 (pos + 1)) (u32 (len k)) (value t) (value_length t) (child t) (sibling t)).
  destruct (set_old f0 (current st) st) as [[C0 K0 P0] T0]; [lia|]. set (st0 := with_token f0 (current st) st) in *.
  assert (current st0 = current st) as Ec by lia.
  destruct (value_parsed fuel (pos + 1 + len k + 1 + len w1 + 1) v s st0 w2 w3 c rest Hv Ht Hw2 Hw3 Hcw Hcd Hr)
    as (r & st1 & E & [Hrange _ [C1 K1 P1] S1 I1 L1 D1] & Esk2 & Eread); [rewrite !len_app; change (len [c]) with 1; lia|lia..|].
  rewrite Ec in S1, I1, L1, D1. rewrite !len_app in Esk2.
  assert (skip r = pos + (4 + len k + len w1 + len w2 + len s + len w3) - 1) as Eb by lia.
  exists st1. split; [|split; [by rewrite <- Eb|split; [split; [lia|congruence|]|split; [done|split; [|done]]]]].
  - rewrite object_loop_S. destruct (Z.ltb_spec pos size); [|lia]. rewrite Hread. cbn [mbind outcome_bind].
    change (34 =? 125) with false. change (34 =? 44) with false. change (34 =? 34) with true. cbn [negb andb orb Z.eqb]. cbv zeta. cbv iota.
    rewrite Estr. cbn [mbind outcome_bind]. rewrite not_NPOS by lia.
    replace (pos + 1 + (len k + 1)) with (pos + 1 + len k + 1) by lia. rewrite Esk, Hreadc. cbn [mbind outcome_bind].
    change (58 =? 58) with true. cbn [negb andb]. change (set_token_id (pos + 1) (len k) (current st) st) with st0.
    rewrite E. cbn [mbind outcome_bind]. by rewrite Eb.
  - intros j Hj _. rewrite P1, P0; first [done|lia].
  - intros ts Hts. unfold token_key. assert (id (token ts (current st)) = pos + 1 /\ id_length (token ts (current st)) = len k) as [-> ->].
    { destruct Hts as [-> |[n ->]]; cbn [link id id_length]; rewrite I1, L1, T0; cbn [f0 id id_length]; by rewrite !wrap_small by lia. }
    by eapply reads_sub.
Qed.

Lemma members_nil_parsed : members_parsed [] [125].
Proof.
  intros fuel pos st rest Hr Hl Hf Hi Hn Hcap. change (len [125]) with 1 in *. destruct fuel as [|fuel]; [lia|].
  apply reads_cons in Hr as (_ & Hread & _). rewrite object_loop_S. destruct (Z.ltb_spec pos size); [|lia].
  rewrite Hread. cbn [mbind outcome_bind]. change (125 =? 125) with true. cbn [Z.eqb negb andb].
  exists st. split; [done|]. split; [|done]. split; [cbn; lia|done|done].
Qed.

Lemma members_last_parsed k v w1 w2 s w3 :
  text_parsed v s -> text v s -> string_text k -> blank w1 -> blank w2 -> blank w3 ->
  members_parsed [(k, v)] (member_text k w1 w2 s w3 125).
Proof.
  intros Hv Ht Hk Hw1 Hw2 Hw3 fuel pos st rest Hr Hl Hf Hi Hn Hcap.
  replace (sumZ ((fun m : list Z * json => tokens_of m.2) <$> [(k, v)])) with (tokens_of v) in * by (cbn; lia).
  pose proof (len_member k w1 w2 s w3 125). pose proof (len_nonneg k). pose proof (len_nonneg s). pose proof (tokens_of_pos v).
  pose proof (len_nonneg w1). pose proof (len_nonneg w2). pose proof (len_nonneg w3). destruct fuel as [|fuel]; [lia|].
  destruct (member_step fuel pos st k v s w1 w2 w3 125 rest) as (st' & E & Hread & G & Sb & Hkey & D); try done; try lia.
  exists st'. rewrite E. destruct fuel as [|fuel]; [lia|]. rewrite object_loop_S. destruct (Z.ltb_spec (pos + len (member_text k w1 w2 s w3 125) - 1) size); [|lia].
  assert (describes buffer (tokens st') v (current st)) as Hd by (by apply D).
  assert (is_valid_token st' (current st) = true) as Hvalid by (apply (describes_valid buffer st' v); [exact Hd|rewrite (grown_capacity _ _ _ _ G); lia]).
  rewrite Hread, Hvalid. cbn [mbind outcome_bind]. change (125 =? 125) with true. cbn [negb]. rewrite andb_false_r.
  split; [do 2 f_equal; lia|]. split; [done|]. intros ts Hts.
  assert (forall j, current st <= j < current st + tokens_of v -> token ts j = tok st' j) as Hks by (intros j Hj; symmetry; by apply Hts).
  cbn [object_items]. split; [|split; [|split; [|done]]].
  - apply D. split; [intros j Hj; symmetry; apply Hks; lia|]. by rewrite Hks by lia.
  - apply Hkey. left. apply Hks. lia.
  - apply sibling_nil. rewrite Hks by lia. exact Sb.
Qed.

Lemma members_first l b : members l b -> exists c r, b = c :: r /\ is_whitespace c = false.
Proof. intros H. destruct H; by eexists _, _. Qed.

Lemma members_cons_parsed k v m l w1 w2 s w3 w4 b :
  text_parsed v s -> text v s -> string_text k -> blank w1 -> blank w2 -> blank w3 -> blank w4 ->
  members_parsed (m :: l) b -> members (m :: l) b -> members_parsed ((k, v) :: m :: l) (member_text k w1 w2 s w3 44 ++ w4 ++ b).
Proof.
  intros Hv Ht Hk Hw1 Hw2 Hw3 Hw4 Hb Hmem fuel pos st rest Hr Hl Hf Hi Hn Hcap.
  change (sumZ ((fun m : list Z * json => tokens_of m.2) <$> (k, v) :: m :: l)) with
    (tokens_of v + sumZ ((fun m : list Z * json => tokens_of m.2) <$> m :: l)) in *.
  set (n := sumZ ((fun m : list Z * json => tokens_of m.2) <$> m :: l)) in *. assert (0 <= n) as Hn0.
  { subst n. apply sumZ_nonneg. apply Forall_fmap, Forall_forall. intros x _. pose proof (tokens_of_pos x.2). simpl. lia. }
  destruct (members_first _ _ Hmem) as (c & b' & Eb & Hcw).
  pose proof (len_member k w1 w2 s w3 44). pose proof (len_nonneg k). pose proof (len_nonneg s). pose proof (tokens_of_pos v).
  pose proof (len_nonneg w1). pose proof (len_nonneg w2). pose proof (len_nonneg w3). pose proof (len_nonneg w4). pose proof (len_nonneg b).
  assert (1 <= len b) by (rewrite Eb, len_cons; pose proof (len_nonneg b'); lia).
  rewrite !len_app in *. set (mt := member_text k w1 w2 s w3 44) in *.
  apply reads_app in Hr as [Hr1 Hr2]. apply reads_app in Hr2 as [Hr2 Hr3]. destruct fuel as [|fuel]; [lia|].
  destruct (member_step fuel pos st k v s w1 w2 w3 44 ((w4 ++ b) ++ rest)) as (st1 & E & Hread & [C1 K1 P1] & Sb & Hkey & D);
    try done; try (fold mt; lia). fold mt in E, Hread.
  destruct fuel as [|fuel]; [lia|]. rewrite E, object_loop_S. destruct (Z.ltb_spec (pos + len mt - 1) size); [|lia].
  assert (describes buffer (tokens st1) v (current st)) as Hd by (by apply D).
  assert (is_valid_token st1 (current st) = true) as Hvalid by (apply (describes_valid buffer st1 v); [exact Hd|lia]).
  rewrite Hread, Hvalid. cbn [mbind outcome_bind]. change (44 =? 125) with false. change (44 =? 44) with true. cbn [negb].
  destruct (Z.eqb_spec (current st) 0); [lia|]. cbn [orb]. replace (pos + len mt - 1 + 1) with (pos + len mt) by lia.
  rewrite (skip_blank _ size _ w4 c (b' ++ rest)) by (try (rewrite Eb in Hr2; exact Hr2); done || lia).
  destruct (set_old (link (current st1)) (current st) st1) as [[C2 K2 P2] T2]; [lia|].
  change (set_sibling (current st1) (current st) st1) with (with_token (link (current st1)) (current st) st1).
  set (st2 := with_token (link (current st1)) (current st) st1) in *.
  destruct (Hb fuel (pos + len mt + len w4) st2 rest) as (st3 & E3 & [C3 K3 P3] & Hitems); try done; try lia.
  exists st3. split; [rewrite E3; do 2 f_equal; lia|]. split; [split; [lia|congruence|]|].
  - intros j Hj _. rewrite P3, P2, P1; first [done|lia].
  - intros ts Hts. fold n in C3.
    assert (forall j, current st <= j < current st + (tokens_of v + n) -> token ts j = tok st3 j) as Hks by (intros j Hj; symmetry; by apply Hts).
    assert (tok st3 (current st) = link (current st1) (tok st1 (current st))) as Ti by (rewrite P3; first [done|lia]).
    assert (forall j, current st < j < current st + tokens_of v -> tok st3 j = tok st1 j) as Hk1 by (intros j Hj; rewrite P3, P2; first [done|lia]).
    cbn [object_items]. split; [|split; [|split]].
    + apply D. unfold same_value. rewrite (Hks (current st)), Ti by lia. cbn [link type value value_length child].
      split; [|done]. intros j Hj. rewrite Hks, Hk1 by lia. done.
    + apply Hkey. right. exists (current st1). rewrite <- Ti. apply Hks. lia.
    + unfold sibling_is. rewrite (Hks (current st)), Ti by lia. cbn [link sibling]. done.
    + replace (current st + tokens_of v) with (current st2) by lia. apply Hitems. intros j Hj. apply Hts. fold n in Hj. lia.
Qed.

Lemma parse_value_object fuel pos st :
  skip pos = pos -> pos < size -> read buffer pos = Done 123 ->
  parse_value buffer size false (S fuel) pos st =
    ('(pos', st') ← object_loop buffer size false fuel (skip (pos + 1)) 0 (next_token (set_token_complex JSON_OBJECT pos (current st) st));
     Done (pos', finish_object (current st) pos' st')).
Proof.
  intros Hs Hl Hr. cbn [parse_value]. rewrite Hs. destruct (Z.ltb_spec pos size); [|lia].
  rewrite Hr. cbn [mbind outcome_bind]. change (123 =? 123) with true. cbv iota. by replace (pos + 1 - 1) with pos by lia.
Qed.

Lemma object_parsed w l b : blank w -> members_parsed l b -> members l b -> text_parsed (JObject (123 :: w ++ b) l) (123 :: w ++ b).
Proof.
  intros Hw Hb Hmem fuel pos st rest Hr Hl _ Hf Hi Hc Hcap. pose proof Hr as [Hp _]. pose proof (len_nonneg w). pose proof (len_nonneg b).
  pose proof (reads_sub _ _ _ _ Hr) as Hsub. rewrite len_cons, len_app in *.
  set (raw := 123 :: w ++ b) in *. change (tokens_of (JObject raw l)) with (1 + sumZ ((fun m : list Z * json => tokens_of m.2) <$> l)) in *.
  set (n := sumZ ((fun m : list Z * json => tokens_of m.2) <$> l)) in *.
  assert (match l with [] => n = 0 | _ => 1 <= n end) as Hn.
  { subst n. destruct l as [|m l]; [done|]. cbn. pose proof (tokens_of_pos m.2). enough (0 <= sumZ ((fun m : list Z * json => tokens_of m.2) <$> l)) by (unfold sumZ in *; lia).
    apply sumZ_nonneg, Forall_fmap, Forall_forall. intros x _. pose proof (tokens_of_pos x.2). simpl. lia. }
  destruct (members_first _ _ Hmem) as (c & r & Eb & Hcw).
  assert (1 <= len b) by (rewrite Eb, len_cons; pose proof (len_nonneg r); lia).
  pose proof (skip_none _ size _ _ _ _ Hr ltac:(lia) ltac:(done) : skip pos = pos) as Esk.
  apply reads_cons in Hr as (_ & Hread & Hr). apply reads_app in Hr as [Hr1 Hr2].
  assert (skip (pos + 1) = pos + 1 + len w) as Esk2.
  { eapply (skip_blank _ size _ w c (r ++ rest)); [done|rewrite Eb in Hr1; exact Hr1|lia|done]. }
  destruct fuel as [|fuel]; [lia|]. rewrite parse_value_object, Esk2 by (done || lia).
  assert (0 <= n) as Hn0 by (destruct l; lia).
  set (f := fun t : json_token_t => mk_token JSON_OBJECT (id t) (id_length t) (u32 pos) 0 (u32 (current st + 1)) 0).
  destruct (set_next f (current st) st eq_refl ltac:(lia) Hcap) as [[C1 K1 P1] T1].
  change (next_token (set_token_complex JSON_OBJECT pos (current st) st)) with (next_token (with_token f (current st) st)).
  set (st1 := next_token (with_token f (current st) st)) in *.
  destruct (Hb fuel (pos + 1 + len w) st1 rest) as (st2 & E2 & [C2 K2 P2] & Hitems); try done; try (fold n; lia).
  fold n in C2. rewrite E2. cbn [mbind outcome_bind]. unfold finish_object. rewrite not_NPOS by lia.
  set (e := pos + 1 + len w + len b).
  set (g1 := fun t => mk_token (type t) (id t) (id_length t) (value t) (u32 (e - value t)) (child t) (sibling t)).
  destruct (set_old g1 (current st) st2) as [[C3 K3 P3] T3]; [lia|].
  change (set_value_length (fun t => u32 (e - value t)) (current st) st2) with (with_token g1 (current st) st2).
  set (st3 := with_token g1 (current st) st2) in *.
  set (g2 := fun t => mk_token (type t) (id t) (id_length t) (value t) (value_length t) (if child t =? current st3 then 0 else child t) (sibling t)).
  destruct (set_old g2 (current st) st3) as [[C4 K4 P4] T4]; [lia|].
  set (st4 := with_token g2 (current st) st3) in *.
  assert (tok st2 (current st) = f (tok st (current st))) as T2 by (rewrite P2, T1; first [done|lia]).
  rewrite T3, T2 in T4. exists e, st4. split; [done|]. split; rewrite ?T4; try done.
  - unfold e. lia.
  - f_equal. unfold raw, e. rewrite len_cons, len_app. lia.
  - split; [cbn; lia|congruence|]. intros j Hj _. rewrite P4, P3, P2, P1; first [done|lia].
  - intros ts (Hs & Ety & Eval & Elen & Ech). unfold tok in T4. rewrite T4 in *. cbn [type value value_length child f g1 g2] in *.
    rewrite (wrap_small 32 pos) in * by lia. rewrite (wrap_small 32 (e - pos)) in Elen by (unfold e; lia).
    rewrite (wrap_small 32 (current st + 1)) in Ech by lia.
    apply describes_object. split; [done|]. split; [|split].
    + unfold token_text. rewrite <- Eval, <- Elen. rewrite <- Hsub. f_equal. unfold e. lia.
    + unfold child_is. rewrite <- Ech. destruct l as [|m l].
      * destruct (Z.eqb_spec (current st + 1) (current st3)); [done|lia].
      * destruct (Z.eqb_spec (current st + 1) (current st3)); [lia|done].
    + replace (current st + 1) with (current st1) by lia. apply Hitems. intros j Hj. fold n in Hj.
      rewrite <- Hs by (cbn; fold n; lia). change (tok st2 j = tok st4 j). rewrite P4, P3; first [done|lia].
Qed.

Lemma grammar_parsed :
  (forall v t, text v t -> text_parsed v t) /\ (forall l e, elements l e -> elements_parsed l e) /\
  (forall l b, members l b -> members_parsed l b).
Proof.
  apply text_mutind; intros.
  - by apply string_parsed.
  - by apply number_parsed.
  - by apply literal_parsed.
  - by apply empty_parsed.
  - by apply array_parsed.
  - by apply object_parsed.
  - by apply elements_last_parsed.
  - by apply elements_cons_parsed.
  - apply members_nil_parsed.
  - by apply members_last_parsed.
  - match goal with |- members_parsed _ ?x => replace x with (member_text k w1 w2 s w3 44 ++ w4 ++ b)
      by (unfold member_text; cbn [app]; repeat (rewrite <- app_assoc; cbn [app]); done) end.
    by apply members_cons_parsed.
Qed.
End parsing.

Lemma text_described v t w rest size ts :
  text v t -> blank w ->
  closed v /\ len w + len t <= size \/ (exists c rest', rest = c :: rest' /\ is_token_delimiter c = true /\ len w + len t < size) ->
  size < 2 ^ 32 -> tokens_of v <= Z.of_nat (length ts) < 2 ^ 32 ->
  exists ts', json_parse (w ++ t ++ rest) size ts = Done (tokens_of v, ts') /\ describes (w ++ t ++ rest) ts' v 0.
Proof.
  intros Ht Hw Hend Hsize Hts. set (buffer := w ++ t ++ rest). pose proof (len_nonneg w). pose proof (len_nonneg t).
  assert (reads buffer (len w) t rest) as Hr
    by (split; [lia|]; unfold buffer, len; by rewrite Nat2Z.id, drop_app_length).
  assert (reads buffer 0 w (t ++ rest)) as Hr0 by done.
  destruct (text_first v t Ht) as (c & r & Et & Hcw & _).
  assert (1 <= len t) by (rewrite Et, len_cons; pose proof (len_nonneg r); lia).
  assert (len w + len t <= size) as Hl by (destruct Hend as [[_ ?]|(? & ? & _ & _ & ?)]; lia).
  set (f1 := fun t0 : json_token_t => mk_token (type t0) (u32 0) (u32 0) (value t0) (value_length t0) (child t0) (sibling t0)).
  set (f2 := fun t0 : json_token_t => mk_token JSON_UNDEFINED (id t0) (id_length t0) (u32 0) (u32 0) 0 0).
  set (st := with_token f2 0 (with_token f1 0 (mk_state ts 0))).
  assert (current st = 0) as Ec by (unfold st; by rewrite !current_with).
  assert (capacity st = Z.of_nat (length ts)) as Ek by (unfold st; by rewrite !capacity_with).
  destruct (proj1 (grammar_parsed buffer size Hsize) v t Ht (parse_fuel size) (len w) st rest) as (p & st' & E & Hdone);
    try done; try lia; [|unfold parse_fuel; lia|].
  { destruct Hend as [[? _]|(c' & rest' & -> & Hc & Hlt)]; [by left|right]. split; [lia|].
    assert (reads buffer (len w) (t ++ [c']) rest') as Hr' by (split; [lia|]; destruct Hr as [_ Hr]; rewrite Hr; by rewrite <- app_assoc).
    apply reads_app in Hr' as [_ Hr']. apply reads_cons in Hr' as (-> & _). done. }
  destruct Hdone as [Hrange _ [C _ _] _ _ _ D]. rewrite Ec in *. exists (tokens st'). split; [|by apply D].
  unfold json_parse. change (set_token_primitive JSON_UNDEFINED 0 0 0 (set_token_id 0 0 0 (mk_state ts 0))) with st.
  rewrite parse_value_skip, (skip_blank _ size 0 w c (r ++ rest)) by (try (rewrite Et in Hr0; exact Hr0); done || lia).
  rewrite Z.add_0_l, E. cbn [mbind outcome_bind]. rewrite (not_NPOS size Hsize) by done. by rewrite C.
Qed.

(** C24: every JSON text, with blanks around its values, is parsed: the parser
    reports as many tokens as the value has parts, and with an array that holds
    them the tokens describe the value: its kind, its text, its keys, and the
    order of the items along the child and sibling indices.  A primitive at the
    end of the text needs a delimiter behind it. *)
Theorem json_parse_describes v t w rest size ts :
  text v t -> blank w ->
  closed v /\ len w + len t <= size \/ (exists c rest', rest = c :: rest' /\ is_token_delimiter c = true /\ len w + len t < size) ->
  size < 2 ^ 32 -> tokens_of v <= Z.of_nat (length ts) < 2 ^ 32 ->
  exists ts', json_parse (w ++ t ++ rest) size ts = Done (tokens_of v, ts') /\ describes (w ++ t ++ rest) ts' v 0.
Proof. apply text_described. Qed.

(** [ {"a":[1,true], "b":"x"}] *)
Definition sample_json : json := 
  JObject [123; 34; 97; 34; 58; 91; 49; 44; 116; 114; 117; 101; 93; 44; 32; 34; 98; 34; 58; 34; 120; 34; 125]
    [([97], JArray [JPrimitive [49]; JPrimitive [116; 114; 117; 101]]); ([98], JString [120])].

Lemma sample_json_text :
  text sample_json [123; 34; 97; 34; 58; 91; 49; 44; 116; 114; 117; 101; 93; 44; 32; 34; 98; 34; 58; 34; 120; 34; 125].
Proof.
  assert (forall c, c <> 34 -> c <> 92 -> string_text [c]) as Hchar by (intros c H1 H2; apply string_char; [done..|constructor]).
  apply (text_object []); [constructor|].
  apply (members_cons [97] _ ([98], JString [120]) [] [] [] [91; 49; 44; 116; 114; 117; 101; 93] [] [32]
    [34; 98; 34; 58; 34; 120; 34; 125]); try by constructor.
  - by apply Hchar.
  - apply (text_array [] _ _ [49; 44; 116; 114; 117; 101; 93]); [constructor|].
    apply (elements_cons _ _ _ [49] [] [] [116; 114; 117; 101; 93]); [|constructor..|].
    + apply text_number. apply (number [] [49] [] []); by (left || (split; [|repeat constructor])).
    + apply (elements_last _ [116; 114; 117; 101] []); [|constructor]. apply text_literal. by left.
  - apply (members_last [98] _ [] [] [34; 120; 34] []); try by constructor.
    + by apply Hchar.
    + apply (text_string [120]). by apply Hchar.
Qed.

Definition sample_tokens : list json_token_t := replicate 5 inhabitant.

Lemma json_parse_describes_witness :
  exists ts, json_parse (32 :: [123; 34; 97; 34; 58; 91; 49; 44; 116; 114; 117; 101; 93; 44; 32; 34; 98; 34; 58; 34; 120; 34; 125]) 24
    sample_tokens = Done (5, ts) /\
    describes (32 :: [123; 34; 97; 34; 58; 91; 49; 44; 116; 114; 117; 101; 93; 44; 32; 34; 98; 34; 58; 34; 120; 34; 125]) ts sample_json 0.
Proof.
  apply (json_parse_describes sample_json _ [32] [] 24 sample_tokens sample_json_text).
  - by repeat constructor.
  - left. by split.
  - by vm_compute.
  - by split; vm_compute.
Defined.

(** An unclosed array makes the parser read behind a buffer that ends with the
    text; a literal at the very end is not recognised; a comma behind the last
    member leaves a sibling index that is no token's. *)
Example json_parse_edges :
  json_parse [91; 49] 2 [] = Beyond /\
  json_parse [116; 114; 117; 101; 0] 4 [] = Done (0, []) /\
  match json_parse [123; 34; 97; 34; 58; 49; 44; 125] 8 sample_tokens with
  | Done (n, ts) => n = 2 /\ sibling (token ts 1) = 2
  | _ => False
  end.
Proof. by vm_compute. Qed.
End JsonText.
