(* ===== verification/JsonEscape.v ===== *)
(** * Escaped strings ([src/library/foundation_lib/foundation/json.c])

    Writing any bytes as the text of a JSON string and reading them back.  The
    destination is the list of its bytes, the capacity is its length. *)
From S2P Require Import Prelude Str StrBuf StrNum Json JsonText.

Module JsonEscape.
Import Str StrBuf Json JsonText StrNum.

Definition hex_char (val : Z) : Z :=
  if val <? 10 then 48 + val else if val <? 16 then 97 + (val - 10) else 48.

(** [buffer[outlength++] = c], and the same behind [if (outlength < capacity)]. *)
Definition store (st : list Z * Z) (c : Z) : list Z * Z := (write_at (Z.to_nat st.2) [c] st.1, st.2 + 1).
Definition put (capacity : Z) (st : list Z * Z) (c : Z) : list Z * Z := if st.2 <? capacity then store st c else st.

Definition escape_char (capacity : Z) (st : list Z * Z) (c : Z) : list Z * Z :=
  if (c =? 34) || (c =? 92) then put capacity (store st 92) c
  else if c =? 8 then put capacity (store st 92) 98
  else if c =? 12 then put capacity (store st 92) 102
  else if c =? 13 then put capacity (store st 92) 114
  else if c =? 10 then put capacity (store st 92) 110
  else if c =? 9 then put capacity (store st 92) 116
  else if sint 8 c <? 0x20 then
    let st := put capacity (store st 92) 117 in
    let st := put capacity (put capacity st 48) 48 in
    let st := put capacity st (hex_char (Z.land (u8 (Z.shiftr (sint 8 c) 4)) 0xf)) in
    put capacity st (hex_char (Z.land (u8 c) 0xf))
  else store st c.

Fixpoint escape_loop (capacity : Z) (string : list Z) (st : list Z * Z) : list Z * Z :=
  match string with
  | [] => st
  | c :: string => if st.2 <? capacity then escape_loop capacity string (escape_char capacity st c) else st
  end.

Definition json_escape (buffer string : list Z) : list Z * Z := escape_loop (len buffer) string (buffer, 0).

(** The [case 'u']: [digits] are the four characters behind it. *)
Definition put_unicode (st : list Z * Z) (digits : list Z) : list Z * Z :=
  let val := u16 (string_to_uint digits true) in
  let '(conv, length) := string_convert_utf16 (drop (Z.to_nat st.2) st.1) [val] in
  (write_at (Z.to_nat st.2) conv st.1, st.2 + length).

Definition put_escape (st : list Z * Z) (c : Z) : list Z * Z :=
  if (c =? 34) || (c =? 47) || (c =? 92) then store st c
  else if c =? 98 then store st 8
  else if c =? 102 then store st 12
  else if c =? 114 then store st 13
  else if c =? 110 then store st 10
  else if c =? 116 then store st 9
  else st.

Fixpoint unescape_loop (capacity : Z) (string : list Z) (st : list Z * Z) : list Z * Z :=
  match string with
  | [] => st
  | c :: string =>
      if st.2 <? capacity then
        match c =? 92, string with
        | true, c :: string =>
            match c =? 117, string with
            | true, h1 :: h2 :: h3 :: h4 :: string => unescape_loop capacity string (put_unicode st [h1; h2; h3; h4])
            | _, _ => unescape_loop capacity string (put_escape st c)
            end
        | _, _ => unescape_loop capacity string (store st c)
        end
      else st
  end.

Definition json_unescape (buffer string : list Z) : list Z * Z := unescape_loop (len buffer) string (buffer, 0).

(** ** What is stored *)

Definition stored (capacity : Z) (st : list Z * Z) (s : list Z) : Prop :=
  len st.1 = capacity /\ st.2 = len s /\ take (length s) st.1 = s.

Lemma stored_fits capacity st s : stored capacity st s -> len s <= capacity.
Proof.
  intros (Hl & _ & Ht). apply (f_equal length) in Ht. rewrite length_take in Ht. unfold len in *. lia.
Qed.

Lemma stored_write capacity st s t :
  stored capacity st s -> len s + len t <= capacity ->
  stored capacity (write_at (Z.to_nat st.2) t st.1, st.2 + len t) (s ++ t).
Proof.
  intros (Hl & Hn & Ht) Hf. unfold stored. cbn [fst snd]. rewrite Hn. unfold len in *. rewrite Nat2Z.id, length_app.
  rewrite length_write_at by lia. split; [done|]. split; [lia|]. rewrite <- length_app. by apply take_write_piece; [|lia].
Qed.

Lemma stored_store capacity st s c :
  stored capacity st s -> len s < capacity -> stored capacity (store st c) (s ++ [c]).
Proof. intros Hs Hf. apply (stored_write capacity st s [c]); [done|]. unfold len in *. simpl. lia. Qed.

(** The pieces of an escape one after the other, cut at the capacity. *)
Definition emit (capacity : Z) (st : list Z * Z) (t : list Z) : list Z * Z := fold_left (put capacity) t st.

Definition cut (capacity : Z) (t : list Z) : list Z := take (Z.to_nat capacity) t.

Lemma cut_app capacity s t : cut capacity (cut capacity s ++ t) = cut capacity (s ++ t).
Proof.
  unfold cut. destruct (decide (Z.to_nat capacity <= length s)%nat).
  - rewrite !take_app_le by (rewrite ?length_take; lia). rewrite take_take. f_equal. lia.
  - by rewrite (take_ge s) by lia.
Qed.

Lemma cut_fits capacity s : len s <= capacity -> cut capacity s = s.
Proof. intros H. apply take_ge. unfold len in H. lia. Qed.

Lemma stored_put capacity st s c : stored capacity st s -> stored capacity (put capacity st c) (cut capacity (s ++ [c])).
Proof.
  intros Hs. pose proof (stored_fits _ _ _ Hs). pose proof Hs as (_ & Hn & _).
  unfold put. destruct (Z.ltb_spec st.2 capacity).
  - rewrite cut_fits by (unfold len in *; rewrite length_app; simpl; lia). apply stored_store; [done|lia].
  - unfold cut. rewrite take_app_le by (unfold len in *; lia). rewrite take_ge by (unfold len in *; lia). done.
Qed.

Lemma stored_emit capacity st s t : stored capacity st s -> stored capacity (emit capacity st t) (cut capacity (s ++ t)).
Proof.
  revert st s. induction t as [|c t IH]; intros st s Hs.
  - rewrite app_nil_r, cut_fits by (by eapply stored_fits). done.
  - specialize (IH _ _ (stored_put capacity st s c Hs)). rewrite cut_app, <- app_assoc in IH. exact IH.
Qed.

(** ** The text that is written *)

Definition escape_text (c : Z) : list Z :=
  if (c =? 34) || (c =? 92) then [92; c]
  else if c =? 8 then [92; 98] else if c =? 12 then [92; 102] else if c =? 13 then [92; 114]
  else if c =? 10 then [92; 110] else if c =? 9 then [92; 116]
  else if sint 8 c <? 0x20 then
    [92; 117; 48; 48; hex_char (Z.land (u8 (Z.shiftr (sint 8 c) 4)) 0xf); hex_char (Z.land (u8 c) 0xf)]
  else [c].

Definition escaped (s : list Z) : list Z := concat (map escape_text s).

Lemma escape_char_emit capacity st c :
  st.2 < capacity -> escape_char capacity st c = emit capacity st (escape_text c).
Proof.
  intros Hlt. assert (forall d, put capacity st d = store st d) as Hp.
  { intros d. unfold put. by replace (st.2 <? capacity) with true by lia. }
  unfold escape_char, escape_text, emit. repeat case_if; cbn [fold_left]; by rewrite Hp.
Qed.

Lemma escape_loop_stored capacity string st s :
  stored capacity st s -> stored capacity (escape_loop capacity string st) (cut capacity (s ++ escaped string)).
Proof.
  revert st s. induction string as [|c string IH]; intros st s Hs; cbn [escape_loop].
  - rewrite app_nil_r, cut_fits by (by eapply stored_fits). done.
  - destruct (Z.ltb_spec st.2 capacity) as [Hlt|Hge].
    + rewrite escape_char_emit by done. specialize (IH _ _ (stored_emit capacity st s (escape_text c) Hs)).
      rewrite cut_app, <- app_assoc in IH. exact IH.
    + pose proof (stored_fits _ _ _ Hs). pose proof Hs as (_ & Hn & _). unfold cut. unfold len in *. rewrite take_app_le by lia. by rewrite take_ge by lia.
Qed.

Lemma stored_nil buffer : stored (len buffer) (buffer, 0) [].
Proof. by repeat split. Qed.

(** ** The meaning of a text *)

Definition hex_digit (c : Z) : Z := default 0 (digit_val c).
Definition hex_value (a b c d : Z) : Z := 4096 * hex_digit a + 256 * hex_digit b + 16 * hex_digit c + hex_digit d.

Definition escape_meaning (c : Z) : Z :=
  if c =? 98 then 8 else if c =? 102 then 12 else if c =? 114 then 13 else if c =? 110 then 10 else if c =? 116 then 9 else c.

Definition unit_meaning (val : Z) : list Z :=
  if ((0xD800 <=? val) && (val <=? 0xDFFF)) || (val =? 0xFEFF) || (val =? 0xFFFE) then [] else encode_utf8 val.

(** [means t v]: the text [t] stands for the bytes [v].  A [\u] escape stands for
    the UTF-8 form of its code point; a surrogate or a byte order mark stands
    for nothing. *)
Inductive means : list Z -> list Z -> Prop :=
  | means_nil : means [] []
  | means_char c t v : c <> 92 -> means t v -> means (c :: t) (c :: v)
  | means_escape c t v : is_escape c = true -> means t v -> means (92 :: c :: t) (escape_meaning c :: v)
  | means_hex a b c d t v :
      Forall (fun h => is_hex h = true) [a; b; c; d] -> means t v ->
      means (92 :: 117 :: a :: b :: c :: d :: t) (unit_meaning (hex_value a b c d) ++ v).

(** ** Code units *)

Lemma is_hex_val c : is_hex c = true -> exists d, digit_val c = Some d /\ 0 <= d < 16.
Proof.
  unfold is_hex, digit_val. intros H.
  repeat match goal with |- context [if ?b then _ else _] => destruct b eqn:? end; try lia; eexists; (split; [done|lia]).
Qed.

Lemma is_hex_char c : is_hex c = true ->
  isspace c = false /\ c <> 45 /\ c <> 43 /\ c <> 120 /\ c <> 88 /\ c <> 0.
Proof. unfold is_hex, isspace. lia. Qed.

Lemma parse_number_hex c s :
  Forall (fun h => is_hex h = true) (c :: s) -> parse_number 16 (c :: s) = (false, parse_digits 16 (c :: s) 0).
Proof.
  intros Hs. assert (skip_prefix 16 (c :: s) = c :: s) as Hp.
  { apply skip_prefix_digits. eapply Forall_impl; [exact Hs|]. intros h Hh. by apply is_hex_char in Hh as (_ & _ & _ & ? & ? & _). }
  inversion Hs as [|? ? Hc _]; subst. apply is_hex_char in Hc as (Hsp & H45 & H43 & _).
  unfold parse_number. cbn [skip_space]. rewrite Hsp.
  destruct c as [|p|p]; [by rewrite Hp| |by rewrite Hp].
  repeat (destruct p as [p|p|]; try (by rewrite Hp); try lia).
Qed.

Lemma string_to_uint_hex a b c d :
  Forall (fun h => is_hex h = true) [a; b; c; d] ->
  string_to_uint [a; b; c; d] true = hex_value a b c d /\ 0 <= hex_value a b c d < 2 ^ 16.
Proof.
  intros Hs. pose proof (parse_number_hex _ _ Hs) as Hn.
  inversion Hs as [|? ? Ha H1]; subst. inversion H1 as [|? ? Hb H2]; subst. inversion H2 as [|? ? Hc H3]; subst.
  inversion H3 as [|? ? Hd _]; subst.
  apply is_hex_val in Ha as (x & Ex & Hx). apply is_hex_val in Hb as (y & Ey & Hy).
  apply is_hex_val in Hc as (z & Ez & Hz). apply is_hex_val in Hd as (w & Ew & Hw).
  unfold hex_value, hex_digit. rewrite Ex, Ey, Ez, Ew. cbn [from_option Datatypes.id]. change (2 ^ 16) with 65536. split; [|lia].
  unfold string_to_uint. change (0 <? len [a; b; c; d]) with true. rewrite local_copy_whole by (simpl; lia).
  unfold strtoull. rewrite Hn. cbn [parse_digits]. unfold digit_in. rewrite Ex, Ey, Ez, Ew.
  do 4 match goal with |- context [?v <? 16] => replace (v <? 16) with true by lia end.
  change (2 ^ 64) with 18446744073709551616. match goal with |- context [if ?b then _ else _] => destruct b eqn:? end; [lia|].
  rewrite wrap_small by (change (2 ^ 32) with 4294967296; lia). lia.
Qed.

Lemma convert_unit dst val :
  0 < len dst -> 0 <= val < 2 ^ 16 ->
  exists t rest, string_convert_utf16 dst [val] = (t ++ rest, len t) /\ length (t ++ rest) = length dst /\
    (len (unit_meaning val) < len dst -> t = unit_meaning val).
Proof.
  intros Hd Hv. change (2 ^ 16) with 65536 in Hv.
  assert (forall t, placed (length dst) (utf16_loop (len dst) false [val] dst 0) t ->
    exists rest, string_convert_utf16 dst [val] = (t ++ rest, len t) /\ length (t ++ rest) = length dst) as Hend.
  { intros t Ht. destruct (placed_terminate _ _ _ Ht) as [Hl [rest Hh]]. destruct Ht as (_ & Hn & _).
    unfold string_convert_utf16. destruct (utf16_loop _ _ _ _ _) as [buf n]. cbn [fst snd] in *. subst n.
    exists (0 :: rest). by rewrite <- Hh. }
  unfold len in Hend at 1. destruct (((0xD800 <=? val) && (val <=? 0xDFFF)) || (val =? 0xFEFF) || (val =? 0xFFFE)) eqn:E.
  - destruct (Hend []) as (rest & E1 & E2).
    + assert (utf16_loop (Z.of_nat (length dst)) false [val] dst 0 = (dst, 0)) as ->; [|by apply placed_nil].
      cbn [utf16_loop]. destruct (0 <? _); [|done]. destruct ((val =? 65534) || (val =? 65279)) eqn:Eb; [done|].
      by replace ((55296 <=? val) && (val <=? 57343)) with true by lia.
    + exists [], rest. unfold unit_meaning. by rewrite E.
  - unfold unit_meaning. rewrite E. destruct (Z.ltb_spec (len (encode_utf8 val)) (len dst)) as [Hf|Hf].
    + destruct (Hend (encode_utf8 val)) as (rest & E1 & E2); [|by exists (encode_utf8 val), rest].
      assert (scalar val /\ val <> 0xFFFE) as Hs by (unfold scalar; lia).
      pose proof (utf16_loop_glyphs (length dst) false [val] dst 0 [] ltac:(by apply Forall_singleton) (placed_nil dst Hd)) as Hp.
      rewrite visible_cons, decide_False in Hp by lia. change (visible []) with (@nil Z) in Hp. unfold utf8 in Hp. cbn [map concat] in Hp. rewrite app_nil_r in Hp. unfold utf16_units in Hp.
      replace (val <? 65536) with true in Hp by lia. apply Hp. exact Hf.
    + destruct (utf16_loop_placed (length dst) 1 [val] false dst 0 [] ltac:(simpl; lia) (placed_nil dst Hd)) as [t Ht].
      destruct (Hend t Ht) as (rest & E1 & E2). exists t, rest. split; [done|]. split; [done|]. lia.
Qed.

(** ** Reading a text *)

Lemma put_unicode_stored capacity st s digits :
  stored capacity st s -> len s < capacity ->
  exists t, stored capacity (put_unicode st digits) (s ++ t) /\
    (len s + len (unit_meaning (u16 (string_to_uint digits true))) < capacity ->
     t = unit_meaning (u16 (string_to_uint digits true))).
Proof.
  intros Hs Hlt. pose proof Hs as (Hl & Hn & _). unfold put_unicode.
  set (val := u16 (string_to_uint digits true)).
  assert (len (drop (Z.to_nat st.2) st.1) = capacity - len s) as Hd by (unfold len in *; rewrite length_drop; lia).
  destruct (convert_unit (drop (Z.to_nat st.2) st.1) val) as (t & rest & -> & Hlen & Ht).
  { lia. } { apply Z.mod_pos_bound. lia. }
  assert (len (t ++ rest) = capacity - len s) as Hcap by (unfold len in *; lia).
  exists t. split; [|intros; apply Ht; lia].
  pose proof (stored_write capacity st s (t ++ rest) Hs ltac:(lia)) as (H1 & _ & H3). cbn [fst snd] in *.
  split; [done|]. cbn [fst snd]. split; [unfold len in *; rewrite length_app; lia|].
  rewrite app_assoc in H3. apply (f_equal (take (length (s ++ t)))) in H3.
  rewrite take_take, take_app_length in H3. etransitivity; [|exact H3]. f_equal. rewrite !length_app. lia.
Qed.

Lemma put_escape_stored capacity st s c :
  stored capacity st s -> len s < capacity -> exists s', stored capacity (put_escape st c) s'.
Proof. intros Hs Hlt. unfold put_escape. repeat case_if; eauto using stored_store. Qed.

Lemma unescape_loop_stored capacity string st s :
  stored capacity st s -> exists s', stored capacity (unescape_loop capacity string st) s'.
Proof.
  remember (length string) as n eqn:En. assert (length string <= n)%nat as Hn by lia. clear En.
  revert string st s Hn. induction n as [|n IH]; intros string st s Hn Hs;
    (destruct string as [|c string]; cbn [unescape_loop]; [by exists s|]); cbn [length] in Hn; [lia|].
  destruct (Z.ltb_spec st.2 capacity) as [Hlt|]; [|by exists s].
  assert (len s < capacity) as Hlt' by (by destruct Hs as (_ & <- & _)).
  assert (exists s', stored capacity (unescape_loop capacity string (store st c)) s') as Hplain
    by (eapply IH; [lia|by apply stored_store]).
  destruct (c =? 92); [|done]. destruct string as [|e string]; [done|]. cbn [length] in Hn.
  assert (exists s', stored capacity (unescape_loop capacity string (put_escape st e)) s') as Hesc.
  { destruct (put_escape_stored capacity st s e Hs Hlt') as [s' Hs']. eapply IH; [lia|exact Hs']. }
  destruct (e =? 117); [|done]. destruct string as [|h1 [|h2 [|h3 [|h4 string]]]]; try done. cbn [length] in Hn.
  destruct (put_unicode_stored capacity st s [h1; h2; h3; h4] Hs Hlt') as (t & Ht & _). eapply IH; [lia|exact Ht].
Qed.

Lemma put_escape_meaning st c : is_escape c = true -> put_escape st c = store st (escape_meaning c) /\ (c =? 117) = false.
Proof.
  unfold is_escape. rewrite bool_decide_eq_true. intros H.
  repeat (apply elem_of_cons in H as [->|H]; [by split|]). by apply elem_of_nil in H.
Qed.

Lemma unescape_loop_means capacity t v st s :
  means t v -> stored capacity st s -> len s + len v < capacity ->
  stored capacity (unescape_loop capacity t st) (s ++ v).
Proof.
  intros Hm. revert st s. induction Hm as [|c t v Hc Hm IH|c t v Hc Hm IH|a b c d t v Hh Hm IH]; intros st s Hs Hf;
    [by rewrite app_nil_r|..];
    (assert (st.2 < capacity) as Hlt by (pose proof Hs as (_ & -> & _); unfold len in *; lia));
    (assert (len s < capacity) as Hls by (unfold len in *; lia)); cbn [unescape_loop];
    replace (st.2 <? capacity) with true by lia.
  - replace (c =? 92) with false by lia. rewrite cons_middle, app_assoc.
    apply IH; [by apply stored_store|]. unfold len in *. rewrite length_app. simpl in *. lia.
  - destruct (put_escape_meaning st c Hc) as [E1 E2]. rewrite E2. change (92 =? 92) with true. rewrite E1.
    rewrite cons_middle, app_assoc. apply IH; [by apply stored_store|]. unfold len in *. rewrite length_app. simpl in *. lia.
  - change (92 =? 92) with true. change (117 =? 117) with true.
    destruct (put_unicode_stored capacity st s [a; b; c; d] Hs Hls) as (u & Hu & Eu).
    destruct (string_to_uint_hex a b c d Hh) as [E Hr]. rewrite E, (wrap_small 16) in Eu by done.
    assert (len (unit_meaning (hex_value a b c d) ++ v) = len (unit_meaning (hex_value a b c d)) + len v) as El
      by (unfold len; rewrite length_app; lia). rewrite El in Hf. pose proof (len_nonneg v).
    specialize (Eu ltac:(lia)). subst u. rewrite app_assoc. apply IH; [done|]. unfold len in *. rewrite length_app. lia.
Qed.

(** ** The text that is written stands for the bytes *)

Lemma utf8_cons c s : utf8 (c :: s) = encode_utf8 c ++ utf8 s.
Proof. done. Qed.

(** Every byte with its escape, checked one by one. *)
Definition escape_ok (c : Z) : bool :=
  match escape_text c with
  | [d] => (d =? c) && negb (c =? 34) && negb (c =? 92) && bool_decide (encode_utf8 c = [c])
  | [x; d] => (x =? 92) && is_escape d && bool_decide (encode_utf8 c = [escape_meaning d])
  | [x; u; a; b; d; e] =>
      (x =? 92) && (u =? 117) && forallb is_hex [a; b; d; e] && bool_decide (encode_utf8 c = unit_meaning (hex_value a b d e))
  | _ => false
  end.

Lemma escape_ok_byte c : byte_ok c -> escape_ok c = true.
Proof.
  intros Hc. assert (forallb escape_ok (seqZ 0 256) = true) as H by (by vm_compute).
  rewrite forallb_forall in H. apply H, list_elem_of_In, elem_of_seqZ. unfold byte_ok in Hc. lia.
Qed.

Lemma escape_text_sound c t v :
  byte_ok c -> means t v /\ string_text t -> means (escape_text c ++ t) (encode_utf8 c ++ v) /\ string_text (escape_text c ++ t).
Proof.
  intros Hc [Hm Hs]. apply escape_ok_byte in Hc. unfold escape_ok in Hc.
  destruct (escape_text c) as [|x [|d [|a [|b [|e [|f [|]]]]]]]; try done; cbn [app]; rewrite !andb_true_iff in Hc.
  - destruct Hc as [[[Hd H34] H92] He]. apply bool_decide_eq_true in He. rewrite He. apply Z.eqb_eq in Hd as ->.
    split; [apply (means_char c); [lia|done]|apply string_char; [lia..|done]].
  - destruct Hc as [[Hx Hd] He]. apply bool_decide_eq_true in He. rewrite He. apply Z.eqb_eq in Hx as ->.
    split; [by apply (means_escape d)|by apply string_escape].
  - destruct Hc as [[[Hx Hu] Hh] He]. apply bool_decide_eq_true in He. rewrite He.
    apply Z.eqb_eq in Hx as ->. apply Z.eqb_eq in Hu as ->.
    assert (Forall (fun h => is_hex h = true) [a; b; e; f]) as Hf by (by apply Forall_forall; intros h Hh'; rewrite forallb_forall in Hh; apply Hh, list_elem_of_In).
    split; [by apply means_hex|by apply string_hex].
Qed.

Lemma escaped_sound s : bytes_ok s -> means (escaped s) (utf8 s) /\ string_text (escaped s).
Proof.
  induction 1 as [|c s Hc Hs IH]; [split; constructor|]. rewrite utf8_cons. by apply (escape_text_sound c).
Qed.

Lemma stored_sub capacity st s : stored capacity st s -> sub st.1 0 st.2 = s.
Proof. intros (_ & Hn & Ht). rewrite sub_0, Hn. unfold len. by rewrite Nat2Z.id. Qed.

Lemma json_escape_stored buffer string : stored (len buffer) (json_escape buffer string) (cut (len buffer) (escaped string)).
Proof. apply (escape_loop_stored (len buffer) string (buffer, 0) []), stored_nil. Qed.

Lemma json_unescape_stored buffer t v :
  means t v -> len v < len buffer -> stored (len buffer) (json_unescape buffer t) v.
Proof. intros Hm Hl. apply (unescape_loop_means (len buffer) t v (buffer, 0) []); [done|apply stored_nil|done]. Qed.

Lemma utf8_ascii s : bytes_ok s -> Forall (fun c => c < 128) s -> utf8 s = s.
Proof.
  induction 1 as [|c s Hc Hs IH]; [done|]. intros Ha. inversion Ha as [|? ? Hlt Ha']; subst. rewrite utf8_cons, IH by done.
  unfold encode_utf8. by replace (c <? 128) with true by lia.
Qed.

Lemma json_parse_string s ts :
  string_text s -> 0 < Z.of_nat (length ts) < 2 ^ 32 -> len s + 2 < 2 ^ 32 ->
  exists ts', json_parse (34 :: s ++ [34]) (len s + 2) ts = Json.Done (1, ts') /\
    type (token ts' 0) = JSON_STRING /\ token_text (34 :: s ++ [34]) ts' 0 = s.
Proof.
  intros Hs Hts Hl.
  assert (len [] + len (34 :: s ++ [34]) = len s + 2) as El by (unfold len; cbn [length]; rewrite length_app; simpl; lia).
  destruct (text_described (JString s) (34 :: s ++ [34]) [] [] (len s + 2) ts) as (ts' & E & Hd);
    [by apply text_string|constructor|left; split; [done|lia]|done|simpl; lia|].
  rewrite app_nil_r in *. cbn [app tokens_of] in *. exists ts'. split; [exact E|]. by destruct Hd as (H1 & H2 & _).
Qed.

(** ** The theorems *)

(** Escaping and unescaping stay inside the destination for every input and
    every capacity, and escaping stores as much of the escaped text as fits. *)
Theorem json_escape_bounds buffer string :
  (let '(buf, n) := json_escape buffer string in
   len buf = len buffer /\ 0 <= n <= len buffer /\ sub buf 0 n = take (length buffer) (escaped string)) /\
  (let '(buf, n) := json_unescape buffer string in len buf = len buffer /\ 0 <= n <= len buffer).
Proof.
  assert (forall st s, stored (len buffer) st s -> len st.1 = len buffer /\ 0 <= st.2 <= len buffer) as H.
  { intros st s Hs. pose proof (stored_fits _ _ _ Hs). pose proof (len_nonneg s). destruct Hs as (Hl & -> & _). lia. }
  split.
  - pose proof (json_escape_stored buffer string) as Hs. pose proof (stored_sub _ _ _ Hs) as E. apply H in Hs as [Hl Hn].
    destruct (json_escape _ _) as [buf n]. cbn [fst snd] in *. split; [done|]. split; [lia|]. rewrite E.
    unfold cut, len. by rewrite Nat2Z.id.
  - destruct (unescape_loop_stored (len buffer) string (buffer, 0) [] (stored_nil buffer)) as [s Hs]. apply H in Hs.
    unfold json_unescape. by destruct (unescape_loop _ _ _) as [buf n].
Qed.

(** C25: any bytes, escaped into a large enough buffer and put between quotes, are
    parsed as one string token; unescaping the text of that token gives the
    bytes, those above 127 as the UTF-8 form of the code point of that number. *)
Theorem json_string_roundtrip dst dst2 s ts :
  bytes_ok s -> len (escaped s) <= len dst -> len (utf8 s) < len dst2 ->
  0 < Z.of_nat (length ts) < 2 ^ 32 -> len (escaped s) + 2 < 2 ^ 32 ->
  let '(buf, n) := json_escape dst s in
  let text := 34 :: sub buf 0 n ++ [34] in
  exists ts', json_parse text (n + 2) ts = Json.Done (1, ts') /\ type (token ts' 0) = JSON_STRING /\
    let '(buf2, n2) := json_unescape dst2 (token_text text ts' 0) in
    sub buf2 0 n2 = utf8 s /\ (Forall (fun c => c < 128) s -> utf8 s = s).
Proof.
  intros Hs Hd Hd2 Hts Hsz. destruct (escaped_sound s Hs) as [Hm Ht].
  pose proof (json_escape_stored dst s) as He. rewrite cut_fits in He by done. pose proof (stored_sub _ _ _ He) as E.
  destruct He as (_ & Hn & _). destruct (json_escape dst s) as [buf n]. cbn [fst snd] in *. rewrite E. subst n. cbv zeta.
  destruct (json_parse_string (escaped s) ts) as (ts' & E1 & E2 & E3); [done..|lia|]. exists ts'. split; [exact E1|].
  split; [done|]. rewrite E3. pose proof (stored_sub _ _ _ (json_unescape_stored dst2 _ _ Hm Hd2)) as E4.
  destruct (json_unescape _ _) as [buf2 n2]. cbn [fst snd] in E4. split; [done|]. by apply utf8_ascii.
Qed.

Lemma json_string_roundtrip_witness :
  let '(buf, n) := json_escape (replicate 20 0) [34; 10; 65; 233; 1] in
  let text := 34 :: sub buf 0 n ++ [34] in
  exists ts', json_parse text (n + 2) [inhabitant] = Json.Done (1, ts') /\ type (token ts' 0) = JSON_STRING /\
    let '(buf2, n2) := json_unescape (replicate 7 0) (token_text text ts' 0) in
    sub buf2 0 n2 = utf8 [34; 10; 65; 233; 1] /\ (Forall (fun c => c < 128) [34; 10; 65; 233; 1] -> utf8 [34; 10; 65; 233; 1] = [34; 10; 65; 233; 1]).
Proof.
  apply (json_string_roundtrip (replicate 20 0) (replicate 7 0) [34; 10; 65; 233; 1] [inhabitant]).
  - repeat constructor; unfold byte_ok; lia.
  - by vm_compute.
  - by vm_compute.
  - by split; vm_compute.
  - by vm_compute.
Defined.

(** A byte above 127 becomes two bytes; a surrogate pair becomes nothing. *)
Example json_escape_edges :
  json_unescape (replicate 8 7) (escaped [233]) = ([195; 169; 0; 7; 7; 7; 7; 7], 2) /\
  (json_unescape (replicate 8 7) [92; 117; 100; 56; 51; 100; 92; 117; 100; 101; 48; 48]).2 = 0.
Proof. by vm_compute. Qed.
End JsonEscape.
