(* ===== verification/NsyncMu.v ===== *)
(** * The mutex of nsync ([src/library/nsync/internal/mu.c])

    Readers and writers lock a word of bits and queue up behind a spinlock in
    it.  A thread takes one step per load, store or compare-and-swap of the
    code, and any thread may take the next step.  Waiters with a condition
    ([mu_wait.c]) and condition variables are not part of the model. *)
From S2P Require Import Prelude.

Module NsyncMu.

(** ** The word *)

Definition MU_WLOCK : Z := 1.
Definition MU_SPINLOCK : Z := 2.
Definition MU_WAITING : Z := 4.
Definition MU_DESIG_WAKER : Z := 8.
Definition MU_CONDITION : Z := 16.
Definition MU_WRITER_WAITING : Z := 32.
Definition MU_LONG_WAIT : Z := 64.
Definition MU_ALL_FALSE : Z := 128.
Definition MU_RLOCK : Z := 256.
Definition MU_RLOCK_FIELD : Z := u32 (Z.lnot (MU_RLOCK - 1)).
Definition MU_ANY_LOCK : Z := Z.lor MU_WLOCK MU_RLOCK_FIELD.

(** [x & ~m] of a [uint32_t]. *)
Definition andnot (x m : Z) : Z := Z.land x (u32 (Z.lnot m)).

Inductive kind := Writer | Reader.
#[global] Instance kind_eq_dec : EqDecision kind.
Proof. solve_decision. Defined.

Record lock_type := mk_lock_type {
  zero_to_acquire : Z; add_to_acquire : Z; held_if_non_zero : Z;
  set_when_waiting : Z; clear_on_acquire : Z; clear_on_uncontended_release : Z }.

Definition nsync_writer_type_ : lock_type :=
  mk_lock_type (Z.lor MU_ANY_LOCK MU_LONG_WAIT) MU_WLOCK MU_WLOCK (Z.lor MU_WAITING MU_WRITER_WAITING) MU_WRITER_WAITING MU_ALL_FALSE.
Definition nsync_reader_type_ : lock_type :=
  mk_lock_type (Z.lor (Z.lor MU_WLOCK MU_WRITER_WAITING) MU_LONG_WAIT) MU_RLOCK MU_RLOCK_FIELD MU_WAITING 0 0.

Definition type_of (k : kind) : lock_type := match k with Writer => nsync_writer_type_ | Reader => nsync_reader_type_ end.

Definition LONG_WAIT_THRESHOLD : Z := 30.

(** ** Threads *)

(** The variables of [nsync_mu_lock_slow_]. *)
Record slow := mk_slow { s_type : kind; s_clear : Z; s_zero : Z; s_wait_count : Z; s_long_wait : Z }.

Definition slow_start (clear : Z) (k : kind) : slow :=
  let zero := zero_to_acquire (type_of k) in
  mk_slow k clear (if negb (clear =? 0) then andnot zero (Z.lor MU_WRITER_WAITING MU_LONG_WAIT) else zero) 0 0.

(** After a wakeup. *)
Definition slow_woken (l : slow) : slow :=
  let wait_count := u32 (s_wait_count l + 1) in
  mk_slow (s_type l) MU_DESIG_WAKER (andnot (s_zero l) (Z.lor MU_WRITER_WAITING MU_LONG_WAIT)) wait_count
    (if wait_count =? LONG_WAIT_THRESHOLD then MU_LONG_WAIT else s_long_wait l).

(** The variables at the end of [nsync_mu_unlock_slow_]. *)
Record finish := mk_finish { f_wake : list nat; f_set : Z; f_clear : Z; f_late : Z }.

(** Where a thread is: the next atomic step of its code. *)
Inductive pc :=
  | Idle | Held (k : kind) | Panicked
  | LockFast (k : kind) | LockLoad (k : kind) | LockCas (k : kind) (old : Z)
  | TryFast (k : kind) | TryLoad (k : kind) | TryCas (k : kind) (old : Z)
  | SlowLoad (l : slow) | SlowAcquire (l : slow) (old : Z) | SlowEnqueue (l : slow) (old : Z) | SlowQueue (l : slow)
  | SlowSpin (l : slow) | SlowSpinCas (l : slow) (old : Z) | SlowWait (l : slow) | SlowSem (l : slow)
  | UnlockFast (k : kind) | UnlockLoad (k : kind) | UnlockCas (k : kind) (old new : Z)
  | UnlockSlow (k : kind) | UnlockRelease (k : kind) (old : Z) | UnlockGrab (k : kind) (old : Z) (testing : bool)
  | Scan (k : kind) (testing : bool) | Finish (f : finish) | FinishCas (f : finish) (old : Z)
  | Wake (wake : list nat) | Signal (p : nat) (wake : list nat).

(** A thread with its waiter: the flag of the waiter, the count of its
    semaphore, and the mode it waits for. *)
Record thread := mk_thread { t_pc : pc; waiting : bool; sem : Z; l_type : kind }.

(** The queue is the list that [waiters] stands for, its first element first. *)
Record state := mk_state { word : Z; waiters : list nat; threads : list thread }.

Definition set_pc (p : pc) (th : thread) : thread := mk_thread p (waiting th) (sem th) (l_type th).

Definition put (s : state) (t : nat) (word : Z) (waiters : list nat) (th : thread) : state :=
  mk_state word waiters (<[t := th]> (threads s)).

(** [ATM_CAS] of the word by a thread. *)
Definition cas (s : state) (t : nat) (th : thread) (old new : Z) (success fail : pc) : state :=
  if word s =? old then put s t new (waiters s) (set_pc success th) else put s t (word s) (waiters s) (set_pc fail th).

(** ** Waking *)

(** The loop over the waiters, none of which has a condition: those that stay
    in the queue, those to wake, the type of the last one to wake, and the bits
    to set.  It stops behind a writer. *)
Fixpoint scan_loop (types : nat -> kind) (rest kept wake : list nat) (wake_type : option kind) (set_on_release : Z) : list nat * list nat * Z :=
  match rest with
  | [] => (kept, wake, set_on_release)
  | p :: rest' =>
      if bool_decide (wake_type = Some Writer) then (kept ++ rest, wake, andnot set_on_release MU_ALL_FALSE)
      else if bool_decide (wake_type = None) || bool_decide (types p = Reader) then
        scan_loop types rest' kept (wake ++ [p]) (Some (types p)) set_on_release
      else scan_loop types rest' (kept ++ [p]) wake wake_type (andnot (Z.lor set_on_release MU_WRITER_WAITING) MU_ALL_FALSE)
  end.

(** The rest of the queue and the word's bits to set and to clear. *)
Definition scan (types : nat -> kind) (waiters : list nat) (late : Z) : list nat * finish :=
  let '(waiters, wake, set_on_release) := scan_loop types waiters [] [] None MU_ALL_FALSE in
  let clear := MU_SPINLOCK in
  let clear := if (length wake =? 0)%nat then Z.lor clear MU_DESIG_WAKER else clear in
  let clear := if Z.land set_on_release MU_ALL_FALSE =? 0 then Z.lor clear MU_ALL_FALSE else clear in
  let clear := if (length waiters =? 0)%nat then Z.lor clear (Z.lor (Z.lor (Z.lor MU_WAITING MU_WRITER_WAITING) MU_CONDITION) MU_ALL_FALSE) else clear in
  (waiters, mk_finish wake set_on_release clear late).

(** ** Steps *)

Inductive call := CallLock (k : kind) | CallTrylock (k : kind) | CallUnlock.

(** Whether the mutex is not held as it should be, after the attempt to release
    a word that has only the bits of one holder. *)
Definition unlock_panics (k : kind) (old : Z) : bool :=
  match k with
  | Writer => negb (Z.land (andnot (u32 (old - MU_WLOCK)) MU_ALL_FALSE) (Z.lor MU_RLOCK_FIELD MU_WLOCK) =? 0)
  | Reader => Z.land (Z.lxor old MU_WLOCK) (Z.lor MU_WLOCK MU_RLOCK_FIELD) =? 0
  end.

(** Whether there may be a thread to wake. *)
Definition unlock_wakes (k : kind) (old : Z) : bool :=
  (Z.land old (Z.lor MU_WAITING MU_DESIG_WAKER) =? MU_WAITING) &&
  match k with Writer => true | Reader => Z.land old (Z.lor MU_RLOCK_FIELD MU_ALL_FALSE) =? MU_RLOCK end.

Definition unlock_word (k : kind) (old : Z) : Z :=
  match k with Writer => andnot (u32 (old - MU_WLOCK)) MU_ALL_FALSE | Reader => u32 (old - MU_RLOCK) end.

(** No one to wake, a designated waker, other readers, or only conditions that
    are false. *)
Definition nobody_to_wake (old : Z) : bool :=
  (Z.land old MU_WAITING =? 0) || negb (Z.land old MU_DESIG_WAKER =? 0) || (MU_RLOCK <? Z.land old MU_RLOCK_FIELD) ||
  (Z.land old (Z.lor MU_RLOCK MU_ALL_FALSE) =? Z.lor MU_RLOCK MU_ALL_FALSE).

Definition start_call (c : call) (p : pc) : option pc :=
  match c, p with
  | CallLock k, Idle => Some (LockFast k)
  | CallTrylock k, Idle => Some (TryFast k)
  | CallUnlock, Held k => Some (UnlockFast k)
  | _, _ => None
  end.

(** *** Helpers: a thread goes on at [p], loads the word first or not. *)

Definition goto (s : state) (t : nat) (th : thread) (p : pc) : option state := Some (put s t (word s) (waiters s) (set_pc p th)).

(** The slow path begins with the mode of the waiter. *)
Definition goto_slow (s : state) (t : nat) (th : thread) (k : kind) : option state :=
  Some (put s t (word s) (waiters s) (mk_thread (SlowLoad (slow_start 0 k)) (waiting th) (sem th) k)).

(** The word of a lock that is acquired without having waited. *)
Definition acquired_word (k : kind) (old : Z) : Z := andnot (u32 (old + add_to_acquire (type_of k))) (clear_on_acquire (type_of k)).

(** [nsync_mu_lock] and [nsync_mu_rlock]. *)
Definition lock_at (s : state) (t : nat) (th : thread) (p : pc) : option state :=
  match p with
  | LockFast k => Some (cas s t th 0 (add_to_acquire (type_of k)) (Held k) (LockLoad k))
  | LockLoad k => if negb (Z.land (word s) (zero_to_acquire (type_of k)) =? 0) then goto_slow s t th k else goto s t th (LockCas k (word s))
  | LockCas k old => if word s =? old then Some (put s t (acquired_word k old) (waiters s) (set_pc (Held k) th)) else goto_slow s t th k
  | _ => None
  end.

(** [nsync_mu_trylock] and [nsync_mu_rtrylock]. *)
Definition trylock_at (s : state) (t : nat) (th : thread) (p : pc) : option state :=
  match p with
  | TryFast k => Some (cas s t th 0 (add_to_acquire (type_of k)) (Held k) (TryLoad k))
  | TryLoad k => if Z.land (word s) (zero_to_acquire (type_of k)) =? 0 then goto s t th (TryCas k (word s)) else goto s t th Idle
  | TryCas k old => Some (cas s t th old (acquired_word k old) (Held k) Idle)
  | _ => None
  end.

(** [nsync_mu_lock_slow_], with [mu_release_spinlock] and the semaphore of the
    waiter.  [None] is a thread whose semaphore is zero. *)
Definition lock_slow_at (s : state) (t : nat) (th : thread) (p : pc) : option state :=
  match p with
  | SlowLoad l =>
      if Z.land (word s) (s_zero l) =? 0 then goto s t th (SlowAcquire l (word s))
      else if Z.land (word s) MU_SPINLOCK =? 0 then goto s t th (SlowEnqueue l (word s))
      else goto s t th (SlowLoad l)
  | SlowAcquire l old =>
      Some (cas s t th old
        (andnot (u32 (old + add_to_acquire (type_of (s_type l)))) (Z.lor (Z.lor (s_clear l) (s_long_wait l)) (clear_on_acquire (type_of (s_type l)))))
        (Held (s_type l)) (SlowLoad l))
  | SlowEnqueue l old =>
      Some (cas s t th old
        (andnot (Z.lor (Z.lor (Z.lor old MU_SPINLOCK) (s_long_wait l)) (set_when_waiting (type_of (s_type l)))) (Z.lor (s_clear l) MU_ALL_FALSE))
        (SlowQueue l) (SlowLoad l))
  | SlowQueue l =>
      (* the first wait goes to the end of the queue, the others to its front *)
      let queue := if s_wait_count l =? 0 then waiters s ++ [t] else t :: waiters s in
      Some (put s t (word s) queue (mk_thread (SlowSpin l) true (sem th) (l_type th)))
  | SlowSpin l => goto s t th (SlowSpinCas l (word s))
  | SlowSpinCas l old => Some (cas s t th old (andnot old MU_SPINLOCK) (SlowWait l) (SlowSpin l))
  | SlowWait l => if waiting th then goto s t th (SlowSem l) else goto s t th (SlowLoad (slow_woken l))
  | SlowSem l =>
      if 0 <? sem th then Some (put s t (word s) (waiters s) (mk_thread (SlowWait l) (waiting th) (sem th - 1) (l_type th)))
      else None
  | _ => None
  end.

(** [nsync_mu_unlock] and [nsync_mu_runlock]. *)
Definition unlock_at (s : state) (t : nat) (th : thread) (p : pc) : option state :=
  match p with
  | UnlockFast k => Some (cas s t th (add_to_acquire (type_of k)) 0 Idle (UnlockLoad k))
  | UnlockLoad k =>
      if unlock_panics k (word s) then goto s t th Panicked
      else if unlock_wakes k (word s) then goto s t th (UnlockSlow k)
      else goto s t th (UnlockCas k (word s) (unlock_word k (word s)))
  | UnlockCas k old new => Some (cas s t th old new Idle (UnlockSlow k))
  | _ => None
  end.

(** [nsync_mu_unlock_slow_] up to the wakeups.  The loop over the waiters is
    under the spinlock when none has a condition. *)
Definition unlock_slow_at (s : state) (t : nat) (th : thread) (p : pc) : option state :=
  match p with
  | UnlockSlow k =>
      if nobody_to_wake (word s) then goto s t th (UnlockRelease k (word s))
      else if Z.land (word s) MU_SPINLOCK =? 0 then goto s t th (UnlockGrab k (word s) (negb (Z.land (word s) MU_CONDITION =? 0)))
      else goto s t th (UnlockSlow k)
  | UnlockRelease k old =>
      Some (cas s t th old (andnot (u32 (old - add_to_acquire (type_of k))) (clear_on_uncontended_release (type_of k))) Idle (UnlockSlow k))
  | UnlockGrab k old testing =>
      let early := if testing then u32 (add_to_acquire (type_of k) - MU_WLOCK) else add_to_acquire (type_of k) in
      Some (cas s t th old (Z.lor (Z.lor (u32 (old - early)) MU_SPINLOCK) MU_DESIG_WAKER) (Scan k testing) (UnlockSlow k))
  | Scan k testing =>
      if testing then None
      else
        let '(queue, f) := scan (fun p => match threads s !! p with Some q => l_type q | None => Reader end) (waiters s) 0 in
        Some (put s t (word s) queue (set_pc (Finish f) th))
  | Finish f => goto s t th (FinishCas f (word s))
  | FinishCas f old => Some (cas s t th old (andnot (Z.lor (u32 (old - f_late f)) (f_set f)) (f_clear f)) (Wake (f_wake f)) (Finish f))
  | _ => None
  end.

(** The wakeups at the end of [nsync_mu_unlock_slow_]: the flag, then the
    semaphore of each waiter. *)
Definition wake_at (s : state) (t : nat) (th : thread) (p : pc) : option state :=
  match p with
  | Wake [] => goto s t th Idle
  | Wake (p :: wake) =>
      match threads s !! p with
      | Some _ => Some (mk_state (word s) (waiters s)
          (alter (fun q => mk_thread (t_pc q) false (sem q) (l_type q)) p (<[t := set_pc (Signal p wake) th]> (threads s))))
      | None => None
      end
  | Signal p wake =>
      match threads s !! p with
      | Some _ => Some (mk_state (word s) (waiters s)
          (alter (fun q => mk_thread (t_pc q) (waiting q) (sem q + 1) (l_type q)) p (<[t := set_pc (Wake wake) th]> (threads s))))
      | None => None
      end
  | _ => None
  end.

(** A thread outside of a call makes one, or a thread inside takes its next step. *)
Definition step (c : option call) (t : nat) (s : state) : option state :=
  th ← threads s !! t;
  match c with
  | Some c => p ← start_call c (t_pc th); goto s t th p
  | None =>
      match t_pc th with
      | Idle | Held _ | Panicked => None
      | LockFast _ | LockLoad _ | LockCas _ _ => lock_at s t th (t_pc th)
      | TryFast _ | TryLoad _ | TryCas _ _ => trylock_at s t th (t_pc th)
      | SlowLoad _ | SlowAcquire _ _ | SlowEnqueue _ _ | SlowQueue _ | SlowSpin _ | SlowSpinCas _ _ | SlowWait _ | SlowSem _ => lock_slow_at s t th (t_pc th)
      | UnlockFast _ | UnlockLoad _ | UnlockCas _ _ _ => unlock_at s t th (t_pc th)
      | UnlockSlow _ | UnlockRelease _ _ | UnlockGrab _ _ _ | Scan _ _ | Finish _ | FinishCas _ _ => unlock_slow_at s t th (t_pc th)
      | Wake _ | Signal _ _ => wake_at s t th (t_pc th)
      end
  end.

(** Threads outside of any call, and a mutex of zeroes. *)
Definition nsync_mu_init (n : nat) : state := mk_state 0 [] (replicate n (mk_thread Idle false 0 Reader)).

Definition steps (s s' : state) : Prop := exists c t, step c t s = Some s'.
Definition reachable (n : nat) : state -> Prop := rtc steps (nsync_mu_init n).

(** ** Queries *)

Definition nsync_mu_assert_held (w : Z) : bool := negb (Z.land w MU_WLOCK =? 0).
Definition nsync_mu_rassert_held (w : Z) : bool := negb (Z.land w MU_ANY_LOCK =? 0).
Definition nsync_mu_is_reader (w : Z) : option bool :=
  if Z.land w MU_ANY_LOCK =? 0 then None else Some (Z.land w MU_WLOCK =? 0).
End NsyncMu.
