(* ===== verification/NsyncMuSpec.v ===== *)
(** * What the mutex of nsync promises

    An abstract reader-writer lock: bits instead of a word, roles of threads
    instead of points in the code, and no choice of which waiters to wake.  The
    steps of the code of [NsyncMu] are steps of this machine or leave it as it
    is, and its invariant says that readers and writers exclude each other and
    that no waiter is forgotten. *)
From S2P Require Import Prelude NsyncMu.

Module NsyncMuSpec.
Import NsyncMu(kind(..)).

(** The flags of the word. *)
Record flags := mk_flags { wlock : bool; spin : bool; wait : bool; desig : bool; writer_waiting : bool; long_wait : bool }.

(** What a thread is doing: it is outside, holds the lock, tries to get it
    ([desig]: it has been woken; [long]: it was woken many times), is about to
    join the queue, has joined it and holds the spinlock, looks at its flag,
    waits for its semaphore, chooses threads to wake, is about to give the
    spinlock back, or wakes the threads of a list. *)
Inductive role :=
  | ROut | RIn (k : kind) | RTry (k : kind) (desig long : bool)
  | REnqueue (k : kind) (long : bool) | RQueued (k : kind) (long : bool) | RCheck (k : kind) (long : bool) | RSleep (k : kind) (long : bool)
  | RScan | RFinish (wake : list nat) (kept writers : bool) | RWake (wake : list nat) | RSignal (p : nat) (wake : list nat).

Record lock := mk_lock { bits : flags; readers : nat; queue : list nat; roles : list role; waitings : list bool; sems : list Z }.

Definition with_role (a : lock) (t : nat) (b : flags) (readers : nat) (r : role) : lock :=
  mk_lock b readers (queue a) (<[t := r]> (roles a)) (waitings a) (sems a).

(** ** The flags after each change *)

Definition acquired (k : kind) (desig long : bool) (b : flags) : flags :=
  mk_flags (match k with Writer => true | Reader => wlock b end) (spin b) (wait b)
    (NsyncMuSpec.desig b && negb desig) (match k with Writer => false | Reader => writer_waiting b end) (long_wait b && negb long).

Definition enqueued (k : kind) (desig long : bool) (b : flags) : flags :=
  mk_flags (wlock b) true true (NsyncMuSpec.desig b && negb desig)
    (match k with Writer => true | Reader => writer_waiting b end) (long_wait b || long).

Definition released (k : kind) (b : flags) : flags :=
  mk_flags (match k with Writer => false | Reader => wlock b end) (spin b) (wait b) (desig b) (writer_waiting b) (long_wait b).

Definition grabbed (k : kind) (b : flags) : flags :=
  mk_flags (match k with Writer => false | Reader => wlock b end) true (wait b) true (writer_waiting b) (long_wait b).

Definition spin_released (b : flags) : flags := mk_flags (wlock b) false (wait b) (desig b) (writer_waiting b) (long_wait b).

Definition finished (woken kept writers : bool) (b : flags) : flags :=
  mk_flags (wlock b) false (wait b && kept) (desig b && woken) ((writer_waiting b || writers) && kept) (long_wait b).

Definition readers_acquired (k : kind) (n : nat) : nat := match k with Writer => n | Reader => S n end.
Definition readers_released (k : kind) (n : nat) : nat := match k with Writer => n | Reader => pred n end.

(** Who holds the lock keeps the thread out. *)
Definition excluded (k : kind) (a : lock) : Prop :=
  wlock (bits a) = true \/ (k = Writer /\ readers a <> 0%nat).

(** The thread has to stand back. *)
Definition yields (k : kind) (a : lock) : Prop :=
  long_wait (bits a) = true \/ (k = Reader /\ writer_waiting (bits a) = true).

Definition nonempty {A} (l : list A) : bool := match l with [] => false | _ => true end.

(** ** Steps of a thread *)

Inductive lock_step (a : lock) (t : nat) : lock -> Prop :=
  | do_acquire k : roles a !! t = Some ROut -> ~ excluded k a ->
      lock_step a t (with_role a t (acquired k false false (bits a)) (readers_acquired k (readers a)) (RIn k))
  | do_contend k : roles a !! t = Some ROut ->
      lock_step a t (with_role a t (bits a) (readers a) (RTry k false false))
  | do_acquire_slow k d l : roles a !! t = Some (RTry k d l) -> ~ excluded k a ->
      lock_step a t (with_role a t (acquired k d l (bits a)) (readers_acquired k (readers a)) (RIn k))
  | do_enqueue k d l : roles a !! t = Some (RTry k d l) -> spin (bits a) = false ->
      excluded k a \/ (d = false /\ yields k a) ->
      lock_step a t (with_role a t (enqueued k d l (bits a)) (readers a) (REnqueue k l))
  | do_join k l q : roles a !! t = Some (REnqueue k l) -> q = queue a ++ [t] \/ q = t :: queue a ->
      lock_step a t (mk_lock (bits a) (readers a) q (<[t := RQueued k l]> (roles a)) (<[t := true]> (waitings a)) (sems a))
  | do_joined k l : roles a !! t = Some (RQueued k l) ->
      lock_step a t (with_role a t (spin_released (bits a)) (readers a) (RCheck k l))
  | do_woken k l l' : roles a !! t = Some (RCheck k l) -> waitings a !! t = Some false -> (l = true -> l' = true) ->
      lock_step a t (with_role a t (bits a) (readers a) (RTry k true l'))
  | do_sleep k l : roles a !! t = Some (RCheck k l) -> waitings a !! t = Some true ->
      lock_step a t (with_role a t (bits a) (readers a) (RSleep k l))
  | do_semaphore k l n : roles a !! t = Some (RSleep k l) -> sems a !! t = Some n -> 0 < n ->
      lock_step a t (mk_lock (bits a) (readers a) (queue a) (<[t := RCheck k l]> (roles a)) (waitings a) (<[t := n - 1]> (sems a)))
  | do_release k : roles a !! t = Some (RIn k) ->
      wait (bits a) = false \/ desig (bits a) = true \/ (k = Reader /\ (1 < readers a)%nat) ->
      lock_step a t (with_role a t (released k (bits a)) (readers_released k (readers a)) ROut)
  | do_grab k : roles a !! t = Some (RIn k) -> wait (bits a) = true -> desig (bits a) = false -> spin (bits a) = false ->
      lock_step a t (with_role a t (grabbed k (bits a)) (readers_released k (readers a)) RScan)
  | do_scan wake kept writers : roles a !! t = Some RScan -> queue a ≡ₚ wake ++ kept ->
      (wake = [] -> kept = []) -> (writers = true -> kept <> []) ->
      lock_step a t (mk_lock (bits a) (readers a) kept (<[t := RFinish wake (nonempty kept) writers]> (roles a)) (waitings a) (sems a))
  | do_finish wake kept writers : roles a !! t = Some (RFinish wake kept writers) ->
      lock_step a t (with_role a t (finished (nonempty wake) kept writers (bits a)) (readers a) (RWake wake))
  | do_wake p wake : roles a !! t = Some (RWake (p :: wake)) ->
      lock_step a t (mk_lock (bits a) (readers a) (queue a) (<[t := RSignal p wake]> (roles a)) (<[p := false]> (waitings a)) (sems a))
  | do_signal p wake n : roles a !! t = Some (RSignal p wake) -> sems a !! p = Some n ->
      lock_step a t (mk_lock (bits a) (readers a) (queue a) (<[t := RWake wake]> (roles a)) (waitings a) (<[p := n + 1]> (sems a)))
  | do_done : roles a !! t = Some (RWake []) ->
      lock_step a t (with_role a t (bits a) (readers a) ROut).

Definition lock_start (n : nat) : lock :=
  mk_lock (mk_flags false false false false false false) 0 [] (replicate n ROut) (replicate n false) (replicate n 0).

(** ** The invariant *)

Definition is_reader (r : role) : bool := match r with RIn Reader => true | _ => false end.
Definition is_writer (r : role) : bool := match r with RIn Writer => true | _ => false end.
Definition has_spin (r : role) : bool :=
  match r with REnqueue _ _ | RQueued _ _ | RScan | RFinish _ _ _ => true | _ => false end.
Definition count (f : role -> bool) (l : list role) : nat := sum_list ((fun r => Nat.b2n (f r)) <$> l).

(** The threads a thread is going to wake. *)
Definition to_wake (r : role) : list nat :=
  match r with RFinish wake _ _ | RWake wake | RSignal _ wake => wake | _ => [] end.

(** The threads that somebody has to wake. *)
Definition asleep (a : lock) : list nat := queue a ++ flat_map to_wake (roles a).

(** A thread that will try to get the lock whatever other threads wait, or will wake one that does. *)
Definition active (r : role) (waiting : bool) : bool :=
  match r with
  | RTry _ true _ | RScan | RFinish _ _ _ | RWake (_ :: _) | RSignal _ (_ :: _) => true
  | RQueued _ _ | RCheck _ _ | RSleep _ _ => negb waiting
  | _ => false
  end.
Definition some_active (a : lock) : Prop :=
  exists t r w, roles a !! t = Some r /\ waitings a !! t = Some w /\ active r w = true.

(** A thread that was woken many times and is still in the slow path. *)
Definition was_long (r : role) : bool :=
  match r with RTry _ true true | REnqueue _ true | RQueued _ true | RCheck _ true | RSleep _ true => true | _ => false end.

Definition queued (r : role) : bool := match r with RQueued _ _ | RCheck _ _ | RSleep _ _ => true | _ => false end.

Definition is_free (a : lock) : Prop := wlock (bits a) = false /\ readers a = 0%nat.

(** Who holds what. *)
Record holders (a : lock) : Prop := {
  holders_readers : count is_reader (roles a) = readers a;
  holders_writer : count is_writer (roles a) = Nat.b2n (wlock (bits a));
  holders_exclude : wlock (bits a) = true -> readers a = 0%nat;
  holders_spin : count has_spin (roles a) = Nat.b2n (spin (bits a)) }.

(** Who waits. *)
Record waiters (a : lock) : Prop := {
  waiters_lengths : length (waitings a) = length (roles a) /\ length (sems a) = length (roles a);
  waiters_once : NoDup (asleep a);
  waiters_flag p : p ∈ asleep a <-> waitings a !! p = Some true;
  waiters_queued p r : roles a !! p = Some r -> waitings a !! p = Some true -> queued r = true;
  waiters_sems p n : sems a !! p = Some n -> 0 <= n;
  waiters_signal t p wake : roles a !! t = Some (RSignal p wake) -> (p < length (roles a))%nat;
  waiters_semaphore p k l : roles a !! p = Some (RSleep k l) -> waitings a !! p = Some false ->
    (exists n, sems a !! p = Some n /\ 0 < n) \/ (exists t wake, roles a !! t = Some (RSignal p wake)) }.

Definition some_role (f : role -> bool) (a : lock) : Prop := exists t r, roles a !! t = Some r /\ f r = true.

(** A thread that holds the spinlock and is not in the queue. *)
Definition busy (r : role) : bool := has_spin r && negb (queued r).

(** What the flags say of the queue. *)
Record flags_ok (a : lock) : Prop := {
  flags_wait : (queue a <> [] \/ writer_waiting (bits a) = true \/ some_role busy a) -> wait (bits a) = true;
  flags_finish t wake kept writers : roles a !! t = Some (RFinish wake kept writers) ->
    kept = nonempty (queue a) /\ (wake = [] -> queue a = []) /\ (writers = true -> queue a <> []);
  flags_desig : desig (bits a) = true -> some_active a;
  flags_free : is_free a -> wait (bits a) = true -> some_active a;
  flags_long : long_wait (bits a) = true -> some_role was_long a }.

(** ** Lists of roles *)

Lemma count_insert f l t r r' : l !! t = Some r -> (count f (<[t := r']> l) + Nat.b2n (f r) = count f l + Nat.b2n (f r'))%nat.
Proof.
  unfold count. revert t. induction l as [|x l IH]; intros [|t] H; simplify_eq/=; [lia|].
  specialize (IH t H). lia.
Qed.

Lemma count_member f l t r : l !! t = Some r -> (Nat.b2n (f r) <= count f l)%nat.
Proof. unfold count. revert t. induction l as [|x l IH]; intros [|t] H; simplify_eq/=; [lia|]. specialize (IH t H). lia. Qed.

Lemma count_two f l t t' r r' : t <> t' -> l !! t = Some r -> l !! t' = Some r' -> f r = true -> f r' = true -> (2 <= count f l)%nat.
Proof.
  unfold count. revert t t'. induction l as [|x l IH]; intros [|t] [|t'] Hne H H' Hr Hr'; simplify_eq/=.
  - pose proof (count_member f l t' r' H') as Hm. rewrite Hr' in Hm. rewrite Hr. unfold count in Hm. simpl in *. lia.
  - pose proof (count_member f l t r H) as Hm. rewrite Hr in Hm. rewrite Hr'. unfold count in Hm. simpl in *. lia.
  - specialize (IH t t' ltac:(congruence) H H' Hr Hr'). lia.
Qed.

Lemma count_replicate f n r : f r = false -> count f (replicate n r) = 0%nat.
Proof. intros H. unfold count. induction n; simpl; [done|]. by rewrite H. Qed.

Lemma count_le f l : (count f l <= length l)%nat.
Proof. induction l as [|x l IH]; [done|]. unfold count in *. cbn [fmap list_fmap sum_list foldr length]. simpl. destruct (f x); cbn [Nat.b2n]; lia. Qed.

Lemma count_lt f l t r : l !! t = Some r -> f r = false -> (count f l < length l)%nat.
Proof.
  unfold count. revert t. induction l as [|x l IH]; intros [|t] H Hr; simplify_eq/=.
  - rewrite Hr. pose proof (count_le f l) as Hl. unfold count in Hl. simpl. lia.
  - specialize (IH t H Hr). destruct (f x); simpl; lia.
Qed.

Lemma wakes_insert l t r r' : l !! t = Some r -> flat_map to_wake (<[t := r']> l) ++ to_wake r ≡ₚ flat_map to_wake l ++ to_wake r'.
Proof.
  revert t. induction l as [|x l IH]; intros [|t] H; simplify_eq/=.
  - solve_Permutation.
  - specialize (IH t H). rewrite <- !app_assoc. by rewrite IH.
Qed.

Lemma wakes_member l t r p : l !! t = Some r -> p ∈ to_wake r -> p ∈ flat_map to_wake l.
Proof. intros H Hp. apply list_elem_of_In, in_flat_map. exists r. split; apply list_elem_of_In; [by eapply list_elem_of_lookup_2|done]. Qed.

Lemma wakes_find l p : p ∈ flat_map to_wake l -> exists t r, l !! t = Some r /\ p ∈ to_wake r.
Proof.
  intros (r & Hr & Hp)%list_elem_of_In%in_flat_map. apply list_elem_of_In in Hr, Hp.
  apply list_elem_of_lookup_1 in Hr as [t Ht]. by exists t, r.
Qed.

(** ** Readers and writers *)

Ltac pose_counts Hr r' :=
  pose proof (count_insert is_reader _ _ _ r' Hr); pose proof (count_insert is_writer _ _ _ r' Hr);
  pose proof (count_insert has_spin _ _ _ r' Hr).

Lemma excluded_free k a : ~ excluded k a -> wlock (bits a) = false /\ (k = Writer -> readers a = 0%nat).
Proof. unfold excluded. destruct (wlock (bits a)); intros H; [tauto|]. split; [done|]. intros ->. destruct (readers a); [done|]. destruct H. by right. Qed.

Lemma holders_step a t a' : holders a -> lock_step a t a' -> holders a'.
Proof.
  intros [Hr Hw Hx Hs] Hstep. destruct Hstep;
    repeat match goal with H : ~ excluded _ _ |- _ => apply excluded_free in H as [? ?] end;
    match goal with
    | H : roles a !! t = Some _ |- holders (with_role _ _ _ _ ?r) => pose_counts H r
    | H : roles a !! t = Some _ |- holders (mk_lock _ _ _ (<[t := ?r]> _) _ _) => pose_counts H r
    end;
    destruct a as [[wl sp wt de ww lo] rd qu rs ws sm]; simpl in *; try destruct k; simpl in *; destruct wl, sp; simpl in *.
  all: try (exfalso; lia).
  all: constructor; simpl; intuition (try lia).
Qed.

(** ** The waiters *)

Lemma wakes_less l t r r' gone : l !! t = Some r -> to_wake r ≡ₚ gone ++ to_wake r' -> flat_map to_wake l ≡ₚ gone ++ flat_map to_wake (<[t := r']> l).
Proof.
  intros H Hr. pose proof (wakes_insert l t r r' H) as Hp. rewrite Hr in Hp. apply (Permutation_app_inv_r (to_wake r')).
  rewrite <- Hp. solve_Permutation.
Qed.

Lemma wakes_same l t r r' : l !! t = Some r -> to_wake r = to_wake r' -> flat_map to_wake (<[t := r']> l) ≡ₚ flat_map to_wake l.
Proof. intros H Hr. symmetry. apply (wakes_less l t r r' []); [done|by rewrite Hr]. Qed.

Lemma role_cases (l : list role) t r p r' : <[t := r]> l !! p = Some r' -> (p = t /\ r' = r) \/ (p <> t /\ l !! p = Some r').
Proof. intros [(-> & -> & _)|[Hne H]]%list_lookup_insert_Some; [by left|by right]. Qed.

(** A change of role that gets no one out of the lists. *)
Lemma waiters_keep a t b n q sm r r' :
  waiters a -> roles a !! t = Some r -> q ++ flat_map to_wake (<[t := r']> (roles a)) ≡ₚ asleep a ->
  (waitings a !! t = Some true -> queued r' = true) ->
  (forall p w, r' <> RSignal p w) ->
  (forall k l, r' = RSleep k l -> waitings a !! t = Some true) ->
  length sm = length (sems a) -> (forall p n, sm !! p = Some n -> 0 <= n) ->
  (forall p n, p <> t -> sems a !! p = Some n -> 0 < n -> exists n', sm !! p = Some n' /\ 0 < n') ->
  (forall p w, r = RSignal p w -> exists n, sm !! p = Some n /\ 0 < n) ->
  waiters (mk_lock b n q (<[t := r']> (roles a)) (waitings a) sm).
Proof.
  intros [Hlen Hnd Hflag Hq Hn Hsig Hsem] Hr Hp Hq' Hs Hsleep Hl Hsm Hup Hgone.
  constructor; simpl; [by rewrite !length_insert, Hl|..].
  - unfold asleep at 1. simpl. by rewrite Hp.
  - intros p. unfold asleep at 1. simpl. rewrite Hp. apply Hflag.
  - intros p x [[-> ->]|[Hne Hx]]%role_cases Hw; [by apply Hq'|by eapply Hq].
  - done.
  - intros t' p w [[-> <-]|[Hne Hx]]%role_cases; [by destruct (Hs p w)|]. rewrite length_insert. by eapply Hsig.
  - intros p k l [[-> <-]|[Hne Hx]]%role_cases Hw; [by rewrite (Hsleep k l) in Hw|].
    destruct (Hsem p k l Hx Hw) as [(m & Hm & Hpos)|(t' & w & Ht')]; [left; by eapply Hup|].
    destruct (decide (t' = t)) as [->|Hne']; [left; apply (Hgone p w); congruence|].
    right. exists t', w. by rewrite list_lookup_insert_ne.
Qed.

(** The same with no change of the queue, the lists and the semaphores. *)
Lemma waiters_role a t b n r r' :
  waiters a -> roles a !! t = Some r -> to_wake r = to_wake r' ->
  (waitings a !! t = Some true -> queued r' = true) ->
  (forall p w, r <> RSignal p w /\ r' <> RSignal p w) ->
  (forall k l, r' = RSleep k l -> waitings a !! t = Some true) ->
  waiters (with_role a t b n r').
Proof.
  intros H Hr Hw Hq Hs Hsleep. apply waiters_keep with (r := r); [done|done| |done| |done|done| | |].
  - unfold asleep. by rewrite (wakes_same _ t r r').
  - intros. apply Hs.
  - apply (waiters_sems a H).
  - eauto.
  - intros p w E. by destruct (Hs p w).
Qed.

(** The thread does not wait when it is not in the queue. *)
Lemma not_waiting a t r : waiters a -> roles a !! t = Some r -> queued r = false -> waitings a !! t = Some false.
Proof.
  intros H Hr Hf. destruct (waiters_lengths a H) as [Hl _].
  destruct (waitings a !! t) as [[]|] eqn:E; [|done|].
  - by rewrite (waiters_queued a H t r Hr E) in Hf.
  - apply lookup_ge_None_1 in E. apply lookup_lt_Some in Hr. lia.
Qed.

Lemma waiters_join a t k l q :
  waiters a -> roles a !! t = Some (REnqueue k l) -> q = queue a ++ [t] \/ q = t :: queue a ->
  waiters (mk_lock (bits a) (readers a) q (<[t := RQueued k l]> (roles a)) (<[t := true]> (waitings a)) (sems a)).
Proof.
  intros Hinv Hr Hqu. pose proof (not_waiting a t _ Hinv Hr eq_refl) as Ht. pose proof (lookup_lt_Some _ _ _ Ht) as Hlt.
  destruct Hinv as [Hlen Hnd Hflag Hq Hn Hsig Hsem].
  pose proof (wakes_same _ t _ (RQueued k l) Hr eq_refl) as Hp.
  assert (q ++ flat_map to_wake (<[t:=RQueued k l]> (roles a)) ≡ₚ t :: asleep a) as Hperm.
  { rewrite Hp. unfold asleep. destruct Hqu as [-> | ->]; solve_Permutation. }
  assert (t ∉ asleep a) as Hnot by (rewrite Hflag, Ht; congruence).
  constructor; simpl; [by rewrite !length_insert|..].
  - unfold asleep at 1. simpl. rewrite Hperm. by constructor.
  - intros p. unfold asleep at 1. simpl. rewrite Hperm, elem_of_cons, Hflag.
    destruct (decide (p = t)) as [->|Hne]; [rewrite list_lookup_insert_eq by done; tauto|]. rewrite list_lookup_insert_ne by done. tauto.
  - intros p x [[-> ->]|[Hne Hx]]%role_cases Hw; [done|]. rewrite list_lookup_insert_ne in Hw by done. by eapply Hq.
  - done.
  - intros t' p w [[-> ?]|[Hne Hx]]%role_cases; [done|]. rewrite length_insert. by eapply Hsig.
  - intros p k' l' [[-> ?]|[Hne Hx]]%role_cases Hw; [done|]. rewrite list_lookup_insert_ne in Hw by done.
    destruct (Hsem p k' l' Hx Hw) as [?|(t' & w & Ht')]; [by left|]. right. exists t', w.
    rewrite list_lookup_insert_ne; [done|]. intros ->. by rewrite Hr in Ht'.
Qed.

Lemma waiters_wake a t p wake :
  waiters a -> roles a !! t = Some (RWake (p :: wake)) ->
  waiters (mk_lock (bits a) (readers a) (queue a) (<[t := RSignal p wake]> (roles a)) (<[p := false]> (waitings a)) (sems a)).
Proof.
  intros Hinv Hr. pose proof (lookup_lt_Some _ _ _ Hr) as Hltt.
  destruct Hinv as [Hlen Hnd Hflag Hq Hn Hsig Hsem].
  assert (asleep a ≡ₚ p :: queue a ++ flat_map to_wake (<[t:=RSignal p wake]> (roles a))) as Hperm.
  { unfold asleep. rewrite (wakes_less _ t _ (RSignal p wake) [p] Hr) by done. simpl. solve_Permutation. }
  assert (waitings a !! p = Some true) as Hpt by (apply Hflag; rewrite Hperm; left).
  pose proof (lookup_lt_Some _ _ _ Hpt) as Hltp.
  rewrite Hperm in Hnd. apply NoDup_cons in Hnd as [Hnot Hnd].
  constructor; simpl; [by rewrite !length_insert|..].
  - done.
  - intros p'. unfold asleep at 1. simpl. destruct (decide (p' = p)) as [->|Hne].
    + rewrite list_lookup_insert_eq by done. split; [done|congruence].
    + rewrite list_lookup_insert_ne by done. rewrite <- Hflag, Hperm, elem_of_cons. tauto.
  - intros p' x [[-> ->]|[Hne Hx]]%role_cases Hw.
    + destruct (decide (p = t)) as [->|Hne]; [by rewrite list_lookup_insert_eq in Hw|]. rewrite list_lookup_insert_ne in Hw by done. by apply (Hq _ _ Hr).
    + destruct (decide (p = p')) as [->|Hne']; [by rewrite list_lookup_insert_eq in Hw|]. rewrite list_lookup_insert_ne in Hw by done. by eapply Hq.
  - done.
  - intros t' p' w [[-> ?]|[Hne Hx]]%role_cases; simplify_eq; rewrite length_insert; [lia|by eapply Hsig].
  - intros p' k l [[-> ?]|[Hne Hx]]%role_cases Hw; [done|]. destruct (decide (p = p')) as [->|Hne'].
    { right. exists t, wake. by apply list_lookup_insert_eq. }
    rewrite list_lookup_insert_ne in Hw by done. destruct (Hsem p' k l Hx Hw) as [?|(t' & w & Ht')]; [by left|]. right. exists t', w.
    rewrite list_lookup_insert_ne; [done|]. intros ->. by rewrite Hr in Ht'.
Qed.

Lemma waiters_step a t a' : waiters a -> lock_step a t a' -> waiters a'.
Proof.
  intros H Hstep.
  assert (forall r, roles a !! t = Some r -> queued r = false -> waitings a !! t = Some true -> False) as Hno
    by (intros r Hr Hf Ht; rewrite (not_waiting a t r H Hr Hf) in Ht; congruence).
  destruct Hstep as [k Hr _|k Hr|k d l Hr _|k d l Hr _ _|k l q Hr Hq|k l Hr|k l l' Hr Hw _|k l Hr Hw|k l n Hr Hn Hpos|k Hr _|k Hr _ _ _|wake kept ws Hr Hp _ _|wake kept ws Hr|p wake Hr|p wake n Hr Hn|Hr].
  5: by apply waiters_join.
  13: by apply waiters_wake.
  all: try by (eapply waiters_role; [done|exact Hr|done|intros E; by destruct (Hno _ Hr eq_refl E)|done|done]).
  - by eapply waiters_role; [done|exact Hr|..].
  - eapply waiters_role; [done|exact Hr|done|congruence|done|done].
  - by eapply waiters_role; [done|exact Hr|..].
  - eapply waiters_keep; [done|exact Hr|..]; try done; [by unfold asleep; rewrite (wakes_same _ t _ _ Hr)|by rewrite length_insert|..].
    + intros p m [(_ & <- & _)|[_ Hm]]%list_lookup_insert_Some; [lia|by eapply (waiters_sems a H)].
    + intros p m Hne Hm Hm'. exists m. by rewrite list_lookup_insert_ne.
  - eapply waiters_keep; [done|exact Hr|..]; try done; [|intros E; by destruct (Hno _ Hr eq_refl E)|by apply waiters_sems|eauto].
    unfold asleep. rewrite Hp. pose proof (wakes_insert _ t _ (RFinish wake (nonempty kept) ws) Hr) as Hw. simpl in Hw. rewrite app_nil_r in Hw.
    rewrite Hw. solve_Permutation.
  - assert (0 <= n) as Hn0 by by eapply (waiters_sems a H).
    eapply waiters_keep; [done|exact Hr|..]; try done; [by unfold asleep; rewrite (wakes_same _ t _ _ Hr)|intros E; by destruct (Hno _ Hr eq_refl E)|by rewrite length_insert|..].
    + intros p' m [(_ & <- & _)|[_ Hm]]%list_lookup_insert_Some; [lia|by eapply (waiters_sems a H)].
    + intros p' m _ Hm Hm'. destruct (decide (p = p')) as [->|Hne]; [|exists m; by rewrite list_lookup_insert_ne].
      exists (n + 1). split; [apply list_lookup_insert_eq; by eapply lookup_lt_Some|lia].
    + intros p' w E. simplify_eq. exists (n + 1). split; [apply list_lookup_insert_eq; by eapply lookup_lt_Some|lia].
Qed.

(** ** The flags *)

(** Roles that stay when one changes. *)
Lemma some_role_keep f a a' t r r' :
  some_role f a -> roles a !! t = Some r -> roles a' = <[t := r']> (roles a) -> (f r = true -> f r' = true) -> some_role f a'.
Proof.
  intros (t0 & r0 & H0 & Hf) Hr E Hi. unfold some_role. rewrite E. destruct (decide (t0 = t)) as [->|Hne].
  - exists t, r'. split; [apply list_lookup_insert_eq; by eapply lookup_lt_Some|]. apply Hi. congruence.
  - exists t0, r0. by rewrite list_lookup_insert_ne.
Qed.

Lemma some_role_back f a a' t r r' :
  some_role f a' -> roles a !! t = Some r -> roles a' = <[t := r']> (roles a) -> (f r' = true -> f r = true) -> some_role f a.
Proof.
  intros (t0 & r0 & H0 & Hf) Hr E Hi. rewrite E in H0. apply role_cases in H0 as [[-> ->]|[Hne H0]]; [exists t, r; auto|by exists t0, r0].
Qed.

Lemma active_keep a a' t r r' :
  some_active a -> roles a !! t = Some r -> roles a' = <[t := r']> (roles a) -> waitings a' = waitings a ->
  (forall w, waitings a !! t = Some w -> active r w = true -> active r' w = true) -> some_active a'.
Proof.
  intros (t0 & r0 & w & H0 & Hw & Hf) Hr E Ew Hi. unfold some_active. rewrite E, Ew. destruct (decide (t0 = t)) as [->|Hne].
  - exists t, r', w. split_and!; [apply list_lookup_insert_eq; by eapply lookup_lt_Some|done|]. apply Hi; congruence.
  - exists t0, r0, w. by rewrite list_lookup_insert_ne.
Qed.

Lemma active_self a a' t r r' :
  waiters a -> roles a !! t = Some r -> roles a' = <[t := r']> (roles a) -> waitings a' = waitings a -> (forall w, active r' w = true) -> some_active a'.
Proof.
  intros [[Hl _] _ _ _ _ _ _] Hr E Ew Ha. pose proof (lookup_lt_Some _ _ _ Hr) as Hlt.
  destruct (lookup_lt_is_Some_2 (waitings a) t) as [w Hw]; [lia|].
  exists t, r', w. rewrite E, Ew. split_and!; [by apply list_lookup_insert_eq|done|done].
Qed.

(** Only one thread holds the spinlock. *)
Lemma spin_unique a t t' r r' :
  holders a -> roles a !! t = Some r -> roles a !! t' = Some r' -> has_spin r = true -> has_spin r' = true -> t' = t.
Proof.
  intros H Hr Hr' Hs Hs'. destruct (decide (t' = t)) as [|Hne]; [done|].
  pose proof (count_two has_spin (roles a) t' t r' r Hne Hr' Hr Hs' Hs) as Hc. rewrite (holders_spin a H) in Hc.
  destruct (spin (bits a)); simpl in Hc; lia.
Qed.

Lemma spin_nobody a t r : holders a -> roles a !! t = Some r -> spin (bits a) = false -> has_spin r = false.
Proof.
  intros H Hr Hs. pose proof (count_member has_spin (roles a) t r Hr) as Hc. rewrite (holders_spin a H), Hs in Hc.
  destruct (has_spin r); simpl in Hc; [lia|done].
Qed.

(** A sleeping thread has somebody to wake it. *)
Lemma waiting_covered a p : waiters a -> waitings a !! p = Some true -> p ∈ queue a \/ some_active a.
Proof.
  intros H Hp. apply (waiters_flag a H) in Hp. unfold asleep in Hp. apply elem_of_app in Hp as [Hp|Hp]; [by left|right].
  apply wakes_find in Hp as (t & r & Hr & Hp). pose proof (lookup_lt_Some _ _ _ Hr) as Hlt.
  destruct (lookup_lt_is_Some_2 (waitings a) t) as [w Hw]; [rewrite (proj1 (waiters_lengths a H)); lia|].
  exists t, r, w. split_and!; [done|done|]. destruct r as [| | | | | | | |l kept ws|l|p' l]; simpl in Hp; try by apply not_elem_of_nil in Hp.
  - done.
  - destruct l; [by apply not_elem_of_nil in Hp|done].
  - destruct l; [by apply not_elem_of_nil in Hp|done].
Qed.

(** The thread that set the long wait bit waits or is active. *)
Lemma long_active a :
  holders a -> waiters a -> flags_ok a -> long_wait (bits a) = true -> spin (bits a) = false -> wait (bits a) = true \/ some_active a.
Proof.
  intros Hh Hw Hf Hl Hs. destruct (flags_long a Hf Hl) as (t & r & Hr & Hlong). pose proof (spin_nobody a t r Hh Hr Hs) as Hn.
  pose proof (lookup_lt_Some _ _ _ Hr) as Hlt.
  destruct (lookup_lt_is_Some_2 (waitings a) t) as [w Hwt]; [rewrite (proj1 (waiters_lengths a Hw)); lia|].
  destruct (active r w) eqn:E; [right; by exists t, r, w|].
  assert (w = true) as -> by (destruct r as [| |k [] []| | | | | | | |], w; simplify_eq/=; done).
  destruct (waiting_covered a t Hw Hwt) as [Hq|]; [left|by right]. apply (flags_wait a Hf). left. intros E'. by rewrite E' in Hq; apply not_elem_of_nil in Hq.
Qed.

Section Flags.
Context (a a' : lock) (t : nat) (Hh : holders a) (Hw : waiters a) (Hf : flags_ok a) (Hstep : lock_step a t a').

(** The threads that are at other places than [t] hold no spinlock. *)
Ltac keep_role f := eapply (some_role_keep f a); [|eassumption|reflexivity|simpl].
Ltac back_role f := eapply (some_role_back f a); [eassumption|eassumption|reflexivity|simpl].

Lemma flags_wait_step : queue a' <> [] \/ writer_waiting (bits a') = true \/ some_role busy a' -> wait (bits a') = true.
Proof using Hf Hh Hstep.
  assert (forall t' r, roles a !! t' = Some r -> busy r = true -> wait (bits a) = true) as Hbusy
    by (intros t' r Hr Hb; apply (flags_wait a Hf); right; right; by exists t', r).
  destruct Hstep as [k Hr _|k Hr|k d l Hr _|k d l Hr _ _|k l q Hr Hq|k l Hr|k l l' Hr _ _|k l Hr _|k l n Hr _ _|k Hr _|k Hr Hwt _ _|wake kept ws Hr _ _ _|wake kept ws Hr|p wake Hr|p wake n Hr _|Hr]; simpl; try done.
  4: intros _; by apply (Hbusy t _ Hr).
  9: intros _; by apply (Hbusy t _ Hr).
  9: { destruct (flags_finish a Hf t wake kept ws Hr) as [-> _]. intros H. rewrite (Hbusy t _ Hr) by done. destruct (queue a) eqn:E; simpl in *; [|done]. rewrite andb_false_r in H.
    destruct H as [?|[?|(t' & r & Hr' & Hb)]]; [done..|]. apply role_cases in Hr' as [[-> ->]|[Hne Hr']]; [done|].
    destruct Hne. eapply spin_unique; try done. unfold busy in Hb. by destruct (has_spin r). }
  all: intros H; apply (flags_wait a Hf); destruct H as [?|[?|?]]; [by left|right; left|right; right; back_role busy; done].
  all: try done; by destruct k.
Qed.

Lemma flags_finish_step t' wake kept writers :
  roles a' !! t' = Some (RFinish wake kept writers) -> kept = nonempty (queue a') /\ (wake = [] -> queue a' = []) /\ (writers = true -> queue a' <> []).
Proof using Hf Hh Hstep.
  intros H. assert (forall r, roles a !! t = Some r -> has_spin r = true -> t' <> t -> roles a !! t' <> Some (RFinish wake kept writers)) as Hu.
  { intros r Hr Hs Hne Hr'. apply Hne. by eapply spin_unique. }
  destruct Hstep; simpl in *; apply role_cases in H as [[-> ?]|[Hne H]]; simplify_eq; try by eapply (flags_finish a Hf).
  - by edestruct Hu.
  - auto.
  - by edestruct Hu.
Qed.

(** What is active stays so, but for a woken thread that gets the lock or sleeps
    again and for a thread that wakes nobody. *)
Lemma active_step :
  some_active a -> (forall k l, roles a !! t <> Some (RTry k true l)) -> (forall kept ws, roles a !! t <> Some (RFinish [] kept ws)) -> some_active a'.
Proof using Hw Hstep.
  intros Ha Htry Hfin.
  destruct Hstep as [k Hr _|k Hr|k [] l Hr _|k [] l Hr _ _|k l q Hr Hq|k l Hr|k l l' Hr _ _|k l Hr _|k l n Hr _ _|k Hr _|k Hr _ _ _|wake kept ws Hr _ _ _|[|p wake] kept ws Hr|p wake Hr|p wake n Hr _|Hr];
    try by edestruct Htry. all: try by edestruct Hfin. all: try by (eapply (active_keep a); [done|exact Hr|reflexivity|reflexivity|done]).
  - destruct Ha as (t0 & r0 & w & H0 & Hw0 & Ha). exists t0, r0, w. simpl. assert (t0 <> t) by (intros ->; by rewrite Hr in H0; simplify_eq).
    by rewrite !list_lookup_insert_ne.
  - assert (waitings a !! p = Some true) as Hp.
    { apply (waiters_flag a Hw), elem_of_app. right. eapply wakes_member; [exact Hr|]. simpl. left. }
    pose proof (proj1 (waiters_lengths a Hw)) as Hl. pose proof (lookup_lt_Some _ _ _ Hp) as Hlt.
    destruct (lookup_lt_is_Some_2 (roles a) p) as [r Hrp]; [lia|]. pose proof (waiters_queued a Hw p r Hrp Hp) as Hq.
    exists p, r, false. simpl. rewrite list_lookup_insert_ne by (intros ->; by rewrite Hr in Hrp; simplify_eq).
    rewrite list_lookup_insert_eq by done. by destruct r.
Qed.

Lemma flags_desig_step : desig (bits a') = true -> some_active a'.
Proof using Hf Hw Hstep.
  intros H. destruct (desig (bits a)) eqn:Hd.
  - apply active_step; [by apply flags_desig|intros k l Hr|intros kept ws Hr]; inversion Hstep; subst; simplify_eq/=; rewrite ?andb_false_r in H; done.
  - inversion Hstep; subst; simplify_eq/=; try (by rewrite Hd in H). eapply active_self; [done|eassumption|done..].
Qed.

Lemma acquired_held k : ~ (match k with Writer => true | Reader => wlock (bits a) end = false /\ readers_acquired k (readers a) = 0%nat).
Proof using. destruct k; intros [? ?]; done. Qed.

Lemma flags_free_before : is_free a' -> wait (bits a') = true -> some_active a \/ some_active a'.
Proof using Hf Hw Hh Hstep.
  intros Hfree H. unfold is_free in Hfree.
  inversion Hstep; subst; simpl in *; try by (left; apply (flags_free a Hf)).
  - by destruct (acquired_held k).
  - by destruct (acquired_held k).
  - left. destruct Hfree as [Hl Hr]. destruct H2 as [[He|[_ He]]|[-> [Hy|[_ Hy]]]]; [congruence|done| |].
    + destruct (long_active a) as [Hwt|]; try done. by apply (flags_free a Hf).
    + apply (flags_free a Hf); [done|]. apply (flags_wait a Hf). by right; left.
  - left. destruct H1 as [?|[?|[-> Hlt]]]; [congruence|by apply (flags_desig a Hf)|simpl in *; lia].
  - right. eapply active_self; [done|eassumption|done..].
  - left. apply (flags_free a Hf); [done|]. by destruct (NsyncMuSpec.wait (bits a)).
Qed.

Lemma flags_free_step : is_free a' -> wait (bits a') = true -> some_active a'.
Proof using Hf Hw Hh Hstep.
  intros Hfree H. destruct (flags_free_before Hfree H) as [Ha|]; [|done].
  apply active_step; [done|intros k l Hr|intros kept ws Hr].
  - inversion Hstep; subst; simplify_eq/=; [by destruct (acquired_held k)|]. destruct Hfree as [Hl Hr'].
    destruct H2 as [[He|[_ He]]|[? _]]; simpl in *; congruence.
  - inversion Hstep; subst; simplify_eq/=. destruct (flags_finish a Hf t [] kept ws Hr) as (-> & Hq & _). rewrite (Hq eq_refl), andb_false_r in H. done.
Qed.

Lemma flags_long_step : long_wait (bits a') = true -> some_role was_long a'.
Proof using Hf Hstep.
  intros H. destruct (long_wait (bits a)) eqn:Hd.
  - apply (flags_long a Hf) in Hd. destruct Hstep; simpl in *; (eapply (some_role_keep was_long a); [exact Hd|eassumption|reflexivity|]); simpl; try done.
    + destruct l; [by rewrite andb_false_r in H|by destruct d].
    + by destruct d, l.
    + destruct l; [|done]. by rewrite H2.
  - inversion Hstep; subst; simpl in *; try congruence; try by rewrite Hd in H.
    rewrite Hd in H. simpl in H. subst l. exists t, (REnqueue k true). split; [|done]. apply list_lookup_insert_eq. by eapply lookup_lt_Some.
Qed.

Lemma flags_step : flags_ok a'.
Proof using Hf Hw Hh Hstep.
  constructor; [apply flags_wait_step|apply flags_finish_step|apply flags_desig_step|apply flags_free_step|apply flags_long_step].
Qed.
End Flags.

(** ** All of it *)

Record lock_inv (a : lock) : Prop := { inv_holders : holders a; inv_waiters : waiters a; inv_flags : flags_ok a }.

Lemma lock_step_inv a t a' : lock_inv a -> lock_step a t a' -> lock_inv a'.
Proof. intros [Hh Hw Hf] H. constructor; [by eapply holders_step|by eapply waiters_step|by eapply flags_step]. Qed.

Lemma lock_start_inv n : lock_inv (lock_start n).
Proof.
  assert (forall t r, replicate n ROut !! t = Some r -> r = ROut) as Hout by (intros t r Hr; by apply lookup_replicate in Hr as [-> _]).
  assert (forall t r, replicate n false !! t = Some r -> r = false) as Hno by (intros t r Hr; by apply lookup_replicate in Hr as [-> _]).
  assert (flat_map to_wake (replicate n ROut) = []) as Hw by (clear; by induction n).
  constructor; constructor; simpl; try done.
  all: try by apply count_replicate.
  - by rewrite !length_replicate.
  - unfold asleep. simpl. rewrite Hw. constructor.
  - intros p. unfold asleep. simpl. rewrite Hw. split; [intros H; by apply not_elem_of_nil in H|intros H; by apply Hno in H].
  - intros p r _ H. by apply Hno in H.
  - intros p m [-> _]%lookup_replicate. done.
  - intros t p wake H. by apply Hout in H.
  - intros p k l H. by apply Hout in H.
  - intros [?|[?|(t & r & H & Hb)]]; [done..|]. simpl in H. apply Hout in H. by subst.
  - intros t wake kept ws H. by apply Hout in H.
Qed.
End NsyncMuSpec.
