(* ===== verification/NsyncMuRefine.v ===== *)
(** * The mutex of nsync does what it promises

    The steps of the code ([NsyncMu]) are steps of the abstract lock
    ([NsyncMuSpec]): the word stands for the flags and the number of readers,
    a point in the code for a role. *)
From S2P Require Import Prelude NsyncMu NsyncMuSpec.

Module NsyncMuRefine.
Import NsyncMu.
Module S := NsyncMuSpec.
Import NsyncMuSpec(flags, mk_flags, wlock, spin, wait, desig, writer_waiting, long_wait, role(..), lock, mk_lock, bits, readers, queue, roles, waitings, sems).

(** ** Words *)

Definition low (b : flags) : Z :=
  Z.b2z (wlock b) + 2 * Z.b2z (spin b) + 4 * Z.b2z (wait b) + 8 * Z.b2z (desig b) + 32 * Z.b2z (writer_waiting b) + 64 * Z.b2z (long_wait b).

(** The word of flags and a number of readers. *)
Definition encode (b : flags) (readers : nat) : Z := low b + 256 * Z.of_nat readers.

Lemma low_bound b : in_u 8 (low b).
Proof. destruct b as [[] [] [] [] [] []]; vm_compute; done. Qed.

Lemma land_split a b m : in_u 8 a -> 0 <= b -> Z.land (a + 256 * b) m = Z.land a (m mod 256) + 256 * Z.land b (m / 256).
Proof.
  intros Ha Hb. change 256 with (2 ^ 8). destruct (disjoint_add 8 a b Ha) as [_ ->].
  destruct (disjoint_add 8 (Z.land a (m mod 2 ^ 8)) (Z.land b (m / 2 ^ 8)) (in_u_land _ _ _ Ha)) as [_ ->].
  rewrite <- Z.shiftr_div_pow2 by done. zbits i. rewrite bool_decide_true by done.
  destruct (decide (i < 8)) as [Hi|Hi].
  - rewrite Z.mod_pow2_bits_low, (Z.testbit_neg_r b (i - 8)) by lia. simpl. by rewrite !orb_false_r.
  - rewrite (in_u_testbit 8 a i Ha) by lia. rewrite bool_decide_true by lia. simpl. by replace (i - 8 + 8) with i by lia.
Qed.

Lemma lor_split a b m : in_u 8 a -> in_u 8 m -> Z.lor (a + 256 * b) m = Z.lor a m + 256 * b.
Proof.
  intros Ha Hm. change 256 with (2 ^ 8). destruct (disjoint_add 8 a b Ha) as [_ ->].
  destruct (disjoint_add 8 (Z.lor a m) b (in_u_lor _ _ _ Ha Hm)) as [_ ->].
  rewrite <- !Z.lor_assoc. f_equal. apply Z.lor_comm.
Qed.

Lemma lxor_split a b m : in_u 8 a -> in_u 8 m -> Z.lxor (a + 256 * b) m = Z.lxor a m + 256 * b.
Proof.
  intros Ha Hm. change 256 with (2 ^ 8). destruct (disjoint_add 8 a b Ha) as [-> _].
  destruct (disjoint_add 8 (Z.lxor a m) b (in_u_lxor _ _ _ Ha Hm)) as [-> _].
  rewrite !Z.lxor_assoc. f_equal. apply Z.lxor_comm.
Qed.

Lemma land_readers r : 0 <= r < 2 ^ 24 -> Z.land r (2 ^ 24 - 1) = r.
Proof. intros H. change (2 ^ 24 - 1) with (Z.ones 24). rewrite Z.land_ones by done. by apply Z.mod_small. Qed.

Definition few (r : nat) : Prop := Z.of_nat r < 2 ^ 24.

Lemma encode_bound b r : few r -> 0 <= encode b r < 2 ^ 32.
Proof. intros H. pose proof (low_bound b) as Hb. unfold encode, few, in_u in *. lia. Qed.

Lemma andnot_split a b m : in_u 8 a -> 0 <= b < 2 ^ 24 -> in_u 8 m -> andnot (a + 256 * b) m = Z.land a (255 - m) + 256 * b.
Proof.
  intros Ha Hb Hm. unfold andnot. rewrite land_split by (done || lia). unfold in_u in Hm.
  assert (u32 (Z.lnot m) = 255 - m + 256 * (2 ^ 24 - 1)) as ->.
  { unfold wrap, Z.lnot. rewrite <- (Z.mod_unique (Z.pred (- m)) (2 ^ 32) (-1) (255 - m + 256 * (2 ^ 24 - 1))); [done|left; lia|lia]. }
  rewrite <- (Z.mod_unique (255 - m + 256 * (2 ^ 24 - 1)) 256 (2 ^ 24 - 1) (255 - m)) by lia.
  rewrite <- (Z.div_unique (255 - m + 256 * (2 ^ 24 - 1)) 256 (2 ^ 24 - 1) (255 - m)) by lia.
  by rewrite land_readers.
Qed.

(** *** Tests *)

Lemma land_low b r m : few r -> in_u 8 m -> Z.land (encode b r) m = Z.land (low b) m.
Proof.
  intros Hr Hm. unfold in_u in Hm. unfold encode. rewrite land_split by (apply low_bound || lia).
  rewrite Z.mod_small, Z.div_small, Z.land_0_r by lia. lia.
Qed.

Lemma land_field b r m : few r -> in_u 8 m -> Z.land (encode b r) (m + MU_RLOCK_FIELD) = Z.land (low b) m + 256 * Z.of_nat r.
Proof.
  intros Hr Hm. unfold in_u in Hm. unfold few in Hr. unfold encode. rewrite land_split by (apply low_bound || lia).
  change MU_RLOCK_FIELD with (256 * (2 ^ 24 - 1)).
  rewrite <- (Z.mod_unique (m + 256 * (2 ^ 24 - 1)) 256 (2 ^ 24 - 1) m) by lia.
  rewrite <- (Z.div_unique (m + 256 * (2 ^ 24 - 1)) 256 (2 ^ 24 - 1) m) by lia.
  by rewrite land_readers by lia.
Qed.

Lemma eqb_shift a (r : nat) : 0 <= a -> (a + 256 * Z.of_nat r =? 0) = (a =? 0) && (r =? 0)%nat.
Proof. intros H. destruct (Z.eqb_spec (a + 256 * Z.of_nat r) 0), (Z.eqb_spec a 0), (Nat.eqb_spec r 0); done || lia. Qed.

Lemma land_field_zero b r m :
  few r -> in_u 8 m -> (Z.land (encode b r) (m + MU_RLOCK_FIELD) =? 0) = (Z.land (low b) m =? 0) && (r =? 0)%nat.
Proof. intros Hr Hm. rewrite land_field, eqb_shift by (done || (apply Z.land_nonneg; right; apply Hm)). done. Qed.

Ltac by_flags b := destruct b as [[] [] [] [] [] []]; vm_compute; reflexivity.

Definition zero_mask (desig : bool) (k : kind) : Z :=
  if desig then andnot (zero_to_acquire (type_of k)) (Z.lor MU_WRITER_WAITING MU_LONG_WAIT) else zero_to_acquire (type_of k).

(** Whether the thread can not get the lock. *)
Definition blocked (desig : bool) (k : kind) (b : flags) (r : nat) : bool :=
  wlock b || (match k with Writer => negb (r =? 0)%nat | Reader => false end) ||
  (negb desig && (long_wait b || match k with Writer => false | Reader => writer_waiting b end)).

Lemma zero_mask_encode d k b r : few r -> (Z.land (encode b r) (zero_mask d k) =? 0) = negb (blocked d k b r).
Proof.
  intros Hr. destruct k.
  - replace (zero_mask d Writer) with ((if d then 1 else 65) + MU_RLOCK_FIELD) by (destruct d; done).
    rewrite land_field_zero by (done || by destruct d). unfold blocked. destruct (r =? 0)%nat, d; by_flags b.
  - replace (zero_mask d Reader) with (if d then 1 else 97) by (destruct d; done).
    rewrite land_low by (done || by destruct d). destruct d; by_flags b.
Qed.

Lemma spinlock_encode b r : few r -> (Z.land (encode b r) MU_SPINLOCK =? 0) = negb (spin b).
Proof. intros. rewrite land_low by done. by_flags b. Qed.

Lemma condition_encode b r : few r -> (Z.land (encode b r) MU_CONDITION =? 0) = true.
Proof. intros. rewrite land_low by done. by_flags b. Qed.

Lemma all_false_unset b : Z.land (low b) MU_ALL_FALSE = 0.
Proof. by_flags b. Qed.

Lemma nobody_to_wake_encode b r : few r -> nobody_to_wake (encode b r) = negb (wait b) || desig b || (1 <? r)%nat.
Proof.
  intros Hr. unfold nobody_to_wake. rewrite (land_low b r MU_WAITING), (land_low b r MU_DESIG_WAKER) by done.
  change MU_RLOCK_FIELD with (0 + MU_RLOCK_FIELD) at 1. rewrite land_field by done.
  assert (Z.land (encode b r) (Z.lor MU_RLOCK MU_ALL_FALSE) =? Z.lor MU_RLOCK MU_ALL_FALSE = false) as ->.
  { apply Z.eqb_neq. unfold encode. rewrite land_split by (apply low_bound || lia).
    change (Z.lor MU_RLOCK MU_ALL_FALSE mod 256) with MU_ALL_FALSE. rewrite all_false_unset. change (Z.lor MU_RLOCK MU_ALL_FALSE) with 384. lia. }
  rewrite orb_false_r. assert ((MU_RLOCK <? Z.land (low b) 0 + 256 * Z.of_nat r) = (1 <? r)%nat) as ->.
  { rewrite Z.land_0_r. change MU_RLOCK with 256. destruct (Nat.ltb_spec 1 r), (Z.ltb_spec 256 (0 + 256 * Z.of_nat r)); done || lia. }
  f_equal. by_flags b.
Qed.

Lemma unlock_wakes_encode k b r :
  few r -> unlock_wakes k (encode b r) = wait b && negb (desig b) && match k with Writer => true | Reader => (r =? 1)%nat end.
Proof.
  intros Hr. unfold unlock_wakes. rewrite (land_low b r (Z.lor MU_WAITING MU_DESIG_WAKER)) by done. f_equal; [by_flags b|].
  destruct k; [done|]. change (Z.lor MU_RLOCK_FIELD MU_ALL_FALSE) with (MU_ALL_FALSE + MU_RLOCK_FIELD).
  rewrite land_field, all_false_unset by done. change MU_RLOCK with 256.
  destruct (Nat.eqb_spec r 1), (Z.eqb_spec (0 + 256 * Z.of_nat r) 256); done || lia.
Qed.

(** *** Changes *)

Lemma encode_change b' l r r' m :
  few r' -> in_u 8 l -> in_u 8 m -> Z.land l (255 - m) = low b' -> Z.of_nat r' = r -> andnot (l + 256 * r) m = encode b' r'.
Proof. unfold few. intros Hr Hl Hm Hb <-. rewrite andnot_split by (done || lia). by rewrite Hb. Qed.

Definition desig_bit (d : bool) : Z := if d then MU_DESIG_WAKER else 0.
Definition long_bit (l : bool) : Z := if l then MU_LONG_WAIT else 0.

Lemma acquire_encode k d l b r :
  few (S.readers_acquired k r) -> (k = Writer -> wlock b = false) ->
  andnot (u32 (encode b r + add_to_acquire (type_of k))) (Z.lor (Z.lor (desig_bit d) (long_bit l)) (clear_on_acquire (type_of k))) =
  encode (S.acquired k d l b) (S.readers_acquired k r).
Proof.
  intros Hr Hfree. pose proof (low_bound b) as Hb. unfold few, in_u in *. destruct k; simpl in *.
  - assert (low b <= 254) as Hlow by (specialize (Hfree eq_refl); destruct b as [[] [] [] [] [] []]; done).
    unfold encode at 1. change MU_WLOCK with 1. unfold wrap. rewrite Z.mod_small by lia.
    replace (low b + 256 * Z.of_nat r + 1) with ((low b + 1) + 256 * Z.of_nat r) by lia.
    apply encode_change; [done|unfold in_u; lia|by destruct d, l| |done].
    specialize (Hfree eq_refl). destruct b as [[] [] [] [] [] []]; simpl in Hfree; try done; destruct d, l; vm_compute; reflexivity.
  - unfold encode at 1. change MU_RLOCK with 256. unfold wrap. rewrite Z.mod_small by lia.
    replace (low b + 256 * Z.of_nat r + 256) with (low b + 256 * Z.of_nat (S r)) by lia.
    apply encode_change; [done|done|by destruct d, l| |done]. destruct d, l; by_flags b.
Qed.

Lemma enqueue_encode k d l b r :
  few r ->
  andnot (Z.lor (Z.lor (Z.lor (encode b r) MU_SPINLOCK) (long_bit l)) (set_when_waiting (type_of k))) (Z.lor (desig_bit d) MU_ALL_FALSE) =
  encode (S.enqueued k d l b) r.
Proof.
  intros Hr. pose proof (low_bound b) as Hb. unfold encode at 1.
  rewrite !lor_split by (repeat apply in_u_lor; done || by destruct l, k).
  apply encode_change; [done|repeat apply in_u_lor; done || by destruct l, k|by destruct d| |done]. destruct k, d, l; by_flags b.
Qed.

Lemma spin_release_encode b r : few r -> andnot (encode b r) MU_SPINLOCK = encode (S.spin_released b) r.
Proof. intros Hr. apply encode_change; [done|apply low_bound|done| |done]. by_flags b. Qed.

(** The word of a holder, without its hold. *)
Definition holds (k : kind) (b : flags) (r : nat) : Prop :=
  match k with Writer => wlock b = true /\ r = 0%nat | Reader => wlock b = false /\ r <> 0%nat end.

Lemma release_split k b r :
  few r -> holds k b r ->
  u32 (encode b r - add_to_acquire (type_of k)) = low (S.released k b) + 256 * Z.of_nat (S.readers_released k r).
Proof.
  unfold few. intros Hr Hk. pose proof (low_bound b) as Hb. unfold in_u in Hb. unfold encode, wrap. destruct k; simpl in *; destruct Hk as [Hw Hk].
  - change MU_WLOCK with 1. assert (1 <= low b) by (destruct b as [[] [] [] [] [] []]; done). rewrite Z.mod_small by lia.
    assert (low (S.released Writer b) = low b - 1) as -> by (destruct b as [[] [] [] [] [] []]; done). lia.
  - change MU_RLOCK with 256. rewrite Z.mod_small by lia. assert (low (S.released Reader b) = low b) as -> by by destruct b. lia.
Qed.

Lemma few_released k r : few r -> few (S.readers_released k r).
Proof. unfold few. destruct k; simpl; lia. Qed.

Lemma release_encode k b r m :
  few r -> holds k b r -> m = 0 \/ m = MU_ALL_FALSE ->
  andnot (u32 (encode b r - add_to_acquire (type_of k))) m = encode (S.released k b) (S.readers_released k r).
Proof.
  intros Hr Hk Hm. rewrite release_split by done. apply encode_change; [by apply few_released|apply low_bound|by destruct Hm as [-> | ->]| |done].
  generalize (S.released k b). intros b'. destruct Hm as [-> | ->]; by_flags b'.
Qed.

Lemma grab_encode k b r :
  few r -> holds k b r ->
  Z.lor (Z.lor (u32 (encode b r - add_to_acquire (type_of k))) MU_SPINLOCK) MU_DESIG_WAKER = encode (S.grabbed k b) (S.readers_released k r).
Proof.
  intros Hr Hk. rewrite release_split by done. rewrite lor_split by (done || apply low_bound).
  rewrite lor_split by (first [done|apply in_u_lor; [apply low_bound|done]]). unfold encode. f_equal. destruct k; by_flags b.
Qed.

(** The bits set and cleared at the end of a scan. *)
Definition finish_of (wake : list nat) (kept writers all_false : bool) : finish :=
  mk_finish wake (Z.lor (if all_false then MU_ALL_FALSE else 0) (if writers then MU_WRITER_WAITING else 0))
    (let clear := MU_SPINLOCK in
     let clear := if S.nonempty wake then clear else Z.lor clear MU_DESIG_WAKER in
     let clear := if all_false then clear else Z.lor clear MU_ALL_FALSE in
     if kept then clear else Z.lor clear (Z.lor (Z.lor (Z.lor MU_WAITING MU_WRITER_WAITING) MU_CONDITION) MU_ALL_FALSE)) 0.

Lemma finish_encode wake kept writers all_false b r :
  few r -> (all_false = true -> kept = false) ->
  let f := finish_of wake kept writers all_false in
  andnot (Z.lor (u32 (encode b r - f_late f)) (f_set f)) (f_clear f) = encode (S.finished (S.nonempty wake) kept writers b) r.
Proof.
  intros Hr Haf f. pose proof (encode_bound b r Hr) as Hb. subst f. simpl f_late. rewrite Z.sub_0_r. unfold wrap. rewrite Z.mod_small by done.
  unfold finish_of. cbn [f_set f_clear]. unfold encode at 1.
  rewrite lor_split by (apply low_bound || by destruct all_false, writers).
  generalize (S.nonempty wake). intros woken.
  apply encode_change; [done|apply in_u_lor; [apply low_bound|by destruct all_false, writers]| | |done].
  - by destruct woken, all_false, kept.
  - destruct all_false; [rewrite Haf by done; destruct writers, woken|destruct kept, writers, woken]; by_flags b.
Qed.

Lemma unlock_panics_encode k b r : few r -> holds k b r -> unlock_panics k (encode b r) = false.
Proof.
  intros Hr Hk. unfold unlock_panics. destruct k.
  - change (u32 (encode b r - MU_WLOCK)) with (u32 (encode b r - add_to_acquire (type_of Writer))). rewrite release_encode by auto.
    replace (Z.lor MU_RLOCK_FIELD MU_WLOCK) with (MU_WLOCK + MU_RLOCK_FIELD) by done. rewrite land_field_zero by (done || by apply few_released).
    destruct Hk as [_ ->]. rewrite andb_true_r. by_flags b.
  - unfold encode. rewrite lxor_split by (done || apply low_bound). replace (Z.lor MU_WLOCK MU_RLOCK_FIELD) with (MU_WLOCK + MU_RLOCK_FIELD) by done.
    rewrite land_split by (lia || apply in_u_lxor; done || apply low_bound). apply Z.eqb_neq. destruct Hk as [Hw Hk].
    change ((MU_WLOCK + MU_RLOCK_FIELD) / 256) with (2 ^ 24 - 1). rewrite land_readers by (unfold few in Hr; lia).
    assert (0 <= Z.land (Z.lxor (low b) MU_WLOCK) ((MU_WLOCK + MU_RLOCK_FIELD) mod 256)) by (apply Z.land_nonneg; right; done). lia.
Qed.

(** ** Points in the code *)

Definition flag (x bit : Z) : bool := negb (Z.land x bit =? 0).

Definition role_of (p : pc) : role :=
  match p with
  | Idle | Panicked | LockFast _ | LockLoad _ | LockCas _ _ | TryFast _ | TryLoad _ | TryCas _ _ => ROut
  | Held k | UnlockFast k | UnlockLoad k | UnlockCas k _ _ | UnlockSlow k | UnlockRelease k _ | UnlockGrab k _ _ => RIn k
  | SlowLoad l | SlowAcquire l _ | SlowEnqueue l _ => RTry (s_type l) (flag (s_clear l) MU_DESIG_WAKER) (flag (s_long_wait l) MU_LONG_WAIT)
  | SlowQueue l => REnqueue (s_type l) (flag (s_long_wait l) MU_LONG_WAIT)
  | SlowSpin l | SlowSpinCas l _ => RQueued (s_type l) (flag (s_long_wait l) MU_LONG_WAIT)
  | SlowWait l => RCheck (s_type l) (flag (s_long_wait l) MU_LONG_WAIT)
  | SlowSem l => RSleep (s_type l) (flag (s_long_wait l) MU_LONG_WAIT)
  | Scan _ _ => RScan
  | Finish f | FinishCas f _ => RFinish (f_wake f) (negb (flag (f_clear f) MU_WAITING)) (flag (f_set f) MU_WRITER_WAITING)
  | Wake wake => RWake wake
  | Signal p wake => RSignal p wake
  end.

(** The variables of the slow path. *)
Definition slow_ok (l : slow) : Prop :=
  exists d w, s_clear l = desig_bit d /\ s_long_wait l = long_bit w /\ s_zero l = zero_mask d (s_type l).

Definition finish_ok (f : finish) : Prop :=
  exists wake kept writers all_false, f = finish_of wake kept writers all_false /\ (all_false = true -> kept = false).

(** What a thread knows of the word it loaded, and of its own variables. *)
Definition pc_ok (p : pc) : Prop :=
  match p with
  | Panicked => False
  | LockCas k old | TryCas k old => Z.land old (zero_mask false k) = 0
  | SlowAcquire l old => slow_ok l /\ Z.land old (s_zero l) = 0
  | SlowEnqueue l old => slow_ok l /\ Z.land old (s_zero l) <> 0 /\ Z.land old MU_SPINLOCK = 0
  | SlowLoad l | SlowQueue l | SlowSpin l | SlowSpinCas l _ | SlowWait l | SlowSem l => slow_ok l
  | UnlockCas k old new => new = unlock_word k old /\ unlock_wakes k old = false
  | UnlockRelease k old => nobody_to_wake old = true
  | UnlockGrab k old testing => nobody_to_wake old = false /\ Z.land old MU_SPINLOCK = 0 /\ testing = flag old MU_CONDITION
  | Scan _ testing => testing = false
  | Finish f | FinishCas f _ => finish_ok f
  | _ => True
  end.

Record related (s : state) (a : lock) : Prop := {
  related_word : word s = encode (bits a) (readers a);
  related_queue : waiters s = queue a;
  related_roles : (role_of ∘ t_pc) <$> threads s = roles a;
  related_waitings : waiting <$> threads s = waitings a;
  related_sems : sem <$> threads s = sems a;
  related_ok : Forall (pc_ok ∘ t_pc) (threads s) }.

Lemma related_role s a t th : related s a -> threads s !! t = Some th -> roles a !! t = Some (role_of (t_pc th)).
Proof. intros H Ht. rewrite <- (related_roles s a H), list_lookup_fmap, Ht. done. Qed.

Lemma related_pc s a t th : related s a -> threads s !! t = Some th -> pc_ok (t_pc th).
Proof. intros H Ht. exact (Forall_lookup_1 _ _ _ _ (related_ok s a H) Ht). Qed.

Lemma related_waiting s a t th : related s a -> threads s !! t = Some th -> waitings a !! t = Some (waiting th).
Proof. intros H Ht. rewrite <- (related_waitings s a H), list_lookup_fmap, Ht. done. Qed.

Lemma related_sem s a t th : related s a -> threads s !! t = Some th -> sems a !! t = Some (sem th).
Proof. intros H Ht. rewrite <- (related_sems s a H), list_lookup_fmap, Ht. done. Qed.

(** A thread that changes. *)
Lemma related_put s a t th th' w q b r :
  related s a -> threads s !! t = Some th -> pc_ok (t_pc th') -> w = encode b r ->
  related (put s t w q th') (mk_lock b r q (<[t := role_of (t_pc th')]> (roles a)) (<[t := waiting th']> (waitings a)) (<[t := sem th']> (sems a))).
Proof.
  intros [Hw Hq Hr Hwt Hs Hok] Ht Hp ->. constructor; simpl; try done.
  - by rewrite list_fmap_insert, Hr.
  - by rewrite list_fmap_insert, Hwt.
  - by rewrite list_fmap_insert, Hs.
  - by apply Forall_insert.
Qed.

(** A thread that goes to another point, and a word that changes with it. *)
Lemma related_goto s a t th th' w b r :
  related s a -> threads s !! t = Some th -> pc_ok (t_pc th') -> waiting th' = waiting th -> sem th' = sem th -> w = encode b r ->
  related (put s t w (waiters s) th') (S.with_role a t b r (role_of (t_pc th'))).
Proof.
  intros H Ht Hp Hwt Hs Hw. pose proof (related_put s a t th th' w (waiters s) b r H Ht Hp Hw) as Hput.
  rewrite Hwt, Hs, (list_insert_id (waitings a)), (list_insert_id (sems a)) in Hput by eauto using related_waiting, related_sem.
  by rewrite (related_queue s a H) in Hput |- *.
Qed.

(** A thread that goes to another point with the same role. *)
Lemma related_stutter s a t th th' :
  related s a -> threads s !! t = Some th -> pc_ok (t_pc th') -> waiting th' = waiting th -> sem th' = sem th -> role_of (t_pc th') = role_of (t_pc th) ->
  related (put s t (word s) (waiters s) th') a.
Proof.
  intros H Ht Hp Hwt Hs Hr. pose proof (related_goto s a t th th' _ _ _ H Ht Hp Hwt Hs (related_word s a H)) as Hput.
  unfold S.with_role in Hput. rewrite Hr, list_insert_id in Hput by by eapply related_role. by destruct a.
Qed.

Lemma fmap_alter_same {A B} (f : A -> B) g p (l : list A) : (forall x, f (g x) = f x) -> f <$> alter g p l = f <$> l.
Proof. intros H. revert p. induction l as [|x l IH]; intros [|p]; simpl; [done..|by rewrite H|]. f_equal. apply IH. Qed.

Lemma fmap_alter_insert {A B} (f : A -> B) g p (l : list A) x y : l !! p = Some x -> f (g x) = y -> f <$> alter g p l = <[p := y]> (f <$> l).
Proof. revert p. induction l as [|x' l IH]; intros [|p] Hx Hy; simplify_eq/=; [done|]. f_equal. by apply IH. Qed.

(** A waiter that another thread changes. *)
Lemma related_alter s a p q g :
  related s a -> threads s !! p = Some q -> (forall x, t_pc (g x) = t_pc x) ->
  related (mk_state (word s) (waiters s) (alter g p (threads s)))
    (mk_lock (bits a) (readers a) (queue a) (roles a) (<[p := waiting (g q)]> (waitings a)) (<[p := sem (g q)]> (sems a))).
Proof.
  intros [Hw Hq Hr Hwt Hs Hok] Hp Hg. constructor; simpl; [done|done|..].
  - rewrite fmap_alter_same; [done|]. intros x. simpl. by rewrite Hg.
  - by rewrite (fmap_alter_insert _ _ _ _ q (waiting (g q))), Hwt.
  - by rewrite (fmap_alter_insert _ _ _ _ q (sem (g q))), Hs.
  - apply Forall_alter; [done|]. intros x _ Hx. simpl in *. by rewrite Hg.
Qed.

(** ** The scan of the queue *)

Definition set_bits (all_false writers : bool) : Z := Z.lor (if all_false then MU_ALL_FALSE else 0) (if writers then MU_WRITER_WAITING else 0).

(** What holds of the lists during the scan. *)
Definition scanned (kept wake : list nat) (all_false writers : bool) : Prop :=
  (all_false = true -> kept = []) /\ (writers = true -> kept <> []) /\ (wake = [] -> kept = []).

Lemma scan_loop_spec types rest : forall kept wake wake_type all_false writers kept' wake' set,
  scanned kept wake all_false writers -> (wake_type = None <-> wake = []) ->
  scan_loop types rest kept wake wake_type (set_bits all_false writers) = (kept', wake', set) ->
  exists all_false' writers', set = set_bits all_false' writers' /\ scanned kept' wake' all_false' writers' /\ wake' ++ kept' ≡ₚ wake ++ kept ++ rest.
Proof.
  induction rest as [|p rest IH]; intros kept wake wt af ws kept' wake' set Hsc Hwt H; simpl in H.
  { simplify_eq. exists af, ws. by rewrite app_nil_r. }
  destruct Hsc as (Haf & Hws & Hwk). case_bool_decide as Hw.
  { simplify_eq. exists false, ws. split; [by destruct af, ws|]. split; [|done]. split_and!; [done|intros _ [_ ?]%app_eq_nil; done|].
    intros E. apply Hwt in E. congruence. }
  destruct (bool_decide (wt = None) || bool_decide (types p = Reader)) eqn:E.
  - destruct (IH kept (wake ++ [p]) (Some (types p)) af ws kept' wake' set) as (af' & ws' & -> & Hs & Hp); [|split; [done|by intros [_ ?]%app_eq_nil]|done|].
    + split_and!; [done|done|by intros [_ ?]%app_eq_nil].
    + exists af', ws'. split_and!; [done|done|]. rewrite Hp. solve_Permutation.
  - apply orb_false_iff in E as [E%bool_decide_eq_false_1 _].
    replace (andnot (Z.lor (set_bits af ws) MU_WRITER_WAITING) MU_ALL_FALSE) with (set_bits false true) in H by (by destruct af, ws).
    destruct (IH (kept ++ [p]) wake wt false true kept' wake' set) as (af' & ws' & -> & Hs & Hp); [|done|done|].
    + split_and!; [done|intros _ [_ ?]%app_eq_nil; done|]. intros Hn. apply Hwt in Hn. done.
    + exists af', ws'. split_and!; [done|done|]. rewrite Hp. solve_Permutation.
Qed.

Lemma scan_queue_spec types q kept f :
  scan types q 0 = (kept, f) ->
  exists wake writers all_false, f = finish_of wake (S.nonempty kept) writers all_false /\ (all_false = true -> S.nonempty kept = false) /\
    q ≡ₚ wake ++ kept /\ (wake = [] -> kept = []) /\ (writers = true -> kept <> []).
Proof.
  unfold scan. intros H. destruct (scan_loop types q [] [] None MU_ALL_FALSE) as [[kept' wake] set] eqn:E. simplify_eq.
  change MU_ALL_FALSE with (set_bits true false) in E at 1.
  destruct (scan_loop_spec types q [] [] None true false kept wake set) as (af & ws & -> & (Haf & Hws & Hwk) & Hp); [done|done|done|].
  exists wake, ws, af. split_and!; [|intros ->%Haf; done|by rewrite Hp|done|done].
  unfold finish_of. f_equal. destruct wake, kept, af, ws; done.
Qed.

(** ** Steps *)

Lemma flag_desig d : flag (desig_bit d) MU_DESIG_WAKER = d.
Proof. by destruct d. Qed.
Lemma flag_long l : flag (long_bit l) MU_LONG_WAIT = l.
Proof. by destruct l. Qed.

Section Simulation.
Context (s : state) (a : lock) (t : nat) (th : thread).
Context (Hrel : related s a) (Hinv : S.lock_inv a) (Hfew : few (length (threads s))) (Hth : threads s !! t = Some th).

Definition simulated (s' : state) : Prop := exists a', (a' = a \/ S.lock_step a t a') /\ related s' a'.

Lemma role_here : roles a !! t = Some (role_of (t_pc th)).
Proof using Hrel Hth. by eapply related_role. Qed.

Lemma roles_length : length (roles a) = length (threads s).
Proof using Hrel. by rewrite <- (related_roles s a Hrel), length_fmap. Qed.

Lemma few_readers : few (readers a).
Proof using Hrel Hinv Hfew.
  rewrite <- (S.holders_readers a (S.inv_holders a Hinv)). pose proof (S.count_le S.is_reader (roles a)) as Hc.
  rewrite roles_length in Hc. unfold few in *. lia.
Qed.

Lemma few_acquired k : S.is_reader (role_of (t_pc th)) = false -> few (S.readers_acquired k (readers a)).
Proof using Hrel Hinv Hfew Hth.
  intros Hr. pose proof few_readers as Hf. destruct k; simpl; [done|].
  pose proof (S.count_lt S.is_reader (roles a) t _ role_here Hr) as Hc. rewrite (S.holders_readers a (S.inv_holders a Hinv)) in Hc.
  rewrite roles_length in Hc. unfold few in *. lia.
Qed.

Lemma holds_here k : role_of (t_pc th) = RIn k -> holds k (bits a) (readers a).
Proof using Hrel Hinv Hth.
  intros Hk. pose proof role_here as Hr. rewrite Hk in Hr. destruct Hinv as [[Hrd Hwr Hex _] _ _]. destruct k; simpl.
  - pose proof (S.count_member S.is_writer _ _ _ Hr) as Hc. rewrite Hwr in Hc. simpl in Hc.
    assert (wlock (bits a) = true) as Hw by (destruct (wlock (bits a)); [done|simpl in Hc; lia]). auto.
  - pose proof (S.count_member S.is_reader _ _ _ Hr) as Hc. rewrite Hrd in Hc. simpl in Hc.
    split; [|lia]. destruct (wlock (bits a)); [|done]. specialize (Hex eq_refl). lia.
Qed.

Lemma sim_goto p : pc_ok p -> role_of p = role_of (t_pc th) -> simulated (put s t (word s) (waiters s) (set_pc p th)).
Proof using Hrel Hth. intros Hp Hr. exists a. split; [by left|]. by apply related_stutter with (th := th). Qed.

Lemma sim_step w b r p :
  S.lock_step a t (S.with_role a t b r (role_of p)) -> pc_ok p -> w = encode b r -> simulated (put s t w (waiters s) (set_pc p th)).
Proof using Hrel Hth. intros Hs Hp Hw. eexists. split; [right; exact Hs|]. by apply (related_goto s a t th (set_pc p th)). Qed.

Lemma sim_cas old new success fail :
  (word s = old -> simulated (put s t new (waiters s) (set_pc success th))) -> pc_ok fail -> role_of fail = role_of (t_pc th) ->
  simulated (cas s t th old new success fail).
Proof using Hrel Hth.
  intros Hs Hp Hr. unfold cas. destruct (Z.eqb_spec (word s) old); [by apply Hs|by apply sim_goto].
Qed.

(** A lock that is free for a thread. *)
Lemma not_excluded d k : Z.land (word s) (zero_mask d k) = 0 -> ~ S.excluded k a.
Proof using Hrel Hinv Hfew.
  intros H%Z.eqb_eq. rewrite (related_word s a Hrel), zero_mask_encode in H by apply few_readers. unfold blocked in H. unfold S.excluded.
  intros [Hw|[-> Hr]]; [by rewrite Hw in H|]. destruct (readers a); [done|]. by destruct (wlock (bits a)).
Qed.

Lemma sim_acquire d l k w :
  S.is_reader (role_of (t_pc th)) = false -> ~ S.excluded k a ->
  S.lock_step a t (S.with_role a t (S.acquired k d l (bits a)) (S.readers_acquired k (readers a)) (RIn k)) ->
  w = andnot (u32 (word s + add_to_acquire (type_of k))) (Z.lor (Z.lor (desig_bit d) (long_bit l)) (clear_on_acquire (type_of k))) ->
  simulated (put s t w (waiters s) (set_pc (Held k) th)).
Proof using Hrel Hinv Hfew Hth.
  intros Hr Hex Hs ->. eapply sim_step; [exact Hs|done|]. rewrite (related_word s a Hrel). apply acquire_encode; [by apply few_acquired|].
  apply S.excluded_free in Hex as [? _]. done.
Qed.

(** Outside of the lock. *)
Lemma sim_acquire_out k : role_of (t_pc th) = ROut -> Z.land (word s) (zero_mask false k) = 0 ->
  simulated (put s t (andnot (u32 (word s + add_to_acquire (type_of k))) (clear_on_acquire (type_of k))) (waiters s) (set_pc (Held k) th)).
Proof using Hrel Hinv Hfew Hth.
  intros Hr Hz. pose proof role_here as Hh. rewrite Hr in Hh. apply not_excluded in Hz.
  apply (sim_acquire false false); [by rewrite Hr|done|by apply S.do_acquire|done].
Qed.

Lemma sim_fast k fail : role_of (t_pc th) = ROut -> pc_ok fail -> role_of fail = ROut ->
  simulated (cas s t th 0 (add_to_acquire (type_of k)) (Held k) fail).
Proof using Hrel Hinv Hfew Hth.
  intros Hr Hp Hf. apply sim_cas; [|done|congruence]. intros Hw.
  replace (add_to_acquire (type_of k)) with (andnot (u32 (word s + add_to_acquire (type_of k))) (clear_on_acquire (type_of k))) by (rewrite Hw; by destruct k).
  apply sim_acquire_out; [done|by rewrite Hw].
Qed.

Lemma sim_contend k : role_of (t_pc th) = ROut ->
  simulated (put s t (word s) (waiters s) (mk_thread (SlowLoad (slow_start 0 k)) (waiting th) (sem th) k)).
Proof using Hrel Hth.
  intros Hr. pose proof role_here as Hh. rewrite Hr in Hh. eexists. split; [right; by apply (S.do_contend _ _ k)|].
  apply (related_goto s a t th (mk_thread (SlowLoad (slow_start 0 k)) (waiting th) (sem th) k)); [done|done| |done|done|by apply related_word].
  by exists false, false.
Qed.

(** The slow path of a lock. *)
Lemma sim_slow_acquire l old : t_pc th = SlowAcquire l old ->
  simulated (cas s t th old (andnot (u32 (old + add_to_acquire (type_of (s_type l)))) (Z.lor (Z.lor (s_clear l) (s_long_wait l)) (clear_on_acquire (type_of (s_type l)))))
    (Held (s_type l)) (SlowLoad l)).
Proof using Hrel Hinv Hfew Hth.
  intros Hp. pose proof (related_pc s a t th Hrel Hth) as Hok. pose proof role_here as Hh. rewrite Hp in Hok, Hh. destruct Hok as [Hl Hz].
  pose proof Hl as (d & w & Hc & Hw & Hzm). rewrite Hzm in Hz. simpl in Hh. rewrite Hc, Hw, flag_desig, flag_long in Hh.
  apply sim_cas; [|done|by rewrite Hp]. intros <-. apply not_excluded in Hz.
  apply (sim_acquire d w); [by rewrite Hp|done|by apply S.do_acquire_slow|by rewrite Hc, Hw].
Qed.

Lemma sim_slow_enqueue l old : t_pc th = SlowEnqueue l old ->
  simulated (cas s t th old (andnot (Z.lor (Z.lor (Z.lor old MU_SPINLOCK) (s_long_wait l)) (set_when_waiting (type_of (s_type l)))) (Z.lor (s_clear l) MU_ALL_FALSE))
    (SlowQueue l) (SlowLoad l)).
Proof using Hrel Hinv Hfew Hth.
  intros Hp. pose proof (related_pc s a t th Hrel Hth) as Hok. pose proof role_here as Hh. rewrite Hp in Hok, Hh. destruct Hok as (Hl & Hz & Hs).
  pose proof Hl as (d & w & Hc & Hw & Hzm). rewrite Hzm in Hz. simpl in Hh. rewrite Hc, Hw, flag_desig, flag_long in Hh.
  apply sim_cas; [|done|by rewrite Hp]. intros <-. apply Z.eqb_neq in Hz. apply Z.eqb_eq in Hs. rewrite (related_word s a Hrel) in *.
  rewrite zero_mask_encode in Hz by apply few_readers. rewrite spinlock_encode in Hs by apply few_readers. apply negb_false_iff in Hz. apply negb_true_iff in Hs.
  apply (sim_step _ (S.enqueued (s_type l) d w (bits a)) (readers a)); [|done|].
  - simpl. rewrite Hw, flag_long. apply S.do_enqueue with (d := d); [done|done|]. unfold blocked, S.excluded, S.yields in *.
    destruct (wlock (bits a)), d, (long_wait (bits a)), (s_type l), (writer_waiting (bits a)), (readers a); simpl in *; done || tauto || auto 10.
  - rewrite Hc, Hw. apply enqueue_encode, few_readers.
Qed.

Lemma sim_slow_queue l q : t_pc th = SlowQueue l -> q = waiters s ++ [t] \/ q = t :: waiters s ->
  simulated (put s t (word s) q (mk_thread (SlowSpin l) true (sem th) (l_type th))).
Proof using Hrel Hth.
  intros Hp Hq. pose proof (related_pc s a t th Hrel Hth) as Hok. pose proof role_here as Hh. rewrite Hp in Hok, Hh.
  rewrite (related_queue s a Hrel) in Hq. eexists. split; [right; by apply S.do_join|].
  pose proof (related_put s a t th (mk_thread (SlowSpin l) true (sem th) (l_type th)) (word s) q (bits a) (readers a) Hrel Hth Hok (related_word s a Hrel)) as H.
  simpl in H. rewrite (list_insert_id (sems a)) in H by (by apply (related_sem s a t th)). exact H.
Qed.

Lemma sim_slow_spin l old : t_pc th = SlowSpinCas l old -> simulated (cas s t th old (andnot old MU_SPINLOCK) (SlowWait l) (SlowSpin l)).
Proof using Hrel Hinv Hfew Hth.
  intros Hp. pose proof (related_pc s a t th Hrel Hth) as Hok. pose proof role_here as Hh. rewrite Hp in Hok, Hh.
  apply sim_cas; [|done|by rewrite Hp]. intros <-. eapply sim_step; [by apply S.do_joined|done|].
  rewrite (related_word s a Hrel). apply spin_release_encode, few_readers.
Qed.

Lemma slow_woken_ok l : slow_ok l -> slow_ok (slow_woken l) /\ s_type (slow_woken l) = s_type l /\
  flag (s_clear (slow_woken l)) MU_DESIG_WAKER = true /\ (flag (s_long_wait l) MU_LONG_WAIT = true -> flag (s_long_wait (slow_woken l)) MU_LONG_WAIT = true).
Proof using.
  intros (d & w & Hc & Hw & Hz). unfold slow_woken. cbn. split_and!; [|done|done|].
  - exists true, (if u32 (s_wait_count l + 1) =? LONG_WAIT_THRESHOLD then true else w). cbn. split_and!; [done|by case_if|].
    rewrite Hz. by destruct d, (s_type l).
  - case_if; done.
Qed.

Lemma sim_slow_wait l : t_pc th = SlowWait l ->
  simulated (put s t (word s) (waiters s) (set_pc (if waiting th then SlowSem l else SlowLoad (slow_woken l)) th)).
Proof using Hrel Hth.
  intros Hp. pose proof (related_pc s a t th Hrel Hth) as Hok. pose proof role_here as Hh. rewrite Hp in Hok, Hh.
  pose proof (related_waiting s a t th Hrel Hth) as Hw. destruct (waiting th).
  - eapply sim_step; [by apply S.do_sleep|done|by apply related_word].
  - destruct (slow_woken_ok l Hok) as (Hok' & Ht & Hd & Hl). eapply sim_step; [|exact Hok'|by apply related_word].
    cbn [role_of]. rewrite Ht, Hd. eapply S.do_woken; [exact Hh|done|done].
Qed.

Lemma sim_slow_sem l : t_pc th = SlowSem l -> 0 < sem th ->
  simulated (put s t (word s) (waiters s) (mk_thread (SlowWait l) (waiting th) (sem th - 1) (l_type th))).
Proof using Hrel Hth.
  intros Hp Hpos. pose proof (related_pc s a t th Hrel Hth) as Hok. pose proof role_here as Hh. rewrite Hp in Hok, Hh.
  pose proof (related_sem s a t th Hrel Hth) as Hs. eexists. split; [right; by apply (S.do_semaphore _ _ _ _ _ Hh Hs)|].
  pose proof (related_put s a t th (mk_thread (SlowWait l) (waiting th) (sem th - 1) (l_type th)) (word s) (waiters s) (bits a) (readers a) Hrel Hth Hok (related_word s a Hrel)) as H.
  simpl in H. rewrite (list_insert_id (waitings a)) in H by (by apply (related_waiting s a t th)). by rewrite (related_queue s a Hrel) in H |- *.
Qed.

(** An unlock. *)
Lemma release_guard k : role_of (t_pc th) = RIn k ->
  wait (bits a) = false \/ desig (bits a) = true \/ (k = Reader /\ (1 < readers a)%nat) ->
  S.lock_step a t (S.with_role a t (S.released k (bits a)) (S.readers_released k (readers a)) ROut).
Proof using Hrel Hth. intros Hr Hg. pose proof role_here as Hh. rewrite Hr in Hh. by apply S.do_release. Qed.

Lemma sim_unlock_fast k : t_pc th = UnlockFast k -> simulated (cas s t th (add_to_acquire (type_of k)) 0 Idle (UnlockLoad k)).
Proof using Hrel Hinv Hfew Hth.
  intros Hp. apply sim_cas; [|done|by rewrite Hp]. intros Hw. eapply sim_step; [|done|].
  - apply release_guard with (k := k); [by rewrite Hp|]. left.
    assert ((Z.land (word s) MU_WAITING =? 0) = negb (wait (bits a))) as H
      by (rewrite (related_word s a Hrel), land_low by (done || apply few_readers); by_flags (bits a)).
    rewrite Hw in H. by destruct k, (wait (bits a)).
  - rewrite <- (release_encode k (bits a) (readers a) 0) by (auto using few_readers || by apply holds_here; rewrite Hp).
    rewrite <- (related_word s a Hrel), Hw. by destruct k.
Qed.

Lemma sim_unlock_load k : t_pc th = UnlockLoad k ->
  simulated (put s t (word s) (waiters s) (set_pc (if unlock_panics k (word s) then Panicked else if unlock_wakes k (word s) then UnlockSlow k else UnlockCas k (word s) (unlock_word k (word s))) th)).
Proof using Hrel Hinv Hfew Hth.
  intros Hp. rewrite (related_word s a Hrel), unlock_panics_encode by (apply few_readers || by apply holds_here; rewrite Hp). rewrite <- (related_word s a Hrel).
  destruct (unlock_wakes k (word s)) eqn:E; apply sim_goto; done || by rewrite Hp.
Qed.

Lemma sim_unlock_cas k old new : t_pc th = UnlockCas k old new -> simulated (cas s t th old new Idle (UnlockSlow k)).
Proof using Hrel Hinv Hfew Hth.
  intros Hp. pose proof (related_pc s a t th Hrel Hth) as Hok. rewrite Hp in Hok. destruct Hok as [-> Hwk].
  assert (holds k (bits a) (readers a)) as Hk by (by apply holds_here; rewrite Hp).
  apply sim_cas; [|done|by rewrite Hp]. intros <-. rewrite (related_word s a Hrel) in *. rewrite unlock_wakes_encode in Hwk by apply few_readers.
  eapply sim_step; [|done|].
  - apply release_guard with (k := k); [by rewrite Hp|]. destruct (wait (bits a)), (desig (bits a)); [by right; left| |by left..].
    right; right. destruct k; [done|]. simpl in *. destruct Hk. destruct (Nat.eqb_spec (readers a) 1); [done|]. split; [done|lia].
  - destruct k; [by apply (release_encode Writer); auto using few_readers|]. unfold unlock_word.
    rewrite (release_split Reader) by (done || apply few_readers). done.
Qed.

Lemma sim_unlock_slow k : t_pc th = UnlockSlow k ->
  simulated (put s t (word s) (waiters s) (set_pc (if nobody_to_wake (word s) then UnlockRelease k (word s)
    else if Z.land (word s) MU_SPINLOCK =? 0 then UnlockGrab k (word s) (negb (Z.land (word s) MU_CONDITION =? 0)) else UnlockSlow k) th)).
Proof using Hrel Hth.
  intros Hp. destruct (nobody_to_wake (word s)) eqn:E; [by apply sim_goto; rewrite ?Hp|].
  destruct (Z.eqb_spec (Z.land (word s) MU_SPINLOCK) 0); apply sim_goto; by rewrite ?Hp.
Qed.

Lemma sim_unlock_release k old : t_pc th = UnlockRelease k old ->
  simulated (cas s t th old (andnot (u32 (old - add_to_acquire (type_of k))) (clear_on_uncontended_release (type_of k))) Idle (UnlockSlow k)).
Proof using Hrel Hinv Hfew Hth.
  intros Hp. pose proof (related_pc s a t th Hrel Hth) as Hok. rewrite Hp in Hok. simpl in Hok.
  assert (holds k (bits a) (readers a)) as Hk by (by apply holds_here; rewrite Hp).
  apply sim_cas; [|done|by rewrite Hp]. intros <-. rewrite (related_word s a Hrel) in *. rewrite nobody_to_wake_encode in Hok by apply few_readers.
  eapply sim_step; [|done|apply release_encode; [apply few_readers|done|destruct k; auto]].
  apply release_guard with (k := k); [by rewrite Hp|]. destruct (wait (bits a)), (desig (bits a)); [by right; left| |by left..].
  right; right. simpl in Hok. apply Nat.ltb_lt in Hok. split; [|done]. destruct k; [|done]. destruct Hk. lia.
Qed.

Lemma sim_unlock_grab k old testing : t_pc th = UnlockGrab k old testing ->
  simulated (cas s t th old (Z.lor (Z.lor (u32 (old - (if testing then u32 (add_to_acquire (type_of k) - MU_WLOCK) else add_to_acquire (type_of k)))) MU_SPINLOCK) MU_DESIG_WAKER)
    (Scan k testing) (UnlockSlow k)).
Proof using Hrel Hinv Hfew Hth.
  intros Hp. pose proof (related_pc s a t th Hrel Hth) as Hok. pose proof role_here as Hh. rewrite Hp in Hok, Hh. destruct Hok as (Hn & Hs & Ht).
  assert (holds k (bits a) (readers a)) as Hk by (by apply holds_here; rewrite Hp).
  apply sim_cas; [|done|by rewrite Hp]. intros <-. apply Z.eqb_eq in Hs. rewrite (related_word s a Hrel) in *.
  rewrite nobody_to_wake_encode in Hn by apply few_readers. rewrite spinlock_encode in Hs by apply few_readers.
  unfold flag in Ht. rewrite condition_encode in Ht by apply few_readers. subst testing.
  apply orb_false_iff in Hn as [[Hw%negb_false_iff Hd]%orb_false_iff _]. apply negb_true_iff in Hs.
  eapply sim_step; [by apply S.do_grab|done|]. apply grab_encode; [apply few_readers|done].
Qed.

Lemma finish_of_role wake kept ws af : (af = true -> kept = false) ->
  role_of (Finish (finish_of wake kept ws af)) = RFinish wake kept ws.
Proof using. intros H. simpl. destruct (S.nonempty wake), kept, ws, af; try done; by discriminate H. Qed.

Lemma sim_scan k types : t_pc th = Scan k false ->
  simulated (let '(queue, f) := scan types (waiters s) 0 in put s t (word s) queue (set_pc (Finish f) th)).
Proof using Hrel Hth.
  intros Hp. pose proof role_here as Hh. rewrite Hp in Hh. destruct (scan types (waiters s) 0) as [kept f] eqn:E.
  apply scan_queue_spec in E as (wake & ws & af & -> & Haf & Hq & Hwk & Hws). rewrite (related_queue s a Hrel) in Hq.
  eexists. split; [right; by apply (S.do_scan _ _ wake kept ws Hh)|].
  assert (pc_ok (Finish (finish_of wake (S.nonempty kept) ws af))) as Hok by (by exists wake, (S.nonempty kept), ws, af).
  pose proof (related_put s a t th (set_pc (Finish (finish_of wake (S.nonempty kept) ws af)) th) (word s) kept (bits a) (readers a) Hrel Hth Hok (related_word s a Hrel)) as H.
  cbn [set_pc t_pc waiting sem] in H. rewrite finish_of_role in H by done.
  rewrite (list_insert_id (waitings a)), (list_insert_id (sems a)) in H by eauto using related_waiting, related_sem. exact H.
Qed.

Lemma sim_finish f old : t_pc th = FinishCas f old ->
  simulated (cas s t th old (andnot (Z.lor (u32 (old - f_late f)) (f_set f)) (f_clear f)) (Wake (f_wake f)) (Finish f)).
Proof using Hrel Hinv Hfew Hth.
  intros Hp. pose proof (related_pc s a t th Hrel Hth) as Hok. pose proof role_here as Hh. rewrite Hp in Hok, Hh.
  apply sim_cas; [|done|by rewrite Hp]. intros <-. destruct Hok as (wake & kept & ws & af & -> & Haf).
  change (role_of (FinishCas ?f ?o)) with (role_of (Finish f)) in Hh. rewrite finish_of_role in Hh by done.
  eapply sim_step; [by apply (S.do_finish _ _ wake kept ws)|done|]. rewrite (related_word s a Hrel). apply finish_encode; [apply few_readers|done].
Qed.

(** A thread that wakes another. *)
Lemma sim_touch p q next g b :
  S.lock_step a t b -> threads s !! p = Some q -> pc_ok next -> (forall x, t_pc (g x) = t_pc x) ->
  (forall x, t_pc x = t_pc q \/ x = set_pc next th -> waiting x = waiting q -> sem x = sem q ->
     b = mk_lock (bits a) (readers a) (queue a) (<[t := role_of next]> (roles a)) (<[p := waiting (g x)]> (waitings a)) (<[p := sem (g x)]> (sems a))) ->
  simulated (mk_state (word s) (waiters s) (alter g p (<[t := set_pc next th]> (threads s)))).
Proof using Hrel Hth.
  intros Hs Hq Hok Hg Hb.
  pose proof (related_goto s a t th (set_pc next th) (word s) (bits a) (readers a) Hrel Hth Hok eq_refl eq_refl (related_word s a Hrel)) as Hput.
  assert (exists x, <[t := set_pc next th]> (threads s) !! p = Some x /\ (t_pc x = t_pc q \/ x = set_pc next th) /\ waiting x = waiting q /\ sem x = sem q) as (x & Hx & Hpc & Hw & Hsm).
  { destruct (decide (t = p)) as [->|Hne].
    - exists (set_pc next th). rewrite list_lookup_insert_eq by (by eapply lookup_lt_Some). rewrite Hth in Hq. simplify_eq. auto.
    - exists q. rewrite list_lookup_insert_ne by done. auto. }
  pose proof (related_alter _ _ p x g Hput Hx Hg) as H. exists b. split; [by right|]. by rewrite (Hb x Hpc Hw Hsm).
Qed.

Lemma sim_wake p q wake : t_pc th = Wake (p :: wake) -> threads s !! p = Some q ->
  simulated (mk_state (word s) (waiters s) (alter (fun q => mk_thread (t_pc q) false (sem q) (l_type q)) p (<[t := set_pc (Signal p wake) th]> (threads s)))).
Proof using Hrel Hth.
  intros Hp Hq. pose proof role_here as Hh. rewrite Hp in Hh.
  eapply sim_touch; [by apply S.do_wake|exact Hq|done|done|]. intros x _ _ Hsm. cbn. rewrite Hsm.
  by rewrite (list_insert_id (sems a)) by (by eapply related_sem).
Qed.

Lemma sim_signal p q wake : t_pc th = Signal p wake -> threads s !! p = Some q ->
  simulated (mk_state (word s) (waiters s) (alter (fun q => mk_thread (t_pc q) (waiting q) (sem q + 1) (l_type q)) p (<[t := set_pc (Wake wake) th]> (threads s)))).
Proof using Hrel Hth.
  intros Hp Hq. pose proof role_here as Hh. rewrite Hp in Hh.
  eapply sim_touch; [apply S.do_signal; [exact Hh|by apply (related_sem s a p q)]|exact Hq|done|done|]. intros x _ Hw Hsm. cbn. rewrite Hsm, Hw.
  by rewrite (list_insert_id (waitings a)) by (by eapply related_waiting).
Qed.

(** Every step of the code is a step of the abstract lock, or none. *)
Lemma step_simulated c s' : step c t s = Some s' -> simulated s'.
Proof using Hrel Hinv Hfew Hth.
  unfold step. rewrite Hth. unfold lock_at, trylock_at, lock_slow_at, unlock_at, unlock_slow_at, wake_at, goto, goto_slow, acquired_word. cbn [mbind option_bind]. intros H. pose proof (related_pc s a t th Hrel Hth) as Hok. destruct c as [c|].
  { destruct (start_call c (t_pc th)) as [p|] eqn:E; [|done]. simplify_eq/=. destruct c, (t_pc th) eqn:Hp; simplify_eq/=; apply sim_goto; done || by rewrite Hp. }
  destruct (t_pc th) as [|k| |k|k|k old|k|k|k old|l|l old|l old|l|l|l old|l|l|k|k|k old new|k|k old|k old tc|k tc|f|f old|[|p wake]|p wake] eqn:Hp; simplify_eq/=.
  - apply sim_fast; done || by rewrite Hp.
  - destruct (Z.eqb_spec (Z.land (word s) (zero_to_acquire (type_of k))) 0); simplify_eq/=; [|by apply sim_contend; rewrite Hp]. apply sim_goto; done || by rewrite Hp.
  - destruct (Z.eqb_spec (word s) old) as [<-|]; simplify_eq; [apply sim_acquire_out; done || by rewrite Hp|by apply sim_contend; rewrite Hp].
  - apply sim_fast; done || by rewrite Hp.
  - destruct (Z.eqb_spec (Z.land (word s) (zero_to_acquire (type_of k))) 0); simplify_eq/=; apply sim_goto; done || by rewrite Hp.
  - apply sim_cas; [|done|by rewrite Hp]. intros <-. apply sim_acquire_out; done || by rewrite Hp.
  - destruct (Z.eqb_spec (Z.land (word s) (s_zero l)) 0); simplify_eq/=; [apply sim_goto; done || by rewrite Hp|].
    destruct (Z.eqb_spec (Z.land (word s) MU_SPINLOCK) 0); simplify_eq/=; apply sim_goto; done || by rewrite Hp.
  - by apply sim_slow_acquire.
  - by apply sim_slow_enqueue.
  - apply sim_slow_queue; [done|]. case_if; auto.
  - apply sim_goto; done || by rewrite Hp.
  - by apply sim_slow_spin.
  - pose proof (sim_slow_wait l Hp) as Hs. destruct (waiting th); by simplify_eq.
  - destruct (Z.ltb_spec 0 (sem th)); [|done]. simplify_eq. by apply sim_slow_sem.
  - by apply sim_unlock_fast.
  - pose proof (sim_unlock_load k Hp) as Hs. destruct (unlock_panics k (word s)), (unlock_wakes k (word s)); by simplify_eq.
  - by apply sim_unlock_cas.
  - pose proof (sim_unlock_slow k Hp) as Hs. destruct (nobody_to_wake (word s)), (Z.land (word s) MU_SPINLOCK =? 0); by simplify_eq.
  - by apply sim_unlock_release.
  - by apply sim_unlock_grab.
  - pose proof (sim_scan k (fun p => match threads s !! p with Some q => l_type q | None => Reader end) Hp) as Hs.
    destruct (scan _ _ _) as [kept f]. by simplify_eq.
  - apply sim_goto; done || by rewrite Hp.
  - by apply sim_finish.
  - eapply sim_step; [|done|by apply related_word]. pose proof role_here as Hh. rewrite Hp in Hh. by apply S.do_done.
  - destruct (threads s !! p) eqn:Hq; [|done]. simplify_eq. by eapply sim_wake.
  - destruct (threads s !! p) eqn:Hq; [|done]. simplify_eq. by eapply sim_signal.
Qed.
End Simulation.

(** ** Runs *)

(** A state of the code that stands for one of the abstract lock. *)
Definition good (s : state) (a : lock) : Prop := related s a /\ S.lock_inv a /\ few (length (threads s)).

Definition lock_steps (a a' : lock) : Prop := exists t, S.lock_step a t a'.

Lemma step_threads c t s s' : step c t s = Some s' -> length (threads s') = length (threads s) /\ (t < length (threads s))%nat.
Proof.
  unfold step. destruct (threads s !! t) as [th|] eqn:Hth; [|done].
  unfold lock_at, trylock_at, lock_slow_at, unlock_at, unlock_slow_at, wake_at, goto, goto_slow. cbn [mbind option_bind]. intros H.
  split; [|by eapply lookup_lt_Some]. unfold cas, put in H. destruct c as [c|].
  { destruct (start_call c (t_pc th)); simplify_eq/=. by rewrite length_insert. }
  destruct (t_pc th) as [|k| |k|k|k old|k|k|k old|l|l old|l old|l|l|l old|l|l|k|k|k old new|k|k old|k old tc|k [|]|f|f old|[|p wake]|p wake] eqn:Hp; simplify_eq/=.
  all: repeat case_match; simplify_eq/=; by rewrite ?length_alter, ?length_insert.
Qed.

Lemma good_step c t s s' a : good s a -> step c t s = Some s' -> exists a', (a' = a \/ S.lock_step a t a') /\ good s' a'.
Proof.
  intros (Hrel & Hinv & Hfew) Hs. destruct (step_threads c t s s' Hs) as [Hl Ht]. apply lookup_lt_is_Some_2 in Ht as [th Hth].
  destruct (step_simulated s a t th Hrel Hinv Hfew Hth c s' Hs) as (a' & Ha & Hrel'). exists a'. split; [done|].
  split_and!; [done| |by rewrite Hl]. destruct Ha as [-> |Ha]; [done|]. by eapply S.lock_step_inv.
Qed.

Lemma good_start n : few n -> good (nsync_mu_init n) (S.lock_start n).
Proof.
  intros Hn. split_and!; [|apply S.lock_start_inv|by simpl; rewrite length_replicate].
  constructor; simpl; rewrite ?fmap_replicate; try done. apply Forall_replicate. done.
Qed.

Lemma steps_good s a s' : good s a -> rtc steps s s' -> exists a', rtc lock_steps a a' /\ good s' a'.
Proof.
  intros Hg Hs. revert a Hg. induction Hs as [s|s1 s2 s3 (c & t & Hstep) _ IH]; intros a Hg; [by exists a|].
  destruct (good_step c t s1 s2 a Hg Hstep) as (a' & Hor & Hg'). destruct (IH a' Hg') as (a'' & Ha & Hg''). exists a''. split; [|done].
  destruct Hor as [-> |Hl]; [done|]. eapply rtc_l; [by exists t|done].
Qed.

Lemma reachable_good n s : few n -> reachable n s -> exists a, rtc lock_steps (S.lock_start n) a /\ good s a.
Proof. intros Hn Hs. eapply steps_good; [by apply good_start|done]. Qed.

(** C6: the mutex refines the abstract reader-writer lock.  In every
    interleaving of any number of threads (fewer than 2^24) that lock, try to
    lock and unlock in both modes, the state of the code stands for a state
    that the abstract lock reaches: the word is the flags and the number of
    readers, the queue is the same, every thread has the role of its point in
    the code, and none is at the sanity check that panics. *)
Theorem nsync_mu_refines n s : few n -> reachable n s -> exists a, rtc lock_steps (S.lock_start n) a /\ related s a.
Proof. intros Hn Hs. destruct (reachable_good n s Hn Hs) as (a & Ha & Hrel & _). by exists a. Qed.

(** Two threads: one gets the lock, the other queues up behind it. *)
Fixpoint run (s : state) (l : list (option call * nat)) : option state :=
  match l with
  | [] => Some s
  | (c, t) :: l => match step c t s with Some s' => run s' l | None => None end
  end.

Lemma run_steps l : forall s s', run s l = Some s' -> rtc steps s s'.
Proof.
  induction l as [|[c t] l IH]; intros s s' H; simplify_eq/=; [done|]. destruct (step c t s) as [s1|] eqn:E; [|done].
  eapply rtc_l; [by exists c, t|by apply IH].
Qed.

Lemma run_reachable n l s : run (nsync_mu_init n) l = Some s -> reachable n s.
Proof. apply run_steps. Qed.

Definition contended : list (option call * nat) :=
  [(Some (CallLock Writer), 0%nat); (None, 0%nat); (Some (CallLock Reader), 1%nat)] ++ replicate 8 (None, 1%nat).

Example nsync_mu_refines_witness : exists s a, rtc lock_steps (S.lock_start 2) a /\ related s a /\ word s = 5 /\ waiters s = [1%nat].
Proof.
  destruct (run (nsync_mu_init 2) contended) as [s|] eqn:E; [|by vm_compute in E].
  destruct (nsync_mu_refines 2 s ltac:(done) (run_reachable 2 contended s E)) as (a & Ha & Hrel).
  exists s, a. split_and!; [done|done|..]; vm_compute in E; by simplify_eq.
Defined.

(** The reader count and the writer bit are those of the holders. *)
Lemma good_holder s a t th k : good s a -> threads s !! t = Some th -> role_of (t_pc th) = RIn k -> holds k (bits a) (readers a).
Proof. intros (Hrel & Hinv & Hfew) Hth Hk. by eapply holds_here. Qed.

(** C7: the mutex excludes.  In every interleaving, a thread that holds it in
    write mode holds it alone, readers may share it, and the queries agree: a
    writer passes the assertion that it holds it in write mode, any holder the
    assertion that it holds it, and the mutex is known to be held for reading
    exactly by readers. *)
Theorem nsync_mu_excludes n s t th k :
  few n -> reachable n s -> threads s !! t = Some th -> role_of (t_pc th) = RIn k ->
  (forall t' th' k', t' <> t -> threads s !! t' = Some th' -> role_of (t_pc th') = RIn k' -> k = Reader /\ k' = Reader) /\
  nsync_mu_assert_held (word s) = bool_decide (k = Writer) /\ nsync_mu_rassert_held (word s) = true /\
  nsync_mu_is_reader (word s) = Some (bool_decide (k = Reader)).
Proof.
  intros Hn Hs Hth Hk. destruct (reachable_good n s Hn Hs) as (a & _ & Hg). pose proof (good_holder s a t th k Hg Hth Hk) as Hh.
  pose proof Hg as (Hrel & [Hhold _ _] & Hfew). pose proof (few_readers s a Hrel (proj1 (proj2 Hg)) Hfew) as Hr.
  assert ((Z.land (word s) MU_WLOCK =? 0) = negb (wlock (bits a))) as Hwl by (rewrite (related_word s a Hrel), land_low by done; by_flags (bits a)).
  assert ((Z.land (word s) MU_ANY_LOCK =? 0) = false) as Hany.
  { change MU_ANY_LOCK with (zero_mask true Writer). rewrite (related_word s a Hrel), zero_mask_encode by done. unfold blocked.
    destruct k, Hh as [-> Hh]; simpl; [done|]. by destruct (readers a). }
  split; [|unfold nsync_mu_assert_held, nsync_mu_rassert_held, nsync_mu_is_reader; rewrite Hwl, Hany; destruct k, Hh as [-> _]; done].
  intros t' th' k' Hne Hth' Hk'. pose proof (good_holder s a t' th' k' Hg Hth' Hk') as Hh'.
  destruct k, k', Hh as [Hw Hh], Hh' as [Hw' Hh']; try congruence; [|done].
  pose proof (related_role s a t th Hrel Hth) as Hr1. pose proof (related_role s a t' th' Hrel Hth') as Hr2. rewrite Hk in Hr1. rewrite Hk' in Hr2.
  pose proof (S.count_two S.is_writer (roles a) t' t _ _ Hne Hr2 Hr1 eq_refl eq_refl) as Hc. rewrite (S.holders_writer a Hhold), Hw in Hc. simpl in Hc. lia.
Qed.

Example nsync_mu_excludes_witness : exists s th, threads s !! 0%nat = Some th /\ t_pc th = Held Writer /\
  (forall t' th' k', t' <> 0%nat -> threads s !! t' = Some th' -> role_of (t_pc th') = RIn k' -> Writer = Reader /\ k' = Reader) /\
  nsync_mu_assert_held (word s) = bool_decide (Writer = Writer).
Proof.
  destruct (run (nsync_mu_init 2) contended) as [s|] eqn:E; [|by vm_compute in E].
  destruct (threads s !! 0%nat) as [th|] eqn:Eth; [|by vm_compute in E; simplify_eq].
  assert (t_pc th = Held Writer) as Hp by (vm_compute in E; simplify_eq; vm_compute in Eth; by simplify_eq).
  exists s, th. split_and!; [done|done|..]; apply (nsync_mu_excludes 2 s 0 th Writer ltac:(done) (run_reachable 2 contended s E) Eth); by rewrite Hp.
Defined.
End NsyncMuRefine.
