(* ===== verification/NsyncMuLive.v ===== *)
(** * The mutex of nsync forgets no waiter

    When no thread holds the mutex and one sleeps for it, the steps of the
    threads that are in the code lead to a thread that holds it, without a new
    call of anybody: no wakeup is lost. *)
From S2P Require Import Prelude NsyncMu NsyncMuSpec NsyncMuRefine.

Module NsyncMuLive.
Import NsyncMu NsyncMuRefine.
Module S := NsyncMuSpec.
Import NsyncMuSpec(flags, mk_flags, wlock, spin, wait, desig, writer_waiting, long_wait, role(..), lock, mk_lock, bits, readers, queue, roles, waitings, sems).

(** A step of a thread inside of the code. *)
Definition internal (s s' : state) : Prop := exists t, step None t s = Some s'.

Definition someone_holds (s : state) : Prop := exists t th k, threads s !! t = Some th /\ t_pc th = Held k.

(** Some run of the code gives the mutex to a thread. *)
Definition progress (s : state) : Prop := exists s', rtc internal s s' /\ someone_holds s'.

(** No lock bit is set. *)
Definition free (s : state) : Prop := Z.land (word s) MU_ANY_LOCK = 0.

Lemma progress_step s s' t : step None t s = Some s' -> progress s' -> progress s.
Proof. intros Hs (s2 & Hr & Hh). exists s2. split; [|done]. eapply rtc_l; [by exists t|done]. Qed.

(** The step of a thread at a known point. *)
Ltac at_step Hth Hp := unfold step; rewrite Hth; cbn [mbind option_bind]; rewrite Hp; unfold lock_slow_at, unlock_slow_at, wake_at, goto.

Lemma free_mask s k : free s -> Z.land (word s) (zero_mask true k) = 0.
Proof.
  unfold free. intros H. destruct k; [done|]. change (zero_mask true Reader) with (Z.land MU_ANY_LOCK MU_WLOCK).
  by rewrite Z.land_assoc, H.
Qed.

Lemma put_thread s t w q th th' : threads s !! t = Some th -> threads (put s t w q th') !! t = Some th'.
Proof. intros H. apply list_lookup_insert_eq. by eapply lookup_lt_Some. Qed.

(** ** A woken thread on its own *)

Definition woken_slow (l : slow) : Prop := s_zero l = zero_mask true (s_type l).

Lemma progress_acquire s t th l old :
  free s -> threads s !! t = Some th -> t_pc th = SlowAcquire l old -> word s = old -> progress s.
Proof.
  intros Hf Hth Hp Hw. eapply (progress_step _ _ t).
  - at_step Hth Hp. unfold cas. rewrite Hw, Z.eqb_refl. reflexivity.
  - eexists. split; [done|]. eexists t, _, _. split; [by eapply put_thread|done].
Qed.

Lemma progress_load s t th l : free s -> threads s !! t = Some th -> t_pc th = SlowLoad l -> woken_slow l -> progress s.
Proof.
  intros Hf Hth Hp Hl. eapply (progress_step _ _ t).
  - at_step Hth Hp. rewrite Hl, free_mask, Z.eqb_refl by done. reflexivity.
  - eapply progress_acquire; [exact Hf|by eapply put_thread|done|done].
Qed.

(** The compare-and-swap of a thread that looked at another word fails. *)
Lemma progress_cas_fail s t th old new success fail :
  threads s !! t = Some th -> step None t s = Some (cas s t th old new success fail) -> word s <> old ->
  progress (put s t (word s) (waiters s) (set_pc fail th)) -> progress s.
Proof. intros Hth Hs Hw. eapply progress_step. rewrite Hs. unfold cas. by destruct (Z.eqb_spec (word s) old). Qed.

Lemma progress_try s t th l d w :
  free s -> threads s !! t = Some th -> pc_ok (t_pc th) -> role_of (t_pc th) = RTry (s_type l) d w -> d = true -> progress s.
Proof.
  intros Hf Hth Hok Hr Hd.
  assert (forall l', slow_ok l' -> flag (s_clear l') MU_DESIG_WAKER = d -> woken_slow l') as Hwoken.
  { intros l' (d' & w' & Hc & _ & Hz) Hfl. rewrite Hc, flag_desig in Hfl. unfold woken_slow. by rewrite Hz, Hfl, Hd. }
  destruct (t_pc th) as [| | | | | | | | |l'|l' old|l' old| | | | | | | | | | | | | | | |] eqn:Hp; simplify_eq/=.
  - eapply progress_load; [done|exact Hth|exact Hp|by apply Hwoken].
  - destruct Hok as [Hl Hz]. destruct (decide (word s = old)) as [E|E]; [by eapply progress_acquire|].
    eapply progress_cas_fail; [exact Hth|at_step Hth Hp; reflexivity|done|].
    eapply progress_load; [exact Hf|by eapply put_thread|done|by apply Hwoken].
  - destruct Hok as (Hl & Hz & _). rewrite (Hwoken l' Hl) in Hz by done.
    eapply progress_cas_fail; [exact Hth|at_step Hth Hp; reflexivity| |].
    + intros <-. by apply Hz, free_mask.
    + eapply progress_load; [exact Hf|by eapply put_thread|done|by apply Hwoken].
Qed.

Lemma progress_wait s t th l :
  free s -> threads s !! t = Some th -> t_pc th = SlowWait l -> slow_ok l -> waiting th = false -> progress s.
Proof.
  intros Hf Hth Hp Hl Hw. destruct (slow_woken_ok l Hl) as ((d & w & Hc & Hlw & Hz) & Ht & Hd & _).
  eapply (progress_step _ _ t).
  - at_step Hth Hp. rewrite Hw. reflexivity.
  - eapply progress_load; [exact Hf|by eapply put_thread|done|]. unfold woken_slow. rewrite Hz. rewrite Hc, flag_desig in Hd. by rewrite Hd.
Qed.

(** A thread whose flag is reset and that need not wait for its semaphore. *)
Lemma progress_woken s t th :
  free s -> threads s !! t = Some th -> pc_ok (t_pc th) -> S.queued (role_of (t_pc th)) = true -> waiting th = false ->
  (forall l, t_pc th = SlowSem l -> 0 < sem th) -> progress s.
Proof.
  intros Hf Hth Hok Hq Hw Hs.
  assert (forall s0 th0 l old, free s0 -> threads s0 !! t = Some th0 -> slow_ok l -> waiting th0 = false -> t_pc th0 = SlowSpinCas l old -> word s0 = old -> progress s0) as Hcas.
  { intros s0 th0 l old Hf0 Hth0 Hok0 Hw0 Hp0 E. eapply (progress_step _ _ t).
    - at_step Hth0 Hp0. unfold cas. rewrite E, Z.eqb_refl. reflexivity.
    - eapply progress_wait; [|by eapply put_thread|done|done|done]. unfold free in *. simpl. subst old. unfold andnot.
      rewrite <- Z.land_assoc. exact Hf0. }
  assert (forall s0 th0 l, free s0 -> threads s0 !! t = Some th0 -> slow_ok l -> waiting th0 = false -> t_pc th0 = SlowSpin l -> progress s0) as Hspin.
  { intros s0 th0 l Hf0 Hth0 Hok0 Hw0 Hp0. eapply (progress_step _ _ t).
    - at_step Hth0 Hp0. reflexivity.
    - eapply (Hcas _ _ l (word s0)); [exact Hf0|by eapply put_thread|done|done|done|done]. }
  destruct (t_pc th) as [| | | | | | | | | | | | |l|l old|l|l| | | | | | | | | | |] eqn:Hp; simplify_eq/=.
  - by eapply Hspin.
  - destruct (decide (word s = old)) as [E|E]; [by eapply Hcas|].
    eapply progress_cas_fail; [exact Hth|at_step Hth Hp; reflexivity|done|].
    eapply Hspin; [exact Hf|by eapply put_thread|exact Hok|done|done].
  - by eapply progress_wait.
  - specialize (Hs l eq_refl). apply Z.ltb_lt in Hs. eapply (progress_step _ _ t).
    + at_step Hth Hp. rewrite Hs. reflexivity.
    + eapply progress_wait; [exact Hf|by eapply put_thread|done|done|done].
Qed.

(** ** A thread that wakes others *)

(** The thread that is signalled has its flag reset and was put to sleep. *)
Lemma progress_signal s a t th p q wake :
  good s a -> free s -> threads s !! t = Some th -> t_pc th = Signal p wake ->
  threads s !! p = Some q -> S.queued (role_of (t_pc q)) = true -> waiting q = false -> progress s.
Proof.
  intros (Hrel & Hinv & _) Hf Hth Hp Hq Hqd Hw.
  assert (t <> p) as Hne by (intros ->; rewrite Hth in Hq; simplify_eq; by rewrite Hp in Hqd).
  pose proof (S.waiters_sems a (S.inv_waiters a Hinv) p (sem q) (related_sem s a p q Hrel Hq)) as Hs.
  eapply (progress_step _ _ t); [at_step Hth Hp; rewrite Hq; reflexivity|].
  eapply (progress_woken _ p); [exact Hf|simpl; rewrite list_lookup_alter_eq, list_lookup_insert_ne, Hq by done; reflexivity|..]; simpl; try done.
  - by eapply related_pc.
  - intros. lia.
Qed.

Lemma progress_wake s a t th p wake : good s a -> free s -> threads s !! t = Some th -> t_pc th = Wake (p :: wake) -> progress s.
Proof.
  intros Hg Hf Hth Hp. pose proof Hg as (Hrel & Hinv & _). pose proof (related_role s a t th Hrel Hth) as Hr. rewrite Hp in Hr. simpl in Hr.
  pose proof (S.inv_waiters a Hinv) as Hwt.
  assert (waitings a !! p = Some true) as Hwp.
  { apply (S.waiters_flag a Hwt), elem_of_app. right. eapply S.wakes_member; [exact Hr|]. simpl. left. }
  assert (exists q, threads s !! p = Some q) as [q Hq].
  { rewrite <- (related_waitings s a Hrel), list_lookup_fmap in Hwp. destruct (threads s !! p); [by eexists|done]. }
  pose proof (S.waiters_queued a Hwt p _ (related_role s a p q Hrel Hq) Hwp) as Hqd.
  assert (t <> p) as Hne by (intros ->; rewrite Hth in Hq; simplify_eq; by rewrite Hp in Hqd).
  assert (step None t s = Some (mk_state (word s) (waiters s)
    (alter (fun q => mk_thread (t_pc q) false (sem q) (l_type q)) p (<[t := set_pc (Signal p wake) th]> (threads s))))) as Hstep
    by (at_step Hth Hp; rewrite Hq; done).
  destruct (good_step None t s _ a Hg Hstep) as (a' & _ & Hg'). eapply progress_step; [exact Hstep|].
  eapply (progress_signal _ a' t (set_pc (Signal p wake) th) p (mk_thread (t_pc q) false (sem q) (l_type q))); [exact Hg'|exact Hf| |done| |done|done]; simpl.
  - rewrite list_lookup_alter_ne by done. apply list_lookup_insert_eq. by eapply lookup_lt_Some.
  - by rewrite list_lookup_alter_eq, list_lookup_insert_ne, Hq.
Qed.

(** The rest of the wakeups comes after the current one. *)
Lemma progress_signal_next s a t th p p' wake : good s a -> free s -> threads s !! t = Some th -> t_pc th = Signal p (p' :: wake) -> progress s.
Proof.
  intros Hg Hf Hth Hp. pose proof Hg as (Hrel & Hinv & _). pose proof (related_role s a t th Hrel Hth) as Hr. rewrite Hp in Hr.
  pose proof (S.waiters_signal a (S.inv_waiters a Hinv) t p _ Hr) as Hlt. rewrite (roles_length s a Hrel) in Hlt.
  apply lookup_lt_is_Some_2 in Hlt as [q Hq].
  assert (step None t s = Some (mk_state (word s) (waiters s)
    (alter (fun q => mk_thread (t_pc q) (waiting q) (sem q + 1) (l_type q)) p (<[t := set_pc (Wake (p' :: wake)) th]> (threads s))))) as Hstep
    by (at_step Hth Hp; rewrite Hq; done).
  destruct (good_step None t s _ a Hg Hstep) as (a' & _ & Hg'). eapply progress_step; [exact Hstep|].
  assert (exists th', alter (fun q => mk_thread (t_pc q) (waiting q) (sem q + 1) (l_type q)) p (<[t := set_pc (Wake (p' :: wake)) th]> (threads s)) !! t = Some th' /\ t_pc th' = Wake (p' :: wake)) as (th' & Hth' & Hp').
  { pose proof (lookup_lt_Some _ _ _ Hth) as Hlt. destruct (decide (p = t)) as [->|Hne].
    - rewrite list_lookup_alter_eq, list_lookup_insert_eq by done. by eexists.
    - rewrite list_lookup_alter_ne, list_lookup_insert_eq by done. by eexists. }
  eapply (progress_wake _ a' t th'); [exact Hg'|exact Hf|exact Hth'|exact Hp'].
Qed.

Lemma finish_free s a f : good s a -> free s -> finish_ok f -> Z.land (andnot (Z.lor (u32 (word s - f_late f)) (f_set f)) (f_clear f)) MU_ANY_LOCK = 0.
Proof.
  intros (Hrel & Hinv & Hfew) Hf (wake & kept & ws & af & -> & Haf). pose proof (few_readers s a Hrel Hinv Hfew) as Hr. unfold free in Hf.
  rewrite (related_word s a Hrel) in *. rewrite finish_encode by done. change MU_ANY_LOCK with (zero_mask true Writer) in *.
  apply Z.eqb_eq in Hf. apply Z.eqb_eq. rewrite zero_mask_encode in * by done. by destruct (bits a).
Qed.

Lemma progress_finish s a t th f p wake : good s a -> free s -> threads s !! t = Some th -> t_pc th = Finish f -> f_wake f = p :: wake -> progress s.
Proof.
  intros Hg Hf Hth Hp Hw. pose proof (related_pc s a t th (proj1 Hg) Hth) as Hok. rewrite Hp in Hok.
  assert (step None t s = Some (put s t (word s) (waiters s) (set_pc (FinishCas f (word s)) th))) as Hstep
    by (at_step Hth Hp; done).
  destruct (good_step None t s _ a Hg Hstep) as (a' & _ & Hg'). eapply progress_step; [exact Hstep|].
  pose proof (put_thread s t (word s) (waiters s) th (set_pc (FinishCas f (word s)) th) Hth) as Hth'.
  set (s' := put _ _ _ _ _) in *.
  assert (step None t s' = Some (put s' t (andnot (Z.lor (u32 (word s - f_late f)) (f_set f)) (f_clear f)) (waiters s) (set_pc (Wake (f_wake f)) (set_pc (FinishCas f (word s)) th)))) as Hstep'.
  { unfold step. rewrite Hth'. cbn [mbind option_bind set_pc t_pc unlock_slow_at]. unfold cas. by rewrite Z.eqb_refl. }
  destruct (good_step None t s' _ a' Hg' Hstep') as (a'' & _ & Hg''). eapply progress_step; [exact Hstep'|].
  eapply progress_wake; [exact Hg''| |by eapply put_thread|simpl; by rewrite Hw]. exact (finish_free s a f Hg Hf Hok).
Qed.

Lemma progress_finish_cas s a t th f old p wake : good s a -> free s -> threads s !! t = Some th -> t_pc th = FinishCas f old -> f_wake f = p :: wake -> progress s.
Proof.
  intros Hg Hf Hth Hp Hw. pose proof (related_pc s a t th (proj1 Hg) Hth) as Hok. rewrite Hp in Hok.
  assert (step None t s = Some (cas s t th old (andnot (Z.lor (u32 (old - f_late f)) (f_set f)) (f_clear f)) (Wake (f_wake f)) (Finish f))) as Hstep
    by (at_step Hth Hp; done).
  destruct (good_step None t s _ a Hg Hstep) as (a' & _ & Hg'). eapply progress_step; [exact Hstep|]. unfold cas in *.
  destruct (Z.eqb_spec (word s) old) as [<-|].
  - eapply progress_wake; [exact Hg'| |by eapply put_thread|simpl; by rewrite Hw]. exact (finish_free s a f Hg Hf Hok).
  - eapply progress_finish; [exact Hg'|exact Hf|by eapply put_thread|done|done].
Qed.

Lemma progress_scan s a t th k : good s a -> free s -> threads s !! t = Some th -> t_pc th = Scan k false -> queue a <> [] -> progress s.
Proof.
  intros Hg Hf Hth Hp Hq. set (types := fun p => match threads s !! p with Some q => l_type q | None => Reader end).
  destruct (scan types (waiters s) 0) as [kept f] eqn:E.
  assert (step None t s = Some (put s t (word s) kept (set_pc (Finish f) th))) as Hstep.
  { at_step Hth Hp. fold types. by rewrite E. }
  destruct (good_step None t s _ a Hg Hstep) as (a' & _ & Hg'). eapply progress_step; [exact Hstep|].
  destruct (scan_queue_spec types (waiters s) kept f E) as (wake & ws & af & -> & _ & Hperm & Hwk & _).
  rewrite (related_queue s a (proj1 Hg)) in Hperm. destruct wake as [|p wake].
  - rewrite Hwk in Hperm by done. by apply Permutation_nil_r in Hperm.
  - eapply progress_finish; [exact Hg'|exact Hf|by eapply put_thread|done|done].
Qed.

(** ** Somebody can go on *)

Lemma related_thread s a t r : related s a -> roles a !! t = Some r -> exists th, threads s !! t = Some th /\ role_of (t_pc th) = r.
Proof.
  intros H Hr. rewrite <- (related_roles s a H), list_lookup_fmap in Hr. destruct (threads s !! t) as [th|]; [|done]. simplify_eq/=. by exists th.
Qed.

(** A thread whose flag is reset gets the mutex, or its waker gives it its semaphore. *)
Lemma progress_reset s a t th :
  good s a -> free s -> threads s !! t = Some th -> S.queued (role_of (t_pc th)) = true -> waiting th = false -> progress s.
Proof.
  intros Hg Hf Hth Hq Hw. pose proof Hg as (Hrel & Hinv & _). pose proof (related_pc s a t th Hrel Hth) as Hok.
  assert (waitings a !! t = Some false) as Hwt by (rewrite <- Hw; by eapply related_waiting).
  destruct (t_pc th) as [| | | | | | | | | | | | |l|l old|l|l| | | | | | | | | | |] eqn:Hp; simplify_eq/=.
  1-3: eapply progress_woken; [done|exact Hth|by rewrite Hp|by rewrite Hp|done|intros; congruence].
  pose proof (related_role s a t th Hrel Hth) as Hr. rewrite Hp in Hr.
  destruct (S.waiters_semaphore a (S.inv_waiters a Hinv) t _ _ Hr Hwt) as [(n & Hn & Hpos)|(u & wake & Hu)].
  - rewrite (related_sem s a t th Hrel Hth) in Hn. simplify_eq. eapply progress_woken; [done|exact Hth|by rewrite Hp|by rewrite Hp|done|done].
  - destruct (related_thread s a u _ Hrel Hu) as (tu & Htu & Hru). destruct (t_pc tu) eqn:Hpu; simplify_eq/=.
    eapply progress_signal; [exact Hg|done|exact Htu|exact Hpu|exact Hth|by rewrite Hp|done].
Qed.

(** A thread with others to wake. *)
Lemma progress_wakes s a t th p : good s a -> free s -> threads s !! t = Some th -> p ∈ S.to_wake (role_of (t_pc th)) -> progress s.
Proof.
  intros Hg Hf Hth Hp. destruct (t_pc th) as [| | | | | | | | | | | | | | | | | | | | | | |k tc|f|f old|wake|p' wake] eqn:E; simpl in Hp; try by apply not_elem_of_nil in Hp.
  - destruct (f_wake f) eqn:Ew; [by apply not_elem_of_nil in Hp|]. by eapply progress_finish.
  - destruct (f_wake f) eqn:Ew; [by apply not_elem_of_nil in Hp|]. by eapply progress_finish_cas.
  - destruct wake; [by apply not_elem_of_nil in Hp|]. by eapply progress_wake.
  - destruct wake; [by apply not_elem_of_nil in Hp|]. by eapply progress_signal_next.
Qed.

Lemma progress_active s a : good s a -> free s -> queue a <> [] -> S.some_active a -> progress s.
Proof.
  intros Hg Hf Hq (t & r & w & Hr & Hw & Ha). pose proof Hg as (Hrel & Hinv & _).
  destruct (related_thread s a t r Hrel Hr) as (th & Hth & Hro). pose proof (related_pc s a t th Hrel Hth) as Hok.
  rewrite (related_waiting s a t th Hrel Hth) in Hw. simplify_eq.
  destruct (S.queued (role_of (t_pc th))) eqn:Eq.
  { eapply progress_reset; [exact Hg|done|exact Hth|done|]. destruct (waiting th); [|done]. by destruct (role_of (t_pc th)). }
  destruct (role_of (t_pc th)) as [| |k d l| | | | | |wake kept ws|wake|p wake] eqn:Er; simplify_eq/=.
  - destruct d; [|done].
    assert (exists l', role_of (t_pc th) = RTry (s_type l') true l) as [l' E] by (rewrite Er; by exists (mk_slow k 0 0 0 0)).
    by eapply (progress_try s t th l').
  - destruct (t_pc th) eqn:Hp; simplify_eq/=. subst. by eapply progress_scan.
  - destruct wake as [|p wake].
    + destruct (S.flags_finish a (S.inv_flags a Hinv) t [] kept ws Hr) as (_ & Hn & _). by destruct Hq, Hn.
    + eapply (progress_wakes s a t th p); [done..|]. rewrite Er. left.
  - destruct wake as [|p wake]; [done|]. eapply (progress_wakes s a t th p); [done..|]. rewrite Er. left.
  - destruct wake as [|p' wake]; [done|]. eapply (progress_wakes s a t th p'); [done..|]. rewrite Er. left.
Qed.

Lemma nobody_free s a : good s a -> (forall t th k, threads s !! t = Some th -> role_of (t_pc th) <> RIn k) -> S.is_free a /\ free s.
Proof.
  intros Hg Hno. pose proof Hg as (Hrel & Hinv & Hfew). pose proof (few_readers s a Hrel Hinv Hfew) as Hr.
  assert (forall f, (forall r, f r = true -> exists k, r = RIn k) -> S.count f (roles a) = 0%nat) as Hzero.
  { intros f Hf. rewrite <- (related_roles s a Hrel). assert (forall th, th ∈ threads s -> f (role_of (t_pc th)) = false) as Hall.
    { intros th (t & Hth)%list_elem_of_lookup. destruct (f (role_of (t_pc th))) eqn:E; [|done]. destruct (Hf _ E) as [k Hk]. by destruct (Hno t th k Hth). }
    clear -Hall. induction (threads s) as [|th l IH]; [done|]. unfold S.count in *. simpl. rewrite Hall by left. apply IH. intros th' ?. apply Hall. by right. }
  destruct (S.inv_holders a Hinv) as [Hrd Hwr _ _].
  assert (S.is_free a) as Hfree.
  { split; [|rewrite <- Hrd; apply Hzero; intros [|[]| | | | | | | | |]; simpl; try done; by eexists].
    rewrite Hzero in Hwr by (intros [|[]| | | | | | | | |]; simpl; try done; by eexists). by destruct (wlock (bits a)). }
  split; [done|]. unfold free. apply Z.eqb_eq. change MU_ANY_LOCK with (zero_mask true Writer). rewrite (related_word s a Hrel), zero_mask_encode by done.
  destruct Hfree as [Hw Hn]. unfold blocked. by rewrite Hw, Hn.
Qed.

(** C8: no wakeup is lost.  In every state that any number of threads (fewer
    than 2^24) reach, when one of them sleeps for the mutex and none holds it,
    the threads inside of the code, with no new call, can go on until one of
    them holds the mutex. *)
Theorem nsync_mu_no_lost_wakeup n s p q l :
  few n -> reachable n s -> threads s !! p = Some q -> t_pc q = SlowSem l ->
  (forall t th k, threads s !! t = Some th -> role_of (t_pc th) <> RIn k) ->
  exists s', rtc internal s s' /\ someone_holds s'.
Proof.
  intros Hn Hs Hp Hpc Hno. destruct (reachable_good n s Hn Hs) as (a & _ & Hg). pose proof Hg as (Hrel & Hinv & _).
  destruct (nobody_free s a Hg Hno) as [Hfree Hf]. pose proof (S.inv_waiters a Hinv) as Hwt.
  destruct (waiting q) eqn:Hw; [|by eapply progress_reset; [..|by rewrite Hpc|done]].
  assert (waitings a !! p = Some true) as Hwp by (rewrite <- Hw; by eapply related_waiting).
  apply (S.waiters_flag a Hwt) in Hwp. apply elem_of_app in Hwp as [Hin|Hin].
  - assert (queue a <> []) as Hq by (intros E; rewrite E in Hin; by apply not_elem_of_nil in Hin).
    eapply progress_active; [exact Hg|done|done|]. apply (S.flags_free a (S.inv_flags a Hinv)); [done|].
    apply (S.flags_wait a (S.inv_flags a Hinv)). by left.
  - apply S.wakes_find in Hin as (u & r & Hr & Hin). destruct (related_thread s a u r Hrel Hr) as (tu & Htu & <-). by eapply progress_wakes.
Qed.

(** The reader of [contended] sleeps, and the writer has released. *)
Definition released : list (option call * nat) := contended ++ (Some CallUnlock, 0%nat) :: replicate 4 (None, 0%nat).

Example nsync_mu_no_lost_wakeup_witness : exists s, run (nsync_mu_init 2) released = Some s /\ exists s', rtc internal s s' /\ someone_holds s'.
Proof.
  destruct (run (nsync_mu_init 2) released) as [s|] eqn:E; [|by vm_compute in E].
  exists s. split; [done|]. destruct (threads s !! 1%nat) as [q|] eqn:Eq; [|by vm_compute in E; simplify_eq].
  destruct (t_pc q) as [| | | | | | | | | | | | | | | |l| | | | | | | | | | |] eqn:Ep; try (exfalso; vm_compute in E; simplify_eq; vm_compute in Eq; simplify_eq; vm_compute in Ep; done).
  apply (nsync_mu_no_lost_wakeup 2 s 1 q l ltac:(done) (run_reachable 2 released s E) Eq Ep).
  intros t th k Ht. vm_compute in E. simplify_eq. destruct t as [|[|t]]; vm_compute in Ht; by simplify_eq.
Defined.
End NsyncMuLive.
