(* ===== verification/Utf8.v ===== *)
(** * UTF-8 of one code point ([src/library/utf8proc/utf8proc.c])

    Reading a code point from bytes, writing one, and what a valid code point
    is.  Code points are [utf8proc_int32_t] values, memory is a list of bytes. *)
From S2P Require Import Prelude.

Module Utf8.

Definition UTF8PROC_ERROR_NOMEM : Z := -1.
Definition UTF8PROC_ERROR_OVERFLOW : Z := -2.
Definition UTF8PROC_ERROR_INVALIDUTF8 : Z := -3.
Definition UTF8PROC_ERROR_NOTASSIGNED : Z := -4.
Definition UTF8PROC_ERROR_INVALIDOPTS : Z := -5.

(** The length of a sequence by its first byte, [0] for a byte that starts none. *)
Definition utf8proc_utf8class (b : Z) : Z :=
  if b <? 0x80 then 1 else if b <? 0xC0 then 0 else if b <? 0xE0 then 2 else if b <? 0xF0 then 3 else if b <? 0xF8 then 4 else 0.

Definition utf_cont (ch : Z) : bool := Z.land ch 0xc0 =? 0x80.

(** The result and the code point that is stored.  A byte [str[i]] with [i] at
    or beyond [end] is not read; [None] is a read outside of memory. *)
Definition utf8proc_iterate (str : list Z) (strlen : Z) : option (Z * Z) :=
  let invalid := Some (UTF8PROC_ERROR_INVALIDUTF8, -1) in
  if strlen =? 0 then Some (0, -1)
  else
    let end_ := if strlen <? 0 then 4 else strlen in
    uc ← str !! 0%nat;
    if uc <? 0x80 then Some (1, uc)
    else if 0xf4 - 0xc2 <? u32 (uc - 0xc2) then invalid
    else if uc <? 0xe0 then
      if end_ <=? 1 then invalid
      else
        c1 ← str !! 1%nat;
        if negb (utf_cont c1) then invalid else Some (2, Z.lor (Z.shiftl (Z.land uc 0x1f) 6) (Z.land c1 0x3f))
    else if uc <? 0xf0 then
      if end_ <=? 2 then invalid
      else
        c1 ← str !! 1%nat;
        if negb (utf_cont c1) then invalid
        else
          c2 ← str !! 2%nat;
          if negb (utf_cont c2) then invalid
          else if (uc =? 0xed) && (0x9f <? c1) then invalid
          else
            let uc := Z.lor (Z.lor (Z.shiftl (Z.land uc 0xf) 12) (Z.shiftl (Z.land c1 0x3f) 6)) (Z.land c2 0x3f) in
            if uc <? 0x800 then invalid else Some (3, uc)
    else
      if end_ <=? 3 then invalid
      else
        c1 ← str !! 1%nat;
        if negb (utf_cont c1) then invalid
        else
          c2 ← str !! 2%nat;
          if negb (utf_cont c2) then invalid
          else
            c3 ← str !! 3%nat;
            if negb (utf_cont c3) then invalid
            else if (uc =? 0xf0) && (c1 <? 0x90) then invalid
            else if (uc =? 0xf4) && (0x8f <? c1) then invalid
            else Some (4, Z.lor (Z.lor (Z.lor (Z.shiftl (Z.land uc 7) 18) (Z.shiftl (Z.land c1 0x3f) 12)) (Z.shiftl (Z.land c2 0x3f) 6)) (Z.land c3 0x3f)).

Definition utf8proc_codepoint_valid (uc : Z) : bool := (0x07ff <? u32 (u32 uc - 0xd800)) && (u32 uc <? 0x110000).

(** The bytes stored at [dst], as many as the result says. *)
Definition utf8proc_encode_char (uc : Z) : list Z :=
  if uc <? 0 then []
  else if uc <? 0x80 then [u8 uc]
  else if uc <? 0x800 then [u8 (0xC0 + Z.shiftr uc 6); u8 (0x80 + Z.land uc 0x3F)]
  else if uc <? 0x10000 then [u8 (0xE0 + Z.shiftr uc 12); u8 (0x80 + Z.land (Z.shiftr uc 6) 0x3F); u8 (0x80 + Z.land uc 0x3F)]
  else if uc <? 0x110000 then
    [u8 (0xF0 + Z.shiftr uc 18); u8 (0x80 + Z.land (Z.shiftr uc 12) 0x3F); u8 (0x80 + Z.land (Z.shiftr uc 6) 0x3F); u8 (0x80 + Z.land uc 0x3F)]
  else [].

(** With a byte of its own for a grapheme break. *)
Definition charbound_encode_char (uc : Z) : list Z :=
  if uc <? 0 then if uc =? -1 then [0xFF] else []
  else utf8proc_encode_char uc.

(** ** Valid code points *)

Definition scalar (c : Z) : Prop := 0 <= c < 0xd800 \/ 0xe000 <= c < 0x110000.
#[export] Instance scalar_dec c : Decision (scalar c).
Proof. unfold scalar. apply _. Defined.

Lemma codepoint_valid_scalar uc : - 2 ^ 31 <= uc < 2 ^ 31 -> utf8proc_codepoint_valid uc = bool_decide (scalar uc).
Proof.
  intros H. unfold utf8proc_codepoint_valid, wrap, scalar. change (2 ^ 32) with 4294967296. change (2 ^ 31) with 2147483648 in H.
  case_bool_decide as Hs.
  - apply andb_true_iff. split; apply Z.ltb_lt; Z.div_mod_to_equations; lia.
  - apply andb_false_iff. destruct (Z_lt_ge_dec uc 0); [right|destruct (Z_lt_ge_dec uc 0x110000); [left|right]]; apply Z.ltb_ge; Z.div_mod_to_equations; lia.
Qed.

(** ** The bits as arithmetic *)

Lemma utf_cont_range c : byte_ok c -> utf_cont c = (0x80 <=? c) && (c <? 0xc0).
Proof.
  intros H. enough (forallb (fun c => eqb (utf_cont c) ((0x80 <=? c) && (c <? 0xc0))) (seqZ 0 256) = true) as Ha; [|by vm_compute].
  rewrite forallb_forall in Ha. apply eqb_prop, Ha, list_elem_of_In, elem_of_seqZ. unfold byte_ok, in_u in H. lia.
Qed.

Lemma lor_shiftl a k b : 0 <= k -> in_u k b -> Z.lor (Z.shiftl a k) b = 2 ^ k * a + b.
Proof. intros Hk Hb. destruct (disjoint_add k b a Hb) as [_ H]. rewrite Z.lor_comm, <- H. lia. Qed.

Lemma land_63 c : Z.land c 0x3f = c mod 64.
Proof. change 0x3f with (Z.ones 6). by rewrite Z.land_ones. Qed.

Lemma mod_64_in_u c k : 6 <= k -> in_u k (c mod 64).
Proof. intros Hk. unfold in_u. assert (64 <= 2 ^ k) by (change 64 with (2 ^ 6); by apply Z.pow_le_mono_r). pose proof (Z.mod_pos_bound c 64). lia. Qed.

Lemma two_bytes a b : Z.lor (Z.shiftl (Z.land a 0x1f) 6) (Z.land b 0x3f) = 64 * (a mod 32) + b mod 64.
Proof. rewrite land_63, lor_shiftl by (done || by apply mod_64_in_u). change 0x1f with (Z.ones 5). by rewrite Z.land_ones. Qed.

Lemma shiftl_lor a b j k : 0 <= j -> 0 <= k -> Z.lor (Z.shiftl a (j + k)) (Z.shiftl b k) = Z.shiftl (Z.lor (Z.shiftl a j) b) k.
Proof. intros. by rewrite Z.shiftl_lor, Z.shiftl_shiftl by done. Qed.

Lemma three_bytes a b c :
  Z.lor (Z.lor (Z.shiftl (Z.land a 0xf) 12) (Z.shiftl (Z.land b 0x3f) 6)) (Z.land c 0x3f) = 64 * (64 * (a mod 16) + b mod 64) + c mod 64.
Proof.
  change 12 with (6 + 6). rewrite shiftl_lor, !land_63 by done. rewrite !lor_shiftl by (done || by apply mod_64_in_u).
  change 0xf with (Z.ones 4). by rewrite Z.land_ones.
Qed.

Lemma four_bytes a b c d :
  Z.lor (Z.lor (Z.lor (Z.shiftl (Z.land a 7) 18) (Z.shiftl (Z.land b 0x3f) 12)) (Z.shiftl (Z.land c 0x3f) 6)) (Z.land d 0x3f) =
  64 * (64 * (64 * (a mod 8) + b mod 64) + c mod 64) + d mod 64.
Proof.
  change 18 with (12 + 6). change 12 with (6 + 6) at 2. rewrite <- (Z.shiftl_shiftl (Z.land b 0x3f) 6 6) by done.
  rewrite (shiftl_lor (Z.land a 7) (Z.shiftl (Z.land b 63) 6) 12 6) by done. rewrite <- Z.shiftl_lor.
  change 12 with (6 + 6). rewrite shiftl_lor, !land_63 by done. rewrite !lor_shiftl by (done || by apply mod_64_in_u).
  change 7 with (Z.ones 3). by rewrite Z.land_ones.
Qed.

(** ** Reading *)

(** The function with arithmetic instead of bits. *)
Definition cont (c : Z) : bool := (0x80 <=? c) && (c <? 0xc0).

Definition iterate_arith (str : list Z) (end_ : Z) : option (Z * Z) :=
  let invalid := Some (-3, -1) in
  uc ← str !! 0%nat;
  if uc <? 0x80 then Some (1, uc)
  else if (uc <? 0xc2) || (0xf4 <? uc) then invalid
  else if uc <? 0xe0 then
    if end_ <=? 1 then invalid
    else
      c1 ← str !! 1%nat;
      if negb (cont c1) then invalid else Some (2, 64 * (uc - 0xc0) + (c1 - 0x80))
  else if uc <? 0xf0 then
    if end_ <=? 2 then invalid
    else
      c1 ← str !! 1%nat;
      if negb (cont c1) then invalid
      else
        c2 ← str !! 2%nat;
        if negb (cont c2) then invalid
        else if (uc =? 0xed) && (0x9f <? c1) then invalid
        else if (uc =? 0xe0) && (c1 <? 0xa0) then invalid
        else Some (3, 4096 * (uc - 0xe0) + 64 * (c1 - 0x80) + (c2 - 0x80))
  else
    if end_ <=? 3 then invalid
    else
      c1 ← str !! 1%nat;
      if negb (cont c1) then invalid
      else
        c2 ← str !! 2%nat;
        if negb (cont c2) then invalid
        else
          c3 ← str !! 3%nat;
          if negb (cont c3) then invalid
          else if (uc =? 0xf0) && (c1 <? 0x90) then invalid
          else if (uc =? 0xf4) && (0x8f <? c1) then invalid
          else Some (4, 262144 * (uc - 0xf0) + 4096 * (c1 - 0x80) + 64 * (c2 - 0x80) + (c3 - 0x80)).

Lemma lead_range uc : byte_ok uc -> 0x80 <= uc -> (0xf4 - 0xc2 <? u32 (uc - 0xc2)) = (uc <? 0xc2) || (0xf4 <? uc).
Proof.
  intros H Hu. unfold byte_ok, in_u, wrap in *. change (2 ^ 32) with 4294967296.
  destruct (Z.ltb_spec uc 0xc2), (Z.ltb_spec 0xf4 uc); simpl; (apply Z.ltb_lt || apply Z.ltb_ge); Z.div_mod_to_equations; lia.
Qed.

Lemma iterate_is_arith str strlen :
  bytes_ok str -> strlen <> 0 -> utf8proc_iterate str strlen = iterate_arith str (if strlen <? 0 then 4 else strlen).
Proof.
  intros Hok Hn. assert (forall i c, str !! i = Some c -> 0 <= c < 256) as Hb by (intros i c Hc; exact (Forall_lookup_1 _ _ _ _ Hok Hc)).
  unfold utf8proc_iterate, iterate_arith. rewrite (proj2 (Z.eqb_neq _ _) Hn). generalize (if strlen <? 0 then 4 else strlen). intros end_.
  destruct (str !! 0%nat) as [uc|] eqn:E0; [|done]. cbn [mbind option_bind]. apply Hb in E0. destruct (Z.ltb_spec uc 0x80) as [|Hu]; [done|].
  rewrite (lead_range uc E0 Hu). destruct ((uc <? 0xc2) || (0xf4 <? uc)) eqn:El; [done|].
  apply orb_false_iff in El as [El1%Z.ltb_ge El2%Z.ltb_ge].
  destruct (Z.ltb_spec uc 0xe0); [|destruct (Z.ltb_spec uc 0xf0)].
  - case_if; [done|]. destruct (str !! 1%nat) as [c1|] eqn:E1; [|done]. cbn [mbind option_bind]. apply Hb in E1.
    rewrite utf_cont_range by done. fold (cont c1). destruct (cont c1) eqn:C1; [|done]. cbn [negb]. rewrite two_bytes. unfold cont in C1.
    do 2 f_equal. Z.div_mod_to_equations. lia.
  - case_if; [done|]. destruct (str !! 1%nat) as [c1|] eqn:E1; [|done]. cbn [mbind option_bind]. apply Hb in E1.
    rewrite utf_cont_range by done. fold (cont c1). destruct (cont c1) eqn:C1; [|done]. cbn [negb].
    destruct (str !! 2%nat) as [c2|] eqn:E2; [|done]. cbn [mbind option_bind]. apply Hb in E2.
    rewrite utf_cont_range by done. fold (cont c2). destruct (cont c2) eqn:C2; [|done]. cbn [negb]. unfold cont in C1, C2.
    case_if; [done|]. cbn zeta. rewrite three_bytes.
    assert (64 * (64 * (uc mod 16) + c1 mod 64) + c2 mod 64 = 4096 * (uc - 0xe0) + 64 * (c1 - 0x80) + (c2 - 0x80)) as -> by (Z.div_mod_to_equations; lia).
    destruct ((uc =? 0xe0) && (c1 <? 0xa0)) eqn:Es; [by rewrite (proj2 (Z.ltb_lt _ _)) by lia|]. by rewrite (proj2 (Z.ltb_ge _ _)) by lia.
  - case_if; [done|]. destruct (str !! 1%nat) as [c1|] eqn:E1; [|done]. cbn [mbind option_bind]. apply Hb in E1.
    rewrite utf_cont_range by done. fold (cont c1). destruct (cont c1) eqn:C1; [|done]. cbn [negb].
    destruct (str !! 2%nat) as [c2|] eqn:E2; [|done]. cbn [mbind option_bind]. apply Hb in E2.
    rewrite utf_cont_range by done. fold (cont c2). destruct (cont c2) eqn:C2; [|done]. cbn [negb].
    destruct (str !! 3%nat) as [c3|] eqn:E3; [|done]. cbn [mbind option_bind]. apply Hb in E3.
    rewrite utf_cont_range by done. fold (cont c3). destruct (cont c3) eqn:C3; [|done]. cbn [negb]. unfold cont in C1, C2, C3.
    case_if; [done|]. case_if; [done|]. rewrite four_bytes. do 2 f_equal. Z.div_mod_to_equations. lia.
Qed.

(** ** Writing *)

Lemma encode_arith uc : scalar uc ->
  utf8proc_encode_char uc =
  if uc <? 0x80 then [uc]
  else if uc <? 0x800 then [0xC0 + uc / 64; 0x80 + uc mod 64]
  else if uc <? 0x10000 then [0xE0 + uc / 4096; 0x80 + uc / 64 mod 64; 0x80 + uc mod 64]
  else [0xF0 + uc / 262144; 0x80 + uc / 4096 mod 64; 0x80 + uc / 64 mod 64; 0x80 + uc mod 64].
Proof.
  unfold scalar. intros H. unfold utf8proc_encode_char. rewrite (proj2 (Z.ltb_ge uc 0)) by lia. rewrite !land_63, !Z.shiftr_div_pow2 by done.
  change (2 ^ 6) with 64. change (2 ^ 12) with 4096. change (2 ^ 18) with 262144.
  assert (forall z, 0 <= z < 256 -> u8 z = z) as Hw by (intros; by apply wrap_small).
  case_if; [by rewrite Hw by lia|]. case_if; [by rewrite !Hw by (Z.div_mod_to_equations; lia)|].
  case_if; [by rewrite !Hw by (Z.div_mod_to_equations; lia)|]. rewrite (proj2 (Z.ltb_lt uc 0x110000)) by lia.
  by rewrite !Hw by (Z.div_mod_to_equations; lia).
Qed.

Lemma encode_bytes_ok uc : bytes_ok (utf8proc_encode_char uc).
Proof. unfold utf8proc_encode_char. repeat case_if; repeat (apply Forall_cons; split); try apply Forall_nil_2; by apply wrap_in_u. Qed.

Lemma encode_length uc : (length (utf8proc_encode_char uc) <= 4)%nat.
Proof. unfold utf8proc_encode_char. repeat case_if; simpl; lia. Qed.

Lemma encode_nonempty uc : scalar uc -> (1 <= length (utf8proc_encode_char uc))%nat.
Proof. intros H. rewrite encode_arith by done. repeat case_if; simpl; lia. Qed.

(** A code point that was written is read. *)
Ltac decide_if :=
  match goal with
  | |- context [if ?b then _ else _] =>
      first [assert (b = false) as -> by (Z.div_mod_to_equations; lia)|assert (b = true) as -> by (Z.div_mod_to_equations; lia)]
  end.

Lemma iterate_arith_encode c rest end_ :
  scalar c -> Z.of_nat (length (utf8proc_encode_char c)) <= end_ ->
  iterate_arith (utf8proc_encode_char c ++ rest) end_ = Some (Z.of_nat (length (utf8proc_encode_char c)), c).
Proof.
  intros Hc. rewrite encode_arith by done. unfold scalar in Hc. unfold iterate_arith, cont.
  destruct (Z.ltb_spec c 0x80); [|destruct (Z.ltb_spec c 0x800); [|destruct (Z.ltb_spec c 0x10000)]]; cbn [length app lookup list_lookup mbind option_bind]; intros He.
  - by decide_if.
  - repeat decide_if. do 2 f_equal. Z.div_mod_to_equations. lia.
  - repeat decide_if. do 2 f_equal. Z.div_mod_to_equations. lia.
  - repeat decide_if. do 2 f_equal. Z.div_mod_to_equations. lia.
Qed.

(** What is read was written. *)
Ltac next_byte H b E :=
  match type of H with
  | (?o ≫= _) = _ => destruct o as [b|] eqn:E; [cbn [mbind option_bind] in H|done]
  end.
Ltac next_test H E :=
  match type of H with
  | (if ?b then _ else _) = _ => destruct b eqn:E; [try (simplify_eq; lia)|]
  end.

Lemma iterate_arith_read str end_ r c :
  bytes_ok str -> iterate_arith str end_ = Some (r, c) -> 0 < r ->
  scalar c /\ r = Z.of_nat (length (utf8proc_encode_char c)) /\ exists rest, str = utf8proc_encode_char c ++ rest.
Proof.
  intros Hok H Hr. unfold iterate_arith in H. assert (forall i b, str !! i = Some b -> 0 <= b < 256) as Hb by (intros i b Hi; exact (Forall_lookup_1 _ _ _ _ Hok Hi)).
  next_byte H uc E0. pose proof (Hb _ _ E0) as B0. destruct str as [|b0 str]; simplify_eq/=.
  destruct (uc <? 0x80) eqn:T1.
  { simplify_eq. assert (scalar c) as Hc by (unfold scalar; lia). split; [done|]. rewrite encode_arith by done. rewrite T1. split; [done|]. by exists str. }
  next_test H T2. destruct (uc <? 0xe0) eqn:T3; [|destruct (uc <? 0xf0) eqn:T4].
  - next_test H T5. next_byte H c1 E1. next_test H T6. simplify_eq. unfold cont in T6.
    destruct str as [|b1 str]; simplify_eq/=. set (c := 64 * (uc - 192) + (c1 - 128)).
    assert (scalar c) as Hc by (unfold scalar; lia). split; [done|]. rewrite encode_arith by done. unfold c.
    repeat decide_if. split; [done|]. exists str. simpl. repeat f_equal; Z.div_mod_to_equations; lia.
  - next_test H T5. next_byte H c1 E1. next_test H T6. next_byte H c2 E2. next_test H T7. next_test H T8. next_test H T9. simplify_eq. unfold cont in *.
    destruct str as [|b1 [|b2 str]]; simplify_eq/=. set (c := 4096 * (uc - 224) + 64 * (c1 - 128) + (c2 - 128)).
    assert (scalar c) as Hc by (unfold scalar; lia). split; [done|]. rewrite encode_arith by done. unfold c.
    repeat decide_if. split; [done|]. exists str. simpl. repeat f_equal; Z.div_mod_to_equations; lia.
  - next_test H T5. next_byte H c1 E1. next_test H T6. next_byte H c2 E2. next_test H T7. next_byte H c3 E3. next_test H T8. next_test H T9. next_test H T10. simplify_eq. unfold cont in *.
    destruct str as [|b1 [|b2 [|b3 str]]]; simplify_eq/=. set (c := 262144 * (uc - 240) + 4096 * (c1 - 128) + 64 * (c2 - 128) + (c3 - 128)).
    assert (scalar c) as Hc by (unfold scalar; lia). split; [done|]. rewrite encode_arith by done. unfold c.
    repeat decide_if. split; [done|]. exists str. simpl. repeat f_equal; Z.div_mod_to_equations; lia.
Qed.

(** The result is a code point or an error, whatever the bytes are. *)
Lemma iterate_arith_shape str end_ r c : iterate_arith str end_ = Some (r, c) -> 0 < r \/ (r = -3 /\ c = -1).
Proof.
  unfold iterate_arith, mbind, option_bind. intros H. repeat (case_match; simplify_eq/=); first [left; lia|by right].
Qed.

(** A byte is only looked at when the ones before it are not zero. *)
Definition enough (str : list Z) (end_ : Z) : Prop :=
  forall i : nat, (forall j b, (j < i)%nat -> str !! j = Some b -> b <> 0) -> Z.of_nat i < end_ -> is_Some (str !! i).

Lemma enough_next str end_ i :
  enough str end_ -> Z.of_nat (length i) < end_ -> (forall j b, i !! j = Some b -> str !! j = Some b /\ b <> 0) -> exists c, str !! length i = Some c.
Proof.
  intros H He Hi. apply H; [|done]. intros j b Hj Hb. destruct (lookup_lt_is_Some_2 i j Hj) as [b' Hb']. destruct (Hi j b' Hb') as [E Hn]. congruence.
Qed.

Lemma iterate_arith_total str end_ : 1 <= end_ -> enough str end_ -> is_Some (iterate_arith str end_).
Proof.
  intros He H. unfold iterate_arith. destruct (enough_next str end_ [] H) as [uc E0]; [simpl; lia|done|]. simpl in E0. rewrite E0. cbn [mbind option_bind].
  destruct (uc <? 0x80) eqn:T1; [by eexists|]. destruct ((uc <? 0xc2) || (0xf4 <? uc)); [by eexists|].
  assert (1 < end_ -> exists c1, str !! 1%nat = Some c1) as H1.
  { intros. apply (enough_next str end_ [uc] H); [simpl; lia|]. intros [|j] b Hj; simplify_eq/=. split; [done|lia]. }
  assert (forall c1, str !! 1%nat = Some c1 -> cont c1 = true -> 2 < end_ -> exists c2, str !! 2%nat = Some c2) as H2.
  { unfold cont. intros c1 E1 T ?. apply (enough_next str end_ [uc; c1] H); [simpl; lia|]. intros [|[|j]] b Hj; simplify_eq/=; (split; [done|lia]). }
  assert (forall c1 c2, str !! 1%nat = Some c1 -> cont c1 = true -> str !! 2%nat = Some c2 -> cont c2 = true -> 3 < end_ -> exists c3, str !! 3%nat = Some c3) as H3.
  { unfold cont. intros c1 c2 E1 T E2 T' ?. apply (enough_next str end_ [uc; c1; c2] H); [simpl; lia|]. intros [|[|[|j]]] b Hj; simplify_eq/=; (split; [done|lia]). }
  destruct (uc <? 0xe0); [|destruct (uc <? 0xf0)].
  - destruct (end_ <=? 1) eqn:T; [by eexists|]. destruct H1 as [c1 E1]; [lia|]. rewrite E1. cbn [mbind option_bind]. destruct (cont c1); by eexists.
  - destruct (end_ <=? 2) eqn:T; [by eexists|]. destruct H1 as [c1 E1]; [lia|]. rewrite E1. cbn [mbind option_bind]. destruct (cont c1) eqn:C1; [|by eexists].
    destruct (H2 c1 E1 C1) as [c2 E2]; [lia|]. rewrite E2. cbn [mbind option_bind negb]. repeat case_match; by eexists.
  - destruct (end_ <=? 3) eqn:T; [by eexists|]. destruct H1 as [c1 E1]; [lia|]. rewrite E1. cbn [mbind option_bind]. destruct (cont c1) eqn:C1; [|by eexists].
    destruct (H2 c1 E1 C1) as [c2 E2]; [lia|]. rewrite E2. cbn [mbind option_bind negb]. destruct (cont c2) eqn:C2; [|by eexists].
    destruct (H3 c1 c2 E1 C1 E2 C2) as [c3 E3]; [lia|]. rewrite E3. cbn [mbind option_bind negb]. repeat case_match; by eexists.
Qed.

(** Bytes at or beyond the end do not matter. *)
Lemma iterate_arith_take str n : (1 <= n)%nat -> iterate_arith (take n str) (Z.of_nat n) = iterate_arith str (Z.of_nat n).
Proof.
  intros Hn. unfold iterate_arith. rewrite (lookup_take_lt str n 0) by lia. destruct (str !! 0%nat) as [uc|]; [|done]. cbn [mbind option_bind].
  destruct (uc <? 0x80); [done|]. destruct ((uc <? 0xc2) || (0xf4 <? uc)); [done|].
  destruct (uc <? 0xe0); [|destruct (uc <? 0xf0)].
  - destruct (Z.leb_spec (Z.of_nat n) 1); [done|]. by rewrite lookup_take_lt by lia.
  - destruct (Z.leb_spec (Z.of_nat n) 2); [done|]. by rewrite !lookup_take_lt by lia.
  - destruct (Z.leb_spec (Z.of_nat n) 3); [done|]. by rewrite !lookup_take_lt by lia.
Qed.

(** The bytes that a call may look at: [strlen] bytes, or a string with its
    terminator when [strlen] is negative. *)
Definition readable (str : list Z) (strlen : Z) : Prop :=
  0 <= strlen <= Z.of_nat (length str) \/ (strlen < 0 /\ 0 ∈ str).
Definition text (str : list Z) (strlen : Z) : list Z := if strlen <? 0 then str else take (Z.to_nat strlen) str.

Lemma readable_enough str strlen : readable str strlen -> strlen <> 0 -> enough str (if strlen <? 0 then 4 else strlen).
Proof.
  intros [H|[Hneg H]] Hn i Hi He; apply lookup_lt_is_Some.
  - rewrite (proj2 (Z.ltb_ge strlen 0)) in He by lia. lia.
  - apply list_elem_of_lookup in H as [j Hj]. pose proof (lookup_lt_Some _ _ _ Hj). destruct (decide (j < i)%nat) as [Hlt|]; [|lia].
    by destruct (Hi j 0 Hlt Hj).
Qed.

(** A text that is not empty gives its first code point, or an error when it has none. *)
Lemma iterate_cases str strlen :
  bytes_ok str -> readable str strlen -> strlen <> 0 ->
  exists r c, utf8proc_iterate str strlen = Some (r, c) /\
    ((scalar c /\ r = Z.of_nat (length (utf8proc_encode_char c)) /\ exists rest, text str strlen = utf8proc_encode_char c ++ rest) \/
     (r = UTF8PROC_ERROR_INVALIDUTF8 /\ c = -1 /\ forall c' rest, scalar c' -> text str strlen <> utf8proc_encode_char c' ++ rest)).
Proof.
  intros Hok Hread Hn. rewrite iterate_is_arith by done. pose proof (readable_enough str strlen Hread Hn) as He.
  assert (exists end_, (if strlen <? 0 then 4 else strlen) = end_ /\ 1 <= end_ /\ iterate_arith str end_ = iterate_arith (text str strlen) end_ /\
    (end_ = 4 \/ end_ = Z.of_nat (length (text str strlen)))) as (end_ & E & H1 & Ht & Hl).
  { unfold text. destruct Hread as [H|[H _]].
    - rewrite (proj2 (Z.ltb_ge strlen 0)) by lia. exists strlen. rewrite length_take. split; [done|]. split; [lia|]. split; [|lia].
      rewrite <- (Z2Nat.id strlen) by lia. rewrite Nat2Z.id. symmetry. apply iterate_arith_take. lia.
    - rewrite (proj2 (Z.ltb_lt strlen 0)) by lia. exists 4. split; [done|]. split; [lia|]. split; [done|by left]. }
  rewrite E in *. destruct (iterate_arith_total str end_ H1 He) as [[r c] Hit]. exists r, c. split; [done|]. rewrite Ht in Hit.
  assert (bytes_ok (text str strlen)) as Hokt by (unfold text; case_if; [done|by apply Forall_take]).
  destruct (iterate_arith_shape _ _ _ _ Hit) as [Hr|[-> ->]]; [left; by eapply iterate_arith_read|right].
  split_and!; [done..|]. intros c' rest Hc Heq. rewrite Heq in Hit. rewrite iterate_arith_encode in Hit; [simplify_eq; lia|done|].
  pose proof (encode_length c'). destruct Hl as [-> | ->]; [lia|]. rewrite Heq, length_app. lia.
Qed.

(** A code point that was written is read back. *)
Lemma iterate_encode c rest strlen :
  scalar c -> bytes_ok rest -> strlen < 0 \/ Z.of_nat (length (utf8proc_encode_char c)) <= strlen ->
  utf8proc_iterate (utf8proc_encode_char c ++ rest) strlen = Some (Z.of_nat (length (utf8proc_encode_char c)), c).
Proof.
  intros Hc Hr Hl. pose proof (encode_nonempty c Hc). pose proof (encode_length c).
  rewrite iterate_is_arith; [|by apply Forall_app; split; [apply encode_bytes_ok|]|lia]. apply iterate_arith_encode; [done|]. case_if; lia.
Qed.

(** C11: reading is decoding.  On memory that holds the text (of the given
    length, or with a terminator), [utf8proc_iterate] does not read outside and
    returns: nothing for an empty text; the length and the code point when the
    text begins with the UTF-8 form of a code point that is no surrogate; and
    otherwise, for every other text, the error. *)
Theorem utf8proc_iterate_spec str strlen :
  bytes_ok str -> readable str strlen ->
  exists r c, utf8proc_iterate str strlen = Some (r, c) /\
    ((strlen = 0 /\ r = 0 /\ c = -1) \/
     (scalar c /\ r = Z.of_nat (length (utf8proc_encode_char c)) /\ exists rest, text str strlen = utf8proc_encode_char c ++ rest) \/
     (strlen <> 0 /\ r = UTF8PROC_ERROR_INVALIDUTF8 /\ c = -1 /\ forall c' rest, scalar c' -> text str strlen <> utf8proc_encode_char c' ++ rest)).
Proof.
  intros Hok Hread. destruct (decide (strlen = 0)) as [->|Hn]; [exists 0, (-1); split; [done|by left]|].
  destruct (iterate_cases str strlen Hok Hread Hn) as (r & c & Hit & Hcases). exists r, c. split; [done|]. tauto.
Qed.

Example utf8proc_iterate_spec_witness :
  utf8proc_iterate [0xE2; 0x82; 0xAC; 0x41] 4 = Some (3, 0x20AC) /\
  exists r c, utf8proc_iterate [0xE2; 0x82; 0x41] 3 = Some (r, c) /\
    ((3 = 0 /\ r = 0 /\ c = -1) \/
     (scalar c /\ r = Z.of_nat (length (utf8proc_encode_char c)) /\ exists rest, text [0xE2; 0x82; 0x41] 3 = utf8proc_encode_char c ++ rest) \/
     (3 <> 0 /\ r = UTF8PROC_ERROR_INVALIDUTF8 /\ c = -1 /\ forall c' rest, scalar c' -> text [0xE2; 0x82; 0x41] 3 <> utf8proc_encode_char c' ++ rest)).
Proof.
  split; [by vm_compute|]. apply (utf8proc_iterate_spec [0xE2; 0x82; 0x41] 3); [|left; simpl; lia].
  repeat (apply Forall_cons; split; [by split|]); apply Forall_nil_2.
Defined.
End Utf8.
