(* ===== verification/Utf8Proc.v ===== *)
(** * Unicode text ([src/library/utf8proc/utf8proc.c])

    Properties of code points, grapheme breaks, decomposition, composition and
    the functions that map whole strings.  The tables of
    [utf8proc_data.c], which are generated from the Unicode data files, are a
    parameter: the class [UnicodeData]. *)
From Stdlib Require String.
From S2P Require Import Prelude Utf8.

Module Utf8Proc.
Import Utf8.

(** ** Options, categories and classes *)

Definition UTF8PROC_NULLTERM : Z := 1.
Definition UTF8PROC_STABLE : Z := 2.
Definition UTF8PROC_COMPAT : Z := 4.
Definition UTF8PROC_COMPOSE : Z := 8.
Definition UTF8PROC_DECOMPOSE : Z := 16.
Definition UTF8PROC_IGNORE : Z := 32.
Definition UTF8PROC_REJECTNA : Z := 64.
Definition UTF8PROC_NLF2LS : Z := 128.
Definition UTF8PROC_NLF2PS : Z := 256.
Definition UTF8PROC_STRIPCC : Z := 512.
Definition UTF8PROC_CASEFOLD : Z := 1024.
Definition UTF8PROC_CHARBOUND : Z := 2048.
Definition UTF8PROC_LUMP : Z := 4096.
Definition UTF8PROC_STRIPMARK : Z := 8192.
Definition UTF8PROC_STRIPNA : Z := 16384.

(** [options & flags] as a condition. *)
Definition has (options flags : Z) : bool := negb (Z.land options flags =? 0).

Definition UTF8PROC_CATEGORY_CN : Z := 0.
Definition UTF8PROC_CATEGORY_LT : Z := 3.
Definition UTF8PROC_CATEGORY_MN : Z := 6.
Definition UTF8PROC_CATEGORY_MC : Z := 7.
Definition UTF8PROC_CATEGORY_ME : Z := 8.
Definition UTF8PROC_CATEGORY_PC : Z := 12.
Definition UTF8PROC_CATEGORY_PD : Z := 13.
Definition UTF8PROC_CATEGORY_ZS : Z := 23.
Definition UTF8PROC_CATEGORY_ZL : Z := 24.
Definition UTF8PROC_CATEGORY_ZP : Z := 25.

Definition UTF8PROC_BOUNDCLASS_START : Z := 0.
Definition UTF8PROC_BOUNDCLASS_OTHER : Z := 1.
Definition UTF8PROC_BOUNDCLASS_CR : Z := 2.
Definition UTF8PROC_BOUNDCLASS_LF : Z := 3.
Definition UTF8PROC_BOUNDCLASS_CONTROL : Z := 4.
Definition UTF8PROC_BOUNDCLASS_EXTEND : Z := 5.
Definition UTF8PROC_BOUNDCLASS_L : Z := 6.
Definition UTF8PROC_BOUNDCLASS_V : Z := 7.
Definition UTF8PROC_BOUNDCLASS_T : Z := 8.
Definition UTF8PROC_BOUNDCLASS_LV : Z := 9.
Definition UTF8PROC_BOUNDCLASS_LVT : Z := 10.
Definition UTF8PROC_BOUNDCLASS_REGIONAL_INDICATOR : Z := 11.
Definition UTF8PROC_BOUNDCLASS_SPACINGMARK : Z := 12.
Definition UTF8PROC_BOUNDCLASS_PREPEND : Z := 13.
Definition UTF8PROC_BOUNDCLASS_ZWJ : Z := 14.
Definition UTF8PROC_BOUNDCLASS_EXTENDED_PICTOGRAPHIC : Z := 19.
Definition UTF8PROC_BOUNDCLASS_E_ZWG : Z := 20.

Definition UTF8PROC_INDIC_CONJUNCT_BREAK_NONE : Z := 0.
Definition UTF8PROC_INDIC_CONJUNCT_BREAK_LINKER : Z := 1.
Definition UTF8PROC_INDIC_CONJUNCT_BREAK_CONSONANT : Z := 2.
Definition UTF8PROC_INDIC_CONJUNCT_BREAK_EXTEND : Z := 3.

Definition UTF8PROC_HANGUL_SBASE : Z := 0xAC00.
Definition UTF8PROC_HANGUL_LBASE : Z := 0x1100.
Definition UTF8PROC_HANGUL_VBASE : Z := 0x1161.
Definition UTF8PROC_HANGUL_TBASE : Z := 0x11A7.
Definition UTF8PROC_HANGUL_LCOUNT : Z := 19.
Definition UTF8PROC_HANGUL_VCOUNT : Z := 21.
Definition UTF8PROC_HANGUL_TCOUNT : Z := 28.
Definition UTF8PROC_HANGUL_NCOUNT : Z := 588.
Definition UTF8PROC_HANGUL_SCOUNT : Z := 11172.

Definition UINT16_MAX : Z := 65535.

(** ** Tables *)

(** The fields that the code reads. *)
Record utf8proc_property_t := mk_property {
  category : Z; combining_class : Z; decomp_type : Z;
  decomp_seqindex : Z; casefold_seqindex : Z; uppercase_seqindex : Z; lowercase_seqindex : Z; titlecase_seqindex : Z;
  comb_index : Z; comb_length : Z; comb_issecond : bool; ignorable : bool; charwidth : Z; ambiguous_width : bool;
  boundclass : Z; indic_conjunct_break : Z }.

Class UnicodeData := mk_data {
  utf8proc_sequences : list Z; utf8proc_stage1table : list Z; utf8proc_stage2table : list Z;
  utf8proc_properties : list utf8proc_property_t;
  utf8proc_combinations_second : list Z; utf8proc_combinations_combined : list Z }.

(** ** Grapheme breaks *)

Definition grapheme_break_simple (lbc tbc : Z) : bool :=
  if lbc =? UTF8PROC_BOUNDCLASS_START then true
  else if (lbc =? UTF8PROC_BOUNDCLASS_CR) && (tbc =? UTF8PROC_BOUNDCLASS_LF) then false
  else if (UTF8PROC_BOUNDCLASS_CR <=? lbc) && (lbc <=? UTF8PROC_BOUNDCLASS_CONTROL) then true
  else if (UTF8PROC_BOUNDCLASS_CR <=? tbc) && (tbc <=? UTF8PROC_BOUNDCLASS_CONTROL) then true
  else if (lbc =? UTF8PROC_BOUNDCLASS_L) &&
    ((tbc =? UTF8PROC_BOUNDCLASS_L) || (tbc =? UTF8PROC_BOUNDCLASS_V) || (tbc =? UTF8PROC_BOUNDCLASS_LV) || (tbc =? UTF8PROC_BOUNDCLASS_LVT)) then false
  else if ((lbc =? UTF8PROC_BOUNDCLASS_LV) || (lbc =? UTF8PROC_BOUNDCLASS_V)) && ((tbc =? UTF8PROC_BOUNDCLASS_V) || (tbc =? UTF8PROC_BOUNDCLASS_T)) then false
  else if ((lbc =? UTF8PROC_BOUNDCLASS_LVT) || (lbc =? UTF8PROC_BOUNDCLASS_T)) && (tbc =? UTF8PROC_BOUNDCLASS_T) then false
  else if (tbc =? UTF8PROC_BOUNDCLASS_EXTEND) || (tbc =? UTF8PROC_BOUNDCLASS_ZWJ) || (tbc =? UTF8PROC_BOUNDCLASS_SPACINGMARK) || (lbc =? UTF8PROC_BOUNDCLASS_PREPEND) then false
  else if (lbc =? UTF8PROC_BOUNDCLASS_E_ZWG) && (tbc =? UTF8PROC_BOUNDCLASS_EXTENDED_PICTOGRAPHIC) then false
  else if (lbc =? UTF8PROC_BOUNDCLASS_REGIONAL_INDICATOR) && (tbc =? UTF8PROC_BOUNDCLASS_REGIONAL_INDICATOR) then false
  else true.

(** The result and the new state; [None] is a null pointer for the state. *)
Definition grapheme_break_extended (lbc tbc licb ticb : Z) (state : option Z) : bool * option Z :=
  match state with
  | None => (grapheme_break_simple lbc tbc, None)
  | Some state =>
      let state_bc := if state =? 0 then lbc else Z.land state 0xff in
      let state_icb :=
        if state =? 0 then if licb =? UTF8PROC_INDIC_CONJUNCT_BREAK_CONSONANT then licb else UTF8PROC_INDIC_CONJUNCT_BREAK_NONE
        else Z.shiftr state 8 in
      let break_permitted := grapheme_break_simple state_bc tbc &&
        negb ((state_icb =? UTF8PROC_INDIC_CONJUNCT_BREAK_LINKER) && (ticb =? UTF8PROC_INDIC_CONJUNCT_BREAK_CONSONANT)) in
      let state_icb' :=
        if (ticb =? UTF8PROC_INDIC_CONJUNCT_BREAK_CONSONANT) || (state_icb =? UTF8PROC_INDIC_CONJUNCT_BREAK_CONSONANT)
           || (state_icb =? UTF8PROC_INDIC_CONJUNCT_BREAK_EXTEND) then ticb
        else if state_icb =? UTF8PROC_INDIC_CONJUNCT_BREAK_LINKER then
          if ticb =? UTF8PROC_INDIC_CONJUNCT_BREAK_EXTEND then UTF8PROC_INDIC_CONJUNCT_BREAK_LINKER else ticb
        else state_icb in
      let state_bc' :=
        if (state_bc =? tbc) && (tbc =? UTF8PROC_BOUNDCLASS_REGIONAL_INDICATOR) then UTF8PROC_BOUNDCLASS_OTHER
        else if state_bc =? UTF8PROC_BOUNDCLASS_EXTENDED_PICTOGRAPHIC then
          if tbc =? UTF8PROC_BOUNDCLASS_EXTEND then UTF8PROC_BOUNDCLASS_EXTENDED_PICTOGRAPHIC
          else if tbc =? UTF8PROC_BOUNDCLASS_ZWJ then UTF8PROC_BOUNDCLASS_E_ZWG
          else tbc
        else tbc in
      (break_permitted, Some (state_bc' + Z.shiftl state_icb' 8))
  end.

Section Data.
Context `{HD : !UnicodeData}.

(** ** Properties *)

Definition unsafe_get_property (uc : Z) : option utf8proc_property_t :=
  i ← utf8proc_stage1table !! Z.to_nat (Z.shiftr uc 8);
  j ← utf8proc_stage2table !! Z.to_nat (i + Z.land uc 0xFF);
  utf8proc_properties !! Z.to_nat j.

Definition utf8proc_get_property (uc : Z) : option utf8proc_property_t :=
  if (uc <? 0) || (0x110000 <=? uc) then utf8proc_properties !! 0%nat else unsafe_get_property uc.

Definition utf8proc_grapheme_break_stateful (c1 c2 : Z) (state : option Z) : option (bool * option Z) :=
  p1 ← utf8proc_get_property c1;
  p2 ← utf8proc_get_property c2;
  Some (grapheme_break_extended (boundclass p1) (boundclass p2) (indic_conjunct_break p1) (indic_conjunct_break p2) state).

Definition utf8proc_grapheme_break (c1 c2 : Z) : option bool := '(b, _) ← utf8proc_grapheme_break_stateful c1 c2 None; Some b.

(** The code point at an entry and the last entry it takes: code points beyond
    16 bits are stored as a surrogate pair. *)
Definition seqindex_decode_entry (entry : nat) : option (Z * nat) :=
  entry_cp ← utf8proc_sequences !! entry;
  if Z.land entry_cp 0xF800 =? 0xD800 then
    next ← utf8proc_sequences !! S entry;
    Some (Z.lor (Z.shiftl (Z.land entry_cp 0x03FF) 10) (Z.land next 0x03FF) + 0x10000, S entry)
  else Some (entry_cp, entry).

Definition seqindex_decode_index (seqindex : Z) : option Z := '(cp, _) ← seqindex_decode_entry (Z.to_nat seqindex); Some cp.

Definition case_map (index : utf8proc_property_t -> Z) (c : Z) : option Z :=
  p ← utf8proc_get_property c;
  if index p =? UINT16_MAX then Some c else seqindex_decode_index (index p).

Definition utf8proc_tolower (c : Z) : option Z := case_map lowercase_seqindex c.
Definition utf8proc_toupper (c : Z) : option Z := case_map uppercase_seqindex c.
Definition utf8proc_totitle (c : Z) : option Z := case_map titlecase_seqindex c.

Definition utf8proc_islower (c : Z) : option bool :=
  p ← utf8proc_get_property c;
  Some (negb (lowercase_seqindex p =? uppercase_seqindex p) && (lowercase_seqindex p =? UINT16_MAX)).

Definition utf8proc_isupper (c : Z) : option bool :=
  p ← utf8proc_get_property c;
  Some (negb (lowercase_seqindex p =? uppercase_seqindex p) && (uppercase_seqindex p =? UINT16_MAX) && negb (category p =? UTF8PROC_CATEGORY_LT)).

Definition utf8proc_charwidth (c : Z) : option Z := charwidth <$> utf8proc_get_property c.
Definition utf8proc_charwidth_ambiguous (c : Z) : option bool := ambiguous_width <$> utf8proc_get_property c.
Definition utf8proc_category (c : Z) : option Z := category <$> utf8proc_get_property c.

(** ** Decomposition *)

(** A store into a block of code points; [None] outside of it. *)
Definition put (mem : list Z) (i v : Z) : option (list Z) :=
  if (0 <=? i) && (i <? Z.of_nat (length mem)) then Some (<[Z.to_nat i := v]> mem) else None.

(** [if (bufsize > k) dst[k] = v]. *)
Definition put_if (bufsize : Z) (mem : list Z) (dst k v : Z) : option (list Z) :=
  if k <? bufsize then put mem (dst + k) v else Some mem.

(** The loop of [seqindex_write_char_decomposed] over the entries, with the
    function for one code point; [n] entries are left. *)
Fixpoint write_loop (decompose_char : Z -> list Z -> Z -> Z -> option Z -> option (Z * list Z * option Z))
    (n : nat) (entry : nat) (mem : list Z) (dst bufsize written : Z) (state : option Z) : option (Z * list Z * option Z) :=
  match n with
  | O => Some (written, mem, state)
  | S n =>
      '(entry_cp, entry) ← seqindex_decode_entry entry;
      '(r, mem, state) ← decompose_char entry_cp mem (dst + written) (if written <? bufsize then bufsize - written else 0) state;
      let written := written + r in
      if written <? 0 then Some (UTF8PROC_ERROR_OVERFLOW, mem, state)
      else write_loop decompose_char n (S entry) mem dst bufsize written state
  end.

Definition seqindex_write_char_decomposed (decompose_char : Z -> list Z -> Z -> Z -> option Z -> option (Z * list Z * option Z))
    (seqindex : Z) (mem : list Z) (dst bufsize : Z) (state : option Z) : option (Z * list Z * option Z) :=
  let entry := Z.to_nat (Z.land seqindex 0x3FFF) in
  let l := Z.shiftr seqindex 14 in
  '(l, entry) ← (if 3 <=? l then l ← utf8proc_sequences !! entry; Some (l, S entry) else Some (l, entry));
  write_loop decompose_char (Z.to_nat (l + 1)) entry mem dst bufsize 0 state.

(** What [UTF8PROC_LUMP] puts in place of a code point. *)
Definition lump (options uc category : Z) : option Z :=
  let among := existsb (Z.eqb uc) in
  if category =? UTF8PROC_CATEGORY_ZS then Some 0x0020
  else if among [0x2018; 0x2019; 0x02BC; 0x02C8] then Some 0x0027
  else if (category =? UTF8PROC_CATEGORY_PD) || (uc =? 0x2212) then Some 0x002D
  else if among [0x2044; 0x2215] then Some 0x002F
  else if uc =? 0x2236 then Some 0x003A
  else if among [0x2039; 0x2329; 0x3008] then Some 0x003C
  else if among [0x203A; 0x232A; 0x3009] then Some 0x003E
  else if uc =? 0x2216 then Some 0x005C
  else if among [0x02C4; 0x02C6; 0x2038; 0x2303] then Some 0x005E
  else if (category =? UTF8PROC_CATEGORY_PC) || (uc =? 0x02CD) then Some 0x005F
  else if uc =? 0x02CB then Some 0x0060
  else if uc =? 0x2223 then Some 0x007C
  else if uc =? 0x223C then Some 0x007E
  else if has options UTF8PROC_NLF2LS && has options UTF8PROC_NLF2PS && ((category =? UTF8PROC_CATEGORY_ZL) || (category =? UTF8PROC_CATEGORY_ZP)) then Some 0x000A
  else None.

(** The result, the memory with the code points that fit stored from [dst], and
    the state of the grapheme breaks.  A null [dst] has an empty block and no
    size.  The recursion is on fuel. *)
Fixpoint utf8proc_decompose_char (fuel : nat) (options uc : Z) (mem : list Z) (dst bufsize : Z) (last_boundclass : option Z) : option (Z * list Z * option Z) :=
  match fuel with
  | O => None
  | S fuel =>
      if (uc <? 0) || (0x110000 <=? uc) then Some (UTF8PROC_ERROR_NOTASSIGNED, mem, last_boundclass)
      else
        property ← unsafe_get_property uc;
        let category := category property in
        let hangul_sindex := uc - UTF8PROC_HANGUL_SBASE in
        let normal := has options (Z.lor UTF8PROC_COMPOSE UTF8PROC_DECOMPOSE) in
        if normal && (0 <=? hangul_sindex) && (hangul_sindex <? UTF8PROC_HANGUL_SCOUNT) then
          mem ← put_if bufsize mem dst 0 (UTF8PROC_HANGUL_LBASE + hangul_sindex / UTF8PROC_HANGUL_NCOUNT);
          mem ← put_if bufsize mem dst 1 (UTF8PROC_HANGUL_VBASE + (hangul_sindex mod UTF8PROC_HANGUL_NCOUNT) / UTF8PROC_HANGUL_TCOUNT);
          let hangul_tindex := hangul_sindex mod UTF8PROC_HANGUL_TCOUNT in
          if hangul_tindex =? 0 then Some (2, mem, last_boundclass)
          else mem ← put_if bufsize mem dst 2 (UTF8PROC_HANGUL_TBASE + hangul_tindex); Some (3, mem, last_boundclass)
        else if has options UTF8PROC_REJECTNA && (category =? 0) then Some (UTF8PROC_ERROR_NOTASSIGNED, mem, last_boundclass)
        else if has options UTF8PROC_IGNORE && ignorable property then Some (0, mem, last_boundclass)
        else if has options UTF8PROC_STRIPNA && (category =? 0) then Some (0, mem, last_boundclass)
        else
          match (if has options UTF8PROC_LUMP then lump options uc category else None) with
          | Some replacement => utf8proc_decompose_char fuel (Z.ldiff options UTF8PROC_LUMP) replacement mem dst bufsize last_boundclass
          | None =>
              if has options UTF8PROC_STRIPMARK && ((category =? UTF8PROC_CATEGORY_MN) || (category =? UTF8PROC_CATEGORY_MC) || (category =? UTF8PROC_CATEGORY_ME))
              then Some (0, mem, last_boundclass)
              else if has options UTF8PROC_CASEFOLD && negb (casefold_seqindex property =? UINT16_MAX) then
                seqindex_write_char_decomposed (utf8proc_decompose_char fuel options) (casefold_seqindex property) mem dst bufsize last_boundclass
              else if normal && negb (decomp_seqindex property =? UINT16_MAX) && ((decomp_type property =? 0) || has options UTF8PROC_COMPAT) then
                seqindex_write_char_decomposed (utf8proc_decompose_char fuel options) (decomp_seqindex property) mem dst bufsize last_boundclass
              else
                let '(boundary, last_boundclass) :=
                  if has options UTF8PROC_CHARBOUND
                  then grapheme_break_extended 0 (boundclass property) 0 (indic_conjunct_break property) last_boundclass
                  else (false, last_boundclass) in
                if boundary then
                  mem ← put_if bufsize mem dst 0 (-1);
                  mem ← put_if bufsize mem dst 1 uc;
                  Some (2, mem, last_boundclass)
                else
                  mem ← put_if bufsize mem dst 0 uc;
                  Some (1, mem, last_boundclass)
          end
  end.

(** ** Strings *)

Definition SSIZE_MAX : Z := 2 ^ 63 - 1.

(** [utf8proc_custom_func], a mapping with its data, which it may change. *)
Definition custom (D : Type) : Type := Z -> D -> Z * D.

(** The code point at a position with the next position, nothing at the end of
    the text, or an error. *)
Definition read_next (options : Z) (str : list Z) (strlen rpos : Z) : option (option (Z * Z) + Z) :=
  if has options UTF8PROC_NULLTERM then
    '(r, uc) ← utf8proc_iterate (drop (Z.to_nat rpos) str) (-1);
    Some (if uc <? 0 then inr UTF8PROC_ERROR_INVALIDUTF8 else if uc =? 0 then inl None else inl (Some (rpos + r, uc)))
  else if strlen <=? rpos then Some (inl None)
  else
    '(r, uc) ← utf8proc_iterate (drop (Z.to_nat rpos) str) (strlen - rpos);
    Some (if uc <? 0 then inr UTF8PROC_ERROR_INVALIDUTF8 else inl (Some (rpos + r, uc))).

(** The loop over the text; [char_fuel] is for each code point, [fuel] bounds
    the number of code points. *)
Fixpoint decompose_loop {D} (char_fuel fuel : nat) (options : Z) (custom_func : option (custom D)) (str : list Z) (strlen rpos : Z) (buffer : list Z)
    (bufsize wpos : Z) (boundclass : option Z) (data : D) : option (Z * list Z * D) :=
  match fuel with
  | O => None
  | S fuel =>
      read ← read_next options str strlen rpos;
      match read with
      | inr error => Some (error, buffer, data)
      | inl None => Some (wpos, buffer, data)
      | inl (Some (rpos, uc)) =>
          let '(uc, data) := match custom_func with Some f => f uc data | None => (uc, data) end in
          '(decomp_result, buffer, boundclass) ←
            utf8proc_decompose_char char_fuel options uc buffer wpos (if wpos <? bufsize then bufsize - wpos else 0) boundclass;
          if decomp_result <? 0 then Some (decomp_result, buffer, data)
          else
            let wpos := wpos + decomp_result in
            if (wpos <? 0) || (SSIZE_MAX / 4 / 2 <? wpos) then Some (UTF8PROC_ERROR_OVERFLOW, buffer, data)
            else decompose_loop char_fuel fuel options custom_func str strlen rpos buffer bufsize wpos boundclass data
      end
  end.

(** The loop that puts combining characters in their order. *)
Fixpoint order_loop (fuel : nat) (buffer : list Z) (pos wpos : Z) : option (list Z) :=
  match fuel with
  | O => None
  | S fuel =>
      if pos <? wpos - 1 then
        uc1 ← buffer !! Z.to_nat pos;
        if uc1 <? 0 then order_loop fuel buffer (pos + 1) wpos
        else
          uc2 ← buffer !! Z.to_nat (pos + 1);
          if uc2 <? 0 then order_loop fuel buffer (pos + 2) wpos
          else
            property1 ← unsafe_get_property uc1;
            property2 ← unsafe_get_property uc2;
            if (combining_class property2 <? combining_class property1) && (0 <? combining_class property2) then
              order_loop fuel (<[Z.to_nat (pos + 1) := uc1]> (<[Z.to_nat pos := uc2]> buffer)) (if 0 <? pos then pos - 1 else pos + 1) wpos
            else order_loop fuel buffer (pos + 1) wpos
      else Some buffer
  end.

(** The fuels are for one code point, for the code points of the text, and for
    the ordering. *)
Definition utf8proc_decompose_custom {D} (char_fuel fuel order_fuel : nat) (str : list Z) (strlen : Z) (buffer : list Z) (bufsize options : Z)
    (custom_func : option (custom D)) (data : D) : option (Z * list Z * D) :=
  if has options UTF8PROC_COMPOSE && has options UTF8PROC_DECOMPOSE then Some (UTF8PROC_ERROR_INVALIDOPTS, buffer, data)
  else if has options UTF8PROC_STRIPMARK && negb (has options UTF8PROC_COMPOSE) && negb (has options UTF8PROC_DECOMPOSE) then Some (UTF8PROC_ERROR_INVALIDOPTS, buffer, data)
  else
    '(wpos, buffer, data) ← decompose_loop char_fuel fuel options custom_func str strlen 0 buffer bufsize 0 (Some UTF8PROC_BOUNDCLASS_START) data;
    if wpos <? 0 then Some (wpos, buffer, data)
    else if has options (Z.lor UTF8PROC_COMPOSE UTF8PROC_DECOMPOSE) && (wpos <=? bufsize) then
      buffer ← order_loop order_fuel buffer 0 wpos;
      Some (wpos, buffer, data)
    else Some (wpos, buffer, data).

Definition utf8proc_decompose (char_fuel fuel order_fuel : nat) (str : list Z) (strlen : Z) (buffer : list Z) (bufsize options : Z) : option (Z * list Z) :=
  '(r, buffer, _) ← utf8proc_decompose_custom char_fuel fuel order_fuel str strlen buffer bufsize options None tt; Some (r, buffer).

(** ** Normalisation *)

(** Line feeds and control characters; [n] code points are left to read. *)
Fixpoint newline_loop (n : nat) (options : Z) (buffer : list Z) (rpos wpos length : Z) : option (list Z * Z) :=
  match n with
  | O => Some (buffer, wpos)
  | S n =>
      if length <=? rpos then Some (buffer, wpos)
      else
        uc ← buffer !! Z.to_nat rpos;
        rpos ← (if (uc =? 0x000D) && (rpos <? length - 1) then next ← buffer !! Z.to_nat (rpos + 1); Some (if next =? 0x000A then rpos + 1 else rpos) else Some rpos);
        let store v := buffer ← put buffer wpos v; newline_loop n options buffer (rpos + 1) (wpos + 1) length in
        if (uc =? 0x000A) || (uc =? 0x000D) || (uc =? 0x0085) || (has options UTF8PROC_STRIPCC && ((uc =? 0x000B) || (uc =? 0x000C))) then
          if has options UTF8PROC_NLF2LS then if has options UTF8PROC_NLF2PS then store 0x000A else store 0x2028
          else if has options UTF8PROC_NLF2PS then store 0x2029 else store 0x0020
        else if has options UTF8PROC_STRIPCC && ((uc <? 0x0020) || ((0x007F <=? uc) && (uc <? 0x00A0))) then
          if uc =? 0x0009 then store 0x0020 else newline_loop n options buffer (rpos + 1) wpos length
        else store uc
  end.

(** The search for the second code point of a composition, in the entries from
    [off]; [n] are left. *)
Fixpoint search_second (n : nat) (off : Z) (current_char : Z) : option (option Z) :=
  match n with
  | O => Some None
  | S n =>
      second ← utf8proc_combinations_second !! Z.to_nat off;
      if current_char <? second then Some None
      else if current_char =? second then composition ← utf8proc_combinations_combined !! Z.to_nat off; Some (Some composition)
      else search_second n (off + 1) current_char
  end.

(** What the starter becomes together with the current code point, and the
    property of the starter, which is looked up when it is needed. *)
Definition compose_pair (starter : Z) (starter_property : option utf8proc_property_t) (current_char : Z) (current_property : utf8proc_property_t)
    : option (option Z * option utf8proc_property_t) :=
  let hangul_lindex := starter - UTF8PROC_HANGUL_LBASE in
  let hangul_vindex := current_char - UTF8PROC_HANGUL_VBASE in
  let hangul_sindex := starter - UTF8PROC_HANGUL_SBASE in
  let hangul_tindex := current_char - UTF8PROC_HANGUL_TBASE in
  if ((0 <=? hangul_lindex) && (hangul_lindex <? UTF8PROC_HANGUL_LCOUNT)) && ((0 <=? hangul_vindex) && (hangul_vindex <? UTF8PROC_HANGUL_VCOUNT)) then
    Some (Some (UTF8PROC_HANGUL_SBASE + (hangul_lindex * UTF8PROC_HANGUL_VCOUNT + hangul_vindex) * UTF8PROC_HANGUL_TCOUNT), None)
  else if ((0 <=? hangul_sindex) && (hangul_sindex <? UTF8PROC_HANGUL_SCOUNT) && (hangul_sindex mod UTF8PROC_HANGUL_TCOUNT =? 0)) &&
          ((0 <? hangul_tindex) && (hangul_tindex <? UTF8PROC_HANGUL_TCOUNT)) then
    Some (Some (starter + hangul_tindex), None)
  else
    starter_property ← (match starter_property with Some p => Some p | None => unsafe_get_property starter end);
    let idx := comb_index starter_property in
    if (idx <? 0x3FF) && comb_issecond current_property then
      let l := comb_length starter_property in
      max_second ← utf8proc_combinations_second !! Z.to_nat (idx + l - 1);
      if current_char <=? max_second then
        found ← search_second (Z.to_nat l) idx current_char;
        Some (found, match found with Some _ => None | None => Some starter_property end)
      else Some (None, Some starter_property)
    else Some (None, Some starter_property).

(** The starter is a position in the buffer; [n] code points are left. *)
Fixpoint compose_loop (n : nat) (buffer : list Z) (rpos wpos : Z) (starter : option Z) (starter_property : option utf8proc_property_t) (max_combining_class : Z) : option (list Z * Z) :=
  match n with
  | O => Some (buffer, wpos)
  | S n =>
      current_char ← buffer !! Z.to_nat rpos;
      if current_char <? 0 then compose_loop n buffer (rpos + 1) wpos starter starter_property max_combining_class
      else
        current_property ← unsafe_get_property current_char;
        '(composed, starter_property) ←
          (match starter with
           | Some at_ =>
               if max_combining_class <? combining_class current_property then
                 s ← buffer !! Z.to_nat at_;
                 compose_pair s starter_property current_char current_property
               else Some (None, starter_property)
           | None => Some (None, starter_property)
           end);
        match composed, starter with
        | Some c, Some at_ => buffer ← put buffer at_ c; compose_loop n buffer (rpos + 1) wpos starter None max_combining_class
        | _, _ =>
            buffer ← put buffer wpos current_char;
            if combining_class current_property =? 0 then compose_loop n buffer (rpos + 1) (wpos + 1) (Some wpos) None (-1)
            else compose_loop n buffer (rpos + 1) (wpos + 1) starter starter_property (Z.max max_combining_class (combining_class current_property))
        end
  end.

Definition utf8proc_normalize_utf32 (buffer : list Z) (length options : Z) : option (list Z * Z) :=
  '(buffer, length) ←
    (if has options (Z.lor (Z.lor UTF8PROC_NLF2LS UTF8PROC_NLF2PS) UTF8PROC_STRIPCC)
     then newline_loop (Z.to_nat length) options buffer 0 0 length else Some (buffer, length));
  if has options UTF8PROC_COMPOSE then compose_loop (Z.to_nat length) buffer 0 0 None None (-1) else Some (buffer, length).

(** ** Reencoding in place *)

(** The code points of a block as its bytes, and back. *)
Definition cells_bytes (cells : list Z) : list Z := concat (map (le_bytes 4) cells).
Definition read_cell (bytes : list Z) (i : Z) : option Z :=
  if Z.of_nat (length bytes) <? 4 * i + 4 then None else Some (sint 32 (le_uint (take 4 (drop (Z.to_nat (4 * i)) bytes)))).

(** A store of bytes; [None] outside of the block. *)
Definition put_bytes (bytes : list Z) (off : Z) (bs : list Z) : option (list Z) :=
  if (0 <=? off) && (off + Z.of_nat (length bs) <=? Z.of_nat (length bytes)) then Some (write_at (Z.to_nat off) bs bytes) else None.

Fixpoint reencode_loop (n : nat) (encode : Z -> list Z) (bytes : list Z) (rpos wpos : Z) : option (list Z * Z) :=
  match n with
  | O => Some (bytes, wpos)
  | S n =>
      uc ← read_cell bytes rpos;
      bytes ← put_bytes bytes wpos (encode uc);
      reencode_loop n encode bytes (rpos + 1) (wpos + Z.of_nat (length (encode uc)))
  end.

(** The block has the code points of [buffer] and one more byte, [spare].  The
    result is the number of bytes before the terminator and the block as bytes. *)
Definition utf8proc_reencode (buffer : list Z) (spare : Z) (length options : Z) : option (Z * list Z) :=
  '(buffer, length) ← utf8proc_normalize_utf32 buffer length options;
  if length <? 0 then Some (length, cells_bytes buffer ++ [spare])
  else
    let encode := if has options UTF8PROC_CHARBOUND then charbound_encode_char else utf8proc_encode_char in
    '(bytes, wpos) ← reencode_loop (Z.to_nat length) encode (cells_bytes buffer ++ [spare]) 0 0;
    bytes ← put_bytes bytes wpos [0];
    Some (wpos, bytes).

(** The result, and the string that is stored through [dstptr], with its
    terminator; [None] inside is a null pointer. *)
Definition utf8proc_map_custom `{!Uninit} {D} (char_fuel fuel order_fuel : nat) (str : list Z) (strlen : Z) (options : Z) (custom_func : option (custom D)) (data : D)
    : option (Z * option (list Z) * D) :=
  '(result, _, data) ← utf8proc_decompose_custom char_fuel fuel order_fuel str strlen [] 0 options custom_func data;
  if result <? 0 then Some (result, None, data)
  else
    let buffer := map (fun b => sint 32 b) (fresh_memory (Z.to_nat result)) in
    '(result, buffer, data) ← utf8proc_decompose_custom char_fuel fuel order_fuel str strlen buffer result options custom_func data;
    if result <? 0 then Some (result, None, data)
    else
      '(result, bytes) ← utf8proc_reencode buffer (uninit 0) result options;
      if result <? 0 then Some (result, None, data)
      else Some (result, Some (take (Z.to_nat (result + 1)) bytes), data).

Definition utf8proc_map `{!Uninit} (char_fuel fuel order_fuel : nat) (str : list Z) (strlen options : Z) : option (Z * option (list Z)) :=
  '(r, s, _) ← utf8proc_map_custom char_fuel fuel order_fuel str strlen options None tt; Some (r, s).

(** The normal forms of a string with a terminator. *)
Definition normal_form `{!Uninit} (flags : Z) (char_fuel fuel order_fuel : nat) (str : list Z) : option (option (list Z)) :=
  '(_, s) ← utf8proc_map char_fuel fuel order_fuel str 0 (Z.lor (Z.lor UTF8PROC_NULLTERM UTF8PROC_STABLE) flags); Some s.

Definition utf8proc_NFD `{!Uninit} := normal_form UTF8PROC_DECOMPOSE.
Definition utf8proc_NFC `{!Uninit} := normal_form UTF8PROC_COMPOSE.
Definition utf8proc_NFKD `{!Uninit} := normal_form (Z.lor UTF8PROC_DECOMPOSE UTF8PROC_COMPAT).
Definition utf8proc_NFKC `{!Uninit} := normal_form (Z.lor UTF8PROC_COMPOSE UTF8PROC_COMPAT).
Definition utf8proc_NFKC_Casefold `{!Uninit} :=
  normal_form (Z.lor (Z.lor (Z.lor UTF8PROC_COMPOSE UTF8PROC_COMPAT) UTF8PROC_CASEFOLD) UTF8PROC_IGNORE).
End Data.
End Utf8Proc.

(** ** Messages *)

Module Utf8Text.
Import String Utf8 Utf8Proc.

Definition utf8proc_errmsg (errcode : Z) : string :=
  if errcode =? UTF8PROC_ERROR_NOMEM then "Memory for processing UTF-8 data could not be allocated."%string
  else if errcode =? UTF8PROC_ERROR_OVERFLOW then "UTF-8 string is too long to be processed."%string
  else if errcode =? UTF8PROC_ERROR_INVALIDUTF8 then "Invalid UTF-8 string"%string
  else if errcode =? UTF8PROC_ERROR_NOTASSIGNED then "Unassigned Unicode code point found in UTF-8 string."%string
  else if errcode =? UTF8PROC_ERROR_INVALIDOPTS then "Invalid options for UTF-8 processing chosen."%string
  else "An unknown error occurred while processing UTF-8 data."%string.

Definition utf8proc_category_string `{!UnicodeData} (c : Z) : option string :=
  category ← utf8proc_category c;
  ["Cn"; "Lu"; "Ll"; "Lt"; "Lm"; "Lo"; "Mn"; "Mc"; "Me"; "Nd"; "Nl"; "No"; "Pc"; "Pd"; "Ps"; "Pe"; "Pi"; "Pf"; "Po"; "Sm"; "Sc"; "Sk"; "So";
   "Zs"; "Zl"; "Zp"; "Cc"; "Cf"; "Cs"; "Co"]%string !! Z.to_nat category.
End Utf8Text.
