(* ===== verification/Utf8Decompose.v ===== *)
(** * Decomposition of Unicode text

    What [utf8proc_decompose_char] and [utf8proc_decompose] promise on tables
    that are well formed: how much they write, and that the result is in
    canonical order. *)
From S2P Require Import Prelude Utf8 Utf8Proc.

Module Utf8Decompose.
Import Utf8 Utf8Proc.

Definition codepoint (c : Z) : Prop := 0 <= c < 0x110000.

(** ** Canonical order *)

Section Order.
Context `{HD : !UnicodeData}.

(** The combining class, zero for the mark of a grapheme break. *)
Definition ccc (c : Z) : Z :=
  if c <? 0 then 0 else match unsafe_get_property c with Some p => combining_class p | None => 0 end.

(** A pair that the Unicode standard calls reorderable. *)
Definition reorderable (a b : Z) : bool := (ccc b <? ccc a) && (0 <? ccc b).

Inductive exchange : list Z -> list Z -> Prop :=
  | exchange_pair l1 a b l2 : reorderable a b = true -> exchange (l1 ++ a :: b :: l2) (l1 ++ b :: a :: l2).

(** No reorderable pair is left among the first [n] pairs. *)
Definition ordered_to (n : nat) (l : list Z) : Prop :=
  forall i a b, (i < n)%nat -> l !! i = Some a -> l !! S i = Some b -> reorderable a b = false.
Definition ordered (l : list Z) : Prop := ordered_to (length l) l.

(** The pairs of positions that are in the wrong order. *)
Fixpoint inversions (l : list Z) : nat :=
  match l with
  | [] => 0
  | x :: l => length (filter (fun y => reorderable x y = true) l) + inversions l
  end.

Lemma inversions_exchange l1 a b l2 : reorderable a b = true -> inversions (l1 ++ a :: b :: l2) = S (inversions (l1 ++ b :: a :: l2)).
Proof.
  intros Hab. assert (reorderable b a = false) as Hba by (unfold reorderable in *; lia).
  induction l1 as [|x l1 IH]; simpl.
  - rewrite !filter_cons. rewrite Hab, Hba. rewrite decide_True, decide_False by done. simpl. lia.
  - rewrite IH. rewrite !filter_app, !length_app, !filter_cons. repeat case_decide; simpl; lia.
Qed.

Lemma inversions_bound l : (2 * inversions l <= length l * (length l - 1))%nat.
Proof.
  induction l as [|x l IH]; simpl; [done|]. pose proof (length_filter (fun y => reorderable x y = true) l).
  rewrite Nat.sub_0_r. destruct (length l) as [|n]; [lia|]. simpl in *. rewrite Nat.sub_0_r in IH. lia.
Qed.

(** Code points whose property the tables have. *)
Definition known (c : Z) : Prop := 0 <= c -> is_Some (unsafe_get_property c).

Lemma ccc_known c p : 0 <= c -> unsafe_get_property c = Some p -> ccc c = combining_class p.
Proof. intros Hc Hp. unfold ccc. by rewrite (proj2 (Z.ltb_ge c 0)), Hp by lia. Qed.

Lemma ordered_to_swap pos l1 a b l2 :
  length l1 = pos -> ordered_to pos (l1 ++ a :: b :: l2) -> ordered_to (pred pos) (l1 ++ b :: a :: l2).
Proof.
  intros Hl H i x y Hi Hx Hy. apply (H i x y); [lia|..]; rewrite lookup_app_l in * by lia; done.
Qed.

Lemma split_two (l : list Z) pos a b : l !! pos = Some a -> l !! S pos = Some b -> exists l1 l2, l = l1 ++ a :: b :: l2 /\ length l1 = pos.
Proof.
  intros Ha Hb. exists (take pos l), (drop (S (S pos)) l). split; [|rewrite length_take; apply lookup_lt_Some in Ha; lia].
  rewrite <- (drop_S l b (S pos) Hb). symmetry. by apply take_drop_middle.
Qed.

(** The loop exchanges reorderable pairs until there is none. *)
Lemma order_loop_spec fuel : forall l rest pos,
  Forall known l -> ordered_to pos l -> (pos <= length l)%nat -> (2 * inversions l + (length l - pos) < fuel)%nat ->
  exists l', order_loop fuel (l ++ rest) (Z.of_nat pos) (Z.of_nat (length l)) = Some (l' ++ rest) /\ rtc exchange l l' /\ ordered l'.
Proof.
  induction fuel as [|fuel IH]; intros l rest pos Hk Ho Hpos Hfuel; [lia|]. simpl.
  destruct (Z.ltb_spec (Z.of_nat pos) (Z.of_nat (length l) - 1)) as [Hlt|Hge].
  2: { exists l. split; [done|]. split; [done|]. intros i a b Hi Ha Hb. apply (Ho i a b); [|done..]. apply lookup_lt_Some in Hb. lia. }
  destruct (lookup_lt_is_Some_2 l pos) as [a Ha]; [lia|]. destruct (lookup_lt_is_Some_2 l (S pos)) as [b Hb]; [lia|].
  assert (forall i c, l !! i = Some c -> (l ++ rest) !! i = Some c) as Happ by (intros i c Hc; by apply lookup_app_l_Some).
  rewrite Nat2Z.id, (Happ _ _ Ha). cbn [mbind option_bind].
  destruct (Z.ltb_spec a 0) as [Han|Han].
  { replace (Z.of_nat pos + 1) with (Z.of_nat (S pos)) by lia. apply IH; [done| |lia|lia].
    intros i x y Hi Hx Hy. destruct (decide (i = pos)) as [->|]; [|apply (Ho i); [lia|done..]]. simplify_eq. unfold reorderable, ccc. rewrite (proj2 (Z.ltb_lt a 0)) by done. lia. }
  replace (Z.to_nat (Z.of_nat pos + 1)) with (S pos) by lia. rewrite (Happ _ _ Hb). cbn [mbind option_bind].
  destruct (Z.ltb_spec b 0) as [Hbn|Hbn].
  { assert (ccc b = 0) as Hcb by (unfold ccc; by rewrite (proj2 (Z.ltb_lt b 0))).
    replace (Z.of_nat pos + 2) with (Z.of_nat (S (S pos))) by lia. apply IH; [done| |lia|lia].
    intros i x y Hi Hx Hy. destruct (decide (i = pos)) as [->|]; [|destruct (decide (i = S pos)) as [->|]; [|apply (Ho i); [lia|done..]]];
      simplify_eq; unfold reorderable; rewrite Hcb; [lia|]. destruct (Z.ltb_spec (ccc y) 0); simpl; lia. }
  pose proof (Forall_lookup_1 _ _ _ _ Hk Ha Han) as [pa Hpa]. pose proof (Forall_lookup_1 _ _ _ _ Hk Hb Hbn) as [pb Hpb].
  rewrite Hpa, Hpb. cbn [mbind option_bind]. rewrite <- (ccc_known a pa), <- (ccc_known b pb) by done. fold (reorderable a b).
  destruct (reorderable a b) eqn:Er.
  - destruct (split_two l pos a b Ha Hb) as (l1 & l2 & -> & Hl1). pose proof (inversions_exchange l1 a b l2 Er) as Hinv.
    assert (<[S pos := a]> (<[pos := b]> ((l1 ++ a :: b :: l2) ++ rest)) = (l1 ++ b :: a :: l2) ++ rest) as Hswap.
    { rewrite <- Hl1, <- !app_assoc. simpl. rewrite insert_app_r_alt by lia. rewrite Nat.sub_diag. simpl.
      rewrite insert_app_r_alt by lia. by replace (S (length l1) - length l1)%nat with 1%nat by lia. }
    rewrite Hswap. assert (length (l1 ++ b :: a :: l2) = length (l1 ++ a :: b :: l2)) as Hlen by (by rewrite !length_app).
    rewrite <- Hlen in *.
    assert (Forall known (l1 ++ b :: a :: l2)) as Hk' by (rewrite !Forall_app, !Forall_cons in *; tauto).
    assert (exists pos', (if 0 <? Z.of_nat pos then Z.of_nat pos - 1 else Z.of_nat pos + 1) = Z.of_nat pos' /\ ordered_to pos' (l1 ++ b :: a :: l2) /\ (pos' <= S pos)%nat /\ (pos <= S pos')%nat) as (pos' & -> & Ho' & Hle & Hge').
    { destruct (Z.ltb_spec 0 (Z.of_nat pos)).
      - exists (pred pos). split_and!; [lia| |lia|lia]. by apply (ordered_to_swap pos _ a b).
      - exists 1%nat. split_and!; [lia| |lia|lia]. destruct l1; [|simpl in Hl1; lia]. intros [|i] x y Hi Hx Hy; [|lia]. simplify_eq/=. unfold reorderable in *. lia. }
    destruct (IH (l1 ++ b :: a :: l2) rest pos') as (l' & -> & Hr & Hord); [done|done|lia|lia|].
    exists l'. split_and!; [done| |done]. eapply rtc_l; [by apply exchange_pair|done].
  - replace (Z.of_nat pos + 1) with (Z.of_nat (S pos)) by lia. apply IH; [done| |lia|lia].
    intros i x y Hi Hx Hy. destruct (decide (i = pos)) as [->|]; [congruence|]. apply (Ho i); [lia|done..].
Qed.
End Order.

(** ** Stores that fit *)

(** What fits of two lists, one behind the other. *)
Lemma write_fit off size (a b mem : list Z) :
  (size = 0 \/ off + size <= length mem)%nat ->
  write_at (off + length a) (take (size - length a) b) (write_at off (take size a) mem) = write_at off (take size (a ++ b)) mem.
Proof.
  intros H. rewrite take_app. destruct (decide (length a <= size)%nat) as [Hle|Hgt].
  - rewrite (take_ge a) by lia. destruct H as [-> |H].
    + simpl. replace (length a) with 0%nat by lia. destruct a; [|simpl in Hle; lia]. simpl. by rewrite !write_at_nil.
    + apply write_at_app. lia.
  - replace (size - length a)%nat with 0%nat by lia. rewrite !take_0, app_nil_r. apply write_at_nil.
Qed.

Section Decompose.
Context `{HD : !UnicodeData}.

Lemma put_if_fit bufsize mem dst k v :
  0 <= dst -> 0 <= k -> 0 <= bufsize -> bufsize = 0 \/ dst + bufsize <= Z.of_nat (length mem) ->
  put_if bufsize mem dst k v = Some (write_at (Z.to_nat dst + Z.to_nat k) (take (Z.to_nat bufsize - Z.to_nat k) [v]) mem).
Proof.
  intros Hd Hk Hb Hl. unfold put_if, put. destruct (Z.ltb_spec k bufsize).
  - rewrite (proj2 (Z.leb_le 0 (dst + k))), (proj2 (Z.ltb_lt (dst + k) _)) by lia. simpl. f_equal.
    destruct (Z.to_nat bufsize - Z.to_nat k)%nat eqn:E; [lia|]. simpl. rewrite take_nil. unfold write_at. simpl.
    rewrite insert_take_drop, Nat.add_1_r by lia. by replace (Z.to_nat (dst + k)) with (Z.to_nat dst + Z.to_nat k)%nat by lia.
  - replace (Z.to_nat bufsize - Z.to_nat k)%nat with 0%nat by lia. by rewrite take_0, write_at_nil.
Qed.

(** A call stores as much of a list as fits, and returns its length. *)
Definition writes (f : list Z -> Z -> Z -> option (Z * list Z * option Z)) (l : list Z) (state : option Z) : Prop :=
  forall mem dst bufsize, 0 <= dst -> 0 <= bufsize -> bufsize = 0 \/ dst + bufsize <= Z.of_nat (length mem) ->
  f mem dst bufsize = Some (Z.of_nat (length l), write_at (Z.to_nat dst) (take (Z.to_nat bufsize) l) mem, state).

Lemma length_fit off size (l mem : list Z) : (size = 0 \/ off + size <= length mem)%nat -> length (write_at off (take size l) mem) = length mem.
Proof.
  intros [-> |H]; [by rewrite take_0, write_at_nil|]. apply length_write_at. rewrite length_take. lia.
Qed.

Lemma writes_one v state : writes (fun mem dst bufsize => mem ← put_if bufsize mem dst 0 v; Some (1, mem, state)) [v] state.
Proof.
  intros mem dst bufsize Hd Hb Hl. rewrite put_if_fit by lia. cbn [mbind option_bind]. by rewrite Nat.add_0_r, Nat.sub_0_r.
Qed.

Lemma writes_two v w state :
  writes (fun mem dst bufsize => mem ← put_if bufsize mem dst 0 v; mem ← put_if bufsize mem dst 1 w; Some (2, mem, state)) [v; w] state.
Proof.
  intros mem dst bufsize Hd Hb Hl. rewrite put_if_fit by lia. cbn [mbind option_bind]. rewrite Nat.add_0_r, Nat.sub_0_r.
  rewrite put_if_fit; [|lia..|rewrite length_fit by lia; lia]. cbn [mbind option_bind].
  change [v; w] with ([v] ++ [w]). by rewrite <- (write_fit (Z.to_nat dst) (Z.to_nat bufsize) [v] [w]) by lia.
Qed.

Lemma writes_three v w x state :
  writes (fun mem dst bufsize => mem ← put_if bufsize mem dst 0 v; mem ← put_if bufsize mem dst 1 w; mem ← put_if bufsize mem dst 2 x; Some (3, mem, state)) [v; w; x] state.
Proof.
  intros mem dst bufsize Hd Hb Hl. rewrite put_if_fit by lia. cbn [mbind option_bind]. rewrite Nat.add_0_r, Nat.sub_0_r.
  rewrite put_if_fit; [|lia..|rewrite length_fit by lia; lia]. cbn [mbind option_bind].
  pose proof (write_fit (Z.to_nat dst) (Z.to_nat bufsize) [v] [w] mem ltac:(lia)) as H1. simpl length in H1. change (Z.to_nat 1) with 1%nat. rewrite H1.
  rewrite put_if_fit; [|lia..|rewrite length_fit by lia; lia]. cbn [mbind option_bind].
  by rewrite <- (write_fit (Z.to_nat dst) (Z.to_nat bufsize) ([v] ++ [w]) [x]) by lia.
Qed.

(** One list behind the other. *)
Lemma writes_app f g l1 l2 st1 st2 :
  writes f l1 st1 -> writes g l2 st2 ->
  forall mem dst bufsize, 0 <= dst -> 0 <= bufsize -> bufsize = 0 \/ dst + bufsize <= Z.of_nat (length mem) ->
  exists mem1, f mem dst bufsize = Some (Z.of_nat (length l1), mem1, st1) /\
    g mem1 (dst + Z.of_nat (length l1)) (if Z.of_nat (length l1) <? bufsize then bufsize - Z.of_nat (length l1) else 0) =
      Some (Z.of_nat (length l2), write_at (Z.to_nat dst) (take (Z.to_nat bufsize) (l1 ++ l2)) mem, st2).
Proof.
  intros Hf Hg mem dst bufsize Hd Hb Hl. eexists. split; [by apply Hf|]. rewrite Hg; [|lia|case_if; lia|rewrite length_fit by lia; case_if; lia].
  do 3 f_equal. rewrite <- (write_fit (Z.to_nat dst) (Z.to_nat bufsize) l1 l2) by lia.
  f_equal; [lia|]. f_equal. destruct (Z.ltb_spec (Z.of_nat (length l1)) bufsize); lia.
Qed.

(** ** Well-formed tables *)

Definition assigned (c : Z) : Prop := exists p, unsafe_get_property c = Some p /\ category p <> 0.

(** The code points of an index into [utf8proc_sequences]. *)
Fixpoint entries (n entry : nat) : option (list Z) :=
  match n with
  | O => Some []
  | S n => '(cp, entry) ← seqindex_decode_entry entry; l ← entries n (S entry); Some (cp :: l)
  end.

Definition sequence (seqindex : Z) : option (list Z) :=
  let entry := Z.to_nat (Z.land seqindex 0x3FFF) in
  let l := Z.shiftr seqindex 14 in
  '(l, entry) ← (if 3 <=? l then l ← utf8proc_sequences !! entry; Some (l, S entry) else Some (l, entry));
  entries (Z.to_nat (l + 1)) entry.

(** What the generator of the tables guarantees: every code point has a
    property; mappings of one code point lead to assigned code points, and do not
    lead around (they decrease [rank], which is at most [top]); the replacements
    of [UTF8PROC_LUMP] are assigned; rows of the composition table are inside
    of it and lead to code points. *)
Record tables_ok (rank : Z -> nat) (top : nat) : Prop := {
  ok_property c : codepoint c -> is_Some (unsafe_get_property c);
  ok_rank c : (rank c <= top)%nat;
  ok_sequence c p idx : codepoint c -> unsafe_get_property c = Some p -> idx = decomp_seqindex p \/ idx = casefold_seqindex p -> idx <> UINT16_MAX ->
    exists cps, sequence idx = Some cps /\ Forall (fun cp => codepoint cp /\ assigned cp /\ (rank cp < rank c)%nat) cps;
  ok_lump options c category r : lump options c category = Some r -> codepoint r /\ assigned r;
  ok_combinations c p : codepoint c -> unsafe_get_property c = Some p -> comb_index p < 0x3FF ->
    0 <= comb_index p /\ 1 <= comb_length p /\ comb_index p + comb_length p <= Z.of_nat (length utf8proc_combinations_second) /\
    comb_index p + comb_length p <= Z.of_nat (length utf8proc_combinations_combined);
  ok_combined i c : utf8proc_combinations_combined !! i = Some c -> codepoint c }.

Lemma has_bit options k : 0 <= k -> has options (2 ^ k) = Z.testbit options k.
Proof.
  intros Hk. unfold has. destruct (Z.testbit options k) eqn:E.
  - apply negb_true_iff, Z.eqb_neq. intros Hz. apply (f_equal (fun x => Z.testbit x k)) in Hz.
    by rewrite Z.land_spec, Z.bits_0, E, Z.pow2_bits_true in Hz.
  - apply negb_false_iff, Z.eqb_eq. apply Z.bits_inj'. intros i Hi. rewrite Z.land_spec, Z.bits_0, Z.pow2_bits_eqb by done.
    destruct (Z.eqb_spec k i) as [<-|]; [by rewrite E|by rewrite andb_false_r].
Qed.

Lemma has_ldiff options j k : 0 <= j -> 0 <= k -> j <> k -> has (Z.ldiff options (2 ^ j)) (2 ^ k) = has options (2 ^ k).
Proof.
  intros Hj Hk Hne. rewrite !has_bit, Z.ldiff_spec, Z.pow2_bits_eqb by done. by rewrite (proj2 (Z.eqb_neq j k)), andb_true_r by done.
Qed.

Lemma has_cleared options j : 0 <= j -> has (Z.ldiff options (2 ^ j)) (2 ^ j) = false.
Proof. intros Hj. by rewrite has_bit, Z.ldiff_spec, Z.pow2_bits_true, andb_false_r by done. Qed.

(** A code point of the result, or the mark of a grapheme break. *)
Definition mark (options c : Z) : Prop := codepoint c \/ (c = -1 /\ has options UTF8PROC_CHARBOUND = true).

Context (rank : Z -> nat) (top : nat) (Hok : tables_ok rank top).

(** The depth of the recursion. *)
Definition need (options c : Z) : nat := rank c + (if has options UTF8PROC_LUMP then S top else 0).

Definition char_writes (fuel : nat) (options uc : Z) (state : option Z) : Prop :=
  exists l state', writes (fun mem dst bufsize => utf8proc_decompose_char fuel options uc mem dst bufsize state) l state' /\ Forall (mark options) l.

Lemma loop_writes fuel options n : forall entry cps,
  (forall cp state, cp ∈ cps -> char_writes fuel options cp state) -> entries n entry = Some cps ->
  forall l0 state, Forall (mark options) l0 ->
  exists l state', Forall (mark options) l /\
    forall mem0 dst bufsize, 0 <= dst -> 0 <= bufsize -> bufsize = 0 \/ dst + bufsize <= Z.of_nat (length mem0) ->
    write_loop (utf8proc_decompose_char fuel options) n entry (write_at (Z.to_nat dst) (take (Z.to_nat bufsize) l0) mem0) dst bufsize (Z.of_nat (length l0)) state =
      Some (Z.of_nat (length l), write_at (Z.to_nat dst) (take (Z.to_nat bufsize) l) mem0, state').
Proof.
  induction n as [|n IH]; intros entry cps Hcps He l0 state Hl0; simpl in *; [by exists l0, state|].
  destruct (seqindex_decode_entry entry) as [[cp entry']|]; [|done]. cbn [mbind option_bind] in *.
  destruct (entries n (S entry')) as [cps'|] eqn:E; [|done]. simplify_eq/=.
  destruct (Hcps cp state ltac:(left)) as (l1 & st1 & Hw & Hm1).
  destruct (IH (S entry') cps' ltac:(intros c st Hc; apply Hcps; by right) E (l0 ++ l1) st1) as (l & st' & Hm & Hloop); [by apply Forall_app|].
  exists l, st'. split; [done|]. intros mem0 dst bufsize Hd Hb Hl.
  destruct (writes_app (fun mem dst bufsize => Some (Z.of_nat (length l0), write_at (Z.to_nat dst) (take (Z.to_nat bufsize) l0) mem, state)) _ l0 l1 state st1 ltac:(done) Hw mem0 dst bufsize Hd Hb Hl) as (mem1 & [= <-] & H2).
  rewrite H2. cbn [mbind option_bind]. rewrite (proj2 (Z.ltb_ge _ 0)) by lia.
  rewrite <- Nat2Z.inj_add, <- length_app. by apply Hloop.
Qed.

Lemma sequence_writes fuel options idx cps state :
  (forall cp state, cp ∈ cps -> char_writes fuel options cp state) -> sequence idx = Some cps ->
  exists l state', writes (fun mem dst bufsize => seqindex_write_char_decomposed (utf8proc_decompose_char fuel options) idx mem dst bufsize state) l state' /\
    Forall (mark options) l.
Proof.
  intros Hcps Hs. unfold sequence in Hs. unfold seqindex_write_char_decomposed.
  destruct (if 3 <=? Z.shiftr idx 14 then _ else _) as [[l entry]|]; [|done]. cbn [mbind option_bind] in *.
  destruct (loop_writes fuel options _ entry cps Hcps Hs [] state (Forall_nil_2 _)) as (l' & st' & Hm & Hw).
  exists l', st'. split; [|done]. intros mem dst bufsize Hd Hb Hl. specialize (Hw mem dst bufsize Hd Hb Hl). by rewrite take_nil, write_at_nil in Hw.
Qed.

(** The call is refused. *)
Definition rejects (options uc : Z) : Prop :=
  has options UTF8PROC_REJECTNA = true /\ ~ assigned uc /\
  ~ (has options (Z.lor UTF8PROC_COMPOSE UTF8PROC_DECOMPOSE) = true /\ 0 <= uc - UTF8PROC_HANGUL_SBASE < UTF8PROC_HANGUL_SCOUNT).

Lemma mark_clear options c : mark (Z.ldiff options UTF8PROC_LUMP) c -> mark options c.
Proof.
  intros [H|[-> H]]; [by left|right]. split; [done|]. change UTF8PROC_LUMP with (2 ^ 12) in H. change UTF8PROC_CHARBOUND with (2 ^ 11) in *. by rewrite has_ldiff in H.
Qed.

Lemma hangul_marks options s : 0 <= s < UTF8PROC_HANGUL_SCOUNT ->
  mark options (UTF8PROC_HANGUL_LBASE + s / UTF8PROC_HANGUL_NCOUNT) /\
  mark options (UTF8PROC_HANGUL_VBASE + (s mod UTF8PROC_HANGUL_NCOUNT) / UTF8PROC_HANGUL_TCOUNT) /\
  mark options (UTF8PROC_HANGUL_TBASE + s mod UTF8PROC_HANGUL_TCOUNT).
Proof.
  intros H. unfold mark, codepoint, UTF8PROC_HANGUL_SCOUNT, UTF8PROC_HANGUL_LBASE, UTF8PROC_HANGUL_NCOUNT, UTF8PROC_HANGUL_VBASE, UTF8PROC_HANGUL_TCOUNT, UTF8PROC_HANGUL_TBASE in *.
  split_and!; left; Z.div_mod_to_equations; lia.
Qed.

(** A code point that is not refused gives a list, of which as much is stored as fits. *)
Lemma decompose_char_writes fuel : forall options uc state,
  codepoint uc -> ~ rejects options uc -> (need options uc < fuel)%nat -> char_writes fuel options uc state.
Proof.
  induction fuel as [|fuel IH]; intros options uc state Huc Hrej Hneed; [lia|]. unfold char_writes. cbn [utf8proc_decompose_char].
  unfold codepoint in Huc. rewrite (proj2 (Z.ltb_ge uc 0)), (proj2 (Z.leb_gt 0x110000 uc)) by lia. cbn [orb].
  destruct (ok_property _ _ Hok uc Huc) as [p Hp]. rewrite Hp. cbn [mbind option_bind].
  destruct (has options (Z.lor UTF8PROC_COMPOSE UTF8PROC_DECOMPOSE) && (0 <=? uc - UTF8PROC_HANGUL_SBASE) && (uc - UTF8PROC_HANGUL_SBASE <? UTF8PROC_HANGUL_SCOUNT)) eqn:Eh.
  { destruct (hangul_marks options (uc - UTF8PROC_HANGUL_SBASE)) as (H1 & H2 & H3); [lia|].
    case_if; [eexists _, _; split; [apply writes_two|by rewrite !Forall_cons]|]. eexists _, _; split; [apply writes_three|by rewrite !Forall_cons]. }
  assert (forall st, exists l state', writes (fun mem dst bufsize => Some (0, mem, st)) l state' /\ Forall (mark options) l) as Hnone.
  { intros st. exists [], st. split; [|done]. intros mem dst bufsize _ _ _. by rewrite take_nil, write_at_nil. }
  destruct (has options UTF8PROC_REJECTNA && (category p =? 0)) eqn:Er.
  { destruct Hrej. unfold rejects. split_and!; [by destruct (has options UTF8PROC_REJECTNA)| |intros [Hn ?]; rewrite Hn in Eh; lia]. intros (p' & Hp' & Hc). simplify_eq. lia. }
  destruct (has options UTF8PROC_IGNORE && ignorable p); [apply Hnone|].
  destruct (has options UTF8PROC_STRIPNA && (category p =? 0)); [apply Hnone|].
  destruct (if has options UTF8PROC_LUMP then lump options uc (category p) else None) as [r|] eqn:El.
  { destruct (has options UTF8PROC_LUMP) eqn:Hlump; [|done]. destruct (ok_lump _ _ Hok _ _ _ _ El) as [Hr Ha].
    destruct (IH (Z.ldiff options UTF8PROC_LUMP) r state Hr) as (l & st' & Hw & Hm).
    - by intros (_ & Hna & _).
    - unfold need in *. rewrite Hlump in Hneed. change UTF8PROC_LUMP with (2 ^ 12) at 2. change UTF8PROC_LUMP with (2 ^ 12) at 1.
      rewrite has_cleared by done. pose proof (ok_rank _ _ Hok r). lia.
    - exists l, st'. split; [done|]. eapply Forall_impl; [exact Hm|apply mark_clear]. }
  case_if; [apply Hnone|].
  assert (forall idx, idx = decomp_seqindex p \/ idx = casefold_seqindex p -> negb (idx =? UINT16_MAX) = true ->
    exists l state', writes (fun mem dst bufsize => seqindex_write_char_decomposed (utf8proc_decompose_char fuel options) idx mem dst bufsize state) l state' /\
    Forall (mark options) l) as Hseq.
  { intros idx Hidx Hne. destruct (ok_sequence _ _ Hok uc p idx Huc Hp Hidx) as (cps & Hs & Hcps); [by apply negb_true_iff, Z.eqb_neq in Hne|].
    eapply sequence_writes; [|exact Hs]. intros cp st Hin. destruct (proj1 (Forall_forall _ _) Hcps cp Hin) as (Hcp & Ha & Hrk).
    apply IH; [done|by intros (_ & Hna & _)|]. unfold need in *. lia. }
  destruct (has options UTF8PROC_CASEFOLD && negb (casefold_seqindex p =? UINT16_MAX)) eqn:Ec.
  { apply andb_true_iff in Ec as [_ Ec]. apply Hseq; [by right|done]. }
  destruct (_ && negb (decomp_seqindex p =? UINT16_MAX) && _) eqn:Ed.
  { apply andb_true_iff in Ed as [[_ Ed]%andb_true_iff _]. apply Hseq; [by left|done]. }
  destruct (has options UTF8PROC_CHARBOUND) eqn:Eb.
  - destruct (grapheme_break_extended 0 (boundclass p) 0 (indic_conjunct_break p) state) as [[] st'].
    + eexists _, _. split; [apply writes_two|]. rewrite !Forall_cons. split_and!; [by right|by left|done].
    + eexists _, _. split; [apply writes_one|]. rewrite Forall_cons. split; [by left|done].
  - eexists _, _. split; [apply writes_one|]. rewrite Forall_cons. split; [by left|done].
Qed.

(** ** Texts *)

Definition utf8 (cs : list Z) : list Z := concat (map utf8proc_encode_char cs).

(** The rest of the text from a position is the UTF-8 form of code points. *)
Definition text_at (options : Z) (str : list Z) (strlen rpos : Z) (cs : list Z) : Prop :=
  bytes_ok str /\ Forall scalar cs /\ 0 <= rpos /\
  if has options UTF8PROC_NULLTERM then Forall (fun c => c <> 0) cs /\ exists rest, drop (Z.to_nat rpos) str = utf8 cs ++ 0 :: rest
  else strlen = rpos + Z.of_nat (length (utf8 cs)) /\ exists rest, drop (Z.to_nat rpos) str = utf8 cs ++ rest.

Lemma read_next_end options str strlen rpos : text_at options str strlen rpos [] -> read_next options str strlen rpos = Some (inl None).
Proof.
  intros (Hby & _ & Hpos & H). unfold read_next. destruct (has options UTF8PROC_NULLTERM).
  - destruct H as (_ & rest & E). rewrite E. change (utf8 [] ++ 0 :: rest) with (utf8proc_encode_char 0 ++ rest).
    rewrite iterate_encode; [done|by left|apply (Forall_drop _ (Z.to_nat rpos)) in Hby; rewrite E in Hby; by apply Forall_cons in Hby as [_ Hby]|by left].
  - destruct H as [-> _]. by rewrite (proj2 (Z.leb_le _ _)) by (simpl; lia).
Qed.

Lemma read_next_char options str strlen rpos c cs :
  text_at options str strlen rpos (c :: cs) ->
  read_next options str strlen rpos = Some (inl (Some (rpos + Z.of_nat (length (utf8proc_encode_char c)), c))) /\
  text_at options str strlen (rpos + Z.of_nat (length (utf8proc_encode_char c))) cs.
Proof.
  intros (Hby & [Hc Hcs]%Forall_cons & Hpos & H). unfold read_next, text_at. pose proof (encode_nonempty c Hc) as Hn.
  assert (0 <= c) as Hc0 by (unfold scalar in Hc; lia).
  assert (forall tail, drop (Z.to_nat rpos) str = utf8proc_encode_char c ++ tail ->
    bytes_ok tail /\ drop (Z.to_nat (rpos + Z.of_nat (length (utf8proc_encode_char c)))) str = tail) as Htail.
  { intros tail E. split.
    - apply (Forall_drop _ (Z.to_nat rpos)) in Hby. rewrite E in Hby. by apply Forall_app in Hby as [_ ?].
    - replace (Z.to_nat (rpos + _)) with (Z.to_nat rpos + length (utf8proc_encode_char c))%nat by lia.
      rewrite <- drop_drop, E. apply drop_app_length. }
  destruct (has options UTF8PROC_NULLTERM).
  - destruct H as ([Hnz Hnzs]%Forall_cons & rest & E). unfold utf8 in *. cbn [map concat] in E. rewrite <- app_assoc in E. destruct (Htail _ E) as [Hokt Hd].
    rewrite E, iterate_encode by (done || by left). cbn [mbind option_bind]. rewrite (proj2 (Z.ltb_ge c 0)), (proj2 (Z.eqb_neq c 0)) by done.
    split; [done|]. split_and!; [done|done|lia|done|by exists rest].
  - destruct H as (-> & rest & E). unfold utf8 in *. cbn [map concat] in *. rewrite length_app in *. rewrite <- app_assoc in E. destruct (Htail _ E) as [Hokt Hd].
    rewrite (proj2 (Z.leb_gt _ _)) by lia. rewrite E, iterate_encode by (done || (right; lia)). cbn [mbind option_bind].
    rewrite (proj2 (Z.ltb_ge c 0)) by done. split; [done|]. split_and!; [done|done|lia|lia|by exists rest].
Qed.

(** ** The loop *)

(** The code points of a text, each decomposed, one behind the other. *)
Inductive expands (fuel : nat) (options : Z) : option Z -> list Z -> list Z -> Prop :=
  | expands_nil st : expands fuel options st [] []
  | expands_cons st c cs l1 st1 l :
      writes (fun mem dst bufsize => utf8proc_decompose_char fuel options c mem dst bufsize st) l1 st1 -> expands fuel options st1 cs l ->
      expands fuel options st (c :: cs) (l1 ++ l).

Definition LIMIT : Z := SSIZE_MAX / 4 / 2.

Lemma expands_exists fuel options cs : forall st,
  (forall c, c ∈ cs -> codepoint c /\ ~ rejects options c /\ (need options c < fuel)%nat) -> exists l, expands fuel options st cs l /\ Forall (mark options) l.
Proof.
  induction cs as [|c cs IH]; intros st H; [exists []; split; [constructor|done]|].
  destruct (H c ltac:(left)) as (Hc & Hr & Hn). destruct (decompose_char_writes fuel options c st Hc Hr Hn) as (l1 & st1 & Hw & Hm).
  destruct (IH st1) as (l & He & Hml); [intros c' Hc'; apply H; by right|]. exists (l1 ++ l). split; [by eapply expands_cons|by apply Forall_app].
Qed.

Lemma loop_spec {D} cf fuel options str strlen cs (data : D) : forall rpos l0 st l,
  text_at options str strlen rpos cs -> expands cf options st cs l -> (length cs < fuel)%nat -> Z.of_nat (length l0) <= LIMIT ->
  forall mem bufsize, 0 <= bufsize <= Z.of_nat (length mem) ->
  exists mem', decompose_loop cf fuel options None str strlen rpos (write_at 0 (take (Z.to_nat bufsize) l0) mem) bufsize (Z.of_nat (length l0)) st data =
    Some (if LIMIT <? Z.of_nat (length (l0 ++ l)) then UTF8PROC_ERROR_OVERFLOW else Z.of_nat (length (l0 ++ l)), mem', data) /\
    length mem' = length mem /\ (Z.of_nat (length (l0 ++ l)) <= LIMIT -> mem' = write_at 0 (take (Z.to_nat bufsize) (l0 ++ l)) mem).
Proof.
  revert cs. induction fuel as [|fuel IH]; intros cs rpos l0 st l Ht He Hf Hl0 mem bufsize Hb; [lia|]. cbn [decompose_loop].
  inversion He as [|st' c cs' l1 st1 l2 Hw He2]; subst.
  { rewrite read_next_end by done. cbn [mbind option_bind]. rewrite app_nil_r, (proj2 (Z.ltb_ge _ _)) by done.
    eexists. split; [done|]. split; [apply length_fit; lia|done]. }
  destruct (read_next_char _ _ _ _ _ _ Ht) as [-> Ht2]. cbn [mbind option_bind].
  destruct (writes_app (fun mem dst bufsize => Some (Z.of_nat (length l0), write_at (Z.to_nat dst) (take (Z.to_nat bufsize) l0) mem, st)) _ l0 l1 st st1 ltac:(done) Hw mem 0 bufsize ltac:(lia) ltac:(lia) ltac:(lia)) as (mem1 & [= <-] & H2).
  rewrite Z.add_0_l in H2. change (Z.to_nat 0) with 0%nat in H2. rewrite H2. cbn [mbind option_bind]. rewrite (proj2 (Z.ltb_ge (Z.of_nat (length l1)) 0)) by lia. cbn zeta.
  rewrite <- Nat2Z.inj_add, <- length_app. rewrite (proj2 (Z.ltb_ge _ 0)) by lia. cbn [orb]. fold LIMIT. rewrite (app_assoc l0 l1 l2).
  destruct (Z.ltb_spec LIMIT (Z.of_nat (length (l0 ++ l1)))) as [Hov|Hfit].
  - eexists. rewrite (proj2 (Z.ltb_lt LIMIT _)) by (rewrite (length_app (l0 ++ l1)); lia). split; [done|]. split; [apply length_fit; lia|].
    rewrite (length_app (l0 ++ l1)). lia.
  - apply (IH cs' _ (l0 ++ l1) st1 l2 Ht2 He2); [simpl in Hf; lia|done|done].
Qed.

(** ** Strings *)

(** Combinations of options that are not refused. *)
Definition options_ok (options : Z) : bool :=
  negb (has options UTF8PROC_COMPOSE && has options UTF8PROC_DECOMPOSE) &&
  negb (has options UTF8PROC_STRIPMARK && negb (has options UTF8PROC_COMPOSE) && negb (has options UTF8PROC_DECOMPOSE)).

Definition normalises (options : Z) : bool := has options (Z.lor UTF8PROC_COMPOSE UTF8PROC_DECOMPOSE).

(** What a result is in the buffer: in canonical order when the text is to be
    normalised and fits, and else as much as fits. *)
Definition stored (options bufsize : Z) (l buffer buffer' : list Z) : Prop :=
  if normalises options && (Z.of_nat (length l) <=? bufsize)
  then exists l', buffer' = write_at 0 l' buffer /\ rtc exchange l l' /\ ordered l'
  else buffer' = write_at 0 (take (Z.to_nat bufsize) l) buffer.

Lemma exchange_permutation l l' : rtc exchange l l' -> l ≡ₚ l'.
Proof. induction 1 as [|l1 l2 l3 Hx _ IH]; [done|]. rewrite <- IH. destruct Hx. by rewrite (Permutation_swap a b l2). Qed.

Lemma decompose_custom_spec {D} cf fuel order_fuel options str strlen cs l buffer bufsize (data : D) :
  text_at options str strlen 0 cs -> expands cf options (Some UTF8PROC_BOUNDCLASS_START) cs l -> Forall (mark options) l ->
  (length cs < fuel)%nat -> (length l * length l < order_fuel)%nat -> options_ok options = true -> 0 <= bufsize <= Z.of_nat (length buffer) ->
  exists buffer', utf8proc_decompose_custom cf fuel order_fuel str strlen buffer bufsize options None data =
    Some (if LIMIT <? Z.of_nat (length l) then UTF8PROC_ERROR_OVERFLOW else Z.of_nat (length l), buffer', data) /\
    length buffer' = length buffer /\ (Z.of_nat (length l) <= LIMIT -> stored options bufsize l buffer buffer').
Proof.
  intros Ht He Hm Hf Hof Ho Hb. unfold utf8proc_decompose_custom. unfold options_ok in Ho.
  destruct (_ && has options UTF8PROC_DECOMPOSE); [done|]. destruct (_ && _ && _); [done|].
  destruct (loop_spec cf fuel options str strlen cs data 0 [] (Some UTF8PROC_BOUNDCLASS_START) l Ht He Hf ltac:(done) buffer bufsize Hb) as (buffer1 & Hloop & Hlen & Hmem).
  rewrite take_nil, write_at_nil in Hloop. simpl app in *. change (Z.of_nat (length [])) with 0 in Hloop. rewrite Hloop. cbn [mbind option_bind].
  destruct (Z.ltb_spec LIMIT (Z.of_nat (length l))) as [Hov|Hfit]; [exists buffer1; split; [done|]; split; [done|lia]|].
  specialize (Hmem Hfit). rewrite (proj2 (Z.ltb_ge _ 0)) by lia. unfold stored. fold (normalises options).
  destruct (normalises options && (Z.of_nat (length l) <=? bufsize)) eqn:E; [|by exists buffer1].
  assert (buffer1 = l ++ drop (length l) buffer) as E1 by (rewrite Hmem; rewrite take_ge by lia; done).
  destruct (order_loop_spec order_fuel l (drop (length l) buffer) 0) as (l' & Hord & Hx & Hl'); [| |lia|pose proof (inversions_bound l); nia|].
  { eapply Forall_impl; [exact Hm|]. intros c [Hc|[-> _]]; [intros _; by eapply ok_property|intros Hc; lia]. }
  { intros i a b Hi. lia. }
  rewrite E1. change (Z.of_nat 0) with 0 in Hord. rewrite Hord. cbn [mbind option_bind]. exists (l' ++ drop (length l) buffer). split; [done|].
  pose proof (Permutation_length (exchange_permutation l l' Hx)) as Hpl. split; [rewrite <- Hlen, E1, !length_app; lia|].
  intros _. exists l'. unfold write_at. simpl. by rewrite <- Hpl.
Qed.

(** C10: decomposition gives the code points of the text, decomposed one after
    the other, and as many as fit are stored; a length beyond the capacity is
    returned all the same.  When the text is to be normalised and fits, the
    buffer holds them in canonical order: pairs of neighbours were exchanged
    whose combining classes descend and are not zero, and no such pair is left. *)
Theorem utf8proc_decompose_orders cf fuel order_fuel options str strlen cs buffer bufsize :
  text_at options str strlen 0 cs -> Forall (fun c => ~ rejects options c /\ (need options c < cf)%nat) cs -> (length cs < fuel)%nat ->
  options_ok options = true -> 0 <= bufsize <= Z.of_nat (length buffer) ->
  exists l, expands cf options (Some UTF8PROC_BOUNDCLASS_START) cs l /\ Forall (mark options) l /\
    (Z.of_nat (length l) <= LIMIT -> (length l * length l < order_fuel)%nat ->
     exists buffer', utf8proc_decompose cf fuel order_fuel str strlen buffer bufsize options = Some (Z.of_nat (length l), buffer') /\
       stored options bufsize l buffer buffer').
Proof using Hok.
  intros Ht Hcs Hf Ho Hb.
  destruct (expands_exists cf options cs (Some UTF8PROC_BOUNDCLASS_START)) as (l & He & Hm).
  { intros c Hc. destruct (proj1 (Forall_forall _ _) Hcs c Hc). split; [|done]. destruct Ht as (_ & Hs & _).
    pose proof (proj1 (Forall_forall _ _) Hs c Hc) as Hsc. unfold scalar, codepoint in *. lia. }
  exists l. split_and!; [done|done|]. intros Hlim Hof.
  destruct (decompose_custom_spec cf fuel order_fuel options str strlen cs l buffer bufsize tt Ht He Hm Hf Hof Ho Hb) as (buffer' & Hd & _ & Hst).
  exists buffer'. split; [|by apply Hst]. unfold utf8proc_decompose. rewrite Hd. cbn [mbind option_bind]. by rewrite (proj2 (Z.ltb_ge _ _)).
Qed.
End Decompose.

(** ** A small table

    The letter e with acute, the accents U+0301 and U+0327, and a property for
    all the others.  Every page but the fourth is the first one. *)
Definition letter : utf8proc_property_t := mk_property 5 0 0 UINT16_MAX UINT16_MAX UINT16_MAX UINT16_MAX UINT16_MAX 0x3FF 0 false false 1 false 1 0.
Definition acute : utf8proc_property_t := mk_property 6 230 0 UINT16_MAX UINT16_MAX UINT16_MAX UINT16_MAX UINT16_MAX 0x3FF 0 true false 0 false 5 3.
Definition cedilla : utf8proc_property_t := mk_property 6 202 0 UINT16_MAX UINT16_MAX UINT16_MAX UINT16_MAX UINT16_MAX 0x3FF 0 true false 0 false 5 3.
Definition letter_e : utf8proc_property_t := mk_property 2 0 0 UINT16_MAX UINT16_MAX UINT16_MAX UINT16_MAX UINT16_MAX 0 1 false false 1 false 1 0.
Definition e_acute : utf8proc_property_t := mk_property 2 0 0 16384 UINT16_MAX UINT16_MAX UINT16_MAX UINT16_MAX 0x3FF 0 false false 1 false 1 0.

#[export] Instance small : UnicodeData := {
  utf8proc_sequences := [0x65; 0x301];
  utf8proc_stage1table := replicate 3 0 ++ 256 :: replicate (Z.to_nat 4348) 0;
  utf8proc_stage2table := <[0x65%nat := 1]> (<[0xE9%nat := 2]> (replicate 256 0)) ++ <[0x01%nat := 3]> (<[0x27%nat := 4]> (replicate 256 0));
  utf8proc_properties := [letter; letter_e; e_acute; acute; cedilla];
  utf8proc_combinations_second := [0x301]; utf8proc_combinations_combined := [0xE9] }.

Definition small_rank (c : Z) : nat := if Z.land c 0xFF =? 0xE9 then 1 else 0.

Lemma small_property c : codepoint c ->
  exists i, unsafe_get_property c = utf8proc_properties !! i /\ (i < 5)%nat /\ (i = 2%nat -> Z.land c 0xFF = 0xE9).
Proof.
  intros Hc. unfold codepoint in Hc. unfold unsafe_get_property.
  assert (0 <= Z.shiftr c 8 < 4352) as Hs by (rewrite Z.shiftr_div_pow2 by done; change (2 ^ 8) with 256; Z.div_mod_to_equations; lia).
  assert (0 <= Z.land c 0xFF < 256) as Hl by (change 0xFF with (Z.ones 8); rewrite Z.land_ones by done; by apply Z.mod_pos_bound).
  destruct (lookup_lt_is_Some_2 utf8proc_stage1table (Z.to_nat (Z.shiftr c 8))) as [i Hi]; [change (length utf8proc_stage1table) with 4352%nat; lia|].
  rewrite Hi. cbn [mbind option_bind].
  assert (i = 0 \/ i = 256) as Hi2.
  { assert (Forall (fun i => i = 0 \/ i = 256) utf8proc_stage1table) as Hall
      by (apply Forall_app; split; [apply Forall_replicate; by left|apply Forall_cons; split; [by right|apply Forall_replicate; by left]]).
    exact (Forall_lookup_1 _ _ _ _ Hall Hi). }
  destruct (lookup_lt_is_Some_2 utf8proc_stage2table (Z.to_nat (i + Z.land c 0xFF))) as [j Hj]; [change (length utf8proc_stage2table) with 512%nat; lia|].
  rewrite Hj. cbn [mbind option_bind]. exists (Z.to_nat j). split; [done|].
  assert (forallb (fun k => match utf8proc_stage2table !! Z.to_nat k with Some j => (0 <=? j) && (j <? 5) && (negb (j =? 2) || (k =? 0xE9)) | None => false end) (seqZ 0 512) = true) as Hall by (by vm_compute).
  rewrite forallb_forall in Hall. specialize (Hall (i + Z.land c 0xFF)). rewrite Hj in Hall.
  assert (In (i + Z.land c 0xFF) (seqZ 0 512)) as Hin by (apply list_elem_of_In, elem_of_seqZ; lia). specialize (Hall Hin). split; [lia|]. intros Hj2.
  assert (i + Z.land c 0xFF = 0xE9) by lia. lia.
Qed.

Lemma small_assigned c : codepoint c -> assigned c.
Proof.
  intros Hc. destruct (small_property c Hc) as (i & Hp & Hi & _). unfold assigned. rewrite Hp.
  do 5 (destruct i as [|i]; [by eexists|]). lia.
Qed.

Lemma small_ok : tables_ok small_rank 1.
Proof.
  assert (forall c p, codepoint c -> unsafe_get_property c = Some p -> (casefold_seqindex p = UINT16_MAX /\ (decomp_seqindex p = UINT16_MAX \/ (decomp_seqindex p = 16384 /\ Z.land c 0xFF = 0xE9))) /\
    (comb_index p < 0x3FF -> comb_index p = 0 /\ comb_length p = 1)) as Hcases.
  { intros c p Hc Hp. destruct (small_property c Hc) as (i & E & Hi & H2). rewrite E in Hp.
    do 5 (destruct i as [|i]; [simplify_eq/=; split; [split; [done|by auto]|done]|]). lia. }
  constructor.
  - intros c Hc. destruct (small_assigned c Hc) as (p & Hp & _). by rewrite Hp.
  - intros c. unfold small_rank. case_if; lia.
  - intros c p idx Hc Hp Hidx Hne. destruct (Hcases c p Hc Hp) as [[Hcf Hd] _].
    destruct Hidx as [->| ->]; [|done]. destruct Hd as [|[-> Hlow]]; [done|]. exists [0x65; 0x301]. split; [done|].
    unfold small_rank at 2. rewrite Hlow. rewrite !Forall_cons. split_and!; first [done|by apply small_assigned|vm_compute; lia].
  - intros options c cat r H. assert (codepoint r) as Hr; [|split; [done|by apply small_assigned]].
    unfold lump in H. repeat (case_match; [simplify_eq; done|]). done.
  - intros c p Hc Hp Hi. destruct (proj2 (Hcases c p Hc Hp) Hi) as [-> ->]. by split_and!.
  - intros [|i] c Hi; by simplify_eq/=.
Qed.

Example utf8proc_decompose_orders_witness :
  utf8proc_decompose 9 9 99 (utf8 [0xE9; 0x327; 0x61]) 5 [0; 0; 0; 0; 0] 5 UTF8PROC_DECOMPOSE = Some (4, [0x65; 0x327; 0x301; 0x61; 0]) /\
  exists l, expands 9 UTF8PROC_DECOMPOSE (Some UTF8PROC_BOUNDCLASS_START) [0xE9; 0x327; 0x61] l /\ Forall (mark UTF8PROC_DECOMPOSE) l /\
    (Z.of_nat (length l) <= LIMIT -> (length l * length l < 99)%nat ->
     exists buffer', utf8proc_decompose 9 9 99 (utf8 [0xE9; 0x327; 0x61]) 5 [0; 0; 0; 0; 0] 5 UTF8PROC_DECOMPOSE = Some (Z.of_nat (length l), buffer') /\
       stored UTF8PROC_DECOMPOSE 5 l [0; 0; 0; 0; 0] buffer').
Proof.
  split; [by vm_compute|].
  apply (utf8proc_decompose_orders small_rank 1 small_ok 9 9 99 UTF8PROC_DECOMPOSE (utf8 [0xE9; 0x327; 0x61]) 5 [0xE9; 0x327; 0x61] [0; 0; 0; 0; 0] 5).
  - split_and!; [|by repeat (apply Forall_cons; split; [first [by left|by right]|])|done|]; [repeat (apply Forall_cons; split; [by split|]); apply Forall_nil_2|].
    split; [done|]. exists []. done.
  - repeat (apply Forall_cons; split; [split; [by intros (_ & Hn & _); destruct Hn; apply small_assigned|vm_compute; lia]|]). apply Forall_nil_2.
  - simpl. lia.
  - done.
  - simpl. lia.
Defined.

End Utf8Decompose.
