(* ===== verification/Utf8Map.v ===== *)
(** * Mapping Unicode text

    Normalisation works in place, and reencoding writes bytes over the code
    points it reads.  Here: both are functions of lists, and
    [utf8proc_map] is decomposition, normalisation and encoding. *)
From S2P Require Import Prelude Utf8 Utf8Proc Utf8Decompose.

Module Utf8Map.
Import Utf8 Utf8Proc Utf8Decompose.

(** ** Line feeds and control characters *)

(** What a code point becomes. *)
Definition newline (options uc : Z) : list Z :=
  if (uc =? 0x000A) || (uc =? 0x000D) || (uc =? 0x0085) || (has options UTF8PROC_STRIPCC && ((uc =? 0x000B) || (uc =? 0x000C))) then
    [if has options UTF8PROC_NLF2LS then if has options UTF8PROC_NLF2PS then 0x000A else 0x2028 else if has options UTF8PROC_NLF2PS then 0x2029 else 0x0020]
  else if has options UTF8PROC_STRIPCC && ((uc <? 0x0020) || ((0x007F <=? uc) && (uc <? 0x00A0))) then
    if uc =? 0x0009 then [0x0020] else []
  else [uc].

Fixpoint newlines (options : Z) (l : list Z) : list Z :=
  match l with
  | [] => []
  | uc :: rest =>
      newline options uc ++
      newlines options (if uc =? 0x000D then match rest with c :: r => if c =? 0x000A then r else rest | [] => rest end else rest)
  end.

Section Map.
Context `{HD : !UnicodeData}.

Lemma put_in mem i v : 0 <= i < Z.of_nat (length mem) -> put mem i v = Some (<[Z.to_nat i := v]> mem).
Proof. intros H. unfold put. by rewrite (proj2 (Z.leb_le 0 i)), (proj2 (Z.ltb_lt i _)) by lia. Qed.

(** A store behind what was written, at or before what is read next. *)
Lemma store_between (buffer out : list Z) (w r : nat) v :
  take w buffer = out -> (w < r)%nat -> (r <= length buffer)%nat ->
  take (S w) (<[w := v]> buffer) = out ++ [v] /\ drop r (<[w := v]> buffer) = drop r buffer.
Proof.
  intros <- Hw Hr. split.
  - rewrite (take_S_r _ w v) by (by apply list_lookup_insert_eq; lia). by rewrite take_insert_ge.
  - by apply drop_insert_lt.
Qed.

Lemma newline_loop_step n options (buffer : list Z) rpos wpos len :
  newline_loop (S n) options buffer rpos wpos len =
  if len <=? rpos then Some (buffer, wpos)
  else
    uc ← buffer !! Z.to_nat rpos;
    rpos ← (if (uc =? 0x000D) && (rpos <? len - 1) then next ← buffer !! Z.to_nat (rpos + 1); Some (if next =? 0x000A then rpos + 1 else rpos) else Some rpos);
    match newline options uc with
    | v :: _ => buffer ← put buffer wpos v; newline_loop n options buffer (rpos + 1) (wpos + 1) len
    | [] => newline_loop n options buffer (rpos + 1) wpos len
    end.
Proof.
  cbn [newline_loop]. case_if; [done|]. destruct (buffer !! Z.to_nat rpos) as [uc|]; [|done]. cbn [mbind option_bind].
  match goal with |- option_bind _ _ _ ?o = _ => destruct o as [rpos'|]; [|done] | |- ?o ≫= _ = _ => destruct o as [rpos'|]; [|done] | |- match ?o with _ => _ end = _ => destruct o as [rpos'|]; [|done] end.
  cbn [mbind option_bind]. unfold newline. cbn zeta. repeat case_match; simplify_eq; done.
Qed.

Lemma newline_short options uc : (length (newline options uc) <= 1)%nat.
Proof. unfold newline. repeat case_match; simpl; lia. Qed.

Lemma newline_loop_spec options len n : forall buffer rpos wpos out l,
  (wpos <= rpos)%nat -> (rpos <= len)%nat -> (len <= length buffer)%nat -> take wpos buffer = out -> drop rpos (take len buffer) = l -> (length l <= n)%nat ->
  exists buffer', newline_loop n options buffer (Z.of_nat rpos) (Z.of_nat wpos) (Z.of_nat len) = Some (buffer', Z.of_nat (wpos + length (newlines options l))) /\
    length buffer' = length buffer /\ take (wpos + length (newlines options l)) buffer' = out ++ newlines options l /\
    (wpos + length (newlines options l) <= len)%nat.
Proof.
  induction n as [|n IH]; intros buffer rpos wpos out l Hwr Hrl Hlb Hout Hl Hn.
  { destruct l; [|simpl in Hn; lia]. exists buffer. simpl. rewrite Nat.add_0_r, app_nil_r. split_and!; [done|done|done|lia]. }
  rewrite newline_loop_step. destruct (Z.leb_spec (Z.of_nat len) (Z.of_nat rpos)) as [Hend|Hmore].
  { assert (l = []) as -> by (subst; apply drop_ge; rewrite length_take; lia). exists buffer. simpl. rewrite Nat.add_0_r, app_nil_r. split_and!; [done|done|done|lia]. }
  destruct (lookup_lt_is_Some_2 buffer rpos) as [uc Huc]; [lia|]. rewrite Nat2Z.id, Huc. cbn [mbind option_bind].
  assert (take len buffer !! rpos = Some uc) as Huc' by (rewrite lookup_take_lt by lia; done).
  rewrite (drop_S _ _ _ Huc') in Hl. subst l. set (rest := drop (S rpos) (take len buffer)) in *.
  set (rest' := if uc =? 13 then match rest with c :: r => if c =? 10 then r else rest | [] => rest end else rest).
  assert (exists rpos', (if (uc =? 13) && (Z.of_nat rpos <? Z.of_nat len - 1) then next ← buffer !! Z.to_nat (Z.of_nat rpos + 1); Some (if next =? 10 then Z.of_nat rpos + 1 else Z.of_nat rpos) else Some (Z.of_nat rpos)) = Some (Z.of_nat rpos') /\
    (rpos <= rpos')%nat /\ (S rpos' <= len)%nat /\ drop (S rpos') (take len buffer) = rest') as (rpos' & -> & Hle & Hlt & Hrest).
  { unfold rest'. destruct (uc =? 13); [|exists rpos; split_and!; [done|done|lia|done]]. destruct (Z.ltb_spec (Z.of_nat rpos) (Z.of_nat len - 1)) as [Hl|Hl].
    - destruct (lookup_lt_is_Some_2 buffer (S rpos)) as [c Hc]; [lia|]. replace (Z.to_nat (Z.of_nat rpos + 1)) with (S rpos) by lia. cbn [andb]. rewrite Hc. cbn [mbind option_bind].
      assert (rest = c :: drop (S (S rpos)) (take len buffer)) as -> by (apply drop_S; rewrite lookup_take_lt by lia; done).
      destruct (c =? 10); [exists (S rpos); split_and!; [f_equal; lia|lia|lia|done]|exists rpos; split_and!; [done|done|lia|]].
      apply drop_S. by rewrite lookup_take_lt by lia.
    - exists rpos. split_and!; [done|done|lia|]. assert (rest = []) as E by (apply drop_ge; rewrite length_take; lia). fold rest. by rewrite E. }
  cbn [mbind option_bind]. pose proof (newline_short options uc) as Hshort.
  assert (newlines options (uc :: rest) = newline options uc ++ newlines options rest') as E by done. rewrite E.
  assert (length rest' <= n)%nat as Hn' by (rewrite <- Hrest, length_drop, length_take; unfold rest in Hn; simpl in Hn; rewrite length_drop, length_take in Hn; lia).
  destruct (newline options uc) as [|v [|]]; [..|simpl in Hshort; lia].
  - replace (Z.of_nat rpos' + 1) with (Z.of_nat (S rpos')) by lia. by apply IH; [lia|lia|lia|..].
  - rewrite put_in by lia. rewrite Nat2Z.id. cbn [mbind option_bind]. replace (Z.of_nat rpos' + 1) with (Z.of_nat (S rpos')) by lia. replace (Z.of_nat wpos + 1) with (Z.of_nat (S wpos)) by lia.
    destruct (store_between buffer out wpos (S rpos') v Hout) as [Ht Hd]; [lia|lia|].
    destruct (IH (<[wpos := v]> buffer) (S rpos') (S wpos) (out ++ [v]) rest') as (buffer' & -> & Hlen & Htake & Hbound); [lia|lia|rewrite length_insert; lia|done| |done|].
    { rewrite <- Hrest. rewrite !skipn_firstn_comm. by rewrite Hd. }
    exists buffer'. cbn [length app]. rewrite <- app_assoc in Htake. rewrite Nat.add_succ_comm in *. split_and!; [done|by rewrite Hlen, length_insert|done|done].
Qed.

(** ** Composition *)

(** The code point that a starter and another one make, if any. *)
Definition compose2 (starter c : Z) : option Z :=
  match unsafe_get_property c with
  | Some p => match compose_pair starter None c p with Some (r, _) => r | None => None end
  | None => None
  end.

(** The algorithm on lists: the starter is a position of what was written, and
    a code point combines with it unless one between them has the same or a
    higher combining class. *)
Fixpoint composes (l out : list Z) (starter : option nat) (max_class : Z) : list Z :=
  match l with
  | [] => out
  | c :: l =>
      if c <? 0 then composes l out starter max_class
      else
        match starter ≫= (fun at_ => s ← out !! at_; c' ← (if max_class <? ccc c then compose2 s c else None); Some (at_, c')) with
        | Some (at_, c') => composes l (<[at_ := c']> out) starter max_class
        | None =>
            if ccc c =? 0 then composes l (out ++ [c]) (Some (length out)) (-1)
            else composes l (out ++ [c]) starter (Z.max max_class (ccc c))
        end
  end.

Context (rank : Z -> nat) (top : nat) (Hok : tables_ok rank top).

Lemma search_second_total n : forall off c,
  0 <= off -> off + Z.of_nat n <= Z.of_nat (length utf8proc_combinations_second) -> off + Z.of_nat n <= Z.of_nat (length utf8proc_combinations_combined) ->
  exists r, search_second n off c = Some r /\ (forall x, r = Some x -> codepoint x).
Proof.
  induction n as [|n IH]; intros off c Ho Hs Hc; simpl; [by exists None|].
  destruct (lookup_lt_is_Some_2 utf8proc_combinations_second (Z.to_nat off)) as [s Es]; [lia|]. rewrite Es. cbn [mbind option_bind].
  case_if; [by exists None|]. case_if; [|apply IH; lia].
  destruct (lookup_lt_is_Some_2 utf8proc_combinations_combined (Z.to_nat off)) as [x Ex]; [lia|]. rewrite Ex. cbn [mbind option_bind].
  exists (Some x). split; [done|]. intros x' [= <-]. by eapply ok_combined.
Qed.

(** The property of the starter may have been looked up before. *)
Lemma compose_pair_total s sp c p :
  codepoint s -> unsafe_get_property c = Some p -> (sp = None \/ unsafe_get_property s = sp) ->
  exists sp', compose_pair s sp c p = Some (compose2 s c, sp') /\ (forall x, compose2 s c = Some x -> codepoint x) /\
    (compose2 s c = None -> sp' = None \/ unsafe_get_property s = sp').
Proof using Hok.
  intros Hs Hp Hsp. unfold compose2. rewrite Hp. unfold compose_pair. cbn zeta.
  assert (forall x y z, 0 <= x < UTF8PROC_HANGUL_LCOUNT -> 0 <= y < UTF8PROC_HANGUL_VCOUNT -> codepoint (UTF8PROC_HANGUL_SBASE + (x * UTF8PROC_HANGUL_VCOUNT + y) * UTF8PROC_HANGUL_TCOUNT) \/ z) as Hlv
    by (unfold codepoint, UTF8PROC_HANGUL_LCOUNT, UTF8PROC_HANGUL_VCOUNT, UTF8PROC_HANGUL_SBASE, UTF8PROC_HANGUL_TCOUNT; intros; left; nia).
  destruct ((0 <=? s - UTF8PROC_HANGUL_LBASE) && (s - UTF8PROC_HANGUL_LBASE <? UTF8PROC_HANGUL_LCOUNT) && ((0 <=? c - UTF8PROC_HANGUL_VBASE) && (c - UTF8PROC_HANGUL_VBASE <? UTF8PROC_HANGUL_VCOUNT))) eqn:E1.
  { exists None. split; [done|]. split; [|by left]. intros x [= <-]. destruct (Hlv (s - UTF8PROC_HANGUL_LBASE) (c - UTF8PROC_HANGUL_VBASE) False); [lia|lia|done|done]. }
  destruct ((0 <=? s - UTF8PROC_HANGUL_SBASE) && (s - UTF8PROC_HANGUL_SBASE <? UTF8PROC_HANGUL_SCOUNT) && ((s - UTF8PROC_HANGUL_SBASE) mod UTF8PROC_HANGUL_TCOUNT =? 0) && ((0 <? c - UTF8PROC_HANGUL_TBASE) && (c - UTF8PROC_HANGUL_TBASE <? UTF8PROC_HANGUL_TCOUNT))) eqn:E2.
  { exists None. split; [done|]. split; [|by left]. intros x [= <-].
    unfold codepoint, UTF8PROC_HANGUL_SBASE, UTF8PROC_HANGUL_SCOUNT, UTF8PROC_HANGUL_TCOUNT, UTF8PROC_HANGUL_TBASE in *. lia. }
  destruct (ok_property _ _ Hok s Hs) as [q Hq]. rewrite Hq.
  assert ((match sp with Some p => Some p | None => Some q end) = Some q) as -> by (destruct Hsp as [-> |Hsp]; [done|]; rewrite <- Hsp, Hq; done).
  cbn [mbind option_bind]. destruct ((comb_index q <? 0x3FF) && comb_issecond p) eqn:E3.
  2: { exists (Some q). split_and!; [done|done|by right]. }
  apply andb_true_iff in E3 as [E3%Z.ltb_lt _]. destruct (ok_combinations _ _ Hok s q Hs Hq E3) as (H0 & H1 & H2 & H3).
  destruct (lookup_lt_is_Some_2 utf8proc_combinations_second (Z.to_nat (comb_index q + comb_length q - 1))) as [m Hm]; [lia|]. rewrite Hm. cbn [mbind option_bind].
  case_if; [|exists (Some q); split_and!; [done|done|by right]].
  destruct (search_second_total (Z.to_nat (comb_length q)) (comb_index q) c) as (r & -> & Hr); [lia..|]. cbn [mbind option_bind].
  destruct r as [x|]; [exists None; split_and!; [done|done|by left]|exists (Some q); split_and!; [done|done|by right]].
Qed.

(** The property that is kept is that of the starter. *)
Definition starter_ok (out : list Z) (starter : option nat) (sp : option utf8proc_property_t) : Prop :=
  sp = None \/ exists at_ s, starter = Some at_ /\ out !! at_ = Some s /\ unsafe_get_property s = sp.

Definition composed (l : list Z) (buffer : list Z) (rpos wpos : nat) (out : list Z) (starter : option nat) (sp : option utf8proc_property_t) (maxcc : Z) : Prop :=
  (wpos <= rpos)%nat -> (rpos + length l <= length buffer)%nat -> take wpos buffer = out -> length out = wpos ->
  take (length l) (drop rpos buffer) = l -> Forall codepoint out -> Forall (fun c => c < 0 \/ codepoint c) l ->
  (forall at_, starter = Some at_ -> (at_ < wpos)%nat) -> starter_ok out starter sp ->
  exists buffer', compose_loop (length l) buffer (Z.of_nat rpos) (Z.of_nat wpos) (Z.of_nat <$> starter) sp maxcc =
      Some (buffer', Z.of_nat (length (composes l out starter maxcc))) /\
    length buffer' = length buffer /\ take (length (composes l out starter maxcc)) buffer' = composes l out starter maxcc /\
    (length (composes l out starter maxcc) <= wpos + length l)%nat /\ Forall codepoint (composes l out starter maxcc).

Lemma take_drop_cons (c : Z) n (buffer l : list Z) rpos : take (S n) (drop rpos buffer) = c :: l -> buffer !! rpos = Some c /\ take n (drop (S rpos) buffer) = l.
Proof.
  intros H. assert (buffer !! rpos = Some c) as Hc by (replace rpos with (rpos + 0)%nat by lia; rewrite <- lookup_drop, <- (lookup_take_lt _ (S n)) by lia; by rewrite H).
  split; [done|]. rewrite (drop_S _ _ _ Hc) in H. simpl in H. by simplify_eq.
Qed.

(** A code point that does not combine is written. *)
Lemma composed_write c p l buffer rpos wpos out starter sp maxcc :
  (forall buffer rpos wpos out starter sp maxcc, composed l buffer rpos wpos out starter sp maxcc) ->
  (wpos <= rpos)%nat -> (rpos + S (length l) <= length buffer)%nat -> take wpos buffer = out -> length out = wpos ->
  take (length l) (drop (S rpos) buffer) = l -> Forall codepoint out -> codepoint c -> unsafe_get_property c = Some p -> Forall (fun c => c < 0 \/ codepoint c) l ->
  (forall at_, starter = Some at_ -> (at_ < wpos)%nat) -> starter_ok out starter sp ->
  let next := if ccc c =? 0 then composes l (out ++ [c]) (Some (length out)) (-1) else composes l (out ++ [c]) starter (Z.max maxcc (ccc c)) in
  exists buffer', (buffer ← put buffer (Z.of_nat wpos) c;
     if combining_class p =? 0 then compose_loop (length l) buffer (Z.of_nat rpos + 1) (Z.of_nat wpos + 1) (Some (Z.of_nat wpos)) None (-1)
     else compose_loop (length l) buffer (Z.of_nat rpos + 1) (Z.of_nat wpos + 1) (Z.of_nat <$> starter) sp (Z.max maxcc (combining_class p))) =
      Some (buffer', Z.of_nat (length next)) /\
    length buffer' = length buffer /\ take (length next) buffer' = next /\ (length next <= wpos + S (length l))%nat /\ Forall codepoint next.
Proof.
  intros IH Hwr Hlen Hout Hlo Hl Hco Hc Hp Hcl Hst Hsp next. rewrite put_in by lia. rewrite Nat2Z.id. cbn [mbind option_bind].
  unfold next. rewrite (ccc_known c p) by (done || apply Hc). replace (Z.of_nat rpos + 1) with (Z.of_nat (S rpos)) by lia. replace (Z.of_nat wpos + 1) with (Z.of_nat (S wpos)) by lia.
  destruct (store_between buffer out wpos (S rpos) c Hout) as [Ht Hd]; [lia|lia|].
  assert (Forall codepoint (out ++ [c])) as Hco' by (apply Forall_app; split; [done|by apply Forall_singleton]).
  destruct (combining_class p =? 0).
  - destruct (IH (<[wpos:=c]> buffer) (S rpos) (S wpos) (out ++ [c]) (Some wpos) None (-1)) as (b' & Hb & Hl' & Ht' & Hle & Hf);
      try done; rewrite ?length_insert, ?length_app; simpl; try lia; [by rewrite Hd|intros at_ [= <-]; lia|by left|].
    rewrite Hlo. exists b'. split_and!; [done|by rewrite Hl', length_insert|done|lia|done].
  - destruct (IH (<[wpos:=c]> buffer) (S rpos) (S wpos) (out ++ [c]) starter sp (Z.max maxcc (combining_class p))) as (b' & Hb & Hl' & Ht' & Hle & Hf);
      try done; rewrite ?length_insert, ?length_app; simpl; try lia; [by rewrite Hd|intros at_ E; specialize (Hst _ E); lia| |].
    { destruct Hsp as [|(at_ & s & E & Hs & Hps)]; [by left|right]. exists at_, s. split_and!; [done| |done]. by apply lookup_app_l_Some. }
    exists b'. split_and!; [done|by rewrite Hl', length_insert|done|lia|done].
Qed.

Lemma compose_loop_spec l : forall buffer rpos wpos out starter sp maxcc, composed l buffer rpos wpos out starter sp maxcc.
Proof using Hok.
  induction l as [|c l IH]; intros buffer rpos wpos out starter sp maxcc; intros Hwr Hlen Hout Hlo Hl Hco Hcl Hst Hsp.
  { exists buffer. simpl. rewrite Hlo. split_and!; [done|done|done|lia|done]. }
  destruct (take_drop_cons c (length l) buffer l rpos Hl) as [Hc Hl']. apply Forall_cons in Hcl as [Hcc Hcl]. cbn [length] in *.
  cbn [compose_loop composes]. rewrite Nat2Z.id, Hc. cbn [mbind option_bind]. destruct (Z.ltb_spec c 0) as [Hneg|Hpos].
  { replace (Z.of_nat rpos + 1) with (Z.of_nat (S rpos)) by lia. destruct (IH buffer (S rpos) wpos out starter sp maxcc) as (b' & Hb & H1 & H2 & H3 & H4); try done; [lia|lia|].
    exists b'. split_and!; try done. lia. }
  destruct Hcc as [|Hcc]; [lia|]. destruct (ok_property _ _ Hok c Hcc) as [p Hp]. rewrite Hp. cbn [mbind option_bind]. rewrite (ccc_known c p) by done.
  pose proof (fun sp' => composed_write c p l buffer rpos wpos out starter sp' maxcc IH Hwr Hlen Hout Hlo Hl' Hco Hcc Hp Hcl Hst) as Hwrite.
  rewrite (ccc_known c p) in Hwrite by done.
  destruct starter as [at_|]; cbn [fmap option_fmap option_map mbind option_bind]; [|by apply Hwrite].
  specialize (Hst at_ eq_refl). destruct (lookup_lt_is_Some_2 out at_) as [s Hs]; [lia|]. rewrite Hs.
  assert (buffer !! at_ = Some s) as Hbs by (rewrite <- Hout in Hs; by rewrite lookup_take_lt in Hs by lia).
  destruct (maxcc <? combining_class p); [|by apply Hwrite]. rewrite Nat2Z.id, Hbs. cbn [mbind option_bind].
  pose proof (Forall_lookup_1 _ _ _ _ Hco Hs) as Hcs.
  destruct (compose_pair_total s sp c p Hcs Hp) as (sp' & -> & Hcomp & Hnone).
  { destruct Hsp as [|(a' & s' & E & Hs' & Hps)]; [by left|right]. by simplify_eq. }
  cbn [mbind option_bind]. destruct (compose2 s c) as [c'|] eqn:E; cbn [mbind option_bind].
  - rewrite put_in by lia. rewrite Nat2Z.id. cbn [mbind option_bind]. replace (Z.of_nat rpos + 1) with (Z.of_nat (S rpos)) by lia.
    destruct (IH (<[at_:=c']> buffer) (S rpos) wpos (<[at_:=c']> out) (Some at_) None maxcc) as (b' & Hb & H1 & H2 & H3 & H4); try done; rewrite ?length_insert; try done; try lia.
    + rewrite take_insert_lt by done. by rewrite Hout.
    + by rewrite drop_insert_lt by lia.
    + apply Forall_insert; [done|by apply Hcomp].
    + intros ? [= <-]. done.
    + by left.
    + exists b'. split_and!; try done; [by rewrite H1, length_insert|lia].
  - apply (Hwrite sp'). destruct (Hnone eq_refl) as [-> |Hsp']; [by left|right; by exists at_, s].
Qed.

(** ** Normalisation *)

Definition maps_newlines (options : Z) : bool := has options (Z.lor (Z.lor UTF8PROC_NLF2LS UTF8PROC_NLF2PS) UTF8PROC_STRIPCC).

Definition normal_list (options : Z) (l : list Z) : list Z :=
  let l := if maps_newlines options then newlines options l else l in
  if has options UTF8PROC_COMPOSE then composes l [] None (-1) else l.

Definition cell (c : Z) : Prop := c = -1 \/ codepoint c.

Lemma newline_cells options uc : cell uc -> Forall cell (newline options uc).
Proof. intros H. unfold newline. repeat case_match; rewrite ?Forall_cons; try done; (split; [by right|done]). Qed.

Lemma newlines_cells options n : forall l, (length l <= n)%nat -> Forall cell l -> Forall cell (newlines options l).
Proof.
  induction n as [|n IH]; intros [|uc rest] Hn H; simpl in *; [done|lia|done|]. apply Forall_cons in H as [Hu Hr].
  apply Forall_app. split; [by apply newline_cells|]. destruct (uc =? 13); [|apply IH; [lia|done]].
  destruct rest as [|c r]; [apply Forall_nil_2|]. simpl in Hn. case_if; [|apply IH; [simpl; lia|done]]. apply Forall_cons in Hr as [_ Hr]. apply IH; [lia|done].
Qed.

Lemma normalize_spec options l (buffer : list Z) :
  Forall cell l -> take (length l) buffer = l ->
  exists buffer', utf8proc_normalize_utf32 buffer (Z.of_nat (length l)) options = Some (buffer', Z.of_nat (length (normal_list options l))) /\
    length buffer' = length buffer /\ take (length (normal_list options l)) buffer' = normal_list options l /\
    (length (normal_list options l) <= length l)%nat /\ Forall cell (normal_list options l).
Proof using Hok.
  intros Hc Ht. assert (length l <= length buffer)%nat as Hlen by (rewrite <- Ht, length_take; lia).
  unfold utf8proc_normalize_utf32, normal_list. fold (maps_newlines options).
  assert (exists buffer1 l1, (if maps_newlines options then newline_loop (Z.to_nat (Z.of_nat (length l))) options buffer 0 0 (Z.of_nat (length l)) else Some (buffer, Z.of_nat (length l))) =
    Some (buffer1, Z.of_nat (length l1)) /\ l1 = (if maps_newlines options then newlines options l else l) /\ length buffer1 = length buffer /\ take (length l1) buffer1 = l1 /\
    (length l1 <= length l)%nat /\ Forall cell l1) as (buffer1 & l1 & -> & <- & Hl1 & Ht1 & Hle & Hc1).
  { destruct (maps_newlines options); [|by exists buffer, l].
    destruct (newline_loop_spec options (length l) (length l) buffer 0 0 [] l) as (b & Hb & H1 & H2 & H3); [lia|lia|lia|done|by rewrite drop_0|done|].
    rewrite Nat2Z.id. simpl in *. exists b, (newlines options l). split_and!; [done|done|done|done|lia|by apply (newlines_cells options (length l))]. }
  cbn [mbind option_bind]. destruct (has options UTF8PROC_COMPOSE); [|by exists buffer1].
  destruct (compose_loop_spec l1 buffer1 0 0 [] None None (-1)) as (b & Hb & H1 & H2 & H3 & H4); try done; try lia.
  - eapply Forall_impl; [exact Hc1|]. intros c [-> |]; [by left|by right].
  - by left.
  - rewrite Nat2Z.id. simpl in *. exists b. split_and!; [done|congruence|done|lia|]. eapply Forall_impl; [exact H4|]. intros c ?. by right.
Qed.
End Map.

(** ** Reencoding in place *)

Lemma read_written c : - 2 ^ 31 <= c < 2 ^ 31 -> sint 32 (le_uint (le_bytes 4 c)) = c.
Proof. intros H. rewrite le_uint_le_bytes. change (8 * Z.of_nat 4) with 32. rewrite sint_wrap. by apply sint_small. Qed.

Lemma length_cells l : length (cells_bytes l) = (4 * length l)%nat.
Proof. unfold cells_bytes. induction l as [|c l IH]; [done|]. cbn [map concat]. rewrite length_app, IH. simpl. lia. Qed.

Lemma length_le_bytes4 c : length (le_bytes 4 c) = 4%nat.
Proof. done. Qed.

(** Bytes are written over code points that have been read. *)
Lemma reencode_loop_spec encode l tail : forall bytes (rpos wpos : nat) out,
  Forall (fun c => - 2 ^ 31 <= c < 2 ^ 31) l -> (forall c, (length (encode c) <= 4)%nat) ->
  (wpos <= 4 * rpos)%nat -> take wpos bytes = out -> length out = wpos -> drop (4 * rpos) bytes = cells_bytes l ++ tail -> (4 * rpos <= length bytes)%nat ->
  exists bytes', reencode_loop (length l) encode bytes (Z.of_nat rpos) (Z.of_nat wpos) = Some (bytes', Z.of_nat (wpos + length (concat (map encode l)))) /\
    length bytes' = length bytes /\ take (wpos + length (concat (map encode l))) bytes' = out ++ concat (map encode l) /\
    (wpos + length (concat (map encode l)) <= 4 * (rpos + length l))%nat.
Proof.
  induction l as [|c l IH]; intros bytes rpos wpos out Hl He Hwr Hout Hlo Hd Hlb.
  { exists bytes. simpl. rewrite Nat.add_0_r, app_nil_r. split_and!; [done|done|done|lia]. }
  apply Forall_cons in Hl as [Hc Hl]. cbn [length reencode_loop map concat]. unfold cells_bytes in Hd. cbn [map concat] in Hd. fold (cells_bytes l) in Hd. rewrite <- app_assoc in Hd.
  assert (length bytes = 4 * rpos + (4 + (4 * length l + length tail)))%nat as Hlen.
  { apply (f_equal length) in Hd. rewrite length_drop, !length_app, length_le_bytes4, length_cells in Hd. lia. }
  assert (read_cell bytes (Z.of_nat rpos) = Some c) as ->.
  { unfold read_cell. rewrite (proj2 (Z.ltb_ge _ _)) by lia. replace (Z.to_nat (4 * Z.of_nat rpos)) with (4 * rpos)%nat by lia.
    rewrite Hd, take_app_length' by done. by rewrite read_written. }
  cbn [mbind option_bind]. specialize (He c) as Hec. unfold put_bytes. rewrite (proj2 (Z.leb_le 0 _)), (proj2 (Z.leb_le _ _)) by lia. cbn [andb mbind option_bind]. rewrite Nat2Z.id.
  replace (Z.of_nat rpos + 1) with (Z.of_nat (S rpos)) by lia. rewrite <- Nat2Z.inj_add.
  destruct (IH (write_at wpos (encode c) bytes) (S rpos) (wpos + length (encode c))%nat (out ++ encode c)) as (b' & Hb & H1 & H2 & H3); try done; try lia.
  - rewrite take_write_at by lia. by rewrite Hout.
  - rewrite length_app. lia.
  - rewrite drop_write_at by lia. replace (4 * S rpos)%nat with (4 * rpos + 4)%nat by lia. rewrite <- drop_drop, Hd. by apply drop_app_length'.
  - rewrite length_write_at by lia. lia.
  - exists b'. rewrite length_app, Nat.add_assoc, app_assoc. split_and!; [done|rewrite H1; apply length_write_at; lia|done|lia].
Qed.

Definition encoder (options : Z) : Z -> list Z := if has options UTF8PROC_CHARBOUND then charbound_encode_char else utf8proc_encode_char.

Lemma encoder_short options c : (length (encoder options c) <= 4)%nat.
Proof. unfold encoder, charbound_encode_char. repeat case_match; try apply encode_length; simpl; lia. Qed.

Section Reencode.
Context `{HD : !UnicodeData} (rank : Z -> nat) (top : nat) (Hok : tables_ok rank top).

Lemma reencode_spec options l (buffer : list Z) spare :
  Forall cell l -> take (length l) buffer = l ->
  let text := concat (map (encoder options) (normal_list options l)) in
  exists bytes, utf8proc_reencode buffer spare (Z.of_nat (length l)) options = Some (Z.of_nat (length text), bytes) /\
    take (S (length text)) bytes = text ++ [0] /\ length bytes = (4 * length buffer + 1)%nat.
Proof using Hok.
  intros Hc Ht text. destruct (normalize_spec rank top Hok options l buffer Hc Ht) as (b & Hn & Hlb & Htb & Hle & Hcl).
  assert (length l <= length buffer)%nat as Hlen by (rewrite <- Ht, length_take; lia).
  unfold utf8proc_reencode. rewrite Hn. cbn [mbind option_bind]. rewrite (proj2 (Z.ltb_ge _ 0)), Nat2Z.id by lia. fold (encoder options). cbn zeta.
  assert (cells_bytes b = cells_bytes (normal_list options l) ++ cells_bytes (drop (length (normal_list options l)) b)) as Ecells.
  { rewrite <- (take_drop (length (normal_list options l)) b) at 1. rewrite Htb. unfold cells_bytes. by rewrite map_app, concat_app. }
  destruct (reencode_loop_spec (encoder options) (normal_list options l) (cells_bytes (drop (length (normal_list options l)) b) ++ [spare]) (cells_bytes b ++ [spare]) 0 0 []) as (bytes & Hr & H1 & H2 & H3); try done.
  - eapply Forall_impl; [exact Hcl|]. intros c [-> |Hx]; [lia|]. unfold codepoint in Hx. lia.
  - apply encoder_short.
  - simpl. by rewrite Ecells, <- app_assoc.
  - simpl. lia.
  - change (Z.of_nat 0) with 0 in Hr. rewrite Hr. cbn [mbind option_bind]. rewrite Nat.add_0_l in *. fold text in H2, H3 |- *.
    rewrite length_app, length_cells in H1. cbn [length] in H1. unfold put_bytes. cbn [length].
    rewrite (proj2 (Z.leb_le 0 _)), (proj2 (Z.leb_le _ _)) by lia. cbn [andb mbind option_bind]. rewrite Nat2Z.id.
    exists (write_at (length text) [0] bytes). split; [done|]. split; [|rewrite length_write_at by (simpl; lia); lia].
    replace (S (length text)) with (length text + length [0%Z])%nat by (simpl; lia). rewrite take_write_at by lia. simpl in H2. by rewrite H2.
Qed.
(** ** Strings *)

(** The code points in the order in which they are normalised. *)
Definition arranged (options : Z) (l l' : list Z) : Prop :=
  if normalises options then rtc exchange l l' /\ ordered l' else l' = l.

Lemma write_at_whole (l mem : list Z) : length l = length mem -> write_at 0 l mem = l.
Proof. intros H. unfold write_at. rewrite take_0, drop_ge by (simpl; lia). apply app_nil_r. Qed.

Lemma stored_arranged options l (buffer buffer' : list Z) :
  stored options (Z.of_nat (length l)) l buffer buffer' -> length buffer = length l -> arranged options l buffer'.
Proof.
  unfold stored, arranged. rewrite Z.leb_refl, andb_true_r, Nat2Z.id, take_ge by done. intros H Hl. destruct (normalises options).
  - destruct H as (l' & -> & Hx & Ho). pose proof (Permutation_length (exchange_permutation l l' Hx)). by rewrite write_at_whole by lia.
  - subst. by rewrite write_at_whole.
Qed.

Lemma arranged_permutation options l l' : arranged options l l' -> l ≡ₚ l'.
Proof. unfold arranged. destruct (normalises options); [intros [H _]; by apply exchange_permutation|by intros ->]. Qed.

Lemma arranged_cells options l l' : arranged options l l' -> Forall (mark options) l -> Forall cell l'.
Proof.
  intros H Hm. rewrite <- (arranged_permutation _ _ _ H). eapply Forall_impl; [exact Hm|]. intros c [Hc|[-> _]]; [by right|by left].
Qed.

Lemma map_custom_spec `{HU : !Uninit} {D} cf fuel order_fuel options str strlen cs l (data : D) :
  text_at options str strlen 0 cs -> expands cf options (Some UTF8PROC_BOUNDCLASS_START) cs l -> Forall (mark options) l ->
  (length cs < fuel)%nat -> (length l * length l < order_fuel)%nat -> options_ok options = true ->
  if LIMIT <? Z.of_nat (length l) then utf8proc_map_custom cf fuel order_fuel str strlen options None data = Some (UTF8PROC_ERROR_OVERFLOW, None, data)
  else exists l', arranged options l l' /\
    let text := concat (map (encoder options) (normal_list options l')) in
    utf8proc_map_custom cf fuel order_fuel str strlen options None data = Some (Z.of_nat (length text), Some (text ++ [0]), data).
Proof using Hok.
  intros Ht He Hm Hf Hof Ho. unfold utf8proc_map_custom.
  destruct (decompose_custom_spec rank top Hok cf fuel order_fuel options str strlen cs l [] 0 data Ht He Hm Hf Hof Ho ltac:(done)) as (b0 & -> & _ & _). cbn [mbind option_bind].
  destruct (Z.ltb_spec LIMIT (Z.of_nat (length l))) as [Hov|Hfit]; [done|].
  rewrite (proj2 (Z.ltb_ge (Z.of_nat (length l)) 0)) by lia. cbn zeta. rewrite Nat2Z.id. set (buffer := map _ (fresh_memory (length l))).
  assert (length buffer = length l) as Hlb by (unfold buffer; by rewrite length_map, length_fresh_memory).
  destruct (decompose_custom_spec rank top Hok cf fuel order_fuel options str strlen cs l buffer (Z.of_nat (length l)) data Ht He Hm Hf Hof Ho ltac:(lia)) as (b & -> & Hbl & Hst).
  rewrite (proj2 (Z.ltb_ge LIMIT _)) by done. cbn [mbind option_bind]. rewrite (proj2 (Z.ltb_ge (Z.of_nat (length l)) 0)) by lia.
  pose proof (stored_arranged options l buffer b (Hst Hfit) Hlb) as Harr. exists b. split; [done|].
  destruct (reencode_spec options b b (uninit 0) (arranged_cells _ _ _ Harr Hm)) as (bytes & Hr & Htake & _); [by apply take_ge|].
  replace (length l) with (length b) by lia. rewrite Hr. cbn [mbind option_bind]. rewrite (proj2 (Z.ltb_ge _ 0)) by lia. cbn zeta.
  replace (Z.to_nat (Z.of_nat _ + 1)) with (S (length (concat (map (encoder options) (normal_list options b))))) by lia. by rewrite Htake.
Qed.

(** C9: mapping a text of code points that are not refused: the code points are
    decomposed, put in canonical order when the text is to be normalised, line
    feeds and control characters are replaced and code points composed as the
    options say, and the result is the UTF-8 form of that list with a terminator,
    with its length.  Neither the storing in place nor the two passes show.  A
    list that is too long is an overflow, without a string. *)
Theorem utf8proc_map_spec `{HU : !Uninit} cf fuel order_fuel options str strlen cs :
  text_at options str strlen 0 cs -> Forall (fun c => ~ rejects options c /\ (need rank top options c < cf)%nat) cs -> (length cs < fuel)%nat ->
  options_ok options = true ->
  exists l, expands cf options (Some UTF8PROC_BOUNDCLASS_START) cs l /\ Forall (mark options) l /\
    ((length l * length l < order_fuel)%nat ->
     if LIMIT <? Z.of_nat (length l) then utf8proc_map cf fuel order_fuel str strlen options = Some (UTF8PROC_ERROR_OVERFLOW, None)
     else exists l', arranged options l l' /\
       let text := concat (map (encoder options) (normal_list options l')) in
       utf8proc_map cf fuel order_fuel str strlen options = Some (Z.of_nat (length text), Some (text ++ [0]))).
Proof using Hok.
  intros Ht Hcs Hf Ho. destruct (expands_exists rank top Hok cf options cs (Some UTF8PROC_BOUNDCLASS_START)) as (l & He & Hm).
  { intros c Hc. destruct (proj1 (Forall_forall _ _) Hcs c Hc). split; [|done]. destruct Ht as (_ & Hs & _).
    pose proof (proj1 (Forall_forall _ _) Hs c Hc) as Hsc. unfold scalar, codepoint in *. lia. }
  exists l. split_and!; [done|done|]. intros Hof.
  pose proof (map_custom_spec cf fuel order_fuel options str strlen cs l tt Ht He Hm Hf Hof Ho) as H. unfold utf8proc_map.
  destruct (LIMIT <? Z.of_nat (length l)); [by rewrite H|]. destruct H as (l' & Ha & H). exists l'. split; [done|]. by rewrite H.
Qed.
End Reencode.

#[local] Instance sevens : Uninit := fun _ => 7.

Example utf8proc_map_spec_witness :
  let str := utf8 [0x65; 0x327; 0x301; 0x0D; 0x0A; 0x61] ++ [0] in
  let options := Z.lor (Z.lor UTF8PROC_NULLTERM UTF8PROC_COMPOSE) UTF8PROC_NLF2LS in
  utf8proc_map 9 9 99 str 0 options = Some (8, Some (utf8 [0xE9; 0x327; 0x2028; 0x61] ++ [0])) /\
  exists l, expands 9 options (Some UTF8PROC_BOUNDCLASS_START) [0x65; 0x327; 0x301; 0x0D; 0x0A; 0x61] l /\ Forall (mark options) l /\
    ((length l * length l < 99)%nat ->
     if LIMIT <? Z.of_nat (length l) then utf8proc_map 9 9 99 str 0 options = Some (UTF8PROC_ERROR_OVERFLOW, None)
     else exists l', arranged options l l' /\
       let text := concat (map (encoder options) (normal_list options l')) in
       utf8proc_map 9 9 99 str 0 options = Some (Z.of_nat (length text), Some (text ++ [0]))).
Proof.
  split; [by vm_compute|].
  apply (utf8proc_map_spec small_rank 1 small_ok 9 9 99 _ (utf8 [0x65; 0x327; 0x301; 0x0D; 0x0A; 0x61] ++ [0]) 0 [0x65; 0x327; 0x301; 0x0D; 0x0A; 0x61]).
  - split_and!; [|by repeat (apply Forall_cons; split; [first [by left|by right]|])|done|]; [repeat (apply Forall_cons; split; [by split|]); apply Forall_nil_2|].
    split; [repeat (apply Forall_cons; split; [done|]); apply Forall_nil_2|]. exists []. done.
  - repeat (apply Forall_cons; split; [split; [by intros (_ & Hn & _); destruct Hn; apply small_assigned|vm_compute; lia]|]). apply Forall_nil_2.
  - simpl. lia.
  - done.
Defined.
End Utf8Map.
