(* ===== verification/RpState.v ===== *)
(** * The state of the allocator ([src/library/rpmalloc/rpmalloc/rpmalloc.c])

    Constants, size classes, the structs with a function that assigns each
    field, the memory behind the blocks, the interface to the operating system,
    and the monad in which the functions of [Rpmalloc] are written. *)
From stdpp Require Import functions.
From S2P Require Import Prelude.

Module RpState.

(** ** Sizes *)

Definition PAGE_HEADER_SIZE : Z := 128.
Definition SPAN_HEADER_SIZE : Z := PAGE_HEADER_SIZE.
Definition HEAP_ALIGNMENT : Z := 128.
Definition SMALL_GRANULARITY : Z := 16.
Definition LARGE_BLOCK_SIZE_LIMIT : Z := 2 * 1024 * 1024.
Definition SMALL_SIZE_CLASS_COUNT : Z := 73.
Definition MEDIUM_SMALL_SIZE_CLASS_COUNT : Z := 12.
Definition MEDIUM_LARGE_SIZE_CLASS_COUNT : Z := 12.
Definition LARGE_SIZE_CLASS_COUNT : Z := 12.
Definition SIZE_CLASS_COUNT : Z := SMALL_SIZE_CLASS_COUNT + MEDIUM_SMALL_SIZE_CLASS_COUNT + MEDIUM_LARGE_SIZE_CLASS_COUNT + LARGE_SIZE_CLASS_COUNT.
Definition SMALL_PAGE_SIZE_SHIFT : Z := 16.
Definition SMALL_PAGE_SIZE : Z := Z.shiftl 1 SMALL_PAGE_SIZE_SHIFT.
Definition MEDIUM_SMALL_PAGE_SIZE_SHIFT : Z := 20.
Definition MEDIUM_SMALL_PAGE_SIZE : Z := Z.shiftl 1 MEDIUM_SMALL_PAGE_SIZE_SHIFT.
Definition MEDIUM_LARGE_PAGE_SIZE_SHIFT : Z := 22.
Definition MEDIUM_LARGE_PAGE_SIZE : Z := Z.shiftl 1 MEDIUM_LARGE_PAGE_SIZE_SHIFT.
Definition LARGE_PAGE_SIZE_SHIFT : Z := 24.
Definition LARGE_PAGE_SIZE : Z := Z.shiftl 1 LARGE_PAGE_SIZE_SHIFT.
Definition SPAN_SIZE : Z := 256 * 1024 * 1024.

(** [~(size - 1)], a mask of addresses. *)
Definition mask (size : Z) : Z := u64 (Z.lnot (size - 1)).
Definition SMALL_PAGE_MASK : Z := mask SMALL_PAGE_SIZE.
Definition MEDIUM_SMALL_PAGE_MASK : Z := mask MEDIUM_SMALL_PAGE_SIZE.
Definition MEDIUM_LARGE_PAGE_MASK : Z := mask MEDIUM_LARGE_PAGE_SIZE.
Definition LARGE_PAGE_MASK : Z := mask LARGE_PAGE_SIZE.
Definition SPAN_MASK : Z := mask SPAN_SIZE.

Definition RPMALLOC_MAX_ALIGNMENT : Z := 256 * 1024.
Definition RPMALLOC_NO_PRESERVE : Z := 1.
Definition RPMALLOC_GROW_OR_FAIL : Z := 2.

Inductive page_type_t := PAGE_SMALL | PAGE_MEDIUM_SMALL | PAGE_MEDIUM_LARGE | PAGE_LARGE | PAGE_HUGE.

#[export] Instance page_type_eq_dec : EqDecision page_type_t.
Proof. solve_decision. Defined.

(** Whether the type is one of spans with pages, [<= PAGE_LARGE]. *)
Definition is_huge (t : page_type_t) : bool := match t with PAGE_HUGE => true | _ => false end.

(** ** Size classes *)

Record size_class_t := mk_size_class { class_block_size : Z; class_block_count : Z }.

Definition sclass (page_size n : Z) : size_class_t :=
  mk_size_class (n * SMALL_GRANULARITY) ((page_size - PAGE_HEADER_SIZE) / (n * SMALL_GRANULARITY)).
Definition SCLASS : Z -> size_class_t := sclass SMALL_PAGE_SIZE.
Definition MSCLASS : Z -> size_class_t := sclass MEDIUM_SMALL_PAGE_SIZE.
Definition MLCLASS : Z -> size_class_t := sclass MEDIUM_LARGE_PAGE_SIZE.
Definition LCLASS : Z -> size_class_t := sclass LARGE_PAGE_SIZE.

Definition global_size_class : list size_class_t :=
  map SCLASS ([1] ++ seqZ 1 64 ++ [80; 96; 112; 128; 160; 192; 224; 256]) ++
  map MSCLASS [320; 384; 448; 512; 640; 768; 896; 1024; 1280; 1536; 1792; 2048] ++
  map MLCLASS [2560; 3072; 3584; 4096; 5120; 6144; 7168; 8192; 10240; 12288; 14336; 16384] ++
  map LCLASS [20480; 24576; 28672; 32768; 40960; 49152; 57344; 65536; 81920; 98304; 114688; 131072].

Definition get_size_class_tiny (size : Z) : Z := u32 (u32 size + (SMALL_GRANULARITY - 1)) / SMALL_GRANULARITY.

(** Of a number that is not zero. *)
Definition rpmalloc_clz (x : Z) : Z := 63 - Z.log2 x.

Definition get_size_class (size : Z) : Z :=
  let minblock_count := u64 (size + (SMALL_GRANULARITY - 1)) / SMALL_GRANULARITY in
  if size <=? SMALL_GRANULARITY * 64 then if minblock_count =? 0 then 1 else u32 minblock_count
  else
    let minblock_count := u64 (minblock_count - 1) in
    let most_significant_bit := u32 (63 - rpmalloc_clz minblock_count) in
    let subclass_bits := Z.land (Z.shiftr minblock_count (most_significant_bit - 2)) 0x03 in
    u32 (u32 (shl 32 most_significant_bit 2 + subclass_bits) + 41).

Definition get_page_type (size_class : Z) : page_type_t :=
  if size_class <? SMALL_SIZE_CLASS_COUNT then PAGE_SMALL
  else if size_class <? SMALL_SIZE_CLASS_COUNT + MEDIUM_SMALL_SIZE_CLASS_COUNT then PAGE_MEDIUM_SMALL
  else if size_class <? SMALL_SIZE_CLASS_COUNT + MEDIUM_SMALL_SIZE_CLASS_COUNT + MEDIUM_LARGE_SIZE_CLASS_COUNT then PAGE_MEDIUM_LARGE
  else if size_class <? SIZE_CLASS_COUNT then PAGE_LARGE
  else PAGE_HUGE.

(** ** Structs *)

(** The header of a page.  [local_free] and [page_thread_free] are the lists of
    free blocks, the second one as a block index and a count. *)
Record page_t := mk_page {
  size_class : Z; block_size : Z; block_count : Z; block_initialized : Z; block_used : Z; page_type : page_type_t; is_full : bool; is_free :
  bool; is_zero : bool; is_decommitted : bool; has_aligned_block : bool; generic_free : bool; commit_on_demand : bool; commit_prefix_shift : Z;
  local_free_count : Z; local_free : Z; page_heap : Z; page_next : Z; page_prev : Z; page_thread_free : Z }.

Definition set_size_class (v : Z) (r : page_t) : page_t :=
  mk_page v (block_size r) (block_count r) (block_initialized r) (block_used r) (page_type r) (is_full r) (is_free r) (is_zero r) (is_decommitted
    r) (has_aligned_block r) (generic_free r) (commit_on_demand r) (commit_prefix_shift r) (local_free_count r) (local_free r) (page_heap r)
    (page_next r) (page_prev r) (page_thread_free r).
Definition set_block_size (v : Z) (r : page_t) : page_t :=
  mk_page (size_class r) v (block_count r) (block_initialized r) (block_used r) (page_type r) (is_full r) (is_free r) (is_zero r) (is_decommitted
    r) (has_aligned_block r) (generic_free r) (commit_on_demand r) (commit_prefix_shift r) (local_free_count r) (local_free r) (page_heap r)
    (page_next r) (page_prev r) (page_thread_free r).
Definition set_block_count (v : Z) (r : page_t) : page_t :=
  mk_page (size_class r) (block_size r) v (block_initialized r) (block_used r) (page_type r) (is_full r) (is_free r) (is_zero r) (is_decommitted
    r) (has_aligned_block r) (generic_free r) (commit_on_demand r) (commit_prefix_shift r) (local_free_count r) (local_free r) (page_heap r)
    (page_next r) (page_prev r) (page_thread_free r).
Definition set_block_initialized (v : Z) (r : page_t) : page_t :=
  mk_page (size_class r) (block_size r) (block_count r) v (block_used r) (page_type r) (is_full r) (is_free r) (is_zero r) (is_decommitted r)
    (has_aligned_block r) (generic_free r) (commit_on_demand r) (commit_prefix_shift r) (local_free_count r) (local_free r) (page_heap r)
    (page_next r) (page_prev r) (page_thread_free r).
Definition set_block_used (v : Z) (r : page_t) : page_t :=
  mk_page (size_class r) (block_size r) (block_count r) (block_initialized r) v (page_type r) (is_full r) (is_free r) (is_zero r) (is_decommitted
    r) (has_aligned_block r) (generic_free r) (commit_on_demand r) (commit_prefix_shift r) (local_free_count r) (local_free r) (page_heap r)
    (page_next r) (page_prev r) (page_thread_free r).
Definition set_page_type (v : page_type_t) (r : page_t) : page_t :=
  mk_page (size_class r) (block_size r) (block_count r) (block_initialized r) (block_used r) v (is_full r) (is_free r) (is_zero r)
    (is_decommitted r) (has_aligned_block r) (generic_free r) (commit_on_demand r) (commit_prefix_shift r) (local_free_count r) (local_free r)
    (page_heap r) (page_next r) (page_prev r) (page_thread_free r).
Definition set_is_full (v : bool) (r : page_t) : page_t :=
  mk_page (size_class r) (block_size r) (block_count r) (block_initialized r) (block_used r) (page_type r) v (is_free r) (is_zero r)
    (is_decommitted r) (has_aligned_block r) (generic_free r) (commit_on_demand r) (commit_prefix_shift r) (local_free_count r) (local_free r)
    (page_heap r) (page_next r) (page_prev r) (page_thread_free r).
Definition set_is_free (v : bool) (r : page_t) : page_t :=
  mk_page (size_class r) (block_size r) (block_count r) (block_initialized r) (block_used r) (page_type r) (is_full r) v (is_zero r)
    (is_decommitted r) (has_aligned_block r) (generic_free r) (commit_on_demand r) (commit_prefix_shift r) (local_free_count r) (local_free r)
    (page_heap r) (page_next r) (page_prev r) (page_thread_free r).
Definition set_is_zero (v : bool) (r : page_t) : page_t :=
  mk_page (size_class r) (block_size r) (block_count r) (block_initialized r) (block_used r) (page_type r) (is_full r) (is_free r) v
    (is_decommitted r) (has_aligned_block r) (generic_free r) (commit_on_demand r) (commit_prefix_shift r) (local_free_count r) (local_free r)
    (page_heap r) (page_next r) (page_prev r) (page_thread_free r).
Definition set_is_decommitted (v : bool) (r : page_t) : page_t :=
  mk_page (size_class r) (block_size r) (block_count r) (block_initialized r) (block_used r) (page_type r) (is_full r) (is_free r) (is_zero r) v
    (has_aligned_block r) (generic_free r) (commit_on_demand r) (commit_prefix_shift r) (local_free_count r) (local_free r) (page_heap r)
    (page_next r) (page_prev r) (page_thread_free r).
Definition set_has_aligned_block (v : bool) (r : page_t) : page_t :=
  mk_page (size_class r) (block_size r) (block_count r) (block_initialized r) (block_used r) (page_type r) (is_full r) (is_free r) (is_zero r)
    (is_decommitted r) v (generic_free r) (commit_on_demand r) (commit_prefix_shift r) (local_free_count r) (local_free r) (page_heap r)
    (page_next r) (page_prev r) (page_thread_free r).
Definition set_generic_free (v : bool) (r : page_t) : page_t :=
  mk_page (size_class r) (block_size r) (block_count r) (block_initialized r) (block_used r) (page_type r) (is_full r) (is_free r) (is_zero r)
    (is_decommitted r) (has_aligned_block r) v (commit_on_demand r) (commit_prefix_shift r) (local_free_count r) (local_free r) (page_heap r)
    (page_next r) (page_prev r) (page_thread_free r).
Definition set_commit_on_demand (v : bool) (r : page_t) : page_t :=
  mk_page (size_class r) (block_size r) (block_count r) (block_initialized r) (block_used r) (page_type r) (is_full r) (is_free r) (is_zero r)
    (is_decommitted r) (has_aligned_block r) (generic_free r) v (commit_prefix_shift r) (local_free_count r) (local_free r) (page_heap r)
    (page_next r) (page_prev r) (page_thread_free r).
Definition set_commit_prefix_shift (v : Z) (r : page_t) : page_t :=
  mk_page (size_class r) (block_size r) (block_count r) (block_initialized r) (block_used r) (page_type r) (is_full r) (is_free r) (is_zero r)
    (is_decommitted r) (has_aligned_block r) (generic_free r) (commit_on_demand r) v (local_free_count r) (local_free r) (page_heap r) (page_next
    r) (page_prev r) (page_thread_free r).
Definition set_local_free_count (v : Z) (r : page_t) : page_t :=
  mk_page (size_class r) (block_size r) (block_count r) (block_initialized r) (block_used r) (page_type r) (is_full r) (is_free r) (is_zero r)
    (is_decommitted r) (has_aligned_block r) (generic_free r) (commit_on_demand r) (commit_prefix_shift r) v (local_free r) (page_heap r)
    (page_next r) (page_prev r) (page_thread_free r).
Definition set_local_free (v : Z) (r : page_t) : page_t :=
  mk_page (size_class r) (block_size r) (block_count r) (block_initialized r) (block_used r) (page_type r) (is_full r) (is_free r) (is_zero r)
    (is_decommitted r) (has_aligned_block r) (generic_free r) (commit_on_demand r) (commit_prefix_shift r) (local_free_count r) v (page_heap r)
    (page_next r) (page_prev r) (page_thread_free r).
Definition set_page_heap (v : Z) (r : page_t) : page_t :=
  mk_page (size_class r) (block_size r) (block_count r) (block_initialized r) (block_used r) (page_type r) (is_full r) (is_free r) (is_zero r)
    (is_decommitted r) (has_aligned_block r) (generic_free r) (commit_on_demand r) (commit_prefix_shift r) (local_free_count r) (local_free r) v
    (page_next r) (page_prev r) (page_thread_free r).
Definition set_page_next (v : Z) (r : page_t) : page_t :=
  mk_page (size_class r) (block_size r) (block_count r) (block_initialized r) (block_used r) (page_type r) (is_full r) (is_free r) (is_zero r)
    (is_decommitted r) (has_aligned_block r) (generic_free r) (commit_on_demand r) (commit_prefix_shift r) (local_free_count r) (local_free r)
    (page_heap r) v (page_prev r) (page_thread_free r).
Definition set_page_prev (v : Z) (r : page_t) : page_t :=
  mk_page (size_class r) (block_size r) (block_count r) (block_initialized r) (block_used r) (page_type r) (is_full r) (is_free r) (is_zero r)
    (is_decommitted r) (has_aligned_block r) (generic_free r) (commit_on_demand r) (commit_prefix_shift r) (local_free_count r) (local_free r)
    (page_heap r) (page_next r) v (page_thread_free r).
Definition set_page_thread_free (v : Z) (r : page_t) : page_t :=
  mk_page (size_class r) (block_size r) (block_count r) (block_initialized r) (block_used r) (page_type r) (is_full r) (is_free r) (is_zero r)
    (is_decommitted r) (has_aligned_block r) (generic_free r) (commit_on_demand r) (commit_prefix_shift r) (local_free_count r) (local_free r)
    (page_heap r) (page_next r) (page_prev r) v.

(** The header of a span; [span->page] is the header of its first page. *)
Record span_t := mk_span {
  span_heap : Z; page_address_mask : Z; page_initialized : Z; page_count : Z; page_size : Z; span_page_type : page_type_t; span_offset : Z;
  span_mapped_size : Z; span_next : Z }.

Definition set_span_heap (v : Z) (r : span_t) : span_t :=
  mk_span v (page_address_mask r) (page_initialized r) (page_count r) (page_size r) (span_page_type r) (span_offset r) (span_mapped_size r)
    (span_next r).
Definition set_page_address_mask (v : Z) (r : span_t) : span_t :=
  mk_span (span_heap r) v (page_initialized r) (page_count r) (page_size r) (span_page_type r) (span_offset r) (span_mapped_size r) (span_next r).
Definition set_page_initialized (v : Z) (r : span_t) : span_t :=
  mk_span (span_heap r) (page_address_mask r) v (page_count r) (page_size r) (span_page_type r) (span_offset r) (span_mapped_size r) (span_next r).
Definition set_page_count (v : Z) (r : span_t) : span_t :=
  mk_span (span_heap r) (page_address_mask r) (page_initialized r) v (page_size r) (span_page_type r) (span_offset r) (span_mapped_size r)
    (span_next r).
Definition set_page_size (v : Z) (r : span_t) : span_t :=
  mk_span (span_heap r) (page_address_mask r) (page_initialized r) (page_count r) v (span_page_type r) (span_offset r) (span_mapped_size r)
    (span_next r).
Definition set_span_page_type (v : page_type_t) (r : span_t) : span_t :=
  mk_span (span_heap r) (page_address_mask r) (page_initialized r) (page_count r) (page_size r) v (span_offset r) (span_mapped_size r) (span_next r).
Definition set_span_offset (v : Z) (r : span_t) : span_t :=
  mk_span (span_heap r) (page_address_mask r) (page_initialized r) (page_count r) (page_size r) (span_page_type r) v (span_mapped_size r)
    (span_next r).
Definition set_span_mapped_size (v : Z) (r : span_t) : span_t :=
  mk_span (span_heap r) (page_address_mask r) (page_initialized r) (page_count r) (page_size r) (span_page_type r) (span_offset r) v (span_next r).
Definition set_span_next (v : Z) (r : span_t) : span_t :=
  mk_span (span_heap r) (page_address_mask r) (page_initialized r) (page_count r) (page_size r) (span_page_type r) (span_offset r)
    (span_mapped_size r) v.

(** The arrays of a heap are functions of their index. *)
Record heap_t := mk_heap {
  owner_thread : Z; heap_local_free : Z -> Z; page_available : Z -> Z; page_free : page_type_t -> Z; page_free_commit_count : page_type_t -> Z;
  heap_thread_free : page_type_t -> Z; span_partial : page_type_t -> Z; span_used : page_type_t -> Z; heap_next : Z; heap_prev : Z; id : Z;
  heap_offset : Z; heap_mapped_size : Z }.

Definition set_owner_thread (v : Z) (r : heap_t) : heap_t :=
  mk_heap v (heap_local_free r) (page_available r) (page_free r) (page_free_commit_count r) (heap_thread_free r) (span_partial r) (span_used r)
    (heap_next r) (heap_prev r) (id r) (heap_offset r) (heap_mapped_size r).
Definition set_heap_local_free (v : Z -> Z) (r : heap_t) : heap_t :=
  mk_heap (owner_thread r) v (page_available r) (page_free r) (page_free_commit_count r) (heap_thread_free r) (span_partial r) (span_used r)
    (heap_next r) (heap_prev r) (id r) (heap_offset r) (heap_mapped_size r).
Definition set_page_available (v : Z -> Z) (r : heap_t) : heap_t :=
  mk_heap (owner_thread r) (heap_local_free r) v (page_free r) (page_free_commit_count r) (heap_thread_free r) (span_partial r) (span_used r)
    (heap_next r) (heap_prev r) (id r) (heap_offset r) (heap_mapped_size r).
Definition set_page_free (v : page_type_t -> Z) (r : heap_t) : heap_t :=
  mk_heap (owner_thread r) (heap_local_free r) (page_available r) v (page_free_commit_count r) (heap_thread_free r) (span_partial r) (span_used
    r) (heap_next r) (heap_prev r) (id r) (heap_offset r) (heap_mapped_size r).
Definition set_page_free_commit_count (v : page_type_t -> Z) (r : heap_t) : heap_t :=
  mk_heap (owner_thread r) (heap_local_free r) (page_available r) (page_free r) v (heap_thread_free r) (span_partial r) (span_used r) (heap_next
    r) (heap_prev r) (id r) (heap_offset r) (heap_mapped_size r).
Definition set_heap_thread_free (v : page_type_t -> Z) (r : heap_t) : heap_t :=
  mk_heap (owner_thread r) (heap_local_free r) (page_available r) (page_free r) (page_free_commit_count r) v (span_partial r) (span_used r)
    (heap_next r) (heap_prev r) (id r) (heap_offset r) (heap_mapped_size r).
Definition set_span_partial (v : page_type_t -> Z) (r : heap_t) : heap_t :=
  mk_heap (owner_thread r) (heap_local_free r) (page_available r) (page_free r) (page_free_commit_count r) (heap_thread_free r) v (span_used r)
    (heap_next r) (heap_prev r) (id r) (heap_offset r) (heap_mapped_size r).
Definition set_span_used (v : page_type_t -> Z) (r : heap_t) : heap_t :=
  mk_heap (owner_thread r) (heap_local_free r) (page_available r) (page_free r) (page_free_commit_count r) (heap_thread_free r) (span_partial r)
    v (heap_next r) (heap_prev r) (id r) (heap_offset r) (heap_mapped_size r).
Definition set_heap_next (v : Z) (r : heap_t) : heap_t :=
  mk_heap (owner_thread r) (heap_local_free r) (page_available r) (page_free r) (page_free_commit_count r) (heap_thread_free r) (span_partial r)
    (span_used r) v (heap_prev r) (id r) (heap_offset r) (heap_mapped_size r).
Definition set_heap_prev (v : Z) (r : heap_t) : heap_t :=
  mk_heap (owner_thread r) (heap_local_free r) (page_available r) (page_free r) (page_free_commit_count r) (heap_thread_free r) (span_partial r)
    (span_used r) (heap_next r) v (id r) (heap_offset r) (heap_mapped_size r).
Definition set_id (v : Z) (r : heap_t) : heap_t :=
  mk_heap (owner_thread r) (heap_local_free r) (page_available r) (page_free r) (page_free_commit_count r) (heap_thread_free r) (span_partial r)
    (span_used r) (heap_next r) (heap_prev r) v (heap_offset r) (heap_mapped_size r).
Definition set_heap_offset (v : Z) (r : heap_t) : heap_t :=
  mk_heap (owner_thread r) (heap_local_free r) (page_available r) (page_free r) (page_free_commit_count r) (heap_thread_free r) (span_partial r)
    (span_used r) (heap_next r) (heap_prev r) (id r) v (heap_mapped_size r).
Definition set_heap_mapped_size (v : Z) (r : heap_t) : heap_t :=
  mk_heap (owner_thread r) (heap_local_free r) (page_available r) (page_free r) (page_free_commit_count r) (heap_thread_free r) (span_partial r)
    (span_used r) (heap_next r) (heap_prev r) (id r) (heap_offset r) v.

(** Memory that is zero. *)
Definition zero_page : page_t := mk_page 0 0 0 0 0 PAGE_SMALL false false false false false false false 0 0 0 0 0 0 0.
Definition zero_span : span_t := mk_span 0 0 0 0 0 PAGE_SMALL 0 0 0.
Definition zero_heap : heap_t := mk_heap 0 (fun _ => 0) (fun _ => 0) (fun _ => 0) (fun _ => 0) (fun _ => 0) (fun _ => 0) (fun _ => 0) 0 0 0 0 0.

(** [sizeof(heap_t)]: the owner, two arrays of pointers for the size classes, the
    other arrays and fields with their padding. *)
Definition sizeof_heap_t : Z := 8 + 2 * 8 * SIZE_CLASS_COUNT + 4 * 8 + 4 * 4 + 4 * 8 + 4 * 8 + 5 * 8 + 8 + 8 + 4 + 4 + 8 + 8.

(** ** Memory *)

Definition read (m : Z -> Z) (a n : Z) : list Z := map m (seqZ a n).
Definition write (m : Z -> Z) (a : Z) (bs : list Z) : Z -> Z :=
  fun x => if (a <=? x) && (x <? a + Z.of_nat (length bs)) then nth (Z.to_nat (x - a)) bs 0 else m x.
Definition fill (m : Z -> Z) (a n v : Z) : Z -> Z := fun x => if (a <=? x) && (x <? a + n) then v else m x.

(** ** The operating system *)

(** The functions of [rpmalloc_interface_t] and the clock.  A mapping is an
    address with the offset and the size of the mapped region, or fails; the
    booleans are failures. *)
Class MemoryInterface := mk_interface {
  os : Type;
  memory_map : Z -> Z -> os -> option (Z * Z * Z) * os;
  memory_commit : Z -> Z -> os -> bool * os;
  memory_decommit : Z -> Z -> os -> bool * os;
  memory_unmap : Z -> Z -> Z -> os -> os;
  monotonic_time_ms : os -> Z * os }.

(** The fields of [global_config] that the allocator reads after its initialisation. *)
Class Config := mk_config { config_page_size : Z; disable_decommit : bool }.

Section State.
Context `{HC : !Config} `{HM : !MemoryInterface}.

Record state := mk_state {
  heaps : gmap Z heap_t; pages : gmap Z page_t; spans : gmap Z span_t; mem : Z -> Z; kernel : os; thread_heaps : gmap Z Z; global_heap_queue : Z;
  global_heap_pristine : Z; global_heap_used : Z; global_heap_creating : bool; global_heap_id : Z; huge_slots : list (Z * Z); huge_committed : Z
  }.

Definition set_heaps (v : gmap Z heap_t) (r : state) : state :=
  mk_state v (pages r) (spans r) (mem r) (kernel r) (thread_heaps r) (global_heap_queue r) (global_heap_pristine r) (global_heap_used r)
    (global_heap_creating r) (global_heap_id r) (huge_slots r) (huge_committed r).
Definition set_pages (v : gmap Z page_t) (r : state) : state :=
  mk_state (heaps r) v (spans r) (mem r) (kernel r) (thread_heaps r) (global_heap_queue r) (global_heap_pristine r) (global_heap_used r)
    (global_heap_creating r) (global_heap_id r) (huge_slots r) (huge_committed r).
Definition set_spans (v : gmap Z span_t) (r : state) : state :=
  mk_state (heaps r) (pages r) v (mem r) (kernel r) (thread_heaps r) (global_heap_queue r) (global_heap_pristine r) (global_heap_used r)
    (global_heap_creating r) (global_heap_id r) (huge_slots r) (huge_committed r).
Definition set_mem (v : Z -> Z) (r : state) : state :=
  mk_state (heaps r) (pages r) (spans r) v (kernel r) (thread_heaps r) (global_heap_queue r) (global_heap_pristine r) (global_heap_used r)
    (global_heap_creating r) (global_heap_id r) (huge_slots r) (huge_committed r).
Definition set_kernel (v : os) (r : state) : state :=
  mk_state (heaps r) (pages r) (spans r) (mem r) v (thread_heaps r) (global_heap_queue r) (global_heap_pristine r) (global_heap_used r)
    (global_heap_creating r) (global_heap_id r) (huge_slots r) (huge_committed r).
Definition set_thread_heaps (v : gmap Z Z) (r : state) : state :=
  mk_state (heaps r) (pages r) (spans r) (mem r) (kernel r) v (global_heap_queue r) (global_heap_pristine r) (global_heap_used r)
    (global_heap_creating r) (global_heap_id r) (huge_slots r) (huge_committed r).
Definition set_global_heap_queue (v : Z) (r : state) : state :=
  mk_state (heaps r) (pages r) (spans r) (mem r) (kernel r) (thread_heaps r) v (global_heap_pristine r) (global_heap_used r)
    (global_heap_creating r) (global_heap_id r) (huge_slots r) (huge_committed r).
Definition set_global_heap_pristine (v : Z) (r : state) : state :=
  mk_state (heaps r) (pages r) (spans r) (mem r) (kernel r) (thread_heaps r) (global_heap_queue r) v (global_heap_used r) (global_heap_creating
    r) (global_heap_id r) (huge_slots r) (huge_committed r).
Definition set_global_heap_used (v : Z) (r : state) : state :=
  mk_state (heaps r) (pages r) (spans r) (mem r) (kernel r) (thread_heaps r) (global_heap_queue r) (global_heap_pristine r) v
    (global_heap_creating r) (global_heap_id r) (huge_slots r) (huge_committed r).
Definition set_global_heap_creating (v : bool) (r : state) : state :=
  mk_state (heaps r) (pages r) (spans r) (mem r) (kernel r) (thread_heaps r) (global_heap_queue r) (global_heap_pristine r) (global_heap_used r)
    v (global_heap_id r) (huge_slots r) (huge_committed r).
Definition set_global_heap_id (v : Z) (r : state) : state :=
  mk_state (heaps r) (pages r) (spans r) (mem r) (kernel r) (thread_heaps r) (global_heap_queue r) (global_heap_pristine r) (global_heap_used r)
    (global_heap_creating r) v (huge_slots r) (huge_committed r).
Definition set_huge_slots (v : list (Z * Z)) (r : state) : state :=
  mk_state (heaps r) (pages r) (spans r) (mem r) (kernel r) (thread_heaps r) (global_heap_queue r) (global_heap_pristine r) (global_heap_used r)
    (global_heap_creating r) (global_heap_id r) v (huge_committed r).
Definition set_huge_committed (v : Z) (r : state) : state :=
  mk_state (heaps r) (pages r) (spans r) (mem r) (kernel r) (thread_heaps r) (global_heap_queue r) (global_heap_pristine r) (global_heap_used r)
    (global_heap_creating r) (global_heap_id r) (huge_slots r) v.

Definition get_page_aligned_size (size : Z) : Z :=
  let unalign := size mod config_page_size in
  if unalign =? 0 then size else u64 (size + (config_page_size - unalign)).

(** ** The monad

    A function takes the state and gives its result and the new state; [None]
    is an access through a pointer to nothing, or a loop without an end. *)

Definition M (A : Type) : Type := state -> option (A * state).

#[export] Instance M_ret : MRet M := fun A a s => Some (a, s).
#[export] Instance M_bind : MBind M := fun A B f m s => match m s with Some (a, s') => f a s' | None => None end.

Definition undefined {A} : M A := fun _ => None.
Definition gets {A} (f : state -> A) : M A := fun s => Some (f s, s).
Definition modify (f : state -> state) : M unit := fun s => Some (tt, f s).

Definition get_page (p : Z) : M page_t := fun s => match pages s !! p with Some r => Some (r, s) | None => None end.
Definition get_span (p : Z) : M span_t := fun s => match spans s !! p with Some r => Some (r, s) | None => None end.
Definition get_heap (p : Z) : M heap_t := fun s => match heaps s !! p with Some r => Some (r, s) | None => None end.
Definition put_page (p : Z) (r : page_t) : M unit := modify (fun s => set_pages (<[p := r]> (pages s)) s).
Definition put_span (p : Z) (r : span_t) : M unit := modify (fun s => set_spans (<[p := r]> (spans s)) s).
Definition put_heap (p : Z) (r : heap_t) : M unit := modify (fun s => set_heaps (<[p := r]> (heaps s)) s).
Definition upd_page (p : Z) (f : page_t -> page_t) : M unit := r ← get_page p; put_page p (f r).
Definition upd_span (p : Z) (f : span_t -> span_t) : M unit := r ← get_span p; put_span p (f r).
Definition upd_heap (p : Z) (f : heap_t -> heap_t) : M unit := r ← get_heap p; put_heap p (f r).

(** [block->next], the first word of a free block. *)
Definition load (a : Z) : M Z := if a =? 0 then undefined else gets (fun s => le_uint (read (mem s) a 8)).
Definition store (a v : Z) : M unit := if a =? 0 then undefined else modify (fun s => set_mem (write (mem s) a (le_bytes 8 v)) s).

Definition memset (a v n : Z) : M unit := modify (fun s => set_mem (fill (mem s) a n v) s).
Definition memmove (dst src n : Z) : M unit := modify (fun s => set_mem (write (mem s) dst (read (mem s) src n)) s).

(** Mapped memory is zero; a failure is the address 0. *)
Definition map_memory (size alignment : Z) : M (Z * Z * Z) := fun s =>
  match memory_map size alignment (kernel s) with
  | (Some (p, offset, mapped), k) => Some ((p, offset, mapped), set_mem (fill (mem s) p size 0) (set_kernel k s))
  | (None, k) => Some ((0, 0, 0), set_kernel k s)
  end.

Definition commit_memory (a n : Z) : M bool := fun s => let '(failed, k) := memory_commit a n (kernel s) in Some (failed, set_kernel k s).

(** Decommitted memory is zero when it is used again. *)
Definition decommit_memory (a n : Z) : M bool := fun s =>
  let '(failed, k) := memory_decommit a n (kernel s) in
  Some (failed, if failed then set_kernel k s else set_mem (fill (mem s) a n 0) (set_kernel k s)).

(** The headers in the region go with it. *)
Definition unmap_memory (a offset mapped : Z) : M unit := fun s =>
  let outside (x : Z) := negb ((a - offset <=? x) && (x <? a - offset + mapped)) in
  Some (tt, set_pages (filter (fun e => outside e.1 = true) (pages s))
    (set_spans (filter (fun e => outside e.1 = true) (spans s))
    (set_kernel (memory_unmap a offset mapped (kernel s)) s))).

Definition current_time : M Z := fun s => let '(t, k) := monotonic_time_ms (kernel s) in Some (t, set_kernel k s).
End State.
End RpState.
