(* ===== verification/Rpmalloc.v ===== *)
(** * The allocator ([src/library/rpmalloc/rpmalloc/rpmalloc.c])

    The functions on pages, spans, blocks and heaps and the functions of the
    interface, for the POSIX build with first class heaps, decommitting and the
    cache of huge blocks.  [thread] is the calling thread.  A compare-and-swap
    loop is its successful iteration. *)
From stdpp Require Import functions.
From S2P Require Import Prelude RpState.

Module Rpmalloc.
Import RpState.

Section Allocator.
Context `{HC : !Config} `{HM : !MemoryInterface} (thread : Z).

Definition when (b : bool) (m : M unit) : M unit := if b then m else mret tt.

(** ** Configuration *)

(** [global_page_free_overflow] as [rpmalloc_initialize] leaves it. *)
Definition page_free_overflow (t : page_type_t) : Z :=
  let overflow builtin_page_size default := if negb disable_decommit && (config_page_size <? builtin_page_size) then default else 0xFFFFFFFF in
  match t with
  | PAGE_SMALL => overflow SMALL_PAGE_SIZE 16
  | PAGE_MEDIUM_SMALL => overflow MEDIUM_SMALL_PAGE_SIZE 8
  | PAGE_MEDIUM_LARGE => overflow MEDIUM_LARGE_PAGE_SIZE 4
  | PAGE_LARGE => overflow LARGE_PAGE_SIZE 2
  | PAGE_HUGE => 0
  end.

Definition page_free_retain (t : page_type_t) : nat :=
  match t with PAGE_SMALL => 4 | PAGE_MEDIUM_SMALL => 2 | PAGE_MEDIUM_LARGE => 1 | PAGE_LARGE => 1 | PAGE_HUGE => 0 end.

Definition os_commit_on_demand : bool := negb disable_decommit.

(** ** Pages *)

Definition page_get_span (page : Z) : Z := Z.land page SPAN_MASK.

Definition page_get_size (page : Z) (r : page_t) : M Z :=
  match page_type r with
  | PAGE_SMALL => mret SMALL_PAGE_SIZE
  | PAGE_MEDIUM_SMALL => mret MEDIUM_SMALL_PAGE_SIZE
  | PAGE_MEDIUM_LARGE => mret MEDIUM_LARGE_PAGE_SIZE
  | PAGE_LARGE => mret LARGE_PAGE_SIZE
  | PAGE_HUGE => span ← get_span (page_get_span page); mret (page_size span)
  end.

Definition heap_is_thread_heap (heap : Z) : M bool := h ← get_heap heap; mret ((owner_thread h =? 0) || (owner_thread h =? thread)).
Definition page_is_thread_heap (page : Z) : M bool := r ← get_page page; heap_is_thread_heap (page_heap r).

Definition page_block_start (page : Z) : Z := page + PAGE_HEADER_SIZE.
Definition page_block (page : Z) (r : page_t) (block_index : Z) : Z := page + PAGE_HEADER_SIZE + u32 (block_size r * block_index).
Definition page_block_index (page : Z) (r : page_t) (block : Z) : Z := u32 (block - page_block_start page) / block_size r.

(** The first block and the length of a list that is packed into a word. *)
Definition page_block_from_thread_free_list (page : Z) (r : page_t) (token : Z) : Z * Z :=
  let block_index := Z.land token 0xFFFFFFFF in
  let list_count := Z.land (Z.shiftr token 32) 0xFFFFFFFF in
  (if list_count =? 0 then 0 else page_block page r block_index, list_count).

Definition page_block_to_thread_free_list (block_index list_count : Z) : Z := Z.lor (shl 64 list_count 32) block_index.

Definition page_block_realign (page : Z) (r : page_t) (block : Z) : Z :=
  let block_offset := u32 (block - page_block_start page) in block - block_offset mod block_size r.

Definition page_get_local_free_block (page : Z) : M Z :=
  r ← get_page page;
  let block := local_free r in
  next ← load block;
  upd_page page (fun r => set_block_used (u32 (block_used r + 1)) (set_local_free_count (u32 (local_free_count r - 1)) (set_local_free next r)));;
  mret block.

Definition page_decommit_memory_pages (page : Z) : M unit :=
  r ← get_page page;
  if is_decommitted r then mret tt
  else if negb (commit_on_demand r) then mret tt
  else
    let commit_prefix := Z.shiftl 1 (commit_prefix_shift r) in
    page_size ← page_get_size page r;
    if page_size <=? commit_prefix then mret tt
    else
      failed ← decommit_memory (page + commit_prefix) (page_size - commit_prefix);
      when (negb failed) (upd_page page (set_is_decommitted true)).

(** [true] is a failure. *)
Definition page_commit_memory_pages (page : Z) : M bool :=
  r ← get_page page;
  if negb (is_decommitted r) then mret false
  else
    let commit_prefix := Z.shiftl 1 (commit_prefix_shift r) in
    page_size ← page_get_size page r;
    failed ← commit_memory (page + commit_prefix) (page_size - commit_prefix);
    if (failed : bool) then mret true
    else
      upd_page page (set_is_decommitted false);;
      memset (page + PAGE_HEADER_SIZE) 0 (commit_prefix - PAGE_HEADER_SIZE);;
      upd_page page (set_is_zero true);;
      mret false.

(** [n] pages are kept, and then pages are decommitted until one is or refuses. *)
Fixpoint skip_pages (n : nat) (page : Z) : M Z :=
  match n with
  | O => mret page
  | S n => if page =? 0 then mret page else r ← get_page page; skip_pages n (page_next r)
  end.

Fixpoint decommit_loop (fuel : nat) (heap : Z) (t : page_type_t) (page : Z) : M unit :=
  match fuel with
  | O => undefined
  | S fuel =>
      if page =? 0 then mret tt
      else
        r ← get_page page;
        if is_decommitted r then mret tt
        else
          page_decommit_memory_pages page;;
          r ← get_page page;
          if negb (is_decommitted r) then mret tt
          else
            upd_heap heap (fun h => set_page_free_commit_count (<[t := u32 (page_free_commit_count h t - 1)]> (page_free_commit_count h)) h);;
            decommit_loop fuel heap t (page_next r)
  end.

Definition heap_page_free_decommit (heap : Z) (t : page_type_t) (page_retain_count : nat) : M unit :=
  h ← get_heap heap;
  page ← skip_pages page_retain_count (page_free h t);
  n ← gets (fun s => size (pages s));
  decommit_loop (S n) heap t page.

(** A page leaves the list of available pages. *)
Definition unlink_available (page : Z) : M unit :=
  r ← get_page page;
  h ← get_heap (page_heap r);
  if page_available h (size_class r) =? page then
    upd_heap (page_heap r) (fun h => set_page_available (<[size_class r := page_next r]> (page_available h)) h)
  else
    upd_page (page_prev r) (set_page_next (page_next r));;
    when (negb (page_next r =? 0)) (upd_page (page_next r) (set_page_prev (page_prev r))).

(** A page enters the list of free pages, which may be decommitted then. *)
Definition push_free_page (heap page : Z) (t : page_type_t) : M unit :=
  h ← get_heap heap;
  upd_page page (set_page_next (page_free h t));;
  upd_heap heap (fun h => set_page_free (<[t := page]> (page_free h)) h);;
  upd_heap heap (fun h => set_page_free_commit_count (<[t := u32 (page_free_commit_count h t + 1)]> (page_free_commit_count h)) h);;
  h ← get_heap heap;
  when (page_free_overflow t <=? page_free_commit_count h t) (heap_page_free_decommit heap t (page_free_retain t)).

Definition page_available_to_free (page : Z) : M unit :=
  unlink_available page;;
  upd_page page (fun r => set_is_zero false (set_is_free true r));;
  r ← get_page page;
  push_free_page (page_heap r) page (page_type r).

Definition page_full_to_available (page : Z) : M unit :=
  r ← get_page page;
  h ← get_heap (page_heap r);
  let head := page_available h (size_class r) in
  upd_page page (set_page_next head);;
  when (negb (head =? 0)) (upd_page head (set_page_prev page));;
  upd_heap (page_heap r) (fun h => set_page_available (<[size_class r := page]> (page_available h)) h);;
  upd_page page (fun r => let r := set_is_full false r in if has_aligned_block r then r else set_generic_free false r).

Definition page_full_to_free_on_new_heap (page heap : Z) : M unit :=
  upd_page page (fun r => set_page_thread_free 0 (set_page_heap heap (set_is_free true (set_is_full false r))));;
  r ← get_page page;
  push_free_page heap page (page_type r).

Definition page_available_to_full (page : Z) : M unit :=
  unlink_available page;;
  upd_page page (fun r => set_generic_free true (set_is_zero false (set_is_full true r))).

Definition page_put_local_free_block (page block : Z) : M unit :=
  r ← get_page page;
  store block (local_free r);;
  upd_page page (fun r => set_block_used (u32 (block_used r - 1)) (set_local_free_count (u32 (local_free_count r + 1)) (set_local_free block r)));;
  r ← get_page page;
  if block_used r =? 0 then page_available_to_free page
  else when (is_full r) (page_full_to_available page).

Definition page_adopt_thread_free_block_list (page : Z) : M unit :=
  r ← get_page page;
  if negb (local_free r =? 0) then mret tt
  else if page_thread_free r =? 0 then mret tt
  else
    let '(block, list_count) := page_block_from_thread_free_list page r (page_thread_free r) in
    upd_page page (fun r => set_block_used (u32 (block_used r - list_count)) (set_local_free block (set_local_free_count list_count (set_page_thread_free 0 r)))).

Definition page_put_thread_free_block (page block : Z) : M unit :=
  r ← get_page page;
  if is_full r then
    h ← get_heap (page_heap r);
    store block (heap_thread_free h (page_type r));;
    upd_heap (page_heap r) (fun h => set_heap_thread_free (<[page_type r := block]> (heap_thread_free h)) h)
  else
    let block_index := page_block_index page r block in
    let '(next, count) := page_block_from_thread_free_list page r (page_thread_free r) in
    store block next;;
    upd_page page (set_page_thread_free (page_block_to_thread_free_list block_index (u32 (count + 1)))).

Definition page_push_local_free_to_heap (page : Z) : M unit :=
  r ← get_page page;
  upd_heap (page_heap r) (fun h => set_heap_local_free (<[size_class r := local_free r]> (heap_local_free h)) h);;
  upd_page page (fun r => set_local_free_count 0 (set_local_free 0 (set_block_used (u32 (block_used r + local_free_count r)) r))).

(** The last block that was linked and the number of them; [n] more may be. *)
Fixpoint link_loop (n : nat) (block_size memory_page_next free_block last_block list_count : Z) : M (Z * Z) :=
  match n with
  | O => mret (last_block, list_count)
  | S n =>
      if free_block <? memory_page_next then
        store free_block (free_block + block_size);;
        next ← load free_block;
        link_loop n block_size memory_page_next next free_block (list_count + 1)
      else mret (last_block, list_count)
  end.

Definition page_initialize_blocks (page : Z) : M Z :=
  r ← get_page page;
  let block := page_block page r (block_initialized r) in
  upd_page page (fun r => set_block_used (u32 (block_used r + 1)) (set_block_initialized (u32 (block_initialized r + 1)) r));;
  r ← get_page page;
  when (bool_decide (page_type r = PAGE_SMALL) && (block_size r <? Z.shiftr config_page_size 1))
    (let memory_page_start := Z.land block (mask config_page_size) in
     let memory_page_next := memory_page_start + config_page_size in
     let free_block := block + block_size r in
     let max_list_count := u32 (block_count r - block_initialized r) in
     '(last_block, list_count) ← link_loop (Z.to_nat max_list_count) (block_size r) memory_page_next free_block free_block 0;
     when (negb (list_count =? 0))
       (store last_block 0;;
        upd_page page (fun r => set_local_free_count list_count (set_block_initialized (u32 (block_initialized r + list_count)) (set_local_free free_block r)))));;
  mret block.

(** A block of the local list, or 0. *)
Definition page_pop (page : Z) : M Z := r ← get_page page; if negb (local_free r =? 0) then page_get_local_free_block page else mret 0.

Definition page_allocate_block (page : Z) (zero : bool) : M Z :=
  block ← page_pop page;
  '(block, zeroed) ← (if block =? 0 then
      r ← get_page page;
      block ← (if negb (page_thread_free r =? 0) then page_adopt_thread_free_block_list page;; page_pop page else mret block);
      if block =? 0 then
        block ← page_initialize_blocks page;
        r ← get_page page;
        mret (block, is_zero r)
      else mret (block, false)
    else mret (block, false));
  r ← get_page page;
  h ← get_heap (page_heap r);
  when (negb (local_free r =? 0) && (heap_local_free h (size_class r) =? 0)) (page_push_local_free_to_heap page);;
  r ← get_page page;
  when (block_used r =? block_count r)
    (page_adopt_thread_free_block_list page;;
     r ← get_page page;
     when (block_used r =? block_count r) (page_available_to_full page));;
  r ← get_page page;
  when zero (if negb zeroed then memset block 0 (block_size r) else store block 0);;
  mret block.

(** ** Spans *)

Definition span_get_page_from_block (s : span_t) (block : Z) : Z := Z.land block (page_address_mask s).

(** The page of a block. *)
Definition block_page (block : Z) : M Z := s ← get_span (Z.land block SPAN_MASK); mret (span_get_page_from_block s block).

(** The address of the page, or 0. *)
Definition span_allocate_page (span : Z) : M Z :=
  s ← get_span span;
  first ← get_page span;
  let page := span + u32 (page_size s * page_initialized s) in
  failed ← (if negb (page_initialized s =? 0) && commit_on_demand first then commit_memory page (page_size s) else mret false);
  if (failed : bool) then mret 0
  else
    upd_span span (fun s => set_page_initialized (u32 (page_initialized s + 1)) s);;
    when (negb (page_initialized s =? 0)) (put_page page zero_page);;
    upd_page page (fun r =>
      set_page_heap (span_heap s) (set_is_zero true (set_commit_prefix_shift (commit_prefix_shift first)
        (set_commit_on_demand (commit_on_demand first) (set_page_type (span_page_type s) r)))));;
    s ← get_span span;
    when (page_initialized s =? page_count s)
      (upd_heap (span_heap s) (fun h => set_span_partial (<[span_page_type s := 0]> (span_partial h)) h);;
       h ← get_heap (span_heap s);
       upd_span span (set_span_next (span_used h (span_page_type s)));;
       upd_heap (span_heap s) (fun h => set_span_used (<[span_page_type s := span]> (span_used h)) h));;
    mret page.

(** ** The cache of huge blocks *)

Definition HUGE_CACHE_SLOT_COUNT : nat := 32.
Definition HUGE_CACHE_COMMITTED_LIMIT : Z := 128 * 1024 * 1024.
Definition HUGE_CACHE_ENTRY_LIMIT : Z := HUGE_CACHE_COMMITTED_LIMIT / 4.
Definition HUGE_CACHE_EPOCH_MS : Z := 1000.

Definition committed_size (s : span_t) : Z := page_count s * page_size s.

(** Takes the slots from [i] that [aged] holds of out of the cache. *)
Fixpoint purge_slots (n i : nat) (aged : Z -> bool) (purge : list Z) : M (list Z) :=
  match n with
  | O => mret purge
  | S n =>
      slot ← gets (fun s => nth i (huge_slots s) (0, 0));
      if negb (slot.1 =? 0) && aged slot.2 then
        span ← get_span slot.1;
        modify (fun s => set_huge_committed (u64 (huge_committed s - committed_size span)) (set_huge_slots (<[i := (0, slot.2)]> (huge_slots s)) s));;
        purge_slots n (S i) aged (purge ++ [slot.1])
      else purge_slots n (S i) aged purge
  end.

Fixpoint unmap_spans (l : list Z) : M unit :=
  match l with
  | [] => mret tt
  | span :: l => s ← get_span span; unmap_memory span (span_offset s) (span_mapped_size s);; unmap_spans l
  end.

Definition huge_cache_purge_aged (now : Z) : M unit :=
  purge ← purge_slots HUGE_CACHE_SLOT_COUNT 0 (fun free_ms => HUGE_CACHE_EPOCH_MS <=? u64 (now - free_ms)) [];
  unmap_spans purge.

Definition huge_cache_flush : M unit :=
  purge ← purge_slots HUGE_CACHE_SLOT_COUNT 0 (fun _ => true) [];
  unmap_spans purge.

(** The first slot without a span, from [i] on. *)
Fixpoint free_slot (n i : nat) (slots : list (Z * Z)) : option nat :=
  match n with O => None | S n => if (nth i slots (0, 0)).1 =? 0 then Some i else free_slot n (S i) slots end.

Definition huge_cache_push (span : Z) : M bool :=
  s ← get_span span;
  let committed := committed_size s in
  if HUGE_CACHE_ENTRY_LIMIT <? committed then mret false
  else
    now ← current_time;
    huge_cache_purge_aged now;;
    cached ← gets huge_committed;
    if u64 (cached + committed) <=? HUGE_CACHE_COMMITTED_LIMIT then
      slot ← gets (fun s => free_slot HUGE_CACHE_SLOT_COUNT 0 (huge_slots s));
      match slot with
      | Some i => modify (fun s => set_huge_committed (u64 (huge_committed s + committed)) (set_huge_slots (<[i := (span, now)]> (huge_slots s)) s));; mret true
      | None => mret false
      end
    else mret false.

(** The best span so far, its size and its slot. *)
Fixpoint best_fit (n i : nat) (alloc_size size_limit : Z) (best : Z * Z * nat) : M (Z * Z * nat) :=
  match n with
  | O => mret best
  | S n =>
      slot ← gets (fun s => nth i (huge_slots s) (0, 0));
      if slot.1 =? 0 then best_fit n (S i) alloc_size size_limit best
      else
        span ← get_span slot.1;
        let committed := committed_size span in
        let '(best_span, best_size, _) := best in
        if (alloc_size <=? committed) && (committed <=? size_limit) && ((best_span =? 0) || (committed <? best_size))
        then best_fit n (S i) alloc_size size_limit (slot.1, committed, i)
        else best_fit n (S i) alloc_size size_limit best
  end.

Definition huge_cache_pop (alloc_size : Z) : M Z :=
  let size_limit := u64 (alloc_size + Z.shiftr alloc_size 2) in
  '(best, best_size, best_slot) ← best_fit HUGE_CACHE_SLOT_COUNT 0 alloc_size size_limit (0, 0, 0%nat);
  when (negb (best =? 0))
    (modify (fun s => set_huge_committed (u64 (huge_committed s - best_size))
       (set_huge_slots (<[best_slot := (0, (nth best_slot (huge_slots s) (0, 0)).2)]> (huge_slots s)) s)));;
  mret best.

(** ** Blocks *)

Definition span_deallocate_block (span page block : Z) : M unit :=
  r ← get_page page;
  if is_huge (page_type r) then
    cached ← huge_cache_push span;
    when (negb cached) (s ← get_span span; unmap_memory span (span_offset s) (span_mapped_size s))
  else
    let block := if has_aligned_block r then page_block_realign page r block else block in
    is_thread_local ← page_is_thread_heap page;
    if (is_thread_local : bool) then page_put_local_free_block page block else page_put_thread_free_block page block.

Definition block_deallocate (block : Z) : M unit :=
  let span := Z.land block SPAN_MASK in
  page ← block_page block;
  is_thread_local ← page_is_thread_heap page;
  r ← get_page page;
  if (is_thread_local : bool) && negb (generic_free r) then
    store block (local_free r);;
    upd_page page (fun r => set_block_used (u32 (block_used r - 1)) (set_local_free_count (u32 (local_free_count r + 1)) (set_local_free block r)));;
    r ← get_page page;
    when (block_used r =? 0) (page_available_to_free page)
  else span_deallocate_block span page block.

Definition block_usable_size (block : Z) : M Z :=
  let span := Z.land block SPAN_MASK in
  s ← get_span span;
  if negb (is_huge (span_page_type s)) then
    let page := span_get_page_from_block s block in
    r ← get_page page;
    mret (block_size r - (block - (page + PAGE_HEADER_SIZE)) mod block_size r)
  else mret (page_size s * page_count s - (block - span)).

(** ** Heaps *)

Definition heap_initialize (block : Z) : M Z :=
  id ← gets global_heap_id;
  modify (set_global_heap_id (u32 (id + 1)));;
  put_heap block (set_id (u32 (1 + id)) zero_heap);;
  mret block.

(** The heaps behind the first one of a mapping, linked; [n] are left. *)
Fixpoint carve_heaps (n : nat) (aligned_heap_size extra_heap chain_head chain_tail : Z) : M (Z * Z) :=
  match n with
  | O => mret (chain_head, chain_tail)
  | S n =>
      heap_initialize extra_heap;;
      upd_heap extra_heap (set_heap_next chain_head);;
      carve_heaps n aligned_heap_size (extra_heap + aligned_heap_size) extra_heap (if chain_tail =? 0 then extra_heap else chain_tail)
  end.

(** A heap that is in nobody's use, or 0.  A thread that waits for another one to
    make heaps is blocked. *)
Definition heap_allocate_new (first_class : bool) : M Z :=
  queue ← gets global_heap_queue;
  if negb first_class && negb (queue =? 0) then
    h ← get_heap queue;
    modify (set_global_heap_queue (heap_next h));;
    mret queue
  else
    pristine ← gets global_heap_pristine;
    if negb (pristine =? 0) then
      h ← get_heap pristine;
      modify (set_global_heap_pristine (heap_next h));;
      mret pristine
    else
      creating ← gets global_heap_creating;
      if (creating : bool) then undefined
      else
        modify (set_global_heap_creating true);;
        let aligned_heap_size := HEAP_ALIGNMENT * ((sizeof_heap_t + (HEAP_ALIGNMENT - 1)) / HEAP_ALIGNMENT) in
        let block_size := get_page_aligned_size aligned_heap_size in
        '(block, offset, mapped_size) ← map_memory block_size 0;
        block ← (if negb (block =? 0) && os_commit_on_demand then
            failed ← commit_memory block block_size;
            if (failed : bool) then unmap_memory block offset mapped_size;; mret 0 else mret block
          else mret block);
        if block =? 0 then modify (set_global_heap_creating false);; mret 0
        else
          heap ← heap_initialize block;
          upd_heap heap (fun h => set_heap_mapped_size mapped_size (set_heap_offset (u32 offset) h));;
          let heap_count := mapped_size / aligned_heap_size in
          '(chain_head, chain_tail) ← carve_heaps (Z.to_nat (heap_count - 1)) aligned_heap_size (heap + aligned_heap_size) 0 0;
          when (negb (chain_tail =? 0))
            (pristine ← gets global_heap_pristine;
             upd_heap chain_tail (set_heap_next pristine);;
             modify (set_global_heap_pristine chain_head));;
          modify (set_global_heap_creating false);;
          mret heap.

Definition heap_allocate (first_class : bool) : M Z :=
  heap ← heap_allocate_new first_class;
  when (negb (heap =? 0))
    (used ← gets global_heap_used;
     upd_heap heap (fun h => set_heap_prev 0 (set_heap_next used h));;
     when (negb (used =? 0)) (upd_heap used (set_heap_prev heap));;
     modify (set_global_heap_used heap);;
     upd_heap heap (set_owner_thread thread));;
  mret heap.

Definition heap_release (heap : Z) : M unit :=
  h ← get_heap heap;
  when (negb (heap_prev h =? 0)) (upd_heap (heap_prev h) (set_heap_next (heap_next h)));;
  h ← get_heap heap;
  when (negb (heap_next h =? 0)) (upd_heap (heap_next h) (set_heap_prev (heap_prev h)));;
  used ← gets global_heap_used;
  h ← get_heap heap;
  when (used =? heap) (modify (set_global_heap_used (heap_next h)));;
  queue ← gets global_heap_queue;
  upd_heap heap (set_heap_next queue);;
  modify (set_global_heap_queue heap).

(** [global_heap_fallback], the heap of a thread that has none: static memory. *)
Definition global_heap_fallback : Z := 64.

Definition get_thread_heap : M Z := gets (fun s => default global_heap_fallback (thread_heaps s !! thread)).

Definition set_thread_heap (heap : Z) : M unit :=
  modify (fun s => set_thread_heaps (<[thread := heap]> (thread_heaps s)) s);;
  when (negb (heap =? 0)) (h ← get_heap heap; when (negb (id h =? 0)) (upd_heap heap (set_owner_thread thread))).

Definition get_thread_heap_allocate : M Z := heap ← heap_allocate false; set_thread_heap heap;; mret heap.

Definition rpmalloc_thread_initialize : M unit :=
  heap ← get_thread_heap;
  when (heap =? global_heap_fallback) (get_thread_heap_allocate;; mret tt).

Definition rpmalloc_thread_finalize : M unit :=
  heap ← get_thread_heap;
  when (negb (heap =? global_heap_fallback)) (heap_release heap;; set_thread_heap global_heap_fallback).

Definition rpmalloc_is_thread_initialized : M bool := heap ← get_thread_heap; mret (negb (heap =? global_heap_fallback)).

(** [true] is a failure. *)
Definition heap_make_free_page_available (heap size_class page : Z) : M bool :=
  match global_size_class !! Z.to_nat size_class with
  | None => undefined
  | Some class =>
      upd_page page (fun r =>
        set_page_heap heap (set_generic_free false (set_has_aligned_block false (set_is_free false (set_is_full false
          (set_local_free_count 0 (set_local_free 0 (set_block_initialized 0 (set_block_used 0
          (set_block_count (class_block_count class) (set_block_size (class_block_size class) (set_size_class size_class r))))))))))));;
      h ← get_heap heap;
      let head := page_available h size_class in
      upd_page page (fun r => set_page_thread_free 0 (set_page_prev 0 (set_page_next head r)));;
      when (negb (head =? 0)) (upd_page head (set_page_prev page));;
      upd_heap heap (fun h => set_page_available (<[size_class := page]> (page_available h)) h);;
      r ← get_page page;
      if is_decommitted r then page_commit_memory_pages page else mret false
  end.

(** The smallest shift that gives at least the size of a page. *)
Fixpoint prefix_shift (n : nat) (shift : Z) : Z :=
  match n with O => shift | S n => if Z.shiftl 1 shift <? config_page_size then prefix_shift n (shift + 1) else shift end.

(** The size of the pages of a span, and their mask. *)
Definition span_geometry (t : page_type_t) : Z * Z :=
  match t with
  | PAGE_SMALL => (SMALL_PAGE_SIZE, SMALL_PAGE_MASK)
  | PAGE_MEDIUM_SMALL => (MEDIUM_SMALL_PAGE_SIZE, MEDIUM_SMALL_PAGE_MASK)
  | PAGE_MEDIUM_LARGE => (MEDIUM_LARGE_PAGE_SIZE, MEDIUM_LARGE_PAGE_MASK)
  | _ => (LARGE_PAGE_SIZE, LARGE_PAGE_MASK)
  end.

(** The headers of a span that has been mapped. *)
Definition new_span (span : Z) : M unit := put_page span zero_page;; put_span span zero_span.

Definition heap_get_span (heap : Z) (t : page_type_t) : M Z :=
  h ← get_heap heap;
  if negb (span_partial h t =? 0) then mret (span_partial h t)
  else
    '(span, offset, mapped_size) ← map_memory SPAN_SIZE SPAN_SIZE;
    if span =? 0 then mret 0
    else
      let '(page_size, page_address_mask) := span_geometry t in
      new_span span;;
      failed ← (if os_commit_on_demand then commit_memory span page_size else mret false);
      if (failed : bool) then unmap_memory span offset mapped_size;; mret 0
      else
        upd_page span (fun r => set_commit_prefix_shift (prefix_shift 64 0) (set_commit_on_demand os_commit_on_demand r));;
        upd_span span (fun s =>
          set_span_mapped_size mapped_size (set_span_offset (u32 offset) (set_page_address_mask page_address_mask (set_page_size page_size
            (set_page_count (SPAN_SIZE / page_size) (set_span_page_type t (set_span_heap heap s)))))));;
        upd_heap heap (fun h => set_span_partial (<[t := span]> (span_partial h)) h);;
        mret span.

(** Blocks that other threads have freed. *)
Fixpoint deferred_loop (fuel : nat) (block : Z) : M unit :=
  match fuel with
  | O => undefined
  | S fuel => if block =? 0 then mret tt else next ← load block; block_deallocate block;; deferred_loop fuel next
  end.

(** [heap_get_page] with [heap_get_page_generic]; the fuel is for the retries and
    for the blocks that other threads have freed. *)
Fixpoint heap_get_page (fuel : nat) (heap size_class : Z) : M Z :=
  match fuel with
  | O => undefined
  | S fuel =>
      h ← get_heap heap;
      if negb (page_available h size_class =? 0) then mret (page_available h size_class)
      else
        let t := get_page_type size_class in
        if negb (heap_thread_free h t =? 0) then
          upd_heap heap (fun h => set_heap_thread_free (<[t := 0]> (heap_thread_free h)) h);;
          deferred_loop fuel (heap_thread_free h t);;
          heap_get_page fuel heap size_class
        else if negb (page_free h t =? 0) then
          let page := page_free h t in
          r ← get_page page;
          upd_heap heap (fun h => set_page_free (<[t := page_next r]> (page_free h)) h);;
          when (negb (is_decommitted r))
            (upd_heap heap (fun h => set_page_free_commit_count (<[t := u32 (page_free_commit_count h t - 1)]> (page_free_commit_count h)) h));;
          failed ← heap_make_free_page_available heap size_class page;
          mret (if (failed : bool) then 0 else page)
        else if id h =? 0 then
          rpmalloc_thread_initialize;;
          heap ← get_thread_heap;
          heap_get_page fuel heap size_class
        else
          span ← heap_get_span heap t;
          if span =? 0 then mret 0
          else
            page ← span_allocate_page span;
            r ← get_page page;
            failed ← heap_make_free_page_available (page_heap r) size_class page;
            mret (if (failed : bool) then 0 else page)
  end.

Definition heap_pop_local_free (heap size_class : Z) : M Z :=
  h ← get_heap heap;
  let block := heap_local_free h size_class in
  if block =? 0 then mret 0
  else next ← load block; upd_heap heap (fun h => set_heap_local_free (<[size_class := next]> (heap_local_free h)) h);; mret block.

Definition heap_allocate_block_small_to_large (fuel : nat) (heap size_class : Z) (zero : bool) : M Z :=
  page ← heap_get_page fuel heap size_class;
  if page =? 0 then mret 0 else page_allocate_block page zero.

(** The span gets its fields; one from the cache keeps the geometry that it has. *)
Definition huge_span (heap span : Z) (from_cache : bool) (alloc_size offset mapped_size : Z) : M unit :=
  upd_span span (fun s => set_page_address_mask LARGE_PAGE_MASK (set_span_page_type PAGE_HUGE (set_span_heap heap s)));;
  upd_page span (set_commit_on_demand false);;
  when (negb from_cache) (upd_span span (fun s =>
    set_span_mapped_size mapped_size (set_span_offset (u32 offset) (set_page_count (u32 (alloc_size / config_page_size)) (set_page_size (u32 config_page_size) s)))));;
  upd_page span (fun r => set_page_type PAGE_HUGE (set_generic_free true (set_is_full true (set_page_heap heap r))));;
  h ← get_heap heap;
  when (owner_thread h =? 0)
    (upd_span span (set_span_next (span_used h PAGE_HUGE));;
     upd_heap heap (fun h => set_span_used (<[PAGE_HUGE := span]> (span_used h)) h)).

Definition heap_allocate_block_huge (heap size : Z) (zero : bool) : M Z :=
  h ← get_heap heap;
  heap ← (if id h =? 0 then rpmalloc_thread_initialize;; get_thread_heap else mret heap);
  let alloc_size := get_page_aligned_size (u64 (size + SPAN_HEADER_SIZE)) in
  cached ← huge_cache_pop alloc_size;
  '(block, offset, mapped_size) ← (if negb (cached =? 0) then mret (cached, 0, 0) else map_memory alloc_size SPAN_SIZE);
  if block =? 0 then mret 0
  else
    let from_cache := negb (cached =? 0) in
    failed ← (if negb from_cache && os_commit_on_demand then commit_memory block alloc_size else mret false);
    if (failed : bool) then unmap_memory block offset mapped_size;; mret 0
    else
      when (negb from_cache) (new_span block);;
      huge_span heap block from_cache alloc_size offset mapped_size;;
      let ptr := block + SPAN_HEADER_SIZE in
      when zero (memset ptr 0 size);;
      mret ptr.

(** A block of the heap's own list, zeroed when asked for, or a block of a page. *)
Definition heap_allocate_class (fuel : nat) (heap size_class : Z) (zero : bool) : M Z :=
  block ← heap_pop_local_free heap size_class;
  if negb (block =? 0) then
    match global_size_class !! Z.to_nat size_class with
    | None => undefined
    | Some class => when zero (memset block 0 (class_block_size class));; mret block
    end
  else heap_allocate_block_small_to_large fuel heap size_class zero.

Definition heap_allocate_block_generic (fuel : nat) (heap size : Z) (zero : bool) : M Z :=
  let size_class := get_size_class size in
  if size_class <? SIZE_CLASS_COUNT then heap_allocate_class fuel heap size_class zero
  else heap_allocate_block_huge heap size zero.

Definition heap_allocate_block (fuel : nat) (heap size : Z) (zero : bool) : M Z :=
  if size <=? SMALL_GRANULARITY * 64 then heap_allocate_class fuel heap (get_size_class_tiny size) zero
  else heap_allocate_block_generic fuel heap size zero.

Definition heap_allocate_block_aligned (fuel : nat) (heap alignment size : Z) (zero : bool) : M Z :=
  if alignment <=? SMALL_GRANULARITY then heap_allocate_block fuel heap size zero
  else if RPMALLOC_MAX_ALIGNMENT <=? alignment then mret 0
  else
    let align_mask := alignment - 1 in
    block ← heap_allocate_block fuel heap (u64 (size + alignment)) zero;
    if negb (Z.land block align_mask =? 0) then
      let block := Z.land block (u64 (Z.lnot align_mask)) + alignment in
      page ← block_page block;
      upd_page page (fun r => set_generic_free true (set_has_aligned_block true r));;
      mret block
    else mret block.

Definition heap_reallocate_block (fuel : nat) (heap block size old_size flags : Z) : M Z :=
  let preserve := Z.land flags RPMALLOC_NO_PRESERVE =? 0 in
  '(fits, old_size) ← (if negb (block =? 0) then
      let span := Z.land block SPAN_MASK in
      s ← get_span span;
      if negb (is_huge (span_page_type s)) then
        let page := span_get_page_from_block s block in
        r ← get_page page;
        let blocks_start := page + PAGE_HEADER_SIZE in
        let block_idx := u32 (block - blocks_start) / block_size r in
        let block_origin := blocks_start + block_idx * block_size r in
        let old_size := if old_size =? 0 then block_size r - (block - block_origin) else old_size in
        if size <=? block_size r then
          when (negb (block =? block_origin) && preserve) (memmove block_origin block old_size);;
          mret (block_origin, old_size)
        else mret (0, old_size)
      else
        let block_start := span + SPAN_HEADER_SIZE in
        let old_size := if old_size =? 0 then page_size s * page_count s - (block - span) else old_size in
        if (size <? old_size) && (old_size / 2 <=? size) && (LARGE_BLOCK_SIZE_LIMIT <? size) then
          when (negb (block_start =? block) && preserve) (memmove block_start block old_size);;
          mret (block_start, old_size)
        else mret (0, old_size)
    else mret (0, 0));
  if negb (fits =? 0) then mret fits
  else if negb (Z.land flags RPMALLOC_GROW_OR_FAIL =? 0) then mret 0
  else
    let lower_bound := u64 (old_size + Z.shiftr old_size 2 + Z.shiftr old_size 3) in
    let new_size := if lower_bound <? size then size else if old_size <? size then lower_bound else size in
    new_block ← heap_allocate_block fuel heap new_size false;
    when (negb (new_block =? 0) && negb (block =? 0))
      (when preserve (memmove new_block block (if old_size <? new_size then old_size else new_size));;
       block_deallocate block);;
    mret new_block.

Definition heap_reallocate_block_aligned (fuel : nat) (heap block alignment size old_size flags : Z) : M Z :=
  if alignment <=? SMALL_GRANULARITY then heap_reallocate_block fuel heap block size old_size flags
  else
    let no_alloc := negb (Z.land flags RPMALLOC_GROW_OR_FAIL =? 0) in
    usable_size ← (if negb (block =? 0) then block_usable_size block else mret 0);
    if (size <=? usable_size) && (Z.land block (alignment - 1) =? 0) && (no_alloc || (usable_size / 2 <=? size)) then mret block
    else
      new_block ← (if negb no_alloc then heap_allocate_block_aligned fuel heap alignment size false else mret 0);
      when (negb (new_block =? 0))
        (when ((Z.land flags RPMALLOC_NO_PRESERVE =? 0) && negb (block =? 0))
           (let old_size := if old_size =? 0 then usable_size else old_size in
            memmove new_block block (if old_size <? size then old_size else size));;
         when (negb (block =? 0)) (block_deallocate block));;
      mret new_block.

(** Unmaps the spans of a list. *)
Fixpoint free_spans (fuel : nat) (span : Z) : M unit :=
  match fuel with
  | O => undefined
  | S fuel =>
      if span =? 0 then mret tt
      else s ← get_span span; unmap_memory span (span_offset s) (span_mapped_size s);; free_spans fuel (span_next s)
  end.

Fixpoint free_partial_spans (fuel : nat) (heap : Z) (types : list page_type_t) : M unit :=
  match types with
  | [] => mret tt
  | t :: types =>
      h ← get_heap heap;
      free_spans fuel (span_partial h t);;
      upd_heap heap (fun h =>
        set_heap_thread_free (<[t := 0]> (heap_thread_free h)) (set_page_free_commit_count (<[t := 0]> (page_free_commit_count h))
          (set_page_free (<[t := 0]> (page_free h)) (set_span_partial (<[t := 0]> (span_partial h)) h))));;
      free_partial_spans fuel heap types
  end.

Fixpoint free_used_spans (fuel : nat) (heap : Z) (types : list page_type_t) : M unit :=
  match types with
  | [] => mret tt
  | t :: types =>
      h ← get_heap heap;
      free_spans fuel (span_used h t);;
      upd_heap heap (fun h => set_span_used (<[t := 0]> (span_used h)) h);;
      free_used_spans fuel heap types
  end.

Definition heap_free_all (fuel : nat) (heap : Z) : M unit :=
  free_partial_spans fuel heap [PAGE_SMALL; PAGE_MEDIUM_SMALL; PAGE_MEDIUM_LARGE; PAGE_LARGE];;
  free_used_spans fuel heap [PAGE_SMALL; PAGE_MEDIUM_SMALL; PAGE_MEDIUM_LARGE; PAGE_LARGE; PAGE_HUGE];;
  upd_heap heap (fun h => set_page_available (fun _ => 0) (set_heap_local_free (fun _ => 0) h)).

(** ** Interface *)

Definition rpmalloc (fuel : nat) (size : Z) : M Z := heap ← get_thread_heap; heap_allocate_block fuel heap size false.
Definition rpzalloc (fuel : nat) (size : Z) : M Z := heap ← get_thread_heap; heap_allocate_block fuel heap size true.
Definition rpfree (ptr : Z) : M unit := if ptr =? 0 then mret tt else block_deallocate ptr.
Definition rpcalloc (fuel : nat) (num size : Z) : M Z := heap ← get_thread_heap; heap_allocate_block fuel heap (u64 (num * size)) true.
Definition rprealloc (fuel : nat) (ptr size : Z) : M Z := heap ← get_thread_heap; heap_reallocate_block fuel heap ptr size 0 0.
Definition rpaligned_realloc (fuel : nat) (ptr alignment size oldsize flags : Z) : M Z :=
  heap ← get_thread_heap; heap_reallocate_block_aligned fuel heap ptr alignment size oldsize flags.
Definition rpaligned_alloc (fuel : nat) (alignment size : Z) : M Z := heap ← get_thread_heap; heap_allocate_block_aligned fuel heap alignment size false.
Definition rpaligned_zalloc (fuel : nat) (alignment size : Z) : M Z := heap ← get_thread_heap; heap_allocate_block_aligned fuel heap alignment size true.
Definition rpaligned_calloc (fuel : nat) (alignment num size : Z) : M Z :=
  heap ← get_thread_heap; heap_allocate_block_aligned fuel heap alignment (u64 (num * size)) true.
Definition rpmemalign : nat -> Z -> Z -> M Z := rpaligned_alloc.

Definition EINVAL : Z := 22.
Definition ENOMEM : Z := 12.

(** [memptr] says whether there is a variable for the block; the result is the
    status and what the variable gets. *)
Definition rpposix_memalign (fuel : nat) (memptr : bool) (alignment size : Z) : M (Z * option Z) :=
  heap ← get_thread_heap;
  if memptr then block ← heap_allocate_block_aligned fuel heap alignment size false; mret (if block =? 0 then ENOMEM else 0, Some block)
  else mret (EINVAL, None).
Definition rpmalloc_usable_size (ptr : Z) : M Z := if negb (ptr =? 0) then block_usable_size ptr else mret 0.

Definition rpmalloc_heap_acquire : M Z :=
  heap ← heap_allocate true; upd_heap heap (set_owner_thread 0);; mret heap.
Definition rpmalloc_heap_release (heap : Z) : M unit := when (negb (heap =? 0)) (heap_release heap).
Definition rpmalloc_heap_alloc (fuel : nat) (heap size : Z) : M Z := heap_allocate_block fuel heap size false.
Definition rpmalloc_heap_calloc (fuel : nat) (heap num size : Z) : M Z := heap_allocate_block fuel heap (u64 (num * size)) true.
Definition rpmalloc_heap_realloc (fuel : nat) (heap ptr size flags : Z) : M Z := heap_reallocate_block fuel heap ptr size 0 flags.
Definition rpmalloc_heap_aligned_alloc (fuel : nat) (heap alignment size : Z) : M Z := heap_allocate_block_aligned fuel heap alignment size false.
Definition rpmalloc_heap_aligned_zalloc (fuel : nat) (heap alignment size : Z) : M Z := heap_allocate_block_aligned fuel heap alignment size true.
Definition rpmalloc_heap_aligned_calloc (fuel : nat) (heap alignment num size : Z) : M Z := heap_allocate_block_aligned fuel heap alignment (u64 (num * size)) true.
Definition rpmalloc_heap_aligned_realloc (fuel : nat) (heap ptr alignment size flags : Z) : M Z :=
  heap_reallocate_block_aligned fuel heap ptr alignment size 0 flags.
Definition rpmalloc_heap_free (ptr : Z) : M unit := block_deallocate ptr.
Definition rpmalloc_heap_free_all (fuel : nat) (heap : Z) : M unit := heap_free_all fuel heap.

Definition rpmalloc_heap_thread_set_current (heap : Z) : M unit :=
  prev_heap ← get_thread_heap;
  when (negb (prev_heap =? heap)) (set_thread_heap heap;; when (negb (prev_heap =? 0)) (heap_release prev_heap)).

Definition rpmalloc_get_heap_for_ptr (ptr : Z) : M Z :=
  let span := Z.land ptr SPAN_MASK in
  if span =? 0 then mret 0 else s ← get_span span; r ← get_page (span_get_page_from_block s ptr); mret (page_heap r).
End Allocator.
End Rpmalloc.
