(* ===== verification/RpSize.v ===== *)
(** * Size classes

    Every size up to the limit gets the smallest class that holds it, and the
    classes of a page type fit its pages. *)
From S2P Require Import Prelude RpState.

Module RpSize.
Import RpState.

(** The size of a block of a class, and the number of them in a page. *)
Definition bsize (c : Z) : Z := match global_size_class !! Z.to_nat c with Some k => class_block_size k | None => 0 end.
Definition bcount (c : Z) : Z := match global_size_class !! Z.to_nat c with Some k => class_block_count k | None => 0 end.
Definition psize (t : page_type_t) : Z :=
  match t with PAGE_SMALL => 2 ^ 16 | PAGE_MEDIUM_SMALL => 2 ^ 20 | PAGE_MEDIUM_LARGE => 2 ^ 22 | _ => 2 ^ 24 end.

Definition class_ok (c : Z) : Prop := 0 <= c < SIZE_CLASS_COUNT.

Lemma class_cases (P : Z -> bool) : forallb P (seqZ 0 SIZE_CLASS_COUNT) = true -> forall c, class_ok c -> P c = true.
Proof. intros H c Hc. rewrite forallb_forall in H. apply H. apply list_elem_of_In, elem_of_seqZ. unfold class_ok in Hc. lia. Qed.

(** Blocks are aligned, at least two fit in a page, and all of them lie behind
    its header. *)
Lemma class_geometry c : class_ok c ->
  16 <= bsize c /\ bsize c mod 16 = 0 /\ 2 <= bcount c /\ PAGE_HEADER_SIZE + bsize c * bcount c <= psize (get_page_type c) /\ get_page_type c <> PAGE_HUGE /\
  is_Some (global_size_class !! Z.to_nat c).
Proof.
  intros Hc. pose proof (class_cases (fun c => (16 <=? bsize c) && (bsize c mod 16 =? 0) && (2 <=? bcount c) && (PAGE_HEADER_SIZE + bsize c * bcount c <=? psize (get_page_type c)) &&
    negb (is_huge (get_page_type c)) && match global_size_class !! Z.to_nat c with Some _ => true | None => false end) ltac:(by vm_compute) c Hc) as H.
  rewrite !andb_true_iff in H. destruct H as [[[[[H1 H2] H3] H4] H5] H6].
  destruct (global_size_class !! Z.to_nat c); [|done].
  split_and!; [lia|lia|lia|lia| |by eexists]. intros E. by rewrite E in H5.
Qed.

(** The classes above 1024 bytes: four for every power of two. *)
Lemma class_steps m k : 6 <= m <= 16 -> 0 <= k < 4 -> bsize (4 * m + k + 41) = 16 * ((5 + k) * 2 ^ (m - 2)).
Proof.
  intros Hm Hk.
  assert (forallb (fun m => forallb (fun k => bsize (4 * m + k + 41) =? 16 * ((5 + k) * 2 ^ (m - 2))) (seqZ 0 4)) (seqZ 6 11) = true) as H by (by vm_compute).
  rewrite forallb_forall in H. specialize (H m ltac:(apply list_elem_of_In, elem_of_seqZ; lia)).
  rewrite forallb_forall in H. specialize (H k ltac:(apply list_elem_of_In, elem_of_seqZ; lia)). lia.
Qed.

Lemma class_small c : 1 <= c <= 64 -> bsize c = 16 * c.
Proof.
  intros Hc. assert (forallb (fun c => bsize c =? 16 * c) (seqZ 1 64) = true) as H by (by vm_compute).
  rewrite forallb_forall in H. specialize (H c ltac:(apply list_elem_of_In, elem_of_seqZ; lia)). lia.
Qed.

(** The class is computed from the highest three bits of the number of granules. *)
Lemma size_class_bits n :
  64 <= n < 2 ^ 60 -> exists m k, 6 <= m < 60 /\ 0 <= k < 4 /\ (4 + k) * 2 ^ (m - 2) <= n < (5 + k) * 2 ^ (m - 2) /\
    (let most_significant_bit := u32 (63 - rpmalloc_clz n) in
     u32 (u32 (shl 32 most_significant_bit 2 + Z.land (Z.shiftr n (most_significant_bit - 2)) 0x03) + 41) = 4 * m + k + 41).
Proof.
  intros Hn. exists (Z.log2 n), (n / 2 ^ (Z.log2 n - 2) - 4). pose proof (Z.log2_spec n ltac:(lia)) as Hlog.
  assert (6 <= Z.log2 n < 60) as Hm by (split; [apply Z.log2_le_pow2; lia|apply Z.log2_lt_pow2; lia]).
  set (m := Z.log2 n) in *. assert (0 < 2 ^ (m - 2)) as Hp by (apply pow2_pos; lia).
  assert (2 ^ m = 4 * 2 ^ (m - 2)) as E1 by (replace m with (2 + (m - 2)) at 1 by lia; rewrite Z.pow_add_r by lia; done).
  assert (2 ^ Z.succ m = 8 * 2 ^ (m - 2)) as E2 by (replace (Z.succ m) with (3 + (m - 2)) by lia; rewrite Z.pow_add_r by lia; done).
  rewrite E1, E2 in Hlog. set (q := n / 2 ^ (m - 2)).
  assert (4 <= q < 8) as Hq by (unfold q; split; [apply Z.div_le_lower_bound; lia|apply Z.div_lt_upper_bound; lia]).
  split; [done|]. split; [lia|]. split; [pose proof (Z.mul_div_le n (2 ^ (m - 2)) Hp); pose proof (Z.mul_succ_div_gt n (2 ^ (m - 2)) Hp); fold q in H, H0; nia|].
  cbn zeta. unfold rpmalloc_clz. replace (63 - (63 - Z.log2 n)) with m by (unfold m; lia). rewrite (wrap_small 32 m) by lia.
  rewrite Z.shiftr_div_pow2 by lia. fold q. change 0x03 with (Z.ones 2). rewrite Z.land_ones by lia. change (2 ^ 2) with 4.
  unfold shl. rewrite Z.shiftl_mul_pow2 by lia. change (2 ^ 2) with 4. rewrite (wrap_small 32 (m * 4)) by lia.
  assert (q mod 4 = q - 4) as -> by (Z.div_mod_to_equations; lia). rewrite !wrap_small by (rewrite ?wrap_small; lia). lia.
Qed.

Lemma tiny_class size : 0 <= size <= 1024 -> get_size_class_tiny size = (size + 15) / 16.
Proof. intros H. unfold get_size_class_tiny, SMALL_GRANULARITY. rewrite !wrap_small; [done|lia|]. rewrite (wrap_small 32 size) by lia. lia. Qed.

(** The class of a size above 1024. *)
Lemma large_class size :
  1024 < size <= 2 ^ 64 - 16 ->
  exists m k, 6 <= m < 60 /\ 0 <= k < 4 /\ (4 + k) * 2 ^ (m - 2) <= (size + 15) / 16 - 1 < (5 + k) * 2 ^ (m - 2) /\ get_size_class size = 4 * m + k + 41.
Proof.
  intros Hs. unfold get_size_class, SMALL_GRANULARITY. rewrite (wrap_small 64 (size + (16 - 1))) by lia. cbn zeta. change (size + (16 - 1)) with (size + 15).
  set (n := (size + 15) / 16). assert (64 < n < 2 ^ 60) as Hn by (unfold n; Z.div_mod_to_equations; lia).
  destruct (Z.leb_spec size (16 * 64)) as [|_]; [lia|]. rewrite (wrap_small 64 (n - 1)) by lia.
  destruct (size_class_bits (n - 1)) as (m & k & Hm & Hk & Hrange & E); [lia|]. exists m, k. cbn zeta in E. rewrite E. done.
Qed.

(** It holds the size, or there is none. *)
Lemma large_class_fits size : 1024 < size <= 2 ^ 64 - 16 ->
  if size <=? LARGE_BLOCK_SIZE_LIMIT then class_ok (get_size_class size) /\ size <= bsize (get_size_class size) else SIZE_CLASS_COUNT <= get_size_class size.
Proof.
  intros Hs. destruct (large_class size Hs) as (m & k & Hm & Hk & Hrange & ->). assert (0 < 2 ^ (m - 2)) as Hp by (apply pow2_pos; lia).
  assert (size <= 16 * ((size + 15) / 16) < size + 16) as Hn by (Z.div_mod_to_equations; lia).
  unfold class_ok. change SIZE_CLASS_COUNT with 109. unfold LARGE_BLOCK_SIZE_LIMIT. destruct (Z.leb_spec size (2 * 1024 * 1024)) as [Hl|Hl].
  - assert (m <= 16) as Hm16 by (destruct (decide (m <= 16)); [done|]; assert (2 ^ 15 <= 2 ^ (m - 2)) by (apply Z.pow_le_mono_r; lia); change (2 ^ 15) with 32768 in *; nia).
    rewrite class_steps by lia. split; [lia|nia].
  - destruct (decide (17 <= m)); [lia|]. assert (2 ^ (m - 2) <= 2 ^ 14) by (apply Z.pow_le_mono_r; lia). change (2 ^ 14) with 16384 in *. nia.
Qed.

(** C12: size classes.  A size of at most 2 MiB gets a class of the table, its blocks hold
    the size, and the class below, when it is one of the table's sizes, does not;
    a larger size, if its distance from the end of the address space is 16 at
    least, gets no class. *)
Theorem get_size_class_fits size :
  0 <= size <= 2 ^ 64 - 16 ->
  (size <= LARGE_BLOCK_SIZE_LIMIT ->
     1 <= get_size_class size < SIZE_CLASS_COUNT /\ size <= bsize (get_size_class size) /\
     (1 < get_size_class size -> bsize (get_size_class size - 1) < size)) /\
  (LARGE_BLOCK_SIZE_LIMIT < size -> SIZE_CLASS_COUNT <= get_size_class size).
Proof.
  intros Hs. destruct (Z_le_gt_dec size 1024) as [Hsmall|Hbig].
  - unfold get_size_class, LARGE_BLOCK_SIZE_LIMIT, SMALL_GRANULARITY. rewrite (wrap_small 64 (size + (16 - 1))) by lia. cbn zeta. change SIZE_CLASS_COUNT with 109.
    set (n := (size + (16 - 1)) / 16). assert (16 * n < size + 16 /\ size <= 16 * n) as [Hn1 Hn2] by (unfold n; Z.div_mod_to_equations; lia).
    rewrite (proj2 (Z.leb_le size (16 * 64))) by lia. split; [intros _|lia]. destruct (Z.eqb_spec n 0) as [E|E].
    + assert (bsize 1 = 16) as -> by done. lia.
    + rewrite (wrap_small 32 n) by lia. rewrite class_small by lia. split; [lia|]. split; [lia|]. intros Hn. rewrite class_small by lia. lia.
  - pose proof (large_class_fits size ltac:(lia)) as Hfit. destruct (large_class size ltac:(lia)) as (m & k & Hm & Hk & Hrange & E).
    destruct (Z.leb_spec size LARGE_BLOCK_SIZE_LIMIT) as [Hl|Hl]; [|split; [lia|done]]. split; [intros _|lia]. destruct Hfit as [[_ Hc] Hb]. rewrite E in *.
    split; [lia|]. split; [done|]. intros _. clear E. change SIZE_CLASS_COUNT with 109 in Hc. assert (16 * ((size + 15) / 16) < size + 16) as Hn by (Z.div_mod_to_equations; lia).
    assert (0 < 2 ^ (m - 2)) as Hp by (apply pow2_pos; lia). destruct (decide (k = 0)) as [->|].
    + destruct (decide (m = 6)) as [->|]; [assert (bsize (4 * 6 + 0 + 41 - 1) = 1024) as -> by done; lia|].
      replace (4 * m + 0 + 41 - 1) with (4 * (m - 1) + 3 + 41) by lia. rewrite class_steps by lia.
      assert (2 ^ (m - 2) = 2 * 2 ^ (m - 1 - 2)) by (rewrite <- Z.pow_succ_r by lia; f_equal; lia). nia.
    + replace (4 * m + k + 41 - 1) with (4 * m + (k - 1) + 41) by lia. rewrite class_steps by lia. nia.
Qed.

Example get_size_class_fits_witness :
  get_size_class 5000 = 73 /\
  (5000 <= LARGE_BLOCK_SIZE_LIMIT ->
     1 <= get_size_class 5000 < SIZE_CLASS_COUNT /\ 5000 <= bsize (get_size_class 5000) /\ (1 < get_size_class 5000 -> bsize (get_size_class 5000 - 1) < 5000)) /\
  (LARGE_BLOCK_SIZE_LIMIT < 5000 -> SIZE_CLASS_COUNT <= get_size_class 5000).
Proof. split; [by vm_compute|]. apply (get_size_class_fits 5000). lia. Defined.
End RpSize.
