(* ===== verification/RpWp.v ===== *)
(** * Reasoning about the allocator

    Total correctness of the functions of the monad, the memory behind the
    blocks, and free lists: chains of blocks through their first words. *)
From stdpp Require Import functions.
From S2P Require Import Prelude RpState Rpmalloc.

Module RpWp.
Import RpState Rpmalloc.

(** ** Weakest preconditions *)

Section Wp.
Context `{HC : !Config} `{HM : !MemoryInterface}.

(** The function returns, with a result and a state as stated. *)
Definition wp {A} (m : M A) (Q : A -> state -> Prop) (s : state) : Prop := match m s with Some (a, s') => Q a s' | None => False end.

Lemma wp_mono {A} (m : M A) (Q R : A -> state -> Prop) s : wp m Q s -> (forall a s', Q a s' -> R a s') -> wp m R s.
Proof. unfold wp. destruct (m s) as [[a s']|]; [auto|done]. Qed.

Lemma wp_bind {A B} (f : A -> M B) (m : M A) Q s : wp m (fun a s' => wp (f a) Q s') s -> wp (mbind f m) Q s.
Proof. unfold wp, mbind, M_bind. destruct (m s) as [[a s']|]; [done|done]. Qed.

Lemma wp_ret {A} (a : A) (Q : A -> state -> Prop) s : Q a s -> wp (mret a) Q s.
Proof. done. Qed.

Lemma wp_gets {A} (f : state -> A) (Q : A -> state -> Prop) s : Q (f s) s -> wp (gets f) Q s.
Proof. done. Qed.

Lemma wp_modify f (Q : unit -> state -> Prop) s : Q tt (f s) -> wp (modify f) Q s.
Proof. done. Qed.

Lemma wp_get_page p r (Q : page_t -> state -> Prop) s : pages s !! p = Some r -> Q r s -> wp (get_page p) Q s.
Proof. unfold wp, get_page. by intros ->. Qed.

Lemma wp_get_span p r (Q : span_t -> state -> Prop) s : spans s !! p = Some r -> Q r s -> wp (get_span p) Q s.
Proof. unfold wp, get_span. by intros ->. Qed.

Lemma wp_get_heap p r (Q : heap_t -> state -> Prop) s : heaps s !! p = Some r -> Q r s -> wp (get_heap p) Q s.
Proof. unfold wp, get_heap. by intros ->. Qed.

Lemma wp_upd_page p f r (Q : unit -> state -> Prop) s : pages s !! p = Some r -> Q tt (set_pages (<[p := f r]> (pages s)) s) -> wp (upd_page p f) Q s.
Proof. intros H HQ. unfold upd_page. apply wp_bind. by eapply wp_get_page. Qed.

Lemma wp_upd_span p f r (Q : unit -> state -> Prop) s : spans s !! p = Some r -> Q tt (set_spans (<[p := f r]> (spans s)) s) -> wp (upd_span p f) Q s.
Proof. intros H HQ. unfold upd_span. apply wp_bind. by eapply wp_get_span. Qed.

Lemma wp_upd_heap p f r (Q : unit -> state -> Prop) s : heaps s !! p = Some r -> Q tt (set_heaps (<[p := f r]> (heaps s)) s) -> wp (upd_heap p f) Q s.
Proof. intros H HQ. unfold upd_heap. apply wp_bind. by eapply wp_get_heap. Qed.

Lemma wp_load a (Q : Z -> state -> Prop) s : a <> 0 -> Q (le_uint (read (mem s) a 8)) s -> wp (load a) Q s.
Proof. intros H HQ. unfold load. by rewrite (proj2 (Z.eqb_neq a 0)). Qed.

Lemma wp_store a v (Q : unit -> state -> Prop) s : a <> 0 -> Q tt (set_mem (write (mem s) a (le_bytes 8 v)) s) -> wp (store a v) Q s.
Proof. intros H HQ. unfold store. by rewrite (proj2 (Z.eqb_neq a 0)). Qed.

Lemma wp_when b m (Q : unit -> state -> Prop) s : (b = true -> wp m Q s) -> (b = false -> Q tt s) -> wp (when b m) Q s.
Proof. unfold when. intros H1 H2. destruct b; [by apply H1|by apply H2]. Qed.
End Wp.

(** The next operation of a function; lookups come from the context. *)
Ltac wp_simpl :=
  cbn [heaps pages spans mem kernel thread_heaps global_heap_queue global_heap_pristine global_heap_used global_heap_creating global_heap_id huge_slots huge_committed
       set_heaps set_pages set_spans set_mem set_kernel set_thread_heaps set_global_heap_queue set_global_heap_pristine set_global_heap_used set_global_heap_creating
       set_global_heap_id set_huge_slots set_huge_committed].

Ltac wp_step :=
  lazymatch goal with
  | |- wp (mbind _ _) _ _ => apply wp_bind
  | |- wp (mret _) _ _ => apply wp_ret
  | |- wp (gets _) _ _ => apply wp_gets
  | |- wp (modify _) _ _ => apply wp_modify
  | |- wp (memset _ _ _) _ _ => apply wp_modify
  | |- wp (memmove _ _ _) _ _ => apply wp_modify
  | |- wp (put_page _ _) _ _ => apply wp_modify
  | |- wp (put_span _ _) _ _ => apply wp_modify
  | |- wp (put_heap _ _) _ _ => apply wp_modify
  | |- wp (get_page _) _ _ => eapply wp_get_page; [wp_simpl; eassumption|]
  | |- wp (get_span _) _ _ => eapply wp_get_span; [wp_simpl; eassumption|]
  | |- wp (get_heap _) _ _ => eapply wp_get_heap; [wp_simpl; eassumption|]
  | |- wp (upd_page _ _) _ _ => eapply wp_upd_page; [wp_simpl; eassumption|]
  | |- wp (upd_span _ _) _ _ => eapply wp_upd_span; [wp_simpl; eassumption|]
  | |- wp (upd_heap _ _) _ _ => eapply wp_upd_heap; [wp_simpl; eassumption|]
  end; cbv beta; wp_simpl.

(** ** Memory *)

Lemma length_read m a n : 0 <= n -> length (read m a n) = Z.to_nat n.
Proof. intros H. unfold read. by rewrite length_map, length_seqZ. Qed.

Lemma read_ext m m' a n : (forall x, a <= x < a + n -> m' x = m x) -> read m' a n = read m a n.
Proof. intros H. unfold read. apply map_ext_in. intros x Hx%list_elem_of_In%elem_of_seqZ. apply H. lia. Qed.

Lemma write_other m a bs x : x < a \/ a + Z.of_nat (length bs) <= x -> write m a bs x = m x.
Proof. intros H. unfold write. destruct (Z.leb_spec a x), (Z.ltb_spec x (a + Z.of_nat (length bs))); simpl; try done; lia. Qed.

Lemma write_in m a bs x : a <= x < a + Z.of_nat (length bs) -> write m a bs x = nth (Z.to_nat (x - a)) bs 0.
Proof. intros H. unfold write. by rewrite (proj2 (Z.leb_le a x)), (proj2 (Z.ltb_lt x _)) by lia. Qed.

Lemma fill_other m a n v x : x < a \/ a + n <= x -> fill m a n v x = m x.
Proof. intros H. unfold fill. destruct (Z.leb_spec a x), (Z.ltb_spec x (a + n)); simpl; try done; lia. Qed.

Lemma fill_in m a n v x : a <= x < a + n -> fill m a n v x = v.
Proof. intros H. unfold fill. by rewrite (proj2 (Z.leb_le a x)), (proj2 (Z.ltb_lt x _)) by lia. Qed.

Lemma read_write m a bs : read (write m a bs) a (Z.of_nat (length bs)) = bs.
Proof.
  apply list_eq. intros i. unfold read. rewrite list_lookup_fmap. destruct (decide (i < length bs)%nat) as [Hi|Hi].
  - rewrite lookup_seqZ_lt by lia. simpl. rewrite write_in by lia. replace (Z.to_nat (a + Z.of_nat i - a)) with i by lia.
    destruct (lookup_lt_is_Some_2 bs i Hi) as [b Hb]. rewrite Hb. f_equal. by apply nth_lookup_Some.
  - rewrite lookup_seqZ_ge by lia. symmetry. apply lookup_ge_None. lia.
Qed.

(** The word at an address. *)
Definition word (m : Z -> Z) (a : Z) : Z := le_uint (read m a 8).

Lemma word_write m a v : 0 <= v < 2 ^ 64 -> word (write m a (le_bytes 8 v)) a = v.
Proof. intros H. unfold word. pose proof (read_write m a (le_bytes 8 v)) as E. rewrite length_le_bytes in E. change (Z.of_nat 8) with 8 in E. rewrite E. by apply le_uint_bytes. Qed.

Lemma word_ext m m' a : (forall x, a <= x < a + 8 -> m' x = m x) -> word m' a = word m a.
Proof. intros H. unfold word. by rewrite (read_ext m m'). Qed.

(** ** Free lists *)

(** Where a block is: with the program, in the list of a page, in its list for other threads, in the list of a heap for a
    size class, or in a list for other threads of a heap. *)
Inductive status := Live | PageFree (page : Z) | PageThread (page : Z) | HeapFree (heap class : Z) | HeapThread (heap : Z) (t : page_type_t).

#[export] Instance status_eq_dec : EqDecision status.
Proof. solve_decision. Defined.

Fixpoint chain (m : Z -> Z) (head : Z) (l : list Z) : Prop :=
  match l with [] => head = 0 | b :: l => head = b /\ 0 < b < 2 ^ 64 /\ chain m (word m b) l end.

(** A list of the blocks of a status, of [n] blocks. *)
Definition listing (m : Z -> Z) (st : gmap Z status) (head : Z) (x : status) (n : Z) : Prop :=
  exists l, chain m head l /\ NoDup l /\ (forall b, b ∈ l <-> st !! b = Some x) /\ Z.of_nat (length l) = n.

Lemma chain_ext m m' head l : (forall b x, b ∈ l -> b <= x < b + 8 -> m' x = m x) -> chain m head l -> chain m' head l.
Proof.
  revert head. induction l as [|b l IH]; intros head Hm H; [done|]. destruct H as (-> & Hb & H). split_and!; [done|lia|lia|].
  rewrite (word_ext m m') by (intros x Hx; apply (Hm b); [left|done]). apply IH; [|done]. intros b' x Hb' Hx. apply (Hm b' x); [by right|done].
Qed.

(** A change of memory and of other statuses keeps a list. *)
Lemma listing_frame m m' st st' head x n :
  (forall b y, st !! b = Some x -> b <= y < b + 8 -> m' y = m y) -> (forall b, st' !! b = Some x <-> st !! b = Some x) ->
  listing m st head x n -> listing m' st' head x n.
Proof.
  intros Hm Hst (l & Hc & Hn & Hl & Hlen). exists l. split_and!; [|done| |done].
  - eapply chain_ext; [|exact Hc]. intros b y Hb Hy. apply (Hm b); [by apply Hl|done].
  - intros b. rewrite Hst. apply Hl.
Qed.

Lemma listing_head m st head x n : listing m st head x n -> head = 0 /\ n = 0 \/ 0 < head < 2 ^ 64 /\ st !! head = Some x /\ 1 <= n.
Proof.
  intros (l & Hc & Hn & Hl & Hlen). destruct l as [|b l]; [left; by rewrite <- Hlen|right].
  destruct Hc as (-> & Hb & _). split; [done|]. split; [apply Hl; left|]. simpl in Hlen. lia.
Qed.

Lemma listing_nonneg m st head x n : listing m st head x n -> 0 <= n.
Proof. intros H. destruct (listing_head _ _ _ _ _ H); lia. Qed.

Lemma listing_empty m st head x : listing m st head x 0 <-> head = 0 /\ forall b, st !! b <> Some x.
Proof.
  split.
  - intros (l & Hc & _ & Hl & Hlen). destruct l; [|simpl in Hlen; lia]. split; [done|]. intros b Hb. apply Hl in Hb. by apply not_elem_of_nil in Hb.
  - intros [-> H]. exists []. split_and!; [done|apply NoDup_nil_2| |done]. intros b. split; [intros Hb; by apply not_elem_of_nil in Hb|intros Hb; by apply H in Hb].
Qed.

Lemma listing_pop m st head x n y :
  listing m st head x n -> head <> 0 -> y <> x -> listing m (<[head := y]> st) (word m head) x (n - 1).
Proof.
  intros (l & Hc & Hn & Hl & Hlen) Hh Hy. destruct l as [|b l]; [done|]. destruct Hc as (-> & Hb & Hc). apply NoDup_cons in Hn as [Hni Hn].
  exists l. split_and!; [done|done| |simpl in Hlen; lia]. intros b'. destruct (decide (b' = b)) as [->|Hne].
  - rewrite lookup_insert_eq. split; [done|]. intros [= E]. by destruct Hy.
  - rewrite lookup_insert_ne by done. rewrite <- Hl. split; [by right|]. intros [->|?]%elem_of_cons; done.
Qed.

Lemma listing_push m st head x n b :
  listing m st head x n -> 0 < b < 2 ^ 64 -> st !! b <> Some x -> (forall b', st !! b' = Some x -> b' + 8 <= b \/ b + 8 <= b') ->
  listing (write m b (le_bytes 8 head)) (<[b := x]> st) b x (n + 1).
Proof.
  intros HL Hb Hx Hap. assert (0 <= head < 2 ^ 64) as Hh by (destruct (listing_head _ _ _ _ _ HL); lia).
  destruct HL as (l & Hc & Hn & Hl & Hlen). assert (b ∉ l) as Hni by (by rewrite Hl).
  exists (b :: l). split_and!; [|by apply NoDup_cons| |simpl; lia].
  - split_and!; [done|lia|lia|]. rewrite word_write by done. eapply chain_ext; [|exact Hc]. intros b' y Hb' Hy.
    apply Hl in Hb'. specialize (Hap b' Hb'). apply write_other. rewrite length_le_bytes. lia.
  - intros b'. rewrite elem_of_cons, Hl. destruct (decide (b' = b)) as [->|Hne]; [rewrite lookup_insert_eq; split; [done|by left]|].
    rewrite lookup_insert_ne by done. split; [by intros [?|?]|by right].
Qed.

(** All blocks of a status get another one that nobody has. *)
Definition rename (x y : status) (st : gmap Z status) : gmap Z status := (fun z => if decide (z = x) then y else z) <$> st.

Lemma lookup_rename x y st b : rename x y st !! b = (fun z => if decide (z = x) then y else z) <$> st !! b.
Proof. apply lookup_fmap. Qed.

Lemma rename_target x y st b : (forall b, st !! b <> Some y) -> rename x y st !! b = Some y <-> st !! b = Some x.
Proof.
  intros H. rewrite lookup_rename. destruct (st !! b) as [z|] eqn:E; [|done]. simpl. case_decide as Hz; [by subst|].
  split; intros [= ->]; [by destruct (H b)|done].
Qed.

Lemma rename_other x y z st b : z <> x -> z <> y -> rename x y st !! b = Some z <-> st !! b = Some z.
Proof.
  intros H1 H2. rewrite lookup_rename. destruct (st !! b) as [w|]; [|done]. simpl. case_decide; [|done]. subst. split; intros [= E]; by subst.
Qed.

Lemma rename_source x y st b : x <> y -> rename x y st !! b <> Some x.
Proof. intros H. rewrite lookup_rename. destruct (st !! b) as [w|]; [|done]. simpl. case_decide; intros [= E]; by subst. Qed.

Lemma rename_is_Some x y st b : is_Some (rename x y st !! b) <-> is_Some (st !! b).
Proof. rewrite lookup_rename. apply fmap_is_Some. Qed.

Lemma listing_rename m st head x y n : listing m st head x n -> (forall b, st !! b <> Some y) -> listing m (rename x y st) head y n.
Proof.
  intros (l & Hc & Hn & Hl & Hlen) H. exists l. split_and!; [done|done| |done]. intros b. by rewrite rename_target, Hl.
Qed.
End RpWp.
