(* ===== verification/RpBlocks.v ===== *)
(** * The blocks of the pages

    Every block that has been initialised is in one place: with the program, or
    in one free list.  Here: that invariant, for the headers of the pages, the
    lists of the heaps and the memory, and how it is kept when one page changes. *)
From stdpp Require Import functions.
From S2P Require Import Prelude RpState Rpmalloc RpSize RpWp.

Module RpBlocks.
Import RpState Rpmalloc RpSize RpWp.

(** ** Pages and their blocks *)

Definition in_use (r : page_t) : Prop := is_free r = false /\ page_type r <> PAGE_HUGE.

Definition block (p : Z) (r : page_t) (i : Z) : Z := p + PAGE_HEADER_SIZE + block_size r * i.
Definition member (p : Z) (r : page_t) (b : Z) : Prop := exists i, 0 <= i < block_initialized r /\ b = block p r i.

(** A page of a size class.  A page that is full or has aligned blocks is freed to
    by the general path. *)
Record page_ok (r : page_t) : Prop := {
  ok_class : class_ok (size_class r);
  ok_type : page_type r = get_page_type (size_class r);
  ok_size : block_size r = bsize (size_class r);
  ok_count : block_count r = bcount (size_class r);
  ok_initialized : 0 <= block_initialized r <= block_count r;
  ok_used : 0 <= block_used r;
  ok_local : block_used r + local_free_count r = block_initialized r;
  ok_generic : generic_free r = false -> is_full r = false /\ has_aligned_block r = false }.

(** The status of a block agrees with the page it lies in. *)
Definition located (x : status) (p : Z) (r : page_t) : Prop :=
  match x with
  | Live => True
  | PageFree q | PageThread q => q = p
  | HeapFree h c => h = page_heap r /\ c = size_class r
  | HeapThread h t => h = page_heap r /\ t = page_type r
  end.

(** The list for other threads of a page, as the word packs it. *)
Definition thread_list (m : Z -> Z) (st : gmap Z status) (p : Z) (r : page_t) : Prop :=
  exists head n, page_block_from_thread_free_list p r (page_thread_free r) = (head, n) /\ (page_thread_free r = 0 <-> n = 0) /\ listing m st head (PageThread p) n.

Definition lists : Type := (Z -> Z) * (page_type_t -> Z).

(** The lists of a heap. *)
Definition heap_lists (m : Z -> Z) (st : gmap Z status) (hp : Z) (v : lists) : Prop :=
  (forall c, exists n, listing m st (v.1 c) (HeapFree hp c) n) /\ (forall t, exists n, listing m st (v.2 t) (HeapThread hp t) n).

Definition zero_behind (m : Z -> Z) (p : Z) (r : page_t) : Prop :=
  is_zero r = true -> forall x, block p r (block_initialized r) <= x < block p r (block_count r) -> m x = 0.

Record blocks_ok (P : gmap Z page_t) (H : gmap Z lists) (m : Z -> Z) (st : gmap Z status) : Prop := {
  bk_page p r : P !! p = Some r -> in_use r -> page_ok r;
  bk_address p r : P !! p = Some r -> page_type r <> PAGE_HUGE -> 0 < p /\ p mod 2 ^ 16 = 0 /\ p + psize (page_type r) < 2 ^ 64;
  bk_apart p r q s : P !! p = Some r -> P !! q = Some s -> page_type r <> PAGE_HUGE -> page_type s <> PAGE_HUGE -> p <> q ->
    p + psize (page_type r) <= q \/ q + psize (page_type s) <= p;
  bk_heap p r : P !! p = Some r -> page_type r <> PAGE_HUGE -> is_Some (H !! page_heap r);
  bk_located b x : st !! b = Some x -> exists p r, P !! p = Some r /\ in_use r /\ member p r b /\ located x p r;
  bk_member p r b : P !! p = Some r -> in_use r -> member p r b -> is_Some (st !! b);
  bk_local p r : P !! p = Some r -> in_use r -> listing m st (local_free r) (PageFree p) (local_free_count r);
  bk_thread p r : P !! p = Some r -> in_use r -> thread_list m st p r;
  bk_lists hp v : H !! hp = Some v -> heap_lists m st hp v;
  bk_zero p r : P !! p = Some r -> in_use r -> zero_behind m p r }.

(** ** Geometry *)

Lemma psize_pos t : 2 ^ 16 <= psize t.
Proof. by destruct t. Qed.

Lemma member_bounds p r b : page_ok r -> member p r b -> p + PAGE_HEADER_SIZE <= b /\ b + block_size r <= p + psize (page_type r) /\ 16 <= block_size r.
Proof.
  intros Hok (i & Hi & ->). destruct (class_geometry _ (ok_class _ Hok)) as (H1 & _ & _ & H2 & _). rewrite (ok_type _ Hok), (ok_size _ Hok). unfold block.
  rewrite (ok_size _ Hok). pose proof (ok_initialized _ Hok). pose proof (ok_count _ Hok). nia.
Qed.

Lemma member_aligned p r b : page_ok r -> p mod 2 ^ 16 = 0 -> member p r b -> b mod 16 = 0.
Proof.
  intros Hok Hp (i & Hi & ->). destruct (class_geometry _ (ok_class _ Hok)) as (_ & H & _). unfold block, PAGE_HEADER_SIZE. rewrite (ok_size _ Hok).
  apply Z.mod_divide in Hp as [k ->]; [|done]. apply Z.mod_divide in H as [j Hj]; [|done]. rewrite Hj. apply Z.mod_divide; [done|].
  exists (k * 4096 + 8 + j * i). change (2 ^ 16) with 65536. ring.
Qed.

Lemma block_inj p r i j : page_ok r -> block p r i = block p r j -> i = j.
Proof. intros Hok E. destruct (class_geometry _ (ok_class _ Hok)) as (H1 & _). unfold block in E. rewrite (ok_size _ Hok) in E. nia. Qed.

Section Invariant.
Context {P : gmap Z page_t} {H : gmap Z lists} {m : Z -> Z} {st : gmap Z status} (B : blocks_ok P H m st).

Lemma live_page b x : st !! b = Some x -> exists p r, P !! p = Some r /\ in_use r /\ page_ok r /\ member p r b /\ located x p r.
Proof. intros Hb. destruct (bk_located _ _ _ _ B b x Hb) as (p & r & Hp & Hu & Hm & Hl). exists p, r. pose proof (bk_page _ _ _ _ B p r Hp Hu). done. Qed.

(** Two blocks are apart, and a block lies in one page. *)
Lemma members_apart p r b q s c :
  P !! p = Some r -> in_use r -> member p r b -> P !! q = Some s -> in_use s -> member q s c -> b <> c -> b + block_size r <= c \/ c + block_size s <= b.
Proof.
  intros Hp Hu Hb Hq Hv Hc Hne. pose proof (bk_page _ _ _ _ B p r Hp Hu) as Ok1. pose proof (bk_page _ _ _ _ B q s Hq Hv) as Ok2.
  destruct (member_bounds p r b Ok1 Hb) as (B1 & B2 & _). destruct (member_bounds q s c Ok2 Hc) as (C1 & C2 & _). unfold PAGE_HEADER_SIZE in *.
  destruct (decide (p = q)) as [<-|Hpq].
  - assert (r = s) as <- by congruence. destruct Hb as (i & Hi & ->), Hc as (j & Hj & ->). destruct (class_geometry _ (ok_class _ Ok1)) as (H1 & _).
    unfold block. rewrite (ok_size _ Ok1). assert (i <> j) by (by intros ->). destruct (decide (i < j)); [left|right]; nia.
  - destruct (bk_apart _ _ _ _ B p r q s Hp Hq (proj2 Hu) (proj2 Hv) Hpq); lia.
Qed.

Lemma member_one_page p r q s b : P !! p = Some r -> in_use r -> member p r b -> P !! q = Some s -> in_use s -> member q s b -> p = q.
Proof.
  intros Hp Hu Hb Hq Hv Hc. destruct (decide (p = q)) as [|Hpq]; [done|].
  pose proof (bk_page _ _ _ _ B p r Hp Hu) as Ok1. pose proof (bk_page _ _ _ _ B q s Hq Hv) as Ok2.
  destruct (member_bounds p r b Ok1 Hb) as (B1 & B2 & B3). destruct (member_bounds q s b Ok2 Hc) as (C1 & C2 & C3). unfold PAGE_HEADER_SIZE in *.
  destruct (bk_apart _ _ _ _ B p r q s Hp Hq (proj2 Hu) (proj2 Hv) Hpq); lia.
Qed.

Lemma block_range b x : st !! b = Some x -> 0 < b < 2 ^ 64 /\ b mod 16 = 0.
Proof.
  intros Hb. destruct (live_page b x Hb) as (p & r & Hp & Hu & Hok & Hm & _). destruct (bk_address _ _ _ _ B p r Hp (proj2 Hu)) as (H1 & H2 & H3).
  destruct (member_bounds p r b Hok Hm) as (H4 & H5 & H6). unfold PAGE_HEADER_SIZE in *. split; [lia|by eapply member_aligned].
Qed.

(** The words of two blocks are apart. *)
Lemma words_apart b c x y : st !! b = Some x -> st !! c = Some y -> b <> c -> b + 8 <= c \/ c + 8 <= b.
Proof.
  intros Hb Hc Hne. destruct (block_range b x Hb) as [_ H1]. destruct (block_range c y Hc) as [_ H2].
  apply Z.mod_divide in H1 as [i ->]; [|done]. apply Z.mod_divide in H2 as [j ->]; [|done]. assert (i <> j) by (by intros ->). lia.
Qed.

(** The word of a block in the area of its page. *)
Lemma word_in_page b x p r y : st !! b = Some x -> P !! p = Some r -> in_use r -> member p r b -> b <= y < b + 8 -> p <= y < p + psize (page_type r).
Proof.
  intros Hb Hp Hu Hm Hy. pose proof (bk_page _ _ _ _ B p r Hp Hu) as Hok. destruct (member_bounds p r b Hok Hm) as (H4 & H5 & H6). unfold PAGE_HEADER_SIZE in *. lia.
Qed.

(** A block outside a page keeps its word when the memory of the page changes. *)
Lemma other_page_word b x p r m' :
  st !! b = Some x -> P !! p = Some r -> in_use r -> ~ member p r b -> (forall y, ~ p <= y < p + psize (page_type r) -> m' y = m y) -> forall y, b <= y < b + 8 -> m' y = m y.
Proof.
  intros Hb Hp Hu Hn Hm y Hy. apply Hm. destruct (live_page b x Hb) as (q & s & Hq & Hv & _ & Hmem & _).
  pose proof (word_in_page b x q s y Hb Hq Hv Hmem Hy). assert (p <> q) as Hpq by (intros ->; apply Hn; by simplify_eq).
  destruct (bk_apart _ _ _ _ B p r q s Hp Hq (proj2 Hu) (proj2 Hv) Hpq); lia.
Qed.

(** ** Counting the blocks of a page *)

Lemma members_list p r : page_ok r -> exists l, NoDup l /\ Z.of_nat (length l) = block_initialized r /\ forall b, b ∈ l <-> member p r b.
Proof.
  intros Hok. exists (block p r <$> seqZ 0 (block_initialized r)). pose proof (ok_initialized _ Hok). split_and!.
  - apply NoDup_fmap_2_strong; [|apply NoDup_seqZ]. intros i j _ _ E. by eapply block_inj.
  - rewrite length_fmap, length_seqZ. lia.
  - intros b. rewrite list_elem_of_fmap. split; [intros (i & -> & Hi%elem_of_seqZ); exists i; split; [lia|done]|intros (i & Hi & ->); exists i; split; [done|apply elem_of_seqZ; lia]].
Qed.

(** A list of blocks of a page is not longer than the page, and shorter when a
    block is missing. *)
Lemma listing_bound p r head x n :
  P !! p = Some r -> in_use r -> listing m st head x n -> (forall b, st !! b = Some x -> member p r b) ->
  n <= block_initialized r /\ (forall b y, st !! b = Some y -> y <> x -> member p r b -> n + 1 <= block_initialized r) /\
  (n = block_initialized r -> forall b, member p r b -> st !! b = Some x).
Proof.
  intros Hp Hu (l & _ & Hn & Hl & <-) Hin. destruct (members_list p r (bk_page _ _ _ _ B p r Hp Hu)) as (k & Hk & <- & Hkm).
  assert (l ⊆ k) as Hsub by (intros b Hb; apply Hkm, Hin, Hl, Hb). pose proof (NoDup_submseteq l k Hn Hsub) as Hs.
  split; [apply submseteq_length in Hs; lia|]. split.
  - intros b y Hb Hy Hm. assert (NoDup (b :: l)) as Hn2 by (apply NoDup_cons; split; [rewrite Hl; congruence|done]).
    assert (b :: l ⊆ k) as Hsub2 by (intros c [->|Hc]%elem_of_cons; [by apply Hkm|by apply Hsub]).
    pose proof (submseteq_length _ _ (NoDup_submseteq _ _ Hn2 Hsub2)) as Hle. simpl in Hle. lia.
  - intros E b Hb. apply Hl. apply Hkm in Hb. assert (l ≡ₚ k) as -> by (apply submseteq_length_Permutation; [done|lia]). done.
Qed.

Lemma page_free_members p r b x : P !! p = Some r -> in_use r -> (x = PageFree p \/ x = PageThread p) -> st !! b = Some x -> member p r b.
Proof.
  intros Hp Hu Hx Hb. destruct (bk_located _ _ _ _ B b x Hb) as (q & s & Hq & Hv & Hm & Hl). assert (p = q) as <- by (by destruct Hx as [-> | ->]). by simplify_eq.
Qed.

(** A block that is not in the list of its page counts as used. *)
Lemma used_pos p r b x : P !! p = Some r -> in_use r -> st !! b = Some x -> x <> PageFree p -> member p r b -> 1 <= block_used r.
Proof.
  intros Hp Hu Hb Hx Hm. destruct (listing_bound p r _ _ _ Hp Hu (bk_local _ _ _ _ B p r Hp Hu)) as (_ & H2 & _).
  { intros c Hc. eapply page_free_members; [done..|by left|done]. }
  specialize (H2 b x Hb Hx Hm). pose proof (ok_local _ (bk_page _ _ _ _ B p r Hp Hu)). lia.
Qed.
End Invariant.
(** ** One page changes *)

(** The page stays where it is, and may have more blocks. *)
Record same_place (r r' : page_t) : Prop := {
  sp_heap : page_heap r' = page_heap r;
  sp_class : size_class r' = size_class r;
  sp_type : page_type r' = page_type r;
  sp_size : block_size r' = block_size r;
  sp_initialized : block_initialized r <= block_initialized r' }.

Lemma located_same x p r r' : same_place r r' -> located x p r' <-> located x p r.
Proof. intros [E1 E2 E3 E4 E5]. unfold located. destruct x; rewrite ?E1, ?E2, ?E3; done. Qed.

Lemma member_same p r r' b : same_place r r' -> member p r b -> member p r' b.
Proof. intros E (i & Hi & ->). exists i. unfold block. rewrite (sp_size _ _ E). pose proof (sp_initialized _ _ E). split; [lia|done]. Qed.

Section Update.
Context {P : gmap Z page_t} {H : gmap Z lists} {m : Z -> Z} {st : gmap Z status} (B : blocks_ok P H m st).
Context (p : Z) (r r' : page_t) (Hp : P !! p = Some r) (Hu : in_use r) (Hs : same_place r r') (Hu' : in_use r') (Hok : page_ok r').
Context (m' : Z -> Z) (st' : gmap Z status).
Context (Hm : forall x, ~ p <= x < p + psize (page_type r) -> m' x = m x) (Hst : forall b, ~ member p r' b -> st' !! b = st !! b).
Context (Hloc : forall b, member p r' b -> exists x, st' !! b = Some x /\ located x p r').

Lemma update_bounds b : member p r' b -> p <= b /\ b + 16 <= p + psize (page_type r).
Proof using Hs Hok. intros Hb. destruct (member_bounds p r' b Hok Hb) as (H1 & H2 & H3). rewrite (sp_type _ _ Hs) in H2. unfold PAGE_HEADER_SIZE in *. lia. Qed.

(** A list of another page or heap does not see the change. *)
Lemma update_foreign x head n : ~ located x p r -> listing m st head x n -> listing m' st' head x n.
Proof using B Hp Hu Hs Hok Hm Hst Hloc.
  intros Hx. apply listing_frame.
  - intros b y Hb. eapply (other_page_word B); [done..| |exact Hm]. intros Hmem. destruct (bk_located _ _ _ _ B b x Hb) as (q & s & Hq & Hv & Hms & Hl).
    apply Hx. assert (p = q) as <- by (by eapply (member_one_page B p r q s b)). by simplify_eq.
  - intros b. destruct (decide (st' !! b = st !! b)) as [->|Hne]; [done|].
    assert (~ ~ member p r' b) as Hnn by (intros Hn; by apply Hne, Hst). split; intros E.
    + exfalso. apply Hnn. intros Hb. destruct (Hloc b Hb) as (y & Hy & Hl). apply Hx. simplify_eq. by rewrite located_same in Hl.
    + exfalso. apply Hnn. intros Hb. destruct (bk_located _ _ _ _ B b x E) as (q & s & Hq & Hv & Hms & Hl).
      pose proof (update_bounds b Hb). pose proof (bk_page _ _ _ _ B q s Hq Hv) as Hokq. destruct (member_bounds q s b Hokq Hms) as (H1 & H2 & H3). unfold PAGE_HEADER_SIZE in *.
      destruct (decide (p = q)) as [<-|Hpq]; [simplify_eq; done|].
      destruct (bk_apart _ _ _ _ B p r q s Hp Hq (proj2 Hu) (proj2 Hv) Hpq); lia.
Qed.

Lemma update_other_page q s b : P !! q = Some s -> in_use s -> q <> p -> member q s b -> ~ member p r' b.
Proof using B Hp Hu Hs Hok.
  intros Hq Hv Hpq Hb Hb'. pose proof (update_bounds b Hb'). destruct (member_bounds q s b (bk_page _ _ _ _ B q s Hq Hv) Hb) as (H1 & H2 & H3). unfold PAGE_HEADER_SIZE in *.
  destruct (bk_apart _ _ _ _ B p r q s Hp Hq (proj2 Hu) (proj2 Hv) ltac:(done)); lia.
Qed.

Lemma blocks_update (H' : gmap Z lists) (v v' : lists) :
  H !! page_heap r = Some v -> H' !! page_heap r = Some v' -> (forall h, h <> page_heap r -> H' !! h = H !! h) ->
  (forall c, c <> size_class r -> v'.1 c = v.1 c) -> (forall t, t <> page_type r -> v'.2 t = v.2 t) ->
  (exists n, listing m' st' (v'.1 (size_class r)) (HeapFree (page_heap r) (size_class r)) n) ->
  (exists n, listing m' st' (v'.2 (page_type r)) (HeapThread (page_heap r) (page_type r)) n) ->
  listing m' st' (local_free r') (PageFree p) (local_free_count r') -> thread_list m' st' p r' -> zero_behind m' p r' ->
  blocks_ok (<[p := r']> P) H' m' st'.
Proof using B Hp Hu Hs Hu' Hok Hm Hst Hloc.
  intros HH HH' Ho Hc Ht Hlc Hlt Hl Hth Hz. pose proof (sp_type _ _ Hs) as Et.
  constructor.
  - intros q s [[<- <-]|[Hne Hq]]%lookup_insert_Some; [done|by eapply bk_page].
  - intros q s [[<- <-]|[Hne Hq]]%lookup_insert_Some; [rewrite Et; by apply (bk_address _ _ _ _ B p r)|by eapply bk_address].
  - intros q s q' s' [[<- <-]|[Hne Hq]]%lookup_insert_Some [[<- <-]|[Hne' Hq']]%lookup_insert_Some; rewrite ?Et; [done|by apply (bk_apart _ _ _ _ B p r)|by intros ? ? ?; apply (bk_apart _ _ _ _ B q s p r)|by apply (bk_apart _ _ _ _ B q s)].
  - intros q s [[<- <-]|[Hne Hq]]%lookup_insert_Some Hh; [rewrite (sp_heap _ _ Hs); by eexists|].
    destruct (decide (page_heap s = page_heap r)) as [->|Hnh]; [by eexists|rewrite Ho by done; by eapply bk_heap].
  - intros b x Hb. destruct (decide (st' !! b = st !! b)) as [E|E].
    + rewrite E in Hb. destruct (bk_located _ _ _ _ B b x Hb) as (q & s & Hq & Hv & Hms & Hls). destruct (decide (q = p)) as [->|Hne].
      * simplify_eq. exists p, r'. rewrite lookup_insert_eq. split_and!; [done|done|by eapply member_same|by rewrite located_same].
      * exists q, s. by rewrite lookup_insert_ne.
    + exists p, r'. rewrite lookup_insert_eq. assert (~ ~ member p r' b) as Hnn by (intros Hn; by apply E, Hst).
      assert (member p r' b) as Hmb.
      { destruct (decide (0 <= b - p - PAGE_HEADER_SIZE /\ (b - p - PAGE_HEADER_SIZE) mod block_size r' = 0 /\ (b - p - PAGE_HEADER_SIZE) / block_size r' < block_initialized r')) as [(D1 & D2 & D3)|D].
        - exists ((b - p - PAGE_HEADER_SIZE) / block_size r'). pose proof (class_geometry _ (ok_class _ Hok)) as (G & _). rewrite <- (ok_size _ Hok) in G.
          split; [split; [apply Z.div_pos; lia|done]|]. unfold block. pose proof (Z.div_mod (b - p - PAGE_HEADER_SIZE) (block_size r') ltac:(lia)). lia.
        - exfalso. apply Hnn. intros (i & Hi & ->). apply D. unfold block. pose proof (class_geometry _ (ok_class _ Hok)) as (G & _). rewrite <- (ok_size _ Hok) in G.
          replace (p + PAGE_HEADER_SIZE + block_size r' * i - p - PAGE_HEADER_SIZE) with (i * block_size r') by ring. rewrite Z.mod_mul, Z.div_mul by lia. nia. }
      destruct (Hloc b Hmb) as (y & Hy & Hly). simplify_eq. done.
  - intros q s b [[<- <-]|[Hne Hq]]%lookup_insert_Some Hv Hmem; [destruct (Hloc b Hmem) as (x & Hx & _); by eexists|].
    rewrite Hst by (by apply (update_other_page q s)). by eapply bk_member.
  - intros q s [[<- <-]|[Hne Hq]]%lookup_insert_Some Hv; [done|]. apply update_foreign; [simpl; congruence|by eapply bk_local].
  - intros q s [[<- <-]|[Hne Hq]]%lookup_insert_Some Hv; [done|]. destruct (bk_thread _ _ _ _ B q s Hq Hv) as (head & n & E1 & E2 & E3).
    exists head, n. split_and!; [done|done|]. apply update_foreign; [simpl; congruence|done].
  - intros h w Hw. destruct (decide (h = page_heap r)) as [->|Hne].
    + assert (w = v') as -> by congruence. destruct (bk_lists _ _ _ _ B _ v HH) as [L1 L2]. split.
      * intros c. destruct (decide (c = size_class r)) as [->|Hcne]; [done|]. rewrite Hc by done. destruct (L1 c) as [n Hn]. exists n. apply update_foreign; [by intros [_ ?]|done].
      * intros t. destruct (decide (t = page_type r)) as [->|Htne]; [done|]. rewrite Ht by done. destruct (L2 t) as [n Hn]. exists n. apply update_foreign; [by intros [_ ?]|done].
    + rewrite Ho in Hw by done. destruct (bk_lists _ _ _ _ B h w Hw) as [L1 L2]. split.
      * intros c. destruct (L1 c) as [n Hn]. exists n. apply update_foreign; [by intros [? _]|done].
      * intros t. destruct (L2 t) as [n Hn]. exists n. apply update_foreign; [by intros [? _]|done].
  - intros q s [[<- <-]|[Hne Hq]]%lookup_insert_Some Hv; [done|]. intros Hz' x Hx. rewrite Hm; [by apply (bk_zero _ _ _ _ B q s Hq Hv Hz')|].
    intros Hin. pose proof (bk_page _ _ _ _ B q s Hq Hv) as Hokq. destruct (class_geometry _ (ok_class _ Hokq)) as (G1 & _ & _ & G2 & _).
    pose proof (ok_initialized _ Hokq). rewrite <- (ok_type _ Hokq), <- (ok_size _ Hokq), <- (ok_count _ Hokq) in *. unfold block, PAGE_HEADER_SIZE in *.
    destruct (bk_apart _ _ _ _ B p r q s Hp Hq (proj2 Hu) (proj2 Hv) ltac:(done)); nia.
Qed.
End Update.
(** ** Pages come and go *)

Section Pages.
Context {P : gmap Z page_t} {H : gmap Z lists} {m : Z -> Z} {st : gmap Z status} (B : blocks_ok P H m st).

(** Memory outside of the pages in use does not matter. *)
Lemma blocks_outside m' : (forall p r x, P !! p = Some r -> in_use r -> p <= x < p + psize (page_type r) -> m' x = m x) -> blocks_ok P H m' st.
Proof using B.
  intros Hm. assert (forall head x n, listing m st head x n -> listing m' st head x n) as Hl.
  { intros head x n. apply listing_frame; [|done]. intros b y Hb Hy. destruct (live_page B b x Hb) as (p & r & Hp & Hu & _ & Hmem & _).
    apply (Hm p r y Hp Hu). by eapply (word_in_page B). }
  destruct B as [B1 B2 B3 B4 B5 B6 B7 B8 B9 B10]. constructor; try done.
  - intros p r Hp Hu. by apply Hl, B7.
  - intros p r Hp Hu. destruct (B8 p r Hp Hu) as (head & n & E1 & E2 & E3). exists head, n. split_and!; [done|done|by apply Hl].
  - intros hp v Hv. destruct (B9 hp v Hv) as [L1 L2]. split; [intros c; destruct (L1 c) as [n Hn]|intros t; destruct (L2 t) as [n Hn]]; exists n; by apply Hl.
  - intros p r Hp Hu Hz x Hx. pose proof (B1 p r Hp Hu) as Hok. rewrite (Hm p r x Hp Hu); [by apply (B10 p r Hp Hu Hz)|].
    destruct (class_geometry _ (ok_class _ Hok)) as (G1 & _ & _ & G2 & _). pose proof (ok_initialized _ Hok). rewrite <- (ok_type _ Hok), <- (ok_size _ Hok), <- (ok_count _ Hok) in *.
    unfold block, PAGE_HEADER_SIZE in *. nia.
Qed.

(** So does memory in live blocks. *)
Lemma blocks_live m' :
  (forall x, m' x <> m x -> exists b p r, st !! b = Some Live /\ P !! p = Some r /\ in_use r /\ member p r b /\ b <= x < b + block_size r) -> blocks_ok P H m' st.
Proof using B.
  intros Hm. assert (forall head x n, x <> Live -> listing m st head x n -> listing m' st head x n) as Hl.
  { intros head x n Hx. apply listing_frame; [|done]. intros b y Hb Hy. destruct (decide (m' y = m y)) as [|Hne]; [done|exfalso].
    destruct (Hm y Hne) as (c & p & r & Hc & Hp & Hu & Hmem & Hin). destruct (live_page B b x Hb) as (q & s & Hq & Hv & Hok & Hmem' & _).
    destruct (member_bounds q s b Hok Hmem') as (_ & _ & G). destruct (members_apart B p r c q s b Hp Hu Hmem Hq Hv Hmem'); [intros ->; congruence|lia|lia]. }
  destruct B as [B1 B2 B3 B4 B5 B6 B7 B8 B9 B10]. constructor; try done.
  - intros p r Hp Hu. apply Hl; [done|by apply B7].
  - intros p r Hp Hu. destruct (B8 p r Hp Hu) as (head & n & E1 & E2 & E3). exists head, n. split_and!; [done|done|by apply Hl].
  - intros hp v Hv. destruct (B9 hp v Hv) as [L1 L2]. split; [intros c; destruct (L1 c) as [n Hn]|intros t; destruct (L2 t) as [n Hn]]; exists n; by apply Hl.
  - intros p r Hp Hu Hz x Hx. destruct (decide (m' x = m x)) as [-> |Hne]; [by apply (B10 p r Hp Hu Hz)|exfalso].
    destruct (Hm x Hne) as (c & q & s & Hc & Hq & Hv & Hmem & Hin). pose proof (B1 p r Hp Hu) as Hok. pose proof (B1 q s Hq Hv) as Hoks.
    destruct (member_bounds q s c Hoks Hmem) as (G1 & G2 & _). destruct (class_geometry _ (ok_class _ Hok)) as (G3 & _ & _ & G4 & _). pose proof (ok_initialized _ Hok) as G5.
    rewrite <- (ok_type _ Hok), <- (ok_size _ Hok), <- (ok_count _ Hok) in *. unfold PAGE_HEADER_SIZE in *. destruct (decide (p = q)) as [<-|Hpq].
    + simplify_eq. destruct Hmem as (i & Hi & ->). unfold block, PAGE_HEADER_SIZE in *. nia.
    + unfold block, PAGE_HEADER_SIZE in *. destruct (B3 p r q s Hp Hq (proj2 Hu) (proj2 Hv) Hpq); nia.
Qed.

(** A page gets ready for the blocks of a class. *)
Lemma blocks_fresh p r' m' :
  (forall r, P !! p = Some r -> ~ in_use r) -> in_use r' -> page_ok r' -> block_initialized r' = 0 -> local_free r' = 0 -> local_free_count r' = 0 -> page_thread_free r' = 0 ->
  0 < p -> p mod 2 ^ 16 = 0 -> p + psize (page_type r') < 2 ^ 64 -> is_Some (H !! page_heap r') ->
  (forall q s, P !! q = Some s -> page_type s <> PAGE_HUGE -> p <> q -> p + psize (page_type r') <= q \/ q + psize (page_type s) <= p) ->
  (forall x, ~ p <= x < p + psize (page_type r') -> m' x = m x) -> zero_behind m' p r' -> blocks_ok (<[p := r']> P) H m' st.
Proof using B.
  intros Hp Hu Hok Hi Hl Hlc Ht H1 H2 H3 HH Hap Hm Hz.
  assert (blocks_ok P H m' st) as B'.
  { apply blocks_outside. intros q s x Hq Hv Hx. apply Hm. intros Hx'. assert (p <> q) as Hpq by (intros ->; by apply (Hp s)). destruct (Hap q s Hq (proj2 Hv) Hpq); lia. }
  assert (forall b x, st !! b = Some x -> x <> PageFree p /\ x <> PageThread p) as Hno.
  { intros b x Hb. destruct (bk_located _ _ _ _ B b x Hb) as (q & s & Hq & Hv & _ & Hloc). split; intros ->; simpl in Hloc; subst; by apply (Hp s). }
  destruct B' as [B1 B2 B3 B4 B5 B6 B7 B8 B9 B10]. constructor.
  - intros q s [[<- <-]|[Hne Hq]]%lookup_insert_Some; [done|by eapply B1].
  - intros q s [[<- <-]|[Hne Hq]]%lookup_insert_Some; [done|by eapply B2].
  - intros q s q' s' [[<- <-]|[Hne Hq]]%lookup_insert_Some [[<- <-]|[Hne' Hq']]%lookup_insert_Some; [done|by intros ? ? ?; apply Hap| |by apply B3].
    intros ? ? ?. destruct (Hap q s Hq); auto.
  - intros q s [[<- <-]|[Hne Hq]]%lookup_insert_Some; [done|by eapply B4].
  - intros b x Hb. destruct (B5 b x Hb) as (q & s & Hq & Hv & Hms & Hls). exists q, s. rewrite lookup_insert_ne; [done|]. intros <-. by apply (Hp s).
  - intros q s b [[<- <-]|[Hne Hq]]%lookup_insert_Some Hv Hmem; [destruct Hmem; lia|by eapply B6].
  - intros q s [[<- <-]|[Hne Hq]]%lookup_insert_Some Hv; [|by apply B7]. rewrite Hl, Hlc. apply listing_empty. split; [done|]. intros b Hb. by destruct (Hno b _ Hb).
  - intros q s [[<- <-]|[Hne Hq]]%lookup_insert_Some Hv; [|by apply B8]. exists 0, 0. rewrite Ht. split_and!; [done|done|]. apply listing_empty. split; [done|]. intros b Hb. by destruct (Hno b _ Hb).
  - done.
  - intros q s [[<- <-]|[Hne Hq]]%lookup_insert_Some Hv; [done|by apply B10].
Qed.

(** A page with all its blocks in its list is free. *)
Lemma blocks_freed p r r' :
  P !! p = Some r -> in_use r -> is_free r' = true -> page_type r' = page_type r -> page_heap r' = page_heap r -> block_used r = 0 ->
  blocks_ok (<[p := r']> P) H m (filter (fun e => e.2 <> PageFree p) st).
Proof using B.
  intros Hp Hu Hf Et Eh H0. assert (forall b, member p r b -> st !! b = Some (PageFree p)) as Hall.
  { destruct (listing_bound B p r _ _ _ Hp Hu (bk_local _ _ _ _ B p r Hp Hu)) as (_ & _ & Hb).
    - intros b Hb. apply (page_free_members B p r b (PageFree p)); [done|done|by left|done].
    - apply Hb. pose proof (ok_local _ (bk_page _ _ _ _ B p r Hp Hu)). lia. }
  assert (~ in_use r') as Hnu by (intros [? _]; congruence).
  assert (forall b x, x <> PageFree p -> filter (fun e => e.2 <> PageFree p) st !! b = Some x <-> st !! b = Some x) as Hst.
  { intros b x Hx. rewrite map_lookup_filter_Some. simpl. naive_solver. }
  assert (forall head x n, x <> PageFree p -> listing m st head x n -> listing m (filter (fun e => e.2 <> PageFree p) st) head x n) as Hl.
  { intros head x n Hx. apply listing_frame; [done|]. intros b. by apply Hst. }
  destruct B as [B1 B2 B3 B4 B5 B6 B7 B8 B9 B10]. constructor.
  - intros q s [[<- <-]|[Hne Hq]]%lookup_insert_Some; [done|by eapply B1].
  - intros q s [[<- <-]|[Hne Hq]]%lookup_insert_Some; [rewrite Et; by apply (B2 p r)|by eapply B2].
  - intros q s q' s' [[<- <-]|[Hne Hq]]%lookup_insert_Some [[<- <-]|[Hne' Hq']]%lookup_insert_Some; rewrite ?Et; [done|by apply (B3 p r)|by intros ? ? ?; apply (B3 q s p r)|by apply B3].
  - intros q s [[<- <-]|[Hne Hq]]%lookup_insert_Some; [rewrite Et, Eh; by apply (B4 p r)|by eapply B4].
  - intros b x [Hb Hx]%map_lookup_filter_Some. simpl in Hx. destruct (B5 b x Hb) as (q & s & Hq & Hv & Hms & Hls). exists q, s. rewrite lookup_insert_ne; [done|].
    intros <-. simplify_eq. pose proof (Hall b Hms). congruence.
  - intros q s b [[<- <-]|[Hne Hq]]%lookup_insert_Some Hv Hmem; [done|]. destruct (B6 q s b Hq Hv Hmem) as [x Hx]. exists x. apply map_lookup_filter_Some. split; [done|]. simpl. intros ->.
    destruct (B5 b _ Hx) as (q' & s' & Hq' & Hv' & Hms & Hls). simpl in Hls. subst q'. simplify_eq. apply Hne. symmetry. by eapply (member_one_page (Build_blocks_ok _ _ _ _ B1 B2 B3 B4 B5 B6 B7 B8 B9 B10) q s p r b).
  - intros q s [[<- <-]|[Hne Hq]]%lookup_insert_Some Hv; [done|]. apply Hl; [congruence|by apply B7].
  - intros q s [[<- <-]|[Hne Hq]]%lookup_insert_Some Hv; [done|]. destruct (B8 q s Hq Hv) as (head & n & E1 & E2 & E3). exists head, n. split_and!; [done|done|by apply Hl].
  - intros hp v Hv. destruct (B9 hp v Hv) as [L1 L2]. split; [intros c; destruct (L1 c) as [n Hn]|intros t; destruct (L2 t) as [n Hn]]; exists n; by apply Hl.
  - intros q s [[<- <-]|[Hne Hq]]%lookup_insert_Some Hv; [done|by apply B10].
Qed.

(** A page without blocks comes, or goes. *)
Lemma blocks_add p r' :
  P !! p = None -> ~ in_use r' ->
  (page_type r' <> PAGE_HUGE -> 0 < p /\ p mod 2 ^ 16 = 0 /\ p + psize (page_type r') < 2 ^ 64 /\ is_Some (H !! page_heap r') /\
     forall q s, P !! q = Some s -> page_type s <> PAGE_HUGE -> p + psize (page_type r') <= q \/ q + psize (page_type s) <= p) ->
  blocks_ok (<[p := r']> P) H m st.
Proof using B.
  intros Hp Hnu Hr. destruct B as [B1 B2 B3 B4 B5 B6 B7 B8 B9 B10]. constructor.
  - intros q s [[<- <-]|[Hne Hq]]%lookup_insert_Some; [done|by eapply B1].
  - intros q s [[<- <-]|[Hne Hq]]%lookup_insert_Some Ht; [by destruct (Hr Ht) as (? & ? & ? & _)|by eapply B2].
  - intros q s q' s' [[<- <-]|[Hne Hq]]%lookup_insert_Some [[<- <-]|[Hne' Hq']]%lookup_insert_Some Ht Ht' Hqq; [done| | |by apply B3].
    + destruct (Hr Ht) as (_ & _ & _ & _ & Hap). by apply Hap.
    + destruct (Hr Ht') as (_ & _ & _ & _ & Hap). destruct (Hap q s Hq Ht); auto.
  - intros q s [[<- <-]|[Hne Hq]]%lookup_insert_Some Ht; [by destruct (Hr Ht) as (_ & _ & _ & ? & _)|by eapply B4].
  - intros b x Hb. destruct (B5 b x Hb) as (q & s & Hq & Hv & Hms & Hls). exists q, s. rewrite lookup_insert_ne; [done|]. intros <-. congruence.
  - intros q s b [[<- <-]|[Hne Hq]]%lookup_insert_Some Hv Hmem; [done|by eapply B6].
  - intros q s [[<- <-]|[Hne Hq]]%lookup_insert_Some Hv; [done|by apply B7].
  - intros q s [[<- <-]|[Hne Hq]]%lookup_insert_Some Hv; [done|by apply B8].
  - done.
  - intros q s [[<- <-]|[Hne Hq]]%lookup_insert_Some Hv; [done|by apply B10].
Qed.

Lemma blocks_remove p : (forall r, P !! p = Some r -> ~ in_use r) -> blocks_ok (delete p P) H m st.
Proof using B.
  intros Hp. destruct B as [B1 B2 B3 B4 B5 B6 B7 B8 B9 B10].
  constructor; try (intros q s [Hne Hq]%lookup_delete_Some; by eauto).
  - intros q s q' s' [Hne Hq]%lookup_delete_Some [Hne' Hq']%lookup_delete_Some. by apply B3.
  - intros b x Hb. destruct (B5 b x Hb) as (q & s & Hq & Hv & Hms & Hls). exists q, s. rewrite lookup_delete_ne; [done|]. intros <-. by apply (Hp s).
  - intros q s b [Hne Hq]%lookup_delete_Some. by eauto.
  - done.
Qed.

(** The blocks of a list for other threads of a heap go to the program, which frees them. *)
Lemma blocks_release hp t v : H !! hp = Some v -> blocks_ok P (<[hp := (v.1, <[t := 0]> v.2)]> H) m (rename (HeapThread hp t) Live st).
Proof using B.
  intros Hv. set (st1 := rename (HeapThread hp t) Live st). destruct B as [B1 B2 B3 B4 B5 B6 B7 B8 B9 B10].
  assert (forall head x n, x <> HeapThread hp t -> x <> Live -> listing m st head x n -> listing m st1 head x n) as Hl.
  { intros head x n H1 H2. apply listing_frame; [done|]. intros b. by apply rename_other. }
  constructor; try done.
  - intros p r Hp Ht. destruct (decide (page_heap r = hp)) as [->|Hne]; [rewrite lookup_insert_eq; by eexists|rewrite lookup_insert_ne by done; by apply (B4 p r)].
  - intros b x Hb. unfold st1 in Hb. rewrite lookup_rename in Hb. destruct (st !! b) as [y|] eqn:Hy; [|done]. simpl in Hb. destruct (B5 b y Hy) as (p & r & Hp & Hu & Hm & Hloc).
    exists p, r. split_and!; [done|done|done|]. case_decide; injection Hb as <-; done.
  - intros p r b Hp Hu Hm. apply rename_is_Some. by apply (B6 p r).
  - intros p r Hp Hu. apply Hl; [done|done|by apply B7].
  - intros p r Hp Hu. destruct (B8 p r Hp Hu) as (head & n & E1 & E2 & E3). exists head, n. split_and!; [done|done|by apply Hl].
  - intros h w [[<- <-]|[Hne Hw]]%lookup_insert_Some.
    + destruct (B9 hp v Hv) as [L1 L2]. split; [intros c; destruct (L1 c) as [n Hn]; exists n; by apply Hl|]. intros t'. simpl. destruct (decide (t' = t)) as [->|Hne].
      * rewrite fn_lookup_insert. exists 0. apply listing_empty. split; [done|]. intros b. by apply rename_source.
      * rewrite fn_lookup_insert_ne by done. destruct (L2 t') as [n Hn]. exists n. apply Hl; [congruence|done|done].
    + destruct (B9 h w Hw) as [L1 L2]. split; [intros c; destruct (L1 c) as [n Hn]|intros t'; destruct (L2 t') as [n Hn]]; exists n; apply Hl; done || congruence.
Qed.

(** The first block of a list of a heap goes to the program. *)
Lemma blocks_pop_heap hp c v : H !! hp = Some v -> v.1 c <> 0 -> blocks_ok P (<[hp := (<[c := word m (v.1 c)]> v.1, v.2)]> H) m (<[v.1 c := Live]> st) /\ st !! v.1 c = Some (HeapFree hp c).
Proof using B.
  intros Hv H0. set (b := v.1 c) in *. destruct (proj1 (bk_lists _ _ _ _ B hp v Hv) c) as [n0 Hn0]. fold b in Hn0.
  destruct (listing_head _ _ _ _ _ Hn0) as [[? _]|(Hb & Hst & _)]; [done|]. split; [|done]. pose proof (listing_pop _ _ _ _ _ Live Hn0 H0 ltac:(done)) as Hpop.
  destruct B as [B1 B2 B3 B4 B5 B6 B7 B8 B9 B10].
  assert (forall head x n, x <> HeapFree hp c -> x <> Live -> listing m st head x n -> listing m (<[b := Live]> st) head x n) as Hl.
  { intros head x n H1 H2. apply listing_frame; [done|]. intros b'. destruct (decide (b' = b)) as [->|Hne]; [rewrite lookup_insert_eq, Hst; split; congruence|by rewrite lookup_insert_ne]. }
  constructor; try done.
  - intros p r Hp Ht. destruct (decide (page_heap r = hp)) as [->|Hne]; [rewrite lookup_insert_eq; by eexists|rewrite lookup_insert_ne by done; by apply (B4 p r)].
  - intros b' x [[<- <-]|[Hne Hb']]%lookup_insert_Some; [|by apply B5]. destruct (B5 b _ Hst) as (p & r & Hp & Hu & Hm & _). by exists p, r.
  - intros p r b' Hp Hu Hm. destruct (decide (b' = b)) as [->|Hne]; [rewrite lookup_insert_eq; by eexists|rewrite lookup_insert_ne by done; by apply (B6 p r)].
  - intros p r Hp Hu. apply Hl; [done|done|by apply B7].
  - intros p r Hp Hu. destruct (B8 p r Hp Hu) as (head & n & E1 & E2 & E3). exists head, n. split_and!; [done|done|by apply Hl].
  - intros h w [[<- <-]|[Hne Hw]]%lookup_insert_Some.
    + destruct (B9 hp v Hv) as [L1 L2]. split; [|intros t; destruct (L2 t) as [n Hn]; exists n; by apply Hl]. intros c'. simpl. destruct (decide (c' = c)) as [->|Hne].
      * rewrite fn_lookup_insert. by exists (n0 - 1).
      * rewrite fn_lookup_insert_ne by done. destruct (L1 c') as [n Hn]. exists n. apply Hl; [congruence|done|done].
    + destruct (B9 h w Hw) as [L1 L2]. split; [intros c'; destruct (L1 c') as [n Hn]|intros t; destruct (L2 t) as [n Hn]]; exists n; apply Hl; done || congruence.
Qed.

(** New heaps have no blocks. *)
Lemma blocks_new_heaps H' :
  (forall hp v, H !! hp = Some v -> H' !! hp = Some v) -> (forall hp v, H' !! hp = Some v -> H !! hp = Some v \/ H !! hp = None /\ (forall c, v.1 c = 0) /\ (forall t, v.2 t = 0)) -> blocks_ok P H' m st.
Proof using B.
  intros H1 H2. assert (forall b x p r, st !! b = Some x -> P !! p = Some r -> in_use r -> H !! page_heap r <> None) as Hno.
  { intros b x p r Hb Hp Hu E. destruct (bk_heap _ _ _ _ B p r Hp (proj2 Hu)). congruence. }
  assert (forall hp x, H !! hp = None -> (exists c, x = HeapFree hp c) \/ (exists t, x = HeapThread hp t) -> listing m st 0 x 0) as He.
  { intros hp x Hhp Hx. apply listing_empty. split; [done|]. intros b Hb. destruct (bk_located _ _ _ _ B b x Hb) as (p & r & Hp & Hu & _ & Hl).
    apply (Hno b x p r Hb Hp Hu). destruct Hx as [[c ->]|[t ->]]; destruct Hl as [<- _]; done. }
  destruct B as [B1 B2 B3 B4 B5 B6 B7 B8 B9 B10]. constructor; try done.
  - intros p r Hp Hh. destruct (B4 p r Hp Hh) as [v Hv]. exists v. by apply H1.
  - intros h w Hw. destruct (H2 h w Hw) as [Hw0|(Hn & Z1 & Z2)]; [by apply B9|]. split; [intros c; rewrite Z1|intros t; rewrite Z2]; exists 0; apply (He h); [done|left|done|right]; by eexists.
Qed.
End Pages.
End RpBlocks.
