(* ===== verification/RpLists.v ===== *)
(** * The lists of pages

    A heap has a doubly linked list of available pages for each size class and a
    singly linked list of free pages for each page type.  A page that is full is
    in no list.  Here: that invariant, and how the operations on lists keep it. *)
From stdpp Require Import functions.
From S2P Require Import Prelude RpState Rpmalloc RpSize RpWp RpBlocks.

Module RpLists.
Import RpState Rpmalloc RpSize RpWp RpBlocks.

(** ** Linked lists *)

Fixpoint seg (pg : gmap Z page_t) (head : Z) (l : list Z) (tail : Z) : Prop :=
  match l with
  | [] => head = tail
  | p :: l => head = p /\ p <> 0 /\ exists next, page_next <$> pg !! p = Some next /\ seg pg next l tail
  end.

(** Every page but the first one points back to the one before it. *)
Fixpoint backed (pg : gmap Z page_t) (l : list Z) : Prop :=
  match l with
  | a :: l' => match l' with b :: _ => page_prev <$> pg !! b = Some a | [] => True end /\ backed pg l'
  | [] => True
  end.

Lemma seg_frame pg pg' head l tail : (forall q, q ∈ l -> page_next <$> pg' !! q = page_next <$> pg !! q) -> seg pg head l tail -> seg pg' head l tail.
Proof.
  revert head. induction l as [|p l IH]; intros head Hf H; [done|]. destruct H as (-> & Hp & next & Hn & H). split_and!; [done|done|].
  exists next. rewrite Hf by left. split; [done|]. apply IH; [|done]. intros q Hq. apply Hf. by right.
Qed.

Lemma seg_app pg head l1 l2 tail : seg pg head (l1 ++ l2) tail <-> exists mid, seg pg head l1 mid /\ seg pg mid l2 tail.
Proof.
  revert head. induction l1 as [|p l1 IH]; intros head; simpl; [split; [intros H; by exists head|by intros (mid & -> & H)]|].
  split.
  - intros (-> & Hp & next & Hn & H). apply IH in H as (mid & H1 & H2). exists mid. split; [|done]. split_and!; [done|done|by exists next].
  - intros (mid & (-> & Hp & next & Hn & H1) & H2). split_and!; [done|done|]. exists next. split; [done|]. apply IH. by exists mid.
Qed.

Lemma backed_frame pg pg' l : (forall q, q ∈ tl l -> page_prev <$> pg' !! q = page_prev <$> pg !! q) -> backed pg l -> backed pg' l.
Proof.
  induction l as [|a l IH]; intros Hf H; [done|]. destruct H as [H1 H2]. split.
  - destruct l as [|b l]; [done|]. rewrite Hf by left. done.
  - apply IH; [|done]. intros q Hq. apply Hf. simpl. destruct l; [done|]. by right.
Qed.

Lemma backed_app pg l1 q l2 : backed pg (l1 ++ q :: l2) <-> backed pg (l1 ++ [q]) /\ backed pg (q :: l2).
Proof.
  induction l1 as [|a l1 IH]; [simpl; tauto|]. change ((a :: l1) ++ q :: l2) with (a :: (l1 ++ q :: l2)). change ((a :: l1) ++ [q]) with (a :: (l1 ++ [q])).
  cbn [backed]. rewrite IH. destruct l1; simpl; tauto.
Qed.

(** ** Where pages are *)

Inductive place := Nowhere | Available (heap class : Z) | Free (heap : Z) (t : page_type_t).

#[export] Instance place_eq_dec : EqDecision place.
Proof. solve_decision. Defined.

Definition place_of (r : page_t) : place :=
  if is_huge (page_type r) then Nowhere
  else if is_free r then Free (page_heap r) (page_type r)
  else if is_full r then Nowhere
  else Available (page_heap r) (size_class r).

(** The pages at a place, but for one that is being moved. *)
Definition placed (pg : gmap Z page_t) (ex : option Z) (x : place) (l : list Z) : Prop :=
  NoDup l /\ forall p, p ∈ l <-> ex <> Some p /\ exists r, pg !! p = Some r /\ place_of r = x.

Record lists_ok (ex : option Z) (pg : gmap Z page_t) (A : gmap Z lists) : Prop := {
  lk_available hp v : A !! hp = Some v -> forall c, exists l, seg pg (v.1 c) l 0 /\ backed pg l /\ placed pg ex (Available hp c) l;
  lk_free hp v : A !! hp = Some v -> forall t, exists l, seg pg (v.2 t) l 0 /\ placed pg ex (Free hp t) l }.

(** What the lists look at in a page. *)
Definition list_view (r : page_t) : place * Z * Z := (place_of r, page_next r, page_prev r).

Lemma list_view_fields r r' : list_view r' = list_view r -> place_of r' = place_of r /\ page_next r' = page_next r /\ page_prev r' = page_prev r.
Proof. unfold list_view. intros [= -> -> ->]. done. Qed.

Lemma placed_frame pg pg' ex x l : (forall p, ex <> Some p -> place_of <$> pg' !! p = place_of <$> pg !! p) -> placed pg ex x l -> placed pg' ex x l.
Proof.
  intros Hf [Hn Hl]. split; [done|]. intros p. rewrite Hl. split; intros [Hp (r & Hr & Hx)]; (split; [done|]); specialize (Hf p Hp); rewrite Hr in Hf.
  - destruct (pg' !! p) as [r'|]; [|done]. injection Hf as Hf. exists r'. split; [done|congruence].
  - destruct (pg !! p) as [r'|]; [|done]. injection Hf as Hf. exists r'. split; [done|congruence].
Qed.

Lemma lists_frame ex pg pg' A : (forall p, ex <> Some p -> list_view <$> pg' !! p = list_view <$> pg !! p) -> lists_ok ex pg A -> lists_ok ex pg' A.
Proof.
  intros Hf [L1 L2].
  assert (forall p, ex <> Some p -> place_of <$> pg' !! p = place_of <$> pg !! p /\ page_next <$> pg' !! p = page_next <$> pg !! p /\ page_prev <$> pg' !! p = page_prev <$> pg !! p) as Hf'.
  { intros p Hp. specialize (Hf p Hp). destruct (pg' !! p), (pg !! p); try done. injection Hf as H1 H2 H3. simpl. by rewrite H1, H2, H3. }
  constructor.
  - intros hp v Hv c. destruct (L1 hp v Hv c) as (l & Hs & Hb & Hl). exists l. split_and!.
    + eapply seg_frame; [|done]. intros q Hq. apply Hf'. by apply Hl in Hq as [? _].
    + eapply backed_frame; [|done]. intros q Hq. apply Hf'. assert (q ∈ l) as Hq' by (destruct l; [done|by right]). by apply Hl in Hq' as [? _].
    + eapply placed_frame; [|done]. intros q Hq. by apply Hf'.
  - intros hp v Hv t. destruct (L2 hp v Hv t) as (l & Hs & Hl). exists l. split.
    + eapply seg_frame; [|done]. intros q Hq. apply Hf'. by apply Hl in Hq as [? _].
    + eapply placed_frame; [|done]. intros q Hq. by apply Hf'.
Qed.

(** ** Moving a page *)

Section Move.
Context {pg pg' : gmap Z page_t} {A : gmap Z lists} (p : Z) (x : place).

(** Only [p] and pages at the place [x] change, and these stay there. *)
Definition changes : Prop :=
  forall q, q <> p -> list_view <$> pg' !! q = list_view <$> pg !! q \/ exists r r', pg !! q = Some r /\ pg' !! q = Some r' /\ place_of r = x /\ place_of r' = x.

Lemma changes_place q : changes -> q <> p -> place_of <$> pg' !! q = place_of <$> pg !! q.
Proof.
  intros Hc Hq. destruct (Hc q Hq) as [H|(r & r' & -> & -> & E1 & E2)]; [|simpl; by rewrite E1, E2].
  destruct (pg' !! q), (pg !! q); try done. injection H as H1 H2 H3. simpl. by rewrite H1.
Qed.

Lemma changes_view q r : changes -> q <> p -> pg !! q = Some r -> place_of r <> x -> list_view <$> pg' !! q = list_view <$> pg !! q.
Proof. intros Hc Hq Hr Hx. destruct (Hc q Hq) as [H|(r1 & r' & E1 & _ & E3 & _)]; [done|]. congruence. Qed.

(** A list of another place, when [p] leaves [x]. *)
Lemma other_leave y k : changes -> placed pg None y k -> y <> x -> (forall r, pg !! p = Some r -> place_of r = x) ->
  (forall q, q ∈ k -> list_view <$> pg' !! q = list_view <$> pg !! q) /\ placed pg' (Some p) y k.
Proof.
  intros Hc [Hn Hk] Hy Hp. split.
  - intros q (_ & r & Hr & Hq)%Hk. eapply (changes_view q r); [done| |done|congruence]. intros ->. apply Hy. rewrite <- Hq. by apply Hp.
  - split; [done|]. intros q. rewrite Hk. split.
    + intros (_ & r & Hr & Hq). assert (q <> p) as Hne by (intros ->; apply Hy; rewrite <- Hq; by apply Hp). split; [congruence|].
      pose proof (changes_place q Hc Hne) as E. rewrite Hr in E. destruct (pg' !! q) as [r'|]; [|done]. injection E as E. exists r'. split; [done|congruence].
    + intros (Hne & r' & Hr' & Hq). split; [done|]. pose proof (changes_place q Hc ltac:(congruence)) as E. rewrite Hr' in E.
      destruct (pg !! q) as [r|] eqn:Er; [|done]. injection E as E. exists r. split; [done|congruence].
Qed.

(** And when [p] comes to [x]. *)
Lemma other_come y k : changes -> placed pg (Some p) y k -> y <> x -> (forall r, pg' !! p = Some r -> place_of r = x) ->
  (forall q, q ∈ k -> list_view <$> pg' !! q = list_view <$> pg !! q) /\ placed pg' None y k.
Proof.
  intros Hc [Hn Hk] Hy Hp. split.
  - intros q (Hqp & r & Hr & Hq)%Hk. eapply (changes_view q r); [done|congruence|done|congruence].
  - split; [done|]. intros q. rewrite Hk. split.
    + intros (Hne & r & Hr & Hq). split; [done|]. pose proof (changes_place q Hc ltac:(congruence)) as E. rewrite Hr in E.
      destruct (pg' !! q) as [r'|]; [|done]. injection E as E. exists r'. split; [done|congruence].
    + intros (_ & r' & Hr' & Hq). assert (q <> p) as Hne by (intros ->; apply Hy; rewrite <- Hq; by apply Hp). split; [congruence|].
      pose proof (changes_place q Hc Hne) as E. rewrite Hr' in E. destruct (pg !! q) as [r|] eqn:Er; [|done]. injection E as E. exists r. split; [done|congruence].
Qed.

(** The list that [p] leaves, and the list it comes to. *)
Lemma placed_leave l1 l2 : changes -> placed pg None x (l1 ++ p :: l2) -> placed pg' (Some p) x (l1 ++ l2).
Proof.
  intros Hc [Hn Hk]. apply NoDup_app in Hn as (Hn1 & Hn12 & [Hnp Hn2]%NoDup_cons). split.
  { apply NoDup_app. split_and!; [done| |done]. intros q Hq Hq2. apply (Hn12 q Hq). by right. }
  intros q. destruct (decide (q = p)) as [->|Hne].
  - split; [|by intros [? _]]. intros [Hq|Hq]%elem_of_app; [by destruct (Hn12 p Hq); left|done].
  - assert (q ∈ l1 ++ l2 <-> q ∈ l1 ++ p :: l2) as -> by (rewrite !elem_of_app, elem_of_cons; tauto). rewrite Hk.
    pose proof (changes_place q Hc Hne) as E. split; intros (_ & r & Hr & Hq); rewrite Hr in E.
    + split; [congruence|]. destruct (pg' !! q) as [r'|]; [|done]. injection E as E. exists r'. split; [done|congruence].
    + split; [done|]. destruct (pg !! q) as [r'|]; [|done]. injection E as E. exists r'. split; [done|congruence].
Qed.

Lemma placed_come l r' : changes -> placed pg (Some p) x l -> pg' !! p = Some r' -> place_of r' = x -> placed pg' None x (p :: l).
Proof.
  intros Hc [Hn Hk] Hp Hx. split; [apply NoDup_cons; split; [|done]; by intros [? _]%Hk|]. intros q. rewrite elem_of_cons. destruct (decide (q = p)) as [->|Hne].
  - split; [|by left]. intros _. split; [done|by exists r'].
  - rewrite Hk. pose proof (changes_place q Hc Hne) as E. split.
    + intros [?|(_ & r & Hr & Hq)]; [done|]. split; [done|]. rewrite Hr in E. destruct (pg' !! q) as [s|]; [|done]. injection E as E. exists s. split; [done|congruence].
    + intros (_ & r & Hr & Hq). right. split; [congruence|]. rewrite Hr in E. destruct (pg !! q) as [s|]; [|done]. injection E as E. exists s. split; [done|congruence].
Qed.

Lemma view_next (l : list Z) : (forall q, q ∈ l -> list_view <$> pg' !! q = list_view <$> pg !! q) -> forall q, q ∈ l -> page_next <$> pg' !! q = page_next <$> pg !! q.
Proof. intros H q Hq. specialize (H q Hq). destruct (pg' !! q), (pg !! q); try done. injection H as H1 H2 H3. simpl. by rewrite H2. Qed.

Lemma view_prev (l : list Z) : (forall q, q ∈ l -> list_view <$> pg' !! q = list_view <$> pg !! q) -> forall q, q ∈ l -> page_prev <$> pg' !! q = page_prev <$> pg !! q.
Proof. intros H q Hq. specialize (H q Hq). destruct (pg' !! q), (pg !! q); try done. injection H as H1 H2 H3. simpl. by rewrite H3. Qed.

Lemma tail_elem (l : list Z) (q : Z) : q ∈ tl l -> q ∈ l.
Proof. destruct l; [done|]. by right. Qed.
End Move.

(** ** The operations *)

Definition avail_set (c head : Z) (v : lists) : lists := (<[c := head]> v.1, v.2).
Definition free_set (t : page_type_t) (head : Z) (v : lists) : lists := (v.1, <[t := head]> v.2).

Section Operations.
Context {pg pg' : gmap Z page_t} {A : gmap Z lists}.

(** A page leaves a list: the list of [hp] at [x] has a new head, and all the others
    are as before. *)
Lemma lists_leave p x hp v v' :
  lists_ok None pg A -> (forall r, pg !! p = Some r -> place_of r = x) -> changes (pg := pg) (pg' := pg') p x -> A !! hp = Some v ->
  (forall h c, x = Available h c -> h = hp) -> (forall h t, x = Free h t -> h = hp) ->
  (forall c, x <> Available hp c -> v'.1 c = v.1 c) -> (forall t, x <> Free hp t -> v'.2 t = v.2 t) ->
  (forall c, x = Available hp c -> exists l, seg pg' (v'.1 c) l 0 /\ backed pg' l /\ placed pg' (Some p) x l) ->
  (forall t, x = Free hp t -> exists l, seg pg' (v'.2 t) l 0 /\ placed pg' (Some p) x l) ->
  lists_ok (Some p) pg' (<[hp := v']> A).
Proof.
  intros [L1 L2] Hp Hc Hv Hxa Hxf Ha Hf Hla Hlf. constructor.
  - intros h w Hw c. destruct (decide (x = Available h c)) as [E|E].
    + assert (h = hp) as -> by (by eapply Hxa). rewrite lookup_insert_eq in Hw. simplify_eq. by apply Hla.
    + assert (exists w0, A !! h = Some w0 /\ w.1 c = w0.1 c) as (w0 & Hw0 & ->).
      { apply lookup_insert_Some in Hw as [[<- <-]|[Hne Hw]]; [exists v; split; [done|by apply Ha]|by exists w]. }
      destruct (L1 h w0 Hw0 c) as (k & Hs & Hb & Hk). destruct (other_leave (pg' := pg') p x _ k Hc Hk) as [Hvw Hk']; [congruence|done|].
      exists k. split_and!; [eapply seg_frame; [by apply view_next|done]|eapply backed_frame; [|done]; intros q Hq; apply (view_prev _ Hvw); by apply tail_elem|done].
  - intros h w Hw t. destruct (decide (x = Free h t)) as [E|E].
    + assert (h = hp) as -> by (by eapply Hxf). rewrite lookup_insert_eq in Hw. simplify_eq. by apply Hlf.
    + assert (exists w0, A !! h = Some w0 /\ w.2 t = w0.2 t) as (w0 & Hw0 & ->).
      { apply lookup_insert_Some in Hw as [[<- <-]|[Hne Hw]]; [exists v; split; [done|by apply Hf]|by exists w]. }
      destruct (L2 h w0 Hw0 t) as (k & Hs & Hk). destruct (other_leave (pg' := pg') p x _ k Hc Hk) as [Hvw Hk']; [congruence|done|].
      exists k. split; [eapply seg_frame; [by apply view_next|done]|done].
Qed.

(** A page comes to a list. *)
Lemma lists_come p x hp v v' :
  lists_ok (Some p) pg A -> (forall r, pg' !! p = Some r -> place_of r = x) -> changes (pg := pg) (pg' := pg') p x -> A !! hp = Some v ->
  (forall h c, x = Available h c -> h = hp) -> (forall h t, x = Free h t -> h = hp) ->
  (forall c, x <> Available hp c -> v'.1 c = v.1 c) -> (forall t, x <> Free hp t -> v'.2 t = v.2 t) ->
  (forall c, x = Available hp c -> exists l, seg pg' (v'.1 c) l 0 /\ backed pg' l /\ placed pg' None x l) ->
  (forall t, x = Free hp t -> exists l, seg pg' (v'.2 t) l 0 /\ placed pg' None x l) ->
  lists_ok None pg' (<[hp := v']> A).
Proof.
  intros [L1 L2] Hp Hc Hv Hxa Hxf Ha Hf Hla Hlf. constructor.
  - intros h w Hw c. destruct (decide (x = Available h c)) as [E|E].
    + assert (h = hp) as -> by (by eapply Hxa). rewrite lookup_insert_eq in Hw. simplify_eq. by apply Hla.
    + assert (exists w0, A !! h = Some w0 /\ w.1 c = w0.1 c) as (w0 & Hw0 & ->).
      { apply lookup_insert_Some in Hw as [[<- <-]|[Hne Hw]]; [exists v; split; [done|by apply Ha]|by exists w]. }
      destruct (L1 h w0 Hw0 c) as (k & Hs & Hb & Hk). destruct (other_come (pg' := pg') p x _ k Hc Hk) as [Hvw Hk']; [congruence|done|].
      exists k. split_and!; [eapply seg_frame; [by apply view_next|done]|eapply backed_frame; [|done]; intros q Hq; apply (view_prev _ Hvw); by apply tail_elem|done].
  - intros h w Hw t. destruct (decide (x = Free h t)) as [E|E].
    + assert (h = hp) as -> by (by eapply Hxf). rewrite lookup_insert_eq in Hw. simplify_eq. by apply Hlf.
    + assert (exists w0, A !! h = Some w0 /\ w.2 t = w0.2 t) as (w0 & Hw0 & ->).
      { apply lookup_insert_Some in Hw as [[<- <-]|[Hne Hw]]; [exists v; split; [done|by apply Hf]|by exists w]. }
      destruct (L2 h w0 Hw0 t) as (k & Hs & Hk). destruct (other_come (pg' := pg') p x _ k Hc Hk) as [Hvw Hk']; [congruence|done|].
      exists k. split; [eapply seg_frame; [by apply view_next|done]|done].
Qed.
End Operations.
(** ** The functions *)

(** A page but for its links, and a heap but for its lists of pages. *)
Definition core (r : page_t) : page_t := set_page_next 0 (set_page_prev 0 r).
Definition page_lists (h : heap_t) : lists := (page_available h, page_free h).
Definition heap_core (h : heap_t) : heap_t := set_page_available (fun _ => 0) (set_page_free (fun _ => 0) (set_page_free_commit_count (fun _ => 0) h)).

Lemma core_insert (pg : gmap Z page_t) q r r' : pg !! q = Some r -> core r' = core r -> core <$> <[q := r']> pg = core <$> pg.
Proof. intros Hq E. rewrite fmap_insert, E. apply insert_id. by rewrite lookup_fmap, Hq. Qed.

Lemma heap_core_insert (hs : gmap Z heap_t) q h h' : hs !! q = Some h -> heap_core h' = heap_core h -> heap_core <$> <[q := h']> hs = heap_core <$> hs.
Proof. intros Hq E. rewrite fmap_insert, E. apply insert_id. by rewrite lookup_fmap, Hq. Qed.

(** A function of a part is kept with the part. *)
Lemma fmap_factor {A B C} (g : A -> B) (f : A -> C) (k : B -> C) (a b : gmap Z A) : (forall x, k (g x) = f x) -> g <$> a = g <$> b -> f <$> a = f <$> b.
Proof.
  intros Hk E. apply map_eq. intros i. rewrite !lookup_fmap. apply (f_equal (fun m => m !! i)) in E. rewrite !lookup_fmap in E.
  destruct (a !! i), (b !! i); try done. injection E as E. simpl. by rewrite <- !Hk, E.
Qed.

Lemma place_core r : place_of (core r) = place_of r.
Proof. done. Qed.

(** The lists of a heap may be written back. *)
Lemma lists_back {ex pg} {A : gmap Z lists} hp v : A !! hp = Some v -> lists_ok ex pg (<[hp := v]> A) -> lists_ok ex pg A.
Proof. intros Hv. by rewrite insert_id. Qed.

(** Neighbours in a list of available pages. *)
Lemma split_available (pg : gmap Z page_t) ex x head l1 p l2 :
  seg pg head (l1 ++ p :: l2) 0 -> backed pg (l1 ++ p :: l2) -> placed pg ex x (l1 ++ p :: l2) ->
  (l1 = [] /\ head = p) \/ (exists l0 q, l1 = l0 ++ [q] /\ head <> p /\ page_prev <$> pg !! p = Some q).
Proof.
  intros Hs Hb [Hn _]. destruct l1 as [|a l1 _] using rev_ind; [left; split; [done|]; by destruct Hs|right]. exists l1, a. split; [done|].
  rewrite <- app_assoc in *. split.
  - intros ->. destruct l1 as [|c l1]; destruct Hs as (-> & _); apply NoDup_cons in Hn as [Hn _]; apply Hn; [by left|].
    apply elem_of_app. right. right. left.
  - apply backed_app in Hb as [_ Hb]. by destruct Hb as [Hb _].
Qed.

(** ** Pushing and popping *)

Section Push.
Context {pg : gmap Z page_t} {A : gmap Z lists} (p hp : Z) (v : lists) (HA : A !! hp = Some v) (Hp0 : p <> 0).

(** A page is pushed to a list of available pages, and becomes the one before the
    old head. *)
Definition pushed (c : Z) (r' : page_t) : gmap Z page_t :=
  let pg' := <[p := r']> pg in
  if v.1 c =? 0 then pg' else match pg !! v.1 c with Some rh => <[v.1 c := set_page_prev p rh]> pg' | None => pg' end.

Lemma lists_push_available c r' :
  lists_ok (Some p) pg A -> place_of r' = Available hp c -> page_next r' = v.1 c -> lists_ok None (pushed c r') (<[hp := avail_set c p v]> A) /\
  pushed c r' !! p = Some r' /\ core <$> pushed c r' = core <$> <[p := r']> pg /\ (v.1 c <> 0 -> v.1 c <> p /\ is_Some (pg !! v.1 c)).
Proof using HA Hp0.
  intros L Hx Hnext. destruct (lk_available _ _ _ L hp v HA c) as (l & Hs & Hb & Hl). pose proof Hl as [Hnd Hmem].
  assert (p ∉ l) as Hpl by (by intros [? _]%Hmem).
  assert (v.1 c <> 0 -> exists k rh, l = v.1 c :: k /\ pg !! v.1 c = Some rh /\ v.1 c <> p /\ place_of rh = Available hp c) as Hhead.
  { intros Hv. destruct l as [|b k]; [simpl in Hs; lia|]. destruct Hs as (E & _). rewrite <- E in *. destruct (proj1 (Hmem (v.1 c))) as (Hne & rh & Hrh & Hxh); [left|].
    exists k, rh. split_and!; [done|done|congruence|done]. }
  assert (forall y, y <> p -> y <> v.1 c -> pushed c r' !! y = pg !! y) as Ey.
  { intros y H1 H2. unfold pushed. destruct (v.1 c =? 0); [by rewrite lookup_insert_ne|]. destruct (pg !! v.1 c); by rewrite ?lookup_insert_ne. }
  assert (pushed c r' !! p = Some r') as Ep.
  { unfold pushed. destruct (Z.eqb_spec (v.1 c) 0) as [E|E]; [apply lookup_insert_eq|]. destruct (Hhead E) as (k & rh & _ & -> & Hne & _). by rewrite lookup_insert_ne, lookup_insert_eq. }
  assert (forall y, y <> p -> page_next <$> pushed c r' !! y = page_next <$> pg !! y) as Enext.
  { intros y H1. destruct (decide (y = v.1 c)) as [->|H2]; [|by rewrite Ey]. unfold pushed. destruct (Z.eqb_spec (v.1 c) 0) as [E|E]; [by rewrite lookup_insert_ne|].
    destruct (Hhead E) as (k & rh & _ & -> & Hne & _). by rewrite lookup_insert_eq. }
  split_and!; [|done| |intros E; destruct (Hhead E) as (k & rh & _ & -> & Hne & _); split; [done|by eexists]].
  - eapply (lists_come p (Available hp c) hp v); [done|intros r Hr; congruence| |done|by intros ? ? [= <-]|done| |done| |done].
    + intros y Hy. destruct (decide (y = v.1 c)) as [->|H2]; [|left; by rewrite Ey]. unfold pushed. destruct (Z.eqb_spec (v.1 c) 0) as [E|E]; [left; by rewrite lookup_insert_ne|].
      destruct (Hhead E) as (k & rh & _ & E1 & Hne & E2). right. rewrite E1. exists rh, (set_page_prev p rh). by rewrite lookup_insert_eq.
    + intros c' Hc'. simpl. rewrite fn_lookup_insert_ne; [done|congruence].
    + intros c' [= <-]. exists (p :: l). simpl. rewrite fn_lookup_insert. split_and!; [done|done| | | |].
      * exists (v.1 c). rewrite Ep. split; [by simpl; rewrite Hnext|]. eapply seg_frame; [|done]. intros q Hq. apply Enext. by intros ->.
      * destruct l as [|b k]; [done|]. destruct Hs as (<- & Hb0 & _). destruct (Hhead Hb0) as (k' & rh & [= <-] & Hrh & Hne & _).
        unfold pushed. rewrite (proj2 (Z.eqb_neq _ _)) by done. by rewrite Hrh, lookup_insert_eq.
      * eapply backed_frame; [|done]. intros q Hq. pose proof (tail_elem _ _ Hq). rewrite Ey; [done|by intros ->|]. intros ->. destruct l as [|b k]; [by inversion Hq|].
        destruct Hs as (<- & _). by apply NoDup_cons in Hnd as [? _].
      * eapply placed_come; [|done|done|done]. intros y Hy. destruct (decide (y = v.1 c)) as [->|H2]; [|left; by rewrite Ey].
        unfold pushed. destruct (Z.eqb_spec (v.1 c) 0) as [E|E]; [left; by rewrite lookup_insert_ne|].
        destruct (Hhead E) as (k & rh & _ & E1 & Hne & E2). right. rewrite E1. exists rh, (set_page_prev p rh). by rewrite lookup_insert_eq.
  - unfold pushed. destruct (Z.eqb_spec (v.1 c) 0) as [E|E]; [done|]. destruct (Hhead E) as (k & rh & _ & Eh & Hne & _). rewrite Eh.
    apply (core_insert _ _ rh); [by rewrite lookup_insert_ne|done].
Qed.

(** A page is pushed to a list of free pages. *)
Lemma lists_push_free t r' :
  lists_ok (Some p) pg A -> place_of r' = Free hp t -> page_next r' = v.2 t -> lists_ok None (<[p := r']> pg) (<[hp := free_set t p v]> A).
Proof using HA Hp0.
  intros L Hx Hnext. destruct (lk_free _ _ _ L hp v HA t) as (l & Hs & Hl). pose proof Hl as [Hnd Hmem].
  assert (p ∉ l) as Hpl by (by intros [? _]%Hmem).
  assert (changes (pg := pg) (pg' := <[p := r']> pg) p (Free hp t)) as Hch by (intros y Hy; left; by rewrite lookup_insert_ne).
  eapply (lists_come p (Free hp t) hp v); [done|intros r; rewrite lookup_insert_eq; congruence|done|done|done|by intros ? ? [= <-]|done| |done|].
  - intros t' Ht'. simpl. rewrite fn_lookup_insert_ne; [done|congruence].
  - intros t' [= <-]. exists (p :: l). simpl. rewrite fn_lookup_insert. split; [|by eapply placed_come; [done|done|apply lookup_insert_eq|]].
    split_and!; [done|done|]. exists (v.2 t). rewrite lookup_insert_eq. split; [by simpl; rewrite Hnext|]. eapply seg_frame; [|done]. intros q Hq. rewrite lookup_insert_ne; [done|by intros ->].
Qed.

Lemma lists_pop_free t :
  lists_ok None pg A -> v.2 t = p ->
  exists r, pg !! p = Some r /\ place_of r = Free hp t /\ lists_ok (Some p) pg (<[hp := free_set t (page_next r) v]> A).
Proof using HA Hp0.
  intros L Ht. destruct (lk_free _ _ _ L hp v HA t) as (l & Hs & Hl). destruct l as [|b l]; [simpl in Hs; lia|]. destruct Hs as (E & _ & next & Hnext & Hs).
  assert (b = p) as -> by congruence. destruct (proj1 (proj2 Hl p)) as (_ & r & Hr & Hx); [left|]. exists r. split_and!; [done|done|].
  rewrite Hr in Hnext. injection Hnext as <-. assert (changes (pg := pg) (pg' := pg) p (Free hp t)) as Hch by (by left).
  eapply (lists_leave p (Free hp t) hp v); [done|intros r' Hr'; by simplify_eq|done|done|done|by intros ? ? [= <-]|done| |done|].
  - intros t' Ht'. simpl. rewrite fn_lookup_insert_ne; [done|congruence].
  - intros t' [= <-]. exists l. simpl. rewrite fn_lookup_insert. split; [done|]. by apply (placed_leave p _ [] l Hch).
Qed.

(** A page that is in no list does not matter. *)
Lemma lists_enter r' : lists_ok None pg A -> (forall r, pg !! p = Some r -> place_of r = Nowhere) -> lists_ok (Some p) (<[p := r']> pg) A.
Proof using Type.
  clear Hp0 HA. intros [L1 L2] Hr. assert (forall x l, x <> Nowhere -> placed pg None x l -> placed pg (Some p) x l) as Hpl.
  { intros x l Hx [Hn Hl]. split; [done|]. intros q. rewrite Hl. split; intros (Hq & r & Er & E); (split; [|by exists r]); [|done]. intros [= ->]. specialize (Hr r Er). congruence. }
  eapply lists_frame; [intros q Hq; rewrite lookup_insert_ne; [done|congruence]|]. constructor.
  - intros h w Hw c. destruct (L1 h w Hw c) as (l & Hs & Hb & Hl). exists l. split_and!; [done|done|by apply Hpl].
  - intros h w Hw t. destruct (L2 h w Hw t) as (l & Hs & Hl). exists l. split; [done|by apply Hpl].
Qed.

(** And a page may come back to no list. *)
Lemma lists_nowhere r' : lists_ok (Some p) pg A -> place_of r' = Nowhere -> lists_ok None (<[p := r']> pg) A.
Proof using Type.
  clear Hp0 HA. intros L Hr. assert (lists_ok (Some p) (<[p := r']> pg) A) as [L1 L2] by (eapply lists_frame; [intros q Hq; rewrite lookup_insert_ne; [done|congruence]|done]).
  assert (forall x l, x <> Nowhere -> placed (<[p := r']> pg) (Some p) x l -> placed (<[p := r']> pg) None x l) as Hpl.
  { intros x l Hx [Hn Hl]. split; [done|]. intros q. rewrite Hl. split; intros (Hq & r & Er & E); (split; [|by exists r]); [done|]. intros [= ->]. rewrite lookup_insert_eq in Er. congruence. }
  constructor.
  - intros h w Hw c. destruct (L1 h w Hw c) as (l & Hs & Hb & Hl). exists l. split_and!; [done|done|by apply Hpl].
  - intros h w Hw t. destruct (L2 h w Hw t) as (l & Hs & Hl). exists l. split; [done|by apply Hpl].
Qed.
End Push.

Section Functions.
Context `{HC : !Config} `{HM : !MemoryInterface}.

(** What is left of a list when [p] is taken out behind [q]. *)
Lemma unlink_list (pg pg' : gmap Z page_t) ex x head l0 q p l2 n :
  seg pg head l0 q -> seg pg n l2 0 -> q <> 0 -> backed pg (l0 ++ q :: p :: l2) -> placed pg ex x (l0 ++ q :: p :: l2) ->
  page_next <$> pg' !! q = Some n -> (forall y, y <> q -> page_next <$> pg' !! y = page_next <$> pg !! y) ->
  (forall b k, l2 = b :: k -> page_prev <$> pg' !! b = Some q) -> (forall y, (forall b k, l2 = b :: k -> y <> b) -> page_prev <$> pg' !! y = page_prev <$> pg !! y) ->
  seg pg' head (l0 ++ q :: l2) 0 /\ backed pg' (l0 ++ q :: l2).
Proof.
  intros Hs0 Hs2 Hq0 Hb [Hn _] Hqn Hnext Hbp Hprev.
  apply NoDup_app in Hn as (Hn0 & Hn02 & Hn). apply NoDup_cons in Hn as [Hnq Hn]. apply NoDup_cons in Hn as [Hnp Hn2].
  assert (forall y, y ∈ l2 -> y <> q) as Hq2 by (intros y Hy ->; apply Hnq; by right).
  assert (forall y, y ∈ l0 ++ [q] -> forall b k, l2 = b :: k -> y <> b) as Hy2.
  { intros y Hy b k -> <-. apply elem_of_app in Hy as [Hy|Hy%list_elem_of_singleton]; [apply (Hn02 y Hy); right; right; left|subst; apply Hnq; right; left]. }
  split.
  - apply seg_app. exists q. split.
    + eapply seg_frame; [|done]. intros y Hy. apply Hnext. intros ->. apply (Hn02 q Hy). left.
    + split_and!; [done|done|]. exists n. split; [done|]. eapply seg_frame; [|done]. intros y Hy. apply Hnext. by apply Hq2.
  - apply backed_app in Hb as [Hb0 Hb2]. apply backed_app. split.
    + eapply backed_frame; [|done]. intros y Hy. apply Hprev. apply Hy2. by apply tail_elem.
    + destruct Hb2 as [_ Hb2]. destruct l2 as [|b l2]; [done|]. destruct Hb2 as [_ Hb2]. split; [by apply (Hbp b l2)|].
      eapply backed_frame; [|done]. intros y Hy. apply Hprev. intros b' k [= <- <-] ->. simpl in Hy. apply NoDup_cons in Hn2 as [Hn2 _]. done.
Qed.

Lemma wp_unlink_available p r h (Q : unit -> state -> Prop) s :
  lists_ok None (pages s) (page_lists <$> heaps s) -> pages s !! p = Some r -> place_of r = Available (page_heap r) (size_class r) ->
  heaps s !! page_heap r = Some h ->
  (forall pg' hs', core <$> pg' = core <$> pages s -> pg' !! p = Some r -> heap_core <$> hs' = heap_core <$> heaps s -> lists_ok (Some p) pg' (page_lists <$> hs') ->
     Q tt (set_heaps hs' (set_pages pg' s))) ->
  wp (unlink_available p) Q s.
Proof.
  intros L Hp Hx Hh HQ. set (hp := page_heap r) in *. set (c := size_class r) in *.
  assert ((page_lists <$> heaps s) !! hp = Some (page_lists h)) as Hv by (by rewrite lookup_fmap, Hh).
  destruct (lk_available _ _ _ L hp _ Hv c) as (l & Hs & Hb & Hl). assert (p ∈ l) as Hin by (apply Hl; split; [done|by exists r]).
  apply list_elem_of_split in Hin as (l1 & l2 & ->).
  assert (forall r', pages s !! p = Some r' -> place_of r' = Available hp c) as Hpx by (intros r' Hr'; by simplify_eq).
  pose proof (split_available _ _ _ _ _ _ _ Hs Hb Hl) as Hcases.
  apply seg_app in Hs as (mid & Hs1 & Hs2). destruct Hs2 as (-> & Hp0 & next & Hnext & Hs2). rewrite Hp in Hnext. injection Hnext as <-.
  unfold unlink_available. repeat wp_step. fold hp c. simpl in Hs1.
  destruct Hcases as [[-> Hhead]|(l0 & q & -> & Hhead & Hprev)].
  - simpl in Hhead. rewrite Hhead, Z.eqb_refl. wp_step. apply HQ; [done|done|by eapply heap_core_insert|]. rewrite fmap_insert.
    assert (changes (pg := pages s) (pg' := pages s) p (Available hp c)) as Hch by (by left).
    eapply (lists_leave p (Available hp c) hp (page_lists h)); [done|done|done|done|by intros ? ? [= <-]|done| | |intros c' [= <-]|done].
    + intros c' Hc'. simpl. rewrite fn_lookup_insert_ne; [done|congruence].
    + done.
    + exists l2. simpl. rewrite fn_lookup_insert. split_and!; [done|by destruct Hb|]. by apply (placed_leave p _ [] l2 Hch Hl).
  - rewrite (proj2 (Z.eqb_neq _ _)) by done. rewrite Hp in Hprev. injection Hprev as Hprev.
    pose proof (seg_app (pages s) (page_available h c) l0 [q] p) as Happ. apply Happ in Hs1 as (mid & Hs0 & (-> & Hq0 & nq & Hnq & Hnqp)). simpl in Hnqp. subst nq.
    destruct (pages s !! q) as [rq|] eqn:Hq; [|done]. injection Hnq as Hnq.
    rewrite <- app_assoc in Hb, Hl. simpl in Hb, Hl. pose proof Hl as [Hnd Hmem]. 
    assert (place_of rq = Available hp c) as Hqx.
    { destruct (proj1 (Hmem q)) as (_ & r' & Hr' & Hx'); [apply elem_of_app; right; left|]. by simplify_eq. }
    assert (q <> p) as Hqp. { apply NoDup_app in Hnd as (_ & _ & Hnd). apply NoDup_cons in Hnd as [Hnd _]. intros ->. apply Hnd. left. }
    rewrite Hprev. repeat wp_step. apply wp_when; intros Hn0.
    + destruct l2 as [|b l2]; [simpl in Hs2; lia|]. destruct Hs2 as (Hnb & Hb0 & nb & Hnnb & Hs2).
      destruct (pages s !! b) as [rb|] eqn:Hbp; [|done].
      assert (b <> q /\ b <> p) as [Hbq Hbpne].
      { apply NoDup_app in Hnd as (_ & _ & Hnd). apply NoDup_cons in Hnd as [Hnd1 Hnd]. apply NoDup_cons in Hnd as [Hnd _]. split; intros ->; [apply Hnd1; right; left|apply Hnd; left]. }
      assert (place_of rb = Available hp c) as Hbx.
      { destruct (proj1 (Hmem b)) as (_ & r' & Hr' & Hx'); [apply elem_of_app; right; do 2 right; left|]. by simplify_eq. }
      rewrite Hnb. eapply wp_upd_page; [wp_simpl; rewrite lookup_insert_ne; done|]. wp_simpl.
      set (pg' := <[b := set_page_prev q rb]> (<[q := set_page_next b rq]> (pages s))).
      assert (pg' !! q = Some (set_page_next b rq)) as Eq by (unfold pg'; by rewrite lookup_insert_ne, lookup_insert_eq).
      assert (pg' !! b = Some (set_page_prev q rb)) as Eb by (apply lookup_insert_eq).
      assert (forall y, y <> q -> y <> b -> pg' !! y = pages s !! y) as Ey by (intros y Hy1 Hy2; unfold pg'; by rewrite !lookup_insert_ne).
      assert (changes (pg := pages s) (pg' := pg') p (Available hp c)) as Hch.
      { intros y Hy. destruct (decide (y = q)) as [->|Hyq]; [right; by exists rq, (set_page_next b rq)|].
        destruct (decide (y = b)) as [->|Hyb]; [right; by exists rb, (set_page_prev q rb)|]. left. by rewrite Ey. }
      refine (HQ pg' (heaps s) _ _ eq_refl _).
      * unfold pg'. rewrite (core_insert _ b rb) by (rewrite ?lookup_insert_ne; done). by apply (core_insert _ q rq).
      * by rewrite Ey.
      * apply (lists_back hp _ Hv). eapply (lists_leave p (Available hp c) hp (page_lists h)); [done|done|done|done|by intros ? ? [= <-]|done|done|done|intros c' [= <-]|done].
        destruct (unlink_list (pages s) pg' None (Available hp c) (page_available h c) l0 q p (b :: l2) b) as [F1 F2]; try done.
        -- split_and!; [done|done|]. exists nb. rewrite Hbp. done.
        -- by rewrite Eq.
        -- intros y Hy. destruct (decide (y = b)) as [->|Hyb]; [by rewrite Eb, Hbp|by rewrite Ey].
        -- intros b' k [= <- <-]. by rewrite Eb.
        -- intros y Hy. destruct (decide (y = q)) as [->|Hyq]; [by rewrite Eq, Hq|rewrite Ey; [done|done|by eapply Hy]].
        -- exists (l0 ++ q :: b :: l2). split_and!; [done|done|]. pose proof (placed_leave (pg' := pg') p _ (l0 ++ [q]) (b :: l2) Hch) as F3. rewrite <- !app_assoc in F3. by apply F3.
    + destruct l2 as [|b l2]; [|destruct Hs2 as (Hnb & Hb0 & _); lia]. simpl in Hs2.
      set (pg' := <[q := set_page_next (page_next r) rq]> (pages s)).
      assert (pg' !! q = Some (set_page_next (page_next r) rq)) as Eq by apply lookup_insert_eq.
      assert (forall y, y <> q -> pg' !! y = pages s !! y) as Ey by (intros y Hy1; unfold pg'; by rewrite !lookup_insert_ne).
      assert (changes (pg := pages s) (pg' := pg') p (Available hp c)) as Hch.
      { intros y Hy. destruct (decide (y = q)) as [->|Hyq]; [right; by exists rq, (set_page_next (page_next r) rq)|]. left. by rewrite Ey. }
      refine (HQ pg' (heaps s) _ _ eq_refl _).
      * by apply (core_insert _ q rq).
      * by rewrite Ey.
      * apply (lists_back hp _ Hv). eapply (lists_leave p (Available hp c) hp (page_lists h)); [done|done|done|done|by intros ? ? [= <-]|done|done|done|intros c' [= <-]|done].
        destruct (unlink_list (pages s) pg' None (Available hp c) (page_available h c) l0 q p [] (page_next r)) as [F1 F2]; try done.
        -- by rewrite Eq.
        -- intros y Hy. by rewrite Ey.
        -- intros y Hy. destruct (decide (y = q)) as [->|Hyq]; [by rewrite Eq, Hq|by rewrite Ey].
        -- exists (l0 ++ [q]). split_and!; [done|done|]. pose proof (placed_leave (pg' := pg') p _ (l0 ++ [q]) [] Hch) as F3. rewrite <- !app_assoc in F3. rewrite app_nil_r in F3. by apply F3.
Qed.
End Functions.
End RpLists.
