(* ===== verification/RpInv.v ===== *)
(** * The invariant of the allocator

    Mapped regions hold spans, spans hold pages, pages hold blocks; the cache of
    huge blocks and the heaps of the threads.  The parts of the invariant look
    at views of the state, so that an operation keeps the parts whose view it
    does not change. *)
From stdpp Require Import functions.
From S2P Require Import Prelude RpState Rpmalloc RpSize RpWp RpBlocks RpLists.

Module RpInv.
Import RpState Rpmalloc RpSize RpWp RpBlocks RpLists.

(** ** What the operating system promises *)

(** Mappings are fresh, aligned as asked for and stay until they are unmapped;
    committing succeeds. *)
Class MemoryLaws `{HM : !MemoryInterface} := {
  mapped : os -> Z -> Prop;
  map_success size alignment k p offset n k' :
    memory_map size alignment k = (Some (p, offset, n), k') ->
    4096 <= p - offset /\ 0 <= offset < 2 ^ 32 /\ p + size <= p - offset + n <= 2 ^ 63 /\ (alignment <> 0 -> p mod alignment = 0) /\ (alignment = 0 -> offset = 0) /\
    (forall x, p - offset <= x < p - offset + n -> ~ mapped k x) /\
    (forall x, mapped k' x <-> mapped k x \/ p - offset <= x < p - offset + n);
  map_failure size alignment k k' x : memory_map size alignment k = (None, k') -> mapped k' x <-> mapped k x;
  commit_success a n k : (memory_commit a n k).1 = false;
  commit_mapped a n k x : mapped (memory_commit a n k).2 x <-> mapped k x;
  decommit_mapped a n k x : mapped (memory_decommit a n k).2 x <-> mapped k x;
  unmap_mapped a offset n k x : mapped (memory_unmap a offset n k) x <-> mapped k x /\ ~ a - offset <= x < a - offset + n;
  time_mapped k x : mapped (monotonic_time_ms k).2 x <-> mapped k x }.

(** The page size is a power of two, 4096 at least. *)
Class ConfigLaws `{HC : !Config} := page_size_bits : exists n, 12 <= n <= 30 /\ config_page_size = 2 ^ n.

(** ** Views *)

(** What the blocks of a page depend on, and what its span depends on. *)
Definition bview (r : page_t) : page_t := set_is_decommitted false (set_commit_on_demand false (set_commit_prefix_shift 0 (core r))).
Definition sview (r : page_t) : page_type_t * Z * bool * bool * Z * bool * bool :=
  (page_type r, page_heap r, is_free r, is_decommitted r, commit_prefix_shift r, is_free r && is_zero r, is_huge (page_type r) && generic_free r).

Definition spview (r : page_t) : page_type_t * bool := (page_type r, is_huge (page_type r) && generic_free r).

Definition block_lists (h : heap_t) : lists := (heap_local_free h, heap_thread_free h).

(** A heap but for its lists of pages and blocks. *)
Definition hview (h : heap_t) : heap_t := set_heap_local_free (fun _ => 0) (set_heap_thread_free (fun _ => 0) (heap_core h)).

(** ** Spans *)

Definition span_len (s : span_t) : Z := if is_huge (span_page_type s) then page_size s * page_count s else SPAN_SIZE.
Definition region (sp : Z) (s : span_t) (x : Z) : Prop := sp - span_offset s <= x < sp - span_offset s + span_mapped_size s.

(** The address of a page of a span. *)
Definition page_at (sp : Z) (s : span_t) (i : Z) : Z := sp + psize (span_page_type s) * i.

Record spans_ok (S : gmap Z span_t) (pg : gmap Z page_t) (M : Z -> Prop) (m : Z -> Z) : Prop := {
  so_address sp s : S !! sp = Some s ->
    4096 <= sp - span_offset s /\ 0 <= span_offset s /\ sp mod SPAN_SIZE = 0 /\ sp + span_len s <= sp - span_offset s + span_mapped_size s <= 2 ^ 63;
  so_mapped sp s x : S !! sp = Some s -> region sp s x -> M x;
  so_apart sp s sp' s' x : S !! sp = Some s -> S !! sp' = Some s' -> region sp s x -> region sp' s' x -> sp = sp';
  so_pages sp s : S !! sp = Some s -> span_page_type s <> PAGE_HUGE ->
    page_address_mask s = mask (psize (span_page_type s)) /\ page_size s = psize (span_page_type s) /\
    page_count s = SPAN_SIZE / psize (span_page_type s) /\ 1 <= page_initialized s <= page_count s;
  so_huge sp s : S !! sp = Some s -> span_page_type s = PAGE_HUGE ->
    page_address_mask s = LARGE_PAGE_MASK /\ SPAN_HEADER_SIZE < span_len s /\
    exists r, pg !! sp = Some r /\ page_type r = PAGE_HUGE /\ generic_free r = true;
  so_page p r : pg !! p = Some r -> exists sp s, S !! sp = Some s /\ page_type r = span_page_type s /\
    if is_huge (span_page_type s) then p = sp else exists i, 0 <= i < page_initialized s /\ p = page_at sp s i;
  so_initialized sp s i : S !! sp = Some s -> span_page_type s <> PAGE_HUGE -> 0 <= i < page_initialized s -> is_Some (pg !! page_at sp s i);
  so_zero sp s x : S !! sp = Some s -> span_page_type s <> PAGE_HUGE -> page_at sp s (page_initialized s) <= x < sp + SPAN_SIZE -> m x = 0 }.

(** Only free pages are decommitted, and what is decommitted is zero; so is a free page that says so. *)
Definition decommit_ok (pg : gmap Z page_t) (m : Z -> Z) : Prop :=
  forall p r, pg !! p = Some r -> page_type r <> PAGE_HUGE ->
    7 <= commit_prefix_shift r <= 62 /\
    (is_free r && is_zero r = true -> forall x, p + PAGE_HEADER_SIZE <= x < p + psize (page_type r) -> m x = 0) /\
    (is_decommitted r = true -> is_free r = true /\ 2 ^ commit_prefix_shift r < psize (page_type r) /\ forall x, p + 2 ^ commit_prefix_shift r <= x < p + psize (page_type r) -> m x = 0).

(** A page is full when all its blocks are used; [ex] is being changed. *)
Definition full_ok (ex : option Z) (pg : gmap Z page_t) : Prop :=
  forall p r, pg !! p = Some r -> in_use r -> ex <> Some p -> is_full r = (block_used r =? block_count r).

(** The partial spans of a heap. *)
Definition partial_ok (S : gmap Z span_t) (hs : gmap Z heap_t) : Prop :=
  forall hp h t, hs !! hp = Some h -> t <> PAGE_HUGE -> span_partial h t <> 0 ->
    exists s, S !! span_partial h t = Some s /\ span_page_type s = t /\ page_initialized s < page_count s /\ span_heap s = hp.

(** ** The cache of huge blocks *)

Definition cached (slots : list (Z * Z)) (sp : Z) : Prop := sp <> 0 /\ exists i v, slots !! i = Some v /\ v.1 = sp.

Record huge_ok (S : gmap Z span_t) (slots : list (Z * Z)) : Prop := {
  hg_length : length slots = HUGE_CACHE_SLOT_COUNT;
  hg_span sp : cached slots sp -> exists s, S !! sp = Some s /\ span_page_type s = PAGE_HUGE;
  hg_once i j v w : slots !! i = Some v -> slots !! j = Some w -> v.1 = w.1 -> v.1 <> 0 -> i = j }.

(** ** Heaps and threads *)

Definition aligned_heap_size : Z := HEAP_ALIGNMENT * ((sizeof_heap_t + (HEAP_ALIGNMENT - 1)) / HEAP_ALIGNMENT).

(** The heaps that nobody has used yet, as a linked list. *)
Fixpoint heap_chain (hs : gmap Z heap_t) (head : Z) (l : list Z) : Prop :=
  match l with
  | [] => head = 0
  | hp :: l => head = hp /\ hp <> 0 /\ exists next, heap_next <$> hs !! hp = Some next /\ heap_chain hs next l
  end.

(** ** Geometry of spans *)

Lemma psize_divides t : exists k, SPAN_SIZE = psize t * k /\ 1 <= k.
Proof. destruct t; [exists 4096|exists 256|exists 64|exists 16|exists 16]; done. Qed.

Lemma page_at_bounds sp s i : 0 <= i < SPAN_SIZE / psize (span_page_type s) -> sp <= page_at sp s i /\ page_at sp s i + psize (span_page_type s) <= sp + SPAN_SIZE.
Proof.
  intros Hi. unfold page_at. destruct (psize_divides (span_page_type s)) as (k & E & Hk). pose proof (psize_pos (span_page_type s)).
  rewrite E in *. rewrite (Z.mul_comm (psize _) k), Z.div_mul in Hi by lia. nia.
Qed.

Section Spans.
Context {S : gmap Z span_t} {pg : gmap Z page_t} {M : Z -> Prop} {m : Z -> Z} (O : spans_ok S pg M m).

(** The span and the place of a page that is not huge. *)
Lemma page_span p r : pg !! p = Some r -> page_type r <> PAGE_HUGE ->
  exists sp s i, S !! sp = Some s /\ page_type r = span_page_type s /\ 0 <= i < page_initialized s /\ page_initialized s <= SPAN_SIZE / psize (page_type r) /\ p = page_at sp s i.
Proof using O.
  intros Hp Ht. destruct (so_page _ _ _ _ O p r Hp) as (sp & s & Hs & E & H). rewrite E in Ht.
  destruct (so_pages _ _ _ _ O sp s Hs Ht) as (_ & _ & E2 & H2). assert (is_huge (span_page_type s) = false) as E3 by (by destruct (span_page_type s)).
  rewrite E3 in H. destruct H as (i & Hi & ->). exists sp, s, i. rewrite E. split_and!; [done|done|lia|lia|lia|done].
Qed.

Lemma span_region sp s x : S !! sp = Some s -> sp <= x < sp + span_len s -> region sp s x.
Proof using O. intros Hs Hx. destruct (so_address _ _ _ _ O sp s Hs). unfold region. lia. Qed.

(** The page of a block lies in the region of its span. *)
Lemma page_region p r sp s i x :
  S !! sp = Some s -> page_type r = span_page_type s -> page_type r <> PAGE_HUGE -> 0 <= i < SPAN_SIZE / psize (page_type r) -> p = page_at sp s i ->
  p <= x < p + psize (page_type r) -> region sp s x.
Proof using O.
  intros Hs E Ht Hi -> Hx. rewrite E in *. pose proof (page_at_bounds sp s i Hi). apply span_region; [done|]. unfold span_len.
  destruct (span_page_type s); simpl; try done; lia.
Qed.

(** Different pages are apart. *)
Lemma pages_apart p r q r' : pg !! p = Some r -> pg !! q = Some r' -> page_type r <> PAGE_HUGE -> page_type r' <> PAGE_HUGE -> p <> q ->
  p + psize (page_type r) <= q \/ q + psize (page_type r') <= p.
Proof using O.
  intros Hp Hq Ht Ht' Hne. destruct (page_span p r Hp Ht) as (sp & s & i & Hs & E & Hi & Hn & Ep). destruct (page_span q r' Hq Ht') as (sq & s' & j & Hs' & E' & Hj & Hn' & Eq).
  destruct (Z_le_gt_dec (p + psize (page_type r)) q) as [|Hpq]; [by left|right]. destruct (Z_le_gt_dec (q + psize (page_type r')) p) as [|Hqp]; [done|exfalso].
  pose proof (psize_pos (page_type r)). pose proof (psize_pos (page_type r')).
  assert (sp = sq) as <-.
  { apply (so_apart _ _ _ _ O sp s sq s' (Z.max p q) Hs Hs').
    - eapply (page_region p r); [done|done|done| |done|lia]. rewrite E in *. lia.
    - eapply (page_region q r'); [done|done|done| |done|lia]. rewrite E' in *. lia. }
  assert (s = s') as <- by congruence. subst p q. unfold page_at in *. rewrite E, E' in *. assert (i <> j) by congruence. nia.
Qed.

(** The part of a span without pages. *)
Lemma uninitialized_apart p r sp s x : pg !! p = Some r -> page_type r <> PAGE_HUGE -> S !! sp = Some s -> span_page_type s <> PAGE_HUGE ->
  page_at sp s (page_initialized s) <= x < sp + SPAN_SIZE -> ~ p <= x < p + psize (page_type r).
Proof using O.
  intros Hp Ht Hs Hsh Hx Hpx. destruct (page_span p r Hp Ht) as (sq & s' & i & Hs' & E & Hi & Hn & Ep).
  destruct (so_pages _ _ _ _ O sp s Hs Hsh) as (_ & _ & Ec & Hc). pose proof (psize_pos (span_page_type s)).
  assert (sp = sq) as <-.
  { apply (so_apart _ _ _ _ O sp s sq s' x Hs Hs').
    - apply span_region; [done|]. unfold span_len, page_at in *. destruct (span_page_type s); simpl in *; try done; nia.
    - eapply (page_region p r); [done|done|done| |done|done]. lia. }
  assert (s = s') as <- by congruence. subst p. unfold page_at in *. rewrite E in *. nia.
Qed.

Lemma uninitialized_region sp s x : S !! sp = Some s -> span_page_type s <> PAGE_HUGE -> page_at sp s (page_initialized s) <= x < sp + SPAN_SIZE -> region sp s x.
Proof using O.
  intros Hs Hsh Hx. destruct (so_pages _ _ _ _ O sp s Hs Hsh) as (_ & _ & Ec & Hc). pose proof (psize_pos (span_page_type s)).
  apply span_region; [done|]. unfold span_len, page_at in *. destruct (span_page_type s); simpl in *; try done; nia.
Qed.

Lemma page_in_region p r x : pg !! p = Some r -> page_type r <> PAGE_HUGE -> p <= x < p + psize (page_type r) ->
  exists sp s, S !! sp = Some s /\ page_type r = span_page_type s /\ region sp s x.
Proof using O.
  intros Hp Ht Hx. destruct (page_span p r Hp Ht) as (sp & s & i & Hs & E & Hi & Hn & Ep). exists sp, s. split_and!; [done|done|].
  eapply (page_region p r); [done|done|done| |done|done]. lia.
Qed.

Lemma spans_frame pg' (M' : Z -> Prop) m' :
  spview <$> pg' = spview <$> pg -> (forall x, M' x <-> M x) ->
  (forall sp s x, S !! sp = Some s -> span_page_type s <> PAGE_HUGE -> page_at sp s (page_initialized s) <= x < sp + SPAN_SIZE -> m' x = m x) ->
  spans_ok S pg' M' m'.
Proof using O.
  intros E HM Hm. assert (forall p, spview <$> pg' !! p = spview <$> pg !! p) as Ep by (intros p; rewrite <- !lookup_fmap; by rewrite E).
  destruct O as [O1 O2 O3 O4 O5 O6 O7 O8]. constructor.
  - done.
  - intros sp s x Hs Hx. apply HM. by eapply O2.
  - done.
  - done.
  - intros sp s Hs Hh. destruct (O5 sp s Hs Hh) as (H1 & H2 & r & Hr & H3 & H4). split_and!; [done|done|]. specialize (Ep sp). rewrite Hr in Ep.
    destruct (pg' !! sp) as [r'|]; [|done]. injection Ep as E1 E2. exists r'. rewrite E1. split_and!; [done|done|]. rewrite E1, H3, H4 in E2. done.
  - intros p r' Hr'. specialize (Ep p). rewrite Hr' in Ep. destruct (pg !! p) as [r|] eqn:Hr; [|done]. injection Ep as E1 _. rewrite E1. by apply O6.
  - intros sp s i Hs Hh Hi. destruct (O7 sp s i Hs Hh Hi) as [r Hr]. specialize (Ep (page_at sp s i)). rewrite Hr in Ep. destruct (pg' !! _); [by eexists|done].
  - intros sp s x Hs Hh Hx. rewrite (Hm sp s x Hs Hh Hx). by eapply O8.
Qed.
End Spans.

Lemma decommit_frame pg pg' m m' :
  decommit_ok pg m -> sview <$> pg' = sview <$> pg ->
  (forall p r x, pg !! p = Some r -> page_type r <> PAGE_HUGE -> is_free r = true -> p <= x < p + psize (page_type r) -> m' x = m x) -> decommit_ok pg' m'.
Proof.
  intros D E Hm p r' Hr' Ht. apply (f_equal (fun f => f !! p)) in E. rewrite !lookup_fmap, Hr' in E. destruct (pg !! p) as [r|] eqn:Hr; [|done].
  injection E as E1 E2 E3 E4 E5 E6 E7. rewrite E1 in *. rewrite E3 in *. rewrite E4, E5, E6. destruct (D p r Hr Ht) as (D1 & D5 & D2). split; [done|split].
  - intros Hz x Hx. rewrite (Hm p r x Hr Ht); [by apply D5|by apply andb_true_iff in Hz as [? _]|unfold PAGE_HEADER_SIZE in *; lia].
  - intros Hd. destruct (D2 Hd) as (D3 & D6 & D4). split_and!; [done|done|]. intros x Hx. rewrite (Hm p r x Hr Ht D3); [by apply D4|]. assert (0 < 2 ^ commit_prefix_shift r) by (apply pow2_pos; lia). lia.
Qed.

(** ** Heaps *)

Section Heaps.
Context {hs hs' : gmap Z heap_t} (E : hview <$> hs' = hview <$> hs).

Lemma hview_lookup hp : hview <$> hs' !! hp = hview <$> hs !! hp.
Proof using E. rewrite <- !lookup_fmap. by rewrite E. Qed.

Lemma hview_back hp h' : hs' !! hp = Some h' -> exists h, hs !! hp = Some h /\ span_partial h' = span_partial h /\ heap_next h' = heap_next h /\ owner_thread h' = owner_thread h /\ id h' = id h.
Proof using E.
  intros Hh. pose proof (hview_lookup hp) as Ev. rewrite Hh in Ev. destruct (hs !! hp) as [h|]; [|done]. injection Ev as E1 E2 E3 E4 E5 E6 E7 E8. exists h. by rewrite E2, E4, E6.
Qed.

Lemma hview_some hp : is_Some (hs' !! hp) <-> is_Some (hs !! hp).
Proof using E. pose proof (hview_lookup hp) as Ev. destruct (hs !! hp), (hs' !! hp); try done; by split; intros _; eexists. Qed.

Lemma heap_chain_frame head l : heap_chain hs head l -> heap_chain hs' head l.
Proof using E.
  revert head. induction l as [|hp l IH]; intros head H; [done|]. destruct H as (-> & H0 & next & Hn & H). split_and!; [done|done|]. exists next. split; [|by apply IH].
  pose proof (hview_lookup hp) as Ev. destruct (hs !! hp) as [h|]; [|done]. destruct (hs' !! hp) as [h'|]; [|done]. injection Ev as E1 E2 E3 E4 E5 E6 E7 E8. simpl in *. congruence.
Qed.

Lemma partial_frame S : partial_ok S hs -> partial_ok S hs'.
Proof using E. intros H hp h' t Hh. destruct (hview_back hp h' Hh) as (h & Hh0 & Ep & _). rewrite Ep. by apply H. Qed.
End Heaps.

Section Invariant.
Context `{HC : !Config} `{HM : !MemoryInterface} `{HL : !MemoryLaws}.

Record threads_ok (s : state) : Prop := {
  th_zone hp h x : heaps s !! hp = Some h -> hp <> global_heap_fallback -> hp <= x < hp + aligned_heap_size ->
    mapped (kernel s) x /\ forall sp n, spans s !! sp = Some n -> ~ region sp n x;
  th_address hp h : heaps s !! hp = Some h -> hp <> global_heap_fallback -> 4096 <= hp;
  th_used : global_heap_used s = 0 \/ is_Some (heaps s !! global_heap_used s);
  th_pristine : exists l, NoDup l /\ heap_chain (heaps s) (global_heap_pristine s) l /\ forall hp, hp ∈ l -> hp <> global_heap_fallback /\ forall t, thread_heaps s !! t <> Some hp;
  th_queue : global_heap_queue s = 0;
  th_creating : global_heap_creating s = false;
  th_owner t t' hp : thread_heaps s !! t = Some hp -> thread_heaps s !! t' = Some hp -> hp <> 0 -> hp <> global_heap_fallback -> t = t';
  th_exists t hp : thread_heaps s !! t = Some hp -> hp = 0 \/ is_Some (heaps s !! hp) }.

(** Everything that the operations on pages and blocks leave alone. *)
Record outer_same (s s' : state) : Prop := {
  os_pages : sview <$> pages s' = sview <$> pages s;
  os_heaps : hview <$> heaps s' = hview <$> heaps s;
  os_spans : spans s' = spans s;
  os_mapped x : mapped (kernel s') x <-> mapped (kernel s) x;
  os_threads : thread_heaps s' = thread_heaps s;
  os_queue : global_heap_queue s' = global_heap_queue s;
  os_pristine : global_heap_pristine s' = global_heap_pristine s;
  os_used : global_heap_used s' = global_heap_used s;
  os_creating : global_heap_creating s' = global_heap_creating s;
  os_slots : huge_slots s' = huge_slots s }.

(** The invariant but for the lists of pages, and the whole of it. *)
Record Base (ex : option Z) (st : gmap Z status) (s : state) : Prop := {
  iv_blocks : blocks_ok (bview <$> pages s) (block_lists <$> heaps s) (mem s) st;
  iv_full : full_ok ex (pages s);
  iv_heap p r : pages s !! p = Some r -> is_Some (heaps s !! page_heap r);
  iv_spans : spans_ok (spans s) (pages s) (mapped (kernel s)) (mem s);
  iv_decommit : decommit_ok (pages s) (mem s);
  iv_partial : partial_ok (spans s) (heaps s);
  iv_huge : huge_ok (spans s) (huge_slots s);
  iv_threads : threads_ok s }.

Record Inv (ex : option Z) (st : gmap Z status) (s : state) : Prop := {
  iv_base : Base ex st s;
  iv_lists : lists_ok None (pages s) (page_lists <$> heaps s) }.

Lemma threads_frame s s' : threads_ok s -> outer_same s s' -> threads_ok s'.
Proof.
  intros [T1 T2 T3 T4 T5 T6 T7 T8] [U1 U2 U3 U4 U5 U6 U7 U8 U9 U10]. constructor; rewrite ?U3, ?U5, ?U6, ?U7, ?U8, ?U9; try done.
  - intros hp h x Hh. destruct (hview_back U2 hp h Hh) as (h0 & Hh0 & _). rewrite U4. by eapply T1.
  - intros hp h Hh. destruct (hview_back U2 hp h Hh) as (h0 & Hh0 & _). by eapply T2.
  - destruct T3 as [T3|T3]; [by left|right]. by apply (hview_some U2).
  - destruct T4 as (l & Hn & Hc & Hl). exists l. split_and!; [done|by eapply heap_chain_frame|done].
  - intros t hp Ht. destruct (T8 t hp Ht) as [|Hs]; [by left|right]. by apply (hview_some U2).
Qed.

(** The memory of pages in use and of huge spans changed, and nothing else. *)
Definition inside_pages (s : state) (m' : Z -> Z) : Prop :=
  forall x, m' x <> mem s x ->
    (exists p r, pages s !! p = Some r /\ in_use r /\ p <= x < p + psize (page_type r)) \/
    (exists sp v, spans s !! sp = Some v /\ span_page_type v = PAGE_HUGE /\ region sp v x).

Lemma base_frame ex ex' st st' s s' :
  Base ex st s -> outer_same s s' -> inside_pages s (mem s') ->
  blocks_ok (bview <$> pages s') (block_lists <$> heaps s') (mem s') st' -> full_ok ex' (pages s') -> Base ex' st' s'.
Proof.
  intros I U Hm B F. pose proof U as [U1 U2 U3 U4 U5 U6 U7 U8 U9 U10]. constructor; [done|done| | | | |rewrite U3, U10; apply I|by eapply threads_frame; [apply I|]].
  - intros p r' Hr'. pose proof (f_equal (fun f => f !! p) U1) as E. cbn beta in E. rewrite !lookup_fmap, Hr' in E. destruct (pages s !! p) as [r|] eqn:Hr; [|done].
    injection E as E1 E2 E3 E4 E5 E6 E7. rewrite E2. apply (hview_some U2). by eapply (iv_heap _ _ _ I).
  - rewrite U3. eapply spans_frame; [apply I|by eapply (fmap_factor sview spview (fun v => (v.1.1.1.1.1.1, v.2)))|done|]. intros sp n x Hs Hh Hx. destruct (decide (mem s' x = mem s x)) as [|Hne]; [done|exfalso].
    destruct (Hm x Hne) as [(p & r & Hr & Hu & Hpx)|(sq & v & Hv & Hvh & Hvx)]; [by eapply (uninitialized_apart (iv_spans _ _ _ I) p r sp n x Hr (proj2 Hu))|].
    assert (sp = sq) as <- by (eapply (so_apart _ _ _ _ (iv_spans _ _ _ I)); [exact Hs|exact Hv|by eapply (uninitialized_region (iv_spans _ _ _ I))|done]). congruence.
  - eapply decommit_frame; [apply I|done|]. intros p r x Hr Ht Hf Hx. destruct (decide (mem s' x = mem s x)) as [|Hne]; [done|exfalso].
    destruct (Hm x Hne) as [(q & r' & Hr' & Hu & Hqx)|(sq & v & Hv & Hvh & Hvx)].
    2: { destruct (page_in_region (iv_spans _ _ _ I) p r x Hr Ht Hx) as (sp & n & Hs & En & Hxr). assert (sp = sq) as <- by (by eapply (so_apart _ _ _ _ (iv_spans _ _ _ I))). congruence. }
    assert (p <> q) as Hpq by (intros ->; simplify_eq; by destruct Hu; congruence).
    destruct (pages_apart (iv_spans _ _ _ I) p r q r' Hr Hr' Ht (proj2 Hu) Hpq); lia.
  - rewrite U3. eapply partial_frame; [done|apply I].
Qed.
End Invariant.
End RpInv.
