(* ===== verification/RpLive.v ===== *)
(** * Live blocks

    What the program holds, what an operation may do to it, and the steps of the
    allocator that change one page. *)
From stdpp Require Import functions.
From S2P Require Import Prelude RpState Rpmalloc RpSize RpWp RpBlocks RpLists RpInv.

Module RpLive.
Import RpState Rpmalloc RpSize RpWp RpBlocks RpLists RpInv.

Section Live.
Context `{HC : !Config} `{HM : !MemoryInterface} `{HL : !MemoryLaws}.

(** The blocks that the program holds, with their sizes; [al] says that the
    program may hold an aligned address inside of the block instead. *)
Definition class_live (st : gmap Z status) (s : state) (b n : Z) (al : bool) : Prop :=
  st !! b = Some Live /\ exists p r, pages s !! p = Some r /\ in_use r /\ member p r b /\ n = block_size r /\ al = has_aligned_block r.

Definition huge_live (s : state) (b n : Z) (al : bool) : Prop :=
  exists sp v, spans s !! sp = Some v /\ span_page_type v = PAGE_HUGE /\ ~ cached (huge_slots s) sp /\ b = sp + SPAN_HEADER_SIZE /\ n = span_len v - SPAN_HEADER_SIZE /\ al = true.

Definition live (st : gmap Z status) (s : state) (b n : Z) (al : bool) : Prop := class_live st s b n al \/ huge_live s b n al.

(** The threads have the heaps that they had. *)
Definition calm (s s' : state) : Prop :=
  thread_heaps s' = thread_heaps s /\ forall hp h, heaps s !! hp = Some h -> exists h', heaps s' !! hp = Some h' /\ id h' = id h /\ owner_thread h' = owner_thread h.

(** Blocks but those of [D] stay, with their contents, and only those of [N] come. *)
Record kept (D N : gset Z) (st : gmap Z status) (s : state) (st' : gmap Z status) (s' : state) : Prop := {
  kp_keep b n al : live st s b n al -> b ∉ D -> exists al', live st' s' b n al' /\ (al = true -> al' = true);
  kp_content b n al x : live st s b n al -> b ∉ D -> b <= x < b + n -> mem s' x = mem s x;
  kp_new b n al : live st' s' b n al -> b ∈ N \/ exists al0, live st s b n al0;
  kp_gone b n al : b ∈ D -> b ∉ N -> ~ live st' s' b n al;
  kp_calm : calm s s' }.

Lemma kept_refl st s : kept ∅ ∅ st s st s.
Proof. constructor; [intros b n al H _; by exists al|done|intros b n al H; right; by exists al|set_solver|]. split; [done|]. intros hp h H. by exists h. Qed.

Lemma kept_weaken (D N D' N' : gset Z) st s st' s' : kept D N st s st' s' -> D ⊆ D' -> N ⊆ N' -> D' ⊆ D ∪ N' -> kept D' N' st s st' s'.
Proof.
  intros [K1 K2 K3 K4 K5] H1 H2 H3. constructor; [| | | |done].
  - intros b n al H Hb. apply (K1 b n al H). set_solver.
  - intros b n al x H Hb. apply (K2 b n al x H). set_solver.
  - intros b n al H. destruct (K3 b n al H); [left; set_solver|by right].
  - intros b n al Hb Hn. apply K4; set_solver.
Qed.

Lemma kept_trans (D1 N1 D2 N2 : gset Z) st1 s1 st2 s2 st3 s3 :
  kept D1 N1 st1 s1 st2 s2 -> kept D2 N2 st2 s2 st3 s3 -> kept (D1 ∪ D2) (N2 ∪ (N1 ∖ D2)) st1 s1 st3 s3.
Proof.
  intros [K1 K2 K3 K4 K5] [L1 L2 L3 L4 L5]. constructor.
  - intros b n al H Hb. destruct (K1 b n al H) as (al1 & H1 & E1); [set_solver|]. destruct (L1 b n al1 H1) as (al2 & H2 & E2); [set_solver|]. exists al2. auto.
  - intros b n al x H Hb Hx. destruct (K1 b n al H) as (al1 & H1 & E1); [set_solver|]. rewrite (L2 b n al1 x H1) by set_solver. apply (K2 b n al x H); set_solver.
  - intros b n al H. destruct (L3 b n al H) as [H1|[al1 H2]]; [left; set_solver|]. destruct (K3 b n al1 H2) as [H3|H3]; [|by right].
    left. destruct (decide (b ∈ D2)) as [Hd|Hd]; [|set_solver]. destruct (decide (b ∈ N2)); [set_solver|]. by destruct (L4 b n al Hd ltac:(done)).
  - intros b n al Hd Hn H. destruct (L3 b n al H) as [H1|[al1 H2]]; [set_solver|]. destruct (decide (b ∈ D2)) as [Hd2|Hd2]; [apply (L4 b n al Hd2); set_solver|].
    apply (K4 b n al1); set_solver.
  - destruct K5 as [E1 H1], L5 as [E2 H2]. split; [congruence|]. intros hp h Hh. destruct (H1 hp h Hh) as (h1 & Hh1 & E3 & E4). destruct (H2 hp h1 Hh1) as (h2 & Hh2 & E5 & E6).
    exists h2. split_and!; [done|congruence|congruence].
Qed.
Lemma kept_after (D N : gset Z) st1 s1 st2 s2 st3 s3 : kept D N st1 s1 st2 s2 -> kept ∅ ∅ st2 s2 st3 s3 -> kept D N st1 s1 st3 s3.
Proof. intros K1 K2. eapply kept_weaken; [exact (kept_trans _ _ _ _ _ _ _ _ _ _ K1 K2)|set_solver..]. Qed.

Lemma kept_before (D N : gset Z) st1 s1 st2 s2 st3 s3 : kept ∅ ∅ st1 s1 st2 s2 -> kept D N st2 s2 st3 s3 -> kept D N st1 s1 st3 s3.
Proof. intros K1 K2. eapply kept_weaken; [exact (kept_trans _ _ _ _ _ _ _ _ _ _ K1 K2)|set_solver..]. Qed.

Lemma kept_twice (D : gset Z) st1 s1 st2 s2 st3 s3 : kept D D st1 s1 st2 s2 -> kept D D st2 s2 st3 s3 -> kept D D st1 s1 st3 s3.
Proof. intros K1 K2. eapply kept_weaken; [exact (kept_trans _ _ _ _ _ _ _ _ _ _ K1 K2)|set_solver..]. Qed.

(** Blocks that come and go again do not count. *)
Lemma kept_hidden (N : gset Z) st1 s1 st2 s2 st3 s3 : kept ∅ N st1 s1 st2 s2 -> kept N ∅ st2 s2 st3 s3 -> (forall b n al, b ∈ N -> ~ live st1 s1 b n al) -> kept ∅ ∅ st1 s1 st3 s3.
Proof.
  intros K1 K2 HN. destruct (kept_trans _ _ _ _ _ _ _ _ _ _ K1 K2) as [T1 T2 T3 T4 T5]. constructor; [| | |set_solver|done].
  - intros b n al Hb _. apply (T1 b n al Hb). intros Hd. apply (HN b n al); [set_solver|done].
  - intros b n al x Hb _. apply (T2 b n al x Hb). intros Hd. apply (HN b n al); [set_solver|done].
  - intros b n al Hb. destruct (T3 b n al Hb) as [Hn|Hl]; [set_solver|by right].
Qed.

(** ** Blocks and pages of a state *)

Lemma bview_ok r : page_ok r <-> page_ok (bview r).
Proof. split; intros [H1 H2 H3 H4 H5 H6 H7 H8]; by constructor. Qed.

Lemma bview_lookup (pg : gmap Z page_t) p r : pg !! p = Some r -> (bview <$> pg) !! p = Some (bview r).
Proof. intros H. by rewrite lookup_fmap, H. Qed.

Section Pages.
Context {ex : option Z} {st : gmap Z status} {s : state} (I : Base ex st s).

Lemma status_page b x : st !! b = Some x -> exists p r, pages s !! p = Some r /\ in_use r /\ page_ok r /\ member p r b /\ located x p r.
Proof using I.
  intros Hb. destruct (live_page (iv_blocks _ _ _ I) b x Hb) as (p & r0 & Hp & Hu & Hok & Hm & Hl). rewrite lookup_fmap in Hp.
  destruct (pages s !! p) as [r|] eqn:Hr; [|done]. injection Hp as <-. exists p, r. split_and!; [done|done|by apply bview_ok|done|done].
Qed.

Lemma page_is_ok p r : pages s !! p = Some r -> in_use r -> page_ok r.
Proof using I. intros Hp Hu. apply bview_ok. eapply (bk_page _ _ _ _ (iv_blocks _ _ _ I) p); [by apply bview_lookup|done]. Qed.

Lemma one_page p r q r' b : pages s !! p = Some r -> in_use r -> member p r b -> pages s !! q = Some r' -> in_use r' -> member q r' b -> p = q.
Proof using I. intros Hp Hu Hm Hq Hu' Hm'. by eapply (member_one_page (iv_blocks _ _ _ I) p (bview r) q (bview r') b); try by apply bview_lookup. Qed.

Lemma blocks_apart p r b q r' c :
  pages s !! p = Some r -> in_use r -> member p r b -> pages s !! q = Some r' -> in_use r' -> member q r' c -> b <> c -> b + block_size r <= c \/ c + block_size r' <= b.
Proof using I. intros Hp Hu Hm Hq Hu' Hm'. by eapply (members_apart (iv_blocks _ _ _ I) p (bview r) b q (bview r') c); try by apply bview_lookup. Qed.

Lemma page_address p r : pages s !! p = Some r -> page_type r <> PAGE_HUGE -> 0 < p /\ p mod 2 ^ 16 = 0 /\ p + psize (page_type r) < 2 ^ 64.
Proof using I. intros Hp Hh. by eapply (bk_address _ _ _ _ (iv_blocks _ _ _ I) p (bview r)); [apply bview_lookup|]. Qed.

(** A block of a page is none of the huge ones. *)
Lemma member_no_header p r b sp v : pages s !! p = Some r -> in_use r -> member p r b -> spans s !! sp = Some v -> span_page_type v = PAGE_HUGE -> b <> sp + SPAN_HEADER_SIZE.
Proof using I.
  intros Hp Hu Hm Hs Hh ->. pose proof (iv_spans _ _ _ I) as O.
  destruct (page_span O p r Hp (proj2 Hu)) as (sq & w & i & Hw & E & Hi & Hn & Ep). destruct (so_huge _ _ _ _ O sp v Hs Hh) as (_ & Hlen & _).
  destruct (member_bounds p r _ (page_is_ok p r Hp Hu) Hm) as (H1 & H2 & H3). assert (sp = sq) as <-.
  { apply (so_apart _ _ _ _ O sp v sq w (sp + SPAN_HEADER_SIZE) Hs Hw); [apply (span_region O); [done|]; unfold SPAN_HEADER_SIZE, PAGE_HEADER_SIZE in *; lia|].
    eapply (page_region O p r); [done|done|by destruct Hu| |done|unfold PAGE_HEADER_SIZE in *; lia]. lia. }
  simplify_eq. destruct Hu as [_ Hu]. congruence.
Qed.

Lemma member_not_huge p r b n al : pages s !! p = Some r -> in_use r -> member p r b -> ~ huge_live s b n al.
Proof using I. intros Hp Hu Hm (sp & v & Hs & Hh & _ & -> & _). by apply (member_no_header p r (sp + SPAN_HEADER_SIZE) sp v Hp Hu Hm Hs Hh). Qed.

(** What the cache has is not with the program. *)
Lemma cached_not_live sp v n al : spans s !! sp = Some v -> span_page_type v = PAGE_HUGE -> cached (huge_slots s) sp -> ~ live st s (sp + SPAN_HEADER_SIZE) n al.
Proof using I.
  intros Hs Hh Hc [[_ (p & r & Hp & Hu & Hm & _)]|(sq & w & _ & _ & Hn & E & _)]; [by apply (member_no_header p r (sp + SPAN_HEADER_SIZE) sp v)|].
  assert (sp = sq) as <- by lia. done.
Qed.
End Pages.

(** ** One page changes *)

(** Heaps, pages and memory apart, nothing changes. *)
Definition rest_same (s s' : state) : Prop := s' = set_heaps (heaps s') (set_pages (pages s') (set_mem (mem s') s)).

Lemma rest_refl s : rest_same s s.
Proof. by destruct s. Qed.

Lemma rest_fields s s' : rest_same s s' -> spans s' = spans s /\ huge_slots s' = huge_slots s /\ kernel s' = kernel s.
Proof. unfold rest_same. intros E. destruct s, s'. simpl in *. by injection E as -> -> -> -> -> -> -> -> -> ->. Qed.

Lemma rest_outer s s' : rest_same s s' -> sview <$> pages s' = sview <$> pages s -> hview <$> heaps s' = hview <$> heaps s -> outer_same s s'.
Proof. unfold rest_same. intros E H1 H2. destruct s, s'. simpl in *. injection E as -> -> -> -> -> -> -> -> -> ->. by constructor. Qed.

Lemma hview_calm s s' : thread_heaps s' = thread_heaps s -> hview <$> heaps s' = hview <$> heaps s -> calm s s'.
Proof.
  intros Ht H2. split; [done|]. intros hp h Hh. pose proof (f_equal (fun f => f !! hp) H2) as E. cbn beta in E. rewrite !lookup_fmap, Hh in E.
  destruct (heaps s' !! hp) as [h'|]; [|done]. injection E as E1 E2 E3 E4 E5 E6 E7 E8. by exists h'.
Qed.

Section Step.
Context {ex : option Z} {st : gmap Z status} {s : state} (I : Base ex st s).
Context (p : Z) (r r' : page_t) (Hp : pages s !! p = Some r) (Hu : in_use r) (Hs : same_place r r') (Hok : page_ok r') (Hv : sview r' = sview r).
Context (s' : state) (Hrest : rest_same s s') (Hpg : pages s' = <[p := r']> (pages s)).
Context (Hm : forall x, ~ p <= x < p + psize (page_type r) -> mem s' x = mem s x).

Lemma step_in_use : in_use r'.
Proof using Hu Hs Hv. injection Hv as E1 E2 E3 E4 E5 E6 E7. destruct Hu as [H1 H2]. split; congruence. Qed.

Lemma step_sview : sview <$> pages s' = sview <$> pages s.
Proof using Hp Hv Hpg. rewrite Hpg, fmap_insert, Hv. apply insert_id. by rewrite lookup_fmap, Hp. Qed.

Lemma step_inside : inside_pages s (mem s').
Proof using Hp Hu Hm.
  intros x Hx. left. exists p, r. split_and!; [done|done| |]; destruct (decide (p <= x < p + psize (page_type r))); [lia| |lia|]; by destruct Hx; apply Hm.
Qed.

(** The blocks of one page change their lists. *)
Lemma page_step (v v' : lists) st' :
  ex = None \/ ex = Some p -> hview <$> heaps s' = hview <$> heaps s ->
  (block_lists <$> heaps s) !! page_heap r = Some v -> (block_lists <$> heaps s') !! page_heap r = Some v' ->
  (forall h, h <> page_heap r -> (block_lists <$> heaps s') !! h = (block_lists <$> heaps s) !! h) ->
  (forall c, c <> size_class r -> v'.1 c = v.1 c) -> (forall t, t <> page_type r -> v'.2 t = v.2 t) ->
  (forall b, ~ member p r' b -> st' !! b = st !! b) -> (forall b, member p r' b -> exists x, st' !! b = Some x /\ located x p r') ->
  (exists n, listing (mem s') st' (v'.1 (size_class r)) (HeapFree (page_heap r) (size_class r)) n) ->
  (exists n, listing (mem s') st' (v'.2 (page_type r)) (HeapThread (page_heap r) (page_type r)) n) ->
  listing (mem s') st' (local_free r') (PageFree p) (local_free_count r') -> thread_list (mem s') st' p r' -> zero_behind (mem s') p r' ->
  Base (Some p) st' s'.
Proof using I Hp Hu Hs Hok Hv Hrest Hpg Hm.
  intros Hex Hhv Hv1 Hv2 Hvo Hc Ht Hst Hloc L1 L2 L3 L4 L5.
  eapply base_frame; [exact I|apply rest_outer; [done|apply step_sview|done]|apply step_inside| |].
  - rewrite Hpg, fmap_insert. eapply (blocks_update (iv_blocks _ _ _ I) p (bview r) (bview r') (bview_lookup _ _ _ Hp) Hu); try done.
    + destruct Hs as [H1 H2 H3 H4 H5]. by constructor.
    + exact step_in_use.
    + by apply (proj1 (bview_ok r')).
  - intros q x Hq Hux Hne. rewrite Hpg in Hq. rewrite lookup_insert_ne in Hq by congruence. apply (iv_full _ _ _ I q x Hq Hux). destruct Hex; congruence.
Qed.

(** What the program keeps then. *)
Lemma page_kept (D N : gset Z) ex' st' :
  Base ex' st' s' -> hview <$> heaps s' = hview <$> heaps s -> (has_aligned_block r = true -> has_aligned_block r' = true) ->
  (forall b, b ∈ D -> member p r b) -> (forall b, st !! b = Some Live -> b ∉ D -> st' !! b = Some Live) ->
  (forall b, st' !! b = Some Live -> b ∈ N \/ st !! b = Some Live) -> (forall b, b ∈ D -> b ∉ N -> st' !! b <> Some Live) ->
  (forall b x, st !! b = Some Live -> b ∉ D -> member p r b -> b <= x < b + block_size r -> mem s' x = mem s x) ->
  kept D N st s st' s'.
Proof using I Hp Hu Hs Hok Hv Hrest Hpg Hm.
  intros I' Hhv Hal HD H1 H2 H3 Hc. destruct (rest_fields s s' Hrest) as (Es & Eh & _).
  assert (forall q w, pages s !! q = Some w -> in_use w -> exists w', pages s' !! q = Some w' /\ in_use w' /\ block_size w' = block_size w /\ (has_aligned_block w = true -> has_aligned_block w' = true) /\ forall b, member q w b -> member q w' b) as Hpages.
  { intros q w Hq Hw. rewrite Hpg. destruct (decide (q = p)) as [->|Hne]; [|exists w; by rewrite lookup_insert_ne]. assert (w = r) as -> by congruence. exists r'. rewrite lookup_insert_eq.
    split_and!; [done|apply step_in_use|apply Hs|done|]. intros b. by apply member_same. }
  constructor.
  - intros b n al [[Hb (q & w & Hq & Hw & Hmb & -> & ->)]|Hb] Hd.
    + destruct (Hpages q w Hq Hw) as (w' & Hq' & Hw' & Ebs & Eal & Hmem). exists (has_aligned_block w'). split; [|done]. left. split; [by apply H1|]. exists q, w'. split_and!; try done. by apply Hmem.
    + exists al. split; [|done]. right. unfold huge_live. by rewrite Es, Eh.
  - intros b n al x [[Hb (q & w & Hq & Hw & Hmb & -> & ->)]|Hb] Hd Hx.
    + destruct (decide (q = p)) as [->|Hne]; [assert (w = r) as -> by congruence; by apply (Hc b x)|]. apply Hm. intros Hpx.
      destruct (member_bounds q w b (page_is_ok I q w Hq Hw) Hmb) as (B1 & B2 & B3). unfold PAGE_HEADER_SIZE in *.
      destruct (pages_apart (iv_spans _ _ _ I) p r q w Hp Hq (proj2 Hu) (proj2 Hw) ltac:(done)); lia.
    + apply Hm. intros Hpx. destruct Hb as (sp & y & Hsp & Hh & _ & -> & -> & _). pose proof (iv_spans _ _ _ I) as O.
      destruct (page_span O p r Hp (proj2 Hu)) as (sq & z & i & Hz & E & Hi & Hn & Ep). assert (sp = sq) as <-.
      { apply (so_apart _ _ _ _ O sp y sq z x Hsp Hz); [apply (span_region O); [done|]; unfold SPAN_HEADER_SIZE, PAGE_HEADER_SIZE in *; lia|].
        eapply (page_region O p r); [done|done|by destruct Hu| |done|done]. lia. }
      simplify_eq. destruct Hu as [_ Hu']. congruence.
  - intros b n al [[Hb (q & w & Hq & Hw & Hmb & -> & ->)]|Hb].
    + destruct (H2 b Hb) as [|Hb0]; [by left|right]. destruct (status_page I b Live Hb0) as (q0 & w0 & Hq0 & Hw0 & Hok0 & Hmb0 & _).
      destruct (Hpages q0 w0 Hq0 Hw0) as (w' & Hq' & Hw' & Ebs & Eal & Hmem). assert (q0 = q) as -> by (eapply (one_page I' q0 w' q w b); eauto).
      exists (has_aligned_block w0). left. split; [done|]. exists q, w0. split_and!; try done. congruence.
    + right. exists al. right. unfold huge_live in *. by rewrite Es, Eh in Hb.
  - intros b n al Hd Hn [[Hb _]|Hb]; [by apply (H3 b Hd Hn)|]. eapply (member_not_huge I p r b); [done|done|by apply HD|]. unfold huge_live in *. by rewrite Es, Eh in Hb.
  - apply hview_calm; [apply (rest_outer s s' Hrest step_sview Hhv)|done].
Qed.
End Step.

(** ** Links *)

(** Only the links of the pages and the lists of the heaps differ. *)
Record links_only (s s' : state) : Prop := {
  lo_pages : core <$> pages s' = core <$> pages s;
  lo_heaps : heap_core <$> heaps s' = heap_core <$> heaps s;
  lo_mem : mem s' = mem s;
  lo_rest : rest_same s s' }.

Lemma links_outer s s' : links_only s s' -> outer_same s s'.
Proof. intros [H1 H2 H3 H4]. apply rest_outer; [done|by eapply (fmap_factor core sview sview)|by eapply (fmap_factor heap_core hview hview)]. Qed.

Lemma links_lookup s s' p : links_only s s' -> core <$> pages s' !! p = core <$> pages s !! p.
Proof. intros [H1 _ _ _]. rewrite <- !lookup_fmap. by rewrite H1. Qed.

Lemma links_base ex st s s' : Base ex st s -> links_only s s' -> Base ex st s'.
Proof.
  intros I L. pose proof L as [H1 H2 H3 H4]. eapply base_frame; [exact I|by apply links_outer|intros x; by rewrite H3| |].
  - assert (bview <$> pages s' = bview <$> pages s) as -> by (by eapply (fmap_factor core bview bview)).
    assert (block_lists <$> heaps s' = block_lists <$> heaps s) as -> by (by eapply (fmap_factor heap_core block_lists block_lists)). rewrite H3. apply I.
  - intros p r' Hp Hu Hne. pose proof (links_lookup s s' p L) as E. rewrite Hp in E. destruct (pages s !! p) as [r|] eqn:Hr; [|done].
    assert (is_full r' = is_full r /\ block_used r' = block_used r /\ block_count r' = block_count r /\ is_free r' = is_free r /\ page_type r' = page_type r) as (-> & -> & -> & E4 & E5) by (unfold core in E; by injection E).
    apply (iv_full _ _ _ I p r Hr); [destruct Hu; split; congruence|done].
Qed.

(** Pages that differ only in what the blocks do not depend on. *)
Lemma view_kept st s s' :
  bview <$> pages s' = bview <$> pages s -> spans s' = spans s -> huge_slots s' = huge_slots s ->
  (forall b n al x, live st s b n al -> b <= x < b + n -> mem s' x = mem s x) -> calm s s' -> kept ∅ ∅ st s st s'.
Proof.
  intros H1 Es Eh Hm Hcalm.
  assert (forall b n al, live st s' b n al <-> live st s b n al) as Hl.
  { assert (forall p r, pages s !! p = Some r -> exists r', pages s' !! p = Some r' /\ bview r' = bview r) as Hto.
    { intros p r Hr. apply (f_equal (fun f => f !! p)) in H1. rewrite !lookup_fmap, Hr in H1. destruct (pages s' !! p) as [r'|]; [|done]. exists r'. split; [done|exact (inj Some _ _ H1)]. }
    assert (forall p r', pages s' !! p = Some r' -> exists r, pages s !! p = Some r /\ bview r = bview r') as Hfrom.
    { intros p r' Hr. apply (f_equal (fun f => f !! p)) in H1. rewrite !lookup_fmap, Hr in H1. destruct (pages s !! p) as [r|]; [|done]. exists r. split; [done|exact (inj Some _ _ (eq_sym H1))]. }
    intros b n al. unfold live, huge_live. rewrite Es, Eh. apply or_iff_compat_r. unfold class_live. apply and_iff_compat_l.
    split; intros (p & r & Hp & Hu & Hmem & -> & ->); [destruct (Hfrom p r Hp) as (r' & Hr' & E)|destruct (Hto p r Hp) as (r' & Hr' & E)]; symmetry in E; exists p, r';
      (split_and!; [done|exact (eq_ind (bview r) in_use Hu _ E)|exact (eq_ind (bview r) (fun x => member p x b) Hmem _ E)|exact (f_equal block_size E)|exact (f_equal has_aligned_block E)]). }
  constructor; [|intros b n al x H _; by eapply Hm| |set_solver|done].
  - intros b n al H _. exists al. by rewrite Hl.
  - intros b n al H. right. exists al. by rewrite <- Hl.
Qed.

Lemma links_kept st s s' : links_only s s' -> kept ∅ ∅ st s st s'.
Proof.
  intros L. pose proof (links_outer s s' L) as U. destruct L as [H1 H2 H3 H4]. destruct (rest_fields s s' H4) as (Es & Eh & _).
  apply view_kept; [by eapply (fmap_factor core bview bview)|done|done|intros; by rewrite H3|]. apply hview_calm; apply U.
Qed.
(** ** The memory of live blocks *)

Section Memory.
Context {ex : option Z} {st : gmap Z status} {s : state} (I : Base ex st s).

(** A live block lies in the region of a span. *)
Lemma live_region b n al : live st s b n al -> 0 < n /\ exists sp v, spans s !! sp = Some v /\ (forall x, b <= x < b + n -> region sp v x) /\ (huge_live s b n al -> span_page_type v = PAGE_HUGE /\ b = sp + SPAN_HEADER_SIZE) /\
  (class_live st s b n al -> span_page_type v <> PAGE_HUGE).
Proof using I.
  pose proof (iv_spans _ _ _ I) as O. intros Hb. destruct Hb as [Hb|Hb].
  - pose proof Hb as [Hst (p & r & Hp & Hu & Hm & -> & ->)]. destruct (member_bounds p r b (page_is_ok I p r Hp Hu) Hm) as (B1 & B2 & B3). split; [lia|].
    destruct (page_span O p r Hp (proj2 Hu)) as (sp & v & i & Hv & E & Hi & Hn & Ep). exists sp, v. split_and!; [done| | |].
    + intros x Hx. eapply (page_region O p r); [done|done|apply Hu| |done|unfold PAGE_HEADER_SIZE in *; lia]. lia.
    + intros Hh. by destruct (member_not_huge I p r b _ _ Hp Hu Hm Hh).
    + intros _. rewrite <- E. apply Hu.
  - destruct Hb as (sp & v & Hs & Hh & Hc & -> & -> & ->). destruct (so_huge _ _ _ _ O sp v Hs Hh) as (_ & Hlen & _). split; [lia|]. exists sp, v. split_and!; [done| |done|].
    + intros x Hx. apply (span_region O); [done|]. unfold SPAN_HEADER_SIZE, PAGE_HEADER_SIZE in *. lia.
    + intros [Hst (p & r & Hp & Hu & Hm & _)]. destruct (member_not_huge I p r _ (span_len v - SPAN_HEADER_SIZE) true Hp Hu Hm). exists sp, v. done.
Qed.

(** Two live blocks are apart. *)
Lemma live_apart b n al c k al' : live st s b n al -> live st s c k al' -> b <> c -> b + n <= c \/ c + k <= b.
Proof using I.
  intros Hb Hc Hne. destruct (live_region b n al Hb) as (Hn & sp & v & Hs & Hr & Hh & Hcl). destruct (live_region c k al' Hc) as (Hk & sq & w & Hw & Hr' & Hh' & Hcl').
  destruct (Z_le_gt_dec (b + n) c) as [|H1]; [by left|right]. destruct (Z_le_gt_dec (c + k) b) as [|H2]; [done|exfalso].
  assert (sp = sq) as <- by (apply (so_apart _ _ _ _ (iv_spans _ _ _ I) sp v sq w (Z.max b c) Hs Hw); [apply Hr|apply Hr']; lia). assert (v = w) as <- by congruence.
  destruct Hb as [Hb|Hb], Hc as [Hc|Hc].
  - destruct Hb as [_ (p & r & Hp & Hu & Hm & -> & _)], Hc as [_ (q & r' & Hq & Hu' & Hm' & -> & _)]. destruct (blocks_apart I p r b q r' c Hp Hu Hm Hq Hu' Hm' Hne); lia.
  - by destruct (Hcl Hb), (Hh' Hc).
  - by destruct (Hcl' Hc), (Hh Hb).
  - destruct (Hh Hb) as [_ ->], (Hh' Hc) as [_ ->]. done.
Qed.

(** The program writes in a block. *)
Lemma live_write b n al m' : live st s b n al -> (forall x, m' x <> mem s x -> b <= x < b + n) ->
  Base ex st (set_mem m' s) /\ kept {[b]} {[b]} st s st (set_mem m' s).
Proof using I.
  intros Hb Hm. split.
  - eapply base_frame; [exact I|by constructor| | |apply (iv_full _ _ _ I)].
    + intros x Hx. specialize (Hm x Hx). destruct Hb as [[_ (p & r & Hp & Hu & Hmem & -> & _)]|Hb].
      * left. exists p, r. split_and!; [done|done| |]; destruct (member_bounds p r b (page_is_ok I p r Hp Hu) Hmem) as (B1 & B2 & B3); unfold PAGE_HEADER_SIZE in *; lia.
      * right. destruct (live_region b n al (or_intror Hb)) as (_ & sp & v & Hs & Hr & Hh & _). exists sp, v. split_and!; [done|by apply Hh|by apply Hr].
    + destruct Hb as [[Hst (p & r & Hp & Hu & Hmem & -> & _)]|Hb].
      * apply (blocks_live (iv_blocks _ _ _ I)). intros x Hx. exists b, p, (bview r). split_and!; [done|by apply bview_lookup|done|done|by apply Hm..].
      * apply (blocks_outside (iv_blocks _ _ _ I)). intros p r x Hp Hu Hx. simpl. destruct (decide (m' x = mem s x)) as [|Hne]; [done|exfalso].
        rewrite lookup_fmap in Hp. destruct (pages s !! p) as [r0|] eqn:Hp0; [|done]. injection Hp as <-.
        destruct (live_region b n al (or_intror Hb)) as (_ & sp & v & Hs & Hr & Hh & _). destruct (page_in_region (iv_spans _ _ _ I) p r0 x Hp0 (proj2 Hu) Hx) as (sq & w & Hw & E & Hxr).
        assert (sp = sq) as <- by (eapply (so_apart _ _ _ _ (iv_spans _ _ _ I)); [exact Hs|exact Hw|by apply Hr, Hm|done]). destruct (Hh Hb) as [Hh' _]. destruct Hu as [_ Hu]. simpl in Hu. congruence.
  - constructor.
    + intros c k al' H _. by exists al'.
    + intros c k al' x Hc Hne Hx. simpl. destruct (decide (m' x = mem s x)) as [|Hd]; [done|exfalso]. specialize (Hm x Hd).
      destruct (live_apart b n al c k al' Hb Hc); [set_solver|lia|lia].
    + intros c k al' H. right. by exists al'.
    + set_solver.
    + split; [done|]. intros hp h Hh. by exists h.
Qed.
End Memory.
End Live.
End RpLive.
