(* ===== verification/RpPage.v ===== *)
(** * The blocks of a page

    What the functions that take blocks from the lists of a page do, and
    [page_allocate_block]. *)
From stdpp Require Import functions.
From S2P Require Import Prelude RpState Rpmalloc RpSize RpWp RpBlocks RpLists RpInv RpLive.

Module RpPage.
Import RpState Rpmalloc RpSize RpWp RpBlocks RpLists RpInv RpLive.

Lemma class_bounds c : class_ok c -> bcount c < 2 ^ 16 /\ bsize c <= 2 ^ 21.
Proof.
  intros Hc. pose proof (class_cases (fun c => (bcount c <? 2 ^ 16) && (bsize c <=? 2 ^ 21)) ltac:(by vm_compute) c Hc) as H. apply andb_true_iff in H as [H1 H2]. lia.
Qed.

Lemma psize_max t : psize t <= 2 ^ 24.
Proof. by destruct t. Qed.

Lemma page_numbers r : page_ok r -> 16 <= block_size r <= 2 ^ 21 /\ 2 <= block_count r < 2 ^ 16 /\ 0 <= block_initialized r <= block_count r.
Proof.
  intros [H1 H2 H3 H4 H5 H6 H7 H8]. destruct (class_geometry _ H1) as (G1 & _ & G2 & _). destruct (class_bounds _ H1). rewrite H3, H4 in *. lia.
Qed.

Lemma listing_null m st x n : listing m st 0 x n -> n = 0 /\ forall b, st !! b <> Some x.
Proof.
  intros L. assert (n = 0) as ->; [|split; [done|by apply listing_empty in L as [_ L]]]. destruct (listing_head _ _ _ _ _ L) as [[_ H]|([H _] & _)]; [done|]. by destruct (Z.lt_irrefl 0).
Qed.

Section Page.
Context `{HC : !Config} `{HM : !MemoryInterface} `{HL : !MemoryLaws}.

(** The page stays what it is for its list, its span and the program. *)
Record inner (r r' : page_t) : Prop := {
  in_place : same_place r r';
  in_sview : sview r' = sview r;
  in_list : list_view r' = list_view r;
  in_aligned : has_aligned_block r' = has_aligned_block r;
  in_full : is_full r' = is_full r;
  in_generic : generic_free r' = generic_free r;
  in_count : block_count r' = block_count r }.

Lemma inner_trans r1 r2 r3 : inner r1 r2 -> inner r2 r3 -> inner r1 r3.
Proof.
  intros [[P1 P2 P3 P4 P5] H2 H3 H4 H5 H6 H7] [[Q1 Q2 Q3 Q4 Q5] G2 G3 G4 G5 G6 G7].
  split; [split; lia || congruence|congruence..].
Qed.

Lemma inner_refl r : inner r r.
Proof. by split. Qed.

Lemma inner_in_use r r' : inner r r' -> in_use r -> in_use r'.
Proof. intros H Hu. exact (step_in_use r r' Hu (in_place _ _ H) (in_sview _ _ H)). Qed.

Lemma page_insert_twice (s : state) p a b h m :
  set_heaps h (set_pages (<[p := b]> (<[p := a]> (pages s))) (set_mem m s)) = set_heaps h (set_pages (<[p := b]> (pages s)) (set_mem m s)).
Proof. by rewrite insert_insert_eq. Qed.

Section Facts.
Context {ex : option Z} {st : gmap Z status} {s : state} (I : Base ex st s) (p : Z) (r : page_t) (Hp : pages s !! p = Some r) (Hu : in_use r).

Lemma member_status b : member p r b -> exists x, st !! b = Some x /\ located x p r.
Proof using I Hp Hu.
  intros Hm. destruct (bk_member _ _ _ _ (iv_blocks _ _ _ I) p (bview r) b (bview_lookup _ _ _ Hp) Hu Hm) as [x Hx]. exists x. split; [done|].
  destruct (status_page I b x Hx) as (q & r' & Hq & Hu' & _ & Hm' & Hl). assert (p = q) as <- by (by eapply (one_page I p r q r' b)). by simplify_eq.
Qed.

Lemma local_listing : listing (mem s) st (local_free r) (PageFree p) (local_free_count r).
Proof using I Hp Hu. exact (bk_local _ _ _ _ (iv_blocks _ _ _ I) p (bview r) (bview_lookup _ _ _ Hp) Hu). Qed.

Lemma thread_listing : thread_list (mem s) st p r.
Proof using I Hp Hu. exact (bk_thread _ _ _ _ (iv_blocks _ _ _ I) p (bview r) (bview_lookup _ _ _ Hp) Hu). Qed.

Lemma page_zero : zero_behind (mem s) p r.
Proof using I Hp Hu. exact (bk_zero _ _ _ _ (iv_blocks _ _ _ I) p (bview r) (bview_lookup _ _ _ Hp) Hu). Qed.

Lemma own_member b x : st !! b = Some x -> (x = PageFree p \/ x = PageThread p) -> member p r b.
Proof using I Hp Hu. intros Hb Hx. exact (page_free_members (iv_blocks _ _ _ I) p (bview r) b x (bview_lookup _ _ _ Hp) Hu Hx Hb). Qed.

Lemma page_heap_lists : exists h, heaps s !! page_heap r = Some h /\ (block_lists <$> heaps s) !! page_heap r = Some (block_lists h) /\ heap_lists (mem s) st (page_heap r) (block_lists h).
Proof using I Hp.
  destruct (iv_heap _ _ _ I p r Hp) as [h Hh]. exists h. assert ((block_lists <$> heaps s) !! page_heap r = Some (block_lists h)) as E by (by rewrite lookup_fmap, Hh).
  split_and!; [done|done|]. by apply (bk_lists _ _ _ _ (iv_blocks _ _ _ I)).
Qed.

(** The blocks of a list are blocks of the page that are not in another place. *)
Lemma own_listing_bound x head n :
  (x = PageFree p \/ x = PageThread p) -> listing (mem s) st head x n ->
  0 <= n <= block_initialized r /\ (forall b y, st !! b = Some y -> y <> x -> member p r b -> n + 1 <= block_initialized r).
Proof using I Hp Hu.
  intros Hx Hl. pose proof (listing_nonneg _ _ _ _ _ Hl). destruct (listing_bound (iv_blocks _ _ _ I) p (bview r) head x n (bview_lookup _ _ _ Hp) Hu Hl) as (H1 & H2 & _).
  - intros b Hb. by eapply own_member.
  - split; [split; [done|exact H1]|exact H2].
Qed.
End Facts.

(** The first block of the page's own list. *)
Lemma wp_get_local_free_block (Q : Z -> state -> Prop) ex st s p r :
  Base ex st s -> ex = None \/ ex = Some p -> pages s !! p = Some r -> in_use r -> local_free r <> 0 ->
  (forall r1 s1 st1, Base (Some p) st1 s1 -> pages s1 = <[p := r1]> (pages s) -> heaps s1 = heaps s -> inner r r1 -> is_zero r1 = is_zero r -> rest_same s s1 ->
     kept {[local_free r]} {[local_free r]} st s st1 s1 ->
     st !! local_free r = Some (PageFree p) -> st1 !! local_free r = Some Live -> page_thread_free r1 = page_thread_free r ->
     Q (local_free r) s1) ->
  wp (page_get_local_free_block p) Q s.
Proof.
  intros I Hex Hp Hu Hl HQ. set (b := local_free r) in *. pose proof (local_listing I p r Hp Hu) as L. fold b in L.
  pose proof (page_is_ok I p r Hp Hu) as Hok. pose proof (page_numbers r Hok) as Hnum.
  destruct (listing_head _ _ _ _ _ L) as [[? _]|(Hb & Hst & Hn)]; [done|]. pose proof (own_listing_bound I p r Hp Hu _ _ _ (or_introl eq_refl) L) as [Hbound _].
  pose proof (ok_local _ Hok) as Hlocal. pose proof (ok_used _ Hok).
  unfold page_get_local_free_block. do 2 wp_step. apply wp_bind, wp_load; [done|]. repeat wp_step. fold b. fold (word (mem s) b).
  set (r1 := set_block_used _ _). assert (u32 (block_used r + 1) = block_used r + 1) as Eu by (apply wrap_small; lia).
  assert (u32 (local_free_count r - 1) = local_free_count r - 1) as Ec by (apply wrap_small; lia).
  assert (inner r r1) as Hin by (split; [split; done || (simpl; lia)|done..]).
  assert (page_ok r1) as Hok1. { destruct Hok as [O1 O2 O3 O4 O5 O6 O7 O8]. split; simpl; try done; lia. }
  set (st1 := <[b := Live]> st). destruct (page_heap_lists I p r Hp) as (h & Hh & Hhl & Hlists).
  assert (forall x, x <> Live -> x <> PageFree p -> forall b', st1 !! b' = Some x <-> st !! b' = Some x) as Hother.
  { intros x Hx1 Hx2 b'. unfold st1. destruct (decide (b' = b)) as [->|Hne]; [rewrite lookup_insert_eq|by rewrite lookup_insert_ne]. split; intros E; congruence. }
  assert (member p r b) as Hmb by (eapply (own_member I p r Hp Hu); [exact Hst|by left]).
  set (s1 := set_pages (<[p := r1]> (pages s)) s).
  assert (Base (Some p) st1 s1) as I1.
  { eapply (page_step I p r r1 Hp Hu (in_place _ _ Hin) Hok1 (in_sview _ _ Hin) s1 eq_refl eq_refl ltac:(done) (block_lists h) (block_lists h) st1); try done.
    - intros b' Hb'. unfold st1. rewrite lookup_insert_ne; [done|]. intros <-. by apply Hb'.
    - intros b' Hb'. unfold st1. destruct (decide (b' = b)) as [->|Hne]; [exists Live; by rewrite lookup_insert_eq|rewrite lookup_insert_ne by done]. by eapply (member_status I p r).
    - destruct (proj1 Hlists (size_class r)) as [n Hn']. exists n. eapply listing_frame; [done| |exact Hn']. by apply Hother.
    - destruct (proj2 Hlists (page_type r)) as [n Hn']. exists n. eapply listing_frame; [done| |exact Hn']. by apply Hother.
    - simpl. rewrite Ec. by apply listing_pop.
    - destruct (thread_listing I p r Hp Hu) as (head & n & E1 & E2 & E3). exists head, n. split_and!; [done|done|]. eapply listing_frame; [done| |exact E3]. by apply Hother.
    - exact (page_zero I p r Hp Hu). }
  apply (HQ r1 s1 st1); try done; [|by apply lookup_insert_eq].
  eapply (page_kept I p r r1 Hp Hu (in_place _ _ Hin) Hok1 (in_sview _ _ Hin) s1 eq_refl eq_refl ltac:(done)); try done.
  - set_solver.
  - intros b' Hb' Hd. unfold st1. rewrite lookup_insert_ne by set_solver. done.
  - intros b' Hb'. destruct (decide (b' = b)) as [->|Hne]; [left; set_solver|right]. unfold st1 in Hb'. by rewrite lookup_insert_ne in Hb'.
Qed.

Lemma base_weaken p st s : Base None st s -> Base (Some p) st s.
Proof. intros [I1 I2 I3 I4 I5 I6 I7 I8]. constructor; try done. intros q r Hq Hu _. by apply (I2 q r Hq Hu). Qed.

Lemma base_some p ex st s : Base ex st s -> ex = None \/ ex = Some p -> Base (Some p) st s.
Proof. intros I [-> | ->]; [by apply base_weaken|done]. Qed.

Lemma no_thread_list m st p r : page_thread_free r = 0 -> (forall b, st !! b <> Some (PageThread p)) -> thread_list m st p r.
Proof. intros H Hst. exists 0, 0. rewrite H. split_and!; [done|done|]. by apply listing_empty. Qed.

(** The blocks that other threads have freed, when the page's own list is empty. *)
Lemma wp_adopt_thread_free (Q : unit -> state -> Prop) ex st s p r :
  Base ex st s -> ex = None \/ ex = Some p -> pages s !! p = Some r -> in_use r ->
  (forall r1 s1 st1, Base (Some p) st1 s1 -> pages s1 = <[p := r1]> (pages s) -> heaps s1 = heaps s -> inner r r1 -> is_zero r1 = is_zero r -> rest_same s s1 ->
     kept ∅ ∅ st s st1 s1 -> (forall b, st1 !! b = Some Live <-> st !! b = Some Live) ->
     (local_free r = 0 -> page_thread_free r <> 0 -> local_free r1 <> 0) -> Q tt s1) ->
  wp (page_adopt_thread_free_block_list p) Q s.
Proof.
  intros I Hex Hp Hu HQ. assert (pages s = <[p := r]> (pages s)) as Eid by (by rewrite insert_id).
  unfold page_adopt_thread_free_block_list. do 2 wp_step.
  assert ((local_free r = 0 -> page_thread_free r <> 0 -> False) -> Q tt s) as Hsame.
  { intros Hno. apply (HQ r s st (base_some p ex st s I Hex) Eid eq_refl (inner_refl r) eq_refl (rest_refl s) (kept_refl st s)); [done|]. intros H1 H2. by destruct Hno. }
  destruct (Z.eqb_spec (local_free r) 0) as [Hl|Hl]; cbn [negb]; [|wp_step; by apply Hsame].
  destruct (Z.eqb_spec (page_thread_free r) 0) as [Ht|Ht]; [wp_step; by apply Hsame|].
  destruct (thread_listing I p r Hp Hu) as (head & n & E1 & E2 & E3). rewrite E1. repeat wp_step.
  pose proof (local_listing I p r Hp Hu) as L. rewrite Hl in L. apply listing_null in L as [Hc Hnone]. pose proof (page_is_ok I p r Hp Hu) as Hok. pose proof (page_numbers r Hok) as Hnum.
  pose proof (own_listing_bound I p r Hp Hu _ _ _ (or_intror eq_refl) E3) as [Hbound _]. pose proof (ok_local _ Hok) as Hlocal. pose proof (ok_used _ Hok).
  set (r1 := set_block_used _ _). assert (u32 (block_used r - n) = block_used r - n) as Eu by (apply wrap_small; lia).
  assert (inner r r1) as Hin by (split; [split; done || (simpl; lia)|done..]).
  assert (page_ok r1) as Hok1. { destruct Hok as [O1 O2 O3 O4 O5 O6 O7 O8]. split; simpl; try done; lia. }
  set (st1 := rename (PageThread p) (PageFree p) st). destruct (page_heap_lists I p r Hp) as (h & Hh & Hhl & Hlists).
  assert (forall x, x <> PageThread p -> x <> PageFree p -> forall b', st1 !! b' = Some x <-> st !! b' = Some x) as Hother by (intros x H1 H2 b'; by apply rename_other).
  set (s1 := set_pages (<[p := r1]> (pages s)) s).
  assert (Base (Some p) st1 s1) as I1.
  { eapply (page_step I p r r1 Hp Hu (in_place _ _ Hin) Hok1 (in_sview _ _ Hin) s1 eq_refl eq_refl ltac:(done) (block_lists h) (block_lists h) st1); try done.
    - intros b' Hb'. unfold st1. rewrite lookup_rename. destruct (st !! b') as [z|] eqn:Ez; [|done]. simpl. case_decide as Hz; [|done]. subst z.
      destruct Hb'. by eapply (own_member I p r Hp Hu b' (PageThread p)); [|right].
    - intros b' Hb'. destruct (member_status I p r Hp Hu b' Hb') as (x & Hx & Hlx). unfold st1. rewrite lookup_rename, Hx. simpl. eexists. split; [done|]. by case_decide.
    - destruct (proj1 Hlists (size_class r)) as [k Hk]. exists k. eapply listing_frame; [done| |exact Hk]. by apply Hother.
    - destruct (proj2 Hlists (page_type r)) as [k Hk]. exists k. eapply listing_frame; [done| |exact Hk]. by apply Hother.
    - by apply listing_rename.
    - apply no_thread_list; [done|]. intros b'. by apply rename_source.
    - exact (page_zero I p r Hp Hu). }
  assert (forall b', st1 !! b' = Some Live <-> st !! b' = Some Live) as HL' by (by apply Hother).
  apply (HQ r1 s1 st1); try done.
  - eapply (page_kept I p r r1 Hp Hu (in_place _ _ Hin) Hok1 (in_sview _ _ Hin) s1 eq_refl eq_refl ltac:(done)); try done.
    + intros b' Hb' _. by apply HL'.
    + intros b' Hb'. right. by apply HL'.
  - intros _ _ Hhead. simpl in Hhead. subst head. apply listing_null in E3 as [-> _]. by apply Ht, E2.
Qed.
(** ** New blocks *)

(** The loop links [k] blocks that follow one another. *)
Lemma wp_link_loop n bs limit fb last cnt (Q : Z * Z -> state -> Prop) s :
  16 <= bs -> 0 < fb -> fb + bs * Z.of_nat n < 2 ^ 64 ->
  (forall k m', 0 <= k <= Z.of_nat n -> (forall x, ~ fb <= x < fb + bs * k -> m' x = mem s x) -> (forall j, 0 <= j < k -> word m' (fb + bs * j) = fb + bs * (j + 1)) ->
     Q (if k =? 0 then last else fb + bs * (k - 1), cnt + k) (set_mem m' s)) ->
  wp (link_loop n bs limit fb last cnt) Q s.
Proof.
  intros Hbs. revert fb last cnt s. induction n as [|n IH]; intros fb last cnt s Hfb Hend HQ.
  - simpl. wp_step. specialize (HQ 0 (mem s) ltac:(lia) ltac:(done) ltac:(lia)). rewrite Z.add_0_r in HQ. destruct s. exact HQ.
  - cbn [link_loop]. destruct (fb <? limit).
    + apply wp_bind, wp_store; [lia|]. cbv beta. apply wp_bind, wp_load; [lia|]. wp_simpl. fold (word (write (mem s) fb (le_bytes 8 (fb + bs))) fb). rewrite word_write by lia.
      apply IH; [lia|lia|]. intros k m' Hk Hm Hw. wp_simpl. specialize (HQ (k + 1) m' ltac:(lia)).
      assert ((k + 1 =? 0) = false) as E by (apply Z.eqb_neq; lia). rewrite E in HQ. replace (cnt + 1 + k) with (cnt + (k + 1)) by lia.
      assert ((if k =? 0 then fb else fb + bs + bs * (k - 1)) = fb + bs * (k + 1 - 1)) as -> by (destruct (Z.eqb_spec k 0) as [->|]; lia). apply HQ.
      * intros x Hx. rewrite Hm by lia. wp_simpl. apply write_other. rewrite length_le_bytes. destruct (decide (x < fb)); [by left|right]. nia.
      * intros j Hj. destruct (decide (j = 0)) as [->|Hj0].
        -- replace (fb + bs * 0) with fb by lia. rewrite (word_ext (write (mem s) fb (le_bytes 8 (fb + bs)))); [rewrite word_write by lia; lia|].
           intros x Hx. rewrite Hm by lia. done.
        -- replace (fb + bs * j) with (fb + bs + bs * (j - 1)) by lia. rewrite Hw by lia. lia.
    + wp_step. specialize (HQ 0 (mem s) ltac:(lia) ltac:(done) ltac:(lia)). rewrite Z.add_0_r in HQ. destruct s. exact HQ.
Qed.

(** [k] blocks from [fb] on, as a list. *)
Definition run (fb bs k : Z) : list Z := (fun j => fb + bs * j) <$> seqZ 0 k.

Lemma elem_of_run fb bs k b : b ∈ run fb bs k <-> exists j, 0 <= j < k /\ b = fb + bs * j.
Proof. unfold run. rewrite list_elem_of_fmap. split; [intros (j & -> & Hj%elem_of_seqZ); exists j; split; [lia|done]|intros (j & Hj & ->); exists j; split; [done|apply elem_of_seqZ; lia]]. Qed.

Lemma run_NoDup fb bs k : 0 < bs -> NoDup (run fb bs k).
Proof. intros Hbs. apply NoDup_fmap_2_strong; [|apply NoDup_seqZ]. intros i j _ _ E. nia. Qed.

Lemma run_length fb bs k : 0 <= k -> Z.of_nat (length (run fb bs k)) = k.
Proof. intros Hk. unfold run. rewrite length_fmap, length_seqZ. lia. Qed.

Lemma chain_run m fb bs k :
  0 <= k -> 16 <= bs -> 0 < fb -> fb + bs * k <= 2 ^ 64 -> (forall j, 0 <= j < k - 1 -> word m (fb + bs * j) = fb + bs * (j + 1)) -> (0 < k -> word m (fb + bs * (k - 1)) = 0) ->
  chain m (if k =? 0 then 0 else fb) (run fb bs k).
Proof.
  intros Hk Hbs. revert fb. pattern k. apply natlike_ind; [| |done]; clear k Hk.
  - intros fb _ _ _ _. done.
  - intros k Hk IH fb Hfb Hend Hw Hlast. unfold run. rewrite seqZ_cons by lia. rewrite fmap_cons. rewrite (proj2 (Z.eqb_neq _ _)) by lia. cbn [chain].
    replace (fb + bs * 0) with fb by lia. split_and!; [done|lia|nia|].
    assert ((fun j => fb + bs * j) <$> seqZ (Z.succ 0) (Z.pred (Z.succ k)) = run (fb + bs) bs k) as ->.
    { unfold run. replace (Z.pred (Z.succ k)) with k by lia. change (Z.succ 0) with (1 + 0). rewrite <- fmap_add_seqZ, <- list_fmap_compose. apply list_fmap_ext. intros _ j _. simpl. lia. }
    assert (word m fb = if k =? 0 then 0 else fb + bs) as ->.
    { destruct (Z.eqb_spec k 0) as [->|Hne]; [specialize (Hlast ltac:(lia)); rewrite <- Hlast; f_equal; lia|]. specialize (Hw 0 ltac:(lia)). replace (fb + bs * 0) with fb in Hw by lia. lia. }
    apply IH; [lia|lia| |].
    + intros j Hj. replace (fb + bs + bs * j) with (fb + bs * (j + 1)) by lia. rewrite Hw by lia. lia.
    + intros Hk0. replace (fb + bs + bs * (k - 1)) with (fb + bs * (Z.succ k - 1)) by lia. apply Hlast. lia.
Qed.
Definition with_status (l : list Z) (x : status) (st : gmap Z status) : gmap Z status := foldr (fun b => <[b := x]>) st l.

Lemma lookup_with_status l x st b : with_status l x st !! b = if decide (b ∈ l) then Some x else st !! b.
Proof.
  induction l as [|a l IH]; simpl; [done|]. destruct (decide (b = a)) as [->|Hne].
  - rewrite lookup_insert_eq, decide_True; [done|left].
  - rewrite lookup_insert_ne, IH by done. destruct (decide (b ∈ l)); [rewrite decide_True; [done|by right]|rewrite decide_False; [done|set_solver]].
Qed.

(** The page after a block is taken from its uninitialised part, and [k] more are
    put in its list. *)
Definition grown (p k : Z) (r : page_t) : page_t :=
  let fb := block p r (block_initialized r + 1) in
  set_block_used (block_used r + 1) (set_block_initialized (block_initialized r + 1 + k)
    (set_local_free (if k =? 0 then 0 else fb) (set_local_free_count k r))).

Section Grow.
Context {ex : option Z} {st : gmap Z status} {s : state} (I : Base ex st s) (p : Z) (r : page_t) (Hp : pages s !! p = Some r) (Hu : in_use r).
Context (Hl : local_free r = 0) (Hroom : block_used r < block_count r) (k : Z) (Hk : 0 <= k /\ block_initialized r + 1 + k <= block_count r).

Lemma grow_counts : local_free_count r = 0 /\ block_used r = block_initialized r /\ forall b, st !! b <> Some (PageFree p).
Proof using I Hp Hu Hl.
  pose proof (local_listing I p r Hp Hu) as L. rewrite Hl in L. apply listing_null in L as [Hc Hnone]. pose proof (ok_local _ (page_is_ok I p r Hp Hu)). split_and!; [done|lia|done].
Qed.

Lemma grown_ok : page_ok (grown p k r).
Proof using I Hp Hu Hl Hk.
  destruct grow_counts as (Hc & Hused & _). destruct (page_is_ok I p r Hp Hu) as [O1 O2 O3 O4 O5 O6 O7 O8]. split; simpl; try done; lia.
Qed.

Lemma grown_inner : inner r (grown p k r).
Proof using Hk. split; [split; done || (simpl; lia)|done..]. Qed.

(** The new blocks were no blocks before. *)
Lemma new_block i : block_initialized r <= i < block_count r -> st !! block p r i = None.
Proof using I Hp Hu.
  intros Hi. destruct (st !! block p r i) as [x|] eqn:Hb; [exfalso|done]. destruct (status_page I _ x Hb) as (q & r' & Hq & Hu' & Hok' & Hm' & _).
  pose proof (page_is_ok I p r Hp Hu) as Hok. destruct (decide (q = p)) as [->|Hne].
  - assert (r' = r) as -> by congruence. destruct Hm' as (j & Hj & E). apply block_inj in E; [lia|done].
  - destruct (member_bounds q r' _ Hok' Hm') as (B1 & B2 & B3). destruct (class_geometry _ (ok_class _ Hok)) as (G1 & _ & _ & G2 & _).
    rewrite <- (ok_type _ Hok), <- (ok_size _ Hok), <- (ok_count _ Hok) in *. unfold block, PAGE_HEADER_SIZE in *. pose proof (ok_initialized _ Hok).
    destruct (pages_apart (iv_spans _ _ _ I) p r q r' Hp Hq (proj2 Hu) (proj2 Hu') ltac:(done)); nia.
Qed.

(** Its memory lies in the page. *)
Lemma block_area i : 0 <= i < block_count r -> p + PAGE_HEADER_SIZE <= block p r i /\ block p r i + block_size r <= p + psize (page_type r).
Proof using I Hp Hu.
  intros Hi. pose proof (page_is_ok I p r Hp Hu) as Hok. destruct (class_geometry _ (ok_class _ Hok)) as (G1 & _ & _ & G2 & _).
  rewrite <- (ok_type _ Hok), <- (ok_size _ Hok), <- (ok_count _ Hok) in *. unfold block in *. nia.
Qed.

Context (m' : Z -> Z).
Let b : Z := block p r (block_initialized r).
Let fb : Z := block p r (block_initialized r + 1).
Context (Hm : forall x, ~ fb <= x < fb + block_size r * k -> m' x = mem s x).
Context (Hw : forall j, 0 <= j < k - 1 -> word m' (fb + block_size r * j) = fb + block_size r * (j + 1)) (Hlast : 0 < k -> word m' (fb + block_size r * (k - 1)) = 0).

Definition grown_status : gmap Z status := with_status (run fb (block_size r) k) (PageFree p) (<[b := Live]> st).
Definition grown_state : state := set_pages (<[p := grown p k r]> (pages s)) (set_mem m' s).

Lemma run_block b' : b' ∈ run fb (block_size r) k <-> exists j, block_initialized r + 1 <= j < block_initialized r + 1 + k /\ b' = block p r j.
Proof using Type.
  rewrite elem_of_run. unfold fb, block. split; intros (j & Hj & ->); [exists (j + block_initialized r + 1)|exists (j - block_initialized r - 1)]; split; lia.
Qed.

Lemma grown_lookup b' : grown_status !! b' = if decide (b' ∈ run fb (block_size r) k) then Some (PageFree p) else if decide (b' = b) then Some Live else st !! b'.
Proof using Type.
  unfold grown_status. rewrite lookup_with_status. case_decide; [done|]. case_decide as E; [by rewrite E, lookup_insert_eq|by rewrite lookup_insert_ne].
Qed.

Lemma b_not_run : b ∉ run fb (block_size r) k.
Proof using I Hp Hu. rewrite run_block. intros (j & Hj & E). apply (block_inj p r _ _ (page_is_ok I p r Hp Hu)) in E. lia. Qed.

Lemma grown_old b' x : st !! b' = Some x -> grown_status !! b' = Some x /\ forall y, b' <= y < b' + 8 -> m' y = mem s y.
Proof using I Hp Hu Hl Hroom Hk Hm.
  intros Hb. destruct (grow_counts) as (_ & Hused & _). pose proof (page_is_ok I p r Hp Hu) as Hok. pose proof (ok_initialized _ Hok).
  assert (forall i, block_initialized r <= i < block_count r -> b' <> block p r i) as Hnew by (intros i Hi ->; pose proof (new_block i Hi); congruence).
  split.
  - rewrite grown_lookup, decide_False, decide_False; [done|apply Hnew; lia|]. rewrite run_block. intros (j & Hj & E). apply (Hnew j); [lia|done].
  - intros y Hy. apply Hm. intros Hfb. destruct (status_page I b' x Hb) as (q & r' & Hq & Hu' & Hok' & Hm' & _). destruct (member_bounds q r' _ Hok' Hm') as (B1 & B2 & B3).
    destruct (page_numbers r Hok) as [N1 _]. destruct (decide (q = p)) as [->|Hne].
    + assert (r' = r) as -> by congruence. destruct Hm' as (j & Hj & ->). unfold fb, block in *. nia.
    + destruct (block_area (block_initialized r + k)) as [A1 A2]; [lia|]. destruct (block_area (block_initialized r)) as [A3 A4]; [lia|].
      unfold fb, block, PAGE_HEADER_SIZE in *. destruct (pages_apart (iv_spans _ _ _ I) p r q r' Hp Hq (proj2 Hu) (proj2 Hu') ltac:(done)); nia.
Qed.

Lemma grown_frame head x n : x <> Live -> x <> PageFree p -> listing (mem s) st head x n -> listing m' grown_status head x n.
Proof using I Hp Hu Hl Hroom Hk Hm.
  intros H1 H2. apply listing_frame; [intros b' y Hb' Hy; by apply (grown_old b' x Hb')|]. intros b'. split; [|intros Hb'; by apply (grown_old b' x)].
  rewrite grown_lookup. repeat case_decide; congruence.
Qed.

Lemma grown_outside x : ~ p <= x < p + psize (page_type r) -> m' x = mem s x.
Proof using I Hp Hu Hl Hroom Hk Hm.
  intros Hx. apply Hm. intros Hfb. apply Hx. destruct (grow_counts) as (_ & Hused & _). pose proof (ok_initialized _ (page_is_ok I p r Hp Hu)).
  destruct (block_area (block_initialized r + k)) as [A1 A2]; [lia|]. destruct (block_area (block_initialized r)) as [A3 A4]; [lia|].
  destruct (page_numbers r (page_is_ok I p r Hp Hu)) as [N1 _]. unfold fb, block, PAGE_HEADER_SIZE in *. nia.
Qed.

Lemma grown_base : ex = None \/ ex = Some p -> Base (Some p) grown_status grown_state.
Proof using I Hp Hu Hl Hroom Hk Hm Hw Hlast.
  intros Hex. destruct (page_heap_lists I p r Hp) as (h & Hh & Hhl & Hlists). destruct (grow_counts) as (Hc & Hused & Hnone).
  pose proof (page_is_ok I p r Hp Hu) as Hok. pose proof (ok_initialized _ Hok). pose proof (grown_inner) as Hin. destruct (page_numbers r Hok) as [N1 _].
  eapply (page_step I p r (grown p k r) Hp Hu (in_place _ _ Hin) grown_ok (in_sview _ _ Hin) grown_state eq_refl eq_refl grown_outside (block_lists h) (block_lists h) grown_status); try done.
  - intros b' Hb'. rewrite grown_lookup, decide_False, decide_False; [done| |].
    + intros ->. apply Hb'. exists (block_initialized r). split; [simpl; lia|done].
    + rewrite run_block. intros (j & Hj & ->). apply Hb'. exists j. split; [simpl; lia|done].
  - intros b' (i & Hi & ->). simpl in Hi. change (block p (grown p k r) i) with (block p r i). rewrite grown_lookup. case_decide as Hd; [by exists (PageFree p)|].
    case_decide; [by exists Live|]. apply (member_status I p r Hp Hu). exists i. split; [|done]. split; [lia|]. destruct (decide (i < block_initialized r)); [done|exfalso].
    destruct (decide (i = block_initialized r)) as [->|]; [done|]. apply Hd, run_block. exists i. split; [lia|done].
  - destruct (proj1 Hlists (size_class r)) as [n Hn']. exists n. by apply grown_frame.
  - destruct (proj2 Hlists (page_type r)) as [n Hn']. exists n. by apply grown_frame.
  - exists (run fb (block_size r) k). split_and!; [|apply run_NoDup; lia| |apply (run_length fb (block_size r) k); lia].
    + apply chain_run; try done; [lia|lia| |].
      * unfold fb, block, PAGE_HEADER_SIZE. destruct (page_address I p r Hp (proj2 Hu)). nia.
      * destruct (page_address I p r Hp (proj2 Hu)) as (A1 & A2 & A3). destruct (block_area (block_initialized r + k)) as [A4 A5]; [lia|]. unfold fb, block, PAGE_HEADER_SIZE in *. nia.
    + intros b'. rewrite grown_lookup. case_decide as Hd; [done|]. split; [done|]. case_decide; [done|]. intros E. by apply Hnone in E.
  - destruct (thread_listing I p r Hp Hu) as (head & n & E1 & E2 & E3). exists head, n. split_and!; [done|done|]. by apply grown_frame.
  - intros Hz x Hx. change (block p (grown p k r)) with (block p r) in Hx. simpl in Hz, Hx. simpl. rewrite Hm; [|unfold fb, block in *; nia].
    apply (page_zero I p r Hp Hu Hz). unfold block in *. nia.
Qed.

Lemma grown_kept : Base (Some p) grown_status grown_state -> kept {[b]} {[b]} st s grown_status grown_state.
Proof using I Hp Hu Hl Hroom Hk Hm Hw Hlast.
  intros I1. pose proof (grown_inner) as Hin. apply (kept_weaken ∅ {[b]}); [|set_solver..].
  eapply (page_kept I p r (grown p k r) Hp Hu (in_place _ _ Hin) grown_ok (in_sview _ _ Hin) grown_state eq_refl eq_refl grown_outside ∅ {[b]} _ _ I1); try done.
  - intros b' Hb' _. by apply (grown_old b' Live).
  - intros b' Hb'. rewrite grown_lookup in Hb'. repeat case_decide; [done|left; set_solver|by right].
  - intros b' x Hb' _ Hmem Hx. simpl. apply Hm. intros Hfb. destruct (page_numbers r (page_is_ok I p r Hp Hu)) as [N1 _]. destruct Hmem as (i & Hi & ->). unfold fb, block in *. nia.
Qed.
End Grow.
Lemma no_local_list r : local_free r = 0 -> local_free_count r = 0 -> set_local_free 0 (set_local_free_count 0 r) = r.
Proof. destruct r. simpl. by intros -> ->. Qed.

(** The conclusion of what follows: block [b] of the page is taken. *)
Definition taken (p : Z) (r : page_t) (st : gmap Z status) (s : state) (b : Z) (r1 : page_t) (st1 : gmap Z status) (s1 : state) : Prop :=
  Base (Some p) st1 s1 /\ pages s1 = <[p := r1]> (pages s) /\ heaps s1 = heaps s /\ inner r r1 /\ is_zero r1 = is_zero r /\ rest_same s s1 /\
  kept {[b]} {[b]} st s st1 s1 /\ st !! b <> Some Live /\ st1 !! b = Some Live /\ member p r1 b.

Lemma grown_taken ex st s p r k m' :
  Base ex st s -> ex = None \/ ex = Some p -> pages s !! p = Some r -> in_use r -> local_free r = 0 -> block_used r < block_count r ->
  0 <= k /\ block_initialized r + 1 + k <= block_count r ->
  (forall x, ~ block p r (block_initialized r + 1) <= x < block p r (block_initialized r + 1) + block_size r * k -> m' x = mem s x) ->
  (forall j, 0 <= j < k - 1 -> word m' (block p r (block_initialized r + 1) + block_size r * j) = block p r (block_initialized r + 1) + block_size r * (j + 1)) ->
  (0 < k -> word m' (block p r (block_initialized r + 1) + block_size r * (k - 1)) = 0) ->
  exists st1, taken p r st s (block p r (block_initialized r)) (grown p k r) st1 (grown_state (s := s) p r k m') /\
    (is_zero r = true -> forall x, block p r (block_initialized r) <= x < block p r (block_initialized r) + block_size r -> m' x = 0).
Proof.
  intros I Hex Hp Hu Hl Hroom Hk Hm Hw Hlast. pose proof (grown_base I p r Hp Hu Hl Hroom k Hk m' Hm Hw Hlast Hex) as I1.
  pose proof (grown_kept I p r Hp Hu Hl Hroom k Hk m' Hm Hw Hlast I1) as Hkp. destruct (grow_counts I p r Hp Hu Hl) as (_ & Hused & _).
  pose proof (page_is_ok I p r Hp Hu) as Hok. pose proof (ok_initialized _ Hok). destruct (page_numbers r Hok) as [N1 _].
  eexists. split; [split_and!|].
  - exact I1.
  - done.
  - done.
  - by apply grown_inner.
  - done.
  - done.
  - exact Hkp.
  - rewrite (new_block I p r Hp Hu) by lia. done.
  - unfold grown_status. rewrite lookup_with_status. rewrite decide_False; [apply lookup_insert_eq|]. by apply (b_not_run I p r Hp Hu k).
  - exists (block_initialized r). split; [simpl; lia|done].
  - intros Hz x Hx. rewrite Hm; [|unfold block in *; nia]. apply (page_zero I p r Hp Hu Hz). unfold block in *. nia.
Qed.

Lemma wp_initialize_blocks (Q : Z -> state -> Prop) ex st s p r :
  Base ex st s -> ex = None \/ ex = Some p -> pages s !! p = Some r -> in_use r -> local_free r = 0 -> block_used r < block_count r ->
  (forall b r1 s1 st1, taken p r st s b r1 st1 s1 -> st !! b = None -> (is_zero r = true -> forall x, b <= x < b + block_size r -> mem s1 x = 0) -> Q b s1) ->
  wp (page_initialize_blocks p) Q s.
Proof.
  intros I Hex Hp Hu Hl Hroom HQ. destruct (grow_counts I p r Hp Hu Hl) as (Hc & Hused & _). pose proof (page_is_ok I p r Hp Hu) as Hok.
  pose proof (ok_initialized _ Hok). destruct (page_numbers r Hok) as (N1 & N2 & _). pose proof (ok_used _ Hok).
  destruct (block_area I p r Hp Hu (block_initialized r)) as [A1 A2]; [lia|]. destruct (page_address I p r Hp (proj2 Hu)) as (A3 & A4 & A5).
  assert (page_block p r (block_initialized r) = block p r (block_initialized r)) as Eb by (pose proof (psize_max (page_type r)); unfold page_block, block, PAGE_HEADER_SIZE in *; rewrite (wrap_small 32); [done|nia]).
  assert (forall x, 0 <= x < 2 ^ 16 -> u32 x = x) as Eu by (intros x Hx; apply wrap_small; lia).
  set (i0 := block_initialized r) in *. set (b := block p r i0) in *. set (fb := block p r (i0 + 1)).
  assert (b + block_size r = fb) as Efb by (unfold b, fb, block; lia).
  assert (forall k m', 0 <= k /\ i0 + 1 + k <= block_count r -> (forall x, ~ fb <= x < fb + block_size r * k -> m' x = mem s x) ->
    (forall j, 0 <= j < k - 1 -> word m' (fb + block_size r * j) = fb + block_size r * (j + 1)) -> (0 < k -> word m' (fb + block_size r * (k - 1)) = 0) ->
    Q b (grown_state (s := s) p r k m')) as Hdone.
  { intros k m' Hk Hm Hw Hlast. destruct (grown_taken ex st s p r k m' I Hex Hp Hu Hl Hroom Hk Hm Hw Hlast) as (st1 & Ht & Hz). eapply HQ; [exact Ht| |exact Hz].
    apply (new_block I p r Hp Hu). unfold i0 in *. lia. }
  unfold page_initialize_blocks. do 2 wp_step. fold i0. rewrite Eb. do 2 wp_step. wp_step. eapply wp_get_page; [wp_simpl; apply lookup_insert_eq|]. wp_step. cbn [set_block_used set_block_initialized block_used block_initialized block_count block_size page_type].
  fold i0. rewrite (Eu (i0 + 1)), (Eu (block_used r + 1)), (Eu (block_count r - (i0 + 1))) by lia. apply wp_when; intros Hsmall.
  - apply wp_bind. cbn [set_block_used set_block_initialized block_size] in *. rewrite Efb.
    apply wp_link_loop; [lia|unfold fb, block, PAGE_HEADER_SIZE in *; lia|rewrite Z2Nat.id by lia; destruct (block_area I p r Hp Hu (block_count r - 1)) as [A6 A7]; [lia|];
      assert (fb + block_size r * (block_count r - (i0 + 1)) = block p r (block_count r - 1) + block_size r) by (unfold fb, block; ring); lia|].
    rewrite Z2Nat.id by lia. intros k m' Hk Hm Hw. change (0 + k) with k. apply wp_when; intros Hk0.
    + apply negb_true_iff, Z.eqb_neq in Hk0. rewrite (proj2 (Z.eqb_neq k 0)) by done. apply wp_bind, wp_store; [unfold fb, block, PAGE_HEADER_SIZE in *; nia|]. cbv beta.
      eapply wp_upd_page; [wp_simpl; apply lookup_insert_eq|]. wp_step. wp_simpl. rewrite insert_insert_eq.
      set (m1 := write m' (fb + block_size r * (k - 1)) (le_bytes 8 0)). cbn [set_block_used set_block_initialized block_initialized]. rewrite (Eu (i0 + 1 + k)) by lia.
      assert (grown p k r = set_local_free_count k (set_block_initialized (i0 + 1 + k) (set_local_free fb (set_block_used (block_used r + 1) (set_block_initialized (i0 + 1) r))))) as Eg.
      { unfold grown. fold i0. rewrite (proj2 (Z.eqb_neq k 0)) by done. done. }
      rewrite <- Eg. apply (Hdone k m1); [lia| | |].
      * intros x Hx. unfold m1. rewrite write_other by (rewrite length_le_bytes; nia). by apply Hm.
      * intros j Hj. unfold m1. rewrite (word_ext m'); [apply Hw; lia|]. intros x Hx. apply write_other. left. nia.
      * intros _. unfold m1. by apply word_write.
    + apply negb_false_iff, Z.eqb_eq in Hk0. subst k. wp_step. specialize (Hdone 0 m' ltac:(lia) Hm ltac:(lia) ltac:(lia)).
      unfold grown_state, grown in Hdone. fold i0 in Hdone. rewrite Z.add_0_r in Hdone. cbn [Z.eqb] in Hdone.
      assert (set_local_free 0 (set_local_free_count 0 r) = r) as Er by (by apply no_local_list). rewrite Er in Hdone. exact Hdone.
  - wp_step. specialize (Hdone 0 (mem s) ltac:(lia) ltac:(done) ltac:(lia) ltac:(lia)).
    unfold grown_state, grown in Hdone. fold i0 in Hdone. rewrite Z.add_0_r in Hdone. cbn [Z.eqb] in Hdone.
    assert (set_local_free 0 (set_local_free_count 0 r) = r) as Er by (by apply no_local_list). rewrite Er in Hdone. destruct s. exact Hdone.
Qed.
(** ** Blocks of the heap, and full pages *)

Lemma heap_insert_view {A} (f : heap_t -> A) (hs : gmap Z heap_t) hp h h' : hs !! hp = Some h -> f h' = f h -> f <$> <[hp := h']> hs = f <$> hs.
Proof. intros Hh E. rewrite fmap_insert, E. apply insert_id. by rewrite lookup_fmap, Hh. Qed.

Lemma inner_lists ex (s : state) p r r' (A : gmap Z lists) :
  pages s !! p = Some r -> inner r r' -> lists_ok ex (pages s) A -> lists_ok ex (<[p := r']> (pages s)) A.
Proof.
  intros Hp Hin L. eapply lists_frame; [|exact L]. intros q _. destruct (decide (q = p)) as [->|Hne]; [rewrite lookup_insert_eq, Hp; simpl; by rewrite (in_list _ _ Hin)|by rewrite lookup_insert_ne].
Qed.

(** The list of the page becomes the list of the heap. *)
Lemma wp_push_local_free (Q : unit -> state -> Prop) ex st s p r h :
  Base ex st s -> ex = None \/ ex = Some p -> pages s !! p = Some r -> in_use r -> heaps s !! page_heap r = Some h -> heap_local_free h (size_class r) = 0 ->
  (forall r1 s1 st1, Base (Some p) st1 s1 -> pages s1 = <[p := r1]> (pages s) -> page_lists <$> heaps s1 = page_lists <$> heaps s -> inner r r1 -> is_zero r1 = is_zero r -> mem s1 = mem s ->
     rest_same s s1 -> kept ∅ ∅ st s st1 s1 -> (forall b, st1 !! b = Some Live <-> st !! b = Some Live) -> Q tt s1) ->
  wp (page_push_local_free_to_heap p) Q s.
Proof.
  intros I Hex Hp Hu Hh Hempty HQ. pose proof (page_is_ok I p r Hp Hu) as Hok. destruct (page_numbers r Hok) as (N1 & N2 & _).
  pose proof (local_listing I p r Hp Hu) as L. pose proof (own_listing_bound I p r Hp Hu _ _ _ (or_introl eq_refl) L) as [Hbound _].
  pose proof (ok_local _ Hok) as Hlocal. pose proof (ok_used _ Hok). pose proof (ok_initialized _ Hok).
  assert (u32 (block_used r + local_free_count r) = block_used r + local_free_count r) as Eu by (apply wrap_small; lia).
  destruct (page_heap_lists I p r Hp) as (h' & Hh' & Hhl & Hlists). assert (h' = h) as -> by congruence.
  destruct (proj1 Hlists (size_class r)) as [n0 Hn0]. cbn [block_lists fst] in Hn0. rewrite Hempty in Hn0. apply listing_null in Hn0 as [_ Hnone].
  unfold page_push_local_free_to_heap. repeat wp_step.
  set (h1 := set_heap_local_free _ h). set (r1 := set_local_free_count _ _).
  assert (inner r r1) as Hin by (split; [split; done || (simpl; lia)|done..]).
  assert (page_ok r1) as Hok1. { destruct Hok as [O1 O2 O3 O4 O5 O6 O7 O8]. split; simpl; try done; lia. }
  set (x1 := HeapFree (page_heap r) (size_class r)) in *. set (st1 := rename (PageFree p) x1 st).
  set (s1 := set_pages (<[p := r1]> (pages s)) (set_heaps (<[page_heap r := h1]> (heaps s)) s)).
  assert (forall x, x <> PageFree p -> x <> x1 -> forall b', st1 !! b' = Some x <-> st !! b' = Some x) as Hother by (intros x H1 H2 b'; by apply rename_other).
  assert (hview <$> heaps s1 = hview <$> heaps s) as Hhv by (by eapply heap_insert_view).
  assert (Base (Some p) st1 s1) as I1.
  { eapply (page_step I p r r1 Hp Hu (in_place _ _ Hin) Hok1 (in_sview _ _ Hin) s1 eq_refl eq_refl ltac:(done) (block_lists h) (block_lists h1) st1); try done.
    - simpl. by rewrite fmap_insert, lookup_insert_eq.
    - intros hq Hne. simpl. by rewrite fmap_insert, lookup_insert_ne.
    - intros c Hc. simpl. by rewrite fn_lookup_insert_ne.
    - intros b' Hb'. unfold st1. rewrite lookup_rename. destruct (st !! b') as [z|] eqn:Ez; [|done]. simpl. case_decide as Hz; [|done]. subst z.
      destruct Hb'. by eapply (own_member I p r Hp Hu b' (PageFree p)); [|left].
    - intros b' Hb'. destruct (member_status I p r Hp Hu b' Hb') as (x & Hx & Hlx). unfold st1. rewrite lookup_rename, Hx. simpl. eexists. split; [done|]. by case_decide.
    - exists (local_free_count r). simpl. rewrite fn_lookup_insert. by apply listing_rename.
    - destruct (proj2 Hlists (page_type r)) as [n Hn']. exists n. eapply listing_frame; [done| |exact Hn']. by apply Hother.
    - simpl. apply listing_empty. split; [done|]. intros b'. by apply rename_source.
    - destruct (thread_listing I p r Hp Hu) as (head & n & E1 & E2 & E3). exists head, n. split_and!; [done|done|]. eapply listing_frame; [done| |exact E3]. by apply Hother.
    - exact (page_zero I p r Hp Hu). }
  assert (forall b', st1 !! b' = Some Live <-> st !! b' = Some Live) as HL' by (by apply Hother).
  assert (page_lists <$> heaps s1 = page_lists <$> heaps s) as Hpl by (by eapply heap_insert_view).
  assert (r1 = (fun r0 => set_local_free_count 0 (set_local_free 0 (set_block_used (u32 (block_used r0 + local_free_count r0)) r0))) r) as Er by done.
  assert (kept ∅ ∅ st s st1 s1) as Hk.
  { eapply (page_kept I p r r1 Hp Hu (in_place _ _ Hin) Hok1 (in_sview _ _ Hin) s1 eq_refl eq_refl ltac:(done)); try done.
    + intros b' Hb' _. by apply HL'.
    + intros b' Hb'. right. by apply HL'. }
  exact (HQ r1 s1 st1 I1 eq_refl Hpl Hin eq_refl eq_refl eq_refl Hk HL').
Qed.
(** Only flags of the page change. *)
Record same_blocks (r r' : page_t) : Prop := {
  sb_place : same_place r r';
  sb_sview : sview r' = sview r;
  sb_initialized : block_initialized r' = block_initialized r;
  sb_used : block_used r' = block_used r;
  sb_count : block_count r' = block_count r;
  sb_local : local_free r' = local_free r;
  sb_local_count : local_free_count r' = local_free_count r;
  sb_thread : page_thread_free r' = page_thread_free r;
  sb_zero : is_zero r' = true -> is_zero r = true;
  sb_aligned : has_aligned_block r = true -> has_aligned_block r' = true;
  sb_generic : generic_free r' = false -> is_full r' = false /\ has_aligned_block r' = false }.

Lemma page_flags_step ex st s p r r' :
  Base ex st s -> ex = None \/ ex = Some p -> pages s !! p = Some r -> in_use r -> same_blocks r r' ->
  Base (Some p) st (set_pages (<[p := r']> (pages s)) s) /\ kept ∅ ∅ st s st (set_pages (<[p := r']> (pages s)) s).
Proof.
  intros I Hex Hp Hu Hsb. pose proof (page_is_ok I p r Hp Hu) as Hok. pose proof Hsb as [Hs Hsv E1 E2 E3 E4 E5 E6 Hz Hal Hg].
  assert (page_ok r') as Hok1. { destruct Hok as [O1 O2 O3 O4 O5 O6 O7 O8]. destruct Hs as [S1 S2 S3 S4 S5]. split; rewrite ?S2, ?S3, ?S4, ?E1, ?E2, ?E3, ?E5; done. }
  destruct (page_heap_lists I p r Hp) as (h & Hh & Hhl & Hlists). set (s1 := set_pages _ s).
  assert (forall b, member p r' b <-> member p r b) as Hmem by (intros b; unfold member, block; by rewrite E1, (sp_size _ _ Hs)).
  assert (Base (Some p) st s1) as I1; [|split; [done|]].
  { eapply (page_step I p r r' Hp Hu Hs Hok1 Hsv s1 eq_refl eq_refl ltac:(done) (block_lists h) (block_lists h) st); try done.
    - intros b Hb. apply Hmem in Hb. destruct (member_status I p r Hp Hu b Hb) as (x & Hx & Hlx). exists x. split; [done|]. by apply (located_same x p r r').
    - apply Hlists.
    - apply Hlists.
    - rewrite E4, E5. exact (local_listing I p r Hp Hu).
    - destruct (thread_listing I p r Hp Hu) as (head & n & T1 & T2 & T3). exists head, n. rewrite E6. split_and!; [|done|done]. rewrite <- T1. unfold page_block_from_thread_free_list, page_block. by rewrite (sp_size _ _ Hs).
    - intros Hz' x Hx. apply (page_zero I p r Hp Hu (Hz Hz')). unfold block in *. by rewrite E1, E3, (sp_size _ _ Hs) in Hx. }
  eapply (page_kept I p r r' Hp Hu Hs Hok1 Hsv s1 eq_refl eq_refl ltac:(done)); try done. intros b Hb. by right.
Qed.

Lemma base_full p st s : Base (Some p) st s -> (forall r, pages s !! p = Some r -> in_use r -> is_full r = (block_used r =? block_count r)) -> Base None st s.
Proof.
  intros [I1 I2 I3 I4 I5 I6 I7 I8] H. constructor; try done. intros q r Hq Hu _. destruct (decide (q = p)) as [->|Hne]; [by apply H|]. apply (I2 q r Hq Hu). congruence.
Qed.

Lemma place_available r h c : place_of r = Available h c -> in_use r /\ is_full r = false /\ h = page_heap r /\ c = size_class r.
Proof. unfold place_of, in_use. destruct (is_huge (page_type r)) eqn:E1, (is_free r), (is_full r); try done. intros [= <- <-]. split_and!; try done. intros E. by rewrite E in E1. Qed.

Lemma place_in_use r : in_use r -> is_full r = false -> place_of r = Available (page_heap r) (size_class r).
Proof. unfold place_of, in_use. intros [-> H] ->. by destruct (page_type r). Qed.

(** A page whose blocks are all used leaves the list of available pages. *)
Lemma wp_available_to_full (Q : unit -> state -> Prop) st s p r :
  Base (Some p) st s -> lists_ok None (pages s) (page_lists <$> heaps s) -> pages s !! p = Some r -> in_use r -> is_full r = false -> block_used r = block_count r ->
  (forall r1 s1, Inv None st s1 -> pages s1 !! p = Some r1 -> in_use r1 -> same_place r r1 -> block_initialized r1 = block_initialized r -> mem s1 = mem s -> rest_same s s1 -> kept ∅ ∅ st s st s1 -> Q tt s1) ->
  wp (page_available_to_full p) Q s.
Proof.
  intros I L Hp Hu Hf Hused HQ. unfold page_available_to_full. apply wp_bind. destruct (iv_heap _ _ _ I p r Hp) as [h Hh].
  eapply wp_unlink_available; [exact L|exact Hp|by apply place_in_use|exact Hh|]. intros pg' hs' Hcore Hp' Hhc L'. wp_step. wp_simpl.
  set (r1 := set_generic_free true _). assert (same_blocks r r1) as Hsb.
  { split; try done. destruct Hu as [Hf0 Hu]. unfold sview, r1. cbn. rewrite Hf0. destruct (page_type r); done. }
  destruct (page_flags_step (Some p) st s p r r1 I (or_intror eq_refl) Hp Hu Hsb) as [I1 K1]. set (s1 := set_pages _ s) in I1, K1.
  set (s2 := set_pages _ _). assert (links_only s1 s2) as Hlo by (split; [simpl; by rewrite !fmap_insert, Hcore|done..]).
  assert (in_use r1) as Hu1 by done. assert (Base None st s2) as I2.
  { eapply (base_full p); [by eapply links_base|]. intros r0 Hr0 _. simpl in Hr0. rewrite lookup_insert_eq in Hr0. injection Hr0 as <-. simpl. rewrite Hused. symmetry. apply Z.eqb_refl. }
  eapply (HQ r1 s2); [split; [done|]|apply lookup_insert_eq|done|apply Hsb|done|done|done|].
  - apply lists_nowhere; [done|]. unfold place_of, r1. simpl. rewrite (proj1 Hu). by destruct (is_huge (page_type r)).
  - eapply kept_after; [exact K1|by apply links_kept].
Qed.
(** ** [page_allocate_block] *)

Lemma rest_trans s1 s2 s3 : rest_same s1 s2 -> rest_same s2 s3 -> rest_same s1 s3.
Proof. unfold rest_same. intros E1 E2. rewrite E2, E1. by destruct s1, s3. Qed.

Lemma taken_local ex st s p r (Q : Z -> state -> Prop) :
  Base ex st s -> ex = None \/ ex = Some p -> pages s !! p = Some r -> in_use r -> local_free r <> 0 ->
  (forall b r1 s1 st1, taken p r st s b r1 st1 s1 -> b <> 0 -> Q b s1) -> wp (page_pop p) Q s.
Proof.
  intros I Hex Hp Hu Hl HQ. unfold page_pop. do 2 wp_step. rewrite (proj2 (Z.eqb_neq _ _)) by done. cbn [negb].
  eapply wp_get_local_free_block; try done. intros r1 s1 st1 I1 Hpg Hhs Hin Hz Hrest Hk Hst Hst1 Hth. apply (HQ _ r1 s1 st1); [|done].
  assert (member p r (local_free r)) as Hm by (eapply (own_member I p r Hp Hu); [exact Hst|by left]).
  split_and!; try done; [congruence|]. eapply member_same; [apply (in_place _ _ Hin)|done].
Qed.

(** A block is taken from the page's lists or from its uninitialised part; what
    comes from there is zero when the page is. *)
Lemma wp_take_block {A} (k : Z * bool -> M A) (Q : A -> state -> Prop) st s p r :
  Base None st s -> pages s !! p = Some r -> in_use r -> is_full r = false ->
  (forall b z r1 s1 st1, taken p r st s b r1 st1 s1 -> (z = true -> forall x, b <= x < b + block_size r -> mem s1 x = 0) -> wp (k (b, z)) Q s1) ->
  wp (block ← page_pop p;
      bz ← (if block =? 0 then
        r ← get_page p;
        block ← (if negb (page_thread_free r =? 0) then page_adopt_thread_free_block_list p;; page_pop p else mret block);
        if block =? 0 then
          block ← page_initialize_blocks p;
          r ← get_page p;
          mret (block, is_zero r)
        else mret (block, false)
      else mret (block, false));
      k bz) Q s.
Proof.
  intros I Hp Hu Hf HQ. pose proof (iv_full _ _ _ I p r Hp Hu ltac:(done)) as Hfull. rewrite Hf in Hfull. symmetry in Hfull. apply Z.eqb_neq in Hfull.
  apply wp_bind. destruct (decide (local_free r = 0)) as [Hl|Hl].
  - unfold page_pop at 1. do 2 wp_step. rewrite Hl. cbn [Z.eqb negb]. wp_step. apply wp_bind. cbn [Z.eqb]. do 3 wp_step. destruct (Z.eqb_spec (page_thread_free r) 0) as [Ht|Ht]; cbn [negb].
    + wp_step. cbn [Z.eqb]. apply wp_bind. pose proof (page_is_ok I p r Hp Hu) as Hok. pose proof (ok_local _ Hok). pose proof (ok_initialized _ Hok).
      destruct (grow_counts I p r Hp Hu Hl) as (Hc & Hused & _).
      eapply wp_initialize_blocks; [exact I|by left|done|done|done|lia|]. intros b r1 s1 st1 Ht1 Hnew Hzero. pose proof Ht1 as (I1 & Hpg & Hhs & Hin & Hz & _).
      wp_step. eapply wp_get_page; [rewrite Hpg; apply lookup_insert_eq|]. wp_step. apply (HQ b _ r1 s1 st1); [done|]. rewrite Hz. apply Hzero.
    + apply wp_bind. eapply wp_adopt_thread_free; [exact I|by left|done|done|]. intros r1 s1 st1 I1 Hpg Hhs Hin Hz Hrest Hk Hlive Hl1.
      assert (pages s1 !! p = Some r1) as Hp1 by (rewrite Hpg; apply lookup_insert_eq). pose proof (inner_in_use _ _ Hin Hu) as Hu1.
      eapply taken_local; [exact I1|by right|done|done|by apply Hl1|]. intros b r2 s2 st2 (I2 & Hpg2 & Hhs2 & Hin2 & Hz2 & Hrest2 & Hk2 & Hb2 & Hb3 & Hm2) Hb0.
      rewrite (proj2 (Z.eqb_neq _ _)) by done. wp_step. apply (HQ b false r2 s2 st2); [|done]. split_and!; [done| |congruence|by eapply inner_trans|congruence|by eapply rest_trans|by eapply kept_before| |done|done].
      * rewrite Hpg2, Hpg. apply insert_insert_eq.
      * by rewrite <- Hlive.
  - eapply taken_local; [exact I|by left|done|done|done|]. intros b r1 s1 st1 Ht Hb. apply wp_bind. rewrite (proj2 (Z.eqb_neq _ _)) by done. wp_step. by apply (HQ b false r1 s1 st1).
Qed.
Lemma same_place_trans r1 r2 r3 : same_place r1 r2 -> same_place r2 r3 -> same_place r1 r3.
Proof. intros [P1 P2 P3 P4 P5] [Q1 Q2 Q3 Q4 Q5]. split; [congruence..|lia]. Qed.

Lemma same_place_refl r : same_place r r.
Proof. by split. Qed.

(** The list of the page goes to the heap when the heap has none. *)
Lemma wp_offer_local_free {A} (k : M A) (Q : A -> state -> Prop) st s p r :
  Base (Some p) st s -> lists_ok None (pages s) (page_lists <$> heaps s) -> pages s !! p = Some r -> in_use r ->
  (forall r1 s1 st1, Base (Some p) st1 s1 -> lists_ok None (pages s1) (page_lists <$> heaps s1) -> pages s1 !! p = Some r1 -> inner r r1 -> kept ∅ ∅ st s st1 s1 -> rest_same s s1 -> wp k Q s1) ->
  wp (r ← get_page p; h ← get_heap (page_heap r);
      when (negb (local_free r =? 0) && (heap_local_free h (size_class r) =? 0)) (page_push_local_free_to_heap p);; k) Q s.
Proof.
  intros I L Hp Hu HQ. destruct (iv_heap _ _ _ I p r Hp) as [h Hh]. do 5 wp_step. apply wp_when; intros Hc.
  - apply andb_true_iff in Hc as [_ Hc%Z.eqb_eq]. eapply wp_push_local_free; [exact I|by right|done|done|exact Hh|done|].
    intros r1 s1 st1 I1 Hpg Hpl Hin Hz Hm Hrest Hk _. apply (HQ r1 s1 st1); [done| |by rewrite Hpg, lookup_insert_eq|done|done|done].
    rewrite Hpg, Hpl. by eapply inner_lists.
  - apply (HQ r s st); try done; first [apply inner_refl|apply kept_refl|apply rest_refl].
Qed.

(** A page that has no block left leaves the list of available pages, unless other
    threads have freed some. *)
Lemma wp_check_full {A} (k : M A) (Q : A -> state -> Prop) st s p r :
  Base (Some p) st s -> lists_ok None (pages s) (page_lists <$> heaps s) -> pages s !! p = Some r -> in_use r -> is_full r = false ->
  (forall r1 s1 st1, Inv None st1 s1 -> pages s1 !! p = Some r1 -> same_place r r1 -> kept ∅ ∅ st s st1 s1 -> rest_same s s1 -> wp k Q s1) ->
  wp (r ← get_page p;
      when (block_used r =? block_count r)
        (page_adopt_thread_free_block_list p;;
         r ← get_page p;
         when (block_used r =? block_count r) (page_available_to_full p));;
      k) Q s.
Proof.
  intros I L Hp Hu Hf HQ. do 3 wp_step. apply wp_when; intros Hc.
  - apply wp_bind. eapply wp_adopt_thread_free; [exact I|by right|done|done|]. intros r1 s1 st1 I1 Hpg Hhs Hin Hz Hrest Hk _ _.
    assert (pages s1 !! p = Some r1) as Hp1 by (rewrite Hpg; apply lookup_insert_eq). pose proof (inner_in_use _ _ Hin Hu) as Hu1.
    assert (lists_ok None (pages s1) (page_lists <$> heaps s1)) as L1 by (rewrite Hpg, Hhs; by eapply inner_lists).
    assert (is_full r1 = false) as Hf1 by (by rewrite (in_full _ _ Hin)).
    apply wp_bind. eapply wp_get_page; [exact Hp1|]. apply wp_when; intros Hc1.
    + eapply wp_available_to_full; try done; [by apply Z.eqb_eq|]. intros r2 s2 I2 Hp2 Hu2 Hsp2 _ Hm2 Hrest2 Hk2.
      apply (HQ r2 s2 st1); [done|done|eapply same_place_trans; [apply (in_place _ _ Hin)|done]|by eapply kept_after|by eapply rest_trans].
    + apply (HQ r1 s1 st1); [split; [|done]|done|apply (in_place _ _ Hin)|done|done].
      eapply base_full; [exact I1|]. intros r0 Hr0 _. assert (r0 = r1) as -> by congruence. by rewrite Hf1, Hc1.
  - apply (HQ r s st); [split; [|done]|done|apply same_place_refl|apply kept_refl|apply rest_refl].
    eapply base_full; [exact I|]. intros r0 Hr0 _. assert (r0 = r) as -> by congruence. by rewrite Hf, Hc.
Qed.

(** A block of the page becomes live, zeroed when asked for. *)
Lemma wp_page_allocate_block (Q : Z -> state -> Prop) st s p r zero :
  Inv None st s -> pages s !! p = Some r -> in_use r -> is_full r = false ->
  (forall b al s1 st1, Inv None st1 s1 -> kept {[b]} {[b]} st s st1 s1 -> st !! b <> Some Live -> live st1 s1 b (block_size r) al ->
     (zero = true -> forall x, b <= x < b + block_size r -> mem s1 x = 0) -> (forall sp v, spans s1 !! sp = Some v -> span_page_type v = PAGE_HUGE -> b <> sp + SPAN_HEADER_SIZE) -> Q b s1) ->
  wp (page_allocate_block p zero) Q s.
Proof.
  intros [I L] Hp Hu Hf HQ. unfold page_allocate_block.
  apply (wp_take_block _ Q st s p r I Hp Hu Hf). intros b z r1 s1 st1 (I1 & Hpg & Hhs & Hin & Hz & Hrest & Hk & Hnl & Hlive & Hm) Hzero. cbn beta iota.
  assert (pages s1 !! p = Some r1) as Hp1 by (rewrite Hpg; apply lookup_insert_eq). pose proof (inner_in_use _ _ Hin Hu) as Hu1.
  assert (lists_ok None (pages s1) (page_lists <$> heaps s1)) as L1 by (rewrite Hpg, Hhs; by eapply inner_lists).
  assert (live st1 s1 b (block_size r) (has_aligned_block r1)) as Hl1.
  { left. split; [done|]. exists p, r1. split_and!; try done. symmetry. apply (in_place _ _ Hin). }
  eapply wp_offer_local_free; [exact I1|exact L1|done|done|]. intros r2 s2 st2 I2 L2 Hp2 Hin2 Hk2 Hrest2.
  eapply wp_check_full; [exact I2|exact L2|exact Hp2|by eapply inner_in_use|by rewrite (in_full _ _ Hin2), (in_full _ _ Hin)|]. intros r3 s3 st3 I3 Hp3 Hsp Hk3 Hrest3.
  assert (block_size r3 = block_size r) as Ebs by (rewrite (sp_size _ _ Hsp), (sp_size _ _ (in_place _ _ Hin2)), (sp_size _ _ (in_place _ _ Hin)); done).
  pose proof (kept_after _ _ _ _ _ _ _ _ Hk2 Hk3) as Hk23. destruct (kp_keep _ _ _ _ _ _ Hk23 b _ _ Hl1) as (al & Hl3 & _); [set_solver|].
  pose proof (kept_after _ _ _ _ _ _ _ _ (kept_after _ _ _ _ _ _ _ _ Hk Hk2) Hk3) as Hk03.
  assert (z = true -> forall x, b <= x < b + block_size r -> mem s3 x = 0) as Hzero3.
  { intros Hzt x Hx. rewrite (kp_content _ _ _ _ _ _ Hk23 b _ _ x Hl1) by (set_solver || done). by apply Hzero. }
  assert (forall sp v, spans s3 !! sp = Some v -> span_page_type v = PAGE_HUGE -> b <> sp + SPAN_HEADER_SIZE) as Hnh.
  { destruct (rest_fields _ _ (rest_trans _ _ _ Hrest2 Hrest3)) as (Es & _). rewrite Es. intros sp v. apply (member_no_header I1 p r1 b sp v Hp1 Hu1 Hm). }
  destruct I3 as [I3 L3]. do 2 wp_step. rewrite Ebs. apply wp_bind, wp_when; intros Hze; [|wp_step; apply (HQ b al s3 st3); [by split|done..|by rewrite Hze|done]].
  assert (forall m', (forall x, m' x <> mem s3 x -> b <= x < b + block_size r) -> (forall x, b <= x < b + block_size r -> m' x = 0) -> wp (mret b) Q (set_mem m' s3)) as Hend.
  { intros m' Hm1 Hm2. destruct (live_write I3 b _ al m' Hl3 Hm1) as [I4 Hk4]. wp_step. apply (HQ b al (set_mem m' s3) st3); [by split|by eapply kept_twice|done|exact Hl3|done|exact Hnh]. }
  pose proof (page_numbers r (page_is_ok I p r Hp Hu)) as (N1 & _). destruct z; cbn [negb].
  - destruct (live_region I3 b _ al Hl3) as (_ & sp & v & Hs & Hr & _). destruct (so_address _ _ _ _ (iv_spans _ _ _ I3) sp v Hs) as (A1 & A2 & _).
    specialize (Hr b ltac:(lia)). unfold region in Hr. apply wp_store; [lia|]. apply Hend.
    + intros x Hx. destruct (decide (b <= x < b + 8)); [lia|]. destruct Hx. apply write_other. rewrite length_le_bytes. lia.
    + intros x Hx. destruct (decide (b <= x < b + 8)); [|rewrite write_other by (rewrite length_le_bytes; lia); by apply Hzero3].
      rewrite write_in by (rewrite length_le_bytes; lia). change (le_bytes 8 0) with (replicate 8 0). assert (Z.to_nat (x - b) < 8)%nat as Hi by lia. revert Hi. generalize (Z.to_nat (x - b)). intros i Hi. do 8 (destruct i; [done|]). lia.
  - wp_step. apply Hend.
    + intros x Hx. destruct (decide (b <= x < b + block_size r)); [done|]. destruct Hx. apply fill_other. lia.
    + intros x Hx. by apply fill_in.
Qed.
End Page.
End RpPage.
