(* ===== verification/RpFree.v ===== *)
(** * Freeing blocks

    Decommitting free pages, moving pages between lists, and [block_deallocate]. *)
From stdpp Require Import functions.
From S2P Require Import Prelude RpState Rpmalloc RpSize RpWp RpBlocks RpLists RpInv RpLive RpPage.

Module RpFree.
Import RpState Rpmalloc RpSize RpWp RpBlocks RpLists RpInv RpLive RpPage.

Section Decommit.
Context `{HC : !Config} `{HM : !MemoryInterface} `{HL : !MemoryLaws}.

(** ** Decommitting *)

(** Live blocks do not lie in free pages. *)
Lemma live_not_free st s p r b n al x :
  Base None st s -> pages s !! p = Some r -> page_type r <> PAGE_HUGE -> is_free r = true -> live st s b n al -> b <= x < b + n -> ~ p <= x < p + psize (page_type r).
Proof.
  intros I Hp Ht Hf Hb Hx Hpx. pose proof (iv_spans _ _ _ I) as O. destruct (live_region I b n al Hb) as (Hn & sp & v & Hs & Hr & Hh & Hcl).
  destruct Hb as [Hb|Hb].
  - destruct Hb as [_ (q & r' & Hq & Hu & Hm & -> & _)]. destruct (member_bounds q r' b (page_is_ok I q r' Hq Hu) Hm) as (B1 & B2 & B3). unfold PAGE_HEADER_SIZE in *.
    assert (p <> q) as Hne by (intros ->; destruct Hu; congruence). destruct (pages_apart O p r q r' Hp Hq Ht (proj2 Hu) Hne); lia.
  - destruct (page_in_region O p r x Hp Ht Hpx) as (sq & w & Hw & E & Hxr). assert (sp = sq) as <- by (eapply (so_apart _ _ _ _ O); [exact Hs|exact Hw|by apply Hr|done]).
    destruct (Hh Hb). congruence.
Qed.

Lemma free_page_memory st s p r m' :
  Base None st s -> pages s !! p = Some r -> page_type r <> PAGE_HUGE -> is_free r = true -> (forall x, m' x <> mem s x -> p <= x < p + psize (page_type r)) ->
  blocks_ok (bview <$> pages s) (block_lists <$> heaps s) m' st /\
  (forall sp v x, spans s !! sp = Some v -> span_page_type v <> PAGE_HUGE -> page_at sp v (page_initialized v) <= x < sp + SPAN_SIZE -> m' x = mem s x) /\
  (forall q r' x, pages s !! q = Some r' -> page_type r' <> PAGE_HUGE -> q <> p -> q <= x < q + psize (page_type r') -> m' x = mem s x) /\
  (forall b n al x, live st s b n al -> b <= x < b + n -> m' x = mem s x).
Proof.
  intros I Hp Ht Hf Hm. pose proof (iv_spans _ _ _ I) as O.
  assert (forall q r' x, pages s !! q = Some r' -> page_type r' <> PAGE_HUGE -> q <> p -> q <= x < q + psize (page_type r') -> m' x = mem s x) as Hother.
  { intros q r' x Hq Ht' Hne Hx. destruct (decide (m' x = mem s x)) as [|Hd]; [done|exfalso]. specialize (Hm x Hd). destruct (pages_apart O p r q r' Hp Hq Ht Ht' ltac:(done)); lia. }
  split_and!; [| |exact Hother|].
  - apply (blocks_outside (iv_blocks _ _ _ I)). intros q r' x Hq Hu Hx. rewrite lookup_fmap in Hq. destruct (pages s !! q) as [r0|] eqn:Hq0; [|done]. injection Hq as <-.
    apply (Hother q r0 x Hq0 (proj2 Hu)); [|exact Hx]. intros ->. simplify_eq. destruct Hu as [Hu _]. simpl in Hu. congruence.
  - intros sp v x Hs Hh Hx. destruct (decide (m' x = mem s x)) as [|Hd]; [done|exfalso]. by apply (uninitialized_apart O p r sp v x Hp Ht Hs Hh Hx), Hm.
  - intros b n al x Hb Hx. destruct (decide (m' x = mem s x)) as [|Hd]; [done|exfalso]. by apply (live_not_free st s p r b n al x I Hp Ht Hf Hb Hx), Hm.
Qed.

Definition decommitted (p : Z) (r : page_t) (k' : os) (s : state) : state :=
  set_pages (<[p := set_is_decommitted true r]> (pages s)) (set_mem (fill (mem s) (p + 2 ^ commit_prefix_shift r) (psize (page_type r) - 2 ^ commit_prefix_shift r) 0) (set_kernel k' s)).

Lemma decommit_step st s p r k' :
  Inv None st s -> pages s !! p = Some r -> page_type r <> PAGE_HUGE -> is_free r = true -> 2 ^ commit_prefix_shift r < psize (page_type r) -> (forall x, mapped k' x <-> mapped (kernel s) x) ->
  Inv None st (decommitted p r k' s) /\ kept ∅ ∅ st s st (decommitted p r k' s).
Proof.
  intros [I L] Hp Ht Hf Hsize Hk. set (s' := decommitted p r k' s). pose proof (iv_decommit _ _ _ I p r Hp Ht) as (Hshift & Hzero & _).
  assert (0 < 2 ^ commit_prefix_shift r) as Hpos by (apply pow2_pos; lia).
  assert (forall x, mem s' x <> mem s x -> p <= x < p + psize (page_type r)) as Hm.
  { intros x Hx. destruct (decide (p <= x < p + psize (page_type r))); [done|]. destruct Hx. simpl. apply fill_other. lia. }
  destruct (free_page_memory st s p r (mem s') I Hp Ht Hf Hm) as (B & Hz & Hother & Hlive).
  assert (forall {A} (f : page_t -> A), f (set_is_decommitted true r) = f r -> f <$> pages s' = f <$> pages s) as Hview.
  { intros A f E. simpl. rewrite fmap_insert, E. apply insert_id. by rewrite lookup_fmap, Hp. }
  assert (bview <$> pages s' = bview <$> pages s) as Hbv by (by apply Hview).
  pose proof I as [I1 I2 I3 I4 I5 I6 I7 I8]. split; [split|].
  - constructor; [by rewrite Hbv| | | | |exact I6|exact I7|].
    + intros q r' Hq Hu Hne. simpl in Hq. apply lookup_insert_Some in Hq as [[<- <-]|[Hne' Hq]]; [|by apply (I2 q r')]. apply (I2 p r Hp); [exact Hu|done].
    + intros q r' Hq. simpl in Hq. apply lookup_insert_Some in Hq as [[<- <-]|[Hne' Hq]]; [exact (I3 p r Hp)|exact (I3 q r' Hq)].
    + eapply spans_frame; [exact I4|by apply Hview|exact Hk|exact Hz].
    + intros q r' Hq Ht'. simpl in Hq. apply lookup_insert_Some in Hq as [[<- <-]|[Hne' Hq]].
      * split; [exact Hshift|split].
        -- intros Hz0 x Hx. simpl. unfold fill. case_match; [done|by apply Hzero].
        -- intros _. split_and!; [exact Hf|exact Hsize|]. intros x Hx. simpl. apply fill_in. simpl in Hx. lia.
      * destruct (I5 q r' Hq Ht') as (D1 & D5 & D2). split; [done|split].
        { intros Hz0 x Hx. rewrite (Hother q r' x); [by apply D5|done..|unfold PAGE_HEADER_SIZE in *; lia]. }
        intros Hd. destruct (D2 Hd) as (D3 & D6 & D4). split_and!; [done|done|]. intros x Hx. rewrite (Hother q r' x); [by apply D4|done..|].
        assert (0 < 2 ^ commit_prefix_shift r') by (apply pow2_pos; lia). lia.
    + destruct I8 as [T1 T2 T3 T4 T5 T6 T7 T8]. constructor; try done. intros hp h x Hh Hne Hx. simpl. rewrite (Hk x). by eapply T1.
  - eapply lists_frame; [|exact L]. intros q _. simpl. destruct (decide (q = p)) as [->|Hne]; [by rewrite lookup_insert_eq, Hp|by rewrite lookup_insert_ne].
  - apply view_kept; [exact Hbv|done|done|exact Hlive|]. by apply hview_calm.
Qed.
Lemma kernel_step ex st s k' : Inv ex st s -> (forall x, mapped k' x <-> mapped (kernel s) x) -> Inv ex st (set_kernel k' s) /\ kept ∅ ∅ st s st (set_kernel k' s).
Proof.
  intros [I L] Hk. split; [split; [|done]|by apply view_kept; [..|apply hview_calm]]. eapply base_frame; [exact I|by constructor|by intros x Hx|apply I|apply I].
Qed.

Lemma place_free r hp t : place_of r = Free hp t -> page_type r = t /\ page_heap r = hp /\ is_free r = true /\ t <> PAGE_HUGE.
Proof. unfold place_of. destruct (is_huge (page_type r)) eqn:E1, (is_free r), (is_full r); try done; intros [= <- <-]; split_and!; try done; intros E; by rewrite E in E1. Qed.

Lemma wp_page_get_size (Q : Z -> state -> Prop) p r s : page_type r <> PAGE_HUGE -> Q (psize (page_type r)) s -> wp (page_get_size p r) Q s.
Proof. intros Ht HQ. unfold page_get_size. by destruct (page_type r). Qed.

(** The places and the links of the pages stay. *)
Definition lists_same (s s' : state) : Prop := forall q, list_view <$> pages s' !! q = list_view <$> pages s !! q.

Lemma lists_same_trans s1 s2 s3 : lists_same s1 s2 -> lists_same s2 s3 -> lists_same s1 s3.
Proof. intros H1 H2 q. by rewrite H2. Qed.

Lemma lists_same_place s s' q r hp t : lists_same s s' -> pages s !! q = Some r -> place_of r = Free hp t ->
  exists r', pages s' !! q = Some r' /\ place_of r' = Free hp t /\ page_next r' = page_next r.
Proof. intros H Hq Hr. specialize (H q). rewrite Hq in H. destruct (pages s' !! q) as [r'|]; [|done]. injection H as H1 H2 H3. exists r'. split_and!; [done|congruence|done]. Qed.

Lemma lists_same_seg s s' head l tail : lists_same s s' -> seg (pages s) head l tail -> seg (pages s') head l tail.
Proof. intros H. apply seg_frame. intros q _. specialize (H q). destruct (pages s' !! q), (pages s !! q); try done. injection H as H1 H2 H3. simpl. by rewrite H2. Qed.

Lemma wp_page_decommit (Q : unit -> state -> Prop) st s p r hp t :
  Inv None st s -> pages s !! p = Some r -> place_of r = Free hp t ->
  (forall s', Inv None st s' -> kept ∅ ∅ st s st s' -> lists_same s s' -> heaps s' = heaps s -> Q tt s') ->
  wp (page_decommit_memory_pages p) Q s.
Proof.
  intros I Hp Hr HQ. destruct (place_free r hp t Hr) as (Et & Eh & Hf & Hh). rewrite <- Et in Hh.
  assert (Q tt s) as Hsame by (apply HQ; [done|apply kept_refl|done|done]).
  unfold page_decommit_memory_pages. do 2 wp_step. destruct (is_decommitted r); [by wp_step|]. destruct (commit_on_demand r); cbn [negb]; [|by wp_step].
  apply wp_bind, wp_page_get_size; [done|]. cbv zeta. pose proof (iv_decommit _ _ _ (iv_base _ _ _ I) p r Hp Hh) as [Hshift _].
  assert (Z.shiftl 1 (commit_prefix_shift r) = 2 ^ commit_prefix_shift r) as -> by (rewrite Z.shiftl_mul_pow2 by lia; lia).
  destruct (Z.leb_spec (psize (page_type r)) (2 ^ commit_prefix_shift r)) as [|Hsize]; [by wp_step|]. apply wp_bind. unfold decommit_memory, wp at 1.
  destruct (memory_decommit _ _ (kernel s)) as [failed k'] eqn:Ed. assert (forall x, mapped k' x <-> mapped (kernel s) x) as Hk.
  { intros x. pose proof (decommit_mapped (p + 2 ^ commit_prefix_shift r) (psize (page_type r) - 2 ^ commit_prefix_shift r) (kernel s) x) as H. by rewrite Ed in H. }
  destruct failed; cbn [negb].
  - destruct (kernel_step None st s k' I Hk). by apply HQ.
  - destruct (decommit_step st s p r k' I Hp Hh Hf Hsize Hk) as [I' K']. unfold when. eapply wp_upd_page; [exact Hp|]. apply HQ; [exact I'|exact K'| |done].
    intros q. simpl. destruct (decide (q = p)) as [->|Hne]; [by rewrite lookup_insert_eq, Hp|by rewrite lookup_insert_ne].
Qed.

(** Only lists and counts of a heap that no block depends on change. *)
Lemma commit_count_step ex st s hp h h' : Inv ex st s -> heaps s !! hp = Some h -> heap_core h' = heap_core h -> page_lists h' = page_lists h ->
  Inv ex st (set_heaps (<[hp := h']> (heaps s)) s) /\ kept ∅ ∅ st s st (set_heaps (<[hp := h']> (heaps s)) s).
Proof.
  intros [I L] Hh E1 E2. assert (links_only s (set_heaps (<[hp := h']> (heaps s)) s)) as Hlo by (split; [done|by eapply heap_core_insert|done|done]).
  split; [split; [by eapply links_base|]|by apply links_kept]. simpl. assert (page_lists <$> <[hp := h']> (heaps s) = page_lists <$> heaps s) as -> by (by eapply heap_insert_view). exact L.
Qed.

Definition all_free (s : state) (hp : Z) (t : page_type_t) (l : list Z) : Prop := forall q, q ∈ l -> exists r, pages s !! q = Some r /\ place_of r = Free hp t.

Lemma all_free_same s s' hp t l : lists_same s s' -> all_free s hp t l -> all_free s' hp t l.
Proof. intros H Ha q Hq. destruct (Ha q Hq) as (r & Hr & Hx). destruct (lists_same_place s s' q r hp t H Hr Hx) as (r' & Hr' & Hx' & _). by exists r'. Qed.

Lemma wp_decommit_loop (Q : unit -> state -> Prop) fuel hp t l page st s :
  Inv None st s -> is_Some (heaps s !! hp) -> seg (pages s) page l 0 -> all_free s hp t l -> (length l < fuel)%nat ->
  (forall s', Inv None st s' -> kept ∅ ∅ st s st s' -> lists_same s s' -> is_Some (heaps s' !! hp) -> Q tt s') ->
  wp (decommit_loop fuel hp t page) Q s.
Proof.
  revert l page s Q. induction fuel as [|fuel IH]; intros l page s Q I [h Hh] Hs Hall Hfuel HQ; [lia|]. cbn [decommit_loop].
  assert (Q tt s) as Hsame by (apply HQ; [done|apply kept_refl|done|by eexists]).
  destruct (Z.eqb_spec page 0) as [|H0]; [by wp_step|]. destruct l as [|q l]; [done|]. destruct Hs as (<- & _ & next & Hnext & Hs).
  destruct (Hall page) as (r & Hr & Hx); [left|]. do 2 wp_step. destruct (is_decommitted r); [by wp_step|].
  apply wp_bind. eapply wp_page_decommit; [exact I|exact Hr|exact Hx|]. intros s1 I1 K1 Hl1 Hh1.
  destruct (lists_same_place s s1 page r hp t Hl1 Hr Hx) as (r1 & Hr1 & Hx1 & Hn1). assert (heaps s1 !! hp = Some h) as Hh1' by congruence.
  do 2 wp_step. destruct (is_decommitted r1); cbn [negb]; [|wp_step; apply HQ; [done..|by eexists]]. do 2 wp_step.
  set (h' := set_page_free_commit_count _ h). destruct (commit_count_step None st s1 hp h h' I1 Hh1' eq_refl eq_refl) as [I2 K2]. set (s2 := set_heaps _ s1) in *.
  assert (lists_same s s2) as Hl2 by exact Hl1. rewrite Hr in Hnext. injection Hnext as Hnext. rewrite Hn1, Hnext.
  apply (IH l); [done|by exists h'; apply lookup_insert_eq|by eapply lists_same_seg| |simpl in Hfuel; lia|].
  - eapply all_free_same; [exact Hl2|]. intros q Hq. apply Hall. by right.
  - intros s3 I3 K3 Hl3 Hh3. apply HQ; [done| |by eapply lists_same_trans|done]. by eapply kept_after; [eapply kept_after|].
Qed.

Lemma wp_skip_pages (Q : Z -> state -> Prop) n page l s hp t :
  seg (pages s) page l 0 -> all_free s hp t l -> (forall page' l', seg (pages s) page' l' 0 -> all_free s hp t l' -> (length l' <= length l)%nat -> Q page' s) -> wp (skip_pages n page) Q s.
Proof.
  revert page l. induction n as [|n IH]; intros page l Hs Hall HQ; cbn [skip_pages]; [wp_step; by eapply HQ|].
  destruct (Z.eqb_spec page 0); [wp_step; by eapply HQ|]. destruct l as [|q l]; [done|]. destruct Hs as (<- & _ & next & Hnext & Hs).
  destruct (Hall page) as (r & Hr & Hx); [left|]. rewrite Hr in Hnext. injection Hnext as <-. do 2 wp_step. apply (IH _ l); [done| |].
  - intros q Hq. apply Hall. by right.
  - intros page' l' H1 H2 H3. apply (HQ page' l'); [done|done|simpl; lia].
Qed.

Lemma wp_heap_page_free_decommit (Q : unit -> state -> Prop) hp t n st s :
  Inv None st s -> is_Some (heaps s !! hp) -> (forall s', Inv None st s' -> kept ∅ ∅ st s st s' -> Q tt s') -> wp (heap_page_free_decommit hp t n) Q s.
Proof.
  intros I [h Hh] HQ. unfold heap_page_free_decommit. do 2 wp_step.
  destruct (lk_free _ _ _ (iv_lists _ _ _ I) hp (page_lists h) ltac:(by rewrite lookup_fmap, Hh) t) as (l & Hs & Hl).
  assert (all_free s hp t l) as Hall by (intros q Hq; by apply Hl in Hq as [_ ?]).
  apply wp_bind. eapply (wp_skip_pages _ _ _ l); [exact Hs|exact Hall|]. intros page' l' Hs' Hall' Hlen. do 2 wp_step.
  apply (wp_decommit_loop _ _ _ _ l'  _ st); [done|by eexists|done|done| |].
  - destruct Hl as [Hnd Hmem]. assert (length l <= size (pages s))%nat; [|lia].
    rewrite <- (size_dom (pages s)) by exact (gset Z). rewrite <- (size_list_to_set (C := gset Z) l Hnd). apply subseteq_size. intros q Hq%elem_of_list_to_set. apply elem_of_dom.
    apply Hmem in Hq as (_ & r & Hr & _). by eexists.
  - intros s' I' K' _ _. by apply HQ.
Qed.
(** ** Pages between lists *)

Lemma lists_without (pg : gmap Z page_t) (A : gmap Z lists) p r : lists_ok None pg A -> pg !! p = Some r -> place_of r = Nowhere -> lists_ok (Some p) pg A.
Proof. intros L Hp Hr. rewrite <- (insert_id pg p r Hp). apply lists_enter; [done|]. intros r0 Hr0. congruence. Qed.

(** The state after a page is pushed to the available pages of its class. *)
Definition pushed_state (p hp c : Z) (h : heap_t) (r' : page_t) (s : state) : state :=
  set_pages (pushed (pg := pages s) p (page_lists h) c r') (set_heaps (<[hp := set_page_available (<[c := p]> (page_available h)) h]> (heaps s)) s).

Lemma push_available_step st s p r r' h :
  Base (Some p) st s -> lists_ok (Some p) (pages s) (page_lists <$> heaps s) -> pages s !! p = Some r -> in_use r -> same_blocks r r' ->
  heaps s !! page_heap r = Some h -> is_full r' = false -> block_used r < block_count r -> page_next r' = page_available h (size_class r) ->
  Inv None st (pushed_state p (page_heap r) (size_class r) h r' s) /\ kept ∅ ∅ st s st (pushed_state p (page_heap r) (size_class r) h r' s).
Proof.
  intros I L Hp Hu Hsb Hh Hf Hused Hnext. set (s2 := pushed_state _ _ _ _ _ _). destruct (page_flags_step (Some p) st s p r r' I (or_intror eq_refl) Hp Hu Hsb) as [I1 K1].
  set (s1 := set_pages _ s) in I1, K1. pose proof (step_in_use r r' Hu (sb_place _ _ Hsb) (sb_sview _ _ Hsb)) as Hu'.
  pose proof (page_address I p r Hp (proj2 Hu)) as (Hp0 & _).
  assert ((page_lists <$> heaps s) !! page_heap r = Some (page_lists h)) as Hv by (by rewrite lookup_fmap, Hh).
  assert (place_of r' = Available (page_heap r) (size_class r)) as Hplace by (rewrite (place_in_use r' Hu' Hf), (sp_heap _ _ (sb_place _ _ Hsb)), (sp_class _ _ (sb_place _ _ Hsb)); done).
  destruct (lists_push_available p (page_heap r) (page_lists h) Hv ltac:(lia) (size_class r) r' L Hplace Hnext) as (L2 & Hp2 & Hcore & _).
  assert (links_only s1 s2) as Hlo by (split; [exact Hcore|by eapply heap_core_insert|done|done]).
  split; [split|eapply kept_after; [exact K1|by apply links_kept]].
  - eapply (base_full p); [by eapply links_base|]. intros r0 Hr0 _. simpl in Hr0. rewrite Hp2 in Hr0. injection Hr0 as <-. rewrite Hf, (sb_used _ _ Hsb), (sb_count _ _ Hsb). symmetry. apply Z.eqb_neq. lia.
  - simpl. rewrite fmap_insert. exact L2.
Qed.

Lemma wp_full_to_available (Q : unit -> state -> Prop) st s p r :
  Base (Some p) st s -> lists_ok None (pages s) (page_lists <$> heaps s) -> pages s !! p = Some r -> in_use r -> is_full r = true -> block_used r < block_count r ->
  (forall s1, Inv None st s1 -> kept ∅ ∅ st s st s1 -> Q tt s1) -> wp (page_full_to_available p) Q s.
Proof.
  intros I L Hp Hu Hf Hused HQ. destruct (iv_heap _ _ _ I p r Hp) as [h Hh]. assert (place_of r = Nowhere) as Hpl by (unfold place_of; rewrite (proj1 Hu), Hf; by destruct (is_huge (page_type r))).
  pose proof (lists_without _ _ p r L Hp Hpl) as L1. set (c := size_class r). set (head := page_available h c).
  set (r' := (fun r => let r := set_is_full false r in if has_aligned_block r then r else set_generic_free false r) (set_page_next head r)).
  pose proof (page_address I p r Hp (proj2 Hu)) as (Hp0 & _).
  assert (same_blocks r r') as Hsb.
  { unfold r'. cbv beta zeta. simpl. destruct (has_aligned_block r) eqn:Eal; split; try done; simpl.
    - intros Hg. destruct (ok_generic _ (page_is_ok I p r Hp Hu) Hg). congruence.
    - unfold sview. simpl. destruct (page_type r) eqn:Et; try done. by destruct Hu. }
  assert (is_full r' = false /\ page_next r' = head) as [Hf' Hn'] by (unfold r'; cbv beta zeta; simpl; by destruct (has_aligned_block r)).
  destruct (push_available_step st s p r r' h I L1 Hp Hu Hsb Hh Hf' Hused Hn') as [I2 K2].
  assert ((page_lists <$> heaps s) !! page_heap r = Some (page_lists h)) as Hv by (by rewrite lookup_fmap, Hh).
  assert (place_of r' = Available (page_heap r) c) as Hplace.
  { rewrite (place_in_use r' (step_in_use r r' Hu (sb_place _ _ Hsb) (sb_sview _ _ Hsb)) Hf'), (sp_heap _ _ (sb_place _ _ Hsb)), (sp_class _ _ (sb_place _ _ Hsb)). done. }
  destruct (lists_push_available p (page_heap r) (page_lists h) Hv ltac:(lia) c r' L1 Hplace Hn') as (_ & _ & _ & Hhead). cbn [page_lists fst] in Hhead. fold head in Hhead.
  unfold page_full_to_available. do 6 wp_step. fold c head. specialize (HQ _ I2 K2). unfold pushed_state, pushed in HQ. cbn [page_lists fst] in HQ. fold c head in HQ.
  apply wp_bind, wp_when; intros H0.
  - apply negb_true_iff in H0. rewrite H0 in HQ. apply Z.eqb_neq in H0. destruct (Hhead H0) as [Hne [rh Hrh]]. rewrite Hrh in HQ.
    eapply wp_upd_page; [wp_simpl; rewrite lookup_insert_ne; [exact Hrh|done]|]. do 2 wp_step. eapply wp_upd_page; [wp_simpl; rewrite lookup_insert_ne, lookup_insert_eq; done|]. wp_simpl.
    rewrite (insert_insert_ne _ p (page_available h c)), insert_insert_eq by done. exact HQ.
  - apply negb_false_iff in H0. rewrite H0 in HQ. do 2 wp_step. eapply wp_upd_page; [wp_simpl; apply lookup_insert_eq|]. wp_simpl. rewrite insert_insert_eq. exact HQ.
Qed.
Definition without_page (p : Z) (st : gmap Z status) : gmap Z status := filter (fun e => e.2 <> PageFree p) st.

Lemma in_use_committed st s p r : Base (Some p) st s -> pages s !! p = Some r -> in_use r -> is_decommitted r = false.
Proof. intros I Hp Hu. destruct (is_decommitted r) eqn:Hd; [|done]. destruct (iv_decommit _ _ _ I p r Hp (proj2 Hu)) as (_ & _ & D). destruct (D Hd) as [D1 _]. destruct Hu. congruence. Qed.

(** A page without used blocks becomes free. *)
Lemma free_page_step st s p r r' :
  Base (Some p) st s -> pages s !! p = Some r -> in_use r -> block_used r = 0 ->
  is_free r' = true -> is_zero r' = false -> page_type r' = page_type r -> page_heap r' = page_heap r -> is_decommitted r' = is_decommitted r -> commit_prefix_shift r' = commit_prefix_shift r ->
  Base None (without_page p st) (set_pages (<[p := r']> (pages s)) s) /\ kept ∅ ∅ st s (without_page p st) (set_pages (<[p := r']> (pages s)) s).
Proof.
  intros I Hp Hu H0 Hf Hzero Et Eh Ed Ec. pose proof (in_use_committed st s p r I Hp Hu) as Hdec. set (s1 := set_pages _ s). pose proof I as [I1 I2 I3 I4 I5 I6 I7 I8].
  assert (forall b, member p r b -> st !! b = Some (PageFree p)) as Hall.
  { intros b Hb. destruct (member_status I p r Hp Hu b Hb) as (x & Hx & _). destruct (decide (x = PageFree p)) as [->|Hne]; [done|].
    pose proof (used_pos I1 p (bview r) b x (bview_lookup _ _ _ Hp) Hu Hx Hne Hb) as H1. simpl in H1. lia. }
  assert (forall b, without_page p st !! b = Some Live <-> st !! b = Some Live) as Hlive by (intros b; unfold without_page; rewrite map_lookup_filter_Some; simpl; naive_solver).
  assert (~ in_use r') as Hnu by (intros [? _]; congruence).
  split.
  - constructor; [| | | | |exact I6|exact I7|].
    + simpl. rewrite fmap_insert. exact (blocks_freed I1 p (bview r) (bview r') (bview_lookup _ _ _ Hp) Hu Hf Et Eh H0).
    + intros q r0 Hq Hu0 _. simpl in Hq. apply lookup_insert_Some in Hq as [[<- <-]|[Hne Hq]]; [done|]. apply (I2 q r0 Hq Hu0). congruence.
    + intros q r0 Hq. simpl in Hq. apply lookup_insert_Some in Hq as [[<- <-]|[Hne Hq]]; [rewrite Eh; exact (I3 p r Hp)|exact (I3 q r0 Hq)].
    + eapply spans_frame; [exact I4| |done|done]. simpl. rewrite fmap_insert. apply insert_id. rewrite lookup_fmap, Hp. simpl. unfold spview. rewrite Et. f_equal.
      destruct Hu as [_ Hu]. by destruct (page_type r).
    + intros q r0 Hq Ht. simpl in Hq. apply lookup_insert_Some in Hq as [[<- <-]|[Hne Hq]]; [|exact (I5 q r0 Hq Ht)]. rewrite Et in Ht. destruct (I5 p r Hp Ht) as [D _]. rewrite Ec, Ed, Hdec, Hf, Hzero. done.
    + destruct I8 as [T1 T2 T3 T4 T5 T6 T7 T8]. by constructor.
  - assert (forall b n al, live (without_page p st) s1 b n al <-> live st s b n al) as Hl.
    { intros b n al. apply or_iff_compat_r. unfold class_live. rewrite Hlive. split; intros [Hb (q & r0 & Hq & Hu0 & Hm & E1 & E2)]; (split; [done|]).
      - exists q, r0. simpl in Hq. apply lookup_insert_Some in Hq as [[<- <-]|[Hne Hq]]; done.
      - exists q, r0. simpl. rewrite lookup_insert_ne; [done|]. intros <-. assert (r0 = r) as -> by congruence. rewrite (Hall b Hm) in Hb. done. }
    constructor; [|done| |set_solver|by apply hview_calm].
    + intros b n al Hb _. exists al. by apply Hl in Hb.
    + intros b n al Hb. right. exists al. by apply Hl.
Qed.

Lemma wp_push_free_page (Q : unit -> state -> Prop) st s p r :
  Base None st s -> lists_ok (Some p) (pages s) (page_lists <$> heaps s) -> pages s !! p = Some r -> 0 < p -> page_type r <> PAGE_HUGE -> is_free r = true ->
  (forall s1, Inv None st s1 -> kept ∅ ∅ st s st s1 -> Q tt s1) -> wp (push_free_page (page_heap r) p (page_type r)) Q s.
Proof.
  intros I L Hp Hp0 Ht Hf HQ. destruct (iv_heap _ _ _ I p r Hp) as [h Hh]. assert ((page_lists <$> heaps s) !! page_heap r = Some (page_lists h)) as Hv by (by rewrite lookup_fmap, Hh).
  set (t := page_type r) in *. set (hp := page_heap r) in *. set (r' := set_page_next (page_free h t) r).
  assert (place_of r' = Free hp t) as Hplace by (unfold place_of, r'; simpl; fold t hp; rewrite Hf; by destruct t).
  pose proof (lists_push_free p hp (page_lists h) Hv ltac:(lia) t r' L Hplace eq_refl) as L2.
  unfold push_free_page. do 7 wp_step. eapply wp_upd_heap; [wp_simpl; apply lookup_insert_eq|]. wp_simpl. rewrite insert_insert_eq. wp_step. eapply wp_get_heap; [wp_simpl; apply lookup_insert_eq|].
  set (h2 := set_page_free_commit_count _ _). set (s2 := set_heaps _ _).
  assert (links_only s s2) as Hlo by (split; [by eapply core_insert|by eapply heap_core_insert|done|done]).
  assert (Inv None st s2) as I2 by (split; [by eapply links_base|]; simpl; rewrite fmap_insert; exact L2). pose proof (links_kept st s s2 Hlo) as K2.
  apply wp_when; intros _; [|by apply HQ].
  eapply wp_heap_page_free_decommit; [exact I2|exists h2; apply lookup_insert_eq|]. intros s3 I3 K3. apply HQ; [done|by eapply kept_after].
Qed.

Lemma wp_available_to_free (Q : unit -> state -> Prop) st s p r :
  Base (Some p) st s -> lists_ok None (pages s) (page_lists <$> heaps s) -> pages s !! p = Some r -> in_use r -> is_full r = false -> block_used r = 0 ->
  (forall st1 s1, Inv None st1 s1 -> kept ∅ ∅ st s st1 s1 -> Q tt s1) -> wp (page_available_to_free p) Q s.
Proof.
  intros I L Hp Hu Hf H0 HQ. destruct (iv_heap _ _ _ I p r Hp) as [h Hh]. pose proof (page_address I p r Hp (proj2 Hu)) as (Hp0 & _).
  unfold page_available_to_free. apply wp_bind. eapply wp_unlink_available; [exact L|exact Hp|by apply place_in_use|exact Hh|]. intros pg' hs' Hcore Hp' Hhc L'. do 2 wp_step. wp_simpl.
  set (r1 := set_is_zero false (set_is_free true r)). apply wp_bind. eapply wp_get_page; [wp_simpl; apply lookup_insert_eq|].
  destruct (free_page_step st s p r r1 I Hp Hu H0 eq_refl eq_refl eq_refl eq_refl eq_refl eq_refl) as [I1 K1]. set (s1 := set_pages _ s) in I1, K1. set (s2 := set_pages _ _).
  assert (links_only s1 s2) as Hlo by (split; [simpl; by rewrite !fmap_insert, Hcore|done..]).
  change (page_heap r1) with (page_heap r1). eapply (wp_push_free_page Q _ s2 p r1); [by eapply links_base| |apply lookup_insert_eq|lia|apply Hu|done|].
  - eapply lists_frame; [|exact L']. intros q Hq. simpl. rewrite lookup_insert_ne; [done|congruence].
  - intros s3 I3 K3. apply (HQ _ s3 I3). exact (kept_after _ _ _ _ _ _ _ _ (kept_after _ _ _ _ _ _ _ _ K1 (links_kept _ _ _ Hlo)) K3).
Qed.
(** ** A block goes to a list *)

Section Store.
Context {st : gmap Z status} {s : state} (I : Base None st s) (p : Z) (r : page_t) (b v : Z) (y : status).
Context (Hp : pages s !! p = Some r) (Hu : in_use r) (Hb : st !! b = Some Live) (Hmem : member p r b) (Hy : y <> Live).
Let m' := write (mem s) b (le_bytes 8 v).
Let st' := <[b := y]> st.

Lemma store_other x : x < b \/ b + 8 <= x -> m' x = mem s x.
Proof using Type. intros Hx. apply write_other. rewrite length_le_bytes. lia. Qed.

Lemma store_frame x head n : x <> Live -> x <> y -> listing (mem s) st head x n -> listing m' st' head x n.
Proof using I Hp Hu Hb Hmem Hy.
  intros H1 H2. apply listing_frame.
  - intros c z Hc Hz. apply store_other. assert (b <> c) as Hne by (intros ->; congruence). destruct (words_apart (iv_blocks _ _ _ I) b c _ _ Hb Hc Hne); lia.
  - intros c. unfold st'. destruct (decide (c = b)) as [->|Hne]; [rewrite lookup_insert_eq|by rewrite lookup_insert_ne]. split; intros E; congruence.
Qed.

Lemma store_push head n : listing (mem s) st head y n -> v = head -> listing m' st' b y (n + 1).
Proof using I Hp Hu Hb Hmem Hy.
  intros L ->. destruct (block_range (iv_blocks _ _ _ I) b _ Hb) as [Hr _]. apply listing_push; [done|done|congruence|].
  intros c Hc. assert (b <> c) as Hne by (intros ->; congruence). destruct (words_apart (iv_blocks _ _ _ I) b c _ _ Hb Hc Hne); lia.
Qed.

Lemma store_bounds : p + PAGE_HEADER_SIZE <= b /\ b + block_size r <= p + psize (page_type r) /\ 16 <= block_size r.
Proof using I Hp Hu Hb Hmem Hy. exact (member_bounds p r b (page_is_ok I p r Hp Hu) Hmem). Qed.

Lemma store_outside x : ~ p <= x < p + psize (page_type r) -> m' x = mem s x.
Proof using I Hp Hu Hb Hmem Hy. intros Hx. pose proof store_bounds. unfold PAGE_HEADER_SIZE in *. apply store_other. lia. Qed.

Lemma store_zero : zero_behind m' p r.
Proof using I Hp Hu Hb Hmem Hy.
  intros Hz x Hx. rewrite store_other; [by apply (page_zero I p r Hp Hu Hz)|]. right. pose proof store_bounds as (_ & _ & Hbs). destruct Hmem as (i & Hi & ->). unfold block in *. nia.
Qed.

Lemma store_live c : st' !! c = Some Live <-> st !! c = Some Live /\ c <> b.
Proof using Hy.
  unfold st'. clear m'. destruct (decide (c = b)) as [->|Hne]; [rewrite lookup_insert_eq; split; [intros [= E]; by destruct Hy|by intros [_ ?]]|rewrite lookup_insert_ne by done; split; [by split|by intros [? _]]].
Qed.

Lemma store_thread : y <> PageThread p -> thread_list m' st' p r.
Proof using I Hp Hu Hb Hmem Hy. intros Hne. destruct (thread_listing I p r Hp Hu) as (head & n & E1 & E2 & E3). exists head, n. split_and!; [done|done|]. by apply store_frame. Qed.

(** [r'] is the page with the list that the block goes to. *)
Context (r' : page_t) (s' : state) (Hin : inner r r') (Hok' : page_ok r') (Hi : block_initialized r' = block_initialized r) (Hz' : is_zero r' = is_zero r).
Context (Hpg : pages s' = <[p := r']> (pages s)) (Hms : mem s' = m') (Hrest : rest_same s s') (Hhv : hview <$> heaps s' = hview <$> heaps s).

Lemma store_base (w w' : lists) :
  (block_lists <$> heaps s) !! page_heap r = Some w -> (block_lists <$> heaps s') !! page_heap r = Some w' ->
  (forall h, h <> page_heap r -> (block_lists <$> heaps s') !! h = (block_lists <$> heaps s) !! h) ->
  (forall c, w'.1 c = w.1 c) -> (forall t, t <> page_type r -> w'.2 t = w.2 t) ->
  located y p r -> (forall c, y <> HeapFree (page_heap r) c) ->
  (exists n, listing m' st' (w'.2 (page_type r)) (HeapThread (page_heap r) (page_type r)) n) ->
  listing m' st' (local_free r') (PageFree p) (local_free_count r') -> thread_list m' st' p r' -> Base (Some p) st' s'.
Proof using I Hp Hu Hb Hmem Hy Hin Hok' Hi Hz' Hpg Hms Hrest Hhv.
  intros Hw Hw' Hwo H1 H2 Hloc Hyc Hthr Hl Ht. pose proof (in_place _ _ Hin) as Hs. destruct (page_heap_lists I p r Hp) as (h & Hh & Hhl & Hlists). assert (w = block_lists h) as -> by congruence.
  assert (forall c, member p r' c <-> member p r c) as Hmm by (intros c; unfold member, block; by rewrite Hi, (sp_size _ _ Hs)).
  eapply (page_step I p r r' Hp Hu Hs Hok' (in_sview _ _ Hin) s' Hrest Hpg); rewrite ?Hms; try done.
  - exact store_outside.
  - by left.
  - intros c Hc. unfold st'. rewrite lookup_insert_ne; [done|]. intros <-. by apply Hc, Hmm.
  - intros c Hc. apply Hmm in Hc. unfold st'. destruct (decide (c = b)) as [->|Hne].
    + exists y. rewrite lookup_insert_eq. split; [done|]. by apply (located_same y p r r').
    + rewrite lookup_insert_ne by done. destruct (member_status I p r Hp Hu c Hc) as (x & Hx & Hlx). exists x. split; [done|]. by apply (located_same x p r r').
  - rewrite H1. destruct (proj1 Hlists (size_class r)) as [n Hn]. exists n. by apply store_frame.
  - intros Hzz x Hx. assert (block p r' = block p r) as Eb by (unfold block; by rewrite (sp_size _ _ Hs)). rewrite Eb, Hi, (in_count _ _ Hin) in Hx. refine (store_zero _ x Hx). congruence.
Qed.

Lemma store_kept ex : Base ex st' s' -> kept {[b]} ∅ st s st' s'.
Proof using I Hp Hu Hb Hmem Hy Hin Hok' Hi Hz' Hpg Hms Hrest Hhv.
  intros I1. pose proof (in_place _ _ Hin) as Hs.
  eapply (page_kept I p r r' Hp Hu Hs Hok' (in_sview _ _ Hin) s' Hrest Hpg); rewrite ?Hms; try done.
  - exact store_outside.
  - by rewrite (in_aligned _ _ Hin).
  - intros c ->%elem_of_singleton. done.
  - intros c Hc Hd. apply store_live. split; [done|set_solver].
  - intros c Hc. right. by apply store_live in Hc as [? _].
  - intros c ->%elem_of_singleton _ Hc. by apply store_live in Hc as [_ ?].
  - intros c x Hc Hd Hcm Hx. apply store_other. assert (b <> c) as Hne by (intros ->; set_solver). pose proof store_bounds.
    destruct (blocks_apart I p r b p r c Hp Hu Hmem Hp Hu Hcm Hne); lia.
Qed.
End Store.
Definition freed_local (b : Z) (r : page_t) : page_t := set_block_used (block_used r - 1) (set_local_free_count (local_free_count r + 1) (set_local_free b r)).

Definition freed_state (p b : Z) (r : page_t) (s : state) : state :=
  set_pages (<[p := freed_local b r]> (pages s)) (set_mem (write (mem s) b (le_bytes 8 (local_free r))) s).

(** A block that the owner frees goes to the list of its page. *)
Lemma local_free_step st s p r b :
  Base None st s -> pages s !! p = Some r -> in_use r -> st !! b = Some Live -> member p r b ->
  Base (Some p) (<[b := PageFree p]> st) (freed_state p b r s) /\ kept {[b]} ∅ st s (<[b := PageFree p]> st) (freed_state p b r s) /\
  1 <= block_used r <= block_count r /\ 0 <= local_free_count r /\ local_free_count r + 1 < 2 ^ 16 /\ inner r (freed_local b r).
Proof.
  intros I Hp Hu Hb Hmem. pose proof (page_is_ok I p r Hp Hu) as Hok. destruct (page_numbers r Hok) as (N1 & N2 & N3).
  pose proof (used_pos (iv_blocks _ _ _ I) p (bview r) b Live (bview_lookup _ _ _ Hp) Hu Hb ltac:(done) Hmem) as Hused. simpl in Hused.
  pose proof (local_listing I p r Hp Hu) as L. pose proof (own_listing_bound I p r Hp Hu _ _ _ (or_introl eq_refl) L) as [Hbound _]. pose proof (ok_local _ Hok).
  assert (inner r (freed_local b r)) as Hin by (split; [split; done || (simpl; lia)|done..]).
  assert (page_ok (freed_local b r)) as Hok1. { destruct Hok as [O1 O2 O3 O4 O5 O6 O7 O8]. split; simpl; try done; lia. }
  destruct (page_heap_lists I p r Hp) as (h & Hh & Hhl & Hlists). set (y := PageFree p).
  assert (Base (Some p) (<[b := y]> st) (freed_state p b r s)) as I1.
  { apply (store_base I p r b (local_free r) y Hp Hu Hb Hmem ltac:(done) (freed_local b r) (freed_state p b r s) Hin Hok1 eq_refl eq_refl eq_refl eq_refl eq_refl eq_refl (block_lists h) (block_lists h)); try done.
    - destruct (proj2 Hlists (page_type r)) as [n Hn]. exists n. by apply (store_frame I p r b (local_free r) y Hp Hu Hb Hmem).
    - by eapply (store_push I p r b (local_free r) y Hp Hu Hb Hmem).
    - exact (store_thread I p r b (local_free r) y Hp Hu Hb Hmem ltac:(done) ltac:(done)). }
  split_and!; [exact I1| |lia|lia|lia|lia|exact Hin].
  by eapply (store_kept I p r b (local_free r) y Hp Hu Hb Hmem ltac:(done) (freed_local b r) (freed_state p b r s) Hin Hok1).
Qed.

(** The two ways of [block_deallocate] to free to the page. *)
Lemma wp_free_local (Q : unit -> state -> Prop) st s p r b (full : bool) :
  Inv None st s -> pages s !! p = Some r -> in_use r -> st !! b = Some Live -> member p r b -> (full = false -> is_full r = false) ->
  (forall st1 s1, Inv None st1 s1 -> kept {[b]} ∅ st s st1 s1 -> Q tt s1) ->
  wp (store b (local_free r);;
      upd_page p (fun r => set_block_used (u32 (block_used r - 1)) (set_local_free_count (u32 (local_free_count r + 1)) (set_local_free b r)));;
      r ← get_page p;
      if block_used r =? 0 then page_available_to_free p else when (full && is_full r) (page_full_to_available p)) Q s.
Proof.
  intros [I L] Hp Hu Hb Hmem Hfull HQ. destruct (local_free_step st s p r b I Hp Hu Hb Hmem) as (I1 & K1 & Hused & Hc0 & Hc1 & Hin).
  pose proof (page_numbers r (page_is_ok I p r Hp Hu)) as (N1 & N2 & N3). pose proof (iv_full _ _ _ I p r Hp Hu ltac:(done)) as Hf.
  destruct (block_range (iv_blocks _ _ _ I) b _ Hb) as [Hr _]. apply wp_bind, wp_store; [lia|]. cbv beta. do 2 wp_step.
  assert (u32 (block_used r - 1) = block_used r - 1) as E1 by (apply wrap_small; lia). assert (u32 (local_free_count r + 1) = local_free_count r + 1) as E2 by (apply wrap_small; lia).
  rewrite E1, E2. fold (freed_local b r). apply wp_bind. eapply wp_get_page; [wp_simpl; apply lookup_insert_eq|].
  change (set_pages _ _) with (freed_state p b r s). set (st1 := <[b := PageFree p]> st) in *. set (s1 := freed_state p b r s) in *.
  assert (lists_ok None (pages s1) (page_lists <$> heaps s1)) as L1 by (by eapply inner_lists). assert (pages s1 !! p = Some (freed_local b r)) as Hp1 by apply lookup_insert_eq.
  pose proof (inner_in_use _ _ Hin Hu) as Hu1. change (is_full (freed_local b r)) with (is_full r). change (block_used (freed_local b r)) with (block_used r - 1).
  destruct (Z.eqb_spec (block_used r - 1) 0) as [H0|H0].
  - eapply wp_available_to_free; [exact I1|exact L1|exact Hp1|done| |exact H0|].
    + change (is_full (freed_local b r)) with (is_full r). rewrite Hf. apply Z.eqb_neq. lia.
    + intros st2 s2 I2 K2. apply (HQ st2 s2 I2). by eapply kept_after.
  - apply wp_when; intros Hw.
    + apply andb_true_iff in Hw as [_ Hw]. eapply wp_full_to_available; [exact I1|exact L1|exact Hp1|done|exact Hw|simpl; lia|]. intros s2 I2 K2. apply (HQ st1 s2 I2). by eapply kept_after.
    + assert (is_full r = false) as Hff by (destruct full; [done|by apply Hfull]). apply (HQ st1 s1); [split; [|done]|done]. eapply base_full; [exact I1|].
      intros r0 Hr0 _. assert (r0 = freed_local b r) as -> by congruence. simpl. rewrite Hff. symmetry. apply Z.eqb_neq. lia.
Qed.
(** A block that another thread frees goes to the heap when the page is full. *)
Lemma heap_thread_step st s p r b h :
  Inv None st s -> pages s !! p = Some r -> in_use r -> st !! b = Some Live -> member p r b -> heaps s !! page_heap r = Some h ->
  let h' := set_heap_thread_free (<[page_type r := b]> (heap_thread_free h)) h in
  let s' := set_heaps (<[page_heap r := h']> (heaps s)) (set_mem (write (mem s) b (le_bytes 8 (heap_thread_free h (page_type r)))) s) in
  exists st', Inv None st' s' /\ kept {[b]} ∅ st s st' s'.
Proof.
  intros [I L] Hp Hu Hb Hmem Hh h' s'. set (y := HeapThread (page_heap r) (page_type r)). exists (<[b := y]> st).
  assert ((block_lists <$> heaps s) !! page_heap r = Some (block_lists h)) as Hhl by (by rewrite lookup_fmap, Hh).
  pose proof (bk_lists _ _ _ _ (iv_blocks _ _ _ I) _ _ Hhl) as Hlists. set (v := heap_thread_free h (page_type r)).
  assert (pages s' = <[p := r]> (pages s)) as Hpg by (simpl; by rewrite insert_id).
  assert (hview <$> heaps s' = hview <$> heaps s) as Hhv by (by eapply heap_insert_view).
  assert (Base (Some p) (<[b := y]> st) s') as I1.
  { apply (store_base I p r b v y Hp Hu Hb Hmem ltac:(done) r s' (inner_refl r) (page_is_ok I p r Hp Hu) eq_refl eq_refl Hpg eq_refl eq_refl Hhv (block_lists h) (block_lists h')); try done.
    - simpl. by rewrite fmap_insert, lookup_insert_eq.
    - intros q Hne. simpl. by rewrite fmap_insert, lookup_insert_ne.
    - intros t Ht. simpl. by rewrite fn_lookup_insert_ne.
    - destruct (proj2 Hlists (page_type r)) as [n Hn]. exists (n + 1). simpl. rewrite fn_lookup_insert. by eapply (store_push I p r b v y Hp Hu Hb Hmem).
    - apply (store_frame I p r b v y Hp Hu Hb Hmem); [done..|exact (local_listing I p r Hp Hu)].
    - by apply (store_thread I p r b v y Hp Hu Hb Hmem). }
  split; [split|].
  - eapply base_full; [exact I1|]. intros r0 Hr0 Hu0. by apply (iv_full _ _ _ I p r0).
  - simpl. assert (page_lists <$> <[page_heap r := h']> (heaps s) = page_lists <$> heaps s) as -> by (by eapply heap_insert_view). exact L.
  - by eapply (store_kept I p r b v y Hp Hu Hb Hmem ltac:(done) r s' (inner_refl r) (page_is_ok I p r Hp Hu)).
Qed.

(** The packed word of a page's list for other threads. *)
Lemma thread_word p r i n : 0 <= i < 2 ^ 32 -> 0 <= n < 2 ^ 32 ->
  page_block_from_thread_free_list p r (page_block_to_thread_free_list i n) = (if n =? 0 then 0 else page_block p r i, n).
Proof.
  intros Hi Hn. unfold page_block_from_thread_free_list, page_block_to_thread_free_list, shl. rewrite Z.shiftl_mul_pow2 by lia. rewrite (wrap_small 64) by lia.
  assert (Z.lor (n * 2 ^ 32) i = n * 2 ^ 32 + i) as ->.
  { rewrite <- Z.add_lor_land. assert (Z.land (n * 2 ^ 32) i = 0) as ->; [|lia]. apply Z.bits_inj'. intros j Hj. rewrite Z.bits_0, Z.land_spec.
    destruct (decide (j < 32)); [by rewrite Z.mul_pow2_bits_low|]. rewrite (Z.testbit_eqb i) by done. rewrite Z.div_small; [by rewrite andb_false_r|]. split; [lia|]. assert (2 ^ 32 <= 2 ^ j) by (apply Z.pow_le_mono_r; lia). lia. }
  change 0xFFFFFFFF with (Z.ones 32). rewrite !Z.land_ones by lia. rewrite Z.shiftr_div_pow2 by lia.
  assert ((n * 2 ^ 32 + i) mod 2 ^ 32 = i) as -> by (rewrite Z.add_comm, Z.mod_add by lia; apply Z.mod_small; lia).
  assert ((n * 2 ^ 32 + i) / 2 ^ 32 = n) as -> by (rewrite Z.add_comm, Z.div_add by lia; rewrite Z.div_small by lia; lia).
  by rewrite (Z.mod_small n) by lia.
Qed.

Lemma index_of_block ex st s p r i : Base ex st s -> pages s !! p = Some r -> in_use r -> 0 <= i < block_initialized r ->
  page_block_index p r (block p r i) = i /\ page_block p r i = block p r i /\ i < 2 ^ 16.
Proof.
  intros I Hp Hu Hi. pose proof (page_is_ok I p r Hp Hu) as Hok. destruct (page_numbers r Hok) as (N1 & N2 & N3). pose proof (psize_max (page_type r)).
  destruct (block_area I p r Hp Hu i ltac:(lia)) as [A1 A2]. unfold page_block_index, page_block_start, page_block, block, PAGE_HEADER_SIZE in *.
  replace (p + 128 + block_size r * i - (p + 128)) with (block_size r * i) by ring. rewrite (wrap_small 32) by nia. rewrite Z.mul_comm, Z.div_mul by lia. split_and!; [done|done|lia].
Qed.

(** Otherwise it goes to the page's list for other threads. *)
Lemma page_thread_step st s p r b i head n :
  Inv None st s -> pages s !! p = Some r -> in_use r -> st !! b = Some Live -> 0 <= i < block_initialized r -> b = block p r i ->
  page_block_from_thread_free_list p r (page_thread_free r) = (head, n) ->
  let r' := set_page_thread_free (page_block_to_thread_free_list i (u32 (n + 1))) r in
  let s' := set_pages (<[p := r']> (pages s)) (set_mem (write (mem s) b (le_bytes 8 head)) s) in
  exists st', Inv None st' s' /\ kept {[b]} ∅ st s st' s'.
Proof.
  intros [I L] Hp Hu Hb Hi Eb Ht r' s'. set (y := PageThread p). exists (<[b := y]> st). assert (member p r b) as Hmem by (by exists i).
  pose proof (page_is_ok I p r Hp Hu) as Hok. destruct (page_numbers r Hok) as (N1 & N2 & N3). destruct (index_of_block None st s p r i I Hp Hu Hi) as (_ & X2 & X3). rewrite <- Eb in X2.
  destruct (thread_listing I p r Hp Hu) as (head' & n' & E1 & E2 & E3). rewrite Ht in E1. injection E1 as <- <-.
  destruct (own_listing_bound I p r Hp Hu _ _ _ (or_intror eq_refl) E3) as [Hbound Hbound']. specialize (Hbound' b Live Hb ltac:(done) Hmem). pose proof (listing_nonneg _ _ _ _ _ E3) as Hn0.
  assert (u32 (n + 1) = n + 1) as En by (apply wrap_small; lia). destruct (page_heap_lists I p r Hp) as (h & Hh & Hhl & Hlists).
  assert (inner r r') as Hin by (split; [split; done || lia|done..]).
  assert (page_ok r') as Hok1. { destruct Hok as [O1 O2 O3 O4 O5 O6 O7 O8]. by split. }
  assert (Base (Some p) (<[b := y]> st) s') as I1.
  { apply (store_base I p r b head y Hp Hu Hb Hmem ltac:(done) r' s' Hin Hok1 eq_refl eq_refl eq_refl eq_refl eq_refl eq_refl (block_lists h) (block_lists h)); try done.
    - destruct (proj2 Hlists (page_type r)) as [k Hk]. exists k. by apply (store_frame I p r b head y Hp Hu Hb Hmem).
    - apply (store_frame I p r b head y Hp Hu Hb Hmem); [done..|exact (local_listing I p r Hp Hu)].
    - exists b, (n + 1). split_and!.
      + change (page_block_from_thread_free_list p r' (page_thread_free r')) with (page_block_from_thread_free_list p r (page_block_to_thread_free_list i (u32 (n + 1)))).
        rewrite En, thread_word by lia. rewrite (proj2 (Z.eqb_neq _ _)) by lia. by rewrite X2.
      + split; [|lia]. intros E0. exfalso. simpl in E0. rewrite En in E0. pose proof (thread_word p r i (n + 1) ltac:(lia) ltac:(lia)) as E. rewrite E0 in E. apply (f_equal snd) in E. change (0 = n + 1) in E. lia.
      + by eapply (store_push I p r b head y Hp Hu Hb Hmem). }
  split; [split|].
  - eapply base_full; [exact I1|]. intros r0 Hr0 Hu0. assert (r0 = r') as -> by (simpl in Hr0; rewrite lookup_insert_eq in Hr0; congruence). by apply (iv_full _ _ _ I p r).
  - by eapply inner_lists.
  - by eapply (store_kept I p r b head y Hp Hu Hb Hmem ltac:(done) r' s' Hin Hok1).
Qed.
End Decommit.
End RpFree.
