(* ===== verification/RpKeeps.v ===== *)
(** * What functions leave alone

    A function that frees to the lists of a page leaves the lists for other
    threads of the heaps alone. *)
From stdpp Require Import functions.
From S2P Require Import Prelude RpState Rpmalloc RpWp.

Module RpKeeps.
Import RpState Rpmalloc RpWp.

Section Keeps.
Context `{HC : !Config} `{HM : !MemoryInterface}.

(** The function does not change [f] of the state. *)
Definition keeps {B} (f : state -> B) {A} (m : M A) : Prop := forall s a s', m s = Some (a, s') -> f s' = f s.

Lemma keeps_bind {B} (f : state -> B) {A C} (m : M A) (k : A -> M C) : keeps f m -> (forall a, keeps f (k a)) -> keeps f (mbind k m).
Proof.
  intros Hm Hk s c s' H. unfold mbind, M_bind in H. destruct (m s) as [[a s1]|] eqn:E; [|done]. rewrite (Hk a s1 c s' H). by eapply Hm.
Qed.

Lemma keeps_ret {B} (f : state -> B) {A} (a : A) : keeps f (mret a).
Proof. intros s b s' H. by injection H as <- <-. Qed.

Lemma keeps_gets {B} (f : state -> B) {A} (g : state -> A) : keeps f (gets g).
Proof. intros s b s' H. by injection H as <- <-. Qed.

Lemma keeps_undefined {B} (f : state -> B) {A} : keeps f (undefined (A := A)).
Proof. done. Qed.

Lemma keeps_modify {B} (f : state -> B) g : (forall s, f (g s) = f s) -> keeps f (modify g).
Proof. intros Hg s b s' H. injection H as <- <-. apply Hg. Qed.

Lemma keeps_get_page {B} (f : state -> B) p : keeps f (get_page p).
Proof. intros s b s' H. unfold get_page in H. destruct (pages s !! p); [by injection H as <- <-|done]. Qed.

Lemma keeps_get_span {B} (f : state -> B) p : keeps f (get_span p).
Proof. intros s b s' H. unfold get_span in H. destruct (spans s !! p); [by injection H as <- <-|done]. Qed.

Lemma keeps_get_heap {B} (f : state -> B) p : keeps f (get_heap p).
Proof. intros s b s' H. unfold get_heap in H. destruct (heaps s !! p); [by injection H as <- <-|done]. Qed.

Lemma keeps_when {B} (f : state -> B) b m : keeps f m -> keeps f (when b m).
Proof. intros Hm. destruct b; [done|apply keeps_ret]. Qed.

Lemma wp_keeps {B} (f : state -> B) {A} (m : M A) (Q : A -> state -> Prop) s : keeps f m -> wp m (fun a s' => f s' = f s -> Q a s') s -> wp m Q s.
Proof. intros Hk H. unfold wp in *. destruct (m s) as [[a s']|] eqn:E; [|done]. by apply H, (Hk s a s'). Qed.

(** The lists for other threads of the heaps, the heaps of the pages, and the spans. *)
Definition still (s : state) : gmap Z (page_type_t -> Z) * gmap Z (Z * page_type_t) * gmap Z span_t * list (Z * Z) :=
  (heap_thread_free <$> heaps s, (fun r => (page_heap r, page_type r)) <$> pages s, spans s, huge_slots s).

Lemma keeps_upd_heap hp g : (forall h, heap_thread_free (g h) = heap_thread_free h) -> keeps still (upd_heap hp g).
Proof.
  intros Hg s a s' H. unfold upd_heap, mbind, M_bind, get_heap in H. destruct (heaps s !! hp) as [h|] eqn:Hh; [|done]. injection H as <- <-. unfold still. simpl.
  do 3 f_equal. rewrite fmap_insert, Hg. apply insert_id. by rewrite lookup_fmap, Hh.
Qed.

Lemma keeps_upd_page p g : (forall r, page_heap (g r) = page_heap r /\ page_type (g r) = page_type r) -> keeps still (upd_page p g).
Proof.
  intros Hg s a s' H. unfold upd_page, mbind, M_bind, get_page in H. destruct (pages s !! p) as [r|] eqn:Hr; [|done]. injection H as <- <-. unfold still. simpl.
  do 2 f_equal. f_equal. rewrite fmap_insert. destruct (Hg r) as [-> ->]. apply insert_id. by rewrite lookup_fmap, Hr.
Qed.

Lemma keeps_store a v : keeps still (store a v).
Proof. unfold store. destruct (a =? 0); [done|by apply keeps_modify]. Qed.

Lemma keeps_decommit a n : keeps still (decommit_memory a n).
Proof. intros s b s' H. unfold decommit_memory in H. destruct (memory_decommit a n (kernel s)) as [failed k]. injection H as <- <-. by destruct failed. Qed.
End Keeps.

Create HintDb keeps.
#[export] Hint Resolve keeps_ret keeps_gets keeps_undefined keeps_get_page keeps_get_span keeps_get_heap keeps_store keeps_decommit : keeps.

Ltac keeps :=
  repeat match goal with
  | |- keeps _ (mbind _ _) => apply keeps_bind
  | |- forall _, _ => intro
  | |- keeps _ (when _ _) => apply keeps_when
  | |- keeps _ (upd_heap _ _) => apply keeps_upd_heap; done
  | |- keeps _ (upd_page _ _) => apply keeps_upd_page; (done || (intros r; simpl; destruct (has_aligned_block r); done))
  | |- keeps _ (if ?b then _ else _) => destruct b
  | |- keeps _ (match ?b with _ => _ end) => destruct b
  | |- keeps _ (let _ := _ in _) => cbv zeta
  | _ => solve [auto with keeps]
  end.

Section Functions.
Context `{HC : !Config} `{HM : !MemoryInterface}.

Lemma keeps_page_decommit p : keeps still (page_decommit_memory_pages p).
Proof. unfold page_decommit_memory_pages, page_get_size. keeps. Qed.

Lemma keeps_skip n p : keeps still (skip_pages n p).
Proof. revert p. induction n; intros p; cbn [skip_pages]; keeps. Qed.

Lemma keeps_decommit_loop n hp t p : keeps still (decommit_loop n hp t p).
Proof. revert p. induction n as [|n IH]; intros p; cbn [decommit_loop]; keeps; apply keeps_page_decommit. Qed.

Lemma keeps_push_free hp p t : keeps still (push_free_page hp p t).
Proof. unfold push_free_page, heap_page_free_decommit. keeps; [apply keeps_skip|apply keeps_decommit_loop]. Qed.

Lemma keeps_unlink p : keeps still (unlink_available p).
Proof. unfold unlink_available. keeps. Qed.

Lemma keeps_available_to_free p : keeps still (page_available_to_free p).
Proof. unfold page_available_to_free. keeps; [apply keeps_unlink|apply keeps_push_free]. Qed.

Lemma keeps_full_to_available p : keeps still (page_full_to_available p).
Proof. unfold page_full_to_available. keeps. Qed.

Lemma keeps_free_local p b (full : bool) r :
  keeps still (store b (local_free r);;
      upd_page p (fun r => set_block_used (u32 (block_used r - 1)) (set_local_free_count (u32 (local_free_count r + 1)) (set_local_free b r)));;
      r ← get_page p;
      if block_used r =? 0 then page_available_to_free p else when (full && is_full r) (page_full_to_available p)).
Proof. keeps; [apply keeps_available_to_free|apply keeps_full_to_available]. Qed.

Lemma keeps_load a : keeps still (load a).
Proof. unfold load. destruct (a =? 0); [done|apply keeps_gets]. Qed.

Lemma keeps_memset a v n : keeps still (memset a v n).
Proof. by apply keeps_modify. Qed.

Lemma keeps_pop p : keeps still (page_pop p).
Proof. unfold page_pop, page_get_local_free_block. keeps. apply keeps_load. Qed.

Lemma keeps_adopt p : keeps still (page_adopt_thread_free_block_list p).
Proof. unfold page_adopt_thread_free_block_list. keeps. Qed.

Lemma keeps_link n bs next free last count : keeps still (link_loop n bs next free last count).
Proof. revert free last count. induction n as [|n IH]; intros free last count; cbn [link_loop]; keeps; apply keeps_load. Qed.

Lemma keeps_initialize p : keeps still (page_initialize_blocks p).
Proof. unfold page_initialize_blocks. keeps. apply keeps_link. Qed.

Lemma keeps_allocate_block p zero : keeps still (page_allocate_block p zero).
Proof.
  unfold page_allocate_block. keeps; try apply keeps_pop; try apply keeps_adopt; try apply keeps_initialize; try apply keeps_memset;
    unfold page_push_local_free_to_heap, page_available_to_full; keeps; apply keeps_unlink.
Qed.
End Functions.
End RpKeeps.
