(* ===== verification/RpDealloc.v ===== *)
(** * [block_deallocate]

    The page of a block, frees from another thread, and the path from
    [block_deallocate] to the lists. *)
From stdpp Require Import functions.
From S2P Require Import Prelude RpState Rpmalloc RpSize RpWp RpBlocks RpLists RpInv RpLive RpPage RpFree RpKeeps.

Module RpDealloc.
Import RpState Rpmalloc RpSize RpWp RpBlocks RpLists RpInv RpLive RpPage RpFree RpKeeps.

(** ** Masks *)

Lemma land_mask k x : 0 <= k <= 63 -> 0 <= x < 2 ^ 64 -> Z.land x (mask (2 ^ k)) = x / 2 ^ k * 2 ^ k.
Proof.
  intros Hk Hx. unfold mask. replace (2 ^ k - 1) with (Z.ones k) by (rewrite Z.ones_equiv; lia). unfold u64, wrap. rewrite <- Z.land_ones by lia.
  rewrite (Z.land_comm (Z.lnot _)), Z.land_assoc, Z.land_ones, Z.mod_small by lia. rewrite <- Z.ldiff_land.
  rewrite Z.ldiff_ones_r, Z.shiftl_mul_pow2, Z.shiftr_div_pow2 by lia. done.
Qed.

(** An address in an aligned area is masked to its start. *)
Lemma land_mask_base k a x : 0 <= k <= 63 -> 0 <= a -> x < 2 ^ 64 -> a mod 2 ^ k = 0 -> a <= x < a + 2 ^ k -> Z.land x (mask (2 ^ k)) = a.
Proof.
  intros Hk Ha Hx Hm Hax. assert (0 < 2 ^ k) by (apply pow2_pos; lia). rewrite land_mask by lia. apply Z.mod_divide in Hm as [j ->]; [|lia].
  f_equal. symmetry. apply (Z.div_unique x _ j (x - j * 2 ^ k)); lia.
Qed.

Lemma psize_pow t : exists k, psize t = 2 ^ k /\ 16 <= k <= 24.
Proof. destruct t; [exists 16|exists 20|exists 22|exists 24|exists 24]; done. Qed.

Section Dealloc.
Context `{HC : !Config} `{HM : !MemoryInterface} `{HL : !MemoryLaws} (thread : Z).

Lemma span_mask ex st s sp v x : Base ex st s -> spans s !! sp = Some v -> sp <= x < sp + SPAN_SIZE -> x < 2 ^ 64 -> Z.land x SPAN_MASK = sp.
Proof.
  intros I Hs Hx Hx'. destruct (so_address _ _ _ _ (iv_spans _ _ _ I) sp v Hs) as (H1 & H2 & H3 & H4).
  unfold SPAN_MASK. change SPAN_SIZE with (2 ^ 28) in *. apply (land_mask_base 28); lia.
Qed.

(** The span and the page of an address in a page. *)
Lemma page_masks ex st s p r x : Base ex st s -> pages s !! p = Some r -> page_type r <> PAGE_HUGE -> p <= x < p + psize (page_type r) ->
  exists sp v, spans s !! sp = Some v /\ page_type r = span_page_type v /\ Z.land x SPAN_MASK = sp /\ Z.land x (page_address_mask v) = p.
Proof.
  intros I Hp Ht Hx. pose proof (iv_spans _ _ _ I) as O. destruct (page_span O p r Hp Ht) as (sp & v & i & Hs & E & Hi & Hn & Ep).
  exists sp, v. destruct (so_address _ _ _ _ O sp v Hs) as (H1 & H2 & H3 & H4). rewrite E in *. pose proof (page_at_bounds sp v i ltac:(lia)) as Hb.
  destruct (page_address I p r Hp ltac:(congruence)) as (A1 & A2 & A3). rewrite E in A3.
  split_and!; [done|done|eapply span_mask; [exact I|exact Hs|lia|lia]|]. destruct (so_pages _ _ _ _ O sp v Hs Ht) as (-> & _).
  destruct (psize_pow (span_page_type v)) as (k & Ek & Hk). rewrite Ek in *. apply land_mask_base; [lia|lia|lia| |lia].
  subst p. unfold page_at. rewrite Ek. destruct (psize_divides (span_page_type v)) as (j & Ej & _). rewrite Ek in Ej. rewrite Ej in H3.
  assert (0 < 2 ^ k) by (apply pow2_pos; lia). apply Z.mod_divide in H3 as [q ->]; [|nia]. replace (q * (2 ^ k * j) + 2 ^ k * i) with ((q * j + i) * 2 ^ k) by ring. apply Z.mod_mul. lia.
Qed.

Lemma wp_block_page (Q : Z -> state -> Prop) ex st s p r x :
  Base ex st s -> pages s !! p = Some r -> page_type r <> PAGE_HUGE -> p <= x < p + psize (page_type r) -> Q p s -> wp (block_page x) Q s.
Proof.
  intros I Hp Ht Hx HQ. destruct (page_masks ex st s p r x I Hp Ht Hx) as (sp & v & Hs & _ & E1 & E2). unfold block_page, span_get_page_from_block. rewrite E1. do 2 wp_step. wp_step. by rewrite E2.
Qed.

(** The block that an address lies in. *)
Lemma realign_block ex st s p r b x : Base ex st s -> pages s !! p = Some r -> in_use r -> member p r b -> b <= x < b + block_size r -> page_block_realign p r x = b.
Proof.
  intros I Hp Hu Hm Hx. pose proof (page_is_ok I p r Hp Hu) as Hok. destruct (page_numbers r Hok) as (N1 & N2 & N3). pose proof (psize_max (page_type r)).
  destruct (member_bounds p r b Hok Hm) as (B1 & B2 & B3). destruct Hm as (i & Hi & ->). unfold page_block_realign, page_block_start, block, PAGE_HEADER_SIZE in *.
  rewrite (wrap_small 32) by lia. assert (0 <= block_size r * i) by nia. replace (x - (p + 128)) with (x - (p + 128 + block_size r * i) + i * block_size r) by ring.
  rewrite Z.mod_add, Z.mod_small by lia. ring.
Qed.

Lemma wp_put_thread_free (Q : unit -> state -> Prop) st s p r b :
  Inv None st s -> pages s !! p = Some r -> in_use r -> st !! b = Some Live -> member p r b ->
  (forall st1 s1, Inv None st1 s1 -> kept {[b]} ∅ st s st1 s1 -> Q tt s1) -> wp (page_put_thread_free_block p b) Q s.
Proof.
  intros I Hp Hu Hb Hm HQ. destruct (block_range (iv_blocks _ _ _ (iv_base _ _ _ I)) b _ Hb) as [Hr _]. unfold page_put_thread_free_block. do 2 wp_step. destruct (is_full r).
  - destruct (iv_heap _ _ _ (iv_base _ _ _ I) p r Hp) as [h Hh]. do 3 wp_step. apply wp_store; [lia|]. eapply wp_upd_heap; [exact Hh|].
    destruct (heap_thread_step st s p r b h I Hp Hu Hb Hm Hh) as (st' & I' & K'). by eapply HQ.
  - destruct Hm as (i & Hi & Eb). destruct (page_block_from_thread_free_list p r (page_thread_free r)) as [head n] eqn:Et.
    destruct (index_of_block None st s p r i (iv_base _ _ _ I) Hp Hu Hi) as (X1 & _). rewrite <- Eb in X1. rewrite X1.
    wp_step. apply wp_store; [lia|]. eapply wp_upd_page; [exact Hp|]. destruct (page_thread_step st s p r b i head n I Hp Hu Hb Hi Eb Et) as (st' & I' & K'). by eapply HQ.
Qed.

(** The heap of the block's page belongs to the thread. *)
Definition local_block (s : state) (b : Z) : Prop :=
  exists p r h, pages s !! p = Some r /\ in_use r /\ member p r b /\ heaps s !! page_heap r = Some h /\ (owner_thread h = 0 \/ owner_thread h = thread).

(** A block of a page is freed, by its own address or by an address inside of it
    when its page has aligned blocks. *)
Lemma wp_deallocate_class (Q : unit -> state -> Prop) st s b n al x :
  Inv None st s -> class_live st s b n al -> x = b \/ al = true /\ b <= x < b + n ->
  (forall st1 s1, Inv None st1 s1 -> kept {[b]} ∅ st s st1 s1 -> (local_block s b -> still s1 = still s) -> Q tt s1) -> wp (block_deallocate thread x) Q s.
Proof.
  intros I [Hb (p & r & Hp & Hu & Hm & -> & ->)] Hx HQ. pose proof (iv_base _ _ _ I) as IB. pose proof (page_is_ok IB p r Hp Hu) as Hok.
  destruct (member_bounds p r b Hok Hm) as (B1 & B2 & B3). unfold PAGE_HEADER_SIZE in *.
  assert (b <= x < b + block_size r) as Hbx by (destruct Hx as [->|[_ ?]]; lia). destruct (iv_heap _ _ _ IB p r Hp) as [h Hh].
  unfold block_deallocate. apply wp_bind. eapply wp_block_page; [exact IB|exact Hp|apply Hu|lia|].
  unfold page_is_thread_heap, heap_is_thread_heap. do 5 wp_step. wp_step. do 2 wp_step. set (local := (owner_thread h =? 0) || (owner_thread h =? thread)).
  assert (local = false -> ~ local_block s b) as Hlocal.
  { intros El (q & r' & h' & Hq & Hu' & Hm' & Hh' & Ho). assert (p = q) as <- by (by eapply (one_page IB p r q r' b)). simplify_eq. apply orb_false_iff in El as [E1%Z.eqb_neq E2%Z.eqb_neq]. by destruct Ho. }
  destruct (local && negb (generic_free r)) eqn:Eloc.
  - apply andb_true_iff in Eloc as [_ Eg%negb_true_iff]. destruct (ok_generic _ Hok Eg) as [Ef Ea]. assert (x = b) as -> by (destruct Hx as [|[? _]]; congruence).
    eapply (wp_keeps still); [by apply (keeps_free_local p b false r)|]. eapply (wp_free_local _ st s p r b false); [exact I|exact Hp|exact Hu|exact Hb|exact Hm|done|].
    intros st1 s1 I1 K1 Ek. by apply (HQ st1 s1).
  - assert (is_huge (page_type r) = false) as Eh by (destruct Hu as [_ Ht]; by destruct (page_type r)).
    unfold span_deallocate_block. do 2 wp_step. rewrite Eh. cbv zeta.
    assert ((if has_aligned_block r then page_block_realign p r x else x) = b) as ->.
    { destruct Hx as [->|[E _]]; [|rewrite E; by eapply realign_block]. destruct (has_aligned_block r); [by eapply realign_block|done]. }
    unfold page_is_thread_heap, heap_is_thread_heap. do 5 wp_step. wp_step. fold local. destruct local.
    + unfold page_put_local_free_block. do 2 wp_step. eapply (wp_keeps still); [by apply (keeps_free_local p b true r)|].
      eapply (wp_free_local _ st s p r b true); [exact I|exact Hp|exact Hu|exact Hb|exact Hm|done|]. intros st1 s1 I1 K1 Ek. by apply (HQ st1 s1).
    + eapply wp_put_thread_free; [exact I|exact Hp|exact Hu|exact Hb|exact Hm|]. intros st1 s1 I1 K1. apply (HQ st1 s1 I1 K1). intros Hl. by destruct Hlocal.
Qed.
End Dealloc.
End RpDealloc.
