(* ===== verification/RpDefer.v ===== *)
(** * Blocks that other threads have freed

    [heap_get_page] takes the list of these blocks and frees each of them. *)
From stdpp Require Import functions.
From S2P Require Import Prelude RpState Rpmalloc RpSize RpWp RpBlocks RpLists RpInv RpLive RpPage RpFree RpKeeps RpDealloc.

Module RpDefer.
Import RpState Rpmalloc RpSize RpWp RpBlocks RpLists RpInv RpLive RpPage RpFree RpKeeps RpDealloc.

Section Defer.
Context `{HC : !Config} `{HM : !MemoryInterface} `{HL : !MemoryLaws} (thread : Z).

(** ** The number of blocks *)

Definition max_blocks (s : state) : nat := size (pages s) * Z.to_nat (2 ^ 16).

(** All blocks of all pages. *)
Definition all_blocks (pg : gmap Z page_t) : list Z := flat_map (fun e => block e.1 e.2 <$> seqZ 0 (block_initialized e.2 `min` 2 ^ 16)) (map_to_list pg).

Lemma all_blocks_length pg : (length (all_blocks pg) <= size pg * Z.to_nat (2 ^ 16))%nat.
Proof.
  unfold all_blocks. rewrite <- length_map_to_list. induction (map_to_list pg) as [|e l IH]; [done|]. cbn [flat_map]. rewrite length_app, length_fmap, length_seqZ.
  assert (Z.to_nat (block_initialized e.2 `min` 2 ^ 16) <= Z.to_nat (2 ^ 16))%nat by (lia). cbn [length]. lia.
Qed.

Lemma blocks_bound ex st s l : Base ex st s -> NoDup l -> (forall b, b ∈ l -> is_Some (st !! b)) -> (length l <= max_blocks s)%nat.
Proof.
  intros I Hn Hl. etrans; [|apply all_blocks_length]. apply submseteq_length, NoDup_submseteq; [done|]. intros b Hb. destruct (Hl b Hb) as [x Hx].
  destruct (status_page I b x Hx) as (p & r & Hp & Hu & Hok & (i & Hi & ->) & _). destruct (page_numbers r Hok) as (_ & N1 & N2).
  apply list_elem_of_In, in_flat_map. exists (p, r). split; [apply list_elem_of_In; by apply elem_of_map_to_list|]. apply list_elem_of_In, list_elem_of_fmap. exists i. split; [done|]. apply elem_of_seqZ. simpl. lia.
Qed.

(** ** Freeing them *)

Definition block_set (l : list Z) : gset Z := list_to_set l.

(** Blocks of pages of the thread's heaps that the program holds. *)
Definition held (st : gmap Z status) (s : state) (b : Z) : Prop := (exists n al, class_live st s b n al) /\ local_block thread s b.

Lemma held_word st s b : Base None st s -> held st s b -> forall x, b <= x < b + 8 -> exists n al, live st s b n al /\ b <= x < b + n.
Proof.
  intros I [(n & al & Hb) _] x Hx. exists n, al. split; [by left|]. destruct Hb as [_ (p & r & Hp & Hu & Hm & -> & _)]. destruct (member_bounds p r b (page_is_ok I p r Hp Hu) Hm) as (_ & _ & H). lia.
Qed.

Lemma held_after st s st1 s1 (D : gset Z) b : Base None st s -> Base None st1 s1 -> kept D ∅ st s st1 s1 -> still s1 = still s -> b ∉ D -> held st s b -> held st1 s1 b.
Proof.
  intros I I1 K E Hd [(n & al & Hb) Hl]. injection E as _ Ep Es Eh. destruct (kp_keep _ _ _ _ _ _ K b n al (or_introl Hb) Hd) as (al1 & Hb1 & _).
  destruct Hl as (p & r & h & Hp & Hu & Hm & Hh & Ho). assert (class_live st1 s1 b n al1) as Hc1.
  { destruct Hb1 as [|Hb1]; [done|exfalso]. apply (member_not_huge I p r b n al1 Hp Hu Hm). unfold huge_live in *. by rewrite Es, Eh in Hb1. }
  split; [by exists n, al1|]. destruct Hc1 as [_ (q & r' & Hq & Hu' & Hm' & _)].
  pose proof (f_equal (fun f => f !! q) Ep) as Eq. cbn beta in Eq. rewrite !lookup_fmap, Hq in Eq. destruct (pages s !! q) as [r0|] eqn:Hq0; [|done]. injection Eq as E1 E2.
  destruct (member_bounds p r b (page_is_ok I p r Hp Hu) Hm) as (B1 & B2 & B3). destruct (member_bounds q r' b (page_is_ok I1 q r' Hq Hu') Hm') as (C1 & C2 & C3). unfold PAGE_HEADER_SIZE in *.
  assert (p = q) as <-. { destruct (decide (p = q)) as [|Hne]; [done|exfalso]. rewrite E2 in C2. destruct (pages_apart (iv_spans _ _ _ I) p r q r0 Hp Hq0 (proj2 Hu)); [rewrite <- E2; apply Hu'|done|lia|lia]. }
  assert (r0 = r) as -> by congruence. destruct (kp_calm _ _ _ _ _ _ K) as [_ Hcalm]. destruct (Hcalm _ _ Hh) as (h1 & Hh1 & _ & Eo). exists p, r', h1. rewrite E1, Eo. done.
Qed.

Lemma wp_deferred_loop (Q : unit -> state -> Prop) fuel l head st s :
  Inv None st s -> chain (mem s) head l -> NoDup l -> (forall b, b ∈ l -> held st s b) -> (length l < fuel)%nat ->
  (forall st1 s1, Inv None st1 s1 -> kept (block_set l) ∅ st s st1 s1 -> still s1 = still s -> Q tt s1) -> wp (deferred_loop thread fuel head) Q s.
Proof.
  revert fuel head st s Q. induction l as [|b l IH]; intros fuel head st s Q I Hch Hnd Hl Hfuel HQ; (destruct fuel as [|fuel]; [simpl in Hfuel; lia|]); cbn [deferred_loop].
  { simpl in Hch. rewrite Hch. change (0 =? 0) with true. cbn iota. wp_step. apply (HQ st s); [done|apply kept_refl|done]. }
  destruct Hch as (-> & Hb0 & Hch). rewrite (proj2 (Z.eqb_neq b 0)) by lia. apply wp_bind, wp_load; [lia|]. fold (word (mem s) b). apply NoDup_cons in Hnd as [Hni Hnd].
  pose proof (Hl b ltac:(left)) as [(n & al & Hb) Hloc]. apply wp_bind. eapply wp_deallocate_class; [exact I|exact Hb|by left|]. intros st1 s1 I1 K1 Hs1. specialize (Hs1 Hloc).
  assert (forall c, c ∈ l -> c ∉ ({[b]} : gset Z)) as Hne by (intros c Hc ->%elem_of_singleton; done).
  apply (IH _ _ st1); [done| |done| |simpl in Hfuel; lia|].
  - eapply chain_ext; [|exact Hch]. intros c x Hc Hx. destruct (held_word st s c (iv_base _ _ _ I) (Hl c ltac:(by right)) x Hx) as (m & al' & Hlive & Hin). by apply (kp_content _ _ _ _ _ _ K1 c m al' x Hlive (Hne c Hc)).
  - intros c Hc. apply (held_after st s st1 s1 {[b]} c); [apply I|apply I1|done|done|by apply Hne|apply Hl; by right].
  - intros st2 s2 I2 K2 Hs2. apply (HQ st2 s2 I2); [|congruence]. eapply kept_weaken; [exact (kept_trans _ _ _ _ _ _ _ _ _ _ K1 K2)|unfold block_set; set_solver..].
Qed.

(** The list of the heap is taken: its blocks are the program's until they are freed. *)
Lemma release_step st s hp h t :
  Inv None st s -> heaps s !! hp = Some h -> owner_thread h = 0 \/ owner_thread h = thread ->
  let s1 := set_heaps (<[hp := set_heap_thread_free (<[t := 0]> (heap_thread_free h)) h]> (heaps s)) s in
  exists st1 l, Inv None st1 s1 /\ kept ∅ (block_set l) st s st1 s1 /\ chain (mem s) (heap_thread_free h t) l /\ NoDup l /\ (length l <= max_blocks s)%nat /\
    (forall b, b ∈ l -> held st1 s1 b) /\ (forall b n al, b ∈ block_set l -> ~ live st s b n al).
Proof.
  intros [I L] Hh Ho s1. set (h1 := set_heap_thread_free _ h) in s1. set (st1 := rename (HeapThread hp t) Live st). assert ((block_lists <$> heaps s) !! hp = Some (block_lists h)) as Hv by (by rewrite lookup_fmap, Hh).
  destruct (bk_lists _ _ _ _ (iv_blocks _ _ _ I) hp _ Hv) as [_ L2]. destruct (L2 t) as (n & l & Hch & Hnd & Hl & Hlen). simpl in Hch. exists st1, l.
  assert (forall b, st1 !! b = Some Live <-> st !! b = Some Live \/ b ∈ l) as Hst.
  { intros b. rewrite Hl. unfold st1. rewrite lookup_rename. destruct (st !! b) as [y|]; simpl; [|naive_solver]. case_decide; naive_solver. }
  assert (hview <$> heaps s1 = hview <$> heaps s) as Hhv by (by apply (heap_insert_view hview (heaps s) hp h h1)).
  assert (Inv None st1 s1) as I1.
  { split.
    - eapply base_frame; [exact I|by constructor|by intros x Hx| |apply I]. simpl. rewrite fmap_insert. exact (blocks_release (iv_blocks _ _ _ I) hp t _ Hv).
    - simpl. assert (page_lists <$> <[hp := h1]> (heaps s) = page_lists <$> heaps s) as -> by (by eapply heap_insert_view). exact L. }
  split_and!; [done| |done|done| | |].
  - constructor.
    + intros b k al [[Hb Hp]|Hb] _; exists al; (split; [|done]); [left; split; [apply Hst; by left|exact Hp]|by right].
    + done.
    + intros b k al [[Hb Hp]|Hb]; [|right; exists al; by right]. apply Hst in Hb as [Hb|Hb]; [right; exists al; left; by split|left; by apply elem_of_list_to_set].
    + set_solver.
    + by apply hview_calm.
  - apply (blocks_bound None st); [exact I|done|]. intros b Hb. apply Hl in Hb. by eexists.
  - intros b Hb. pose proof (proj1 (Hl b) Hb) as Hb'. destruct (status_page I b _ Hb') as (p & r & Hp & Hu & Hok & Hm & [E1 E2]). split.
    + exists (block_size r), (has_aligned_block r). split; [apply Hst; by right|]. by exists p, r.
    + exists p, r, h1. split; [exact Hp|split; [exact Hu|split; [exact Hm|split; [|exact Ho]]]]. simpl. rewrite <- E1. apply lookup_insert_eq.
  - intros b k al Hb%elem_of_list_to_set [[Hb' _]|Hb']; apply Hl in Hb; [congruence|].
    destruct (status_page I b _ Hb) as (p & r & Hp & Hu & Hok & Hm & _). by apply (member_not_huge I p r b k al Hp Hu Hm).
Qed.
End Defer.
End RpDefer.
