(* ===== verification/RpBirth.v ===== *)
(** * Pages and spans that become available

    [heap_make_free_page_available], [span_allocate_page] and [heap_get_span]. *)
From stdpp Require Import functions.
From S2P Require Import Prelude RpState Rpmalloc RpSize RpWp RpBlocks RpLists RpInv RpLive RpPage RpFree RpDealloc.

Module RpBirth.
Import RpState Rpmalloc RpSize RpWp RpBlocks RpLists RpInv RpLive RpPage RpFree RpDealloc.

Section Birth.
Context `{HC : !Config} `{HM : !MemoryInterface} `{HL : !MemoryLaws}.

(** ** A free page gets a class *)

(** A page without blocks that is ready for those of a class. *)
Record blank (hp c next : Z) (r r' : page_t) : Prop := {
  bl_use : is_free r' = false;
  bl_type : page_type r' = page_type r;
  bl_shift : commit_prefix_shift r' = commit_prefix_shift r;
  bl_ok : page_ok r';
  bl_heap : page_heap r' = hp;
  bl_class : size_class r' = c;
  bl_initialized : block_initialized r' = 0;
  bl_used : block_used r' = 0;
  bl_local : local_free r' = 0;
  bl_local_count : local_free_count r' = 0;
  bl_thread : page_thread_free r' = 0;
  bl_full : is_full r' = false;
  bl_committed : is_decommitted r' = false;
  bl_next : page_next r' = next }.

Definition opened (p hp c : Z) (h : heap_t) (r' : page_t) (m' : Z -> Z) (k' : os) (s : state) : state := set_mem m' (set_kernel k' (pushed_state p hp c h r' s)).

Section Open.
Context {st : gmap Z status} {s : state} (p : Z) (r r' : page_t) (hp c : Z) (h : heap_t) (m' : Z -> Z) (k' : os).
Context (I : Base None st s) (L : lists_ok (Some p) (pages s) (page_lists <$> heaps s)).
Context (Hp : pages s !! p = Some r) (Ht : page_type r <> PAGE_HUGE) (Hf : is_free r = true) (Hh : heaps s !! hp = Some h) (Hbl : blank hp c (page_available h c) r r').
Context (Hm : forall x, m' x <> mem s x -> p <= x < p + psize (page_type r)).
Context (Hz : is_zero r' = true -> forall x, p + PAGE_HEADER_SIZE <= x < p + psize (page_type r) -> m' x = 0).
Context (Hk : forall x, mapped k' x <-> mapped (kernel s) x).

Let s1 : state := set_mem m' (set_kernel k' (set_pages (<[p := r']> (pages s)) s)).

Lemma blank_in_use : in_use r'.
Proof using Ht Hbl. split; [apply Hbl|]. by rewrite (bl_type _ _ _ _ _ Hbl). Qed.

Lemma open_blocks : blocks_ok (bview <$> pages s1) (block_lists <$> heaps s1) (mem s1) st.
Proof using I Hp Ht Hf Hh Hbl Hm Hz.
  destruct (page_address I p r Hp Ht) as (A1 & A2 & A3). pose proof Hbl as [B1 B2 B3 B4 B5 B6 B7 B8 B9 B10 B11 B12 B13 B14]. cbn [s1 pages heaps mem set_mem set_pages set_kernel]. rewrite fmap_insert.
  apply (blocks_fresh (iv_blocks _ _ _ I) p (bview r') m').
  - intros r0 Hr0 [Hu _]. rewrite lookup_fmap, Hp in Hr0. injection Hr0 as <-. simpl in Hu. congruence.
  - exact blank_in_use.
  - by apply (proj1 (bview_ok r')).
  - done.
  - done.
  - done.
  - done.
  - done.
  - done.
  - simpl. by rewrite B2.
  - simpl. rewrite B5, lookup_fmap, Hh. by eexists.
  - intros q s0 Hq Hhq Hne. simpl. rewrite B2. by apply (bk_apart _ _ _ _ (iv_blocks _ _ _ I) p (bview r) q s0 (bview_lookup _ _ _ Hp) Hq).
  - intros x Hx. simpl in Hx. rewrite B2 in Hx. destruct (decide (m' x = mem s x)) as [|Hne]; [done|]. by destruct Hx; apply Hm.
  - intros Hzz x Hx. apply (Hz Hzz). change (block p (bview r')) with (block p r') in Hx. simpl in Hx. destruct (class_geometry _ (ok_class _ B4)) as (G1 & _ & G3 & G4 & _).
    rewrite <- (ok_size _ B4), <- (ok_count _ B4), <- (ok_type _ B4), B2 in *. rewrite B7 in Hx. unfold block in Hx. nia.
Qed.

Lemma open_base : Base None st s1.
Proof using I Hp Ht Hf Hh Hbl Hm Hz Hk.
  destruct (free_page_memory st s p r m' I Hp Ht Hf Hm) as (_ & Hzero & Hother & _). pose proof Hbl as [B1 B2 B3 B4 B5 B6 B7 B8 B9 B10 B11 B12 B13 B14].
  pose proof open_blocks as IB. pose proof I as [I1 I2 I3 I4 I5 I6 I7 I8]. constructor; [exact IB| | | | |exact I6|exact I7|].
  - intros q r0 Hq Hu Hne. simpl in Hq. apply lookup_insert_Some in Hq as [[<- <-]|[Hne' Hq]]; [|by apply (I2 q r0)]. rewrite B12, B8. symmetry. apply Z.eqb_neq. destruct (page_numbers r' B4) as (_ & N & _). lia.
  - intros q r0 Hq. simpl in Hq. apply lookup_insert_Some in Hq as [[<- <-]|[Hne Hq]]; [rewrite B5; by exists h|exact (I3 q r0 Hq)].
  - eapply spans_frame; [exact I4| |exact Hk|exact Hzero]. cbn [s1 pages set_mem set_pages set_kernel]. rewrite fmap_insert. apply insert_id. rewrite lookup_fmap, Hp. simpl. unfold spview. rewrite B2. f_equal. by destruct (page_type r).
  - intros q r0 Hq Ht0. simpl in Hq. apply lookup_insert_Some in Hq as [[<- <-]|[Hne Hq]].
    + destruct (I5 p r Hp Ht) as (D1 & D2 & D3). rewrite B3, B1, B13. split; [done|]. done.
    + destruct (I5 q r0 Hq Ht0) as (D1 & D2 & D3). split; [done|split].
      * intros Hz0 x Hx. cbn [s1 mem set_mem set_pages set_kernel]. rewrite (Hother q r0 x); [by apply D2|done..|unfold PAGE_HEADER_SIZE in *; lia].
      * intros Hd. destruct (D3 Hd) as (D4 & D5 & D6). split_and!; [done|done|]. intros x Hx. cbn [s1 mem set_mem set_pages set_kernel]. rewrite (Hother q r0 x); [by apply D6|done..|].
        assert (0 < 2 ^ commit_prefix_shift r0) by (apply pow2_pos; lia). lia.
  - destruct I8 as [T1 T2 T3 T4 T5 T6 T7 T8]. constructor; try done. intros hp0 h0 x Hh0 Hne Hx. cbn [s1 kernel spans set_mem set_pages set_kernel]. rewrite (Hk x). by eapply T1.
Qed.

(** Blocks that are live are those that were. *)
Lemma open_kept : kept ∅ ∅ st s st s1.
Proof using I Hp Ht Hf Hh Hbl Hm.
  destruct (free_page_memory st s p r m' I Hp Ht Hf Hm) as (_ & _ & _ & Hlive). pose proof Hbl as [B1 B2 B3 B4 B5 B6 B7 B8 B9 B10 B11 B12 B13 B14].
  assert (forall b n al, live st s1 b n al <-> live st s b n al) as Hl.
  { intros b n al. apply or_iff_compat_r. unfold class_live. split; intros [Hb (q & r0 & Hq & Hu0 & Hmem & E1 & E2)]; (split; [done|]); exists q, r0.
    - simpl in Hq. apply lookup_insert_Some in Hq as [[<- <-]|[Hne Hq]]; [|done]. destruct Hmem as (i & Hi & _). lia.
    - cbn [s1 pages set_mem set_pages set_kernel]. rewrite lookup_insert_ne; [done|]. intros <-. assert (r0 = r) as -> by congruence. destruct Hu0. congruence. }
  constructor; [|intros b n al x Hb _; by eapply Hlive| |set_solver|by apply hview_calm].
  - intros b n al Hb _. exists al. split; [by apply Hl|done].
  - intros b n al Hb. right. exists al. by apply Hl.
Qed.

Lemma open_step : Inv None st (opened p hp c h r' m' k' s) /\ kept ∅ ∅ st s st (opened p hp c h r' m' k' s) /\ pages (opened p hp c h r' m' k' s) !! p = Some r'.
Proof using I L Hp Ht Hf Hh Hbl Hm Hz Hk.
  pose proof open_base as I1. pose proof open_kept as K1. pose proof Hbl as [B1 B2 B3 B4 B5 B6 B7 B8 B9 B10 B11 B12 B13 B14].
  assert ((page_lists <$> heaps s) !! hp = Some (page_lists h)) as Hv by (by rewrite lookup_fmap, Hh). destruct (page_address I p r Hp Ht) as (A1 & _).
  assert (place_of r' = Available hp c) as Hplace by (rewrite (place_in_use r' blank_in_use B12), B5, B6; done).
  destruct (lists_push_available p hp (page_lists h) Hv ltac:(lia) c r' L Hplace B14) as (L2 & Hp2 & Hcore & _). set (s2 := opened _ _ _ _ _ _ _ _).
  assert (links_only s1 s2) as Hlo by (split; [exact Hcore|by eapply heap_core_insert|done|done]).
  split_and!; [split|eapply kept_after; [exact K1|by apply links_kept]|exact Hp2].
  - by eapply links_base.
  - simpl. rewrite fmap_insert. exact L2.
Qed.
End Open.

Lemma pushed_twice (pg : gmap Z page_t) p v c a b : v.1 c <> p -> <[p := b]> (pushed (pg := pg) p v c a) = pushed (pg := pg) p v c b.
Proof.
  intros Hne. unfold pushed. destruct (v.1 c =? 0); [apply insert_insert_eq|]. destruct (pg !! v.1 c); [|apply insert_insert_eq]. rewrite insert_insert_ne, insert_insert_eq by done. done.
Qed.

Lemma pushed_over (pg : gmap Z page_t) p v c x a : v.1 c <> p -> pushed (pg := <[p := x]> pg) p v c a = pushed (pg := pg) p v c a.
Proof. intros Hne. unfold pushed. rewrite insert_insert_eq, (lookup_insert_ne pg) by done. done. Qed.

(** The page gets its class and comes to the list. *)
Definition classed (hp c next : Z) (k : size_class_t) (r : page_t) : page_t :=
  set_page_thread_free 0 (set_page_prev 0 (set_page_next next (set_page_heap hp (set_generic_free false (set_has_aligned_block false (set_is_free false (set_is_full false
    (set_local_free_count 0 (set_local_free 0 (set_block_initialized 0 (set_block_used 0 (set_block_count (class_block_count k) (set_block_size (class_block_size k) (set_size_class c r)))))))))))))).

Lemma classed_blank hp c next k r : class_ok c -> global_size_class !! Z.to_nat c = Some k -> page_type r = get_page_type c -> is_decommitted r = false -> blank hp c next r (classed hp c next k r).
Proof.
  intros Hc Ek Et Hd. destruct (class_geometry c Hc) as (G1 & G2 & G3 & _). split; try done. split; try done; simpl; unfold bsize, bcount in *; rewrite ?Ek in *; lia.
Qed.

Lemma wp_open {A} (k : M A) (Q : A -> state -> Prop) s p r hp c h cl :
  pages s !! p = Some r -> heaps s !! hp = Some h -> (page_available h c <> 0 -> page_available h c <> p /\ is_Some (pages s !! page_available h c)) -> p <> 0 ->
  wp k Q (pushed_state p hp c h (classed hp c (page_available h c) cl r) s) ->
  wp (upd_page p (fun r =>
        set_page_heap hp (set_generic_free false (set_has_aligned_block false (set_is_free false (set_is_full false
          (set_local_free_count 0 (set_local_free 0 (set_block_initialized 0 (set_block_used 0
          (set_block_count (class_block_count cl) (set_block_size (class_block_size cl) (set_size_class c r))))))))))));;
      h ← get_heap hp;
      let head := page_available h c in
      upd_page p (fun r => set_page_thread_free 0 (set_page_prev 0 (set_page_next head r)));;
      when (negb (head =? 0)) (upd_page head (set_page_prev p));;
      upd_heap hp (fun h => set_page_available (<[c := p]> (page_available h)) h);;
      k) Q s.
Proof.
  intros Hp Hh Hhead H0 HQ. do 5 wp_step. eapply wp_upd_page; [wp_simpl; apply lookup_insert_eq|]. wp_simpl. rewrite insert_insert_eq. fold (classed hp c (page_available h c) cl r).
  apply wp_bind. unfold pushed_state, pushed in HQ. cbn [page_lists fst] in HQ. apply wp_when; intros Hz.
  - apply negb_true_iff in Hz. rewrite Hz in HQ. apply Z.eqb_neq in Hz. destruct (Hhead Hz) as [Hne [rh Hrh]]. rewrite Hrh in HQ.
    eapply wp_upd_page; [wp_simpl; by rewrite lookup_insert_ne|]. do 2 wp_step. exact HQ.
  - apply negb_false_iff in Hz. rewrite Hz in HQ. do 2 wp_step. exact HQ.
Qed.

Definition as_free (p : Z) (r : page_t) (s : state) : state := set_pages (<[p := set_is_free true r]> (pages s)) s.

Lemma wp_make_available (Q : bool -> state -> Prop) st s p r hp c h :
  pages s !! p = Some r -> Base None st (as_free p r s) -> lists_ok (Some p) (pages (as_free p r s)) (page_lists <$> heaps s) -> heaps s !! hp = Some h -> class_ok c -> page_type r = get_page_type c ->
  (forall s1 r1, Inv None st s1 -> kept ∅ ∅ st (as_free p r s) st s1 -> pages s1 !! p = Some r1 -> in_use r1 -> is_full r1 = false -> size_class r1 = c -> block_size r1 = bsize c -> Q false s1) ->
  wp (heap_make_free_page_available hp c p) Q s.
Proof.
  intros Hp I L Hh Hc Et HQ. set (g := as_free p r s) in *. set (rg := set_is_free true r). assert (pages g !! p = Some rg) as Hg by apply lookup_insert_eq.
  destruct (class_geometry c Hc) as (_ & _ & _ & _ & Hth & [cl Ecl]). assert (page_type rg <> PAGE_HUGE) as Ht by (simpl; congruence). destruct (page_address I p rg Hg Ht) as (A1 & _).
  assert ((page_lists <$> heaps s) !! hp = Some (page_lists h)) as Hv by (by rewrite lookup_fmap, Hh).
  set (r2 := classed hp c (page_available h c) cl r). pose proof (iv_decommit _ _ _ I p rg Hg Ht) as (D1 & D2 & D3). change (commit_prefix_shift rg) with (commit_prefix_shift r) in *. unfold as_free in g.
  assert (forall r' m' k', blank hp c (page_available h c) rg r' -> (forall x, m' x <> mem g x -> p <= x < p + psize (page_type rg)) ->
    (is_zero r' = true -> forall x, p + PAGE_HEADER_SIZE <= x < p + psize (page_type rg) -> m' x = 0) -> (forall x, mapped k' x <-> mapped (kernel g) x) ->
    Q false (opened p hp c h r' m' k' g)) as HQ'.
  { intros r' m' k' Hbl Hm Hz Hk. destruct (open_step p rg r' hp c h m' k' I L Hg Ht eq_refl Hh Hbl Hm Hz Hk) as (I1 & K1 & Hp1).
    eapply HQ; [exact I1|exact K1|exact Hp1|by eapply (blank_in_use rg)|exact (bl_full _ _ _ _ _ Hbl)|exact (bl_class _ _ _ _ _ Hbl)|]. rewrite (ok_size _ (bl_ok _ _ _ _ _ Hbl)), (bl_class _ _ _ _ _ Hbl). done. }
  assert (place_of r2 = Available hp c) as Hplace by (unfold place_of; simpl; rewrite Et; by destruct (get_page_type c)).
  destruct (lists_push_available p hp (page_lists h) Hv ltac:(lia) c r2 L Hplace eq_refl) as (_ & _ & _ & Hhead). cbn [page_lists fst] in Hhead.
  assert (page_available h c <> p) as Hne by (intros E; destruct Hhead as [H1 _]; [lia|done]).
  unfold heap_make_free_page_available. rewrite Ecl. eapply wp_open; [exact Hp|exact Hh| |lia|].
  { intros H0. destruct (Hhead H0) as [_ Hs]. split; [done|]. simpl in Hs. by rewrite lookup_insert_ne in Hs. }
  fold r2. set (s2 := pushed_state _ _ _ _ _ _).
  assert (forall r' m' k', opened p hp c h r' m' k' g = set_mem m' (set_kernel k' (set_pages (<[p := r']> (pages s2)) s2))) as Eg.
  { intros r' m' k'. unfold opened, pushed_state. simpl. rewrite pushed_over, pushed_twice by done. done. }
  assert (pages s2 !! p = Some r2) as Hp2 by (unfold s2, pushed_state; simpl; rewrite <- (pushed_twice (pages s) p (page_lists h) c r2 r2) by done; apply lookup_insert_eq).
  assert (set_mem (mem g) (set_kernel (kernel g) (set_pages (<[p := r2]> (pages s2)) s2)) = s2) as E2 by (rewrite insert_id by done; reflexivity).
  do 2 wp_step. change (is_decommitted r2) with (is_decommitted r). destruct (is_decommitted r) eqn:Ed.
  - destruct (D3 Ed) as (_ & D4 & D5). simpl in D4, D5.
    unfold page_commit_memory_pages. do 2 wp_step. change (is_decommitted r2) with (is_decommitted r). rewrite Ed. cbn [negb]. apply wp_bind, wp_page_get_size; [done|].
    change (page_type r2) with (page_type r). change (commit_prefix_shift r2) with (commit_prefix_shift r). rewrite Z.shiftl_mul_pow2, Z.mul_1_l by lia.
    apply wp_bind. unfold commit_memory, wp at 1. destruct (memory_commit _ _ (kernel s2)) as [failed k'] eqn:Ek.
    pose proof (commit_success (p + 2 ^ commit_prefix_shift r) (psize (page_type r) - 2 ^ commit_prefix_shift r) (kernel s2)) as Hfailed. rewrite Ek in Hfailed. simpl in Hfailed. subst failed.
    wp_step. eapply wp_upd_page; [exact Hp2|]. do 3 wp_step. eapply wp_upd_page; [wp_simpl; apply lookup_insert_eq|]. wp_simpl. rewrite insert_insert_eq. wp_step.
    set (r4 := set_is_zero true _). specialize (HQ' r4 (fill (mem s) (p + PAGE_HEADER_SIZE) (2 ^ commit_prefix_shift r - PAGE_HEADER_SIZE) 0) k').
    rewrite Eg in HQ'. apply HQ'.
    + destruct (classed_blank hp c (page_available h c) cl (set_is_decommitted false (set_is_zero true rg)) Hc Ecl Et eq_refl). by split.
    + intros x Hx. destruct (decide (p <= x < p + psize (page_type rg))) as [|Hn]; [done|]. destruct Hx. apply fill_other. simpl in Hn. unfold PAGE_HEADER_SIZE. lia.
    + intros _ x Hx. destruct (decide (x < p + 2 ^ commit_prefix_shift r)).
      * apply fill_in. unfold PAGE_HEADER_SIZE in *. lia.
      * rewrite fill_other by (unfold PAGE_HEADER_SIZE in *; lia). apply D5. simpl in Hx. lia.
    + intros x. pose proof (commit_mapped (p + 2 ^ commit_prefix_shift r) (psize (page_type r) - 2 ^ commit_prefix_shift r) (kernel s2) x) as Hk. by rewrite Ek in Hk.
  - wp_step. rewrite <- E2, <- Eg. apply HQ'; [exact (classed_blank hp c (page_available h c) cl rg Hc Ecl Et Ed)|done| |done]. intros Hz x Hx. by apply D2.
Qed.

(** ** A new page *)

(** A page that is not in use comes. *)
Lemma born_kept (N : gset Z) st s s1 p r :
  pages s !! p = None -> ~ in_use r -> pages s1 = <[p := r]> (pages s) -> calm s s1 ->
  (forall b n al, huge_live s b n al -> huge_live s1 b n al) -> (forall b n al, huge_live s1 b n al -> b ∈ N \/ huge_live s b n al) ->
  (forall b n al x, live st s b n al -> b <= x < b + n -> mem s1 x = mem s x) -> kept ∅ N st s st s1.
Proof.
  intros Hp Hnu Hpg Hcalm H1 H2 Hm.
  assert (forall b n al, class_live st s1 b n al <-> class_live st s b n al) as Hl.
  { intros b n al. split; intros [Hb (q & r0 & Hq & Hu0 & Hmem & E1 & E2)]; (split; [done|]); exists q, r0.
    - rewrite Hpg in Hq. apply lookup_insert_Some in Hq as [[<- <-]|[Hne Hq]]; done.
    - rewrite Hpg, lookup_insert_ne; [done|]. intros <-. congruence. }
  constructor; [|intros b n al x Hb _; by eapply Hm| |set_solver|done].
  - intros b n al [Hb|Hb] _; exists al; (split; [|done]); [left; by apply Hl|right; by apply H1].
  - intros b n al [Hb|Hb]; [right; exists al; left; by apply Hl|]. destruct (H2 b n al Hb); [by left|right; exists al; by right].
Qed.

Lemma span_fields v v' : set_page_initialized 0 v' = set_page_initialized 0 v ->
  span_page_type v' = span_page_type v /\ span_offset v' = span_offset v /\ span_mapped_size v' = span_mapped_size v /\
  page_address_mask v' = page_address_mask v /\ page_size v' = page_size v /\ page_count v' = page_count v.
Proof. destruct v, v'. unfold set_page_initialized. simpl. by intros [= -> -> -> -> -> -> -> ->]. Qed.

Section NewPage.
Context {st : gmap Z status} {s : state} (sp : Z) (v v' : span_t) (r : page_t) (k' : os).
Context (I : Base None st s) (L : lists_ok None (pages s) (page_lists <$> heaps s)).
Context (Hs : spans s !! sp = Some v) (Hsh : span_page_type v <> PAGE_HUGE) (Hroom : page_initialized v < page_count v).
Context (Ev : set_page_initialized 0 v' = set_page_initialized 0 v) (Ei : page_initialized v' = page_initialized v + 1).
Context (Ht : page_type r = span_page_type v) (Hf : is_free r = true) (Hheap : is_Some (heaps s !! page_heap r)).
Context (Hshift : 7 <= commit_prefix_shift r <= 62) (Hd : is_decommitted r = false).
Context (Hk : forall x, mapped k' x <-> mapped (kernel s) x).

Let p : Z := page_at sp v (page_initialized v).
Lemma new_page_area : sp <= p /\ p + psize (page_type r) <= sp + SPAN_SIZE.
Proof using I Hs Hsh Hroom Ht.
  destruct (so_pages _ _ _ _ (iv_spans _ _ _ I) sp v Hs Hsh) as (_ & _ & E2 & H2). rewrite Ht. apply page_at_bounds. lia.
Qed.

Lemma new_page_free x : p <= x < p + psize (page_type r) -> page_at sp v (page_initialized v) <= x < sp + SPAN_SIZE.
Proof using I Hs Hsh Hroom Ht. intros Hx. pose proof new_page_area. fold p. lia. Qed.

Lemma new_page_absent : pages s !! p = None.
Proof using I Hs Hsh Hroom Ht.
  pose proof (iv_spans _ _ _ I) as O. destruct (pages s !! p) as [r0|] eqn:Hp; [exfalso|done]. pose proof (psize_pos (page_type r)).
  assert (page_at sp v (page_initialized v) <= p < sp + SPAN_SIZE) as Hpx by (apply new_page_free; lia).
  destruct (decide (page_type r0 = PAGE_HUGE)) as [E0|E0].
  - destruct (so_page _ _ _ _ O p r0 Hp) as (sq & w & Hw & E & H0). rewrite E in E0. rewrite E0 in H0. simpl in H0. assert (sp = sq) as <-.
    { apply (so_apart _ _ _ _ O sp v sq w p Hs Hw); [by eapply (uninitialized_region O)|]. apply (span_region O); [done|]. destruct (so_huge _ _ _ _ O sq w Hw E0) as (_ & Hlen & _).
      unfold SPAN_HEADER_SIZE, PAGE_HEADER_SIZE in *. lia. }
    congruence.
  - pose proof (psize_pos (page_type r0)). by apply (uninitialized_apart O p r0 sp v p Hp E0 Hs Hsh Hpx); lia.
Qed.

Lemma new_page_apart q r0 : pages s !! q = Some r0 -> page_type r0 <> PAGE_HUGE -> p + psize (page_type r) <= q \/ q + psize (page_type r0) <= p.
Proof using I Hs Hsh Hroom Ht.
  intros Hq Hq0. destruct (Z_le_gt_dec (p + psize (page_type r)) q) as [|H1]; [by left|right]. destruct (Z_le_gt_dec (q + psize (page_type r0)) p) as [|H2]; [done|exfalso].
  pose proof (psize_pos (page_type r)). pose proof (psize_pos (page_type r0)).
  apply (uninitialized_apart (iv_spans _ _ _ I) q r0 sp v (Z.max p q) Hq Hq0 Hs Hsh); [apply new_page_free|]; lia.
Qed.

Lemma new_page_aligned : 0 < p /\ p mod 2 ^ 16 = 0 /\ p + psize (page_type r) < 2 ^ 64.
Proof using I Hs Hsh Hroom Ht.
  destruct (so_address _ _ _ _ (iv_spans _ _ _ I) sp v Hs) as (A1 & A2 & A3 & A4). pose proof new_page_area as [B1 B2]. split_and!; [lia| |].
  - unfold p, page_at. destruct (psize_pow (span_page_type v)) as (k & Ek & Hk16). rewrite Ek. apply Z.mod_divide in A3 as [j ->]; [|done].
    replace k with (16 + (k - 16)) by lia. rewrite Z.pow_add_r by lia. change SPAN_SIZE with (2 ^ 16 * 2 ^ 12).
    replace (j * (2 ^ 16 * 2 ^ 12) + 2 ^ 16 * 2 ^ (k - 16) * page_initialized v) with ((j * 2 ^ 12 + 2 ^ (k - 16) * page_initialized v) * 2 ^ 16) by ring. apply Z.mod_mul. lia.
  - unfold span_len in A4. destruct (span_page_type v); simpl in A4; done || lia.
Qed.

Let s1 : state := set_kernel k' (set_spans (<[sp := v']> (spans s)) (set_pages (<[p := r]> (pages s)) s)).

Lemma new_page_blocks : blocks_ok (bview <$> pages s1) (block_lists <$> heaps s1) (mem s1) st.
Proof using I Hs Hsh Hroom Ht Hf Hheap Hd.
  unfold s1. cbn [pages heaps mem set_pages set_kernel set_spans]. rewrite fmap_insert. apply (blocks_add (iv_blocks _ _ _ I)).
  - by rewrite lookup_fmap, new_page_absent.
  - intros [Hu _]. simpl in Hu. congruence.
  - intros _. destruct new_page_aligned as (A1 & A2 & A3). split_and!; [done..| |].
    + simpl. rewrite lookup_fmap. destruct Hheap as [h ->]. by eexists.
    + intros q r0 Hq Hq0. rewrite lookup_fmap in Hq. destruct (pages s !! q) as [r1|] eqn:Er; [|done]. injection Hq as <-. exact (new_page_apart q r1 Er Hq0).
Qed.

(** The span has the page, and is otherwise as it was. *)
Lemma new_page_span sq w : <[sp := v']> (spans s) !! sq = Some w ->
  exists w0, spans s !! sq = Some w0 /\ span_page_type w = span_page_type w0 /\ span_len w = span_len w0 /\ (forall x, region sq w x <-> region sq w0 x) /\
    span_offset w = span_offset w0 /\ span_mapped_size w = span_mapped_size w0 /\ page_address_mask w = page_address_mask w0 /\ page_size w = page_size w0 /\ page_count w = page_count w0 /\
    (sq = sp /\ w = v' /\ w0 = v \/ sq <> sp /\ w = w0).
Proof using Hs Ev.
  intros [[<- <-]|[Hne Hw]]%lookup_insert_Some; [|exists w; split_and!; done || right; done].
  destruct (span_fields v v' Ev) as (E1 & E2 & E3 & E4 & E5 & E6). exists v. unfold span_len, region. rewrite E1, E2, E3, E4, E5, E6. split_and!; try done. by left.
Qed.

Lemma new_page_spans : spans_ok (spans s1) (pages s1) (mapped (kernel s1)) (mem s1).
Proof using I Hs Hsh Hroom Ht Hf Hk Ev Ei Hd Hshift.
  pose proof (iv_spans _ _ _ I) as O. pose proof O as [O1 O2 O3 O4 O5 O6 O7 O8]. pose proof new_page_absent as Hp. cbn [s1 spans pages kernel mem set_kernel set_spans set_pages].
  destruct (O4 sp v Hs Hsh) as (_ & _ & _ & Hinit). constructor.
  - intros sq w Hw. destruct (new_page_span sq w Hw) as (w0 & Hw0 & E1 & E2 & _ & E3 & E4 & _). rewrite E2, E3, E4. by apply O1.
  - intros sq w x Hw Hx. destruct (new_page_span sq w Hw) as (w0 & Hw0 & _ & _ & E & _). apply Hk. by apply (O2 sq w0), E.
  - intros sq w sq' w' x Hw Hw' Hx Hx'. destruct (new_page_span sq w Hw) as (w0 & Hw0 & _ & _ & E & _). destruct (new_page_span sq' w' Hw') as (w0' & Hw0' & _ & _ & E' & _).
    apply (O3 sq w0 sq' w0' x); [done|done|by apply E|by apply E'].
  - intros sq w Hw Hh. destruct (new_page_span sq w Hw) as (w0 & Hw0 & E1 & _ & _ & _ & _ & E5 & E6 & E7 & Hcase). rewrite E1 in *. destruct (O4 sq w0 Hw0 Hh) as (P1 & P2 & P3 & P4).
    rewrite E5, E6, E7. split_and!; [done..| |]; destruct Hcase as [(-> & -> & ->)|[_ ->]]; lia.
  - intros sq w Hw Hh. destruct (new_page_span sq w Hw) as (w0 & Hw0 & E1 & E2 & _ & _ & _ & E5 & _ & _ & Hcase). rewrite E1 in *. destruct (O5 sq w0 Hw0 Hh) as (P1 & P2 & r0 & P3 & P4 & P5).
    rewrite E2, E5. split_and!; [done..|]. exists r0. rewrite lookup_insert_ne by congruence. done.
  - intros q r0 [[<- <-]|[Hne Hq]]%lookup_insert_Some.
    + exists sp, v'. rewrite lookup_insert_eq. destruct (span_fields v v' Ev) as (E1 & _). rewrite E1. split_and!; [done|done|]. assert (is_huge (span_page_type v) = false) as -> by (by destruct (span_page_type v)).
      exists (page_initialized v). unfold page_at. rewrite E1. split; [lia|done].
    + destruct (O6 q r0 Hq) as (sq & w & Hw & E & H0). destruct (decide (sq = sp)) as [->|Hne'].
      * assert (w = v) as -> by congruence. exists sp, v'. rewrite lookup_insert_eq. destruct (span_fields v v' Ev) as (E1 & _). rewrite E1. split_and!; [done|done|].
        destruct (is_huge (span_page_type v)); [done|]. destruct H0 as (i & Hi & ->). exists i. unfold page_at. rewrite E1. split; [lia|done].
      * exists sq, w. rewrite lookup_insert_ne by done. done.
  - intros sq w i Hw Hh Hi. destruct (new_page_span sq w Hw) as (w0 & Hw0 & E1 & _ & _ & _ & _ & _ & _ & _ & Hcase). assert (page_at sq w i = page_at sq w0 i) as -> by (unfold page_at; by rewrite E1). rewrite E1 in Hh.
    destruct Hcase as [(-> & -> & ->)|[Hne ->]].
    + destruct (decide (i = page_initialized v)) as [->|Hni]; [fold p; rewrite lookup_insert_eq; by eexists|].
      rewrite lookup_insert_is_Some. right. split; [|apply O7; [done|done|lia]]. intros E. unfold p, page_at in E. pose proof (psize_pos (span_page_type v)). nia.
    + rewrite lookup_insert_is_Some. destruct (decide (p = page_at sq w0 i)); [by left|right]. split; [done|by apply O7].
  - intros sq w x Hw Hh Hx. destruct (new_page_span sq w Hw) as (w0 & Hw0 & E1 & _ & _ & _ & _ & _ & _ & _ & Hcase). rewrite E1 in Hh. apply (O8 sq w0 x Hw0 Hh).
    unfold page_at in *. rewrite E1 in Hx. pose proof (psize_pos (span_page_type w0)). destruct Hcase as [(-> & -> & ->)|[Hne ->]]; nia.
Qed.

Lemma new_page_step : partial_ok (spans s1) (heaps s) -> Base None st s1 /\ lists_ok (Some p) (pages s1) (page_lists <$> heaps s1) /\ kept ∅ ∅ st s st s1.
Proof using I L Hs Hsh Hroom Ht Hf Hheap Hk Ev Ei Hd Hshift.
  intros Hpart. pose proof new_page_absent as Hp. pose proof new_page_spans as Hspans. pose proof new_page_blocks as Hblocks. pose proof I as [I1 I2 I3 I4 I5 I6 I7 I8].
  assert (~ in_use r) as Hnu by (intros [? _]; congruence). assert (forall sq w, spans s !! sq = Some w -> span_page_type w = PAGE_HUGE -> sp <> sq) as Hhuge by (intros sq w Hw E ->; congruence).
  split_and!.
  - constructor; [exact Hblocks| | |exact Hspans| |exact Hpart| |].
    + intros q r0 Hq Hu Hne. simpl in Hq. apply lookup_insert_Some in Hq as [[<- <-]|[Hne' Hq]]; [done|]. by apply (I2 q r0).
    + intros q r0 Hq. simpl in Hq. apply lookup_insert_Some in Hq as [[<- <-]|[Hne Hq]]; [done|exact (I3 q r0 Hq)].
    + intros q r0 Hq Ht0. simpl in Hq. apply lookup_insert_Some in Hq as [[<- <-]|[Hne Hq]]; [|exact (I5 q r0 Hq Ht0)]. split; [done|]. rewrite Hd. split; [|done].
      intros _ x Hx. apply (so_zero _ _ _ _ I4 sp v x Hs Hsh). apply new_page_free. unfold PAGE_HEADER_SIZE in *. lia.
    + destruct I7 as [H1 H2 H3]. split; [done| |done]. intros sq Hc. destruct (H2 sq Hc) as (w & Hw & E). exists w. simpl. rewrite lookup_insert_ne; [done|by eapply Hhuge].
    + destruct I8 as [T1 T2 T3 T4 T5 T6 T7 T8]. constructor; try done. intros hp h x Hh Hne Hx. destruct (T1 hp h x Hh Hne Hx) as [H1 H2]. split; [by apply Hk|].
      intros sq w Hw. destruct (new_page_span sq w Hw) as (w0 & Hw0 & _ & _ & E & _). rewrite E. by apply H2.
  - apply lists_enter; [exact L|]. intros r0 Hr0. congruence.
  - eapply (born_kept ∅ st s s1 p r); [done|done|done|by apply hview_calm| | |done].
    + intros b n al (sq & w & Hw & E & H). exists sq, w. simpl. rewrite lookup_insert_ne; [done|by eapply Hhuge].
    + intros b n al (sq & w & Hw & E & H). right. destruct (new_page_span sq w Hw) as (w0 & Hw0 & E1 & _ & _ & _ & _ & _ & _ & _ & [(-> & -> & ->)|[_ ->]]); [congruence|by exists sq, w0].
Qed.
End NewPage.

(** ** A new span *)

(** What a span has to be when it comes with its first page. *)
Record born (sp : Z) (v : span_t) (r : page_t) (s : state) : Prop := {
  bo_address : 4096 <= sp - span_offset v /\ 0 <= span_offset v /\ sp mod SPAN_SIZE = 0 /\ sp + span_len v <= sp - span_offset v + span_mapped_size v <= 2 ^ 63;
  bo_unmapped x : region sp v x -> ~ mapped (kernel s) x;
  bo_type : page_type r = span_page_type v;
  bo_heap : is_Some (heaps s !! page_heap r);
  bo_class : span_page_type v <> PAGE_HUGE ->
    page_address_mask v = mask (psize (span_page_type v)) /\ page_size v = psize (span_page_type v) /\ page_count v = SPAN_SIZE / psize (span_page_type v) /\ page_initialized v = 1 /\
    is_free r = true /\ 7 <= commit_prefix_shift r <= 62 /\ is_decommitted r = false;
  bo_huge : span_page_type v = PAGE_HUGE -> page_address_mask v = LARGE_PAGE_MASK /\ SPAN_HEADER_SIZE < span_len v /\ generic_free r = true }.

Lemma own_region S pg M m sp w : spans_ok S pg M m -> S !! sp = Some w -> region sp w sp.
Proof.
  intros O Hw. apply (span_region O); [done|]. destruct (decide (span_page_type w = PAGE_HUGE)) as [E|E].
  - destruct (so_huge _ _ _ _ O sp w Hw E) as (_ & H & _). unfold SPAN_HEADER_SIZE, PAGE_HEADER_SIZE in *. lia.
  - unfold span_len, SPAN_SIZE. destruct (span_page_type w); simpl; done || lia.
Qed.

Section NewSpan.
Context {st : gmap Z status} {s : state} (sp : Z) (v : span_t) (r : page_t).
Context (I : Base None st s) (Bo : born sp v r s).
Lemma new_span_len : 0 < span_len v.
Proof using Bo. destruct (decide (span_page_type v = PAGE_HUGE)) as [E|E]; [destruct (bo_huge _ _ _ _ Bo E) as (_ & H & _); unfold SPAN_HEADER_SIZE, PAGE_HEADER_SIZE in *; lia|]. unfold span_len. by destruct (span_page_type v). Qed.

Lemma new_span_own : region sp v sp.
Proof using Bo. destruct (bo_address _ _ _ _ Bo) as (A1 & A2 & A3 & A4). pose proof new_span_len. unfold region. lia. Qed.

(** Other regions do not meet the new one. *)
Lemma new_span_other sq w x : spans s !! sq = Some w -> region sq w x -> ~ region sp v x.
Proof using I Bo. intros Hw Hx Hx'. by apply (bo_unmapped _ _ _ _ Bo x Hx'), (so_mapped _ _ _ _ (iv_spans _ _ _ I) sq w). Qed.

Lemma new_span_absent : spans s !! sp = None.
Proof using I Bo.
  destruct (spans s !! sp) as [w|] eqn:Hw; [exfalso|done]. apply (new_span_other sp w sp Hw); [|exact new_span_own]. by eapply own_region; [apply I|].
Qed.

(** Neither do pages. *)
Lemma new_span_page q r0 x : pages s !! q = Some r0 -> page_type r0 <> PAGE_HUGE -> q <= x < q + psize (page_type r0) -> ~ region sp v x.
Proof using I Bo. intros Hq Ht Hx. destruct (page_in_region (iv_spans _ _ _ I) q r0 x Hq Ht Hx) as (sq & w & Hw & _ & Hr). by eapply new_span_other. Qed.

Lemma new_span_page_absent : pages s !! sp = None.
Proof using I Bo.
  destruct (pages s !! sp) as [r0|] eqn:Hp; [exfalso|done]. destruct (decide (page_type r0 = PAGE_HUGE)) as [E0|E0].
  - destruct (so_page _ _ _ _ (iv_spans _ _ _ I) sp r0 Hp) as (sq & w & Hw & E & H). rewrite <- E, E0 in H. simpl in H. subst sq. pose proof new_span_absent. congruence.
  - pose proof (psize_pos (page_type r0)). apply (new_span_page sp r0 sp Hp E0); [lia|exact new_span_own].
Qed.

Lemma new_span_apart q r0 : page_type r <> PAGE_HUGE -> pages s !! q = Some r0 -> page_type r0 <> PAGE_HUGE -> sp + psize (page_type r) <= q \/ q + psize (page_type r0) <= sp.
Proof using I Bo.
  intros Ht Hq Hq0. destruct (Z_le_gt_dec (sp + psize (page_type r)) q) as [|H1]; [by left|right]. destruct (Z_le_gt_dec (q + psize (page_type r0)) sp) as [|H2]; [done|exfalso].
  pose proof (psize_pos (page_type r)). pose proof (psize_pos (page_type r0)). apply (new_span_page q r0 (Z.max sp q) Hq Hq0); [lia|].
  destruct (bo_address _ _ _ _ Bo) as (A1 & A2 & A3 & A4). pose proof (psize_max (page_type r)). assert (span_len v = SPAN_SIZE) as E.
  { unfold span_len. rewrite <- (bo_type _ _ _ _ Bo). by destruct (page_type r). }
  unfold region. unfold SPAN_SIZE in *. lia.
Qed.

Context (m' : Z -> Z) (k' : os).
Context (Hm : forall x, m' x <> mem s x -> region sp v x) (Hz : span_page_type v <> PAGE_HUGE -> forall x, sp <= x < sp + SPAN_SIZE -> m' x = 0).
Context (Hk : forall x, mapped k' x <-> mapped (kernel s) x \/ region sp v x).

Let s1 : state := set_kernel k' (set_mem m' (set_spans (<[sp := v]> (spans s)) (set_pages (<[sp := r]> (pages s)) s))).

Lemma new_span_blocks : blocks_ok (bview <$> pages s1) (block_lists <$> heaps s1) (mem s1) st.
Proof using I Bo Hm Hz Hk.
  unfold s1. cbn [pages heaps mem set_pages set_kernel set_spans set_mem]. rewrite fmap_insert. eapply blocks_add.
  - apply (blocks_outside (iv_blocks _ _ _ I)). intros q r0 x Hq Hu Hx. rewrite lookup_fmap in Hq. destruct (pages s !! q) as [r1|] eqn:Er; [|done]. injection Hq as <-.
    destruct (decide (m' x = mem s x)) as [|Hne]; [done|exfalso]. exact (new_span_page q r1 x Er (proj2 Hu) Hx (Hm x Hne)).
  - by rewrite lookup_fmap, new_span_page_absent.
  - intros [Hu Hh]. simpl in Hu, Hh. rewrite (bo_type _ _ _ _ Bo) in Hh. destruct (bo_class _ _ _ _ Bo Hh) as (_ & _ & _ & _ & H & _). congruence.
  - intros Ht. simpl in Ht. destruct (bo_address _ _ _ _ Bo) as (A1 & A2 & A3 & A4). assert (span_len v = SPAN_SIZE) as E.
    { unfold span_len. rewrite <- (bo_type _ _ _ _ Bo). by destruct (page_type r). }
    pose proof (psize_max (page_type r)). unfold SPAN_SIZE in *. split_and!; [lia| |simpl; lia| |].
    + apply Z.mod_divide in A3 as [j ->]; [|done]. apply Z.mod_divide; [done|]. exists (j * 4096). ring.
    + simpl. rewrite lookup_fmap. destruct (bo_heap _ _ _ _ Bo) as [h ->]. by eexists.
    + intros q r0 Hq Hq0. rewrite lookup_fmap in Hq. destruct (pages s !! q) as [r1|] eqn:Er; [|done]. injection Hq as <-. exact (new_span_apart q r1 Ht Er Hq0).
Qed.

Lemma new_span_spans : spans_ok (spans s1) (pages s1) (mapped (kernel s1)) (mem s1).
Proof using I Bo Hm Hz Hk.
  pose proof (iv_spans _ _ _ I) as O. pose proof O as [O1 O2 O3 O4 O5 O6 O7 O8]. pose proof new_span_page_absent as Hp. pose proof new_span_absent as Hs. destruct Bo as [A1 A2 A3 A4 A5 A6].
  cbn [s1 spans pages kernel mem set_kernel set_spans set_pages set_mem]. constructor.
  - intros sq w [[<- <-]|[Hne Hw]]%lookup_insert_Some; [done|exact (O1 sq w Hw)].
  - intros sq w x [[<- <-]|[Hne Hw]]%lookup_insert_Some Hx; apply Hk; [by right|left; by apply (O2 sq w)].
  - intros sq w sq' w' x [[<- <-]|[Hne Hw]]%lookup_insert_Some [[<- <-]|[Hne' Hw']]%lookup_insert_Some Hx Hx'; [done| | |by apply (O3 sq w sq' w' x)].
    + by destruct (new_span_other sq' w' x Hw' Hx').
    + by destruct (new_span_other sq w x Hw Hx).
  - intros sq w [[<- <-]|[Hne Hw]]%lookup_insert_Some Hh; [|exact (O4 sq w Hw Hh)]. destruct (A5 Hh) as (P1 & P2 & P3 & P4 & _). split_and!; [done..|lia|].
    rewrite P3, P4. destruct (psize_divides (span_page_type v)) as (k & -> & Hk1). pose proof (psize_pos (span_page_type v)). rewrite Z.mul_comm, Z.div_mul; lia.
  - intros sq w [[<- <-]|[Hne Hw]]%lookup_insert_Some Hh.
    + destruct (A6 Hh) as (P1 & P2 & P3). split_and!; [done..|]. exists r. rewrite lookup_insert_eq. split_and!; [done|congruence|done].
    + destruct (O5 sq w Hw Hh) as (P1 & P2 & r0 & P3 & P4). split_and!; [done..|]. exists r0. by rewrite lookup_insert_ne.
  - intros q r0 [[<- <-]|[Hne Hq]]%lookup_insert_Some.
    + exists sp, v. rewrite lookup_insert_eq. split_and!; [done|done|]. destruct (is_huge (span_page_type v)) eqn:Eh; [done|]. assert (span_page_type v <> PAGE_HUGE) as Hh by (intros E; by rewrite E in Eh).
      destruct (A5 Hh) as (_ & _ & _ & P4 & _). exists 0. unfold page_at. split; lia.
    + destruct (O6 q r0 Hq) as (sq & w & Hw & E). exists sq, w. rewrite lookup_insert_ne; [done|]. intros <-. congruence.
  - intros sq w i [[<- <-]|[Hne Hw]]%lookup_insert_Some Hh Hi; rewrite lookup_insert_is_Some.
    + left. destruct (A5 Hh) as (_ & _ & _ & P4 & _). unfold page_at. assert (i = 0) as -> by lia. lia.
    + destruct (decide (sp = page_at sq w i)); [by left|right]. split; [done|by apply O7].
  - intros sq w x [[<- <-]|[Hne Hw]]%lookup_insert_Some Hh Hx.
    + apply (Hz Hh). destruct (A5 Hh) as (_ & _ & _ & P4 & _). unfold page_at in Hx. pose proof (psize_pos (span_page_type v)). nia.
    + destruct (decide (m' x = mem s x)) as [->|Hd]; [by apply (O8 sq w)|exfalso]. apply (new_span_other sq w x Hw); [by apply (uninitialized_region O)|by apply Hm].
Qed.

Lemma new_span_decommit : decommit_ok (pages s1) (mem s1).
Proof using I Bo Hm Hz Hk.
  intros q r0 Hq Ht0. simpl in Hq. apply lookup_insert_Some in Hq as [[<- <-]|[Hne Hq]].
  - rewrite (bo_type _ _ _ _ Bo) in *. destruct (bo_class _ _ _ _ Bo Ht0) as (_ & _ & _ & _ & _ & P6 & P7). rewrite P7. split; [done|split; [|done]].
    intros _ x Hx. apply (Hz Ht0). pose proof (psize_max (span_page_type v)). unfold PAGE_HEADER_SIZE, SPAN_SIZE in *. lia.
  - destruct (iv_decommit _ _ _ I q r0 Hq Ht0) as (D1 & D2 & D3).
    assert (forall x, q <= x < q + psize (page_type r0) -> m' x = mem s x) as Hsame.
    { intros x Hx. destruct (decide (m' x = mem s x)) as [|Hd]; [done|exfalso]. exact (new_span_page q r0 x Hq Ht0 Hx (Hm x Hd)). }
    split; [done|split].
    + intros Hz0 x Hx. simpl. rewrite Hsame by (unfold PAGE_HEADER_SIZE in *; lia). by apply D2.
    + intros Hd. destruct (D3 Hd) as (D4 & D5 & D6). split_and!; [done|done|]. intros x Hx. assert (0 < 2 ^ commit_prefix_shift r0) by (apply pow2_pos; lia). simpl. rewrite Hsame by lia. by apply D6.
Qed.

Lemma new_span_kept : kept ∅ (if is_huge (span_page_type v) then {[sp + SPAN_HEADER_SIZE]} else ∅) st s st s1.
Proof using I Bo Hm Hz Hk.
  pose proof new_span_absent as Hs. eapply (born_kept _ st s s1 sp r); [exact new_span_page_absent| |done|by apply hview_calm| | |].
  - intros [Hu Hh]. rewrite (bo_type _ _ _ _ Bo) in Hh. destruct (bo_class _ _ _ _ Bo Hh) as (_ & _ & _ & _ & H & _). congruence.
  - intros b n al (sq & w & Hw & E & H). exists sq, w. simpl. rewrite lookup_insert_ne; [done|]. intros <-. congruence.
  - intros b n al (sq & w & Hw & E & H1 & H2 & H3). simpl in Hw. apply lookup_insert_Some in Hw as [[<- <-]|[Hne Hw]]; [left; rewrite E; simpl; set_solver|right]. by exists sq, w.
  - intros b n al x Hb Hx. simpl. destruct (decide (m' x = mem s x)) as [|Hd]; [done|exfalso]. destruct (live_region I b n al Hb) as (_ & sq & w & Hw & Hr & _).
    exact (new_span_other sq w x Hw (Hr x Hx) (Hm x Hd)).
Qed.

Context (L : lists_ok None (pages s) (page_lists <$> heaps s)).

Lemma new_span_step : Base None st s1 /\ lists_ok (Some sp) (pages s1) (page_lists <$> heaps s1) /\ kept ∅ (if is_huge (span_page_type v) then {[sp + SPAN_HEADER_SIZE]} else ∅) st s st s1.
Proof using I L Bo Hm Hz Hk.
  pose proof new_span_page_absent as Hp. pose proof new_span_absent as Hs. pose proof new_span_spans as Hspans. pose proof new_span_blocks as Hblocks. pose proof new_span_decommit as Hdec.
  pose proof I as [I1 I2 I3 I4 I5 I6 I7 I8]. split_and!; [| |exact new_span_kept].
  - constructor; [exact Hblocks| | |exact Hspans|exact Hdec| | |].
    + intros q r0 Hq Hu Hne. simpl in Hq. apply lookup_insert_Some in Hq as [[<- <-]|[Hne' Hq]]; [|by apply (I2 q r0)]. exfalso. destruct Hu as [Hu Hh].
      rewrite (bo_type _ _ _ _ Bo) in Hh. destruct (bo_class _ _ _ _ Bo Hh) as (_ & _ & _ & _ & H & _). congruence.
    + intros q r0 Hq. simpl in Hq. apply lookup_insert_Some in Hq as [[<- <-]|[Hne Hq]]; [apply Bo|exact (I3 q r0 Hq)].
    + intros hp h t Hh Ht H0. destruct (I6 hp h t Hh Ht H0) as (w & Hw & H). exists w. simpl. rewrite lookup_insert_ne; [done|]. intros E. rewrite E in Hs. congruence.
    + destruct I7 as [H1 H2 H3]. split; [done| |done]. intros sq Hc. destruct (H2 sq Hc) as (w & Hw & E). exists w. simpl. rewrite lookup_insert_ne; [done|]. intros <-. congruence.
    + destruct I8 as [T1 T2 T3 T4 T5 T6 T7 T8]. constructor; try done. intros hp h x Hh Hne Hx. destruct (T1 hp h x Hh Hne Hx) as [H1 H2]. split; [apply Hk; by left|].
      intros sq w Hw. simpl in Hw. apply lookup_insert_Some in Hw as [[<- <-]|[Hne' Hw]]; [|by apply H2]. intros Hr. by apply (bo_unmapped _ _ _ _ Bo x Hr).
  - apply lists_enter; [exact L|]. intros r0 Hr0. congruence.
Qed.
End NewSpan.
End Birth.
End RpBirth.
