(* ===== verification/RpSpan.v ===== *)
(** * Pages of spans

    [span_allocate_page], [heap_get_span] and [heap_get_page]. *)
From stdpp Require Import functions.
From S2P Require Import Prelude RpState Rpmalloc RpSize RpWp RpBlocks RpLists RpInv RpLive RpPage RpFree RpDealloc RpBirth.

Module RpSpan.
Import RpState Rpmalloc RpSize RpWp RpBlocks RpLists RpInv RpLive RpPage RpFree RpDealloc RpBirth.

Section Spans.
Context `{HC : !Config} `{HM : !MemoryInterface} `{HL : !MemoryLaws}.

(** ** The lists of spans *)

Definition gview (h : heap_t) : heap_t := set_span_partial (fun _ => 0) (set_span_used (fun _ => 0) h).

(** A span but for its heap and its link. *)
Definition plain (v : span_t) : span_t := set_span_heap 0 (set_span_next 0 v).

(** Spans that differ in these. *)
Lemma next_fields (S S' : gmap Z span_t) sp w : plain <$> S' = plain <$> S -> S' !! sp = Some w ->
  exists w0, S !! sp = Some w0 /\ span_page_type w = span_page_type w0 /\ span_offset w = span_offset w0 /\ span_mapped_size w = span_mapped_size w0 /\
    page_address_mask w = page_address_mask w0 /\ page_size w = page_size w0 /\ page_count w = page_count w0 /\ page_initialized w = page_initialized w0.
Proof.
  intros E Hw. apply (f_equal (fun m => m !! sp)) in E. rewrite !lookup_fmap, Hw in E. destruct (S !! sp) as [w0|]; [|done]. injection E as E1 E2 E3 E4 E5 E6 E7. exists w0. split_and!; done.
Qed.

Lemma next_spans S S' pg M m : plain <$> S' = plain <$> S -> spans_ok S pg M m -> spans_ok S' pg M m.
Proof.
  intros E O. pose proof O as [O1 O2 O3 O4 O5 O6 O7 O8].
  assert (forall sp w, S' !! sp = Some w -> exists w0, S !! sp = Some w0 /\ span_page_type w = span_page_type w0 /\ span_len w = span_len w0 /\ (forall x, region sp w x <-> region sp w0 x) /\
    span_offset w = span_offset w0 /\ span_mapped_size w = span_mapped_size w0 /\
    page_address_mask w = page_address_mask w0 /\ page_size w = page_size w0 /\ page_count w = page_count w0 /\ page_initialized w = page_initialized w0 /\ forall i, page_at sp w i = page_at sp w0 i) as Hf.
  { intros sp w Hw. destruct (next_fields S S' sp w E Hw) as (w0 & Hw0 & E1 & E2 & E3 & E4 & E5 & E6 & E7). exists w0. unfold span_len, region, page_at. rewrite E1, E2, E3, E5, E6. split_and!; done. }
  constructor.
  - intros sp w Hw. destruct (Hf sp w Hw) as (w0 & Hw0 & E1 & -> & _ & -> & -> & _). exact (O1 sp w0 Hw0).
  - intros sp w x Hw Hx. destruct (Hf sp w Hw) as (w0 & Hw0 & _ & _ & Er & _). apply (O2 sp w0); [done|by apply Er].
  - intros sp w sq w' x Hw Hw' Hx Hx'. destruct (Hf sp w Hw) as (w0 & Hw0 & _ & _ & Er & _). destruct (Hf sq w' Hw') as (w0' & Hw0' & _ & _ & Er' & _).
    apply (O3 sp w0 sq w0' x); [done|done|by apply Er|by apply Er'].
  - intros sp w Hw Hh. destruct (Hf sp w Hw) as (w0 & Hw0 & E1 & _ & _ & _ & _ & -> & -> & -> & -> & _). rewrite E1 in *. exact (O4 sp w0 Hw0 Hh).
  - intros sp w Hw Hh. destruct (Hf sp w Hw) as (w0 & Hw0 & E1 & -> & _ & _ & _ & -> & _). rewrite E1 in *. exact (O5 sp w0 Hw0 Hh).
  - intros p r Hp. destruct (O6 p r Hp) as (sp & w0 & Hw0 & Et & H). pose proof (f_equal (fun m => m !! sp) E) as Ep. cbn beta in Ep. rewrite !lookup_fmap, Hw0 in Ep.
    destruct (S' !! sp) as [w|] eqn:Hw; [|done]. exists sp, w. destruct (Hf sp w Hw) as (w1 & Hw1 & E1 & _ & _ & _ & _ & _ & _ & _ & E7 & Ea). assert (w1 = w0) as -> by congruence.
    rewrite E1, E7. split_and!; [done|done|]. destruct (is_huge (span_page_type w0)); [done|]. destruct H as (i & Hi & ->). exists i. by rewrite Ea.
  - intros sp w i Hw Hh Hi. destruct (Hf sp w Hw) as (w0 & Hw0 & E1 & _ & _ & _ & _ & _ & _ & _ & E7 & Ea). rewrite Ea, E1, E7 in *. exact (O7 sp w0 i Hw0 Hh Hi).
  - intros sp w x Hw Hh Hx. destruct (Hf sp w Hw) as (w0 & Hw0 & E1 & _ & _ & _ & _ & _ & _ & _ & E7 & Ea). rewrite Ea, E1, E7 in *. exact (O8 sp w0 x Hw0 Hh Hx).
Qed.

(** The heaps get other lists of spans. *)
Lemma spans_step ex st s S' hs' :
  Base ex st s -> plain <$> S' = plain <$> spans s -> gview <$> hs' = gview <$> heaps s -> partial_ok S' hs' ->
  Base ex st (set_spans S' (set_heaps hs' s)) /\ kept ∅ ∅ st s st (set_spans S' (set_heaps hs' s)) /\ page_lists <$> hs' = page_lists <$> heaps s.
Proof.
  intros I E Eh Hpart. pose proof I as [I1 I2 I3 I4 I5 I6 I7 I8].
  assert (forall hp, gview <$> hs' !! hp = gview <$> heaps s !! hp) as Eg by (intros hp; rewrite <- !lookup_fmap; by rewrite Eh).
  assert (forall hp h, heaps s !! hp = Some h -> exists h', hs' !! hp = Some h' /\ gview h' = gview h) as Hto.
  { intros hp h Hh. specialize (Eg hp). rewrite Hh in Eg. destruct (hs' !! hp) as [h'|]; [|done]. exists h'. split; [done|exact (inj Some _ _ Eg)]. }
  assert (forall hp h', hs' !! hp = Some h' -> exists h, heaps s !! hp = Some h /\ gview h' = gview h) as Hfrom.
  { intros hp h' Hh. specialize (Eg hp). rewrite Hh in Eg. destruct (heaps s !! hp) as [h|]; [|done]. exists h. split; [done|exact (inj Some _ _ Eg)]. }
  assert (forall sp w, spans s !! sp = Some w -> exists w', S' !! sp = Some w' /\ plain w' = plain w) as Sto.
  { intros sp w Hw. apply (f_equal (fun m => m !! sp)) in E. rewrite !lookup_fmap, Hw in E. destruct (S' !! sp) as [w'|]; [|done]. exists w'. split; [done|exact (inj Some _ _ E)]. }
  assert (forall sp w', S' !! sp = Some w' -> exists w, spans s !! sp = Some w /\ plain w' = plain w) as Sfrom.
  { intros sp w' Hw. apply (f_equal (fun m => m !! sp)) in E. rewrite !lookup_fmap, Hw in E. destruct (spans s !! sp) as [w|]; [|done]. exists w. split; [done|exact (inj Some _ _ E)]. }
  split_and!; [constructor| |by eapply (fmap_factor gview page_lists page_lists)].
  - simpl. assert (block_lists <$> hs' = block_lists <$> heaps s) as -> by (by eapply (fmap_factor gview block_lists block_lists)). exact I1.
  - exact I2.
  - intros p r Hp. destruct (I3 p r Hp) as [h Hh]. destruct (Hto _ _ Hh) as (h' & Hh' & _). by exists h'.
  - by eapply next_spans.
  - exact I5.
  - exact Hpart.
  - destruct I7 as [H1 H2 H3]. split; [done| |done]. intros sp Hc. destruct (H2 sp Hc) as (w & Hw & Et). destruct (Sto sp w Hw) as (w' & Hw' & Ew). exists w'. split; [done|].
    rewrite <- Et. exact (f_equal span_page_type Ew).
  - destruct I8 as [T1 T2 T3 T4 T5 T6 T7 T8]. constructor; try done.
    + intros hp h x Hh Hne Hx. destruct (Hfrom hp h Hh) as (h0 & Hh0 & _). destruct (T1 hp h0 x Hh0 Hne Hx) as [H1 H2]. split; [done|]. intros sp w Hw. destruct (Sfrom sp w Hw) as (w0 & Hw0 & Ew).
      unfold region. rewrite (f_equal span_offset Ew : span_offset w = span_offset w0), (f_equal span_mapped_size Ew : span_mapped_size w = span_mapped_size w0). by apply H2.
    + intros hp h Hh. destruct (Hfrom hp h Hh) as (h0 & Hh0 & _). by apply (T2 hp h0).
    + destruct T3 as [T3|[h T3]]; [by left|right]. destruct (Hto _ _ T3) as (h' & Hh' & _). by exists h'.
    + destruct T4 as (l & Hn & Hc & Hl). exists l. split_and!; [done| |done]. clear Hn Hl. simpl. revert Hc. generalize (global_heap_pristine s). induction l as [|a l IH]; intros head Hc; [done|].
      destruct Hc as (-> & H0 & next & Hnext & Hc). split_and!; [done|done|]. exists next. split; [|by apply IH]. specialize (Eg a). destruct (heaps s !! a) as [h|], (hs' !! a) as [h'|]; try done.
      injection Hnext as <-. assert (gview h' = gview h) as Eg' by exact (inj Some _ _ Eg). exact (f_equal Some (f_equal heap_next Eg')).
    + intros t hp Ht. destruct (T8 t hp Ht) as [|[h Hh]]; [by left|right]. destruct (Hto _ _ Hh) as (h' & Hh' & _). by exists h'.
  - assert (forall b n al, huge_live (set_spans S' (set_heaps hs' s)) b n al <-> huge_live s b n al) as Hl.
    { intros b n al. split; intros (sp & w & Hw & Et & Hc & -> & -> & ->).
      - destruct (Sfrom sp w Hw) as (w0 & Hw0 & Ew). exists sp, w0. split_and!; try done; [rewrite <- Et; symmetry; exact (f_equal span_page_type Ew)|]. f_equal. exact (f_equal span_len Ew).
      - destruct (Sto sp w Hw) as (w0 & Hw0 & Ew). exists sp, w0. split_and!; try done; [rewrite <- Et; exact (f_equal span_page_type Ew)|]. f_equal. symmetry. exact (f_equal span_len Ew). }
    assert (forall b n al, live st (set_spans S' (set_heaps hs' s)) b n al <-> live st s b n al) as Hll by (intros b n al; unfold live; by rewrite Hl).
    constructor; [| done| |set_solver|].
    + intros b n al Hb _. exists al. split; [by apply Hll|done].
    + intros b n al Hb. right. exists al. by apply Hll.
    + split; [done|]. intros hp h Hh. destruct (Hto hp h Hh) as (h' & Hh' & Eh'). exists h'. split_and!; [done|exact (f_equal id Eh')|exact (f_equal owner_thread Eh')].
Qed.

(** ** A page of a span *)

Lemma wp_commit (Q : bool -> state -> Prop) a n s : (forall k', (forall x, mapped k' x <-> mapped (kernel s) x) -> Q false (set_kernel k' s)) -> wp (commit_memory a n) Q s.
Proof.
  intros HQ. unfold commit_memory, wp. pose proof (commit_success a n (kernel s)) as Hf. pose proof (fun x => commit_mapped a n (kernel s) x) as Hk. destruct (memory_commit a n (kernel s)) as [failed k'].
  simpl in Hf. subst failed. by apply HQ.
Qed.

Lemma kernel_same s : set_kernel (kernel s) s = s.
Proof. by destruct s. Qed.

(** A page that its heap has got and that is in no list yet. *)
Definition arrived (st : gmap Z status) (s : state) (p hp : Z) (t : page_type_t) (s' : state) : Prop :=
  exists r, pages s' !! p = Some r /\ page_type r = t /\ page_heap r = hp /\ 0 < p /\ is_Some (heaps s' !! hp) /\
    Base None st (as_free p r s') /\ lists_ok (Some p) (pages (as_free p r s')) (page_lists <$> heaps s') /\ kept ∅ ∅ st s st (as_free p r s').

(** The new page, as [span_allocate_page] writes it. *)
Definition new_page (hp : Z) (t : page_type_t) (first : page_t) : page_t :=
  set_page_heap hp (set_is_zero true (set_commit_prefix_shift (commit_prefix_shift first) (set_commit_on_demand (commit_on_demand first) (set_page_type t zero_page)))).

Lemma heap_gview (hs : gmap Z heap_t) hp h q u : hs !! hp = Some h -> gview <$> <[hp := set_span_used u (set_span_partial q h)]> hs = gview <$> hs.
Proof. intros Hh. rewrite fmap_insert. apply insert_id. by rewrite lookup_fmap, Hh. Qed.

Lemma partial_insert (S : gmap Z span_t) hs sp v v' : S !! sp = Some v -> span_page_type v' = span_page_type v -> span_heap v' = span_heap v ->
  page_initialized v' < page_count v' \/ (forall hp h t, hs !! hp = Some h -> t <> PAGE_HUGE -> span_partial h t <> sp) -> partial_ok S hs -> partial_ok (<[sp := v']> S) hs.
Proof.
  intros Hs Et Eh Hr H hp h t Hh Ht H0. destruct (H hp h t Hh Ht H0) as (w & Hw & E1 & E2 & E3). destruct (decide (span_partial h t = sp)) as [E|Hne].
  - rewrite E in *. assert (w = v) as -> by congruence. exists v'. rewrite lookup_insert_eq, Et, Eh. split_and!; [done|done| |done]. destruct Hr as [?|Hr]; [done|]. by destruct (Hr hp h t Hh Ht).
  - exists w. by rewrite lookup_insert_ne.
Qed.

(** The last page of a span: the span leaves the partial ones. *)
Lemma last_page_heaps (S : gmap Z span_t) hs hp h sp v t u :
  partial_ok S hs -> hs !! hp = Some h -> t <> PAGE_HUGE -> span_partial h t = sp -> sp <> 0 -> S !! sp = Some v ->
  let hs' := <[hp := set_span_used u (set_span_partial (<[t := 0]> (span_partial h)) h)]> hs in
  partial_ok S hs' /\ forall hp' h' t', hs' !! hp' = Some h' -> t' <> PAGE_HUGE -> span_partial h' t' <> sp.
Proof.
  intros H Hh Ht Esp H0 Hs hs'. destruct (H hp h t Hh Ht ltac:(lia)) as (w & Hw & Et & _ & Eh). rewrite Esp in Hw. assert (w = v) as -> by congruence. split.
  - intros hp' h' t' [[<- <-]|[Hne Hh']]%lookup_insert_Some Ht' H0'; [|by apply (H hp' h' t')]. simpl in *.
    destruct (decide (t' = t)) as [->|Hne]; [by rewrite fn_lookup_insert in H0'|]. rewrite fn_lookup_insert_ne in * by done. by apply (H hp h t').
  - intros hp' h' t' [[<- <-]|[Hne Hh']]%lookup_insert_Some Ht' E; simpl in E.
    + destruct (decide (t' = t)) as [->|Hne]; [rewrite fn_lookup_insert in E; lia|]. rewrite fn_lookup_insert_ne in E by done.
      destruct (H hp h t' Hh Ht' ltac:(lia)) as (w & Hw' & Et' & _). rewrite E in Hw'. congruence.
    + destruct (H hp' h' t' Hh' Ht' ltac:(lia)) as (w & Hw' & _ & _ & Eh'). rewrite E in Hw'. congruence.
Qed.

Section Partial.
Context {st : gmap Z status} {s : state} (I : Inv None st s) (hp : Z) (h : heap_t) (t : page_type_t) (sp : Z).
Context (Hh : heaps s !! hp = Some h) (Ht : t <> PAGE_HUGE) (Esp : span_partial h t = sp) (H0 : sp <> 0).

Lemma partial_span : exists v first, spans s !! sp = Some v /\ span_page_type v = t /\ page_initialized v < page_count v /\ span_heap v = hp /\ 1 <= page_initialized v /\
  page_size v = psize t /\ page_count v = SPAN_SIZE / psize t /\ pages s !! sp = Some first /\ 7 <= commit_prefix_shift first <= 62.
Proof using I Hh Ht Esp H0.
  pose proof (iv_base _ _ _ I) as IB. destruct (iv_partial _ _ _ IB hp h t Hh Ht ltac:(lia)) as (v & Hv & E1 & E2 & E3). rewrite Esp in Hv. pose proof (iv_spans _ _ _ IB) as O. subst t.
  destruct (so_pages _ _ _ _ O sp v Hv Ht) as (_ & P2 & P3 & P4). destruct (so_initialized _ _ _ _ O sp v 0 Hv Ht ltac:(lia)) as [first Hfirst].
  assert (page_at sp v 0 = sp) as Ea by (unfold page_at; lia). rewrite Ea in Hfirst. exists v, first.
  assert (page_type first <> PAGE_HUGE) as Hf.
  { intros E. destruct (so_page _ _ _ _ O sp first Hfirst) as (sq & w & Hw & E' & H). rewrite <- E', E in H. simpl in H. subst sq. congruence. }
  split_and!; try done; try lia; by apply (iv_decommit _ _ _ IB sp first Hfirst).
Qed.

(** Its page comes, when the span has room left or has left the heap's lists. *)
Lemma partial_page_step st0 s0 v first v' k' r :
  Base None st0 s0 -> lists_ok None (pages s0) (page_lists <$> heaps s0) -> spans s0 !! sp = Some v -> span_page_type v = t -> page_initialized v < page_count v ->
  set_page_initialized 0 v' = set_page_initialized 0 v -> page_initialized v' = page_initialized v + 1 -> 7 <= commit_prefix_shift first <= 62 -> is_Some (heaps s0 !! hp) ->
  (forall x, mapped k' x <-> mapped (kernel s0) x) -> r = new_page hp t first ->
  page_initialized v' < page_count v' \/ (forall hp h t, heaps s0 !! hp = Some h -> t <> PAGE_HUGE -> span_partial h t <> sp) ->
  let p := page_at sp v (page_initialized v) in
  arrived st0 s0 p hp t (set_kernel k' (set_spans (<[sp := v']> (spans s0)) (set_pages (<[p := r]> (pages s0)) s0))).
Proof using Ht.
  intros I0 L0 Hs Et Hroom Ev Ei Hshift Hheap Hk -> Hlast p. exists (new_page hp t first).
  set (s' := set_kernel _ _). assert (as_free p (new_page hp t first) s' = set_kernel k' (set_spans (<[sp := v']> (spans s0)) (set_pages (<[p := set_is_free true (new_page hp t first)]> (pages s0)) s0))) as Eg.
  { unfold as_free, s'. simpl. by rewrite insert_insert_eq. }
  assert (span_page_type v <> PAGE_HUGE) as Hh0 by congruence.
  destruct (new_page_step sp v v' (set_is_free true (new_page hp t first)) k' I0 L0 Hs Hh0 Hroom Ev Ei (eq_sym Et) eq_refl Hheap Hshift eq_refl Hk) as (I1 & L1 & K1).
  { destruct (span_fields v v' Ev) as (E1 & _). apply (partial_insert _ _ sp v v' Hs); [done| |done|apply (iv_partial _ _ _ I0)]. destruct v, v'. simpl in *. by injection Ev. }
  destruct (new_page_aligned sp v (set_is_free true (new_page hp t first)) I0 Hs Hh0 Hroom (eq_sym Et)) as (A1 & _).
  rewrite Eg. split_and!; [apply lookup_insert_eq|done|done|exact A1|exact Hheap|exact I1|exact L1|exact K1].
Qed.

Lemma arrived_before st0 s0 st1 s1 p s' : kept ∅ ∅ st0 s0 st1 s1 -> st0 = st1 -> arrived st1 s1 p hp t s' -> arrived st0 s0 p hp t s'.
Proof using Type. intros K -> (r & H1 & H2 & H3 & H4 & H5 & H6 & H7 & H8). exists r. split_and!; try done. by eapply kept_before. Qed.

Lemma wp_partial_page (Q : Z -> state -> Prop) : (forall p s', arrived st s p hp t s' -> Q p s') -> wp (span_allocate_page sp) Q s.
Proof using I Hh Ht Esp H0.
  intros HQ. destruct partial_span as (v & first & Hs & Et & Hroom & Ehp & Hinit & Esz & Ecnt & Hfirst & Hshift). pose proof (iv_base _ _ _ I) as IB.
  assert (page_count v <= 2 ^ 12) as Hcnt by (rewrite Ecnt; by destruct t). assert (psize t * page_count v = SPAN_SIZE) as Hspan by (rewrite Ecnt; by destruct t). pose proof (psize_pos t).
  unfold span_allocate_page. do 4 wp_step. cbv zeta. assert (sp + u32 (page_size v * page_initialized v) = page_at sp v (page_initialized v)) as Ep.
  { unfold page_at. rewrite Et, Esz, (wrap_small 32); [done|]. unfold SPAN_SIZE in *. nia. }
  rewrite Ep. set (p := page_at sp v (page_initialized v)). rewrite (proj2 (Z.eqb_neq (page_initialized v) 0)) by lia. cbn [negb andb].
  assert (forall k', (forall x, mapped k' x <-> mapped (kernel s) x) ->
    wp (upd_span sp (fun s => set_page_initialized (u32 (page_initialized s + 1)) s);;
        when true (put_page p zero_page);;
        upd_page p (fun r => set_page_heap (span_heap v) (set_is_zero true (set_commit_prefix_shift (commit_prefix_shift first)
            (set_commit_on_demand (commit_on_demand first) (set_page_type (span_page_type v) r)))));;
        s ← get_span sp;
        when (page_initialized s =? page_count s)
          (upd_heap (span_heap s) (fun h => set_span_partial (<[span_page_type s := 0]> (span_partial h)) h);;
           h ← get_heap (span_heap s);
           upd_span sp (set_span_next (span_used h (span_page_type s)));;
           upd_heap (span_heap s) (fun h => set_span_used (<[span_page_type s := sp]> (span_used h)) h));;
        mret p) Q (set_kernel k' s)) as Hrest.
  { intros k' Hk. do 2 wp_step. assert (u32 (page_initialized v + 1) = page_initialized v + 1) as Eu by (apply wrap_small; lia). rewrite Eu. set (v' := set_page_initialized _ v).
    cbn [when]. do 3 wp_step. eapply wp_upd_page; [wp_simpl; apply lookup_insert_eq|]. wp_simpl. rewrite insert_insert_eq, Et, Ehp. fold (new_page hp t first).
    wp_step. eapply wp_get_span; [wp_simpl; apply lookup_insert_eq|]. wp_step. change (page_initialized v') with (page_initialized v + 1). change (page_count v') with (page_count v).
    change (span_heap v') with (span_heap v). change (span_page_type v') with (span_page_type v). rewrite Et, Ehp. apply wp_when; intros Hlast.
    - do 3 wp_step. eapply wp_get_heap; [wp_simpl; apply lookup_insert_eq|]. wp_step. eapply wp_upd_span; [wp_simpl; apply lookup_insert_eq|]. wp_simpl. rewrite insert_insert_eq.
      eapply wp_upd_heap; [wp_simpl; apply lookup_insert_eq|]. wp_simpl. rewrite insert_insert_eq. wp_step. set (u := <[t := sp]> _). set (n := span_used _ t).
      change (set_span_used u _) with (set_span_used u (set_span_partial (<[t := 0]> (span_partial h)) h)). set (h2 := set_span_used u _).
      destruct (last_page_heaps _ _ hp h sp v t u (iv_partial _ _ _ IB) Hh Ht Esp H0 Hs) as [Hpart Hgone]. fold h2 in Hpart, Hgone. set (v0 := set_span_next n v).
      assert (plain <$> <[sp := v0]> (spans s) = plain <$> spans s) as En by (rewrite fmap_insert; apply insert_id; by rewrite lookup_fmap, Hs).
      destruct (spans_step None st s (<[sp := v0]> (spans s)) (<[hp := h2]> (heaps s)) IB En) as (I1 & K1 & L1); [by apply heap_gview| |].
      { apply (partial_insert _ _ sp v v0 Hs); [done|done|left; exact Hroom|exact Hpart]. }
      set (s0 := set_spans _ _) in I1, K1. assert (lists_ok None (pages s0) (page_lists <$> heaps s0)) as L0 by (change (heaps s0) with (<[hp := h2]> (heaps s)); rewrite L1; apply I).
      apply HQ. eapply (arrived_before st s st s0); [exact K1|done|].
      pose proof (partial_page_step st s0 v0 first (set_span_next n v') k' _ I1 L0 ltac:(apply lookup_insert_eq) Et Hroom ltac:(done) ltac:(done) Hshift ltac:(exists h2; apply lookup_insert_eq) Hk eq_refl (or_intror Hgone)) as Har.
      simpl in Har. rewrite insert_insert_eq in Har. exact Har.
    - wp_step. apply HQ.
      pose proof (partial_page_step st s v first v' k' _ IB (iv_lists _ _ _ I) Hs Et Hroom ltac:(done) ltac:(done) Hshift ltac:(by exists h) Hk eq_refl) as Har.
      apply Har. left. simpl. apply Z.eqb_neq in Hlast. lia. }
  apply wp_bind. destruct (commit_on_demand first).
  - apply wp_commit. exact Hrest.
  - wp_step. rewrite <- (kernel_same s). by apply Hrest.
Qed.
End Partial.

(** ** A new span *)

Context `{HG : !ConfigLaws}.

Lemma prefix_shift_ok : 7 <= prefix_shift 64 0 <= 62.
Proof using HG.
  destruct page_size_bits as (n & Hn & En). assert (forall m k, 0 <= k <= n -> n <= k + Z.of_nat m -> prefix_shift m k = n) as H.
  { induction m as [|m IH]; intros k Hk Hm; [simpl; lia|]. cbn [prefix_shift]. rewrite En, Z.shiftl_mul_pow2, Z.mul_1_l by lia.
    destruct (Z.ltb_spec (2 ^ k) (2 ^ n)) as [Hlt|Hle]; [apply Z.pow_lt_mono_r_iff in Hlt; [apply IH; lia|lia|lia]|]. apply Z.pow_le_mono_r_iff in Hle; lia. }
  rewrite H; lia.
Qed.

Lemma span_geometry_class t : t <> PAGE_HUGE -> span_geometry t = (psize t, mask (psize t)).
Proof. by destruct t. Qed.

Lemma wp_map (Q : Z * Z * Z -> state -> Prop) size alignment s :
  (forall k', (forall x, mapped k' x <-> mapped (kernel s) x) -> Q (0, 0, 0) (set_kernel k' s)) ->
  (forall p offset n k', 4096 <= p - offset -> 0 <= offset < 2 ^ 32 -> p + size <= p - offset + n <= 2 ^ 63 -> (alignment <> 0 -> p mod alignment = 0) -> (alignment = 0 -> offset = 0) ->
     (forall x, p - offset <= x < p - offset + n -> ~ mapped (kernel s) x) -> (forall x, mapped k' x <-> mapped (kernel s) x \/ p - offset <= x < p - offset + n) ->
     Q (p, offset, n) (set_mem (fill (mem s) p size 0) (set_kernel k' s))) ->
  wp (map_memory size alignment) Q s.
Proof.
  intros H1 H2. unfold map_memory, wp. destruct (memory_map size alignment (kernel s)) as [[[[p offset] n]|] k'] eqn:E.
  - destruct (map_success _ _ _ _ _ _ _ E) as (A1 & A2 & A3 & A4 & A7 & A5 & A6). by apply H2.
  - apply H1. intros x. by eapply map_failure.
Qed.

(** The headers of the span, as the two functions leave them. *)
Definition first_page (hp : Z) (t : page_type_t) : page_t := new_page hp t (set_commit_prefix_shift (prefix_shift 64 0) (set_commit_on_demand os_commit_on_demand zero_page)).

Definition first_span (hp : Z) (t : page_type_t) (offset n : Z) : span_t :=
  set_page_initialized 1 (set_span_mapped_size n (set_span_offset offset (set_page_address_mask (mask (psize t)) (set_page_size (psize t)
    (set_page_count (SPAN_SIZE / psize t) (set_span_page_type t (set_span_heap hp zero_span))))))).

Definition fresh_state (hp : Z) (h : heap_t) (t : page_type_t) (sp offset n : Z) (k' : os) (s : state) : state :=
  set_heaps (<[hp := set_span_partial (<[t := sp]> (span_partial h)) h]> (heaps s))
    (set_kernel k' (set_mem (fill (mem s) sp SPAN_SIZE 0) (set_spans (<[sp := first_span hp t offset n]> (spans s)) (set_pages (<[sp := first_page hp t]> (pages s)) s)))).

Lemma fresh_arrived st s hp h t sp offset n k' :
  Inv None st s -> heaps s !! hp = Some h -> t <> PAGE_HUGE ->
  4096 <= sp - offset -> 0 <= offset < 2 ^ 32 -> sp + SPAN_SIZE <= sp - offset + n <= 2 ^ 63 -> sp mod SPAN_SIZE = 0 ->
  (forall x, sp - offset <= x < sp - offset + n -> ~ mapped (kernel s) x) -> (forall x, mapped k' x <-> mapped (kernel s) x \/ sp - offset <= x < sp - offset + n) ->
  arrived st s sp hp t (fresh_state hp h t sp offset n k' s).
Proof using HG.
  intros [I L] Hh Ht A1 A2 A3 A4 A5 A6. set (v := first_span hp t offset n). set (r := set_is_free true (first_page hp t)).
  assert (is_huge (span_page_type v) = false) as Eh by (simpl; by destruct t). assert (span_len v = SPAN_SIZE) as Elen by (unfold span_len; by rewrite Eh).
  pose proof prefix_shift_ok as Hshift. assert (born sp v r s) as Bo.
  { split; [rewrite Elen; change (span_offset v) with offset; change (span_mapped_size v) with n; split_and!; lia|exact A5|done|by exists h| |]; [|by intros E]. intros _. change (commit_prefix_shift r) with (prefix_shift 64 0). split_and!; done || lia. }
  assert (forall x, fill (mem s) sp SPAN_SIZE 0 x <> mem s x -> region sp v x) as Hm.
  { intros x Hx. destruct (decide (sp <= x < sp + SPAN_SIZE)) as [|Hn]; [unfold region; change (span_offset v) with offset; change (span_mapped_size v) with n; lia|]. destruct Hx. apply fill_other. lia. }
  destruct (new_span_step sp v r I Bo (fill (mem s) sp SPAN_SIZE 0) k' Hm ltac:(intros _ x Hx; by apply fill_in) A6 L) as (I1 & L1 & K1). rewrite Eh in K1.
  set (s1 := set_kernel _ _) in I1, L1, K1. set (hs' := <[hp := set_span_partial (<[t := sp]> (span_partial h)) h]> (heaps s)).
  destruct (spans_step None st s1 (spans s1) hs' I1 eq_refl) as (I2 & K2 & L2).
  - unfold hs'. rewrite fmap_insert. change (heaps s1) with (heaps s). apply insert_id. by rewrite lookup_fmap, Hh.
  - intros hp' h' t' [[<- <-]|[Hne Hh']]%lookup_insert_Some Ht' H0; [|by apply (iv_partial _ _ _ I1 hp' h' t')]. simpl in *. destruct (decide (t' = t)) as [->|Hne].
    + rewrite fn_lookup_insert. exists v. rewrite lookup_insert_eq. split_and!; [done|done| |done]. simpl. destruct t; done.
    + rewrite fn_lookup_insert_ne in * by done. by apply (iv_partial _ _ _ I1 hp h t').
  - exists (first_page hp t). assert (as_free sp (first_page hp t) (fresh_state hp h t sp offset n k' s) = set_spans (spans s1) (set_heaps hs' s1)) as ->.
    { unfold as_free, fresh_state. simpl. by rewrite insert_insert_eq. }
    split_and!; [apply lookup_insert_eq|done|done|lia|eexists; apply lookup_insert_eq|exact I2| |by eapply kept_after].
    change (heaps (fresh_state hp h t sp offset n k' s)) with hs'. rewrite L2. exact L1.
Qed.
Lemma wp_fresh_page {A} (k : Z -> M A) (z : A) (Q : A -> state -> Prop) st s hp h t :
  Inv None st s -> heaps s !! hp = Some h -> t <> PAGE_HUGE -> span_partial h t = 0 ->
  (forall s', Inv None st s' -> kept ∅ ∅ st s st s' -> Q z s') -> (forall p s', arrived st s p hp t s' -> wp (k p) Q s') ->
  wp (span ← heap_get_span hp t; if span =? 0 then mret z else page ← span_allocate_page span; k page) Q s.
Proof using HG.
  intros I Hh Ht H0 HQ0 HQ. apply wp_bind. unfold heap_get_span. do 2 wp_step. rewrite H0. cbn [Z.eqb negb]. apply wp_bind, wp_map.
  { intros k' Hk. cbn [Z.eqb]. wp_step. cbn [Z.eqb]. wp_step. destruct (kernel_step None st s k' I Hk) as [I' K']. by apply HQ0. }
  intros sp offset n k' A1 A2 A3 A4 _ A5 A6. rewrite (proj2 (Z.eqb_neq sp 0)) by lia. rewrite span_geometry_class by done.
  assert (forall k2, (forall x, mapped k2 x <-> mapped k' x) -> arrived st s sp hp t (fresh_state hp h t sp offset n k2 s)) as Har.
  { intros k2 Hk2. apply (fresh_arrived st s hp h t sp offset n k2 I Hh Ht A1 A2 A3); [by apply A4|done|]. intros x. rewrite Hk2. apply A6. }
  assert (u32 offset = offset) as Eo by (apply wrap_small; lia). unfold new_span. do 4 wp_step. apply wp_bind.
  match goal with |- wp _ ?R ?S => assert (forall k2, (forall x, mapped k2 x <-> mapped k' x) -> R false (set_kernel k2 S)) as Hrest end.
  - intros k2 Hk2. cbv beta. wp_step. eapply wp_upd_page; [wp_simpl; apply lookup_insert_eq|]. wp_step. eapply wp_upd_span; [wp_simpl; apply lookup_insert_eq|]. do 3 wp_step. rewrite Eo.
    rewrite (proj2 (Z.eqb_neq sp 0)) by lia. rewrite !insert_insert_eq. apply wp_bind. unfold span_allocate_page.
    wp_step. eapply wp_get_span; [wp_simpl; apply lookup_insert_eq|]. wp_step. eapply wp_get_page; [wp_simpl; apply lookup_insert_eq|]. cbv zeta.
    cbn [page_initialized set_span_mapped_size set_span_offset set_page_address_mask set_page_size set_page_count set_span_page_type set_span_heap zero_span page_size].
    rewrite Z.mul_0_r. change (u32 0) with 0. rewrite Z.add_0_r. change (0 =? 0) with true. cbn [negb andb]. do 3 wp_step. eapply wp_upd_span; [wp_simpl; apply lookup_insert_eq|]. wp_simpl.
    cbn [when]. do 3 wp_step. eapply wp_upd_page; [wp_simpl; apply lookup_insert_eq|]. wp_step. eapply wp_get_span; [wp_simpl; apply lookup_insert_eq|]. wp_simpl. rewrite !insert_insert_eq.
    cbn [page_initialized page_count set_page_initialized set_span_mapped_size set_span_offset set_page_address_mask set_page_size set_page_count set_span_page_type set_span_heap zero_span].
    change (u32 (0 + 1)) with 1. assert ((1 =? SPAN_SIZE / psize t) = false) as -> by (by destruct t). cbn [when]. do 3 wp_step. apply HQ. exact (Har k2 Hk2).
  - destruct os_commit_on_demand; [apply wp_commit; exact Hrest|]. wp_step. rewrite <- (kernel_same s) at 1. apply Hrest. done.
Qed.
End Spans.
End RpSpan.
