(* ===== verification/RpHuge.v ===== *)
(** * Huge blocks

    Unmapping, the cache of huge blocks, and [block_deallocate] for all blocks. *)
From stdpp Require Import functions.
From S2P Require Import Prelude RpState Rpmalloc RpSize RpWp RpBlocks RpLists RpInv RpLive RpPage RpFree RpDealloc RpBirth.

Module RpHuge.
Import RpState Rpmalloc RpSize RpWp RpBlocks RpLists RpInv RpLive RpPage RpFree RpDealloc RpBirth.

Section Huge.
Context `{HC : !Config} `{HM : !MemoryInterface} `{HL : !MemoryLaws}.

(** ** Unmapping *)

Section Unmap.
Context {st : gmap Z status} {s : state} (I : Inv None st s) (sp : Z) (v : span_t).
Context (Hs : spans s !! sp = Some v) (Hh : span_page_type v = PAGE_HUGE).

Let outside (x : Z) : bool := negb ((sp - span_offset v <=? x) && (x <? sp - span_offset v + span_mapped_size v)).
Let s1 : state := set_pages (filter (fun e => outside e.1 = true) (pages s)) (set_spans (filter (fun e => outside e.1 = true) (spans s)) (set_kernel (memory_unmap sp (span_offset v) (span_mapped_size v) (kernel s)) s)).

Lemma outside_region x : outside x = true <-> ~ region sp v x.
Proof using Type. unfold outside, region. destruct (Z.leb_spec (sp - span_offset v) x), (Z.ltb_spec x (sp - span_offset v + span_mapped_size v)); simpl; split; (done || lia). Qed.

Lemma unmap_spans_delete : spans s1 = delete sp (spans s).
Proof using I Hs.
  pose proof (iv_spans _ _ _ (iv_base _ _ _ I)) as O. apply map_eq. intros sq. simpl. destruct (decide (sq = sp)) as [->|Hne].
  - rewrite lookup_delete_eq. apply map_lookup_filter_None. right. intros w _. rewrite outside_region. intros Hn. apply Hn. by eapply own_region.
  - rewrite lookup_delete_ne by done. destruct (spans s !! sq) as [w|] eqn:Hw.
    + apply map_lookup_filter_Some. split; [done|]. simpl. apply outside_region. intros Hx. apply Hne. symmetry. eapply (so_apart _ _ _ _ O sp v sq w sq Hs Hw Hx). by eapply own_region.
    + apply map_lookup_filter_None. by left.
Qed.

Lemma unmap_pages_delete : pages s1 = delete sp (pages s).
Proof using I Hs Hh.
  pose proof (iv_spans _ _ _ (iv_base _ _ _ I)) as O. apply map_eq. intros q. simpl. destruct (decide (q = sp)) as [->|Hne].
  - rewrite lookup_delete_eq. apply map_lookup_filter_None. right. intros w _. rewrite outside_region. intros Hn. apply Hn. by eapply own_region.
  - rewrite lookup_delete_ne by done. destruct (pages s !! q) as [r|] eqn:Hq; [|apply map_lookup_filter_None; by left].
    apply map_lookup_filter_Some. split; [done|]. simpl. apply outside_region. intros Hx. destruct (decide (page_type r = PAGE_HUGE)) as [E|E].
    + destruct (so_page _ _ _ _ O q r Hq) as (sq & w & Hw & E' & H). rewrite <- E', E in H. simpl in H. subst sq. apply Hne. symmetry. eapply (so_apart _ _ _ _ O sp v q w q Hs Hw Hx). by eapply own_region.
    + pose proof (psize_pos (page_type r)). destruct (page_in_region O q r q Hq E ltac:(lia)) as (sq & w & Hw & E' & Hr). assert (sp = sq) as <- by (by eapply (so_apart _ _ _ _ O)). congruence.
Qed.

Lemma unmap_spans_ok : spans_ok (spans s1) (pages s1) (mapped (kernel s1)) (mem s1).
Proof using I Hs Hh.
  pose proof unmap_spans_delete as Es. pose proof unmap_pages_delete as Ep. pose proof (iv_spans _ _ _ (iv_base _ _ _ I)) as O. rewrite Es, Ep. clear Es Ep. pose proof O as [O1 O2 O3 O4 O5 O6 O7 O8].
  constructor.
  - intros sq w [Hne Hw]%lookup_delete_Some. exact (O1 sq w Hw).
  - intros sq w x [Hne Hw]%lookup_delete_Some Hx. simpl. rewrite unmap_mapped. split; [by apply (O2 sq w)|]. intros Hx'. by apply Hne, (O3 sp v sq w x).
  - intros sq w sq' w' x [Hne Hw]%lookup_delete_Some [Hne' Hw']%lookup_delete_Some. by apply O3.
  - intros sq w [Hne Hw]%lookup_delete_Some. exact (O4 sq w Hw).
  - intros sq w [Hne Hw]%lookup_delete_Some Hwh. rewrite lookup_delete_ne by done. exact (O5 sq w Hw Hwh).
  - intros q r [Hne Hq]%lookup_delete_Some. destruct (O6 q r Hq) as (sq & w & Hw & E & H). exists sq, w. rewrite lookup_delete_ne; [done|]. intros <-. assert (w = v) as -> by congruence. by rewrite Hh in H.
  - intros sq w i [Hne Hw]%lookup_delete_Some Hwh Hi. rewrite lookup_delete_ne; [by apply O7|]. intros E. apply Hne.
    apply (O3 sp v sq w sp Hs Hw); [by eapply own_region|]. destruct (O4 sq w Hw Hwh) as (_ & _ & E2 & Hn). pose proof (page_at_bounds sq w i ltac:(lia)). pose proof (psize_pos (span_page_type w)).
    apply (span_region O sq w sp Hw). unfold span_len. destruct (span_page_type w); simpl; done || lia.
  - intros sq w x [Hne Hw]%lookup_delete_Some. by apply O8.
Qed.

Lemma huge_nowhere r : pages s !! sp = Some r -> page_type r = PAGE_HUGE.
Proof using I Hs Hh. intros Hr. destruct (so_huge _ _ _ _ (iv_spans _ _ _ (iv_base _ _ _ I)) sp v Hs Hh) as (_ & _ & r0 & Hr0 & E & _). congruence. Qed.

Context (Hc : ~ cached (huge_slots s) sp).

Lemma unmap_base : Base None st s1.
Proof using I Hs Hh Hc.
  pose proof unmap_spans_ok as Hspans. pose proof unmap_spans_delete as Es. pose proof unmap_pages_delete as Ep. pose proof (iv_base _ _ _ I) as [I1 I2 I3 I4 I5 I6 I7 I8].
  constructor; [| | |exact Hspans| | | |]; rewrite ?Es, ?Ep.
  - rewrite fmap_delete. apply (blocks_remove I1). intros r Hr [_ Hu]. rewrite lookup_fmap in Hr. destruct (pages s !! sp) as [r0|] eqn:Hr0; [|done]. injection Hr as <-. apply Hu. exact (huge_nowhere r0 Hr0).
  - intros q r [Hne Hq]%lookup_delete_Some. by apply I2.
  - intros q r [Hne Hq]%lookup_delete_Some. exact (I3 q r Hq).
  - intros q r [Hne Hq]%lookup_delete_Some. exact (I5 q r Hq).
  - intros hp h t Hhp Ht H0. destruct (I6 hp h t Hhp Ht H0) as (w & Hw & E). exists w. rewrite lookup_delete_ne; [done|]. intros E'. rewrite <- E' in Hw. assert (w = v) as -> by congruence. destruct E as [E _]. congruence.
  - destruct I7 as [H1 H2 H3]. split; [done| |done]. intros sq Hq. destruct (H2 sq Hq) as (w & Hw & E). exists w. rewrite lookup_delete_ne; [done|]. by intros <-.
  - destruct I8 as [T1 T2 T3 T4 T5 T6 T7 T8]. constructor; try done. intros hp h x Hhp Hne Hx. destruct (T1 hp h x Hhp Hne Hx) as [H1 H2]. rewrite Es. split.
    + simpl. rewrite unmap_mapped. split; [done|]. exact (H2 sp v Hs).
    + intros sq w [Hne' Hw]%lookup_delete_Some. by apply H2.
Qed.

Lemma unmap_kept : kept {[sp + SPAN_HEADER_SIZE]} ∅ st s st s1.
Proof using I Hs Hh Hc.
  pose proof unmap_spans_delete as Es. pose proof unmap_pages_delete as Ep. pose proof (iv_base _ _ _ I) as IB.
  assert (forall b n al, live st s1 b n al <-> live st s b n al /\ b <> sp + SPAN_HEADER_SIZE) as Hl.
  { intros b n al. split.
    - intros [[Hb (q & r & Hq & Hu & Hm & E)]|(sq & w & Hw & E & Hn & -> & H)].
      + rewrite Ep in Hq. apply lookup_delete_Some in Hq as [Hne Hq]. split; [left; split; [done|by exists q, r]|]. intros ->.
        apply (member_not_huge IB q r (sp + SPAN_HEADER_SIZE) (span_len v - SPAN_HEADER_SIZE) true Hq Hu Hm). by exists sp, v.
      + rewrite Es in Hw. apply lookup_delete_Some in Hw as [Hne Hw]. split; [right; by exists sq, w|]. lia.
    - intros [[[Hb (q & r & Hq & Hu & Hm & E)]|(sq & w & Hw & E & Hn & -> & H)] Hne].
      + left. split; [done|]. exists q, r. rewrite Ep, lookup_delete_ne; [done|]. intros <-. destruct Hu as [_ Hu]. exact (Hu (huge_nowhere r Hq)).
      + right. exists sq, w. rewrite Es, lookup_delete_ne; [done|]. intros <-. by apply Hne. }
  constructor; [|done| |intros b n al ->%elem_of_singleton _; rewrite Hl; by intros [_ ?]|by apply hview_calm].
  - intros b n al Hb Hd. exists al. split; [|done]. apply Hl. split; [done|set_solver].
  - intros b n al Hb. right. exists al. by apply Hl.
Qed.

Lemma lists_gone (pg : gmap Z page_t) (A : gmap Z lists) p : lists_ok None pg A -> (forall r, pg !! p = Some r -> place_of r = Nowhere) -> lists_ok None (delete p pg) A.
Proof using Type.
  intros L Hp. assert (forall q, place_of <$> delete p pg !! q = place_of <$> pg !! q \/ q = p) as Hq by (intros q; destruct (decide (q = p)) as [->|Hne]; [by right|left; by rewrite lookup_delete_ne]).
  assert (forall x l, x <> Nowhere -> placed pg None x l -> placed (delete p pg) None x l /\ p ∉ l) as Hpl.
  { intros x l Hx [Hn Hl]. assert (p ∉ l) as Hpl. { intros (_ & r & Hr & E)%Hl. rewrite Hp in E by done. congruence. } split; [|done]. split; [done|]. intros q. rewrite Hl.
    split; intros (_ & r & Hr & E); (split; [done|]); exists r; (split; [|done]).
    - rewrite lookup_delete_ne; [done|]. intros <-. rewrite Hp in E by done. congruence.
    - by apply lookup_delete_Some in Hr as [_ ?]. }
  destruct L as [L1 L2]. constructor.
  - intros hp w Hw c. destruct (L1 hp w Hw c) as (l & Hseg & Hb & Hl). destruct (Hpl (Available hp c) l ltac:(done) Hl) as [Hl' Hni]. exists l. split_and!; [|  |done].
    + eapply seg_frame; [|done]. intros q Hq'. rewrite lookup_delete_ne; [done|]. by intros <-.
    + eapply backed_frame; [|done]. intros q Hq'. rewrite lookup_delete_ne; [done|]. intros <-. apply Hni. by apply tail_elem.
  - intros hp w Hw t. destruct (L2 hp w Hw t) as (l & Hseg & Hl). destruct (Hpl (Free hp t) l ltac:(done) Hl) as [Hl' Hni]. exists l. split; [|done].
    eapply seg_frame; [|done]. intros q Hq'. rewrite lookup_delete_ne; [done|]. by intros <-.
Qed.

Lemma unmap_step : Inv None st s1 /\ kept {[sp + SPAN_HEADER_SIZE]} ∅ st s st s1 /\ spans s1 = delete sp (spans s).
Proof using I Hs Hh Hc.
  split_and!; [split; [exact unmap_base|]|exact unmap_kept|exact unmap_spans_delete]. rewrite unmap_pages_delete. apply lists_gone; [apply I|]. intros r Hr. unfold place_of. by rewrite (huge_nowhere r Hr).
Qed.
End Unmap.

(** ** The cache *)

Lemma slot_clear S sl i sp t : huge_ok S sl -> sl !! i = Some (sp, t) -> sp <> 0 ->
  huge_ok S (<[i := (0, t)]> sl) /\ forall q, cached (<[i := (0, t)]> sl) q <-> cached sl q /\ q <> sp.
Proof.
  intros [H1 H2 H3] Hi H0. assert (forall q, cached (<[i := (0, t)]> sl) q <-> cached sl q /\ q <> sp) as Hq.
  { intros q. split.
    - intros [Hq (j & v & Hj & E)]. apply list_lookup_insert_Some in Hj as [(<- & <- & _)|[Hne Hj]]; [by simpl in E|]. split; [split; [done|by exists j, v]|].
      intros ->. apply Hne. by apply (H3 i j (sp, t) v).
    - intros [[Hq (j & v & Hj & E)] Hne]. split; [done|]. exists j, v. split; [|done]. rewrite list_lookup_insert_ne; [done|]. intros ->. rewrite Hi in Hj. injection Hj as <-. by apply Hne. }
  split; [|done]. split; [by rewrite length_insert|intros q Hc; by apply H2, Hq|].
  intros j k v w Hj Hk E H. apply list_lookup_insert_Some in Hj as [(<- & <- & _)|[Hne Hj]]; [done|]. apply list_lookup_insert_Some in Hk as [(<- & <- & _)|[Hne' Hk]]; [simpl in E; congruence|].
  by apply (H3 j k v w).
Qed.

Lemma slot_set S sl i sp t : huge_ok S sl -> (exists v, sl !! i = Some v /\ v.1 = 0) -> sp <> 0 -> ~ cached sl sp -> (exists v, S !! sp = Some v /\ span_page_type v = PAGE_HUGE) ->
  huge_ok S (<[i := (sp, t)]> sl) /\ forall q, cached (<[i := (sp, t)]> sl) q <-> cached sl q \/ q = sp.
Proof.
  intros [H1 H2 H3] (v0 & Hi & Hv0) H0 Hc HS. assert (forall q, cached (<[i := (sp, t)]> sl) q <-> cached sl q \/ q = sp) as Hq.
  { intros q. split.
    - intros [Hq (j & v & Hj & E)]. apply list_lookup_insert_Some in Hj as [(<- & <- & _)|[Hne Hj]]; [by right|]. left. split; [done|by exists j, v].
    - intros [[Hq (j & v & Hj & E)]| ->].
      + split; [done|]. exists j, v. split; [|done]. rewrite list_lookup_insert_ne; [done|]. intros ->. rewrite Hi in Hj. injection Hj as <-. congruence.
      + split; [done|]. exists i, (sp, t). split; [|done]. apply list_lookup_insert_eq. by eapply lookup_lt_Some. }
  split; [|done]. split; [by rewrite length_insert|intros q [Hq'| ->]%Hq; [by apply H2|done]|].
  intros j k v w Hj Hk E H. apply list_lookup_insert_Some in Hj as [(<- & <- & _)|[Hne Hj]]; apply list_lookup_insert_Some in Hk as [(<- & <- & _)|[Hne' Hk]]; [done| | |by apply (H3 j k v w)].
  - destruct Hc. split; [done|]. exists k, w. split; [done|]. simpl in E. done.
  - destruct Hc. split; [done|]. exists j, v. done.
Qed.

(** The cache changes: spans of [N] leave it, spans of [D] come. *)
Lemma slots_step (D N : gset Z) st s sl n :
  Inv None st s -> huge_ok (spans s) sl -> (forall sp, cached sl sp -> cached (huge_slots s) sp \/ sp + SPAN_HEADER_SIZE ∈ D) ->
  (forall sp, cached (huge_slots s) sp -> cached sl sp \/ sp + SPAN_HEADER_SIZE ∈ N) -> (forall b, b ∈ D -> exists sp, b = sp + SPAN_HEADER_SIZE /\ cached sl sp) ->
  Inv None st (set_huge_committed n (set_huge_slots sl s)) /\ kept D N st s st (set_huge_committed n (set_huge_slots sl s)).
Proof.
  intros [I L] Hok H1 H2 H3. set (s1 := set_huge_committed n (set_huge_slots sl s)). pose proof I as [I1 I2 I3 I4 I5 I6 I7 I8].
  assert (Base None st s1) as IB. { constructor; try done. destruct I8 as [T1 T2 T3 T4 T5 T6 T7 T8]. by constructor. }
  split; [by split|]. constructor.
  - intros b k al [Hb|(sp & v & Hs & Hh & Hc & -> & -> & ->)] Hd; [exists al; split; [by left|done]|]. exists true. split; [|done]. right. exists sp, v. split_and!; try done.
    intros Hc'. by destruct (H1 sp Hc').
  - done.
  - intros b k al [Hb|(sp & v & Hs & Hh & Hc & -> & -> & ->)]; [right; exists al; by left|]. destruct (decide (sp + SPAN_HEADER_SIZE ∈ N)) as [|Hn]; [by left|right]. exists true. right. exists sp, v. split_and!; try done.
    intros Hc'. by destruct (H2 sp Hc').
  - intros b k al Hd _. destruct (H3 b Hd) as (sp & -> & Hc). destruct (hg_span _ _ Hok sp Hc) as (v & Hv & Hh). exact (cached_not_live IB sp v k al Hv Hh Hc).
  - by apply hview_calm.
Qed.

Definition headers (l : list Z) : gset Z := list_to_set (map (fun sp => sp + SPAN_HEADER_SIZE) l).

Lemma elem_of_headers l b : b ∈ headers l <-> exists sp, b = sp + SPAN_HEADER_SIZE /\ sp ∈ l.
Proof. unfold headers. rewrite elem_of_list_to_set, list_elem_of_fmap. done. Qed.

Lemma nth_slot (sl : list (Z * Z)) i : (nth i sl (0, 0)).1 <> 0 -> sl !! i = Some (nth i sl (0, 0)).
Proof.
  intros H. rewrite nth_lookup in *. destruct (sl !! i); done.
Qed.

(** Spans that are taken out of the cache to be unmapped. *)
Definition taken_out (s : state) (l : list Z) : Prop := NoDup l /\ forall sp, sp ∈ l -> ~ cached (huge_slots s) sp /\ exists v, spans s !! sp = Some v /\ span_page_type v = PAGE_HUGE.

Lemma wp_purge_slots (Q : list Z -> state -> Prop) n i aged purge st s :
  Inv None st s -> taken_out s purge ->
  (forall l s', Inv None st s' -> taken_out s' (purge ++ l) -> (forall sp, sp ∈ l -> cached (huge_slots s) sp) -> (forall sp, cached (huge_slots s') sp -> cached (huge_slots s) sp) ->
     spans s' = spans s -> kept ∅ (headers l) st s st s' -> Q (purge ++ l) s') ->
  wp (purge_slots n i aged purge) Q s.
Proof.
  revert i purge s Q. induction n as [|n IH]; intros i purge s Q I Hp HQ; cbn [purge_slots].
  { wp_step. rewrite <- (app_nil_r purge). apply HQ; [done|by rewrite app_nil_r| |done|done|apply kept_refl]. intros sp H. by apply not_elem_of_nil in H. }
  do 2 wp_step. destruct (negb ((nth i (huge_slots s) (0, 0)).1 =? 0) && aged (nth i (huge_slots s) (0, 0)).2) eqn:E; [|by apply IH].
  apply andb_true_iff in E as [H0%negb_true_iff%Z.eqb_neq _]. pose proof (nth_slot _ _ H0) as Hi. destruct (nth i (huge_slots s) (0, 0)) as [sp t]. simpl in H0. cbn [fst snd].
  pose proof (iv_huge _ _ _ (iv_base _ _ _ I)) as Hok. assert (cached (huge_slots s) sp) as Hc by (split; [done|by exists i, (sp, t)]). destruct (hg_span _ _ Hok sp Hc) as (v & Hv & Hh).
  destruct (slot_clear _ _ i sp t Hok Hi H0) as [Hok' Hcl]. do 2 wp_step. do 2 wp_step.
  destruct (slots_step ∅ {[sp + SPAN_HEADER_SIZE]} st s (<[i := (0, t)]> (huge_slots s)) (u64 (huge_committed s - committed_size v)) I Hok') as [I1 K1].
  { intros q Hq. left. by apply Hcl. }
  { intros q Hq. rewrite Hcl. destruct (decide (q = sp)) as [->|Hne]; [right; set_solver|by left]. }
  { set_solver. }
  set (s1 := set_huge_committed _ _) in *. destruct Hp as [Hnd Hp]. assert (taken_out s1 (purge ++ [sp])) as Hp1.
  { split.
    - apply NoDup_app. split_and!; [done| |apply NoDup_singleton]. intros q Hq ->%list_elem_of_singleton. by destruct (Hp sp Hq).
    - intros q [Hq| ->%list_elem_of_singleton]%elem_of_app; (split; [|]).
      + destruct (Hp q Hq) as [Hn _]. intros [Hn' _]%Hcl. done.
      + by destruct (Hp q Hq).
      + by intros [_ ?]%Hcl.
      + by exists v. }
  apply IH; [done|done|]. intros l s2 I2 Hp2 Hl2 Hc2 Es2 K2. rewrite <- app_assoc in *. apply HQ; [done|done| | |done|].
  - intros q [-> |Hq]%elem_of_cons; [done|]. by apply Hl2, Hcl in Hq as [? _].
  - intros q Hq. by apply Hc2, Hcl in Hq as [? _].
  - eapply kept_weaken; [exact (kept_trans _ _ _ _ _ _ _ _ _ _ K1 K2)|set_solver| |set_solver].
    intros b Hb. apply elem_of_headers. apply elem_of_union in Hb as [Hb|Hb].
    + apply elem_of_headers in Hb as (q & -> & Hq). exists q. split; [done|by right].
    + exists sp. split; [set_solver|by left].
Qed.

Lemma wp_unmap_spans (Q : unit -> state -> Prop) l st s :
  Inv None st s -> taken_out s l ->
  (forall s', Inv None st s' -> huge_slots s' = huge_slots s -> (forall sp, sp ∉ l -> spans s' !! sp = spans s !! sp) -> kept (headers l) ∅ st s st s' -> Q tt s') ->
  wp (unmap_spans l) Q s.
Proof.
  revert s Q. induction l as [|sp l IH]; intros s Q I [Hnd Hl] HQ; cbn [unmap_spans]; [wp_step; apply HQ; [done..|apply kept_refl]|].
  apply NoDup_cons in Hnd as [Hni Hnd]. destruct (Hl sp) as [Hc (v & Hv & Hh)]; [by left|]. do 3 wp_step. unfold unmap_memory, wp at 1.
  destruct (unmap_step I sp v Hv Hh Hc) as (I1 & K1 & Es). set (s1 := set_pages _ _) in *. apply IH; [done| |].
  - split; [done|]. intros q Hq. destruct (Hl q) as [Hc' Hv']; [by right|]. split; [done|]. rewrite Es, lookup_delete_ne; [done|]. by intros <-.
  - intros s2 I2 Eh2 Es2 K2. apply HQ; [done|done| |].
    + intros q [Hne Hq]%not_elem_of_cons. rewrite Es2, Es by done. by apply lookup_delete_ne.
    + eapply kept_weaken; [exact (kept_trans _ _ _ _ _ _ _ _ _ _ K1 K2)| |set_solver|].
      * intros b Hb. apply elem_of_headers. apply elem_of_union in Hb as [Hb|Hb]; [exists sp; split; [set_solver|by left]|]. apply elem_of_headers in Hb as (q & -> & Hq). exists q. split; [done|by right].
      * intros b Hb. apply elem_of_headers in Hb as (q & -> & [-> |Hq]%elem_of_cons); [set_solver|]. apply elem_of_union_l, elem_of_union_r, elem_of_headers. by exists q.
Qed.

Lemma wp_purge_aged (Q : unit -> state -> Prop) now st s sp v :
  Inv None st s -> spans s !! sp = Some v -> ~ cached (huge_slots s) sp ->
  (forall s', Inv None st s' -> spans s' !! sp = Some v -> ~ cached (huge_slots s') sp -> kept ∅ ∅ st s st s' -> Q tt s') -> wp (huge_cache_purge_aged now) Q s.
Proof.
  intros I Hv Hc HQ. unfold huge_cache_purge_aged. apply wp_bind, (wp_purge_slots _ _ _ _ _ st); [done|split; [apply NoDup_nil_2|]; intros q Hq; by apply not_elem_of_nil in Hq|].
  intros l s1 I1 Hp1 Hl1 Hc1 Es1 K1. simpl in *. apply (wp_unmap_spans _ _ st); [done|done|]. intros s2 I2 Eh2 Es2 K2. apply HQ; [done| | |].
  - rewrite Es2, Es1; [done|]. intros Hsp. by apply Hc, Hl1.
  - rewrite Eh2. intros H. by apply Hc, Hc1.
  - eapply kept_hidden; [exact K1|exact K2|]. intros b n al (q & -> & Hq)%elem_of_headers. destruct (hg_span _ _ (iv_huge _ _ _ (iv_base _ _ _ I)) q (Hl1 q Hq)) as (w & Hw & Hh).
    eapply cached_not_live; [apply I|exact Hw|exact Hh|by apply Hl1].
Qed.

Lemma free_slot_found n i sl k : free_slot n i sl = Some k -> (k < i + n)%nat /\ (nth k sl (0, 0)).1 = 0.
Proof.
  revert i. induction n as [|n IH]; intros i H; [done|]. simpl in H. destruct (Z.eqb_spec (nth i sl (0, 0)).1 0); [injection H as <-; split; [lia|done]|].
  destruct (IH (S i) H) as [H1 H2]. split; [lia|done].
Qed.

Lemma wp_time (Q : Z -> state -> Prop) st s : Inv None st s -> (forall now s', Inv None st s' -> kept ∅ ∅ st s st s' -> spans s' = spans s -> huge_slots s' = huge_slots s -> Q now s') -> wp current_time Q s.
Proof.
  intros I HQ. unfold current_time, wp. pose proof (fun x => time_mapped (kernel s) x) as Hk. destruct (monotonic_time_ms (kernel s)) as [now k']. destruct (kernel_step None st s k' I Hk) as [I' K']. by apply HQ.
Qed.

(** A huge block goes to the cache or back to the operating system. *)
Lemma wp_deallocate_span (Q : unit -> state -> Prop) st s sp v :
  Inv None st s -> spans s !! sp = Some v -> span_page_type v = PAGE_HUGE -> ~ cached (huge_slots s) sp ->
  (forall s1, Inv None st s1 -> kept {[sp + SPAN_HEADER_SIZE]} ∅ st s st s1 -> Q tt s1) ->
  wp (cached ← huge_cache_push sp; when (negb cached) (s ← get_span sp; unmap_memory sp (span_offset s) (span_mapped_size s))) Q s.
Proof.
  intros I Hv Hh Hc HQ.
  assert (forall s', Inv None st s' -> spans s' !! sp = Some v -> ~ cached (huge_slots s') sp -> kept ∅ ∅ st s st s' ->
    wp (when (negb false) (s ← get_span sp; unmap_memory sp (span_offset s) (span_mapped_size s))) Q s') as Hunmap.
  { intros s' I' Hv' Hc' K'. cbn [negb when]. do 2 wp_step. unfold unmap_memory, wp. destruct (unmap_step I' sp v Hv' Hh Hc') as (I1 & K1 & _). apply HQ; [exact I1|]. by eapply kept_before. }
  apply wp_bind. unfold huge_cache_push. do 2 wp_step. destruct (HUGE_CACHE_ENTRY_LIMIT <? committed_size v); [wp_step; apply Hunmap; [done..|apply kept_refl]|].
  apply wp_bind, (wp_time _ st); [done|]. intros now s1 I1 K1 Es1 Eh1. apply wp_bind, (wp_purge_aged _ now st s1 sp v); [done|congruence|congruence|]. intros s2 I2 Hv2 Hc2 K2.
  assert (kept ∅ ∅ st s st s2) as K02 by (by eapply kept_after). do 2 wp_step. destruct (u64 (huge_committed s2 + committed_size v) <=? HUGE_CACHE_COMMITTED_LIMIT); [|wp_step; by apply Hunmap].
  do 2 wp_step. destruct (free_slot HUGE_CACHE_SLOT_COUNT 0 (huge_slots s2)) as [i|] eqn:Ei; [|wp_step; by apply Hunmap].
  do 3 wp_step. cbn [negb when]. wp_step. destruct (free_slot_found _ _ _ _ Ei) as [Hi0 Hi]. pose proof (iv_huge _ _ _ (iv_base _ _ _ I2)) as Hok.
  destruct (lookup_lt_is_Some_2 (huge_slots s2) i) as [w Hw]; [rewrite (hg_length _ _ Hok); lia|]. rewrite (nth_lookup_Some _ _ _ _ Hw) in Hi.
  destruct (so_address _ _ _ _ (iv_spans _ _ _ (iv_base _ _ _ I2)) sp v Hv2) as (A1 & A2 & _).
  destruct (slot_set _ _ i sp now Hok ltac:(by exists w) ltac:(lia) Hc2 ltac:(by exists v)) as [Hok' Hcl].
  destruct (slots_step {[sp + SPAN_HEADER_SIZE]} ∅ st s2 (<[i := (sp, now)]> (huge_slots s2)) (u64 (huge_committed s2 + committed_size v)) I2 Hok') as [I3 K3].
  { intros q [Hq| ->]%Hcl; [by left|right; set_solver]. }
  { intros q Hq. left. apply Hcl. by left. }
  { intros b ->%elem_of_singleton. exists sp. split; [done|]. apply Hcl. by right. }
  apply HQ; [exact I3|]. by eapply kept_before.
Qed.

(** ** Freeing a block *)

(** The addresses by which the program frees a block. *)
Definition freeable (b n : Z) (al : bool) (x : Z) : Prop := x = b \/ al = true /\ b <= x < b + n /\ x < b + RPMALLOC_MAX_ALIGNMENT.

Lemma wp_deallocate thread (Q : unit -> state -> Prop) st s b n al x :
  Inv None st s -> live st s b n al -> freeable b n al x -> (forall st1 s1, Inv None st1 s1 -> kept {[b]} ∅ st s st1 s1 -> Q tt s1) -> wp (block_deallocate thread x) Q s.
Proof.
  intros I [Hb|Hb] Hx HQ; [eapply wp_deallocate_class; [exact I|exact Hb|unfold freeable in Hx; tauto|intros st1 s1 I1 K1 _; by apply (HQ st1 s1)]|].
  pose proof (iv_base _ _ _ I) as IB. destruct Hb as (sp & v & Hs & Hh & Hc & -> & -> & ->). pose proof (iv_spans _ _ _ IB) as O.
  destruct (so_huge _ _ _ _ O sp v Hs Hh) as (Emask & Hlen & r & Hr & Ht & Hg). destruct (so_address _ _ _ _ O sp v Hs) as (A1 & A2 & A3 & A4).
  assert (sp <= x < sp + 2 ^ 24) as Hsp by (unfold freeable, SPAN_HEADER_SIZE, PAGE_HEADER_SIZE, RPMALLOC_MAX_ALIGNMENT in *; lia).
  assert (sp <= x < sp + SPAN_SIZE) as Hsp' by (unfold SPAN_SIZE in *; lia). assert (x < 2 ^ 64) as Hx64 by (unfold freeable, SPAN_HEADER_SIZE, PAGE_HEADER_SIZE in *; lia).
  unfold block_deallocate, block_page. rewrite (span_mask None st s sp v x IB Hs Hsp' Hx64). do 4 wp_step. unfold span_get_page_from_block. rewrite Emask.
  assert (Z.land x LARGE_PAGE_MASK = sp) as ->.
  { change LARGE_PAGE_MASK with (mask (2 ^ 24)). apply land_mask_base; [lia|lia|lia| |lia]. apply Z.mod_divide in A3 as [j ->]; [|done]. change SPAN_SIZE with (16 * 2 ^ 24). rewrite Z.mul_assoc. apply Z.mod_mul. lia. }
  destruct (iv_heap _ _ _ IB sp r Hr) as [h Hhp]. unfold page_is_thread_heap, heap_is_thread_heap. do 5 wp_step. wp_step. do 2 wp_step. rewrite Hg. cbn [negb]. rewrite andb_false_r.
  unfold span_deallocate_block. do 2 wp_step. rewrite Ht. cbn [is_huge]. eapply wp_deallocate_span; [exact I|exact Hs|exact Hh|exact Hc|]. apply HQ.
Qed.
End Huge.
End RpHuge.
