(* ===== verification/RpAlloc.v ===== *)
(** * Allocating blocks

    [heap_get_page], and the functions of the interface on it. *)
From stdpp Require Import functions.
From S2P Require Import Prelude RpState Rpmalloc RpSize RpWp RpBlocks RpLists RpInv RpLive RpPage RpFree RpKeeps RpDealloc RpDefer RpBirth RpSpan RpHuge.

Module RpAlloc.
Import RpState Rpmalloc RpSize RpWp RpBlocks RpLists RpInv RpLive RpPage RpFree RpKeeps RpDealloc RpDefer RpBirth RpSpan RpHuge.

Section Alloc.
Context `{HC : !Config} `{HM : !MemoryInterface} `{HL : !MemoryLaws} `{HG : !ConfigLaws} (thread : Z).

(** ** A page with a block *)

(** A heap that the thread may use. *)
Definition own_heap (s : state) (hp : Z) : Prop := exists h, heaps s !! hp = Some h /\ id h <> 0 /\ (owner_thread h = 0 \/ owner_thread h = thread).

Lemma own_heap_calm s s' hp : calm s s' -> own_heap s hp -> own_heap s' hp.
Proof. intros [_ H] (h & Hh & Hi & Ho). destruct (H hp h Hh) as (h' & Hh' & E1 & E2). exists h'. by rewrite E1, E2. Qed.

(** Page [p] has room for a block of class [c]. *)
Definition got (st : gmap Z status) (s : state) (c p : Z) (st' : gmap Z status) (s' : state) : Prop :=
  Inv None st' s' /\ kept ∅ ∅ st s st' s' /\ exists r, pages s' !! p = Some r /\ in_use r /\ is_full r = false /\ size_class r = c /\ block_size r = bsize c /\ p <> 0.

Lemma as_free_id p r s : pages s !! p = Some r -> is_free r = true -> as_free p r s = s.
Proof.
  intros Hp Hf. unfold as_free. assert (set_is_free true r = r) as -> by (destruct r; simpl in *; by subst). rewrite insert_id by done. by destruct s.
Qed.

(** The first of the available pages. *)
Lemma available_got st s hp h c : Inv None st s -> heaps s !! hp = Some h -> page_available h c <> 0 -> got st s c (page_available h c) st s.
Proof using Type.
  intros I Hh H0. pose proof I as [IB L]. destruct (lk_available _ _ _ L hp (page_lists h) ltac:(by rewrite lookup_fmap, Hh) c) as (l & Hs & _ & Hl). cbn [page_lists fst] in Hs.
  destruct l as [|p l]; [done|]. destruct Hs as (E & _). rewrite E. destruct (proj1 (proj2 Hl p)) as (_ & r & Hr & Hpl); [left|]. destruct (place_available r hp c Hpl) as (Hu & Hf & _ & Ec).
  split; [done|split; [apply kept_refl|]]. exists r. split; [exact Hr|split; [exact Hu|split; [exact Hf|split; [by symmetry|split; [|congruence]]]]]. rewrite (ok_size _ (page_is_ok IB p r Hr Hu)). by rewrite <- Ec.
Qed.

(** A page that has arrived gets its class. *)
Lemma wp_make_here {A} (k : bool -> M A) (Q : A -> state -> Prop) st s s' p hp c :
  arrived st s p hp (get_page_type c) s' -> class_ok c -> (forall s1, got st s c p st s1 -> wp (k false) Q s1) -> wp (failed ← heap_make_free_page_available hp c p; k failed) Q s'.
Proof using Type.
  intros (r & Hp & Et & Eh & Hp0 & [h Hh] & IB & L & K) Hc HQ. apply wp_bind. eapply (wp_make_available _ st s' p r hp c h); [exact Hp|exact IB|exact L|exact Hh|exact Hc|exact Et|].
  intros s1 r1 I1 K1 Hp1 Hu1 Hf1 Hc1 Hb1. apply HQ. split; [done|split; [by eapply kept_after|]]. exists r1. split; [done|split; [done|split; [done|split; [done|split; [done|lia]]]]].
Qed.

Lemma wp_make_got {A} (k : bool -> M A) (Q : A -> state -> Prop) st s s' p hp c :
  arrived st s p hp (get_page_type c) s' -> class_ok c -> (forall s1, got st s c p st s1 -> wp (k false) Q s1) ->
  wp (r ← get_page p; failed ← heap_make_free_page_available (page_heap r) c p; k failed) Q s'.
Proof using Type. intros Har Hc HQ. pose proof Har as (r & Hp & _ & Eh & _). do 2 wp_step. rewrite Eh. by eapply wp_make_here. Qed.

(** A free page leaves its list. *)
Lemma pop_free_step st s hp h t :
  Inv None st s -> heaps s !! hp = Some h -> page_free h t <> 0 ->
  exists r, pages s !! page_free h t = Some r /\ forall h1, heap_core h1 = heap_core h -> page_available h1 = page_available h -> page_free h1 = <[t := page_next r]> (page_free h) ->
    arrived st s (page_free h t) hp t (set_heaps (<[hp := h1]> (heaps s)) s).
Proof using Type.
  intros [I L] Hh H0. set (p := page_free h t) in *. assert ((page_lists <$> heaps s) !! hp = Some (page_lists h)) as Hv by (by rewrite lookup_fmap, Hh).
  destruct (lists_pop_free p hp (page_lists h) Hv H0 t L eq_refl) as (r & Hr & Hpl & L1). destruct (place_free r hp t Hpl) as (Et & Eh & Hf & Ht). exists r. split; [done|]. intros h1 E1 E2 E3. set (s1 := set_heaps _ s).
  assert (links_only s s1) as Hlo by (split; [done|by eapply heap_core_insert|done|done]). exists r. assert (pages s1 !! p = Some r) as Hp1 by done. rewrite (as_free_id p r s1 Hp1 Hf).
  assert (page_type r <> PAGE_HUGE) as Ht' by congruence. destruct (page_address I p r Hr Ht') as (A1 & _).
  split_and!; [done..|eexists; apply lookup_insert_eq|by eapply links_base| |by apply links_kept]. simpl. rewrite fmap_insert.
  assert (page_lists h1 = free_set t (page_next r) (page_lists h)) as -> by (unfold page_lists, free_set; simpl; by rewrite E2, E3). exact L1.
Qed.

Lemma got_before st0 s0 st1 s1 c p st' s' : kept ∅ ∅ st0 s0 st1 s1 -> got st1 s1 c p st' s' -> got st0 s0 c p st' s'.
Proof using Type. intros K (I & K' & H). split; [done|split; [by eapply kept_before|done]]. Qed.

(** Without blocks that other threads have freed. *)
Lemma wp_heap_get_page_now (Q : Z -> state -> Prop) fuel st s hp h c :
  Inv None st s -> heaps s !! hp = Some h -> id h <> 0 -> class_ok c -> heap_thread_free h (get_page_type c) = 0 ->
  (forall p s', got st s c p st s' -> Q p s') -> (forall s', Inv None st s' -> kept ∅ ∅ st s st s' -> Q 0 s') -> wp (heap_get_page thread (S fuel) hp c) Q s.
Proof using HG.
  intros I Hh Hid Hc H0 HQ HQ0. cbn [heap_get_page]. destruct (class_geometry c Hc) as (_ & _ & _ & _ & Ht & _). set (t := get_page_type c) in *. do 2 wp_step.
  destruct (Z.eqb_spec (page_available h c) 0) as [|Hav]; cbn [negb]; [|wp_step; apply HQ; by eapply available_got]. cbv zeta. rewrite H0. change (0 =? 0) with true. cbn [negb].
  assert (forall p s1, arrived st s p hp t s1 -> wp (r ← get_page p; failed ← heap_make_free_page_available (page_heap r) c p; mret (if (failed : bool) then 0 else p)) Q s1) as Hopen.
  { intros p s1 Har. eapply (wp_make_got (fun failed : bool => mret (if failed then 0 else p)) Q st s s1 p hp c Har Hc). intros s2 Hg. wp_step. by apply HQ. }
  destruct (Z.eqb_spec (page_free h t) 0) as [Hf0|Hf0]; cbn [negb].
  - rewrite (proj2 (Z.eqb_neq (id h) 0)) by done. destruct (Z.eqb_spec (span_partial h t) 0) as [Hsp|Hsp].
    + apply (wp_fresh_page _ 0 Q st s hp h t I Hh Ht Hsp HQ0). exact Hopen.
    + apply wp_bind. unfold heap_get_span. do 2 wp_step. rewrite (proj2 (Z.eqb_neq (span_partial h t) 0)) by done. cbn [negb]. wp_step. rewrite (proj2 (Z.eqb_neq (span_partial h t) 0)) by done.
      apply wp_bind. by eapply (wp_partial_page I hp h t _ Hh Ht eq_refl Hsp).
  - destruct (pop_free_step st s hp h t I Hh Hf0) as (r & Hr & Harr). set (p := page_free h t) in *. do 4 wp_step. apply wp_bind, wp_when; intros _.
    + eapply wp_upd_heap; [wp_simpl; apply lookup_insert_eq|]. wp_simpl. rewrite insert_insert_eq. eapply (wp_make_here (fun failed : bool => mret (if failed then 0 else p))); [by apply Harr|done|]. intros s2 Hg. wp_step. by apply HQ.
    + eapply (wp_make_here (fun failed : bool => mret (if failed then 0 else p))); [by apply Harr|done|]. intros s2 Hg. wp_step. by apply HQ.
Qed.

Lemma wp_heap_get_page (Q : Z -> state -> Prop) fuel st s hp c :
  Inv None st s -> own_heap s hp -> class_ok c -> (max_blocks s + 2 <= fuel)%nat ->
  (forall p st' s', got st s c p st' s' -> Q p s') -> (forall st' s', Inv None st' s' -> kept ∅ ∅ st s st' s' -> Q 0 s') -> wp (heap_get_page thread fuel hp c) Q s.
Proof using HG.
  intros I Hown Hc Hfuel HQ HQ0. pose proof Hown as (h & Hh & Hid & Ho). destruct (class_geometry c Hc) as (_ & _ & _ & _ & Ht & _).
  destruct fuel as [|fuel]; [lia|]. destruct (Z.eq_dec (heap_thread_free h (get_page_type c)) 0) as [H0|H0].
  { apply (wp_heap_get_page_now Q fuel st s hp h c I Hh Hid Hc H0); [intros p s' Hg; by eapply HQ|intros s' I' K'; by eapply HQ0]. }
  cbn [heap_get_page]. set (t := get_page_type c) in *. do 2 wp_step. destruct (Z.eqb_spec (page_available h c) 0) as [|Hav]; cbn [negb]; [|wp_step; eapply HQ; by eapply available_got]. cbv zeta.
  rewrite (proj2 (Z.eqb_neq _ 0)) by done. cbn [negb]. do 3 wp_step. destruct (release_step thread st s hp h t I Hh Ho) as (st1 & l & I1 & K1 & Hch & Hnd & Hlen & Hheld & Hnot). set (s1 := set_heaps _ s) in *.
  apply wp_deferred_loop with (l := l) (st := st1); [done|exact Hch|done|done|lia|]. intros st2 s2 I2 K2 Hstill. assert (kept ∅ ∅ st s st2 s2) as K by (by eapply kept_hidden).
  destruct (own_heap_calm s s2 hp (kp_calm _ _ _ _ _ _ K) Hown) as (h2 & Hh2 & Hid2 & _). destruct fuel as [|fuel]; [lia|].
  apply (wp_heap_get_page_now Q fuel st2 s2 hp h2 c I2 Hh2 Hid2 Hc).
  - injection Hstill as E _ _ _. apply (f_equal (fun m => m !! hp)) in E. rewrite !lookup_fmap, Hh2 in E. simpl in E. rewrite lookup_insert_eq in E. injection E as E. rewrite E. apply fn_lookup_insert.
  - intros p s' Hg. eapply HQ. by eapply got_before.
  - intros s' I' K'. eapply HQ0; [exact I'|by eapply kept_before].
Qed.

(** ** Blocks of a class *)

(** Block [b] of at least [n] bytes has been allocated, and is zero when [zero] says so. *)
Record given (st : gmap Z status) (s : state) (n : Z) (zero : bool) (b : Z) (st' : gmap Z status) (s' : state) : Prop := {
  gv_inv : Inv None st' s';
  gv_kept : kept {[b]} {[b]} st s st' s';
  gv_new k al : ~ live st s b k al;
  gv_live : exists k al, live st' s' b k al /\ n <= k;
  gv_aligned : 0 < b /\ b mod 16 = 0;
  gv_zero : zero = true -> forall x, b <= x < b + n -> mem s' x = 0 }.

Lemma given_before st0 s0 st1 s1 n zero b st' s' : kept ∅ ∅ st0 s0 st1 s1 -> given st1 s1 n zero b st' s' -> given st0 s0 n zero b st' s'.
Proof using HG.
  intros K [G1 G2 G3 G4 G5 G6]. split; try done; [by eapply kept_before|]. intros k al Hb. destruct (kp_keep _ _ _ _ _ _ K b k al Hb) as (al' & Hb' & _); [set_solver|]. by apply (G3 k al').
Qed.

Lemma given_weaken st s n n' zero b st' s' : n' <= n -> given st s n zero b st' s' -> given st s n' zero b st' s'.
Proof using HG. intros Hn [G1 G2 G3 (k & al & Hl & Hk) G5 G6]. split; try done; [exists k, al; split; [done|lia]|]. intros Hz x Hx. apply G6; [done|lia]. Qed.

(** A block of the heap's own list. *)
Lemma pop_local_step st s hp h c :
  Inv None st s -> heaps s !! hp = Some h -> class_ok c -> heap_local_free h c <> 0 ->
  let b := heap_local_free h c in
  let s1 := set_heaps (<[hp := set_heap_local_free (<[c := word (mem s) b]> (heap_local_free h)) h]> (heaps s)) s in
  exists st1 al, Inv None st1 s1 /\ kept ∅ {[b]} st s st1 s1 /\ (forall k al, ~ live st s b k al) /\ class_live st1 s1 b (bsize c) al.
Proof using HG.
  intros [I L] Hh Hc H0 b s1. set (h1 := set_heap_local_free _ h) in s1. assert ((block_lists <$> heaps s) !! hp = Some (block_lists h)) as Hv by (by rewrite lookup_fmap, Hh).
  destruct (blocks_pop_heap (iv_blocks _ _ _ I) hp c _ Hv H0) as [IB1 Hst]. cbn [block_lists fst snd] in IB1, Hst. fold b in IB1, Hst. set (st1 := <[b := Live]> st) in *.
  assert (hview <$> heaps s1 = hview <$> heaps s) as Hhv by (by apply (heap_insert_view hview (heaps s) hp h h1)).
  destruct (status_page I b _ Hst) as (p & r & Hp & Hu & Hok & Hm & [E1 E2]).
  assert (forall k al, ~ live st s b k al) as Hnew.
  { intros k al [[Hb _]|Hb]; [congruence|]. by apply (member_not_huge I p r b k al Hp Hu Hm). }
  assert (class_live st1 s1 b (bsize c) (has_aligned_block r)) as Hlive.
  { split; [apply lookup_insert_eq|]. exists p, r. split; [exact Hp|split; [exact Hu|split; [exact Hm|split; [|done]]]]. rewrite (ok_size _ Hok). by rewrite E2. }
  exists st1, (has_aligned_block r). split_and!; [split| |done|done].
  - eapply base_frame; [exact I|by constructor|by intros x Hx| |apply I]. simpl. rewrite fmap_insert. exact IB1.
  - simpl. assert (page_lists <$> <[hp := h1]> (heaps s) = page_lists <$> heaps s) as -> by (by eapply heap_insert_view). exact L.
  - assert (forall b' k al, class_live st1 s1 b' k al <-> class_live st s b' k al \/ b' = b /\ class_live st1 s1 b' k al) as Hcl.
    { intros b' k al. destruct (decide (b' = b)) as [->|Hne]; [split; [by right|intros [Hb|[_ Hb]]; [by destruct (Hnew k al); left|done]]|]. unfold class_live, st1. rewrite lookup_insert_ne by done. split; [by left|by intros [?|[? _]]]. }
    constructor; [|done| |set_solver|by apply hview_calm].
    + intros b' k al [Hb|Hb] _; exists al; (split; [|done]); [left; apply Hcl; by left|by right].
    + intros b' k al [Hb|Hb]; [|right; exists al; by right]. apply Hcl in Hb as [Hb|[-> _]]; [right; exists al; by left|left; set_solver].
Qed.

(** The program may have the whole block zeroed. *)
Lemma given_zeroed st s st1 s1 n (zero : bool) b k al (m' : Z -> Z) :
  Inv None st1 s1 -> kept {[b]} {[b]} st s st1 s1 -> (forall k al, ~ live st s b k al) -> live st1 s1 b k al -> n <= k -> 0 < b /\ b mod 16 = 0 ->
  (forall x, m' x <> mem s1 x -> b <= x < b + k) -> (zero = true -> forall x, b <= x < b + n -> m' x = 0) -> given st s n zero b st1 (set_mem m' s1).
Proof using HG.
  intros [I L] K Hnew Hl Hn Hb Hm Hz. destruct (live_write I b k al m' Hl Hm) as [I2 K2]. split; [by split|by eapply kept_twice|done| |done|done]. exists k, al. split; [exact Hl|done].
Qed.

Lemma class_block st s b n al : Base None st s -> class_live st s b n al -> 0 < b /\ b mod 16 = 0.
Proof using Type. intros I [Hb _]. destruct (block_range (iv_blocks _ _ _ I) b _ Hb) as [H1 H2]. split; [lia|done]. Qed.

(** A block of a page with room. *)
Lemma wp_page_given (Q : Z -> state -> Prop) st s c p zero st1 s1 :
  got st s c p st1 s1 -> (forall b st' s', given st s (bsize c) zero b st' s' -> Q b s') -> wp (page_allocate_block p zero) Q s1.
Proof using HG.
  intros (I1 & K1 & r & Hp & Hu & Hf & _ & Hbs & _) HQ. eapply (wp_keeps still); [apply keeps_allocate_block|]. eapply wp_page_allocate_block; [exact I1|exact Hp|exact Hu|exact Hf|].
  intros b al s2 st2 I2 K2 Hnew Hlive Hz Hnh Hstill. apply (HQ b st2). rewrite Hbs in *. eapply given_before; [exact K1|]. pose proof (iv_base _ _ _ I2) as IB2. injection Hstill as _ _ Es Eh.
  assert (class_live st2 s2 b (bsize c) al) as Hc by (destruct Hlive as [|(sp & v & Hs & Hh & _ & E & _)]; [done|by destruct (Hnh sp v Hs Hh)]).
  split; [exact I2|exact K2| |exists (bsize c), al; split; [by left|lia]|by eapply class_block|exact Hz].
  intros k al' [[Hb _]|(sp & v & Hs & Hh & _ & -> & _)]; [done|]. rewrite <- Es in Hs. by apply (Hnh sp v Hs Hh).
Qed.

Lemma wp_allocate_class (Q : Z -> state -> Prop) fuel st s hp c zero :
  Inv None st s -> own_heap s hp -> class_ok c -> (max_blocks s + 2 <= fuel)%nat ->
  (forall b st' s', given st s (bsize c) zero b st' s' -> Q b s') -> (forall st' s', Inv None st' s' -> kept ∅ ∅ st s st' s' -> Q 0 s') ->
  wp (heap_allocate_class thread fuel hp c zero) Q s.
Proof using HG.
  intros I Hown Hc Hfuel HQ HQ0. pose proof Hown as (h & Hh & _). destruct (class_geometry c Hc) as (Hbs & _ & _ & _ & _ & [cl Ecl]).
  assert (class_block_size cl = bsize c) as Esz by (unfold bsize; by rewrite Ecl).
  unfold heap_allocate_class, heap_pop_local_free. apply wp_bind. do 2 wp_step. destruct (Z.eqb_spec (heap_local_free h c) 0) as [H0|H0].
  - wp_step. change (negb (0 =? 0)) with false. cbn iota. unfold heap_allocate_block_small_to_large. apply wp_bind, (wp_heap_get_page _ fuel st s hp c I Hown Hc Hfuel).
    + intros p st1 s1 Hg. pose proof Hg as (_ & _ & r & _ & _ & _ & _ & _ & Hp0). rewrite (proj2 (Z.eqb_neq p 0)) by done. eapply wp_page_given; [exact Hg|exact HQ].
    + intros st1 s1 I1 K1. change (0 =? 0) with true. cbn iota. wp_step. by eapply HQ0.
  - destruct (pop_local_step st s hp h c I Hh Hc H0) as (st1 & al & I1 & K1 & Hnew & Hlive). set (b := heap_local_free h c) in *.
    apply wp_bind, wp_load; [done|]. fold (word (mem s) b). do 3 wp_step. rewrite (proj2 (Z.eqb_neq b 0)) by done. cbn [negb]. rewrite Ecl, Esz. set (s1 := set_heaps _ s) in *.
    assert (kept {[b]} {[b]} st s st1 s1) as K1' by (eapply kept_weaken; [exact K1|set_solver..]). pose proof (class_block st1 s1 b _ _ (iv_base _ _ _ I1) Hlive) as Hb.
    apply wp_bind, wp_when; intros Hz; [do 2 wp_step|wp_step].
    + apply (HQ b st1). eapply (given_zeroed st s st1 s1 (bsize c) zero b (bsize c) al); [done|done|done|by left|lia|done| |].
      * intros x Hx. destruct (decide (b <= x < b + bsize c)); [lia|]. destruct Hx. apply fill_other. lia.
      * intros _ x Hx. by apply fill_in.
    + apply (HQ b st1). split; [done|done|done|exists (bsize c), al; split; [by left|lia]|done|by rewrite Hz].
Qed.
End Alloc.
End RpAlloc.
