(* ===== verification/RpHugeAlloc.v ===== *)
(** * Allocating huge blocks

    [huge_cache_pop] and [heap_allocate_block_huge]. *)
From stdpp Require Import functions.
From S2P Require Import Prelude RpState Rpmalloc RpSize RpWp RpBlocks RpLists RpInv RpLive RpPage RpFree RpDealloc RpBirth RpSpan RpHuge RpAlloc.

Module RpHugeAlloc.
Import RpState Rpmalloc RpSize RpWp RpBlocks RpLists RpInv RpLive RpPage RpFree RpDealloc RpBirth RpSpan RpHuge RpAlloc.

Section HugeAlloc.
Context `{HC : !Config} `{HM : !MemoryInterface} `{HL : !MemoryLaws} `{HG : !ConfigLaws} (thread : Z).

(** ** Sizes *)

(** Sizes that a span's count of pages can hold: 8 TiB and less. *)
Definition max_size : Z := 2 ^ 43.

Lemma aligned_size n : 0 <= n <= max_size + SPAN_HEADER_SIZE ->
  let a := get_page_aligned_size n in n <= a < n + config_page_size /\ u32 config_page_size * u32 (a / config_page_size) = a /\ 0 < config_page_size.
Proof using HG.
  intros Hn. destruct page_size_bits as (k & Hk & E). unfold get_page_aligned_size, max_size, SPAN_HEADER_SIZE, PAGE_HEADER_SIZE in *. rewrite E. assert (2 ^ 12 <= 2 ^ k <= 2 ^ 30) as Hp by (split; apply Z.pow_le_mono_r; lia).
  set (c := 2 ^ k) in *. pose proof (Z.mod_pos_bound n c ltac:(lia)) as Hm. pose proof (Z.div_mod n c ltac:(lia)) as Hd. pose proof (Z.div_pos n c ltac:(lia) ltac:(lia)) as Hd0.
  assert (n / c <= 2 ^ 31 + 1) as Hdc by (apply Z.div_le_upper_bound; [lia|]; nia). destruct (Z.eqb_spec (n mod c) 0) as [H0|H0].
  - split_and!; [lia|lia| |lia]. rewrite !wrap_small by lia. lia.
  - rewrite (wrap_small 64) by lia. split_and!; [lia|lia| |lia]. replace (n + (c - n mod c)) with ((n / c + 1) * c) by lia. rewrite Z.div_mul by lia. rewrite !wrap_small by lia. lia.
Qed.

(** ** The headers of a huge span *)

Lemma huge_page_step st s sp r r' :
  Inv None st s -> pages s !! sp = Some r -> page_type r = PAGE_HUGE -> page_type r' = PAGE_HUGE -> generic_free r' = true -> page_next r' = page_next r -> page_prev r' = page_prev r -> is_Some (heaps s !! page_heap r') ->
  Inv None st (set_pages (<[sp := r']> (pages s)) s) /\ kept ∅ ∅ st s st (set_pages (<[sp := r']> (pages s)) s).
Proof using HG.
  intros [I L] Hr Ht Ht' Hg En Epv Hh. pose proof I as [I1 I2 I3 I4 I5 I6 I7 I8]. assert (generic_free r = true) as Hg0.
  { destruct (so_page _ _ _ _ I4 sp r Hr) as (sq & w & Hw & E & H). rewrite <- E, Ht in H. simpl in H. subst sq. rewrite Ht in E. destruct (so_huge _ _ _ _ I4 sp w Hw (eq_sym E)) as (_ & _ & r0 & Hr0 & _ & ?). congruence. }
  assert (forall q w, <[sp := r']> (pages s) !! q = Some w -> page_type w <> PAGE_HUGE -> pages s !! q = Some w) as Hback by (by intros q w [[<- <-]|[Hne Hq]]%lookup_insert_Some Hw).
  set (s1 := set_pages _ s). split; [split|].
  - constructor; [| | | | |exact I6|exact I7|].
    + simpl. rewrite fmap_insert, <- insert_delete_eq. eapply blocks_add; [|by rewrite lookup_delete_eq|by intros [_ Hu]|by intros Hu].
      apply (blocks_remove I1). intros r0 Hr0 [_ Hu]. rewrite lookup_fmap, Hr in Hr0. injection Hr0 as <-. by apply Hu.
    + intros q w Hq Hu Hne. apply (I2 q w); [by apply Hback; [|apply Hu]|done|done].
    + intros q w Hq. simpl in Hq. apply lookup_insert_Some in Hq as [[<- <-]|[Hne Hq]]; [done|exact (I3 q w Hq)].
    + eapply spans_frame; [exact I4| |done|done]. simpl. rewrite fmap_insert. apply insert_id. rewrite lookup_fmap, Hr. simpl. unfold spview. by rewrite Ht, Ht', Hg, Hg0.
    + intros q w Hq Hw. apply (I5 q w); [by apply Hback|done].
    + destruct I8 as [T1 T2 T3 T4 T5 T6 T7 T8]. by constructor.
  - eapply lists_frame; [|exact L]. intros q _. simpl. destruct (decide (q = sp)) as [->|Hne]; [|by rewrite lookup_insert_ne]. rewrite lookup_insert_eq, Hr. simpl. unfold list_view, place_of. by rewrite Ht, Ht', En, Epv.
  - assert (forall b n al, class_live st s1 b n al <-> class_live st s b n al) as Hcl.
    { intros b n al. split; intros [Hb (q & w & Hq & Hu & H)]; (split; [done|]); exists q, w.
      - split; [by apply Hback; [|apply Hu]|done].
      - split; [|done]. simpl. rewrite lookup_insert_ne; [done|]. intros <-. assert (w = r) as -> by congruence. by destruct Hu. }
    constructor; [|done| |set_solver|by apply hview_calm].
    + intros b n al [Hb|Hb] _; exists al; (split; [|done]); [left; by apply Hcl|by right].
    + intros b n al [Hb|Hb]; right; exists al; [left; by apply Hcl|by right].
Qed.

(** What [huge_span] makes of the headers, but for the list of the heap's spans. *)
Definition huge_header (hp : Z) (r : page_t) : page_t := set_page_type PAGE_HUGE (set_generic_free true (set_is_full true (set_page_heap hp (set_commit_on_demand false r)))).

Definition huge_fields (hp : Z) (from_cache : bool) (alloc_size offset n : Z) (v : span_t) : span_t :=
  let v := set_page_address_mask LARGE_PAGE_MASK (set_span_page_type PAGE_HUGE (set_span_heap hp v)) in
  if from_cache then v else set_span_mapped_size n (set_span_offset (u32 offset) (set_page_count (u32 (alloc_size / config_page_size)) (set_page_size (u32 config_page_size) v))).

Lemma wp_huge_span (Q : unit -> state -> Prop) hp sp from_cache alloc_size offset n st s r v :
  pages s !! sp = Some r -> spans s !! sp = Some v -> is_Some (heaps s !! hp) ->
  let s1 := set_spans (<[sp := huge_fields hp from_cache alloc_size offset n v]> (spans s)) (set_pages (<[sp := huge_header hp r]> (pages s)) s) in
  Inv None st s1 -> (forall s2, Inv None st s2 -> kept ∅ ∅ st s1 st s2 -> mem s2 = mem s1 -> huge_slots s2 = huge_slots s1 ->
     (exists v2, spans s2 !! sp = Some v2 /\ plain v2 = plain (huge_fields hp from_cache alloc_size offset n v)) -> Q tt s2) ->
  wp (huge_span hp sp from_cache alloc_size offset n) Q s.
Proof using HG.
  intros Hr Hv [h Hh] s1 I1 HQ. unfold huge_span. do 4 wp_step. apply wp_bind.
  assert (forall v', v' = huge_fields hp from_cache alloc_size offset n v ->
    wp (upd_page sp (fun r => set_page_type PAGE_HUGE (set_generic_free true (set_is_full true (set_page_heap hp r))));;
        h ← get_heap hp;
        when (owner_thread h =? 0) (upd_span sp (set_span_next (span_used h PAGE_HUGE));; upd_heap hp (fun h => set_span_used (<[PAGE_HUGE := sp]> (span_used h)) h)))
      Q (set_spans (<[sp := v']> (spans s)) (set_pages (<[sp := set_commit_on_demand false r]> (pages s)) s))) as Hrest.
  { intros v' ->. wp_step. eapply wp_upd_page; [wp_simpl; apply lookup_insert_eq|]. wp_simpl. rewrite insert_insert_eq. do 2 wp_step. apply wp_when; intros Ho.
    - wp_step. eapply wp_upd_span; [wp_simpl; apply lookup_insert_eq|]. wp_simpl. rewrite insert_insert_eq. eapply wp_upd_heap; [wp_simpl; exact Hh|].
      set (h2 := set_span_used _ h). set (v' := huge_fields _ _ _ _ _ v) in *. set (v2 := set_span_next _ v').
      destruct (spans_step None st s1 (<[sp := v2]> (spans s1)) (<[hp := h2]> (heaps s1)) (iv_base _ _ _ I1)) as (I2 & K2 & L2).
      + simpl. rewrite insert_insert_eq, !fmap_insert. done.
      + simpl. rewrite fmap_insert. apply insert_id. by rewrite lookup_fmap, Hh.
      + intros hp' h' t Hh' Ht H0. assert (exists h0, heaps s1 !! hp' = Some h0 /\ span_partial h' = span_partial h0) as (h0 & Hh0 & E0).
        { apply lookup_insert_Some in Hh' as [[<- <-]|[Hne Hh']]; [by exists h|by exists h']. }
        rewrite E0 in H0 |- *. destruct (iv_partial _ _ _ (iv_base _ _ _ I1) hp' h0 t Hh0 Ht H0) as (w & Hw & Et & E). exists w. split; [|done]. rewrite lookup_insert_ne; [done|]. intros E1. rewrite <- E1 in Hw.
        simpl in Hw. rewrite lookup_insert_eq in Hw. injection Hw as <-. apply Ht. rewrite <- Et. unfold v', huge_fields. by destruct from_cache.
      + set (s2 := set_spans _ _) in I2, K2. assert (spans s2 = <[sp := v2]> (spans s)) as Es2 by (simpl; apply insert_insert_eq).
        match goal with |- Q tt ?g => assert (g = s2) as -> by (unfold s2; simpl; rewrite insert_insert_eq; done) end.
        apply HQ; [split; [exact I2|]|exact K2|done|done|exists v2; rewrite Es2, lookup_insert_eq; done]. change (heaps s2) with (<[hp := h2]> (heaps s1)). rewrite L2. apply I1.
    - apply HQ; [exact I1|apply kept_refl|done|done|]. eexists. split; [apply lookup_insert_eq|done]. }
  apply wp_when; intros Hc.
  - destruct from_cache; [done|]. eapply wp_upd_span; [wp_simpl; apply lookup_insert_eq|]. wp_simpl. rewrite insert_insert_eq. by apply Hrest.
  - destruct from_cache; [|done]. by apply Hrest.
Qed.

(** ** The cache *)

Lemma wp_best_fit (Q : Z * Z * nat -> state -> Prop) n i alloc_size limit best bsz slot s :
  huge_ok (spans s) (huge_slots s) -> (best <> 0 -> (nth slot (huge_slots s) (0, 0)).1 = best /\ exists v, spans s !! best = Some v /\ alloc_size <= committed_size v) ->
  (forall best bsz slot, (best <> 0 -> (nth slot (huge_slots s) (0, 0)).1 = best /\ exists v, spans s !! best = Some v /\ alloc_size <= committed_size v) -> Q (best, bsz, slot) s) ->
  wp (best_fit n i alloc_size limit (best, bsz, slot)) Q s.
Proof using HG.
  intros Hok. revert i best bsz slot. induction n as [|n IH]; intros i best bsz slot Hb HQ; cbn [best_fit]; [wp_step; by apply HQ|].
  do 2 wp_step. destruct (Z.eqb_spec (nth i (huge_slots s) (0, 0)).1 0) as [H0|H0]; [by apply IH|]. set (q := (nth i (huge_slots s) (0, 0)).1) in *.
  destruct (hg_span _ _ Hok q) as (v & Hv & Hh). { split; [done|]. exists i, (nth i (huge_slots s) (0, 0)). split; [by apply nth_slot|done]. }
  do 2 wp_step. destruct ((alloc_size <=? committed_size v) && (committed_size v <=? limit) && ((best =? 0) || (committed_size v <? bsz))) eqn:E; apply IH; try done.
  intros _. split; [done|]. exists v. split; [done|]. apply andb_true_iff in E as [E _]. apply andb_true_iff in E as [E%Z.leb_le _]. done.
Qed.

Lemma wp_huge_cache_pop (Q : Z -> state -> Prop) st s alloc_size :
  Inv None st s -> Q 0 s ->
  (forall sp v s1, Inv None st s1 -> kept ∅ {[sp + SPAN_HEADER_SIZE]} st s st s1 -> sp <> 0 -> spans s !! sp = Some v -> span_page_type v = PAGE_HUGE -> alloc_size <= span_len v -> cached (huge_slots s) sp ->
     ~ cached (huge_slots s1) sp -> spans s1 = spans s -> pages s1 = pages s -> heaps s1 = heaps s -> Q sp s1) ->
  wp (huge_cache_pop alloc_size) Q s.
Proof using HG.
  intros I HQ0 HQ. pose proof (iv_huge _ _ _ (iv_base _ _ _ I)) as Hok. unfold huge_cache_pop. apply wp_bind, wp_best_fit; [done|done|]. intros best bsz slot Hb. apply wp_bind.
  destruct (Z.eqb_spec best 0) as [->|H0]; cbn [negb when]; [by do 2 wp_step|]. destruct (Hb H0) as (E & v & Hv & Hsz). do 2 wp_step.
  assert ((nth slot (huge_slots s) (0, 0)).1 <> 0) as H1 by congruence. pose proof (nth_slot _ _ H1) as Hi. destruct (nth slot (huge_slots s) (0, 0)) as [sp t]. simpl in E. subst sp. cbn [snd].
  assert (cached (huge_slots s) best) as Hc by (split; [done|by exists slot, (best, t)]). destruct (hg_span _ _ Hok best Hc) as (w & Hw & Hh). assert (w = v) as -> by congruence.
  destruct (slot_clear _ _ slot best t Hok Hi H0) as [Hok' Hcl].
  destruct (slots_step ∅ {[best + SPAN_HEADER_SIZE]} st s (<[slot := (0, t)]> (huge_slots s)) (u64 (huge_committed s - bsz)) I Hok') as [I1 K1].
  { intros q Hq. left. by apply Hcl. }
  { intros q Hq. rewrite Hcl. destruct (decide (q = best)) as [->|Hne]; [right; set_solver|by left]. }
  { set_solver. }
  apply (HQ best v); try done; [|by intros [_ ?]%Hcl]. unfold span_len. rewrite Hh. simpl. unfold committed_size in Hsz. lia.
Qed.

(** ** A huge block *)

(** The headers are there: the block is the program's. *)
Lemma huge_given (Q : Z -> state -> Prop) st s s1 sp v size (zero : bool) :
  Inv None st s1 -> kept {[sp + SPAN_HEADER_SIZE]} {[sp + SPAN_HEADER_SIZE]} st s st s1 -> (forall k al, ~ live st s (sp + SPAN_HEADER_SIZE) k al) ->
  spans s1 !! sp = Some v -> span_page_type v = PAGE_HUGE -> ~ cached (huge_slots s1) sp -> size + SPAN_HEADER_SIZE <= span_len v ->
  (forall b s', given st s size zero b st s' -> Q b s') ->
  wp (when zero (memset (sp + SPAN_HEADER_SIZE) 0 size);; mret (sp + SPAN_HEADER_SIZE)) Q s1.
Proof using HG.
  intros I K Hnew Hs Hh Hc Hsz HQ. pose proof (iv_spans _ _ _ (iv_base _ _ _ I)) as O. destruct (so_address _ _ _ _ O sp v Hs) as (A1 & A2 & A3 & A4).
  set (b := sp + SPAN_HEADER_SIZE) in *. assert (live st s1 b (span_len v - SPAN_HEADER_SIZE) true) as Hl by (right; exists sp, v; done).
  assert (0 < b /\ b mod 16 = 0) as Hb.
  { unfold b, SPAN_HEADER_SIZE, PAGE_HEADER_SIZE. split; [lia|]. apply Z.mod_divide in A3 as [j ->]; [|done]. change SPAN_SIZE with (2 ^ 24 * 16). replace (j * (2 ^ 24 * 16) + 128) with ((j * 2 ^ 24 + 8) * 16) by ring. apply Z.mod_mul. lia. }
  apply wp_bind, wp_when; intros Hz; [do 2 wp_step|wp_step]; apply HQ.
  - eapply (given_zeroed st s st s1 size zero b _ true); [done|done|done|exact Hl|lia|done| |].
    + intros x Hx. destruct (decide (b <= x < b + size)); [lia|]. destruct Hx. apply fill_other. lia.
    + intros _ x Hx. by apply fill_in.
  - split; [done|done|done|exists (span_len v - SPAN_HEADER_SIZE), true; split; [done|lia]|done|by rewrite Hz].
Qed.

Lemma plain_fields v w : plain v = plain w -> span_page_type v = span_page_type w /\ span_len v = span_len w.
Proof using Type. intros E. split; [exact (f_equal span_page_type E)|exact (f_equal span_len E)]. Qed.

(** The span comes from the cache. *)
Lemma cached_headers st s sp v hp a offset n :
  Inv None st s -> spans s !! sp = Some v -> span_page_type v = PAGE_HUGE -> is_Some (heaps s !! hp) -> exists r, pages s !! sp = Some r /\
  let v' := huge_fields hp true a offset n v in
  let s1 := set_spans (<[sp := v']> (spans s)) (set_pages (<[sp := huge_header hp r]> (pages s)) s) in
  plain v' = plain v /\ Inv None st s1 /\ kept ∅ ∅ st s st s1.
Proof using HG.
  intros I Hv Hh Hhp. destruct (so_huge _ _ _ _ (iv_spans _ _ _ (iv_base _ _ _ I)) sp v Hv Hh) as (Emask & _ & r & Hr & Ht & _). exists r. split; [done|]. intros v' s1.
  assert (plain v' = plain v) as Ep by (unfold v', huge_fields; cbv zeta; rewrite <- Emask, <- Hh; by destruct v). split; [done|].
  destruct (huge_page_step st s sp r (huge_header hp r) I Hr Ht eq_refl eq_refl eq_refl eq_refl Hhp) as [I1 K1]. set (s0 := set_pages _ s) in *.
  destruct (spans_step None st s0 (<[sp := v']> (spans s0)) (heaps s0) (iv_base _ _ _ I1)) as (I2 & K2 & _).
  - rewrite fmap_insert, Ep. apply insert_id. simpl. by rewrite lookup_fmap, Hv.
  - done.
  - intros hp' h' t Hh' Ht' H0. destruct (iv_partial _ _ _ (iv_base _ _ _ I1) hp' h' t Hh' Ht' H0) as (w & Hw & Et & E). exists w. split; [|done]. rewrite lookup_insert_ne; [done|]. intros E1. rewrite <- E1 in Hw. simpl in Hw. congruence.
  - split; [split; [exact I2|apply I1]|]. by eapply kept_after.
Qed.

(** The span is mapped. *)
Lemma mapped_headers st s sp offset n k' hp a :
  Inv None st s -> is_Some (heaps s !! hp) -> 4096 <= sp - offset -> 0 <= offset < 2 ^ 32 -> sp + a <= sp - offset + n <= 2 ^ 63 -> sp mod SPAN_SIZE = 0 ->
  (forall x, sp - offset <= x < sp - offset + n -> ~ mapped (kernel s) x) -> (forall x, mapped k' x <-> mapped (kernel s) x \/ sp - offset <= x < sp - offset + n) ->
  SPAN_HEADER_SIZE < a -> u32 config_page_size * u32 (a / config_page_size) = a ->
  let v := huge_fields hp false a offset n zero_span in
  let s1 := set_kernel k' (set_mem (fill (mem s) sp a 0) (set_spans (<[sp := v]> (spans s)) (set_pages (<[sp := huge_header hp zero_page]> (pages s)) s))) in
  Inv None st s1 /\ kept {[sp + SPAN_HEADER_SIZE]} {[sp + SPAN_HEADER_SIZE]} st s st s1 /\ (forall k al, ~ live st s (sp + SPAN_HEADER_SIZE) k al) /\ span_len v = a /\ ~ cached (huge_slots s) sp.
Proof using HG.
  intros [I L] Hhp A1 A2 A3 A4 A5 A6 Ha Hprod v s1. set (r := huge_header hp zero_page). assert (span_len v = a) as Elen by exact Hprod. assert (span_offset v = offset) as Eo by (simpl; apply wrap_small; lia).
  assert (forall x, region sp v x <-> sp - offset <= x < sp - offset + n) as Hreg by (intros x; unfold region; rewrite Eo; done).
  assert (born sp v r s) as Bo.
  { split; [rewrite Elen, Eo; change (span_mapped_size v) with n; split_and!; lia|intros x Hx; by apply A5, Hreg|done|done|by intros E|]. intros _. by rewrite Elen. }
  destruct (new_span_step sp v r I Bo (fill (mem s) sp a 0) k') as (I1 & L1 & K1); [|by intros E|intros x; by rewrite Hreg|exact L|].
  { intros x Hx. apply Hreg. destruct (decide (sp <= x < sp + a)); [lia|]. destruct Hx. apply fill_other. lia. }
  cbn [is_huge] in K1. change (is_huge (span_page_type v)) with true in K1. cbn iota in K1. fold s1 in I1, K1. split_and!; [split; [exact I1|]|eapply kept_weaken; [exact K1|set_solver..]| |done|].
  - change (pages s1) with (<[sp := r]> (pages s)). rewrite <- (insert_insert_eq (pages s) sp r r). apply lists_nowhere; [exact L1|done].
  - intros k al Hl. destruct (live_region I _ k al Hl) as (Hk & sq & w & Hw & Hr & _). eapply (A5 (sp + SPAN_HEADER_SIZE)); [unfold SPAN_HEADER_SIZE, PAGE_HEADER_SIZE in *; lia|].
    eapply (so_mapped _ _ _ _ (iv_spans _ _ _ I)); [exact Hw|]. apply Hr. lia.
  - intros Hc. destruct (hg_span _ _ (iv_huge _ _ _ I) sp Hc) as (w & Hw & _). rewrite (new_span_absent sp v r I Bo) in Hw. done.
Qed.

Lemma wp_allocate_huge (Q : Z -> state -> Prop) st s hp size zero :
  Inv None st s -> own_heap thread s hp -> 0 < size <= max_size ->
  (forall b s', given st s size zero b st s' -> Q b s') -> (forall s', Inv None st s' -> kept ∅ ∅ st s st s' -> Q 0 s') ->
  wp (heap_allocate_block_huge thread hp size zero) Q s.
Proof using HG.
  intros I (h & Hh & Hid & _) Hsize HQ HQ0. unfold heap_allocate_block_huge. do 2 wp_step. rewrite (proj2 (Z.eqb_neq (id h) 0)) by done. do 2 wp_step.
  rewrite (wrap_small 64) by (unfold max_size, SPAN_HEADER_SIZE, PAGE_HEADER_SIZE in *; lia). destruct (aligned_size (size + SPAN_HEADER_SIZE)) as (Ha & Hprod & Hcps); [unfold SPAN_HEADER_SIZE, PAGE_HEADER_SIZE; lia|]. set (a := get_page_aligned_size _) in *.
  apply wp_bind, (wp_huge_cache_pop _ st); [done| |].
  - change (negb (0 =? 0)) with false. cbn iota.
    apply wp_bind, wp_map.
    { intros k' Hk. change (0 =? 0) with true. cbn iota. wp_step. destruct (kernel_step None st s k' I Hk) as [I' K']. by apply HQ0. }
    intros sp offset n k' A1 A2 A3 A4 _ A5 A6. rewrite (proj2 (Z.eqb_neq sp 0)) by lia. cbn [negb andb]. specialize (A4 ltac:(done)).
    match goal with |- wp _ _ ?S => assert (forall k2, (forall x, mapped k2 x <-> mapped k' x) ->
      wp (when true (new_span sp);; huge_span hp sp false a offset n;; when zero (memset (sp + SPAN_HEADER_SIZE) 0 size);; mret (sp + SPAN_HEADER_SIZE)) Q (set_kernel k2 S)) as Hrest end.
    { intros k2 Hk2. destruct (mapped_headers st s sp offset n k2 hp a I ltac:(by exists h) A1 A2 A3 A4 A5) as (I1 & K1 & Hnew & Elen & Hc); [intros x; rewrite Hk2; apply A6|lia|done|].
      set (v := huge_fields hp false a offset n zero_span) in *. cbn [when]. unfold new_span. do 4 wp_step. apply wp_bind.
      eapply (wp_huge_span _ hp sp false a offset n st); [wp_simpl; apply lookup_insert_eq|wp_simpl; apply lookup_insert_eq|by exists h|wp_simpl; rewrite !insert_insert_eq; exact I1|].
      wp_simpl. rewrite !insert_insert_eq. fold v. intros s3 I3 K3 _ Eslots (v3 & Hv3 & Epl3). destruct (plain_fields v3 v Epl3) as [Et El].
      apply (huge_given Q st s s3 sp v3 size zero); [done|by eapply kept_after|done|done|by rewrite Et|by rewrite Eslots|lia|done]. }
    apply wp_bind. destruct os_commit_on_demand; [apply wp_commit; exact Hrest|]. wp_step. exact (Hrest k' ltac:(done)).
  - intros sp v s1 I1 K1 H0 Hv Hvh Hlen Hc Hnc Es Ep Eh. rewrite (proj2 (Z.eqb_neq sp 0)) by done. cbn [negb]. do 2 wp_step. rewrite (proj2 (Z.eqb_neq sp 0)) by done. cbn [negb andb]. do 2 wp_step. cbn [when]. do 2 wp_step.
    assert (forall k al, ~ live st s (sp + SPAN_HEADER_SIZE) k al) as Hnew by (intros k al; eapply cached_not_live; [apply I|done..]).
    rewrite <- Es in Hv. destruct (cached_headers st s1 sp v hp a 0 0 I1 Hv Hvh ltac:(rewrite Eh; by exists h)) as (r & Hr & Epl & I2 & K2). apply wp_bind.
    eapply wp_huge_span; [exact Hr|exact Hv|rewrite Eh; by exists h|exact I2|]. intros s3 I3 K3 _ Eslots (v3 & Hv3 & Epl3). destruct (plain_fields v3 v) as [Et El]; [congruence|].
    apply (huge_given Q st s s3 sp v3 size zero); [done| |done|done|congruence|by rewrite Eslots|lia|done]. eapply kept_after; [|exact K3]. eapply kept_after; [|exact K2]. eapply kept_weaken; [exact K1|set_solver..].
Qed.
End HugeAlloc.
End RpHugeAlloc.
