(* ===== verification/RpThread.v ===== *)
(** * Threads and their heaps

    [rpmalloc_thread_initialize]: a thread gets a heap that nobody has used, from
    the list of such heaps or from a new mapping. *)
From stdpp Require Import functions.
From S2P Require Import Prelude RpState Rpmalloc RpSize RpWp RpBlocks RpLists RpInv RpLive RpPage RpFree RpSpan RpAlloc RpHugeAlloc.

Module RpThread.
Import RpState Rpmalloc RpSize RpWp RpBlocks RpLists RpInv RpLive RpPage RpFree RpSpan RpAlloc RpHugeAlloc.

Section Heaps.
Context `{HC : !Config} `{HM : !MemoryInterface} `{HL : !MemoryLaws}.

(** ** Other heaps *)

Definition mview (h : heap_t) : lists * lists * (page_type_t -> Z) := (block_lists h, page_lists h, span_partial h).

(** Heaps come, and the heaps there are keep their lists. *)
Record more_heaps (s s' : state) : Prop := {
  mh_pages : pages s' = pages s;
  mh_spans : spans s' = spans s;
  mh_slots : huge_slots s' = huge_slots s;
  mh_old hp h : heaps s !! hp = Some h -> exists h', heaps s' !! hp = Some h' /\ mview h' = mview h;
  mh_new hp h' : heaps s' !! hp = Some h' -> (exists h, heaps s !! hp = Some h /\ mview h' = mview h) \/ heaps s !! hp = None /\ mview h' = mview zero_heap;
  mh_mapped x : mapped (kernel s) x -> mapped (kernel s') x;
  mh_mem sp v x : spans s !! sp = Some v -> region sp v x -> mem s' x = mem s x }.

Lemma lists_new_heaps pg (A A' : gmap Z lists) :
  (forall p r, pg !! p = Some r -> is_Some (A !! page_heap r)) -> (forall hp v, A' !! hp = Some v -> A !! hp = Some v \/ A !! hp = None /\ (forall c, v.1 c = 0) /\ (forall t, v.2 t = 0)) ->
  lists_ok None pg A -> lists_ok None pg A'.
Proof.
  intros Hpg Hnew [L1 L2]. assert (forall hp x, A !! hp = None -> (exists c, x = Available hp c) \/ (exists t, x = Free hp t) -> placed pg None x []) as Hempty.
  { intros hp x Hhp Hx. split; [apply NoDup_nil_2|]. intros p. split; [intros H; by apply not_elem_of_nil in H|]. intros (_ & r & Hr & E). exfalso. destruct (Hpg p r Hr) as [v Hv].
    unfold place_of in E. destruct (is_huge (page_type r)), (is_free r), (is_full r); destruct Hx as [[c ->]|[t ->]]; try done; injection E as E1 E2; congruence. }
  constructor.
  - intros hp v Hv c. destruct (Hnew hp v Hv) as [Hv0|(Hn & Z1 & _)]; [by apply (L1 hp v Hv0)|]. exists []. rewrite Z1. split_and!; [done|done|]. apply (Hempty hp); [done|left; by exists c].
  - intros hp v Hv t. destruct (Hnew hp v Hv) as [Hv0|(Hn & _ & Z2)]; [by apply (L2 hp v Hv0)|]. exists []. rewrite Z2. split; [done|]. apply (Hempty hp); [done|right; by exists t].
Qed.

Lemma more_step st s s' : Inv None st s -> more_heaps s s' -> threads_ok s' -> Inv None st s' /\ forall b n al, live st s' b n al <-> live st s b n al.
Proof.
  intros [I L] [M1 M2 M3 M4 M5 M6 M7] T. pose proof I as [I1 I2 I3 I4 I5 I6 I7 I8].
  assert (forall hp v, (block_lists <$> heaps s') !! hp = Some v -> (block_lists <$> heaps s) !! hp = Some v \/ (block_lists <$> heaps s) !! hp = None /\ (forall c, v.1 c = 0) /\ (forall t, v.2 t = 0)) as Hb.
  { intros hp v Hv. rewrite lookup_fmap in Hv. rewrite !lookup_fmap. destruct (heaps s' !! hp) as [h'|] eqn:Hh; [|done]. injection Hv as <-. destruct (M5 hp h' Hh) as [(h & -> & E)|[-> E]]; injection E as E1 E2 E3 E4 E5.
    - left. simpl. unfold block_lists. by rewrite E1, E2.
    - right. simpl. rewrite E1, E2. split_and!; done. }
  assert (forall hp v, (page_lists <$> heaps s') !! hp = Some v -> (page_lists <$> heaps s) !! hp = Some v \/ (page_lists <$> heaps s) !! hp = None /\ (forall c, v.1 c = 0) /\ (forall t, v.2 t = 0)) as Hp.
  { intros hp v Hv. rewrite lookup_fmap in Hv. rewrite !lookup_fmap. destruct (heaps s' !! hp) as [h'|] eqn:Hh; [|done]. injection Hv as <-. destruct (M5 hp h' Hh) as [(h & -> & E)|[-> E]]; injection E as E1 E2 E3 E4 E5.
    - left. simpl. unfold page_lists. by rewrite E3, E4.
    - right. simpl. rewrite E3, E4. split_and!; done. }
  split; [split; [constructor|]|].
  - rewrite M1. eapply blocks_new_heaps; [| |exact Hb].
    + apply (blocks_outside I1). intros q r x Hq Hu Hx. rewrite lookup_fmap in Hq. destruct (pages s !! q) as [r0|] eqn:Hq0; [|done]. injection Hq as <-.
      destruct (page_in_region I4 q r0 x Hq0 (proj2 Hu) Hx) as (sp & v & Hs & _ & Hr). by apply (M7 sp v).
    + intros hp v Hv. rewrite lookup_fmap in Hv. rewrite lookup_fmap. destruct (heaps s !! hp) as [h|] eqn:Hh; [|done]. injection Hv as <-.
      destruct (M4 hp h Hh) as (h' & -> & E). simpl. f_equal. exact (f_equal (fun v => v.1.1) E).
  - by rewrite M1.
  - intros p r Hr. rewrite M1 in Hr. destruct (I3 p r Hr) as [h Hh]. destruct (M4 _ _ Hh) as (h' & Hh' & _). by exists h'.
  - rewrite M1, M2. destruct I4 as [O1 O2 O3 O4 O5 O6 O7 O8] eqn:EO. constructor; try done.
    + intros sp v x Hs Hx. by apply M6, (O2 sp v).
    + intros sp v x Hs Hh Hx. rewrite (M7 sp v x Hs); [by apply (O8 sp v)|]. by eapply (uninitialized_region (iv_spans _ _ _ I)).
  - rewrite M1. eapply decommit_frame; [exact I5|done|]. intros p r x Hr Ht Hf Hx. destruct (page_in_region I4 p r x Hr Ht Hx) as (sp & v & Hs & _ & Hreg). by apply (M7 sp v).
  - rewrite M2. intros hp h t Hh Ht H0. destruct (M5 hp h Hh) as [(h0 & Hh0 & E)|[_ E]]; injection E as E1 E2 E3 E4 E5; rewrite E5 in *; [by apply (I6 hp h0)|done].
  - by rewrite M2, M3.
  - exact T.
  - rewrite M1. eapply lists_new_heaps; [|exact Hp|exact L]. intros p r Hr. destruct (I3 p r Hr) as [h Hh]. rewrite lookup_fmap, Hh. by eexists.
  - intros b n al. unfold live, class_live, huge_live. by rewrite M1, M2, M3.
Qed.

(** ** Heaps of a new mapping *)

Lemma heap_chain_same hs hs' head l : (forall q, q ∈ l -> heap_next <$> hs' !! q = heap_next <$> hs !! q) -> heap_chain hs head l -> heap_chain hs' head l.
Proof.
  revert head. induction l as [|a l IH]; intros head Hf H; [done|]. destruct H as (-> & H0 & next & Hn & H). split_and!; [done|done|]. exists next. rewrite Hf by left. split; [done|]. apply IH; [|done]. intros q Hq. apply Hf. by right.
Qed.

(** The last heap of the list, which is where more heaps are linked. *)
Definition tail_of (hs : gmap Z heap_t) (tail : Z) (l : list Z) : Prop := tail = 0 /\ l = [] \/ tail <> 0 /\ tail ∈ l /\ heap_next <$> hs !! tail = Some 0.

Definition carved (n : nat) (a e : Z) (hs hs' : gmap Z heap_t) : Prop :=
  (forall q, (forall i, 0 <= i < Z.of_nat n -> q <> e + i * a) -> hs' !! q = hs !! q) /\
  (forall i, 0 <= i < Z.of_nat n -> exists h, hs' !! (e + i * a) = Some h /\ mview h = mview zero_heap).

Lemma wp_carve (Q : Z * Z -> state -> Prop) n a e head tail l s :
  0 < a -> 0 < e -> heap_chain (heaps s) head l -> NoDup l -> (forall q, q ∈ l -> q < e) -> tail_of (heaps s) tail l ->
  (forall head' tail' l' g hs', heap_chain hs' head' l' -> NoDup l' -> (forall q, q ∈ l' -> q ∈ l \/ exists i, 0 <= i < Z.of_nat n /\ q = e + i * a) -> tail_of hs' tail' l' ->
     carved n a e (heaps s) hs' -> Q (head', tail') (set_global_heap_id g (set_heaps hs' s))) ->
  wp (carve_heaps n a e head tail) Q s.
Proof.
  revert e head tail l s Q. induction n as [|n IH]; intros e head tail l s Q Ha He Hc Hn Hl Ht HQ; cbn [carve_heaps].
  { wp_step. assert (s = set_global_heap_id (global_heap_id s) (set_heaps (heaps s) s)) as E by (by destruct s). rewrite E. eapply HQ; [exact Hc|done|by left|done|]. split; [done|]. intros i Hi. lia. }
  unfold heap_initialize. do 9 wp_step. eapply wp_upd_heap; [wp_simpl; apply lookup_insert_eq|]. wp_simpl. rewrite insert_insert_eq. set (h := set_heap_next head _). set (s1 := set_heaps _ _).
  assert (e ∉ l) as Hni by (intros H; specialize (Hl e H); lia).
  assert (heap_chain (heaps s1) head l) as Hc1 by (eapply heap_chain_same; [|exact Hc]; intros q Hq; simpl; rewrite lookup_insert_ne; [done|by intros ->]).
  apply (IH (e + a) e _ (e :: l)); [lia|lia| | | | |].
  - split_and!; [done|lia|]. exists head. simpl. rewrite lookup_insert_eq. done.
  - by apply NoDup_cons.
  - intros q [->|Hq]%elem_of_cons; [lia|]. specialize (Hl q Hq). lia.
  - right. destruct Ht as [[-> ->]|(Ht0 & Htl & Htn)].
    + change (0 =? 0) with true. cbn iota. simpl in Hc. split_and!; [lia|left|]. simpl. rewrite lookup_insert_eq. simpl. by rewrite Hc.
    + rewrite (proj2 (Z.eqb_neq tail 0)) by done. split_and!; [done|by right|]. simpl. rewrite lookup_insert_ne; [done|]. by intros <-.
  - intros head' tail' l' g hs' Hc' Hn' Hl' Ht' [Hsame Hnew]. apply (HQ head' tail' l' g hs'); [done|done| |done|split].
    + intros q Hq. destruct (Hl' q Hq) as [[->|?]%elem_of_cons|(i & Hi & ->)]; [right; exists 0; split; lia|by left|right; exists (i + 1); split; lia].
    + intros q Hq. rewrite Hsame; [|intros i Hi; specialize (Hq (i + 1) ltac:(lia)); lia]. simpl. apply lookup_insert_ne. specialize (Hq 0 ltac:(lia)). lia.
    + intros i Hi. destruct (decide (i = 0)) as [->|Hne].
      * exists h. replace (e + 0 * a) with e by lia. rewrite Hsame; [|intros j Hj; nia]. simpl. by rewrite lookup_insert_eq.
      * destruct (Hnew (i - 1) ltac:(lia)) as (h' & Hh' & E). exists h'. replace (e + i * a) with (e + a + (i - 1) * a) by lia. done.
Qed.

(** The state after [heap_allocate_new] has found heap [hp]: the heap is in no list
    and is nobody's. *)
Record found (s : state) (hp : Z) (s1 : state) : Prop := {
  fo_more : more_heaps s s1;
  fo_threads : threads_ok s1;
  fo_heap : is_Some (heaps s1 !! hp) /\ 0 < hp /\ hp <> global_heap_fallback;
  fo_owner t : thread_heaps s !! t <> Some hp;
  fo_chain : exists l, NoDup l /\ heap_chain (heaps s1) (global_heap_pristine s1) l /\ (forall q, q ∈ l -> q <> global_heap_fallback /\ forall t, thread_heaps s !! t <> Some q) /\ hp ∉ l;
  fo_same : thread_heaps s1 = thread_heaps s /\ global_heap_used s1 = global_heap_used s;
  fo_exact q h : heaps s !! q = Some h -> heaps s1 !! q = Some h }.

Lemma same_heaps s s' : pages s' = pages s -> spans s' = spans s -> huge_slots s' = huge_slots s -> heaps s' = heaps s -> kernel s' = kernel s -> mem s' = mem s -> more_heaps s s'.
Proof.
  intros H1 H2 H3 H4 H5 H6. constructor; try done.
  - intros hp h Hh. exists h. by rewrite H4.
  - intros hp h Hh. left. exists h. by rewrite <- H4.
  - by rewrite H5.
  - intros. by rewrite H6.
Qed.

(** The first of the heaps that nobody has used. *)
Lemma found_pristine st s h : Inv None st s -> global_heap_pristine s <> 0 -> heaps s !! global_heap_pristine s = Some h -> found s (global_heap_pristine s) (set_global_heap_pristine (heap_next h) s).
Proof.
  intros [I _] H0 Hh. pose proof (iv_threads _ _ _ I) as T. pose proof T as [T1 T2 T3 T4 T5 T6 T7 T8]. destruct T4 as (l & Hn & Hc & Hl). destruct l as [|hp l]; [done|]. destruct Hc as (E & _ & next & Hnext & Hc).
  rewrite E in *. rewrite Hh in Hnext. injection Hnext as ->. apply NoDup_cons in Hn as [Hni Hn]. destruct (Hl hp) as [Hf Hown]; [left|]. pose proof (T2 hp h Hh Hf).
  assert (exists k, NoDup k /\ heap_chain (heaps s) next k /\ (forall q, q ∈ k -> q <> global_heap_fallback /\ forall t, thread_heaps s !! t <> Some q) /\ hp ∉ k) as Hk.
  { exists l. split_and!; [done|done| |done]. intros q Hq. apply Hl. by right. }
  constructor; [by apply same_heaps| | |done|done|done|done].
  - constructor; try done. destruct Hk as (k & K1 & K2 & K3 & _). by exists k.
  - split_and!; [by eexists|lia|done].
Qed.

(** A mapping with heaps in it. *)
Lemma found_mapped st s block n (k' : os) size l g pr hs' :
  Inv None st s -> 4096 <= block -> 0 < size -> aligned_heap_size <= size -> block + size <= block + n <= 2 ^ 63 ->
  (forall x, block <= x < block + n -> ~ mapped (kernel s) x) -> (forall x, mapped k' x <-> mapped (kernel s) x \/ block <= x < block + n) ->
  carved (Z.to_nat (n / aligned_heap_size)) aligned_heap_size block (heaps s) hs' ->
  NoDup l -> heap_chain hs' pr l -> (forall q, q ∈ l -> exists i, 0 < i < n / aligned_heap_size /\ q = block + i * aligned_heap_size) ->
  found s block (set_global_heap_creating false (set_global_heap_pristine pr (set_global_heap_id g (set_heaps hs' (set_mem (fill (mem s) block size 0) (set_kernel k' s)))))).
Proof.
  intros [I _] Hb H0 Hsz Hn Hfree Hk [Hsame Hnew] Hnd Hc Hl. pose proof (iv_threads _ _ _ I) as T. pose proof T as [T1 T2 T3 T4 T5 T6 T7 T8].
  assert (0 < aligned_heap_size) as Ha by done. set (a := aligned_heap_size) in *. assert (1 <= n / a) as Hna by (apply Z.div_le_lower_bound; lia). pose proof (Z.mul_div_le n a Ha) as Hmul.
  assert (forall i x, 0 <= i < n / a -> block + i * a <= x < block + i * a + a -> block <= x < block + n) as Hzone by (intros i x Hi Hx; nia).
  assert (forall i, 0 <= i < n / a -> heaps s !! (block + i * a) = None) as Hnone.
  { intros i Hi. destruct (heaps s !! (block + i * a)) as [h|] eqn:Hh; [exfalso|done]. assert (block + i * a <> global_heap_fallback) as Hf by (unfold global_heap_fallback; nia).
    destruct (T1 _ h (block + i * a) Hh Hf ltac:(fold a; lia)) as [Hm _]. apply (Hfree (block + i * a)); [apply (Hzone i); [done|lia]|done]. }
  assert (forall q h, hs' !! q = Some h -> heaps s !! q = Some h \/ heaps s !! q = None /\ mview h = mview zero_heap /\ exists i, 0 <= i < n / a /\ q = block + i * a) as Hcase.
  { intros q h Hh. destruct (decide (block <= q < block + n / a * a /\ (q - block) mod a = 0)) as [[Hq Hm]|Hq].
    - assert (q = block + (q - block) / a * a) as Eq by (pose proof (Z.div_mod (q - block) a ltac:(lia)); lia). assert (0 <= (q - block) / a < n / a) as Hi by (split; [apply Z.div_pos; lia|apply Z.div_lt_upper_bound; lia]).
      right. rewrite Eq in Hh |- *. split; [by apply Hnone|]. destruct (Hnew ((q - block) / a)) as (h' & Hh' & E); [lia|]. split; [congruence|]. by exists ((q - block) / a).
    - left. rewrite <- Hsame; [done|]. intros i Hi ->. apply Hq. replace (block + i * a - block) with (i * a) by lia. split; [nia|]. apply Z.mod_mul. lia. }
  assert (forall i, 0 <= i < n / a -> block + i * a <> global_heap_fallback /\ forall t, thread_heaps s !! t <> Some (block + i * a)) as Hown.
  { intros i Hi. split; [unfold global_heap_fallback; nia|]. intros t Ht. destruct (T8 _ _ Ht) as [E|[h Hh]]; [nia|]. rewrite Hnone in Hh; done. }
  assert (forall q h, heaps s !! q = Some h -> hs' !! q = Some h) as Hold.
  { intros q h Hh. rewrite Hsame; [done|]. intros i Hi ->. rewrite Hnone in Hh by lia. done. }
  destruct (Hnew 0) as (h0 & Hh0 & _); [lia|]. replace (block + 0 * a) with block in Hh0 by lia.
  constructor; [| | | | |done|exact Hold].
  - constructor; try done.
    + intros hp h Hh. exists h. split; [by apply Hold|done].
    + intros hp h Hh. destruct (Hcase hp h Hh) as [?|(? & ? & _)]; [left; by exists h|by right].
    + intros x Hx. apply Hk. by left.
    + intros sp v x Hs Hx. simpl. apply fill_other. pose proof (so_mapped _ _ _ _ (iv_spans _ _ _ I) sp v x Hs Hx) as Hm. destruct (decide (block <= x < block + n)) as [Hin|]; [by destruct (Hfree x Hin)|lia].
  - constructor; try done; simpl.
    + intros hp h x Hh Hne Hx. destruct (Hcase hp h Hh) as [Hh'|(_ & _ & i & Hi & ->)].
      * destruct (T1 hp h x Hh' Hne Hx) as [H1 H2]. split; [apply Hk; by left|done].
      * pose proof (Hzone i x Hi Hx) as Hin. split; [apply Hk; by right|]. intros sp v Hs Hr. apply (Hfree x Hin). by apply (so_mapped _ _ _ _ (iv_spans _ _ _ I) sp v).
    + intros hp h Hh Hne. destruct (Hcase hp h Hh) as [Hh'|(_ & _ & i & Hi & ->)]; [by apply (T2 hp h)|nia].
    + destruct T3 as [|[h Hh]]; [by left|right]. exists h. by apply Hold.
    + exists l. split_and!; [done|done|]. intros q Hq. destruct (Hl q Hq) as (i & Hi & ->). apply Hown. lia.
    + intros t hp Ht. destruct (T8 t hp Ht) as [|[h Hh]]; [by left|right]. exists h. by apply Hold.
  - simpl. split_and!; [by eexists|lia|unfold global_heap_fallback; lia].
  - intros t. destruct (Hown 0) as [_ H]; [lia|]. replace (block + 0 * a) with block in H by lia. apply H.
  - exists l. simpl. split_and!; [done|done| |].
    + intros q Hq. destruct (Hl q Hq) as (i & Hi & ->). apply Hown. lia.
    + intros (i & Hi & E)%Hl. nia.
Qed.

(** ** [heap_allocate_new] *)

Context `{HG : !ConfigLaws}.

Lemma carved_next m a block hs h hs' : 0 < a -> mview h = mview zero_heap -> carved m a (block + a) (<[block := h]> hs) hs' -> carved (S m) a block hs hs'.
Proof using Type.
  intros Ha Hh [C1 C2]. split.
  - intros q Hq. rewrite C1; [|intros i Hi; specialize (Hq (i + 1) ltac:(lia)); lia]. apply lookup_insert_ne. specialize (Hq 0 ltac:(lia)). lia.
  - intros i Hi. destruct (decide (i = 0)) as [->|Hne].
    + exists h. replace (block + 0 * a) with block by lia. rewrite C1; [|intros j Hj; nia]. by rewrite lookup_insert_eq.
    + destruct (C2 (i - 1) ltac:(lia)) as (h' & Hh' & E). exists h'. replace (block + i * a) with (block + a + (i - 1) * a) by lia. done.
Qed.

Lemma carved_link m a block hs hs' tail i h h' : carved m a block hs hs' -> 0 <= i < Z.of_nat m -> tail = block + i * a -> hs' !! tail = Some h -> mview h' = mview h -> carved m a block hs (<[tail := h']> hs').
Proof using Type.
  intros [C1 C2] Hi -> Hh E. split.
  - intros q Hq. rewrite lookup_insert_ne; [by apply C1|]. intros <-. by apply (Hq i).
  - intros j Hj. destruct (decide (block + j * a = block + i * a)) as [->|Hne]; [|rewrite lookup_insert_ne by done; by apply C2]. rewrite lookup_insert_eq. exists h'. split; [done|].
    destruct (C2 i Hi) as (h0 & Hh0 & E0). congruence.
Qed.

(** The end of [heap_allocate_new]: the heaps of a new mapping. *)
Definition install_heaps (block offset n : Z) : M Z :=
  heap ← heap_initialize block;
  upd_heap heap (fun h => set_heap_mapped_size n (set_heap_offset (u32 offset) h));;
  '(chain_head, chain_tail) ← carve_heaps (Z.to_nat (n / aligned_heap_size - 1)) aligned_heap_size (heap + aligned_heap_size) 0 0;
  when (negb (chain_tail =? 0))
    (pristine ← gets global_heap_pristine;
     upd_heap chain_tail (set_heap_next pristine);;
     modify (set_global_heap_pristine chain_head));;
  modify (set_global_heap_creating false);;
  mret heap.

Lemma wp_install (Q : Z -> state -> Prop) st s block n size (k k' : os) :
  Inv None st s -> global_heap_pristine s = 0 -> 4096 <= block -> 0 < size -> aligned_heap_size <= size -> block + size <= block + n <= 2 ^ 63 ->
  (forall x, block <= x < block + n -> ~ mapped (kernel s) x) -> (forall x, mapped k' x <-> mapped (kernel s) x \/ block <= x < block + n) ->
  (forall hp s1, found s hp s1 -> Q hp s1) -> wp (install_heaps block 0 n) Q (set_kernel k' (set_mem (fill (mem s) block size 0) (set_kernel k (set_global_heap_creating true s)))).
Proof using Type.
  intros I Hpr Hb H0 Hsz Hn A5 A6 HQ. assert (0 < aligned_heap_size) as Ha by done. set (a := aligned_heap_size) in *. assert (1 <= n / a) as Hna by (apply Z.div_le_lower_bound; lia).
  unfold install_heaps, heap_initialize. fold a. do 6 wp_step. apply wp_bind. eapply wp_upd_heap; [wp_simpl; apply lookup_insert_eq|]. wp_simpl. rewrite insert_insert_eq.
  set (h0 := set_heap_mapped_size n _). apply wp_bind. apply wp_carve with (l := []); [done|lia|done|apply NoDup_nil_2|intros q Hq; by apply not_elem_of_nil in Hq|by left|].
  intros head tail l g hs' Hc Hnd Hl Ht Hcv. assert (carved (Z.to_nat (n / a)) a block (heaps s) hs') as Hcv'.
  { replace (Z.to_nat (n / a)) with (S (Z.to_nat (n / a - 1))) by lia. by apply (carved_next _ _ _ _ h0). }
  assert (forall q, q ∈ l -> exists i, 0 < i < n / a /\ q = block + i * a) as Hl'.
  { intros q [Hq|(i & Hi & ->)]%Hl; [by apply not_elem_of_nil in Hq|]. exists (i + 1). split; lia. }
  wp_simpl. destruct Ht as [[-> ->]|(Ht0 & Htl & Htn)].
  - change (0 =? 0) with true. cbn [negb when]. do 4 wp_step. simpl in Hc. subst head. apply HQ.
    exact (found_mapped st s block n k' size [] g (global_heap_pristine s) hs' I Hb H0 Hsz Hn A5 A6 Hcv' Hnd Hpr Hl').
  - rewrite (proj2 (Z.eqb_neq tail 0)) by done. cbn [negb when]. destruct (hs' !! tail) as [ht|] eqn:Hht; [|done]. injection Htn as Hnext. do 8 wp_step. apply HQ.
    destruct (Hl' tail Htl) as (i & Hi & Etail).
    apply (found_mapped st s block n k' size l g head (<[tail := set_heap_next (global_heap_pristine s) ht]> hs')); try done.
    + apply (carved_link _ _ _ _ _ tail i ht); [done|fold a; lia|done..].
    + eapply heap_chain_same; [|exact Hc]. intros q Hq. destruct (decide (q = tail)) as [->|Hne]; [|by rewrite lookup_insert_ne]. rewrite lookup_insert_eq, Hht. simpl. congruence.
Qed.

Lemma wp_heap_allocate_new (Q : Z -> state -> Prop) st s :
  Inv None st s -> (forall s1, Inv None st s1 -> kept ∅ ∅ st s st s1 -> Q 0 s1) -> (forall hp s1, found s hp s1 -> Q hp s1) -> wp (heap_allocate_new false) Q s.
Proof using HG.
  intros I HQ0 HQ. pose proof (iv_threads _ _ _ (iv_base _ _ _ I)) as T. pose proof T as [T1 T2 T3 T4 T5 T6 T7 T8]. unfold heap_allocate_new. do 2 wp_step. rewrite T5. change (0 =? 0) with true. cbn [negb andb].
  do 2 wp_step. destruct (Z.eqb_spec (global_heap_pristine s) 0) as [Hpr|Hpr]; cbn [negb].
  2: { destruct T4 as (l & Hn & Hc & Hl). assert (exists h, heaps s !! global_heap_pristine s = Some h) as [h Hh].
    { destruct l as [|q l]; [done|]. destruct Hc as (E & _ & next & Hnext & _). rewrite E. destruct (heaps s !! q) as [h|]; [by exists h|done]. }
    do 2 wp_step. do 2 wp_step. wp_step. apply HQ. by apply (found_pristine st s h I). }
  do 2 wp_step. rewrite T6. do 2 wp_step. change (HEAP_ALIGNMENT * ((sizeof_heap_t + (HEAP_ALIGNMENT - 1)) / HEAP_ALIGNMENT)) with aligned_heap_size. set (a := aligned_heap_size).
  assert (0 < a) as Ha by done. destruct (aligned_size a) as (Hsz & _ & Hcps); [by vm_compute|]. set (size := get_page_aligned_size a) in *.
  apply wp_bind, wp_map.
  - intros k' Hk. wp_simpl. change (0 =? 0) with true. cbn [negb andb]. do 2 wp_step. change (0 =? 0) with true. cbn iota. do 3 wp_step. destruct (kernel_step None st s k' I Hk) as [I' K']. rewrite <- T6.
    apply HQ0; [exact I'|exact K'].
  - intros block offset n k' A1 A2 A3 _ A4 A5 A6. specialize (A4 eq_refl). subst offset. rewrite Z.sub_0_r in *. wp_simpl. rewrite (proj2 (Z.eqb_neq block 0)) by lia. cbn [negb andb].
    assert (forall k2, (forall x, mapped k2 x <-> mapped k' x) -> wp (install_heaps block 0 n) Q (set_kernel k2 (set_mem (fill (mem s) block size 0) (set_kernel k' (set_global_heap_creating true s))))) as Hrest.
    { intros k2 Hk2. apply (wp_install Q st s block n size k' k2); try done; [lia|lia|]. intros x. rewrite Hk2. apply A6. }
    apply wp_bind. destruct os_commit_on_demand.
    + apply wp_bind, wp_commit. intros k2 Hk2. cbn iota. wp_step. rewrite (proj2 (Z.eqb_neq block 0)) by lia. exact (Hrest k2 Hk2).
    + wp_step. rewrite (proj2 (Z.eqb_neq block 0)) by lia. exact (Hrest k' ltac:(done)).
Qed.

(** ** A heap for a thread *)

(** Thread [t] has got heap [hp]; nobody else sees a difference. *)
Record joined (t : Z) (st : gmap Z status) (s : state) (hp : Z) (s' : state) : Prop := {
  jo_inv : Inv None st s';
  jo_keep b n al : live st s b n al -> exists al', live st s' b n al' /\ (al = true -> al' = true);
  jo_new b n al : live st s' b n al -> exists al0, live st s b n al0;
  jo_mem b n al x : live st s b n al -> b <= x < b + n -> mem s' x = mem s x;
  jo_thread : thread_heaps s' = <[t := hp]> (thread_heaps s);
  jo_heap : hp = 0 \/ hp <> global_heap_fallback /\ exists h, heaps s' !! hp = Some h /\ owner_thread h = t;
  jo_other t' q h : thread_heaps s !! t' = Some q -> heaps s !! q = Some h -> exists h', heaps s' !! q = Some h' /\ id h' = id h /\ owner_thread h' = owner_thread h }.

Definition no_prev (h : heap_t) : heap_t := set_heap_prev 0 h.

(** What [heap_allocate] and [set_thread_heap] change. *)
Record linked (t : Z) (s1 : state) (hp : Z) (s2 : state) : Prop := {
  ln_other q : q <> hp -> no_prev <$> heaps s2 !! q = no_prev <$> heaps s1 !! q;
  ln_heap : exists h1 h2, heaps s1 !! hp = Some h1 /\ heaps s2 !! hp = Some h2 /\ mview h2 = mview h1 /\ id h2 = id h1 /\ owner_thread h2 = t;
  ln_same : pages s2 = pages s1 /\ spans s2 = spans s1 /\ huge_slots s2 = huge_slots s1 /\ mem s2 = mem s1 /\ kernel s2 = kernel s1;
  ln_lists : global_heap_pristine s2 = global_heap_pristine s1 /\ global_heap_queue s2 = global_heap_queue s1 /\ global_heap_creating s2 = global_heap_creating s1;
  ln_used : global_heap_used s2 = hp;
  ln_threads : thread_heaps s2 = <[t := hp]> (thread_heaps s1) }.

Lemma no_prev_fields h h' : no_prev h' = no_prev h -> mview h' = mview h /\ id h' = id h /\ owner_thread h' = owner_thread h /\ heap_next h' = heap_next h.
Proof using Type. intros E. split_and!; [exact (f_equal mview E)|exact (f_equal id E)|exact (f_equal owner_thread E)|exact (f_equal heap_next E)]. Qed.

Lemma linked_back t s1 hp s2 q h2 : linked t s1 hp s2 -> heaps s2 !! q = Some h2 -> exists h1, heaps s1 !! q = Some h1 /\ mview h2 = mview h1.
Proof using Type.
  intros [L1 (h & h' & Hh & Hh' & E & _) _ _ _ _] Hq. destruct (decide (q = hp)) as [->|Hne]; [exists h; split; [done|congruence]|].
  specialize (L1 q Hne). rewrite Hq in L1. destruct (heaps s1 !! q) as [h1|]; [|done]. assert (no_prev h2 = no_prev h1) as E1 by (simpl in L1; congruence). exists h1. split; [done|]. exact (f_equal mview E1).
Qed.

Lemma linked_threads t s hp s1 s2 : found s hp s1 -> linked t s1 hp s2 -> threads_ok s2.
Proof using Type.
  intros [_ T (Hhp & Hpos & Hnf) Hown (l & Hnd & Hc & Hl & Hni) [Eth _] _] L. pose proof L as [L1 (h & h' & Hh & Hh' & Em & _) (E1 & E2 & E3 & E4 & E5) (P1 & P2 & P3) Hu Ht]. destruct T as [T1 T2 T3 T4 T5 T6 T7 T8].
  rewrite Eth in Ht. assert (forall a q, thread_heaps s2 !! a = Some q -> a = t /\ q = hp \/ a <> t /\ thread_heaps s !! a = Some q) as Hcase.
  { intros a q Ha. rewrite Ht in Ha. apply lookup_insert_Some in Ha as [[-> ->]|[Hne Ha]]; [by left|by right]. }
  constructor.
  - intros q h2 x Hq Hne Hx. destruct (linked_back _ _ _ _ _ _ L Hq) as (h1 & Hh1 & _). rewrite E5, E2. by eapply T1.
  - intros q h2 Hq Hne. destruct (linked_back _ _ _ _ _ _ L Hq) as (h1 & Hh1 & _). by eapply T2.
  - right. rewrite Hu. by exists h'.
  - exists l. rewrite P1. split_and!; [done| |].
    + eapply heap_chain_same; [|exact Hc]. intros q Hq. assert (q <> hp) as Hne by (by intros ->). specialize (L1 q Hne). destruct (heaps s2 !! q) as [h2|], (heaps s1 !! q) as [h1|]; try done.
      assert (no_prev h2 = no_prev h1) as E by (simpl in L1; congruence). simpl. f_equal. exact (f_equal heap_next E).
    + intros q Hq. destruct (Hl q Hq) as [F1 F2]. split; [done|]. intros t'. rewrite Ht. destruct (decide (t' = t)) as [->|Hne]; [rewrite lookup_insert_eq; intros [= ->]; done|by rewrite lookup_insert_ne].
  - congruence.
  - congruence.
  - intros a b q [[-> ->]|[Ha1 Ha]]%Hcase [[-> E]|[Hb1 Hb]]%Hcase H0 H1; [done|by destruct (Hown b)|subst q; by destruct (Hown a)|]. rewrite Eth in T7. by eapply T7.
  - intros a q [[-> ->]|[_ Ha]]%Hcase; [right; by exists h'|]. rewrite Eth in T8. destruct (T8 a q Ha) as [E|[h1 Hh1]]; [by left|right].
    destruct (decide (q = hp)) as [->|Hne]; [by exists h'|]. specialize (L1 q Hne). rewrite Hh1 in L1. destruct (heaps s2 !! q); [by eexists|done].
Qed.

Lemma linked_more t s hp s1 s2 : found s hp s1 -> linked t s1 hp s2 -> more_heaps s s2.
Proof using Type.
  intros [[M1 M2 M3 M4 M5 M6 M7] _ _ _ _ _ _] L. pose proof L as [L1 (h & h' & Hh & Hh' & Em & _) (E1 & E2 & E3 & E4 & E5) _ _ _]. constructor; try congruence.
  - intros q h0 Hq. destruct (M4 q h0 Hq) as (h1 & Hh1 & E). destruct (decide (q = hp)) as [->|Hne]; [exists h'; split; [done|congruence]|].
    specialize (L1 q Hne). rewrite Hh1 in L1. destruct (heaps s2 !! q) as [h2|]; [|done]. exists h2. split; [done|]. assert (no_prev h2 = no_prev h1) as E0 by (simpl in L1; congruence). rewrite <- E. exact (f_equal mview E0).
  - intros q h2 Hq. destruct (linked_back _ _ _ _ _ _ L Hq) as (h1 & Hh1 & E). rewrite E. by apply M5.
  - intros x Hx. rewrite E5. by apply M6.
  - intros sp v x Hs Hx. rewrite E4. by apply (M7 sp v).
Qed.

Lemma linked_joined t st s hp s1 s2 : Inv None st s -> found s hp s1 -> linked t s1 hp s2 -> joined t st s hp s2.
Proof using Type.
  intros I F L. destruct (more_step st s s2 I (linked_more _ _ _ _ _ F L) (linked_threads _ _ _ _ _ F L)) as [I2 Hl]. pose proof F as [_ _ (_ & _ & Hnf) Hown _ [Eth _] Hex]. pose proof (linked_more _ _ _ _ _ F L) as [_ _ _ _ _ _ Hmem].
  destruct L as [L1 (h & h' & Hh & Hh' & Em & Ei & Eo) _ _ _ Ht]. rewrite Eth in Ht. constructor; try done.
  - intros b n al Hb. exists al. split; [by apply Hl|done].
  - intros b n al Hb. exists al. by apply Hl.
  - intros b n al x Hb Hx. destruct (live_region (iv_base _ _ _ I) b n al Hb) as (_ & sp & v & Hs & Hr & _). apply (Hmem sp v); [done|by apply Hr].
  - right. split; [done|]. by exists h'.
  - intros t' q h0 Hq Hh0. assert (q <> hp) as Hne by (intros ->; by destruct (Hown t')). specialize (L1 q Hne). rewrite (Hex q h0 Hh0) in L1. destruct (heaps s2 !! q) as [h2|]; [|done].
    assert (no_prev h2 = no_prev h0) as E0 by (simpl in L1; congruence). exists h2. split_and!; [done|exact (f_equal id E0)|exact (f_equal owner_thread E0)].
Qed.

(** No heap: the thread is left with none. *)
Lemma chain_nonzero hs head l q : heap_chain hs head l -> q ∈ l -> q <> 0.
Proof using Type.
  revert head. induction l as [|a l IH]; intros head H Hq; [by apply not_elem_of_nil in Hq|]. destruct H as (_ & H0 & next & _ & H). apply elem_of_cons in Hq as [->|Hq]; [done|by apply (IH next)].
Qed.

Lemma no_heap_joined t st s s1 : kept ∅ ∅ st s st s1 -> Inv None st s1 -> joined t st s 0 (set_thread_heaps (<[t := 0]> (thread_heaps s1)) s1).
Proof using HG.
  intros [K1 K2 K3 K4 [K5 K6]] I1. set (s2 := set_thread_heaps _ s1). destruct (iv_threads _ _ _ (iv_base _ _ _ I1)) as [T1 T2 T3 T4 T5 T6 T7 T8].
  assert (forall a q, thread_heaps s2 !! a = Some q -> q <> 0 -> thread_heaps s1 !! a = Some q) as Hcase by (intros a q Ha Hq; simpl in Ha; apply lookup_insert_Some in Ha as [[-> <-]|[_ Ha]]; done).
  destruct (more_step st s1 s2 I1) as [I2 Hl]; [by apply same_heaps| |].
  - constructor; try done.
    + destruct T4 as (l & Hn & Hc & Hq). exists l. split_and!; [done|done|]. intros q Hql. destruct (Hq q Hql) as [F1 F2]. split; [done|]. intros a Ha. apply (F2 a), Hcase; [done|by eapply chain_nonzero].
    + intros a b q Ha Hb Hq0. apply Hcase in Ha, Hb; try done. by eapply T7.
    + intros a q Ha. destruct (decide (q = 0)) as [|Hq]; [by left|]. apply (T8 a). by apply Hcase.
  - constructor; [done| | | | |by left|].
    + intros b n al Hb. destruct (K1 b n al Hb) as (al' & Hb' & E); [set_solver|]. exists al'. split; [by apply Hl|done].
    + intros b n al Hb%Hl. destruct (K3 b n al Hb) as [?|?]; [set_solver|done].
    + intros b n al x Hb Hx. apply (K2 b n al x Hb); [set_solver|done].
    + simpl. by rewrite K5.
    + intros t' q h _ Hq. by apply K6.
Qed.

Lemma wp_link_end (Q : unit -> state -> Prop) t s hp h hs h2 :
  heaps s !! hp = Some h -> hp <> 0 -> hs !! hp = Some h2 -> mview h2 = mview h -> id h2 = id h -> (forall q, q <> hp -> no_prev <$> hs !! q = no_prev <$> heaps s !! q) ->
  (forall s2, linked t s hp s2 -> Q tt s2) ->
  wp (modify (set_global_heap_used hp);; upd_heap hp (set_owner_thread t)) (fun _ => wp (set_thread_heap t hp) Q) (set_heaps hs s).
Proof using Type.
  intros Hh H0 Hh2 Em Ei Hq HQ. do 3 wp_step. unfold set_thread_heap. do 2 wp_step. rewrite (proj2 (Z.eqb_neq hp 0)) by done. cbn [negb when]. apply wp_bind.
  eapply wp_get_heap; [wp_simpl; apply lookup_insert_eq|]. wp_simpl.
  assert (forall h3, mview h3 = mview h2 -> id h3 = id h2 -> owner_thread h3 = t -> linked t s hp (set_heaps (<[hp := h3]> hs) (set_thread_heaps (<[t := hp]> (thread_heaps s)) (set_global_heap_used hp s)))) as HL3.
  { intros h3 E1 E2 E3. constructor; try done.
    - intros q Hne. simpl. rewrite lookup_insert_ne by done. by apply Hq.
    - exists h, h3. simpl. rewrite lookup_insert_eq. split_and!; [done|done|congruence|congruence|done]. }
  apply wp_when; intros _; [eapply wp_upd_heap; [wp_simpl; apply lookup_insert_eq|]; wp_simpl; rewrite insert_insert_eq|]; apply HQ; by apply (HL3 (set_owner_thread t _)).
Qed.

(** The heap is put in front of the heaps in use; whether the first of these is
    the heap itself does not matter. *)
Lemma wp_link (Q : unit -> state -> Prop) t s hp h :
  heaps s !! hp = Some h -> hp <> 0 -> (global_heap_used s = 0 \/ is_Some (heaps s !! global_heap_used s)) -> (forall s2, linked t s hp s2 -> Q tt s2) ->
  wp (used ← gets global_heap_used;
      upd_heap hp (fun h => set_heap_prev 0 (set_heap_next used h));;
      when (negb (used =? 0)) (upd_heap used (set_heap_prev hp));;
      modify (set_global_heap_used hp);;
      upd_heap hp (set_owner_thread t)) (fun _ => wp (set_thread_heap t hp) Q) s.
Proof using Type.
  intros Hh H0 Hu HQ. do 3 wp_step. wp_step. set (h1 := set_heap_prev 0 _). set (u := global_heap_used s) in *.
  assert (forall q, q <> hp -> no_prev <$> <[hp := h1]> (heaps s) !! q = no_prev <$> heaps s !! q) as Hne by (intros q Hq; by rewrite lookup_insert_ne).
  apply wp_bind, wp_when; intros Hu0.
  - apply negb_true_iff, Z.eqb_neq in Hu0. destruct Hu as [|[hu Hhu]]; [done|]. destruct (decide (u = hp)) as [E|Hun].
    + rewrite E. eapply wp_upd_heap; [wp_simpl; apply lookup_insert_eq|]. wp_simpl. rewrite insert_insert_eq.
      eapply (wp_link_end Q t s hp h _ (set_heap_prev hp h1)); [done|done|apply lookup_insert_eq|done|done| |done]. intros q Hq. by rewrite lookup_insert_ne.
    + eapply wp_upd_heap; [wp_simpl; by rewrite lookup_insert_ne|]. wp_simpl.
      eapply (wp_link_end Q t s hp h _ h1); [done|done|by rewrite lookup_insert_ne, lookup_insert_eq|done|done| |done].
      intros q Hq. destruct (decide (q = u)) as [->|Hqu]; [|rewrite lookup_insert_ne by done; by apply Hne]. rewrite lookup_insert_eq, Hhu. done.
  - eapply (wp_link_end Q t s hp h _ h1); [done|done|apply lookup_insert_eq|done|done|done|done].
Qed.

Lemma wp_get_thread_heap_allocate (Q : Z -> state -> Prop) t st s :
  Inv None st s -> (forall hp s', joined t st s hp s' -> Q hp s') -> wp (get_thread_heap_allocate t) Q s.
Proof using HG.
  intros I HQ. unfold get_thread_heap_allocate, heap_allocate. do 2 apply wp_bind. apply (wp_heap_allocate_new _ st); [done| |].
  - intros s1 I1 K1. change (0 =? 0) with true. cbn [negb when]. do 2 wp_step. unfold set_thread_heap. do 3 wp_step. change (0 =? 0) with true. cbn [negb when]. do 2 wp_step. apply HQ. by apply no_heap_joined.
  - intros hp s1 F. pose proof F as [_ T ([h Hh] & Hpos & _) _ _ _ _]. rewrite (proj2 (Z.eqb_neq hp 0)) by lia. cbn [negb when]. apply wp_bind.
    eapply wp_mono; [eapply (wp_link (fun _ => Q hp)); [exact Hh|lia|apply T|]|].
    + intros s2 L. apply HQ. by eapply linked_joined.
    + intros [] s2 H2. wp_step. apply wp_bind. eapply wp_mono; [exact H2|]. intros [] s3 H3. by wp_step.
Qed.

Lemma wp_thread_initialize (Q : unit -> state -> Prop) t st s :
  Inv None st s -> (forall hp s', joined t st s hp s' -> Q tt s') -> (default global_heap_fallback (thread_heaps s !! t) <> global_heap_fallback -> Q tt s) -> wp (rpmalloc_thread_initialize t) Q s.
Proof using HG.
  intros I HQ HQ0. unfold rpmalloc_thread_initialize, get_thread_heap. do 2 wp_step. apply wp_when; intros Hf; [|apply HQ0; by apply Z.eqb_neq]. apply wp_bind, (wp_get_thread_heap_allocate _ t st); [done|]. intros hp s' J. wp_step. by eapply HQ.
Qed.
End Heaps.
End RpThread.
