(* ===== verification/RpSystem.v ===== *)
(** * A system for the allocator

    A log of mappings and unmappings, the next mapping behind all of them: the
    promises of [RpInv.MemoryLaws] can be kept. *)
From stdpp Require Import functions.
From S2P Require Import Prelude RpState Rpmalloc RpInv.

Module RpSystem.
Import RpState Rpmalloc RpInv.

(** A region that has been mapped, or unmapped. *)
Definition log : Type := list (bool * Z * Z).

Fixpoint log_mapped (k : log) (x : Z) : Prop :=
  match k with
  | [] => False
  | (true, a, n) :: k => log_mapped k x \/ a <= x < a + n
  | (false, a, n) :: k => log_mapped k x /\ ~ a <= x < a + n
  end.

(** The end of the regions. *)
Fixpoint top (k : log) : Z :=
  match k with
  | [] => 2 ^ 30
  | (true, a, n) :: k => Z.max (top k) (a + n)
  | (false, _, _) :: k => top k
  end.

Definition log_map (size alignment : Z) (k : log) : option (Z * Z * Z) * log :=
  let a := if alignment =? 0 then 4096 else alignment in
  let p := (top k + a - 1) / a * a in
  if (0 <? a) && (0 <=? size) && (p + size <=? 2 ^ 63) then (Some (p, 0, size), (true, p, size) :: k) else (None, k).

#[export] Instance log_interface : MemoryInterface :=
  mk_interface log log_map (fun _ _ k => (false, k)) (fun _ _ k => (false, k)) (fun a offset n k => (false, a - offset, n) :: k) (fun k => (0, k)).

#[export] Instance log_config : Config := mk_config 4096 false.

#[export] Instance log_config_laws : ConfigLaws.
Proof. exists 12. done. Qed.

Lemma top_above k x : log_mapped k x -> x < top k.
Proof. induction k as [|[[[] a] n] k IH]; simpl; [done| |]; intros H; [destruct H as [H|H]; [specialize (IH H); lia|lia]|by apply IH, H]. Qed.

Lemma top_low k : 2 ^ 30 <= top k.
Proof. induction k as [|[[[] a] n] k IH]; simpl; lia. Qed.

#[export] Instance log_laws : MemoryLaws.
Proof.
  refine {| mapped := log_mapped : os -> Z -> Prop |}; try done.
  - intros size alignment k p offset n k' H. cbn in H. unfold log_map in H. set (a := if alignment =? 0 then 4096 else alignment) in *.
    destruct (Z.ltb_spec 0 a) as [Ha|], (Z.leb_spec 0 size) as [Hs|]; cbn [andb] in H; try done. set (q := (top k + a - 1) / a * a) in *.
    destruct (Z.leb_spec (q + size) (2 ^ 63)) as [Hq|]; [|done]. injection H as <- <- <- <-. pose proof (top_low k). assert (top k <= q) as Hle by (unfold q; Z.div_mod_to_equations; nia).
    rewrite !Z.sub_0_r. split_and!; try lia.
    + intros H0. assert (a = alignment) as E by (unfold a; by rewrite (proj2 (Z.eqb_neq alignment 0))). rewrite <- E. apply Z.mod_mul. lia.
    + intros x Hx Hu. pose proof (top_above k x Hu). lia.
    + intros x. simpl. tauto.
  - intros size alignment k k' x H. cbn in H. unfold log_map in H. destruct (_ && _ && _); [done|]. by injection H as <-.
Defined.
End RpSystem.
