(* ===== verification/RpSafe.v ===== *)
(** * What the program may rely on

    Threads start, allocate and free; the program writes in its blocks.  In every
    state that this reaches, the blocks are apart and have their contents, and
    the functions of the interface return. *)
From stdpp Require Import functions.
From S2P Require Import Prelude RpState Rpmalloc RpSize RpWp RpBlocks RpLists RpInv RpLive RpDefer RpHuge RpAlloc RpHugeAlloc RpThread RpSystem.

Module RpSafe.
Import RpState Rpmalloc RpSize RpWp RpBlocks RpLists RpInv RpLive RpDefer RpHuge RpAlloc RpHugeAlloc RpThread RpSystem.

Section Safe.
Context `{HC : !Config} `{HM : !MemoryInterface} `{HL : !MemoryLaws} `{HG : !ConfigLaws}.

(** ** The functions of the interface *)

(** A thread that has a heap. *)
Definition ready (t : Z) (s : state) : Prop := exists hp, thread_heaps s !! t = Some hp /\ own_heap t s hp.

Definition allocate (t : Z) (fuel : nat) (size : Z) (zero : bool) : M Z := if zero then rpzalloc t fuel size else rpmalloc t fuel size.

Lemma ready_calm t s s' : calm s s' -> ready t s -> ready t s'.
Proof using Type. intros K (hp & Ht & Ho). exists hp. split; [|by eapply own_heap_calm]. destruct K as [-> _]. done. Qed.

Lemma wp_allocate_block (Q : Z -> state -> Prop) t fuel st s hp size zero :
  Inv None st s -> own_heap t s hp -> 0 <= size <= max_size -> (max_blocks s + 2 <= fuel)%nat ->
  (forall b st' s', given st s size zero b st' s' -> Q b s') -> (forall st' s', Inv None st' s' -> kept ∅ ∅ st s st' s' -> Q 0 s') ->
  wp (heap_allocate_block t fuel hp size zero) Q s.
Proof using HG HL.
  intros I Ho Hs Hf HQ HQ0. unfold heap_allocate_block, heap_allocate_block_generic, SMALL_GRANULARITY. destruct (Z.leb_spec size (16 * 64)) as [Hl|Hl].
  - rewrite tiny_class by lia. assert (class_ok ((size + 15) / 16)) as Hc by (change (0 <= (size + 15) / 16 < 109); Z.div_mod_to_equations; lia).
    apply (wp_allocate_class t Q fuel st s hp _ zero I Ho Hc Hf); [|done]. intros b st' s' Hg. apply (HQ b st'). eapply given_weaken; [|exact Hg].
    destruct (decide (size = 0)) as [->|]; [by vm_compute|]. rewrite class_small; Z.div_mod_to_equations; lia.
  - cbv zeta. pose proof (large_class_fits size ltac:(unfold max_size in *; lia)) as Hfit. destruct (size <=? LARGE_BLOCK_SIZE_LIMIT).
    + destruct Hfit as [Hc Hb]. rewrite (proj2 (Z.ltb_lt _ _) (proj2 Hc)). apply (wp_allocate_class t Q fuel st s hp _ zero I Ho Hc Hf); [|done]. intros b st' s' Hg. apply (HQ b st'). by eapply given_weaken.
    + rewrite (proj2 (Z.ltb_ge _ _) Hfit). apply (wp_allocate_huge t Q st); [done|done|lia| |]; [intros b s' Hg; by apply (HQ b st)|intros s' I' K'; by apply (HQ0 st)].
Qed.

Lemma wp_allocate (Q : Z -> state -> Prop) t fuel st s size zero :
  Inv None st s -> ready t s -> 0 <= size <= max_size -> (max_blocks s + 2 <= fuel)%nat ->
  (forall b st' s', given st s size zero b st' s' -> Q b s') -> (forall st' s', Inv None st' s' -> kept ∅ ∅ st s st' s' -> Q 0 s') ->
  wp (allocate t fuel size zero) Q s.
Proof using HG HL.
  intros I (hp & Ht & Ho) Hs Hf HQ HQ0. assert (forall z, wp (heap ← get_thread_heap t; heap_allocate_block t fuel heap size z) (fun b s' => z = zero -> Q b s') s) as H.
  { intros z. unfold get_thread_heap. do 2 wp_step. rewrite Ht. apply (wp_allocate_block _ t fuel st); [done|done|done|done| |].
    - intros b st' s' Hg Hz. subst z. by apply (HQ b st').
    - intros st' s' I' K' _. by apply (HQ0 st'). }
  unfold allocate, rpzalloc, rpmalloc. destruct zero; (eapply wp_mono; [apply H|]); intros b s' Hq; by apply Hq.
Qed.

(** ** Runs of the program *)

(** The blocks of the program, by address, with their contents. *)
Definition blocks : Type := gmap Z (list Z).

Inductive step : blocks * state -> blocks * state -> Prop :=
| step_start A t s s' : rpmalloc_thread_initialize t s = Some (tt, s') -> step (A, s) (A, s')
| step_malloc A t fuel size s b s' : ready t s -> 0 <= size <= max_size -> (max_blocks s + 2 <= fuel)%nat -> rpmalloc t fuel size s = Some (b, s') -> b <> 0 ->
    step (A, s) (<[b := read (mem s') b size]> A, s')
| step_zalloc A t fuel size s b s' : ready t s -> 0 <= size <= max_size -> (max_blocks s + 2 <= fuel)%nat -> rpzalloc t fuel size s = Some (b, s') -> b <> 0 ->
    step (A, s) (<[b := replicate (Z.to_nat size) 0]> A, s')
| step_none A t fuel size zero s s' : ready t s -> 0 <= size <= max_size -> (max_blocks s + 2 <= fuel)%nat -> allocate t fuel size zero s = Some (0, s') -> step (A, s) (A, s')
| step_free A t s b s' : is_Some (A !! b) -> rpfree t b s = Some (tt, s') -> step (A, s) (delete b A, s')
| step_free_null A t s s' : rpfree t 0 s = Some (tt, s') -> step (A, s) (A, s')
| step_write A s b old new : A !! b = Some old -> length new = length old -> step (A, s) (<[b := new]> A, set_mem (write (mem s) b new) s).

(** The static data of the program, in any memory and on any system. *)
Definition initial_state (m : Z -> Z) (k : os) : state :=
  mk_state {[global_heap_fallback := zero_heap]} ∅ ∅ m k ∅ 0 0 0 false 1 (replicate HUGE_CACHE_SLOT_COUNT (0, 0)) 0.

Lemma read_zero m b n : (forall x, b <= x < b + n -> m x = 0) -> read m b n = replicate (Z.to_nat n) 0.
Proof using Type.
  intros H. apply list_eq. intros i. unfold read. rewrite list_lookup_fmap. destruct (decide (i < Z.to_nat n)%nat) as [Hi|Hi].
  - rewrite lookup_seqZ_lt, lookup_replicate_2 by lia. simpl. rewrite H; [done|lia].
  - rewrite lookup_seqZ_ge by lia. symmetry. apply lookup_replicate_None. lia.
Qed.

(** The allocator has block [b] as one in use, and its contents are [bs]. *)
Definition holds (st : gmap Z status) (s : state) (b : Z) (bs : list Z) : Prop :=
  0 < b /\ b mod 16 = 0 /\ (exists k al, live st s b k al /\ Z.of_nat (length bs) <= k) /\ read (mem s) b (Z.of_nat (length bs)) = bs.
Definition held (A : blocks) (st : gmap Z status) (s : state) : Prop := forall b bs, A !! b = Some bs -> holds st s b bs.

(** What holds of the blocks of the program: the allocator has them as blocks in use. *)
Definition agree (A : blocks) (s : state) : Prop := exists st, Inv None st s /\ held A st s.

Lemma agree_keep A st s D N st' s' :
  kept D N st s st' s' -> held A st s -> forall b bs, A !! b = Some bs -> b ∉ D -> holds st' s' b bs.
Proof using HG HL.
  intros [K1 K2 K3 K4 K5] HA b bs Hb HD. destruct (HA b bs Hb) as (H1 & H2 & (k & al & Hl & Hk) & H3). split_and!; [done|done| |].
  - destruct (K1 b k al Hl HD) as (al' & Hl' & _). by exists k, al'.
  - rewrite <- H3 at 2. apply read_ext. intros x Hx. apply (K2 b k al x Hl HD). lia.
Qed.

Lemma agree_kept A st s st' s' :
  kept ∅ ∅ st s st' s' -> Inv None st' s' -> held A st s -> agree A s'.
Proof using HG HL. intros K I' HA. exists st'. split; [done|]. intros b bs Hb. eapply (agree_keep A st s); [exact K|done|done|set_solver]. Qed.

Lemma agree_given A st s size zero b st' s' bs :
  held A st s -> given st s size zero b st' s' -> Z.of_nat (length bs) <= size -> read (mem s') b (Z.of_nat (length bs)) = bs -> agree (<[b := bs]> A) s'.
Proof using HG HL.
  intros HA [G1 G2 G3 (k & al & G4 & G4') [G5 G5'] G6] Hlen Hr. exists st'. split; [done|]. intros c cs [[<- <-]|[Hne Hc]]%lookup_insert_Some.
  - split_and!; [done|done| |done]. exists k, al. split; [done|lia].
  - eapply (agree_keep A st s); [exact G2|done|done|set_solver].
Qed.

Lemma agree_joined A t st s hp s' : Inv None st s -> held A st s -> joined t st s hp s' -> agree A s'.
Proof using HG HL.
  intros I HA [J1 J2 J3 J4 J5 J6 J7]. exists st. split; [done|]. intros b bs Hb. destruct (HA b bs Hb) as (H1 & H2 & (k & al & Hl & Hk) & H3). split_and!; [done|done| |].
  - destruct (J2 b k al Hl) as (al' & Hl' & _). by exists k, al'.
  - rewrite <- H3 at 2. apply read_ext. intros x Hx. apply (J4 b k al x Hl). lia.
Qed.

Lemma agree_write A st s b old new : Inv None st s -> held A st s -> A !! b = Some old -> length new = length old -> agree (<[b := new]> A) (set_mem (write (mem s) b new) s).
Proof using HG HL.
  intros [I L] HA Hb Hlen. destruct (HA b old Hb) as (H1 & H2 & (k & al & Hl & Hk) & H3).
  destruct (live_write I b k al (write (mem s) b new) Hl) as [I' K'].
  { intros x Hx. destruct (decide (b <= x < b + Z.of_nat (length new))); [lia|]. destruct Hx. apply write_other. lia. }
  exists st. split; [by split|]. intros c cs [[<- <-]|[Hne Hc]]%lookup_insert_Some.
  - split_and!; [done|done|exists k, al; split; [exact Hl|lia]|apply read_write].
  - destruct (HA c cs Hc) as (C1 & C2 & (k' & al' & C3 & C4) & C5). split_and!; [done|done|by exists k', al'|]. rewrite <- C5 at 2. apply read_ext. intros x Hx.
    destruct K' as [_ K2 _ _ _]. apply (K2 c k' al' x C3); [set_solver|lia].
Qed.

Lemma wp_result {X} (m : M X) (Q : X -> state -> Prop) s a s' : wp m Q s -> m s = Some (a, s') -> Q a s'.
Proof using Type. unfold wp. intros H E. by rewrite E in H. Qed.

Lemma wp_some {X} (m : M X) (Q : X -> state -> Prop) s : wp m Q s -> exists a s', m s = Some (a, s') /\ Q a s'.
Proof using Type. unfold wp. destruct (m s) as [[a s']|]; [intros H; by exists a, s'|done]. Qed.

Lemma wp_some_unit (m : M unit) (Q : state -> Prop) s : wp m (fun _ => Q) s -> exists s', m s = Some (tt, s') /\ Q s'.
Proof using Type. intros H. destruct (wp_some _ _ _ H) as ([] & s' & H'). by exists s'. Qed.

Lemma agree_step A s A' s' : step (A, s) (A', s') -> agree A s -> agree A' s'.
Proof using HG HL.
  intros Hstep (st & I & HA). inversion Hstep as [? t ? ? E|? t fuel size ? b ? Hr Hs Hf E H0|? t fuel size ? b ? Hr Hs Hf E H0|? t fuel size zero ? ? Hr Hs Hf E|? t ? b ? [bs Hb] E|? t ? ? E|? ? b old new Hb Hlen]; subst.
  - refine (wp_result _ (fun _ s' => agree A' s') s tt s' _ E). apply (wp_thread_initialize _ t st); [done| |].
    + intros hp s1 J. by eapply agree_joined.
    + intros _. by exists st.
  - refine (wp_result (allocate t fuel size false) (fun b s' => b <> 0 -> agree (<[b := read (mem s') b size]> A) s') s b s' _ E H0). apply (wp_allocate _ t fuel st); [done|done|done|done| |done].
    intros c st1 s1 Hg _. eapply (agree_given A st s size false c st1 s1); [done|done|rewrite length_read; lia|]. by rewrite length_read, Z2Nat.id by lia.
  - refine (wp_result (allocate t fuel size true) (fun b s' => b <> 0 -> agree (<[b := replicate (Z.to_nat size) 0]> A) s') s b s' _ E H0). apply (wp_allocate _ t fuel st); [done|done|done|done| |done].
    intros c st1 s1 Hg _. eapply (agree_given A st s size true c st1 s1); [done|done|rewrite length_replicate; lia|]. rewrite length_replicate, Z2Nat.id by lia. apply read_zero. intros x Hx. by apply (gv_zero _ _ _ _ _ _ _ Hg).
  - refine (wp_result (allocate t fuel size zero) (fun b s' => b = 0 -> agree A' s') s 0 s' _ E eq_refl). apply (wp_allocate _ t fuel st); [done|done|done|done| |].
    + intros c st1 s1 Hg H0. destruct (gv_aligned _ _ _ _ _ _ _ Hg). lia.
    + intros st1 s1 I1 K1 _. by eapply agree_kept.
  - destruct (HA b bs Hb) as (H1 & H2 & (k & al & Hl & Hk) & H3). refine (wp_result _ (fun _ s' => agree (delete b A) s') s tt s' _ E). unfold rpfree. rewrite (proj2 (Z.eqb_neq b 0)) by lia.
    apply (wp_deallocate t _ st s b k al); [done|done|by left|]. intros st1 s1 I1 K1. exists st1. split; [done|]. intros c cs [Hne Hc]%lookup_delete_Some. eapply (agree_keep A st s); [done|done|done|set_solver].
  - unfold rpfree in E. change (0 =? 0) with true in E. injection E as <-. by exists st.
  - by eapply agree_write.
Qed.

(** ** The initial state *)

Lemma initial_inv m k : Inv None ∅ (initial_state m k).
Proof using Type.
  assert (forall hp h, heaps (initial_state m k) !! hp = Some h -> hp = global_heap_fallback /\ h = zero_heap) as Hh by (intros hp h E; simpl in E; by apply lookup_singleton_Some in E as [<- <-]).
  assert (forall x, listing m ∅ 0 x 0) as Hnil by (intros x; by apply listing_empty).
  assert (forall x, placed ∅ None x []) as Hpl by (intros x; split; [apply NoDup_nil_2|]; intros p; split; [intros Hp; by apply not_elem_of_nil in Hp|by intros (_ & r & Hr & _)]).
  split; [constructor|].
  - constructor; try done. intros hp v Hv. rewrite lookup_fmap in Hv. destruct (heaps (initial_state m k) !! hp) as [h|] eqn:E; [|done]. injection Hv as <-. destruct (Hh hp h E) as [-> ->].
    split; [intros c|intros t]; exists 0; apply Hnil.
  - intros p r Hr. done.
  - intros p r Hr. done.
  - by constructor.
  - by intros p r Hr.
  - intros hp h t E Ht H0. by destruct (Hh hp h E) as [_ ->].
  - constructor.
    + done.
    + intros sp [H0 (i & v & Hv & E)]. apply lookup_replicate in Hv as [-> _]. by destruct H0.
    + intros i j v w Hv _ _ H0. apply lookup_replicate in Hv as [-> _]. done.
  - constructor; try done.
    + intros hp h x E Hne. by destruct (Hh hp h E).
    + intros hp h E Hne. by destruct (Hh hp h E).
    + by left.
    + exists []. split_and!; [apply NoDup_nil_2|done|]. intros hp Hhp. by apply not_elem_of_nil in Hhp.
  - constructor; intros hp v Hv c; rewrite lookup_fmap in Hv; destruct (heaps (initial_state m k) !! hp) as [h|] eqn:E; [|done| |done]; injection Hv as <-; destruct (Hh hp h E) as [-> ->]; exists [].
    + split; [done|split; [done|apply Hpl]].
    + split; [done|apply Hpl].
Qed.

Lemma agree_reachable m k A s : rtc step (∅, initial_state m k) (A, s) -> agree A s.
Proof using HG HL.
  intros H. remember (∅, initial_state m k) as x eqn:Ex. remember (A, s) as y eqn:Ey. assert (forall x y : blocks * state, rtc step x y -> agree x.1 x.2 -> agree y.1 y.2) as Hsteps.
  { intros x0 y0 Hs. induction Hs as [|[A1 s1] [A2 s2] z Hs _ IH]; [done|]. intros Ha. apply IH. by eapply agree_step. }
  specialize (Hsteps x y H). subst. apply Hsteps. exists ∅. split; [apply initial_inv|]. intros b bs Hb. done.
Qed.

(** ** Properties *)

(** C1: memory safety.  Whatever threads start, allocate (up to 2^43 bytes at a
    time) and free, and whatever the program writes in its blocks, in any order
    of calls, over a memory interface whose commits succeed, as those of POSIX
    do: every block of the program is aligned to 16 bytes, has the contents that
    the program has put there (zeros when it asked for them), and two blocks are
    apart. *)
Theorem blocks_are_kept m k A s :
  rtc step (∅, initial_state m k) (A, s) ->
  (forall b bs, A !! b = Some bs -> 0 < b /\ b mod 16 = 0 /\ read (mem s) b (Z.of_nat (length bs)) = bs) /\
  (forall b bs c cs, A !! b = Some bs -> A !! c = Some cs -> b <> c -> b + Z.of_nat (length bs) <= c \/ c + Z.of_nat (length cs) <= b).
Proof using HG HL.
  intros H. destruct (agree_reachable _ _ _ _ H) as (st & I & HA). split.
  - intros b bs Hb. destruct (HA b bs Hb) as (H1 & H2 & _ & H3). done.
  - intros b bs c cs Hb Hc Hne. destruct (HA b bs Hb) as (_ & _ & (n & al & Hl & Hn) & _), (HA c cs Hc) as (_ & _ & (n' & al' & Hl' & Hn') & _).
    destruct (live_apart (iv_base _ _ _ I) b n al c n' al' Hl Hl' Hne); lia.
Qed.

(** C2: the functions return.  In every state that the program reaches, a thread that
    has a heap gets an answer to a request of up to 2^43 bytes: none, or a block
    that the program does not have; it can free each of its blocks; and a thread
    can start.  Threads with a heap keep it. *)
Theorem calls_return m k A s t :
  rtc step (∅, initial_state m k) (A, s) ->
  (forall fuel size zero, ready t s -> 0 <= size <= max_size -> (max_blocks s + 2 <= fuel)%nat ->
     exists b s', allocate t fuel size zero s = Some (b, s') /\ (b <> 0 -> A !! b = None) /\ forall t', ready t' s -> ready t' s') /\
  (forall b, is_Some (A !! b) -> exists s', rpfree t b s = Some (tt, s') /\ forall t', ready t' s -> ready t' s') /\
  (exists s', rpmalloc_thread_initialize t s = Some (tt, s')).
Proof using HG HL.
  intros H. destruct (agree_reachable _ _ _ _ H) as (st & I & HA). split_and!.
  - intros fuel size zero Hr Hs Hf. apply wp_some. apply (wp_allocate _ t fuel st); [done|done|done|done| |].
    + intros b st' s' [G1 G2 G3 G4 G5 G6]. split; [|intros t'; apply ready_calm, G2]. intros _. destruct (A !! b) as [bs|] eqn:Hb; [|done]. destruct (HA b bs Hb) as (_ & _ & (n & al & Hl & _) & _). by destruct (G3 n al).
    + intros st' s' I' K'. split; [done|]. intros t'. apply ready_calm, K'.
  - intros b [bs Hb]. destruct (HA b bs Hb) as (H1 & H2 & (n & al & Hl & Hn) & H3). apply wp_some_unit. unfold rpfree. rewrite (proj2 (Z.eqb_neq b 0)) by lia.
    apply (wp_deallocate t _ st s b n al); [done|done|by left|]. intros st1 s1 I1 K1 t'. apply ready_calm, K1.
  - destruct (wp_some_unit (rpmalloc_thread_initialize t) (fun _ => True) s) as (s' & E & _); [|by exists s']. apply (wp_thread_initialize _ t st); done.
Qed.
End Safe.

(** ** A run *)

Definition after {A} (m : M A) (s : state) : state := match m s with Some (_, s') => s' | None => s end.

Lemma after_run {A} (m : M A) s a : fst <$> m s = Some a -> m s = Some (a, after m s).
Proof. unfold after. destruct (m s) as [[b s']|]; [|done]. by intros [= ->]. Qed.

Definition ready_check (t : Z) (s : state) : bool :=
  match thread_heaps s !! t with
  | Some hp => match heaps s !! hp with Some h => negb (id h =? 0) && (owner_thread h =? t) | None => false end
  | None => false
  end.

Lemma ready_checked t s : ready_check t s = true -> ready t s.
Proof.
  unfold ready_check, ready, own_heap. destruct (thread_heaps s !! t) as [hp|] eqn:E; [|done]. destruct (heaps s !! hp) as [h|] eqn:Eh; [|done]. intros [H1%negb_true_iff H2]%andb_true_iff.
  exists hp. split; [done|]. exists h. split_and!; [done|lia|right; lia].
Qed.

(** Thread 7 starts, allocates 40 bytes, writes in them, allocates 100 zeros and
    3 MiB, and frees the first block. *)
Definition run0 : state := initial_state (fun _ => 255) ([] : log).
Definition run1 : state := after (rpmalloc_thread_initialize 7) run0.
Definition fuel_for (s : state) : nat := max_blocks s + 2.
Definition block1 : Z := 1342177408.
Definition run2 : state := after (rpmalloc 7 (fuel_for run1) 40) run1.
Definition text : list Z := map (fun i => i mod 256) (seqZ 1 40).
Definition run3 : state := set_mem (write (mem run2) block1 text) run2.
Definition block2 : Z := 1342242944.
Definition run4 : state := after (rpzalloc 7 (fuel_for run3) 100) run3.
Definition block3 : Z := 1610612864.
Definition run5 : state := after (rpzalloc 7 (fuel_for run4) 3145728) run4.

Definition run6 : state := after (rpfree 7 block1) run5.
Lemma run1_ok : rpmalloc_thread_initialize 7 run0 = Some (tt, run1).
Proof. unfold run1. apply (after_run (rpmalloc_thread_initialize 7) run0 tt). by vm_compute. Qed.

Lemma run2_ok : rpmalloc 7 (fuel_for run1) 40 run1 = Some (block1, run2).
Proof. unfold run2. apply (after_run (rpmalloc 7 (fuel_for run1) 40) run1 block1). by vm_compute. Qed.

Lemma run4_ok : rpzalloc 7 (fuel_for run3) 100 run3 = Some (block2, run4).
Proof. unfold run4. apply (after_run (rpzalloc 7 (fuel_for run3) 100) run3 block2). by vm_compute. Qed.

Lemma run5_ok : rpzalloc 7 (fuel_for run4) 3145728 run4 = Some (block3, run5).
Proof. unfold run5. apply (after_run (rpzalloc 7 (fuel_for run4) 3145728) run4 block3). by vm_compute. Qed.

Lemma run6_ok : rpfree 7 block1 run5 = Some (tt, run6).
Proof. unfold run6. apply (after_run (rpfree 7 block1) run5 tt). by vm_compute. Qed.

Lemma run1_ready : ready 7 run1.
Proof. apply ready_checked. by vm_compute. Qed.

Lemma run2_ready : ready 7 run2.
Proof. apply ready_checked. by vm_compute. Qed.

Lemma run3_ready : ready 7 run3.
Proof. apply ready_checked. by vm_compute. Qed.

Lemma run4_ready : ready 7 run4.
Proof. apply ready_checked. by vm_compute. Qed.

Definition blocks2 : blocks := <[block1 := read (mem run2) block1 40]> ∅.
Definition blocks3 : blocks := <[block1 := text]> blocks2.
Definition blocks4 : blocks := <[block2 := replicate (Z.to_nat 100) 0]> blocks3.
Definition blocks5 : blocks := <[block3 := replicate (Z.to_nat 3145728) 0]> blocks4.
Definition blocks6 : blocks := delete block1 blocks5.

Lemma run2_step : step (∅, run1) (blocks2, run2).
Proof. unfold blocks2. apply (step_malloc ∅ 7 (fuel_for run1) 40 run1 block1 run2); [exact run1_ready|unfold max_size; lia|apply le_n|exact run2_ok|by vm_compute]. Qed.

Lemma run3_step : step (blocks2, run2) (blocks3, run3).
Proof. unfold blocks3, run3. apply (step_write blocks2 run2 block1 (read (mem run2) block1 40) text); [unfold blocks2; apply lookup_insert_eq|by rewrite length_read]. Qed.

Lemma run4_step : step (blocks3, run3) (blocks4, run4).
Proof. unfold blocks4. apply (step_zalloc blocks3 7 (fuel_for run3) 100 run3 block2 run4); [exact run3_ready|unfold max_size; lia|apply le_n|exact run4_ok|by vm_compute]. Qed.

Lemma run5_step : step (blocks4, run4) (blocks5, run5).
Proof. unfold blocks5. apply (step_zalloc blocks4 7 (fuel_for run4) 3145728 run4 block3 run5); [exact run4_ready|unfold max_size; lia|apply le_n|exact run5_ok|by vm_compute]. Qed.

Lemma run6_step : step (blocks5, run5) (blocks6, run6).
Proof.
  unfold blocks6. apply (step_free blocks5 7 run5 block1 run6); [|exact run6_ok].
  exists text. unfold blocks5, blocks4, blocks3.
  etransitivity; [apply lookup_insert_ne; by vm_compute|]. etransitivity; [apply lookup_insert_ne; by vm_compute|]. apply lookup_insert_eq.
Qed.

Lemma run2_steps : rtc step (∅, run0) (blocks2, run2).
Proof. apply (rtc_l _ _ (∅, run1)); [exact (step_start ∅ 7 run0 run1 run1_ok)|]. apply rtc_once, run2_step. Qed.

Lemma run6_steps : rtc step (∅, run0) (blocks6, run6).
Proof.
  transitivity (blocks2, run2); [exact run2_steps|]. apply (rtc_l _ _ (blocks3, run3)); [exact run3_step|]. apply (rtc_l _ _ (blocks4, run4)); [exact run4_step|].
  apply (rtc_l _ _ (blocks5, run5)); [exact run5_step|]. apply rtc_once, run6_step.
Qed.

Example blocks_are_kept_witness :
  rtc step (∅, run0) (blocks6, run6) /\
  (forall b bs, blocks6 !! b = Some bs -> 0 < b /\ b mod 16 = 0 /\ read (mem run6) b (Z.of_nat (length bs)) = bs) /\
  (forall b bs c cs, blocks6 !! b = Some bs -> blocks6 !! c = Some cs -> b <> c -> b + Z.of_nat (length bs) <= c \/ c + Z.of_nat (length cs) <= b).
Proof. split; [exact run6_steps|]. exact (blocks_are_kept (fun _ => 255) ([] : log) blocks6 run6 run6_steps). Defined.

Example calls_return_witness :
  ready 7 run2 /\
  (forall fuel size zero, ready 7 run2 -> 0 <= size <= max_size -> (max_blocks run2 + 2 <= fuel)%nat ->
     exists b s', allocate 7 fuel size zero run2 = Some (b, s') /\ (b <> 0 -> blocks2 !! b = None) /\ forall t', ready t' run2 -> ready t' s') /\
  (forall b, is_Some (blocks2 !! b) -> exists s', rpfree 7 b run2 = Some (tt, s') /\ forall t', ready t' run2 -> ready t' s') /\
  (exists s', rpmalloc_thread_initialize 7 run2 = Some (tt, s')).
Proof. split; [exact run2_ready|]. exact (calls_return (fun _ => 255) ([] : log) blocks2 run2 7 run2_steps). Defined.
End RpSafe.
